(* ===== verification/_CoqProject ===== *)
-Q . S2P
Prelude.v
Arena.v
OrderIndex.v
OrderRefMap.v
Level.v
LevelOps.v
Lob.v
LobView.v
LobInv.v
Book.v
LobRefine.v
LobInsert.v
LobCorrect.v
LobQueries.v
LobTheorems.v
Ring.v
Consumer.v
SymbolTable.v
Itch.v
Feed.v
FeedSim.v
FeedGen.v
FeedPoll.v
Pipeline.v
Mold.v
Safety.v
Breaker.v
Reconciliation.v
AuditLog.v
Recovery.v
OrderTable.v
Risk.v
Gateway.v
GatewayBooks.v
GatewayCorrect.v
GatewaySubmit.v
GatewayTotal.v
GatewayTheorems.v
Stops.v
ArenaLayout.v
Ouch.v
Mempool.v
Auction.v
DarkPool.v
Mbo.v
Contingent.v
Stp.v
Luld.v
WsText.v
WsAccept.v
WsConn.v
WsSubs.v
WsServer.v
WsInv.v
WsWorker.v
WsBroadcast.v
WsUpgrade.v
WsRun.v
WsClaims.v
WsAdmission.v
HttpText.v
Printf.v
Fix.v
HttpBridge.v
HttpServer.v
HttpInv.v
HttpReply.v
HttpRun.v
HttpClaims.v
Telemetry.v
Metrics.v
SessionSecurity.v
Raft.v
Compliance.v
Sharding.v
Routing.v
Settlement.v
Journals.v
Fast.v
Desk.v
