(* ===== verification/Prelude.v ===== *)
(** * A verification of the Fort/LUV trading engine

    LUV is a low-latency trading engine in C++20.  Market data arrives as ITCH 5.0
    messages, live in MoldUDP64 packets or from a simulator; a feed decodes them into
    ticks and pushes them on a lock-free ring; a consumer pops the ticks into the limit
    order book.  Orders leave through the execution gateway, which checks risk limits,
    reserves exposure, writes an audit log and a recovery ledger, and applies the
    venue's reports; fills are broadcast to WebSocket clients.  An HTTP control plane
    submits, queries and cancels orders through a bridge to the gateway's thread and
    hands upgrades to the WebSocket server.  All memory is one arena carved at
    start-up.

    ** How the code is modelled

    Integers are [Z] with their wrap-around written out ([u8] .. [u64], [i64]); signed
    overflow goes through [chk64] and [chk32].  Arrays are lists of their fixed
    length; a record is a struct, an inductive type an enum.  Pure functions are
    functions; methods that change state are functions of the state, or programs in
    the state-and-failure monad [ST] of this file.  [None] means undefined behaviour
    (an access outside an array, signed overflow, a division by zero) or a loop out
    of fuel, so that a theorem that says [Some] excludes both.  Results a method
    reports, errors included, are values.  System call outcomes, clock readings and
    random seeds are arguments.  Code that runs in several threads is a step relation
    with one shared access per step.

    ** Which file models what

    Memory and data (src/luv_arena.hpp, src/luv_numeric_limits.hpp):
    Arena (price levels, order slots, ticks, limits), ArenaLayout (carving the slabs,
    the sharded ring).

    Limit order book (src/luv_lob.hpp): OrderIndex (the interface the book asks of its
    index), OrderRefMap (the hash index and that it discharges the interface), Level
    and LevelOps (one price level and its linked queue), Lob (the engine: every handler
    and the dispatcher), LobView and LobInv (the flat slab as lists, the invariant),
    Book (the abstract book), LobRefine, LobInsert, LobCorrect (the handlers implement
    it), LobQueries and LobTheorems (queries, time priority, the claims).

    Market data: Ring (src/luv_arena.hpp, src/luv_net_ring.hpp), Consumer
    (src/luv_consumer.hpp), SymbolTable and Itch (src/luv_decode_itch.hpp), Feed
    (src/luv_feed.hpp, the interface as a class with laws), FeedSim, FeedGen and
    FeedPoll (src/luv_feed_sim.hpp), Pipeline (feed, ring and consumer composed), Mold
    (src/luv_moldudp64.hpp).

    Safety (src/luv_safety.hpp, src/luv_recovery.hpp): Safety (sequence tracker,
    shutdown, rate limiter), Breaker, Reconciliation, AuditLog, Recovery.

    Execution (src/luv_execution.hpp, src/luv_ouch.hpp): OrderTable (the interface to
    the reconciliation ledger), Risk, Gateway, GatewayBooks, GatewayCorrect,
    GatewaySubmit, GatewayTotal, GatewayTheorems, Stops, Ouch (venue messages driving
    the gateway).

    Matching extensions: Mempool
    (src/luv_mempool.hpp), Auction (src/luv_auction.hpp), DarkPool
    (src/luv_dark_pool.hpp), Mbo (src/luv_mbo.hpp, scanned arrays
    as finite maps), Contingent
    (src/luv_contingent_orders.hpp), Stp (src/luv_stp.hpp, self-trade prevention and
    market-maker protection), Luld (src/luv_luld.hpp, price bands), Sharding
    (src/luv_sharding.hpp, orders spread over workers by symbol).

    Routing and desk: Routing (src/luv_sor.hpp, src/luv_sor_smart_router.hpp,
    src/luv_strategy.hpp: two order routers, three schedules and their sandbox), Desk
    (src/luv_order_peg.hpp, src/luv_multileg.hpp, src/luv_locate.hpp,
    src/luv_hw_watchdog.hpp: pegs, spreads, short-sale locates, latency samples).

    After the trade: Settlement (src/luv_clearing.hpp, src/luv_reconciliation.hpp,
    src/luv_dtc_settlement.hpp, src/luv_market_access_15c3_5.hpp,
    src/luv_reg_sho_204.hpp), Journals (src/luv_worm_audit.hpp,
    src/luv_sec_rule_17a4_records.hpp, src/luv_drop_copy.hpp,
    src/luv_nanosecond_replay.hpp).

    [std::sort] is the class [Sorter] of this file: a permutation that is sorted when the
    comparison is a strict weak order; insertion sort is an instance.

    Text and numbers of the C library: Printf (decimal conversions, binary32 and
    binary64 with rounding to nearest).

    Venue protocols: Fix (src/luv_fix.hpp, messages, checksums and session numbers), Fast
    (src/luv_fast_decoder.hpp, stop-bit integers, presence maps and strings).

    Telemetry (src/luv_telemetry.hpp): Telemetry (the ring, publishing, batches
    and percentiles, the UDP bridge), Metrics (the Prometheus text and the server that
    shows it).

    Security, replication and compliance: SessionSecurity
    (src/luv_session_security.hpp), Raft (src/luv_raft_sync.hpp,
    src/luv_multiregion_raft_cluster.hpp), Compliance (src/luv_compliance.hpp).

    WebSocket server (src/luv_websocket.cpp, src/luv_websocket.hpp): WsText (JSON and
    UTF-8), WsAccept (handshake, SHA-1, base64), WsConn (one connection and its
    frames), WsSubs (subscription index), WsServer (every method of the worker), WsInv,
    WsWorker, WsBroadcast, WsUpgrade, WsRun, WsClaims (the invariant, the methods, whole
    runs, the claims), WsAdmission (leases of the producers, step by step).

    HTTP control plane (src/luv_http_server.cpp, src/luv_http_server.hpp): HttpText
    (request lines, header fields, JSON orders), HttpBridge (API keys, the queues
    between the listener and the gateway's thread), HttpServer (every method of the
    listener), HttpInv, HttpRun (the invariant and the methods), HttpReply (what is
    sent), HttpClaims (runs with all threads interleaved, the claims).

    ** What the theorems show

    The order book refines an abstract book of price levels and queues for every
    sequence of ticks, never leaves its arrays, keeps price and time priority and
    reports exact best prices; its hash index is a finite map.  The rings are
    first-in first-out and race free.  The decoder reads no byte outside a message;
    what the simulator writes it reads back; feed, ring and consumer together apply
    exactly the ticks the feed published to the book, each once and in order.  The
    gateway's accounts balance with the live orders after any sequence of calls and
    reports that neither reuses the id of a live order nor fills a finished one, a
    submission is all or nothing, and the branch-free risk gate is exactly the
    conjunction of its limits.  Replaying the
    recovery ledger restores the orders that were live; both logs detect damage.  The
    WebSocket server survives every client without leaving a buffer, closes each
    descriptor once, answers frames exactly, and delivers each fill to exactly its
    subscribers; nobody is inside it once it is stopped.  The control plane survives
    every client too: it serves no command without a configured key, answers each
    request to the client that made it and to no other, in responses that are never
    cut short without the client being able to tell, and keeps its one snapshot buffer
    and its sockets accounted for; the bridge loses and reorders nothing, and an order
    is submitted exactly as it was written.

    Around the trading path: a FIX report whose text holds no separator reads back as it
    was written; telemetry loses only the snapshots it counts and metrics are shown to nobody without the token; no
    message passes the session guard twice; the log of a standby is a prefix of its
    leader's and the cluster commits exactly what three of five regions acknowledged;
    the compliance gate admits exactly the orders within a customer's limits; self-trade
    prevention and the price bands act when and only when their conditions hold; sharded
    dispatch keeps the order of each symbol.  Routers and schedules route exactly the
    quantity of the order, best venue first; the clearing accounts net to zero per symbol;
    reconciliation and settlement report exactly the breaks; a short sale passes exactly
    when unexpired locates cover it; a drop copy replays exactly what was published; what
    is encoded as FAST decodes to itself.  Theorems that show a defect of the code
    (a split brain of two standbys, a forged message that uses up its number, a ledger
    broken by a failed write and others) stand beside them.

    ** Bounds and fuel

    Loops that are not structural carry fuel, chosen from the bound in the code: the
    capacity of the table that is probed, the 16 slots of a level, the bytes of a
    buffer divided by the shortest frame, the length of a queue.  The totality parts of
    the theorems show that it is enough: they state that the operation returns.

    ** Not modelled

    Sockets, files and memory mappings themselves (their outcomes are inputs); thread
    start-up and pinning; diagnostic printing; the kqueue branch of the WebSocket
    server; the C++ memory order below the level of atomic accesses that may be stale;
    floating-point analytics (features, inference, pricing, microstructure and margin
    models), whose correctness is a question of approximation, and the stand-alone
    regulatory report builders.  Cryptographic hashes (SHA-256, HMAC) of the system
    libraries are parameters. *)

From Stdlib Require Import ZArith Lia Ascii String.
From stdpp Require Import base tactics gmap numbers option sorting list.

#[global] Set Default Goal Selector "!".
Open Scope Z_scope.

(** Case analysis on the outermost boolean test of the goal. *)
Ltac case_cond :=
  match goal with |- context [if ?b then _ else _] => destruct b end.

(** Prove a decidable closed fact by evaluating its decision procedure. *)
Ltac by_decide := apply (bool_decide_unpack _); vm_compute; exact I.

(** ** Machine integers

    A [w]-bit unsigned value is a [Z] in [0, 2^w); conversions wrap. *)

Definition u8 (z : Z) : Z := z mod 2 ^ 8.
Definition u16 (z : Z) : Z := z mod 2 ^ 16.
Definition u32 (z : Z) : Z := z mod 2 ^ 32.
Definition u64 (z : Z) : Z := z mod 2 ^ 64.

Definition INT64_MIN : Z := - 2 ^ 63.
Definition INT64_MAX : Z := 2 ^ 63 - 1.
Definition UINT64_MAX : Z := 2 ^ 64 - 1.

(** Reinterpretation of an unsigned 64-bit pattern as [int64_t]. *)
Definition i64 (z : Z) : Z :=
  let r := u64 z in if r <? 2 ^ 63 then r else r - 2 ^ 64.

(** Signed arithmetic that leaves the type is undefined behaviour in C++: the
    checked form returns [None] there. *)
Definition chk64 (z : Z) : option Z :=
  if (INT64_MIN <=? z) && (z <=? INT64_MAX) then Some z else None.
Definition chk32 (z : Z) : option Z :=
  if (- 2 ^ 31 <=? z) && (z <=? 2 ^ 31 - 1) then Some z else None.

Lemma chk64_ok z : INT64_MIN ≤ z ≤ INT64_MAX → chk64 z = Some z.
Proof. intros. unfold chk64. by rewrite !(proj2 (Z.leb_le _ _)) by lia. Qed.

Lemma chk64_inv z x : chk64 z = Some x → x = z.
Proof. unfold chk64. case_cond; [by intros [= <-]|done]. Qed.

Lemma u64_range z : 0 ≤ u64 z < 2 ^ 64.
Proof. apply Z.mod_pos_bound. lia. Qed.

Lemma u64_small z : 0 ≤ z < 2 ^ 64 → u64 z = z.
Proof. apply Z.mod_small. Qed.

Lemma u64_add n m : u64 (u64 n + m) = u64 (n + m).
Proof. unfold u64. by rewrite Zplus_mod_idemp_l. Qed.

(** A disjunction of bytes is zero when all of them are. *)
Lemma lor_fold_zero {A} (f : A → Z) (l : list A) d :
  foldl (λ a x, Z.lor a (f x)) d l = 0 ↔ d = 0 ∧ Forall (λ x, f x = 0) l.
Proof.
  revert d. induction l as [|x l IH]; intros d; [cbn; split; [by intros ->|by intros [-> _]]|]. cbn. rewrite IH, Z.lor_eq_0_iff, Forall_cons. tauto.
Qed.

(** Two numbers less than a modulus apart are equal when they are congruent. *)
Lemma mod_inj c n m : 0 < c → n mod c = m mod c → Z.abs (n - m) < c → n = m.
Proof.
  intros Hc E Hd. pose proof (Z.div_mod n c ltac:(lia)) as Hn. pose proof (Z.div_mod m c ltac:(lia)) as Hm.
  rewrite E in Hn. assert (Hq : n - m = c * (n / c - m / c)) by lia.
  assert (n / c - m / c = 0); [|nia]. rewrite Hq, Z.abs_mul in Hd.
  destruct (decide (n / c - m / c = 0)); [done|]. nia.
Qed.

(** The least index below [d] with a decidable property that [d] has. *)
Lemma least_below (P : Z → Prop) `{∀ z, Decision (P z)} lo d :
  lo ≤ d → P d → ∃ m, lo ≤ m ≤ d ∧ P m ∧ ∀ e, lo ≤ e < m → ¬ P e.
Proof.
  intros Hlo Hd. assert (Hn : ∀ n : nat, lo ≤ d - Z.of_nat n → (∀ e, d - Z.of_nat n < e ≤ d → True) →
    (∃ m, d - Z.of_nat n ≤ m ≤ d ∧ P m ∧ ∀ e, d - Z.of_nat n ≤ e < m → ¬ P e)).
  { induction n as [|n IH]; intros Hn _; [exists d; split_and!; try lia; auto; intros; lia|].
    destruct IH as (m & Hm & HPm & Hmin); [lia|done|]. destruct (decide (P (d - Z.of_nat (S n)))) as [Hp|Hp].
    - exists (d - Z.of_nat (S n)). split_and!; auto; lia || (intros; lia).
    - exists m. split_and!; auto; try lia. intros e He.
      destruct (decide (e = d - Z.of_nat (S n))) as [->|]; [done|]. apply Hmin. lia. }
  destruct (Hn (Z.to_nat (d - lo)) ltac:(lia) ltac:(done)) as (m & Hm & HPm & Hmin).
  exists m. split_and!; auto; try lia. intros e He. apply Hmin. lia.
Qed.

(** ** Sparse zero-initialised arrays *)

Section arrays.
Context {A : Type}.

Definition aget (d : A) (m : gmap Z A) (i : Z) : A := default d (m !! i).

(** [std::memmove] of [n] elements: every destination cell receives what its
    source cell held before the call, overlap or not. *)
Definition memmove (d : A) (m : gmap Z A) (dst src : Z) (n : nat) : gmap Z A :=
  foldr (λ i acc, <[dst + Z.of_nat i := aget d m (src + Z.of_nat i)]> acc)
        m (seq 0 n).

Lemma aget_insert_eq d m i x : aget d (<[i:=x]> m) i = x.
Proof. unfold aget. by rewrite lookup_insert_eq. Qed.

Lemma aget_insert_ne d m i j x : i ≠ j → aget d (<[i:=x]> m) j = aget d m j.
Proof. intros. unfold aget. by rewrite lookup_insert_ne. Qed.

Lemma aget_insert d m i j x :
  aget d (<[i:=x]> m) j = if decide (i = j) then x else aget d m j.
Proof.
  case_decide; subst; [apply aget_insert_eq | by apply aget_insert_ne].
Qed.

Lemma aget_memmove d m dst src n k :
  aget d (memmove d m dst src n) k =
    if decide (dst ≤ k < dst + Z.of_nat n) then aget d m (src + (k - dst))
    else aget d m k.
Proof.
  unfold memmove. set (mm := m) at 2 4.
  assert (H : ∀ s, aget d
     (foldr (λ i acc, <[dst + Z.of_nat i := aget d m (src + Z.of_nat i)]> acc)
        mm (seq s n)) k =
     if decide (dst + Z.of_nat s ≤ k < dst + Z.of_nat s + Z.of_nat n)
     then aget d m (src + (k - dst)) else aget d mm k).
  { induction n as [|n IH]; intros s; simpl.
    - rewrite decide_False by lia. done.
    - rewrite aget_insert. destruct (decide (dst + Z.of_nat s = k)) as [<-|Hne].
      + rewrite decide_True by lia. f_equal. lia.
      + rewrite IH. repeat case_decide; done || lia. }
  rewrite H. subst mm. repeat case_decide; done || lia.
Qed.
End arrays.

(** ** Bounded arrays: an access out of range is undefined behaviour *)

Definition zget {A} (l : list A) (i : Z) : option A := if 0 <=? i then l !! Z.to_nat i else None.

Definition zset {A} (l : list A) (i : Z) (x : A) : option (list A) :=
  if (0 <=? i) && (i <? Z.of_nat (length l)) then Some (<[Z.to_nat i := x]> l) else None.

(** [std::memcpy] of [bs] to offset [off] of a buffer. *)
Definition put {A} (dst : list A) (off : nat) (bs : list A) : option (list A) :=
  if (off + length bs <=? length dst)%nat then Some (list_inserts off bs dst) else None.

(** The [n] bytes at offset [off]. *)
Definition slice {A} (l : list A) (off n : Z) : option (list A) :=
  if (0 <=? off) && (0 <=? n) && (off + n <=? Z.of_nat (length l))
  then Some (take (Z.to_nat n) (drop (Z.to_nat off) l)) else None.

(** ** Stateful code that can fail

    [ST S A] is code over a state [S] that yields an [A]; [None] is undefined
    behaviour.  stdpp's [x ← m; k] is its sequencing. *)

Definition ST (S A : Type) : Type := S → option (A * S).

#[export] Instance st_ret S : MRet (ST S) := λ A x s, Some (x, s).
#[export] Instance st_bind S : MBind (ST S) :=
  λ A B f m s, match m s with Some (x, s') => f x s' | None => None end.

Definition lift {S A} (o : option A) : ST S A := λ s, x ← o; Some (x, s).

(** [m] runs to an end from every state, with a result that satisfies [P]. *)
Definition yields {S A} (m : ST S A) (P : A → Prop) : Prop :=
  ∀ s, ∃ x s', m s = Some (x, s') ∧ P x.

Section yields.
Context {S : Type}.

Lemma yields_ret {A} (x : A) (P : A → Prop) : P x → yields (mret x : ST S A) P.
Proof. intros H s. by exists x, s. Qed.

Lemma yields_lift {A} (o : option A) (x : A) (P : A → Prop) :
  o = Some x → P x → yields (lift o : ST S A) P.
Proof. intros -> H s. by exists x, s. Qed.

Lemma yields_bind {A B} (m : ST S A) (k : A → ST S B) (P : A → Prop) (Q : B → Prop) :
  yields m P → (∀ x, P x → yields (k x) Q) → yields (m ≫= k) Q.
Proof.
  intros Hm Hk s. destruct (Hm s) as (x & s' & E & Hx). destruct (Hk x Hx s') as (y & s'' & E' & Hy).
  exists y, s''. split; [|done]. unfold mbind, st_bind. by rewrite E.
Qed.

Lemma yields_lift_bind {A B} (o : option A) (k : A → ST S B) (x : A) (Q : B → Prop) :
  o = Some x → yields (k x) Q → yields (lift o ≫= k) Q.
Proof.
  intros E H. apply (yields_bind _ _ (λ y, y = x)); [by apply (yields_lift _ x)|]. by intros ? ->.
Qed.

Lemma yields_mono {A} (m : ST S A) (P Q : A → Prop) : yields m P → (∀ x, P x → Q x) → yields m Q.
Proof. intros H HPQ s. destruct (H s) as (x & s' & E & Hx). exists x, s'. auto. Qed.
End yields.

(** What holds of every way a program can end: [safe] allows it to end in
    undefined behaviour, [runs] does not. *)
Definition safe {S A} (m : ST S A) (s : S) (Q : A → S → Prop) : Prop :=
  match m s with Some (x, s') => Q x s' | None => True end.

Definition runs {S A} (m : ST S A) (s : S) (Q : A → S → Prop) : Prop :=
  ∃ x s', m s = Some (x, s') ∧ Q x s'.

Section triples.
Context {S : Type}.
Implicit Types s : S.

Lemma safe_ret {A} (x : A) s (Q : A → S → Prop) : Q x s → safe (mret x) s Q.
Proof. done. Qed.

Lemma safe_bind {A B} (m : ST S A) (k : A → ST S B) s (Q : B → S → Prop) :
  safe m s (λ x s', safe (k x) s' Q) → safe (m ≫= k) s Q.
Proof. unfold safe, mbind, st_bind. by destruct (m s) as [[x s']|]. Qed.

Lemma safe_mono {A} (m : ST S A) s (P Q : A → S → Prop) : safe m s P → (∀ x s', P x s' → Q x s') → safe m s Q.
Proof. unfold safe. destruct (m s) as [[x s']|]; auto. Qed.

Lemma safe_lift {A} (o : option A) s (Q : A → S → Prop) : (∀ x, o = Some x → Q x s) → safe (lift o) s Q.
Proof. unfold safe, lift. destruct o; cbn; auto. Qed.

Lemma runs_ret {A} (x : A) s (Q : A → S → Prop) : Q x s → runs (mret x) s Q.
Proof. intros HQ. by exists x, s. Qed.

Lemma runs_bind {A B} (m : ST S A) (k : A → ST S B) s (Q : B → S → Prop) :
  runs m s (λ x s', runs (k x) s' Q) → runs (m ≫= k) s Q.
Proof.
  intros (x & s' & E & y & s'' & E' & HQ). exists y, s''. split; [|done]. unfold mbind, st_bind. by rewrite E.
Qed.

Lemma runs_mono {A} (m : ST S A) s (P Q : A → S → Prop) : runs m s P → (∀ x s', P x s' → Q x s') → runs m s Q.
Proof. intros (x & s' & E & HP) HPQ. exists x, s'. auto. Qed.

Lemma runs_lift {A} (o : option A) x s (Q : A → S → Prop) : o = Some x → Q x s → runs (lift o) s Q.
Proof. intros -> HQ. by exists x, s. Qed.

(** A program that runs also satisfies what every end of it satisfies. *)
Lemma runs_safe {A} (m : ST S A) s (P Q : A → S → Prop) :
  runs m s P → safe m s Q → runs m s (λ x s', P x s' ∧ Q x s').
Proof. intros (x & s' & E & HP) HQ. unfold safe in HQ. rewrite E in HQ. by exists x, s'. Qed.
End triples.

(** ** Byte strings *)

Definition bytes (raw : list Z) : Prop := Forall (λ b, 0 ≤ b < 256) raw.

(** A check that passes on all 256 bytes passes on every byte. *)
Lemma byte_cases (f : Z → bool) b : forallb f (seqZ 0 256) = true → 0 ≤ b < 256 → f b = true.
Proof. intros H Hb. rewrite forallb_forall in H. apply H, list_elem_of_In, elem_of_seqZ. lia. Qed.

(** The bytes of a string literal. *)
Definition str (s : string) : list Z := (λ a, Z.of_nat (nat_of_ascii a)) <$> list_ascii_of_string s.

(** A field shifted past the bits of another adds up with it. *)
Lemma lor_add hi lo k : 0 ≤ k → 0 ≤ lo < 2 ^ k → Z.lor (Z.shiftl hi k) lo = hi * 2 ^ k + lo.
Proof.
  intros Hk Hlo. rewrite Z.shiftl_mul_pow2 by lia. rewrite <- Z.add_lor_land.
  assert (Z.land (hi * 2 ^ k) lo = 0) as ->; [|lia].
  apply Z.bits_inj'. intros n Hn. rewrite Z.land_spec, Z.bits_0.
  destruct (Z.lt_ge_cases n k).
  - rewrite Z.mul_pow2_bits_low by lia. done.
  - destruct (decide (lo = 0)) as [->|]; [by rewrite Z.bits_0, andb_false_r|].
    rewrite (Z.bits_above_log2 lo n); [apply andb_false_r|lia|]. apply Z.log2_lt_pow2; [lia|]. eapply Z.lt_le_trans; [apply Hlo|]. apply Z.pow_le_mono_r; lia.
Qed.


(** ** Big-endian byte strings *)

Fixpoint enc_be (n : nat) (v : Z) : list Z :=
  match n with O => [] | S n' => u8 (Z.shiftr v (8 * Z.of_nat n')) :: enc_be n' v end.

Fixpoint be_val (bs : list Z) : Z :=
  match bs with [] => 0 | b :: bs' => b * 256 ^ Z.of_nat (length bs') + be_val bs' end.

Lemma enc_be_length n v : length (enc_be n v) = n.
Proof. induction n; simpl; congruence. Qed.

Lemma be_val_enc n v : be_val (enc_be n v) = v mod 256 ^ Z.of_nat n.
Proof.
  induction n as [|n IH]; cbn [enc_be be_val]; [by rewrite Z.mod_1_r|].
  rewrite IH, enc_be_length. unfold u8. rewrite Z.shiftr_div_pow2 by lia.
  rewrite Z.pow_mul_r by lia. change (2 ^ 8) with 256.
  rewrite Nat2Z.inj_succ, Z.pow_succ_r by lia. rewrite (Z.mul_comm 256).
  rewrite Z.rem_mul_r by lia. lia.
Qed.

Lemma enc_be_bytes n v : Forall (λ b, 0 ≤ b < 256) (enc_be n v).
Proof.
  induction n; simpl; constructor; [|done]. apply Z.mod_pos_bound. lia.
Qed.

(** Bytes are the encoding of their value. *)
Lemma enc_be_val bs : Forall (λ b, 0 ≤ b < 256) bs → enc_be (length bs) (be_val bs) = bs.
Proof.
  assert (Hmod : ∀ n v w, v mod 256 ^ Z.of_nat n = w mod 256 ^ Z.of_nat n → enc_be n v = enc_be n w).
  { induction n as [|n IH]; intros v w E; [done|]. cbn [enc_be].
    rewrite Nat2Z.inj_succ, Z.pow_succ_r, Z.mul_comm in E by lia.
    rewrite !Z.rem_mul_r in E by lia. unfold u8. rewrite !Z.shiftr_div_pow2, !Z.pow_mul_r by lia. change (2 ^ 8) with 256.
    pose proof (Z.mod_pos_bound v (256 ^ Z.of_nat n) ltac:(lia)).
    pose proof (Z.mod_pos_bound w (256 ^ Z.of_nat n) ltac:(lia)).
    pose proof (Z.mod_pos_bound (v / 256 ^ Z.of_nat n) 256 ltac:(lia)).
    pose proof (Z.mod_pos_bound (w / 256 ^ Z.of_nat n) 256 ltac:(lia)).
    set (M := 256 ^ Z.of_nat n) in *. assert (0 < M) by lia.
    assert ((v / M) mod 256 = (w / M) mod 256) as Hq.
    { destruct (Z.lt_trichotomy ((v / M) mod 256) ((w / M) mod 256)) as [|[]]; [nia|done|nia]. }
    rewrite Hq. f_equal. apply IH. fold M. rewrite Hq in E. lia. }
  induction 1 as [|b bs Hb Hbs IH]; [done|]. cbn [length enc_be be_val]. f_equal.
  - assert (0 ≤ be_val bs < 256 ^ Z.of_nat (length bs)).
    { rewrite <- IH, be_val_enc, enc_be_length. apply Z.mod_pos_bound. lia. }
    rewrite Z.shiftr_div_pow2, Z.pow_mul_r by lia. change (2 ^ 8) with 256. rewrite Z.div_add_l by lia.
    rewrite Z.div_small by lia. unfold u8. rewrite Z.mod_small; lia.
  - etransitivity; [|exact IH]. apply Hmod. rewrite Z.add_comm, Z.mod_add; [done|]. lia.
Qed.

Lemma be_val_range bs : Forall (λ b, 0 ≤ b < 256) bs → 0 ≤ be_val bs < 256 ^ Z.of_nat (length bs).
Proof.
  intros H. rewrite <- (enc_be_val bs H), be_val_enc, enc_be_length. apply Z.mod_pos_bound. lia.
Qed.

(** ** Little-endian byte strings *)

Fixpoint enc_le (n : nat) (v : Z) : list Z :=
  match n with O => [] | S n' => u8 v :: enc_le n' (v / 256) end.

Fixpoint le_val (bs : list Z) : Z := match bs with [] => 0 | b :: bs' => b + 256 * le_val bs' end.

Lemma enc_le_length n v : length (enc_le n v) = n.
Proof. revert v. induction n; intros v; simpl; congruence. Qed.

Lemma le_val_enc n v : le_val (enc_le n v) = v mod 256 ^ Z.of_nat n.
Proof.
  revert v. induction n as [|n IH]; intros v; cbn [enc_le le_val]; [by rewrite Z.mod_1_r|].
  rewrite IH, Nat2Z.inj_succ, Z.pow_succ_r by lia. rewrite Z.rem_mul_r by lia. unfold u8. reflexivity.
Qed.

Lemma enc_le_bytes n v : Forall (λ b, 0 ≤ b < 256) (enc_le n v).
Proof. revert v. induction n; intros v; simpl; constructor; [|done]. apply Z.mod_pos_bound. lia. Qed.

(** A string of bytes is determined by its value. *)
Lemma le_val_inj bs bs' :
  Forall (λ b, 0 ≤ b < 256) bs → Forall (λ b, 0 ≤ b < 256) bs' → length bs = length bs' →
  le_val bs = le_val bs' → bs = bs'.
Proof.
  intros H. revert bs'. induction H as [|b bs Hb _ IH]; intros [|b' bs'] H' Hl E; try done.
  apply Forall_cons in H' as [Hb' H']. cbn [le_val] in E. assert (b = b') as -> by lia.
  f_equal. apply IH; [done|simpl in Hl; lia|lia].
Qed.

(** ** Lists *)

Lemma filter_id {A} (P : A → Prop) `{!∀ x, Decision (P x)} (l : list A) :
  Forall P l → filter P l = l.
Proof. induction 1 as [|x l Hx _ IH]; [done|]. by rewrite filter_cons_True, IH. Qed.

(** ** Scans over tables *)

Section scans.
Context {A : Type}.
Implicit Types (l : list A) (p : A → bool).

(** The index of the first entry with a property: the loop that breaks at a hit. *)
Fixpoint first_index p l : option nat :=
  match l with [] => None | x :: l' => if p x then Some O else S <$> first_index p l' end.

Lemma first_index_Some p l i :
  first_index p l = Some i ↔ (∃ x, l !! i = Some x ∧ p x = true) ∧ ∀ j y, (j < i)%nat → l !! j = Some y → p y = false.
Proof.
  revert i. induction l as [|x l IH]; intros i; cbn [first_index]; [split; [done|]; by intros [(? & ? & _) _]|].
  destruct (p x) eqn:Ep.
  - split; [intros [= <-]; split; [by exists x|intros; lia]|]. intros [_ H]. destruct i as [|i]; [done|].
    specialize (H O x ltac:(lia) eq_refl). congruence.
  - destruct i as [|i].
    + split; [by destruct (first_index p l)|]. intros [(y & [= <-] & Hy) _]. congruence.
    + transitivity (first_index p l = Some i); [destruct (first_index p l); naive_solver|]. rewrite IH. split.
      * intros [Hx Hj]. split; [done|]. intros [|j] y Hlt Hy; simplify_eq/=; [done|]. apply (Hj j); [lia|done].
      * intros [Hx Hj]. split; [done|]. intros j y Hlt Hy. apply (Hj (S j)); [lia|done].
Qed.

Lemma first_index_None p l : first_index p l = None ↔ Forall (λ x, p x = false) l.
Proof.
  induction l as [|x l IH]; cbn [first_index]; [by split|]. rewrite Forall_cons, <- IH.
  destruct (p x); [naive_solver|]. destruct (first_index p l); naive_solver.
Qed.

(** How many entries have a property. *)
Definition count_if p l : Z := foldr (λ x a, (if p x then 1 else 0) + a) 0 l.

Lemma count_if_insert p l i x y :
  l !! i = Some x → count_if p (<[i := y]> l) = count_if p l - (if p x then 1 else 0) + (if p y then 1 else 0).
Proof.
  revert i. induction l as [|z l IH]; intros [|i] E; simplify_eq/=; [unfold count_if; cbn; lia|].
  unfold count_if in *. cbn. rewrite (IH i E). lia.
Qed.

Lemma count_if_bounds p l : 0 ≤ count_if p l ≤ Z.of_nat (length l).
Proof. induction l as [|x l IH]; [done|]. unfold count_if in *. cbn. case_cond; lia. Qed.

Lemma count_if_full p l : Forall (λ x, p x = true) l → count_if p l = Z.of_nat (length l).
Proof. induction 1 as [|x l Hx _ IH]; [done|]. unfold count_if in *. cbn. rewrite Hx, IH. lia. Qed.

Lemma count_if_pos p l i x : l !! i = Some x → p x = true → 0 < count_if p l.
Proof.
  intros E Hp. revert i E. induction l as [|z l IH]; intros [|i] E; simplify_eq/=; unfold count_if; cbn; fold (count_if p l).
  - rewrite Hp. pose proof (count_if_bounds p l). lia.
  - specialize (IH i E). case_cond; lia.
Qed.

(** Sums over entries. *)
Definition zsum (f : A → Z) l : Z := foldr (λ x a, f x + a) 0 l.

#[global] Instance zsum_perm f : Proper ((≡ₚ) ==> (=)) (zsum f).
Proof. intros l l' H. unfold zsum. induction H; cbn; lia. Qed.

Lemma zsum_le f g l : Forall (λ x, 0 ≤ f x ≤ g x) l → 0 ≤ zsum f l ≤ zsum g l.
Proof. unfold zsum. induction 1; cbn; lia. Qed.

Lemma zsum_app f l l' : zsum f (l ++ l') = zsum f l + zsum f l'.
Proof. unfold zsum. induction l; cbn; lia. Qed.
End scans.

(** ** std::sort

    The comparison must be a strict weak order on the elements to be sorted; nothing is
    promised about the order of equivalent ones. *)
Definition strict_weak_on {A} (lt : A → A → bool) (l : list A) : Prop :=
  ∀ a b c, a ∈ l → b ∈ l → c ∈ l →
    lt a a = false ∧ (lt a b = true → lt b c = true → lt a c = true) ∧ (lt a c = true → lt a b = true ∨ lt b c = true).

Class Sorter := {
  std_sort {A : Type} : (A → A → bool) → list A → list A;
  sort_perm {A : Type} (lt : A → A → bool) l : std_sort lt l ≡ₚ l;
  sort_sorted {A : Type} (lt : A → A → bool) l : strict_weak_on lt l → StronglySorted (λ a b, lt b a = false) (std_sort lt l)
}.

(** In a sorted list what is strictly better comes first. *)
Lemma sorted_before {A} (lt : A → A → bool) l i j :
  StronglySorted (λ a b, lt b a = false) l → i ∈ l → j ∈ l → i ≠ j → lt i j = true →
  ∃ l1 l2, l = l1 ++ i :: l2 ∧ j ∈ l2.
Proof.
  induction 1 as [|x l Hs IH Hx]; intros Hi Hj Hne Hlt; [by apply elem_of_nil in Hi|].
  rewrite Forall_forall in Hx. apply elem_of_cons in Hi as [->|Hi].
  - exists [], l. split; [done|]. by apply elem_of_cons in Hj as [->|].
  - apply elem_of_cons in Hj as [->|Hj]; [rewrite (Hx i Hi) in Hlt; done|].
    destruct (IH Hi Hj Hne Hlt) as (l1 & l2 & -> & Hj'). by exists (x :: l1), l2.
Qed.

(** An implementation. *)

Fixpoint insert_sorted {A} (lt : A → A → bool) (x : A) (l : list A) : list A :=
  match l with [] => [x] | y :: l' => if lt y x then y :: insert_sorted lt x l' else x :: l end.

Definition insertion_sort {A} (lt : A → A → bool) (l : list A) : list A := foldr (insert_sorted lt) [] l.

Lemma insert_sorted_perm {A} (lt : A → A → bool) x l : insert_sorted lt x l ≡ₚ x :: l.
Proof. induction l as [|y l IH]; [done|]. cbn. case_cond; [rewrite IH; apply Permutation_swap|done]. Qed.

Lemma insertion_sort_perm {A} (lt : A → A → bool) l : insertion_sort lt l ≡ₚ l.
Proof. induction l as [|x l IH]; [done|]. cbn. by rewrite insert_sorted_perm, IH. Qed.

Lemma insertion_sort_sorted {A} (lt : A → A → bool) l : strict_weak_on lt l → StronglySorted (λ a b, lt b a = false) (insertion_sort lt l).
Proof.
  assert (Hins : ∀ x s, strict_weak_on lt (x :: s) → StronglySorted (λ a b, lt b a = false) s →
    StronglySorted (λ a b, lt b a = false) (insert_sorted lt x s)).
  { intros x s Hw. induction 1 as [|y s Hs IH Hy]; [by repeat constructor|]. cbn. rewrite Forall_forall in Hy.
    destruct (lt y x) eqn:Hyx.
    - constructor.
      + apply IH. intros a b c Ha Hb Hc. apply Hw; set_solver.
      + apply Forall_forall. intros z. rewrite insert_sorted_perm. intros [->|Hz]%elem_of_cons; [|by apply Hy].
        apply not_true_is_false. intros Hxy. destruct (Hw x y x) as (Hir & Htr & _); [set_solver..|]. rewrite (Htr Hxy Hyx) in Hir. done.
    - constructor; [by constructor; [|by apply Forall_forall]|]. apply Forall_forall. intros z [->|Hz]%elem_of_cons; [done|].
      apply not_true_is_false. intros Hzx. destruct (Hw z y x) as (_ & _ & Hn); [set_solver..|].
      destruct (Hn Hzx) as [Hzy|Hyx']; [rewrite (Hy z Hz) in Hzy; done|congruence]. }
  induction l as [|x l IH]; intros Hw; [constructor|]. cbn. apply Hins.
  - intros a b c Ha Hb Hc. apply Hw; [revert Ha|revert Hb|revert Hc]; rewrite !elem_of_cons;
      fold (insertion_sort lt l); rewrite insertion_sort_perm; done.
  - apply IH. intros a b c Ha Hb Hc. apply Hw; set_solver.
Qed.

#[export] Instance insertion_sorter : Sorter := {|
  std_sort := @insertion_sort; sort_perm := @insertion_sort_perm; sort_sorted := @insertion_sort_sorted |}.
