(* ===== verification/Arena.v ===== *)
(** * Arena: fixed-capacity data of the engine (src/luv_arena.hpp,
    src/luv_numeric_limits.hpp) *)

From S2P Require Import Prelude.
From Stdlib Require Import ZArith Lia.
From stdpp Require Import base tactics gmap numbers option list.
Open Scope Z_scope.

(** ** struct Config *)

Definition kSymbols : Z := 512.
Definition kLevelsPerSide : Z := 1024.
Definition kMaxOrdersPerLevel : Z := 16.
Definition kTickCapacity : Z := 2 ^ 22.
Definition kFeaturesPerSymbol : Z := 20.
Definition kLookbackSteps : Z := 64.
Definition kSignalSlots : Z := kSymbols.
Definition kMaxActiveOrders : Z := 64.
Definition kWebSocketConnections : Z := 1000.
Definition kWebSocketConnectionSlotBytes : Z := 10 * 1024.
Definition kTelemCapacity : Z := 2 ^ 16.
Definition kAIBudgetBytes : Z := 13 * 1024 * 1024 * 1024.

(** ** luv::numeric *)

Definition kMinPrice : Z := 1.
Definition kMaxPrice : Z := 0xFFFFFFFF.
Definition kMinQuantity : Z := 1.
Definition kMaxQuantity : Z := 1000000000.

Definition is_valid_price (value : Z) : bool :=
  (kMinPrice <=? value) && (value <=? kMaxPrice).

Definition is_valid_quantity (value : Z) : bool :=
  (kMinQuantity <=? value) && (value <=? kMaxQuantity).

(** [Some] of the result when the function returns true. *)
Definition checked_add (lhs rhs : Z) : option Z :=
  if ((0 <? rhs) && (INT64_MAX - rhs <? lhs))
     || ((rhs <? 0) && (lhs <? INT64_MIN - rhs))
  then None else Some (lhs + rhs).

(** ** struct OrderSlot

    [pad0] is never read or written and has no counterpart. *)
Record OrderSlot := mkSlot {
  order_id : Z;
  qty : Z;
  flags : Z;
  next_idx : Z;
  prev_idx : Z
}.

Definition kFlagBid : Z := Z.shiftl 1 0.
Definition kFlagActive : Z := Z.shiftl 1 1.

Definition is_active (s : OrderSlot) : bool := negb (Z.land (flags s) kFlagActive =? 0).
Definition is_bid (s : OrderSlot) : bool := negb (Z.land (flags s) kFlagBid =? 0).

(** [OrderSlot{}] and the all-zero bytes [Arena::init] leaves. *)
Definition OrderSlot_init : OrderSlot := mkSlot 0 0 0 (-1) (-1).
Definition OrderSlot_zero : OrderSlot := mkSlot 0 0 0 0 0.

Definition set_next_idx (s : OrderSlot) (x : Z) : OrderSlot :=
  mkSlot (order_id s) (qty s) (flags s) x (prev_idx s).
Definition set_prev_idx (s : OrderSlot) (x : Z) : OrderSlot :=
  mkSlot (order_id s) (qty s) (flags s) (next_idx s) x.
Definition set_slot_qty (s : OrderSlot) (x : Z) : OrderSlot :=
  mkSlot (order_id s) x (flags s) (next_idx s) (prev_idx s).

(** ** struct PriceLevel *)
Record PriceLevel := mkLevel {
  orders : list OrderSlot;
  price : Z;
  total_qty : Z;
  order_count : Z;
  head_idx : Z
}.

Definition set_orders (l : PriceLevel) (o : list OrderSlot) : PriceLevel :=
  mkLevel o (price l) (total_qty l) (order_count l) (head_idx l).
Definition set_head_idx (l : PriceLevel) (h : Z) : PriceLevel :=
  mkLevel (orders l) (price l) (total_qty l) (order_count l) h.
Definition set_price (l : PriceLevel) (p : Z) : PriceLevel :=
  mkLevel (orders l) p (total_qty l) (order_count l) (head_idx l).
Definition set_total_qty (l : PriceLevel) (q : Z) : PriceLevel :=
  mkLevel (orders l) (price l) q (order_count l) (head_idx l).
Definition set_order_count (l : PriceLevel) (c : Z) : PriceLevel :=
  mkLevel (orders l) (price l) (total_qty l) c (head_idx l).

Definition PriceLevel_zero : PriceLevel :=
  mkLevel (replicate (Z.to_nat kMaxOrdersPerLevel) OrderSlot_zero) 0 0 0 0.

(** [reset()]: every field returns to its default member initialiser. *)
Definition PriceLevel_reset (l : PriceLevel) : PriceLevel :=
  mkLevel (replicate (Z.to_nat kMaxOrdersPerLevel) OrderSlot_init) 0 0 0 (-1).

(** Slot access [lvl.orders[i]]; an index outside the array is undefined
    behaviour, modelled as [None]. *)
Definition get_slot (l : PriceLevel) (i : Z) : option OrderSlot :=
  if (0 <=? i) && (i <? kMaxOrdersPerLevel) then orders l !! Z.to_nat i else None.

Definition put_slot (l : PriceLevel) (i : Z) (s : OrderSlot) : option PriceLevel :=
  if (0 <=? i) && (i <? kMaxOrdersPerLevel)
  then Some (set_orders l (<[Z.to_nat i := s]> (orders l))) else None.

(** [alloc_slot()]: index of the first inactive slot, or -1. *)
Fixpoint alloc_slot_from (i : Z) (os : list OrderSlot) : Z :=
  match os with
  | [] => -1
  | s :: os' => if negb (is_active s) then i else alloc_slot_from (i + 1) os'
  end.
Definition alloc_slot (l : PriceLevel) : Z := alloc_slot_from 0 (orders l).

(** ** struct TickMsg *)
Record TickMsg := mkTick {
  msg_type : Z;
  tick_flags : Z;
  tick_symbol : Z;
  timestamp : Z;
  tick_price : Z;
  tick_qty : Z;
  order_ref : Z;
  match_num : Z
}.

Definition TickMsg_zero : TickMsg := mkTick 0 0 0 0 0 0 0 0.

(** ** The LOB slab and [Arena::level]

    [lob_flat] is the flat span of [kSymbols * 2 * kLevelsPerSide] levels, zero
    filled by [Arena::init]; indexing past the span is undefined behaviour. *)
Definition kLobLevels : Z := kSymbols * 2 * kLevelsPerSide.

Definition level_index (symbol side depth : Z) : Z :=
  (symbol * 2 + side) * kLevelsPerSide + depth.

Definition Arena_level (lob : gmap Z PriceLevel) (symbol side depth : Z) : option PriceLevel :=
  let idx := level_index symbol side depth in
  if (0 <=? idx) && (idx <? kLobLevels) then Some (aget PriceLevel_zero lob idx) else None.

Definition Arena_set_level (lob : gmap Z PriceLevel) (symbol side depth : Z)
    (l : PriceLevel) : option (gmap Z PriceLevel) :=
  let idx := level_index symbol side depth in
  if (0 <=? idx) && (idx <? kLobLevels) then Some (<[idx := l]> lob) else None.

(** ** Alignment *)

Definition SIZE_MAX : Z := UINT64_MAX.
Definition kCacheLine : Z := 64.
Definition kPageSize : Z := 4096.
Definition kHugePage : Z := 2 * 1024 * 1024.

Definition align_up (n align : Z) : Z := Z.land (u64 (n + align - 1)) (u64 (Z.lnot (align - 1))).

Definition can_align_up (n align : Z) : bool :=
  negb (align =? 0) && (Z.land align (align - 1) =? 0) && (n <=? SIZE_MAX - (align - 1)).
