(* ===== verification/OrderIndex.v ===== *)
(** * OrderIndex: what the book asks of its order index

    The limit order book finds an order from its reference number through
    [OrderRefMap].  This file states that dependency as an interface: the
    operations the book calls, and the laws it relies on, phrased against a
    finite map from references to locations.  [OrderRefMap.v] discharges the
    laws for the hash table of src/luv_lob.hpp; [Lob.v] uses only the laws. *)

From S2P Require Import Prelude Arena.
From Stdlib Require Import ZArith Lia.
From stdpp Require Import base tactics gmap numbers option list.
Open Scope Z_scope.

(** ** struct OrderLocation *)
Record OrderLocation := mkLoc {
  symbol_idx : Z;
  side : Z;
  level_idx : Z;
  slot_idx : Z
}.

#[export] Instance OrderLocation_eq_dec : EqDecision OrderLocation.
Proof. solve_decision. Defined.

Definition OrderLocation_zero : OrderLocation := mkLoc 0 0 0 0.

(** The location checks of [OrderRefMap::insert]. *)
Definition location_invalid (loc : OrderLocation) : bool :=
  (kSymbols <=? symbol_idx loc) || (1 <? side loc) ||
  (kLevelsPerSide <=? level_idx loc) || (slot_idx loc <? 0) ||
  (kMaxOrdersPerLevel <=? slot_idx loc).

Class OrderIndex (M : Type) := {
  ix_lookup : M → Z → option OrderLocation;
  ix_insert : M → Z → OrderLocation → M * bool;
  ix_can_insert : M → Z → bool;
  ix_remove : M → Z → M;
  (** assignment through the pointer [ix_lookup] stands for *)
  ix_store : M → Z → OrderLocation → M;
  ix_size : M → Z
}.

Class OrderIndexLaws (M : Type) `{OrderIndex M}
    (rep : M → gmap Z OrderLocation → Prop) := {
  law_lookup m g k : rep m g → ix_lookup m k = g !! k;
  law_size m g : rep m g → ix_size m = Z.of_nat (size g);
  law_insert m g k l : rep m g →
    match ix_insert m k l with
    | (m', true) => rep m' (<[k := l]> g)
    | (m', false) => m' = m
    end;
  law_remove m g k : rep m g → rep (ix_remove m k) (delete k g);
  law_store m g k l : rep m g → is_Some (g !! k) → rep (ix_store m k l) (<[k := l]> g);
  law_can_insert_fresh m g k : rep m g → ix_can_insert m k = true → g !! k = None;
  law_can_insert_ok m g k l : rep m g → ix_can_insert m k = true →
    location_invalid l = false → snd (ix_insert m k l) = true;
  law_can_insert_remove m g k k' : rep m g → ix_can_insert m k = true →
    ix_can_insert (ix_remove m k') k = true;
  law_can_insert_store m k k' l : ix_can_insert (ix_store m k' l) k = ix_can_insert m k;
  law_reserved m g k : rep m g → is_Some (g !! k) → 0 ≠ k
}.
