(* ===== verification/OrderRefMap.v ===== *)
(** * OrderRefMap: the open-addressing order index of the book
    (src/luv_lob.hpp, class OrderRefMap) *)

From S2P Require Import Prelude Arena OrderIndex.
From Stdlib Require Import ZArith Lia.
From stdpp Require Import base tactics gmap numbers option list.
Open Scope Z_scope.

(** ** Constants *)
Definition kCapacity : Z := kSymbols * kLevelsPerSide * kMaxOrdersPerLevel.
Definition kMask : Z := kCapacity - 1.
Definition kMaxProbeLength : Z := 256.
Definition kMaxLoadPercent : Z := 80.
Definition kMaxEntries : Z := (kCapacity * kMaxLoadPercent) / 100.
Definition kEmptyKey : Z := 0.
Definition kTombstone : Z := UINT64_MAX.
Definition kFibMul : Z := 0x9E3779B97F4A7C15.
Definition kShift : Z := 64 - 23.

(** [hash]: splitmix finaliser followed by Fibonacci folding to 23 bits. *)
Definition OrderRefMap_hash (key : Z) : Z :=
  let key := Z.lxor key (Z.shiftr key 30) in
  let key := u64 (key * 0xBF58476D1CE4E5B9) in
  let key := Z.lxor key (Z.shiftr key 27) in
  let key := u64 (key * 0x94D049BB133111EB) in
  let key := Z.lxor key (Z.shiftr key 31) in
  u32 (Z.shiftr (u64 (key * kFibMul)) kShift).

(** ** State: [_keys], [_values] and [_count]; [orm_mapped] is [_keys != nullptr]. *)
Record OrderRefMap := mkORM {
  orm_mapped : bool;
  orm_keys : gmap Z Z;
  orm_values : gmap Z OrderLocation;
  orm_count : Z
}.

Definition key_at (m : OrderRefMap) (slot : Z) : Z := aget kEmptyKey (orm_keys m) slot.
Definition value_at (m : OrderRefMap) (slot : Z) : OrderLocation :=
  aget OrderLocation_zero (orm_values m) slot.
Definition next_slot (slot : Z) : Z := Z.land (slot + 1) kMask.

Definition OrderRefMap_unmapped : OrderRefMap := mkORM false ∅ ∅ 0.

Definition OrderRefMap_clear (m : OrderRefMap) : OrderRefMap :=
  mkORM (orm_mapped m) ∅ (orm_values m) 0.

(** [init()]; [mmap_ok] is the answer of the operating system. *)
Definition OrderRefMap_init (mmap_ok : bool) (m : OrderRefMap) : OrderRefMap * bool :=
  if orm_mapped m then (m, false)
  else if negb mmap_ok then (m, false)
  else (OrderRefMap_clear (mkORM true ∅ ∅ (orm_count m)), true).

Definition OrderRefMap_teardown (m : OrderRefMap) : OrderRefMap :=
  if negb (orm_mapped m) then m else OrderRefMap_unmapped.

(** ** insert *)
Definition orm_write (m : OrderRefMap) (slot ref : Z) (loc : OrderLocation) : OrderRefMap :=
  mkORM (orm_mapped m) (<[slot := ref]> (orm_keys m))
        (<[slot := loc]> (orm_values m)) (u32 (orm_count m + 1)).

Fixpoint insert_probe (m : OrderRefMap) (ref : Z) (loc : OrderLocation)
    (n : nat) (slot tombstone_slot : Z) : OrderRefMap * bool :=
  match n with
  | O =>
      if negb (tombstone_slot =? kCapacity) && (orm_count m <? kMaxEntries)
      then (orm_write m tombstone_slot ref loc, true)
      else (m, false)
  | S n' =>
      let k := key_at m slot in
      if k =? ref then
        (mkORM (orm_mapped m) (orm_keys m) (<[slot := loc]> (orm_values m)) (orm_count m), true)
      else if (k =? kTombstone) && (tombstone_slot =? kCapacity) then
        insert_probe m ref loc n' (next_slot slot) slot
      else if k =? kEmptyKey then
        if kMaxEntries <=? orm_count m then (m, false)
        else
          let destination := if tombstone_slot =? kCapacity then slot else tombstone_slot in
          (orm_write m destination ref loc, true)
      else insert_probe m ref loc n' (next_slot slot) tombstone_slot
  end.

Definition OrderRefMap_insert (m : OrderRefMap) (ref : Z) (loc : OrderLocation)
    : OrderRefMap * bool :=
  if negb (orm_mapped m) || (ref =? kEmptyKey) || (ref =? kTombstone) || location_invalid loc
  then (m, false)
  else insert_probe m ref loc (Z.to_nat kMaxProbeLength) (OrderRefMap_hash ref) kCapacity.

(** ** can_insert *)
Fixpoint can_insert_probe (m : OrderRefMap) (ref : Z) (n : nat) (slot : Z) : bool :=
  match n with
  | O => false
  | S n' =>
      let k := key_at m slot in
      if k =? ref then false
      else if k =? kEmptyKey then true
      else can_insert_probe m ref n' (next_slot slot)
  end.

Definition OrderRefMap_can_insert (m : OrderRefMap) (ref : Z) : bool :=
  if negb (orm_mapped m) || (ref =? kEmptyKey) || (ref =? kTombstone) then false
  else if kMaxEntries <=? orm_count m then false
  else can_insert_probe m ref (Z.to_nat kMaxProbeLength) (OrderRefMap_hash ref).

(** ** lookup and remove: both walk the same bounded probe sequence. The slot
    found stands for the pointer [&_values[slot]] that [lookup] returns. *)
Fixpoint find_probe (m : OrderRefMap) (ref : Z) (n : nat) (slot : Z) : option Z :=
  match n with
  | O => None
  | S n' =>
      let k := key_at m slot in
      if k =? ref then Some slot
      else if k =? kEmptyKey then None
      else find_probe m ref n' (next_slot slot)
  end.

Definition OrderRefMap_lookup_slot (m : OrderRefMap) (ref : Z) : option Z :=
  if negb (orm_mapped m) || (ref =? kEmptyKey) || (ref =? kTombstone) then None
  else find_probe m ref (Z.to_nat kMaxProbeLength) (OrderRefMap_hash ref).

Definition OrderRefMap_lookup (m : OrderRefMap) (ref : Z) : option OrderLocation :=
  slot ← OrderRefMap_lookup_slot m ref; Some (value_at m slot).

(** Assignment through the pointer returned by [lookup]. *)
Definition OrderRefMap_store (m : OrderRefMap) (ref : Z) (loc : OrderLocation) : OrderRefMap :=
  match OrderRefMap_lookup_slot m ref with
  | Some slot => mkORM (orm_mapped m) (orm_keys m) (<[slot := loc]> (orm_values m)) (orm_count m)
  | None => m
  end.

Definition OrderRefMap_remove (m : OrderRefMap) (ref : Z) : OrderRefMap :=
  match OrderRefMap_lookup_slot m ref with
  | Some slot =>
      mkORM (orm_mapped m) (<[slot := kTombstone]> (orm_keys m)) (orm_values m)
            (u32 (orm_count m - 1))
  | None => m
  end.

(** [fixup_levels]: every live entry of one side at or past [from_level] moves by
    [direction].  The loop over all slots only acts on live keys, so it is a
    fold over the stored keys. *)
Definition OrderRefMap_fixup_levels (m : OrderRefMap) (sym sd from_level direction : Z)
    : OrderRefMap :=
  let fix_slot slot k vals :=
    if (k =? kEmptyKey) || (k =? kTombstone) then vals
    else
      let loc := aget OrderLocation_zero vals slot in
      if (symbol_idx loc =? sym) && (side loc =? sd) && (from_level <=? level_idx loc)
      then <[slot := mkLoc (symbol_idx loc) (side loc) (u16 (level_idx loc + direction)) (slot_idx loc)]> vals
      else vals in
  mkORM (orm_mapped m) (orm_keys m) (map_fold fix_slot (orm_values m) (orm_keys m)) (orm_count m).

Definition OrderRefMap_size (m : OrderRefMap) : Z := orm_count m.

(** ** Representation invariant

    [orm_rep m g]: the table [m] stores exactly the finite map [g].  Every live
    key sits within [kMaxProbeLength] steps of its hash, and no slot before it
    on its probe path is empty or holds the same key: this is what makes the
    bounded search of [lookup] complete although deletions leave tombstones. *)

Definition live_key (k : Z) : Prop := k ≠ kEmptyKey ∧ k ≠ kTombstone.

(** The [d]-th slot of the probe path of key [k]. *)
Definition slot_at (k : Z) (d : nat) : Z := (OrderRefMap_hash k + Z.of_nat d) mod kCapacity.

Definition probe_clear (m : OrderRefMap) (k : Z) (d : nat) : Prop :=
  ∀ j, (j < d)%nat → key_at m (slot_at k j) ≠ kEmptyKey ∧ key_at m (slot_at k j) ≠ k.

Record orm_rep (m : OrderRefMap) (g : gmap Z OrderLocation) : Prop := mk_orm_rep {
  rep_mapped : orm_mapped m = true;
  rep_count : orm_count m = Z.of_nat (size g);
  rep_bound : orm_count m ≤ kMaxEntries;
  rep_reach : ∀ s, live_key (key_at m s) →
    ∃ d, (d < Z.to_nat kMaxProbeLength)%nat ∧ s = slot_at (key_at m s) d ∧
         probe_clear m (key_at m s) d;
  rep_content : ∀ k l, g !! k = Some l ↔
    live_key k ∧ ∃ s, key_at m s = k ∧ value_at m s = l
}.

(** ** Arithmetic of probe slots *)

Lemma kCapacity_pow2 : kCapacity = 2 ^ 23.
Proof. reflexivity. Qed.

Lemma hash_range k : 0 ≤ OrderRefMap_hash k < kCapacity.
Proof.
  unfold OrderRefMap_hash. cbv zeta.
  match goal with |- context [u64 (?x * kFibMul)] => generalize x end. intros x.
  assert (H : 0 ≤ Z.shiftr (u64 (x * kFibMul)) kShift < 2 ^ 23).
  { unfold u64, kShift. rewrite Z.shiftr_div_pow2 by lia.
    pose proof (Z.mod_pos_bound (x * kFibMul) (2 ^ 64)).
    split; [apply Z.div_pos; lia|].
    apply Z.div_lt_upper_bound; [lia|]. change (2 ^ (64 - 23) * 2 ^ 23) with (2 ^ 64). lia. }
  unfold u32. rewrite Z.mod_small by lia. rewrite kCapacity_pow2. lia.
Qed.

Lemma slot_at_0 k : slot_at k 0 = OrderRefMap_hash k.
Proof.
  unfold slot_at. rewrite Z.add_0_r. apply Z.mod_small, hash_range.
Qed.

Lemma slot_at_range k d : 0 ≤ slot_at k d < kCapacity.
Proof. unfold slot_at. apply Z.mod_pos_bound. rewrite kCapacity_pow2. lia. Qed.

Lemma next_slot_at k d : next_slot (slot_at k d) = slot_at k (S d).
Proof.
  unfold next_slot, slot_at, kMask. rewrite kCapacity_pow2.
  change (2 ^ 23 - 1) with (Z.ones 23). rewrite Z.land_ones by lia.
  rewrite Zplus_mod_idemp_l. f_equal. lia.
Qed.

Lemma slot_at_inj k d e :
  (d < Z.to_nat kMaxProbeLength)%nat → (e < Z.to_nat kMaxProbeLength)%nat →
  slot_at k d = slot_at k e → d = e.
Proof.
  unfold slot_at, kMaxProbeLength. rewrite kCapacity_pow2. intros Hd He H.
  pose proof (Z.div_mod (OrderRefMap_hash k + Z.of_nat d) (2 ^ 23)).
  pose proof (Z.div_mod (OrderRefMap_hash k + Z.of_nat e) (2 ^ 23)). lia.
Qed.

(** ** The bounded search *)

Lemma probe_clear_S m k d :
  probe_clear m k d → key_at m (slot_at k d) ≠ kEmptyKey → key_at m (slot_at k d) ≠ k →
  probe_clear m k (S d).
Proof.
  intros Hc H1 H2 j Hj. destruct (decide (j = d)) as [->|]; [done|]. apply Hc. lia.
Qed.

Lemma probe_clear_agree m m' k d :
  (∀ s, key_at m' s = key_at m s) → probe_clear m k d → probe_clear m' k d.
Proof. intros He Hc j Hj. rewrite He. by apply Hc. Qed.

Lemma find_probe_Some m k n d s :
  find_probe m k n (slot_at k d) = Some s → probe_clear m k d →
  ∃ e, (e < d + n)%nat ∧ s = slot_at k e ∧ key_at m s = k ∧ probe_clear m k e.
Proof.
  revert d. induction n as [|n IH]; intros d; simpl; [done|].
  destruct (Z.eqb_spec (key_at m (slot_at k d)) k) as [Hk|Hk].
  { intros [= <-] Hc. exists d. split; [lia|done]. }
  destruct (Z.eqb_spec (key_at m (slot_at k d)) kEmptyKey) as [He|He]; [done|].
  rewrite next_slot_at. intros Hf Hc.
  destruct (IH (S d) Hf) as (e & ? & ? & ? & ?); [by apply probe_clear_S|].
  exists e. split; [lia|done].
Qed.

Lemma find_probe_complete m k n d e :
  (d ≤ e < d + n)%nat → key_at m (slot_at k e) = k → k ≠ kEmptyKey → probe_clear m k e →
  find_probe m k n (slot_at k d) = Some (slot_at k e).
Proof.
  revert d. induction n as [|n IH]; intros d Hde Hk Hne Hc; simpl; [lia|].
  destruct (decide (d = e)) as [->|Hd].
  { by rewrite Hk, Z.eqb_refl. }
  destruct (Hc d) as [H1 H2]; [lia|].
  apply Z.eqb_neq in H1, H2. rewrite H1, H2, next_slot_at. apply IH; auto; lia.
Qed.

Section rep.
Context (m : OrderRefMap) (g : gmap Z OrderLocation) (Hrep : orm_rep m g).

Lemma rep_live k l : g !! k = Some l → live_key k.
Proof using Hrep. intros H. by apply (rep_content _ _ Hrep) in H as [? _]. Qed.

Lemma rep_unique_slot k e d :
  live_key k → key_at m (slot_at k e) = k → key_at m (slot_at k d) = k →
  probe_clear m k e → probe_clear m k d → e = d.
Proof using Type.
  intros Hl He Hd Hce Hcd.
  destruct (Nat.lt_trichotomy e d) as [H|[H|H]]; [|done|].
  - destruct (Hcd e H); congruence.
  - destruct (Hce d H); congruence.
Qed.

(** The slot that holds a live key. *)
Lemma rep_slot k l :
  g !! k = Some l → ∃ e, (e < Z.to_nat kMaxProbeLength)%nat ∧ key_at m (slot_at k e) = k ∧
    value_at m (slot_at k e) = l ∧ probe_clear m k e.
Proof using Hrep.
  intros H. apply (rep_content _ _ Hrep) in H as [Hl (s & Hk & Hv)].
  destruct (rep_reach _ _ Hrep s) as (d & Hd & Hs & Hc); [by rewrite Hk|].
  rewrite Hk in Hs, Hc. exists d. subst s. done.
Qed.

Lemma rep_slot_unique k s1 s2 :
  live_key k → key_at m s1 = k → key_at m s2 = k → s1 = s2.
Proof using Hrep.
  intros Hl H1 H2.
  destruct (rep_reach _ _ Hrep s1) as (d1 & _ & Hs1 & Hc1); [by rewrite H1|].
  destruct (rep_reach _ _ Hrep s2) as (d2 & _ & Hs2 & Hc2); [by rewrite H2|].
  rewrite H1 in Hs1, Hc1. rewrite H2 in Hs2, Hc2. subst s1 s2.
  by rewrite (rep_unique_slot k d1 d2).
Qed.

Lemma lookup_slot_spec k :
  match OrderRefMap_lookup_slot m k with
  | Some s => live_key k ∧ key_at m s = k ∧ g !! k = Some (value_at m s)
  | None => g !! k = None
  end.
Proof using Hrep.
  unfold OrderRefMap_lookup_slot. rewrite (rep_mapped _ _ Hrep). cbn [negb orb].
  destruct (Z.eqb_spec k kEmptyKey) as [->|H0]; cbn [orb].
  { apply eq_None_not_Some. intros [l Hl]. by apply rep_live in Hl as [? _]. }
  destruct (Z.eqb_spec k kTombstone) as [->|H1].
  { apply eq_None_not_Some. intros [l Hl]. by apply rep_live in Hl as [_ ?]. }
  destruct (find_probe _ _ _ _) as [s|] eqn:Hf; rewrite <- slot_at_0 in Hf.
  - apply find_probe_Some in Hf as (e & _ & -> & Hk & _); [|intros j ?; lia].
    split; [done|]. split; [done|]. apply (rep_content _ _ Hrep). split; [done|]. eauto.
  - apply eq_None_not_Some. intros [l Hl].
    apply rep_slot in Hl as (e & He & Hk & _ & Hc).
    rewrite (find_probe_complete m k (Z.to_nat kMaxProbeLength) 0 e) in Hf; [done|lia|done..].
Qed.

Lemma lookup_spec k : OrderRefMap_lookup m k = g !! k.
Proof using Hrep.
  unfold OrderRefMap_lookup. pose proof (lookup_slot_spec k) as H.
  destruct (OrderRefMap_lookup_slot m k); simpl; [|done]. by destruct H as (_ & _ & ->).
Qed.

Lemma key_at_write s s' ref loc :
  key_at (orm_write m s ref loc) s' = if decide (s = s') then ref else key_at m s'.
Proof using Type. apply aget_insert. Qed.

Lemma value_at_write s s' ref loc :
  value_at (orm_write m s ref loc) s' = if decide (s = s') then loc else value_at m s'.
Proof using Type. apply aget_insert. Qed.

(** A free destination on the probe path of a new key extends the table. *)
Lemma write_rep ref loc d :
  live_key ref → g !! ref = None → orm_count m < kMaxEntries →
  (d < Z.to_nat kMaxProbeLength)%nat → ¬ live_key (key_at m (slot_at ref d)) →
  probe_clear m ref d →
  orm_rep (orm_write m (slot_at ref d) ref loc) (<[ref := loc]> g).
Proof using Hrep.
  intros Hlive Hnone Hcount Hd Hfree Hclear.
  assert (Hkeep : ∀ k e, k ≠ ref → probe_clear m k e →
    probe_clear (orm_write m (slot_at ref d) ref loc) k e).
  { intros k e Hk Hc j Hj. rewrite key_at_write. destruct (Hc j Hj).
    case_decide; [|done]. split; [apply Hlive | congruence]. }
  assert (Hnew : ∀ s, key_at m s = ref → False).
  { intros s Hs. destruct (g !! ref) as [l|] eqn:E; [done|].
    assert (g !! ref = Some (value_at m s)); [|congruence].
    apply (rep_content _ _ Hrep). split; [done|]. eauto. }
  split.
  - apply (rep_mapped _ _ Hrep).
  - simpl. rewrite map_size_insert_None by done.
    rewrite (rep_count _ _ Hrep) in *. unfold u32. rewrite Z.mod_small; [lia|].
    split; [lia|]. assert (kMaxEntries < 2 ^ 32 - 1) by (vm_compute; done). lia.
  - simpl. unfold u32. rewrite Z.mod_small; [lia|].
    rewrite (rep_count _ _ Hrep) in *.
    assert (kMaxEntries < 2 ^ 32 - 1) by (vm_compute; done). lia.
  - intros s. rewrite key_at_write. case_decide as Hs.
    + subst s. intros _. exists d. split; [done|]. split; [done|].
      intros j Hj. rewrite key_at_write. rewrite decide_False; [by apply Hclear|].
      intros Hjd. apply slot_at_inj in Hjd; lia.
    + intros Hl. destruct (rep_reach _ _ Hrep s Hl) as (e & He & Hse & Hc).
      exists e. split; [done|]. split; [done|]. apply Hkeep; auto.
      intros Hx. by eapply Hnew.
  - intros k l. rewrite lookup_insert. case_decide as Hk.
    + subst k. split.
      * intros [= ->]. split; [done|]. exists (slot_at ref d).
        by rewrite key_at_write, value_at_write, !decide_True.
      * intros [_ (s & Hs & Hv)]. rewrite key_at_write in Hs.
        rewrite value_at_write in Hv. case_decide; [congruence|]. by apply Hnew in Hs.
    + rewrite (rep_content _ _ Hrep). split; intros [Hl (s & Hs & Hv)];
        (split; [done|]); exists s; rewrite key_at_write, value_at_write in *.
      * rewrite !decide_False; [done| |]; intros <-; apply Hfree; by rewrite Hs.
      * by case_decide.
Qed.

(** ** Operations against the represented map *)

Lemma not_live_free k : k = kEmptyKey ∨ k = kTombstone → ¬ live_key k.
Proof using Type. intros [-> | ->] [? ?]; done. Qed.

(** A live key absent from its whole probe path is absent from the map. *)
Lemma absent_of_path ref e :
  live_key ref → probe_clear m ref e →
  key_at m (slot_at ref e) = kEmptyKey ∨ e = Z.to_nat kMaxProbeLength →
  g !! ref = None.
Proof using Hrep.
  intros Hl Hc Hend. apply eq_None_not_Some. intros [l Hg].
  apply rep_slot in Hg as (d & Hd & Hk & _ & Hcd).
  destruct (decide (d < e)%nat) as [Hde|Hde]; [destruct (Hc d Hde); congruence|].
  destruct Hend as [Hend|]; [|lia].
  destruct (decide (d = e)) as [->|]; [destruct Hl; congruence|].
  destruct (Hcd e) as [? _]; [lia|done].
Qed.

Lemma orm_update_rep ref s loc :
  live_key ref → key_at m s = ref →
  orm_rep (mkORM (orm_mapped m) (orm_keys m) (<[s := loc]> (orm_values m)) (orm_count m))
          (<[ref := loc]> g).
Proof using Hrep.
  intros Hl Hs.
  assert (Hin : g !! ref = Some (value_at m s)).
  { apply (rep_content _ _ Hrep). eauto. }
  split; [apply Hrep| |apply Hrep|apply Hrep|].
  - simpl. rewrite map_size_insert, Hin. apply Hrep.
  - intros k l. rewrite lookup_insert.
    set (m' := mkORM _ _ _ _).
    assert (Hval : ∀ s', value_at m' s' = if decide (s = s') then loc else value_at m s').
    { intros s'. apply aget_insert. }
    change (key_at m') with (key_at m). case_decide as Hk.
    + subst k ref. split.
      * intros [= ->]. split; [done|]. exists s. by rewrite Hval, decide_True.
      * intros [_ (s' & Hk & Hv)]. rewrite (rep_slot_unique _ s' s Hl Hk eq_refl) in Hv.
        rewrite Hval, decide_True in Hv by done. congruence.
    + rewrite (rep_content _ _ Hrep). split; intros [? (s' & Hk' & Hv)];
        (split; [done|]); exists s'; split; try done;
        rewrite Hval, decide_False in *; congruence.
Qed.

Lemma insert_probe_spec ref loc n d tomb :
  live_key ref → (d + n = Z.to_nat kMaxProbeLength)%nat → probe_clear m ref d →
  tomb = kCapacity ∨ (∃ t, (t < d)%nat ∧ tomb = slot_at ref t ∧ key_at m tomb = kTombstone) →
  match insert_probe m ref loc n (slot_at ref d) tomb with
  | (m', true) => orm_rep m' (<[ref := loc]> g)
  | (m', false) => m' = m
  end.
Proof using Hrep.
  intros Hl. revert d tomb. induction n as [|n IH]; intros d tomb Hdn Hc Ht.
  - cbn [insert_probe]. destruct (Z.eqb_spec tomb kCapacity) as [|Htc]; [done|].
    destruct (Z.ltb_spec (orm_count m) kMaxEntries) as [Hlt|]; [|done]. cbn [negb andb].
    destruct Ht as [|(t & Htd & -> & Hkt)]; [done|].
    apply write_rep; auto; [|lia|by apply not_live_free; right|].
    + apply (absent_of_path ref d); auto. right. lia.
    + intros j Hj. apply Hc. lia.
  - cbn [insert_probe].
    destruct (Z.eqb_spec (key_at m (slot_at ref d)) ref) as [Hk|Hk]; [by apply orm_update_rep|].
    destruct (Z.eqb_spec (key_at m (slot_at ref d)) kTombstone) as [Hkt|Hkt];
      [destruct (Z.eqb_spec tomb kCapacity) as [->|Htc]|]; cbn [andb].
    + rewrite next_slot_at. apply IH; [lia| |].
      * apply probe_clear_S; auto. by rewrite Hkt.
      * right. exists d. auto with lia.
    + rewrite Hkt. change (kTombstone =? kEmptyKey) with false. cbn [andb].
      rewrite next_slot_at. apply IH; [lia| |].
      * apply probe_clear_S; auto. by rewrite Hkt.
      * right. destruct Ht as [|(t & ? & ?)]; [done|]. exists t. auto with lia.
    + destruct (Z.eqb_spec (key_at m (slot_at ref d)) kEmptyKey) as [Hke|Hke].
      * destruct (Z.leb_spec kMaxEntries (orm_count m)) as [|Hcnt]; [done|].
        assert (g !! ref = None) by (apply (absent_of_path ref d); auto).
        destruct (Z.eqb_spec tomb kCapacity) as [->|Htc].
        -- apply write_rep; auto; [lia|]. apply not_live_free. by left.
        -- destruct Ht as [|(t & Htd & -> & Hkt')]; [done|].
           apply write_rep; auto; [lia|by apply not_live_free; right|].
           intros j Hj. apply Hc. lia.
      * rewrite next_slot_at. apply IH; [lia|by apply probe_clear_S|].
        destruct Ht as [|(t & ? & ?)]; [by left|right; exists t; auto with lia].
Qed.

Lemma insert_spec ref loc :
  match OrderRefMap_insert m ref loc with
  | (m', true) => orm_rep m' (<[ref := loc]> g)
  | (m', false) => m' = m
  end.
Proof using Hrep.
  unfold OrderRefMap_insert. rewrite (rep_mapped _ _ Hrep). cbn [negb orb].
  destruct (Z.eqb_spec ref kEmptyKey); [done|].
  destruct (Z.eqb_spec ref kTombstone); [done|].
  destruct (location_invalid loc); [done|]. cbn [orb].
  rewrite <- slot_at_0. apply insert_probe_spec; [done|done| |by left].
  intros j Hj. lia.
Qed.

Lemma remove_spec ref : orm_rep (OrderRefMap_remove m ref) (delete ref g).
Proof using Hrep.
  unfold OrderRefMap_remove. pose proof (lookup_slot_spec ref) as Hs.
  destruct (OrderRefMap_lookup_slot m ref) as [s|].
  2:{ by rewrite delete_id. }
  destruct Hs as (Hl & Hk & Hg).
  set (m' := mkORM _ _ _ _).
  assert (Hkey : ∀ s', key_at m' s' = if decide (s = s') then kTombstone else key_at m s').
  { intros s'. apply aget_insert. }
  pose proof (rep_count _ _ Hrep) as Hcnt. pose proof (rep_bound _ _ Hrep) as Hbnd.
  assert (Hsz : size g = S (size (delete ref g))).
  { rewrite map_size_delete, Hg. destruct (size g) eqn:E; [|lia].
    apply map_size_empty_inv in E. subst g. done. }
  assert (Hc' : orm_count m' = Z.of_nat (size (delete ref g))).
  { simpl. unfold u32. rewrite Z.mod_small; [lia|].
    assert (kMaxEntries < 2 ^ 32 - 1) by (vm_compute; done). lia. }
  split; [apply Hrep|done|lia| |].
  - intros s'. rewrite Hkey. case_decide; [by intros [_ ?]|]. intros Hl'.
    destruct (rep_reach _ _ Hrep s' Hl') as (d & Hd & Hs' & Hc).
    exists d. split; [done|]. split; [done|]. intros j Hj. rewrite Hkey.
    case_decide; [|by apply Hc]. split; [done|]. intros E. apply Hl'. done.
  - intros k l. rewrite lookup_delete. case_decide as Hk'.
    + subst k. split; [done|]. intros [_ (s' & Hs' & _)]. rewrite Hkey in Hs'.
      case_decide as E; [by destruct Hl; congruence|].
      exfalso. apply E. apply (rep_slot_unique ref); auto.
    + rewrite (rep_content _ _ Hrep). split; intros [Hlk (s' & Hs' & Hv)];
        (split; [done|]); exists s'; rewrite Hkey in *.
      * rewrite decide_False by congruence. done.
      * case_decide as E; [destruct Hlk; congruence|done].
Qed.

Lemma store_spec ref loc :
  is_Some (g !! ref) → orm_rep (OrderRefMap_store m ref loc) (<[ref := loc]> g).
Proof using Hrep.
  intros Hin. unfold OrderRefMap_store. pose proof (lookup_slot_spec ref) as Hs.
  destruct (OrderRefMap_lookup_slot m ref) as [s|]; [|destruct Hin; congruence].
  destruct Hs as (? & ? & _). by apply orm_update_rep.
Qed.
End rep.

(** ** Pre-flight of an insertion *)

Lemma can_insert_probe_keys m m' k n slot :
  (∀ s, key_at m' s = key_at m s ∨ (key_at m' s = kTombstone ∧ key_at m s ≠ kEmptyKey)) →
  k ≠ kTombstone →
  can_insert_probe m k n slot = true → can_insert_probe m' k n slot = true.
Proof.
  intros Hk Hne. revert slot. induction n as [|n IH]; intros slot; cbn [can_insert_probe]; [done|].
  destruct (Hk slot) as [-> | [-> Hnz]].
  - repeat case_match; auto.
  - apply Z.eqb_neq in Hnz. rewrite Hnz.
    destruct (Z.eqb_spec kTombstone k); [congruence|].
    change (kTombstone =? kEmptyKey) with false. destruct (_ =? k); auto. done.
Qed.

Lemma can_insert_probe_ok m k l n slot tomb :
  orm_count m < kMaxEntries → can_insert_probe m k n slot = true →
  snd (insert_probe m k l n slot tomb) = true.
Proof.
  intros Hc. revert slot tomb.
  induction n as [|n IH]; intros slot tomb; cbn [can_insert_probe insert_probe]; [done|].
  destruct (key_at m slot =? k); [done|].
  destruct (Z.eqb_spec (key_at m slot) kEmptyKey) as [->|Hne].
  - intros _. change (kEmptyKey =? kTombstone) with false. cbn [andb].
    destruct (Z.leb_spec kMaxEntries (orm_count m)); [lia|done].
  - intros Hp. destruct (_ && _); by apply IH.
Qed.

Lemma can_insert_probe_fresh m k n d :
  can_insert_probe m k n (slot_at k d) = true → probe_clear m k d →
  ∃ e, probe_clear m k e ∧ key_at m (slot_at k e) = kEmptyKey.
Proof.
  revert d. induction n as [|n IH]; intros d; cbn [can_insert_probe]; [done|].
  destruct (Z.eqb_spec (key_at m (slot_at k d)) k); [done|].
  destruct (Z.eqb_spec (key_at m (slot_at k d)) kEmptyKey); [by eauto|].
  rewrite next_slot_at. intros Hp Hc. apply (IH (S d)); [done|]. by apply probe_clear_S.
Qed.

(** ** The hash table discharges the interface of the book *)

#[export] Instance OrderRefMap_index : OrderIndex OrderRefMap := {
  ix_lookup := OrderRefMap_lookup;
  ix_insert := OrderRefMap_insert;
  ix_can_insert := OrderRefMap_can_insert;
  ix_remove := OrderRefMap_remove;
  ix_store := OrderRefMap_store;
  ix_size := OrderRefMap_size
}.

Lemma can_insert_inv m k :
  OrderRefMap_can_insert m k = true →
  orm_mapped m = true ∧ live_key k ∧ orm_count m < kMaxEntries ∧
  can_insert_probe m k (Z.to_nat kMaxProbeLength) (slot_at k 0) = true.
Proof.
  unfold OrderRefMap_can_insert. rewrite slot_at_0.
  destruct (orm_mapped m); [|done]. cbn [negb orb].
  destruct (Z.eqb_spec k kEmptyKey); [done|].
  destruct (Z.eqb_spec k kTombstone); [done|]. cbn [orb].
  destruct (Z.leb_spec kMaxEntries (orm_count m)); [done|]. done.
Qed.

Lemma can_insert_intro m k :
  orm_mapped m = true → live_key k → orm_count m < kMaxEntries →
  can_insert_probe m k (Z.to_nat kMaxProbeLength) (slot_at k 0) = true →
  OrderRefMap_can_insert m k = true.
Proof.
  unfold OrderRefMap_can_insert. rewrite slot_at_0. intros -> [H1 H2] H3 H4.
  apply Z.eqb_neq in H1, H2. apply Z.leb_gt in H3. by rewrite H1, H2, H3.
Qed.

#[export] Instance OrderRefMap_laws : OrderIndexLaws OrderRefMap orm_rep.
Proof.
  split; simpl.
  - intros m g k Hr. by apply lookup_spec.
  - intros m g Hr. by apply rep_count.
  - intros m g k l Hr. by apply insert_spec.
  - intros m g k Hr. by apply remove_spec.
  - intros m g k l Hr. by apply store_spec.
  - intros m g k Hr (_ & Hl & _ & Hp)%can_insert_inv.
    apply can_insert_probe_fresh in Hp as (e & Hc & He); [|intros j ?; lia].
    eapply (absent_of_path m g Hr); eauto.
  - intros m g k l Hr (Hm & [H1 H2] & Hc & Hp)%can_insert_inv Hv.
    unfold OrderRefMap_insert. apply Z.eqb_neq in H1, H2. rewrite Hm, H1, H2, Hv. cbn [negb orb].
    rewrite <- slot_at_0. by apply can_insert_probe_ok.
  - intros m g k k' Hr (Hm & Hl & Hc & Hp)%can_insert_inv.
    unfold OrderRefMap_remove. pose proof (lookup_slot_spec m g Hr k') as Hs.
    destruct (OrderRefMap_lookup_slot m k') as [s|]; [|by apply can_insert_intro].
    destruct Hs as (Hl' & Hk' & Hg). apply can_insert_intro; [done|done| |].
    + simpl. pose proof (rep_count _ _ Hr). pose proof (rep_bound _ _ Hr).
      assert (size g ≠ 0%nat) by (intros E; apply map_size_empty_inv in E; by subst g).
      assert (kMaxEntries < 2 ^ 32 - 1) by (vm_compute; done).
      unfold u32. rewrite Z.mod_small; lia.
    + eapply can_insert_probe_keys; [|apply Hl|exact Hp]. intros s'.
      unfold key_at. simpl. rewrite aget_insert. fold (key_at m s').
      case_decide; [right|by left]. subst s'. split; [done|]. rewrite Hk'. apply Hl'.
  - intros m k k' l. unfold OrderRefMap_store. by destruct (OrderRefMap_lookup_slot m k').
  - intros m g k Hr [l Hl]. intros <-. by apply (rep_live m g Hr) in Hl as [? _].
Qed.

(** A freshly mapped table represents the empty map. *)
Lemma init_rep m m' : OrderRefMap_init true m = (m', true) → orm_rep m' ∅.
Proof.
  unfold OrderRefMap_init. destruct (orm_mapped m); [done|]. intros [= <-].
  split; simpl; try done.
  - intros s [H _]. exfalso. apply H. unfold key_at, aget. simpl. by rewrite lookup_empty.
  - intros k l. rewrite lookup_empty. split; [done|]. intros [Hl (s & Hs & _)].
    exfalso. destruct Hl as [Hl _]. apply Hl. rewrite <- Hs. unfold key_at, aget. simpl.
    by rewrite lookup_empty.
Qed.
