(* ===== verification/Level.v ===== *)
(** * Level: one price level and its intrusive FIFO list
    (src/luv_lob.hpp, LOBEngine::link_slot, unlink_slot, deactivate_slot)

    A [PriceLevel] keeps its orders in a 16-slot array threaded by
    [next_idx]/[prev_idx].  This file gives the slot operations and shows that
    they maintain a well-formed doubly linked list whose order is arrival
    order. *)

From S2P Require Import Prelude Arena.
From Stdlib Require Import ZArith Lia.
From stdpp Require Import base tactics gmap numbers option list.
Open Scope Z_scope.

(** ** Slot operations *)

(** The [while (lvl.orders[cur].next_idx != -1)] walk of [link_slot]; [None]
    when the fuel runs out or an index leaves the array. *)
Fixpoint walk_tail (fuel : nat) (lvl : PriceLevel) (cur : Z) : option Z :=
  match fuel with
  | O => None
  | S fuel' =>
      s ← get_slot lvl cur;
      if next_idx s =? -1 then Some cur else walk_tail fuel' lvl (next_idx s)
  end.

Definition kWalkFuel : nat := Z.to_nat kMaxOrdersPerLevel.

Definition link_slot (lvl : PriceLevel) (slot_idx : Z) : option PriceLevel :=
  slot ← get_slot lvl slot_idx;
  lvl ← put_slot lvl slot_idx (set_next_idx slot (-1));
  if head_idx lvl =? -1 then
    slot ← get_slot lvl slot_idx;
    lvl ← put_slot lvl slot_idx (set_prev_idx slot (-1));
    Some (set_head_idx lvl slot_idx)
  else
    cur ← walk_tail kWalkFuel lvl (head_idx lvl);
    tail ← get_slot lvl cur;
    lvl ← put_slot lvl cur (set_next_idx tail slot_idx);
    slot ← get_slot lvl slot_idx;
    put_slot lvl slot_idx (set_prev_idx slot cur).

Definition unlink_slot (lvl : PriceLevel) (slot_idx : Z) : option PriceLevel :=
  slot ← get_slot lvl slot_idx;
  lvl ← (if negb (prev_idx slot =? -1) then
           p ← get_slot lvl (prev_idx slot);
           put_slot lvl (prev_idx slot) (set_next_idx p (next_idx slot))
         else Some (set_head_idx lvl (next_idx slot)));
  slot ← get_slot lvl slot_idx;
  lvl ← (if negb (next_idx slot =? -1) then
           n ← get_slot lvl (next_idx slot);
           put_slot lvl (next_idx slot) (set_prev_idx n (prev_idx slot))
         else Some lvl);
  slot ← get_slot lvl slot_idx;
  put_slot lvl slot_idx (set_next_idx (set_prev_idx slot (-1)) (-1)).

Definition deactivate (s : OrderSlot) : OrderSlot :=
  mkSlot 0 0 0 (next_idx s) (prev_idx s).

Definition deactivate_slot (lvl : PriceLevel) (slot_idx : Z) : option PriceLevel :=
  s ← get_slot lvl slot_idx; put_slot lvl slot_idx (deactivate s).

(** ** Linked segments

    [seg os p c ids p' c']: starting at index [c] with predecessor [p], the
    list visits exactly [ids] and stops at index [c'] with last node [p']. *)
Fixpoint seg (os : list OrderSlot) (p c : Z) (ids : list nat) (p' c' : Z) : Prop :=
  match ids with
  | [] => p = p' ∧ c = c'
  | i :: ids' => c = Z.of_nat i ∧ ∃ s, os !! i = Some s ∧ prev_idx s = p ∧
      seg os (Z.of_nat i) (next_idx s) ids' p' c'
  end.

Definition linked (os : list OrderSlot) (h : Z) (ids : list nat) : Prop :=
  ∃ last, seg os (-1) h ids last (-1).

Lemma seg_app os p c l1 l2 p' c' :
  seg os p c (l1 ++ l2) p' c' ↔ ∃ pm cm, seg os p c l1 pm cm ∧ seg os pm cm l2 p' c'.
Proof.
  revert p c. induction l1 as [|i l1 IH]; intros p c; simpl.
  - split; [by eauto|]. by intros (? & ? & [-> ->] & ?).
  - split.
    + intros (-> & s & Hs & Hp & H). apply IH in H as (pm & cm & ? & ?).
      exists pm, cm. split; [|done]. split; [done|]. by exists s.
    + intros (pm & cm & (-> & s & Hs & Hp & H) & ?). split; [done|].
      exists s. split; [done|]. split; [done|]. apply IH. by exists pm, cm.
Qed.

Lemma seg_frame os p c ids p' c' k s :
  k ∉ ids → seg os p c ids p' c' → seg (<[k := s]> os) p c ids p' c'.
Proof.
  revert p c. induction ids as [|i ids IH]; intros p c Hk; simpl; [done|].
  apply not_elem_of_cons in Hk as [Hne Hk].
  intros (-> & t & Ht & Hp & H). split; [done|]. exists t.
  rewrite list_lookup_insert_ne by done. split; [done|]. split; [done|]. by apply IH.
Qed.

Lemma seg_snoc_next os p c l k p' c' s x :
  k ∉ l → os !! k = Some s → seg os p c (l ++ [k]) p' c' →
  seg (<[k := set_next_idx s x]> os) p c (l ++ [k]) (Z.of_nat k) x.
Proof.
  intros Hk Hs. rewrite !seg_app. intros (pm & cm & H1 & H2). simpl in H2.
  destruct H2 as (-> & s' & Hs' & Hp & _). simplify_eq.
  eexists _, _. split; [by apply seg_frame|]. simpl. split; [done|].
  eexists. rewrite list_lookup_insert_eq by (by eapply lookup_lt_Some).
  split; [done|]. done.
Qed.

Lemma seg_cons_prev os p c j l p' c' s q :
  j ∉ l → os !! j = Some s → seg os p c (j :: l) p' c' →
  seg (<[j := set_prev_idx s q]> os) q c (j :: l) p' c'.
Proof.
  intros Hj Hs (-> & s' & Hs' & Hp & H). simplify_eq. split; [done|].
  eexists. rewrite list_lookup_insert_eq by (by eapply lookup_lt_Some).
  split; [done|]. split; [done|]. simpl. by apply seg_frame.
Qed.

Lemma seg_in os p c ids p' c' i :
  seg os p c ids p' c' → i ∈ ids → ∃ s, os !! i = Some s.
Proof.
  revert p c. induction ids as [|j ids IH]; intros p c; simpl; [by intros _ ?%elem_of_nil|].
  intros (_ & s & Hs & _ & H) [->|Hi]%elem_of_cons; eauto.
Qed.

(** ** Reading and writing slots of a 16-slot level *)

Definition kSlots : nat := Z.to_nat kMaxOrdersPerLevel.

Lemma get_slot_nat lvl i :
  length (orders lvl) = kSlots → get_slot lvl (Z.of_nat i) = orders lvl !! i.
Proof.
  intros Hlen. unfold get_slot, kSlots, kMaxOrdersPerLevel in *.
  destruct (Z.ltb_spec (Z.of_nat i) 16).
  - rewrite (proj2 (Z.leb_le _ _)) by lia. by rewrite Nat2Z.id.
  - rewrite andb_false_r. symmetry. apply lookup_ge_None. lia.
Qed.

Lemma put_slot_nat lvl i s :
  (i < kSlots)%nat → put_slot lvl (Z.of_nat i) s = Some (set_orders lvl (<[i := s]> (orders lvl))).
Proof.
  intros Hi. unfold put_slot, kSlots, kMaxOrdersPerLevel in *.
  rewrite (proj2 (Z.leb_le _ _)), (proj2 (Z.ltb_lt _ _)) by lia. by rewrite Nat2Z.id.
Qed.

Lemma slot_bound lvl i s :
  length (orders lvl) = kSlots → orders lvl !! i = Some s → (i < kSlots)%nat.
Proof. intros <- H. by eapply lookup_lt_Some. Qed.

(** ** The tail walk terminates at the last slot *)

Lemma walk_tail_last lvl fuel p c l k p' :
  length (orders lvl) = kSlots → (length l < fuel)%nat →
  seg (orders lvl) p c (l ++ [k]) p' (-1) →
  walk_tail fuel lvl c = Some (Z.of_nat k).
Proof.
  intros Hlen. revert p c l. induction fuel as [|fuel IH]; intros p c l Hf; [lia|].
  destruct l as [|i l]; simpl.
  - intros (-> & s & Hs & _ & _ & Hn). rewrite get_slot_nat, Hs by done. simpl.
    by rewrite Hn.
  - intros (-> & s & Hs & _ & H). rewrite get_slot_nat, Hs by done. simpl.
    destruct (Z.eqb_spec (next_idx s) (-1)) as [E|]; [|apply (IH (Z.of_nat i) _ l); [simpl in *; lia|done]].
    exfalso. rewrite E in H. destruct l; simpl in H; destruct H as [? _]; lia.
Qed.

Arguments walk_tail : simpl never.

(** ** link_slot and unlink_slot on lists *)

(** Everything of a slot but its list pointers. *)
Definition payload (s : OrderSlot) : Z * Z * Z := (order_id s, qty s, flags s).

Definition same_payload (os os' : list OrderSlot) : Prop :=
  length os' = length os ∧ ∀ j, payload <$> os' !! j = payload <$> os !! j.

#[export] Instance same_payload_pre : PreOrder same_payload.
Proof.
  split.
  - intros os. done.
  - intros a b c [H1 H2] [H3 H4]. split; [congruence|]. intros j. by rewrite H4, H2.
Qed.

Lemma same_payload_insert os i s s' :
  os !! i = Some s → payload s' = payload s → same_payload os (<[i := s']> os).
Proof.
  intros Hs Hp. split; [by rewrite length_insert|]. intros j.
  destruct (decide (i = j)) as [<-|].
  - rewrite list_lookup_insert_eq by (by eapply lookup_lt_Some). by rewrite Hs; simpl; rewrite Hp.
  - by rewrite list_lookup_insert_ne.
Qed.

Lemma link_slot_spec lvl ids i :
  length (orders lvl) = kSlots → linked (orders lvl) (head_idx lvl) ids →
  NoDup ids → i ∉ ids → (i < kSlots)%nat → (length ids < kSlots)%nat →
  ∃ os h, link_slot lvl (Z.of_nat i) = Some (set_head_idx (set_orders lvl os) h) ∧
    linked os h (ids ++ [i]) ∧ same_payload (orders lvl) os.
Proof.
  intros Hlen [lst Hseg] Hnd Hi Hik Hlt.
  assert (∃ s, orders lvl !! i = Some s) as [s Hs]
    by (apply lookup_lt_is_Some; congruence).
  unfold link_slot. rewrite get_slot_nat, Hs by done. simpl.
  rewrite put_slot_nat by done. simpl.
  set (os1 := <[i := set_next_idx s (-1)]> (orders lvl)).
  assert (Hlen1 : length os1 = kSlots) by (unfold os1; by rewrite length_insert).
  assert (Hs1 : os1 !! i = Some (set_next_idx s (-1)))
    by (apply list_lookup_insert_eq; congruence).
  assert (Hp1 : same_payload (orders lvl) os1) by (by eapply same_payload_insert).
  assert (Hseg1 : seg os1 (-1) (head_idx lvl) ids lst (-1)) by (by apply seg_frame).
  destruct (decide (ids = [])) as [->|Hne].
  - destruct Hseg as [_ ->]. simpl.
    rewrite get_slot_nat by done. simpl. rewrite Hs1. simpl. rewrite put_slot_nat by done.
    eexists _, _. split; [reflexivity|]. simpl. split.
    + eexists. simpl. split; [done|]. eexists.
      rewrite list_lookup_insert_eq by congruence. done.
    + etrans; [exact Hp1|]. by eapply same_payload_insert.
  - destruct (exists_last Hne) as (l & k & ->).
    assert (head_idx lvl =? -1 = false) as ->.
    { apply Z.eqb_neq. destruct l; simpl in Hseg; destruct Hseg as [-> _]; lia. }
    rewrite length_app in Hlt. simpl in Hlt.
    rewrite (walk_tail_last _ kWalkFuel (-1) _ l k lst);
      [|done|unfold kWalkFuel, kSlots in *; lia|exact Hseg1]. simpl.
    apply NoDup_app in Hnd as (Hndl & Hkl & _).
    assert (Hk : k ∉ l) by (intros Hk; by apply (Hkl k Hk), list_elem_of_singleton).
    assert (Hki : k ≠ i) by (intros ->; apply Hi; set_solver).
    destruct (seg_in _ _ _ _ _ _ k Hseg1) as [t Ht]; [set_solver|].
    rewrite get_slot_nat by done. simpl. rewrite Ht. simpl.
    rewrite put_slot_nat by (by apply (slot_bound (set_orders lvl os1) k t)). simpl.
    rewrite get_slot_nat by (simpl; by rewrite length_insert). simpl.
    rewrite list_lookup_insert_ne, Hs1 by done. simpl. rewrite put_slot_nat by done.
    eexists (<[i := _]> (<[k := _]> os1)), (head_idx lvl). split; [reflexivity|]. split.
    + exists (Z.of_nat i). apply seg_app. eexists _, _. split.
      * apply seg_frame; [done|]. by eapply seg_snoc_next.
      * simpl. split; [done|]. eexists.
        rewrite list_lookup_insert_eq by (rewrite length_insert; congruence). done.
    + etrans; [exact Hp1|].
      trans (<[k := set_next_idx t (Z.of_nat i)]> os1).
      * by eapply (same_payload_insert os1 k t).
      * eapply (same_payload_insert _ i (set_next_idx s (-1))); [|reflexivity].
        by rewrite list_lookup_insert_ne, Hs1.
Qed.

Lemma seg_snoc_last os p c l k p' c' : seg os p c (l ++ [k]) p' c' → p' = Z.of_nat k.
Proof. rewrite seg_app. intros (pm & cm & _ & -> & s & _ & _ & <- & _). done. Qed.

Lemma unlink_slot_spec lvl l1 i l2 :
  length (orders lvl) = kSlots → linked (orders lvl) (head_idx lvl) (l1 ++ i :: l2) →
  NoDup (l1 ++ i :: l2) →
  ∃ os h, unlink_slot lvl (Z.of_nat i) = Some (set_head_idx (set_orders lvl os) h) ∧
    linked os h (l1 ++ l2) ∧ same_payload (orders lvl) os.
Proof.
  intros Hlen [lst Hseg] Hnd.
  apply NoDup_app in Hnd as (Hnd1 & Hdis & [Hi2 Hnd2]%NoDup_cons).
  assert (Hi1 : i ∉ l1) by (intros H; apply (Hdis i H); set_solver).
  assert (Hdis2 : ∀ x, x ∈ l1 → x ∉ l2) by (intros x Hx; specialize (Hdis x Hx); set_solver).
  apply seg_app in Hseg as (pm & cm & Hs1 & -> & s & Hs & Hp & Hs2).
  assert (Hik : (i < kSlots)%nat) by (rewrite <- Hlen; by eapply lookup_lt_Some).
  unfold unlink_slot. rewrite get_slot_nat, Hs by done. simpl. rewrite Hp.
  (* the predecessor, or the head, now points past the slot *)
  assert (∃ os1 h1,
    (if negb (pm =? -1) then p ← get_slot lvl pm; put_slot lvl pm (set_next_idx p (next_idx s))
     else Some (set_head_idx lvl (next_idx s))) = Some (set_head_idx (set_orders lvl os1) h1) ∧
    seg os1 (-1) h1 l1 pm (next_idx s) ∧ seg os1 (Z.of_nat i) (next_idx s) l2 lst (-1) ∧
    os1 !! i = Some s ∧ same_payload (orders lvl) os1) as (os1 & h1 & -> & G1 & G2 & Hsi & Hp1).
  { destruct (decide (l1 = [])) as [->|Hne].
    - destruct Hs1 as [<- Hh]. rewrite Z.eqb_refl. simpl.
      exists (orders lvl), (next_idx s). split; [by destruct lvl|]. done.
    - destruct (exists_last Hne) as (l & k & ->).
      pose proof (seg_snoc_last _ _ _ _ _ _ _ Hs1) as ->.
      rewrite (proj2 (Z.eqb_neq _ _)) by lia. simpl.
      destruct (seg_in _ _ _ _ _ _ k Hs1) as [t Ht]; [set_solver|].
      assert (Hki : k ≠ i) by (intros ->; apply Hi1; set_solver).
      rewrite get_slot_nat, Ht by done. simpl.
      rewrite put_slot_nat by (rewrite <- Hlen; by eapply lookup_lt_Some).
      exists (<[k := set_next_idx t (next_idx s)]> (orders lvl)), (head_idx lvl).
      split; [by destruct lvl|]. split; [|split; [|split]].
      + eapply seg_snoc_next; eauto. intros Hk. apply NoDup_app in Hnd1 as (_ & H & _).
        by apply (H k Hk), list_elem_of_singleton.
      + apply seg_frame; [|done]. apply Hdis2. set_solver.
      + by rewrite list_lookup_insert_ne.
      + by eapply same_payload_insert. }
  assert (Hlen1 : length os1 = kSlots) by (destruct Hp1; congruence).
  simpl. rewrite get_slot_nat by done. simpl. rewrite Hsi. simpl.
  (* the successor points back past the slot *)
  set (lvl1 := set_head_idx (set_orders lvl os1) h1).
  assert (∃ os2,
    (if negb (next_idx s =? -1) then n ← get_slot lvl1 (next_idx s);
       put_slot lvl1 (next_idx s) (set_prev_idx n (prev_idx s)) else Some lvl1)
     = Some (set_orders lvl1 os2) ∧
    seg os2 (-1) h1 l1 pm (next_idx s) ∧ (∃ lst', seg os2 pm (next_idx s) l2 lst' (-1)) ∧
    os2 !! i = Some s ∧ same_payload os1 os2) as (os2 & -> & K1 & [lst' K2] & Hsi2 & Hp2).
  { destruct l2 as [|j l2].
    - destruct G2 as [_ Hn]. rewrite Hn in *. simpl. exists os1.
      split; [done|]. split; [done|]. split; [by exists pm|]. done.
    - pose proof G2 as (Hn & t & Ht & _). rewrite Hn in *.
      rewrite (proj2 (Z.eqb_neq _ _)) by lia. simpl.
      rewrite get_slot_nat by done. simpl. rewrite Ht. simpl.
      rewrite put_slot_nat by (rewrite <- Hlen1; by eapply lookup_lt_Some).
      apply not_elem_of_cons in Hi2 as [Hij Hi2]. apply NoDup_cons in Hnd2 as [Hj2 Hnd2].
      exists (<[j := set_prev_idx t (prev_idx s)]> os1). split; [done|].
      split; [|split; [|split]].
      + apply seg_frame; [|done]. intros Hj. apply (Hdis2 j Hj). set_solver.
      + exists lst. rewrite Hp. by eapply seg_cons_prev.
      + by rewrite list_lookup_insert_ne.
      + by eapply same_payload_insert. }
  assert (Hlen2 : length os2 = kSlots) by (destruct Hp2; congruence).
  simpl. rewrite get_slot_nat by done. simpl. rewrite Hsi2. simpl.
  rewrite put_slot_nat by done.
  exists (<[i := set_next_idx (set_prev_idx s (-1)) (-1)]> os2), h1.
  split; [done|]. split.
  - exists lst'. apply seg_app. exists pm, (next_idx s). split; by apply seg_frame.
  - etrans; [exact Hp1|]. etrans; [exact Hp2|]. by eapply same_payload_insert.
Qed.

(** ** The queue a level stands for *)

Definition entry (os : list OrderSlot) (i : nat) : Z * Z :=
  match os !! i with Some s => (order_id s, qty s) | None => (0, 0) end.

Definition queue (os : list OrderSlot) (ids : list nat) : list (Z * Z) := entry os <$> ids.

Definition qsum (q : list (Z * Z)) : Z := foldr (λ e acc, e.2 + acc) 0 q.

(** Executable abstraction: the slots met from [head_idx], and their orders. *)
Fixpoint collect (fuel : nat) (os : list OrderSlot) (c : Z) : list nat :=
  match fuel with
  | O => []
  | S fuel' =>
      if c =? -1 then [] else
      match os !! Z.to_nat c with
      | Some s => Z.to_nat c :: collect fuel' os (next_idx s)
      | None => []
      end
  end.

Definition level_ids (lvl : PriceLevel) : list nat :=
  collect kSlots (orders lvl) (head_idx lvl).

Definition level_queue (lvl : PriceLevel) : list (Z * Z) := queue (orders lvl) (level_ids lvl).

Lemma qsum_app q1 q2 : qsum (q1 ++ q2) = qsum q1 + qsum q2.
Proof. induction q1 as [|e q1 IH]; simpl; [lia|]. rewrite IH. lia. Qed.

Lemma qsum_nonneg q : Forall (λ e, 0 ≤ e.2) q → 0 ≤ qsum q.
Proof. induction 1; simpl; lia. Qed.

Lemma qsum_bound q B : Forall (λ e, e.2 ≤ B) q → qsum q ≤ B * Z.of_nat (length q).
Proof. induction 1; simpl; lia. Qed.

Lemma collect_seg fuel os p c ids p' :
  seg os p c ids p' (-1) → (length ids ≤ fuel)%nat → collect fuel os c = ids.
Proof.
  revert p c ids. induction fuel as [|fuel IH]; intros p c ids Hs Hl.
  { destruct ids; [done|simpl in Hl; lia]. }
  destruct ids as [|i ids]; simpl in *.
  - by destruct Hs as [_ ->].
  - destruct Hs as (-> & s & Hi & _ & Hs). rewrite (proj2 (Z.eqb_neq _ _)) by lia.
    rewrite Nat2Z.id, Hi. f_equal. apply (IH (Z.of_nat i) _ ids Hs). lia.
Qed.

Lemma entry_payload os os' i :
  payload <$> os' !! i = payload <$> os !! i → entry os' i = entry os i.
Proof.
  unfold entry. destruct (os' !! i), (os !! i); simpl; intros [=]; [|done].
  f_equal; congruence.
Qed.

Lemma queue_payload os os' ids :
  (∀ i, i ∈ ids → payload <$> os' !! i = payload <$> os !! i) → queue os' ids = queue os ids.
Proof.
  intros H. apply list_fmap_ext. intros i x Hx. apply entry_payload, H.
  by eapply list_elem_of_lookup_2.
Qed.

Lemma queue_app os l1 l2 : queue os (l1 ++ l2) = queue os l1 ++ queue os l2.
Proof. apply fmap_app. Qed.

(** ** Well-formed levels *)

Definition side_flags (sd : Z) : Z := Z.lor kFlagActive (if sd =? 0 then kFlagBid else 0).

(** Links: the threaded slots are exactly the active ones. *)
Record level_links (sd : Z) (lvl : PriceLevel) (ids : list nat) : Prop := mk_links {
  ll_len : length (orders lvl) = kSlots;
  ll_nodup : NoDup ids;
  ll_linked : linked (orders lvl) (head_idx lvl) ids;
  ll_active : ∀ i s, orders lvl !! i = Some s → (is_active s = true ↔ i ∈ ids);
  ll_flags : ∀ i s, orders lvl !! i = Some s → i ∈ ids → flags s = side_flags sd
}.

Definition good_entry (e : Z * Z) : Prop := 0 < e.1 ∧ 1 ≤ e.2 ≤ kMaxQuantity.

(** Links plus aggregates that agree with the queue. *)
Record level_wf (sd : Z) (lvl : PriceLevel) (ids : list nat) : Prop := mk_wf {
  lw_links : level_links sd lvl ids;
  lw_good : Forall good_entry (queue (orders lvl) ids);
  lw_total : total_qty lvl = qsum (queue (orders lvl) ids);
  lw_count : order_count lvl = Z.of_nat (length ids)
}.

Lemma links_bound sd lvl ids i : level_links sd lvl ids → i ∈ ids → (i < kSlots)%nat.
Proof.
  intros H Hi. destruct (ll_linked _ _ _ H) as [lst Hs].
  destruct (seg_in _ _ _ _ _ _ i Hs Hi) as [s Hs']. rewrite <- (ll_len _ _ _ H).
  by eapply lookup_lt_Some.
Qed.

Lemma links_length sd lvl ids : level_links sd lvl ids → (length ids ≤ kSlots)%nat.
Proof.
  intros H. assert (Hl : length (seq 0 kSlots) = kSlots) by apply length_seq.
  rewrite <- Hl. apply submseteq_length, NoDup_submseteq.
  - apply H.
  - intros i Hi. apply elem_of_seq. pose proof (links_bound _ _ _ _ H Hi). lia.
Qed.

Lemma links_ids sd lvl ids : level_links sd lvl ids → level_ids lvl = ids.
Proof.
  intros H. destruct (ll_linked _ _ _ H) as [lst Hs]. unfold level_ids.
  eapply collect_seg; [exact Hs|]. by eapply links_length.
Qed.

Lemma wf_queue sd lvl ids : level_wf sd lvl ids → level_queue lvl = queue (orders lvl) ids.
Proof. intros H. unfold level_queue. by rewrite (links_ids _ _ _ (lw_links _ _ _ H)). Qed.

Lemma wf_total_bounds sd lvl ids :
  level_wf sd lvl ids → 0 ≤ total_qty lvl ≤ kMaxQuantity * kMaxOrdersPerLevel.
Proof.
  intros H. rewrite (lw_total _ _ _ H). pose proof (lw_good _ _ _ H) as Hg. split.
  - apply qsum_nonneg. eapply Forall_impl; [exact Hg|]. intros e [_ ?]. lia.
  - etrans; [apply (qsum_bound _ kMaxQuantity)|].
    + eapply Forall_impl; [exact Hg|]. intros e [_ ?]. lia.
    + unfold queue. rewrite length_fmap.
      pose proof (links_length _ _ _ (lw_links _ _ _ H)).
      unfold kSlots, kMaxOrdersPerLevel, kMaxQuantity in *. lia.
Qed.

(** A reset level is well formed and empty. *)
Lemma reset_wf sd lvl p : level_wf sd (set_price (PriceLevel_reset lvl) p) [].
Proof.
  split; [split| | |]; simpl; try done.
  - constructor.
  - by exists (-1).
  - intros i s Hs.
    change (replicate (Z.to_nat kMaxOrdersPerLevel) OrderSlot_init !! i = Some s) in Hs.
    apply lookup_replicate in Hs as [-> _]. split; [done|]. by intros ?%elem_of_nil.
  - by intros i s _ ?%elem_of_nil.
Qed.

(** ** alloc_slot *)

Lemma alloc_slot_from_spec i os :
  (alloc_slot_from i os = -1 ∧ Forall (λ s, is_active s = true) os) ∨
  (∃ k s, alloc_slot_from i os = i + Z.of_nat k ∧ os !! k = Some s ∧ is_active s = false).
Proof.
  revert i. induction os as [|s os IH]; intros i; simpl; [by left|].
  destruct (is_active s) eqn:Ha; simpl.
  - destruct (IH (i + 1)) as [[-> H]|(k & t & -> & H)].
    + left. split; [done|]. by constructor.
    + right. exists (S k), t. split; [lia|done].
  - right. exists O, s. split; [lia|done].
Qed.

(** [alloc_slot] finds a slot outside the list exactly when the level has
    fewer than [kMaxOrdersPerLevel] orders. *)
Lemma alloc_slot_spec sd lvl ids :
  level_links sd lvl ids →
  (alloc_slot lvl = -1 ∧ length ids = kSlots) ∨
  (∃ k s, alloc_slot lvl = Z.of_nat k ∧ orders lvl !! k = Some s ∧ k ∉ ids ∧
     (k < kSlots)%nat ∧ (length ids < kSlots)%nat).
Proof.
  intros H. pose proof (ll_len _ _ _ H) as Hlen. unfold alloc_slot.
  destruct (alloc_slot_from_spec 0 (orders lvl)) as [[-> Hall]|(k & s & -> & Hk & Ha)].
  - left. split; [done|]. pose proof (links_length _ _ _ H).
    assert (length (seq 0 kSlots) ≤ length ids)%nat; [|rewrite length_seq in *; lia].
    apply submseteq_length, NoDup_submseteq; [apply NoDup_seq|].
    intros i Hi%elem_of_seq. destruct (lookup_lt_is_Some_2 (orders lvl) i) as [t Ht]; [lia|].
    apply (ll_active _ _ _ H i t Ht). rewrite Forall_forall in Hall. apply Hall.
    by eapply list_elem_of_lookup_2.
  - right. exists k, s. split; [done|]. split; [done|].
    assert (Hki : k ∉ ids).
    { intros Hi. apply (ll_active _ _ _ H k s Hk) in Hi. congruence. }
    split; [done|]. split; [rewrite <- Hlen; by eapply lookup_lt_Some|].
    assert (length (k :: ids) ≤ length (seq 0 kSlots))%nat as Hle;
      [|rewrite length_seq in Hle; simpl in Hle; lia].
    apply submseteq_length, NoDup_submseteq; [by apply NoDup_cons; split; [|apply H]|].
    intros j [->|Hj]%elem_of_cons; apply elem_of_seq.
    + split; [lia|]. rewrite <- Hlen. by eapply lookup_lt_Some.
    + pose proof (links_bound _ _ _ _ H Hj). lia.
Qed.

(** ** Appending an order *)

Lemma side_flags_active sd s : flags s = side_flags sd → is_active s = true.
Proof. unfold is_active, side_flags. intros ->. by destruct (sd =? 0). Qed.

Lemma same_payload_lookup os os' i s' :
  same_payload os os' → os' !! i = Some s' → ∃ s, os !! i = Some s ∧ payload s' = payload s.
Proof.
  intros [_ H] Hs. specialize (H i). rewrite Hs in H. simpl in H.
  destruct (os !! i) as [s|]; [|done]. exists s. split; [done|]. simpl in H. congruence.
Qed.

Lemma payload_inj s s' : payload s' = payload s →
  order_id s' = order_id s ∧ qty s' = qty s ∧ flags s' = flags s ∧ is_active s' = is_active s.
Proof. unfold payload, is_active. intros [=]. split_and!; congruence. Qed.

(** Writing a new order into a free slot and linking it at the tail. *)
Lemma link_links sd lvl ids i ns :
  level_links sd lvl ids → i ∉ ids → (i < kSlots)%nat → (length ids < kSlots)%nat →
  flags ns = side_flags sd →
  ∃ lvl', link_slot (set_orders lvl (<[i := ns]> (orders lvl))) (Z.of_nat i) = Some lvl' ∧
    level_links sd lvl' (ids ++ [i]) ∧
    same_payload (<[i := ns]> (orders lvl)) (orders lvl') ∧
    price lvl' = price lvl ∧ total_qty lvl' = total_qty lvl ∧ order_count lvl' = order_count lvl.
Proof.
  intros H Hi Hik Hlt Hfl. pose proof (ll_len _ _ _ H) as Hlen.
  set (os0 := <[i := ns]> (orders lvl)).
  assert (Hlen0 : length os0 = kSlots) by (unfold os0; by rewrite length_insert).
  destruct (ll_linked _ _ _ H) as [lst Hseg].
  destruct (link_slot_spec (set_orders lvl os0) ids i) as (os & h & -> & Hl & Hp);
    [done| | |done..|].
  { exists lst. by apply seg_frame. }
  { apply H. }
  eexists. split; [done|]. split; [|done].
  assert (Hcase : ∀ j s, os !! j = Some s →
    (j = i ∧ payload s = payload ns) ∨ (j ≠ i ∧ ∃ s0, orders lvl !! j = Some s0 ∧ payload s = payload s0)).
  { intros j s Hs. destruct (same_payload_lookup _ _ _ _ Hp Hs) as (s0 & Hs0 & E).
    simpl in Hs0. unfold os0 in Hs0. destruct (decide (j = i)) as [->|Hne].
    - left. rewrite list_lookup_insert_eq in Hs0 by congruence.
      injection Hs0 as <-. by split.
    - right. rewrite list_lookup_insert_ne in Hs0 by done. eauto. }
  split; simpl.
  - destruct Hp as [Hp _]. simpl in Hp. congruence.
  - apply NoDup_app. split; [apply H|]. split; [|apply NoDup_singleton]. set_solver.
  - done.
  - intros j s Hs. rewrite elem_of_app, list_elem_of_singleton.
    destruct (Hcase j s Hs) as [[-> E]|(Hne & s0 & Hs0 & E)]; apply payload_inj in E as (_ & _ & Ef & Ea).
    + rewrite Ea. split; [by right|]. intros _. by eapply side_flags_active.
    + rewrite Ea, (ll_active _ _ _ H j s0 Hs0). naive_solver.
  - intros j s Hs. rewrite elem_of_app, list_elem_of_singleton.
    destruct (Hcase j s Hs) as [[-> E]|(Hne & s0 & Hs0 & E)]; apply payload_inj in E as (_ & _ & Ef & Ea);
      rewrite Ef; [done|]. intros [Hj|]; [|done]. by apply (ll_flags _ _ _ H j).
Qed.

(** ** Removing an order *)

Lemma unlink_links sd lvl l1 i l2 :
  level_links sd lvl (l1 ++ i :: l2) →
  ∃ lvl', (lvl1 ← unlink_slot lvl (Z.of_nat i); deactivate_slot lvl1 (Z.of_nat i)) = Some lvl' ∧
    level_links sd lvl' (l1 ++ l2) ∧
    (∀ j, j ≠ i → payload <$> orders lvl' !! j = payload <$> orders lvl !! j) ∧
    price lvl' = price lvl ∧ total_qty lvl' = total_qty lvl ∧ order_count lvl' = order_count lvl.
Proof.
  intros H. pose proof (ll_len _ _ _ H) as Hlen.
  destruct (unlink_slot_spec lvl l1 i l2) as (os & h & -> & [lst Hl] & Hp); [done|apply H|apply H|].
  assert (Hlen1 : length os = kSlots) by (destruct Hp; congruence).
  assert (Hik : (i < kSlots)%nat) by (eapply links_bound; [exact H|set_solver]).
  pose proof (ll_nodup _ _ _ H) as Hnd. apply NoDup_app in Hnd as (N1 & N2 & [N3 N4]%NoDup_cons).
  assert (Hi : i ∉ l1 ++ l2).
  { rewrite elem_of_app. intros [Hi|Hi]; [|done]. apply (N2 i Hi). set_solver. }
  destruct (lookup_lt_is_Some_2 os i) as [t Ht]; [congruence|].
  unfold deactivate_slot. simpl. rewrite get_slot_nat by done. simpl. rewrite Ht. simpl.
  rewrite put_slot_nat by done. eexists. split; [done|]. simpl.
  assert (Hoth : ∀ j, j ≠ i →
    payload <$> <[i := deactivate t]> os !! j = payload <$> orders lvl !! j).
  { intros j Hj. rewrite list_lookup_insert_ne by done. apply Hp. }
  split; [|done]. split; simpl.
  - by rewrite length_insert.
  - apply NoDup_app. split; [done|]. split; [|done]. intros x Hx Hx2. apply (N2 x Hx). set_solver.
  - exists lst. by apply seg_frame.
  - intros j s Hs. destruct (decide (j = i)) as [->|Hne].
    + rewrite list_lookup_insert_eq in Hs by congruence. simplify_eq. split; [done|].
      by intros ?%Hi.
    + specialize (Hoth j Hne). rewrite Hs in Hoth. simpl in Hoth.
      destruct (orders lvl !! j) as [s0|] eqn:Hs0; [|done]. simpl in Hoth.
      apply (inj Some) in Hoth. apply payload_inj in Hoth as (_ & _ & _ & ->).
      rewrite (ll_active _ _ _ H j s0 Hs0). set_solver.
  - intros j s Hs Hj. destruct (decide (j = i)) as [->|Hne]; [done|].
    specialize (Hoth j Hne). rewrite Hs in Hoth. simpl in Hoth.
    destruct (orders lvl !! j) as [s0|] eqn:Hs0; [|done]. simpl in Hoth.
    apply (inj Some) in Hoth. apply payload_inj in Hoth as (_ & _ & -> & _).
    apply (ll_flags _ _ _ H j s0 Hs0). set_solver.
Qed.
