(* ===== verification/LevelOps.v ===== *)
(** * LevelOps: adding, reducing and removing one order of a level

    The handlers of the engine change one level at a time.  This file states
    those changes on the FIFO queue the level stands for, together with the
    slots the level holds, which is what the order index must agree with. *)

From S2P Require Import Prelude Arena Level.
From Stdlib Require Import ZArith Lia.
From stdpp Require Import base tactics gmap numbers option list.
Open Scope Z_scope.

(** Slot [j] of [lvl] carries the live order [r]. *)
Definition holds (lvl : PriceLevel) (j : nat) (r : Z) : Prop :=
  ∃ s, orders lvl !! j = Some s ∧ is_active s = true ∧ order_id s = r.

Lemma holds_payload lvl lvl' j r :
  payload <$> orders lvl' !! j = payload <$> orders lvl !! j → holds lvl' j r ↔ holds lvl j r.
Proof.
  unfold holds. destruct (orders lvl' !! j) as [s'|], (orders lvl !! j) as [s|]; simpl;
    intros [=]; [|naive_solver].
  assert (payload s' = payload s) as (E1 & _ & _ & E2)%payload_inj by (unfold payload; congruence).
  split; intros (t & Ht & ? & ?); simplify_eq; eexists; (split; [done|]); split; congruence.
Qed.

Lemma holds_links sd lvl ids j r :
  level_links sd lvl ids → holds lvl j r ↔ j ∈ ids ∧ (entry (orders lvl) j).1 = r.
Proof.
  intros H. unfold holds, entry. split.
  - intros (s & Hs & Ha & Hr). rewrite Hs. split; [by apply (ll_active _ _ _ H j s)|done].
  - intros [Hj Hr]. destruct (lookup_lt_is_Some_2 (orders lvl) j) as [s Hs].
    { rewrite (ll_len _ _ _ H). by eapply links_bound. }
    rewrite Hs in Hr. exists s. split; [done|]. split; [by apply (ll_active _ _ _ H j s)|done].
Qed.

Lemma entry_lookup os k s : os !! k = Some s → entry os k = (order_id s, qty s).
Proof. unfold entry. by intros ->. Qed.

(** Rewriting the aggregates does not touch the links. *)
Definition set_aggregates (lvl : PriceLevel) (t c : Z) : PriceLevel :=
  set_order_count (set_total_qty lvl t) c.

Lemma aggregates_links sd lvl ids t c :
  level_links sd lvl ids → level_links sd (set_aggregates lvl t c) ids.
Proof. intros []. by split. Qed.

(** ** Appending *)

Lemma level_add sd lvl ids k s r q :
  level_wf sd lvl ids → k ∉ ids → (k < kSlots)%nat → (length ids < kSlots)%nat →
  good_entry (r, q) →
  ∃ lvl1, (l ← put_slot lvl (Z.of_nat k) (mkSlot r q (side_flags sd) (next_idx s) (prev_idx s));
           link_slot l (Z.of_nat k)) = Some lvl1 ∧
    total_qty lvl1 = total_qty lvl ∧ order_count lvl1 = order_count lvl ∧ price lvl1 = price lvl ∧
    let lvl' := set_aggregates lvl1 (total_qty lvl + q) (order_count lvl + 1) in
    level_wf sd lvl' (ids ++ [k]) ∧
    queue (orders lvl') (ids ++ [k]) = queue (orders lvl) ids ++ [(r, q)] ∧
    ∀ j r', holds lvl' j r' ↔ holds lvl j r' ∨ (j = k ∧ r' = r).
Proof.
  intros [Hl Hg Ht Hc] Hk Hks Hlt Hgood. rewrite put_slot_nat by done. simpl.
  destruct (link_links sd lvl ids k (mkSlot r q (side_flags sd) (next_idx s) (prev_idx s)))
    as (lvl1 & -> & Hl1 & Hp & E1 & E2 & E3); [done..|].
  exists lvl1. split; [done|]. split; [done|]. split; [done|]. split; [done|].
  assert (Hother : ∀ j, j ≠ k → payload <$> orders lvl1 !! j = payload <$> orders lvl !! j).
  { intros j Hj. destruct Hp as [_ ->]. by rewrite list_lookup_insert_ne. }
  assert (Hnew : entry (orders lvl1) k = (r, q)).
  { destruct Hp as [_ Hp]. rewrite (entry_payload _ _ _ (Hp k)). unfold entry.
    rewrite list_lookup_insert_eq; [done|]. by rewrite (ll_len _ _ _ Hl). }
  assert (Hq : queue (orders lvl1) (ids ++ [k]) = queue (orders lvl) ids ++ [(r, q)]).
  { rewrite queue_app. cbn. rewrite Hnew. f_equal. apply queue_payload.
    intros i Hi. apply Hother. by intros ->. }
  split; [split|split; [exact Hq|]]; simpl.
  - by apply aggregates_links.
  - rewrite Hq. apply Forall_app. split; [done|]. by constructor.
  - rewrite Hq, qsum_app. simpl. lia.
  - rewrite length_app. simpl. lia.
  - intros j r'. destruct (decide (j = k)) as [->|Hj].
    + rewrite !(holds_links sd _ _ _ _ (aggregates_links _ _ _ _ _ Hl1)). simpl. rewrite Hnew.
      rewrite (holds_links sd _ _ _ _ Hl). simpl. set_solver.
    + rewrite (holds_payload lvl); [naive_solver|]. by apply Hother.
Qed.

(** ** Removing *)

Lemma level_remove sd lvl l1 k l2 :
  level_links sd lvl (l1 ++ k :: l2) →
  let qs := queue (orders lvl) l1 ++ queue (orders lvl) l2 in
  Forall good_entry qs →
  ∃ lvl1, (l ← unlink_slot lvl (Z.of_nat k); deactivate_slot l (Z.of_nat k)) = Some lvl1 ∧
    total_qty lvl1 = total_qty lvl ∧ order_count lvl1 = order_count lvl ∧ price lvl1 = price lvl ∧
    ∀ t c, t = qsum qs → c = Z.of_nat (length (l1 ++ l2)) →
    let lvl' := set_aggregates lvl1 t c in
    level_wf sd lvl' (l1 ++ l2) ∧ queue (orders lvl') (l1 ++ l2) = qs ∧
    ∀ j r', holds lvl' j r' ↔ holds lvl j r' ∧ j ≠ k.
Proof.
  intros Hl qs Hg.
  destruct (unlink_links sd lvl l1 k l2 Hl) as (lvl1 & -> & Hl1 & Hp & E1 & E2 & E3).
  exists lvl1. split; [done|]. split; [done|]. split; [done|]. split; [done|].
  intros t c Ht Hc.
  pose proof (ll_nodup _ _ _ Hl) as (_ & N2 & [N3 _]%NoDup_cons)%NoDup_app.
  assert (Hk : k ∉ l1 ++ l2).
  { rewrite elem_of_app. intros [Hi|Hi]; [|done]. apply (N2 k Hi). set_solver. }
  assert (Hq : queue (orders lvl1) (l1 ++ l2) = qs).
  { unfold qs. rewrite <- queue_app. apply queue_payload. intros i Hi. apply Hp. by intros ->. }
  split; [split|split; [exact Hq|]]; simpl.
  - by apply aggregates_links.
  - by rewrite Hq.
  - by rewrite Hq.
  - done.
  - intros j r'. destruct (decide (j = k)) as [->|Hj].
    + rewrite (holds_links sd _ _ _ _ (aggregates_links _ _ _ _ _ Hl1)). naive_solver.
    + rewrite (holds_payload lvl); [naive_solver|]. by apply Hp.
Qed.

(** ** Reducing in place *)

(** Writing a new quantity into a slot, as [slot.qty -= delta] does. *)
Lemma requantify_links sd lvl l1 k l2 s q :
  level_links sd lvl (l1 ++ k :: l2) → orders lvl !! k = Some s →
  ∃ lvl1, put_slot lvl (Z.of_nat k) (set_slot_qty s q) = Some lvl1 ∧
    level_links sd lvl1 (l1 ++ k :: l2) ∧
    queue (orders lvl1) l1 = queue (orders lvl) l1 ∧
    queue (orders lvl1) l2 = queue (orders lvl) l2 ∧
    entry (orders lvl1) k = (order_id s, q) ∧
    price lvl1 = price lvl ∧ order_count lvl1 = order_count lvl ∧
    ∀ j r', holds lvl1 j r' ↔ holds lvl j r'.
Proof.
  intros Hl Hs.
  assert (Hk : (k < kSlots)%nat) by (eapply links_bound; [exact Hl|set_solver]).
  rewrite put_slot_nat by done. eexists. split; [done|].
  pose proof (ll_nodup _ _ _ Hl) as (_ & N2 & [N3 _]%NoDup_cons)%NoDup_app.
  assert (Hk1 : k ∉ l1) by (intros Hi; apply (N2 k Hi); set_solver).
  set (s' := set_slot_qty s q). set (os' := <[k := s']> (orders lvl)).
  assert (Hkl : os' !! k = Some s') by (apply list_lookup_insert_eq; by rewrite (ll_len _ _ _ Hl)).
  assert (Hother : ∀ j, j ≠ k → os' !! j = orders lvl !! j)
    by (intros j Hj; by apply list_lookup_insert_ne).
  assert (Hcase : ∀ j t, os' !! j = Some t → ∃ t0, orders lvl !! j = Some t0 ∧ flags t = flags t0).
  { intros j t Ht. destruct (decide (j = k)) as [->|Hj].
    - exists s. split; [done|]. rewrite Hkl in Ht. by injection Ht as <-.
    - rewrite Hother in Ht by done. eauto. }
  split; [split; simpl; fold os'|split; [|split; [|split; [|split; [done|split; [done|]]]]]]; simpl; fold os'.
  - unfold os'. rewrite length_insert. apply Hl.
  - apply Hl.
  - destruct (ll_linked _ _ _ Hl) as [lst (pm & cm & S1 & -> & t & Ht & Hp & S2)%seg_app].
    simplify_eq. exists lst. apply seg_app. eexists _, _. split; [by apply seg_frame|].
    split; [done|]. exists s'. split; [done|]. split; [done|]. by apply seg_frame.
  - intros j t (t0 & Ht0 & E)%Hcase. unfold is_active. rewrite E. by apply (ll_active _ _ _ Hl).
  - intros j t (t0 & Ht0 & ->)%Hcase. by apply (ll_flags _ _ _ Hl).
  - apply queue_payload. intros i Hi. rewrite Hother; [done|congruence].
  - apply queue_payload. intros i Hi. rewrite Hother; [done|congruence].
  - by rewrite (entry_lookup _ _ _ Hkl).
  - intros j r'. unfold holds. simpl. fold os'. destruct (decide (j = k)) as [->|Hj].
    + rewrite Hkl, Hs. split; intros (t & [= <-] & ? & ?); eexists; split; done.
    + by rewrite Hother.
Qed.

Lemma queue_split os l1 k l2 :
  queue os (l1 ++ k :: l2) = queue os l1 ++ entry os k :: queue os l2.
Proof. by rewrite queue_app. Qed.

Lemma requantify_wf sd lvl l1 k l2 lvl1 r q t :
  level_links sd lvl1 (l1 ++ k :: l2) → level_wf sd lvl (l1 ++ k :: l2) →
  queue (orders lvl1) l1 = queue (orders lvl) l1 → queue (orders lvl1) l2 = queue (orders lvl) l2 →
  entry (orders lvl1) k = (r, q) → order_count lvl1 = order_count lvl → good_entry (r, q) →
  t = total_qty lvl - (entry (orders lvl) k).2 + q →
  level_wf sd (set_total_qty lvl1 t) (l1 ++ k :: l2).
Proof.
  intros Hl [_ Hg Ht Hc] Q1 Q2 He Hcnt Hgood ->.
  rewrite queue_split in Hg, Ht. apply Forall_app in Hg as [G1 [_ G2]%Forall_cons].
  rewrite qsum_app in Ht. simpl in Ht.
  assert (Hq : queue (orders lvl1) (l1 ++ k :: l2) =
    queue (orders lvl) l1 ++ (r, q) :: queue (orders lvl) l2) by (by rewrite queue_split, Q1, Q2, He).
  split; simpl.
  - destruct Hl. by split.
  - rewrite Hq. apply Forall_app. split; [done|]. by constructor.
  - rewrite Hq, qsum_app. simpl. lia.
  - congruence.
Qed.
