(* ===== verification/Lob.v ===== *)
(** * Lob: the limit order book engine (src/luv_lob.hpp, class LOBEngine)

    Every operation is a function from engine state to [option] engine state.
    [None] stands for undefined behaviour of the C++ code: an index outside a
    slot array or outside the LOB slab, a signed overflow, or a loop that does
    not terminate within its fuel.  The engine is generic in its order index
    ([OrderIndex]); [OrderRefMap] is the index of the program.  The lock that
    [process] takes serialises calls and has no counterpart here; logging calls
    do not change state and are left out. *)

From S2P Require Import Prelude Arena OrderIndex Level.
From Stdlib Require Import ZArith Lia.
From stdpp Require Import base tactics gmap numbers option list.
Open Scope Z_scope.

(** ** ITCH message types and flags the engine dispatches on *)
Definition kAddOrder : Z := 0x41.
Definition kAddOrderMPID : Z := 0x46.
Definition kOrderExecuted : Z := 0x45.
Definition kOrderExecPrice : Z := 0x43.
Definition kOrderCancel : Z := 0x58.
Definition kOrderDelete : Z := 0x44.
Definition kOrderReplace : Z := 0x55.
Definition kTrade : Z := 0x50.
Definition kBuy : Z := 0x01.

(** ** struct SymbolMeta *)
Record SymbolMeta := mkMeta {
  bid_levels : Z;
  ask_levels : Z;
  last_timestamp_ns : Z
}.
Definition SymbolMeta_zero : SymbolMeta := mkMeta 0 0 0.

(** ** Engine statistics *)
Record LobStats := mkStats {
  stat_adds : Z;
  stat_executes : Z;
  stat_cancels : Z;
  stat_deletes : Z;
  stat_replaces : Z;
  stat_trades : Z;
  stat_rejected : Z
}.
Definition LobStats_zero : LobStats := mkStats 0 0 0 0 0 0 0.

Inductive stat := SAdds | SExecutes | SCancels | SDeletes | SReplaces | STrades | SRejected.

(** [++_stat_x] on a [uint64_t]. *)
Definition bump (k : stat) (s : LobStats) : LobStats :=
  match k with
  | SAdds => mkStats (u64 (stat_adds s + 1)) (stat_executes s) (stat_cancels s) (stat_deletes s) (stat_replaces s) (stat_trades s) (stat_rejected s)
  | SExecutes => mkStats (stat_adds s) (u64 (stat_executes s + 1)) (stat_cancels s) (stat_deletes s) (stat_replaces s) (stat_trades s) (stat_rejected s)
  | SCancels => mkStats (stat_adds s) (stat_executes s) (u64 (stat_cancels s + 1)) (stat_deletes s) (stat_replaces s) (stat_trades s) (stat_rejected s)
  | SDeletes => mkStats (stat_adds s) (stat_executes s) (stat_cancels s) (u64 (stat_deletes s + 1)) (stat_replaces s) (stat_trades s) (stat_rejected s)
  | SReplaces => mkStats (stat_adds s) (stat_executes s) (stat_cancels s) (stat_deletes s) (u64 (stat_replaces s + 1)) (stat_trades s) (stat_rejected s)
  | STrades => mkStats (stat_adds s) (stat_executes s) (stat_cancels s) (stat_deletes s) (stat_replaces s) (u64 (stat_trades s + 1)) (stat_rejected s)
  | SRejected => mkStats (stat_adds s) (stat_executes s) (stat_cancels s) (stat_deletes s) (stat_replaces s) (stat_trades s) (u64 (stat_rejected s + 1))
  end.

Section engine.
Context {M : Type} `{OrderIndex M}.

(** ** class LOBEngine: state *)
Record LOBEngine := mkLob {
  lob_flat : gmap Z PriceLevel;
  order_map : M;
  meta : gmap Z SymbolMeta;
  stats : LobStats
}.

Definition set_lob (e : LOBEngine) (l : gmap Z PriceLevel) : LOBEngine :=
  mkLob l (order_map e) (meta e) (stats e).
Definition set_order_map (e : LOBEngine) (m : M) : LOBEngine :=
  mkLob (lob_flat e) m (meta e) (stats e).
Definition set_meta (e : LOBEngine) (sym : Z) (x : SymbolMeta) : LOBEngine :=
  mkLob (lob_flat e) (order_map e) (<[sym := x]> (meta e)) (stats e).
Definition count_stat (k : stat) (e : LOBEngine) : LOBEngine :=
  mkLob (lob_flat e) (order_map e) (meta e) (bump k (stats e)).

Definition meta_of (e : LOBEngine) (sym : Z) : SymbolMeta := aget SymbolMeta_zero (meta e) sym.

(** [init]: [fresh_map] is the result of [OrderRefMap::init], absent when that
    fails; [lob] is the slab of an initialised arena. *)
Definition LOBEngine_init (arena_initialised : bool) (lob : gmap Z PriceLevel)
    (fresh_map : option M) : option LOBEngine :=
  if negb arena_initialised then None
  else m ← fresh_map; Some (mkLob lob m ∅ LobStats_zero).

(** [teardown]: [torn_map] is the index after [OrderRefMap::teardown]; the arena
    pointer is dropped with it. *)
Definition LOBEngine_teardown (e : LOBEngine) (torn_map : M) : LOBEngine :=
  mkLob (lob_flat e) torn_map (meta e) (stats e).

(** ** Price level management *)

Definition level_count (e : LOBEngine) (sym sd : Z) : Z :=
  if sd =? 0 then bid_levels (meta_of e sym) else ask_levels (meta_of e sym).

Definition set_level_count (e : LOBEngine) (sym sd c : Z) : LOBEngine :=
  let x := meta_of e sym in
  set_meta e sym (if sd =? 0 then mkMeta c (ask_levels x) (last_timestamp_ns x)
                  else mkMeta (bid_levels x) c (last_timestamp_ns x)).

(** The binary search loops of [find_level]: bids descend, asks ascend. *)
Fixpoint find_level_loop (fuel : nat) (lob : gmap Z PriceLevel) (sym sd p low high : Z)
    : option Z :=
  match fuel with
  | O => None
  | S fuel' =>
      if low <=? high then
        let mid := low + Z.quot (high - low) 2 in
        lvl ← Arena_level lob sym sd (u16 mid);
        let mp := price lvl in
        if mp =? p then Some mid
        else if (if sd =? 0 then mp <? p else p <? mp)
        then find_level_loop fuel' lob sym sd p low (mid - 1)
        else find_level_loop fuel' lob sym sd p (mid + 1) high
      else Some (-1)
  end.

Definition kSearchFuel : nat := S (Z.to_nat kLevelsPerSide).

Definition find_level (e : LOBEngine) (sym sd p : Z) : option Z :=
  let count := level_count e sym sd in
  if count =? 0 then Some (-1)
  else find_level_loop kSearchFuel (lob_flat e) sym sd p 0 (count - 1).

(** [refresh_level_locations]: the slot loop, then the level loop. *)
Fixpoint refresh_slots (m : M) (sym sd li si : Z) (os : list OrderSlot) : M :=
  match os with
  | [] => m
  | s :: os' =>
      let m' :=
        if negb (is_active s) then m
        else match ix_lookup m (order_id s) with
             | None => m
             | Some _ => ix_store m (order_id s) (mkLoc sym sd li si)
             end in
      refresh_slots m' sym sd li (si + 1) os'
  end.

Fixpoint refresh_levels (n : nat) (lob : gmap Z PriceLevel) (m : M) (sym sd li : Z) : option M :=
  match n with
  | O => Some m
  | S n' =>
      lvl ← Arena_level lob sym sd li;
      refresh_levels n' lob (refresh_slots m sym sd li 0 (orders lvl)) sym sd (li + 1)
  end.

Definition refresh_level_locations (e : LOBEngine) (sym sd first last : Z) : option LOBEngine :=
  if last <? first then Some e
  else m ← refresh_levels (Z.to_nat (last - first + 1)) (lob_flat e) (order_map e) sym sd first;
       Some (set_order_map e m).

(** [std::memmove(base + dst, base + src, n * sizeof(PriceLevel))] with
    [base = &level(sym, side, 0)]; [None] when it leaves the slab. *)
Definition move_levels (lob : gmap Z PriceLevel) (sym sd dst src n : Z)
    : option (gmap Z PriceLevel) :=
  let base := level_index sym sd 0 in
  if (0 <=? base) && (0 <=? dst) && (0 <=? src) &&
     (base + dst + n <=? kLobLevels) && (base + src + n <=? kLobLevels)
  then Some (memmove PriceLevel_zero lob (base + dst) (base + src) (Z.to_nat n))
  else None.

Definition remove_level_if_empty (e : LOBEngine) (sym sd lvl_idx : Z) : option LOBEngine :=
  lvl ← Arena_level (lob_flat e) sym sd lvl_idx;
  if 0 <? order_count lvl then Some e else
  let count := level_count e sym sd in
  if count =? 0 then Some e else
  let last := u16 (count - 1) in
  e ← (if lvl_idx <? last then
         lob ← move_levels (lob_flat e) sym sd lvl_idx (lvl_idx + 1) (last - lvl_idx);
         refresh_level_locations (set_lob e lob) sym sd lvl_idx (last - 1)
       else Some e);
  unused ← Arena_level (lob_flat e) sym sd last;
  lob ← Arena_set_level (lob_flat e) sym sd last (PriceLevel_reset unused);
  Some (set_level_count (set_lob e lob) sym sd (u16 (count - 1))).

(** The insertion point scan of [insert_level_impl]. *)
Fixpoint insert_pos_loop (n : nat) (lob : gmap Z PriceLevel) (sym sd p i : Z) : option Z :=
  match n with
  | O => Some i
  | S n' =>
      lvl ← Arena_level lob sym sd i;
      let lp := price lvl in
      if (if sd =? 0 then lp <? p else p <? lp) then Some i
      else insert_pos_loop n' lob sym sd p (i + 1)
  end.

Definition insert_level_impl (e : LOBEngine) (sym sd p : Z) : option (LOBEngine * Z) :=
  let count := level_count e sym sd in
  if kLevelsPerSide <=? count then Some (e, -1) else
  insert_pos ← insert_pos_loop (Z.to_nat count) (lob_flat e) sym sd p 0;
  e ← (if insert_pos <? count then
         lob ← move_levels (lob_flat e) sym sd (insert_pos + 1) insert_pos (count - insert_pos);
         refresh_level_locations (set_lob e lob) sym sd (u16 (insert_pos + 1)) count
       else Some e);
  old ← Arena_level (lob_flat e) sym sd insert_pos;
  lob ← Arena_set_level (lob_flat e) sym sd insert_pos (set_price (PriceLevel_reset old) p);
  Some (set_level_count (set_lob e lob) sym sd (u16 (count + 1)), insert_pos).

(** ** Order handling *)

Definition clamped_qty (requested available : Z) : Z :=
  if (requested <=? 0) || (available <=? 0) then 0
  else if requested <? available then requested else available.

Definition valid_location (e : LOBEngine) (ref : Z) (loc : OrderLocation) : option bool :=
  if (kSymbols <=? symbol_idx loc) || (1 <? side loc) ||
     (level_count e (symbol_idx loc) (side loc) <=? level_idx loc) ||
     (slot_idx loc <? 0) || (kMaxOrdersPerLevel <=? slot_idx loc)
  then Some false
  else
    lvl ← Arena_level (lob_flat e) (symbol_idx loc) (side loc) (level_idx loc);
    slot ← get_slot lvl (slot_idx loc);
    Some (is_active slot && (order_id slot =? ref) && (0 <=? qty slot) &&
          (0 <=? total_qty lvl) && (0 <? order_count lvl)).

(** Unlink and clear a slot of a level, in that order. *)
Definition clear_slot (lvl : PriceLevel) (si : Z) : option PriceLevel :=
  lvl ← unlink_slot lvl si; deactivate_slot lvl si.

(** The body shared by Add and by the second half of Replace.  [fill_level]
    allocates and links a slot of the level found, updates the aggregates,
    registers the order, and undoes all of it when the index refuses.
    [reject_refused] says whether that last failure counts as a rejection: it
    does in [on_add_order], not in [on_order_replace]. *)
Definition fill_level (reject_refused : bool) (e : LOBEngine) (sym sd lvl_idx ref q : Z)
    : option LOBEngine :=
  if lvl_idx <? 0 then Some (count_stat SRejected e) else
  lvl ← Arena_level (lob_flat e) sym sd lvl_idx;
  let si := alloc_slot lvl in
  if si <? 0 then Some (count_stat SRejected e) else
  slot ← get_slot lvl si;
  lvl ← put_slot lvl si (mkSlot ref q (side_flags sd) (next_idx slot) (prev_idx slot));
  lvl ← link_slot lvl si;
  match checked_add (total_qty lvl) q with
  | None =>
      lvl ← clear_slot lvl si;
      lob ← Arena_set_level (lob_flat e) sym sd lvl_idx lvl;
      e ← remove_level_if_empty (set_lob e lob) sym sd (u16 lvl_idx);
      Some (count_stat SRejected e)
  | Some new_total_qty =>
      cnt ← chk32 (order_count lvl + 1);
      let lvl := set_order_count (set_total_qty lvl new_total_qty) cnt in
      lob ← Arena_set_level (lob_flat e) sym sd lvl_idx lvl;
      let e := set_lob e lob in
      match ix_insert (order_map e) ref (mkLoc sym sd (u16 lvl_idx) si) with
      | (m, true) => Some (set_order_map e m)
      | (m, false) =>
          lvl ← clear_slot lvl si;
          t ← chk64 (total_qty lvl - q);
          c ← chk32 (order_count lvl - 1);
          lob ← Arena_set_level (lob_flat e) sym sd lvl_idx
                  (set_order_count (set_total_qty lvl t) c);
          e ← remove_level_if_empty (set_order_map (set_lob e lob) m) sym sd (u16 lvl_idx);
          Some (if reject_refused then count_stat SRejected e else e)
      end
  end.

(** Find or create the level, then fill it. *)
Definition insert_order (reject_refused : bool) (e : LOBEngine) (sym sd p ref q : Z)
    : option LOBEngine :=
  found ← find_level e sym sd p;
  placed ← (if found <? 0 then insert_level_impl e sym sd p else Some (e, found));
  fill_level reject_refused (fst placed) sym sd (snd placed) ref q.

Definition on_add_order (e : LOBEngine) (tick : TickMsg) : option LOBEngine :=
  let e := count_stat SAdds e in
  match ix_lookup (order_map e) (order_ref tick) with
  | Some _ => Some (count_stat SRejected e)
  | None =>
      let sd := if Z.land (tick_flags tick) kBuy =? 0 then 1 else 0 in
      insert_order true e (tick_symbol tick) sd (tick_price tick) (order_ref tick) (tick_qty tick)
  end.

(** Full teardown of an order: unlink, deactivate, decrement the count, drop
    it from the index, and remove its level when that was its last order. *)
Definition retire_order (e : LOBEngine) (lvl : PriceLevel) (loc : OrderLocation) (ref : Z)
    : option LOBEngine :=
  lvl ← clear_slot lvl (slot_idx loc);
  c ← chk32 (order_count lvl - 1);
  lob ← Arena_set_level (lob_flat e) (symbol_idx loc) (side loc) (level_idx loc)
          (set_order_count lvl c);
  let e := set_order_map (set_lob e lob) (ix_remove (order_map e) ref) in
  remove_level_if_empty e (symbol_idx loc) (side loc) (level_idx loc).

(** Execution and cancellation reduce an order by the clamped quantity and
    tear it down when nothing remains. *)
Definition reduce_order (e : LOBEngine) (ref requested : Z) : option LOBEngine :=
  match ix_lookup (order_map e) ref with
  | None => Some e
  | Some loc =>
      ok ← valid_location e ref loc;
      if negb ok then Some e else
      lvl ← Arena_level (lob_flat e) (symbol_idx loc) (side loc) (level_idx loc);
      slot ← get_slot lvl (slot_idx loc);
      let delta := clamped_qty requested (qty slot) in
      q ← chk64 (qty slot - delta);
      t ← chk64 (total_qty lvl - delta);
      lvl ← put_slot lvl (slot_idx loc) (set_slot_qty slot q);
      let lvl := set_total_qty lvl t in
      if q <=? 0 then retire_order e lvl loc ref
      else lob ← Arena_set_level (lob_flat e) (symbol_idx loc) (side loc) (level_idx loc) lvl;
           Some (set_lob e lob)
  end.

Definition on_order_executed (e : LOBEngine) (tick : TickMsg) : option LOBEngine :=
  reduce_order (count_stat SExecutes e) (order_ref tick) (tick_qty tick).

Definition on_order_cancel (e : LOBEngine) (tick : TickMsg) : option LOBEngine :=
  reduce_order (count_stat SCancels e) (order_ref tick) (tick_qty tick).

(** The deletion block of [on_order_delete] and [on_order_replace]. *)
Definition delete_at (e : LOBEngine) (ref : Z) (loc : OrderLocation) : option LOBEngine :=
  lvl ← Arena_level (lob_flat e) (symbol_idx loc) (side loc) (level_idx loc);
  slot ← get_slot lvl (slot_idx loc);
  t ← chk64 (total_qty lvl - clamped_qty (qty slot) (total_qty lvl));
  retire_order e (set_total_qty lvl t) loc ref.

Definition on_order_delete (e : LOBEngine) (tick : TickMsg) : option LOBEngine :=
  let e := count_stat SDeletes e in
  match ix_lookup (order_map e) (order_ref tick) with
  | None => Some e
  | Some loc =>
      ok ← valid_location e (order_ref tick) loc;
      if negb ok then Some e else delete_at e (order_ref tick) loc
  end.

Definition on_order_replace (e : LOBEngine) (tick : TickMsg) : option LOBEngine :=
  let e := count_stat SReplaces e in
  match ix_lookup (order_map e) (order_ref tick) with
  | None => Some (count_stat SRejected e)
  | Some orig =>
      ok ← valid_location e (order_ref tick) orig;
      if negb ok then Some (count_stat SRejected e) else
      let saved_side := side orig in
      let saved_sym := symbol_idx orig in
      if negb (ix_can_insert (order_map e) (match_num tick)) then Some (count_stat SRejected e)
      else
        e ← delete_at e (order_ref tick) orig;
        insert_order false e saved_sym saved_side (tick_price tick) (match_num tick) (tick_qty tick)
  end.

Definition on_trade (e : LOBEngine) (tick : TickMsg) : option LOBEngine :=
  Some (count_stat STrades e).

(** ** Main dispatch *)
Definition process_unlocked (e : LOBEngine) (tick : TickMsg) : option LOBEngine :=
  if kSymbols <=? tick_symbol tick then Some (count_stat SRejected e) else
  let e :=
    if 0 <? timestamp tick then
      let x := meta_of e (tick_symbol tick) in
      set_meta e (tick_symbol tick) (mkMeta (bid_levels x) (ask_levels x) (timestamp tick))
    else e in
  let t := msg_type tick in
  if (t =? kAddOrder) || (t =? kAddOrderMPID) then
    if (order_ref tick =? 0) || negb (is_valid_quantity (tick_qty tick)) ||
       negb (is_valid_price (tick_price tick))
    then Some (count_stat SRejected e) else on_add_order e tick
  else if (t =? kOrderExecuted) || (t =? kOrderExecPrice) then
    if (order_ref tick =? 0) || negb (is_valid_quantity (tick_qty tick))
    then Some (count_stat SRejected e) else on_order_executed e tick
  else if t =? kOrderCancel then
    if (order_ref tick =? 0) || negb (is_valid_quantity (tick_qty tick))
    then Some (count_stat SRejected e) else on_order_cancel e tick
  else if t =? kOrderDelete then
    if order_ref tick =? 0 then Some (count_stat SRejected e) else on_order_delete e tick
  else if t =? kOrderReplace then
    if (order_ref tick =? 0) || (match_num tick =? 0) || (order_ref tick =? match_num tick) ||
       negb (is_valid_quantity (tick_qty tick)) || negb (is_valid_price (tick_price tick))
    then Some (count_stat SRejected e) else on_order_replace e tick
  else if t =? kTrade then
    if negb (is_valid_quantity (tick_qty tick)) || negb (is_valid_price (tick_price tick))
    then Some (count_stat SRejected e) else on_trade e tick
  else Some (count_stat SRejected e).

(** A sequence of ticks. *)
Fixpoint process_all (e : LOBEngine) (ticks : list TickMsg) : option LOBEngine :=
  match ticks with
  | [] => Some e
  | t :: ticks' => e' ← process_unlocked e t; process_all e' ticks'
  end.

(** ** Book state queries *)

Definition best_price (e : LOBEngine) (sym sd : Z) : option Z :=
  if kSymbols <=? sym then Some 0
  else if level_count e sym sd =? 0 then Some 0
  else lvl ← Arena_level (lob_flat e) sym sd 0; Some (price lvl).

Definition best_bid_price (e : LOBEngine) (sym : Z) : option Z := best_price e sym 0.
Definition best_ask_price (e : LOBEngine) (sym : Z) : option Z := best_price e sym 1.

Definition mid_price (e : LOBEngine) (sym : Z) : option Z :=
  if kSymbols <=? sym then Some 0 else
  bid ← best_bid_price e sym;
  ask ← best_ask_price e sym;
  if (bid =? 0) || (ask =? 0) then Some 0
  else s ← chk64 (bid + ask); Some (Z.quot s 2).

Definition spread (e : LOBEngine) (sym : Z) : option Z :=
  if kSymbols <=? sym then Some 0 else
  bid ← best_bid_price e sym;
  ask ← best_ask_price e sym;
  if (bid =? 0) || (ask =? 0) then Some 0 else chk64 (ask - bid).

Fixpoint depth_loop (n : nat) (e : LOBEngine) (sym sd i total : Z) : option Z :=
  match n with
  | O => Some total
  | S n' =>
      lvl ← Arena_level (lob_flat e) sym sd i;
      t ← chk64 (total + total_qty lvl);
      depth_loop n' e sym sd (i + 1) t
  end.

Definition depth_qty (e : LOBEngine) (sym sd levels : Z) : option Z :=
  if kSymbols <=? sym then Some 0 else
  let n := if levels <? level_count e sym sd then levels else level_count e sym sd in
  depth_loop (Z.to_nat n) e sym sd 0 0.

Definition bid_depth_qty (e : LOBEngine) (sym levels : Z) : option Z := depth_qty e sym 0 levels.
Definition ask_depth_qty (e : LOBEngine) (sym levels : Z) : option Z := depth_qty e sym 1 levels.

Definition is_crossed (e : LOBEngine) (sym : Z) : option bool :=
  if kSymbols <=? sym then Some false else
  bid ← best_bid_price e sym;
  ask ← best_ask_price e sym;
  Some ((0 <? bid) && (0 <? ask) && (ask <=? bid)).

Definition is_stale (e : LOBEngine) (sym now_ns timeout_ns : Z) : bool :=
  if kSymbols <=? sym then true else
  let t := last_timestamp_ns (meta_of e sym) in
  if t =? 0 then false else (t <? now_ns) && (timeout_ns <? u64 (now_ns - t)).

Definition bid_level_count (e : LOBEngine) (sym : Z) : Z :=
  if kSymbols <=? sym then 0 else bid_levels (meta_of e sym).
Definition ask_level_count (e : LOBEngine) (sym : Z) : Z :=
  if kSymbols <=? sym then 0 else ask_levels (meta_of e sym).
Definition last_update_time (e : LOBEngine) (sym : Z) : Z :=
  if kSymbols <=? sym then 0 else last_timestamp_ns (meta_of e sym).

Definition active_order_count (e : LOBEngine) : Z := ix_size (order_map e).
End engine.

Arguments LOBEngine M : clear implicits.
