(* ===== verification/LobView.v ===== *)
(** * LobView: the book as lists of levels

    The engine keeps the levels of every (symbol, side) in one flat slab and
    moves them with [memmove].  This file reads the slab as one list of levels
    per side and shows what each slab operation does to those lists and to the
    order index: writing a level is a list update, opening a price is a list
    insertion, closing one is a list deletion, and in both of the latter cases
    [refresh_level_locations] shifts exactly the locations that moved. *)

From S2P Require Import Prelude Arena OrderIndex Level Lob.
From Stdlib Require Import ZArith Lia.
From stdpp Require Import base tactics gmap numbers option list.
Open Scope Z_scope.

(** ** Addressing *)

Definition in_book (sym sd : Z) : Prop := 0 ≤ sym < kSymbols ∧ (sd = 0 ∨ sd = 1).

#[export] Instance in_book_dec sym sd : Decision (in_book sym sd).
Proof. unfold in_book. apply _. Defined.

Definition lev (lob : gmap Z PriceLevel) (sym sd i : Z) : PriceLevel :=
  aget PriceLevel_zero lob (level_index sym sd i).

Definition levels_of (lob : gmap Z PriceLevel) (n sym sd : Z) : list PriceLevel :=
  (λ i, lev lob sym sd (Z.of_nat i)) <$> seq 0 (Z.to_nat n).

Lemma level_index_inj sym sd i sym' sd' i' :
  in_book sym sd → in_book sym' sd' → 0 ≤ i < kLevelsPerSide → 0 ≤ i' < kLevelsPerSide →
  level_index sym sd i = level_index sym' sd' i' → sym = sym' ∧ sd = sd' ∧ i = i'.
Proof. unfold in_book, level_index, kSymbols, kLevelsPerSide. lia. Qed.

Lemma level_index_range sym sd i :
  in_book sym sd → 0 ≤ i < kLevelsPerSide → 0 ≤ level_index sym sd i < kLobLevels.
Proof. unfold in_book, level_index, kLobLevels, kSymbols, kLevelsPerSide. lia. Qed.

Lemma Arena_level_lev lob sym sd i :
  in_book sym sd → 0 ≤ i < kLevelsPerSide → Arena_level lob sym sd i = Some (lev lob sym sd i).
Proof.
  intros Hb Hi. pose proof (level_index_range sym sd i Hb Hi).
  unfold Arena_level. rewrite (proj2 (Z.leb_le _ _)), (proj2 (Z.ltb_lt _ _)) by lia. done.
Qed.

Lemma levels_of_lookup lob n sym sd i l :
  levels_of lob n sym sd !! i = Some l ↔ (Z.of_nat i < n) ∧ l = lev lob sym sd (Z.of_nat i).
Proof.
  unfold levels_of. rewrite list_lookup_fmap_Some. setoid_rewrite lookup_seq.
  split; [intros (j & -> & -> & ?)|intros [? ->]; exists i]; split_and!; auto with lia.
Qed.

Lemma levels_of_length lob n sym sd : length (levels_of lob n sym sd) = Z.to_nat n.
Proof. unfold levels_of. by rewrite length_fmap, length_seq. Qed.

Lemma levels_of_ext lob lob' n sym sd :
  (∀ i, 0 ≤ i < n → lev lob' sym sd i = lev lob sym sd i) →
  levels_of lob' n sym sd = levels_of lob n sym sd.
Proof.
  intros Hext. apply list_fmap_ext. intros i x (-> & ?)%lookup_seq. apply Hext. lia.
Qed.

(** ** Writing one level *)

Lemma Arena_set_level_lev lob sym sd i l :
  in_book sym sd → 0 ≤ i < kLevelsPerSide →
  ∃ lob', Arena_set_level lob sym sd i l = Some lob' ∧
    lev lob' sym sd i = l ∧
    (∀ sym' sd' i', in_book sym' sd' → 0 ≤ i' < kLevelsPerSide →
       (sym', sd', i') ≠ (sym, sd, i) → lev lob' sym' sd' i' = lev lob sym' sd' i').
Proof.
  intros Hb Hi. pose proof (level_index_range sym sd i Hb Hi).
  unfold Arena_set_level. rewrite (proj2 (Z.leb_le _ _)), (proj2 (Z.ltb_lt _ _)) by lia.
  eexists. split; [done|]. split; [apply aget_insert_eq|].
  intros sym' sd' i' Hb' Hi' Hne. apply aget_insert_ne. intros E.
  apply level_index_inj in E as (-> & -> & ->); auto.
Qed.

Lemma set_level_levels lob sym sd i l :
  in_book sym sd → 0 ≤ i < kLevelsPerSide →
  ∃ lob', Arena_set_level lob sym sd i l = Some lob' ∧
    lev lob' sym sd i = l ∧
    ∀ sym' sd' n, in_book sym' sd' → n ≤ kLevelsPerSide →
      levels_of lob' n sym' sd' =
        if decide ((sym', sd') = (sym, sd)) then <[Z.to_nat i := l]> (levels_of lob n sym sd)
        else levels_of lob n sym' sd'.
Proof.
  intros Hb Hi. destruct (Arena_set_level_lev lob sym sd i l Hb Hi) as (lob' & E & H1 & H2).
  exists lob'. split; [done|]. split; [done|]. intros sym' sd' n Hb' Hn. case_decide as Heq.
  - injection Heq as -> ->. apply list_eq. intros j. apply option_eq. intros x.
    rewrite levels_of_lookup. destruct (decide (j = Z.to_nat i)) as [->|Hj].
    + rewrite Z2Nat.id, H1 by lia. destruct (decide (i < n)).
      * rewrite list_lookup_insert_eq by (rewrite levels_of_length; lia). naive_solver.
      * rewrite list_insert_ge by (rewrite levels_of_length; lia).
        rewrite levels_of_lookup. naive_solver lia.
    + rewrite list_lookup_insert_ne, levels_of_lookup by done. split; intros [Hjn ->];
        (split; [done|]); [|symmetry]; apply H2; auto; try lia; intros [=]; lia.
  - apply levels_of_ext. intros j Hj. apply H2; auto; [lia|]. intros [=]. by subst.
Qed.

(** ** Moving levels *)

Lemma move_levels_lev lob sym sd dst src n :
  in_book sym sd → 0 ≤ dst → 0 ≤ src → 0 ≤ n →
  dst + n ≤ kLevelsPerSide → src + n ≤ kLevelsPerSide →
  ∃ lob', move_levels lob sym sd dst src n = Some lob' ∧
    (∀ i, 0 ≤ i < kLevelsPerSide → lev lob' sym sd i =
       if decide (dst ≤ i < dst + n) then lev lob sym sd (src + (i - dst)) else lev lob sym sd i) ∧
    (∀ sym' sd' i, in_book sym' sd' → 0 ≤ i < kLevelsPerSide → (sym', sd') ≠ (sym, sd) →
       lev lob' sym' sd' i = lev lob sym' sd' i).
Proof.
  intros Hb Hd Hs Hn Hdn Hsn.
  assert (Hr : 0 ≤ level_index sym sd 0 ∧ level_index sym sd 0 + kLevelsPerSide ≤ kLobLevels).
  { unfold in_book, level_index, kLobLevels, kSymbols, kLevelsPerSide in *. lia. }
  unfold move_levels. rewrite !(proj2 (Z.leb_le _ _)) by lia. simpl.
  eexists. split; [done|].
  assert (Hidx : ∀ i, level_index sym sd i = level_index sym sd 0 + i)
    by (intros i; unfold level_index; lia).
  split.
  - intros i Hi. unfold lev. rewrite aget_memmove, Z2Nat.id by lia. rewrite !(Hidx i).
    repeat case_decide; try lia; [|done]. f_equal. rewrite (Hidx (src + _)). lia.
  - intros sym' sd' i Hb' Hi Hne. unfold lev. rewrite aget_memmove, Z2Nat.id by lia.
    rewrite decide_False; [done|]. intros Hin. apply Hne.
    assert (sym' = sym ∧ sd' = sd) as [-> ->]; [|done].
    unfold in_book, level_index, kSymbols, kLevelsPerSide in *. lia.
Qed.

(** ** Locations of resting orders *)

Definition view : Type := Z → Z → list PriceLevel.

Inductive located (W : view) : Z → OrderLocation → Prop :=
| located_intro sym sd i j lvl s :
    in_book sym sd → W sym sd !! i = Some lvl → orders lvl !! j = Some s → is_active s = true →
    located W (order_id s) (mkLoc sym sd (Z.of_nat i) (Z.of_nat j)).

Definition idle (lvl : PriceLevel) : Prop := ∀ j s, orders lvl !! j = Some s → is_active s = false.

(** The effect on a location of opening a level at depth [pos]. *)
Definition shift_up (sym sd pos : Z) (loc : OrderLocation) : OrderLocation :=
  if decide (symbol_idx loc = sym ∧ side loc = sd ∧ pos ≤ level_idx loc)
  then mkLoc sym sd (level_idx loc + 1) (slot_idx loc) else loc.

(** ... and of closing the level at depth [pos]. *)
Definition shift_down (sym sd pos : Z) (loc : OrderLocation) : OrderLocation :=
  if decide (symbol_idx loc = sym ∧ side loc = sd ∧ pos < level_idx loc)
  then mkLoc sym sd (level_idx loc - 1) (slot_idx loc) else loc.

Lemma shift_down_up sym sd pos loc : shift_down sym sd pos (shift_up sym sd pos loc) = loc.
Proof.
  unfold shift_up, shift_down. destruct loc as [a b c d]. simpl.
  repeat case_decide; simpl in *; try lia; try done.
  destruct_and!. subst. f_equal. lia.
Qed.

Definition opens (W W' : view) (sym sd : Z) (pos : nat) (new : PriceLevel) : Prop :=
  (pos ≤ length (W sym sd))%nat ∧
  W' sym sd = take pos (W sym sd) ++ new :: drop pos (W sym sd) ∧
  ∀ sym' sd', in_book sym' sd' → (sym', sd') ≠ (sym, sd) → W' sym' sd' = W sym' sd'.

Lemma lookup_opened {A} (l : list A) pos x i :
  (pos ≤ length l)%nat →
  (take pos l ++ x :: drop pos l) !! i =
    if decide (i < pos)%nat then l !! i else if decide (i = pos) then Some x else l !! (i - 1)%nat.
Proof.
  intros Hp. assert (Hl : length (take pos l) = pos) by (rewrite length_take; lia).
  repeat case_decide.
  - rewrite lookup_app_l, lookup_take by lia. by rewrite decide_True.
  - subst. by rewrite lookup_app_r, Hl, Nat.sub_diag by lia.
  - rewrite lookup_app_r, Hl by lia. destruct (i - pos)%nat as [|k] eqn:E; [lia|].
    simpl. rewrite lookup_drop. f_equal. lia.
Qed.

Lemma located_opens W W' sym sd pos new r loc' :
  opens W W' sym sd pos new → idle new →
  located W' r loc' ↔ ∃ loc, located W r loc ∧ loc' = shift_up sym sd (Z.of_nat pos) loc.
Proof.
  intros (Hp & HW & Ho) Hidle. split.
  - intros [sym' sd' i j lvl s Hb Hi Hj Ha].
    destruct (decide ((sym', sd') = (sym, sd))) as [[= -> ->]|Hne].
    + rewrite HW, lookup_opened in Hi by done. repeat case_decide.
      * eexists. split; [by econstructor|]. unfold shift_up. simpl.
        rewrite decide_False by lia. done.
      * simplify_eq. apply Hidle in Hj. congruence.
      * eexists. split; [by econstructor|]. unfold shift_up. simpl.
        rewrite decide_True by lia. f_equal. lia.
    + rewrite Ho in Hi by done. eexists. split; [by econstructor|].
      unfold shift_up. simpl. rewrite decide_False; [done|]. intros (-> & -> & _). done.
  - intros (loc & [sym' sd' i j lvl s Hb Hi Hj Ha] & ->). unfold shift_up. simpl.
    destruct (decide ((sym', sd') = (sym, sd))) as [[= -> ->]|Hne].
    + destruct (decide (pos ≤ i)%nat) as [Hpi|Hpi].
      * rewrite decide_True by lia.
        replace (Z.of_nat i + 1) with (Z.of_nat (S i)) by lia. econstructor; eauto.
        rewrite HW, lookup_opened, decide_False, decide_False by lia.
        by replace (S i - 1)%nat with i by lia.
      * rewrite decide_False by lia. econstructor; eauto.
        by rewrite HW, lookup_opened, decide_True by lia.
    + rewrite decide_False by naive_solver. econstructor; eauto. by rewrite Ho.
Qed.

(** ** Reassigning locations *)

Definition assign (g : gmap Z OrderLocation) (al : list (Z * OrderLocation)) : gmap Z OrderLocation :=
  foldl (λ g p, match g !! p.1 with Some _ => <[p.1 := p.2]> g | None => g end) g al.

Lemma assign_cons g p al :
  assign g (p :: al) = assign (match g !! p.1 with Some _ => <[p.1 := p.2]> g | None => g end) al.
Proof. done. Qed.

Lemma assign_miss g al r : (∀ l, (r, l) ∉ al) → assign g al !! r = g !! r.
Proof.
  revert g. induction al as [|[r' l'] al IH]; intros g Hr; [done|].
  rewrite assign_cons, IH by (intros l Hl; apply (Hr l); set_solver). simpl.
  destruct (g !! r') eqn:E; [|done]. rewrite lookup_insert_ne; [done|].
  intros ->. apply (Hr l'). set_solver.
Qed.

Lemma assign_hit g al r l :
  (r, l) ∈ al → (∀ l', (r, l') ∈ al → l' = l) → is_Some (g !! r) → assign g al !! r = Some l.
Proof.
  revert g. induction al as [|[r' l'] al IH]; intros g Hin Hun Hs; [set_solver|].
  rewrite assign_cons. simpl.
  destruct (decide ((r, l) ∈ al)) as [Hal|Hal].
  - apply IH; [done|set_solver|]. destruct (g !! r') eqn:E; [|done].
    rewrite lookup_insert. case_decide; [by eauto|done].
  - apply elem_of_cons in Hin as [[= <- <-]|]; [|done]. destruct Hs as [x Hx]. rewrite Hx.
    rewrite assign_miss; [apply lookup_insert_eq|].
    intros l0 Hl0. rewrite (Hun l0) in Hl0; [done|set_solver].
Qed.

Lemma assign_map g al σ :
  (∀ r l, (r, l) ∈ al → ∃ loc, g !! r = Some loc ∧ l = σ loc) →
  (∀ r loc, g !! r = Some loc → (∃ l, (r, l) ∈ al) ∨ σ loc = loc) →
  assign g al = σ <$> g.
Proof.
  intros H1 H2. apply map_eq. intros r. rewrite lookup_fmap.
  destruct (g !! r) as [loc|] eqn:Hr; simpl.
  - destruct (H2 r loc Hr) as [[l Hl]|Hf].
    + destruct (H1 r l Hl) as (loc' & ? & ->). simplify_eq. apply assign_hit; [done| |by eauto].
      intros l' Hl'. destruct (H1 r l' Hl') as (? & ? & ->). by simplify_eq.
    + destruct (decide ((r, loc) ∈ al)) as [Hal|Hal].
      * rewrite Hf. apply assign_hit; [done| |by eauto].
        intros l' Hl'. destruct (H1 r l' Hl') as (? & ? & ->). by simplify_eq.
      * rewrite assign_miss, Hr, Hf; [done|]. intros l Hl.
        destruct (H1 r l Hl) as (? & ? & ->). simplify_eq. by rewrite Hf in Hl.
  - rewrite assign_miss, Hr; [done|]. intros l Hl. destruct (H1 r l Hl) as (? & ? & _). congruence.
Qed.

(** The assignments [refresh_level_locations] performs on a run of levels. *)
Fixpoint slot_locs (sym sd li si : Z) (os : list OrderSlot) : list (Z * OrderLocation) :=
  match os with
  | [] => []
  | s :: os' =>
      (if is_active s then [(order_id s, mkLoc sym sd li si)] else [])
        ++ slot_locs sym sd li (si + 1) os'
  end.

Fixpoint level_locs (sym sd li : Z) (ls : list PriceLevel) : list (Z * OrderLocation) :=
  match ls with
  | [] => []
  | l :: ls' => slot_locs sym sd li 0 (orders l) ++ level_locs sym sd (li + 1) ls'
  end.

Lemma elem_of_slot_locs sym sd li si os r l :
  (r, l) ∈ slot_locs sym sd li si os ↔
  ∃ j s, os !! j = Some s ∧ is_active s = true ∧ r = order_id s ∧
         l = mkLoc sym sd li (si + Z.of_nat j).
Proof.
  revert si. induction os as [|s os IH]; intros si; simpl.
  { split; [set_solver|]. by intros (? & ? & ? & _). }
  rewrite elem_of_app, IH. split.
  - intros [Hin|(j & t & Hj & Ha & -> & ->)].
    + destruct (is_active s) eqn:Ha; [|set_solver]. apply list_elem_of_singleton in Hin as [= -> ->].
      exists O, s. split_and!; auto. f_equal. lia.
    + exists (S j), t. split_and!; auto. f_equal. lia.
  - intros ([|j] & t & Hj & Ha & -> & ->); simpl in Hj.
    + simplify_eq. left. rewrite Ha, list_elem_of_singleton. do 2 f_equal. lia.
    + right. exists j, t. split_and!; auto. f_equal. lia.
Qed.

Lemma elem_of_level_locs sym sd li ls r l :
  (r, l) ∈ level_locs sym sd li ls ↔
  ∃ k lvl j s, ls !! k = Some lvl ∧ orders lvl !! j = Some s ∧ is_active s = true ∧
    r = order_id s ∧ l = mkLoc sym sd (li + Z.of_nat k) (Z.of_nat j).
Proof.
  revert li. induction ls as [|lvl ls IH]; intros li; simpl.
  { split; [set_solver|]. by intros (? & ? & ? & ? & ? & _). }
  rewrite elem_of_app, elem_of_slot_locs, IH. split.
  - intros [(j & s & Hj & Ha & -> & ->)|(k & lv & j & s & Hk & Hj & Ha & -> & ->)].
    + exists O, lvl, j, s. split_and!; auto. f_equal; lia.
    + exists (S k), lv, j, s. split_and!; auto. f_equal; lia.
  - intros ([|k] & lv & j & s & Hk & Hj & Ha & -> & ->); simpl in Hk.
    + simplify_eq. left. exists j, s. split_and!; auto. f_equal; lia.
    + right. exists k, lv, j, s. split_and!; auto. f_equal; lia.
Qed.

(** [before sd p q]: price [p] ranks ahead of [q] (bids descend, asks ascend). *)
Definition before (sd p q : Z) : Prop := if sd =? 0 then q < p else p < q.

Lemma before_trans sd p q r : before sd p q → before sd q r → before sd p r.
Proof. unfold before. destruct (sd =? 0); lia. Qed.

Lemma before_total sd p q : p = q ∨ before sd p q ∨ before sd q p.
Proof. unfold before. destruct (sd =? 0); lia. Qed.

Lemma before_irrefl sd p : ¬ before sd p p.
Proof. unfold before. destruct (sd =? 0); lia. Qed.

Lemma before_dec_spec sd p q :
  Bool.reflect (before sd p q) (if sd =? 0 then q <? p else p <? q).
Proof. unfold before. destruct (sd =? 0); apply Z.ltb_spec0. Qed.

Section slab.
Context {M : Type} `{!OrderIndex M} (rep : M → gmap Z OrderLocation → Prop)
  `{!OrderIndexLaws M rep}.
Implicit Types (e : LOBEngine M) (m : M) (g : gmap Z OrderLocation).

Definition levels (e : LOBEngine M) : view :=
  λ sym sd, levels_of (lob_flat e) (level_count e sym sd) sym sd.

Definition counts_ok e : Prop :=
  ∀ sym sd, in_book sym sd → 0 ≤ level_count e sym sd ≤ kLevelsPerSide.

(** The index knows exactly the active slots, each at its place. *)
Definition index_ok e g : Prop :=
  rep (order_map e) g ∧ ∀ r loc, g !! r = Some loc ↔ located (levels e) r loc.

(** What the slab operations leave alone. *)
Definition same_rest (e e' : LOBEngine M) : Prop :=
  stats e' = stats e ∧
  (∀ sym, last_timestamp_ns (meta_of e' sym) = last_timestamp_ns (meta_of e sym)) ∧
  ∀ k, ix_can_insert (order_map e') k = ix_can_insert (order_map e) k.

Lemma levels_length e sym sd :
  counts_ok e → in_book sym sd → Z.of_nat (length (levels e sym sd)) = level_count e sym sd.
Proof using Type.
  intros Hc Hb. unfold levels. rewrite levels_of_length. specialize (Hc sym sd Hb). lia.
Qed.

Lemma levels_lookup_lev e sym sd i l :
  levels e sym sd !! i = Some l → l = lev (lob_flat e) sym sd (Z.of_nat i) ∧
    Z.of_nat i < level_count e sym sd.
Proof using Type. unfold levels. rewrite levels_of_lookup. tauto. Qed.

Lemma levels_level e sym sd i l :
  counts_ok e → in_book sym sd → levels e sym sd !! i = Some l →
  Arena_level (lob_flat e) sym sd (Z.of_nat i) = Some l.
Proof using Type.
  intros Hc Hb [-> Hi]%levels_lookup_lev. apply Arena_level_lev; [done|].
  specialize (Hc sym sd Hb). lia.
Qed.

Lemma level_count_set e sym sd c sym' sd' :
  in_book sym sd → in_book sym' sd' →
  level_count (set_level_count e sym sd c) sym' sd' =
    if decide ((sym', sd') = (sym, sd)) then c else level_count e sym' sd'.
Proof using Type.
  intros [_ Hs] [_ Hs']. unfold level_count, set_level_count, meta_of. simpl.
  rewrite aget_insert. destruct (decide (sym = sym')) as [->|Hne].
  - destruct Hs as [-> | ->], Hs' as [-> | ->]; simpl; case_decide; naive_solver.
  - rewrite decide_False by naive_solver. done.
Qed.

Lemma timestamp_set_count e sym sd c sym' :
  last_timestamp_ns (meta_of (set_level_count e sym sd c) sym') = last_timestamp_ns (meta_of e sym').
Proof using Type.
  unfold set_level_count, meta_of. simpl. rewrite aget_insert. case_decide; [|done].
  subst. by destruct (sd =? 0).
Qed.

(** *** refresh_level_locations *)

Lemma refresh_slots_rep m g sym sd li si os :
  rep m g →
  rep (refresh_slots m sym sd li si os) (assign g (slot_locs sym sd li si os)) ∧
  ∀ k, ix_can_insert (refresh_slots m sym sd li si os) k = ix_can_insert m k.
Proof using Type*.
  revert m g si. induction os as [|s os IH]; intros m g si Hr; [done|].
  cbn [refresh_slots slot_locs]. destruct (is_active s); [|by apply IH].
  cbn [negb app]. rewrite assign_cons. rewrite (law_lookup m g _ Hr). cbn [fst snd].
  destruct (g !! order_id s) eqn:E; [|by apply IH].
  destruct (IH (ix_store m (order_id s) (mkLoc sym sd li si))
               (<[order_id s := mkLoc sym sd li si]> g) (si + 1)) as [H1 H2].
  { apply law_store; [done|by eauto]. }
  split; [done|]. intros k. by rewrite H2, law_can_insert_store.
Qed.

Lemma refresh_levels_rep n lob m g sym sd li :
  rep m g → in_book sym sd → 0 ≤ li → li + Z.of_nat n ≤ kLevelsPerSide →
  ∃ m', refresh_levels n lob m sym sd li = Some m' ∧
    rep m' (assign g (level_locs sym sd li
              ((λ k, lev lob sym sd (li + Z.of_nat k)) <$> seq 0 n))) ∧
    ∀ k, ix_can_insert m' k = ix_can_insert m k.
Proof using Type*.
  intros Hr Hb. revert m g li Hr. induction n as [|n IH]; intros m g li Hr Hli Hn.
  { by exists m. }
  cbn [refresh_levels]. rewrite Arena_level_lev by (done || lia). simpl.
  replace (li + Z.of_nat 0) with li by lia.
  destruct (refresh_slots_rep m g sym sd li 0 (orders (lev lob sym sd li)) Hr) as [Hr' Hc].
  destruct (IH _ _ (li + 1) Hr') as (m' & -> & Hm & Hk); [lia|lia|].
  exists m'. split; [done|]. split; [|intros k; by rewrite Hk, Hc].
  unfold assign in *. cbn [seq fmap list_fmap level_locs]. rewrite foldl_app.
  rewrite <- fmap_S_seq, <- list_fmap_compose.
  replace (((λ k, lev lob sym sd (li + Z.of_nat k)) ∘ S) <$> seq 0 n)
    with ((λ k, lev lob sym sd (li + 1 + Z.of_nat k)) <$> seq 0 n); [done|].
  apply list_fmap_ext. intros i x Hx. simpl. by replace (li + 1 + Z.of_nat x) with (li + Z.of_nat (S x)) by lia.
Qed.

(** *** insert_level_impl *)

Lemma insert_pos_spec e sym sd p n i :
  counts_ok e → in_book sym sd → (i + n = length (levels e sym sd))%nat →
  ∃ pos, insert_pos_loop n (lob_flat e) sym sd p (Z.of_nat i) = Some (Z.of_nat pos) ∧
    (i ≤ pos ≤ length (levels e sym sd))%nat ∧
    (∀ j l, (i ≤ j < pos)%nat → levels e sym sd !! j = Some l → ¬ before sd p (price l)) ∧
    (∀ l, levels e sym sd !! pos = Some l → before sd p (price l)).
Proof using Type.
  intros Hc Hb. revert i. induction n as [|n IH]; intros i Hn; cbn [insert_pos_loop].
  { exists i. split; [done|]. split; [lia|]. split; [intros; lia|].
    intros l Hl. apply lookup_lt_Some in Hl. lia. }
  destruct (lookup_lt_is_Some_2 (levels e sym sd) i) as [l Hl]; [lia|].
  rewrite (levels_level e sym sd i l) by done. simpl.
  destruct (before_dec_spec sd p (price l)) as [Hbf|Hbf].
  - exists i. split; [done|]. split; [lia|]. split; [intros; lia|].
    intros l' Hl'. by simplify_eq.
  - destruct (IH (S i)) as (pos & Hpos & Hr & Hlow & Hhi); [lia|].
    exists pos. replace (Z.of_nat i + 1) with (Z.of_nat (S i)) by lia.
    split; [done|]. split; [lia|]. split; [|done].
    intros j l' Hj Hl'. destruct (decide (j = i)) as [->|]; [by simplify_eq|].
    apply (Hlow j); [lia|done].
Qed.

Definition fresh_level (p : Z) : PriceLevel := set_price (PriceLevel_reset PriceLevel_zero) p.

Lemma fresh_level_idle p : idle (fresh_level p).
Proof using Type.
  intros j s Hs.
  change (replicate (Z.to_nat kMaxOrdersPerLevel) OrderSlot_init !! j = Some s) in Hs.
  by apply lookup_replicate in Hs as [-> _].
Qed.

(** Relocation of the orders behind an opened level. *)
Lemma assign_opened W W' g sym sd pos new :
  (∀ r loc, g !! r = Some loc ↔ located W r loc) →
  in_book sym sd → opens W W' sym sd pos new →
  assign g (level_locs sym sd (Z.of_nat pos + 1) (drop pos (W sym sd))) =
    shift_up sym sd (Z.of_nat pos) <$> g.
Proof using Type.
  intros Hg Hb (Hp & _ & _). apply assign_map.
  - intros r l (k & lvl & j & s & Hk & Hj & Ha & -> & ->)%elem_of_level_locs.
    rewrite lookup_drop in Hk. eexists. split; [apply Hg; by econstructor|].
    unfold shift_up. simpl. rewrite decide_True by lia. f_equal. lia.
  - intros r loc Hr. apply Hg in Hr as [sym' sd' i j lvl s Hb' Hi Hj Ha].
    unfold shift_up. simpl. case_decide as Hd; [left|by right].
    destruct Hd as (-> & -> & Hpi).
    eexists. apply elem_of_level_locs. exists (i - pos)%nat, lvl, j, s.
    split_and!; [|done..]. rewrite lookup_drop. by replace (pos + (i - pos))%nat with i by lia.
Qed.

Lemma shifted_index_ok e e' g sym sd pos new :
  (∀ r loc, g !! r = Some loc ↔ located (levels e) r loc) →
  opens (levels e) (levels e') sym sd pos new → idle new →
  ∀ r loc, (shift_up sym sd (Z.of_nat pos) <$> g) !! r = Some loc ↔ located (levels e') r loc.
Proof using Type.
  intros Hg Ho Hid r loc. rewrite lookup_fmap, fmap_Some, (located_opens _ _ _ _ _ _ _ _ Ho Hid).
  by setoid_rewrite Hg.
Qed.

Lemma levels_of_opened lob lob' count sym sd pos new :
  (Z.of_nat pos ≤ count) →
  (∀ i, 0 ≤ i ≤ count → lev lob' sym sd i =
     if decide (i < Z.of_nat pos) then lev lob sym sd i
     else if decide (i = Z.of_nat pos) then new else lev lob sym sd (i - 1)) →
  levels_of lob' (count + 1) sym sd =
    take pos (levels_of lob count sym sd) ++ new :: drop pos (levels_of lob count sym sd).
Proof using Type.
  intros Hp Hl. apply list_eq. intros i. apply option_eq. intros l.
  rewrite lookup_opened by (rewrite levels_of_length; lia).
  rewrite levels_of_lookup. destruct (decide (Z.of_nat i < count + 1)) as [Hi|Hi].
  - rewrite Hl by lia. repeat case_decide; try lia.
    + rewrite levels_of_lookup. naive_solver lia.
    + naive_solver.
    + rewrite levels_of_lookup. replace (Z.of_nat (i - 1)) with (Z.of_nat i - 1) by lia.
      naive_solver lia.
  - repeat case_decide; try lia. rewrite levels_of_lookup. naive_solver lia.
Qed.

Lemma levels_of_drop lob lob' n sym sd pos b :
  Z.of_nat pos ≤ n →
  (∀ i, Z.of_nat pos ≤ i < n → lev lob' sym sd (b + (i - Z.of_nat pos)) = lev lob sym sd i) →
  (λ k, lev lob' sym sd (b + Z.of_nat k)) <$> seq 0 (Z.to_nat (n - Z.of_nat pos)) =
    drop pos (levels_of lob n sym sd).
Proof using Type.
  intros Hp Hl. apply list_eq. intros i. apply option_eq. intros l.
  rewrite lookup_drop, levels_of_lookup, list_lookup_fmap_Some. setoid_rewrite lookup_seq.
  assert (E : ∀ i, Z.of_nat i < n - Z.of_nat pos →
    lev lob' sym sd (b + Z.of_nat i) = lev lob sym sd (Z.of_nat (pos + i))).
  { intros j Hj. rewrite <- Hl by lia. f_equal. lia. }
  split.
  - intros (k & -> & -> & ?). split; [lia|]. apply E. lia.
  - intros [? ->]. exists i. split; [symmetry; apply E; lia|lia].
Qed.

(** The move-and-refresh step shared by opening and closing a level. *)
Lemma move_refresh e g sym sd dst src n :
  rep (order_map e) g → in_book sym sd → 0 ≤ dst → 0 ≤ src → 0 < n →
  dst + n ≤ kLevelsPerSide → src + n ≤ kLevelsPerSide →
  ∃ lob m, move_levels (lob_flat e) sym sd dst src n = Some lob ∧
    refresh_level_locations (set_lob e lob) sym sd dst (dst + n - 1) =
      Some (set_order_map (set_lob e lob) m) ∧
    rep m (assign g (level_locs sym sd dst
             ((λ k, lev lob sym sd (dst + Z.of_nat k)) <$> seq 0 (Z.to_nat n)))) ∧
    (∀ k, ix_can_insert m k = ix_can_insert (order_map e) k) ∧
    (∀ i, 0 ≤ i < kLevelsPerSide → lev lob sym sd i =
       if decide (dst ≤ i < dst + n) then lev (lob_flat e) sym sd (src + (i - dst))
       else lev (lob_flat e) sym sd i) ∧
    (∀ sym' sd' i, in_book sym' sd' → 0 ≤ i < kLevelsPerSide → (sym', sd') ≠ (sym, sd) →
       lev lob sym' sd' i = lev (lob_flat e) sym' sd' i).
Proof using Type*.
  intros Hr Hb Hd Hs Hn Hdn Hsn.
  destruct (move_levels_lev (lob_flat e) sym sd dst src n) as (lob & Hm & H1 & H2); [done|lia..|].
  destruct (refresh_levels_rep (Z.to_nat n) lob (order_map e) g sym sd dst)
    as (m & Hrf & Hrep & Hc); [done|done|lia|lia|].
  exists lob, m. split; [done|]. split; [|done].
  unfold refresh_level_locations. rewrite (proj2 (Z.ltb_ge _ _)) by lia.
  replace (dst + n - 1 - dst + 1) with n by lia. simpl. by rewrite Hrf.
Qed.

Lemma levels_count e lob m c sym sd sym' sd' :
  in_book sym sd → in_book sym' sd' →
  levels (set_level_count (set_lob (set_order_map e m) lob) sym sd c) sym' sd' =
    levels_of lob (if decide ((sym', sd') = (sym, sd)) then c else level_count e sym' sd') sym' sd'.
Proof using Type. intros Hb Hb'. unfold levels. by rewrite level_count_set. Qed.

Lemma counts_set e sym sd c :
  counts_ok e → in_book sym sd → 0 ≤ c ≤ kLevelsPerSide → counts_ok (set_level_count e sym sd c).
Proof using Type.
  intros Hc Hb Hr sym' sd' Hb'. rewrite level_count_set by done. case_decide; [done|by apply Hc].
Qed.

Lemma counts_ext e e' : meta e' = meta e → counts_ok e → counts_ok e'.
Proof using Type. unfold counts_ok, level_count, meta_of. by intros ->. Qed.

Lemma u16_small z : 0 ≤ z < 2 ^ 16 → u16 z = z.
Proof using Type. intros. unfold u16. by rewrite Z.mod_small. Qed.

(** Opening a level: the first half of [insert_level_impl]. *)
Lemma open_shift e g sym sd (pos : nat) count :
  counts_ok e → in_book sym sd → index_ok e g → count = level_count e sym sd →
  count < kLevelsPerSide → Z.of_nat pos ≤ count →
  ∃ lob m,
    (if Z.of_nat pos <? count then
       lob ← move_levels (lob_flat e) sym sd (Z.of_nat pos + 1) (Z.of_nat pos) (count - Z.of_nat pos);
       refresh_level_locations (set_lob e lob) sym sd (u16 (Z.of_nat pos + 1)) count
     else Some e) = Some (set_lob (set_order_map e m) lob) ∧
    rep m (assign g (level_locs sym sd (Z.of_nat pos + 1) (drop pos (levels e sym sd)))) ∧
    (∀ k, ix_can_insert m k = ix_can_insert (order_map e) k) ∧
    (∀ i, 0 ≤ i ≤ count → i ≠ Z.of_nat pos → lev lob sym sd i =
       if decide (i < Z.of_nat pos) then lev (lob_flat e) sym sd i
       else lev (lob_flat e) sym sd (i - 1)) ∧
    (∀ sym' sd' i, in_book sym' sd' → 0 ≤ i < kLevelsPerSide → (sym', sd') ≠ (sym, sd) →
       lev lob sym' sd' i = lev (lob_flat e) sym' sd' i).
Proof using Type*.
  intros Hc Hb [Hr Hg] Hcount Hlt Hp.
  assert (Hk : kLevelsPerSide = 1024) by done.
  destruct (Z.ltb_spec (Z.of_nat pos) count) as [Hpc|Hpc].
  - destruct (move_refresh e g sym sd (Z.of_nat pos + 1) (Z.of_nat pos) (count - Z.of_nat pos))
      as (lob & m & Hm & Hrf & Hrep & Hci & H1 & H2); [done|done|lia..|].
    rewrite u16_small by lia. rewrite Hm. simpl.
    replace (Z.of_nat pos + 1 + (count - Z.of_nat pos) - 1) with count in Hrf by lia.
    exists lob, m. split; [by rewrite Hrf|]. split; [|split; [done|split; [|done]]].
    + erewrite levels_of_drop in Hrep; [rewrite Hcount in Hrep; exact Hrep|lia|].
      intros i Hi. rewrite H1 by lia. rewrite decide_True by lia. f_equal. lia.
    + intros i Hi Hne. rewrite H1 by lia. repeat case_decide; try lia; [f_equal; lia|done].
  - exists (lob_flat e), (order_map e). split; [by destruct e|].
    rewrite drop_ge by (pose proof (levels_length e sym sd Hc Hb); lia).
    split; [done|]. split; [done|]. split; [|done].
    intros i Hi Hne. rewrite decide_True by lia. done.
Qed.

Lemma same_rest_intro e lob m sym sd c :
  (∀ k, ix_can_insert m k = ix_can_insert (order_map e) k) →
  same_rest e (set_level_count (set_lob (set_order_map e m) lob) sym sd c).
Proof using Type.
  intros Hk. split; [done|]. split; [|done]. intros s. by rewrite timestamp_set_count.
Qed.

Lemma insert_level_impl_spec e g sym sd p :
  counts_ok e → in_book sym sd → index_ok e g → level_count e sym sd < kLevelsPerSide →
  ∃ e' pos g', insert_level_impl e sym sd p = Some (e', Z.of_nat pos) ∧
    counts_ok e' ∧ opens (levels e) (levels e') sym sd pos (fresh_level p) ∧ index_ok e' g' ∧
    g' = shift_up sym sd (Z.of_nat pos) <$> g ∧ same_rest e e' ∧
    (∀ j l, (j < pos)%nat → levels e sym sd !! j = Some l → ¬ before sd p (price l)) ∧
    (∀ l, levels e sym sd !! pos = Some l → before sd p (price l)).
Proof using Type*.
  intros Hc Hb Hix Hlt. pose proof (Hc sym sd Hb) as Hrg.
  assert (Hk : kLevelsPerSide = 1024) by done.
  pose proof (levels_length e sym sd Hc Hb) as Hlen.
  unfold insert_level_impl. rewrite (proj2 (Z.leb_gt _ _)) by lia.
  destruct (insert_pos_spec e sym sd p (Z.to_nat (level_count e sym sd)) 0)
    as (pos & Hpos & Hpr & Hlow & Hhi); [done|done|lia|].
  change (Z.of_nat 0) with 0 in Hpos. rewrite Hpos. simpl.
  destruct (open_shift e g sym sd pos (level_count e sym sd))
    as (lob & m & -> & Hrep & Hci & H1 & H2); [done|done|done|done|lia|lia|]. simpl.
  rewrite Arena_level_lev by (done || lia). simpl.
  destruct (Arena_set_level_lev lob sym sd (Z.of_nat pos) (fresh_level p))
    as (lob' & Hset & G1 & G2); [done|lia|].
  change (set_price (PriceLevel_reset _) p) with (fresh_level p). rewrite Hset. simpl.
  rewrite u16_small by lia.
  set (e' := set_level_count _ _ _ _).
  assert (He' : e' = set_level_count (set_lob (set_order_map e m) lob') sym sd (level_count e sym sd + 1))
    by done.
  assert (Hop : opens (levels e) (levels e') sym sd pos (fresh_level p)).
  { split; [lia|]. rewrite He'. split.
    - rewrite levels_count, decide_True by done. apply levels_of_opened; [lia|].
      intros i Hi. destruct (decide (i = Z.of_nat pos)) as [->|Hne].
      + rewrite decide_False by lia. done.
      + rewrite G2, H1 by (done || lia || naive_solver). repeat case_decide; done || lia.
    - intros sym' sd' Hb' Hne. rewrite levels_count, decide_False by done.
      apply levels_of_ext. intros i Hi. pose proof (Hc sym' sd' Hb').
      rewrite G2 by (done || lia || naive_solver). apply H2; done || lia. }
  exists e', pos, (shift_up sym sd (Z.of_nat pos) <$> g).
  split; [done|]. split; [|split; [done|split; [split|split; [done|split]]]].
  - rewrite He'. apply counts_set; [|done|lia]. by eapply counts_ext; [|exact Hc].
  - rewrite (assign_opened (levels e) (levels e') g sym sd pos (fresh_level p)) in Hrep
      by (done || apply Hix). done.
  - apply (shifted_index_ok e e' g sym sd pos (fresh_level p)); [apply Hix|done|].
    apply fresh_level_idle.
  - rewrite He'. by apply same_rest_intro.
  - split; [|done]. intros j l Hj. apply Hlow. lia.
Qed.

(** Closing a level. *)

Lemma assign_closed W W' g sym sd pos lvl :
  (∀ r loc, g !! r = Some loc ↔ located W r loc) →
  in_book sym sd → opens W' W sym sd pos lvl → idle lvl →
  assign g (level_locs sym sd (Z.of_nat pos) (drop pos (W' sym sd))) =
    shift_down sym sd (Z.of_nat pos) <$> g.
Proof using Type.
  intros Hg Hb Ho Hid. apply assign_map.
  - intros r l (k & lv & j & s & Hk & Hj & Ha & -> & ->)%elem_of_level_locs.
    rewrite lookup_drop in Hk. eexists. split.
    + apply Hg, (located_opens _ _ _ _ _ _ _ _ Ho Hid). eexists. split; [by econstructor|done].
    + rewrite shift_down_up. f_equal. lia.
  - intros r loc Hr. apply Hg, (located_opens _ _ _ _ _ _ _ _ Ho Hid) in Hr as (loc0 & Hl0 & ->).
    rewrite shift_down_up. destruct Hl0 as [sym' sd' i j lv s Hb' Hi Hj Ha].
    unfold shift_up. simpl. case_decide as Hd; [left|by right].
    destruct Hd as (-> & -> & Hpi). eexists. apply elem_of_level_locs.
    exists (i - pos)%nat, lv, j, s. split_and!; [|done..].
    rewrite lookup_drop. by replace (pos + (i - pos))%nat with i by lia.
Qed.

Lemma closed_index_ok e e' g sym sd pos lvl :
  (∀ r loc, g !! r = Some loc ↔ located (levels e) r loc) →
  opens (levels e') (levels e) sym sd pos lvl → idle lvl →
  ∀ r loc, (shift_down sym sd (Z.of_nat pos) <$> g) !! r = Some loc ↔ located (levels e') r loc.
Proof using Type.
  intros Hg Ho Hid r loc. rewrite lookup_fmap, fmap_Some. setoid_rewrite Hg.
  setoid_rewrite (located_opens _ _ _ _ _ _ _ _ Ho Hid). split.
  - intros (l & (l' & Hl & ->) & ->). by rewrite shift_down_up.
  - intros Hl. eexists. split; [by eexists|]. by rewrite shift_down_up.
Qed.

Lemma close_shift e g sym sd (pos : nat) lst :
  counts_ok e → in_book sym sd → rep (order_map e) g →
  lst = level_count e sym sd - 1 → Z.of_nat pos ≤ lst →
  ∃ lob m,
    (if Z.of_nat pos <? lst then
       lob ← move_levels (lob_flat e) sym sd (Z.of_nat pos) (Z.of_nat pos + 1) (lst - Z.of_nat pos);
       refresh_level_locations (set_lob e lob) sym sd (Z.of_nat pos) (lst - 1)
     else Some e) = Some (set_lob (set_order_map e m) lob) ∧
    rep m (assign g (level_locs sym sd (Z.of_nat pos) (drop pos (levels_of lob lst sym sd)))) ∧
    (∀ k, ix_can_insert m k = ix_can_insert (order_map e) k) ∧
    (∀ i, 0 ≤ i < lst → lev lob sym sd i =
       if decide (i < Z.of_nat pos) then lev (lob_flat e) sym sd i
       else lev (lob_flat e) sym sd (i + 1)) ∧
    (∀ sym' sd' i, in_book sym' sd' → 0 ≤ i < kLevelsPerSide → (sym', sd') ≠ (sym, sd) →
       lev lob sym' sd' i = lev (lob_flat e) sym' sd' i).
Proof using Type*.
  intros Hc Hb Hr Hl Hp. pose proof (Hc sym sd Hb) as Hrg.
  destruct (Z.ltb_spec (Z.of_nat pos) lst) as [Hpc|Hpc].
  - destruct (move_refresh e g sym sd (Z.of_nat pos) (Z.of_nat pos + 1) (lst - Z.of_nat pos))
      as (lob & m & Hm & Hrf & Hrep & Hci & H1 & H2); [done|done|lia..|].
    rewrite Hm. simpl.
    replace (Z.of_nat pos + (lst - Z.of_nat pos) - 1) with (lst - 1) in Hrf by lia.
    exists lob, m. split; [by rewrite Hrf|]. split; [|split; [done|split; [|done]]].
    + erewrite levels_of_drop in Hrep; [exact Hrep|lia|]. intros i Hi. f_equal. lia.
    + intros i Hi. rewrite H1 by lia. repeat case_decide; try lia; [f_equal; lia|done].
  - exists (lob_flat e), (order_map e). split; [by destruct e|].
    rewrite drop_ge by (rewrite levels_of_length; lia).
    split; [done|]. split; [done|]. split; [|done].
    intros i Hi. rewrite decide_True by lia. done.
Qed.

Lemma remove_level_spec e g sym sd pos lvl :
  counts_ok e → in_book sym sd → index_ok e g → levels e sym sd !! pos = Some lvl →
  order_count lvl ≤ 0 → idle lvl →
  ∃ e', remove_level_if_empty e sym sd (Z.of_nat pos) = Some e' ∧
    counts_ok e' ∧ opens (levels e') (levels e) sym sd pos lvl ∧
    index_ok e' (shift_down sym sd (Z.of_nat pos) <$> g) ∧ same_rest e e'.
Proof using Type*.
  intros Hc Hb [Hr Hg] Hl Hcnt Hid. pose proof (Hc sym sd Hb) as Hrg.
  assert (Hk : kLevelsPerSide = 1024) by done.
  pose proof (levels_lookup_lev _ _ _ _ _ Hl) as [El Hpos].
  unfold remove_level_if_empty. rewrite (levels_level e sym sd pos lvl) by done. simpl.
  rewrite (proj2 (Z.ltb_ge _ _)), (proj2 (Z.eqb_neq _ _)), u16_small by lia.
  destruct (close_shift e g sym sd pos (level_count e sym sd - 1))
    as (lob & m & -> & Hrep & Hci & H1 & H2); [done|done|done|done|lia|]. simpl.
  rewrite Arena_level_lev by (done || lia). simpl.
  destruct (Arena_set_level_lev lob sym sd (level_count e sym sd - 1) (PriceLevel_reset PriceLevel_zero))
    as (lob' & Hset & G1 & G2); [done|lia|].
  change (PriceLevel_reset (lev _ _ _ _)) with (PriceLevel_reset PriceLevel_zero).
  rewrite Hset. simpl. set (e' := set_level_count _ _ _ _).
  assert (He' : e' = set_level_count (set_lob (set_order_map e m) lob') sym sd (level_count e sym sd - 1))
    by done.
  assert (Hop : opens (levels e') (levels e) sym sd pos lvl).
  { split; [|split].
    - rewrite He', levels_count, decide_True, levels_of_length by done. lia.
    - rewrite He', levels_count, decide_True by done. unfold levels.
      replace (level_count e sym sd) with (level_count e sym sd - 1 + 1) at 1 by lia.
      apply levels_of_opened; [lia|]. intros i Hi. repeat case_decide.
      + rewrite G2, H1, decide_True by (done || lia || (intros [=]; lia)). done.
      + by subst.
      + rewrite G2, H1, decide_False by (done || lia || (intros [=]; lia)). f_equal. lia.
    - intros sym' sd' Hb' Hne. rewrite He', levels_count, decide_False by done.
      symmetry. apply levels_of_ext. intros i Hi. pose proof (Hc sym' sd' Hb').
      rewrite G2 by (done || lia || naive_solver). apply H2; done || lia. }
  exists e'. split; [done|]. split; [|split; [done|split; [split|]]].
  - rewrite He'. apply counts_set; [|done|lia]. by eapply counts_ext; [|exact Hc].
  - rewrite (levels_of_ext lob' lob) in Hrep.
    2:{ intros i Hi. symmetry. apply G2; done || lia || (intros [=]; lia). }
    assert (E : levels_of lob' (level_count e sym sd - 1) sym sd = levels e' sym sd)
      by (by rewrite He', levels_count, decide_True).
    rewrite E, (assign_closed (levels e) (levels e') g sym sd pos lvl) in Hrep by done. done.
  - by apply (closed_index_ok e e' g sym sd pos lvl).
  - rewrite He'. by apply same_rest_intro.
Qed.
End slab.
