(* ===== verification/LobInv.v ===== *)
(** * LobInv: the invariant of the engine

    [lob_inv e g]: every level is a well-formed, non-empty FIFO list with
    exact aggregates; the prices of a side are strictly ordered, best first;
    and the order index maps exactly the live orders to their slots.  The file
    proves what the binary search finds and how changing one level carries the
    invariant over. *)

From S2P Require Import Prelude Arena OrderIndex Level LevelOps Lob LobView.
From Stdlib Require Import ZArith Lia.
From stdpp Require Import base tactics gmap numbers option sorting list.
Open Scope Z_scope.

Section inv.
Context {M : Type} `{!OrderIndex M} (rep : M → gmap Z OrderLocation → Prop)
  `{!OrderIndexLaws M rep}.
Implicit Types (e : LOBEngine M) (m : M) (g : gmap Z OrderLocation).

Definition level_ok (sd : Z) (lvl : PriceLevel) : Prop :=
  (∃ ids, level_wf sd lvl ids ∧ ids ≠ []) ∧ is_valid_price (price lvl) = true.

Definition sorted_prices (sd : Z) (ls : list PriceLevel) : Prop :=
  ∀ i j l l', (i < j)%nat → ls !! i = Some l → ls !! j = Some l' → before sd (price l) (price l').

Record lob_inv (e : LOBEngine M) (g : gmap Z OrderLocation) : Prop := mk_inv {
  li_counts : counts_ok e;
  li_index : index_ok rep e g;
  li_levels : ∀ sym sd, in_book sym sd → Forall (level_ok sd) (levels e sym sd);
  li_sorted : ∀ sym sd, in_book sym sd → sorted_prices sd (levels e sym sd)
}.

(** ** find_level *)

Lemma find_level_loop_spec e sym sd p fuel low high :
  counts_ok e → in_book sym sd → sorted_prices sd (levels e sym sd) →
  0 ≤ low → high < level_count e sym sd → high - low + 1 < Z.of_nat fuel → low ≤ high + 1 →
  (∀ i l, levels e sym sd !! i = Some l → price l = p → low ≤ Z.of_nat i ≤ high) →
  find_level_loop fuel (lob_flat e) sym sd p low high =
    match list_find (λ l, price l = p) (levels e sym sd) with
    | Some (i, _) => Some (Z.of_nat i) | None => Some (-1)
    end.
Proof using Type.
  intros Hc Hb Hs. pose proof (Hc sym sd Hb) as Hrg.
  assert (Hk : kLevelsPerSide = 1024) by done.
  pose proof (levels_length e sym sd Hc Hb) as Hlen.
  revert low high. induction fuel as [|fuel IH]; intros low high Hlow Hhigh Hf Hlh Hin; [lia|].
  cbn [find_level_loop]. destruct (Z.leb_spec low high) as [Hle|Hgt].
  2:{ destruct (list_find _ _) as [[i l]|] eqn:E; [|done].
      apply list_find_Some in E as (E1 & E2 & _). specialize (Hin i l E1 E2). lia. }
  assert (Hm : low ≤ low + Z.quot (high - low) 2 ≤ high).
  { pose proof (Z.quot_pos (high - low) 2). pose proof (Z.quot_le_upper_bound (high - low) 2 (high - low)).
    lia. }
  set (mid := low + Z.quot (high - low) 2) in *. rewrite (u16_small mid) by lia.
  destruct (lookup_lt_is_Some_2 (levels e sym sd) (Z.to_nat mid)) as [l Hl]; [lia|].
  pose proof (levels_level e sym sd _ l Hc Hb Hl) as Ha. rewrite Z2Nat.id in Ha by lia.
  rewrite Ha. simpl. destruct (Z.eqb_spec (price l) p) as [Ep|Ep].
  - assert (list_find (λ l, price l = p) (levels e sym sd) = Some (Z.to_nat mid, l)) as ->.
    { apply list_find_Some. split; [done|]. split; [done|]. intros j y Hy Hj Ey.
      pose proof (Hs j _ y l Hj Hy Hl) as Hbf. rewrite Ey, Ep in Hbf.
      by apply before_irrefl in Hbf. }
    by rewrite Z2Nat.id by lia.
  - assert (Hdir : Bool.reflect (before sd p (price l)) (if sd =? 0 then price l <? p else p <? price l))
      by apply before_dec_spec.
    destruct Hdir as [Hbf|Hbf]; apply IH; try lia; intros i l' Hi Ei; specialize (Hin i l' Hi Ei).
    + split; [lia|]. assert (¬ mid ≤ Z.of_nat i); [|lia]. intros Hge.
      destruct (decide (i = Z.to_nat mid)) as [->|Hne]; [congruence|].
      pose proof (Hs (Z.to_nat mid) i l l' ltac:(lia) Hl Hi) as Hb2. rewrite Ei in Hb2.
      apply (before_irrefl sd p). by eapply before_trans.
    + split; [|lia]. assert (¬ Z.of_nat i ≤ mid); [|lia]. intros Hge.
      destruct (decide (i = Z.to_nat mid)) as [->|Hne]; [congruence|].
      pose proof (Hs i (Z.to_nat mid) l' l ltac:(lia) Hi Hl) as Hb2. rewrite Ei in Hb2. done.
Qed.

(** The binary search agrees with a linear scan of the side. *)
Lemma find_level_spec e sym sd p :
  counts_ok e → in_book sym sd → sorted_prices sd (levels e sym sd) →
  find_level e sym sd p =
    match list_find (λ l, price l = p) (levels e sym sd) with
    | Some (i, _) => Some (Z.of_nat i) | None => Some (-1)
    end.
Proof using Type.
  intros Hc Hb Hs. pose proof (Hc sym sd Hb) as Hrg.
  pose proof (levels_length e sym sd Hc Hb) as Hlen.
  unfold find_level. destruct (Z.eqb_spec (level_count e sym sd) 0) as [E|E].
  - destruct (levels e sym sd) eqn:El; [done|]. simpl in Hlen. lia.
  - apply find_level_loop_spec; try done; try lia.
    + unfold kSearchFuel, kLevelsPerSide in *. lia.
    + intros i l Hi _. apply lookup_lt_Some in Hi. lia.
Qed.

(** ** Changing one level *)

(** [e'] is [e] with level [i] of one side replaced. *)
Definition replaces_level (W W' : view) (sym sd : Z) (i : nat) (lvl' : PriceLevel) : Prop :=
  ∀ sym' sd', in_book sym' sd' →
    W' sym' sd' = if decide ((sym', sd') = (sym, sd)) then <[i := lvl']> (W sym sd) else W sym' sd'.

Lemma set_lob_replaces e sym sd i lvl' :
  counts_ok e → in_book sym sd → (i < length (levels e sym sd))%nat →
  ∃ lob', Arena_set_level (lob_flat e) sym sd (Z.of_nat i) lvl' = Some lob' ∧
    ∀ m, replaces_level (levels e) (levels (set_order_map (set_lob e lob') m)) sym sd i lvl'.
Proof using Type.
  intros Hc Hb Hi. pose proof (levels_length e sym sd Hc Hb). pose proof (Hc sym sd Hb).
  destruct (set_level_levels (lob_flat e) sym sd (Z.of_nat i) lvl') as (lob' & E & _ & Hlv); [done|lia|].
  exists lob'. split; [done|]. intros m sym' sd' Hb'. pose proof (Hc sym' sd' Hb').
  change (levels (set_order_map (set_lob e lob') m) sym' sd')
    with (levels_of lob' (level_count e sym' sd') sym' sd').
  rewrite Hlv, Nat2Z.id by (done || lia).
  case_decide as Hd; [|done]. by injection Hd as -> ->.
Qed.

Lemma located_holds W r loc :
  located W r loc ↔ ∃ i j lvl, in_book (symbol_idx loc) (side loc) ∧ level_idx loc = Z.of_nat i ∧
    slot_idx loc = Z.of_nat j ∧ W (symbol_idx loc) (side loc) !! i = Some lvl ∧ holds lvl j r.
Proof using Type.
  split.
  - intros [sym sd i j lvl s Hb Hi Hj Ha]. exists i, j, lvl. split_and!; try done. by exists s.
  - destruct loc as [a b c d]. simpl. intros (i & j & lvl & Hb & -> & -> & Hi & s & Hs & Ha & <-).
    by econstructor.
Qed.

Lemma located_mk W sym sd i j r :
  located W r (mkLoc sym sd (Z.of_nat i) (Z.of_nat j)) ↔
  in_book sym sd ∧ ∃ lvl, W sym sd !! i = Some lvl ∧ holds lvl j r.
Proof using Type.
  rewrite located_holds. simpl. split.
  - intros (i' & j' & lvl & Hb & Ei & Ej & Hi & Hh). apply Nat2Z.inj in Ei as <-, Ej as <-. eauto.
  - intros (Hb & lvl & Hi & Hh). by exists i, j, lvl.
Qed.

Lemma located_shape W r loc :
  located W r loc → ∃ sym sd i j, loc = mkLoc sym sd (Z.of_nat i) (Z.of_nat j).
Proof using Type. intros []. by eexists _, _, _, _. Qed.

Lemma replaced_lookup W W' sym sd i lvl lvl' sym' sd' i' l :
  replaces_level W W' sym sd i lvl' → in_book sym' sd' → W sym sd !! i = Some lvl →
  W' sym' sd' !! i' = Some l ↔
    (if decide ((sym', sd', i') = (sym, sd, i)) then l = lvl' else W sym' sd' !! i' = Some l).
Proof using Type.
  intros HW Hb Hl. rewrite HW by done. case_decide as Hd.
  - injection Hd as -> ->. destruct (decide (i' = i)) as [->|Hne].
    + rewrite list_lookup_insert_eq by (by eapply lookup_lt_Some). rewrite decide_True by done.
      naive_solver.
    + rewrite list_lookup_insert_ne by done. rewrite decide_False by naive_solver. done.
  - rewrite decide_False by naive_solver. done.
Qed.

Section replaced.
Context (W W' : view) (sym sd : Z) (i : nat) (lvl lvl' : PriceLevel).
Context (HW : replaces_level W W' sym sd i lvl') (Hb : in_book sym sd)
  (Hl : W sym sd !! i = Some lvl).

Lemma located_replaced sym' sd' i' j r :
  located W' r (mkLoc sym' sd' (Z.of_nat i') (Z.of_nat j)) ↔
    if decide ((sym', sd', i') = (sym, sd, i)) then holds lvl' j r
    else located W r (mkLoc sym' sd' (Z.of_nat i') (Z.of_nat j)).
Proof using HW Hb Hl.
  rewrite located_mk. destruct (decide (in_book sym' sd')) as [Hb'|Hb'].
  - setoid_rewrite (replaced_lookup _ _ _ _ _ _ _ _ _ _ _ HW Hb' Hl). case_decide.
    + naive_solver.
    + by rewrite located_mk.
  - case_decide as Hd; [by simplify_eq|]. rewrite located_mk. naive_solver.
Qed.

Lemma located_same :
  (∀ j r, holds lvl' j r ↔ holds lvl j r) → ∀ r loc, located W' r loc ↔ located W r loc.
Proof using HW Hb Hl.
  intros Hh r loc. split; intros Hloc; pose proof (located_shape _ _ _ Hloc) as (a & b & c & d & ->).
  - apply located_replaced in Hloc. case_decide as Hd; [|done]. injection Hd as -> -> ->.
    apply located_mk. split; [done|]. exists lvl. split; [done|]. by apply Hh.
  - apply located_replaced. case_decide as Hd; [|done]. injection Hd as -> -> ->.
    apply located_mk in Hloc as (_ & l & Hl' & ?). simplify_eq. by apply Hh.
Qed.

Lemma located_added g k r :
  (∀ r loc, g !! r = Some loc ↔ located W r loc) → g !! r = None →
  (∀ j r', holds lvl' j r' ↔ holds lvl j r' ∨ (j = k ∧ r' = r)) →
  ∀ r' loc, <[r := mkLoc sym sd (Z.of_nat i) (Z.of_nat k)]> g !! r' = Some loc ↔ located W' r' loc.
Proof using HW Hb Hl.
  intros Hg Hr Hh r' loc. rewrite lookup_insert_Some, Hg. split.
  - intros [[<- <-]|[Hne Hloc]].
    + apply located_replaced. rewrite decide_True by done. apply Hh. by right.
    + pose proof (located_shape _ _ _ Hloc) as (a & b & c & d & ->).
      apply located_replaced. case_decide as Hd; [|done]. injection Hd as -> -> ->.
      apply located_mk in Hloc as (_ & l & Hl' & ?). simplify_eq. apply Hh. by left.
  - intros Hloc. pose proof (located_shape _ _ _ Hloc) as (a & b & c & d & ->).
    apply located_replaced in Hloc.
    assert (Hold : ∀ a, located W r' a → r ≠ r').
    { intros x Hx <-. apply Hg in Hx. congruence. }
    case_decide as Hd; [|right; split; [by eapply Hold|done]]. injection Hd as -> -> ->.
    apply Hh in Hloc as [Hh'|[-> ->]]; [right|by left].
    assert (Hx : located W r' (mkLoc sym sd (Z.of_nat i) (Z.of_nat d)))
      by (apply located_mk; eauto).
    split; [by eapply Hold|done].
Qed.

Lemma located_removed g k r :
  (∀ r loc, g !! r = Some loc ↔ located W r loc) →
  g !! r = Some (mkLoc sym sd (Z.of_nat i) (Z.of_nat k)) →
  (∀ j r', holds lvl' j r' ↔ holds lvl j r' ∧ j ≠ k) →
  ∀ r' loc, delete r g !! r' = Some loc ↔ located W' r' loc.
Proof using HW Hb Hl.
  intros Hg Hr Hh r' loc. rewrite lookup_delete_Some, Hg. split.
  - intros [Hne Hloc]. pose proof (located_shape _ _ _ Hloc) as (a & b & c & d & ->).
    apply located_replaced. case_decide as Hd; [|done]. injection Hd as -> -> ->.
    apply located_mk in Hloc as (_ & l & Hl' & Hh1). simplify_eq. apply Hh. split; [done|].
    intros ->. apply Hg, located_mk in Hr as (_ & l & Hl' & Hh2). simplify_eq.
    destruct Hh1 as (s & ? & ? & ?), Hh2 as (s' & ? & ? & ?). congruence.
  - intros Hloc. pose proof (located_shape _ _ _ Hloc) as (a & b & c & d & ->).
    apply located_replaced in Hloc. case_decide as Hd.
    + injection Hd as -> -> ->. apply Hh in Hloc as [Hh1 Hne].
      assert (Hx : located W r' (mkLoc sym sd (Z.of_nat i) (Z.of_nat d))) by (apply located_mk; eauto).
      split; [|done]. intros <-. apply Hg in Hx. rewrite Hr in Hx. injection Hx. lia.
    + split; [|done]. intros <-. apply Hg in Hloc. rewrite Hr in Hloc. injection Hloc as -> -> ? ?.
      apply Hd. f_equal. lia.
Qed.
End replaced.
End inv.
