(* ===== verification/Book.v ===== *)
(** * Book: the abstract limit order book

    What [LOBEngine] promises, without slabs, slots, links or hash tables: a
    side is a list of price levels, best first, each a FIFO queue of
    (reference, quantity) pairs.  [book_next] is the effect of one tick.  The
    only resource the abstract book does not see is the probe window of the
    order index; [accepts] says whether the index takes a new reference. *)

From S2P Require Import Prelude Arena Level Lob LobView.
From Stdlib Require Import ZArith Lia.
From stdpp Require Import base tactics gmap numbers option list.
Open Scope Z_scope.

Definition side_book : Type := list (Z * list (Z * Z)).
Definition book : Type := Z → Z → side_book.

(** Books are compared on the addressable sides only. *)
#[export] Instance book_equiv : Equiv book :=
  λ B B', ∀ sym sd, in_book sym sd → B sym sd = B' sym sd.

#[export] Instance book_equivalence : Equivalence (≡@{book}).
Proof.
  split.
  - intros B sym sd _. done.
  - intros B B' H sym sd Hb. symmetry. by apply H.
  - intros B1 B2 B3 H1 H2 sym sd Hb. rewrite H1 by done. by apply H2.
Qed.

(** ** One side *)

Definition beforeb (sd p q : Z) : bool := if sd =? 0 then q <? p else p <? q.

(** Join the queue at price [p], or open that price at its rank. *)
Fixpoint b_add (sd p : Z) (o : Z * Z) (b : side_book) : side_book :=
  match b with
  | [] => [(p, [o])]
  | (p', qs) :: b' =>
      if p =? p' then (p', qs ++ [o]) :: b'
      else if beforeb sd p p' then (p, [o]) :: b
      else (p', qs) :: b_add sd p o b'
  end.

(** Apply [f] to every queue and drop the levels it empties. *)
Definition b_update (f : list (Z * Z) → list (Z * Z)) (b : side_book) : side_book :=
  filter (λ x, x.2 ≠ []) ((λ x, (x.1, f x.2)) <$> b).

Definition drop_order (r : Z) (qs : list (Z * Z)) : list (Z * Z) := filter (λ o, o.1 ≠ r) qs.

(** Take up to [d] from order [r]; an order with nothing left leaves. *)
Definition reduce_order_qty (r d : Z) (qs : list (Z * Z)) : list (Z * Z) :=
  filter (λ o, 0 < o.2) ((λ o, if decide (o.1 = r) then (o.1, o.2 - Z.min d o.2) else o) <$> qs).

Definition b_room (p : Z) (b : side_book) : bool :=
  match list_find (λ x, x.1 = p) b with
  | Some (_, (_, qs)) => Z.of_nat (length qs) <? kMaxOrdersPerLevel
  | None => Z.of_nat (length b) <? kLevelsPerSide
  end.

Definition mentions (r : Z) (b : side_book) : bool :=
  existsb (λ x, existsb (λ o, o.1 =? r) x.2) b.

(** ** The whole book *)

Definition upd_side (B : book) (sym sd : Z) (f : side_book → side_book) : book :=
  λ sym' sd', if decide ((sym', sd') = (sym, sd)) then f (B sym' sd') else B sym' sd'.

Definition book_add (B : book) (sym sd p r q : Z) : book := upd_side B sym sd (b_add sd p (r, q)).
Definition book_remove (B : book) (r : Z) : book := λ sym sd, b_update (drop_order r) (B sym sd).
Definition book_reduce (B : book) (r d : Z) : book :=
  λ sym sd, b_update (reduce_order_qty r d) (B sym sd).

Definition all_sides : list (Z * Z) :=
  flat_map (λ n, [(Z.of_nat n, 0); (Z.of_nat n, 1)]) (seq 0 (Z.to_nat kSymbols)).

(** The side an order rests on. *)
Definition owner (B : book) (r : Z) : option (Z * Z) :=
  find (λ s, mentions r (B s.1 s.2)) all_sides.

(** ** One tick: the next book, and whether the tick counts as rejected *)

Definition book_place (accepts : bool) (B : book) (sym sd p r q : Z) : book * bool :=
  if b_room p (B sym sd) && accepts then (book_add B sym sd p r q, false) else (B, true).

Definition tick_side (tick : TickMsg) : Z := if Z.land (tick_flags tick) kBuy =? 0 then 1 else 0.

Definition book_on_add (accepts : bool) (B : book) (tick : TickMsg) : book * bool :=
  match owner B (order_ref tick) with
  | Some _ => (B, true)
  | None => book_place accepts B (tick_symbol tick) (tick_side tick) (tick_price tick)
              (order_ref tick) (tick_qty tick)
  end.

Definition book_on_replace (accepts : bool) (B : book) (tick : TickMsg) : book * bool :=
  match owner B (order_ref tick) with
  | None => (B, true)
  | Some (sym, sd) =>
      if negb accepts then (B, true)
      else book_place true (book_remove B (order_ref tick)) sym sd (tick_price tick)
             (match_num tick) (tick_qty tick)
  end.

Definition book_next (accepts : bool) (B : book) (tick : TickMsg) : book * bool :=
  let t := msg_type tick in
  let bad_ref := order_ref tick =? 0 in
  let bad_qty := negb (is_valid_quantity (tick_qty tick)) in
  let bad_price := negb (is_valid_price (tick_price tick)) in
  if kSymbols <=? tick_symbol tick then (B, true)
  else if (t =? kAddOrder) || (t =? kAddOrderMPID) then
    if bad_ref || bad_qty || bad_price then (B, true) else book_on_add accepts B tick
  else if (t =? kOrderExecuted) || (t =? kOrderExecPrice) || (t =? kOrderCancel) then
    if bad_ref || bad_qty then (B, true)
    else (book_reduce B (order_ref tick) (tick_qty tick), false)
  else if t =? kOrderDelete then
    if bad_ref then (B, true) else (book_remove B (order_ref tick), false)
  else if t =? kOrderReplace then
    if bad_ref || (match_num tick =? 0) || (order_ref tick =? match_num tick) ||
       bad_qty || bad_price
    then (B, true) else book_on_replace accepts B tick
  else if t =? kTrade then (B, bad_qty || bad_price)
  else (B, true).

(** ** Facts about one side *)

Definition nonempty_levels (b : side_book) : Prop := Forall (λ x, x.2 ≠ []) b.

Definition sorted_side (sd : Z) (b : side_book) : Prop :=
  ∀ i j x y, (i < j)%nat → b !! i = Some x → b !! j = Some y → before sd x.1 y.1.

Lemma b_update_miss f b :
  nonempty_levels b → (∀ x, x ∈ b → f x.2 = x.2) → b_update f b = b.
Proof.
  intros Hn Hf. unfold b_update.
  assert ((λ x, (x.1, f x.2)) <$> b = b) as ->; [|by apply filter_id].
  rewrite <- (list_fmap_id b) at 2. apply list_fmap_ext. intros i [p qs] Hx. simpl.
  f_equal. apply (Hf (p, qs)). by eapply list_elem_of_lookup_2.
Qed.

Lemma b_update_app f b1 b2 : b_update f (b1 ++ b2) = b_update f b1 ++ b_update f b2.
Proof. unfold b_update. by rewrite fmap_app, filter_app. Qed.

Lemma b_update_hit f b1 p qs b2 :
  nonempty_levels (b1 ++ (p, qs) :: b2) →
  (∀ x, x ∈ b1 ++ b2 → f x.2 = x.2) →
  b_update f (b1 ++ (p, qs) :: b2) =
    if decide (f qs = []) then b1 ++ b2 else b1 ++ (p, f qs) :: b2.
Proof.
  intros [N1 [_ N2]%Forall_cons]%Forall_app Hf.
  assert (E : ∀ b, nonempty_levels b → (∀ x, x ∈ b → x ∈ b1 ++ b2) → b_update f b = b).
  { intros b Hb Hi. apply b_update_miss; [done|]. intros x Hx. by apply Hf, Hi. }
  change ((p, qs) :: b2) with ([(p, qs)] ++ b2). rewrite !b_update_app.
  rewrite (E b1), (E b2) by (done || set_solver). unfold b_update. simpl.
  case_decide as Hd; [rewrite filter_cons_False | rewrite filter_cons_True]; try done.
  simpl. naive_solver.
Qed.

Lemma sorted_side_tail sd x b : sorted_side sd (x :: b) → sorted_side sd b.
Proof. intros H i j y z Hij Hi Hj. apply (H (S i) (S j)); [lia|done..]. Qed.

Lemma beforeb_spec sd p q : Bool.reflect (before sd p q) (beforeb sd p q).
Proof. apply before_dec_spec. Qed.

Lemma b_add_hit sd p o b i qs :
  sorted_side sd b → b !! i = Some (p, qs) → b_add sd p o b = <[i := (p, qs ++ [o])]> b.
Proof.
  revert i. induction b as [|[p' qs'] b IH]; intros i Hs Hi; [done|]. simpl.
  destruct i as [|i]; simpl in *.
  - injection Hi as -> ->. by rewrite Z.eqb_refl.
  - pose proof (Hs 0%nat (S i) _ _ ltac:(lia) eq_refl Hi) as Hb. simpl in Hb.
    rewrite (proj2 (Z.eqb_neq _ _)) by (intros ->; by apply before_irrefl in Hb).
    destruct (beforeb_spec sd p p') as [Hb'|_].
    { exfalso. apply (before_irrefl sd p). by eapply before_trans. }
    f_equal. apply IH; [by eapply sorted_side_tail|done].
Qed.

Lemma b_add_miss sd p o b pos :
  (pos ≤ length b)%nat →
  (∀ j x, (j < pos)%nat → b !! j = Some x → ¬ before sd p x.1 ∧ p ≠ x.1) →
  (∀ x, b !! pos = Some x → before sd p x.1) →
  b_add sd p o b = take pos b ++ (p, [o]) :: drop pos b.
Proof.
  revert pos. induction b as [|[p' qs'] b IH]; intros pos Hp Hlow Hhi; simpl.
  { by destruct pos. }
  destruct pos as [|pos]; simpl.
  - specialize (Hhi _ eq_refl). simpl in Hhi.
    rewrite (proj2 (Z.eqb_neq _ _)) by (intros ->; by apply before_irrefl in Hhi).
    by destruct (beforeb_spec sd p p').
  - destruct (Hlow 0%nat _ ltac:(lia) eq_refl) as [H1 H2]. simpl in *.
    rewrite (proj2 (Z.eqb_neq _ _)) by done. destruct (beforeb_spec sd p p'); [done|].
    f_equal. apply IH; [lia| |done]. intros j x Hj. apply (Hlow (S j)). lia.
Qed.

(** ** Facts about orders in queues *)

Lemma drop_order_miss r qs : r ∉ qs.*1 → drop_order r qs = qs.
Proof.
  intros H. apply filter_id. apply Forall_forall. intros o Ho <-. apply H.
  by apply list_elem_of_fmap_2.
Qed.

Lemma drop_order_hit r q q1 q2 :
  r ∉ q1.*1 → r ∉ q2.*1 → drop_order r (q1 ++ (r, q) :: q2) = q1 ++ q2.
Proof.
  intros H1 H2. unfold drop_order. rewrite filter_app, filter_cons_False by naive_solver.
  f_equal; by apply drop_order_miss.
Qed.

Lemma reduce_qty_app r d q1 q2 :
  reduce_order_qty r d (q1 ++ q2) = reduce_order_qty r d q1 ++ reduce_order_qty r d q2.
Proof. unfold reduce_order_qty. by rewrite fmap_app, filter_app. Qed.

Lemma reduce_qty_miss r d qs : Forall good_entry qs → r ∉ qs.*1 → reduce_order_qty r d qs = qs.
Proof.
  induction 1 as [|o qs [_ Ho] _ IH]; intros Hr; [done|]. unfold reduce_order_qty in *. simpl in *.
  apply not_elem_of_cons in Hr as [Hne Hr]. rewrite decide_False by done.
  rewrite filter_cons_True by lia. f_equal. by apply IH.
Qed.

Lemma reduce_qty_hit r d q q1 q2 :
  Forall good_entry (q1 ++ q2) → r ∉ q1.*1 → r ∉ q2.*1 → 1 ≤ d →
  reduce_order_qty r d (q1 ++ (r, q) :: q2) =
    if decide (q ≤ d) then q1 ++ q2 else q1 ++ (r, q - d) :: q2.
Proof.
  intros [G1 G2]%Forall_app H1 H2 Hd. change ((r, q) :: q2) with ([(r, q)] ++ q2).
  rewrite !reduce_qty_app, !(reduce_qty_miss r d q1), (reduce_qty_miss r d q2) by done.
  unfold reduce_order_qty. simpl. rewrite decide_True by done. case_decide.
  - rewrite filter_cons_False; [done|]. simpl. lia.
  - rewrite filter_cons_True by (simpl; lia). rewrite Z.min_l by lia. done.
Qed.

(** ** Locating an order *)

Lemma mentions_spec r b :
  mentions r b = true ↔ ∃ x, x ∈ b ∧ r ∈ x.2.*1.
Proof.
  unfold mentions. rewrite existsb_exists. split.
  - intros (x & Hx%list_elem_of_In & (o & Ho%list_elem_of_In & E%Z.eqb_eq)%existsb_exists).
    exists x. split; [done|]. subst. by apply list_elem_of_fmap_2.
  - intros (x & Hx & (o & -> & Ho)%list_elem_of_fmap_1). exists x. split; [by apply list_elem_of_In|].
    apply existsb_exists. exists o. split; [by apply list_elem_of_In|]. apply Z.eqb_refl.
Qed.

Lemma all_sides_spec sym sd : In (sym, sd) all_sides ↔ in_book sym sd.
Proof.
  unfold all_sides, in_book. rewrite in_flat_map. setoid_rewrite in_seq. simpl. split.
  - intros (n & Hn & [[= <- <-]|[[= <- <-]|[]]]); unfold kSymbols in *; lia.
  - intros [Hs [-> | ->]]; exists (Z.to_nat sym); rewrite Z2Nat.id by lia;
      (split; [unfold kSymbols in *; lia|]); auto.
Qed.

Lemma owner_None B r :
  owner B r = None ↔ ∀ sym sd, in_book sym sd → mentions r (B sym sd) = false.
Proof.
  unfold owner. split.
  - intros H sym sd Hb%all_sides_spec. by apply (find_none _ _ H (sym, sd)).
  - intros H. destruct (find _ _) as [[sym sd]|] eqn:E; [|done].
    apply find_some in E as [Hb E]. simpl in E. rewrite H in E; [done|]. by apply all_sides_spec.
Qed.

Lemma owner_Some B r sym sd :
  owner B r = Some (sym, sd) → in_book sym sd ∧ mentions r (B sym sd) = true.
Proof. intros [H1 H2]%find_some. split; [by apply all_sides_spec|done]. Qed.

(** ** The book operations respect book equality *)

#[export] Instance owner_proper : Proper ((≡) ==> (=) ==> (=)) owner.
Proof.
  intros B B' HB r ? <-. unfold owner. assert (H : ∀ s, In s all_sides → B s.1 s.2 = B' s.1 s.2).
  { intros [sym sd] Hs. by apply HB, all_sides_spec. }
  induction all_sides as [|s l IH]; [done|]. simpl. rewrite H by (by left).
  destruct (mentions _ _); [done|]. apply IH. intros s' Hs'. apply H. by right.
Qed.

#[export] Instance book_remove_proper : Proper ((≡) ==> (=) ==> (≡)) book_remove.
Proof. intros B B' HB r ? <- sym sd Hb. unfold book_remove. by rewrite HB. Qed.

#[export] Instance book_reduce_proper : Proper ((≡) ==> (=) ==> (=) ==> (≡)) book_reduce.
Proof. intros B B' HB r ? <- d ? <- sym sd Hb. unfold book_reduce. by rewrite HB. Qed.

Lemma book_add_proper B B' sym sd p r q :
  B ≡ B' → book_add B sym sd p r q ≡ book_add B' sym sd p r q.
Proof. intros HB sym' sd' Hb. unfold book_add, upd_side. by rewrite HB. Qed.
