(* ===== verification/LobRefine.v ===== *)
(** * LobRefine: the engine implements the abstract book

    [abs e] reads the abstract book off the engine.  Each handler is shown to
    return (no undefined behaviour, every loop within its fuel), to keep the
    invariant, and to move [abs e] the way [Book.book_next] says. *)

From S2P Require Import Prelude Arena OrderIndex Level LevelOps Lob LobView LobInv Book.
From Stdlib Require Import ZArith Lia.
From stdpp Require Import base tactics gmap numbers option sorting list.
Open Scope Z_scope.

Section refine.
Context {M : Type} `{!OrderIndex M} (rep : M → gmap Z OrderLocation → Prop)
  `{!OrderIndexLaws M rep}.
Implicit Types (e : LOBEngine M) (m : M) (g : gmap Z OrderLocation).
Notation lob_inv := (lob_inv rep).
Notation index_ok := (index_ok rep).

Definition abs_level (l : PriceLevel) : Z * list (Z * Z) := (price l, level_queue l).

Definition abs (e : LOBEngine M) : book := λ sym sd, abs_level <$> levels e sym sd.

(** What an operation does besides changing the book. *)
Definition settled e e' (rejected : bool) : Prop :=
  stats e' = (if rejected then bump SRejected (stats e) else stats e) ∧
  ∀ sym, last_timestamp_ns (meta_of e' sym) = last_timestamp_ns (meta_of e sym).

Lemma settled_rest e e' e'' b : same_rest e e' → settled e' e'' b → settled e e'' b.
Proof using Type.
  intros (S1 & T1 & _) [S2 T2]. split; [by rewrite S2, S1|]. intros sym. by rewrite T2.
Qed.

(** ** Rebuilding the invariant *)

Lemma inv_view e e' g g' :
  lob_inv e g → counts_ok e' → index_ok e' g' →
  (∀ sym sd, in_book sym sd → levels e' sym sd = levels e sym sd) → lob_inv e' g'.
Proof using Type.
  intros [_ _ H1 H2] Hc Hi HW. split; [done|done| |]; intros sym sd Hb; rewrite HW by done; auto.
Qed.

Lemma inv_replace e e' g g' sym sd i lvl lvl' :
  lob_inv e g → counts_ok e' → index_ok e' g' → in_book sym sd →
  replaces_level (levels e) (levels e') sym sd i lvl' → levels e sym sd !! i = Some lvl →
  price lvl' = price lvl → level_ok sd lvl' → lob_inv e' g'.
Proof using Type.
  intros [_ _ H1 H2] Hc Hi Hb HW Hl Hp Hok. split; [done|done| |]; intros sym' sd' Hb'.
  - rewrite HW by done. case_decide as Hd; [|by apply H1]. injection Hd as -> ->.
    apply Forall_insert; [by apply H1|done].
  - intros a b x y Hab Ha Hb2.
    rewrite (replaced_lookup _ _ _ _ _ _ _ _ _ _ _ HW Hb' Hl) in Ha.
    rewrite (replaced_lookup _ _ _ _ _ _ _ _ _ _ _ HW Hb' Hl) in Hb2.
    assert (E : ∀ c z, (if decide ((sym', sd', c) = (sym, sd, i)) then z = lvl'
                        else levels e sym' sd' !! c = Some z) →
                ∃ z0, levels e sym' sd' !! c = Some z0 ∧ price z = price z0).
    { intros c z Hz. destruct (decide ((sym', sd', c) = (sym, sd, i))) as [Hd|Hd]; [|by exists z].
      injection Hd as -> -> ->. subst z. by exists lvl. }
    apply E in Ha as (x0 & Ha & ->). apply E in Hb2 as (y0 & Hb2 & ->). by apply (H2 _ _ Hb' a b).
Qed.

Lemma inv_close e e' g g' sym sd i :
  lob_inv e g → counts_ok e' → index_ok e' g' → in_book sym sd →
  levels e' sym sd = take i (levels e sym sd) ++ drop (S i) (levels e sym sd) →
  (∀ sym' sd', in_book sym' sd' → (sym', sd') ≠ (sym, sd) → levels e' sym' sd' = levels e sym' sd') →
  lob_inv e' g'.
Proof using Type.
  intros [_ _ H1 H2] Hc Hi Hb HW Ho. rewrite <- delete_take_drop in HW.
  split; [done|done| |]; intros sym' sd' Hb'.
  - destruct (decide ((sym', sd') = (sym, sd))) as [Hd|Hd]; [|rewrite Ho by done; auto].
    injection Hd as -> ->. rewrite HW. apply Forall_delete. auto.
  - destruct (decide ((sym', sd') = (sym, sd))) as [Hd|Hd]; [|rewrite Ho by done; auto].
    injection Hd as -> ->. intros a b x y Hab Ha Hb2. rewrite HW in Ha, Hb2.
    rewrite list_lookup_delete in Ha, Hb2. repeat case_decide; try lia;
      (eapply (H2 _ _ Hb'); [|exact Ha|exact Hb2]; lia).
Qed.

Lemma inv_open e e' g g' sym sd pos lvl' :
  lob_inv e g → counts_ok e' → index_ok e' g' → in_book sym sd →
  opens (levels e) (levels e') sym sd pos lvl' → level_ok sd lvl' →
  (∀ j l, (j < pos)%nat → levels e sym sd !! j = Some l → before sd (price l) (price lvl')) →
  (∀ l, levels e sym sd !! pos = Some l → before sd (price lvl') (price l)) →
  lob_inv e' g'.
Proof using Type.
  intros [_ _ H1 H2] Hc Hi Hb (Hp & HW & Ho) Hok Hlow Hhi.
  split; [done|done| |]; intros sym' sd' Hb';
    (destruct (decide ((sym', sd') = (sym, sd))) as [Hd|Hd]; [|rewrite Ho by done; auto]);
    injection Hd as -> ->.
  - rewrite HW. apply Forall_app. split; [by apply Forall_take, H1|].
    constructor; [done|]. by apply Forall_drop, H1.
  - intros a b x y Hab Ha Hb2. rewrite HW, lookup_opened in Ha, Hb2 by done.
    assert (Hup : ∀ c z, (pos ≤ c)%nat → levels e sym sd !! c = Some z → before sd (price lvl') (price z)).
    { intros c z Hpc Hz. destruct (decide (c = pos)) as [->|]; [by apply Hhi|].
      destruct (lookup_lt_is_Some_2 (levels e sym sd) pos) as [u Hu].
      { apply lookup_lt_Some in Hz. lia. }
      eapply before_trans; [by apply Hhi|]. apply (H2 _ _ Hb pos c); [lia|done..]. }
    repeat case_decide; simplify_eq; try lia.
    + by apply (H2 _ _ Hb a b).
    + by eapply (Hlow a).
    + apply (H2 _ _ Hb a (b - 1)%nat); [lia|done..].
    + apply (Hup (b - 1)%nat); [lia|done].
    + apply (H2 _ _ Hb (a - 1)%nat (b - 1)%nat); [lia|done..].
Qed.

(** Replacing a level and then closing it deletes it. *)
Lemma replace_close (W W1 W' : view) sym sd i lvl lvl' :
  replaces_level W W1 sym sd i lvl' → opens W' W1 sym sd i lvl' → in_book sym sd →
  W sym sd !! i = Some lvl →
  W' sym sd = take i (W sym sd) ++ drop (S i) (W sym sd) ∧
  ∀ sym' sd', in_book sym' sd' → (sym', sd') ≠ (sym, sd) → W' sym' sd' = W sym' sd'.
Proof using Type.
  intros HR (Hp & HW & Ho) Hb Hl. split.
  - assert (E : W1 sym sd = <[i := lvl']> (W sym sd)) by (rewrite HR by done; by rewrite decide_True).
    rewrite insert_take_drop in E by (by eapply lookup_lt_Some). rewrite HW in E.
    apply app_inj_1 in E as [E1 E2].
    + injection E2 as E2. rewrite <- E1, <- E2. by rewrite take_drop.
    + apply lookup_lt_Some in Hl. rewrite !length_take. lia.
  - intros sym' sd' Hb' Hne. rewrite <- Ho, HR, decide_False by done. done.
Qed.

(** Opening a level and then replacing it opens the replacement. *)
Lemma open_replace (W W1 W' : view) sym sd i new lvl' :
  opens W W1 sym sd i new → replaces_level W1 W' sym sd i lvl' → in_book sym sd →
  opens W W' sym sd i lvl'.
Proof using Type.
  intros (Hp & HW & Ho) HR Hb. split; [done|]. split.
  - rewrite HR, decide_True, HW by done. rewrite insert_app_r_alt by (rewrite length_take; lia).
    rewrite length_take. by replace (i - i `min` length (W sym sd))%nat with 0%nat by lia.
  - intros sym' sd' Hb' Hne. rewrite HR, decide_False by done. by apply Ho.
Qed.

(** ** The abstract book of a well-formed engine *)

Lemma abs_lookup e sym sd i x :
  abs e sym sd !! i = Some x ↔ ∃ lvl, levels e sym sd !! i = Some lvl ∧ x = abs_level lvl.
Proof using Type. unfold abs. rewrite list_lookup_fmap_Some. naive_solver. Qed.

Lemma abs_replaced e e' sym sd i lvl' sym' sd' :
  replaces_level (levels e) (levels e') sym sd i lvl' → in_book sym' sd' →
  abs e' sym' sd' =
    if decide ((sym', sd') = (sym, sd)) then <[i := abs_level lvl']> (abs e sym sd)
    else abs e sym' sd'.
Proof using Type.
  intros HR Hb. unfold abs. rewrite HR by done. case_decide; [|done]. by rewrite list_fmap_insert.
Qed.

Lemma level_ok_wf sd lvl : level_ok sd lvl → ∃ ids, level_wf sd lvl ids ∧ ids ≠ [] ∧
  level_queue lvl = queue (orders lvl) ids ∧ level_queue lvl ≠ [].
Proof using Type.
  intros [(ids & Hwf & Hne) _]. exists ids. split; [done|]. split; [done|].
  pose proof (wf_queue _ _ _ Hwf) as Hq. split; [done|]. rewrite Hq. by destruct ids.
Qed.

Lemma inv_level_ok e g sym sd i lvl :
  lob_inv e g → in_book sym sd → levels e sym sd !! i = Some lvl → level_ok sd lvl.
Proof using Type.
  intros H Hb Hl. pose proof (li_levels _ _ _ H sym sd Hb) as Hf. by eapply Forall_lookup_1.
Qed.

Lemma abs_nonempty e g sym sd : lob_inv e g → in_book sym sd → nonempty_levels (abs e sym sd).
Proof using Type.
  intros H Hb. apply Forall_fmap, Forall_forall. intros lvl (i & Hl)%list_elem_of_lookup_1. simpl.
  destruct (level_ok_wf _ _ (inv_level_ok _ _ _ _ _ _ H Hb Hl)) as (ids & _ & _ & _ & Hne). done.
Qed.

Lemma abs_sorted e g sym sd : lob_inv e g → in_book sym sd → sorted_side sd (abs e sym sd).
Proof using Type.
  intros H Hb i j x y Hij (l & Hi & ->)%abs_lookup (l' & Hj & ->)%abs_lookup.
  by apply (li_sorted _ _ _ H sym sd Hb i j).
Qed.

Lemma queue_holds sd lvl ids r :
  level_links sd lvl ids → r ∈ (queue (orders lvl) ids).*1 ↔ ∃ j, holds lvl j r.
Proof using Type.
  intros Hl. setoid_rewrite (holds_links _ _ _ _ _ Hl). unfold queue. split.
  - intros (x & -> & (j & -> & Hj)%list_elem_of_fmap_1)%list_elem_of_fmap_1. eauto.
  - intros (j & Hj & <-). apply list_elem_of_fmap_2. by apply list_elem_of_fmap_2.
Qed.

(** An order sits in the queue of a level exactly when the index says so. *)
Lemma abs_mentions e g sym sd i x r :
  lob_inv e g → in_book sym sd → abs e sym sd !! i = Some x →
  r ∈ x.2.*1 ↔ ∃ j : nat, g !! r = Some (mkLoc sym sd (Z.of_nat i) (Z.of_nat j)).
Proof using Type.
  intros H Hb (lvl & Hl & ->)%abs_lookup.
  destruct (level_ok_wf _ _ (inv_level_ok _ _ _ _ _ _ H Hb Hl)) as (ids & Hwf & _ & Hq & _).
  simpl. rewrite Hq, (queue_holds sd) by apply Hwf.
  destruct (li_index _ _ _ H) as [_ Hg]. setoid_rewrite Hg. setoid_rewrite located_mk. split.
  - intros [j Hj]. exists j. eauto.
  - intros (j & _ & l & Hl' & Hj). simplify_eq. eauto.
Qed.

Lemma owner_abs e g r :
  lob_inv e g → owner (abs e) r = (λ loc, (symbol_idx loc, side loc)) <$> g !! r.
Proof using Type.
  intros H. destruct (li_index _ _ _ H) as [_ Hg].
  assert (Hm : ∀ sym sd, in_book sym sd → mentions r (abs e sym sd) = true →
    ∃ i j : nat, g !! r = Some (mkLoc sym sd (Z.of_nat i) (Z.of_nat j))).
  { intros sym sd Hb (x & (i & Hi)%list_elem_of_lookup_1 & Hx)%mentions_spec. exists i.
    by apply (abs_mentions e g sym sd i x). }
  destruct (owner (abs e) r) as [[sym sd]|] eqn:E.
  - apply owner_Some in E as [Hb Hx]. destruct (Hm _ _ Hb Hx) as (i & j & ->). done.
  - destruct (g !! r) as [loc|] eqn:Hr; [|done]. exfalso.
    pose proof (proj1 (Hg r loc) Hr) as Hloc.
    destruct (located_shape _ _ _ Hloc) as (sym & sd & i & j & ->).
    apply located_mk in Hloc as (Hb & lvl & Hl & Hh).
    apply owner_None with (sym := sym) (sd := sd) in E; [|done].
    assert (mentions r (abs e sym sd) = true); [|congruence].
    apply mentions_spec. exists (abs_level lvl).
    assert (Hi : abs e sym sd !! i = Some (abs_level lvl)) by (apply abs_lookup; eauto).
    split; [by eapply list_elem_of_lookup_2|]. by apply (abs_mentions e g sym sd i); eauto.
Qed.

(** Everything known about an indexed order. *)
Record resting e g r sym sd (i k : nat) lvl l1 l2 s : Prop := mk_resting {
  rs_index : g !! r = Some (mkLoc sym sd (Z.of_nat i) (Z.of_nat k));
  rs_book : in_book sym sd;
  rs_level : levels e sym sd !! i = Some lvl;
  rs_wf : level_wf sd lvl (l1 ++ k :: l2);
  rs_slot : orders lvl !! k = Some s;
  rs_active : is_active s = true;
  rs_ref : order_id s = r;
  rs_queue : level_queue lvl = queue (orders lvl) l1 ++ (r, qty s) :: queue (orders lvl) l2;
  rs_unique : r ∉ (queue (orders lvl) l1).*1 ∧ r ∉ (queue (orders lvl) l2).*1
}.

Lemma inv_resting e g r loc :
  lob_inv e g → g !! r = Some loc →
  ∃ sym sd i k lvl l1 l2 s, loc = mkLoc sym sd (Z.of_nat i) (Z.of_nat k) ∧
    resting e g r sym sd i k lvl l1 l2 s.
Proof using Type*.
  intros H Hr. destruct (li_index _ _ _ H) as [_ Hg]. pose proof (proj1 (Hg r loc) Hr) as Hloc.
  destruct (located_shape _ _ _ Hloc) as (sym & sd & i & k & ->).
  apply located_mk in Hloc as (Hb & lvl & Hl & Hh).
  destruct (level_ok_wf _ _ (inv_level_ok _ _ _ _ _ _ H Hb Hl)) as (ids & Hwf & _ & Hq & _).
  pose proof (lw_links _ _ _ Hwf) as Hlk.
  pose proof Hh as (s & Hs & Ha & Hid).
  pose proof (proj1 (holds_links _ _ _ _ _ Hlk) Hh) as [Hk _].
  apply list_elem_of_split in Hk as (l1 & l2 & ->).
  exists sym, sd, i, k, lvl, l1, l2, s. split; [done|].
  assert (Hun : ∀ l, (∀ j, j ∈ l → j ∈ l1 ++ k :: l2 ∧ j ≠ k) → r ∉ (queue (orders lvl) l).*1).
  { intros l Hin (x & Ex & (j & -> & Hj)%list_elem_of_fmap_1)%list_elem_of_fmap_1.
    destruct (Hin j Hj) as [Hj1 Hj2].
    assert (Hh' : holds lvl j r) by (apply (holds_links _ _ _ _ _ Hlk); done).
    assert (Hloc : located (levels e) r (mkLoc sym sd (Z.of_nat i) (Z.of_nat j)))
      by (apply located_mk; eauto).
    apply Hg in Hloc. rewrite Hr in Hloc. injection Hloc. lia. }
  pose proof (ll_nodup _ _ _ Hlk) as (_ & N2 & [N3 _]%NoDup_cons)%NoDup_app.
  split; try done.
  - rewrite Hq, queue_split, (entry_lookup _ _ _ Hs). by rewrite Hid.
  - split; apply Hun; intros j Hj; (split; [set_solver|]); [|congruence].
    intros ->. apply (N2 k Hj). set_solver.
Qed.

Lemma resting_valid e g r sym sd i k lvl l1 l2 s :
  lob_inv e g → resting e g r sym sd i k lvl l1 l2 s →
  valid_location e r (mkLoc sym sd (Z.of_nat i) (Z.of_nat k)) = Some true.
Proof using Type*.
  intros H R. pose proof (rs_wf _ _ _ _ _ _ _ _ _ _ _ R) as Hwf.
  pose proof (lw_links _ _ _ Hwf) as Hlk. pose proof (rs_book _ _ _ _ _ _ _ _ _ _ _ R) as Hb.
  pose proof (rs_level _ _ _ _ _ _ _ _ _ _ _ R) as Hl. pose proof (rs_slot _ _ _ _ _ _ _ _ _ _ _ R) as Hs.
  pose proof (levels_lookup_lev _ _ _ _ _ Hl) as [_ Hi].
  pose proof (links_bound _ _ _ k Hlk ltac:(set_solver)) as Hk.
  pose proof (wf_total_bounds _ _ _ Hwf) as Ht.
  pose proof (lw_count _ _ _ Hwf) as Hc. rewrite length_app in Hc. simpl in Hc.
  assert (Hq : 1 ≤ qty s).
  { pose proof (lw_good _ _ _ Hwf) as Hg. rewrite queue_split, (entry_lookup _ _ _ Hs) in Hg.
    apply Forall_app in Hg as [_ [[_ ?] _]%Forall_cons]. simpl in *. lia. }
  unfold valid_location. cbn [symbol_idx side level_idx slot_idx].
  unfold kSlots, kMaxOrdersPerLevel in *. destruct Hb as [Hb1 Hb2].
  rewrite (proj2 (Z.leb_gt _ _)), (proj2 (Z.ltb_ge _ _)), (proj2 (Z.leb_gt _ _)),
    (proj2 (Z.ltb_ge _ _)), (proj2 (Z.leb_gt _ _)) by lia.
  cbn [orb]. rewrite (levels_level e sym sd i lvl (li_counts _ _ _ H) (conj Hb1 Hb2) Hl). simpl.
  rewrite get_slot_nat, Hs by apply Hlk. simpl.
  rewrite (rs_active _ _ _ _ _ _ _ _ _ _ _ R), (rs_ref _ _ _ _ _ _ _ _ _ _ _ R), Z.eqb_refl.
  by rewrite !(proj2 (Z.leb_le _ _)), (proj2 (Z.ltb_lt _ _)) by lia.
Qed.

(** ** Updates of one order's queue, on the abstract book *)

(** [f] acts on order [r] only. *)
Definition only_on (r : Z) (f : list (Z * Z) → list (Z * Z)) : Prop :=
  ∀ qs, Forall good_entry qs → r ∉ qs.*1 → f qs = qs.

Lemma abs_good e g sym sd x :
  lob_inv e g → in_book sym sd → x ∈ abs e sym sd → Forall good_entry x.2.
Proof using Type*.
  intros H Hb (i & (lvl & Hl & ->)%abs_lookup)%list_elem_of_lookup_1.
  destruct (level_ok_wf _ _ (inv_level_ok _ _ _ _ _ _ H Hb Hl)) as (ids & Hwf & _ & Hq & _).
  simpl. rewrite Hq. apply Hwf.
Qed.

Lemma abs_update_absent e g r f sym sd :
  lob_inv e g → only_on r f → in_book sym sd →
  (∀ loc, g !! r = Some loc → (symbol_idx loc, side loc) ≠ (sym, sd)) →
  b_update f (abs e sym sd) = abs e sym sd.
Proof using Type*.
  intros H Hf Hb Hr. apply b_update_miss; [by eapply abs_nonempty|]. intros x Hx.
  apply Hf; [by eapply abs_good|]. apply list_elem_of_lookup_1 in Hx as [i Hi].
  rewrite (abs_mentions e g sym sd i x) by done. intros [j Hj]. by apply (Hr _ Hj).
Qed.

Lemma abs_update_resting e g r f sym sd i k lvl l1 l2 s sym' sd' :
  lob_inv e g → resting e g r sym sd i k lvl l1 l2 s → only_on r f → in_book sym' sd' →
  b_update f (abs e sym' sd') =
    if decide ((sym', sd') = (sym, sd)) then
      if decide (f (level_queue lvl) = []) then take i (abs e sym sd) ++ drop (S i) (abs e sym sd)
      else <[i := (price lvl, f (level_queue lvl))]> (abs e sym sd)
    else abs e sym' sd'.
Proof using Type*.
  intros H R Hf Hb'. destruct (decide ((sym', sd') = (sym, sd))) as [Hd|Hd].
  2:{ apply (abs_update_absent e g r); [done..|]. intros loc Hr.
      rewrite (rs_index _ _ _ _ _ _ _ _ _ _ _ R) in Hr. injection Hr as <-. simpl. naive_solver. }
  injection Hd as -> ->.
  assert (Hi : abs e sym sd !! i = Some (price lvl, level_queue lvl)).
  { apply abs_lookup. exists lvl. split; [apply R|done]. }
  rewrite <- (take_drop_middle _ _ _ Hi) at 1.
  rewrite b_update_hit.
  - case_decide; [done|]. symmetry. apply insert_take_drop. by eapply lookup_lt_Some.
  - rewrite take_drop_middle by done. by eapply abs_nonempty.
  - intros x Hx. rewrite <- delete_take_drop in Hx.
    apply list_elem_of_lookup_1 in Hx as [j Hj]. rewrite list_lookup_delete in Hj.
    assert (Hx : ∃ j', abs e sym sd !! j' = Some x ∧ j' ≠ i).
    { case_decide; eexists; (split; [exact Hj|lia]). }
    destruct Hx as (j' & Hj' & Hne). apply Hf.
    + eapply (abs_good e g sym sd); [done..|]. by eapply list_elem_of_lookup_2.
    + rewrite (abs_mentions e g sym sd j' x) by done. rewrite (rs_index _ _ _ _ _ _ _ _ _ _ _ R).
      intros [j0 [= E]]. lia.
Qed.

Lemma only_on_drop r : only_on r (drop_order r).
Proof using Type*. intros qs _. apply drop_order_miss. Qed.

Lemma only_on_reduce r d : only_on r (reduce_order_qty r d).
Proof using Type*. intros qs. apply reduce_qty_miss. Qed.

(** ** Retiring an order *)

(** [e'] is [e] without order [r]. *)
Record retired e g r e' g' : Prop := mk_retired {
  rt_inv : lob_inv e' g';
  rt_abs : abs e' ≡ book_remove (abs e) r;
  rt_settled : settled e e' false;
  rt_keys : ∀ r', g' !! r' = None ↔ r' = r ∨ g !! r' = None;
  rt_can : ∀ r', ix_can_insert (order_map e) r' = true → ix_can_insert (order_map e') r' = true
}.

Lemma set_order_count_aggregates lvl c : set_order_count lvl c = set_aggregates lvl (total_qty lvl) c.
Proof using Type. done. Qed.

Lemma wf_idle sd lvl : level_wf sd lvl [] → idle lvl.
Proof using Type.
  intros Hwf j s Hs. destruct (is_active s) eqn:E; [|done].
  apply (ll_active _ _ _ (lw_links _ _ _ Hwf) j s Hs) in E. by apply elem_of_nil in E.
Qed.

(** The level and index update at the heart of [retire_order], before the
    level is removed if it became empty. *)
Lemma retire_level e g r sym sd i k lvl0 l1 l2 s lvl :
  lob_inv e g → resting e g r sym sd i k lvl0 l1 l2 s →
  level_links sd lvl (l1 ++ k :: l2) → (∀ j r', holds lvl j r' ↔ holds lvl0 j r') →
  price lvl = price lvl0 → queue (orders lvl) l1 = queue (orders lvl0) l1 →
  queue (orders lvl) l2 = queue (orders lvl0) l2 →
  order_count lvl = order_count lvl0 → total_qty lvl = total_qty lvl0 - qty s →
  ∃ lvl' e1, retire_order e lvl (mkLoc sym sd (Z.of_nat i) (Z.of_nat k)) r =
      remove_level_if_empty e1 sym sd (Z.of_nat i) ∧
    replaces_level (levels e) (levels e1) sym sd i lvl' ∧ counts_ok e1 ∧
    index_ok e1 (delete r g) ∧ level_wf sd lvl' (l1 ++ l2) ∧ price lvl' = price lvl0 ∧
    level_queue lvl' = drop_order r (level_queue lvl0) ∧ settled e e1 false ∧
    order_map e1 = ix_remove (order_map e) r.
Proof using Type*.
  intros H R Hlk Hh Hp Q1 Q2 Hcnt Htot. pose proof (rs_wf _ _ _ _ _ _ _ _ _ _ _ R) as Hwf.
  pose proof (rs_slot _ _ _ _ _ _ _ _ _ _ _ R) as Hs. pose proof (rs_book _ _ _ _ _ _ _ _ _ _ _ R) as Hb.
  pose proof (rs_level _ _ _ _ _ _ _ _ _ _ _ R) as Hl. destruct (li_index _ _ _ H) as [Hrep Hg].
  pose proof (lw_good _ _ _ Hwf) as Hgood. pose proof (lw_total _ _ _ Hwf) as Ht.
  pose proof (lw_count _ _ _ Hwf) as Hc. pose proof (links_length _ _ _ Hlk) as Hlen.
  rewrite queue_split, (entry_lookup _ _ _ Hs) in Hgood, Ht. rewrite qsum_app in Ht. simpl in Ht.
  apply Forall_app in Hgood as [G1 [_ G2]%Forall_cons].
  rewrite length_app in Hc, Hlen. simpl in Hc, Hlen.
  destruct (level_remove sd lvl l1 k l2 Hlk) as (lvl1 & Hclr & T1 & C1 & P1 & Hrest).
  { rewrite Q1, Q2. by apply Forall_app. }
  destruct (Hrest (total_qty lvl1) (order_count lvl1 - 1)) as (Hwf' & Hq' & Hh').
  { rewrite qsum_app, Q1, Q2. lia. }
  { rewrite length_app. lia. }
  rewrite <- set_order_count_aggregates in *. set (lvl' := set_order_count lvl1 _) in *.
  destruct (set_lob_replaces e sym sd i lvl') as (lob' & Hset & HR).
  { apply H. } { done. } { by eapply lookup_lt_Some. }
  exists lvl', (set_order_map (set_lob e lob') (ix_remove (order_map e) r)).
  split; [|split; [apply HR|split; [by apply H|split; [split|split; [done|]]]]].
  - unfold retire_order, clear_slot. cbn [slot_idx symbol_idx side level_idx].
    rewrite Hclr. simpl. unfold chk32, kSlots, kMaxOrdersPerLevel in *.
    rewrite !(proj2 (Z.leb_le _ _)) by lia. simpl. fold lvl'. by rewrite Hset.
  - by apply (law_remove (rep := rep)).
  - apply (located_removed (levels e) _ sym sd i lvl0 lvl' (HR _) Hb Hl g k r);
      [done|apply R|]. intros j r'. by rewrite Hh', Hh.
  - split; [by rewrite <- Hp, <- P1|]. split; [|done].
    rewrite (wf_queue _ _ _ Hwf'), Hq', Q1, Q2, (rs_queue _ _ _ _ _ _ _ _ _ _ _ R).
    destruct (rs_unique _ _ _ _ _ _ _ _ _ _ _ R). by rewrite drop_order_hit.
Qed.

Lemma retire_spec e g r sym sd i k lvl0 l1 l2 s lvl :
  lob_inv e g → resting e g r sym sd i k lvl0 l1 l2 s →
  level_links sd lvl (l1 ++ k :: l2) → (∀ j r', holds lvl j r' ↔ holds lvl0 j r') →
  price lvl = price lvl0 → queue (orders lvl) l1 = queue (orders lvl0) l1 →
  queue (orders lvl) l2 = queue (orders lvl0) l2 →
  order_count lvl = order_count lvl0 → total_qty lvl = total_qty lvl0 - qty s →
  ∃ e' g', retire_order e lvl (mkLoc sym sd (Z.of_nat i) (Z.of_nat k)) r = Some e' ∧
    retired e g r e' g'.
Proof using Type*.
  intros H R Hlk Hh Hp Q1 Q2 Hcnt Htot.
  destruct (retire_level e g r sym sd i k lvl0 l1 l2 s lvl)
    as (lvl' & e1 & Hret & HR & Hc1 & Hix1 & Hwf' & Hp' & Hq' & Hst & Hm1); [done..|].
  pose proof (rs_book _ _ _ _ _ _ _ _ _ _ _ R) as Hb. pose proof (rs_level _ _ _ _ _ _ _ _ _ _ _ R) as Hl.
  pose proof (inv_level_ok _ _ _ _ _ _ H Hb Hl) as [_ Hpr].
  assert (Hi : levels e1 sym sd !! i = Some lvl').
  { apply (replaced_lookup _ _ _ _ _ _ _ _ _ _ _ HR Hb Hl). by rewrite decide_True. }
  assert (Hcan : ∀ r', ix_can_insert (order_map e) r' = true → ix_can_insert (order_map e1) r' = true).
  { intros r' Hr'. rewrite Hm1. eapply law_can_insert_remove; [|done]. apply (li_index _ _ _ H). }
  pose proof (lw_count _ _ _ Hwf') as Hcnt'. rewrite Hret.
  assert (Habs : ∀ e', (∀ sym' sd', in_book sym' sd' → abs e' sym' sd' =
      if decide ((sym', sd') = (sym, sd)) then
        if decide (level_queue lvl' = []) then take i (abs e sym sd) ++ drop (S i) (abs e sym sd)
        else <[i := (price lvl0, level_queue lvl')]> (abs e sym sd)
      else abs e sym' sd') → abs e' ≡ book_remove (abs e) r).
  { intros e' He' sym' sd' Hb'. rewrite He' by done. unfold book_remove.
    rewrite (abs_update_resting e g r _ sym sd i k lvl0 l1 l2 s sym' sd' H R (only_on_drop r) Hb').
    by rewrite <- Hq'. }
  pose proof (wf_queue _ _ _ Hwf') as Hq2.
  destruct (decide (l1 ++ l2 = [])) as [Enil|Enil].
  - rewrite Enil in Hwf', Hcnt', Hq2.
    destruct (remove_level_spec rep e1 (delete r g) sym sd i lvl') as (e' & Hrm & Hc' & Hop & Hix' & Hsr);
      [done..|simpl in *; lia|by eapply wf_idle|].
    destruct (replace_close _ _ _ _ _ _ _ _ HR Hop Hb Hl) as [HW Ho].
    eexists e', _. split; [done|]. split.
    + by eapply (inv_close e e' g).
    + apply Habs. intros sym' sd' Hb'. unfold abs.
      destruct (decide ((sym', sd') = (sym, sd))) as [Hd|Hd]; [|by rewrite Ho].
      injection Hd as -> ->. rewrite HW, decide_True by done.
      by rewrite fmap_app, fmap_take, fmap_drop.
    + destruct Hst as [S1 T1], Hsr as (S2 & T2 & _). split; [by rewrite S2|]. intros x. by rewrite T2.
    + intros r'. rewrite lookup_fmap, fmap_None, lookup_delete_None. naive_solver.
    + destruct Hsr as (_ & _ & HK). intros r' Hr'. rewrite HK. by apply Hcan.
  - exists e1, (delete r g). split.
    { unfold remove_level_if_empty. rewrite (levels_level e1 sym sd i lvl') by done. simpl.
      rewrite (proj2 (Z.ltb_lt _ _)); [done|]. destruct (l1 ++ l2); [done|]. simpl in *. lia. }
    split.
    + eapply (inv_replace e e1 g); try done. split; [by eauto|]. by rewrite Hp'.
    + apply Habs. intros sym' sd' Hb'. rewrite (abs_replaced e e1 sym sd i lvl') by done.
      destruct (decide ((sym', sd') = (sym, sd))) as [Hd|Hd]; [|done].
      rewrite decide_False; [|rewrite Hq2; by destruct (l1 ++ l2)].
      unfold abs_level. by rewrite Hp'.
    + done.
    + intros r'. rewrite lookup_delete_None. naive_solver.
    + done.
Qed.

(** ** Deletion and reduction *)

Lemma set_total_links sd lvl ids t : level_links sd lvl ids → level_links sd (set_total_qty lvl t) ids.
Proof using Type. intros []. by split. Qed.

(** Quantities of a resting order and of its level. *)
Lemma resting_qty e g r sym sd i k lvl l1 l2 s :
  resting e g r sym sd i k lvl l1 l2 s →
  1 ≤ qty s ≤ kMaxQuantity ∧ qty s ≤ total_qty lvl ≤ kMaxQuantity * kMaxOrdersPerLevel ∧ 0 < r.
Proof using Type*.
  intros R. pose proof (rs_wf _ _ _ _ _ _ _ _ _ _ _ R) as Hwf.
  pose proof (rs_slot _ _ _ _ _ _ _ _ _ _ _ R) as Hs.
  pose proof (wf_total_bounds _ _ _ Hwf) as [_ Hub].
  destruct Hwf as [_ Hg Ht _]. rewrite queue_split, (entry_lookup _ _ _ Hs) in Hg, Ht.
  rewrite qsum_app in Ht. simpl in Ht.
  apply Forall_app in Hg as [G1 [[Gr Gq] G2]%Forall_cons]. simpl in *.
  assert (Hn : ∀ q, Forall good_entry q → 0 ≤ qsum q).
  { intros q Hq. apply qsum_nonneg. eapply Forall_impl; [exact Hq|]. intros x [_ ?]. lia. }
  pose proof (Hn _ G1). pose proof (Hn _ G2). rewrite (rs_ref _ _ _ _ _ _ _ _ _ _ _ R) in Gr. lia.
Qed.

Lemma delete_at_spec e g r sym sd i k lvl l1 l2 s :
  lob_inv e g → resting e g r sym sd i k lvl l1 l2 s →
  ∃ e' g', delete_at e r (mkLoc sym sd (Z.of_nat i) (Z.of_nat k)) = Some e' ∧ retired e g r e' g'.
Proof using Type*.
  intros H R. pose proof (resting_qty _ _ _ _ _ _ _ _ _ _ _ R) as (Hq & Ht & _).
  pose proof (rs_wf _ _ _ _ _ _ _ _ _ _ _ R) as Hwf. pose proof (lw_links _ _ _ Hwf) as Hlk.
  unfold delete_at. cbn [symbol_idx side level_idx slot_idx].
  rewrite (levels_level e sym sd i lvl); [|apply H|apply R|apply R]. simpl.
  rewrite get_slot_nat, (rs_slot _ _ _ _ _ _ _ _ _ _ _ R) by apply Hlk. simpl.
  assert (clamped_qty (qty s) (total_qty lvl) = qty s) as ->.
  { unfold clamped_qty. rewrite !(proj2 (Z.leb_gt _ _)) by lia. simpl.
    destruct (Z.ltb_spec (qty s) (total_qty lvl)); [done|lia]. }
  rewrite chk64_ok by (unfold INT64_MIN, INT64_MAX, kMaxQuantity, kMaxOrdersPerLevel in *; lia). simpl.
  apply (retire_spec e g r sym sd i k lvl l1 l2 s); try done. by apply set_total_links.
Qed.

(** [e'] is [e] with order [r] reduced by up to [d]. *)
Definition reduced e e' g' r d : Prop :=
  lob_inv e' g' ∧ abs e' ≡ book_reduce (abs e) r d ∧ settled e e' false.

Lemma reduce_is_remove e g r sym sd i k lvl l1 l2 s d :
  lob_inv e g → resting e g r sym sd i k lvl l1 l2 s → 1 ≤ d → qty s ≤ d →
  book_reduce (abs e) r d ≡ book_remove (abs e) r.
Proof using Type*.
  intros H R Hd1 Hd sym' sd' Hb'. unfold book_reduce, book_remove.
  rewrite !(abs_update_resting e g r _ sym sd i k lvl l1 l2 s sym' sd' H R)
    by (done || apply only_on_drop || apply only_on_reduce).
  destruct (rs_unique _ _ _ _ _ _ _ _ _ _ _ R) as [U1 U2].
  pose proof (lw_good _ _ _ (rs_wf _ _ _ _ _ _ _ _ _ _ _ R)) as Hg. rewrite queue_split in Hg.
  apply Forall_app in Hg as [G1 [_ G2]%Forall_cons].
  rewrite (rs_queue _ _ _ _ _ _ _ _ _ _ _ R), drop_order_hit, reduce_qty_hit by (done || by apply Forall_app).
  by rewrite (decide_True (P := qty s ≤ d)) by done.
Qed.

Lemma reduce_partly e g r sym sd i k lvl l1 l2 s d lvl1 :
  lob_inv e g → resting e g r sym sd i k lvl l1 l2 s → 1 ≤ d < qty s →
  put_slot lvl (Z.of_nat k) (set_slot_qty s (qty s - d)) = Some lvl1 →
  ∃ lob, Arena_set_level (lob_flat e) sym sd (Z.of_nat i)
           (set_total_qty lvl1 (total_qty lvl - d)) = Some lob ∧ reduced e (set_lob e lob) g r d.
Proof using Type*.
  intros H R Hd Hput. pose proof (rs_wf _ _ _ _ _ _ _ _ _ _ _ R) as Hwf.
  pose proof (rs_slot _ _ _ _ _ _ _ _ _ _ _ R) as Hs. pose proof (rs_book _ _ _ _ _ _ _ _ _ _ _ R) as Hb.
  pose proof (rs_level _ _ _ _ _ _ _ _ _ _ _ R) as Hl. pose proof (resting_qty _ _ _ _ _ _ _ _ _ _ _ R) as (Hq & _ & Hr).
  destruct (requantify_links sd lvl l1 k l2 s (qty s - d) (lw_links _ _ _ Hwf) Hs)
    as (lvl1' & Hput' & Hlk1 & Q1 & Q2 & He & Hp & Hc & Hh). simplify_eq.
  rewrite (rs_ref _ _ _ _ _ _ _ _ _ _ _ R) in He.
  assert (Hwf1 : level_wf sd (set_total_qty lvl1 (total_qty lvl - d)) (l1 ++ k :: l2)).
  { eapply (requantify_wf sd lvl l1 k l2 lvl1 r (qty s - d)); try done.
    - split; simpl; lia.
    - rewrite (entry_lookup _ _ _ Hs). simpl. lia. }
  set (lvl' := set_total_qty lvl1 _) in *.
  destruct (set_lob_replaces e sym sd i lvl') as (lob & Hset & HR).
  { apply H. } { done. } { by eapply lookup_lt_Some. }
  specialize (HR (order_map e)). change (set_order_map (set_lob e lob) (order_map e)) with (set_lob e lob) in HR.
  exists lob. split; [done|]. split; [|split; [|done]].
  - eapply (inv_replace e _ g g sym sd i lvl lvl'); try done.
    + apply H.
    + destruct (li_index _ _ _ H) as [Hrep Hg]. split; [done|]. intros r' loc.
      rewrite Hg. symmetry. by apply (located_same _ _ sym sd i lvl lvl' HR Hb Hl).
    + split; [exists (l1 ++ k :: l2); split; [done|by destruct l1]|].
      change (price lvl') with (price lvl1). rewrite Hp. by apply (inv_level_ok _ _ _ _ _ _ H Hb Hl).
  - intros sym' sd' Hb'. unfold book_reduce.
    rewrite (abs_replaced e _ sym sd i lvl' sym' sd' HR Hb').
    rewrite (abs_update_resting e g r _ sym sd i k lvl l1 l2 s sym' sd' H R (only_on_reduce r d) Hb').
    destruct (decide ((sym', sd') = (sym, sd))); [|done].
    destruct (rs_unique _ _ _ _ _ _ _ _ _ _ _ R) as [U1 U2].
    pose proof (lw_good _ _ _ Hwf) as Hg. rewrite queue_split in Hg.
    apply Forall_app in Hg as [G1 [_ G2]%Forall_cons].
    rewrite (rs_queue _ _ _ _ _ _ _ _ _ _ _ R), reduce_qty_hit by (done || lia || by apply Forall_app).
    rewrite (decide_False (P := qty s ≤ d)) by lia. rewrite decide_False by (by destruct (queue (orders lvl) l1)).
    unfold abs_level. rewrite (wf_queue _ _ _ Hwf1), queue_split.
    change (price lvl') with (price lvl1). change (orders lvl') with (orders lvl1).
    by rewrite Hp, Q1, Q2, He.
Qed.

Lemma reduce_order_spec e g r d :
  lob_inv e g → 1 ≤ d →
  ∃ e' g', reduce_order e r d = Some e' ∧ reduced e e' g' r d.
Proof using Type*.
  intros H Hd. unfold reduce_order. destruct (li_index _ _ _ H) as [Hrep Hg].
  rewrite (law_lookup _ _ _ Hrep). destruct (g !! r) as [loc|] eqn:Hr.
  2:{ exists e, g. split; [done|]. split; [done|]. split; [|done]. intros sym sd Hb.
      symmetry. apply (abs_update_absent e g r); [done|apply only_on_reduce|done|]. intros loc. congruence. }
  destruct (inv_resting e g r loc H Hr) as (sym & sd & i & k & lvl & l1 & l2 & s & -> & R).
  rewrite (resting_valid e g r sym sd i k lvl l1 l2 s) by done. simpl.
  pose proof (rs_wf _ _ _ _ _ _ _ _ _ _ _ R) as Hwf. pose proof (lw_links _ _ _ Hwf) as Hlk.
  pose proof (resting_qty _ _ _ _ _ _ _ _ _ _ _ R) as (Hq & Ht & _).
  pose proof (rs_slot _ _ _ _ _ _ _ _ _ _ _ R) as Hs.
  rewrite (levels_level e sym sd i lvl); [|apply H|apply R|apply R]. simpl.
  rewrite get_slot_nat, Hs by apply Hlk. simpl.
  assert (clamped_qty d (qty s) = Z.min d (qty s)) as ->.
  { unfold clamped_qty. rewrite !(proj2 (Z.leb_gt _ _)) by lia. simpl.
    destruct (Z.ltb_spec d (qty s)); lia. }
  assert (kMaxQuantity = 1000000000 ∧ kMaxOrdersPerLevel = 16) as [Hk1 Hk2] by done.
  rewrite !chk64_ok by (unfold INT64_MIN, INT64_MAX; lia). simpl.
  destruct (requantify_links sd lvl l1 k l2 s (qty s - Z.min d (qty s)) Hlk Hs)
    as (lvl1 & Hput & Hlk1 & Q1 & Q2 & He & Hp & Hc & Hh).
  rewrite Hput. simpl. destruct (Z.leb_spec (qty s - Z.min d (qty s)) 0) as [Hle|Hgt].
  - destruct (retire_spec e g r sym sd i k lvl l1 l2 s
      (set_total_qty lvl1 (total_qty lvl - Z.min d (qty s)))) as (e' & g' & Hret & HRt); try done.
    + by apply set_total_links.
    + simpl. lia.
    + exists e', g'. split; [done|]. destruct HRt. split; [done|]. split; [|done].
      rewrite (reduce_is_remove e g r sym sd i k lvl l1 l2 s d); try done. lia.
  - rewrite Z.min_l in * by lia.
    destruct (reduce_partly e g r sym sd i k lvl l1 l2 s d lvl1) as (lob & Hset & Hred); [done|done|lia|done|].
    rewrite Hset. simpl. by eexists _, _.
Qed.
End refine.
