(* ===== verification/LobInsert.v ===== *)
(** * LobInsert: placing an order

    The insertion path of the engine: choosing or opening the level, filling a
    slot, and the rollback when the order index refuses. *)

From S2P Require Import Prelude Arena OrderIndex Level LevelOps Lob LobView LobInv Book LobRefine.
From Stdlib Require Import ZArith Lia.
From stdpp Require Import base tactics gmap numbers option sorting list.
Open Scope Z_scope.

Section insert.
Context {M : Type} `{!OrderIndex M} (rep : M → gmap Z OrderLocation → Prop)
  `{!OrderIndexLaws M rep}.
Implicit Types (e : LOBEngine M) (m : M) (g : gmap Z OrderLocation).
Notation lob_inv := (lob_inv rep).
Notation index_ok := (index_ok rep).

(** ** Choosing the level *)

(** The outcomes of finding or opening price [p]. *)
Inductive placement e g (sym sd p : Z) : LOBEngine M → Z → Prop :=
| placed_full :
    Z.of_nat (length (levels e sym sd)) = kLevelsPerSide →
    (∀ i l, levels e sym sd !! i = Some l → price l ≠ p) →
    placement e g sym sd p e (-1)
| placed_found (i : nat) lvl :
    levels e sym sd !! i = Some lvl → price lvl = p →
    placement e g sym sd p e (Z.of_nat i)
| placed_opened (i : nat) e1 :
    Z.of_nat (length (levels e sym sd)) < kLevelsPerSide →
    (∀ i l, levels e sym sd !! i = Some l → price l ≠ p) →
    counts_ok e1 → index_ok e1 (shift_up sym sd (Z.of_nat i) <$> g) → same_rest e e1 →
    opens (levels e) (levels e1) sym sd i (fresh_level p) →
    (∀ j l, (j < i)%nat → levels e sym sd !! j = Some l → before sd (price l) p) →
    (∀ l, levels e sym sd !! i = Some l → before sd p (price l)) →
    placement e g sym sd p e1 (Z.of_nat i).

Lemma place_spec e g sym sd p :
  lob_inv e g → in_book sym sd →
  ∃ e1 idx, (found ← find_level e sym sd p;
             if found <? 0 then insert_level_impl e sym sd p else Some (e, found)) = Some (e1, idx) ∧
    placement e g sym sd p e1 idx.
Proof using Type*.
  intros H Hb. pose proof (li_counts _ _ _ H) as Hc. pose proof (Hc sym sd Hb) as Hrg.
  pose proof (levels_length e sym sd Hc Hb) as Hlen.
  rewrite (find_level_spec e sym sd p Hc Hb (li_sorted _ _ _ H sym sd Hb)).
  destruct (list_find _ _) as [[i lvl]|] eqn:Ef; simpl.
  - apply list_find_Some in Ef as (Hl & Hp & _). rewrite (proj2 (Z.ltb_ge _ _)) by lia.
    eexists _, _. split; [done|]. by eapply placed_found.
  - assert (Hno : ∀ i l, levels e sym sd !! i = Some l → price l ≠ p).
    { apply list_find_None in Ef. rewrite Forall_forall in Ef. intros i l Hi.
      apply Ef. by eapply list_elem_of_lookup_2. }
    destruct (Z.ltb_spec (level_count e sym sd) kLevelsPerSide) as [Hlt|Hge].
    + destruct (insert_level_impl_spec rep e g sym sd p Hc Hb (li_index _ _ _ H) Hlt)
        as (e1 & i & g' & -> & Hc1 & Hop & Hix & -> & Hsr & Hlow & Hhi).
      eexists _, _. split; [done|]. eapply placed_opened; try done; [lia|].
      intros j l Hj Hl. destruct (before_total sd (price l) p) as [E|[?|E]]; [|done|].
      * exfalso. by apply (Hno j l Hl).
      * exfalso. by apply (Hlow j l Hj Hl).
    + unfold insert_level_impl. rewrite (proj2 (Z.leb_le _ _)) by lia.
      eexists _, _. split; [done|]. apply placed_full; [lia|done].
Qed.

(** The room the abstract book sees. *)
Lemma find_abs e sym sd p :
  list_find (λ x, x.1 = p) (abs e sym sd) =
    prod_map id abs_level <$> list_find (λ l, price l = p) (levels e sym sd).
Proof using Type. unfold abs. rewrite list_find_fmap. done. Qed.

Lemma room_none e sym sd p :
  (∀ i l, levels e sym sd !! i = Some l → price l ≠ p) →
  b_room p (abs e sym sd) = (Z.of_nat (length (levels e sym sd)) <? kLevelsPerSide).
Proof using Type.
  intros Hno. unfold b_room. rewrite find_abs.
  destruct (list_find _ (levels e sym sd)) as [[i l]|] eqn:Ef; simpl.
  - apply list_find_Some in Ef as (Hl & Hp & _). by apply Hno in Hl.
  - unfold abs. by rewrite length_fmap.
Qed.

Lemma room_found e g sym sd p i lvl ids :
  lob_inv e g → in_book sym sd → levels e sym sd !! i = Some lvl → price lvl = p →
  level_wf sd lvl ids → b_room p (abs e sym sd) = (Z.of_nat (length ids) <? kMaxOrdersPerLevel).
Proof using Type.
  intros H Hb Hl Hp Hwf. unfold b_room. rewrite find_abs.
  assert (list_find (λ l, price l = p) (levels e sym sd) = Some (i, lvl)) as ->.
  { apply list_find_Some. split; [done|]. split; [done|]. intros j y Hy Hj Ey.
    pose proof (li_sorted _ _ _ H sym sd Hb j i y lvl Hj Hy Hl) as Hbf. rewrite Ey, Hp in Hbf.
    by apply before_irrefl in Hbf. }
  simpl. rewrite (wf_queue _ _ _ Hwf). unfold queue. by rewrite length_fmap.
Qed.

(** ** Filling a slot *)

(** The state after the order is written and registered. *)
Definition filled e1 g1 sym sd (i : nat) lvl ids r q e2 : Prop :=
  ∃ lvl' k, replaces_level (levels e1) (levels e2) sym sd i lvl' ∧ counts_ok e2 ∧
    index_ok e2 (<[r := mkLoc sym sd (Z.of_nat i) (Z.of_nat k)]> g1) ∧
    level_wf sd lvl' (ids ++ [k]) ∧ price lvl' = price lvl ∧
    level_queue lvl' = level_queue lvl ++ [(r, q)] ∧ settled e1 e2 false.

(** The state after the rollback, before [remove_level_if_empty]. *)
Definition undone e1 g1 sym sd (i : nat) lvl ids e3 : Prop :=
  ∃ lvl', replaces_level (levels e1) (levels e3) sym sd i lvl' ∧ counts_ok e3 ∧
    index_ok e3 g1 ∧ level_wf sd lvl' ids ∧ price lvl' = price lvl ∧
    level_queue lvl' = level_queue lvl ∧ settled e1 e3 false.

Lemma chk32_ok z : - 2 ^ 31 ≤ z ≤ 2 ^ 31 - 1 → chk32 z = Some z.
Proof using Type. intros. unfold chk32. by rewrite !(proj2 (Z.leb_le _ _)) by lia. Qed.

Lemma replaces_twice (W W1 W2 : view) sym sd i l1 l2 :
  in_book sym sd → replaces_level W W1 sym sd i l1 → replaces_level W1 W2 sym sd i l2 →
  replaces_level W W2 sym sd i l2.
Proof using Type.
  intros Hb H1 H2 sym' sd' Hb'. rewrite H2 by done. case_decide as Hd; [|by rewrite H1, decide_False].
  rewrite H1 by done. rewrite decide_True by done. by rewrite list_insert_insert_eq.
Qed.

(** Undoing a freshly added order restores the level's queue. *)
Lemma undo_add sd lvl ids k r q lvl' :
  level_wf sd lvl ids → level_wf sd lvl' (ids ++ [k]) →
  queue (orders lvl') (ids ++ [k]) = queue (orders lvl) ids ++ [(r, q)] →
  k ∉ ids → (∀ j r', holds lvl' j r' ↔ holds lvl j r' ∨ (j = k ∧ r' = r)) →
  ∃ lvl1, clear_slot lvl' (Z.of_nat k) = Some lvl1 ∧ total_qty lvl1 = total_qty lvl' ∧
    order_count lvl1 = order_count lvl' ∧ price lvl1 = price lvl' ∧
    let lvl2 := set_aggregates lvl1 (total_qty lvl' - q) (order_count lvl' - 1) in
    level_wf sd lvl2 ids ∧ queue (orders lvl2) ids = queue (orders lvl) ids ∧
    ∀ j r', holds lvl2 j r' ↔ holds lvl j r'.
Proof using Type.
  intros Hwf Hwf' Hq Hk Hh. destruct Hwf' as [Hl Hg Ht Hc]. rewrite Hq in Hg, Ht.
  rewrite qsum_app in Ht. simpl in Ht. rewrite length_app in Hc. simpl in Hc.
  apply Forall_app in Hg as [Hg _]. rewrite queue_app in Hq. apply app_inj_2 in Hq as [Hq _]; [|done].
  destruct (level_remove sd lvl' ids k [] Hl) as (lvl1 & Hclr & T & C & P & Hrest).
  { by rewrite Hq, app_nil_r. }
  exists lvl1. split; [done|]. split; [done|]. split; [done|]. split; [done|].
  destruct (Hrest (total_qty lvl' - q) (order_count lvl' - 1)) as (W & Q & HH).
  { rewrite qsum_app, Hq. simpl. lia. }
  { rewrite app_nil_r. lia. }
  rewrite !app_nil_r in W, Q. rewrite Hq, app_nil_r in Q. split; [done|]. split; [done|].
  intros j r'. rewrite HH, Hh. split; [intros [[?|[-> _]] ?]; done|].
  intros Hj. split; [by left|]. intros ->. by apply (holds_links _ _ _ _ _ (lw_links _ _ _ Hwf)) in Hj as [? _].
Qed.

Lemma location_ok sym sd (i k : nat) :
  in_book sym sd → Z.of_nat i < kLevelsPerSide → (k < kSlots)%nat →
  location_invalid (mkLoc sym sd (Z.of_nat i) (Z.of_nat k)) = false.
Proof using Type.
  intros [Hs Hd] Hi Hk. unfold location_invalid. simpl. unfold kSlots, kMaxOrdersPerLevel in *.
  by rewrite !(proj2 (Z.leb_gt _ _)), !(proj2 (Z.ltb_ge _ _)) by lia.
Qed.

Lemma checked_add_ok a b : 0 ≤ b → INT64_MIN ≤ a → a + b ≤ INT64_MAX → checked_add a b = Some (a + b).
Proof using Type.
  intros. unfold checked_add. rewrite (proj2 (Z.ltb_ge (INT64_MAX - b) a)), (proj2 (Z.ltb_ge b 0)) by lia.
  by rewrite andb_false_r.
Qed.

Section fill.
Context (e1 : LOBEngine M) (g1 : gmap Z OrderLocation) (sym sd : Z) (i : nat)
  (lvl : PriceLevel) (ids : list nat) (r q : Z).
Context (Hc : counts_ok e1) (Hix : index_ok e1 g1) (Hb : in_book sym sd)
  (Hl : levels e1 sym sd !! i = Some lvl) (Hwf : level_wf sd lvl ids)
  (Hgood : good_entry (r, q)) (Hfresh : g1 !! r = None).

Lemma fill_outcome rr :
  (length ids = kSlots ∧
   fill_level rr e1 sym sd (Z.of_nat i) r q = Some (count_stat SRejected e1)) ∨
  ((length ids < kSlots)%nat ∧
   ((∃ e2, fill_level rr e1 sym sd (Z.of_nat i) r q = Some e2 ∧
           filled e1 g1 sym sd i lvl ids r q e2) ∨
    (∃ e3, ix_can_insert (order_map e1) r ≠ true ∧ undone e1 g1 sym sd i lvl ids e3 ∧
       fill_level rr e1 sym sd (Z.of_nat i) r q =
         (e ← remove_level_if_empty e3 sym sd (Z.of_nat i);
          Some (if rr then count_stat SRejected e else e))))).
Proof using Type*.
  assert (kMaxQuantity = 1000000000 ∧ kMaxOrdersPerLevel = 16 ∧ kLevelsPerSide = 1024)
    as (Hk1 & Hk2 & Hk3) by done.
  pose proof (wf_total_bounds _ _ _ Hwf) as Ht. destruct Hgood as [Hr Hq]. simpl in Hr, Hq.
  pose proof (lw_count _ _ _ Hwf) as Hcnt. pose proof (links_length _ _ _ (lw_links _ _ _ Hwf)) as Hlen.
  unfold kSlots in Hlen. pose proof (Hc sym sd Hb) as Hrg.
  pose proof (levels_lookup_lev _ _ _ _ _ Hl) as [_ Hi].
  unfold fill_level. rewrite (proj2 (Z.ltb_ge _ _)) by lia.
  rewrite (levels_level e1 sym sd i lvl Hc Hb Hl). simpl.
  destruct (alloc_slot_spec sd lvl ids (lw_links _ _ _ Hwf)) as [[-> ?]|(k & s & -> & Hs & Hk & Hks & Hlt)];
    [by left|right]. split; [done|].
  rewrite (proj2 (Z.ltb_ge _ _)), get_slot_nat, Hs by (lia || apply Hwf). simpl.
  destruct (level_add sd lvl ids k s r q Hwf Hk Hks Hlt Hgood)
    as (lvl1 & Hadd & T1 & C1 & P1 & Hwf' & Hq' & Hh').
  destruct (put_slot lvl (Z.of_nat k) _) as [lvl0|]; [|done]. simpl in Hadd |- *. rewrite Hadd. simpl.
  rewrite T1, C1, checked_add_ok, chk32_ok by (unfold INT64_MIN, INT64_MAX; lia). simpl.
  fold (set_aggregates lvl1 (total_qty lvl + q) (order_count lvl + 1)).
  set (lvl' := set_aggregates lvl1 _ _) in *.
  destruct (set_lob_replaces e1 sym sd i lvl') as (lob & Hset & HR);
    [done|done|by eapply lookup_lt_Some|].
  rewrite Hset. simpl. rewrite u16_small by lia. destruct Hix as [Hrep Hg].
  pose proof (law_insert (order_map e1) g1 r (mkLoc sym sd (Z.of_nat i) (Z.of_nat k)) Hrep) as Hins.
  pose proof (law_can_insert_ok (order_map e1) g1 r (mkLoc sym sd (Z.of_nat i) (Z.of_nat k)) Hrep) as Hcan.
  destruct (ix_insert (order_map e1) r _) as [m []].
  - left. eexists. split; [done|]. exists lvl', k. split; [apply HR|]. split; [done|].
    split; [split; [done|]|].
    + by eapply (located_added (levels e1) _ sym sd i lvl lvl' (HR m) Hb Hl g1 k r).
    + split; [done|]. split; [done|]. split; [|done].
      by rewrite (wf_queue _ _ _ Hwf'), (wf_queue _ _ _ Hwf).
  - right. subst m.
    destruct (undo_add sd lvl ids k r q lvl' Hwf Hwf' Hq' Hk Hh')
      as (lvl2 & Hclr & T2 & C2 & P2 & Hwf2 & Hq2 & Hh2).
    rewrite Hclr. simpl. rewrite T2, C2. simpl.
    rewrite chk64_ok, chk32_ok by (unfold INT64_MIN, INT64_MAX; simpl; lia). simpl.
    fold (set_aggregates lvl2 (total_qty lvl + q - q) (order_count lvl + 1 - 1)).
    change (total_qty lvl') with (total_qty lvl + q) in *. change (order_count lvl') with (order_count lvl + 1) in *.
    set (lvl3 := set_aggregates lvl2 _ _) in *.
    assert (Hi2 : levels (set_lob e1 lob) sym sd !! i = Some lvl').
    { apply (replaced_lookup _ _ _ _ _ _ _ _ _ _ _ (HR (order_map e1)) Hb Hl). by rewrite decide_True. }
    destruct (set_lob_replaces (set_lob e1 lob) sym sd i lvl3) as (lob3 & Hset3 & HR3);
      [done|done|by eapply lookup_lt_Some|].
    simpl in Hset3. rewrite Hset3. simpl.
    eexists. split; [|split; [|done]].
    + intros E. specialize (Hcan E). simpl in Hcan. rewrite location_ok in Hcan by (done || lia). by specialize (Hcan eq_refl).
    + assert (HRR : replaces_level (levels e1)
         (levels (set_order_map (set_lob (set_lob e1 lob) lob3) (order_map e1))) sym sd i lvl3)
        by (eapply (replaces_twice _ _ _ sym sd i); [done|apply (HR (order_map e1))|apply HR3]).
      exists lvl3. split; [exact HRR|]. split; [done|]. split; [split; [done|]|].
      * intros r' loc. rewrite Hg. symmetry. by apply (located_same _ _ sym sd i lvl lvl3 HRR Hb Hl).
      * split; [done|]. split; [by rewrite <- P1|]. split; [|done].
        by rewrite (wf_queue _ _ _ Hwf2), (wf_queue _ _ _ Hwf).
Qed.
End fill.

(** ** The whole insertion *)

(** The contract of [insert_order]: [ok] is the answer of the order index. *)
Definition inserted rr e sym sd p r q e' : Prop :=
  ∃ g' ok, lob_inv e' g' ∧ (ix_can_insert (order_map e) r = true → ok = true) ∧
    if b_room p (abs e sym sd) && ok
    then abs e' ≡ book_add (abs e) sym sd p r q ∧ settled e e' false
    else abs e' ≡ abs e ∧ settled e e' (negb (b_room p (abs e sym sd)) || rr).

Lemma inv_count e g k : lob_inv e g → lob_inv (count_stat k e) g.
Proof using Type. by intros []. Qed.

Lemma rejected_inserted rr e g sym sd p r q :
  lob_inv e g → b_room p (abs e sym sd) = false →
  inserted rr e sym sd p r q (count_stat SRejected e).
Proof using Type.
  intros H Hroom. exists g, true. split; [by apply inv_count|]. split; [done|].
  rewrite Hroom. done.
Qed.

Lemma settled_reject e e3 b : settled e e3 false → settled e (if b : bool then count_stat SRejected e3 else e3) b.
Proof using Type. intros [S T]. destruct b; [|done]. split; [simpl; by rewrite S|done]. Qed.

Lemma inv_count_if e g (b : bool) : lob_inv e g → lob_inv (if b then count_stat SRejected e else e) g.
Proof using Type. intros H. destruct b; [by apply inv_count|done]. Qed.

Lemma abs_count_if e (b : bool) : abs (if b then count_stat SRejected e else e) = abs e.
Proof using Type. by destruct b. Qed.

Section place.
Context (rr : bool) (e : LOBEngine M) (g : gmap Z OrderLocation) (sym sd p r q : Z).
Context (H : lob_inv e g) (Hb : in_book sym sd) (Hpr : is_valid_price p = true)
  (Hgood : good_entry (r, q)) (Hfresh : g !! r = None).

Lemma insert_found i lvl :
  levels e sym sd !! i = Some lvl → price lvl = p →
  ∃ e', fill_level rr e sym sd (Z.of_nat i) r q = Some e' ∧ inserted rr e sym sd p r q e'.
Proof using Type*.
  intros Hl Hp. destruct (inv_level_ok rep e g sym sd i lvl H Hb Hl) as [(ids & Hwf & Hne) _].
  pose proof (room_found e g sym sd p i lvl ids H Hb Hl Hp Hwf) as Hroom.
  destruct (fill_outcome e g sym sd i lvl ids r q (li_counts _ _ _ H) (li_index _ _ _ H) Hb Hl Hwf
    Hgood Hfresh rr) as [[Hfull ->]|[Hlt [(e2 & -> & F)|(e3 & Hcan & U & ->)]]].
  - eexists. split; [done|]. apply (rejected_inserted _ _ g); [done|]. rewrite Hroom, Hfull. done.
  - destruct F as (lvl' & k & HR & Hc2 & Hix2 & Hwf2 & Hp2 & Hq2 & Hst).
    exists e2. split; [done|]. eexists _, true.
    split; [|split; [done|]].
    + eapply (inv_replace rep e e2 g); try done. split; [|by rewrite Hp2, Hp].
      exists (ids ++ [k]). split; [done|]. by destruct ids.
    + rewrite Hroom. rewrite (proj2 (Z.ltb_lt _ _)) by (unfold kSlots, kMaxOrdersPerLevel in *; lia).
      split; [|done]. intros sym' sd' Hb'. rewrite (abs_replaced e e2 sym sd i lvl' sym' sd' HR Hb').
      unfold book_add, upd_side. destruct (decide ((sym', sd') = (sym, sd))) as [Hd|]; [|done].
      injection Hd as -> ->. rewrite (b_add_hit _ _ _ _ i (level_queue lvl)).
      * unfold abs_level. by rewrite Hp2, Hp, Hq2.
      * by apply (abs_sorted rep e g).
      * apply abs_lookup. exists lvl. unfold abs_level. by rewrite Hp.
  - destruct U as (lvl' & HR & Hc3 & Hix3 & Hwf3 & Hp3 & Hq3 & Hst).
    assert (Hi : levels e3 sym sd !! i = Some lvl')
      by (apply (replaced_lookup _ _ _ _ _ _ _ _ _ _ _ HR Hb Hl); by rewrite decide_True).
    unfold remove_level_if_empty. rewrite (levels_level e3 sym sd i lvl') by done. simpl.
    rewrite (lw_count _ _ _ Hwf3). rewrite (proj2 (Z.ltb_lt _ _)) by (destruct ids; [done|simpl; lia]).
    simpl. eexists. split; [done|]. exists g, false.
    split; [apply inv_count_if|split; [done|]].
    + eapply (inv_replace rep e e3 g); try done. split; [by eauto|]. by rewrite Hp3, Hp.
    + rewrite andb_false_r, Hroom. rewrite (proj2 (Z.ltb_lt _ _)) by (unfold kSlots, kMaxOrdersPerLevel in *; lia).
      split; [|by apply settled_reject]. intros sym' sd' Hb'. rewrite abs_count_if.
      rewrite (abs_replaced e e3 sym sd i lvl' sym' sd' HR Hb').
      destruct (decide ((sym', sd') = (sym, sd))) as [Hd|]; [|done].
      injection Hd as -> ->. apply list_insert_id, abs_lookup. exists lvl. split; [done|].
      unfold abs_level. by rewrite Hp3, Hq3.
Qed.

Lemma opens_inj (W1 W2 W : view) i x :
  opens W1 W sym sd i x → opens W2 W sym sd i x →
  ∀ sym' sd', in_book sym' sd' → W1 sym' sd' = W2 sym' sd'.
Proof using Type.
  intros (P1 & E1 & O1) (P2 & E2 & O2) sym' sd' Hb'.
  destruct (decide ((sym', sd') = (sym, sd))) as [Hd|Hd].
  - injection Hd as -> ->. rewrite E1 in E2. apply app_inj_1 in E2 as [A B].
    + injection B as B. rewrite <- (take_drop i (W1 sym sd)), <- (take_drop i (W2 sym sd)). by rewrite A, B.
    + rewrite !length_take. lia.
  - by rewrite <- O1, <- O2.
Qed.

Lemma insert_opened i e1 :
  Z.of_nat (length (levels e sym sd)) < kLevelsPerSide →
  (∀ i l, levels e sym sd !! i = Some l → price l ≠ p) →
  counts_ok e1 → index_ok e1 (shift_up sym sd (Z.of_nat i) <$> g) → same_rest e e1 →
  opens (levels e) (levels e1) sym sd i (fresh_level p) →
  (∀ j l, (j < i)%nat → levels e sym sd !! j = Some l → before sd (price l) p) →
  (∀ l, levels e sym sd !! i = Some l → before sd p (price l)) →
  ∃ e', fill_level rr e1 sym sd (Z.of_nat i) r q = Some e' ∧ inserted rr e sym sd p r q e'.
Proof using Type*.
  intros Hlen Hno Hc1 Hix1 Hsr Hop Hlow Hhi.
  pose proof (room_none e sym sd p Hno) as Hroom. rewrite (proj2 (Z.ltb_lt _ _)) in Hroom by done.
  assert (Hl : levels e1 sym sd !! i = Some (fresh_level p)).
  { destruct Hop as (Hp & -> & _). rewrite lookup_opened by done. by rewrite decide_False, decide_True by lia. }
  pose proof (reset_wf sd PriceLevel_zero p) as Hwf.
  assert (Hfr : (shift_up sym sd (Z.of_nat i) <$> g) !! r = None) by (by rewrite lookup_fmap, Hfresh).
  destruct (fill_outcome e1 _ sym sd i (fresh_level p) [] r q Hc1 Hix1 Hb Hl Hwf Hgood Hfr rr)
    as [[? _]|[_ [(e2 & -> & F)|(e3 & Hcan & U & ->)]]]; [done| |].
  - destruct F as (lvl' & k & HR & Hc2 & Hix2 & Hwf2 & Hp2 & Hq2 & Hst).
    pose proof (open_replace _ _ _ _ _ _ _ _ Hop HR Hb) as Hop2.
    exists e2. split; [done|]. eexists _, true. split; [|split; [done|]].
    + eapply (inv_open rep e e2 g); try done.
      * split; [by exists [k]|]. by rewrite Hp2.
      * intros j l. rewrite Hp2. apply Hlow.
      * rewrite Hp2. apply Hhi.
    + rewrite Hroom. split; [|by eapply settled_rest]. intros sym' sd' Hb'.
      destruct Hop2 as (P2 & E2 & O2). unfold book_add, upd_side, abs.
      destruct (decide ((sym', sd') = (sym, sd))) as [Hd|Hd]; [|by rewrite O2].
      injection Hd as -> ->. rewrite E2, fmap_app, fmap_cons, fmap_take, fmap_drop.
      symmetry. replace (abs_level lvl') with (p, [(r, q)]).
      2:{ unfold abs_level. rewrite Hp2, Hq2. by rewrite (wf_queue sd (fresh_level p) [] Hwf). }
      apply b_add_miss; [by rewrite length_fmap| |].
      * intros j x Hj (l & Hl' & ->)%abs_lookup. pose proof (Hlow j l Hj Hl') as Hbf. simpl. split.
        -- intros Hbf2. by apply (before_irrefl sd p), (before_trans sd p (price l)).
        -- intros E. by apply (Hno j l).
      * intros x (l & Hl' & ->)%abs_lookup. by apply Hhi.
  - destruct U as (lvl' & HR & Hc3 & Hix3 & Hwf3 & Hp3 & Hq3 & Hst).
    pose proof (open_replace _ _ _ _ _ _ _ _ Hop HR Hb) as Hop3.
    assert (Hi : levels e3 sym sd !! i = Some lvl')
      by (apply (replaced_lookup _ _ _ _ _ _ _ _ _ _ _ HR Hb Hl); by rewrite decide_True).
    destruct (remove_level_spec rep e3 _ sym sd i lvl' Hc3 Hb Hix3 Hi) as (e4 & -> & Hc4 & Hop4 & Hix4 & Hsr4).
    { by rewrite (lw_count _ _ _ Hwf3). }
    { by eapply wf_idle. }
    simpl. eexists. split; [done|]. eexists _, false.
    pose proof (opens_inj _ _ _ _ _ Hop4 Hop3) as HW.
    split; [apply inv_count_if; by eapply (inv_view rep e e4 g)|split].
    + intros Hc. destruct Hsr as (_ & _ & HK). rewrite HK in Hcan. done.
    + rewrite andb_false_r, Hroom. split; [intros sym' sd' Hb'; rewrite abs_count_if; unfold abs; by rewrite HW|].
      apply settled_reject. eapply settled_rest; [exact Hsr|].
      destruct Hst as [S T], Hsr4 as (S4 & T4 & _). split; [by rewrite S4|]. intros x. by rewrite T4.
Qed.

Lemma insert_order_spec :
  ∃ e', insert_order rr e sym sd p r q = Some e' ∧ inserted rr e sym sd p r q e'.
Proof using Type*.
  destruct (place_spec e g sym sd p H Hb) as (e1 & idx & Hplace & Hcase). unfold insert_order.
  destruct (find_level e sym sd p) as [found|]; [|done]. simpl in Hplace |- *. rewrite Hplace. simpl.
  destruct Hcase as [Hlen Hno|i lvl Hl Hp|i e1 Hlen Hno Hc1 Hix1 Hsr Hop Hlow Hhi].
  - eexists. split; [done|]. apply (rejected_inserted _ _ g); [done|].
    rewrite room_none by done. apply Z.ltb_ge. lia.
  - by eapply insert_found.
  - by eapply insert_opened.
Qed.
End place.
End insert.
