(* ===== verification/LobCorrect.v ===== *)
(** * LobCorrect: correctness of the limit order book engine

    Every handler, and then [process_unlocked], is total on
    well-formed engines, keeps the invariant, and implements [Book.book_next]. *)

From S2P Require Import Prelude Arena OrderIndex Level LevelOps Lob LobView LobInv Book.
From S2P Require Import LobRefine LobInsert.
From Stdlib Require Import ZArith Lia.
From stdpp Require Import base tactics gmap numbers option sorting list.
Open Scope Z_scope.

(** The field widths of a [TickMsg] (all unsigned but price and quantity). *)
Definition tick_ok (tick : TickMsg) : Prop :=
  0 ≤ msg_type tick < 2 ^ 8 ∧ 0 ≤ tick_flags tick < 2 ^ 8 ∧ 0 ≤ tick_symbol tick < 2 ^ 16 ∧
  0 ≤ timestamp tick < 2 ^ 64 ∧ INT64_MIN ≤ tick_price tick ≤ INT64_MAX ∧
  INT64_MIN ≤ tick_qty tick ≤ INT64_MAX ∧ 0 ≤ order_ref tick < 2 ^ 64 ∧
  0 ≤ match_num tick < 2 ^ 64.

#[export] Instance tick_ok_dec tick : Decision (tick_ok tick).
Proof. unfold tick_ok. apply _. Defined.

(** The reference a tick would add to the index. *)
Definition new_ref (tick : TickMsg) : Z :=
  if msg_type tick =? kOrderReplace then match_num tick else order_ref tick.

Section correct.
Context {M : Type} `{!OrderIndex M} (rep : M → gmap Z OrderLocation → Prop)
  `{!OrderIndexLaws M rep}.
Implicit Types (e : LOBEngine M) (m : M) (g : gmap Z OrderLocation).
Notation lob_inv := (lob_inv rep).
Notation index_ok := (index_ok rep).

Definition rejected_after (rej : bool) (n : Z) : Z := if rej then u64 (n + 1) else n.

(** [e'] is a well-formed engine whose book is [out.1], reached from [e] with
    or without a rejection as [out.2] says. *)
Definition handled e (out : book * bool) e' : Prop :=
  (∃ g', lob_inv e' g') ∧ abs e' ≡ out.1 ∧
  stat_rejected (stats e') = rejected_after out.2 (stat_rejected (stats e)) ∧
  ∀ sym, last_timestamp_ns (meta_of e' sym) = last_timestamp_ns (meta_of e sym).

Lemma settled_rejected e e' b :
  settled e e' b → stat_rejected (stats e') = rejected_after b (stat_rejected (stats e)).
Proof using Type. intros [-> _]. by destruct b. Qed.

(** Counting another statistic first changes nothing that [handled] sees. *)
Lemma handled_count k e out e' : k ≠ SRejected → handled (count_stat k e) out e' → handled e out e'.
Proof using Type. intros Hk (H1 & H2 & H3 & H4). split_and!; try done. rewrite H3. by destruct k. Qed.

Lemma handled_reject e g B : lob_inv e g → abs e ≡ B → handled e (B, true) (count_stat SRejected e).
Proof using Type. intros H HB. split_and!; try done. exists g. by apply inv_count. Qed.

Lemma handled_same e g B : lob_inv e g → abs e ≡ B → handled e (B, false) e.
Proof using Type. intros H HB. split_and!; try done. by exists g. Qed.

Lemma valid_qty_range q : is_valid_quantity q = true → 1 ≤ q ≤ kMaxQuantity.
Proof using Type. unfold is_valid_quantity, kMinQuantity. rewrite andb_true_iff, !Z.leb_le. done. Qed.

Lemma inserted_handled rr e sym sd p r q e' :
  inserted rep rr e sym sd p r q e' → (rr = false → ix_can_insert (order_map e) r = true) →
  ∃ ok, (ix_can_insert (order_map e) r = true → ok = true) ∧
    handled e (book_place ok (abs e) sym sd p r q) e'.
Proof using Type.
  intros (g' & ok & Hinv & Hcan & Hres) Hrr. exists ok. split; [done|]. unfold book_place.
  destruct (b_room p (abs e sym sd)); simpl in *; [destruct ok|]; simpl in *;
    destruct Hres as [HB HS]; split_and!; try (by eexists); try done;
    try (by apply settled_rejected); try apply HS.
  destruct rr; [by apply settled_rejected|]. by specialize (Hcan (Hrr eq_refl)).
Qed.

(** ** The handlers *)

Lemma on_add_spec e g tick :
  lob_inv e g → tick_ok tick → tick_symbol tick < kSymbols → order_ref tick ≠ 0 →
  is_valid_quantity (tick_qty tick) = true → is_valid_price (tick_price tick) = true →
  ∃ e' ok, on_add_order e tick = Some e' ∧
    (ix_can_insert (order_map e) (order_ref tick) = true → ok = true) ∧
    handled e (book_on_add ok (abs e) tick) e'.
Proof using Type*.
  intros H Ht Hs Hr Hq Hp. unfold on_add_order. simpl.
  pose proof (inv_count rep _ _ SAdds H) as Hc. destruct (li_index _ _ _ H) as [Hrep _].
  rewrite (law_lookup _ _ _ Hrep). unfold book_on_add. rewrite (owner_abs rep e g) by done.
  destruct (g !! order_ref tick) as [loc|] eqn:Hg; simpl.
  - eexists _, true. split; [done|]. split; [done|]. eapply (handled_count SAdds); [done|].
    by apply (handled_reject _ g).
  - destruct Ht as (_ & _ & Hsym & _ & _ & _ & Href & _).
    destruct (insert_order_spec rep true (count_stat SAdds e) g (tick_symbol tick) (tick_side tick)
      (tick_price tick) (order_ref tick) (tick_qty tick)) as (e' & Hins & Hout); try done.
    + split; [lia|]. unfold tick_side. destruct (_ =? 0); auto.
    + apply valid_qty_range in Hq. split; simpl; lia.
    + destruct (inserted_handled _ _ _ _ _ _ _ _ Hout) as (ok & Hok & Hh); [done|].
      exists e', ok. split; [done|]. split; [done|]. by eapply (handled_count SAdds).
Qed.

Lemma reduce_handled e g tick k :
  lob_inv e g → k ≠ SRejected → is_valid_quantity (tick_qty tick) = true →
  ∃ e', reduce_order (count_stat k e) (order_ref tick) (tick_qty tick) = Some e' ∧
    handled e (book_reduce (abs e) (order_ref tick) (tick_qty tick), false) e'.
Proof using Type*.
  intros H Hk Hq%valid_qty_range.
  destruct (reduce_order_spec rep (count_stat k e) g (order_ref tick) (tick_qty tick))
    as (e' & g' & He' & Hinv & HB & HS); [by apply inv_count|lia|].
  exists e'. split; [done|]. apply (handled_count k); [done|].
  split_and!; [by eexists|done|by apply settled_rejected|apply HS].
Qed.

Lemma on_delete_spec e g tick :
  lob_inv e g →
  ∃ e', on_order_delete e tick = Some e' ∧
    handled e (book_remove (abs e) (order_ref tick), false) e'.
Proof using Type*.
  intros H. unfold on_order_delete. simpl. destruct (li_index _ _ _ H) as [Hrep _].
  rewrite (law_lookup _ _ _ Hrep). destruct (g !! order_ref tick) as [loc|] eqn:Hg.
  - pose proof (inv_count rep _ _ SDeletes H) as Hc.
    destruct (inv_resting rep _ g _ _ Hc Hg) as (sym & sd & i & k & lvl & l1 & l2 & s & -> & R).
    rewrite (resting_valid rep (count_stat SDeletes e) g _ sym sd i k lvl l1 l2 s) by done. simpl.
    destruct (delete_at_spec rep (count_stat SDeletes e) g _ sym sd i k lvl l1 l2 s Hc R) as (e' & g' & -> & Hrt).
    exists e'. split; [done|]. destruct Hrt. apply (handled_count SDeletes); [done|].
    split_and!; [by eexists|done|by apply settled_rejected|by destruct rt_settled].
  - eexists. split; [done|]. apply (handled_count SDeletes); [done|]. apply (handled_same _ g); [by apply inv_count|].
    intros sym sd Hb. symmetry. apply (abs_update_absent rep e g (order_ref tick)); [done|apply only_on_drop|done|].
    intros loc. congruence.
Qed.

Lemma book_place_ext ok B B' sym sd p r q :
  B ≡ B' → in_book sym sd →
  (book_place ok B sym sd p r q).1 ≡ (book_place ok B' sym sd p r q).1 ∧
  (book_place ok B sym sd p r q).2 = (book_place ok B' sym sd p r q).2.
Proof using Type.
  intros HB Hb. unfold book_place. rewrite (HB sym sd Hb). destruct (_ && _); simpl; [|done].
  split; [by apply book_add_proper|done].
Qed.

Lemma handled_chain e e1 out out' e' :
  settled e e1 false → handled e1 out e' → out.1 ≡ out'.1 → out.2 = out'.2 → handled e out' e'.
Proof using Type.
  intros [S T] (H1 & H2 & H3 & H4) E1 E2. split_and!; [done|by rewrite H2|by rewrite <- E2, H3, S|].
  intros sym. by rewrite H4, T.
Qed.

Lemma on_replace_spec e g tick :
  lob_inv e g → tick_ok tick → match_num tick ≠ 0 → order_ref tick ≠ match_num tick →
  is_valid_quantity (tick_qty tick) = true → is_valid_price (tick_price tick) = true →
  ∃ e' ok, on_order_replace e tick = Some e' ∧
    ok = ix_can_insert (order_map e) (match_num tick) ∧
    handled e (book_on_replace ok (abs e) tick) e'.
Proof using Type*.
  intros H Ht Hm Hne Hq Hp. unfold on_order_replace, book_on_replace. simpl.
  pose proof (inv_count rep _ _ SReplaces H) as Hc. destruct (li_index _ _ _ H) as [Hrep _].
  rewrite (law_lookup _ _ _ Hrep), (owner_abs rep e g) by done.
  destruct (g !! order_ref tick) as [loc|] eqn:Hg; simpl.
  2:{ eexists _, _. split; [done|]. split; [done|]. apply (handled_count SReplaces); [done|].
      by apply (handled_reject _ g). }
  destruct (inv_resting rep _ g _ _ Hc Hg) as (sym & sd & i & k & lvl & l1 & l2 & s & -> & R).
  rewrite (resting_valid rep (count_stat SReplaces e) g _ sym sd i k lvl l1 l2 s) by done. simpl.
  destruct (ix_can_insert (order_map e) (match_num tick)) eqn:Hcan; simpl.
  2:{ eexists _, false. split; [done|]. split; [done|]. apply (handled_count SReplaces); [done|].
      by apply (handled_reject _ g). }
  destruct (delete_at_spec rep (count_stat SReplaces e) g _ sym sd i k lvl l1 l2 s Hc R)
    as (e1 & g1 & -> & [Hinv1 HB1 HS1 HK1 HC1]). simpl.
  pose proof (rs_book _ _ _ _ _ _ _ _ _ _ _ R) as Hb.
  destruct Ht as (_ & _ & _ & _ & _ & _ & _ & Hmr). apply valid_qty_range in Hq.
  destruct (insert_order_spec rep false e1 g1 sym sd (tick_price tick) (match_num tick) (tick_qty tick))
    as (e' & Hins & Hout); try done.
  - split; simpl; lia.
  - apply HK1. right. by eapply law_can_insert_fresh.
  - exists e', true. split; [done|]. split; [done|].
    destruct (inserted_handled _ _ _ _ _ _ _ _ Hout) as (ok & Hok & Hh); [intros _; by apply HC1|].
    rewrite (Hok (HC1 _ Hcan)) in Hh. apply (handled_count SReplaces); [done|].
    destruct (book_place_ext true (abs e1) (book_remove (abs e) (order_ref tick)) sym sd
      (tick_price tick) (match_num tick) (tick_qty tick)) as [E1 E2]; [done|done|].
    by eapply handled_chain.
Qed.

(** ** Dispatch *)

(** Refreshing a symbol's clock leaves its book alone. *)
Definition touch e sym ts : LOBEngine M :=
  set_meta e sym (mkMeta (bid_levels (meta_of e sym)) (ask_levels (meta_of e sym)) ts).

Lemma touch_count e sym ts sym' sd : level_count (touch e sym ts) sym' sd = level_count e sym' sd.
Proof using Type.
  unfold level_count, touch, meta_of. simpl. rewrite aget_insert. by case_decide; subst.
Qed.

Lemma touch_levels e sym ts sym' sd : levels (touch e sym ts) sym' sd = levels e sym' sd.
Proof using Type. unfold levels. by rewrite touch_count. Qed.

Lemma touch_inv e g sym ts : lob_inv e g → lob_inv (touch e sym ts) g.
Proof using Type.
  intros H. eapply (inv_view rep e); [done| | |].
  - intros sym' sd' Hb. rewrite touch_count. by apply H.
  - destruct (li_index _ _ _ H) as [Hrep Hg]. split; [done|]. intros r loc. rewrite Hg.
    rewrite !located_holds. by setoid_rewrite touch_levels.
  - intros. apply touch_levels.
Qed.

Lemma touch_abs e sym ts : abs (touch e sym ts) ≡ abs e.
Proof using Type. intros sym' sd' _. unfold abs. by rewrite touch_levels. Qed.

Lemma owner_touch e sym ts r : owner (abs (touch e sym ts)) r = owner (abs e) r.
Proof using Type. by rewrite (touch_abs e sym ts). Qed.

(** [book_next] respects book equality. *)
Lemma book_next_ext ok B B' tick :
  0 ≤ tick_symbol tick → B ≡ B' →
  (book_next ok B tick).1 ≡ (book_next ok B' tick).1 ∧ (book_next ok B tick).2 = (book_next ok B' tick).2.
Proof using Type.
  intros Hs HB. unfold book_next. destruct (Z.leb_spec kSymbols (tick_symbol tick)); [done|].
  assert (Hb : in_book (tick_symbol tick) (tick_side tick)).
  { split; [lia|]. unfold tick_side. destruct (_ =? 0); auto. }
  repeat (match goal with |- context [if ?b then _ else _] => destruct b end); simpl; try done.
  - unfold book_on_add. rewrite HB. destruct (owner B' _); [done|]. by apply book_place_ext.
  - split; [by rewrite HB|done].
  - split; [by rewrite HB|done].
  - unfold book_on_replace. rewrite HB. destruct (owner B' _) as [[sym sd]|] eqn:E; [|done].
    destruct ok; simpl; [|done]. apply book_place_ext; [by rewrite HB|]. by apply owner_Some in E as [? _].
Qed.

(** The switch of [process_unlocked], after the clock update. *)
Definition dispatch e (tick : TickMsg) : option (LOBEngine M) :=
  let t := msg_type tick in
  if (t =? kAddOrder) || (t =? kAddOrderMPID) then
    if (order_ref tick =? 0) || negb (is_valid_quantity (tick_qty tick)) ||
       negb (is_valid_price (tick_price tick))
    then Some (count_stat SRejected e) else on_add_order e tick
  else if (t =? kOrderExecuted) || (t =? kOrderExecPrice) then
    if (order_ref tick =? 0) || negb (is_valid_quantity (tick_qty tick))
    then Some (count_stat SRejected e) else on_order_executed e tick
  else if t =? kOrderCancel then
    if (order_ref tick =? 0) || negb (is_valid_quantity (tick_qty tick))
    then Some (count_stat SRejected e) else on_order_cancel e tick
  else if t =? kOrderDelete then
    if order_ref tick =? 0 then Some (count_stat SRejected e) else on_order_delete e tick
  else if t =? kOrderReplace then
    if (order_ref tick =? 0) || (match_num tick =? 0) || (order_ref tick =? match_num tick) ||
       negb (is_valid_quantity (tick_qty tick)) || negb (is_valid_price (tick_price tick))
    then Some (count_stat SRejected e) else on_order_replace e tick
  else if t =? kTrade then
    if negb (is_valid_quantity (tick_qty tick)) || negb (is_valid_price (tick_price tick))
    then Some (count_stat SRejected e) else on_trade e tick
  else Some (count_stat SRejected e).

Lemma process_dispatch e tick :
  process_unlocked e tick =
    if kSymbols <=? tick_symbol tick then Some (count_stat SRejected e)
    else dispatch (if 0 <? timestamp tick then touch e (tick_symbol tick) (timestamp tick) else e) tick.
Proof using Type. done. Qed.

(** A guard [b] that rejects, against the rest of a branch. *)
Lemma guarded e g (b : bool) (X : option (LOBEngine M)) out r0 :
  lob_inv e g →
  (b = false → ∃ e' ok, X = Some e' ∧ (ix_can_insert (order_map e) r0 = true → ok = true) ∧
                  handled e (out ok) e') →
  ∃ e' ok, (if b then Some (count_stat SRejected e) else X) = Some e' ∧
    (ix_can_insert (order_map e) r0 = true → ok = true) ∧
    handled e (if b then (abs e, true) else out ok) e'.
Proof using Type.
  intros H HX. destruct b; [|by apply HX]. exists (count_stat SRejected e), true.
  split; [done|]. split; [done|]. by apply (handled_reject _ g).
Qed.

Lemma dispatch_spec e g tick :
  lob_inv e g → tick_ok tick → tick_symbol tick < kSymbols →
  ∃ e' ok, dispatch e tick = Some e' ∧
    (ix_can_insert (order_map e) (new_ref tick) = true → ok = true) ∧
    handled e (book_next ok (abs e) tick) e'.
Proof using Type*.
  intros H Ht Hs. unfold dispatch, book_next. rewrite (proj2 (Z.leb_gt _ _)) by done.
  destruct (_ || _) eqn:Eadd; [|destruct ((_ =? kOrderExecuted) || _) eqn:Eex; simpl;
    [|destruct (_ =? kOrderCancel) eqn:Ecan; [|destruct (_ =? kOrderDelete) eqn:Edel;
    [|destruct (_ =? kOrderReplace) eqn:Erep; [|destruct (_ =? kTrade) eqn:Etr]]]]]; simpl.
  - apply (guarded e g _ _ (λ ok, book_on_add ok (abs e) tick)); [done|].
    intros [[Hr%Z.eqb_neq Hq%negb_false_iff]%orb_false_iff Hp%negb_false_iff]%orb_false_iff.
    assert (new_ref tick = order_ref tick) as ->; [|by eapply on_add_spec].
    unfold new_ref. by apply orb_true_iff in Eadd as [E%Z.eqb_eq|E%Z.eqb_eq]; rewrite E.
  - apply (guarded e g _ _ (λ _, (book_reduce (abs e) (order_ref tick) (tick_qty tick), false))); [done|].
    intros [_ Hq%negb_false_iff]%orb_false_iff.
    destruct (reduce_handled e g tick SExecutes) as (e' & He' & Hh); [done..|]. by exists e', true.
  - apply (guarded e g _ _ (λ _, (book_reduce (abs e) (order_ref tick) (tick_qty tick), false))); [done|].
    intros [_ Hq%negb_false_iff]%orb_false_iff.
    destruct (reduce_handled e g tick SCancels) as (e' & He' & Hh); [done..|]. by exists e', true.
  - apply (guarded e g _ _ (λ _, (book_remove (abs e) (order_ref tick), false))); [done|]. intros _.
    destruct (on_delete_spec e g tick H) as (e' & He' & Hh). by exists e', true.
  - apply (guarded e g _ _ (λ ok, book_on_replace ok (abs e) tick)); [done|].
    intros [[[[_ Hm%Z.eqb_neq]%orb_false_iff Hne%Z.eqb_neq]%orb_false_iff Hq%negb_false_iff]%orb_false_iff
      Hp%negb_false_iff]%orb_false_iff.
    destruct (on_replace_spec e g tick) as (e' & ok & He' & Hok & Hh); [done..|].
    exists e', ok. split; [done|]. split; [|done]. unfold new_ref. rewrite Erep. congruence.
  - destruct (negb (is_valid_quantity (tick_qty tick)) || _) eqn:Eb; simpl; eexists _, true;
      (split; [done|]); (split; [done|]).
    + by apply (handled_reject _ g).
    + apply (handled_count STrades); [done|]. apply (handled_same _ g); [by apply inv_count|done].
  - eexists _, true. split; [done|]. split; [done|]. by apply (handled_reject _ g).
Qed.

(** The clock a tick leaves behind. *)
Definition clock_after e (tick : TickMsg) (sym : Z) : Z :=
  if (tick_symbol tick <? kSymbols) && (0 <? timestamp tick) && (sym =? tick_symbol tick)
  then timestamp tick else last_timestamp_ns (meta_of e sym).

(** One tick: the engine returns, stays well formed, and does what the
    abstract book does. *)
Record step_ok e tick e' (ok : bool) : Prop := mk_step {
  st_inv : ∃ g', lob_inv e' g';
  st_can : ix_can_insert (order_map e) (new_ref tick) = true → ok = true;
  st_abs : abs e' ≡ (book_next ok (abs e) tick).1;
  st_rej : stat_rejected (stats e') =
             rejected_after (book_next ok (abs e) tick).2 (stat_rejected (stats e));
  st_clock : ∀ sym, last_timestamp_ns (meta_of e' sym) = clock_after e tick sym
}.

Lemma process_spec e g tick :
  lob_inv e g → tick_ok tick → ∃ e' ok, process_unlocked e tick = Some e' ∧ step_ok e tick e' ok.
Proof using Type*.
  intros H Ht. rewrite process_dispatch. pose proof (Ht) as (_ & _ & Hsym & _).
  destruct (Z.leb_spec kSymbols (tick_symbol tick)) as [Hge|Hlt].
  { eexists _, true. split; [done|].
    assert (book_next true (abs e) tick = (abs e, true)) as Hn.
    { unfold book_next. by rewrite (proj2 (Z.leb_le _ _)) by done. }
    split; rewrite ?Hn; try done; [exists g; by apply inv_count|].
    intros sym. unfold clock_after. by rewrite (proj2 (Z.ltb_ge _ _)) by done. }
  set (e0 := if 0 <? timestamp tick then _ else e).
  assert (H0 : lob_inv e0 g ∧ abs e0 ≡ abs e ∧ stats e0 = stats e ∧ order_map e0 = order_map e ∧
    ∀ sym, last_timestamp_ns (meta_of e0 sym) = clock_after e tick sym).
  { unfold e0, clock_after. rewrite (proj2 (Z.ltb_lt (tick_symbol tick) kSymbols)) by done.
    destruct (0 <? timestamp tick); simpl; [|by split_and!].
    split_and!; [by apply touch_inv|apply touch_abs|done|done|]. intros sym.
    unfold touch, meta_of. simpl. rewrite aget_insert.
    destruct (Z.eqb_spec sym (tick_symbol tick)) as [->|]; case_decide; done || congruence. }
  destruct H0 as (Hinv & HB & HS & HM & HC).
  destruct (dispatch_spec e0 g tick Hinv Ht Hlt) as (e' & ok & He' & Hok & (Hg & HA & HR & HT)).
  destruct (book_next_ext ok (abs e0) (abs e) tick) as [E1 E2]; [lia|done|].
  exists e', ok. split; [done|]. split.
  - done.
  - by rewrite <- HM.
  - by rewrite HA.
  - by rewrite HR, HS, E2.
  - intros sym. by rewrite HT.
Qed.
End correct.
