(* ===== verification/LobQueries.v ===== *)
(** * LobQueries: initialisation, book state queries and time priority *)

From S2P Require Import Prelude Arena OrderIndex Level LevelOps Lob LobView LobInv Book.
From S2P Require Import LobRefine LobInsert LobCorrect.
From Stdlib Require Import ZArith Lia.
From stdpp Require Import base tactics gmap numbers option sorting list.
Open Scope Z_scope.

(** ** What the queries mean on the abstract book *)

Definition side_best (b : side_book) : Z := match b with [] => 0 | x :: _ => x.1 end.

Definition side_depth (n : nat) (b : side_book) : Z := foldr (λ x acc, qsum x.2 + acc) 0 (take n b).

Definition side_refs (b : side_book) : list Z := b ≫= λ x, x.2.*1.

Definition book_refs (B : book) : list Z := all_sides ≫= λ s, side_refs (B s.1 s.2).

Section queries.
Context {M : Type} `{!OrderIndex M} (rep : M → gmap Z OrderLocation → Prop)
  `{!OrderIndexLaws M rep}.
Implicit Types (e : LOBEngine M) (m : M) (g : gmap Z OrderLocation).
Notation lob_inv := (lob_inv rep).

(** ** Initialisation *)

Lemma init_inv lob m e :
  rep m ∅ → LOBEngine_init true lob (Some m) = Some e → lob_inv e ∅ ∧ abs e ≡ λ _ _, [].
Proof using Type*.
  intros Hm [= <-].
  assert (Hl : ∀ sym sd, levels (mkLob lob m ∅ LobStats_zero) sym sd = []).
  { intros sym sd. unfold levels, level_count, meta_of, aget. simpl. by destruct (sd =? 0). }
  assert (Hc : counts_ok (mkLob lob m ∅ LobStats_zero)).
  { intros sym sd _. unfold level_count, meta_of, aget. simpl. by destruct (sd =? 0). }
  split; [split|].
  - done.
  - split; [done|]. intros r loc. rewrite lookup_empty. split; [done|].
    intros [? ? ? ? ? ? ? Hi]. by rewrite Hl in Hi.
  - intros sym sd _. rewrite Hl. constructor.
  - intros sym sd _ i j l l' _ Hi. by rewrite Hl in Hi.
  - intros sym sd _. unfold abs. by rewrite Hl.
Qed.

(** ** Queries *)

Lemma abs_length e g sym sd :
  lob_inv e g → in_book sym sd → Z.of_nat (length (abs e sym sd)) = level_count e sym sd.
Proof using Type.
  intros H Hb. unfold abs. rewrite length_fmap. apply levels_length; [apply H|done].
Qed.

Lemma best_price_spec e g sym sd :
  lob_inv e g → in_book sym sd → best_price e sym sd = Some (side_best (abs e sym sd)).
Proof using Type.
  intros H Hb. unfold best_price. rewrite (proj2 (Z.leb_gt _ _)) by apply Hb.
  pose proof (levels_length e sym sd (li_counts _ _ _ H) Hb) as Hlen. unfold abs.
  destruct (levels e sym sd) as [|l ls] eqn:E; simpl in *.
  - by rewrite (proj2 (Z.eqb_eq _ _)) by lia.
  - rewrite (proj2 (Z.eqb_neq _ _)) by lia.
    change 0 with (Z.of_nat 0). rewrite (levels_level e sym sd 0 l); [done|apply H|done|by rewrite E].
Qed.

(** No resting order ranks ahead of the best price. *)
Lemma side_best_extremal e g sym sd x :
  lob_inv e g → in_book sym sd → x ∈ abs e sym sd →
  is_valid_price x.1 = true ∧ ¬ before sd x.1 (side_best (abs e sym sd)).
Proof using Type.
  intros H Hb (i & Hi)%list_elem_of_lookup_1. split.
  - apply abs_lookup in Hi as (l & Hl & ->). by apply (inv_level_ok rep e g sym sd i l).
  - pose proof (abs_sorted rep e g sym sd H Hb) as Hs.
    destruct (abs e sym sd) as [|y b]; [done|]. destruct i as [|i]; simpl in *.
    + injection Hi as ->. apply before_irrefl.
    + intros Hbf. pose proof (Hs 0%nat (S i) y x ltac:(lia) eq_refl Hi).
      by apply (before_irrefl sd x.1), (before_trans sd x.1 y.1).
Qed.

Lemma side_depth_S n b x : b !! n = Some x → side_depth (S n) b = side_depth n b + qsum x.2.
Proof using Type.
  unfold side_depth. intros Hx. rewrite (take_S_r _ _ _ Hx). rewrite foldr_app. simpl.
  generalize (take n b). induction l as [|y l IH]; simpl; [lia|]. rewrite IH. lia.
Qed.

Lemma level_total_queue e g sym sd i lvl :
  lob_inv e g → in_book sym sd → levels e sym sd !! i = Some lvl →
  total_qty lvl = qsum (level_queue lvl) ∧ 0 ≤ total_qty lvl ≤ kMaxQuantity * kMaxOrdersPerLevel.
Proof using Type.
  intros H Hb Hl. destruct (inv_level_ok rep e g sym sd i lvl H Hb Hl) as [(ids & Hwf & _) _].
  rewrite (wf_queue _ _ _ Hwf). split; [apply Hwf|by eapply wf_total_bounds].
Qed.

Lemma depth_loop_spec e g sym sd n i total :
  lob_inv e g → in_book sym sd → (i + n ≤ length (levels e sym sd))%nat →
  total = side_depth i (abs e sym sd) →
  0 ≤ total ≤ Z.of_nat i * (kMaxQuantity * kMaxOrdersPerLevel) →
  depth_loop n e sym sd (Z.of_nat i) total = Some (side_depth (i + n) (abs e sym sd)).
Proof using Type.
  intros H Hb. revert i total. induction n as [|n IH]; intros i total Hn Htot Hbd; cbn [depth_loop].
  { by rewrite Nat.add_0_r, Htot. }
  destruct (lookup_lt_is_Some_2 (levels e sym sd) i) as [l Hl]; [lia|].
  rewrite (levels_level e sym sd i l) by (done || apply H). simpl.
  destruct (level_total_queue e g sym sd i l H Hb Hl) as [Hq Hr].
  pose proof (levels_length e sym sd (li_counts _ _ _ H) Hb). pose proof (li_counts _ _ _ H sym sd Hb).
  assert (kMaxQuantity * kMaxOrdersPerLevel = 16000000000 ∧ kLevelsPerSide = 1024) as [E1 E2] by done.
  rewrite chk64_ok by (unfold INT64_MIN, INT64_MAX; nia). simpl.
  replace (Z.of_nat i + 1) with (Z.of_nat (S i)) by lia. rewrite <- Nat.add_succ_comm.
  apply IH; [lia| |nia].
  rewrite (side_depth_S i _ (abs_level l)) by (apply abs_lookup; eauto). simpl. congruence.
Qed.

Lemma depth_qty_spec e g sym sd n :
  lob_inv e g → in_book sym sd → 0 ≤ n →
  depth_qty e sym sd n = Some (side_depth (Z.to_nat n) (abs e sym sd)).
Proof using Type.
  intros H Hb Hn. unfold depth_qty. rewrite (proj2 (Z.leb_gt _ _)) by apply Hb.
  pose proof (abs_length e g sym sd H Hb) as Hlen.
  pose proof (levels_length e sym sd (li_counts _ _ _ H) Hb) as Hlen2.
  set (k := if n <? level_count e sym sd then n else level_count e sym sd).
  assert (Hk : Z.of_nat (Z.to_nat k) = Z.min n (level_count e sym sd)).
  { unfold k. destruct (Z.ltb_spec n (level_count e sym sd)); lia. }
  change 0 with (Z.of_nat 0) at 1. rewrite (depth_loop_spec e g sym sd _ 0) by (done || lia).
  f_equal. unfold side_depth. f_equal.
  destruct (Z.le_gt_cases n (level_count e sym sd)).
  - f_equal. lia.
  - rewrite !take_ge by lia. done.
Qed.

(** ** The index counts the resting orders *)

Lemma elem_of_book_refs e g r : lob_inv e g → r ∈ book_refs (abs e) ↔ is_Some (g !! r).
Proof using Type*.
  intros H. unfold book_refs, side_refs. rewrite list_elem_of_bind. split.
  - intros ([sym sd] & Hin & Hs). simpl in *. apply list_elem_of_In, all_sides_spec in Hs.
    apply list_elem_of_bind in Hin as (x & Hr & Hx). apply list_elem_of_lookup_1 in Hx as [i Hi].
    destruct (proj1 (abs_mentions rep e g sym sd i x r H Hs Hi) Hr) as [j Hj]. by exists (mkLoc sym sd (Z.of_nat i) (Z.of_nat j)).
  - intros [loc Hr]. destruct (inv_resting rep e g r loc H Hr) as (sym & sd & i & k & lvl & l1 & l2 & s & -> & R).
    pose proof (rs_book _ _ _ _ _ _ _ _ _ _ _ R) as Hb.
    exists (sym, sd). simpl. split; [|by apply list_elem_of_In, all_sides_spec].
    assert (Hi : abs e sym sd !! i = Some (abs_level lvl))
      by (apply abs_lookup; exists lvl; split; [apply R|done]).
    apply list_elem_of_bind. exists (abs_level lvl). split; [|by eapply list_elem_of_lookup_2].
    apply (abs_mentions rep e g sym sd i _ r H Hb Hi). by eexists.
Qed.

Lemma level_refs_NoDup e g sym sd i x :
  lob_inv e g → in_book sym sd → abs e sym sd !! i = Some x → NoDup x.2.*1.
Proof using Type.
  intros H Hb (lvl & Hl & ->)%abs_lookup.
  destruct (inv_level_ok rep e g sym sd i lvl H Hb Hl) as [(ids & Hwf & _) _].
  pose proof (lw_links _ _ _ Hwf) as Hlk. simpl. rewrite (wf_queue _ _ _ Hwf). unfold queue.
  rewrite <- list_fmap_compose. apply NoDup_fmap_2_strong; [|apply Hlk].
  destruct (li_index _ _ _ H) as [_ Hg].
  assert (Hloc : ∀ j, j ∈ ids → g !! (entry (orders lvl) j).1 = Some (mkLoc sym sd (Z.of_nat i) (Z.of_nat j))).
  { intros j Hj. apply Hg, located_mk. split; [done|]. exists lvl. split; [done|].
    by apply (holds_links _ _ _ _ _ Hlk). }
  intros j1 j2 H1 H2 E. simpl in E. pose proof (Hloc j1 H1) as L1. rewrite E, (Hloc j2 H2) in L1.
  injection L1. lia.
Qed.

Lemma sorted_side_NoDup sd b : sorted_side sd b → NoDup b.
Proof using Type.
  intros Hs. apply NoDup_alt. intros i j x Hi Hj.
  destruct (lt_eq_lt_dec i j) as [[Hlt|]|Hlt]; [|done|]; exfalso.
  - by apply (before_irrefl sd x.1), (Hs i j x x).
  - by apply (before_irrefl sd x.1), (Hs j i x x).
Qed.

Lemma all_sides_NoDup : NoDup all_sides.
Proof using Type. apply (bool_decide_unpack _). by vm_compute. Qed.

Lemma book_refs_NoDup e g : lob_inv e g → NoDup (book_refs (abs e)).
Proof using Type*.
  intros H. apply NoDup_bind; [| |apply all_sides_NoDup].
  - intros [sym sd] [sym' sd'] r H1 H2 H3 H4. simpl in *.
    apply list_elem_of_In, all_sides_spec in H1, H2.
    apply list_elem_of_bind in H3 as (x & Hx & Hi). apply list_elem_of_lookup_1 in Hi as [i Hi].
    apply list_elem_of_bind in H4 as (y & Hy & Hj). apply list_elem_of_lookup_1 in Hj as [j Hj].
    destruct (proj1 (abs_mentions rep e g _ _ _ _ r H H1 Hi) Hx) as [a Ha].
    destruct (proj1 (abs_mentions rep e g _ _ _ _ r H H2 Hj) Hy) as [b Hb]. congruence.
  - intros [sym sd] Hs. apply list_elem_of_In, all_sides_spec in Hs. simpl.
    apply NoDup_bind; [| |apply (sorted_side_NoDup sd); by eapply abs_sorted].
    + intros x y r Hi Hj Hx Hy. apply list_elem_of_lookup_1 in Hi as [i Hi].
      apply list_elem_of_lookup_1 in Hj as [j Hj].
      destruct (proj1 (abs_mentions rep e g _ _ _ _ r H Hs Hi) Hx) as [a Ha].
      destruct (proj1 (abs_mentions rep e g _ _ _ _ r H Hs Hj) Hy) as [b Hb].
      rewrite Ha in Hb. injection Hb as ? ?. assert (i = j) as -> by lia. congruence.
    + intros x Hi. apply list_elem_of_lookup_1 in Hi as [i Hi]. by eapply level_refs_NoDup.
Qed.

Lemma active_count_spec e g :
  lob_inv e g → active_order_count e = Z.of_nat (length (book_refs (abs e))).
Proof using Type*.
  intros H. unfold active_order_count. destruct (li_index _ _ _ H) as [Hrep _].
  rewrite (law_size _ _ Hrep). f_equal. rewrite <- size_dom.
  rewrite <- (size_list_to_set (C := gset Z)) by (by eapply book_refs_NoDup).
  apply set_size_proper. intros r. rewrite elem_of_dom, elem_of_list_to_set.
  symmetry. by apply elem_of_book_refs.
Qed.
End queries.

(** ** Time priority *)

Definition queue_at (p : Z) (b : side_book) : list (Z * Z) :=
  match list_find (λ x, x.1 = p) b with Some (_, x) => x.2 | None => [] end.

Lemma queue_at_cons p x b : queue_at p (x :: b) = if decide (x.1 = p) then x.2 else queue_at p b.
Proof.
  unfold queue_at. simpl. destruct (decide (x.1 = p)); [done|].
  by destruct (list_find _ b) as [[? ?]|].
Qed.

Lemma queue_at_absent sd p b : (∀ x, x ∈ b → before sd p x.1) → queue_at p b = [].
Proof.
  intros Hp. unfold queue_at. destruct (list_find _ b) as [[i x]|] eqn:E; [|done].
  apply list_find_Some in E as (Hx & <- & _). apply list_elem_of_lookup_2, Hp, before_irrefl in Hx. done.
Qed.

Lemma sorted_head sd x b : sorted_side sd (x :: b) → ∀ y, y ∈ b → before sd x.1 y.1.
Proof. intros Hs y (i & Hi)%list_elem_of_lookup_1. by apply (Hs 0%nat (S i)); [lia|..]. Qed.

Lemma queue_at_update f p sd b :
  sorted_side sd b → f [] = [] → queue_at p (b_update f b) = f (queue_at p b).
Proof.
  intros Hs Hf. induction b as [|[p' qs] b IH]; [by symmetry|].
  pose proof (sorted_head _ _ _ Hs) as Hh. apply sorted_side_tail in Hs. specialize (IH Hs).
  change ((p', qs) :: b) with ([(p', qs)] ++ b). rewrite b_update_app.
  assert (Hno : p' = p → queue_at p (b_update f b) = []).
  { intros ->. rewrite IH, (queue_at_absent sd); [done|]. apply Hh. }
  unfold b_update at 1. simpl. destruct (decide (f qs = [])) as [E|E].
  - rewrite filter_cons_False by naive_solver. simpl. rewrite queue_at_cons. simpl.
    case_decide as Hp; [|done]. by rewrite Hno.
  - rewrite filter_cons_True by done. simpl. rewrite !queue_at_cons. simpl. by case_decide.
Qed.

Lemma queue_at_add sd p o p' b :
  sorted_side sd b →
  queue_at p' (b_add sd p o b) = if decide (p' = p) then queue_at p b ++ [o] else queue_at p' b.
Proof.
  intros Hs. induction b as [|[p1 qs] b IH]; simpl.
  { rewrite queue_at_cons. simpl. repeat case_decide; congruence. }
  pose proof (sorted_head _ _ _ Hs) as Hh. apply sorted_side_tail in Hs. specialize (IH Hs).
  destruct (Z.eqb_spec p p1) as [<-|Hne]; [|destruct (beforeb_spec sd p p1) as [Hb|_]].
  - rewrite !queue_at_cons. simpl. repeat case_decide; congruence.
  - rewrite queue_at_cons. simpl. destruct (decide (p = p')) as [<-|Hp].
    + rewrite decide_True by done. rewrite (queue_at_absent sd); [done|].
      intros x [->|Hx]%elem_of_cons; [done|]. eapply before_trans; [exact Hb|]. by apply Hh.
    + by rewrite decide_False by congruence.
  - rewrite !queue_at_cons, IH. simpl. repeat case_decide; congruence.
Qed.

Lemma drop_order_refs r qs : (drop_order r qs).*1 `sublist_of` qs.*1.
Proof. apply fmap_sublist, sublist_filter. Qed.

Lemma reduce_qty_refs r d qs : (reduce_order_qty r d qs).*1 `sublist_of` qs.*1.
Proof.
  unfold reduce_order_qty. etrans; [apply fmap_sublist, sublist_filter|].
  rewrite <- list_fmap_compose. erewrite list_fmap_ext; [done|]. intros i o _. simpl. by case_decide.
Qed.

Lemma sorted_side_cons sd x b :
  (∀ y, y ∈ b → before sd x.1 y.1) → sorted_side sd b → sorted_side sd (x :: b).
Proof.
  intros Hx Hs [|i] [|j] u v Hij Hi Hj; simpl in *; try lia.
  - simplify_eq. apply Hx. by eapply list_elem_of_lookup_2.
  - apply (Hs i j); [lia|done..].
Qed.

Lemma b_update_prices f b y : y ∈ b_update f b → ∃ x, x ∈ b ∧ x.1 = y.1.
Proof.
  unfold b_update. rewrite list_elem_of_filter. intros [_ Hy].
  apply list_elem_of_fmap_1 in Hy as (x & -> & Hx). by exists x.
Qed.

Lemma b_update_sorted f sd b : sorted_side sd b → sorted_side sd (b_update f b).
Proof.
  intros Hs. induction b as [|x b IH]; [done|]. pose proof (sorted_head _ _ _ Hs) as Hh.
  apply sorted_side_tail in Hs. change (x :: b) with ([x] ++ b). rewrite b_update_app.
  unfold b_update at 1. simpl. destruct (decide (f x.2 = [])) as [E|E].
  - rewrite filter_cons_False by naive_solver. simpl. auto.
  - rewrite filter_cons_True by done. simpl. apply sorted_side_cons; [|auto].
    intros y (z & Hz & <-)%b_update_prices. by apply Hh.
Qed.

(** What a tick may do to the queue of one price, said of the references in it.
    [arriving] is the order a tick puts into the book; [leaves tick o] says that
    the tick takes the resting order [o] out: it names [o] and deletes or
    replaces it, or executes or cancels all that is left of it. *)
Definition arriving (tick : TickMsg) : option Z :=
  if decide (msg_type tick = kAddOrder ∨ msg_type tick = kAddOrderMPID) then Some (order_ref tick)
  else if decide (msg_type tick = kOrderReplace) then Some (match_num tick)
  else None.

Definition leaves (tick : TickMsg) (o : Z * Z) : Prop :=
  o.1 = order_ref tick ∧
  (msg_type tick = kOrderDelete ∨ msg_type tick = kOrderReplace ∨
   (msg_type tick = kOrderExecuted ∨ msg_type tick = kOrderExecPrice ∨ msg_type tick = kOrderCancel) ∧
   o.2 ≤ tick_qty tick).

(** [q'] is [q] less the orders that leave, in the order they had, with at most
    the arriving order behind them. *)
Record keeps_priority (tick : TickMsg) (q q' : list (Z * Z)) (kept new : list Z) : Prop := {
  kp_queue : q'.*1 = kept ++ new;
  kp_order : kept `sublist_of` q.*1;
  kp_stay : ∀ o, o ∈ q → o.1 ∈ kept ∨ leaves tick o;
  kp_tail : new = [] ∨ ∃ r, arriving tick = Some r ∧ new = [r]
}.

Lemma priority_same tick q : ∃ kept new, keeps_priority tick q q kept new.
Proof.
  exists q.*1, []. split; [by rewrite app_nil_r|done| |by left].
  intros o Ho. left. by apply list_elem_of_fmap_2.
Qed.

Lemma priority_kept tick q q' :
  q'.*1 `sublist_of` q.*1 → (∀ o, o ∈ q → o.1 ∈ q'.*1 ∨ leaves tick o) →
  ∃ kept new, keeps_priority tick q q' kept new.
Proof. intros H1 H2. exists q'.*1, []. split; [by rewrite app_nil_r|done|done|by left]. Qed.

Lemma drop_order_stay r qs o : o ∈ qs → o.1 ∈ (drop_order r qs).*1 ∨ o.1 = r.
Proof.
  intros Ho. destruct (decide (o.1 = r)); [by right|]. left. apply list_elem_of_fmap_2.
  by apply list_elem_of_filter.
Qed.

Lemma reduce_qty_stay r d qs o :
  Forall good_entry qs → o ∈ qs → o.1 ∈ (reduce_order_qty r d qs).*1 ∨ o.1 = r ∧ o.2 ≤ d.
Proof.
  intros Hg Ho. pose proof (proj1 (Forall_forall _ _) Hg o Ho) as [_ Hq].
  destruct (decide (o.1 = r ∧ o.2 ≤ d)) as [Hl|Hl]; [by right|left].
  apply list_elem_of_fmap. exists (if decide (o.1 = r) then (o.1, o.2 - Z.min d o.2) else o).
  split; [by case_decide|]. apply list_elem_of_filter. split; [|apply list_elem_of_fmap; by exists o].
  case_decide; simpl; [|lia]. assert (d < o.2) by naive_solver lia. lia.
Qed.

(** A queue that has lost some orders and may have been joined by another. *)
Lemma place_priority tick ok B sym sd p r x sym' sd' p' q :
  sorted_side sd' (B sym' sd') → arriving tick = Some r →
  (queue_at p' (B sym' sd')).*1 `sublist_of` q.*1 →
  (∀ o, o ∈ q → o.1 ∈ (queue_at p' (B sym' sd')).*1 ∨ leaves tick o) →
  ∃ kept new,
    keeps_priority tick q (queue_at p' ((book_place ok B sym sd p r x).1 sym' sd')) kept new.
Proof.
  intros Hs Ha H1 H2. unfold book_place. destruct (_ && _); [|by apply priority_kept]. simpl.
  unfold book_add, upd_side. destruct (decide ((sym', sd') = (sym, sd))) as [Hd|Hd]; [|by apply priority_kept].
  injection Hd as -> ->. rewrite queue_at_add by done. case_decide as Hp; [|by apply priority_kept].
  subst. exists (queue_at p (B sym sd)).*1, [r]. split; [by rewrite fmap_app|done|done|]. right. by exists r.
Qed.

Lemma book_next_priority ok B tick sym sd p :
  (∀ sym sd, in_book sym sd → sorted_side sd (B sym sd)) → in_book sym sd →
  Forall good_entry (queue_at p (B sym sd)) →
  ∃ kept new,
    keeps_priority tick (queue_at p (B sym sd)) (queue_at p ((book_next ok B tick).1 sym sd)) kept new.
Proof.
  intros Hs Hb Hg. unfold book_next. destruct (kSymbols <=? tick_symbol tick); [apply priority_same|].
  destruct (_ || _) eqn:Eadd.
  { rewrite orb_true_iff, !Z.eqb_eq in Eadd. case_cond; [apply priority_same|]. unfold book_on_add.
    destruct (owner B _); [apply priority_same|].
    apply place_priority; [by apply Hs|by unfold arriving; rewrite decide_True|done|].
    intros o Ho. left. by apply list_elem_of_fmap_2. }
  clear Eadd. destruct (_ || _) eqn:Ered.
  { rewrite !orb_true_iff, !Z.eqb_eq in Ered. case_cond; [apply priority_same|]. simpl. unfold book_reduce.
    rewrite (queue_at_update _ _ sd) by (done || auto). apply priority_kept; [apply reduce_qty_refs|].
    intros o Ho. destruct (reduce_qty_stay (order_ref tick) (tick_qty tick) _ o Hg Ho) as [|[? ?]]; [by left|right].
    split; [done|]. tauto. }
  clear Ered. destruct (Z.eqb_spec (msg_type tick) kOrderDelete) as [Edel|_].
  { case_cond; [apply priority_same|]. simpl. unfold book_remove.
    rewrite (queue_at_update _ _ sd) by (done || auto). apply priority_kept; [apply drop_order_refs|].
    intros o Ho. destruct (drop_order_stay (order_ref tick) _ o Ho); [by left|right]. split; [done|tauto]. }
  destruct (Z.eqb_spec (msg_type tick) kOrderReplace) as [Erep|_].
  { case_cond; [apply priority_same|]. unfold book_on_replace.
    destruct (owner B _) as [[sym0 sd0]|]; [|apply priority_same].
    destruct ok; simpl; [|apply priority_same].
    apply place_priority; [by apply b_update_sorted, Hs|by unfold arriving; rewrite Erep| |];
      unfold book_remove; rewrite (queue_at_update _ _ sd) by (done || auto); [apply drop_order_refs|].
    intros o Ho. destruct (drop_order_stay (order_ref tick) _ o Ho); [by left|right]. split; [done|tauto]. }
  destruct (msg_type tick =? kTrade); apply priority_same.
Qed.

(** The queue of a price is the queue of one level of the side, or empty. *)
Lemma queue_at_cases p b : queue_at p b = [] ∨ ∃ i x, b !! i = Some x ∧ queue_at p b = x.2.
Proof.
  unfold queue_at. destruct (list_find _ b) as [[i x]|] eqn:E; [|by left].
  apply list_find_Some in E as (Hx & _ & _). right. by exists i, x.
Qed.

Lemma queue_at_good {M : Type} `{!OrderIndex M} (rep : M → gmap Z OrderLocation → Prop) `{!OrderIndexLaws M rep}
    (e : LOBEngine M) g sym sd p :
  lob_inv rep e g → in_book sym sd →
  NoDup (queue_at p (abs e sym sd)).*1 ∧ Forall good_entry (queue_at p (abs e sym sd)).
Proof.
  intros H Hb. destruct (queue_at_cases p (abs e sym sd)) as [->|(i & x & Hi & ->)]; [split; constructor|].
  split; [by eapply (level_refs_NoDup rep)|]. eapply (abs_good rep); [done..|]. by eapply list_elem_of_lookup_2.
Qed.
