(* ===== verification/LobTheorems.v ===== *)
(** * LobTheorems: what the engine of the program guarantees

    The generic results of the previous files, for the engine with the hash
    index of src/luv_lob.hpp and for every state the program can reach: the
    initial state and whatever [process] makes of well-formed ticks. *)

From S2P Require Import Prelude Arena OrderIndex OrderRefMap Level LevelOps Lob LobView LobInv Book.
From S2P Require Import LobRefine LobInsert LobCorrect LobQueries.
From Stdlib Require Import ZArith Lia.
From stdpp Require Import base tactics gmap numbers option sorting list.
Open Scope Z_scope.

Notation Engine := (LOBEngine OrderRefMap).

(** ** Reachable engines *)

(** [init] on a mapped index and a zeroed slab. *)
Definition fresh_map : OrderRefMap := fst (OrderRefMap_init true OrderRefMap_unmapped).
Definition fresh_engine : Engine := mkLob ∅ fresh_map ∅ LobStats_zero.

Inductive reachable : Engine → Prop :=
| reach_init e : LOBEngine_init true ∅ (Some fresh_map) = Some e → reachable e
| reach_step e tick e' :
    reachable e → tick_ok tick → process_unlocked e tick = Some e' → reachable e'.

Lemma fresh_map_rep : orm_rep fresh_map ∅.
Proof. by apply (init_rep OrderRefMap_unmapped). Qed.

Lemma reachable_inv e : reachable e → ∃ g, lob_inv orm_rep e g.
Proof.
  induction 1 as [e He|e tick e' _ [g H] Ht Hp].
  - exists ∅. by eapply (init_inv orm_rep _ _ _ fresh_map_rep).
  - destruct (process_spec orm_rep e g tick H Ht) as (e1 & ok & Hp' & [[g' H'] _ _ _ _]).
    rewrite Hp in Hp'. injection Hp' as <-. by exists g'.
Qed.

Lemma reachable_all e ticks e' :
  reachable e → Forall tick_ok ticks → process_all e ticks = Some e' → reachable e'.
Proof.
  intros He Ht. revert e He. induction Ht as [|t ticks Ht1 Ht IH]; intros e He; simpl.
  { by intros [= <-]. }
  destruct (process_unlocked e t) as [e1|] eqn:E; [|done]. simpl. apply IH. by eapply reach_step.
Qed.

(** A small session used as a concrete instance below: two bids, one ask, a
    partial fill, a cancel to nothing and a replace. *)
Definition tick_add (buy : bool) (sym p q r : Z) : TickMsg :=
  mkTick kAddOrder (if buy then kBuy else 0) sym 1000 p q r 0.
Definition tick_exec (sym q r : Z) : TickMsg := mkTick kOrderExecuted 0 sym 1001 0 q r 0.
Definition tick_replace (sym p q r r' : Z) : TickMsg := mkTick kOrderReplace 0 sym 1002 p q r r'.

Definition demo_ticks : list TickMsg :=
  [tick_add true 3 10000 50 11; tick_add true 3 10000 70 12; tick_add true 3 9900 10 13;
   tick_add false 3 10100 40 14; tick_exec 3 20 11].
Definition demo : Engine := default fresh_engine (process_all fresh_engine demo_ticks).

Lemma demo_reachable : reachable demo.
Proof.
  eapply (reachable_all fresh_engine demo_ticks).
  - by apply reach_init.
  - repeat constructor; done.
  - by vm_compute.
Qed.

Example demo_book : abs demo 3 0 = [(10000, [(11, 30); (12, 70)]); (9900, [(13, 10)])].
Proof. by vm_compute. Qed.

(** ** Refinement *)

(** C1 (refinement): from every reachable state and for every well-formed tick,
    [process] returns normally (no access outside the slab or a slot array, no
    signed overflow, every loop within its fuel), and what it does to the book
    is exactly one step of the abstract book: the same queues at the same
    prices, the same decision to reject, and the symbol's clock refreshed.  The
    only freedom is whether the order index takes the new reference, and it
    does whenever [can_insert] says so. *)
Theorem engine_refines_book e tick :
  reachable e → tick_ok tick →
  ∃ e' accepts, process_unlocked e tick = Some e' ∧ reachable e' ∧
    (OrderRefMap_can_insert (order_map e) (new_ref tick) = true → accepts = true) ∧
    abs e' ≡ (book_next accepts (abs e) tick).1 ∧
    stat_rejected (stats e') =
      rejected_after (book_next accepts (abs e) tick).2 (stat_rejected (stats e)) ∧
    ∀ sym, last_timestamp_ns (meta_of e' sym) = clock_after e tick sym.
Proof.
  intros He Ht. destruct (reachable_inv e He) as [g H].
  destruct (process_spec orm_rep e g tick H Ht) as (e' & ok & Hp & [_ H1 H2 H3 H4]).
  exists e', ok. split_and!; try done. by eapply reach_step.
Qed.

Lemma engine_refines_book_witness :
  ∃ e' accepts, process_unlocked demo (tick_replace 3 9900 5 12 20) = Some e' ∧
    abs e' ≡ (book_next accepts (abs demo) (tick_replace 3 9900 5 12 20)).1.
Proof.
  destruct (engine_refines_book demo (tick_replace 3 9900 5 12 20) demo_reachable)
    as (e' & ok & H1 & _ & _ & H2 & _); [done|]. exists e', ok. exact (conj H1 H2).
Defined.

(** ** The order index *)

(** In every reachable state the hash index and the book agree
    exactly: looking a reference up yields a location if and only if that slot
    of that level carries that live order. *)
Theorem index_matches_book e r loc :
  reachable e → OrderRefMap_lookup (order_map e) r = Some loc ↔ located (levels e) r loc.
Proof.
  intros He. destruct (reachable_inv e He) as [g H]. destruct (li_index _ _ _ H) as [Hrep Hg].
  rewrite <- Hg. by rewrite <- (law_lookup (order_map e) g r Hrep).
Qed.

Lemma index_matches_book_witness :
  OrderRefMap_lookup (order_map demo) 12 = Some (mkLoc 3 0 0 1) ∧
  located (levels demo) 12 (mkLoc 3 0 0 1).
Proof.
  assert (E : OrderRefMap_lookup (order_map demo) 12 = Some (mkLoc 3 0 0 1)) by (by vm_compute).
  split; [exact E|]. apply (index_matches_book demo 12 (mkLoc 3 0 0 1) demo_reachable). exact E.
Defined.

(** The hash table on its own: a sequence of operations and the finite map it
    should be, given which insertions were accepted. *)
Inductive map_op := OpInsert (r : Z) (loc : OrderLocation) | OpRemove (r : Z).

Fixpoint orm_run (m : OrderRefMap) (ops : list map_op) : OrderRefMap * list bool :=
  match ops with
  | [] => (m, [])
  | OpInsert r loc :: ops' =>
      let '(m1, ok) := OrderRefMap_insert m r loc in
      let '(m', oks) := orm_run m1 ops' in (m', ok :: oks)
  | OpRemove r :: ops' =>
      let '(m', oks) := orm_run (OrderRefMap_remove m r) ops' in (m', true :: oks)
  end.

Fixpoint map_run (g : gmap Z OrderLocation) (ops : list map_op) (oks : list bool)
    : gmap Z OrderLocation :=
  match ops, oks with
  | OpInsert r loc :: ops', ok :: oks' => map_run (if ok : bool then <[r := loc]> g else g) ops' oks'
  | OpRemove r :: ops', _ :: oks' => map_run (delete r g) ops' oks'
  | _, _ => g
  end.

Lemma orm_run_rep m g ops :
  orm_rep m g → orm_rep (fst (orm_run m ops)) (map_run g ops (snd (orm_run m ops))).
Proof.
  revert m g. induction ops as [|[r loc|r] ops IH]; intros m g Hr; simpl; [done| |].
  - pose proof (law_insert m g r loc Hr) as Hins. cbn in Hins.
    destruct (OrderRefMap_insert m r loc) as [m1 ok]. specialize (IH m1).
    destruct (orm_run m1 ops) as [m' oks]. simpl in *. destruct ok; [by apply IH|].
    subst m1. by apply IH.
  - pose proof (law_remove m g r Hr) as Hrm. cbn in Hrm. specialize (IH (OrderRefMap_remove m r)).
    destruct (orm_run (OrderRefMap_remove m r) ops) as [m' oks]. simpl in *. by apply IH.
Qed.

(** C25 (equivalence): whatever sequence of insertions and removals the hash
    table has seen, with collisions, tombstones and wrap-around, a lookup
    answers as the finite map of the accepted insertions does, the size is the
    number of keys of that map, and [can_insert] never promises an insertion
    that then fails. *)
Theorem order_ref_map_is_a_map ops r loc :
  let m := fst (orm_run fresh_map ops) in
  let g := map_run ∅ ops (snd (orm_run fresh_map ops)) in
  OrderRefMap_lookup m r = g !! r ∧ OrderRefMap_size m = Z.of_nat (size g) ∧
  (OrderRefMap_can_insert m r = true → location_invalid loc = false →
     g !! r = None ∧ snd (OrderRefMap_insert m r loc) = true).
Proof.
  intros m g. assert (Hr : orm_rep m g) by apply orm_run_rep, fresh_map_rep.
  split; [exact (law_lookup m g r Hr)|]. split; [exact (law_size m g Hr)|].
  intros Hc Hl. exact (conj (law_can_insert_fresh m g r Hr Hc) (law_can_insert_ok m g r loc Hr Hc Hl)).
Qed.

Lemma order_ref_map_is_a_map_witness :
  let ops := [OpInsert 5 (mkLoc 1 0 2 3); OpInsert 9 (mkLoc 1 0 2 4); OpRemove 5] in
  OrderRefMap_lookup (fst (orm_run fresh_map ops)) 9 = Some (mkLoc 1 0 2 4) ∧
  snd (OrderRefMap_insert (fst (orm_run fresh_map ops)) 5 (mkLoc 7 1 0 0)) = true.
Proof.
  intros ops. destruct (order_ref_map_is_a_map ops 9 (mkLoc 7 1 0 0)) as [H1 _].
  destruct (order_ref_map_is_a_map ops 5 (mkLoc 7 1 0 0)) as (_ & _ & H2).
  split; [rewrite H1; by vm_compute|]. apply H2; by vm_compute.
Defined.

(** ** Searching and reading the book *)

(** The binary search of [find_level] returns the position a
    linear scan for the price finds, and -1 exactly when no level has it. *)
Theorem find_level_is_linear_search e sym sd p :
  reachable e → in_book sym sd →
  find_level e sym sd p =
    match list_find (λ l, price l = p) (levels e sym sd) with
    | Some (i, _) => Some (Z.of_nat i) | None => Some (-1)
    end.
Proof.
  intros He Hb. destruct (reachable_inv e He) as [g H].
  apply find_level_spec; [apply H|done|by apply (li_sorted _ _ _ H)].
Qed.

Lemma find_level_is_linear_search_witness : find_level demo 3 0 9900 = Some 1.
Proof. rewrite (find_level_is_linear_search demo 3 0 9900 demo_reachable); [by vm_compute|by_decide]. Defined.

(** The best prices are extremal.  [best_bid_price] is 0
    exactly when no bid rests; otherwise a bid rests at it and no bid is
    higher.  [best_ask_price] is the same with no ask lower. *)
Theorem best_prices_are_best e sym :
  reachable e → 0 ≤ sym < kSymbols →
  ∃ bid ask, best_bid_price e sym = Some bid ∧ best_ask_price e sym = Some ask ∧
    (bid = 0 ↔ abs e sym 0 = []) ∧ (ask = 0 ↔ abs e sym 1 = []) ∧
    (∀ p qs, (p, qs) ∈ abs e sym 0 → 0 < p ≤ bid) ∧
    (∀ p qs, (p, qs) ∈ abs e sym 1 → 0 < ask ≤ p) ∧
    (bid ≠ 0 → ∃ qs, (bid, qs) ∈ abs e sym 0) ∧ (ask ≠ 0 → ∃ qs, (ask, qs) ∈ abs e sym 1).
Proof.
  intros He Hs. destruct (reachable_inv e He) as [g H].
  assert (Hb : ∀ sd, sd = 0 ∨ sd = 1 → in_book sym sd) by (intros; by split).
  exists (side_best (abs e sym 0)), (side_best (abs e sym 1)).
  split; [by apply (best_price_spec orm_rep e g); auto|].
  split; [by apply (best_price_spec orm_rep e g); auto|].
  assert (Hpos : ∀ sd x, sd = 0 ∨ sd = 1 → x ∈ abs e sym sd →
    0 < x.1 ∧ ¬ before sd x.1 (side_best (abs e sym sd))).
  { intros sd x Hsd Hx. destruct (side_best_extremal orm_rep e g sym sd x H (Hb sd Hsd) Hx) as [Hv Hn].
    split; [|done]. unfold is_valid_price, kMinPrice in Hv. apply andb_true_iff in Hv as [Hv _]. lia. }
  assert (Hhd : ∀ sd, sd = 0 ∨ sd = 1 →
    (side_best (abs e sym sd) = 0 ↔ abs e sym sd = []) ∧
    (side_best (abs e sym sd) ≠ 0 → ∃ qs, (side_best (abs e sym sd), qs) ∈ abs e sym sd)).
  { intros sd Hsd. specialize (Hpos sd). destruct (abs e sym sd) as [|[p qs] b]; [done|].
    destruct (Hpos (p, qs)) as [Hp _]; [done|set_solver|]. simpl in *.
    split; [split; [lia|done]|]. intros _. exists qs. set_solver. }
  destruct (Hhd 0) as [A1 A2]; [auto|]. destruct (Hhd 1) as [B1 B2]; [auto|].
  split_and!; try done; intros p qs Hx.
  - destruct (Hpos 0 _ (or_introl eq_refl) Hx) as [? Hn]. unfold before in Hn. simpl in *. lia.
  - destruct (Hpos 1 _ (or_intror eq_refl) Hx) as [? Hn]. unfold before in Hn. simpl in *.
    destruct (decide (side_best (abs e sym 1) = 0)) as [E|E]; [|destruct (B2 E) as [qs' Hq]].
    + apply B1 in E. rewrite E in Hx. by apply elem_of_nil in Hx.
    + destruct (Hpos 1 _ (or_intror eq_refl) Hq). simpl in *. lia.
Qed.

Lemma best_prices_are_best_witness :
  ∃ bid ask, best_bid_price demo 3 = Some bid ∧ best_ask_price demo 3 = Some ask ∧
    bid = 10000 ∧ ask = 10100.
Proof.
  destruct (best_prices_are_best demo 3 demo_reachable) as (b & a & H1 & H2 & _); [done|].
  exists b, a. split; [exact H1|]. split; [exact H2|].
  assert (E1 : best_bid_price demo 3 = Some 10000) by (by vm_compute).
  assert (E2 : best_ask_price demo 3 = Some 10100) by (by vm_compute).
  split; congruence.
Defined.

(** [bid_depth_qty] and [ask_depth_qty] never overflow and return
    the exact number of shares resting on the best [n] levels of the side. *)
Theorem depth_is_exact e sym sd n :
  reachable e → in_book sym sd → 0 ≤ n →
  depth_qty e sym sd n = Some (side_depth (Z.to_nat n) (abs e sym sd)).
Proof. intros He. destruct (reachable_inv e He) as [g H]. by eapply (depth_qty_spec orm_rep). Qed.

Lemma depth_is_exact_witness : depth_qty demo 3 0 2 = Some 110.
Proof. rewrite (depth_is_exact demo 3 0 2 demo_reachable); [by vm_compute|by_decide|done]. Defined.

(** [active_order_count], the size of the index, is the number
    of orders resting anywhere in the book, each counted once. *)
Theorem active_orders_counted e :
  reachable e →
  active_order_count e = Z.of_nat (length (book_refs (abs e))) ∧ NoDup (book_refs (abs e)).
Proof.
  intros He. destruct (reachable_inv e He) as [g H].
  split; [by eapply (active_count_spec orm_rep)|by eapply (book_refs_NoDup orm_rep)].
Qed.

Lemma active_orders_counted_witness : active_order_count demo = 4.
Proof. rewrite (proj1 (active_orders_counted demo demo_reachable)). by vm_compute. Defined.

(** ** Priority *)

(** C28 (safety): time priority, for every tick and the queue of every price.
    The orders of the queue afterwards are those that were in it, in the order
    they had, followed by at most one more, which is the order an Add or a
    Replace brings (an order keeps its place through a partial execution or
    cancel: nothing else may stand at the tail).  Only the order the tick names
    can be missing: by a Delete or a Replace, or by an execution or cancel of
    all it had left.  No reference is ever in a queue twice. *)
Theorem time_priority_kept e tick e' sym sd p :
  reachable e → tick_ok tick → process_unlocked e tick = Some e' → in_book sym sd →
  let q := queue_at p (abs e sym sd) in
  let q' := queue_at p (abs e' sym sd) in
  NoDup q.*1 ∧ NoDup q'.*1 ∧ ∃ kept new, keeps_priority tick q q' kept new.
Proof.
  intros He Ht Hp Hb q q'. destruct (reachable_inv e He) as [g H].
  pose proof (reach_step e tick e' He Ht Hp) as He'. destruct (reachable_inv e' He') as [g' H'].
  split; [by eapply (queue_at_good orm_rep)|]. split; [by eapply (queue_at_good orm_rep)|].
  destruct (process_spec orm_rep e g tick H Ht) as (e1 & ok & Hp' & [_ _ HA _ _]).
  rewrite Hp in Hp'. injection Hp' as <-. unfold q, q'. rewrite (HA sym sd Hb).
  apply book_next_priority; [|done|by eapply (queue_at_good orm_rep)]. intros. by eapply (abs_sorted orm_rep).
Qed.

Definition demo_next : Engine := default demo (process_unlocked demo (tick_exec 3 29 11)).

Lemma time_priority_kept_witness :
  (queue_at 10000 (abs demo_next 3 0)) = [(11, 1); (12, 70)] ∧
  ∃ kept new, keeps_priority (tick_exec 3 29 11) [(11, 30); (12, 70)] [(11, 1); (12, 70)] kept new.
Proof.
  assert (E : process_unlocked demo (tick_exec 3 29 11) = Some demo_next) by (by vm_compute).
  assert (E1 : queue_at 10000 (abs demo 3 0) = [(11, 30); (12, 70)]) by (by vm_compute).
  assert (E2 : queue_at 10000 (abs demo_next 3 0) = [(11, 1); (12, 70)]) by (by vm_compute).
  split; [exact E2|].
  destruct (time_priority_kept demo (tick_exec 3 29 11) demo_next 3 0 10000 demo_reachable)
    as (_ & _ & H); [by_decide|exact E|by_decide|]. by rewrite E1, E2 in H.
Defined.

(** ** Replace *)

(** When the replacement price has no room (its level already
    holds sixteen orders, or the side already has all its levels), [Replace]
    still deletes the original order and the replacement is dropped: the order
    leaves the book and the tick counts as rejected. *)
Theorem replace_without_room_loses_the_order e tick sym sd :
  reachable e → tick_ok tick → msg_type tick = kOrderReplace → tick_symbol tick < kSymbols →
  order_ref tick ≠ 0 → match_num tick ≠ 0 → order_ref tick ≠ match_num tick →
  is_valid_quantity (tick_qty tick) = true → is_valid_price (tick_price tick) = true →
  owner (abs e) (order_ref tick) = Some (sym, sd) →
  OrderRefMap_can_insert (order_map e) (match_num tick) = true →
  b_room (tick_price tick) (book_remove (abs e) (order_ref tick) sym sd) = false →
  ∃ e', process_unlocked e tick = Some e' ∧ abs e' ≡ book_remove (abs e) (order_ref tick) ∧
    stat_rejected (stats e') = u64 (stat_rejected (stats e) + 1).
Proof.
  intros He Ht Hm Hs Hr Hn Hne Hq Hp Ho Hc Hroom. destruct (reachable_inv e He) as [g H].
  destruct (process_spec orm_rep e g tick H Ht) as (e' & ok & Hproc & [_ Hok HA HR _]).
  exists e'. split; [done|]. unfold new_ref in Hok. rewrite Hm in Hok. simpl in Hok.
  rewrite (Hok Hc) in HA, HR.
  assert (E : book_next true (abs e) tick = (book_remove (abs e) (order_ref tick), true)).
  { unfold book_next. rewrite (proj2 (Z.leb_gt _ _)) by done. rewrite Hm. simpl.
    rewrite !(proj2 (Z.eqb_neq _ _)) by done. rewrite Hq, Hp. simpl.
    unfold book_on_replace. rewrite Ho. simpl. unfold book_place. by rewrite Hroom. }
  by rewrite E in HA, HR.
Qed.

(** Sixteen bids at one price and a seventeenth below it. *)
Definition full_level_ticks : list TickMsg :=
  ((λ n, tick_add true 0 10000 1 (Z.of_nat n)) <$> seq 1 16) ++ [tick_add true 0 9900 1 17].
Definition full_level : Engine := default fresh_engine (process_all fresh_engine full_level_ticks).

Lemma full_level_reachable : reachable full_level.
Proof.
  eapply (reachable_all fresh_engine full_level_ticks).
  - by apply reach_init.
  - by_decide.
  - by vm_compute.
Qed.

Lemma replace_without_room_loses_the_order_witness :
  owner (abs full_level) 17 = Some (0, 0) ∧
  ∃ e', process_unlocked full_level (tick_replace 0 10000 1 17 18) = Some e' ∧
    owner (abs e') 17 = None ∧ owner (abs e') 18 = None.
Proof.
  split; [by vm_compute|].
  destruct (replace_without_room_loses_the_order full_level (tick_replace 0 10000 1 17 18) 0 0
    full_level_reachable) as (e' & H1 & H2 & _);
    [by_decide|reflexivity|reflexivity|by_decide|by_decide|by_decide|reflexivity|reflexivity
    |by vm_compute|by vm_compute|by vm_compute|].
  exists e'. split; [exact H1|]. rewrite !H2. split; vm_compute; reflexivity.
Defined.
