(* ===== verification/Ring.v ===== *)
(** * Ring: the single-producer single-consumer rings

    [SPSCRing] of src/luv_arena.hpp, the owning variant [StaticSpscQueue] of
    src/luv_consumer.hpp and the burst ring [ZeroCopyPacketRing] of
    src/luv_net_ring.hpp.

    Producer and consumer run concurrently.  Each owns one 64-bit counter and
    reads the other's with acquire ordering; the value it reads may be stale,
    though never older than one it has read before.  The step relation below
    makes every claim, write, commit, peek and consume its own step and lets a
    load return any value between the last one seen and the current one. *)

From S2P Require Import Prelude.
From Stdlib Require Import ZArith Lia.
From stdpp Require Import base tactics gmap numbers option list.
Open Scope Z_scope.

Section ring.
Context {T : Type} (T_init : T) (bits : Z).

(** [Capacity], a power of two that fits in 32 bits. *)
Definition Capacity : Z := 2 ^ bits.
Definition ring_mask : Z := Capacity - 1.

(** ** struct SPSCRing

    [slots] is [None] for the null pointer. *)
Record SPSCRing := mkRing {
  ring_head : Z;
  ring_tail : Z;
  slots : option (gmap Z T)
}.

(** [try_claim]; [seen_tail] is what the acquire load of [tail] returned.  The
    result is the index of the slot handed out. *)
Definition try_claim (r : SPSCRing) (seen_tail : Z) : option Z :=
  match slots r with
  | None => None
  | Some _ =>
      if Capacity <=? u64 (ring_head r - seen_tail) then None else Some (Z.land (ring_head r) ring_mask)
  end.

Definition commit (r : SPSCRing) : SPSCRing := mkRing (u64 (ring_head r + 1)) (ring_tail r) (slots r).

Definition try_peek (r : SPSCRing) (seen_head : Z) : option Z :=
  match slots r with
  | None => None
  | Some _ => if seen_head =? ring_tail r then None else Some (Z.land (ring_tail r) ring_mask)
  end.

Definition consume (r : SPSCRing) : SPSCRing := mkRing (ring_head r) (u64 (ring_tail r + 1)) (slots r).

Definition ring_size (r : SPSCRing) : Z := u64 (ring_head r - ring_tail r).

(** Access to a slot through the pointer [try_claim] or [try_peek] returned. *)
Definition read_slot (r : SPSCRing) (i : Z) : T := aget T_init (default ∅ (slots r)) i.
Definition write_slot (r : SPSCRing) (i : Z) (v : T) : SPSCRing :=
  mkRing (ring_head r) (ring_tail r) ((λ m, <[i := v]> m) <$> slots r).

(** ** Memory pressure

    [occupancy_ratio] divides two integers, the second a power of two, so the
    quotient is an exact double; the literals 0.95, 0.85, 0.80 and 0.70 are the
    doubles below, each an integer over [2^53]. *)
Inductive MemoryPressureTier := kNormal | kWarning | kShedLoad | kEmergencyHalt.

Definition d0_95 : Z := 0x1E666666666666.
Definition d0_85 : Z := 0x1B333333333333.
Definition d0_80 : Z := 0x1999999999999A.
Definition d0_70 : Z := 0x16666666666666.

Definition ratio_ge (size literal : Z) : bool := literal * Capacity <=? size * 2 ^ 53.

Definition is_near_capacity (r : SPSCRing) : bool := ratio_ge (ring_size r) d0_80.

Definition pressure_tier (r : SPSCRing) : MemoryPressureTier :=
  if ratio_ge (ring_size r) d0_95 then kEmergencyHalt
  else if ratio_ge (ring_size r) d0_85 then kShedLoad
  else if ratio_ge (ring_size r) d0_70 then kWarning
  else kNormal.

Definition allow_ingress (r : SPSCRing) (is_cancellation : bool) : bool :=
  match pressure_tier r with
  | kNormal | kWarning => true
  | kShedLoad => is_cancellation
  | kEmergencyHalt => false
  end.

(** ** StaticSpscQueue, one call at a time *)

Definition try_push (r : SPSCRing) (v : T) : SPSCRing * bool :=
  if Capacity <=? u64 (ring_head r - ring_tail r) then (r, false)
  else (commit (write_slot r (Z.land (ring_head r) ring_mask) v), true).

Definition try_pop (r : SPSCRing) : SPSCRing * option T :=
  if ring_head r =? ring_tail r then (r, None)
  else (consume r, Some (read_slot r (Z.land (ring_tail r) ring_mask))).

Definition queue_empty (r : SPSCRing) : bool := ring_head r =? ring_tail r.

(** ** ZeroCopyPacketRing, one call at a time *)

Fixpoint write_burst (r : SPSCRing) (i : Z) (vs : list T) : SPSCRing :=
  match vs with
  | [] => r
  | v :: vs' => write_burst (write_slot r (Z.land (u64 (ring_head r + i)) ring_mask) v) (i + 1) vs'
  end.

Definition burst_enqueue (r : SPSCRing) (descs : list T) : SPSCRing * Z :=
  if Z.of_nat (length descs) =? 0 then (r, 0) else
  let free_slots := u64 (Capacity - u64 (ring_head r - ring_tail r)) in
  let count := Z.of_nat (length descs) in
  let to_write := if count <? free_slots then count else free_slots in
  let r := write_burst r 0 (take (Z.to_nat to_write) descs) in
  (mkRing (u64 (ring_head r + to_write)) (ring_tail r) (slots r), to_write).

Fixpoint read_burst (r : SPSCRing) (i : Z) (n : nat) : list T :=
  match n with
  | O => []
  | S n' => read_slot r (Z.land (u64 (ring_tail r + i)) ring_mask) :: read_burst r (i + 1) n'
  end.

Definition burst_dequeue (r : SPSCRing) (max_count : Z) : SPSCRing * list T :=
  if max_count =? 0 then (r, []) else
  let available := u64 (ring_head r - ring_tail r) in
  let to_read := if max_count <? available then max_count else available in
  (mkRing (ring_head r) (u64 (ring_tail r + to_read)) (slots r), read_burst r 0 (Z.to_nat to_read)).

Definition occupancy (r : SPSCRing) : Z := if ring_tail r <=? ring_head r then ring_head r - ring_tail r else 0.
Definition is_full (r : SPSCRing) : bool := Capacity <=? occupancy r.

(** ** Concurrent executions *)

(** [producer]/[consumer] hold the index of the slot currently claimed or
    peeked; [p_seen]/[c_seen] count the last consumption/commit each side knows
    of; [sent] and [received] are the histories. *)
Record rconf := mkConf {
  ring : SPSCRing;
  producer : option Z;
  consumer : option Z;
  p_seen : nat;
  c_seen : nat;
  sent : list T;
  received : list T
}.

Definition rconf_init : rconf := mkConf (mkRing 0 0 (Some ∅)) None None 0 0 [] [].

Definition seen (n : nat) : Z := u64 (Z.of_nat n).

Inductive rstep : rconf → rconf → Prop :=
| st_claim r c ps cs sn rc s i :
    (ps ≤ s ≤ length rc)%nat → try_claim r (seen s) = Some i →
    rstep (mkConf r None c ps cs sn rc) (mkConf r (Some i) c s cs sn rc)
| st_claim_full r c ps cs sn rc s :
    (ps ≤ s ≤ length rc)%nat → try_claim r (seen s) = None →
    rstep (mkConf r None c ps cs sn rc) (mkConf r None c s cs sn rc)
| st_write r c ps cs sn rc i v :
    rstep (mkConf r (Some i) c ps cs sn rc) (mkConf (write_slot r i v) (Some i) c ps cs sn rc)
| st_commit r c ps cs sn rc i :
    rstep (mkConf r (Some i) c ps cs sn rc)
          (mkConf (commit r) None c ps cs (sn ++ [read_slot r i]) rc)
| st_peek r p ps cs sn rc s i :
    (cs ≤ s ≤ length sn)%nat → try_peek r (seen s) = Some i →
    rstep (mkConf r p None ps cs sn rc) (mkConf r p (Some i) ps s sn rc)
| st_peek_empty r p ps cs sn rc s :
    (cs ≤ s ≤ length sn)%nat → try_peek r (seen s) = None →
    rstep (mkConf r p None ps cs sn rc) (mkConf r p None ps s sn rc)
| st_consume r p ps cs sn rc i :
    rstep (mkConf r p (Some i) ps cs sn rc)
          (mkConf (consume r) p None ps cs sn (rc ++ [read_slot r i])).

Inductive rreachable : rconf → Prop :=
| rr_init : rreachable rconf_init
| rr_step x y : rreachable x → rstep x y → rreachable y.
End ring.

Arguments SPSCRing T : clear implicits.
Arguments rconf T : clear implicits.

Section facts.
Context {T : Type} (T_init : T) (bits : Z) (Hbits : 0 ≤ bits ≤ 32).
Implicit Types (r : SPSCRing T) (x y : rconf T).
Notation Capacity := (Capacity bits).

Lemma cap_pos : 0 < Capacity ≤ 2 ^ 32.
Proof using Hbits.
  unfold Ring.Capacity. split; [apply Z.pow_pos_nonneg; lia|apply Z.pow_le_mono_r; lia].
Qed.

Lemma cap_divides : (Capacity | 2 ^ 64).
Proof using Hbits.
  unfold Ring.Capacity. exists (2 ^ (64 - bits)). rewrite <- Z.pow_add_r by lia. f_equal. lia.
Qed.

(** The index of the [n]-th element ever sent. *)
Definition cell (n : Z) : Z := n mod Capacity.

Lemma mask_cell n : Z.land (u64 n) (ring_mask bits) = cell n.
Proof using Hbits.
  unfold ring_mask, cell, u64. pose proof cap_pos. pose proof cap_divides.
  replace (Capacity - 1) with (Z.ones bits) by (rewrite Z.ones_equiv; unfold Ring.Capacity; lia).
  rewrite Z.land_ones by lia. by apply Z.mod_mod_divide.
Qed.

Lemma cell_inj n m : cell n = cell m → Z.abs (n - m) < Capacity → n = m.
Proof using Hbits.
  unfold cell. intros E Hd. pose proof cap_pos. by apply (mod_inj Capacity); [lia|..].
Qed.

Lemma u64_sub n m : 0 ≤ n - m < 2 ^ 64 → u64 (u64 n - u64 m) = n - m.
Proof using Type. intros H. unfold u64. rewrite <- Zminus_mod. by apply Z.mod_small. Qed.

Lemma u64_eq n m : u64 n = u64 m → Z.abs (n - m) < 2 ^ 64 → n = m.
Proof using Type.
  unfold u64. intros E Hd. by apply (mod_inj (2 ^ 64)).
Qed.

Lemma read_write r m i j v :
  slots r = Some m → read_slot T_init (write_slot r i v) j = if decide (i = j) then v else read_slot T_init r j.
Proof using Type. intros Hs. unfold read_slot, write_slot. simpl. rewrite Hs. simpl. apply aget_insert. Qed.

(** ** The concurrent invariant *)

Record rinv x : Prop := mk_rinv {
  ri_slots : is_Some (slots (ring x));
  ri_head : ring_head (ring x) = seen (length (sent x));
  ri_tail : ring_tail (ring x) = seen (length (received x));
  ri_prefix : received x = take (length (received x)) (sent x);
  ri_pseen : (p_seen x ≤ length (received x))%nat ∧
             Z.of_nat (length (sent x)) - Z.of_nat (p_seen x) ≤ Capacity;
  ri_cseen : (length (received x) ≤ c_seen x ≤ length (sent x))%nat;
  ri_cells : ∀ n v, (length (received x) ≤ n)%nat → sent x !! n = Some v →
             read_slot T_init (ring x) (cell (Z.of_nat n)) = v;
  ri_producer : ∀ i, producer x = Some i → i = cell (Z.of_nat (length (sent x))) ∧
             Z.of_nat (length (sent x)) - Z.of_nat (p_seen x) < Capacity;
  ri_consumer : ∀ i, consumer x = Some i → i = cell (Z.of_nat (length (received x))) ∧
             (length (received x) < c_seen x)%nat
}.

Lemma rinv_init : rinv rconf_init.
Proof using Hbits. pose proof cap_pos. split; simpl; try done; try lia. Qed.

Lemma claim_spec r s n i :
  ring_head r = seen n → (s ≤ n)%nat → Z.of_nat n - Z.of_nat s ≤ Capacity →
  try_claim bits r (seen s) = Some i →
  i = cell (Z.of_nat n) ∧ Z.of_nat n - Z.of_nat s < Capacity.
Proof using Hbits.
  intros Hh Hs Hc. pose proof cap_pos. unfold try_claim. destruct (slots r); [|done].
  rewrite Hh. unfold seen. rewrite u64_sub by lia.
  destruct (Z.leb_spec Capacity (Z.of_nat n - Z.of_nat s)); [done|]. intros [= <-].
  split; [apply mask_cell|lia].
Qed.

Lemma peek_spec r s n i :
  ring_tail r = seen n → (n ≤ s)%nat → Z.of_nat s - Z.of_nat n ≤ Capacity →
  try_peek bits r (seen s) = Some i → i = cell (Z.of_nat n) ∧ (n < s)%nat.
Proof using Hbits.
  intros Ht Hs Hc. pose proof cap_pos. unfold try_peek. destruct (slots r); [|done].
  rewrite Ht. unfold seen. destruct (Z.eqb_spec (u64 (Z.of_nat s)) (u64 (Z.of_nat n))) as [|Hne]; [done|].
  intros [= <-]. split; [apply mask_cell|]. assert (s ≠ n) by congruence. lia.
Qed.

Lemma rinv_write x i v :
  rinv x → producer x = Some i →
  rinv (mkConf (write_slot (ring x) i v) (Some i) (consumer x) (p_seen x) (c_seen x) (sent x) (received x)).
Proof using Hbits.
  intros [[m Hm] H1 H2 H3 H4 H5 H6 H7 H8] Hp. destruct (H7 i Hp) as [Hi Hlt].
  split; simpl; try done.
  - rewrite Hm. simpl. eauto.
  - intros n u Hn Hu. rewrite (read_write _ _ _ _ _ Hm). rewrite decide_False; [by apply H6|].
    rewrite Hi. intros E. apply lookup_lt_Some in Hu.
    apply cell_inj in E; [lia|]. destruct H4. lia.
  - intros j [= <-]. done.
Qed.

Lemma rinv_commit x i :
  rinv x → producer x = Some i →
  rinv (mkConf (commit (ring x)) None (consumer x) (p_seen x) (c_seen x)
          (sent x ++ [read_slot T_init (ring x) i]) (received x)).
Proof using Hbits.
  intros [Hs H1 H2 H3 H4 H5 H6 H7 H8] Hp. destruct (H7 i Hp) as [Hi Hlt].
  assert (Hle : (length (received x) ≤ length (sent x))%nat) by lia.
  split; simpl; try done; rewrite ?length_app; simpl.
  - rewrite H1. unfold seen. rewrite u64_add. f_equal. lia.
  - rewrite take_app_le by done. done.
  - lia.
  - lia.
  - intros n v Hn Hv. change (read_slot T_init (commit (ring x))) with (read_slot T_init (ring x)).
    apply lookup_app_Some in Hv as [Hv|[Hge Hv]]; [by apply H6|].
    apply list_lookup_singleton_Some in Hv as [Hn0 <-]. rewrite Hi. do 2 f_equal. lia.
Qed.

Lemma rinv_consume x i :
  rinv x → consumer x = Some i →
  rinv (mkConf (consume (ring x)) (producer x) None (p_seen x) (c_seen x) (sent x)
          (received x ++ [read_slot T_init (ring x) i])).
Proof using Hbits.
  intros [Hs H1 H2 H3 H4 H5 H6 H7 H8] Hc. destruct (H8 i Hc) as [Hi Hlt].
  destruct (lookup_lt_is_Some_2 (sent x) (length (received x))) as [v Hv]; [lia|].
  rewrite Hi, (H6 _ _ (le_n _) Hv).
  split; simpl; try done; rewrite ?length_app; simpl.
  - rewrite H2. unfold seen. rewrite u64_add. f_equal. lia.
  - rewrite Nat.add_1_r, (take_S_r _ _ _ Hv). congruence.
  - lia.
  - lia.
  - intros n u Hn Hu. apply H6; [lia|done].
Qed.

Lemma rinv_step x y : rinv x → rstep T_init bits x y → rinv y.
Proof using Hbits.
  intros H Hst. destruct Hst as [r c ps cs sn rc s i Hs Hc|r c ps cs sn rc s Hs Hc|r c ps cs sn rc i v
    |r c ps cs sn rc i|r p ps cs sn rc s i Hs Hc|r p ps cs sn rc s Hs Hc|r p ps cs sn rc i].
  - destruct H as [H0 H1 H2 H3 H4 H5 H6 H7 H8]. simpl in *.
    split; simpl; try done; [lia|]. intros j [= <-]. apply (claim_spec r); try done; lia.
  - destruct H as [H0 H1 H2 H3 H4 H5 H6 H7 H8]. simpl in *. split; simpl; try done. lia.
  - by apply (rinv_write _ i v H).
  - by apply (rinv_commit _ i H).
  - destruct H as [H0 H1 H2 H3 H4 H5 H6 H7 H8]. simpl in *.
    split; simpl; try done; [lia|]. intros j [= <-]. apply (peek_spec r); try done; lia.
  - destruct H as [H0 H1 H2 H3 H4 H5 H6 H7 H8]. simpl in *. split; simpl; try done. lia.
  - by apply (rinv_consume _ i H).
Qed.

Lemma rreachable_inv x : rreachable T_init bits x → rinv x.
Proof using Hbits. induction 1; [apply rinv_init|by eapply rinv_step]. Qed.

(** ** One call at a time: the ring as a bounded queue *)

Record queue_from r (start : nat) (q : list T) : Prop := mk_hq {
  hq_len : Z.of_nat (length q) ≤ Capacity;
  hq_slots : is_Some (slots r);
  hq_tail : ring_tail r = seen start;
  hq_head : ring_head r = seen (start + length q);
  hq_cells : ∀ n v, q !! n = Some v → read_slot T_init r (cell (Z.of_nat (start + n))) = v
}.

(** [r] currently holds the queue [q], oldest first. *)
Definition holds_queue r (q : list T) : Prop := ∃ start, queue_from r start q.

Lemma used_slots r start q : queue_from r start q → u64 (ring_head r - ring_tail r) = Z.of_nat (length q).
Proof using Hbits.
  intros [Hl _ Ht Hh _]. pose proof cap_pos. rewrite Ht, Hh. unfold seen. rewrite u64_sub by lia. lia.
Qed.

Lemma write_burst_spec r (b : nat) vs i :
  ring_head r = seen b → is_Some (slots r) → i + Z.of_nat (length vs) ≤ Capacity → 0 ≤ i →
  let r' := write_burst bits r i vs in
  ring_head r' = ring_head r ∧ ring_tail r' = ring_tail r ∧ is_Some (slots r') ∧
  (∀ n v, vs !! n = Some v → read_slot T_init r' (cell (Z.of_nat b + i + Z.of_nat n)) = v) ∧
  (∀ k, (∀ n, (n < length vs)%nat → k ≠ cell (Z.of_nat b + i + Z.of_nat n)) →
     read_slot T_init r' k = read_slot T_init r k).
Proof using Hbits.
  pose proof cap_pos. revert r i. induction vs as [|v vs IH]; intros r i Hh [m Hm] Hc Hi; simpl in *.
  { split_and!; eauto; done. }
  assert (Hidx : Z.land (u64 (ring_head r + i)) (ring_mask bits) = cell (Z.of_nat b + i)).
  { rewrite Hh. unfold seen. rewrite u64_add. apply mask_cell. }
  rewrite Hidx.
  destruct (IH (write_slot r (cell (Z.of_nat b + i)) v) (i + 1)) as (A1 & A2 & A3 & A4 & A5);
    [done|simpl; rewrite Hm; simpl; eauto|lia|lia|].
  split; [done|]. split; [done|]. split; [done|].
  assert (Hother : ∀ n, (n < length vs)%nat → cell (Z.of_nat b + i) ≠ cell (Z.of_nat b + (i + 1) + Z.of_nat n)).
  { intros n Hn E. apply cell_inj in E; lia. }
  split.
  - intros [|n] u Hu; simpl in Hu.
    + injection Hu as <-. replace (Z.of_nat b + i + Z.of_nat 0) with (Z.of_nat b + i) by lia.
      rewrite A5 by done. rewrite (read_write _ _ _ _ _ Hm). by rewrite decide_True.
    + replace (Z.of_nat b + i + Z.of_nat (S n)) with (Z.of_nat b + (i + 1) + Z.of_nat n) by lia. by apply A4.
  - intros k Hk. rewrite A5.
    + rewrite (read_write _ _ _ _ _ Hm). rewrite decide_False; [done|].
      intros <-. apply (Hk 0%nat); [lia|]. f_equal. lia.
    + intros n Hn E. apply (Hk (S n)); [lia|]. rewrite E. f_equal. lia.
Qed.

Lemma enqueue_from r start q vs :
  queue_from r start q → Z.of_nat (length q) + Z.of_nat (length vs) ≤ Capacity →
  let r' := write_burst bits r 0 vs in
  queue_from (mkRing (u64 (ring_head r' + Z.of_nat (length vs))) (ring_tail r') (slots r')) start (q ++ vs).
Proof using Hbits.
  intros [Hl Hs Ht Hh Hcells] Hc.
  destruct (write_burst_spec r (start + length q) vs 0 Hh Hs) as (A1 & A2 & A3 & A4 & A5); [lia|lia|]. split; simpl.
  - rewrite length_app. lia.
  - done.
  - congruence.
  - rewrite A1, Hh. unfold seen. rewrite u64_add, length_app. f_equal. lia.
  - intros n v Hv. change (read_slot T_init (mkRing _ _ _)) with (read_slot T_init (write_burst bits r 0 vs)).
    apply lookup_app_Some in Hv as [Hv|[Hge Hv]].
    + rewrite A5; [by apply Hcells|]. intros k Hk E. apply lookup_lt_Some in Hv.
      apply cell_inj in E; lia.
    + specialize (A4 _ _ Hv). rewrite <- A4. f_equal. f_equal. lia.
Qed.

Lemma read_burst_spec r start q i n :
  queue_from r start q → (i + n ≤ length q)%nat →
  read_burst T_init bits r (Z.of_nat i) n = take n (drop i q).
Proof using Hbits.
  intros [Hl Hs Ht Hh Hcells]. revert i. induction n as [|n IH]; intros i Hi; simpl; [done|].
  destruct (lookup_lt_is_Some_2 q i) as [v Hv]; [lia|].
  rewrite (drop_S _ _ _ Hv). simpl. f_equal.
  - rewrite Ht. unfold seen. rewrite u64_add, mask_cell. rewrite <- (Hcells i v Hv). do 2 f_equal. lia.
  - replace (Z.of_nat i + 1) with (Z.of_nat (S i)) by lia. apply IH. lia.
Qed.

Lemma dequeue_from r start q n :
  queue_from r start q → (n ≤ length q)%nat →
  queue_from (mkRing (ring_head r) (u64 (ring_tail r + Z.of_nat n)) (slots r)) (start + n) (drop n q).
Proof using Hbits.
  intros [Hl Hs Ht Hh Hcells] Hn. split; simpl.
  - rewrite length_drop. lia.
  - done.
  - rewrite Ht. unfold seen. rewrite u64_add. f_equal. lia.
  - rewrite Hh, length_drop. f_equal. lia.
  - intros k v Hv. rewrite lookup_drop in Hv. rewrite <- (Hcells _ _ Hv). do 2 f_equal. lia.
Qed.

Lemma enqueue_spec r q vs :
  holds_queue r q →
  let '(r', written) := burst_enqueue bits r vs in
  written = Z.min (Z.of_nat (length vs)) (Capacity - Z.of_nat (length q)) ∧
  holds_queue r' (q ++ take (Z.to_nat written) vs).
Proof using Hbits.
  intros [start Hq]. pose proof cap_pos. pose proof (used_slots _ _ _ Hq) as Hu.
  pose proof (hq_len _ _ _ Hq) as Hl. unfold burst_enqueue.
  destruct (Z.eqb_spec (Z.of_nat (length vs)) 0) as [E|E].
  { split; [lia|]. simpl. rewrite take_0, app_nil_r. by exists start. }
  rewrite Hu. replace (u64 (Capacity - Z.of_nat (length q))) with (Capacity - Z.of_nat (length q))
    by (unfold u64; rewrite Z.mod_small; lia).
  set (w := if _ <? _ then _ else _).
  assert (Hw : w = Z.min (Z.of_nat (length vs)) (Capacity - Z.of_nat (length q))).
  { unfold w. destruct (Z.ltb_spec (Z.of_nat (length vs)) (Capacity - Z.of_nat (length q))); lia. }
  split; [done|]. exists start.
  assert (Hlt : Z.of_nat (length (take (Z.to_nat w) vs)) = w) by (rewrite length_take; lia).
  pose proof (enqueue_from r start q (take (Z.to_nat w) vs) Hq) as He. rewrite Hlt in He. apply He. lia.
Qed.

Lemma dequeue_spec r q n :
  holds_queue r q → 0 ≤ n →
  let '(r', out) := burst_dequeue T_init bits r n in
  out = take (Z.to_nat n) q ∧ holds_queue r' (drop (Z.to_nat n) q).
Proof using Hbits.
  intros [start Hq] Hn. pose proof (used_slots _ _ _ Hq) as Hu. unfold burst_dequeue.
  destruct (Z.eqb_spec n 0) as [->|E]; [split; [done|by exists start]|].
  rewrite Hu. set (w := if _ <? _ then _ else _).
  assert (Hw : w = Z.min n (Z.of_nat (length q))).
  { unfold w. destruct (Z.ltb_spec n (Z.of_nat (length q))); lia. }
  change 0 with (Z.of_nat 0). rewrite (read_burst_spec r start q 0) by (done || lia). rewrite drop_0.
  assert (Ht : take (Z.to_nat w) q = take (Z.to_nat n) q ∧ drop (Z.to_nat w) q = drop (Z.to_nat n) q).
  { destruct (Z.le_gt_cases n (Z.of_nat (length q))); [by replace w with n by lia|].
    split; [rewrite !take_ge by lia|rewrite !drop_ge by lia]; done. }
  destruct Ht as [-> Hd]. split; [done|]. exists (start + Z.to_nat w)%nat.
  pose proof (dequeue_from r start q (Z.to_nat w) Hq) as He. rewrite Hd, Z2Nat.id in He by lia.
  apply He. lia.
Qed.

Lemma push_spec r q v :
  holds_queue r q →
  let '(r', ok) := try_push bits r v in
  (ok = true ↔ Z.of_nat (length q) < Capacity) ∧ holds_queue r' (if ok then q ++ [v] else q).
Proof using Hbits.
  intros [start Hq]. unfold try_push. rewrite (used_slots _ _ _ Hq).
  destruct (Z.leb_spec Capacity (Z.of_nat (length q))) as [Hle|Hlt].
  { split; [split; [done|lia]|by exists start]. }
  split; [done|]. exists start. pose proof (enqueue_from r start q [v] Hq) as He. simpl in He.
  assert (E : u64 (ring_head r + 0) = ring_head r).
  { rewrite (hq_head _ _ _ Hq). unfold seen. by rewrite u64_add, Z.add_0_r. }
  rewrite E in He. apply He. simpl. lia.
Qed.

Lemma pop_spec r q :
  holds_queue r q →
  let '(r', out) := try_pop T_init bits r in out = q !! 0%nat ∧ holds_queue r' (drop 1 q).
Proof using Hbits.
  intros [start Hq]. pose proof cap_pos. pose proof (hq_len _ _ _ Hq) as Hl. unfold try_pop.
  destruct (Z.eqb_spec (ring_head r) (ring_tail r)) as [E|E].
  - assert (q = []) as ->; [|split; [done|by exists start]]. destruct Hq as [_ _ Ht Hh _].
    rewrite Ht, Hh in E. apply u64_eq in E; [|lia]. apply nil_length_inv. lia.
  - destruct q as [|v q].
    { destruct Hq as [_ _ Ht Hh _]. simpl in Hh. rewrite Nat.add_0_r in Hh. congruence. }
    split.
    + pose proof (hq_cells _ _ _ Hq 0%nat v eq_refl) as Hc. simpl. f_equal. symmetry.
      rewrite <- Hc at 1. rewrite (hq_tail _ _ _ Hq). unfold seen. rewrite mask_cell. do 2 f_equal. lia.
    + exists (start + 1)%nat. apply (dequeue_from r start (v :: q) 1 Hq). simpl. lia.
Qed.

Lemma size_spec r q : holds_queue r q → ring_size r = Z.of_nat (length q).
Proof using Hbits. intros [start Hq]. apply (used_slots _ _ _ Hq). Qed.

(** Claiming a slot and writing it is invisible until the commit. *)
Lemma claim_write_spec r q v :
  holds_queue r q →
  match try_claim bits r (ring_tail r) with
  | None => Z.of_nat (length q) = Capacity
  | Some i => Z.of_nat (length q) < Capacity ∧ holds_queue (write_slot r i v) q ∧
              holds_queue (commit (write_slot r i v)) (q ++ [v])
  end.
Proof using Hbits.
  intros Hq. pose proof (push_spec r q v Hq) as Hp. unfold try_push in Hp. destruct Hq as [start Hq].
  pose proof (hq_len _ _ _ Hq) as Hl. pose proof cap_pos.
  destruct (hq_slots _ _ _ Hq) as [m Hm]. unfold try_claim. rewrite Hm.
  rewrite (used_slots _ _ _ Hq) in *. destruct (Z.leb_spec Capacity (Z.of_nat (length q))); [lia|].
  destruct Hp as [_ Hp]. split; [done|]. split; [|done]. exists start. destruct Hq as [H1 H2 H3 H4 H5].
  split; try done; [simpl; rewrite Hm; by eexists|].
  intros n w Hn. pose proof (lookup_lt_Some _ _ _ Hn). rewrite (read_write _ m) by done.
  rewrite decide_False; [by apply H5|]. rewrite H4. unfold seen. rewrite mask_cell.
  intros E%cell_inj; lia.
Qed.
End facts.

(** ** Guarantees *)

Section theorems.
Context {T : Type} (T_init : T) (bits : Z).

(** C20 (safety): first in, first out, under every interleaving and every stale
    load.  What the consumer has received is a prefix of what the producer has
    committed, at most [Capacity] elements are outstanding, and each of them
    still sits unchanged in its slot. *)
Theorem spsc_ring_fifo (x : rconf T) :
  0 ≤ bits ≤ 32 → rreachable T_init bits x →
  received x = take (length (received x)) (sent x) ∧
  Z.of_nat (length (sent x)) - Z.of_nat (length (received x)) ≤ Capacity bits ∧
  ∀ n v, (length (received x) ≤ n)%nat → sent x !! n = Some v →
    read_slot T_init (ring x) (Z.of_nat n mod Capacity bits) = v.
Proof.
  intros Hb Hx. apply rreachable_inv in Hx as [_ _ _ H1 H2 _ H3 _ _]; [|done].
  split; [done|]. split; [lia|done].
Qed.

(** No data race on a slot.  While the producer writes the slot it
    claimed and the consumer reads the slot it peeked, the two slots differ; and
    the slot being read holds the next element in order. *)
Theorem spsc_ring_race_free (x : rconf T) i j :
  0 ≤ bits ≤ 32 → rreachable T_init bits x → producer x = Some i → consumer x = Some j →
  i ≠ j ∧ sent x !! length (received x) = Some (read_slot T_init (ring x) j).
Proof.
  intros Hb Hx Hp Hc. apply rreachable_inv in Hx as [_ _ _ _ H4 H5 H6 H7 H8]; [|done].
  destruct (H7 i Hp) as [-> Hlt], (H8 j Hc) as [-> Hlt2]. pose proof (cap_pos bits Hb).
  split; [intros E; apply cell_inj in E; lia|].
  destruct (lookup_lt_is_Some_2 (sent x) (length (received x))) as [v Hv]; [lia|].
  rewrite Hv. f_equal. symmetry. by apply H6.
Qed.

(** The ring never refuses without cause.  With an up-to-date
    load, [try_claim] fails exactly when [Capacity] elements are outstanding and
    [try_peek] fails exactly when none is. *)
Theorem spsc_ring_no_spurious_failure (x : rconf T) :
  0 ≤ bits ≤ 32 → rreachable T_init bits x →
  (try_claim bits (ring x) (ring_tail (ring x)) = None ↔
     Z.of_nat (length (sent x)) - Z.of_nat (length (received x)) = Capacity bits) ∧
  (try_peek bits (ring x) (ring_head (ring x)) = None ↔ received x = sent x).
Proof.
  intros Hb Hx. apply rreachable_inv in Hx as [[m Hm] H1 H2 H3 H4 H5 _ _ _]; [|done].
  pose proof (cap_pos bits Hb). unfold try_claim, try_peek. rewrite Hm, H1, H2. unfold seen.
  rewrite u64_sub by lia. split.
  - destruct (Z.leb_spec (Capacity bits) (Z.of_nat (length (sent x)) - Z.of_nat (length (received x))));
      split; done || lia.
  - destruct (Z.eqb_spec (u64 (Z.of_nat (length (sent x)))) (u64 (Z.of_nat (length (received x))))) as [E|E];
      split; try done.
    + intros _. apply u64_eq in E; [|lia]. rewrite H3. apply take_ge. lia.
    + intros Eq. by rewrite Eq in E.
Qed.

(** The single-call queues are bounded FIFO queues.  From a
    ring holding [q], a burst enqueue appends as many descriptors as fit and
    reports how many, a burst dequeue returns the oldest ones in order, a push
    is accepted exactly when there is room, and a pop returns the oldest. *)
Theorem bounded_fifo_queue (r : SPSCRing T) q vs v n :
  0 ≤ bits ≤ 32 → holds_queue T_init bits r q → 0 ≤ n →
  let free := Capacity bits - Z.of_nat (length q) in
  let '(r1, written) := burst_enqueue bits r vs in
  let '(r2, out) := burst_dequeue T_init bits r n in
  let '(r3, pushed) := try_push bits r v in
  let '(r4, popped) := try_pop T_init bits r in
  written = Z.min (Z.of_nat (length vs)) free ∧
  holds_queue T_init bits r1 (q ++ take (Z.to_nat written) vs) ∧
  out = take (Z.to_nat n) q ∧ holds_queue T_init bits r2 (drop (Z.to_nat n) q) ∧
  (pushed = true ↔ 0 < free) ∧ holds_queue T_init bits r3 (if pushed then q ++ [v] else q) ∧
  popped = q !! 0%nat ∧ holds_queue T_init bits r4 (drop 1 q).
Proof.
  intros Hb Hq Hn free. pose proof (enqueue_spec T_init bits Hb r q vs Hq) as H1.
  pose proof (dequeue_spec T_init bits Hb r q n Hq Hn) as H2.
  pose proof (push_spec T_init bits Hb r q v Hq) as H3. pose proof (pop_spec T_init bits Hb r q Hq) as H4.
  destruct (burst_enqueue bits r vs), (burst_dequeue T_init bits r n), (try_push bits r v),
    (try_pop T_init bits r). destruct H1, H2, H3 as [H3 ?], H4. rewrite H3. unfold free.
  split_and!; done || lia.
Qed.

(** Load shedding starts at exact fractions of the capacity, the
    rounding of the double literals notwithstanding: new orders are admitted
    while the ring is below 85%, cancellations while it is below 95%. *)
Theorem ingress_thresholds (r : SPSCRing T) :
  0 ≤ bits ≤ 32 → 0 ≤ ring_size r ≤ Capacity bits →
  allow_ingress bits r false = (100 * ring_size r <? 85 * Capacity bits) ∧
  allow_ingress bits r true = (100 * ring_size r <? 95 * Capacity bits).
Proof.
  intros Hb Hs. pose proof (cap_pos bits Hb). unfold allow_ingress, pressure_tier, ratio_ge.
  unfold d0_95, d0_85, d0_70. set (c := Capacity bits) in *. set (n := ring_size r) in *.
  destruct (Z.leb_spec (0x1E666666666666 * c) (n * 2 ^ 53)), (Z.leb_spec (0x1B333333333333 * c) (n * 2 ^ 53)),
    (Z.leb_spec (0x16666666666666 * c) (n * 2 ^ 53)), (Z.ltb_spec (100 * n) (85 * c)),
    (Z.ltb_spec (100 * n) (95 * c)); split; done || lia.
Qed.
End theorems.

(** ** Concrete instances *)

(** A ring of four slots: two elements committed, one of them consumed, the
    producer and the consumer each holding a slot. *)
Definition ring_demo : rconf Z :=
  mkConf (mkRing 2 1 (Some (<[1 := 20]> (<[0 := 10]> ∅)))) (Some 2) (Some 1) 0 2 [10; 20] [10].

Lemma ring_demo_reachable : rreachable 0 2 ring_demo.
Proof.
  assert (H : rreachable (T := Z) 0 2 rconf_init) by constructor.
  eapply rr_step in H; [|apply (st_claim _ _ _ _ _ _ _ _ 0 0); [simpl; lia|by vm_compute]].
  eapply rr_step in H; [|apply (st_write _ _ _ _ _ _ _ _ 0 10)]. simpl in H.
  eapply rr_step in H; [|apply st_commit]. vm_compute in H.
  eapply rr_step in H; [|apply (st_claim _ _ _ _ _ _ _ _ 0 1); [simpl; lia|by vm_compute]].
  eapply rr_step in H; [|apply (st_write _ _ _ _ _ _ _ _ 1 20)]. vm_compute in H.
  eapply rr_step in H; [|apply st_commit]. vm_compute in H.
  eapply rr_step in H; [|apply (st_peek _ _ _ _ _ _ _ _ 2 0); [simpl; lia|by vm_compute]].
  eapply rr_step in H; [|apply st_consume]. vm_compute in H.
  eapply rr_step in H; [|apply (st_claim _ _ _ _ _ _ _ _ 0 2); [simpl; lia|by vm_compute]].
  eapply rr_step in H; [|apply (st_peek _ _ _ _ _ _ _ _ 2 1); [simpl; lia|by vm_compute]].
  exact H.
Qed.

Lemma spsc_ring_fifo_witness : received ring_demo = take 1 (sent ring_demo).
Proof. exact (proj1 (spsc_ring_fifo 0 2 ring_demo ltac:(lia) ring_demo_reachable)). Defined.

Lemma spsc_ring_race_free_witness : (2 : Z) ≠ 1 ∧ sent ring_demo !! 1%nat = Some 20.
Proof.
  exact (spsc_ring_race_free 0 2 ring_demo 2 1 ltac:(lia) ring_demo_reachable eq_refl eq_refl).
Defined.

Lemma spsc_ring_no_spurious_failure_witness :
  try_peek 2 (ring ring_demo) (ring_head (ring ring_demo)) ≠ None.
Proof.
  intros E. apply (spsc_ring_no_spurious_failure 0 2 ring_demo ltac:(lia) ring_demo_reachable) in E.
  discriminate E.
Defined.

Lemma bounded_fifo_queue_witness :
  burst_enqueue 2 (mkRing 0 0 (Some ∅)) [1; 2; 3; 4; 5] =
    (mkRing 4 0 (Some (<[3 := 4]> (<[2 := 3]> (<[1 := 2]> (<[0 := 1]> ∅))))), 4) ∧
  holds_queue 0 2 (fst (burst_enqueue 2 (mkRing 0 0 (Some ∅)) [1; 2; 3; 4; 5])) [1; 2; 3; 4].
Proof.
  assert (H0 : holds_queue 0 2 (mkRing 0 0 (Some ∅)) []).
  { exists 0%nat. split; try done. }
  pose proof (bounded_fifo_queue 0 2 (mkRing 0 0 (Some ∅)) [] [1; 2; 3; 4; 5] 9 3 ltac:(lia) H0 ltac:(lia)) as H.
  split; [by vm_compute|]. vm_compute in H |- *. destruct H as (_ & H & _). exact H.
Defined.

Lemma ingress_thresholds_witness :
  allow_ingress 2 (mkRing 3 0 (Some (∅ : gmap Z Z))) false = true.
Proof.
  rewrite (proj1 (ingress_thresholds 2 (mkRing 3 0 (Some (∅ : gmap Z Z))) ltac:(lia) ltac:(by vm_compute))).
  by vm_compute.
Defined.
