(* ===== verification/Consumer.v ===== *)
(** * Consumer: the tick-ring consumer (src/luv_consumer.hpp, class Consumer)

    [process_one] takes the oldest tick of the ring, feeds it to the book and to
    the observers (feature extraction, then inference when an engine is set),
    and only then releases the slot.  The observers read the book and keep state
    of their own; they are an abstract state [F] with one update function, so
    the results hold whatever they compute. *)

From S2P Require Import Prelude Arena OrderIndex OrderRefMap Level Lob LobView LobInv Book.
From S2P Require Import LobRefine LobCorrect LobQueries LobTheorems Ring.
From Stdlib Require Import ZArith Lia.
From stdpp Require Import base tactics gmap numbers option list.
Open Scope Z_scope.

(** [log2 Config::kTickCapacity]. *)
Definition tick_bits : Z := 22.

Section consumer.
Context {F : Type} (observe : F → Engine → TickMsg → F).

(** ** class Consumer: state ([_running] and [_arena] are [running] and
    [has_arena]; the tick ring is the arena's) *)
Record Consumer := mkConsumer {
  c_has_arena : bool;
  c_ring : SPSCRing TickMsg;
  c_lob : Engine;
  c_observers : F;
  c_running : bool;
  c_tick_count : Z;
  c_rejected_ticks : Z
}.

(** [init]: [lob_ready] and [features_ready] are the engines' own [init] results. *)
Definition Consumer_init (arena_initialised : bool) (ring : SPSCRing TickMsg)
    (lob_ready : option Engine) (features_ready : option F) (rejected : Z) : option Consumer :=
  if negb arena_initialised then None
  else lob ← lob_ready; obs ← features_ready;
       Some (mkConsumer true ring lob obs false 0 rejected).

Definition Consumer_stop (c : Consumer) : Consumer :=
  mkConsumer (c_has_arena c) (c_ring c) (c_lob c) (c_observers c) false
    (c_tick_count c) (c_rejected_ticks c).

(** [process_one], with up-to-date loads of the ring counters.  [None] is
    undefined behaviour inside the book, otherwise the new state and the
    returned bool. *)
Definition process_one (c : Consumer) : option (Consumer * bool) :=
  if negb (c_has_arena c) then Some (c, false) else
  match try_peek tick_bits (c_ring c) (ring_head (c_ring c)) with
  | None => Some (c, false)
  | Some i =>
      let tick := read_slot TickMsg_zero (c_ring c) i in
      if kSymbols <=? tick_symbol tick then
        Some (mkConsumer (c_has_arena c) (consume (c_ring c)) (c_lob c) (c_observers c)
                (c_running c) (c_tick_count c) (u64 (c_rejected_ticks c + 1)), true)
      else
        lob ← process_unlocked (c_lob c) tick;
        Some (mkConsumer (c_has_arena c) (consume (c_ring c)) lob (observe (c_observers c) lob tick)
                (c_running c) (u64 (c_tick_count c + 1)) (c_rejected_ticks c), true)
  end.

(** [run] for [n] iterations of its loop. *)
Fixpoint run_iterations (n : nat) (c : Consumer) : option Consumer :=
  match n with
  | O => Some c
  | S n' => r ← process_one c; run_iterations n' (fst r)
  end.

(** ** Draining the ring *)

Definition addressed (tick : TickMsg) : bool := tick_symbol tick <? kSymbols.

(** The observers after a run of ticks, alongside the book. *)
Fixpoint observe_all (obs : F) (e : Engine) (ticks : list TickMsg) : option F :=
  match ticks with
  | [] => Some obs
  | t :: ticks' => e' ← process_unlocked e t; observe_all (observe obs e' t) e' ticks'
  end.

Lemma peek_oldest r q :
  holds_queue TickMsg_zero tick_bits r q →
  match q with
  | [] => try_peek tick_bits r (ring_head r) = None
  | t :: q' => ∃ i, try_peek tick_bits r (ring_head r) = Some i ∧ read_slot TickMsg_zero r i = t ∧
                 holds_queue TickMsg_zero tick_bits (consume r) q'
  end.
Proof using Type.
  intros Hq. assert (Hb : 0 ≤ tick_bits ≤ 32) by (unfold tick_bits; lia).
  pose proof (pop_spec TickMsg_zero tick_bits Hb r q Hq) as Hp. destruct Hq as [start Hq].
  destruct (hq_slots _ _ _ _ _ Hq) as [m Hm]. unfold try_peek. rewrite Hm. unfold try_pop in Hp.
  destruct (Z.eqb_spec (ring_head r) (ring_tail r)) as [E|E]; destruct Hp as [Hv Hq'].
  - by destruct q.
  - destruct q as [|t q]; [done|]. eexists. split; [done|]. split; [by injection Hv|done].
Qed.

Lemma drain_spec c q :
  c_has_arena c = true → holds_queue TickMsg_zero tick_bits (c_ring c) q → Forall tick_ok q →
  reachable (c_lob c) → 0 ≤ c_tick_count c < 2 ^ 64 → 0 ≤ c_rejected_ticks c < 2 ^ 64 →
  ∃ c' lob' obs', run_iterations (length q) c = Some c' ∧
    process_all (c_lob c) (filter addressed q) = Some lob' ∧
    observe_all (c_observers c) (c_lob c) (filter addressed q) = Some obs' ∧
    c_lob c' = lob' ∧ c_observers c' = obs' ∧
    holds_queue TickMsg_zero tick_bits (c_ring c') [] ∧
    c_tick_count c' = u64 (c_tick_count c + Z.of_nat (length (filter addressed q))) ∧
    c_rejected_ticks c' =
      u64 (c_rejected_ticks c + Z.of_nat (length q) - Z.of_nat (length (filter addressed q))).
Proof using Type.
  revert c. induction q as [|t q IH]; intros c Ha Hq Ht Hr Hn1 Hn2.
  { exists c, (c_lob c), (c_observers c). simpl. split_and!; try done; unfold u64; rewrite Z.mod_small; lia. }
  apply Forall_cons in Ht as [Ht1 Ht].
  destruct (peek_oldest _ _ Hq) as (i & Hpk & Hrd & Hq'). cbn [length run_iterations].
  assert (Hu : ∀ z, 0 ≤ u64 z < 2 ^ 64) by (intros z; apply Z.mod_pos_bound; lia).
  unfold process_one. rewrite Ha, Hpk. cbn [negb]. rewrite Hrd.
  destruct (Z.leb_spec kSymbols (tick_symbol t)) as [Hge|Hlt].
  - simpl. rewrite filter_cons_False by (unfold addressed; rewrite Is_true_true, Z.ltb_lt; lia).
    destruct (IH (mkConsumer true (consume (c_ring c)) (c_lob c) (c_observers c)
      (c_running c) (c_tick_count c) (u64 (c_rejected_ticks c + 1)))) as (c' & lob' & obs' & H1 & H2 & H3 & H4 & H5 & H6 & H7 & H8);
      simpl; try done; try apply Hu.
    exists c', lob', obs'. split_and!; [exact H1|exact H2|exact H3|exact H4|exact H5|exact H6|exact H7|].
    rewrite H8. simpl. replace (u64 (c_rejected_ticks c + 1) + Z.of_nat (length q) - Z.of_nat (length (filter addressed q)))
      with (u64 (c_rejected_ticks c + 1) + (Z.of_nat (length q) - Z.of_nat (length (filter addressed q)))) by lia.
    rewrite u64_add. f_equal. lia.
  - destruct (reachable_inv _ Hr) as [g Hinv].
    destruct (process_spec orm_rep (c_lob c) g t Hinv Ht1) as (e1 & ok & He1 & _). rewrite He1. simpl.
    rewrite filter_cons_True by (unfold addressed; rewrite Is_true_true, Z.ltb_lt; lia).
    destruct (IH (mkConsumer true (consume (c_ring c)) e1 (observe (c_observers c) e1 t)
      (c_running c) (u64 (c_tick_count c + 1)) (c_rejected_ticks c))) as (c' & lob' & obs' & H1 & H2 & H3 & H4 & H5 & H6 & H7 & H8);
      simpl; try done; try apply Hu.
    { by eapply reach_step. }
    exists c', lob', obs'. cbn [process_all observe_all length]. rewrite He1. simpl.
    split_and!; [exact H1|exact H2|exact H3|exact H4|exact H5|exact H6| |].
    + rewrite H7. simpl. rewrite u64_add. f_equal. lia.
    + rewrite H8. simpl. f_equal. lia.
Qed.
End consumer.

Arguments Consumer F : clear implicits.
Arguments mkConsumer {F}.

(** Draining the ring is processing its contents.  Run for as
    many iterations as the ring holds ticks, the consumer empties the ring and
    leaves the book exactly as [process] applied to the addressed ticks in ring
    order leaves it; every tick is counted once, as processed or as rejected,
    and the observers see every addressed tick after the book has applied it. *)
Theorem consumer_drains_in_order {F} (observe : F → Engine → TickMsg → F) (c : Consumer F) q :
  c_has_arena c = true → holds_queue TickMsg_zero tick_bits (c_ring c) q → Forall tick_ok q →
  reachable (c_lob c) → 0 ≤ c_tick_count c < 2 ^ 64 → 0 ≤ c_rejected_ticks c < 2 ^ 64 →
  ∃ c' lob' obs', run_iterations observe (length q) c = Some c' ∧
    process_all (c_lob c) (filter addressed q) = Some lob' ∧
    observe_all observe (c_observers c) (c_lob c) (filter addressed q) = Some obs' ∧
    c_lob c' = lob' ∧ c_observers c' = obs' ∧
    holds_queue TickMsg_zero tick_bits (c_ring c') [] ∧
    c_tick_count c' = u64 (c_tick_count c + Z.of_nat (length (filter addressed q))) ∧
    c_rejected_ticks c' =
      u64 (c_rejected_ticks c + Z.of_nat (length q) - Z.of_nat (length (filter addressed q))).
Proof. apply drain_spec. Qed.

(** A consumer with two ticks waiting, one of them for an unknown symbol. *)
Definition waiting : SPSCRing TickMsg :=
  fst (burst_enqueue tick_bits (mkRing 0 0 (Some ∅))
         [tick_add true 3 10000 50 11; tick_add true 600 10000 70 12]).
Definition consumer_demo : Consumer nat := mkConsumer true waiting fresh_engine 0%nat true 0 0.

Lemma consumer_drains_in_order_witness :
  ∃ c', run_iterations (λ n _ _, S n) 2 consumer_demo = Some c' ∧
    c_tick_count c' = 1 ∧ c_rejected_ticks c' = 1 ∧ c_observers c' = 1%nat.
Proof.
  assert (Hb : 0 ≤ tick_bits ≤ 32) by (unfold tick_bits; lia).
  assert (H0 : holds_queue TickMsg_zero tick_bits (mkRing 0 0 (Some ∅)) []).
  { exists 0%nat. split; try done. }
  pose proof (proj2 (enqueue_spec TickMsg_zero tick_bits Hb (mkRing 0 0 (Some ∅)) []
    [tick_add true 3 10000 50 11; tick_add true 600 10000 70 12] H0)) as Hq.
  destruct (consumer_drains_in_order (λ n _ _, S n) consumer_demo
    [tick_add true 3 10000 50 11; tick_add true 600 10000 70 12])
    as (c' & l & o & H1 & H2 & H3 & H4 & H5 & _ & H7 & H8);
    [reflexivity|exact Hq|by_decide|by apply reach_init|simpl; lia|simpl; lia|].
  exists c'. split; [exact H1|]. split; [exact H7|]. split; [exact H8|].
  rewrite H5. vm_compute in H3. by injection H3 as <-.
Defined.
