(* ===== verification/SymbolTable.v ===== *)
(** * SymbolTable: ticker to symbol index (src/luv_decode_itch.hpp, SymbolTable)

    Open addressing with linear probing over 1024 slots, at most 512 of them in
    use, no deletion.  The file shows that the probe loops end, that the bounded
    lookup never misses a stored ticker, and that the table is a finite map. *)

From S2P Require Import Prelude Arena.
From Stdlib Require Import ZArith Lia.
From stdpp Require Import base tactics gmap numbers option list fin_sets.
Open Scope Z_scope.

Definition st_kCapacity : Z := kSymbols * 2.
Definition st_kMask : Z := st_kCapacity - 1.
Definition kNotFound : Z := 0xFFFF.
Definition st_kFibMul : Z := 0x9E3779B97F4A7C15.
Definition st_kShift : Z := 64 - 10.

Definition SymbolTable_hash (key : Z) : Z := Z.shiftr (u64 (key * st_kFibMul)) st_kShift.

Record SymbolTable := mkSymbols {
  st_keys : gmap Z Z;
  st_values : gmap Z Z;
  st_count : Z
}.

Definition st_key (t : SymbolTable) (slot : Z) : Z := aget 0 (st_keys t) slot.
Definition st_value (t : SymbolTable) (slot : Z) : Z := aget kNotFound (st_values t) slot.

(** [clear()], also the constructor: every key 0, every value [kNotFound]. *)
Definition SymbolTable_clear : SymbolTable := mkSymbols ∅ ∅ 0.

Definition st_next (slot : Z) : Z := Z.land (slot + 1) st_kMask.

(** The [while (_values[slot] != kNotFound)] loop and what follows it; [None]
    when the fuel runs out. *)
Fixpoint st_insert_probe (fuel : nat) (t : SymbolTable) (key idx slot : Z) : option SymbolTable :=
  match fuel with
  | O => None
  | S fuel' =>
      if st_value t slot =? kNotFound then
        Some (mkSymbols (<[slot := key]> (st_keys t)) (<[slot := idx]> (st_values t))
                (u32 (st_count t + 1)))
      else if st_key t slot =? key then
        Some (mkSymbols (st_keys t) (<[slot := idx]> (st_values t)) (st_count t))
      else st_insert_probe fuel' t key idx (st_next slot)
  end.

Definition kProbeFuel : nat := Z.to_nat st_kCapacity.

(** [insert]; the ticker pointer is not null and its 8 bytes are [key]. *)
Definition SymbolTable_insert (t : SymbolTable) (key idx : Z) : option (SymbolTable * bool) :=
  if (kSymbols <=? idx) || (st_kCapacity / 2 <=? st_count t) then Some (t, false)
  else t' ← st_insert_probe kProbeFuel t key idx (SymbolTable_hash key); Some (t', true).

Fixpoint st_lookup_probe (n : nat) (t : SymbolTable) (key slot : Z) : Z :=
  match n with
  | O => kNotFound
  | S n' =>
      let val := st_value t slot in
      if val =? kNotFound then kNotFound
      else if st_key t slot =? key then val
      else st_lookup_probe n' t key (st_next slot)
  end.

Definition SymbolTable_lookup (t : SymbolTable) (key : Z) : Z :=
  st_lookup_probe (Z.to_nat (st_kCapacity / 2)) t key (SymbolTable_hash key).

Definition SymbolTable_size (t : SymbolTable) : Z := st_count t.


(** ** The representation *)

Definition st_slot (k : Z) (d : nat) : Z := (SymbolTable_hash k + Z.of_nat d) mod st_kCapacity.

Definition occupied (t : SymbolTable) (s : Z) : Prop := st_value t s ≠ kNotFound.

#[export] Instance occupied_dec t s : Decision (occupied t s).
Proof. unfold occupied. apply _. Defined.

Definition st_used (t : SymbolTable) : list Z :=
  filter (occupied t) (Z.of_nat <$> seq 0 (Z.to_nat st_kCapacity)).

(** [k] sits [d] slots past its home, behind occupied slots only. *)
Definition st_at (t : SymbolTable) (k : Z) (d : nat) : Prop :=
  occupied t (st_slot k d) ∧ st_key t (st_slot k d) = k ∧
  ∀ e, (e < d)%nat → occupied t (st_slot k e) ∧ st_key t (st_slot k e) ≠ k.

Record st_rep (t : SymbolTable) (g : gmap Z Z) : Prop := mk_st_rep {
  str_count : st_count t = Z.of_nat (length (st_used t));
  str_size : length (st_used t) = size g;
  str_bound : Z.of_nat (length (st_used t)) ≤ kSymbols;
  str_values : ∀ k i, g !! k = Some i → 0 ≤ i < kSymbols;
  str_find : ∀ k i, g !! k = Some i → ∃ d, st_at t k d ∧ st_value t (st_slot k d) = i;
  str_back : ∀ s, 0 ≤ s < st_kCapacity → occupied t s → is_Some (g !! st_key t s)
}.

Lemma st_hash_range k : 0 ≤ SymbolTable_hash k < st_kCapacity.
Proof.
  unfold SymbolTable_hash, st_kCapacity, st_kShift, kSymbols, u64. rewrite Z.shiftr_div_pow2 by lia.
  pose proof (Z.mod_pos_bound (k * st_kFibMul) (2 ^ 64) ltac:(lia)). split.
  - apply Z.div_pos; lia.
  - apply Z.div_lt_upper_bound; lia.
Qed.

Lemma st_slot_range k d : 0 ≤ st_slot k d < st_kCapacity.
Proof. apply Z.mod_pos_bound. unfold st_kCapacity, kSymbols. lia. Qed.

Lemma st_slot_0 k : st_slot k 0 = SymbolTable_hash k.
Proof. unfold st_slot. pose proof (st_hash_range k). rewrite Z.mod_small; lia. Qed.

Lemma st_next_slot k d : st_next (st_slot k d) = st_slot k (S d).
Proof.
  unfold st_next, st_kMask, st_kCapacity, kSymbols, st_slot.
  change (512 * 2 - 1) with (Z.ones 10). rewrite Z.land_ones by lia.
  change (2 ^ 10) with (512 * 2). rewrite Zplus_mod_idemp_l. f_equal. lia.
Qed.

Lemma st_slot_inj k d e :
  (d < Z.to_nat st_kCapacity)%nat → (e < Z.to_nat st_kCapacity)%nat → st_slot k d = st_slot k e → d = e.
Proof.
  unfold st_slot, st_kCapacity, kSymbols. intros Hd He E. apply mod_inj in E; lia.
Qed.

(** Among any [n] different slots more than are in use, one is free. *)
Lemma free_slot t k n :
  (length (st_used t) < n ≤ Z.to_nat st_kCapacity)%nat →
  ∃ d, (d < n)%nat ∧ ¬ occupied t (st_slot k d) ∧ ∀ e, (e < d)%nat → occupied t (st_slot k e).
Proof.
  intros Hn. destruct (decide (Exists (λ d, ¬ occupied t (st_slot k d)) (seq 0 n))) as [Hex|Hall].
  - assert (H : ∀ m, (∃ d, (d < m)%nat ∧ ¬ occupied t (st_slot k d)) →
      ∃ d, (d < m)%nat ∧ ¬ occupied t (st_slot k d) ∧ ∀ e, (e < d)%nat → occupied t (st_slot k e)).
    { induction m as [|m IH]; intros (d & Hd & Hf); [lia|].
      destruct (decide (Exists (λ d, ¬ occupied t (st_slot k d)) (seq 0 m))) as [Hm|Hm].
      - apply Exists_exists in Hm as (d' & Hd'%elem_of_seq & Hf').
        destruct IH as (d0 & ? & ?); [exists d'; split; [lia|done]|]. exists d0. split; [lia|done].
      - assert (Hocc : ∀ e, (e < m)%nat → occupied t (st_slot k e)).
        { intros e He. destruct (decide (occupied t (st_slot k e))); [done|].
          exfalso. apply Hm, Exists_exists. exists e. rewrite elem_of_seq. split; [lia|done]. }
        assert (d = m) as -> by (destruct (decide (d = m)); [done|]; exfalso; apply Hf, Hocc; lia).
        exists m. split; [lia|done]. }
    apply H. apply Exists_exists in Hex as (d & Hd%elem_of_seq & Hf). exists d. split; [lia|done].
  - exfalso. assert (Hsub : (st_slot k <$> seq 0 n) ⊆+ st_used t).
    { apply NoDup_submseteq.
      - apply NoDup_fmap_2_strong; [|apply NoDup_seq]. intros d e Hd%elem_of_seq He%elem_of_seq E.
        apply (st_slot_inj k); lia || done.
      - intros s (d & -> & Hd%elem_of_seq)%list_elem_of_fmap_1. unfold st_used.
        apply list_elem_of_filter. split.
        + destruct (decide (occupied t (st_slot k d))); [done|]. exfalso. apply Hall, Exists_exists.
          exists d. rewrite elem_of_seq. split; [lia|done].
        + apply list_elem_of_fmap. exists (Z.to_nat (st_slot k d)). pose proof (st_slot_range k d).
          rewrite elem_of_seq. split; [lia|]. unfold st_kCapacity in *. lia. }
    apply submseteq_length in Hsub. rewrite length_fmap, length_seq in Hsub. lia.
Qed.

Lemma st_at_wrap k d : st_slot k (d + Z.to_nat st_kCapacity) = st_slot k d.
Proof.
  unfold st_slot. rewrite Nat2Z.inj_add, Z2Nat.id by (unfold st_kCapacity, kSymbols; lia).
  rewrite Z.add_assoc. rewrite <- (Z.mul_1_l st_kCapacity) at 1.
  apply Z.mod_add. unfold st_kCapacity, kSymbols. lia.
Qed.

Lemma st_at_bound t k d : st_at t k d → (d < length (st_used t))%nat.
Proof.
  intros (Ho & Hk & Hb).
  assert (Hd : (d < Z.to_nat st_kCapacity)%nat).
  { destruct (decide (d < Z.to_nat st_kCapacity)%nat); [done|]. exfalso.
    apply (proj2 (Hb (d - Z.to_nat st_kCapacity)%nat ltac:(unfold st_kCapacity, kSymbols in *; lia))).
    rewrite <- Hk at 2. f_equal.
    rewrite <- st_at_wrap. f_equal. lia. }
  destruct (decide (d < length (st_used t))%nat); [done|]. exfalso.
  destruct (free_slot t k (S d)) as (e & He & Hf & _); [lia|]. apply Hf.
  destruct (decide (e = d)) as [->|]; [done|]. apply Hb. lia.
Qed.

Section lookup.
Context (t : SymbolTable) (g : gmap Z Z) (H : st_rep t g).

Lemma lookup_probe_hit k d n e :
  st_at t k d → (e ≤ d)%nat → (d < e + n)%nat →
  st_lookup_probe n t k (st_slot k e) = st_value t (st_slot k d).
Proof using Type.
  intros (Ho & Hk & Hb). revert e. induction n as [|n IH]; intros e He Hn; [lia|].
  cbn [st_lookup_probe]. destruct (decide (e = d)) as [->|Hne].
  - rewrite (proj2 (Z.eqb_neq _ _)) by done. by rewrite Hk, Z.eqb_refl.
  - destruct (Hb e ltac:(lia)) as [Ho' Hk']. rewrite !(proj2 (Z.eqb_neq _ _)) by done.
    rewrite st_next_slot. apply IH; lia.
Qed.

Lemma lookup_probe_miss k n e :
  g !! k = None → st_lookup_probe n t k (st_slot k e) = kNotFound.
Proof using H.
  intros Hg. revert e. induction n as [|n IH]; intros e; cbn [st_lookup_probe]; [done|].
  destruct (Z.eqb_spec (st_value t (st_slot k e)) kNotFound) as [|Ho]; [done|].
  destruct (Z.eqb_spec (st_key t (st_slot k e)) k) as [Hk|].
  - destruct (str_back _ _ H (st_slot k e) (st_slot_range k e) Ho) as [i Hi]. congruence.
  - rewrite st_next_slot. apply IH.
Qed.

Lemma lookup_rep k : SymbolTable_lookup t k = default kNotFound (g !! k).
Proof using H.
  unfold SymbolTable_lookup. rewrite <- st_slot_0. destruct (g !! k) as [i|] eqn:Hg; cbn [default].
  - destruct (str_find _ _ H k i Hg) as (d & Hd & <-).
    apply (lookup_probe_hit k d _ 0); [done|lia|].
    pose proof (st_at_bound _ _ _ Hd). pose proof (str_bound _ _ H).
    assert (st_kCapacity / 2 = 512 ∧ kSymbols = 512) as [E1 E2] by done. rewrite E1. lia.
  - by apply lookup_probe_miss.
Qed.
End lookup.

(** ** Insertion *)

Lemma st_value_set t s i c ks s' :
  st_value (mkSymbols ks (<[s := i]> (st_values t)) c) s' = if decide (s = s') then i else st_value t s'.
Proof. unfold st_value. simpl. apply aget_insert. Qed.

Lemma st_key_set t s k c vs s' :
  st_key (mkSymbols (<[s := k]> (st_keys t)) vs c) s' = if decide (s = s') then k else st_key t s'.
Proof. unfold st_key. simpl. apply aget_insert. Qed.

Lemma used_ext t t' :
  (∀ s, occupied t' s ↔ occupied t s) → st_used t' = st_used t.
Proof. intros H. unfold st_used. by apply list_filter_iff. Qed.

Lemma st_update_rep t g k d idx :
  st_rep t g → 0 ≤ idx < kSymbols → st_at t k d → is_Some (g !! k) →
  st_rep (mkSymbols (st_keys t) (<[st_slot k d := idx]> (st_values t)) (st_count t)) (<[k := idx]> g).
Proof.
  intros [H1 H2 H3 H4 H5 H6] Hi (Ho & Hk & Hb) [j Hj].
  set (t' := mkSymbols _ _ _).
  assert (Hv : ∀ s, st_value t' s = if decide (st_slot k d = s) then idx else st_value t s)
    by (intros s; apply st_value_set).
  assert (Hocc : ∀ s, occupied t' s ↔ occupied t s).
  { intros s. unfold occupied at 1. rewrite Hv. case_decide as Hs; [|done]. subst s.
    split; [done|]. intros _. unfold kNotFound, kSymbols in *. lia. }
  assert (Hat : ∀ k' d', st_at t k' d' → st_at t' k' d').
  { intros k' d' (A & B & C). split; [by apply Hocc|]. split; [done|]. intros e He.
    rewrite Hocc. by apply C. }
  split; rewrite ?(used_ext t t' Hocc); try done.
  - rewrite H2. symmetry. apply map_size_insert_Some. by eexists.
  - intros k' i [[<- <-]|[Hne Hk']]%lookup_insert_Some; [done|by eapply H4].
  - intros k' i [[<- <-]|[Hne Hk']]%lookup_insert_Some.
    + exists d. split; [by apply Hat|]. rewrite Hv. by rewrite decide_True.
    + destruct (H5 k' i Hk') as (d' & Hd' & Hval). exists d'. split; [by apply Hat|].
      rewrite Hv, decide_False; [done|]. intros E. destruct Hd' as (_ & Hkk & _).
      apply Hne. rewrite <- Hk, <- Hkk. by rewrite E.
  - intros s Hs Hos. apply lookup_insert_is_Some'. right. apply H6; [done|]. by apply Hocc.
Qed.

Lemma used_insert t t' s :
  0 ≤ s < st_kCapacity → ¬ occupied t s → (∀ s', occupied t' s' ↔ s' = s ∨ occupied t s') →
  length (st_used t') = S (length (st_used t)).
Proof.
  intros Hs Hf Hocc. change (S (length (st_used t))) with (length (s :: st_used t)).
  apply Permutation_length. apply NoDup_Permutation.
  - apply NoDup_filter, NoDup_fmap_2; [apply _|apply NoDup_seq].
  - apply NoDup_cons. split; [by intros [? _]%list_elem_of_filter|].
    apply NoDup_filter, NoDup_fmap_2; [apply _|apply NoDup_seq].
  - intros x. unfold st_used. rewrite elem_of_cons, !list_elem_of_filter, Hocc. split.
    + intros [[->|Hx] Hin]; auto.
    + intros [->|[Hx Hin]]; [|auto]. split; [by left|]. apply list_elem_of_fmap.
      exists (Z.to_nat s). rewrite elem_of_seq. unfold st_kCapacity in *. lia.
Qed.

Lemma add_rep t g k d idx :
  st_rep t g → 0 ≤ idx < kSymbols → g !! k = None → Z.of_nat (size g) < kSymbols →
  ¬ occupied t (st_slot k d) → (∀ e, (e < d)%nat → occupied t (st_slot k e)) →
  st_rep (mkSymbols (<[st_slot k d := k]> (st_keys t)) (<[st_slot k d := idx]> (st_values t))
            (u32 (st_count t + 1))) (<[k := idx]> g).
Proof.
  intros [H1 H2 H3 H4 H5 H6] Hi Hg Hsz Hf Hb.
  set (t' := mkSymbols _ _ _).
  assert (Hv : ∀ s, st_value t' s = if decide (st_slot k d = s) then idx else st_value t s)
    by (intros s; apply st_value_set).
  assert (Hk : ∀ s, st_key t' s = if decide (st_slot k d = s) then k else st_key t s)
    by (intros s; apply st_key_set).
  assert (Hocc : ∀ s, occupied t' s ↔ s = st_slot k d ∨ occupied t s).
  { intros s. unfold occupied at 1. rewrite Hv. case_decide as Hs.
    - subst s. split; [by left|]. intros _. unfold kNotFound, kSymbols in *. lia.
    - split; [by right|]. by intros [->|]. }
  assert (Hat : ∀ k' d', st_at t k' d' → st_at t' k' d').
  { assert (Hkeep : ∀ s, occupied t s → occupied t' s ∧ st_key t' s = st_key t s).
    { intros s Hs. rewrite Hocc, Hk. split; [by right|]. rewrite decide_False; [done|]. by intros <-. }
    intros k' d' (A & B & C). destruct (Hkeep _ A) as [A1 A2]. split; [done|]. split; [by rewrite A2|].
    intros e He. destruct (C e He) as [C1 C2]. destruct (Hkeep _ C1) as [D1 D2].
    by rewrite D2. }
  pose proof (used_insert t t' (st_slot k d) (st_slot_range k d) Hf Hocc) as Hlen.
  split; rewrite ?Hlen; simpl.
  - unfold u32. rewrite Z.mod_small; [lia|]. unfold kSymbols in *. lia.
  - rewrite H2. symmetry. by apply map_size_insert_None.
  - unfold kSymbols in *. lia.
  - intros k' i [[<- <-]|[Hne Hk']]%lookup_insert_Some; [done|by eapply H4].
  - intros k' i [[<- <-]|[Hne Hk']]%lookup_insert_Some.
    + exists d. split; [|rewrite Hv; by rewrite decide_True]. split; [apply Hocc; by left|].
      split; [rewrite Hk; by rewrite decide_True|]. intros e He. pose proof (Hb e He) as Ho.
      split; [apply Hocc; by right|]. rewrite Hk, decide_False by (intros E; by rewrite E in Hf).
      intros E. destruct (H6 _ (st_slot_range k e) Ho) as [j Hj]. rewrite E in Hj. congruence.
    + destruct (H5 k' i Hk') as (d' & Hd' & Hval). exists d'. split; [by apply Hat|].
      rewrite Hv, decide_False; [done|]. intros E. rewrite E in Hf. by destruct Hd' as [? _].
  - intros s Hs [->|Hos]%Hocc; apply lookup_insert_is_Some'.
    + left. rewrite Hk. by rewrite decide_True.
    + right. rewrite Hk, decide_False by (by intros <-). by apply H6.
Qed.

Lemma insert_probe_hit t k d idx n e :
  st_at t k d → (e ≤ d)%nat → (d < e + n)%nat →
  st_insert_probe n t k idx (st_slot k e) =
    Some (mkSymbols (st_keys t) (<[st_slot k d := idx]> (st_values t)) (st_count t)).
Proof.
  intros (Ho & Hk & Hb). revert e. induction n as [|n IH]; intros e He Hn; [lia|].
  cbn [st_insert_probe]. destruct (decide (e = d)) as [->|Hne].
  - rewrite (proj2 (Z.eqb_neq _ _)) by done. by rewrite Hk, Z.eqb_refl.
  - destruct (Hb e ltac:(lia)) as [Ho' Hk']. rewrite !(proj2 (Z.eqb_neq _ _)) by done.
    rewrite st_next_slot. apply IH; lia.
Qed.

Lemma insert_probe_free t g k d idx n e :
  st_rep t g → g !! k = None → ¬ occupied t (st_slot k d) →
  (∀ e, (e < d)%nat → occupied t (st_slot k e)) → (e ≤ d)%nat → (d < e + n)%nat →
  st_insert_probe n t k idx (st_slot k e) =
    Some (mkSymbols (<[st_slot k d := k]> (st_keys t)) (<[st_slot k d := idx]> (st_values t))
            (u32 (st_count t + 1))).
Proof.
  intros H Hg Hf Hb. revert e. induction n as [|n IH]; intros e He Hn; [lia|].
  cbn [st_insert_probe]. destruct (decide (e = d)) as [->|Hne].
  - by rewrite (proj2 (Z.eqb_eq _ _)) by (destruct (decide (st_value t (st_slot k d) = kNotFound)); done).
  - pose proof (Hb e ltac:(lia)) as Ho. rewrite (proj2 (Z.eqb_neq _ _)) by done.
    rewrite (proj2 (Z.eqb_neq _ _)).
    + rewrite st_next_slot. apply IH; lia.
    + intros E. destruct (str_back _ _ H _ (st_slot_range k e) Ho) as [i Hi]. congruence.
Qed.

(** [insert] always returns; it refuses exactly when the index is out of range
    or 512 tickers are stored, and otherwise maps the ticker to the index. *)
Lemma insert_rep t g k idx :
  st_rep t g → 0 ≤ idx →
  ∃ t' ok, SymbolTable_insert t k idx = Some (t', ok) ∧
    ok = (idx <? kSymbols) && (Z.of_nat (size g) <? kSymbols) ∧
    st_rep t' (if ok then <[k := idx]> g else g).
Proof.
  intros H Hi. unfold SymbolTable_insert. change (st_kCapacity / 2) with kSymbols.
  rewrite (str_count _ _ H), (str_size _ _ H).
  destruct (Z.leb_spec kSymbols idx), (Z.leb_spec kSymbols (Z.of_nat (size g))); cbn [orb];
    try (exists t, false; split; [done|]; split; [|done];
         symmetry; apply andb_false_iff; rewrite !Z.ltb_ge; lia).
  rewrite (proj2 (Z.ltb_lt idx _)), (proj2 (Z.ltb_lt (Z.of_nat (size g)) _)) by lia.
  rewrite <- st_slot_0. pose proof (str_bound _ _ H) as Hb. pose proof (str_size _ _ H) as Hs.
  assert (Z.to_nat st_kCapacity = 1024%nat ∧ kSymbols = 512) as [E1 E2] by done.
  destruct (g !! k) as [i|] eqn:Hg.
  - destruct (str_find _ _ H k i Hg) as (d & Hd & _). pose proof (st_at_bound _ _ _ Hd) as Hdb.
    rewrite (insert_probe_hit t k d idx _ 0) by (done || lia || (unfold kProbeFuel; lia)).
    eexists _, true. split; [done|]. split; [done|]. apply st_update_rep; [done|lia|done|by eexists].
  - destruct (free_slot t k 1024) as (d & Hd & Hf & Hocc); [lia|].
    rewrite (insert_probe_free t g k d idx _ 0) by (done || lia || (unfold kProbeFuel; lia)).
    eexists _, true. split; [done|]. split; [done|]. apply add_rep; done || lia.
Qed.

Lemma clear_rep : st_rep SymbolTable_clear ∅.
Proof.
  assert (Hv : ∀ s, ¬ occupied SymbolTable_clear s).
  { intros s Hs. apply Hs. unfold st_value, aget. simpl. by rewrite lookup_empty. }
  assert (Hu : st_used SymbolTable_clear = []) by (by vm_compute).
  split; rewrite ?Hu; try done.
Qed.

(** Loading a list of tickers, and the map it should give. *)
Fixpoint load_symbols (t : SymbolTable) (entries : list (Z * Z)) : option SymbolTable :=
  match entries with
  | [] => Some t
  | (k, i) :: rest => r ← SymbolTable_insert t k i; load_symbols (fst r) rest
  end.

Fixpoint symbol_map (g : gmap Z Z) (entries : list (Z * Z)) : gmap Z Z :=
  match entries with
  | [] => g
  | (k, i) :: rest =>
      symbol_map (if (i <? kSymbols) && (Z.of_nat (size g) <? kSymbols) then <[k := i]> g else g) rest
  end.

Lemma load_symbols_rep t g entries :
  st_rep t g → Forall (λ e, 0 ≤ e.2) entries →
  ∃ t', load_symbols t entries = Some t' ∧ st_rep t' (symbol_map g entries).
Proof.
  intros H He. revert t g H. induction He as [|[k i] rest Hi _ IH]; intros t g H; simpl; [by exists t|].
  destruct (insert_rep t g k i H Hi) as (t' & ok & -> & -> & H'). simpl.
  destruct (_ && _); by apply IH.
Qed.

(** Loading any list of (ticker, index) pairs terminates, and
    afterwards a lookup returns the index the ticker was last accepted with, and
    [kNotFound] exactly for tickers never accepted; every index returned
    addresses a symbol. *)
Theorem symbol_table_is_a_map entries :
  Forall (λ e, 0 ≤ e.2) entries →
  ∃ t, load_symbols SymbolTable_clear entries = Some t ∧
    (∀ k, SymbolTable_lookup t k = default kNotFound (symbol_map ∅ entries !! k)) ∧
    SymbolTable_size t = Z.of_nat (size (symbol_map ∅ entries)) ∧
    ∀ k, SymbolTable_lookup t k ≠ kNotFound → 0 ≤ SymbolTable_lookup t k < kSymbols.
Proof.
  intros He. destruct (load_symbols_rep _ _ entries clear_rep He) as (t & Ht & H). exists t.
  split; [done|]. split; [|split].
  - intros k. by apply lookup_rep.
  - unfold SymbolTable_size. rewrite (str_count _ _ H). by rewrite (str_size _ _ H).
  - intros k Hk. rewrite (lookup_rep t _ H) in *.
    destruct (symbol_map ∅ entries !! k) as [i|] eqn:E; [|done]. by apply (str_values _ _ H k).
Qed.

Lemma symbol_table_is_a_map_witness :
  ∃ t, load_symbols SymbolTable_clear [(77, 3); (1101, 4); (77, 5)] = Some t ∧
    SymbolTable_lookup t 77 = 5 ∧ SymbolTable_lookup t 1101 = 4 ∧ SymbolTable_lookup t 9 = kNotFound.
Proof.
  destruct (symbol_table_is_a_map [(77, 3); (1101, 4); (77, 5)]) as (t & H1 & H2 & _);
    [by_decide|]. exists t. split; [exact H1|]. rewrite !H2. by vm_compute.
Defined.
