(* ===== verification/Itch.v ===== *)
(** * Itch: the ITCH 5.0 decoder (src/luv_decode_itch.hpp, decode_itch)

    A message body is a list of bytes; reading past its end is undefined
    behaviour, modelled as [None].  The decoder returns its bool together with
    the output tick, which it zeroes before it has validated the message. *)

From S2P Require Import Prelude Arena SymbolTable OrderIndex OrderRefMap Lob LobCorrect Book LobTheorems.
From Stdlib Require Import ZArith Lia.
From stdpp Require Import base tactics gmap numbers option list.
Open Scope Z_scope.

(** ** Endian utilities (little-endian host: a raw load, then a byte swap) *)

Fixpoint load_le (n : nat) (raw : list Z) (off : nat) : option Z :=
  match n with
  | O => Some 0
  | S n' => b ← raw !! off; r ← load_le n' raw (S off); Some (b + 256 * r)
  end.

Fixpoint bswap (n : nat) (v : Z) : Z :=
  match n with
  | O => 0
  | S n' => (v mod 256) * 256 ^ Z.of_nat n' + bswap n' (v / 256)
  end.

Definition be16 (raw : list Z) (off : nat) : option Z := v ← load_le 2 raw off; Some (bswap 2 v).
Definition be32 (raw : list Z) (off : nat) : option Z := v ← load_le 4 raw off; Some (bswap 4 v).
Definition be64 (raw : list Z) (off : nat) : option Z := v ← load_le 8 raw off; Some (bswap 8 v).

Definition be_timestamp48 (raw : list Z) (off : nat) : option Z :=
  hi ← be16 raw off; lo ← be32 raw (off + 2); Some (Z.lor (Z.shiftl hi 32) lo).

Definition load_ticker_key (raw : list Z) (off : nat) : option Z := load_le 8 raw off.

(** ** Flags, message types and minimum lengths *)

Definition kPrintable : Z := 0x02.
Definition kCross : Z := 0x04.
Definition kHalted : Z := 0x08.
Definition kShortSaleRestricted : Z := 0x10.

Definition kCrossTrade : Z := 0x51.
Definition kStockTradingAction : Z := 0x48.
Definition kRegSHO : Z := 0x59.

Definition chB : Z := 0x42.
Definition chS : Z := 0x53.
Definition chY : Z := 0x59.
Definition chN : Z := 0x4E.
Definition chH : Z := 0x48.
Definition chP : Z := 0x50.
Definition ch1 : Z := 0x31.
Definition ch2 : Z := 0x32.

Definition minimum_length (type : Z) : Z :=
  if type =? kAddOrder then 36
  else if type =? kAddOrderMPID then 40
  else if type =? kOrderExecuted then 31
  else if type =? kOrderExecPrice then 36
  else if type =? kOrderCancel then 23
  else if type =? kOrderDelete then 19
  else if type =? kOrderReplace then 35
  else if type =? kTrade then 44
  else if type =? kCrossTrade then 40
  else if type =? kStockTradingAction then 25
  else if type =? kRegSHO then 20
  else 0.

Definition kNanosPerDay : Z := 86400000000000.

(** ** The cases of the switch

    [hdr] is the output after the memset and the two header stores. *)

Definition decode_add (raw : list Z) (symbols : SymbolTable) (hdr : TickMsg) : option (bool * TickMsg) :=
  let min_len := if msg_type hdr =? kAddOrder then 36 else 40 in
  if Z.of_nat (length raw) <? min_len then Some (false, hdr) else
  key ← load_ticker_key raw 24;
  let sym_idx := SymbolTable_lookup symbols key in
  if sym_idx =? kNotFound then Some (false, hdr) else
  ref ← be64 raw 11; q ← be32 raw 20; p ← be32 raw 32; ind ← raw !! 19%nat;
  if (ref =? 0) || negb (is_valid_quantity q) || negb (is_valid_price p) ||
     (negb (ind =? chB) && negb (ind =? chS)) then Some (false, hdr)
  else Some (true, mkTick (msg_type hdr) (if ind =? chB then kBuy else 0) sym_idx (timestamp hdr) p q ref 0).

(** [out] with its symbol stored, as the cases that use Stock Locate leave it
    when they then fail. *)
Definition with_symbol (hdr : TickMsg) (s : Z) : TickMsg :=
  mkTick (msg_type hdr) (tick_flags hdr) s (timestamp hdr) (tick_price hdr) (tick_qty hdr)
    (order_ref hdr) (match_num hdr).

Definition decode_executed (raw : list Z) (hdr : TickMsg) : option (bool * TickMsg) :=
  if Z.of_nat (length raw) <? 31 then Some (false, hdr) else
  s ← be16 raw 1; ref ← be64 raw 11; q ← be32 raw 19;
  if (kSymbols <=? s) || (ref =? 0) || negb (is_valid_quantity q)
  then Some (false, with_symbol hdr s)
  else m ← be64 raw 23; Some (true, mkTick (msg_type hdr) kPrintable s (timestamp hdr) 0 q ref m).

Definition decode_exec_price (raw : list Z) (hdr : TickMsg) : option (bool * TickMsg) :=
  if Z.of_nat (length raw) <? 36 then Some (false, hdr) else
  s ← be16 raw 1; ref ← be64 raw 11; q ← be32 raw 19; p ← be32 raw 32; pr ← raw !! 31%nat;
  if (kSymbols <=? s) || (ref =? 0) || negb (is_valid_quantity q) || negb (is_valid_price p) ||
     (negb (pr =? chY) && negb (pr =? chN))
  then Some (false, with_symbol hdr s)
  else m ← be64 raw 23;
       Some (true, mkTick (msg_type hdr) (if pr =? chY then kPrintable else 0) s (timestamp hdr) p q ref m).

Definition decode_cancel (raw : list Z) (hdr : TickMsg) : option (bool * TickMsg) :=
  if Z.of_nat (length raw) <? 23 then Some (false, hdr) else
  s ← be16 raw 1; ref ← be64 raw 11; q ← be32 raw 19;
  if (kSymbols <=? s) || (ref =? 0) || negb (is_valid_quantity q)
  then Some (false, with_symbol hdr s)
  else Some (true, mkTick (msg_type hdr) 0 s (timestamp hdr) 0 q ref 0).

Definition decode_delete (raw : list Z) (hdr : TickMsg) : option (bool * TickMsg) :=
  if Z.of_nat (length raw) <? 19 then Some (false, hdr) else
  s ← be16 raw 1; ref ← be64 raw 11;
  if (kSymbols <=? s) || (ref =? 0) then Some (false, with_symbol hdr s)
  else Some (true, mkTick (msg_type hdr) 0 s (timestamp hdr) 0 0 ref 0).

Definition decode_replace (raw : list Z) (hdr : TickMsg) : option (bool * TickMsg) :=
  if Z.of_nat (length raw) <? 35 then Some (false, hdr) else
  s ← be16 raw 1; ref ← be64 raw 11; new ← be64 raw 19; q ← be32 raw 27; p ← be32 raw 31;
  if (kSymbols <=? s) || (ref =? 0) || (new =? 0) || (ref =? new) ||
     negb (is_valid_quantity q) || negb (is_valid_price p)
  then Some (false, with_symbol hdr s)
  else Some (true, mkTick (msg_type hdr) 0 s (timestamp hdr) p q ref new).

Definition decode_trade (raw : list Z) (symbols : SymbolTable) (hdr : TickMsg) : option (bool * TickMsg) :=
  if Z.of_nat (length raw) <? 44 then Some (false, hdr) else
  key ← load_ticker_key raw 24;
  let sym_idx := SymbolTable_lookup symbols key in
  q ← be32 raw 20; p ← be32 raw 32; ind ← raw !! 19%nat;
  if (sym_idx =? kNotFound) || negb (is_valid_quantity q) || negb (is_valid_price p) ||
     (negb (ind =? chB) && negb (ind =? chS)) then Some (false, hdr)
  else ref ← be64 raw 11; m ← be64 raw 36;
       Some (true, mkTick (msg_type hdr) (Z.lor kPrintable (if ind =? chB then kBuy else 0)) sym_idx
                     (timestamp hdr) p q ref m).

Definition decode_cross (raw : list Z) (symbols : SymbolTable) (hdr : TickMsg) : option (bool * TickMsg) :=
  if Z.of_nat (length raw) <? 40 then Some (false, hdr) else
  key ← load_ticker_key raw 19;
  let sym_idx := SymbolTable_lookup symbols key in
  shares ← be64 raw 11; p ← be32 raw 27;
  if (sym_idx =? kNotFound) || (kMaxQuantity <? shares) || negb (is_valid_price p) then Some (false, hdr)
  else m ← be64 raw 31;
       Some (true, mkTick (msg_type hdr) (Z.lor kPrintable kCross) sym_idx (timestamp hdr) p shares 0 m).

Definition decode_status (min_len flag c1 c2 : Z) (raw : list Z) (symbols : SymbolTable) (hdr : TickMsg)
    : option (bool * TickMsg) :=
  if Z.of_nat (length raw) <? min_len then Some (false, hdr) else
  key ← load_ticker_key raw 11;
  let sym_idx := SymbolTable_lookup symbols key in
  if sym_idx =? kNotFound then Some (false, hdr) else
  c ← raw !! 19%nat;
  Some (true, mkTick (msg_type hdr) (if (c =? c1) || (c =? c2) then flag else 0) sym_idx (timestamp hdr) 0 0 0 0).

Definition decode_trading_action := decode_status 25 kHalted chH chP.
Definition decode_reg_sho := decode_status 20 kShortSaleRestricted ch1 ch2.

(** ** decode_itch; [raw] is [None] for the null pointer *)
Definition decode_itch (raw : option (list Z)) (symbols : SymbolTable) (out : TickMsg)
    : option (bool * TickMsg) :=
  match raw with
  | None => Some (false, out)
  | Some raw =>
      let len := Z.of_nat (length raw) in
      if len <? 11 then Some (false, out) else
      t ← raw !! 0%nat;
      if negb (minimum_length t =? 0) && (len <? minimum_length t) then Some (false, out) else
      ts ← be_timestamp48 raw 5;
      if kNanosPerDay <=? ts then Some (false, out) else
      let hdr := mkTick t 0 0 ts 0 0 0 0 in
      if (t =? kAddOrder) || (t =? kAddOrderMPID) then decode_add raw symbols hdr
      else if t =? kOrderExecuted then decode_executed raw hdr
      else if t =? kOrderExecPrice then decode_exec_price raw hdr
      else if t =? kOrderCancel then decode_cancel raw hdr
      else if t =? kOrderDelete then decode_delete raw hdr
      else if t =? kOrderReplace then decode_replace raw hdr
      else if t =? kTrade then decode_trade raw symbols hdr
      else if t =? kCrossTrade then decode_cross raw symbols hdr
      else if t =? kStockTradingAction then decode_trading_action raw symbols hdr
      else if t =? kRegSHO then decode_reg_sho raw symbols hdr
      else Some (false, hdr)
  end.

(** ** Loads inside the message *)


#[export] Instance bytes_dec raw : Decision (bytes raw).
Proof. unfold bytes. apply _. Defined.

Lemma byte_at raw off : bytes raw → (off < length raw)%nat → ∃ b, raw !! off = Some b ∧ 0 ≤ b < 256.
Proof.
  intros Hb Ho. destruct (lookup_lt_is_Some_2 raw off Ho) as [b Hl]. exists b. split; [done|].
  by apply (Forall_lookup_1 _ _ _ _ Hb Hl).
Qed.

Lemma load_le_ok n raw off :
  bytes raw → (off + n ≤ length raw)%nat → ∃ v, load_le n raw off = Some v ∧ 0 ≤ v < 256 ^ Z.of_nat n.
Proof.
  intros Hb. revert off. induction n as [|n IH]; intros off Ho; simpl; [by exists 0|].
  destruct (byte_at raw off Hb) as (b & -> & Hr); [lia|]. simpl.
  destruct (IH (S off)) as (v & -> & Hv); [lia|]. simpl. eexists. split; [done|].
  replace (Z.pow_pos 256 (Pos.of_succ_nat n)) with (256 ^ Z.of_nat (S n)) by done.
  rewrite Nat2Z.inj_succ, Z.pow_succ_r by lia. lia.
Qed.

Lemma bswap_range n v : 0 ≤ bswap n v < 256 ^ Z.of_nat n.
Proof.
  revert v. induction n as [|n IH]; intros v; cbn [bswap]; [done|].
  specialize (IH (v / 256)). pose proof (Z.mod_pos_bound v 256 ltac:(lia)).
  rewrite Nat2Z.inj_succ, Z.pow_succ_r by lia. nia.
Qed.

Lemma be_ok n raw off :
  bytes raw → (off + n ≤ length raw)%nat →
  ∃ v, (v ← load_le n raw off; Some (bswap n v)) = Some v ∧ 0 ≤ v < 256 ^ Z.of_nat n.
Proof.
  intros Hb Ho. destruct (load_le_ok n raw off Hb Ho) as (v & -> & _). simpl.
  eexists. split; [done|]. apply bswap_range.
Qed.

Lemma be16_ok raw off :
  bytes raw → (off + 2 ≤ length raw)%nat → ∃ v, be16 raw off = Some v ∧ 0 ≤ v < 2 ^ 16.
Proof. apply (be_ok 2). Qed.
Lemma be32_ok raw off :
  bytes raw → (off + 4 ≤ length raw)%nat → ∃ v, be32 raw off = Some v ∧ 0 ≤ v < 2 ^ 32.
Proof. apply (be_ok 4). Qed.
Lemma be64_ok raw off :
  bytes raw → (off + 8 ≤ length raw)%nat → ∃ v, be64 raw off = Some v ∧ 0 ≤ v < 2 ^ 64.
Proof. apply (be_ok 8). Qed.
Lemma ticker_ok raw off :
  bytes raw → (off + 8 ≤ length raw)%nat → ∃ v, load_ticker_key raw off = Some v ∧ 0 ≤ v < 2 ^ 64.
Proof. apply (load_le_ok 8). Qed.

Lemma timestamp_ok raw off :
  bytes raw → (off + 6 ≤ length raw)%nat → ∃ v, be_timestamp48 raw off = Some v ∧ 0 ≤ v < 2 ^ 48.
Proof.
  intros Hb Ho. unfold be_timestamp48.
  destruct (be16_ok raw off Hb) as (hi & -> & Hhi); [lia|]. simpl.
  destruct (be32_ok raw (off + 2) Hb) as (lo & -> & Hlo); [lia|]. simpl.
  eexists. split; [done|]. rewrite lor_add; lia.
Qed.

(** Resolve the next load of the goal, given that the message is long enough. *)
Ltac next_load :=
  match goal with
  | |- context [load_ticker_key ?r ?o] =>
      destruct (ticker_ok r o) as (? & -> & ?); [assumption|lia|cbn [mbind option_bind]]
  | |- context [be16 ?r ?o] =>
      destruct (be16_ok r o) as (? & -> & ?); [assumption|lia|cbn [mbind option_bind]]
  | |- context [be32 ?r ?o] =>
      destruct (be32_ok r o) as (? & -> & ?); [assumption|lia|cbn [mbind option_bind]]
  | |- context [be64 ?r ?o] =>
      destruct (be64_ok r o) as (? & -> & ?); [assumption|lia|cbn [mbind option_bind]]
  | |- context [(?r : list Z) !! ?o] =>
      destruct (byte_at r o) as (? & -> & ?); [assumption|lia|cbn [mbind option_bind]]
  end.

(** ** What a decoded tick satisfies *)

Record tick_wf (t : TickMsg) : Prop := mk_tick_wf {
  tw_ok : tick_ok t;
  tw_symbol : tick_symbol t < kSymbols;
  tw_add : msg_type t = kAddOrder ∨ msg_type t = kAddOrderMPID →
    order_ref t ≠ 0 ∧ is_valid_quantity (tick_qty t) = true ∧ is_valid_price (tick_price t) = true;
  tw_reduce : msg_type t = kOrderExecuted ∨ msg_type t = kOrderExecPrice ∨ msg_type t = kOrderCancel →
    order_ref t ≠ 0 ∧ is_valid_quantity (tick_qty t) = true;
  tw_delete : msg_type t = kOrderDelete → order_ref t ≠ 0;
  tw_replace : msg_type t = kOrderReplace →
    order_ref t ≠ 0 ∧ match_num t ≠ 0 ∧ order_ref t ≠ match_num t ∧
    is_valid_quantity (tick_qty t) = true ∧ is_valid_price (tick_price t) = true;
  tw_trade : msg_type t = kTrade →
    is_valid_quantity (tick_qty t) = true ∧ is_valid_price (tick_price t) = true
}.

(** The header a case starts from. *)
Definition hdr_for (type : Z) (hdr : TickMsg) : Prop :=
  ∃ ts, 0 ≤ ts < 2 ^ 48 ∧ hdr = mkTick type 0 0 ts 0 0 0 0.

Definition decodes (r : option (bool * TickMsg)) : Prop :=
  ∃ b t, r = Some (b, t) ∧ (b = true → tick_wf t).

Lemma decodes_false t : decodes (Some (false, t)).
Proof. by exists false, t. Qed.

Lemma decodes_true t : tick_wf t → decodes (Some (true, t)).
Proof. intros H. by exists true, t. Qed.

(** A rejected guard gives [decodes] at once; an accepted one gives its parts. *)
Lemma guard_split (b : bool) r t :
  (b = false → decodes r) → decodes (if b then Some (false, t) else r).
Proof. intros H. destruct b; [apply decodes_false|by apply H]. Qed.

Lemma valid_symbol symbols g key :
  st_rep symbols g → SymbolTable_lookup symbols key ≠ kNotFound →
  0 ≤ SymbolTable_lookup symbols key < kSymbols.
Proof.
  intros H. rewrite (lookup_rep symbols g H). destruct (g !! key) as [i|] eqn:E; [|done].
  intros _. by apply (str_values _ _ H key).
Qed.

(** Turn a false disjunction of guards into facts. *)
Ltac split_guards :=
  repeat match goal with
  | H : _ || _ = false |- _ => apply orb_false_iff in H as [? ?]
  | H : negb _ = false |- _ => apply negb_false_iff in H
  | H : (_ =? _) = false |- _ => apply Z.eqb_neq in H
  | H : (_ <=? _) = false |- _ => apply Z.leb_gt in H
  | H : (_ <? _) = false |- _ => apply Z.ltb_ge in H
  end.

Lemma tick_ok_intro ty fl s ts p q r m :
  0 ≤ ty < 2 ^ 8 → 0 ≤ fl < 2 ^ 8 → 0 ≤ s < kSymbols → 0 ≤ ts < 2 ^ 48 → 0 ≤ p < 2 ^ 32 →
  0 ≤ q < 2 ^ 32 → 0 ≤ r < 2 ^ 64 → 0 ≤ m < 2 ^ 64 → tick_ok (mkTick ty fl s ts p q r m).
Proof. unfold tick_ok, INT64_MIN, INT64_MAX, kSymbols. simpl. lia. Qed.

Ltac solve_wf :=
  split; cbn [msg_type tick_flags tick_symbol timestamp tick_price tick_qty order_ref match_num];
    [apply tick_ok_intro;
       try (repeat match goal with |- context [if ?b then _ else _] => destruct b end;
            (split; [discriminate|reflexivity]));
       unfold kSymbols in *; lia
    | assumption || lia | .. ];
    try (intros [E|E]; discriminate E); try (intros [E|[E|E]]; discriminate E);
    try (intros E; discriminate E); intros _; split_and?; assumption.

Lemma decode_executed_ok raw hdr :
  bytes raw → hdr_for kOrderExecuted hdr → decodes (decode_executed raw hdr).
Proof.
  intros Hb (ts & Hts & ->). unfold decode_executed. apply guard_split. intros Hl. split_guards.
  repeat next_load. apply guard_split. intros Hg. split_guards. repeat next_load.
  apply decodes_true. solve_wf.
Qed.

Lemma decode_exec_price_ok raw hdr :
  bytes raw → hdr_for kOrderExecPrice hdr → decodes (decode_exec_price raw hdr).
Proof.
  intros Hb (ts & Hts & ->). unfold decode_exec_price. apply guard_split. intros Hl. split_guards.
  repeat next_load. apply guard_split. intros Hg. split_guards. repeat next_load.
  apply decodes_true. solve_wf.
Qed.

Lemma decode_cancel_ok raw hdr :
  bytes raw → hdr_for kOrderCancel hdr → decodes (decode_cancel raw hdr).
Proof.
  intros Hb (ts & Hts & ->). unfold decode_cancel. apply guard_split. intros Hl. split_guards.
  repeat next_load. apply guard_split. intros Hg. split_guards. apply decodes_true. solve_wf.
Qed.

Lemma decode_delete_ok raw hdr :
  bytes raw → hdr_for kOrderDelete hdr → decodes (decode_delete raw hdr).
Proof.
  intros Hb (ts & Hts & ->). unfold decode_delete. apply guard_split. intros Hl. split_guards.
  repeat next_load. apply guard_split. intros Hg. split_guards. apply decodes_true. solve_wf.
Qed.

Lemma decode_replace_ok raw hdr :
  bytes raw → hdr_for kOrderReplace hdr → decodes (decode_replace raw hdr).
Proof.
  intros Hb (ts & Hts & ->). unfold decode_replace. apply guard_split. intros Hl. split_guards.
  repeat next_load. apply guard_split. intros Hg. split_guards. apply decodes_true. solve_wf.
Qed.

Section with_symbols.
Context (symbols : SymbolTable) (g : gmap Z Z) (Hsym : st_rep symbols g).

Lemma decode_add_ok raw hdr t :
  bytes raw → t = kAddOrder ∨ t = kAddOrderMPID → hdr_for t hdr → decodes (decode_add raw symbols hdr).
Proof using Hsym.
  intros Hb Ht (ts & Hts & ->). unfold decode_add. cbn [msg_type]. apply guard_split. intros Hl.
  assert (36 ≤ Z.of_nat (length raw)) by (split_guards; destruct (t =? kAddOrder); lia). clear Hl.
  next_load. apply guard_split. intros Hs. split_guards. pose proof (valid_symbol _ _ _ Hsym Hs).
  repeat next_load. apply guard_split. intros Hg. split_guards. apply decodes_true.
  destruct Ht as [-> | ->]; solve_wf.
Qed.

Lemma decode_trade_ok raw hdr :
  bytes raw → hdr_for kTrade hdr → decodes (decode_trade raw symbols hdr).
Proof using Hsym.
  intros Hb (ts & Hts & ->). unfold decode_trade. apply guard_split. intros Hl. split_guards.
  repeat next_load. apply guard_split. intros Hg. split_guards.
  match goal with H : SymbolTable_lookup _ _ ≠ _ |- _ => pose proof (valid_symbol _ _ _ Hsym H) end.
  repeat next_load. apply decodes_true. solve_wf.
Qed.

Lemma decode_cross_ok raw hdr :
  bytes raw → hdr_for kCrossTrade hdr → decodes (decode_cross raw symbols hdr).
Proof using Hsym.
  intros Hb (ts & Hts & ->). unfold decode_cross. apply guard_split. intros Hl. split_guards.
  repeat next_load. apply guard_split. intros Hg. split_guards.
  match goal with H : SymbolTable_lookup _ _ ≠ _ |- _ => pose proof (valid_symbol _ _ _ Hsym H) end.
  repeat next_load. unfold kMaxQuantity in *. apply decodes_true. solve_wf.
Qed.

Lemma decode_status_ok raw hdr t min_len flag c1 c2 :
  bytes raw → t = kStockTradingAction ∨ t = kRegSHO → 20 ≤ min_len → 0 ≤ flag < 2 ^ 8 →
  hdr_for t hdr → decodes (decode_status min_len flag c1 c2 raw symbols hdr).
Proof using Hsym.
  intros Hb Ht Hmin Hflag (ts & Hts & ->). unfold decode_status. apply guard_split. intros Hl. split_guards.
  next_load. apply guard_split. intros Hs. split_guards. pose proof (valid_symbol _ _ _ Hsym Hs).
  next_load. apply decodes_true.
  assert (0 ≤ (if (x0 =? c1) || (x0 =? c2) then flag else 0) < 2 ^ 8) by (case_cond; lia).
  destruct Ht as [-> | ->]; solve_wf.
Qed.
End with_symbols.

(** ** The decoder as a whole *)

Lemma decode_itch_ok raw symbols g out :
  bytes raw → st_rep symbols g → decodes (decode_itch (Some raw) symbols out).
Proof.
  intros Hb Hsym. unfold decode_itch. apply guard_split. intros Hl. split_guards.
  destruct (byte_at raw 0 Hb) as (t & -> & Ht); [lia|]. cbn [mbind option_bind].
  apply guard_split. intros _.
  destruct (timestamp_ok raw 5 Hb) as (ts & -> & Hts); [lia|]. cbn [mbind option_bind].
  apply guard_split. intros _.
  assert (Hh : ∀ ty, t = ty → hdr_for ty (mkTick t 0 0 ts 0 0 0 0)) by (intros ty ->; by exists ts).
  destruct (_ || _) eqn:E1.
  { apply (decode_add_ok symbols g Hsym raw _ t); [done| |by apply Hh].
    apply orb_true_iff in E1 as [E%Z.eqb_eq|E%Z.eqb_eq]; auto. }
  destruct (Z.eqb_spec t kOrderExecuted); [by apply decode_executed_ok; auto|].
  destruct (Z.eqb_spec t kOrderExecPrice); [by apply decode_exec_price_ok; auto|].
  destruct (Z.eqb_spec t kOrderCancel); [by apply decode_cancel_ok; auto|].
  destruct (Z.eqb_spec t kOrderDelete); [by apply decode_delete_ok; auto|].
  destruct (Z.eqb_spec t kOrderReplace); [by apply decode_replace_ok; auto|].
  destruct (Z.eqb_spec t kTrade); [by apply (decode_trade_ok symbols g Hsym); auto|].
  destruct (Z.eqb_spec t kCrossTrade); [by apply (decode_cross_ok symbols g Hsym); auto|].
  destruct (Z.eqb_spec t kStockTradingAction).
  { apply (decode_status_ok symbols g Hsym raw _ t); auto; done. }
  destruct (Z.eqb_spec t kRegSHO); [|apply decodes_false].
  apply (decode_status_ok symbols g Hsym raw _ t); auto; done.
Qed.

(** C29 (safety): decoding is memory safe and total.  For every byte string
    whatsoever, [decode_itch] returns without reading outside the message, and a
    tick it accepts has every field in range and a symbol the book addresses. *)
Theorem decode_itch_safe raw symbols g out :
  bytes raw → st_rep symbols g →
  ∃ ok t, decode_itch (Some raw) symbols out = Some (ok, t) ∧
    (ok = true → tick_ok t ∧ tick_symbol t < kSymbols).
Proof.
  intros Hb Hs. destruct (decode_itch_ok raw symbols g out Hb Hs) as (b & t & E & H).
  exists b, t. split; [done|]. intros Hb'. destruct (H Hb'). done.
Qed.

(** An Order Delete for reference 7 on symbol 2. *)
Definition delete_message : list Z :=
  [kOrderDelete; 0; 2; 0; 0; 0; 0; 0; 0; 3; 232; 0; 0; 0; 0; 0; 0; 0; 7].

Lemma decode_itch_safe_witness :
  ∃ ok t, decode_itch (Some delete_message) SymbolTable_clear TickMsg_zero = Some (ok, t) ∧
    ok = true ∧ order_ref t = 7 ∧ timestamp t = 1000.
Proof.
  destruct (decode_itch_safe delete_message SymbolTable_clear ∅ TickMsg_zero ltac:(by_decide) clear_rep)
    as (ok & t & E & _). exists ok, t. split; [exact E|]. vm_compute in E. by injection E as <- <-.
Defined.

(** ** The decoder and the book agree on what is valid *)

Definition handler {M} `{OrderIndex.OrderIndex M} (type : Z)
    : option (LOBEngine M → TickMsg → option (LOBEngine M)) :=
  if (type =? kAddOrder) || (type =? kAddOrderMPID) then Some on_add_order
  else if (type =? kOrderExecuted) || (type =? kOrderExecPrice) then Some on_order_executed
  else if type =? kOrderCancel then Some on_order_cancel
  else if type =? kOrderDelete then Some on_order_delete
  else if type =? kOrderReplace then Some on_order_replace
  else if type =? kTrade then Some on_trade
  else None.

Lemma wf_reaches_handler {M} `{OrderIndex.OrderIndex M} (e : LOBEngine M) t h :
  tick_wf t → handler (msg_type t) = Some h →
  process_unlocked e t =
    h (if 0 <? timestamp t then touch e (tick_symbol t) (timestamp t) else e) t.
Proof.
  intros [_ Hs Ha Hr Hd Hp Ht] Hh. rewrite process_dispatch. rewrite (proj2 (Z.leb_gt _ _)) by done.
  unfold handler in Hh. unfold dispatch.
  destruct (Z.eqb_spec (msg_type t) kAddOrder) as [E|_]; [|destruct (Z.eqb_spec (msg_type t) kAddOrderMPID) as [E|_]];
    cbn [orb] in *; try (injection Hh as <-; destruct Ha as (A1 & A2 & A3); [auto|];
      by rewrite (proj2 (Z.eqb_neq _ _) A1), A2, A3).
  destruct (Z.eqb_spec (msg_type t) kOrderExecuted) as [E|_]; [|destruct (Z.eqb_spec (msg_type t) kOrderExecPrice) as [E|_]];
    cbn [orb] in *; try (injection Hh as <-; destruct Hr as (A1 & A2); [auto|];
      by rewrite (proj2 (Z.eqb_neq _ _) A1), A2).
  destruct (Z.eqb_spec (msg_type t) kOrderCancel) as [E|_].
  { injection Hh as <-. destruct Hr as (A1 & A2); [auto|]. by rewrite (proj2 (Z.eqb_neq _ _) A1), A2. }
  destruct (Z.eqb_spec (msg_type t) kOrderDelete) as [E|_].
  { injection Hh as <-. by rewrite (proj2 (Z.eqb_neq _ _) (Hd E)). }
  destruct (Z.eqb_spec (msg_type t) kOrderReplace) as [E|_].
  { injection Hh as <-. destruct (Hp E) as (A1 & A2 & A3 & A4 & A5).
    by rewrite (proj2 (Z.eqb_neq _ _) A1), (proj2 (Z.eqb_neq _ _) A2), (proj2 (Z.eqb_neq _ _) A3), A4, A5. }
  destruct (Z.eqb_spec (msg_type t) kTrade) as [E|_]; [|done].
  injection Hh as <-. destruct (Ht E) as (A1 & A2). by rewrite A1, A2.
Qed.

(** The decoder and the book agree on validity.  Every order or
    trade message the decoder accepts passes all the checks of [process] and
    reaches its own handler: none is turned away, and none reaches the book
    unchecked. *)
Theorem decoded_ticks_reach_their_handler {M} `{OrderIndex.OrderIndex M} (e : LOBEngine M)
    raw symbols g out t h :
  bytes raw → st_rep symbols g → decode_itch (Some raw) symbols out = Some (true, t) →
  handler (msg_type t) = Some h →
  process_unlocked e t =
    h (if 0 <? timestamp t then touch e (tick_symbol t) (timestamp t) else e) t.
Proof.
  intros Hb Hs Hd Hh. destruct (decode_itch_ok raw symbols g out Hb Hs) as (b & t' & E & Hwf).
  rewrite Hd in E. injection E as <- <-. apply wf_reaches_handler; [by apply Hwf|done].
Qed.

Lemma decoded_ticks_reach_their_handler_witness :
  ∃ t, decode_itch (Some delete_message) SymbolTable_clear TickMsg_zero = Some (true, t) ∧
    process_unlocked fresh_engine t = on_order_delete (touch fresh_engine 2 1000) t.
Proof.
  exists (mkTick kOrderDelete 0 2 1000 0 0 7 0). split; [reflexivity|].
  refine (decoded_ticks_reach_their_handler fresh_engine delete_message SymbolTable_clear ∅ TickMsg_zero
    _ _ ltac:(by_decide) clear_rep _ _); reflexivity.
Defined.

(** A message that is refused can still overwrite the output.  The
    documentation of [decode_itch] says the output is untouched on a skip; an
    Order Delete with reference 0 is refused, and the output tick is cleared and
    holds the message's type, time and symbol. *)
Theorem refused_message_overwrites_output out :
  decode_itch (Some [kOrderDelete; 0; 2; 0; 0; 0; 0; 0; 0; 3; 232; 0; 0; 0; 0; 0; 0; 0; 0])
    SymbolTable_clear out = Some (false, mkTick kOrderDelete 0 2 1000 0 0 0 0).
Proof. reflexivity. Qed.
