(* ===== verification/Feed.v ===== *)
(** * Feed: the interface every market-data source implements (src/luv_feed.hpp)

    [IFeedSource] is the abstract base class; [FeedContract] is what its
    documentation promises of an implementation, as laws: a poll writes ticks
    into the tick ring with claim and commit, returns how many, and counts them. *)

From S2P Require Import Prelude Arena Lob LobCorrect Book Ring Consumer Itch.
From Stdlib Require Import ZArith Lia.
From stdpp Require Import base tactics gmap numbers option list.
Open Scope Z_scope.

(** The arena's tick ring is shared with the consumer: [feed_ring] is its state as
    the feed sees it and [feed_sync] the same feed after the other side moved. *)
Class IFeedSource (F : Type) := {
  feed_poll : F → Z → option (F * Z);
  feed_total_messages : F → Z;
  feed_ring : F → SPSCRing TickMsg;
  feed_sync : F → SPSCRing TickMsg → F
}.

Notation holds_ticks := (holds_queue TickMsg_zero tick_bits).

Class FeedContract (F : Type) `{IFeedSource F} (ready : F → Prop) := {
  poll_appends f now q :
    ready f → holds_ticks (feed_ring f) q →
    ∃ f' new, feed_poll f now = Some (f', Z.of_nat (length new)) ∧ ready f' ∧
      holds_ticks (feed_ring f') (q ++ new) ∧ Forall tick_wf new ∧
      feed_total_messages f' = u64 (feed_total_messages f + Z.of_nat (length new));
  ready_sync f r : ready f → ready (feed_sync f r);
  ring_sync f r : feed_ring (feed_sync f r) = r
}.

(** The ingestion loop, one poll per clock reading. *)
Fixpoint run_polls {F} `{IFeedSource F} (f : F) (clock : list Z) : option F :=
  match clock with
  | [] => Some f
  | now :: clock' => r ← feed_poll f now; run_polls (fst r) clock'
  end.

(** Any feed that keeps the contract runs forever, and the ring receives exactly
    what it counts. *)
Lemma polls_append {F} `{FeedContract F ready} (f : F) clock q :
  ready f → holds_ticks (feed_ring f) q → 0 ≤ feed_total_messages f < 2 ^ 64 →
  ∃ f' new, run_polls f clock = Some f' ∧ ready f' ∧ holds_ticks (feed_ring f') (q ++ new) ∧
    Forall tick_wf new ∧ feed_total_messages f' = u64 (feed_total_messages f + Z.of_nat (length new)).
Proof.
  revert f q. induction clock as [|now clock IH]; intros f q Hf Hq Hn; cbn [run_polls].
  { exists f, []. rewrite app_nil_r. split_and!; try done. rewrite Z.add_0_r. unfold u64. by rewrite Z.mod_small. }
  destruct (poll_appends f now q Hf Hq) as (f1 & new1 & -> & Hf1 & Hq1 & Hw1 & Hc1). cbn [mbind option_bind fst].
  destruct (IH f1 (q ++ new1) Hf1 Hq1) as (f2 & new2 & E & Hf2 & Hq2 & Hw2 & Hc2).
  { rewrite Hc1. apply Z.mod_pos_bound. lia. }
  exists f2, (new1 ++ new2). rewrite app_assoc. split_and!; try done; [by apply Forall_app|].
  rewrite Hc2, Hc1, u64_add, length_app. f_equal. lia.
Qed.
