(* ===== verification/FeedSim.v ===== *)
(** * FeedSim: the simulated and replayed feed (src/luv_feed_sim.hpp)

    The generator runs in the [ST Xoshiro256] monad; [None] is undefined
    behaviour (a write outside the 50-byte message entry, a modulo by zero, a
    signed overflow).  The clock readings and the outcome of the system calls
    are inputs.  [drop_rate] is an IEEE double, computed with the executable
    binary64 operations of [SpecFloat]. *)

From S2P Require Import Prelude Arena Lob Ring Consumer SymbolTable Itch.
From Stdlib Require Import ZArith Lia SpecFloat.
From stdpp Require Import base tactics gmap numbers option list.
Open Scope Z_scope.

(** ** binary64 *)

Definition double : Type := spec_float.
Definition double_of_Z (z : Z) : double := binary_normalize 53 1024 z 0 false.
Definition dmul : double → double → double := SFmul 53 1024.
Definition dlt : double → double → bool := SFltb.
Definition dle : double → double → bool := SFleb.

(** ** struct SimConfig *)

Inductive Mode := kSynthetic | kReplay.

Record SimConfig := mkSimConfig {
  mode : Mode;
  synthetic_symbols : Z;
  target_rate_hz : Z;
  seed : Z;
  cfg_prebuf_count : Z;
  drop_rate : double;
  reorder_window : Z;
  burst_size : Z;
  burst_interval : Z;
  min_price : Z;
  max_price : Z;
  min_qty : Z;
  max_qty : Z
}.

(** The defaults, in synthetic mode. *)
Definition SimConfig_default : SimConfig :=
  mkSimConfig kSynthetic 128 1000000 0xDEADBEEFCAFEBABE (2 ^ 16) (double_of_Z 0) 0 0 0
    1000000 5000000 1 10000.

(** ** struct Xoshiro256 *)

Record Xoshiro256 := mkRng { s0 : Z; s1 : Z; s2 : Z; s3 : Z }.

Definition splitmix (seed : Z) : Z * Z :=
  let seed := u64 (seed + 0x9E3779B97F4A7C15) in
  let z := u64 (Z.lxor seed (Z.shiftr seed 30) * 0xBF58476D1CE4E5B9) in
  let z := u64 (Z.lxor z (Z.shiftr z 27) * 0x94D049BB133111EB) in
  (seed, Z.lxor z (Z.shiftr z 31)).

Definition Xoshiro256_init (seed : Z) : Xoshiro256 :=
  let '(seed, a) := splitmix seed in
  let '(seed, b) := splitmix seed in
  let '(seed, c) := splitmix seed in
  let '(seed, d) := splitmix seed in
  mkRng a b c d.

Definition rotl (x k : Z) : Z := Z.lor (u64 (Z.shiftl x k)) (Z.shiftr x (64 - k)).

Definition next : ST Xoshiro256 Z := λ '(mkRng a b c d),
  let result := u64 (rotl (u64 (b * 5)) 7 * 9) in
  let t := u64 (Z.shiftl b 17) in
  let c := Z.lxor c a in
  let d := Z.lxor d b in
  let b := Z.lxor b c in
  let a := Z.lxor a d in
  let c := Z.lxor c t in
  Some (result, mkRng a b c (rotl d 45)).

Definition checked_mod (n m : Z) : option Z := if m =? 0 then None else Some (n mod m).

(** [uniform]: the subtraction and the final addition are signed. *)
Definition uniform (lo hi : Z) : ST Xoshiro256 Z :=
  d ← lift (chk64 (hi - lo));
  let range := u64 (u64 d + 1) in
  x ← next;
  r ← lift (checked_mod x range);
  lift (chk64 (lo + i64 r)).

Definition uniform_u32 (lo hi : Z) : ST Xoshiro256 Z :=
  let range := u32 (u32 (hi - lo) + 1) in
  x ← next;
  r ← lift (checked_mod x range);
  mret (u32 (lo + u32 r)).

(** ** Big-endian encoding *)

Definition kSimMaxMsgLen : nat := 50.

Definition put_u8 (dst : list Z) (off : nat) (v : Z) : option (list Z) := put dst off [v].

Definition put_u16_be (dst : list Z) (off : nat) (v : Z) : option (list Z) :=
  put dst off [u8 (Z.shiftr v 8); u8 v].

Definition put_u32_be (dst : list Z) (off : nat) (v : Z) : option (list Z) :=
  put dst off [u8 (Z.shiftr v 24); u8 (Z.shiftr v 16); u8 (Z.shiftr v 8); u8 v].

Definition put_u48_be (dst : list Z) (off : nat) (v : Z) : option (list Z) :=
  put dst off [u8 (Z.shiftr v 40); u8 (Z.shiftr v 32); u8 (Z.shiftr v 24);
               u8 (Z.shiftr v 16); u8 (Z.shiftr v 8); u8 v].

Definition put_u64_be (dst : list Z) (off : nat) (v : Z) : option (list Z) :=
  put dst off [u8 (Z.shiftr v 56); u8 (Z.shiftr v 48); u8 (Z.shiftr v 40); u8 (Z.shiftr v 32);
               u8 (Z.shiftr v 24); u8 (Z.shiftr v 16); u8 (Z.shiftr v 8); u8 v].

(** [snprintf(stock, 9, "S%03u    ", i)]: at most 8 characters are kept. *)
Fixpoint dec_digits (fuel : nat) (n : Z) : list Z :=
  match fuel with
  | O => []
  | S fuel' => if n <? 10 then [48 + n] else dec_digits fuel' (n / 10) ++ [48 + n mod 10]
  end.

Definition pad3 (ds : list Z) : list Z := replicate (3 - length ds) 48 ++ ds.

Definition ticker (i : Z) : list Z := take 8 (chS :: pad3 (dec_digits 10 i) ++ replicate 4 32).

(** ** The message generators: the filled entry and the length *)

Definition write_itch_header (dst : list Z) (msg_type locate ts : Z) : option (list Z) :=
  dst ← put_u8 dst 0 msg_type;
  dst ← put_u16_be dst 1 locate;
  dst ← put_u16_be dst 3 0;
  put_u48_be dst 5 ts.

Section generators.
Context (cfg : SimConfig).

Definition pick_symbol : ST Xoshiro256 Z :=
  s ← uniform_u32 0 (u32 (synthetic_symbols cfg - 1));
  mret (u16 s).

Definition gen_add_order (dst : list Z) (ts order_ref : Z) : ST Xoshiro256 (list Z * Z) :=
  sym_idx ← pick_symbol;
  dst ← lift (write_itch_header dst kAddOrder sym_idx ts);
  dst ← lift (put_u64_be dst 11 order_ref);
  side ← next;
  dst ← lift (put_u8 dst 19 (if Z.land side 1 =? 0 then chS else chB));
  shares ← uniform (min_qty cfg) (max_qty cfg);
  dst ← lift (put_u32_be dst 20 (u32 shares));
  dst ← lift (put dst 24 (ticker sym_idx));
  price ← uniform (min_price cfg) (max_price cfg);
  dst ← lift (put_u32_be dst 32 (u32 price));
  mret (dst, 36).

Definition pick_ref (order_ref_max : Z) : ST Xoshiro256 Z :=
  if 1 <? order_ref_max then r ← uniform 1 (i64 (order_ref_max - 1)); mret (u64 r) else mret 1.

Definition gen_order_executed (dst : list Z) (ts order_ref_max : Z) : ST Xoshiro256 (list Z * Z) :=
  sym_idx ← pick_symbol;
  dst ← lift (write_itch_header dst kOrderExecuted sym_idx ts);
  ref ← pick_ref order_ref_max;
  dst ← lift (put_u64_be dst 11 ref);
  exec_shares ← uniform 1 (Z.quot (max_qty cfg) 2);
  dst ← lift (put_u32_be dst 19 (u32 exec_shares));
  match_num ← next;
  dst ← lift (put_u64_be dst 23 match_num);
  mret (dst, 31).

Definition gen_order_cancel (dst : list Z) (ts order_ref_max : Z) : ST Xoshiro256 (list Z * Z) :=
  sym_idx ← pick_symbol;
  dst ← lift (write_itch_header dst kOrderCancel sym_idx ts);
  ref ← pick_ref order_ref_max;
  dst ← lift (put_u64_be dst 11 ref);
  cancel_shares ← uniform 1 (max_qty cfg);
  dst ← lift (put_u32_be dst 19 (u32 cancel_shares));
  mret (dst, 23).

Definition gen_order_delete (dst : list Z) (ts order_ref_max : Z) : ST Xoshiro256 (list Z * Z) :=
  sym_idx ← pick_symbol;
  dst ← lift (write_itch_header dst kOrderDelete sym_idx ts);
  ref ← pick_ref order_ref_max;
  dst ← lift (put_u64_be dst 11 ref);
  mret (dst, 19).

(** One iteration of the loop of [generate_synthetic_messages], and the loop:
    the entries and lengths of [n] messages. *)
Definition gen_message (ts order_ref_seq : Z) : ST Xoshiro256 (list Z * Z * Z) :=
  let dst := replicate kSimMaxMsgLen 0 in
  roll ← uniform_u32 0 99;
  if roll <? 60 then
    m ← gen_add_order dst ts order_ref_seq; mret (m, u64 (order_ref_seq + 1))
  else if roll <? 75 then
    m ← gen_order_executed dst ts order_ref_seq; mret (m, order_ref_seq)
  else if roll <? 90 then
    m ← gen_order_cancel dst ts order_ref_seq; mret (m, order_ref_seq)
  else
    m ← gen_order_delete dst ts order_ref_seq; mret (m, order_ref_seq).

Fixpoint generate_from (n : nat) (ts order_ref_seq : Z) : ST Xoshiro256 (list (list Z * Z)) :=
  match n with
  | O => mret []
  | S n' =>
      r ← gen_message ts order_ref_seq;
      gap ← uniform 100 10000;
      rest ← generate_from n' (u64 (ts + u64 gap)) (snd r);
      mret (fst r :: rest)
  end.

Definition kOpenNs : Z := 34200000000000.

Definition generate_synthetic_messages : ST Xoshiro256 (list (list Z * Z)) :=
  generate_from (Z.to_nat (cfg_prebuf_count cfg)) kOpenNs 1.
End generators.

(** ** class SimFeedSource

    The private members, grouped; [tick_ring] is the arena's ring, to which the
    feed holds a reference.  [replay_base] is [None] for the null pointer. *)

Record Counters := mkCounters { total_messages : Z; total_bytes : Z; total_dropped : Z }.

Record Pacing := mkPacing {
  ns_per_msg : Z;
  last_emit_ns : Z;
  messages_since_burst : Z;
  burst_remaining : Z
}.

Record Synth := mkSynth {
  raw_buf : list (list Z);
  msg_lengths : list Z;
  prebuf_count : Z;
  prebuf_idx : Z;
  pending_idx : list Z;
  pending_count : Z;
  reorder_capacity : Z;
  reorder_source_remaining : Z
}.

Record SimFeedSource := mkSim {
  sim_cfg : SimConfig;
  counters : Counters;
  synth : Synth;
  sim_rng : Xoshiro256;
  sim_symbols : SymbolTable;
  pacing : Pacing;
  replay_base : option (list Z);
  replay_cursor : Z;
  tick_ring : SPSCRing TickMsg
}.

Definition set_counters (f : SimFeedSource) (x : Counters) : SimFeedSource :=
  mkSim (sim_cfg f) x (synth f) (sim_rng f) (sim_symbols f) (pacing f) (replay_base f) (replay_cursor f) (tick_ring f).
Definition set_synth (f : SimFeedSource) (x : Synth) : SimFeedSource :=
  mkSim (sim_cfg f) (counters f) x (sim_rng f) (sim_symbols f) (pacing f) (replay_base f) (replay_cursor f) (tick_ring f).
Definition set_rng (f : SimFeedSource) (x : Xoshiro256) : SimFeedSource :=
  mkSim (sim_cfg f) (counters f) (synth f) x (sim_symbols f) (pacing f) (replay_base f) (replay_cursor f) (tick_ring f).
Definition set_symbols (f : SimFeedSource) (x : SymbolTable) : SimFeedSource :=
  mkSim (sim_cfg f) (counters f) (synth f) (sim_rng f) x (pacing f) (replay_base f) (replay_cursor f) (tick_ring f).
Definition set_pacing (f : SimFeedSource) (x : Pacing) : SimFeedSource :=
  mkSim (sim_cfg f) (counters f) (synth f) (sim_rng f) (sim_symbols f) x (replay_base f) (replay_cursor f) (tick_ring f).
Definition set_replay (f : SimFeedSource) (b : option (list Z)) (c : Z) : SimFeedSource :=
  mkSim (sim_cfg f) (counters f) (synth f) (sim_rng f) (sim_symbols f) (pacing f) b c (tick_ring f).
Definition set_ring (f : SimFeedSource) (x : SPSCRing TickMsg) : SimFeedSource :=
  mkSim (sim_cfg f) (counters f) (synth f) (sim_rng f) (sim_symbols f) (pacing f) (replay_base f) (replay_cursor f) x.

(** The constructor: every member at its default, attached to a ring. *)
Definition SimFeedSource_new (cfg : SimConfig) (ring : SPSCRing TickMsg) : SimFeedSource :=
  mkSim cfg (mkCounters 0 0 0) (mkSynth [] [] 0 0 [] 0 0 0) (Xoshiro256_init 0) SymbolTable_clear
    (mkPacing 0 0 0 0) None 0 ring.

Definition count_message (c : Counters) (len : Z) : Counters :=
  mkCounters (u64 (total_messages c + 1)) (u64 (total_bytes c + len)) (total_dropped c).
Definition count_bytes (c : Counters) (len : Z) : Counters :=
  mkCounters (total_messages c) (u64 (total_bytes c + len)) (total_dropped c).
Definition count_drop (c : Counters) (len : Z) : Counters :=
  mkCounters (total_messages c) (u64 (total_bytes c + len)) (u64 (total_dropped c + 1)).

(** ** Initialisation *)

Definition pace_for (cfg : SimConfig) (p : Pacing) : Pacing :=
  if 0 <? target_rate_hz cfg
  then mkPacing (1000000000 / target_rate_hz cfg) (last_emit_ns p) (messages_since_burst p) (burst_remaining p)
  else p.

Definition set_last_emit (p : Pacing) (now : Z) : Pacing :=
  mkPacing (ns_per_msg p) now (messages_since_burst p) (burst_remaining p).

(** The tickers [init_synthetic] inserts. *)
Definition synthetic_tickers (n : Z) : list (Z * Z) :=
  (λ i, (default 0 (load_ticker_key (ticker (Z.of_nat i)) 0), u16 (Z.of_nat i))) <$> seq 0 (Z.to_nat n).

Definition init_synthetic (f : SimFeedSource) (mmap_ok : bool) (now : Z) : option (SimFeedSource * bool) :=
  let cfg := sim_cfg f in
  let n := cfg_prebuf_count cfg in
  let f := set_rng f (Xoshiro256_init (seed cfg)) in
  let f := set_pacing f (pace_for cfg (pacing f)) in
  table ← load_symbols (sim_symbols f) (synthetic_tickers (synthetic_symbols cfg));
  let f := set_symbols f table in
  let y := synth f in
  let f := set_synth f (mkSynth (raw_buf y) (msg_lengths y) n (prebuf_idx y) (pending_idx y)
             (pending_count y) (reorder_capacity y) (reorder_source_remaining y)) in
  if n =? 0 then Some (f, false) else
  let cap := if reorder_window cfg <? n then reorder_window cfg else n in
  let f := set_synth f (mkSynth (raw_buf y) (msg_lengths y) n (prebuf_idx y) (pending_idx y)
             (pending_count y) cap (reorder_source_remaining y)) in
  let msg_slab := n * Z.of_nat kSimMaxMsgLen in
  let len_slab := n * 4 in
  let reorder_slab := cap * 4 in
  if (SIZE_MAX - len_slab <? msg_slab) || (SIZE_MAX - reorder_slab <? msg_slab + len_slab)
  then Some (f, false) else
  if negb (can_align_up (msg_slab + len_slab + reorder_slab) 4096) then Some (f, false) else
  if negb mmap_ok then Some (f, false) else
  '(msgs, rng) ← generate_synthetic_messages cfg (sim_rng f);
  let f := set_synth (set_rng f rng)
             (mkSynth (fst <$> msgs) (snd <$> msgs) n (prebuf_idx y) (replicate (Z.to_nat cap) 0)
                (pending_count y) cap (reorder_source_remaining y)) in
  Some (set_pacing f (set_last_emit (pacing f) now), true).

(** [file] is what [open] and [fstat] give, [None] when one of them fails. *)
Definition init_replay (f : SimFeedSource) (file : option (list Z)) (mmap_ok : bool) (now : Z)
    : SimFeedSource * bool :=
  match file with
  | None => (f, false)
  | Some bytes =>
      if (length bytes =? 0)%nat then (f, false) else
      if negb mmap_ok then (f, false) else
      let f := set_replay f (Some bytes) 0 in
      (set_pacing f (set_last_emit (pace_for (sim_cfg f) (pacing f)) now), true)
  end.

Definition SimFeedSource_init (f : SimFeedSource) (arena_initialised : bool) (file : option (list Z))
    (mmap_ok : bool) (now : Z) : option (SimFeedSource * bool) :=
  if negb arena_initialised then Some (f, false) else
  if negb (dle (double_of_Z 0) (drop_rate (sim_cfg f)) && dle (drop_rate (sim_cfg f)) (double_of_Z 1))
  then Some (f, false) else
  match mode (sim_cfg f) with
  | kSynthetic => init_synthetic f mmap_ok now
  | kReplay => Some (init_replay f file mmap_ok now)
  end.

(** ** Polling *)

Definition burst_active (p : Pacing) : bool := negb (burst_remaining p =? 0).

Definition note_attempt (cfg : SimConfig) (p : Pacing) : Pacing :=
  if negb (burst_remaining p =? 0) then
    mkPacing (ns_per_msg p) (last_emit_ns p) (messages_since_burst p) (u32 (burst_remaining p - 1))
  else if (0 <? burst_size cfg) && (0 <? burst_interval cfg) then
    let since := u32 (messages_since_burst p + 1) in
    if burst_interval cfg <=? since
    then mkPacing (ns_per_msg p) (last_emit_ns p) 0 (burst_size cfg)
    else mkPacing (ns_per_msg p) (last_emit_ns p) since (burst_remaining p)
  else p.

Definition should_drop (cfg : SimConfig) : ST Xoshiro256 bool :=
  if dle (drop_rate cfg) (double_of_Z 0) then mret false else
  if dle (double_of_Z 1) (drop_rate cfg) then mret true else
  x ← uniform_u32 0 999;
  mret (dlt (double_of_Z x) (dmul (drop_rate cfg) (double_of_Z 1000))).

(** The rate limit at the top of both polls: [None] to give up this time. *)
Definition pace (p : Pacing) (now : Z) : option Pacing :=
  if negb (burst_active p) && (0 <? ns_per_msg p) then
    if u64 (now - last_emit_ns p) <? ns_per_msg p then None else Some (set_last_emit p now)
  else Some p.

(** [_prebuf_idx = (_prebuf_idx + 1) % _prebuf_count], and the append to the
    reorder window. *)
Definition advance_prebuf (y : Synth) : option Synth :=
  i ← checked_mod (u32 (prebuf_idx y + 1)) (prebuf_count y);
  Some (mkSynth (raw_buf y) (msg_lengths y) (prebuf_count y) i (pending_idx y) (pending_count y)
          (reorder_capacity y) (reorder_source_remaining y)).

Definition push_pending (y : Synth) : option Synth :=
  l ← zset (pending_idx y) (pending_count y) (prebuf_idx y);
  advance_prebuf (mkSynth (raw_buf y) (msg_lengths y) (prebuf_count y) (prebuf_idx y) l
    (u32 (pending_count y + 1)) (reorder_capacity y) (reorder_source_remaining y)).

Fixpoint fill_pending (n : nat) (y : Synth) : option Synth :=
  match n with O => Some y | S n' => y ← push_pending y; fill_pending n' y end.

Definition set_remaining (y : Synth) (r : Z) : Synth :=
  mkSynth (raw_buf y) (msg_lengths y) (prebuf_count y) (prebuf_idx y) (pending_idx y) (pending_count y)
    (reorder_capacity y) r.

Definition refill_window (y : Synth) : option Synth :=
  if pending_count y =? 0 then
    y ← fill_pending (Z.to_nat (reorder_capacity y - pending_count y)) y;
    Some (set_remaining y (u32 (prebuf_count y - reorder_capacity y)))
  else if negb (reorder_source_remaining y =? 0) then
    y ← push_pending y;
    Some (set_remaining y (u32 (reorder_source_remaining y - 1)))
  else Some y.

Definition next_synthetic_index (y : Synth) : ST Xoshiro256 (Z * Synth) :=
  if reorder_capacity y =? 0 then
    y' ← lift (advance_prebuf y); mret (prebuf_idx y, y')
  else
    y ← lift (refill_window y);
    choice ← uniform_u32 0 (u32 (pending_count y - 1));
    index ← lift (zget (pending_idx y) choice);
    let last := u32 (pending_count y - 1) in
    moved ← lift (zget (pending_idx y) last);
    l ← lift (zset (pending_idx y) choice moved);
    mret (index, mkSynth (raw_buf y) (msg_lengths y) (prebuf_count y) (prebuf_idx y) l last
                   (reorder_capacity y) (reorder_source_remaining y)).

Definition ring_full (f : SimFeedSource) : bool := kTickCapacity <=? ring_size (tick_ring f).

(** Claim a slot, decode into it, and commit when the message is accepted. *)
Definition claim_and_decode (f : SimFeedSource) (raw : list Z) : option (option (SimFeedSource * bool)) :=
  match try_claim tick_bits (tick_ring f) (ring_tail (tick_ring f)) with
  | None => Some None
  | Some slot =>
      '(ok, t) ← decode_itch (Some raw) (sim_symbols f) (read_slot TickMsg_zero (tick_ring f) slot);
      let r := write_slot (tick_ring f) slot t in
      Some (Some (set_ring f (if ok : bool then commit r else r), ok))
  end.

Definition poll_synthetic (f : SimFeedSource) (now : Z) : option (SimFeedSource * Z) :=
  match pace (pacing f) now with
  | None => Some (f, 0)
  | Some p =>
      let f := set_pacing f p in
      if ring_full f then Some (f, 0) else
      '((idx, y), rng) ← next_synthetic_index (synth f) (sim_rng f);
      let f := set_rng (set_synth f y) rng in
      entry ← zget (raw_buf y) idx;
      len ← zget (msg_lengths y) idx;
      let f := set_pacing f (note_attempt (sim_cfg f) (pacing f)) in
      '(dropped, rng) ← should_drop (sim_cfg f) (sim_rng f);
      let f := set_rng f rng in
      if dropped : bool then Some (set_counters f (count_drop (counters f) len), 0) else
      raw ← slice entry 0 len;
      r ← claim_and_decode f raw;
      match r with
      | None => Some (f, 0)
      | Some (f, true) => Some (set_counters f (count_message (counters f) len), 1)
      | Some (f, false) => Some (set_counters f (count_bytes (counters f) len), 0)
      end
  end.

(** [poll_replay] from the length prefix at the cursor on. *)
Definition replay_frame (f : SimFeedSource) (file : list Z) : option (SimFeedSource * Z) :=
  let cursor := replay_cursor f in
  p0 ← zget file cursor;
  p1 ← zget file (cursor + 1);
  let msg_len := u16 (Z.lor (Z.shiftl p0 8) p1) in
  if (msg_len =? 0) || (Z.of_nat (length file) <? u64 (cursor + 2 + msg_len))
  then Some (set_replay f (Some file) 0, 0) else
  raw ← slice file (cursor + 2) msg_len;
  let f := set_pacing f (note_attempt (sim_cfg f) (pacing f)) in
  '(dropped, rng) ← should_drop (sim_cfg f) (sim_rng f);
  let f := set_rng f rng in
  let cursor' := u64 (cursor + (2 + msg_len)) in
  if dropped : bool then
    Some (set_replay (set_counters f (count_drop (counters f) (2 + msg_len))) (Some file) cursor', 0)
  else
  r ← claim_and_decode f raw;
  match r with
  | None => Some (f, 0)
  | Some (f, ok) =>
      let f := set_counters f (if ok : bool then count_message (counters f) (2 + msg_len)
                               else count_bytes (counters f) (2 + msg_len)) in
      Some (set_replay f (Some file) cursor', if ok then 1 else 0)
  end.

Definition poll_replay (f : SimFeedSource) (now : Z) : option (SimFeedSource * Z) :=
  match pace (pacing f) now with
  | None => Some (f, 0)
  | Some p =>
      let f := set_pacing f p in
      if ring_full f then Some (f, 0) else
      file ← replay_base f;
      let size := Z.of_nat (length file) in
      let f := if size <? u64 (replay_cursor f + 2) then set_replay f (Some file) 0 else f in
      if size <? u64 (replay_cursor f + 2) then Some (f, 0) else replay_frame f file
  end.

Definition poll (f : SimFeedSource) (now : Z) : option (SimFeedSource * Z) :=
  match mode (sim_cfg f) with kSynthetic => poll_synthetic f now | kReplay => poll_replay f now end.
