(* ===== verification/FeedGen.v ===== *)
(** * FeedGen: what the synthetic generator writes, the decoder reads back; and the
    length-prefixed frames of replay files and MoldUDP64 packets *)

From S2P Require Import Prelude Arena Lob LobCorrect Book Ring Consumer SymbolTable Itch FeedSim.
From Stdlib Require Import ZArith Lia.
From stdpp Require Import base tactics gmap numbers option list.
Open Scope Z_scope.

(** ** The generator's random draws *)

Lemma next_yields : yields next (λ x, 0 ≤ x < 2 ^ 64).
Proof. intros [a b c d]. do 2 eexists. split; [reflexivity|]. apply Z.mod_pos_bound. lia. Qed.

Lemma checked_mod_pos n m : 0 < m → checked_mod n m = Some (n mod m).
Proof. intros H. unfold checked_mod. by rewrite (proj2 (Z.eqb_neq m 0)) by lia. Qed.

Lemma i64_small z : 0 ≤ z < 2 ^ 63 → i64 z = z.
Proof. intros H. unfold i64, u64. rewrite Z.mod_small by lia. by rewrite (proj2 (Z.ltb_lt _ _)) by lia. Qed.

(** [uniform] stays inside its closed interval, with no undefined behaviour,
    whenever the interval is not empty and its width fits. *)
Lemma uniform_yields lo hi :
  INT64_MIN ≤ lo → lo ≤ hi ≤ INT64_MAX → hi - lo ≤ INT64_MAX → yields (uniform lo hi) (λ x, lo ≤ x ≤ hi).
Proof.
  intros Hlo Hhi Hw. unfold uniform, INT64_MIN, INT64_MAX in *.
  eapply yields_lift_bind; [apply chk64_ok; unfold INT64_MIN, INT64_MAX; lia|]. cbv beta zeta.
  assert (u64 (u64 (hi - lo) + 1) = hi - lo + 1) as ->.
  { unfold u64. rewrite (Z.mod_small (hi - lo)) by lia. apply Z.mod_small. lia. }
  eapply yields_bind; [apply next_yields|]. intros x _.
  eapply yields_lift_bind; [apply checked_mod_pos; lia|].
  pose proof (Z.mod_pos_bound x (hi - lo + 1) ltac:(lia)).
  rewrite i64_small by lia. eapply yields_lift; [apply chk64_ok; unfold INT64_MIN, INT64_MAX; lia|]. lia.
Qed.

Lemma uniform_u32_yields lo hi :
  0 ≤ lo ≤ hi → hi < 2 ^ 32 → hi - lo < 2 ^ 32 - 1 → yields (uniform_u32 lo hi) (λ x, lo ≤ x ≤ hi).
Proof.
  intros Hlo Hhi Hw. unfold uniform_u32.
  assert (u32 (u32 (hi - lo) + 1) = hi - lo + 1) as ->.
  { unfold u32. rewrite (Z.mod_small (hi - lo)) by lia. apply Z.mod_small. lia. }
  eapply yields_bind; [apply next_yields|]. intros x _.
  eapply yields_lift_bind; [apply checked_mod_pos; lia|].
  pose proof (Z.mod_pos_bound x (hi - lo + 1) ltac:(lia)).
  apply yields_ret. unfold u32. set (r := x mod _) in *.
  rewrite (Z.mod_small r) by lia. rewrite Z.mod_small; lia.
Qed.

(** ** Reading back big-endian fields *)

Lemma load_le_val n raw off bs :
  take n (drop off raw) = bs → length bs = n → load_le n raw off = Some (le_val bs).
Proof.
  revert off bs. induction n as [|n IH]; intros off bs E Hl.
  - by apply nil_length_inv in Hl as ->.
  - destruct bs as [|b bs]; [done|]. cbn [load_le].
    assert (Hd : raw !! off = Some b) by
      (rewrite <- (Nat.add_0_r off), <- lookup_drop, <- (lookup_take_lt _ (S n)) by lia; by rewrite E).
    rewrite Hd. cbn [mbind option_bind]. rewrite (IH (S off) bs); [done| |by injection Hl].
    rewrite (drop_S raw b off Hd) in E. by injection E.
Qed.

Lemma bswap_val bs : Forall (λ b, 0 ≤ b < 256) bs → bswap (length bs) (le_val bs) = be_val bs.
Proof.
  induction 1 as [|b bs Hb _ IH]; [done|]. cbn [length bswap le_val be_val].
  rewrite (Z.mul_comm 256), Z_mod_plus_full.
  rewrite (Z.mod_small b) by done. rewrite Z.div_add by lia. rewrite (Z.div_small b) by done.
  by rewrite Z.add_0_l, IH.
Qed.

Lemma be_at n raw off bs :
  take n (drop off raw) = bs → length bs = n → bytes bs →
  (v ← load_le n raw off; Some (bswap n v)) = Some (be_val bs).
Proof.
  intros E Hl Hb. rewrite (load_le_val n raw off bs E Hl). cbn [mbind option_bind].
  by rewrite <- Hl, bswap_val.
Qed.

Lemma be_enc_at n raw off v :
  take n (drop off raw) = enc_be n v → 0 ≤ v < 256 ^ Z.of_nat n →
  (v ← load_le n raw off; Some (bswap n v)) = Some v.
Proof.
  intros E Hv. rewrite (be_at n raw off (enc_be n v) E (enc_be_length n v) (enc_be_bytes n v)).
  by rewrite be_val_enc, Z.mod_small.
Qed.

Lemma be16_at raw off v : take 2 (drop off raw) = enc_be 2 v → 0 ≤ v < 2 ^ 16 → be16 raw off = Some v.
Proof. apply (be_enc_at 2). Qed.
Lemma be32_at raw off v : take 4 (drop off raw) = enc_be 4 v → 0 ≤ v < 2 ^ 32 → be32 raw off = Some v.
Proof. apply (be_enc_at 4). Qed.
Lemma be64_at raw off v : take 8 (drop off raw) = enc_be 8 v → 0 ≤ v < 2 ^ 64 → be64 raw off = Some v.
Proof. apply (be_enc_at 8). Qed.

Lemma timestamp_at raw off v :
  take 6 (drop off raw) = enc_be 6 v → 0 ≤ v < 2 ^ 48 → be_timestamp48 raw off = Some v.
Proof.
  intros E Hv. unfold be_timestamp48.
  assert (E2 : take 2 (drop off raw) = take 2 (enc_be 6 v)) by (rewrite <- E, take_take; done).
  assert (E4 : take 4 (drop (off + 2) raw) = drop 2 (enc_be 6 v)).
  { rewrite <- drop_drop, <- E. change 4%nat with (6 - 2)%nat. by rewrite <- skipn_firstn_comm. }
  unfold be16, be32.
  rewrite (be_at 2 raw off _ E2 eq_refl) by (apply Forall_take, enc_be_bytes).
  cbn [mbind option_bind].
  rewrite (be_at 4 raw (off + 2) _ E4 eq_refl) by (apply Forall_drop, enc_be_bytes).
  cbn [mbind option_bind]. rewrite lor_add; [|lia|].
  - pose proof (be_val_enc 6 v) as H. rewrite Z.mod_small in H by (change (256 ^ Z.of_nat 6) with (2 ^ 48); lia).
    rewrite <- H at 3. cbn [enc_be be_val take drop length]. f_equal. lia.
  - change (drop 2 (enc_be 6 v)) with (enc_be 4 v). rewrite be_val_enc. apply Z.mod_pos_bound. lia.
Qed.

(** ** Tickers *)

Lemma ticker_length i : length (ticker i) = 8%nat.
Proof.
  unfold ticker, pad3. rewrite length_take. cbn [length].
  rewrite !length_app, !length_replicate. lia.
Qed.

Definition ticker_key (i : Z) : Z := le_val (ticker i).

Lemma ticker_key_load raw off i :
  take 8 (drop off raw) = ticker i → load_ticker_key raw off = Some (ticker_key i).
Proof. intros E. apply (load_le_val 8); [done|apply ticker_length]. Qed.

Lemma synthetic_tickers_eq n :
  synthetic_tickers n = (λ i, (ticker_key (Z.of_nat i), u16 (Z.of_nat i))) <$> seq 0 (Z.to_nat n).
Proof.
  unfold synthetic_tickers. apply list_fmap_ext. intros j i _. f_equal.
  rewrite (ticker_key_load _ _ (Z.of_nat i)); [done|]. apply take_ge. by rewrite ticker_length.
Qed.

(** The 512 tickers the book can address are all different. *)
Lemma ticker_keys_distinct : NoDup ((λ i, ticker_key (Z.of_nat i)) <$> seq 0 512).
Proof. by_decide. Qed.

Lemma ticker_key_inj i j : 0 ≤ i < kSymbols → 0 ≤ j < kSymbols → ticker_key i = ticker_key j → i = j.
Proof.
  unfold kSymbols. intros Hi Hj E.
  assert (H : ∀ k, 0 ≤ k < 512 → ((λ i, ticker_key (Z.of_nat i)) <$> seq 0 512) !! Z.to_nat k = Some (ticker_key k)).
  { intros k Hk. rewrite list_lookup_fmap, lookup_seq_lt by lia. simpl. by rewrite Z2Nat.id by lia. }
  pose proof (NoDup_lookup _ _ _ _ ticker_keys_distinct (H i Hi) (eq_trans (H j Hj) (f_equal Some (eq_sym E)))).
  lia.
Qed.

Definition table_ok (n : Z) (table : SymbolTable) : Prop :=
  ∀ i, 0 ≤ i < n → SymbolTable_lookup table (ticker_key i) = i.

Lemma symbol_map_seq a n g :
  (a + n ≤ 512)%nat → (Z.of_nat (size g) ≤ Z.of_nat a) →
  (∀ i, 0 ≤ i < Z.of_nat a → g !! ticker_key i = Some i) →
  ∀ i, 0 ≤ i < Z.of_nat (a + n) →
    symbol_map g ((λ i, (ticker_key (Z.of_nat i), u16 (Z.of_nat i))) <$> seq a n) !! ticker_key i = Some i.
Proof.
  revert a g. induction n as [|n IH]; intros a g Ha Hs Hg i Hi; [apply Hg; lia|].
  cbn [seq fmap list_fmap symbol_map].
  assert (E : u16 (Z.of_nat a) = Z.of_nat a) by (apply Z.mod_small; lia). rewrite E.
  rewrite !(proj2 (Z.ltb_lt _ _)) by (unfold kSymbols; lia). cbn [andb].
  apply (IH (S a)); [lia| | |lia].
  - rewrite map_size_insert. destruct (g !! ticker_key (Z.of_nat a)); unfold id; lia.
  - intros j Hj. destruct (decide (j = Z.of_nat a)) as [->|Hne]; [apply lookup_insert_eq|].
    rewrite lookup_insert_ne; [apply Hg; lia|]. intros E'. apply ticker_key_inj in E'; unfold kSymbols; lia.
Qed.

Lemma synthetic_table n :
  1 ≤ n ≤ kSymbols → ∃ table g, load_symbols SymbolTable_clear (synthetic_tickers n) = Some table ∧
    st_rep table g ∧ table_ok n table.
Proof.
  intros Hn. destruct (load_symbols_rep SymbolTable_clear ∅ (synthetic_tickers n) clear_rep) as (t & Et & Ht).
  { apply Forall_fmap, Forall_true. intros i. simpl. apply Z.mod_pos_bound. lia. }
  exists t, (symbol_map ∅ (synthetic_tickers n)). split; [done|]. split; [done|].
  intros i Hi. rewrite (lookup_rep t _ Ht), synthetic_tickers_eq. unfold kSymbols in Hn.
  by rewrite (symbol_map_seq 0) by (lia || (intros; lia) || (rewrite map_size_empty; lia)).
Qed.

(** ** The four messages, as the generators lay them out *)

Definition header (type sym ts : Z) : list Z := type :: enc_be 2 sym ++ enc_be 2 0 ++ enc_be 6 ts.

Definition add_message (sym ts ref side shares : Z) (stock : list Z) (price : Z) : list Z :=
  header kAddOrder sym ts ++ enc_be 8 ref ++ [side] ++ enc_be 4 shares ++ stock ++ enc_be 4 price.
Definition executed_message (sym ts ref shares m : Z) : list Z :=
  header kOrderExecuted sym ts ++ enc_be 8 ref ++ enc_be 4 shares ++ enc_be 8 m.
Definition cancel_message (sym ts ref shares : Z) : list Z :=
  header kOrderCancel sym ts ++ enc_be 8 ref ++ enc_be 4 shares.
Definition delete_message_for (sym ts ref : Z) : list Z := header kOrderDelete sym ts ++ enc_be 8 ref.

(** All of them are strings of bytes. *)
Lemma dec_digits_bytes fuel i : 0 ≤ i → bytes (dec_digits fuel i).
Proof.
  revert i. induction fuel as [|fuel IH]; intros i Hi; cbn [dec_digits]; [constructor|].
  destruct (Z.ltb_spec i 10); [repeat constructor; lia|]. apply Forall_app. split.
  - apply IH. apply Z.div_pos; lia.
  - pose proof (Z.mod_pos_bound i 10 ltac:(lia)). repeat constructor; lia.
Qed.

Lemma ticker_bytes i : 0 ≤ i → bytes (ticker i).
Proof.
  intros Hi. apply Forall_take. constructor; [unfold chS; lia|]. apply Forall_app. split.
  - apply Forall_app. split; [apply Forall_replicate; lia|by apply dec_digits_bytes].
  - apply Forall_replicate. lia.
Qed.

Lemma header_bytes type s t : 0 ≤ type < 256 → bytes (header type s t).
Proof. intros H. constructor; [done|]. repeat (apply Forall_app; split); apply enc_be_bytes. Qed.

(** Bytes of a message, by its parts. *)
Ltac solve_bytes :=
  repeat first [ apply Forall_app; split | apply header_bytes; done | apply enc_be_bytes
               | apply ticker_bytes; lia | apply Forall_replicate; lia ].

Section roundtrip.
Context (n : Z) (table : SymbolTable) (Htable : table_ok n table) (Hn : n ≤ kSymbols).
Context (sym ts ref : Z).
Context (Hsym : 0 ≤ sym < n) (Hts : 0 ≤ ts < kNanosPerDay) (Href : 0 < ref < 2 ^ 64).

Lemma ts_fits : 0 ≤ ts < 2 ^ 48.
Proof using Hts. unfold kNanosPerDay in Hts. lia. Qed.

Lemma sym_fits : 0 ≤ sym < 2 ^ 16.
Proof using Hn Hsym. unfold kSymbols in Hn. lia. Qed.

Lemma shares_fit q : is_valid_quantity q = true → 0 ≤ q < 2 ^ 32.
Proof using Type.
  unfold is_valid_quantity, kMinQuantity, kMaxQuantity. intros [H1 H2]%andb_true_iff.
  apply Z.leb_le in H1, H2. lia.
Qed.

Lemma price_fits p : is_valid_price p = true → 0 ≤ p < 2 ^ 32.
Proof using Type.
  unfold is_valid_price, kMinPrice, kMaxPrice. intros [H1 H2]%andb_true_iff.
  apply Z.leb_le in H1, H2. lia.
Qed.

Lemma decode_header type body out :
  decode_itch (Some (header type sym ts ++ body)) table out =
    let raw := header type sym ts ++ body in
    let len := Z.of_nat (length raw) in
    if negb (minimum_length type =? 0) && (len <? minimum_length type) then Some (false, out) else
    let hdr := mkTick type 0 0 ts 0 0 0 0 in
    if (type =? kAddOrder) || (type =? kAddOrderMPID) then decode_add raw table hdr
    else if type =? kOrderExecuted then decode_executed raw hdr
    else if type =? kOrderExecPrice then decode_exec_price raw hdr
    else if type =? kOrderCancel then decode_cancel raw hdr
    else if type =? kOrderDelete then decode_delete raw hdr
    else if type =? kOrderReplace then decode_replace raw hdr
    else if type =? kTrade then decode_trade raw table hdr
    else if type =? kCrossTrade then decode_cross raw table hdr
    else if type =? kStockTradingAction then decode_trading_action raw table hdr
    else if type =? kRegSHO then decode_reg_sho raw table hdr
    else Some (false, hdr).
Proof using Hts.
  unfold decode_itch. set (raw := header type sym ts ++ body).
  assert (Hl : Z.of_nat (length raw) <? 11 = false)
    by (unfold raw; rewrite length_app; cbn [length header enc_be app]; apply Z.ltb_ge; lia).
  rewrite Hl. change (raw !! 0%nat) with (Some type). cbn [mbind option_bind].
  rewrite (timestamp_at raw 5 ts); [|reflexivity|apply ts_fits]. cbn [mbind option_bind].
  by rewrite (proj2 (Z.leb_gt _ _) (proj2 Hts)).
Qed.

Lemma add_roundtrip side shares price out :
  side = chB ∨ side = chS → is_valid_quantity shares = true → is_valid_price price = true →
  decode_itch (Some (add_message sym ts ref side shares (ticker sym) price)) table out =
    Some (true, mkTick kAddOrder (if side =? chB then kBuy else 0) sym ts price shares ref 0).
Proof using All.
  intros Hside Hq Hp. unfold add_message. rewrite decode_header. cbv zeta.
  pose proof (ticker_length sym) as Hlen. pose proof (ticker_key_load (ticker sym) 0 sym) as Hkey.
  set (raw := _ ++ _).
  assert (Hraw : load_ticker_key raw 24 = Some (ticker_key sym)).
  { apply ticker_key_load. change (drop 24 raw) with (ticker sym ++ enc_be 4 price). by rewrite take_app_length'. }
  assert (length raw = 36%nat) as Hl by (unfold raw; cbn [header enc_be app length]; rewrite length_app, Hlen; done).
  rewrite Hl. cbn -[decode_add raw]. unfold decode_add. rewrite Hl. cbn [msg_type timestamp].
  change (kAddOrder =? kAddOrder) with true. cbn -[raw be64 be32 load_ticker_key kNotFound].
  rewrite Hraw. cbn [mbind option_bind]. rewrite (Htable sym Hsym).
  rewrite (proj2 (Z.eqb_neq sym kNotFound)) by (unfold kNotFound, kSymbols in *; lia).
  assert (Hp32 : take 4 (drop 32 raw) = enc_be 4 price).
  { change (drop 32 raw) with (drop 8 (ticker sym ++ enc_be 4 price)). by rewrite drop_app_length'. }
  rewrite (be64_at raw 11 ref eq_refl) by lia.
  rewrite (be32_at raw 20 shares eq_refl (shares_fit _ Hq)), (be32_at raw 32 price Hp32 (price_fits _ Hp)).
  cbn [mbind option_bind]. change (raw !! 19%nat) with (Some side). cbn [mbind option_bind].
  rewrite (proj2 (Z.eqb_neq ref 0)), Hq, Hp by lia. by destruct Hside as [-> | ->].
Qed.

Lemma executed_roundtrip shares m out :
  is_valid_quantity shares = true → 0 ≤ m < 2 ^ 64 →
  decode_itch (Some (executed_message sym ts ref shares m)) table out =
    Some (true, mkTick kOrderExecuted kPrintable sym ts 0 shares ref m).
Proof using Hn Hsym Hts Href.
  intros Hq Hm. pose proof (shares_fit _ Hq). unfold executed_message. rewrite decode_header. cbv zeta.
  set (raw := _ ++ _). cbn -[decode_executed raw]. unfold decode_executed. cbn -[raw be16 be32 be64].
  rewrite (be16_at raw 1 sym eq_refl sym_fits). cbn [mbind option_bind].
  rewrite (be64_at raw 11 ref eq_refl) by lia. cbn [mbind option_bind].
  rewrite (be32_at raw 19 shares eq_refl) by done. cbn [mbind option_bind].
  rewrite (be64_at raw 23 m eq_refl Hm).
  rewrite (proj2 (Z.leb_gt kSymbols sym)), (proj2 (Z.eqb_neq ref 0)), Hq by lia. done.
Qed.

Lemma cancel_roundtrip shares out :
  is_valid_quantity shares = true →
  decode_itch (Some (cancel_message sym ts ref shares)) table out =
    Some (true, mkTick kOrderCancel 0 sym ts 0 shares ref 0).
Proof using Hn Hsym Hts Href.
  intros Hq. pose proof (shares_fit _ Hq). unfold cancel_message. rewrite decode_header. cbv zeta.
  set (raw := _ ++ _). cbn -[decode_cancel raw]. unfold decode_cancel. cbn -[raw be16 be32 be64].
  rewrite (be16_at raw 1 sym eq_refl sym_fits). cbn [mbind option_bind].
  rewrite (be64_at raw 11 ref eq_refl) by lia. cbn [mbind option_bind].
  rewrite (be32_at raw 19 shares eq_refl) by done. cbn [mbind option_bind].
  rewrite (proj2 (Z.leb_gt kSymbols sym)), (proj2 (Z.eqb_neq ref 0)), Hq by lia. done.
Qed.

Lemma delete_roundtrip out :
  decode_itch (Some (delete_message_for sym ts ref)) table out =
    Some (true, mkTick kOrderDelete 0 sym ts 0 0 ref 0).
Proof using Hn Hsym Hts Href.
  unfold delete_message_for. rewrite decode_header. cbv zeta.
  set (raw := _ ++ _). cbn -[decode_delete raw]. unfold decode_delete. cbn -[raw be16 be64].
  rewrite (be16_at raw 1 sym eq_refl sym_fits). cbn [mbind option_bind].
  rewrite (be64_at raw 11 ref eq_refl) by lia. cbn [mbind option_bind].
  rewrite (proj2 (Z.leb_gt kSymbols sym)), (proj2 (Z.eqb_neq ref 0)) by lia. done.
Qed.
End roundtrip.

(** ** The generators *)

(** Name the next draw and what is known of it. *)
Ltac draw x H := intros x H; cbv beta in H.

Record cfg_ok (cfg : SimConfig) : Prop := mk_cfg_ok {
  ok_symbols : 1 ≤ synthetic_symbols cfg ≤ kSymbols;
  ok_min_qty : 1 ≤ min_qty cfg ≤ max_qty cfg;
  ok_max_qty : 2 ≤ max_qty cfg ≤ kMaxQuantity;
  ok_price : 1 ≤ min_price cfg ≤ max_price cfg;
  ok_max_price : max_price cfg ≤ kMaxPrice;
  ok_count : 0 ≤ cfg_prebuf_count cfg < 2 ^ 32
}.

(** [entry] holds a message of [len] bytes that decodes to [t]. *)
Definition decodes_to (table : SymbolTable) (m : list Z * Z) (t : TickMsg) : Prop :=
  0 ≤ m.2 ≤ Z.of_nat kSimMaxMsgLen ∧ length m.1 = kSimMaxMsgLen ∧ bytes m.1 ∧
  ∀ out, decode_itch (Some (take (Z.to_nat m.2) m.1)) table out = Some (true, t).

(** The ticks a feed may carry at time [ts] when [seq] is the next reference. *)
Definition generated (cfg : SimConfig) (ts seq : Z) (t : TickMsg) : Prop :=
  timestamp t = ts ∧ 0 ≤ tick_symbol t < synthetic_symbols cfg ∧ 1 ≤ order_ref t ≤ Z.max 1 seq ∧
  (msg_type t = kAddOrder → order_ref t = seq ∧ min_qty cfg ≤ tick_qty t ≤ max_qty cfg ∧
     min_price cfg ≤ tick_price t ≤ max_price cfg) ∧
  (msg_type t ≠ kAddOrder → order_ref t < seq ∨ order_ref t = 1) ∧
  In (msg_type t) [kAddOrder; kOrderExecuted; kOrderCancel; kOrderDelete].

Section generate.
Context (cfg : SimConfig) (Hcfg : cfg_ok cfg).
Context (table : SymbolTable) (Htable : table_ok (synthetic_symbols cfg) table).

Lemma pick_symbol_yields : yields (pick_symbol cfg) (λ s, 0 ≤ s < synthetic_symbols cfg).
Proof using Hcfg.
  destruct Hcfg as [Hs _ _ _ _ _]. unfold kSymbols in Hs. unfold pick_symbol.
  assert (u32 (synthetic_symbols cfg - 1) = synthetic_symbols cfg - 1) as -> by (apply Z.mod_small; lia).
  eapply yields_bind; [apply uniform_u32_yields; lia|]. draw s H. apply yields_ret.
  unfold u16. rewrite Z.mod_small; lia.
Qed.

Lemma pick_ref_yields seq :
  1 ≤ seq < 2 ^ 63 → yields (pick_ref seq) (λ r, 1 ≤ r ≤ Z.max 1 seq ∧ (r < seq ∨ r = 1)).
Proof using Type.
  intros H. unfold pick_ref. destruct (Z.ltb_spec 1 seq); [|apply yields_ret; lia].
  rewrite i64_small by lia.
  eapply yields_bind; [apply uniform_yields; unfold INT64_MIN, INT64_MAX; lia|].
  draw r Hr. apply yields_ret. unfold u64. rewrite Z.mod_small; lia.
Qed.

Lemma qty_in_range q : 1 ≤ q ≤ kMaxQuantity → is_valid_quantity q = true.
Proof using Type.
  intros H. unfold is_valid_quantity, kMinQuantity. apply andb_true_iff; split; apply Z.leb_le; lia.
Qed.

Lemma valid_price p : 1 ≤ p ≤ kMaxPrice → is_valid_price p = true.
Proof using Type.
  intros H. unfold is_valid_price, kMinPrice. apply andb_true_iff; split; apply Z.leb_le; lia.
Qed.

Lemma u32_small z : 0 ≤ z < 2 ^ 32 → u32 z = z.
Proof using Type. apply Z.mod_small. Qed.

Notation blank := (replicate kSimMaxMsgLen 0).

Section at_time.
Context (ts seq : Z) (Hts : 0 ≤ ts < kNanosPerDay) (Hseq : 1 ≤ seq < 2 ^ 63).

Lemma generated_other type fl s q r m :
  0 ≤ s < synthetic_symbols cfg → 1 ≤ r ≤ Z.max 1 seq → r < seq ∨ r = 1 →
  In type [kOrderExecuted; kOrderCancel; kOrderDelete] → generated cfg ts seq (mkTick type fl s ts 0 q r m).
Proof using Type.
  intros Hs Hr Hr' Ht. unfold generated. cbn [timestamp tick_symbol order_ref msg_type].
  split_and!; try done; try lia; [|by right].
  intros ->. by destruct Ht as [|[|[|]]].
Qed.

Lemma gen_add_order_yields :
  yields (gen_add_order cfg blank ts seq)
    (λ m, ∃ t, decodes_to table m t ∧ generated cfg ts seq t ∧ msg_type t = kAddOrder).
Proof using Hcfg Htable Hts Hseq.
  pose proof Hcfg as [Hs Hq Hq' Hp Hp' _]. unfold gen_add_order.
  eapply yields_bind; [apply pick_symbol_yields|]. draw s Hsym.
  do 2 (eapply yields_lift_bind; [reflexivity|]).
  eapply yields_bind; [apply next_yields|]. intros x _.
  eapply yields_lift_bind; [reflexivity|].
  eapply yields_bind; [apply uniform_yields; unfold INT64_MIN, INT64_MAX, kMaxQuantity in *; lia|]. draw q Hqr.
  pose proof (ticker_length s) as Hlen.
  destruct (ticker s) as [|c0 [|c1 [|c2 [|c3 [|c4 [|c5 [|c6 [|c7 [|]]]]]]]]] eqn:Etick; try discriminate Hlen.
  do 2 (eapply yields_lift_bind; [reflexivity|]).
  eapply yields_bind; [apply uniform_yields; unfold INT64_MIN, INT64_MAX, kMaxPrice in *; lia|]. draw p Hpr.
  eapply yields_lift_bind; [reflexivity|]. apply yields_ret.
  rewrite (u32_small q), (u32_small p) by (unfold kMaxQuantity, kMaxPrice in *; lia).
  set (side := if Z.land x 1 =? 0 then chS else chB).
  exists (mkTick kAddOrder (if side =? chB then kBuy else 0) s ts p q seq 0).
  split; [|split; [unfold generated; simpl; split_and!; auto; lia|done]].
  split; [simpl; unfold kSimMaxMsgLen; lia|]. split; [reflexivity|].
  split; [change (bytes (add_message s ts seq side q [c0; c1; c2; c3; c4; c5; c6; c7] p ++ replicate 14 0))|].
  { rewrite <- Etick. unfold add_message. solve_bytes. unfold side. case_cond; by_decide. }
  intros out. rewrite <- (add_roundtrip (synthetic_symbols cfg) table Htable ltac:(lia) s ts seq Hsym Hts
    ltac:(lia) side q p out); [|unfold side; case_cond; auto|apply qty_in_range; lia|apply valid_price; lia].
  rewrite Etick. reflexivity.
Qed.

Lemma gen_order_executed_yields :
  yields (gen_order_executed cfg blank ts seq)
    (λ m, ∃ t, decodes_to table m t ∧ generated cfg ts seq t ∧ msg_type t ≠ kAddOrder).
Proof using Hcfg Htable Hts Hseq.
  pose proof Hcfg as [Hs Hq Hq' Hp Hp' _]. unfold gen_order_executed.
  eapply yields_bind; [apply pick_symbol_yields|]. draw s Hsym.
  eapply yields_lift_bind; [reflexivity|].
  eapply yields_bind; [by apply pick_ref_yields|]. draw r Hr. destruct Hr as [Hr1 Hr2].
  eapply yields_lift_bind; [reflexivity|].
  pose proof (Z.quot_div_nonneg (max_qty cfg) 2 ltac:(lia) ltac:(lia)) as ->.
  assert (1 ≤ max_qty cfg / 2 ≤ max_qty cfg)
    by (split; [apply Z.div_le_lower_bound; lia|apply Z.div_le_upper_bound; lia]).
  eapply yields_bind; [apply uniform_yields; unfold INT64_MIN, INT64_MAX, kMaxQuantity in *; lia|]. draw q Hqr.
  eapply yields_lift_bind; [reflexivity|].
  eapply yields_bind; [apply next_yields|]. draw x Hx.
  eapply yields_lift_bind; [reflexivity|]. apply yields_ret.
  rewrite (u32_small q) by (unfold kMaxQuantity in *; lia).
  exists (mkTick kOrderExecuted kPrintable s ts 0 q r x).
  split; [|split; [apply generated_other; auto; simpl; auto|done]].
  split; [simpl; unfold kSimMaxMsgLen; lia|]. split; [reflexivity|].
  split; [change (bytes (executed_message s ts r q x ++ replicate 19 0)); unfold executed_message; solve_bytes|]. intros out.
  rewrite <- (executed_roundtrip (synthetic_symbols cfg) table ltac:(lia) s ts r Hsym Hts
    ltac:(lia) q x out); [reflexivity|apply qty_in_range; lia|lia].
Qed.

Lemma gen_order_cancel_yields :
  yields (gen_order_cancel cfg blank ts seq)
    (λ m, ∃ t, decodes_to table m t ∧ generated cfg ts seq t ∧ msg_type t ≠ kAddOrder).
Proof using Hcfg Htable Hts Hseq.
  pose proof Hcfg as [Hs Hq Hq' Hp Hp' _]. unfold gen_order_cancel.
  eapply yields_bind; [apply pick_symbol_yields|]. draw s Hsym.
  eapply yields_lift_bind; [reflexivity|].
  eapply yields_bind; [by apply pick_ref_yields|]. draw r Hr. destruct Hr as [Hr1 Hr2].
  eapply yields_lift_bind; [reflexivity|].
  eapply yields_bind; [apply uniform_yields; unfold INT64_MIN, INT64_MAX, kMaxQuantity in *; lia|]. draw q Hqr.
  eapply yields_lift_bind; [reflexivity|]. apply yields_ret.
  rewrite (u32_small q) by (unfold kMaxQuantity in *; lia).
  exists (mkTick kOrderCancel 0 s ts 0 q r 0).
  split; [|split; [apply generated_other; auto; simpl; auto|done]].
  split; [simpl; unfold kSimMaxMsgLen; lia|]. split; [reflexivity|].
  split; [change (bytes (cancel_message s ts r q ++ replicate 27 0)); unfold cancel_message; solve_bytes|]. intros out.
  rewrite <- (cancel_roundtrip (synthetic_symbols cfg) table ltac:(lia) s ts r Hsym Hts
    ltac:(lia) q out); [reflexivity|apply qty_in_range; lia].
Qed.

Lemma gen_order_delete_yields :
  yields (gen_order_delete cfg blank ts seq)
    (λ m, ∃ t, decodes_to table m t ∧ generated cfg ts seq t ∧ msg_type t ≠ kAddOrder).
Proof using Hcfg Htable Hts Hseq.
  pose proof Hcfg as [Hs _ _ _ _ _]. unfold gen_order_delete.
  eapply yields_bind; [apply pick_symbol_yields|]. draw s Hsym.
  eapply yields_lift_bind; [reflexivity|].
  eapply yields_bind; [by apply pick_ref_yields|]. draw r Hr. destruct Hr as [Hr1 Hr2].
  eapply yields_lift_bind; [reflexivity|]. apply yields_ret.
  exists (mkTick kOrderDelete 0 s ts 0 0 r 0).
  split; [|split; [apply generated_other; auto; simpl; auto|done]].
  split; [simpl; unfold kSimMaxMsgLen; lia|]. split; [reflexivity|].
  split; [change (bytes (delete_message_for s ts r ++ replicate 31 0)); unfold delete_message_for; solve_bytes|]. intros out.
  rewrite <- (delete_roundtrip (synthetic_symbols cfg) table ltac:(lia) s ts r Hsym Hts
    ltac:(lia) out). reflexivity.
Qed.

Definition next_seq (t : TickMsg) : Z := if msg_type t =? kAddOrder then seq + 1 else seq.

Lemma gen_message_yields :
  yields (gen_message cfg ts seq)
    (λ r, ∃ t, decodes_to table r.1 t ∧ generated cfg ts seq t ∧ r.2 = next_seq t).
Proof using Hcfg Htable Hts Hseq.
  unfold gen_message, next_seq. eapply yields_bind; [apply uniform_u32_yields; lia|]. draw roll Hroll.
  repeat case_cond.
  1: eapply yields_bind; [apply gen_add_order_yields|]. 2: eapply yields_bind; [apply gen_order_executed_yields|].
  3: eapply yields_bind; [apply gen_order_cancel_yields|]. 4: eapply yields_bind; [apply gen_order_delete_yields|].
  all: intros m (t & H1 & H2 & H3); apply yields_ret; exists t; split; [exact H1|]; split; [exact H2|]; cbn [snd].
  1: rewrite H3, Z.eqb_refl; apply Z.mod_small; lia.
  all: by rewrite (proj2 (Z.eqb_neq _ _) H3).
Qed.
End at_time.

(** A session: time moves forward by 100ns to 10us a message, and references
    are handed out in order. *)
Inductive session : Z → Z → list TickMsg → Prop :=
  | session_nil ts seq : session ts seq []
  | session_cons ts seq gap t rest :
      generated cfg ts seq t → 100 ≤ gap ≤ 10000 → session (ts + gap) (next_seq seq t) rest →
      session ts seq (t :: rest).

Lemma generate_from_length n ts seq r ms r' :
  generate_from cfg n ts seq r = Some (ms, r') → length ms = n.
Proof using Type.
  revert ts seq r ms r'. induction n as [|n IH]; intros ts seq r ms r' E; cbn [generate_from] in E.
  { by injection E as <- _. }
  unfold mbind, st_bind in E. destruct (gen_message cfg ts seq r) as [[x r1]|]; [|done].
  destruct (uniform 100 10000 r1) as [[gap r2]|]; [|done].
  destruct (generate_from cfg n _ _ r2) as [[rest r3]|] eqn:Er; [|done].
  injection E as <- _. simpl. f_equal. by eapply IH.
Qed.

Lemma generate_from_yields n ts seq :
  0 ≤ ts → ts + Z.of_nat n * 10000 < kNanosPerDay → 1 ≤ seq → seq + Z.of_nat n < 2 ^ 63 →
  yields (generate_from cfg n ts seq) (λ ms, ∃ ticks, Forall2 (decodes_to table) ms ticks ∧ session ts seq ticks).
Proof using Hcfg Htable.
  revert ts seq. induction n as [|n IH]; intros ts seq Hts Hday Hseq Hmax; cbn [generate_from].
  { apply yields_ret. exists []. by repeat constructor. }
  eapply yields_bind; [apply gen_message_yields; lia|]. intros [m seq'] (t & Hm & Ht & Hs). cbn [fst snd] in *.
  assert (seq ≤ seq' ≤ seq + 1) by (rewrite Hs; unfold next_seq; case_cond; lia).
  eapply yields_bind; [apply uniform_yields; unfold INT64_MIN, INT64_MAX; lia|]. draw gap Hgap.
  assert (u64 (ts + u64 gap) = ts + gap) as ->.
  { unfold u64. rewrite (Z.mod_small gap) by lia. apply Z.mod_small. unfold kNanosPerDay in *. lia. }
  eapply yields_bind; [apply IH; lia|]. intros ms (ticks & Hms & Hss). apply yields_ret.
  exists (t :: ticks). split; [by constructor|]. econstructor; [done|done|]. by rewrite <- Hs.
Qed.
End generate.

(** Everything the synthetic feed generates, the production
    decoder accepts.  For every configuration whose ranges are not empty, and
    every state of the generator, [generate_synthetic_messages] completes with no
    undefined behaviour, and each of its entries decodes, under the symbol table
    [init_synthetic] loads, to the tick that was meant: times strictly increase,
    references are handed out 1, 2, 3, ..., later messages refer to one of them,
    and symbol, price and quantity lie in the configured ranges. *)
Theorem synthetic_feed_decodes cfg rng :
  cfg_ok cfg →
  ∃ table msgs rng' ticks,
    load_symbols SymbolTable_clear (synthetic_tickers (synthetic_symbols cfg)) = Some table ∧
    generate_synthetic_messages cfg rng = Some (msgs, rng') ∧
    length msgs = Z.to_nat (cfg_prebuf_count cfg) ∧
    Forall2 (decodes_to table) msgs ticks ∧ session cfg kOpenNs 1 ticks.
Proof.
  intros Hcfg. destruct (synthetic_table _ (ok_symbols _ Hcfg)) as (table & g & Hload & _ & Htable).
  pose proof (ok_count _ Hcfg). exists table.
  destruct (generate_from_yields cfg Hcfg table Htable (Z.to_nat (cfg_prebuf_count cfg)) kOpenNs 1
    ltac:(unfold kOpenNs; lia) ltac:(unfold kOpenNs, kNanosPerDay; lia) ltac:(lia) ltac:(lia) rng)
    as (msgs & rng' & E & ticks & Hd & Hs).
  exists msgs, rng', ticks. split; [done|]. split; [done|]. split; [|done]. by eapply generate_from_length.
Qed.

Lemma synthetic_feed_decodes_witness :
  ∃ table msgs rng' ticks,
    load_symbols SymbolTable_clear (synthetic_tickers 128) = Some table ∧
    generate_synthetic_messages SimConfig_default (Xoshiro256_init 1) = Some (msgs, rng') ∧
    length msgs = Z.to_nat 65536 ∧
    Forall2 (decodes_to table) msgs ticks ∧ session SimConfig_default kOpenNs 1 ticks.
Proof.
  refine (synthetic_feed_decodes SimConfig_default (Xoshiro256_init 1) _).
  split; unfold kSymbols, kMaxQuantity, kMaxPrice; simpl; lia.
Defined.

(** ** Messages behind a 2-byte big-endian length

    The framing that replay files (src/luv_feed_sim.hpp) and MoldUDP64 packets
    (src/luv_moldudp64.hpp) share. *)

Definition frame (m : list Z) : list Z := enc_be 2 (Z.of_nat (length m)) ++ m.
Definition frames (ms : list (list Z)) : list Z := concat (frame <$> ms).
Definition frameable (m : list Z) : Prop := bytes m ∧ 1 ≤ Z.of_nat (length m) < 65536.

Lemma frame_length m : length (frame m) = (2 + length m)%nat.
Proof. reflexivity. Qed.

(** The length prefix and body of the frame the cursor is at. *)
Lemma frame_at pre m post :
  frameable m →
  let file := pre ++ frame m ++ post in let c := Z.of_nat (length pre) in
  ∃ p0 p1, zget file c = Some p0 ∧ zget file (c + 1) = Some p1 ∧
    u16 (Z.lor (Z.shiftl p0 8) p1) = Z.of_nat (length m) ∧
    slice file (c + 2) (Z.of_nat (length m)) = Some m.
Proof.
  intros [_ Hm]. cbv zeta. set (n := Z.of_nat (length m)) in *. assert (Hn : 0 < n < 65536) by (unfold n; lia).
  exists (u8 (Z.shiftr n 8)), (u8 (Z.shiftr n 0)). unfold zget.
  rewrite !(proj2 (Z.leb_le _ _)) by lia. split_and!.
  - rewrite lookup_app_r by lia. rewrite Nat2Z.id, Nat.sub_diag. reflexivity.
  - rewrite lookup_app_r by lia. replace (Z.to_nat (Z.of_nat (length pre) + 1) - length pre)%nat with 1%nat by lia.
    reflexivity.
  - pose proof (be_val_enc 2 n) as E. cbn [enc_be be_val length] in E.
    change (8 * Z.of_nat 1) with 8 in E. change (8 * Z.of_nat 0) with 0 in E.
    change (256 ^ Z.of_nat 1) with (2 ^ 8) in E. change (256 ^ Z.of_nat 0) with 1 in E.
    change (256 ^ Z.of_nat 2) with 65536 in E. rewrite (Z.mod_small n) in E by lia.
    pose proof (Z.mod_pos_bound (Z.shiftr n 0) (2 ^ 8) ltac:(lia)) as Hlo. fold (u8 (Z.shiftr n 0)) in Hlo.
    rewrite lor_add by lia. unfold u16. rewrite Z.mod_small; lia.
  - unfold slice. rewrite !length_app, frame_length. fold n.
    rewrite !(proj2 (Z.leb_le _ _)) by (unfold n; lia). cbn [andb]. f_equal.
    replace (pre ++ frame m ++ post) with ((pre ++ enc_be 2 n) ++ m ++ post)
      by (unfold frame; by rewrite <- !app_assoc).
    rewrite drop_app_length' by (rewrite length_app, enc_be_length; lia). rewrite take_app_length' by (unfold n; lia). done.
Qed.

Lemma frames_bytes ms : Forall frameable ms → bytes (frames ms).
Proof.
  intros Hms. apply Forall_concat, Forall_fmap. eapply Forall_impl; [exact Hms|]. intros m [Hm _].
  apply Forall_app. split; [apply enc_be_bytes|done].
Qed.
