(* ===== verification/FeedPoll.v ===== *)
(** * FeedPoll: polling the simulated feed

    The reorder window emits every message once a pass; a poll, in either mode,
    never fails and appends to the tick ring exactly the ticks it reports; a
    replay file is visited frame by frame. *)

From S2P Require Import Prelude Arena OrderIndex OrderRefMap Lob LobCorrect Book LobTheorems.
From S2P Require Import Ring Consumer SymbolTable Itch Feed FeedSim FeedGen.
From Stdlib Require Import ZArith Lia SpecFloat.
From stdpp Require Import base tactics gmap numbers option list.
Open Scope Z_scope.

(** ** The reorder window *)

Lemma swap_remove_perm {A} (l : list A) (pc ch : nat) x z :
  (ch < pc)%nat → l !! ch = Some x → l !! (pc - 1)%nat = Some z →
  take pc l ≡ₚ x :: take (pc - 1) (<[ch := z]> l).
Proof.
  intros Hc Hx Hz. destruct pc as [|pc]; [lia|]. replace (S pc - 1)%nat with pc in * by lia.
  rewrite (take_S_r l pc z Hz). destruct (decide (ch = pc)) as [->|Hne].
  - rewrite take_insert_ge by lia. assert (x = z) as -> by congruence. by rewrite Permutation_app_comm.
  - rewrite take_insert_lt by lia.
    assert (Ht : take pc l !! ch = Some x) by (by rewrite lookup_take_lt by lia).
    pose proof (take_drop_middle _ _ _ Ht) as E.
    rewrite insert_take_drop by (by apply lookup_lt_Some in Ht).
    rewrite <- E at 1. rewrite <- app_assoc. simpl. solve_Permutation.
Qed.

(** [n] calls of [next_synthetic_index]. *)
Fixpoint draw_indices (n : nat) (y : Synth) : ST Xoshiro256 (list Z * Synth) :=
  match n with
  | O => mret ([], y)
  | S n' =>
      r ← next_synthetic_index y;
      rest ← draw_indices n' (snd r);
      mret (fst r :: fst rest, snd rest)
  end.

Section window.
Context (N C p : Z) (HN : 0 < N < 2 ^ 32) (HC : 0 ≤ C ≤ N) (Hp : 0 ≤ p < N).

(** The [k]-th index read from the buffer in a pass that starts at [p]. *)
Definition rot (k : nat) : Z := (p + Z.of_nat k) mod N.

Lemma rot_range k : 0 ≤ rot k < N.
Proof using HN. apply Z.mod_pos_bound. lia. Qed.

Lemma rot_all : rot <$> seq 0 (Z.to_nat N) ≡ₚ Z.of_nat <$> seq 0 (Z.to_nat N).
Proof using HN Hp.
  apply Permutation_sym, submseteq_length_Permutation; [|by rewrite !length_fmap].
  apply NoDup_submseteq; [apply NoDup_fmap_2; [apply _|apply NoDup_seq]|].
  intros x (i & -> & Hi%elem_of_seq)%list_elem_of_fmap_1. apply list_elem_of_fmap.
  exists (Z.to_nat ((Z.of_nat i - p) mod N)). pose proof (Z.mod_pos_bound (Z.of_nat i - p) N ltac:(lia)).
  split; [|apply elem_of_seq; lia]. unfold rot. rewrite Z2Nat.id by lia.
  rewrite Zplus_mod_idemp_r. rewrite Z.mod_small; lia.
Qed.

(** [taken] indices of the pass have been read, and the window holds those of
    them that have not been emitted; [out] have. *)
Record window (y : Synth) (taken : nat) (out : list Z) : Prop := mk_window {
  w_count : prebuf_count y = N;
  w_cap : reorder_capacity y = C;
  w_slab : length (pending_idx y) = Z.to_nat C;
  w_cursor : prebuf_idx y = rot taken;
  w_taken : Z.of_nat taken ≤ N;
  w_pending : pending_count y = Z.of_nat taken - Z.of_nat (length out);
  w_fits : 0 ≤ pending_count y ≤ C;
  w_perm : out ++ take (Z.to_nat (pending_count y)) (pending_idx y) ≡ₚ rot <$> seq 0 taken
}.

Lemma advance_ok y taken out :
  window y taken out → advance_prebuf y = Some (mkSynth (raw_buf y) (msg_lengths y) N (rot (S taken))
    (pending_idx y) (pending_count y) C (reorder_source_remaining y)).
Proof using HN.
  intros [H1 H2 _ H4 _ _ _ _]. unfold advance_prebuf. rewrite H1, H2, H4.
  pose proof (rot_range taken). rewrite checked_mod_pos by lia. cbn [mbind option_bind]. do 2 f_equal.
  unfold u32. rewrite (Z.mod_small (rot taken + 1)) by lia. unfold rot. rewrite Zplus_mod_idemp_l. f_equal. lia.
Qed.

Lemma push_pending_ok y taken out :
  window y taken out → pending_count y < C → Z.of_nat taken < N →
  ∃ y', push_pending y = Some y' ∧ window y' (S taken) out ∧
    raw_buf y' = raw_buf y ∧ msg_lengths y' = msg_lengths y ∧
    reorder_source_remaining y' = reorder_source_remaining y.
Proof using HN HC.
  intros Hw Hc Ht. pose proof Hw as [H1 H2 H3 H4 H5 H6 H7 H8]. unfold push_pending, zset.
  rewrite (proj2 (Z.leb_le _ _)), (proj2 (Z.ltb_lt _ _)) by lia. cbn [andb mbind option_bind].
  set (l := <[Z.to_nat (pending_count y) := prebuf_idx y]> (pending_idx y)).
  assert (Hu : u32 (pending_count y + 1) = pending_count y + 1) by (apply Z.mod_small; lia).
  pose proof (advance_ok y taken out Hw) as Ha. unfold advance_prebuf in *. cbn [prebuf_idx prebuf_count].
  destruct (checked_mod _ _) as [i|]; [|done]. cbn [mbind option_bind] in *. injection Ha as _ ->.
  eexists. split; [reflexivity|]. split; [|done]. cbn [raw_buf msg_lengths].
  split; cbn [prebuf_count reorder_capacity pending_idx prebuf_idx pending_count]; rewrite ?Hu; try done; try lia.
  - unfold l. by rewrite length_insert.
  - replace (Z.to_nat (pending_count y + 1)) with (S (Z.to_nat (pending_count y))) by lia.
    rewrite (take_S_r l _ (prebuf_idx y)) by (apply list_lookup_insert_eq; lia).
    unfold l. rewrite take_insert_ge by lia. rewrite seq_S, fmap_app. cbn [fmap list_fmap Nat.add].
    rewrite app_assoc, H8, <- H4. done.
Qed.

Lemma fill_pending_ok k y taken out :
  window y taken out → pending_count y + Z.of_nat k ≤ C → Z.of_nat taken + Z.of_nat k ≤ N →
  ∃ y', fill_pending k y = Some y' ∧ window y' (taken + k) out ∧
    raw_buf y' = raw_buf y ∧ msg_lengths y' = msg_lengths y.
Proof using HN HC.
  revert y taken. induction k as [|k IH]; intros y taken Hw Hc Ht; cbn [fill_pending].
  { exists y. rewrite Nat.add_0_r. done. }
  destruct (push_pending_ok y taken out Hw) as (y1 & -> & Hw1 & B1 & B2 & _); [lia|lia|].
  cbn [mbind option_bind].
  pose proof (w_pending _ _ _ Hw). pose proof (w_pending _ _ _ Hw1).
  destruct (IH y1 (S taken) Hw1) as (y2 & E & Hw2 & B3 & B4); [lia|lia|].
  exists y2. rewrite B3, B4, <- Nat.add_succ_comm. done.
Qed.

(** A pass after it has emitted [out]. *)
Definition pass (y : Synth) (out : list Z) : Prop :=
  ∃ taken, window y taken out ∧
    ((C = 0 ∨ out = []) ∧ taken = length out ∨
     0 < C ∧ out ≠ [] ∧ Z.of_nat taken = Z.min N (C + Z.of_nat (length out) - 1)) ∧
    (pending_count y ≠ 0 → reorder_source_remaining y = N - Z.of_nat taken).

Lemma window_set_remaining y taken out r : window y taken out → window (set_remaining y r) taken out.
Proof using Type. intros []. by split. Qed.

Lemma refill_window_ok y out :
  0 < C → pass y out → Z.of_nat (length out) < N →
  ∃ y' taken, refill_window y = Some y' ∧ window y' taken out ∧
    Z.of_nat taken = Z.min N (C + Z.of_nat (length out)) ∧
    (reorder_source_remaining y' = N - Z.of_nat taken ∨ pending_count y' = 1) ∧
    raw_buf y' = raw_buf y ∧ msg_lengths y' = msg_lengths y.
Proof using HN HC.
  intros HC' (taken & Hw & Ht & Hr) Hlen. pose proof Hw as [H1 H2 _ _ H5 H6 H7 _].
  assert (Ha : (length out = 0%nat ∧ taken = 0%nat) ∨ Z.of_nat taken = Z.min N (C + Z.of_nat (length out) - 1)).
  { destruct Ht as [[[?| ->] ->]|(_ & _ & Ht)]; [lia|by left|by right]. }
  clear Ht. unfold refill_window. destruct (Z.eqb_spec (pending_count y) 0) as [E|E].
  - destruct (fill_pending_ok (Z.to_nat (reorder_capacity y - pending_count y)) y taken out Hw)
      as (y' & -> & Hw' & B1 & B2); [lia|lia|]. cbn [mbind option_bind].
    pose proof (w_pending _ _ _ Hw'). pose proof (w_count _ _ _ Hw') as HN'. pose proof (w_cap _ _ _ Hw') as HC''.
    do 2 eexists. split; [reflexivity|]. split; [by apply window_set_remaining|].
    split; [lia|]. split; [|done]. cbn [set_remaining reorder_source_remaining pending_count].
    rewrite HN', HC'', u32_small by lia. lia.
  - specialize (Hr E). destruct (Z.eqb_spec (reorder_source_remaining y) 0) as [E0|E0]; cbn [negb].
    + exists y, taken. split_and!; try done; [lia|left; lia].
    + destruct (push_pending_ok y taken out Hw) as (y' & -> & Hw' & B1 & B2 & B3); [lia|lia|].
      cbn [mbind option_bind]. do 2 eexists. split; [reflexivity|].
      split; [by apply window_set_remaining|]. split; [lia|]. split; [|done].
      left. cbn [set_remaining reorder_source_remaining]. rewrite u32_small; lia.
Qed.

Lemma window_index y taken out i x :
  window y taken out → take (Z.to_nat (pending_count y)) (pending_idx y) !! i = Some x → 0 ≤ x < N.
Proof using HN.
  intros Hw Hx%list_elem_of_lookup_2. assert (Hin : x ∈ rot <$> seq 0 taken).
  { rewrite <- (w_perm _ _ _ Hw). apply elem_of_app. by right. }
  apply list_elem_of_fmap_1 in Hin as (k & -> & _). apply rot_range.
Qed.

Lemma next_index_ok y out :
  pass y out → Z.of_nat (length out) < N →
  yields (next_synthetic_index y) (λ r, pass r.2 (out ++ [r.1]) ∧ 0 ≤ r.1 < N ∧
    raw_buf r.2 = raw_buf y ∧ msg_lengths r.2 = msg_lengths y).
Proof using HN HC.
  intros Hpass Hlen. pose proof Hpass as (tk & Hwy & Htk & _).
  unfold next_synthetic_index. rewrite (w_cap _ _ _ Hwy). destruct (Z.eqb_spec C 0) as [E|E].
  - assert (Hpc : pending_count y = 0) by (pose proof (w_fits _ _ _ Hwy); lia).
    assert (tk = length out) by lia. subst tk.
    eapply yields_lift_bind; [exact (advance_ok _ _ _ Hwy)|]. apply yields_ret. cbn [fst snd raw_buf msg_lengths].
    pose proof Hwy as [H1 H2 H3 H4 H5 H6 H7 H8]. rewrite H4. split; [|split; [apply rot_range|done]].
    exists (S (length out)). split; [|split; [left; rewrite length_app; simpl; lia|done]].
    split; cbn [prebuf_count reorder_capacity pending_idx prebuf_idx pending_count];
      rewrite ?length_app; cbn [length]; try done; try lia.
    rewrite Hpc in *. change (take (Z.to_nat 0) (pending_idx y)) with (@nil Z) in *. rewrite app_nil_r in *.
    rewrite seq_S, fmap_app. by rewrite <- H8.
  - destruct (refill_window_ok y out) as (y' & taken & E' & Hw & Ht & Hr & B1 & B2); [lia|done|done|].
    eapply yields_lift_bind; [exact E'|]. rewrite <- B1, <- B2.
    pose proof Hw as [H1 H2 H3 H4 H5 H6 H7 H8].
    assert (Hu : u32 (pending_count y' - 1) = pending_count y' - 1) by (apply u32_small; lia).
    rewrite Hu. eapply yields_bind; [apply uniform_u32_yields; lia|]. intros ch Hch. cbv beta in Hch.
    assert (Hin : ∀ k, 0 ≤ k < pending_count y' → ∃ x, pending_idx y' !! Z.to_nat k = Some x ∧ 0 ≤ x < N).
    { intros k Hk. destruct (lookup_lt_is_Some_2 (pending_idx y') (Z.to_nat k)) as [x Hx]; [lia|].
      exists x. split; [done|]. eapply (window_index y' taken out (Z.to_nat k)); [done|].
      rewrite lookup_take_lt by lia. done. }
    assert (Hz : ∀ k, 0 ≤ k → zget (pending_idx y') k = pending_idx y' !! Z.to_nat k)
      by (intros k Hk; unfold zget; by rewrite (proj2 (Z.leb_le _ _) Hk)).
    destruct (Hin ch) as (x & Hx & Hxr); [lia|]. destruct (Hin (pending_count y' - 1)) as (z & Hzl & _); [lia|].
    eapply yields_lift_bind; [rewrite Hz by lia; exact Hx|].
    eapply yields_lift_bind; [rewrite Hz by lia; exact Hzl|].
    eapply yields_lift_bind.
    { unfold zset. rewrite (proj2 (Z.leb_le _ _)), (proj2 (Z.ltb_lt _ _)) by lia. reflexivity. }
    apply yields_ret. cbn [fst snd raw_buf msg_lengths]. split; [|done].
    exists taken. cbn [pending_count reorder_source_remaining]. split; [|split; [|lia]].
    + split; cbn [prebuf_count reorder_capacity pending_idx prebuf_idx pending_count];
        rewrite ?length_app, ?length_insert; simpl; try done; try lia.
      rewrite <- H8, <- app_assoc. apply Permutation_app_head.
      rewrite (swap_remove_perm _ (Z.to_nat (pending_count y')) (Z.to_nat ch) x z); [|lia|done|].
      * replace (Z.to_nat (pending_count y' - 1)) with (Z.to_nat (pending_count y') - 1)%nat by lia. done.
      * replace (Z.to_nat (pending_count y') - 1)%nat with (Z.to_nat (pending_count y' - 1)) by lia. done.
    + right. rewrite length_app. simpl. split; [lia|]. split; [by destruct out|lia].
Qed.

Lemma pass_start y :
  prebuf_count y = N → reorder_capacity y = C → length (pending_idx y) = Z.to_nat C →
  prebuf_idx y = p → pending_count y = 0 → pass y [].
Proof using HN HC Hp.
  intros H1 H2 H3 H4 H5. exists 0%nat. split; [|split; [left; split; [by right|done]|done]].
  split; rewrite ?H5; try done; try lia. rewrite H4. unfold rot. rewrite Z.add_0_r. by rewrite Z.mod_small.
Qed.

(** A completed pass is the start of the next one. *)
Lemma pass_done y out :
  pass y out → Z.of_nat (length out) = N → pass y [] ∧ out ≡ₚ rot <$> seq 0 (Z.to_nat N).
Proof using HN HC Hp.
  intros (taken & Hw & Ht & _) Hl. pose proof Hw as [H1 H2 H3 H4 H5 H6 H7 H8].
  assert (Z.of_nat taken = N) by lia. assert (Hpc : pending_count y = 0) by lia.
  rewrite Hpc, app_nil_r in H8. replace taken with (Z.to_nat N) in H8, H4 by lia. split; [|done].
  exists 0%nat. split; [|split; [left; split; [by right|done]|done]].
  split; rewrite ?Hpc; try done; try lia. rewrite H4. unfold rot. rewrite Z2Nat.id by lia.
  rewrite <- (Z.mul_1_l N) at 1. rewrite Z_mod_plus_full. f_equal. lia.
Qed.

Lemma draw_indices_ok n y out :
  pass y out → Z.of_nat (length out + n) ≤ N →
  yields (draw_indices n y) (λ r, length r.1 = n ∧ pass r.2 (out ++ r.1)).
Proof using HN HC.
  revert y out. induction n as [|n IH]; intros y out Hpass Hn; cbn [draw_indices].
  { apply yields_ret. cbn [fst snd]. by rewrite app_nil_r. }
  eapply yields_bind; [apply next_index_ok; [exact Hpass|lia]|]. intros [i y1] (Hp1 & _). cbn [fst snd] in *.
  eapply yields_bind; [apply (IH y1 (out ++ [i]) Hp1); rewrite length_app; simpl; lia|].
  intros [xs y2] [Hl Hp2]. apply yields_ret. cbn [fst snd length] in *. rewrite <- app_assoc in Hp2. auto.
Qed.
End window.

(** The reorder window shuffles without loss.  Whatever the
    window size, from an empty window [prebuf_count] successive calls of
    [next_synthetic_index] return every index of the buffer exactly once, without
    ever reading or writing outside the window's array, and end with the window
    empty and the cursor where it started. *)
Theorem reorder_window_permutes N C p y rng :
  0 < N < 2 ^ 32 → 0 ≤ C ≤ N → 0 ≤ p < N →
  prebuf_count y = N → reorder_capacity y = C → length (pending_idx y) = Z.to_nat C →
  prebuf_idx y = p → pending_count y = 0 →
  ∃ out y' rng', draw_indices (Z.to_nat N) y rng = Some ((out, y'), rng') ∧
    out ≡ₚ Z.of_nat <$> seq 0 (Z.to_nat N) ∧ pending_count y' = 0 ∧ prebuf_idx y' = p.
Proof.
  intros HN HC Hp H1 H2 H3 H4 H5.
  assert (Hpass : pass N C p y []) by (apply pass_start; auto).
  destruct (draw_indices_ok N C p HN HC (Z.to_nat N) y [] Hpass ltac:(simpl; lia) rng)
    as ([out y'] & rng' & E & Hl & Hpass'). cbn [fst snd app] in *.
  destruct (pass_done N C p HN HC Hp y' out Hpass') as [(tk & Hw & Ht & _) Hperm]; [lia|].
  exists out, y', rng'. split; [done|]. split; [by rewrite Hperm, rot_all|].
  assert (tk = 0%nat) as -> by (destruct Ht as [[_ ?]|(_ & ? & _)]; done).
  split; [by rewrite (w_pending _ _ _ _ _ _ Hw)|]. rewrite (w_cursor _ _ _ _ _ _ Hw).
  unfold rot. rewrite Z.add_0_r. by apply Z.mod_small.
Qed.

Definition shuffle_demo : Synth := mkSynth [] [] 5 2 [0; 0; 0] 0 3 0.

Lemma reorder_window_permutes_witness :
  ∃ out y' rng', draw_indices 5 shuffle_demo (Xoshiro256_init 7) = Some ((out, y'), rng') ∧
    out ≡ₚ [0; 1; 2; 3; 4] ∧ pending_count y' = 0 ∧ prebuf_idx y' = 2.
Proof. by apply (reorder_window_permutes 5 3 2 shuffle_demo (Xoshiro256_init 7)). Defined.

(** ** One poll *)

Lemma should_drop_yields cfg : yields (should_drop cfg) (λ _, True).
Proof.
  unfold should_drop. repeat (case_cond; [by apply yields_ret|]).
  eapply yields_bind; [apply uniform_u32_yields; lia|]. intros x _. by apply yields_ret.
Qed.

(** [t] is what the decoder made of some message. *)
Definition from_decoder (table : SymbolTable) (t : TickMsg) : Prop :=
  ∃ raw out, bytes raw ∧ decode_itch (Some raw) table out = Some (true, t).

Lemma from_decoder_wf table g t : st_rep table g → from_decoder table t → tick_wf t.
Proof.
  intros Hg (raw & out & Hb & E). destruct (decode_itch_ok raw table g out Hb Hg) as (b & t' & E' & H).
  rewrite E in E'. injection E' as <- <-. by apply H.
Qed.

(** The tick a message decodes to, whatever the output slot held. *)
Definition decoded (table : SymbolTable) (raw : list Z) : option TickMsg :=
  match decode_itch (Some raw) table TickMsg_zero with Some (true, t) => Some t | _ => None end.

Lemma decoded_any_out table raw out ok t :
  decode_itch (Some raw) table out = Some (ok, t) → decoded table raw = if ok : bool then Some t else None.
Proof.
  unfold decoded, decode_itch. case_cond; [intros E; by injection E as <- <-|].
  destruct (raw !! 0%nat) as [ty|]; [|done]. cbn [mbind option_bind].
  case_cond; [intros E; by injection E as <- <-|].
  destruct (be_timestamp48 raw 5) as [ts|]; [|done]. cbn [mbind option_bind].
  case_cond; [intros E; by injection E as <- <-|]. intros ->. by destruct ok.
Qed.

(** What an attempt to claim, decode and commit does to the queue. *)
Lemma claim_and_decode_ok f raw q g :
  holds_ticks (tick_ring f) q → bytes raw → st_rep (sim_symbols f) g →
  claim_and_decode f raw = Some None ∧ Z.of_nat (length q) = kTickCapacity ∨
  ∃ r ok new, claim_and_decode f raw = Some (Some (set_ring f r, ok)) ∧
    holds_ticks r (q ++ new) ∧ Forall (from_decoder (sim_symbols f)) new ∧
    Z.of_nat (length new) = (if ok : bool then 1 else 0) ∧ new = option_list (decoded (sim_symbols f) raw).
Proof.
  intros Hq Hb Hg. assert (Hbits : 0 ≤ tick_bits ≤ 32) by (unfold tick_bits; lia).
  unfold claim_and_decode.
  destruct (try_claim tick_bits (tick_ring f) (ring_tail (tick_ring f))) as [i|] eqn:Ec.
  - right. destruct (decode_itch_ok raw (sim_symbols f) g (read_slot TickMsg_zero (tick_ring f) i) Hb Hg)
      as (ok & t & Hd & _). rewrite Hd. cbn [mbind option_bind]. pose proof (decoded_any_out _ _ _ _ _ Hd) as Hdec.
    pose proof (claim_write_spec TickMsg_zero tick_bits Hbits (tick_ring f) q t Hq) as Hc.
    rewrite Ec in Hc. destruct Hc as (_ & Hw & Hcommit). destruct ok.
    + do 2 eexists. exists [t]. split; [reflexivity|]. split; [done|]. split; [|by rewrite Hdec].
      constructor; [|constructor]. eexists _, _. split; [exact Hb|exact Hd].
    + do 2 eexists. exists []. split; [reflexivity|]. rewrite app_nil_r, Hdec. split; [done|]. split; [constructor|done].
  - left. pose proof (claim_write_spec TickMsg_zero tick_bits Hbits (tick_ring f) q TickMsg_zero Hq) as Hc.
    rewrite Ec in Hc. split; [done|exact Hc].
Qed.

(** The state a feed polls from, after a successful [init]. *)
Record synth_ready (y : Synth) : Prop := mk_synth_ready {
  sr_count : 0 < prebuf_count y < 2 ^ 32;
  sr_pass : ∃ C p out, 0 ≤ C ≤ prebuf_count y ∧ 0 ≤ p < prebuf_count y ∧
    pass (prebuf_count y) C p y out ∧ Z.of_nat (length out) < prebuf_count y;
  sr_bufs : length (raw_buf y) = Z.to_nat (prebuf_count y) ∧ length (msg_lengths y) = Z.to_nat (prebuf_count y);
  sr_entries : Forall (λ e, length e = kSimMaxMsgLen ∧ bytes e) (raw_buf y);
  sr_lengths : Forall (λ n, 0 ≤ n ≤ Z.of_nat kSimMaxMsgLen) (msg_lengths y)
}.

Definition replay_ready (f : SimFeedSource) : Prop :=
  ∃ file, replay_base f = Some file ∧ bytes file ∧ Z.of_nat (length file) < 2 ^ 63 ∧
    0 ≤ replay_cursor f ≤ Z.of_nat (length file).

Record sim_ready (f : SimFeedSource) : Prop := mk_sim_ready {
  sim_table : ∃ g, st_rep (sim_symbols f) g;
  sim_counts : 0 ≤ total_messages (counters f) < 2 ^ 64;
  sim_mode : match mode (sim_cfg f) with kSynthetic => synth_ready (synth f) | kReplay => replay_ready f end
}.

#[export] Instance sim_feed : IFeedSource SimFeedSource := {|
  feed_poll := poll;
  feed_total_messages f := total_messages (counters f);
  feed_ring := tick_ring;
  feed_sync := set_ring
|}.

(** The common outcome of both polls. *)
Definition appends (f : SimFeedSource) (q : list TickMsg) (r : option (SimFeedSource * Z)) : Prop :=
  ∃ f' new, r = Some (f', Z.of_nat (length new)) ∧ sim_ready f' ∧ holds_ticks (tick_ring f') (q ++ new) ∧
    Forall (from_decoder (sim_symbols f)) new ∧ sim_symbols f' = sim_symbols f ∧ sim_cfg f' = sim_cfg f ∧
    total_messages (counters f') = u64 (total_messages (counters f) + Z.of_nat (length new)).

Lemma appends_nothing f f' q :
  sim_ready f' → sim_symbols f' = sim_symbols f → sim_cfg f' = sim_cfg f → total_messages (counters f') = total_messages (counters f) →
  holds_ticks (tick_ring f') q → appends f q (Some (f', 0)).
Proof.
  intros Hr Hs Hcfg Hc Hq. exists f', []. rewrite app_nil_r, Hc. split_and!; try done.
  pose proof (sim_counts _ Hr). rewrite Z.add_0_r. unfold u64. rewrite Z.mod_small; lia.
Qed.

Lemma next_ready y : synth_ready y →
  yields (next_synthetic_index y) (λ r, synth_ready r.2 ∧ 0 ≤ r.1 < prebuf_count r.2).
Proof.
  intros [Hn (C & p & out & HC & Hp & Hpass & Hlt) Hb He Hl].
  eapply yields_mono; [apply (next_index_ok _ C p Hn HC y out Hpass Hlt)|].
  intros [i y'] (Hpass' & Hi & B1 & B2). cbn [fst snd] in *.
  assert (prebuf_count y' = prebuf_count y) as HN by (destruct Hpass' as (? & Hw & _); apply Hw).
  split; [|lia]. split; rewrite ?HN, ?B1, ?B2; try done. exists C, p.
  destruct (decide (Z.of_nat (length (out ++ [i])) = prebuf_count y)) as [E|E].
  - destruct (pass_done _ C p Hn HC Hp y' _ Hpass' E) as [Hfresh _]. exists []. split_and!; try done; simpl; lia.
  - exists (out ++ [i]). rewrite length_app in *. simpl in *. split_and!; done || lia.
Qed.

Lemma synth_entry y i :
  synth_ready y → 0 ≤ i < prebuf_count y →
  ∃ e n raw, zget (raw_buf y) i = Some e ∧ zget (msg_lengths y) i = Some n ∧
    slice e 0 n = Some raw ∧ bytes raw.
Proof.
  intros [_ _ [Hb Hl] He Hn] Hi. unfold zget. rewrite !(proj2 (Z.leb_le 0 i)) by lia.
  destruct (lookup_lt_is_Some_2 (raw_buf y) (Z.to_nat i)) as [e Ee]; [lia|].
  destruct (lookup_lt_is_Some_2 (msg_lengths y) (Z.to_nat i)) as [n En]; [lia|].
  destruct (Forall_lookup_1 _ _ _ _ He Ee) as [He1 He2]. pose proof (Forall_lookup_1 _ _ _ _ Hn En) as Hn1.
  cbv beta in Hn1. exists e, n, (take (Z.to_nat n) e). split; [done|]. split; [done|]. split; [|by apply Forall_take].
  unfold slice. rewrite He1, !(proj2 (Z.leb_le _ _)) by lia. done.
Qed.

Ltac sim_fields := cbn [set_counters set_synth set_rng set_symbols set_pacing set_replay set_ring
  sim_cfg counters synth sim_rng sim_symbols pacing replay_base replay_cursor tick_ring total_messages
  count_message count_bytes count_drop] in *.

Lemma ready_synth f f' :
  sim_ready f → mode (sim_cfg f) = kSynthetic → sim_cfg f' = sim_cfg f → sim_symbols f' = sim_symbols f →
  0 ≤ total_messages (counters f') < 2 ^ 64 → synth_ready (synth f') → sim_ready f'.
Proof. intros [Ht _ _] Hm Hc Hs Hn Hy. split; [by rewrite Hs|done|]. by rewrite Hc, Hm. Qed.

Lemma ready_replay f f' :
  sim_ready f → mode (sim_cfg f) = kReplay → sim_cfg f' = sim_cfg f → sim_symbols f' = sim_symbols f →
  0 ≤ total_messages (counters f') < 2 ^ 64 → replay_ready f' → sim_ready f'.
Proof. intros [Ht _ _] Hm Hc Hs Hn Hy. split; [by rewrite Hs|done|]. by rewrite Hc, Hm. Qed.

Lemma poll_synthetic_ok f now q :
  sim_ready f → mode (sim_cfg f) = kSynthetic → holds_ticks (tick_ring f) q →
  appends f q (poll_synthetic f now).
Proof.
  intros Hf Hm Hq. pose proof Hf as [[g Hg] Hn Hy]. rewrite Hm in Hy. unfold poll_synthetic.
  destruct (pace (pacing f) now) as [p|]; [|by apply appends_nothing].
  destruct (ring_full _); [apply appends_nothing; [by apply (ready_synth f)|done|done|done|done]|].
  destruct (next_ready _ Hy (sim_rng f)) as ([i y] & r1 & E & Hy' & Hi). sim_fields. rewrite E. cbn [mbind option_bind snd fst] in *.
  destruct (synth_entry y i Hy' Hi) as (e & n & raw & -> & -> & Hraw & Hb). cbn [mbind option_bind].
  destruct (should_drop_yields (sim_cfg f) r1) as (d & r2 & -> & _). cbn [mbind option_bind].
  destruct d; [apply appends_nothing; [by apply (ready_synth f)|done|done|done|done]|].
  rewrite Hraw. cbn [mbind option_bind]. 
  match goal with |- context [claim_and_decode ?x raw] => set (f1 := x) end.
  destruct (claim_and_decode_ok f1 raw q g Hq Hb Hg) as [[-> _]|(r & ok & new & -> & Hq' & Hwf & Hlen & _)].
  { apply appends_nothing; [by apply (ready_synth f)|done|done|done|done]. }
  cbn [mbind option_bind]. destruct ok.
  - eexists _, new. rewrite Hlen. split; [reflexivity|]. sim_fields. split_and!; try done.
    apply (ready_synth f); try done. sim_fields. apply u64_range.
  - destruct new; [|done]. rewrite app_nil_r in Hq'. apply appends_nothing; [by apply (ready_synth f)|done|done|done|done].
Qed.

Lemma zget_byte file i : bytes file → 0 ≤ i < Z.of_nat (length file) → ∃ b, zget file i = Some b ∧ 0 ≤ b < 256.
Proof.
  intros Hb Hi. unfold zget. rewrite (proj2 (Z.leb_le 0 i)) by lia. apply (byte_at file); [done|lia].
Qed.

Lemma slice_bytes file off n :
  bytes file → 0 ≤ off → 0 ≤ n → off + n ≤ Z.of_nat (length file) → ∃ raw, slice file off n = Some raw ∧ bytes raw.
Proof.
  intros Hb H1 H2 H3. unfold slice. rewrite !(proj2 (Z.leb_le _ _)) by lia. eexists. split; [reflexivity|].
  by apply Forall_take, Forall_drop.
Qed.

Lemma replay_frame_ok f file q :
  sim_ready f → mode (sim_cfg f) = kReplay → replay_base f = Some file → bytes file →
  Z.of_nat (length file) < 2 ^ 63 → 0 ≤ replay_cursor f → replay_cursor f + 2 ≤ Z.of_nat (length file) →
  holds_ticks (tick_ring f) q → appends f q (replay_frame f file).
Proof.
  intros Hf Hm Hb Hbytes Hsz H0 Hcur Hq. pose proof Hf as [[g Hg] Hn _]. unfold replay_frame.
  destruct (zget_byte file (replay_cursor f) Hbytes ltac:(lia)) as (p0 & -> & Hp0).
  destruct (zget_byte file (replay_cursor f + 1) Hbytes ltac:(lia)) as (p1 & -> & Hp1). cbn [mbind option_bind].
  set (n := u16 (Z.lor (Z.shiftl p0 8) p1)).
  assert (Hnr : 0 ≤ n < 2 ^ 16) by (apply Z.mod_pos_bound; lia).
  assert (Hready : ∀ f' c, sim_cfg f' = sim_cfg f → sim_symbols f' = sim_symbols f → replay_base f' = Some file →
    replay_cursor f' = c → 0 ≤ c ≤ Z.of_nat (length file) →
    0 ≤ total_messages (counters f') < 2 ^ 64 → sim_ready f').
  { intros f' c H1 H2 H3 H4 H5 H6. apply (ready_replay f); try done. exists file. by rewrite H4. }
  rewrite (u64_small (_ + 2 + n)) by lia.
  destruct ((n =? 0) || _) eqn:Ebad; [apply appends_nothing; [apply (Hready _ 0); done || lia|done|done|done|done]|].
  apply orb_false_iff in Ebad as [_ Hfit%Z.ltb_ge].
  rewrite (u64_small (_ + (2 + n))) by lia.
  destruct (slice_bytes file (replay_cursor f + 2) n Hbytes ltac:(lia) ltac:(lia) ltac:(lia)) as (raw & -> & Hraw).
  cbn [mbind option_bind].
  destruct (should_drop_yields (sim_cfg f) (sim_rng f)) as (d & r2 & E & _). sim_fields. rewrite E. cbn [mbind option_bind].
  destruct d; [apply appends_nothing; [by apply (Hready _ (replay_cursor f + (2 + n))); try done; lia|done|done|done|done]|].
  match goal with |- context [claim_and_decode ?x raw] => set (f1 := x) end.
  destruct (claim_and_decode_ok f1 raw q g Hq Hraw Hg) as [[-> _]|(r & ok & new & -> & Hq' & Hwf & Hlen & _)].
  { apply appends_nothing; [apply (Hready _ (replay_cursor f)); done || lia|done|done|done|done]. }
  cbn [mbind option_bind]. destruct ok.
  - eexists _, new. rewrite Hlen. split; [reflexivity|]. sim_fields. split_and!; try done.
    apply (Hready _ (replay_cursor f + (2 + n))); try done; [lia|]. sim_fields. apply u64_range.
  - destruct new; [|done]. rewrite app_nil_r in Hq'.
    apply appends_nothing; [apply (Hready _ (replay_cursor f + (2 + n))); done || lia|done|done|done|done].
Qed.

Lemma poll_replay_ok f now q :
  sim_ready f → mode (sim_cfg f) = kReplay → holds_ticks (tick_ring f) q → appends f q (poll_replay f now).
Proof.
  intros Hf Hm Hq. pose proof Hf as [_ Hn Hr]. rewrite Hm in Hr. destruct Hr as (file & Hb & Hbytes & Hsz & Hcur).
  unfold poll_replay. destruct (pace (pacing f) now) as [p|]; [|by apply appends_nothing].
  set (f1 := set_pacing f p). assert (Hf1 : sim_ready f1) by (apply (ready_replay f); try done; by exists file).
  destruct (ring_full _); [by apply appends_nothing|].
  change (replay_base f1) with (replay_base f). rewrite Hb. cbn [mbind option_bind]. cbv zeta.
  assert (Hgo : ∀ f2, sim_ready f2 → sim_cfg f2 = sim_cfg f → sim_symbols f2 = sim_symbols f → tick_ring f2 = tick_ring f →
    counters f2 = counters f → replay_base f2 = Some file → 0 ≤ replay_cursor f2 ≤ Z.of_nat (length file) →
    appends f q (if Z.of_nat (length file) <? u64 (replay_cursor f2 + 2) then Some (f2, 0) else replay_frame f2 file)).
  { intros f2 Hf2 C1 Cs C2 C3 C4 C5. rewrite (u64_small (replay_cursor f2 + 2)) by lia.
    destruct (Z.ltb_spec (Z.of_nat (length file)) (replay_cursor f2 + 2)).
    - apply appends_nothing; [done|done|done|by rewrite C3|by rewrite C2].
    - unfold appends. rewrite <- C3, <- Cs, <- C1. apply replay_frame_ok; try done; try lia; [by rewrite C1|by rewrite C2]. }
  apply Hgo; case_cond; try done; [|sim_fields; lia].
  apply (ready_replay f); try done. exists file. split_and!; try done; sim_fields; lia.
Qed.

Lemma poll_ok f now q : sim_ready f → holds_ticks (tick_ring f) q → appends f q (poll f now).
Proof.
  intros Hf Hq. unfold poll.
  destruct (mode (sim_cfg f)) eqn:Hm; [by apply poll_synthetic_ok|by apply poll_replay_ok].
Qed.

#[export] Instance sim_contract : FeedContract SimFeedSource sim_ready.
Proof.
  split.
  - intros f now q Hf Hq. cbn [feed_poll feed_ring feed_total_messages sim_feed] in *.
    destruct (poll_ok f now q Hf Hq) as (f' & new & E & Hr & Hq' & Hd & _ & _ & Hc).
    destruct (sim_table _ Hf) as [g Hg]. exists f', new. split_and!; try done.
    eapply Forall_impl; [exact Hd|]. intros t. by apply (from_decoder_wf _ g).
  - intros f r [H1 H2 H3]. by split.
  - done.
Qed.

(** ** Initialisation reaches a state that can be polled *)

Lemma init_synthetic_ready cfg ring now :
  cfg_ok cfg → mode cfg = kSynthetic → 0 < cfg_prebuf_count cfg → 0 ≤ reorder_window cfg < 2 ^ 32 →
  ∃ f, init_synthetic (SimFeedSource_new cfg ring) true now = Some (f, true) ∧ sim_ready f ∧
    tick_ring f = ring ∧ sim_cfg f = cfg.
Proof.
  intros Hcfg Hm Hpos Hwin. pose proof (ok_count _ Hcfg) as Hcount.
  destruct (synthetic_table _ (ok_symbols _ Hcfg)) as (table & g & Hload & Hg & Htable).
  destruct (generate_from_yields cfg Hcfg table Htable (Z.to_nat (cfg_prebuf_count cfg)) kOpenNs 1
    ltac:(unfold kOpenNs; lia) ltac:(unfold kOpenNs, kNanosPerDay; lia) ltac:(lia) ltac:(lia)
    (Xoshiro256_init (seed cfg))) as (msgs & rng' & E & ticks & Hd & _).
  pose proof (generate_from_length _ _ _ _ _ _ _ E) as Hlen.
  unfold init_synthetic, SimFeedSource_new. sim_fields.
  rewrite Hload. cbn [mbind option_bind raw_buf msg_lengths prebuf_idx pending_idx pending_count reorder_capacity].
  rewrite (proj2 (Z.eqb_neq _ _)) by lia.
  set (C := if reorder_window cfg <? _ then _ else _).
  assert (HC : 0 ≤ C ≤ cfg_prebuf_count cfg) by (unfold C; destruct (Z.ltb_spec (reorder_window cfg) (cfg_prebuf_count cfg)); lia).
  unfold SIZE_MAX, UINT64_MAX, kSimMaxMsgLen.
  rewrite !(proj2 (Z.ltb_ge _ _)) by lia. cbn [orb].
  assert (can_align_up (cfg_prebuf_count cfg * Z.of_nat 50 + cfg_prebuf_count cfg * 4 + C * 4) 4096 = true) as ->.
  { unfold can_align_up, SIZE_MAX, UINT64_MAX. change (_ && (Z.land 4096 (4096 - 1) =? 0)) with true.
    apply Z.leb_le. lia. }
  cbn [negb]. unfold generate_synthetic_messages. rewrite E. cbn [mbind option_bind].
  eexists. split; [reflexivity|]. split; [|done].
  split; sim_fields; [by exists g|done|]. rewrite Hm.
  split; cbn [prebuf_count raw_buf msg_lengths]; [lia| |by rewrite !length_fmap, Hlen| |].
  - exists C, 0, []. split; [done|]. split; [lia|]. split; [|simpl; lia].
    apply pass_start; try done; first [lia | apply length_replicate].
  - apply Forall_fmap. apply (Forall2_Forall_l _ _ _ _ Hd), Forall_true. by intros t m (_ & ? & ? & _).
  - apply Forall_fmap. apply (Forall2_Forall_l _ _ _ _ Hd), Forall_true. by intros t m (? & _).
Qed.

Lemma init_replay_ready cfg ring file now :
  mode cfg = kReplay → file ≠ [] → bytes file → Z.of_nat (length file) < 2 ^ 63 →
  ∃ f, init_replay (SimFeedSource_new cfg ring) (Some file) true now = (f, true) ∧ sim_ready f ∧
    tick_ring f = ring ∧ sim_cfg f = cfg ∧ sim_symbols f = SymbolTable_clear ∧
    replay_base f = Some file ∧ replay_cursor f = 0 ∧
    (target_rate_hz cfg = 0 → pacing f = mkPacing 0 now 0 0).
Proof.
  intros Hm Hne Hb Hl. unfold init_replay. destruct file as [|b file]; [done|]. cbn [length Nat.eqb negb].
  eexists. split; [reflexivity|]. unfold SimFeedSource_new. sim_fields. split_and!; try done.
  - split; sim_fields; [exists ∅; apply clear_rep|done|]. rewrite Hm. exists (b :: file).
    split_and!; try done; sim_fields; simpl; lia.
  - intros E. unfold pace_for. by rewrite E.
Qed.

(** ** Guarantees *)

(** A configuration and, in replay mode, a file that [init] accepts and that the
    generator can serve. *)
Definition startable (cfg : SimConfig) (file : option (list Z)) : Prop :=
  dle (double_of_Z 0) (drop_rate cfg) = true ∧ dle (drop_rate cfg) (double_of_Z 1) = true ∧
  match mode cfg with
  | kSynthetic => cfg_ok cfg ∧ 0 < cfg_prebuf_count cfg ∧ 0 ≤ reorder_window cfg < 2 ^ 32
  | kReplay => ∃ bs, file = Some bs ∧ bs ≠ [] ∧ bytes bs ∧ Z.of_nat (length bs) < 2 ^ 63
  end.

Lemma init_ready cfg file ring now :
  startable cfg file →
  ∃ f, SimFeedSource_init (SimFeedSource_new cfg ring) true file true now = Some (f, true) ∧
    sim_ready f ∧ tick_ring f = ring ∧ sim_cfg f = cfg ∧
    (mode cfg = kReplay → sim_symbols f = SymbolTable_clear).
Proof.
  intros (H0 & H1 & Hm). unfold SimFeedSource_init. change (sim_cfg (SimFeedSource_new cfg ring)) with cfg.
  rewrite H0, H1. cbn [andb negb]. destruct (mode cfg) eqn:E.
  - destruct Hm as (Hcfg & Hpos & Hwin).
    destruct (init_synthetic_ready cfg ring now Hcfg E Hpos Hwin) as (f & Ef & ? & ? & ?).
    exists f. split; [exact Ef|]. by split_and!.
  - destruct Hm as (bs & -> & Hne & Hb & Hl).
    destruct (init_replay_ready cfg ring bs now E Hne Hb Hl) as (f & Ef & ? & ? & ? & ? & _).
    exists f. rewrite Ef. by split_and!.
Qed.

(** The simulated feed starts and runs.  From any acceptable
    configuration [init] succeeds, and then any sequence of polls, at any clock
    readings and in either mode, completes without undefined behaviour; the tick
    ring keeps its earlier contents and gains, in order, as many well-formed ticks
    as [total_messages] counts. *)
Theorem simulated_feed_runs cfg file ring q now clock :
  startable cfg file → holds_ticks ring q →
  ∃ f f' new, SimFeedSource_init (SimFeedSource_new cfg ring) true file true now = Some (f, true) ∧
    run_polls f clock = Some f' ∧ holds_ticks (tick_ring f') (q ++ new) ∧ Forall tick_wf new ∧
    u64 (total_messages (counters f') - total_messages (counters f)) = u64 (Z.of_nat (length new)).
Proof.
  intros Hs Hq. destruct (init_ready cfg file ring now Hs) as (f & Ei & Hf & Hr & _).
  assert (Hq' : holds_ticks (feed_ring f) q) by (cbn [feed_ring sim_feed]; by rewrite Hr).
  destruct (polls_append f clock q Hf Hq' (sim_counts _ Hf)) as (f' & new & E & _ & Hq2 & Hw & Hc).
  exists f, f', new. split_and!; try done. cbn [feed_total_messages sim_feed] in Hc. rewrite Hc.
  unfold u64. rewrite Zminus_mod_idemp_l. f_equal. lia.
Qed.

(** ** The replay feed has no symbols *)

Definition adds_order (t : TickMsg) : Prop := msg_type t = kAddOrder ∨ msg_type t = kAddOrderMPID.

Lemma lookup_clear key : SymbolTable_lookup SymbolTable_clear key = kNotFound.
Proof. rewrite (lookup_rep _ ∅ clear_rep). by rewrite lookup_empty. Qed.

(** A case of the decoder never changes the message type. *)
Definition keeps_type (ty : Z) (r : option (bool * TickMsg)) : Prop :=
  match r with Some (_, t) => msg_type t = ty | None => True end.

Lemma keeps_bind {A} ty (o : option A) k : (∀ x, keeps_type ty (k x)) → keeps_type ty (o ≫= k).
Proof. intros H. destruct o; [apply H|exact I]. Qed.

Ltac solve_keeps := repeat first [exact eq_refl | apply keeps_bind; intros ? | case_cond].

Lemma decoders_keep_type raw table ty ts :
  let hdr := mkTick ty 0 0 ts 0 0 0 0 in
  keeps_type ty (decode_executed raw hdr) ∧ keeps_type ty (decode_exec_price raw hdr) ∧
  keeps_type ty (decode_cancel raw hdr) ∧ keeps_type ty (decode_delete raw hdr) ∧
  keeps_type ty (decode_replace raw hdr) ∧ keeps_type ty (decode_trade raw table hdr) ∧
  keeps_type ty (decode_cross raw table hdr) ∧ keeps_type ty (decode_trading_action raw table hdr) ∧
  keeps_type ty (decode_reg_sho raw table hdr).
Proof.
  split_and!; unfold decode_executed, decode_exec_price, decode_cancel, decode_delete, decode_replace,
    decode_trade, decode_cross, decode_trading_action, decode_reg_sho, decode_status; cbv zeta; solve_keeps.
Qed.

Lemma no_symbols_no_adds t : from_decoder SymbolTable_clear t → ¬ adds_order t.
Proof.
  intros (raw & out & Hb & E) Ha. revert E. unfold decode_itch. case_cond; [done|].
  destruct (raw !! 0%nat) as [ty|]; [|done]. cbn [mbind option_bind]. case_cond; [done|].
  destruct (be_timestamp48 raw 5) as [ts|]; [|done]. cbn [mbind option_bind]. case_cond; [done|].
  destruct ((ty =? kAddOrder) || (ty =? kAddOrderMPID)) eqn:Et.
  - unfold decode_add. cbn [msg_type]. case_cond; [done|]. destruct (load_ticker_key raw 24); [|done].
    cbn [mbind option_bind]. rewrite lookup_clear. done.
  - destruct (decoders_keep_type raw SymbolTable_clear ty ts) as (K1 & K2 & K3 & K4 & K5 & K6 & K7 & K8 & K9).
    intros E. assert (Hty : keeps_type ty (Some (true, t))) by (rewrite <- E; repeat case_cond; done).
    apply orb_false_iff in Et as [E1%Z.eqb_neq E2%Z.eqb_neq]. unfold keeps_type in Hty. destruct Ha; congruence.
Qed.

Lemma polls_from_decoder f clock q :
  sim_ready f → holds_ticks (tick_ring f) q →
  ∃ f' new, run_polls f clock = Some f' ∧ holds_ticks (tick_ring f') (q ++ new) ∧
    Forall (from_decoder (sim_symbols f)) new.
Proof.
  revert f q. induction clock as [|now clock IH]; intros f q Hf Hq; cbn [run_polls].
  { exists f, []. by rewrite app_nil_r. }
  destruct (poll_ok f now q Hf Hq) as (f1 & new1 & E & Hf1 & Hq1 & Hd1 & Hs & _ & _).
  cbn [feed_poll sim_feed]. rewrite E. cbn [mbind option_bind fst].
  destruct (IH f1 (q ++ new1) Hf1 Hq1) as (f2 & new2 & E2 & Hq2 & Hd2). rewrite Hs in Hd2.
  exists f2, (new1 ++ new2). rewrite app_assoc. split_and!; [done|done|]. by apply Forall_app.
Qed.

(** A replayed session never adds an order.  In replay mode nothing
    fills the feed's symbol table, so the decoder refuses every Add Order of the
    file, whatever it contains: no tick that reaches the ring adds an order to the
    book. *)
Theorem replay_never_adds_orders cfg file ring q now clock :
  startable cfg file → mode cfg = kReplay → holds_ticks ring q →
  ∃ f f' new, SimFeedSource_init (SimFeedSource_new cfg ring) true file true now = Some (f, true) ∧
    run_polls f clock = Some f' ∧ holds_ticks (tick_ring f') (q ++ new) ∧ Forall (λ t, ¬ adds_order t) new.
Proof.
  intros Hs Hm Hq. destruct (init_ready cfg file ring now Hs) as (f & Ei & Hf & Hr & _ & Hsym).
  destruct (polls_from_decoder f clock q Hf ltac:(by rewrite Hr)) as (f' & new & E & Hq' & Hd).
  exists f, f', new. split_and!; try done. rewrite (Hsym Hm) in Hd.
  eapply Forall_impl; [exact Hd|]. apply no_symbols_no_adds.
Qed.

(** ** Replaying a file of frames *)

(** The conditions under which every poll serves the next frame. *)
Record replaying (f : SimFeedSource) (file : list Z) : Prop := mk_replaying {
  rp_ready : sim_ready f;
  rp_mode : mode (sim_cfg f) = kReplay;
  rp_file : replay_base f = Some file;
  rp_unpaced : ns_per_msg (pacing f) = 0;
  rp_keeps : dle (drop_rate (sim_cfg f)) (double_of_Z 0) = true
}.

Lemma note_attempt_unpaced cfg p : ns_per_msg (note_attempt cfg p) = ns_per_msg p.
Proof. unfold note_attempt. by repeat case_cond. Qed.

Lemma replay_step f pre m post q now :
  frameable m → replaying f (pre ++ frame m ++ post) → bytes (pre ++ frame m ++ post) →
  Z.of_nat (length (pre ++ frame m ++ post)) < 2 ^ 63 → replay_cursor f = Z.of_nat (length pre) →
  holds_ticks (tick_ring f) q → Z.of_nat (length q) < kTickCapacity →
  ∃ f' n, poll f now = Some (f', n) ∧ replaying f' (pre ++ frame m ++ post) ∧
    replay_cursor f' = Z.of_nat (length (pre ++ frame m)) ∧ sim_symbols f' = sim_symbols f ∧
    holds_ticks (tick_ring f') (q ++ option_list (decoded (sim_symbols f) m)) ∧
    total_bytes (counters f') = u64 (total_bytes (counters f) + Z.of_nat (length (frame m))).
Proof.
  intros Hm [Hready Hmode Hfile Hpace Hdrop] Hbytes Hsz Hcur Hq Hroom.
  destruct (frame_at pre m post Hm) as (p0 & p1 & E0 & E1 & En & Es). destruct Hm as [Hmb Hml].
  destruct (poll_ok f now q Hready Hq) as (f' & new & Epoll & Hready' & _).
  assert (Hlen : length (pre ++ frame m ++ post) = (length pre + (2 + length m) + length post)%nat)
    by (rewrite !length_app, frame_length; lia).
  set (file := pre ++ frame m ++ post) in *. rewrite Epoll.
  unfold poll in Epoll. rewrite Hmode in Epoll. unfold poll_replay, pace in Epoll.
  rewrite Hpace, andb_false_r in Epoll. unfold ring_full in Epoll. sim_fields.
  rewrite (size_spec TickMsg_zero tick_bits ltac:(unfold tick_bits; lia) _ q Hq) in Epoll.
  rewrite (proj2 (Z.leb_gt _ _) Hroom), Hfile in Epoll. cbn [mbind option_bind] in Epoll.
  assert (Efit : (Z.of_nat (length file) <? u64 (Z.of_nat (length pre) + 2)) = false)
    by (rewrite u64_small by lia; apply Z.ltb_ge; lia).
  rewrite Hcur, Efit in Epoll. sim_fields. rewrite Hcur, Efit in Epoll. unfold replay_frame in Epoll. sim_fields.
  rewrite Hcur, E0, E1 in Epoll. cbn [mbind option_bind] in Epoll. rewrite En in Epoll.
  rewrite (proj2 (Z.eqb_neq (Z.of_nat (length m)) 0)) in Epoll by lia.
  rewrite (u64_small (Z.of_nat (length pre) + 2 + Z.of_nat (length m))), Es in Epoll by lia.
  rewrite (proj2 (Z.ltb_ge (Z.of_nat (length file)) (Z.of_nat (length pre) + 2 + Z.of_nat (length m)))) in Epoll by lia.
  cbn [orb mbind option_bind] in Epoll.
  unfold should_drop in Epoll. rewrite Hdrop in Epoll. cbn [mret st_ret mbind option_bind] in Epoll.
  destruct (sim_table _ Hready) as [g Hg].
  match type of Epoll with context [claim_and_decode ?x m] => set (f1 := x) in * end.
  destruct (claim_and_decode_ok f1 m q g Hq Hmb Hg) as [[_ Hfull]|(r & ok & nw & Ec & Hq' & _ & _ & Hnew)]; [lia|].
  rewrite Ec in Epoll. cbn [mbind option_bind] in Epoll. injection Epoll as Ef _.
  exists f', (Z.of_nat (length new)). split; [done|]. subst nw.
  split; [split; [exact Hready'|rewrite <- Ef; sim_fields..]; try done; unfold f1; sim_fields; by rewrite note_attempt_unpaced|].
  rewrite <- Ef. sim_fields. rewrite (u64_small (_ + (2 + _))) by lia.
  split; [rewrite length_app, frame_length; lia|]. split; [done|]. split; [done|].
  rewrite frame_length. destruct ok; cbn [total_bytes count_message count_bytes]; do 2 f_equal; lia.
Qed.

Lemma replay_polls ms f pre q clock :
  Forall frameable ms → replaying f (pre ++ frames ms) → bytes (pre ++ frames ms) →
  Z.of_nat (length (pre ++ frames ms)) < 2 ^ 63 → replay_cursor f = Z.of_nat (length pre) →
  holds_ticks (tick_ring f) q → Z.of_nat (length q + length ms) ≤ kTickCapacity →
  length clock = length ms → 0 ≤ total_bytes (counters f) < 2 ^ 64 →
  ∃ f', run_polls f clock = Some f' ∧ replaying f' (pre ++ frames ms) ∧
    replay_cursor f' = Z.of_nat (length (pre ++ frames ms)) ∧
    holds_ticks (tick_ring f') (q ++ omap (decoded (sim_symbols f)) ms) ∧
    total_bytes (counters f') = u64 (total_bytes (counters f) + Z.of_nat (length (frames ms))).
Proof.
  revert f pre q clock. induction ms as [|m ms IH]; intros f pre q clock Hms Hf Hb Hsz Hcur Hq Hroom Hclock Htot.
  { destruct clock; [|done]. exists f. change (frames []) with (@nil Z) in *. rewrite !app_nil_r in *.
    split_and!; [done|done|done|exact Hq|]. rewrite Z.add_0_r. symmetry. by apply u64_small. }
  apply Forall_cons in Hms as [Hm Hms]. destruct clock as [|now clock]; [done|]. simpl in Hroom.
  change (frames (m :: ms)) with (frame m ++ frames ms) in *.
  destruct (replay_step f pre m (frames ms) q now Hm Hf Hb Hsz Hcur Hq) as (f1 & n & E & Hf1 & Hc1 & Hs1 & Hq1 & Ht1); [lia|].
  cbn [run_polls feed_poll sim_feed]. rewrite E. cbn [mbind option_bind fst]. rewrite app_assoc in *.
  destruct (IH f1 (pre ++ frame m) (q ++ option_list (decoded (sim_symbols f) m)) clock) as (f2 & E2 & Hf2 & Hc2 & Hq2 & Ht2);
    try done; [rewrite length_app; destruct (decoded _ m); simpl; lia|by injection Hclock|rewrite Ht1; apply u64_range|].
  exists f2. split; [done|]. split; [done|]. split; [done|]. rewrite Hs1, <- app_assoc in Hq2. split.
  - cbn [omap list_omap]. by destruct (decoded (sim_symbols f) m).
  - rewrite Ht2, Ht1, u64_add, length_app. f_equal. lia.
Qed.

(** A replay serves its file frame by frame.  Given any list of
    messages written with their 2-byte lengths, an unpaced replay that drops
    nothing makes, in as many polls as there are messages, one pass over the file:
    it puts into the ring exactly the ticks the messages decode to, in file order,
    counts every byte, and ends with its cursor at the end of the file. *)
Theorem replay_serves_every_frame f ms q clock :
  Forall frameable ms → replaying f (frames ms) → Z.of_nat (length (frames ms)) < 2 ^ 63 →
  replay_cursor f = 0 → holds_ticks (tick_ring f) q → Z.of_nat (length q + length ms) ≤ kTickCapacity →
  length clock = length ms → 0 ≤ total_bytes (counters f) < 2 ^ 64 →
  ∃ f', run_polls f clock = Some f' ∧ replay_cursor f' = Z.of_nat (length (frames ms)) ∧
    holds_ticks (tick_ring f') (q ++ omap (decoded (sim_symbols f)) ms) ∧
    total_bytes (counters f') = u64 (total_bytes (counters f) + Z.of_nat (length (frames ms))).
Proof.
  intros Hms Hf Hsz Hcur Hq Hroom Hclock Htot.
  destruct (replay_polls ms f [] q clock) as (f' & ? & ? & ? & ? & ?); try done; [|by exists f'].
  by apply frames_bytes.
Qed.

(** ** Instances *)

Definition empty_ring : SPSCRing TickMsg := mkRing 0 0 (Some ∅).

Lemma empty_ring_holds : holds_ticks empty_ring [].
Proof. exists 0%nat. by split. Qed.

Definition small_config : SimConfig :=
  mkSimConfig kSynthetic 16 0 42 8 (double_of_Z 0) 4 0 0 1000000 5000000 1 10000.

Lemma simulated_feed_runs_witness :
  ∃ f f' new,
    SimFeedSource_init (SimFeedSource_new small_config empty_ring) true None true 5 = Some (f, true) ∧
    run_polls f [6; 7; 8] = Some f' ∧ holds_ticks (tick_ring f') ([] ++ new) ∧ Forall tick_wf new ∧
    u64 (total_messages (counters f') - total_messages (counters f)) = u64 (Z.of_nat (length new)).
Proof.
  refine (simulated_feed_runs small_config None empty_ring [] 5 [6; 7; 8] _ empty_ring_holds).
  split; [reflexivity|]. split; [reflexivity|]. split; [|simpl; lia].
  split; unfold kSymbols, kMaxQuantity, kMaxPrice; simpl; lia.
Defined.

(** A file of one Order Delete, replayed without pacing. *)
Definition replay_config : SimConfig :=
  mkSimConfig kReplay 0 0 0 0 (double_of_Z 0) 0 0 0 0 0 0 0.
Definition one_frame : list Z := frames [delete_message].

Lemma replay_startable : startable replay_config (Some one_frame).
Proof.
  split; [reflexivity|]. split; [reflexivity|]. exists one_frame. split; [done|]. split; [done|].
  split; [by_decide|simpl; lia].
Qed.

Lemma replay_never_adds_orders_witness :
  ∃ f f' new,
    SimFeedSource_init (SimFeedSource_new replay_config empty_ring) true (Some one_frame) true 5 = Some (f, true) ∧
    run_polls f [6] = Some f' ∧ holds_ticks (tick_ring f') ([] ++ new) ∧ Forall (λ t, ¬ adds_order t) new.
Proof.
  exact (replay_never_adds_orders replay_config (Some one_frame) empty_ring [] 5 [6]
    replay_startable eq_refl empty_ring_holds).
Defined.

Lemma replay_serves_every_frame_witness :
  ∃ f f', fst (init_replay (SimFeedSource_new replay_config empty_ring) (Some one_frame) true 5) = f ∧
    run_polls f [6] = Some f' ∧ replay_cursor f' = 21 ∧
    holds_ticks (tick_ring f') [mkTick kOrderDelete 0 2 1000 0 0 7 0].
Proof.
  destruct (init_replay_ready replay_config empty_ring one_frame 5) as (f & E & Hf & Hr & Hc & Hs & Hb & H0 & Hp);
    [done|done|by_decide|simpl; lia|].
  destruct (replay_serves_every_frame f [delete_message] [] [6]) as (f' & E' & Hcur & Hq & _).
  - constructor; [|constructor]. split; [by_decide|simpl; lia].
  - split; [done|by rewrite Hc|done|by rewrite (Hp eq_refl)|by rewrite Hc].
  - simpl. lia.
  - done.
  - rewrite Hr. exact empty_ring_holds.
  - unfold kTickCapacity. simpl. lia.
  - done.
  - injection E as <-. simpl. lia.
  - exists f, f'. rewrite E. split; [done|]. split; [done|]. split; [done|]. rewrite Hs in Hq. exact Hq.
Defined.

Lemma uniform_empty r : uniform 1 0 r = None.
Proof. by destruct r. Qed.

(** A configuration the feed accepts can divide by zero.  With
    [max_qty = 1] the range of an execution's quantity is empty, [uniform(1, 0)]
    computes a modulus of 0, and the generator has no defined result. *)
Theorem unit_quantity_divides_by_zero cfg ts seq rng :
  1 ≤ synthetic_symbols cfg ≤ kSymbols → max_qty cfg = 1 → 1 ≤ seq < 2 ^ 63 →
  gen_order_executed cfg (replicate kSimMaxMsgLen 0) ts seq rng = None.
Proof.
  intros Hs Hq Hseq. unfold gen_order_executed. unfold mbind at 1, st_bind at 1.
  assert (Hsym : yields (pick_symbol cfg) (λ _, True)).
  { unfold pick_symbol, kSymbols in *. rewrite u32_small by lia.
    eapply yields_bind; [apply uniform_u32_yields; lia|]. intros s _. by apply yields_ret. }
  destruct (Hsym rng) as (s & r1 & -> & _). unfold mbind at 1, st_bind at 1. cbn [lift].
  destruct (pick_ref_yields seq Hseq r1) as (ref & r2 & E & _).
  unfold lift at 1, mbind, st_bind, option_bind. cbn -[pick_ref uniform next Z.quot]. rewrite E.
  rewrite Hq. change (Z.quot 1 2) with 0. by rewrite uniform_empty.
Qed.

Lemma unit_quantity_divides_by_zero_witness :
  gen_order_executed (mkSimConfig kSynthetic 16 0 42 8 (double_of_Z 0) 4 0 0 1000000 5000000 1 1)
    (replicate kSimMaxMsgLen 0) kOpenNs 1 (Xoshiro256_init 3) = None.
Proof. apply unit_quantity_divides_by_zero; unfold kSymbols; simpl; lia. Defined.
