(* ===== verification/Pipeline.v ===== *)
(** * Pipeline: a feed, the tick ring and the consumer together

    The ingestion thread polls a feed and the consumer thread drains the ring
    into the book.  The feed is any implementation of the interface of [Feed];
    the schedule is any interleaving of polls and consumer iterations. *)

From S2P Require Import Prelude Arena OrderIndex OrderRefMap Lob LobCorrect Book LobTheorems.
From S2P Require Import Ring Consumer Itch Feed FeedSim FeedGen FeedPoll.
From Stdlib Require Import ZArith Lia.
From stdpp Require Import base tactics gmap numbers option list.
Open Scope Z_scope.

Inductive event := Poll (now : Z) | Consume.

Section pipeline.
Context {F O : Type} `{FeedContract F ready} (observe : O → Engine → TickMsg → O).

Definition with_ring (c : Consumer O) (r : SPSCRing TickMsg) : Consumer O :=
  mkConsumer (c_has_arena c) r (c_lob c) (c_observers c) (c_running c) (c_tick_count c) (c_rejected_ticks c).

(** The ticks in a ring, oldest first, and the last [n] of them. *)
Definition ring_ticks (r : SPSCRing TickMsg) : list TickMsg := read_burst TickMsg_zero tick_bits r 0 (Z.to_nat (ring_size r)).
Definition published (r : SPSCRing TickMsg) (n : Z) : list TickMsg := drop (Z.to_nat (ring_size r - n)) (ring_ticks r).

(** One iteration of one of the two threads; both sides see the shared ring.  A poll
    that reports [n] ticks has published the [n] newest ticks of the ring. *)
Definition pipeline_step (s : F * Consumer O) (e : event) : option (F * Consumer O * list TickMsg) :=
  let '(f, c) := s in
  match e with
  | Poll now => '(f', n) ← feed_poll f now; Some (f', with_ring c (feed_ring f'), published (feed_ring f') n)
  | Consume => r ← process_one observe c; Some (feed_sync f (c_ring (fst r)), fst r, [])
  end.

(** A schedule, and all that the feed published in it. *)
Fixpoint run_pipeline (s : F * Consumer O) (schedule : list event) : option (F * Consumer O * list TickMsg) :=
  match schedule with
  | [] => Some (s, [])
  | e :: schedule' => '(s', now) ← pipeline_step s e; '(s'', later) ← run_pipeline s' schedule'; Some (s'', now ++ later)
  end.

(** The two threads agree on a ring that holds [q]. *)
Definition coupled (s : F * Consumer O) (q : list TickMsg) : Prop :=
  let '(f, c) := s in
  ready f ∧ c_has_arena c = true ∧ c_ring c = feed_ring f ∧ holds_ticks (c_ring c) q ∧
  Forall tick_wf q ∧ reachable (c_lob c).

Lemma tick_wf_addressed t : tick_wf t → tick_ok t ∧ (kSymbols <=? tick_symbol t) = false.
Proof using Type. intros Hw. split; [apply Hw|]. apply Z.leb_gt. apply Hw. Qed.

Lemma published_new r q new : holds_ticks r (q ++ new) → published r (Z.of_nat (length new)) = new.
Proof using Type.
  intros Hq. assert (Hb : 0 ≤ tick_bits ≤ 32) by (unfold tick_bits; lia). unfold published, ring_ticks. rewrite (size_spec TickMsg_zero tick_bits Hb r _ Hq).
  destruct Hq as [start Hq]. rewrite (read_burst_spec TickMsg_zero tick_bits Hb r start _ 0 _ Hq) by lia. rewrite Nat2Z.id, drop_0, firstn_all, length_app.
  replace (Z.to_nat _) with (length q) by lia. apply drop_app_length.
Qed.

Lemma consume_coupled f c q :
  coupled (f, c) q →
  ∃ f' c', pipeline_step (f, c) Consume = Some (f', c', []) ∧ coupled (f', c') (drop 1 q) ∧
    c_rejected_ticks c' = c_rejected_ticks c ∧
    match q with
    | [] => c' = c
    | t :: _ => process_unlocked (c_lob c) t = Some (c_lob c') ∧ c_observers c' = observe (c_observers c) (c_lob c') t ∧
                c_tick_count c' = u64 (c_tick_count c + 1)
    end.
Proof using Type*.
  intros (Hf & Ha & Hr & Hq & Hw & Hl). cbn [pipeline_step]. unfold process_one. rewrite Ha. cbn [negb].
  pose proof (peek_oldest (c_ring c) q Hq) as Hp. destruct q as [|t q].
  - rewrite Hp. cbn [mbind option_bind fst]. do 2 eexists. split; [reflexivity|]. split; [|done].
    split_and!; try done; [by apply ready_sync|by rewrite ring_sync].
  - destruct Hp as (i & -> & -> & Hq'). apply Forall_cons in Hw as [Ht Hw].
    destruct (tick_wf_addressed t Ht) as [Hok ->].
    destruct (reachable_inv _ Hl) as [g Hinv].
    destruct (process_spec orm_rep (c_lob c) g t Hinv Hok) as (e1 & ok & He1 & _). rewrite He1.
    cbn [mbind option_bind fst c_ring]. do 2 eexists. split; [reflexivity|]. split; [|done].
    split_and!; cbn [c_has_arena c_ring c_lob]; try done; [by apply ready_sync|by rewrite ring_sync|].
    by eapply reach_step.
Qed.

Lemma poll_coupled f c q now :
  coupled (f, c) q →
  ∃ f' c' new, pipeline_step (f, c) (Poll now) = Some (f', c', new) ∧ coupled (f', c') (q ++ new) ∧ Forall tick_wf new ∧
    c' = with_ring c (c_ring c').
Proof using Type*.
  intros (Hf & Ha & Hr & Hq & Hw & Hl). rewrite Hr in Hq.
  destruct (poll_appends f now q Hf Hq) as (f' & new & E & Hf' & Hq' & Hw' & _).
  cbn [pipeline_step]. rewrite E. cbn [mbind option_bind fst]. rewrite (published_new _ q new Hq'). do 2 eexists. exists new. split; [reflexivity|].
  split; [|by split_and!]. unfold coupled. split_and!; try done. by apply Forall_app.
Qed.

(** What the consumer has done with the first [k] ticks. *)
Record applied (c : Consumer O) (ticks : list TickMsg) (k : nat) (c' : Consumer O) : Prop := mk_applied {
  ap_count : (k ≤ length ticks)%nat;
  ap_book : process_all (c_lob c) (take k ticks) = Some (c_lob c');
  ap_observers : observe_all observe (c_observers c) (c_lob c) (take k ticks) = Some (c_observers c');
  ap_rest : holds_ticks (c_ring c') (drop k ticks);
  ap_counter : c_tick_count c' = u64 (c_tick_count c + Z.of_nat k);
  ap_rejected : c_rejected_ticks c' = c_rejected_ticks c
}.

Lemma applied_next c t ticks k c1 c' :
  process_unlocked (c_lob c) t = Some (c_lob c1) → c_observers c1 = observe (c_observers c) (c_lob c1) t →
  c_tick_count c1 = u64 (c_tick_count c + 1) → c_rejected_ticks c1 = c_rejected_ticks c → applied c1 ticks k c' → applied c (t :: ticks) (S k) c'.
Proof using Type.
  intros Hp Ho Hn Hr [A1 A2 A3 A4 A5 A6]. split; cbn [length take drop process_all observe_all]; [lia|by rewrite Hp|rewrite Hp; cbn [mbind option_bind]; by rewrite <- Ho|done| |congruence].
  rewrite A5, Hn, u64_add. f_equal. lia.
Qed.

Lemma run_pipeline_coupled schedule f c q :
  coupled (f, c) q → 0 ≤ c_tick_count c < 2 ^ 64 →
  ∃ f' c' ticks k, run_pipeline (f, c) schedule = Some (f', c', ticks) ∧ Forall tick_wf ticks ∧ applied c (q ++ ticks) k c'.
Proof using Type*.
  revert f c q. induction schedule as [|[now|] schedule IH]; intros f c q Hs Hn; cbn [run_pipeline].
  - exists f, c, [], 0%nat. rewrite app_nil_r. split_and!; [done|done|]. destruct Hs as (_ & _ & _ & Hq & _). split; try done; [lia|]. by rewrite Z.add_0_r, u64_small.
  - destruct (poll_coupled f c q now Hs) as (f1 & c1 & new & -> & Hs1 & Hw1 & Hc1). cbn [mbind option_bind].
    destruct (IH f1 c1 (q ++ new) Hs1) as (f2 & c2 & ticks & k & -> & Hw2 & Hk); [by rewrite Hc1|]. cbn [mbind option_bind].
    exists f2, c2, (new ++ ticks), k. rewrite app_assoc. split_and!; [done|by apply Forall_app|]. rewrite Hc1 in Hk. by destruct Hk.
  - destruct (consume_coupled f c q Hs) as (f1 & c1 & -> & Hs1 & Hr1 & Hq). cbn [mbind option_bind]. destruct q as [|t q].
    + subst c1. destruct (IH f1 c [] Hs1 Hn) as (f2 & c2 & ticks & k & -> & Hw & Hk). cbn [mbind option_bind app]. by exists f2, c2, ticks, k.
    + destruct Hq as (Hp1 & Ho1 & Hn1). destruct (IH f1 c1 q Hs1) as (f2 & c2 & ticks & k & -> & Hw & Hk); [rewrite Hn1; apply u64_range|].
      cbn [mbind option_bind app]. exists f2, c2, ticks, (S k). split_and!; [done|done|]. by eapply applied_next.
Qed.
End pipeline.

(** C27 (refinement): end to end, the book is the feed's ticks applied in order.
    For any feed that keeps the contract of [IFeedSource], a ring that starts empty and
    any interleaving of polls and consumer iterations, nothing fails and no tick is
    rejected.  Let [ticks] be what the feed published, poll after poll, read from the
    ring at the moment each poll returned: the consumer has taken the first k of them,
    where k is its own count, each once and in that order, its book is [process] applied
    to them, the observers saw each with the book after it, and the ring holds exactly
    the others. *)
Theorem pipeline_applies_the_feed {F O} `{FeedContract F ready} (observe : O → Engine → TickMsg → O)
    (f : F) (c : Consumer O) schedule :
  ready f → c_has_arena c = true → c_ring c = feed_ring f → holds_ticks (c_ring c) [] → reachable (c_lob c) →
  0 ≤ c_tick_count c < 2 ^ 64 →
  ∃ f' c' ticks k, run_pipeline observe (f, c) schedule = Some (f', c', ticks) ∧
    Forall tick_wf ticks ∧ applied observe c ticks k c'.
Proof. intros Hf Ha Hr Hq Hl Hn. by apply (run_pipeline_coupled observe schedule f c []). Qed.

(** The simulated feed and a fresh book. *)
Definition fresh_consumer : Consumer nat := mkConsumer true empty_ring fresh_engine 0%nat true 0 0.

Lemma pipeline_applies_the_feed_witness :
  ∃ f f' c' ticks k,
    SimFeedSource_init (SimFeedSource_new replay_config empty_ring) true (Some one_frame) true 5 = Some (f, true) ∧
    run_pipeline (λ n _ _, S n) (f, fresh_consumer) [Poll 6; Consume; Poll 7; Poll 8; Consume] = Some (f', c', ticks) ∧
    length ticks = 3%nat ∧ applied (λ n _ _, S n) fresh_consumer ticks k c'.
Proof.
  destruct (init_ready replay_config (Some one_frame) empty_ring 5 replay_startable) as (f & E & Hf & Hr & _).
  destruct (pipeline_applies_the_feed (λ n _ _, S n) f fresh_consumer [Poll 6; Consume; Poll 7; Poll 8; Consume])
    as (f' & c' & ticks & k & H1 & H2 & H3).
  - exact Hf.
  - reflexivity.
  - symmetry. exact Hr.
  - exact empty_ring_holds.
  - apply reach_init. reflexivity.
  - cbn. lia.
  - exists f, f', c', ticks, k. split; [exact E|]. split; [exact H1|]. split; [|exact H3].
    assert (Hn : (x ← SimFeedSource_init (SimFeedSource_new replay_config empty_ring) true (Some one_frame) true 5;
      y ← run_pipeline (λ n _ _, S n) (fst x, fresh_consumer) [Poll 6; Consume; Poll 7; Poll 8; Consume]; Some (length (snd y))) = Some 3%nat) by (vm_compute; reflexivity).
    rewrite E in Hn. cbn [mbind option_bind fst] in Hn. rewrite H1 in Hn. cbn [mbind option_bind snd] in Hn. injection Hn as Hn. exact Hn.
Defined.
