(* ===== verification/Mold.v ===== *)
(** * Mold: MoldUDP64 packets (src/luv_moldudp64.hpp)

    A packet is a list of bytes, [None] for the null pointer; its length is the
    [size] argument.  A read outside it is undefined behaviour ([None]).  Offsets
    are [size_t]: subtractions wrap. *)

From S2P Require Import Prelude Arena SymbolTable Itch FeedGen.
From Stdlib Require Import ZArith Lia.
From stdpp Require Import base tactics gmap numbers option list.
Open Scope Z_scope.

Definition kHeaderSize : Z := 20.

Record Header := mkHeader { h_sequence : Z; h_message_count : Z }.

Definition read_be16 (data : list Z) (off : Z) : option Z :=
  a ← zget data off; b ← zget data (off + 1); Some (u16 (Z.lor (Z.shiftl a 8) b)).

Fixpoint read_be (n : nat) (data : list Z) (off value : Z) : option Z :=
  match n with
  | O => Some value
  | S n' => b ← zget data off; read_be n' data (off + 1) (Z.lor (u64 (Z.shiftl value 8)) b)
  end.

Definition read_be64 (data : list Z) (off : Z) : option Z := read_be 8 data off 0.

(** The bool and the header as left by the call. *)
Definition parse_header (data : option (list Z)) (header : Header) : option (bool * Header) :=
  match data with
  | None => Some (false, header)
  | Some data =>
      if Z.of_nat (length data) <? kHeaderSize then Some (false, header) else
      s ← read_be64 data 10; c ← read_be16 data 18; Some (true, mkHeader s c)
  end.

Fixpoint validate_from (n : nat) (data : list Z) (offset : Z) : option bool :=
  let size := Z.of_nat (length data) in
  match n with
  | O => Some (offset =? size)
  | S n' =>
      if u64 (size - offset) <? 2 then Some false else
      len ← read_be16 data offset;
      let offset := u64 (offset + 2) in
      if (len =? 0) || (u64 (size - offset) <? len) then Some false
      else validate_from n' data (u64 (offset + len))
  end.

Definition validate_message_block (data : option (list Z)) (message_count : Z) : option bool :=
  match data with
  | None => Some false
  | Some data =>
      if Z.of_nat (length data) <? kHeaderSize then Some false
      else validate_from (Z.to_nat message_count) data kHeaderSize
  end.

(** ** class MessageIterator *)

Record MessageIterator := mkIter {
  it_data : option (list Z);
  it_offset : Z;
  it_invalid : bool
}.

Definition MessageIterator_new (data : option (list Z)) : MessageIterator := mkIter data kHeaderSize false.

(** [next]: the iterator afterwards and the message, [None] when it returns false. *)
Definition iter_next (it : MessageIterator) : option (MessageIterator * option (list Z)) :=
  match it_data it with
  | None => Some (it, None)
  | Some data =>
      let size := Z.of_nat (length data) in
      let fail offset := Some (mkIter (Some data) offset true, None) in
      if it_invalid it || (it_offset it =? size) then Some (it, None) else
      if (size <? it_offset it) || (u64 (size - it_offset it) <? 2) then fail (it_offset it) else
      len ← read_be16 data (it_offset it);
      let offset := u64 (it_offset it + 2) in
      if (len =? 0) || (u64 (size - offset) <? len) then fail offset else
      m ← slice data offset len;
      Some (mkIter (Some data) (u64 (offset + len)) false, Some m)
  end.

Definition iter_valid (it : MessageIterator) : bool := negb (it_invalid it).

(** ** Retransmission requests *)

Record RequestPacket := mkRequest { session : list Z; r_sequence : Z; requested_count : Z }.

Definition format_request (req : RequestPacket) (buffer : option (list Z)) : option (bool * option (list Z)) :=
  match buffer with
  | None => Some (false, None)
  | Some buf =>
      if Z.of_nat (length buf) <? 20 then Some (false, Some buf) else
      b ← put buf 0 (session req);
      b ← put b 10 ((λ i, Z.land (Z.shiftr (r_sequence req) ((7 - Z.of_nat i) * 8)) 0xFF) <$> seq 0 8);
      b ← put b 18 [Z.land (Z.shiftr (requested_count req) 8) 0xFF; Z.land (requested_count req) 0xFF];
      Some (true, Some b)
  end.

Definition parse_request (data : option (list Z)) (req : RequestPacket) : option (bool * RequestPacket) :=
  match data with
  | None => Some (false, req)
  | Some data =>
      if Z.of_nat (length data) <? 20 then Some (false, req) else
      s ← slice data 0 10; q ← read_be64 data 10; c ← read_be16 data 18;
      Some (true, mkRequest s q c)
  end.

(** ** Reading *)

Lemma read_be_val n data off v :
  bytes data → 0 ≤ off → off + Z.of_nat n ≤ Z.of_nat (length data) → 0 ≤ v < 256 ^ (8 - Z.of_nat n) → (n ≤ 8)%nat →
  read_be n data off v = Some (v * 256 ^ Z.of_nat n + be_val (take n (drop (Z.to_nat off) data))).
Proof.
  intros Hb. revert off v. induction n as [|n IH]; intros off v Ho Hl Hv Hn; cbn [read_be].
  { f_equal. simpl. lia. }
  unfold zget. rewrite (proj2 (Z.leb_le 0 off)) by lia.
  destruct (byte_at data (Z.to_nat off) Hb) as (b & Eb & Hbr); [lia|]. rewrite Eb. cbn [mbind option_bind].
  assert (Hp : 256 ^ (8 - Z.of_nat n) = 256 * 256 ^ (8 - Z.of_nat (S n))).
  { rewrite <- Z.pow_succ_r by lia. f_equal. lia. }
  assert (Hv8 : v * 256 + b < 256 ^ (8 - Z.of_nat n)) by (rewrite Hp; nia).
  assert (Hle : 256 ^ (8 - Z.of_nat n) ≤ 2 ^ 64).
  { change (2 ^ 64) with (256 ^ 8). apply Z.pow_le_mono_r; lia. }
  assert (Es : Z.lor (u64 (Z.shiftl v 8)) b = v * 256 + b).
  { unfold u64. rewrite Z.mod_small by (rewrite Z.shiftl_mul_pow2 by lia; change (2 ^ 8) with 256; lia).
    apply (lor_add v b 8); [lia|]. change (2 ^ 8) with 256. done. }
  rewrite Es, IH; try lia. f_equal. replace (Z.to_nat (off + 1)) with (S (Z.to_nat off)) by lia.
  rewrite (drop_S data b _ Eb). cbn [take be_val].
  assert (Hlen : length (take n (drop (S (Z.to_nat off)) data)) = n) by (rewrite length_take, length_drop; lia).
  rewrite Hlen. rewrite Nat2Z.inj_succ, Z.pow_succ_r by lia. lia.
Qed.

Lemma read_be64_at data off v :
  bytes data → take 8 (drop off data) = enc_be 8 v → 0 ≤ v < 2 ^ 64 → read_be64 data (Z.of_nat off) = Some v.
Proof.
  intros Hb E Hv. assert (Hl : length (take 8 (drop off data)) = 8%nat) by (by rewrite E, enc_be_length).
  rewrite length_take, length_drop in Hl. unfold read_be64. rewrite read_be_val by (done || lia || (simpl; lia)).
  rewrite Nat2Z.id, E, be_val_enc. f_equal. change (256 ^ Z.of_nat 8) with (2 ^ 64). rewrite Z.mod_small; lia.
Qed.

Lemma read_be16_ok data off :
  bytes data → 0 ≤ off → off + 2 ≤ Z.of_nat (length data) → ∃ v, read_be16 data off = Some v ∧ 0 ≤ v < 2 ^ 16.
Proof.
  intros Hb Ho Hl. unfold read_be16, zget. rewrite !(proj2 (Z.leb_le _ _)) by lia.
  destruct (byte_at data (Z.to_nat off) Hb) as (a & -> & _); [lia|].
  destruct (byte_at data (Z.to_nat (off + 1)) Hb) as (b & -> & _); [lia|].
  cbn [mbind option_bind]. eexists. split; [done|]. apply Z.mod_pos_bound. lia.
Qed.

Lemma be16_read data off v :
  bytes data → take 2 (drop off data) = enc_be 2 v → 0 ≤ v < 2 ^ 16 → read_be16 data (Z.of_nat off) = Some v.
Proof.
  intros Hb E Hv. assert (Hl : length (take 2 (drop off data)) = 2%nat) by (by rewrite E, enc_be_length).
  rewrite length_take, length_drop in Hl. pose proof (read_be_val 2 data (Z.of_nat off) 0 Hb) as Hr.
  rewrite Nat2Z.id, E, be_val_enc, Z.mod_small in Hr by (change (256 ^ Z.of_nat 2) with (2 ^ 16); lia).
  specialize (Hr ltac:(lia) ltac:(lia) ltac:(simpl; lia) ltac:(lia)). cbn [read_be] in Hr. unfold read_be16.
  unfold zget in *. rewrite !(proj2 (Z.leb_le _ _)) in * by lia.
  destruct (byte_at data (Z.to_nat (Z.of_nat off)) Hb) as (a & Ea & Ha); [lia|].
  destruct (byte_at data (Z.to_nat (Z.of_nat off + 1)) Hb) as (b & Eb & Hb'); [lia|].
  rewrite Ea, Eb in *. cbn [mbind option_bind] in *. rewrite Z.shiftl_0_l in Hr.
  change (Z.lor (u64 0) a) with a in Hr. injection Hr as Hr. unfold u64 in Hr.
  rewrite Z.mod_small in Hr by (rewrite Z.shiftl_mul_pow2 by lia; change (2 ^ 8) with 256; lia).
  rewrite Hr. f_equal. apply Z.mod_small. lia.
Qed.

Lemma read_frame pre m post :
  frameable m → read_be16 (pre ++ frame m ++ post) (Z.of_nat (length pre)) = Some (Z.of_nat (length m)) ∧
    slice (pre ++ frame m ++ post) (Z.of_nat (length pre) + 2) (Z.of_nat (length m)) = Some m.
Proof.
  intros Hm. destruct (frame_at pre m post Hm) as (a & b & Ea & Eb & En & Es). split; [|exact Es].
  unfold read_be16. rewrite Ea, Eb. cbn [mbind option_bind]. by rewrite En.
Qed.

(** ** Iterating and validating *)

(** Call [next] until it returns false; the messages handed out. *)
Fixpoint iterate (fuel : nat) (it : MessageIterator) : option (MessageIterator * list (list Z)) :=
  match fuel with
  | O => None
  | S fuel' =>
      r ← iter_next it;
      match snd r with
      | None => Some (fst r, [])
      | Some m => s ← iterate fuel' (fst r); Some (fst s, m :: snd s)
      end
  end.

(** What both loops see at [offset], as a plain parser of frames. *)
Fixpoint parse_frames (fuel : nat) (data : list Z) (offset : Z) : option (list (list Z) * bool) :=
  match fuel with
  | O => None
  | S fuel' =>
      let size := Z.of_nat (length data) in
      if offset =? size then Some ([], true) else
      if size - offset <? 2 then Some ([], false) else
      len ← read_be16 data offset;
      if (len =? 0) || (size - (offset + 2) <? len) then Some ([], false) else
      m ← slice data (offset + 2) len;
      r ← parse_frames fuel' data (offset + 2 + len); Some (m :: fst r, snd r)
  end.

Section packet.
Context (data : list Z) (Hb : bytes data) (Hsize : Z.of_nat (length data) < 2 ^ 63).
Notation size := (Z.of_nat (length data)).

(** The parser never fails and needs no more fuel than there are bytes left. *)
Lemma parse_frames_ok fuel offset :
  0 ≤ offset ≤ size → size - offset < Z.of_nat fuel → is_Some (parse_frames fuel data offset).
Proof using Hb.
  revert offset. induction fuel as [|fuel IH]; intros offset Ho Hf; [lia|]. cbn [parse_frames].
  destruct (Z.eqb_spec offset size); [by eexists|]. destruct (Z.ltb_spec (size - offset) 2); [by eexists|].
  destruct (read_be16_ok data offset Hb) as (len & -> & Hlen); [lia|lia|]. cbn [mbind option_bind].
  destruct (Z.eqb_spec len 0); [by eexists|]. destruct (Z.ltb_spec (size - (offset + 2)) len); [by eexists|].
  cbn [orb]. unfold slice. rewrite !(proj2 (Z.leb_le _ _)) by lia. cbn [andb mbind option_bind].
  destruct (IH (offset + 2 + len)) as [r ->]; [lia|lia|]. by eexists.
Qed.

Lemma iterate_parses fuel offset r :
  0 ≤ offset ≤ size → parse_frames fuel data offset = Some r →
  ∃ it, iterate fuel (mkIter (Some data) offset false) = Some (it, fst r) ∧ iter_valid it = snd r.
Proof using Hb Hsize.
  revert offset r. induction fuel as [|fuel IH]; intros offset r Ho; [done|]. cbn [parse_frames iterate].
  unfold iter_next. cbn [it_data it_invalid it_offset orb].
  destruct (Z.eqb_spec offset size); [intros [= <-]; by eexists|].
  rewrite (proj2 (Z.ltb_ge size offset)), u64_small by lia. cbn [orb].
  destruct (Z.ltb_spec (size - offset) 2); [intros [= <-]; by eexists|].
  destruct (read_be16_ok data offset Hb) as (len & -> & Hlen); [lia|lia|]. cbn [mbind option_bind].
  rewrite (u64_small (offset + 2)), (u64_small (size - (offset + 2))) by lia.
  destruct (Z.eqb_spec len 0); [intros [= <-]; by eexists|].
  destruct (Z.ltb_spec (size - (offset + 2)) len); [intros [= <-]; by eexists|]. cbn [orb].
  destruct (slice data (offset + 2) len) as [m|]; [|done]. cbn [mbind option_bind fst snd].
  rewrite (u64_small (offset + 2 + len)) by lia.
  destruct (parse_frames fuel data (offset + 2 + len)) as [r'|] eqn:E; [|done]. intros [= <-].
  destruct (IH (offset + 2 + len) r') as (it & -> & Hv); [lia|done|]. by eexists.
Qed.

Lemma validate_parses fuel offset ms ok n :
  0 ≤ offset ≤ size → parse_frames fuel data offset = Some (ms, ok) →
  validate_from n data offset = Some (ok && (length ms =? n)%nat).
Proof using Hb Hsize.
  revert offset ms n. induction fuel as [|fuel IH]; intros offset ms n Ho; [done|]. cbn [parse_frames].
  destruct n as [|n]; cbn [validate_from].
  { destruct (Z.eqb_spec offset size); [by intros [= <- <-]|].
    destruct (size - offset <? 2); [by intros [= <- <-]|].
    destruct (read_be16 data offset) as [len|]; [|done]. cbn [mbind option_bind].
    destruct (_ || _); [by intros [= <- <-]|].
    destruct (slice data (offset + 2) len); [|done]. cbn [mbind option_bind].
    destruct (parse_frames fuel data _) as [[]|]; [|done]. intros [= <- <-]. by rewrite andb_false_r. }
  rewrite u64_small by lia. destruct (Z.eqb_spec offset size).
  { intros [= <- <-]. by rewrite (proj2 (Z.ltb_lt _ _)) by lia. }
  destruct (Z.ltb_spec (size - offset) 2); [by intros [= <- <-]|].
  destruct (read_be16_ok data offset Hb) as (len & -> & Hlen); [lia|lia|]. cbn [mbind option_bind].
  rewrite (u64_small (offset + 2)), (u64_small (size - (offset + 2))) by lia.
  destruct (Z.eqb_spec len 0); [by intros [= <- <-]|].
  destruct (Z.ltb_spec (size - (offset + 2)) len); [by intros [= <- <-]|]. cbn [orb].
  destruct (slice data (offset + 2) len) as [m|]; [|done]. cbn [mbind option_bind].
  rewrite (u64_small (offset + 2 + len)) by lia.
  destruct (parse_frames fuel data (offset + 2 + len)) as [[ms' ok']|] eqn:E; [|done]. intros [= <- <-].
  rewrite (IH (offset + 2 + len) ms' n); [done|lia|done].
Qed.
End packet.

(** Validation is exactly what iteration relies on.  For every
    byte string of at least a header, [validate_message_block] and the loop over
    [MessageIterator] both end without reading outside the packet, and the
    validation accepts a count precisely when the iteration hands out that many
    messages and ends with the iterator still valid. *)
Theorem mold_validate_iff_iterates data count :
  bytes data → kHeaderSize ≤ Z.of_nat (length data) < 2 ^ 63 → 0 ≤ count →
  ∃ it ms, iterate (S (length data)) (MessageIterator_new (Some data)) = Some (it, ms) ∧
    validate_message_block (Some data) count = Some (iter_valid it && (Z.of_nat (length ms) =? count)).
Proof.
  unfold kHeaderSize. intros Hb Hs Hc.
  destruct (parse_frames_ok data Hb (S (length data)) kHeaderSize) as [[ms ok] E]; [unfold kHeaderSize; lia..|].
  destruct (iterate_parses data Hb ltac:(lia) _ kHeaderSize _ ltac:(unfold kHeaderSize; lia) E) as (it & Ei & Hv).
  exists it, ms. split; [exact Ei|]. unfold validate_message_block.
  rewrite (proj2 (Z.ltb_ge (Z.of_nat (length data)) kHeaderSize)) by (unfold kHeaderSize; lia).
  rewrite (validate_parses data Hb ltac:(lia) _ kHeaderSize _ _ (Z.to_nat count) ltac:(unfold kHeaderSize; lia) E). cbn [snd] in Hv. rewrite Hv.
  do 2 f_equal. destruct (Nat.eqb_spec (length ms) (Z.to_nat count)), (Z.eqb_spec (Z.of_nat (length ms)) count); done || lia.
Qed.

(** ** Round trips *)

Definition packet (sess : list Z) (seqno : Z) (ms : list (list Z)) : list Z :=
  sess ++ enc_be 8 seqno ++ enc_be 2 (Z.of_nat (length ms)) ++ frames ms.

Lemma parse_frames_frames ms pre fuel :
  Forall frameable ms → (length ms < fuel)%nat →
  parse_frames fuel (pre ++ frames ms) (Z.of_nat (length pre)) = Some (ms, true).
Proof.
  intros Hms. revert pre fuel. induction Hms as [|m ms Hm _ IH]; intros pre fuel Hf; (destruct fuel as [|fuel]; [lia|]).
  { cbn [parse_frames]. change (frames []) with (@nil Z). rewrite app_nil_r. by rewrite Z.eqb_refl. }
  cbn [parse_frames length] in *. change (frames (m :: ms)) with (frame m ++ frames ms).
  destruct (read_frame pre m (frames ms) Hm) as [E1 E2]. pose proof Hm as [_ Hl].
  rewrite E1. cbn [mbind option_bind]. rewrite E2, !length_app, frame_length. cbn [mbind option_bind].
  rewrite !(proj2 (Z.eqb_neq _ _)) by lia. rewrite !(proj2 (Z.ltb_ge _ _)) by lia. cbn [orb].
  replace (Z.of_nat (length pre) + 2 + Z.of_nat (length m)) with (Z.of_nat (length (pre ++ frame m)))
    by (rewrite length_app, frame_length; lia).
  rewrite app_assoc, IH by lia. done.
Qed.

(** A packet is read back as it was built.  From a session, a
    sequence number and any list of at most 65535 non-empty messages, the packet
    parses to that sequence and count, validates, and iterates to exactly those
    messages, in order, with the iterator still valid at the end. *)
Theorem mold_packet_roundtrip sess seqno ms h :
  length sess = 10%nat → bytes sess → 0 ≤ seqno < 2 ^ 64 → Forall frameable ms → Z.of_nat (length ms) < 2 ^ 16 →
  Z.of_nat (length (packet sess seqno ms)) < 2 ^ 63 →
  let p := packet sess seqno ms in
  parse_header (Some p) h = Some (true, mkHeader seqno (Z.of_nat (length ms))) ∧
  validate_message_block (Some p) (Z.of_nat (length ms)) = Some true ∧
  ∃ it, iterate (S (length ms)) (MessageIterator_new (Some p)) = Some (it, ms) ∧ iter_valid it = true.
Proof.
  intros Hs Hsb Hq Hms Hn Hsize. cbv zeta. set (p := packet sess seqno ms) in *.
  assert (Hb : bytes p).
  { unfold p, packet. repeat (apply Forall_app; split); [done|apply enc_be_bytes..|by apply frames_bytes]. }
  assert (Hlen : (20 ≤ length p)%nat) by (unfold p, packet; rewrite !length_app, !enc_be_length; lia).
  assert (Hp : p = (sess ++ enc_be 8 seqno ++ enc_be 2 (Z.of_nat (length ms))) ++ frames ms)
    by (unfold p, packet; by rewrite <- !app_assoc).
  assert (E : parse_frames (S (length ms)) p kHeaderSize = Some (ms, true)).
  { rewrite Hp. change kHeaderSize with (Z.of_nat 20).
    replace 20%nat with (length (sess ++ enc_be 8 seqno ++ enc_be 2 (Z.of_nat (length ms))))
      by (rewrite !length_app, !enc_be_length; lia).
    apply parse_frames_frames; [done|lia]. }
  unfold parse_header, validate_message_block, kHeaderSize in *. rewrite (proj2 (Z.ltb_ge _ _)) by lia.
  split; [|split].
  - assert (E64 : read_be64 p 10 = Some seqno).
    { apply (read_be64_at p 10); [done| |done]. unfold p, packet.
      rewrite drop_app_length' by done. by rewrite take_app_length'. }
    rewrite E64. cbn [mbind option_bind]. assert (E16 : read_be16 p 18 = Some (Z.of_nat (length ms))); [|by rewrite E16].
    { apply (be16_read p 18); [done| |lia]. unfold p, packet.
      rewrite app_assoc, drop_app_length' by (rewrite length_app, enc_be_length; lia). by rewrite take_app_length'. }
  - rewrite (validate_parses p Hb Hsize _ 20 _ _ _ ltac:(lia) E). rewrite Nat2Z.id, Nat.eqb_refl. done.
  - destruct (iterate_parses p Hb Hsize _ 20 _ ltac:(lia) E) as (it & Ei & Hv). by exists it.
Qed.

Definition demo_session : list Z := [0x53; 0x45; 0x53; 0x53; 0x30; 0x30; 0x30; 0x30; 0x30; 0x31].
Definition demo_messages : list (list Z) := [[1; 2; 3]; [0x44]].

Lemma demo_frameable : Forall frameable demo_messages.
Proof. repeat (constructor; [split; [by_decide|simpl; lia]|]). constructor. Qed.

Lemma mold_validate_iff_iterates_witness :
  ∃ it ms, iterate 5 (mkIter (Some (packet demo_session 77 [])) 20 false) = Some (it, ms) ∧
    validate_message_block (Some (packet demo_session 77 [])) 0 = Some (iter_valid it && (Z.of_nat (length ms) =? 0)).
Proof.
  destruct (mold_validate_iff_iterates (packet demo_session 77 []) 0) as (it & ms & E & H);
    [by_decide|unfold kHeaderSize; simpl; lia|lia|].
  exists it, ms. split; [exact E|exact H].
Defined.

Lemma mold_packet_roundtrip_witness :
  let p := packet demo_session 77 demo_messages in
  parse_header (Some p) (mkHeader 0 0) = Some (true, mkHeader 77 2) ∧
  validate_message_block (Some p) 2 = Some true ∧
  ∃ it, iterate 3 (MessageIterator_new (Some p)) = Some (it, demo_messages) ∧ iter_valid it = true.
Proof.
  refine (mold_packet_roundtrip demo_session 77 demo_messages (mkHeader 0 0) _ _ _ demo_frameable _ _);
    [reflexivity|by_decide|lia|simpl; lia|simpl; lia].
Defined.

Lemma land_ff z : Z.land z 0xFF = u8 z.
Proof. change 0xFF with (Z.ones 8). by rewrite Z.land_ones by lia. Qed.

(** A retransmission request is read back as it was written, into
    any buffer of at least 20 bytes, and nothing outside those 20 bytes changes. *)
Theorem mold_request_roundtrip req buf out :
  length (session req) = 10%nat → bytes (session req) → 0 ≤ r_sequence req < 2 ^ 64 →
  0 ≤ requested_count req < 2 ^ 16 → bytes buf → (20 ≤ length buf)%nat →
  ∃ b, format_request req (Some buf) = Some (true, Some b) ∧ drop 20 b = drop 20 buf ∧
    length b = length buf ∧ parse_request (Some b) out = Some (true, req).
Proof.
  intros Hs Hsb Hq Hc Hb Hl. destruct req as [sess q c]. cbn [session r_sequence requested_count] in *.
  do 10 (destruct sess as [|? sess]; [done|]). destruct sess; [|done].
  do 20 (destruct buf as [|? buf]; [simpl in Hl; lia|]).
  unfold format_request. rewrite (proj2 (Z.ltb_ge _ _)) by (simpl; lia).
  assert (Hrest : bytes buf) by (repeat (apply Forall_cons in Hb as [_ Hb]); exact Hb).
  assert (E8 : ((λ i, Z.land (Z.shiftr q ((7 - Z.of_nat i) * 8)) 0xFF) <$> seq 0 8) = enc_be 8 q)
    by (cbn [seq fmap list_fmap enc_be]; by rewrite !land_ff).
  assert (E2 : [Z.land (Z.shiftr c 8) 0xFF; Z.land c 0xFF] = enc_be 2 c)
    by (cbn [enc_be]; rewrite !land_ff; by rewrite Z.shiftr_0_r).
  cbn [session r_sequence requested_count]. rewrite E8, E2.
  eexists. split; [reflexivity|]. split; [reflexivity|]. split; [reflexivity|].
  match goal with |- parse_request (Some ?x) _ = _ => set (b := x) end.
  assert (Hbb : bytes b).
  { change (bytes ([z; z0; z1; z2; z3; z4; z5; z6; z7; z8] ++ enc_be 8 q ++ enc_be 2 c ++ buf)).
    repeat (apply Forall_app; split); [done|apply enc_be_bytes..|done]. }
  unfold parse_request. assert ((Z.of_nat (length b) <? 20) = false) as -> by (apply Z.ltb_ge; simpl; lia).
  assert (Es : slice b 0 10 = Some [z; z0; z1; z2; z3; z4; z5; z6; z7; z8]).
  { unfold slice. rewrite (proj2 (Z.leb_le (0 + 10) _)) by (simpl; lia). reflexivity. }
  assert (Eq : read_be64 b 10 = Some q) by (by apply (read_be64_at b 10)).
  assert (Ec : read_be16 b 18 = Some c) by (by apply (be16_read b 18)).
  by rewrite Es, Eq, Ec.
Qed.

Lemma mold_request_roundtrip_witness :
  ∃ b, format_request (mkRequest demo_session 1000 16) (Some (replicate 24 7)) = Some (true, Some b) ∧
    drop 20 b = [7; 7; 7; 7] ∧ length b = 24%nat ∧
    parse_request (Some b) (mkRequest [] 0 0) = Some (true, mkRequest demo_session 1000 16).
Proof.
  refine (mold_request_roundtrip (mkRequest demo_session 1000 16) (replicate 24 7) (mkRequest [] 0 0) _ _ _ _ _ _);
    [reflexivity|by_decide|simpl; lia|simpl; lia|by_decide|simpl; lia].
Defined.
