(* ===== verification/Safety.v ===== *)
(** * Safety: sequence tracking, rate limiting and shutdown (src/luv_safety.hpp)

    [SequenceTracker] and the shutdown flags are state machines, one definition per
    method; [OrderRateLimiter] is called from several threads, and its
    compare-and-swap loops are modelled step by step. *)

From S2P Require Import Prelude.
From Stdlib Require Import ZArith Lia.
From stdpp Require Import base tactics gmap numbers option list.
Open Scope Z_scope.

(** ** class SequenceTracker *)

Inductive SequenceResult := kFirst | kNext | kDuplicate | kGap | kOutOfOrder.
Inductive SequenceGapClass := kNone | kRecoverable | kFatal.

Definition kMaxRecoverableGap : Z := 100.

Record SequenceTracker := mkTracker {
  tr_initialized : bool;
  tr_next : Z;
  tr_last : Z;
  tr_gaps : Z;
  tr_gap_size : Z;
  tr_gap_class : SequenceGapClass;
  tr_gap_pending : bool;
  tr_invalid : bool
}.

Definition SequenceTracker_init : SequenceTracker := mkTracker false 0 0 0 0 kNone false false.
Definition SequenceTracker_reset (t : SequenceTracker) : SequenceTracker := SequenceTracker_init.

Definition observe (t : SequenceTracker) (sequence : Z) : SequenceTracker * SequenceResult :=
  if negb (tr_initialized t) then
    (mkTracker true (u64 (sequence + 1)) sequence (tr_gaps t) (tr_gap_size t) (tr_gap_class t)
       (tr_gap_pending t) (tr_invalid t), kFirst)
  else if sequence =? tr_next t then
    (mkTracker true (u64 (tr_next t + 1)) sequence (tr_gaps t) (tr_gap_size t) (tr_gap_class t)
       (tr_gap_pending t) (tr_invalid t), kNext)
  else if sequence <? tr_next t then
    (t, if u64 (sequence + 1) =? tr_next t then kDuplicate else kOutOfOrder)
  else
    let gap := sequence - tr_next t in
    let c := if gap <=? kMaxRecoverableGap then kRecoverable else kFatal in
    let pending := match c with kRecoverable => true | _ => false end in
    let invalid := match c with kFatal => true | _ => false end in
    (mkTracker true (u64 (sequence + 1)) sequence (u64 (tr_gaps t + gap)) gap c pending invalid, kGap).

Definition acknowledge_retransmit (t : SequenceTracker) (first_missing last_missing : Z)
    : SequenceTracker * bool :=
  if negb (tr_gap_pending t) || (last_missing <? first_missing) ||
     negb (u64 (last_missing - first_missing + 1) =? tr_gap_size t) then (t, false)
  else (mkTracker (tr_initialized t) (tr_next t) (tr_last t) (tr_gaps t) 0 kNone false (tr_invalid t), true).

(** *** What the tracker counts *)

Definition advances (r : SequenceResult) : bool :=
  match r with kFirst | kNext | kGap => true | _ => false end.

(** The results of a run of observations, and the tracker at its end. *)
Fixpoint observe_run (t : SequenceTracker) (l : list Z) : SequenceTracker * list SequenceResult :=
  match l with
  | [] => (t, [])
  | s :: l' => let '(t', r) := observe t s in let '(t'', rs) := observe_run t' l' in (t'', r :: rs)
  end.

(** The sequences that moved the tracker forward. *)
Fixpoint accepted (t : SequenceTracker) (l : list Z) : list Z :=
  match l with
  | [] => []
  | s :: l' => let '(t', r) := observe t s in
               if advances r then s :: accepted t' l' else accepted t' l'
  end.

Definition seq_ok (s : Z) : Prop := 0 ≤ s < 2 ^ 64 - 1.

(** One observation of an initialised tracker, as a case analysis on where the
    sequence lies. *)
Lemma observe_cases t s :
  tr_initialized t = true → 0 ≤ tr_next t < 2 ^ 64 → seq_ok s → 0 ≤ tr_gaps t →
  tr_gaps t + (s - tr_next t) < 2 ^ 64 →
  let '(t', r) := observe t s in
  tr_initialized t' = true ∧
  (advances r = true → tr_next t ≤ s ∧ tr_next t' = s + 1 ∧ tr_gaps t' = tr_gaps t + (s - tr_next t)) ∧
  (advances r = false → s < tr_next t ∧ t' = t) ∧
  (r = kNext ↔ s = tr_next t) ∧ (r = kGap ↔ tr_next t < s) ∧
  (r = kDuplicate ↔ s + 1 = tr_next t) ∧ (r = kOutOfOrder ↔ s + 1 < tr_next t).
Proof.
  unfold seq_ok. intros Hi Hn Hs Hg Hov. unfold observe. rewrite Hi. cbn [negb].
  rewrite !(u64_small (s + 1)) by lia.
  destruct (Z.eqb_spec s (tr_next t)) as [->|Hne].
  { cbn [advances tr_initialized tr_next tr_gaps]. rewrite u64_small by lia. split_and!; try done; try lia; split; lia || done. }
  destruct (Z.ltb_spec s (tr_next t)) as [Hlt|Hge].
  - destruct (Z.eqb_spec (s + 1) (tr_next t)); cbn [advances]; split_and!; try done; try lia; split; lia || done.
  - cbn [advances tr_initialized tr_next tr_gaps]. rewrite u64_small by lia. split_and!; try done; try lia; split; lia || done.
Qed.

Lemma accepted_account l t base :
  tr_initialized t = true → 0 ≤ base ≤ tr_next t → tr_next t < 2 ^ 64 → Forall seq_ok l →
  0 ≤ tr_gaps t → tr_gaps t ≤ tr_next t - base →
  let '(t', rs) := observe_run t l in
  tr_initialized t' = true ∧ tr_next t ≤ tr_next t' < 2 ^ 64 ∧
  tr_gaps t' - tr_gaps t + Z.of_nat (length (accepted t l)) = tr_next t' - tr_next t ∧
  Forall (λ s, tr_next t ≤ s < tr_next t') (accepted t l) ∧ Sorted.StronglySorted Z.lt (accepted t l) ∧
  Forall (λ s, s < tr_next t') l.
Proof.
  intros Hi Hb Hn Hl. revert t Hi Hb Hn. induction Hl as [|s l Hs Hl IH]; intros t Hi Hb Hn Hg Hgb; cbn [observe_run accepted].
  { cbn [length]. split_and!; try done; try lia; constructor. }
  pose proof (observe_cases t s Hi ltac:(lia) Hs Hg) as Hc. unfold seq_ok in Hs.
  specialize (Hc ltac:(lia)). destruct (observe t s) as [t' r].
  destruct Hc as (Hi' & Hadv & Hstay & _).
  destruct (advances r) eqn:Er.
  - destruct (Hadv eq_refl) as (H1 & H2 & H3).
    specialize (IH t' Hi' ltac:(lia) ltac:(lia) ltac:(lia) ltac:(lia)).
    destruct (observe_run t' l) as [t'' rs]. destruct IH as (I1 & I2 & I3 & I4 & I5 & I6).
    split_and!; try done; try lia.
    + cbn [length]. lia.
    + constructor; [lia|]. eapply Forall_impl; [exact I4|]. intros x Hx. cbv beta in *. lia.
    + constructor; [done|]. eapply Forall_impl; [exact I4|]. intros x Hx. cbv beta in *. lia.
    + constructor; [lia|done].
  - destruct (Hstay eq_refl) as [H1 ->]. specialize (IH t Hi Hb Hn Hg Hgb).
    destruct (observe_run t l) as [t'' rs]. destruct IH as (I1 & I2 & I3 & I4 & I5 & I6).
    split_and!; try done; try lia. constructor; [lia|done].
Qed.

(** The last number accepted is just below [next]. *)
Lemma accepted_last l t base :
  tr_initialized t = true → 0 ≤ base ≤ tr_next t → tr_next t < 2 ^ 64 → Forall seq_ok l →
  0 ≤ tr_gaps t → tr_gaps t ≤ tr_next t - base →
  let '(t', rs) := observe_run t l in
  tr_next t' = tr_next t ∨ tr_next t' - 1 ∈ accepted t l.
Proof.
  intros Hi Hb Hn Hl. revert t Hi Hb Hn. induction Hl as [|s l Hs Hl IH]; intros t Hi Hb Hn Hg Hgb; cbn [observe_run accepted].
  { by left. }
  pose proof (observe_cases t s Hi ltac:(lia) Hs Hg) as Hc. unfold seq_ok in Hs.
  specialize (Hc ltac:(lia)). destruct (observe t s) as [t' r].
  destruct Hc as (Hi' & Hadv & Hstay & _). destruct (advances r) eqn:Er.
  - destruct (Hadv eq_refl) as (H1 & H2 & H3). specialize (IH t' Hi' ltac:(lia) ltac:(lia) ltac:(lia) ltac:(lia)).
    destruct (observe_run t' l) as [t'' rs]. right. rewrite elem_of_cons. destruct IH as [IH|IH]; [left; lia|by right].
  - destruct (Hstay eq_refl) as [H1 ->]. specialize (IH t Hi Hb Hn Hg Hgb). by destruct (observe_run t l).
Qed.

(** The tracker accounts for every sequence number.  Fed any
    stream of 64-bit sequence numbers, a fresh tracker accepts a strictly
    increasing subsequence that starts with the first number seen; [next] is one
    more than the largest number seen from then on; and the gap count plus the
    accepted numbers is exactly the span from the first number to [next]. *)
Theorem tracker_accounts_for_every_sequence first l :
  seq_ok first → Forall seq_ok l →
  let '(t, rs) := observe_run SequenceTracker_init (first :: l) in
  let acc := accepted SequenceTracker_init (first :: l) in
  hd_error rs = Some kFirst ∧ hd_error acc = Some first ∧ Sorted.StronglySorted Z.lt acc ∧
  tr_gaps t + Z.of_nat (length acc) = tr_next t - first ∧
  Forall (λ s, s < tr_next t) (first :: l) ∧ tr_next t - 1 ∈ acc.
Proof.
  intros Hf Hl. unfold seq_ok in Hf. cbn [observe_run accepted].
  change (observe SequenceTracker_init first) with
    (mkTracker true (u64 (first + 1)) first 0 0 kNone false false, kFirst).
  rewrite u64_small by lia. cbn [advances]. set (t1 := mkTracker true (first + 1) first 0 0 kNone false false).
  pose proof (accepted_account l t1 first eq_refl ltac:(simpl; lia) ltac:(simpl; lia) Hl ltac:(simpl; lia) ltac:(simpl; lia)) as H.
  pose proof (accepted_last l t1 first eq_refl ltac:(simpl; lia) ltac:(simpl; lia) Hl ltac:(simpl; lia) ltac:(simpl; lia)) as Hlast.
  destruct (observe_run t1 l) as [t rs]. destruct H as (I1 & I2 & I3 & I4 & I5 & I6). cbn [tr_next tr_gaps t1] in *.
  split_and!; try done.
  - constructor; [done|]. eapply Forall_impl; [exact I4|]. intros x Hx. cbv beta in *. lia.
  - cbn [length]. lia.
  - constructor; [lia|done].
  - rewrite elem_of_cons. destruct Hlast as [Hl1|Hl1]; [left; lia|by right].
Qed.

Lemma tracker_accounts_for_every_sequence_witness :
  let '(t, rs) := observe_run SequenceTracker_init [10; 11; 15; 12; 15; 16] in
  let acc := accepted SequenceTracker_init [10; 11; 15; 12; 15; 16] in
  hd_error rs = Some kFirst ∧ hd_error acc = Some 10 ∧ Sorted.StronglySorted Z.lt acc ∧
  tr_gaps t + Z.of_nat (length acc) = tr_next t - 10 ∧
  Forall (λ s, s < tr_next t) [10; 11; 15; 12; 15; 16] ∧ tr_next t - 1 ∈ acc.
Proof.
  refine (tracker_accounts_for_every_sequence 10 [11; 15; 12; 15; 16] _ _);
    [unfold seq_ok; lia|]. repeat (constructor; [unfold seq_ok; lia|]). constructor.
Defined.

(** A fatal gap is forgotten at the next small one.  After a gap of
    more than 100 the tracker is invalid; a later gap of at most 100 makes it
    valid again, with neither gap ever recovered and only the size of the later
    one remembered. *)
Theorem later_gap_clears_invalid t s1 s2 :
  tr_initialized t = true → 0 ≤ tr_next t → tr_next t + kMaxRecoverableGap < s1 →
  s1 + 1 < s2 → s2 ≤ s1 + 1 + kMaxRecoverableGap → s2 < 2 ^ 64 - 1 →
  let t1 := fst (observe t s1) in let t2 := fst (observe t1 s2) in
  tr_invalid t1 = true ∧ tr_invalid t2 = false ∧ tr_gap_size t2 = s2 - (s1 + 1).
Proof.
  unfold kMaxRecoverableGap. intros Hi Hn H1 H2 H3 H4. cbv zeta. unfold observe at 1 3 5. rewrite Hi. cbn [negb].
  rewrite (proj2 (Z.eqb_neq s1 (tr_next t))), (proj2 (Z.ltb_ge s1 (tr_next t))) by lia.
  unfold kMaxRecoverableGap. rewrite (proj2 (Z.leb_gt (s1 - tr_next t) 100)) by lia. rewrite u64_small by lia.
  split; [done|]. cbn [fst]. unfold observe. cbn [tr_initialized tr_next negb].
  rewrite (proj2 (Z.eqb_neq s2 (s1 + 1))), (proj2 (Z.ltb_ge s2 (s1 + 1))) by lia.
  unfold kMaxRecoverableGap. by rewrite (proj2 (Z.leb_le (s2 - (s1 + 1)) 100)) by lia.
Qed.

Lemma later_gap_clears_invalid_witness :
  let t := fst (observe SequenceTracker_init 1) in
  let t1 := fst (observe t 500) in let t2 := fst (observe t1 503) in
  tr_invalid t1 = true ∧ tr_invalid t2 = false ∧ tr_gap_size t2 = 2.
Proof.
  refine (later_gap_clears_invalid (fst (observe SequenceTracker_init 1)) 500 503 _ _ _ _ _ _);
    [reflexivity|by_decide..].
Defined.

(** ** class ShutdownController: one process-wide flag *)

Definition request_shutdown (requested : bool) : bool := true.
Definition handle_signal (signo : Z) (requested : bool) : bool := request_shutdown requested.
Definition shutdown_clear (requested : bool) : bool := false.

(** ** class OrderRateLimiter

    A call of [try_acquire] or [release] first loads the counter and then loops
    on [compare_exchange_weak], which may fail because the counter moved or
    spuriously, and reloads it on failure. *)

Inductive limiter_call :=
  | Acquiring (current : Z)
  | Releasing (current : Z).

Record limiter := mkLimiter {
  lm_pending : Z;
  lm_calls : gmap nat limiter_call;
  (** ghost: permits granted and returned so far *)
  lm_granted : nat;
  lm_returned : nat
}.

Section limiter.
Context (max_pending : Z).

Inductive lstep : limiter → limiter → Prop :=
  (* the initial load of a call by thread [i] *)
  | l_start_acquire p cs g r i :
      cs !! i = None → lstep (mkLimiter p cs g r) (mkLimiter p (<[i := Acquiring p]> cs) g r)
  | l_start_release p cs g r i :
      cs !! i = None → lstep (mkLimiter p cs g r) (mkLimiter p (<[i := Releasing p]> cs) g r)
  (* the loop of try_acquire: give up, succeed, or fail and reload *)
  | l_refuse p cs g r i c :
      cs !! i = Some (Acquiring c) → (c <? max_pending) = false →
      lstep (mkLimiter p cs g r) (mkLimiter p (delete i cs) g r)
  | l_grant p cs g r i c :
      cs !! i = Some (Acquiring c) → (c <? max_pending) = true → c = p →
      lstep (mkLimiter p cs g r) (mkLimiter (u32 (c + 1)) (delete i cs) (S g) r)
  | l_acquire_retry p cs g r i c :
      cs !! i = Some (Acquiring c) → (c <? max_pending) = true →
      lstep (mkLimiter p cs g r) (mkLimiter p (<[i := Acquiring p]> cs) g r)
  (* the loop of release *)
  | l_release_none p cs g r i c :
      cs !! i = Some (Releasing c) → c = 0 →
      lstep (mkLimiter p cs g r) (mkLimiter p (delete i cs) g r)
  | l_return p cs g r i c :
      cs !! i = Some (Releasing c) → c ≠ 0 → c = p →
      lstep (mkLimiter p cs g r) (mkLimiter (u32 (c - 1)) (delete i cs) g (S r))
  | l_release_retry p cs g r i c :
      cs !! i = Some (Releasing c) → c ≠ 0 →
      lstep (mkLimiter p cs g r) (mkLimiter p (<[i := Releasing p]> cs) g r).

Definition limiter_init : limiter := mkLimiter 0 ∅ 0 0.

Inductive lreachable : limiter → Prop :=
  | lr_init : lreachable limiter_init
  | lr_step x y : lreachable x → lstep x y → lreachable y.

(** The methods run alone. *)
Definition try_acquire (pending : Z) : Z * bool :=
  if pending <? max_pending then (u32 (pending + 1), true) else (pending, false).
Definition release (pending : Z) : Z := if pending =? 0 then pending else u32 (pending - 1).

Definition linv (x : limiter) : Prop :=
  0 ≤ lm_pending x ≤ max_pending ∧
  Z.of_nat (lm_granted x) = lm_pending x + Z.of_nat (lm_returned x).

Lemma linv_step x y : 0 ≤ max_pending < 2 ^ 32 → linv x → lstep x y → linv y.
Proof using Type.
  unfold linv. intros Hm Hinv Hs.
  destruct Hs as [| | |p cs g r i c _ Hc%Z.ltb_lt ->| | |p cs g r i c _ Hc ->|]; cbn [lm_pending lm_granted lm_returned] in *;
    try done; unfold u32; rewrite Z.mod_small; lia.
Qed.

Lemma lreachable_inv x : 0 ≤ max_pending < 2 ^ 32 → lreachable x → linv x.
Proof using Type.
  intros Hm. induction 1 as [|x y _ IH Hs]; [unfold linv; simpl; lia|]. by eapply linv_step.
Qed.
End limiter.

(** The limiter never over-grants.  Whatever the number of threads
    and however their loads, retries and spurious failures interleave, the counter
    always equals the permits granted minus the permits returned, it never exceeds
    [max_pending] and it never wraps below zero. *)
Theorem limiter_never_over_grants max_pending x :
  0 ≤ max_pending < 2 ^ 32 → lreachable max_pending x →
  lm_pending x = Z.of_nat (lm_granted x) - Z.of_nat (lm_returned x) ∧ 0 ≤ lm_pending x ≤ max_pending.
Proof. intros Hm Hr. destruct (lreachable_inv max_pending x Hm Hr). lia. Qed.

(** Two threads both load 0; the first is granted, the second must retry. *)
Definition limiter_demo : limiter :=
  mkLimiter 1 (<[2%nat := Acquiring 1]> (delete 1%nat (<[2%nat := Acquiring 0]> (<[1%nat := Acquiring 0]> ∅)))) 1 0.

Lemma limiter_never_over_grants_witness :
  lm_pending limiter_demo = Z.of_nat (lm_granted limiter_demo) - Z.of_nat (lm_returned limiter_demo) ∧
  0 ≤ lm_pending limiter_demo ≤ 1.
Proof.
  apply (limiter_never_over_grants 1); [lia|].
  eapply lr_step; [eapply lr_step; [eapply lr_step; [eapply lr_step; [apply lr_init|]|]|]|].
  - apply (l_start_acquire 1 0 ∅ 0 0 1%nat). reflexivity.
  - apply (l_start_acquire 1 0 _ 0 0 2%nat). reflexivity.
  - apply (l_grant 1 0 _ 0 0 1%nat 0); reflexivity.
  - apply (l_acquire_retry 1 1 _ 1 0 2%nat 0); reflexivity.
Defined.
