(* ===== verification/Breaker.v ===== *)
(** * Breaker: the circuit breaker (src/luv_safety.hpp, CircuitBreaker)

    Every member is an atomic and every method is modelled as one step on the
    state, the interleaving of whole calls.  [u32] counters wrap. *)

From S2P Require Import Prelude.
From Stdlib Require Import ZArith Lia.
From stdpp Require Import base tactics gmap numbers option list.
Open Scope Z_scope.

Inductive BreakerState := kClosed | kOpen | kHalfOpen.

#[export] Instance BreakerState_eq_dec : EqDecision BreakerState.
Proof. solve_decision. Defined.

(** The members only the constructor and the setters write ... *)
Record BreakerConfig := mkBC {
  max_failures : Z;
  cool_down_ns : Z;
  max_consecutive_rejections : Z;
  half_open_enabled : bool;
  half_open_max_probes : Z;
  half_open_successes_needed : Z;
  max_rate_per_window : Z;
  rate_window_ns : Z;
  max_loss_limit : Z
}.

(** ... and the rest. *)
Record CircuitBreaker := mkBreaker {
  br_cfg : BreakerConfig;
  br_trip_timestamp_ns : Z;
  br_failures : Z;
  br_consecutive_rejections : Z;
  br_probes_issued : Z;
  br_successes : Z;
  br_window_start_ns : Z;
  br_window_count : Z;
  br_state : BreakerState;
  br_tripped : bool
}.

Definition at_least_1 (n : Z) : Z := if n =? 0 then 1 else n.

Definition CircuitBreaker_new (max_failures cool_down : Z) : CircuitBreaker :=
  mkBreaker (mkBC (at_least_1 max_failures) cool_down 0 false 1 1 0 0 0) 0 0 0 0 0 0 0 kClosed false.

Definition trip (b : CircuitBreaker) (ts : Z) : CircuitBreaker :=
  mkBreaker (br_cfg b) ts (br_failures b) (br_consecutive_rejections b) (br_probes_issued b)
    (br_successes b) (br_window_start_ns b) (br_window_count b) kOpen true.

Definition breaker_reset (b : CircuitBreaker) : CircuitBreaker :=
  mkBreaker (br_cfg b) 0 0 0 0 0 (br_window_start_ns b) (br_window_count b) kClosed false.

Definition set_cool_down_ns (b : CircuitBreaker) (ns : Z) : CircuitBreaker :=
  let c := br_cfg b in
  mkBreaker (mkBC (max_failures c) ns (max_consecutive_rejections c) (half_open_enabled c)
      (half_open_max_probes c) (half_open_successes_needed c) (max_rate_per_window c) (rate_window_ns c)
      (max_loss_limit c))
    (br_trip_timestamp_ns b) (br_failures b) (br_consecutive_rejections b) (br_probes_issued b)
    (br_successes b) (br_window_start_ns b) (br_window_count b) (br_state b) (br_tripped b).

Definition set_half_open_params (b : CircuitBreaker) (max_probes successes_needed : Z) : CircuitBreaker :=
  let c := br_cfg b in
  mkBreaker (mkBC (max_failures c) (cool_down_ns c) (max_consecutive_rejections c) true
      (at_least_1 max_probes) (at_least_1 successes_needed) (max_rate_per_window c) (rate_window_ns c)
      (max_loss_limit c))
    (br_trip_timestamp_ns b) (br_failures b) (br_consecutive_rejections b) (br_probes_issued b)
    (br_successes b) (br_window_start_ns b) (br_window_count b) (br_state b) (br_tripped b).

Definition set_max_consecutive_rejections (b : CircuitBreaker) (n : Z) : CircuitBreaker :=
  let c := br_cfg b in
  mkBreaker (mkBC (max_failures c) (cool_down_ns c) n (half_open_enabled c) (half_open_max_probes c)
      (half_open_successes_needed c) (max_rate_per_window c) (rate_window_ns c) (max_loss_limit c))
    (br_trip_timestamp_ns b) (br_failures b) (br_consecutive_rejections b) (br_probes_issued b)
    (br_successes b) (br_window_start_ns b) (br_window_count b) (br_state b) (br_tripped b).

Definition set_rate_limit (b : CircuitBreaker) (max_rate window_ns : Z) : CircuitBreaker :=
  let c := br_cfg b in
  mkBreaker (mkBC (max_failures c) (cool_down_ns c) (max_consecutive_rejections c) (half_open_enabled c)
      (half_open_max_probes c) (half_open_successes_needed c) max_rate window_ns (max_loss_limit c))
    (br_trip_timestamp_ns b) (br_failures b) (br_consecutive_rejections b) (br_probes_issued b)
    (br_successes b) (br_window_start_ns b) (br_window_count b) (br_state b) (br_tripped b).

Definition set_max_loss_limit (b : CircuitBreaker) (limit : Z) : CircuitBreaker :=
  let c := br_cfg b in
  mkBreaker (mkBC (max_failures c) (cool_down_ns c) (max_consecutive_rejections c) (half_open_enabled c)
      (half_open_max_probes c) (half_open_successes_needed c) (max_rate_per_window c) (rate_window_ns c) limit)
    (br_trip_timestamp_ns b) (br_failures b) (br_consecutive_rejections b) (br_probes_issued b)
    (br_successes b) (br_window_start_ns b) (br_window_count b) (br_state b) (br_tripped b).

Definition set_failures (b : CircuitBreaker) (n : Z) : CircuitBreaker :=
  mkBreaker (br_cfg b) (br_trip_timestamp_ns b) n (br_consecutive_rejections b) (br_probes_issued b)
    (br_successes b) (br_window_start_ns b) (br_window_count b) (br_state b) (br_tripped b).
Definition set_rejections (b : CircuitBreaker) (n : Z) : CircuitBreaker :=
  mkBreaker (br_cfg b) (br_trip_timestamp_ns b) (br_failures b) n (br_probes_issued b)
    (br_successes b) (br_window_start_ns b) (br_window_count b) (br_state b) (br_tripped b).
Definition set_probes (b : CircuitBreaker) (probes successes : Z) (s : BreakerState) : CircuitBreaker :=
  mkBreaker (br_cfg b) (br_trip_timestamp_ns b) (br_failures b) (br_consecutive_rejections b) probes
    successes (br_window_start_ns b) (br_window_count b) s (br_tripped b).
Definition set_window (b : CircuitBreaker) (start count : Z) : CircuitBreaker :=
  mkBreaker (br_cfg b) (br_trip_timestamp_ns b) (br_failures b) (br_consecutive_rejections b)
    (br_probes_issued b) (br_successes b) start count (br_state b) (br_tripped b).

Definition record_failure (b : CircuitBreaker) (ts : Z) : CircuitBreaker :=
  match br_state b with
  | kHalfOpen => trip b ts
  | _ =>
      let failures := br_failures b in
      let b := if failures <? max_failures (br_cfg b) then set_failures b (u32 (failures + 1)) else b in
      if max_failures (br_cfg b) <=? u32 (failures + 1) then trip b ts else b
  end.

Definition record_rejection (b : CircuitBreaker) (ts : Z) : CircuitBreaker :=
  if 0 <? max_consecutive_rejections (br_cfg b) then
    let rejections := u32 (br_consecutive_rejections b + 1) in
    let b := set_rejections b rejections in
    if max_consecutive_rejections (br_cfg b) <=? rejections then trip b ts else record_failure b ts
  else record_failure b ts.

Definition record_success (b : CircuitBreaker) : CircuitBreaker :=
  match br_state b with
  | kHalfOpen =>
      let successes := u32 (br_successes b + 1) in
      let b := set_probes b (br_probes_issued b) successes kHalfOpen in
      if half_open_successes_needed (br_cfg b) <=? successes then breaker_reset b else b
  | kClosed => set_rejections (set_failures b 0) 0
  | kOpen => b
  end.

Definition check_loss_limit (b : CircuitBreaker) (current_loss ts : Z) : CircuitBreaker * bool :=
  let limit := max_loss_limit (br_cfg b) in
  if (0 <? limit) && (limit <=? current_loss) then (trip b ts, false) else (b, true).

(** The last block of [allow]: a half-open breaker hands out probes. *)
Definition allow_probe (b : CircuitBreaker) : CircuitBreaker * bool :=
  let probes := br_probes_issued b in
  (set_probes b (u32 (probes + 1)) (br_successes b) (br_state b), probes <? half_open_max_probes (br_cfg b)).

Definition allow (b : CircuitBreaker) (now : Z) : CircuitBreaker * bool :=
  let c := br_cfg b in
  match br_state b with
  | kClosed =>
      if (0 <? max_rate_per_window c) && (0 <? rate_window_ns c) && (0 <? now) then
        let start := br_window_start_ns b in
        if (now <? start) || (rate_window_ns c <=? now - start) then (set_window b now 1, true)
        else
          let count := u32 (br_window_count b + 1) in
          let b := set_window b start count in
          if max_rate_per_window c <? count then (trip b now, false) else (b, true)
      else (b, true)
  | kOpen =>
      if (0 <? cool_down_ns c) && (0 <? now) then
        let trip_time := br_trip_timestamp_ns b in
        if (trip_time <=? now) && (cool_down_ns c <=? now - trip_time) then
          if half_open_enabled c then allow_probe (set_probes b 0 0 kHalfOpen)
          else (breaker_reset b, true)
        else (b, false)
      else (b, false)
  | kHalfOpen => allow_probe b
  end.

(** The overload without a clock, and the observers. *)
Definition allow_now (b : CircuitBreaker) : bool := bool_decide (br_state b = kClosed).
Definition is_open (b : CircuitBreaker) : bool := bool_decide (br_state b = kOpen).
Definition is_half_open (b : CircuitBreaker) : bool := bool_decide (br_state b = kHalfOpen).

(** ** Calls *)

Inductive call :=
  | Failure (ts : Z) | Rejection (ts : Z) | Success | Allow (now : Z) | Trip (ts : Z) | Reset | Loss (l ts : Z).

Definition do_call (b : CircuitBreaker) (c : call) : CircuitBreaker :=
  match c with
  | Failure ts => record_failure b ts
  | Rejection ts => record_rejection b ts
  | Success => record_success b
  | Allow now => fst (allow b now)
  | Trip ts => trip b ts
  | Reset => breaker_reset b
  | Loss l ts => fst (check_loss_limit b l ts)
  end.

(** *** The two representations of "tripped" agree *)

Definition flag_inv (b : CircuitBreaker) : Prop := br_tripped b = negb (bool_decide (br_state b = kClosed)).

Lemma do_call_flag b c : flag_inv b → flag_inv (do_call b c).
Proof.
  unfold flag_inv. intros H.
  destruct c; cbn [do_call]; unfold record_rejection, record_failure, record_success, allow, allow_probe,
    check_loss_limit; destruct (br_state b) eqn:E; cbn [br_state set_rejections]; rewrite ?E;
    repeat case_cond; cbn [fst br_state br_tripped trip breaker_reset set_failures set_rejections set_probes set_window];
    rewrite ?E; try done.
Qed.

(** *** Consecutive failures *)

Definition outcome (b : CircuitBreaker) (ok : bool) : CircuitBreaker :=
  if ok then record_success b else record_failure b 0.

(** [m] failures in a row somewhere in the outcomes. *)
Definition run_of_failures (m : nat) (l : list bool) : Prop := ∃ l1 l2, l = l1 ++ replicate m false ++ l2.

(** At least [m - k] failures at the start, or [m] in a row later. *)
Definition trips_from (m k : nat) (l : list bool) : Prop :=
  (∃ l2, l = replicate (m - k) false ++ l2) ∨ run_of_failures m l.

Lemma trips_from_false m k l : (k < m)%nat →
  trips_from m k (false :: l) ↔ (S k = m)%nat ∨ trips_from m (S k) l.
Proof.
  intros Hk. assert (Em : (m - k = S (m - S k))%nat) by lia. unfold trips_from. rewrite Em. cbn [replicate app]. split.
  - intros [[l2 [= E]]|(l1 & l2 & E)]; [right; left; by exists l2|].
    destruct l1 as [|b l1]; [|right; right; injection E as <- E; by exists l1, l2].
    destruct m as [|m]; [lia|]. cbn [replicate app] in E. injection E as E.
    destruct (decide (S k = S m)) as [|Hne]; [by left|]. right. left. exists (replicate k false ++ l2).
    rewrite E, app_assoc, <- replicate_add. do 2 f_equal. lia.
  - intros [E|[[l2 E]|(l1 & l2 & E)]].
    + left. exists l. by replace (m - S k)%nat with 0%nat by lia.
    + left. exists l2. by rewrite E.
    + right. exists (false :: l1), l2. by rewrite E.
Qed.

Lemma trips_from_true m k l : (k < m)%nat → trips_from m k (true :: l) ↔ trips_from m 0 l.
Proof.
  intros Hk. unfold trips_from. destruct (m - k)%nat as [|d] eqn:Ed; [lia|]. destruct m as [|m]; [lia|]. split.
  - intros [[l2 E]|(l1 & l2 & E)]; [done|]. destruct l1 as [|b l1]; [done|]. injection E as _ E.
    right. by exists l1, l2.
  - intros [[l2 E]|(l1 & l2 & E)]; right.
    + exists [true], l2. by rewrite E.
    + exists (true :: l1), l2. by rewrite E.
Qed.

Lemma outcomes_stay_open b l : br_state b = kOpen → br_state (foldl outcome b l) = kOpen.
Proof.
  revert b. induction l as [|ok l IH]; intros b Hb; [done|]. cbn [foldl]. apply IH.
  destruct ok; cbn [outcome]; unfold record_success, record_failure; rewrite Hb; [done|].
  repeat case_cond; done.
Qed.

Lemma outcomes_spec m l b k :
  max_failures (br_cfg b) = Z.of_nat m → Z.of_nat m < 2 ^ 32 → br_state b = kClosed →
  br_failures b = Z.of_nat k → (k < m)%nat →
  br_state (foldl outcome b l) = kOpen ↔ trips_from m k l.
Proof.
  intros Hm Hb32. revert b k Hm. induction l as [|ok l IH]; intros b k Hm Hs Hf Hk; cbn [foldl].
  { rewrite Hs. split; [done|]. intros [[l2 E]|(l1 & l2 & E)].
    - destruct (m - k)%nat eqn:Ed; [lia|done].
    - destruct l1; [|done]. destruct m; [lia|done]. }
  destruct ok; cbn [outcome].
  - rewrite trips_from_true by done. unfold record_success. rewrite Hs. apply IH; done || lia.
  - rewrite trips_from_false by done. unfold record_failure. rewrite Hs, Hf, Hm.
    rewrite (proj2 (Z.ltb_lt _ _)) by lia. unfold u32. rewrite Z.mod_small by lia. cbn [br_cfg set_failures].
    rewrite Hm. destruct (Z.leb_spec (Z.of_nat m) (Z.of_nat k + 1)).
    + split; [intros _; left; lia|]. intros _. by apply outcomes_stay_open.
    + rewrite (IH _ (S k)); try done; [|cbn [br_failures set_failures]; lia|lia].
      split; [by right|]. intros [E|?]; [lia|done].
Qed.

Lemma outcomes_cfg b l : br_cfg (foldl outcome b l) = br_cfg b.
Proof.
  revert b. induction l as [|ok l IH]; intros b; [done|]. cbn [foldl]. rewrite IH.
  destruct ok; cbn [outcome]; unfold record_success, record_failure; destruct (br_state b); repeat case_cond; done.
Qed.

(** The breaker opens exactly on a run of failures.  Fed any
    sequence of successes and failures, a new breaker ends open if and only if
    [max_failures] failures occurred with no success between them, and an open
    breaker refuses until its cool-down is over. *)
Theorem breaker_opens_on_consecutive_failures m cool_down l :
  (0 < m)%nat → Z.of_nat m < 2 ^ 32 →
  let b := foldl outcome (CircuitBreaker_new (Z.of_nat m) cool_down) l in
  (br_state b = kOpen ↔ run_of_failures m l) ∧ br_tripped b = negb (allow_now b) ∧
  (br_state b = kOpen → ∀ now, now - br_trip_timestamp_ns b < cool_down → allow b now = (b, false)).
Proof.
  intros Hm H32. set (b0 := CircuitBreaker_new _ _). cbv zeta.
  assert (Hc : max_failures (br_cfg b0) = Z.of_nat m).
  { unfold b0, CircuitBreaker_new, at_least_1. cbn [br_cfg max_failures]. by rewrite (proj2 (Z.eqb_neq _ _)) by lia. }
  split; [|split].
  - rewrite (outcomes_spec m l b0 0); try done. split; [|by right].
    intros [[l2 E]|H]; [|done]. exists [], l2. by rewrite E, Nat.sub_0_r.
  - assert (Hflag : ∀ b, flag_inv b → flag_inv (foldl outcome b l)); [|by apply Hflag].
    clear. induction l as [|[] l IH]; intros b Hb; [done|..]; cbn [foldl]; apply IH.
    + apply (do_call_flag b Success Hb).
    + apply (do_call_flag b (Failure 0) Hb).
  - intros Ho now Hnow. unfold allow. rewrite Ho.
    assert (Hcd : cool_down_ns (br_cfg (foldl outcome b0 l)) = cool_down) by (by rewrite outcomes_cfg).
    rewrite Hcd. case_cond; [|done]. rewrite (proj2 (Z.leb_gt cool_down _)) by lia. by rewrite andb_false_r.
Qed.

Lemma breaker_opens_on_consecutive_failures_witness :
  let b := foldl outcome (CircuitBreaker_new 2 500) [false; true; false; false; true] in
  (br_state b = kOpen ↔ run_of_failures 2 [false; true; false; false; true]) ∧ br_tripped b = negb (allow_now b) ∧
  (br_state b = kOpen → ∀ now, now - br_trip_timestamp_ns b < 500 → allow b now = (b, false)).
Proof. refine (breaker_opens_on_consecutive_failures 2 500 _ _ _); lia. Defined.

(** *** The rate limit *)

(** The answers to a sequence of [allow] calls, and the breaker after them. *)
Fixpoint allow_run (b : CircuitBreaker) (times : list Z) : CircuitBreaker * list bool :=
  match times with
  | [] => (b, [])
  | now :: times' =>
      let '(b', ok) := allow b now in let '(b'', oks) := allow_run b' times' in (b'', ok :: oks)
  end.

Definition granted (oks : list bool) : nat := length (filter (λ b, b = true) oks).

(** Inside a window, once open, the breaker stays open. *)
Lemma allow_run_open b times R W w t0 :
  br_state b = kOpen → br_trip_timestamp_ns b = t0 → w ≤ t0 →
  max_rate_per_window (br_cfg b) = R → rate_window_ns (br_cfg b) = W →
  cool_down_ns (br_cfg b) = 0 ∨ W ≤ cool_down_ns (br_cfg b) →
  Forall (λ t, w ≤ t < w + W) times →
  allow_run b times = (b, replicate (length times) false).
Proof.
  intros Ho Ht Hw HR HW Hc Hl. induction Hl as [|now times Hnow _ IH]; [done|]. cbn [allow_run length replicate].
  assert (allow b now = (b, false)) as ->; [|by rewrite IH].
  unfold allow. rewrite Ho, Ht. destruct (Z.ltb_spec 0 (cool_down_ns (br_cfg b))); [|done]. cbn [andb].
  case_cond; [|done]. rewrite (proj2 (Z.leb_gt (cool_down_ns _) _)) by lia. by rewrite andb_false_r.
Qed.

Lemma granted_none n : granted (replicate n false) = 0%nat.
Proof. unfold granted. induction n; [done|]. cbn [replicate]. by rewrite filter_cons_False. Qed.

Lemma allow_run_window b times R W w :
  br_state b = kClosed → br_window_start_ns b = w → 0 < w →
  max_rate_per_window (br_cfg b) = R → 0 < R < 2 ^ 32 - 1 → rate_window_ns (br_cfg b) = W → 0 < W →
  cool_down_ns (br_cfg b) = 0 ∨ W ≤ cool_down_ns (br_cfg b) →
  0 ≤ br_window_count b ≤ R → Forall (λ t, w ≤ t < w + W) times →
  let '(b', oks) := allow_run b times in
  Z.of_nat (granted oks) = Z.min (Z.of_nat (length times)) (R - br_window_count b) ∧
  (br_state b' = kOpen ↔ R - br_window_count b < Z.of_nat (length times)).
Proof.
  intros Hs Hst Hw HR HR' HW HW' Hc Hn Hl. revert b Hs Hst HR HW Hc Hn.
  induction Hl as [|now times Hnow Hl IH]; intros b Hs Hst HR HW Hc Hn; cbn [allow_run length].
  { change (granted []) with 0%nat. rewrite Hs. split; [lia|]. split; [done|lia]. }
  unfold allow. rewrite Hs, Hst, HR, HW. rewrite !(proj2 (Z.ltb_lt 0 _)) by lia. cbn [andb].
  rewrite (proj2 (Z.ltb_ge now w)), (proj2 (Z.leb_gt W (now - w))) by lia. cbn [orb].
  unfold u32. rewrite Z.mod_small by lia.
  destruct (Z.ltb_spec R (br_window_count b + 1)) as [Hover|Hin].
  - set (b1 := trip _ _).
    rewrite (allow_run_open b1 times R W w now) by (done || lia).
    unfold granted. rewrite filter_cons_False by done. fold (granted (replicate (length times) false)).
    rewrite granted_none. split; [lia|]. split; [lia|done].
  - set (b1 := set_window _ _ _).
    specialize (IH b1 Hs eq_refl HR HW Hc ltac:(cbn [br_window_count b1 set_window]; lia)).
    destruct (allow_run b1 times) as [b' oks]. destruct IH as [I1 I2]. cbn [br_window_count b1 set_window] in *.
    unfold granted in *. rewrite filter_cons_True by done. cbn [length]. split; [lia|]. rewrite I2. lia.
Qed.

(** The rate limit is exact within a window.  When a call opens a new
    window, that call and the calls that follow inside the window are answered yes
    exactly up to [max_rate]; the first one beyond it trips the breaker, and no
    later call in the window is answered yes. *)
Theorem breaker_rate_limit_exact b times R W w :
  br_state b = kClosed → max_rate_per_window (br_cfg b) = R → 0 < R < 2 ^ 32 - 1 →
  rate_window_ns (br_cfg b) = W → 0 < W → cool_down_ns (br_cfg b) = 0 ∨ W ≤ cool_down_ns (br_cfg b) →
  0 < w → w < br_window_start_ns b ∨ W ≤ w - br_window_start_ns b →
  Forall (λ t, w ≤ t < w + W) times →
  let '(b', oks) := allow_run b (w :: times) in
  Z.of_nat (granted oks) = Z.min (Z.of_nat (length (w :: times))) R ∧
  (br_state b' = kOpen ↔ R < Z.of_nat (length (w :: times))).
Proof.
  intros Hs HR HR' HW HW' Hc Hw Hnew Hl. cbn [allow_run]. unfold allow at 1.
  rewrite Hs, HR, HW. rewrite !(proj2 (Z.ltb_lt 0 _)) by lia. cbn [andb].
  assert ((w <? br_window_start_ns b) || (W <=? w - br_window_start_ns b) = true) as ->
    by (apply orb_true_iff; rewrite Z.ltb_lt, Z.leb_le; lia).
  set (b1 := set_window b w 1).
  pose proof (allow_run_window b1 times R W w Hs eq_refl Hw HR HR' HW HW' Hc ltac:(cbn [br_window_count b1 set_window]; lia) Hl) as H.
  destruct (allow_run b1 times) as [b' oks]. destruct H as [H1 H2]. cbn [br_window_count b1 set_window] in *.
  unfold granted in *. rewrite filter_cons_True by done. cbn [length]. split; [lia|]. rewrite H2. lia.
Qed.

Lemma breaker_rate_limit_exact_witness :
  let '(b', oks) := allow_run (set_rate_limit (CircuitBreaker_new 1 0) 2 1000) [5000; 5001; 5002; 5003] in
  Z.of_nat (granted oks) = 2 ∧ (br_state b' = kOpen ↔ 2 < 4).
Proof.
  refine (breaker_rate_limit_exact (set_rate_limit (CircuitBreaker_new 1 0) 2 1000) [5001; 5002; 5003] 2 1000 5000
    eq_refl eq_refl _ eq_refl _ _ _ _ _); [lia|lia|by left|lia|right; simpl; lia|].
  repeat (constructor; [lia|]). constructor.
Defined.

(** *** Half-open probing *)

(** A probe that is granted and succeeds. *)
Definition good_probe (now : Z) (b : CircuitBreaker) : CircuitBreaker := record_success (fst (allow b now)).

Fixpoint good_probes (now : Z) (n : nat) (b : CircuitBreaker) : CircuitBreaker :=
  match n with O => b | S n' => good_probes now n' (good_probe now b) end.

Lemma half_open_step b now k P N :
  br_state b = kHalfOpen → half_open_max_probes (br_cfg b) = P → half_open_successes_needed (br_cfg b) = N →
  br_probes_issued b = k → br_successes b = k → 0 ≤ k < P → P < 2 ^ 32 →
  snd (allow b now) = true ∧
  (N ≤ k + 1 → ∃ b', good_probe now b = breaker_reset b') ∧
  (k + 1 < N → let b' := good_probe now b in br_state b' = kHalfOpen ∧ br_cfg b' = br_cfg b ∧
     br_probes_issued b' = k + 1 ∧ br_successes b' = k + 1).
Proof.
  intros Hs HP HN Hp Hk Hlt H32. unfold good_probe, allow. rewrite Hs. unfold allow_probe. cbn [fst snd].
  rewrite Hp, HP. split; [apply Z.ltb_lt; lia|]. unfold record_success, set_probes. cbn [br_state br_successes br_cfg br_probes_issued].
  rewrite Hs, Hk, HN. unfold u32. rewrite !Z.mod_small by lia.
  split; intros H; [rewrite (proj2 (Z.leb_le _ _)) by lia; by eexists|by rewrite (proj2 (Z.leb_gt _ _)) by lia].
Qed.

(** The first call after the cool-down makes the breaker half-open. *)
Lemma reopen_step b now :
  br_state b = kOpen → half_open_enabled (br_cfg b) = true → 0 < cool_down_ns (br_cfg b) → 0 < now →
  br_trip_timestamp_ns b ≤ now → cool_down_ns (br_cfg b) ≤ now - br_trip_timestamp_ns b →
  allow b now = allow (set_probes b 0 0 kHalfOpen) now.
Proof.
  intros Hs He Hc Hn Ht Hd. unfold allow. rewrite Hs, He. cbn [br_state set_probes].
  rewrite !(proj2 (Z.ltb_lt _ _)), !(proj2 (Z.leb_le _ _)) by lia. done.
Qed.

Lemma good_probes_half n b now k P N :
  br_state b = kHalfOpen → half_open_max_probes (br_cfg b) = P → half_open_successes_needed (br_cfg b) = N →
  br_probes_issued b = k → br_successes b = k → 0 ≤ k → k + Z.of_nat n ≤ P → P < 2 ^ 32 → k + Z.of_nat n < N →
  let b' := good_probes now n b in
  br_state b' = kHalfOpen ∧ br_cfg b' = br_cfg b ∧
  br_probes_issued b' = k + Z.of_nat n ∧ br_successes b' = k + Z.of_nat n.
Proof.
  revert b k. induction n as [|n IH]; intros b k Hs HP HN Hp Hk H0 HlP H32 HlN; cbn [good_probes].
  { split_and!; done || lia. }
  destruct (half_open_step b now k P N) as (_ & _ & H); try done; [lia|]. destruct H as (A & B & C & D); [lia|].
  destruct (IH (good_probe now b) (k + 1)) as (E & F & G & I); rewrite ?B; try done; try lia.
  rewrite E, F, G, I, B. split_and!; done || lia.
Qed.

Lemma good_probes_S now n b : good_probes now (S n) b = good_probe now (good_probes now n b).
Proof. revert b. induction n as [|n IH]; intros b; [done|]. cbn [good_probes] in *. by rewrite IH. Qed.

(** The breaker recovers.  Once the cool-down of an open breaker is
    over, if half-open probing is enabled with no more successes needed than probes
    allowed, every probe up to that number is granted and the last of them to
    succeed closes the breaker with its counters cleared. *)
Theorem breaker_recovers b now :
  br_state b = kOpen → half_open_enabled (br_cfg b) = true → 0 < cool_down_ns (br_cfg b) → 0 < now →
  br_trip_timestamp_ns b ≤ now → cool_down_ns (br_cfg b) ≤ now - br_trip_timestamp_ns b →
  1 ≤ half_open_successes_needed (br_cfg b) ≤ half_open_max_probes (br_cfg b) →
  half_open_max_probes (br_cfg b) < 2 ^ 32 →
  let needed := Z.to_nat (half_open_successes_needed (br_cfg b)) in
  (∀ n, (n < needed)%nat → snd (allow (good_probes now n b) now) = true) ∧
  let b' := good_probes now needed b in
  br_state b' = kClosed ∧ br_tripped b' = false ∧ br_failures b' = 0 ∧ br_consecutive_rejections b' = 0.
Proof.
  intros Hs He Hc Hn Ht Hd Hneed H32. cbv zeta. set (h := set_probes b 0 0 kHalfOpen).
  assert (Hre : allow b now = allow h now) by (by apply reopen_step).
  assert (Hshift : ∀ n, good_probes now (S n) b = good_probes now (S n) h)
    by (intros n; cbn [good_probes]; unfold good_probe; by rewrite Hre).
  set (P := half_open_max_probes (br_cfg b)) in *. set (N := half_open_successes_needed (br_cfg b)) in *.
  assert (Hhalf : ∀ n, (Z.of_nat n < N) → let b' := good_probes now n h in
    br_state b' = kHalfOpen ∧ br_cfg b' = br_cfg b ∧ br_probes_issued b' = Z.of_nat n ∧ br_successes b' = Z.of_nat n).
  { intros n Hlt. apply (good_probes_half n h now 0 P N); try done; lia. }
  split.
  - intros [|n] Hlt.
    + cbn [good_probes]. rewrite Hre. destruct (half_open_step h now 0 P N) as [H _]; try done; lia.
    + rewrite Hshift. destruct (Hhalf (S n)) as (A & B & C & D); [lia|].
      destruct (half_open_step (good_probes now (S n) h) now (Z.of_nat (S n)) P N) as [H _];
        rewrite ?B; try done; lia.
  - destruct (Z.to_nat N) as [|n] eqn:En; [lia|]. rewrite Hshift, good_probes_S.
    destruct (Hhalf n) as (A & B & C & D); [lia|].
    destruct (half_open_step (good_probes now n h) now (Z.of_nat n) P N) as (_ & H & _);
      rewrite ?B; try done; try lia. destruct H as [b' ->]; [lia|]. done.
Qed.

Definition cooled : CircuitBreaker :=
  trip (set_half_open_params (CircuitBreaker_new 1 500) 3 2) 1000.

Lemma breaker_recovers_witness :
  (∀ n, (n < 2)%nat → snd (allow (good_probes 1600 n cooled) 1600) = true) ∧
  let b' := good_probes 1600 2 cooled in
  br_state b' = kClosed ∧ br_tripped b' = false ∧ br_failures b' = 0 ∧ br_consecutive_rejections b' = 0.
Proof. refine (breaker_recovers cooled 1600 _ _ _ _ _ _ _ _); reflexivity || by_decide || (simpl; lia). Defined.

Lemma refused_probes n b now P :
  br_state b = kHalfOpen → half_open_max_probes (br_cfg b) = P → P ≤ br_probes_issued b →
  0 ≤ br_probes_issued b → br_probes_issued b + Z.of_nat n < 2 ^ 32 →
  snd (allow_run b (replicate n now)) = replicate n false.
Proof.
  revert b. induction n as [|n IH]; intros b Hs HP Hp H0 H32; [done|]. cbn [replicate allow_run].
  unfold allow. rewrite Hs. unfold allow_probe. rewrite HP, (proj2 (Z.ltb_ge _ _)) by lia.
  set (b1 := set_probes _ _ _ _). specialize (IH b1). destruct (allow_run b1 (replicate n now)) as [b2 oks].
  cbn [snd] in *. rewrite IH; try done; cbn [br_probes_issued b1 set_probes]; unfold u32; rewrite Z.mod_small; lia.
Qed.

(** The breaker can lock itself half-open.  [set_half_open_params]
    accepts more successes than probes; then, even if every probe succeeds, the
    breaker stays half-open once they are used up and refuses every further call,
    whatever the time: nothing but a manual reset or trip gets it out. *)
Theorem half_open_can_lock b now n later :
  br_state b = kOpen → half_open_enabled (br_cfg b) = true → 0 < cool_down_ns (br_cfg b) → 0 < now →
  br_trip_timestamp_ns b ≤ now → cool_down_ns (br_cfg b) ≤ now - br_trip_timestamp_ns b →
  1 ≤ half_open_max_probes (br_cfg b) < half_open_successes_needed (br_cfg b) →
  half_open_max_probes (br_cfg b) + Z.of_nat n < 2 ^ 32 →
  let b' := good_probes now (Z.to_nat (half_open_max_probes (br_cfg b))) b in
  br_state b' = kHalfOpen ∧ snd (allow_run b' (replicate n later)) = replicate n false.
Proof.
  intros Hs He Hc Hn Ht Hd Hneed H32. cbv zeta. set (h := set_probes b 0 0 kHalfOpen).
  set (P := half_open_max_probes (br_cfg b)) in *. set (N := half_open_successes_needed (br_cfg b)) in *.
  assert (E : good_probes now (Z.to_nat P) b = good_probes now (Z.to_nat P) h).
  { destruct (Z.to_nat P) as [|m] eqn:Em; [lia|]. cbn [good_probes]. unfold good_probe. by rewrite reopen_step. }
  rewrite E. destruct (good_probes_half (Z.to_nat P) h now 0 P N) as (A & B & C & D); try done; try lia.
  split; [exact A|]. apply (refused_probes n _ later P); [done|by rewrite B|lia..].
Qed.

Lemma half_open_can_lock_witness :
  let b := trip (set_half_open_params (CircuitBreaker_new 1 500) 1 2) 1000 in
  let b' := good_probes 1600 1 b in
  br_state b' = kHalfOpen ∧ snd (allow_run b' (replicate 5 999999)) = replicate 5 false.
Proof.
  refine (half_open_can_lock (trip (set_half_open_params (CircuitBreaker_new 1 500) 1 2) 1000) 1600 5 999999
    _ _ _ _ _ _ _ _); reflexivity || by_decide || (simpl; lia).
Defined.
