(* ===== verification/Reconciliation.v ===== *)
(** * Reconciliation: the table of live orders (src/luv_safety.hpp,
    ReconciliationLedger)

    Open addressing with linear probing and no tombstones: removing an entry must
    move the rest of its cluster.  [cancel] does; [apply], when it fills an order,
    does not.  An entry is (order id, remaining); id 0 is an empty slot. *)

From S2P Require Import Prelude.
From Stdlib Require Import ZArith Lia.
From stdpp Require Import base tactics gmap numbers option list.
Open Scope Z_scope.

Record ExecutionReport := mkReport { rep_order_id : Z; filled_quantity : Z; terminal : bool }.

Record ReconciliationLedger := mkLedger {
  rl_entries : gmap Z (Z * Z);
  rl_open : Z;
  rl_mismatches : Z
}.

Definition ReconciliationLedger_init : ReconciliationLedger := mkLedger ∅ 0 0.

Section ledger.
Context (bits : Z).

Definition rl_Capacity : Z := 2 ^ bits.

Definition rl_entry (t : gmap Z (Z * Z)) (slot : Z) : Z * Z := aget (0, 0) t slot.
Definition id_at (t : gmap Z (Z * Z)) (slot : Z) : Z := fst (rl_entry t slot).

Definition rl_hash (key : Z) : Z :=
  let key := Z.lxor key (Z.shiftr key 30) in
  let key := u64 (key * 0xBF58476D1CE4E5B9) in
  let key := Z.lxor key (Z.shiftr key 27) in
  let key := u64 (key * 0x94D049BB133111EB) in
  let key := Z.lxor key (Z.shiftr key 31) in
  Z.land (u32 key) (rl_Capacity - 1).

Definition rl_next (slot : Z) : Z := Z.land (slot + 1) (rl_Capacity - 1).

Fixpoint find_from (n : nat) (t : gmap Z (Z * Z)) (id slot : Z) : option Z :=
  match n with
  | O => None
  | S n' =>
      if id_at t slot =? id then Some slot
      else if id_at t slot =? 0 then None
      else find_from n' t id (rl_next slot)
  end.

Definition rl_find (t : gmap Z (Z * Z)) (id : Z) : option Z :=
  find_from (Z.to_nat rl_Capacity) t id (rl_hash id).

Fixpoint find_or_empty_from (n : nat) (t : gmap Z (Z * Z)) (id slot : Z) : option Z :=
  match n with
  | O => None
  | S n' =>
      if (id_at t slot =? id) || (id_at t slot =? 0) then Some slot
      else find_or_empty_from n' t id (rl_next slot)
  end.

Definition find_or_empty (t : gmap Z (Z * Z)) (id : Z) : option Z :=
  find_or_empty_from (Z.to_nat rl_Capacity) t id (rl_hash id).

Definition register_order (l : ReconciliationLedger) (id quantity : Z) : ReconciliationLedger * bool :=
  if (id =? 0) || (quantity <=? 0) then (l, false) else
  match find_or_empty (rl_entries l) id with
  | None => (l, false)
  | Some s =>
      if negb (id_at (rl_entries l) s =? 0) then (l, false)
      else (mkLedger (<[s := (id, quantity)]> (rl_entries l)) (u32 (rl_open l + 1)) (rl_mismatches l), true)
  end.

Definition rl_replace (l : ReconciliationLedger) (id new_quantity : Z) : ReconciliationLedger * bool :=
  if (id =? 0) || (new_quantity <=? 0) then (l, false) else
  match rl_find (rl_entries l) id with
  | None => (l, false)
  | Some s => (mkLedger (<[s := (id_at (rl_entries l) s, new_quantity)]> (rl_entries l)) (rl_open l)
                 (rl_mismatches l), true)
  end.

Definition rl_apply (l : ReconciliationLedger) (r : ExecutionReport) : ReconciliationLedger * bool :=
  if (rep_order_id r =? 0) || (filled_quantity r <=? 0) then (l, false) else
  let mismatch := (mkLedger (rl_entries l) (rl_open l) (u64 (rl_mismatches l + 1)), false) in
  match rl_find (rl_entries l) (rep_order_id r) with
  | None => mismatch
  | Some s =>
      let '(id, remaining) := rl_entry (rl_entries l) s in
      if remaining <? filled_quantity r then mismatch else
      let remaining := remaining - filled_quantity r in
      if terminal r || (remaining =? 0)
      then (mkLedger (<[s := (0, 0)]> (rl_entries l)) (u32 (rl_open l - 1)) (rl_mismatches l), true)
      else (mkLedger (<[s := (id, remaining)]> (rl_entries l)) (rl_open l) (rl_mismatches l), true)
  end.

Definition rl_contains (l : ReconciliationLedger) (id : Z) : bool :=
  negb (id =? 0) && match rl_find (rl_entries l) id with Some _ => true | None => false end.

(** The loop of [reinsert_cluster]; [None] when the fuel runs out. *)
Fixpoint reinsert_from (fuel : nat) (t : gmap Z (Z * Z)) (slot : Z) : option (gmap Z (Z * Z)) :=
  match fuel with
  | O => None
  | S fuel' =>
      if id_at t slot =? 0 then Some t else
      let displaced := rl_entry t slot in
      let t := <[slot := (0, 0)]> t in
      match find_or_empty t (fst displaced) with
      | None => Some t
      | Some dst => reinsert_from fuel' (<[dst := displaced]> t) (rl_next slot)
      end
  end.

Definition reinsert_cluster (t : gmap Z (Z * Z)) (removed : Z) : option (gmap Z (Z * Z)) :=
  reinsert_from (Z.to_nat rl_Capacity) t (rl_next removed).

Definition rl_cancel (l : ReconciliationLedger) (id : Z) : option (ReconciliationLedger * bool) :=
  match rl_find (rl_entries l) id with
  | None => Some (l, false)
  | Some s =>
      t ← reinsert_cluster (<[s := (0, 0)]> (rl_entries l)) s;
      Some (mkLedger t (u32 (rl_open l - 1)) (rl_mismatches l), true)
  end.

Definition open_orders (l : ReconciliationLedger) : Z := rl_open l.
Definition mismatches (l : ReconciliationLedger) : Z := rl_mismatches l.
End ledger.

Section proofs.
Context (bits : Z) (Hbits : 0 < bits ≤ 31).
Notation Cap := (rl_Capacity bits).
Notation hash := (rl_hash bits).
Implicit Types t : gmap Z (Z * Z).

Lemma cap_bounds : 1 < Cap ≤ 2 ^ 31.
Proof using Hbits.
  unfold rl_Capacity. split; [|apply Z.pow_le_mono_r; lia].
  change 1 with (2 ^ 0). apply Z.pow_lt_mono_r; lia.
Qed.

Lemma land_cap z : Z.land z (Cap - 1) = z mod Cap.
Proof using Hbits.
  unfold rl_Capacity. replace (2 ^ bits - 1) with (Z.ones bits) by (rewrite Z.ones_equiv; lia).
  apply Z.land_ones. lia.
Qed.

(** ** Places on the probe path *)

Definition slot_of (id d : Z) : Z := (hash id + d) mod Cap.
Definition dist (id s : Z) : Z := (s - hash id) mod Cap.
Definition in_table (s : Z) : Prop := 0 ≤ s < Cap.

Lemma hash_in id : in_table (hash id).
Proof using Hbits.
  pose proof cap_bounds. unfold rl_hash, in_table. rewrite land_cap. apply Z.mod_pos_bound. lia.
Qed.

Lemma slot_in id d : in_table (slot_of id d).
Proof using Hbits. pose proof cap_bounds. apply Z.mod_pos_bound. lia. Qed.

Lemma slot_of_0 id : slot_of id 0 = hash id.
Proof using Hbits. pose proof (hash_in id). unfold slot_of, in_table in *. rewrite Z.add_0_r, Z.mod_small; lia. Qed.

Lemma next_slot id d : rl_next bits (slot_of id d) = slot_of id (d + 1).
Proof using Hbits. unfold rl_next, slot_of. rewrite land_cap, Zplus_mod_idemp_l. f_equal. lia. Qed.

Lemma dist_range id s : 0 ≤ dist id s < Cap.
Proof using Hbits. pose proof cap_bounds. apply Z.mod_pos_bound. lia. Qed.

Lemma slot_of_dist id s : in_table s → slot_of id (dist id s) = s.
Proof using Hbits.
  intros Hs. unfold slot_of, dist. rewrite Zplus_mod_idemp_r. unfold in_table in Hs.
  replace (hash id + (s - hash id)) with s by lia. by apply Z.mod_small.
Qed.

Lemma dist_slot_of id d : 0 ≤ d < Cap → dist id (slot_of id d) = d.
Proof using Hbits.
  intros Hd. unfold slot_of, dist. rewrite Zminus_mod_idemp_l.
  replace (hash id + d - hash id) with d by lia. by apply Z.mod_small.
Qed.

(** ** The representation *)

(** No slot on the way from its home to [s] is empty. *)
Definition reachable_at t (s : Z) : Prop :=
  ∀ e, 0 ≤ e < dist (id_at t s) s → id_at t (slot_of (id_at t s) e) ≠ 0.

Record rl_rep t (g : gmap Z Z) : Prop := mk_rl_rep {
  rr_unique : ∀ s s', in_table s → in_table s' → id_at t s ≠ 0 → id_at t s = id_at t s' → s = s';
  rr_path : ∀ s, in_table s → id_at t s ≠ 0 → reachable_at t s;
  rr_map : ∀ id r, id ≠ 0 → g !! id = Some r ↔ ∃ s, in_table s ∧ rl_entry t s = (id, r);
  rr_zero : g !! 0 = None
}.

Lemma id_at_insert t s s' e : id_at (<[s := e]> t) s' = if decide (s = s') then fst e else id_at t s'.
Proof using Type. unfold id_at, rl_entry. rewrite aget_insert. by case_decide. Qed.

Lemma entry_insert t s s' e : rl_entry (<[s := e]> t) s' = if decide (s = s') then e else rl_entry t s'.
Proof using Type. apply aget_insert. Qed.

(** The bounded scan finds the first slot of the path with the property tested,
    given that one exists. *)
Lemma find_or_empty_spec t id d :
  0 ≤ d < Cap → (id_at t (slot_of id d) = id ∨ id_at t (slot_of id d) = 0) →
  (∀ e, 0 ≤ e < d → id_at t (slot_of id e) ≠ id ∧ id_at t (slot_of id e) ≠ 0) →
  find_or_empty bits t id = Some (slot_of id d).
Proof using Hbits.
  intros Hd Hat Hbefore. unfold find_or_empty. rewrite <- slot_of_0.
  assert (H : ∀ n e, 0 ≤ e ≤ d → d < e + Z.of_nat n → find_or_empty_from bits n t id (slot_of id e) = Some (slot_of id d)).
  { induction n as [|n IH]; intros e He Hn; [lia|]. cbn [find_or_empty_from].
    destruct (decide (e = d)) as [->|Hne].
    - destruct Hat as [-> | ->]; rewrite Z.eqb_refl; [done|by rewrite orb_true_r].
    - destruct (Hbefore e) as [H1 H2]; [lia|]. rewrite !(proj2 (Z.eqb_neq _ _)) by done. cbn [orb].
      rewrite next_slot. apply IH; lia. }
  apply H; lia.
Qed.

Lemma find_hit t id d :
  0 ≤ d < Cap → id_at t (slot_of id d) = id →
  (∀ e, 0 ≤ e < d → id_at t (slot_of id e) ≠ id ∧ id_at t (slot_of id e) ≠ 0) →
  rl_find bits t id = Some (slot_of id d).
Proof using Hbits.
  intros Hd Hat Hbefore. unfold rl_find. rewrite <- slot_of_0.
  assert (H : ∀ n e, 0 ≤ e ≤ d → d < e + Z.of_nat n → find_from bits n t id (slot_of id e) = Some (slot_of id d)).
  { induction n as [|n IH]; intros e He Hn; [lia|]. cbn [find_from].
    destruct (decide (e = d)) as [->|Hne]; [by rewrite Hat, Z.eqb_refl|].
    destruct (Hbefore e) as [H1 H2]; [lia|]. rewrite !(proj2 (Z.eqb_neq _ _)) by done.
    rewrite next_slot. apply IH; lia. }
  apply H; lia.
Qed.

Lemma find_from_sound n t id slot s :
  in_table slot → find_from bits n t id slot = Some s → in_table s ∧ id_at t s = id.
Proof using Hbits.
  revert slot. induction n as [|n IH]; intros slot Hs; [done|]. cbn [find_from].
  destruct (Z.eqb_spec (id_at t slot) id); [by intros [= <-]|]. destruct (id_at t slot =? 0); [done|].
  apply IH. pose proof cap_bounds. unfold rl_next, in_table. rewrite land_cap. apply Z.mod_pos_bound. lia.
Qed.

(** What is met before a live entry on its path is neither empty nor itself. *)
Lemma before_entry t g s e :
  rl_rep t g → in_table s → id_at t s ≠ 0 → 0 ≤ e < dist (id_at t s) s →
  id_at t (slot_of (id_at t s) e) ≠ id_at t s ∧ id_at t (slot_of (id_at t s) e) ≠ 0.
Proof using Hbits.
  intros H Hs Hid He. pose proof (dist_range (id_at t s) s) as Hd. split; [|by apply (rr_path _ _ H)].
  intros E. assert (Es : s = slot_of (id_at t s) e).
  { apply (rr_unique _ _ H); [done|apply slot_in|done|by rewrite E]. }
  assert (dist (id_at t s) s = e); [|lia]. rewrite Es at 2. apply dist_slot_of. lia.
Qed.

Lemma find_present t g id r :
  rl_rep t g → g !! id = Some r →
  ∃ s, rl_find bits t id = Some s ∧ in_table s ∧ rl_entry t s = (id, r).
Proof using Hbits.
  intros H Hg. assert (Hid : id ≠ 0) by (intros ->; by rewrite (rr_zero _ _ H) in Hg).
  apply (rr_map _ _ H id r Hid) in Hg as (s & Hs & Es).
  assert (Ei : id_at t s = id) by (unfold id_at; by rewrite Es). exists s. split; [|done].
  rewrite <- (slot_of_dist id s Hs). apply find_hit; [apply dist_range|by rewrite slot_of_dist|].
  intros e He. rewrite <- Ei. apply (before_entry t g s e H Hs); rewrite Ei; done.
Qed.

Lemma find_absent t g id : rl_rep t g → id ≠ 0 → g !! id = None → rl_find bits t id = None.
Proof using Hbits.
  intros H Hid Hg. destruct (rl_find bits t id) as [s|] eqn:E; [|done]. exfalso.
  apply find_from_sound in E as [Hs Ei]; [|apply hash_in].
  assert (Hsome : g !! id = Some (snd (rl_entry t s))); [|congruence].
  apply (rr_map _ _ H id _ Hid). exists s. split; [done|]. unfold id_at in Ei. destruct (rl_entry t s). simpl in *. by subst.
Qed.

(** ** A free slot *)

Definition slots_list : list Z := Z.of_nat <$> seq 0 (Z.to_nat Cap).

Lemma free_exists t g :
  rl_rep t g → Z.of_nat (size g) < Cap → ∃ s, in_table s ∧ id_at t s = 0.
Proof using Hbits.
  intros H Hsz. pose proof cap_bounds.
  destruct (decide (Exists (λ s, id_at t s = 0) slots_list)) as [Hex|Hall].
  { apply Exists_exists in Hex as (s & Hin & Hs). exists s. split; [|done].
    apply list_elem_of_fmap_1 in Hin as (i & -> & Hi%elem_of_seq). unfold in_table. lia. }
  exfalso. assert (Hlive : ∀ s, in_table s → id_at t s ≠ 0).
  { intros s Hs Hz. apply Hall, Exists_exists. exists s. split; [|done]. apply list_elem_of_fmap.
    exists (Z.to_nat s). unfold in_table in Hs. rewrite elem_of_seq. lia. }
  assert (Hin : ∀ i, i ∈ seq 0 (Z.to_nat Cap) → in_table (Z.of_nat i))
    by (intros i Hi%elem_of_seq; unfold in_table; lia).
  assert (Hnd : NoDup (id_at t <$> slots_list)).
  { apply NoDup_fmap_2_strong; [|apply NoDup_fmap_2; [apply _|apply NoDup_seq]].
    intros x y (i & -> & Hi)%list_elem_of_fmap_1 (j & -> & Hj)%list_elem_of_fmap_1 E.
    apply (rr_unique _ _ H); auto. }
  assert (Hsub : list_to_set (id_at t <$> slots_list) ⊆ dom g).
  { intros x Hx. apply elem_of_list_to_set in Hx.
    apply list_elem_of_fmap_1 in Hx as (s & -> & (i & -> & Hi)%list_elem_of_fmap_1).
    apply elem_of_dom. exists (snd (rl_entry t (Z.of_nat i))). apply (rr_map _ _ H); [by apply Hlive, Hin|].
    exists (Z.of_nat i). split; [by apply Hin|]. unfold id_at. by destruct (rl_entry t (Z.of_nat i)). }
  apply subseteq_size in Hsub. rewrite (size_list_to_set _ Hnd) in Hsub.
  unfold slots_list in Hsub. rewrite !length_fmap, length_seq, size_dom in Hsub. lia.
Qed.

(** ** Registration *)

Lemma insert_free_rep t g id q d :
  rl_rep t g → id ≠ 0 → g !! id = None → 0 ≤ d < Cap → id_at t (slot_of id d) = 0 →
  (∀ e, 0 ≤ e < d → id_at t (slot_of id e) ≠ 0) →
  rl_rep (<[slot_of id d := (id, q)]> t) (<[id := q]> g).
Proof using Hbits.
  intros H Hid Hg Hd Hfree Hbefore. set (s0 := slot_of id d) in *. set (t' := <[s0 := (id, q)]> t).
  assert (Hid' : ∀ s, id_at t' s = if decide (s0 = s) then id else id_at t s)
    by (intros s; apply id_at_insert).
  assert (Habsent : ∀ s, in_table s → id_at t s ≠ id).
  { intros s Hs E. assert (g !! id = Some (snd (rl_entry t s))); [|congruence]. apply (rr_map _ _ H); [done|].
    exists s. split; [done|]. unfold id_at in E. destruct (rl_entry t s); simpl in *; by subst. }
  split.
  - intros s s' Hs Hs' Hn E. rewrite !Hid' in *. repeat case_decide; subst; try done.
    + by apply Habsent in Hs'.
    + by apply Habsent in Hs.
    + by apply (rr_unique _ _ H).
  - intros s Hs Hn e He. rewrite !Hid' in *. destruct (decide (s0 = s)) as [<-|Hne].
    + case_decide; [done|]. apply Hbefore. unfold s0 in He. rewrite dist_slot_of in He; done.
    + case_decide; [done|]. by apply (rr_path _ _ H s).
  - intros id' r Hid0. destruct (decide (id' = id)) as [->|Hne].
    + rewrite lookup_insert_eq. split.
      * intros [= <-]. exists s0. split; [apply slot_in|]. unfold t'. by rewrite entry_insert, decide_True.
      * intros (s & Hs & E). unfold t' in E. rewrite entry_insert in E. case_decide; [congruence|].
        exfalso. apply (Habsent s Hs). unfold id_at. by rewrite E.
    + rewrite lookup_insert_ne by done. rewrite (rr_map _ _ H id' r Hid0). unfold t'. split.
      * intros (s & Hs & E). exists s. split; [done|]. rewrite entry_insert, decide_False; [done|].
        intros <-. unfold id_at in Hfree. rewrite E in Hfree. done.
      * intros (s & Hs & E). exists s. split; [done|]. rewrite entry_insert in E. case_decide; [|done]. congruence.
  - rewrite lookup_insert_ne by done. apply (rr_zero _ _ H).
Qed.

(** ** Moving a cluster

    Offsets are counted from [h], the slot that was emptied. *)

Section cluster.
Context (h : Z) (Hh : in_table h).

Definition pos (i : Z) : Z := (h + i) mod Cap.
Definition off (s : Z) : Z := (s - h) mod Cap.

Lemma pos_in i : in_table (pos i).
Proof using Hbits. pose proof cap_bounds. apply Z.mod_pos_bound. lia. Qed.

Lemma off_range s : 0 ≤ off s < Cap.
Proof using Hbits. pose proof cap_bounds. apply Z.mod_pos_bound. lia. Qed.

Lemma pos_off s : in_table s → pos (off s) = s.
Proof using Hbits.
  intros Hs. unfold pos, off. rewrite Zplus_mod_idemp_r. replace (h + (s - h)) with s by lia. by apply Z.mod_small.
Qed.

Lemma off_pos i : 0 ≤ i < Cap → off (pos i) = i.
Proof using Hbits.
  intros Hi. unfold pos, off. rewrite Zminus_mod_idemp_l. replace (h + i - h) with i by lia. by apply Z.mod_small.
Qed.

Lemma next_pos i : rl_next bits (pos i) = pos (i + 1).
Proof using Hbits. unfold rl_next, pos. rewrite land_cap, Zplus_mod_idemp_l. f_equal. lia. Qed.

Lemma pos_0 : pos 0 = h.
Proof using Hh. unfold pos. rewrite Z.add_0_r. by apply Z.mod_small. Qed.

(** A path that passes offset [off p] and ends at [s] meets every offset in
    between, going round the end of the table when [s] lies before [p]. *)
Lemma path_crosses id s e L :
  in_table s → 0 ≤ e < dist id s → 0 ≤ L < Cap →
  let p := slot_of id e in
  (off p ≤ L < off s ∨ off s < off p ≤ L) → ∃ e', e ≤ e' < dist id s ∧ slot_of id e' = pos L.
Proof using Hbits.
  intros Hs He HL p Hcase. pose proof cap_bounds. pose proof (dist_range id s).
  pose proof (off_range p). pose proof (off_range s).
  assert (Hslot : slot_of id (e + (L - off p)) = pos L).
  { unfold slot_of, pos. rewrite Z.add_assoc. rewrite <- (Zplus_mod_idemp_l (hash id + e)).
    fold (slot_of id e). fold p. rewrite <- (pos_off p (slot_in id e)) at 1. unfold pos.
    rewrite Zplus_mod_idemp_l. f_equal. lia. }
  assert (Hcong : (dist id s - e) mod Cap = (off s - off p) mod Cap).
  { unfold off, dist. rewrite <- Zminus_mod, Zminus_mod_idemp_l. replace (s - h - (p - h)) with (s - p) by lia.
    unfold p, slot_of. rewrite Zminus_mod_idemp_r. f_equal. lia. }
  rewrite (Z.mod_small (dist id s - e)) in Hcong by lia.
  exists (e + (L - off p)). split; [|done]. destruct Hcase as [Hc|Hc].
  - rewrite Z.mod_small in Hcong by lia. lia.
  - replace (off s - off p) with ((off s - off p + Cap) + (-1) * Cap) in Hcong by lia.
    rewrite Z_mod_plus_full, Z.mod_small in Hcong by lia. lia.
Qed.

(** The state of the loop at offset [i]: the entries from [i] to the end [L] of
    the cluster may have lost their path to holes before [i]; all others are
    reachable. *)
Record moving t (g : gmap Z Z) (i L : Z) : Prop := mk_moving {
  mv_unique : ∀ s s', in_table s → in_table s' → id_at t s ≠ 0 → id_at t s = id_at t s' → s = s';
  mv_map : ∀ id r, id ≠ 0 → g !! id = Some r ↔ ∃ s, in_table s ∧ rl_entry t s = (id, r);
  mv_zero : g !! 0 = None;
  mv_live : ∀ j, i ≤ j < L → id_at t (pos j) ≠ 0;
  mv_end : id_at t (pos L) = 0;
  mv_path : ∀ s e, in_table s → id_at t s ≠ 0 → 0 ≤ e < dist (id_at t s) s →
    id_at t (slot_of (id_at t s) e) = 0 → i ≤ off s < L ∧ off (slot_of (id_at t s) e) < i
}.

(** A path through offset [i] cannot get past the end of the cluster. *)
Lemma stops_at_end t g i L s e :
  moving t g i L → 0 ≤ i ≤ L → L < Cap → in_table s → id_at t s ≠ 0 →
  0 ≤ e < dist (id_at t s) s → off (slot_of (id_at t s) e) = i → i ≤ off s < L.
Proof using Hbits.
  intros H Hi HL Hs Hn He Hoff. pose proof (off_range s).
  assert (Hcross : ¬ ∃ e', e ≤ e' < dist (id_at t s) s ∧ slot_of (id_at t s) e' = pos L).
  { intros (e' & He' & E). destruct (mv_path _ _ _ _ H s e' Hs Hn) as [_ Hlt]; [lia|rewrite E; apply (mv_end _ _ _ _ H)|].
    rewrite E, off_pos in Hlt by lia. lia. }
  destruct (decide (i ≤ off s < L)) as [|Hout]; [done|]. exfalso.
  destruct (decide (off s = L)) as [E|Hne].
  - apply Hn. rewrite <- (pos_off s Hs), E. apply (mv_end _ _ _ _ H).
  - apply Hcross. apply path_crosses; [done|done|lia|]. cbv zeta. rewrite Hoff. lia.
Qed.

(** Where a displaced entry goes: the first hole on its path, or back. *)
Lemma find_destination t g i L :
  moving t g i L → 0 ≤ i < L → L < Cap →
  let id := id_at t (pos i) in let t0 := <[pos i := (0, 0)]> t in
  ∃ d, 0 ≤ d ≤ dist id (pos i) ∧ find_or_empty bits t0 id = Some (slot_of id d) ∧
    (d < dist id (pos i) → id_at t (slot_of id d) = 0 ∧ off (slot_of id d) < i) ∧
    (∀ e, 0 ≤ e < d → id_at t (slot_of id e) ≠ 0 ∧ slot_of id e ≠ pos i).
Proof using Hbits.
  intros H Hi HL id t0. pose proof (dist_range id (pos i)) as Hdr.
  assert (Hn : id ≠ 0) by (apply (mv_live _ _ _ _ H); lia).
  assert (Hself : slot_of id (dist id (pos i)) = pos i) by (apply slot_of_dist, pos_in).
  assert (Ht0 : ∀ s, id_at t0 s = if decide (pos i = s) then 0 else id_at t s) by (intros s; apply id_at_insert).
  destruct (least_below (λ e, id_at t0 (slot_of id e) = 0) 0 (dist id (pos i))) as (d & Hd & Hz & Hmin);
    [lia|rewrite Ht0, Hself; by rewrite decide_True|].
  assert (Hother : ∀ e, 0 ≤ e < dist id (pos i) → slot_of id e ≠ pos i).
  { intros e He E. assert (dist id (pos i) = e); [|lia]. rewrite <- E. apply dist_slot_of. lia. }
  assert (Hlow : ∀ e, 0 ≤ e < d → id_at t (slot_of id e) ≠ 0 ∧ slot_of id e ≠ pos i).
  { intros e He. specialize (Hother e ltac:(lia)). specialize (Hmin e ltac:(lia)). rewrite Ht0 in Hmin.
    rewrite decide_False in Hmin by (intros E; by apply Hother). done. }
  exists d. split; [done|]. split; [|split; [|done]].
  - apply find_or_empty_spec; [lia|by right|]. intros e He. destruct (Hlow e He) as [H1 H2].
    rewrite Ht0, decide_False by (intros E; by apply H2). split; [|done].
    intros E. apply H2. symmetry. apply (mv_unique _ _ _ _ H); [apply pos_in|apply slot_in|done|by rewrite E].
  - intros Hlt. specialize (Hother d ltac:(lia)). rewrite Ht0, decide_False in Hz by (intros E; by apply Hother).
    split; [done|]. by destruct (mv_path _ _ _ _ H (pos i) d (pos_in i) Hn (conj (proj1 Hd) Hlt) Hz).
Qed.

(** Moving the entry of [src] to the free slot [dst], or leaving it. *)
Definition move t (src dst : Z) : gmap Z (Z * Z) := <[dst := rl_entry t src]> (<[src := (0, 0)]> t).

Lemma move_entry t src dst s :
  rl_entry (move t src dst) s = if decide (dst = s) then rl_entry t src else if decide (src = s) then (0, 0) else rl_entry t s.
Proof using Type. unfold move. by rewrite !entry_insert. Qed.

Lemma move_id t src dst s :
  id_at (move t src dst) s = if decide (dst = s) then id_at t src else if decide (src = s) then 0 else id_at t s.
Proof using Type. unfold id_at. rewrite move_entry. by repeat case_decide. Qed.

Section move.
Context t (g : gmap Z Z) (i L src dst : Z) (H : moving t g i L).
Context (Hsrc : in_table src) (Hdst : in_table dst) (Hn : id_at t src ≠ 0) (Hfree : dst = src ∨ id_at t dst = 0).

Lemma move_unique s s' :
  in_table s → in_table s' → id_at (move t src dst) s ≠ 0 →
  id_at (move t src dst) s = id_at (move t src dst) s' → s = s'.
Proof using H Hsrc Hdst Hn Hfree.
  intros Hs Hs' Hne E. rewrite !move_id in *.
  destruct (decide (dst = s)), (decide (dst = s')); subst; try done.
  - destruct (decide (src = s')); [done|]. by apply (mv_unique _ _ _ _ H) in E.
  - destruct (decide (src = s)); [done|]. symmetry in E. by apply (mv_unique _ _ _ _ H) in E.
  - destruct (decide (src = s)); [done|]. destruct (decide (src = s')) as [|]; [congruence|].
    by apply (mv_unique _ _ _ _ H).
Qed.

Lemma move_map id r : id ≠ 0 → g !! id = Some r ↔ ∃ s, in_table s ∧ rl_entry (move t src dst) s = (id, r).
Proof using H Hsrc Hdst Hfree.
  intros Hid. rewrite (mv_map _ _ _ _ H id r Hid). split; intros (s & Hs & E).
  - destruct (decide (s = src)) as [->|Hne].
    + exists dst. split; [done|]. rewrite move_entry. by rewrite decide_True.
    + exists s. split; [done|]. rewrite move_entry. case_decide as Ed; [|by rewrite decide_False by congruence].
      subst s. destruct Hfree as [?|Hf]; [done|]. unfold id_at in Hf. by rewrite E in Hf.
  - rewrite move_entry in E. case_decide; [by exists src|]. case_decide; [congruence|by exists s].
Qed.
End move.

(** One iteration keeps the invariant. *)
Lemma moving_step t g i L :
  moving t g i L → 0 ≤ i < L → L < Cap →
  ∃ d, find_or_empty bits (<[pos i := (0, 0)]> t) (id_at t (pos i)) = Some d ∧
    moving (<[d := rl_entry t (pos i)]> (<[pos i := (0, 0)]> t)) g (i + 1) L.
Proof using Hbits.
  intros H Hi HL. destruct (find_destination t g i L H Hi HL) as (d & Hd & Hf & Hhole & Hlow). cbv zeta in *.
  set (id := id_at t (pos i)) in *. set (dst := slot_of id d) in *. exists dst. split; [done|].
  assert (Hn : id ≠ 0) by (apply (mv_live _ _ _ _ H); lia).
  assert (Hdst : dst = pos i ∨ (id_at t dst = 0 ∧ off dst < i)).
  { destruct (decide (d = dist id (pos i))) as [E|]; [|right; apply Hhole; lia].
    left. unfold dst. rewrite E. apply slot_of_dist, pos_in. }
  assert (Hfree : dst = pos i ∨ id_at t dst = 0) by (destruct Hdst as [?|[? _]]; auto).
  assert (Hoff : off dst ≤ i) by (destruct Hdst as [->|[_ ?]]; [rewrite off_pos|]; lia).
  fold (move t (pos i) dst). split.
  - intros s s'. apply (move_unique t g i L); [done|apply pos_in|apply slot_in|done|done].
  - intros id' r. apply (move_map t g i L); [done|apply pos_in|apply slot_in|done].
  - apply (mv_zero _ _ _ _ H).
  - intros j Hj. rewrite move_id. destruct (decide (dst = pos j)); [done|].
    rewrite decide_False; [apply (mv_live _ _ _ _ H); lia|]. intros Hc%(f_equal off).
    rewrite !off_pos in Hc by lia. lia.
  - rewrite move_id. rewrite !decide_False; [apply (mv_end _ _ _ _ H)|..]; intros Hc%(f_equal off);
      rewrite ?off_pos in Hc by lia; lia.
  - intros s e Hs. rewrite !move_id. destruct (decide (dst = s)) as [<-|Hne].
    + intros _ He. fold id in He |- *. unfold dst in He. rewrite dist_slot_of in He by (pose proof (dist_range id (pos i)); lia).
      destruct (Hlow e He) as [H1 H2]. repeat case_decide; congruence.
    + destruct (decide (pos i = s)) as [|Hne']; [done|]. intros Hns He. set (p := slot_of (id_at t s) e).
      destruct (decide (dst = p)) as [|Hdp]; [done|]. intros Hz.
      assert (Hoffs : off s ≠ i) by (intros E; apply Hne'; rewrite <- E; by apply pos_off).
      destruct (decide (pos i = p)) as [Hp|Hp].
      * assert (off p = i) as Hpi by (rewrite <- Hp; apply off_pos; lia).
        pose proof (stops_at_end t g i L s e H ltac:(lia) HL Hs Hns He Hpi). lia.
      * destruct (mv_path _ _ _ _ H s e Hs Hns He Hz) as [? Hlt]. change (off p < i) in Hlt. lia.
Qed.

Lemma moving_done t g L : moving t g L L → rl_rep t g.
Proof using Type.
  intros H. split; try apply H. intros s Hs Hn e He Hz. destruct (mv_path _ _ _ _ H s e Hs Hn He Hz). lia.
Qed.

Lemma reinsert_moving fuel t g i L :
  moving t g i L → 0 ≤ i ≤ L → L < Cap → L - i < Z.of_nat fuel →
  ∃ t', reinsert_from bits fuel t (pos i) = Some t' ∧ rl_rep t' g.
Proof using Hbits.
  revert t i. induction fuel as [|fuel IH]; intros t i H Hi HL Hf; [lia|]. cbn [reinsert_from].
  destruct (decide (i = L)) as [->|Hne].
  { rewrite (mv_end _ _ _ _ H). exists t. split; [done|]. by eapply moving_done. }
  rewrite (proj2 (Z.eqb_neq _ _)) by (apply (mv_live _ _ _ _ H); lia).
  destruct (moving_step t g i L H) as (d & Hd & Hm); [lia|done|]. unfold id_at in Hd. rewrite Hd, next_pos.
  apply IH; [done|lia..].
Qed.
End cluster.

(** Clearing a live slot starts such a move. *)
Lemma clear_moving t g id r h f :
  rl_rep t g → in_table h → rl_entry t h = (id, r) → id ≠ 0 → in_table f → id_at t f = 0 →
  ∃ L, 0 < L < Cap ∧ moving h (<[h := (0, 0)]> t) (delete id g) 1 L.
Proof using Hbits.
  intros H Hh Eh Hid Hf Hfree. pose proof (off_range h f) as Hof.
  assert (Hidh : id_at t h = id) by (unfold id_at; by rewrite Eh).
  assert (Hf0 : off h f ≠ 0).
  { intros E. assert (f = h); [|congruence]. rewrite <- (pos_off h f Hf), E. by apply pos_0. }
  destruct (least_below (λ i, id_at t (pos h i) = 0) 1 (off h f)) as (L & HL & Hz & Hmin);
    [lia|by rewrite pos_off|].
  assert (Hne : ∀ j, 0 < j < Cap → pos h j ≠ h).
  { intros j Hj E. apply (f_equal (off h)) in E. rewrite off_pos in E by lia. unfold off in E.
    rewrite Z.sub_diag, Z.mod_0_l in E; lia. }
  assert (Hids : ∀ s, id_at (<[h := (0, 0)]> t) s = if decide (h = s) then 0 else id_at t s)
    by (intros s; apply id_at_insert).
  exists L. split; [lia|]. split.
  - intros s s' Hs Hs' Hn E. rewrite !Hids in *. repeat case_decide; try done. by apply (rr_unique _ _ H).
  - intros id' r' Hid'. rewrite lookup_delete_Some, (rr_map _ _ H id' r' Hid'). split.
    + intros (Hne' & s & Hs & E). exists s. split; [done|]. rewrite entry_insert, decide_False; [done|]. congruence.
    + intros (s & Hs & E). rewrite entry_insert in E. case_decide as Ec; [congruence|]. split; [|by exists s].
      intros <-. apply Ec. apply (rr_unique _ _ H); [done|done|by rewrite Hidh|]. rewrite Hidh. unfold id_at. by rewrite E.
  - by rewrite lookup_delete_ne, (rr_zero _ _ H) by done.
  - intros j Hj. rewrite Hids, decide_False; [apply Hmin; lia|]. intros E. by apply (Hne j); [lia|].
  - by rewrite Hids, Hz; case_decide.
  - intros s e Hs. rewrite !Hids. destruct (decide (h = s)) as [|Hsh]; [done|]. intros Hns He.
    destruct (decide (h = slot_of (id_at t s) e)) as [Ep|]; [|intros Hz'; by apply (rr_path _ _ H s Hs Hns e He) in Hz'].
    intros _. rewrite <- Ep. assert (Eh0 : off h h = 0) by (unfold off; by rewrite Z.sub_diag). split; [|lia].
    pose proof (off_range h s). assert (Hs0 : off h s ≠ 0).
    { intros E. apply Hsh. rewrite <- (pos_off h s Hs), E. symmetry. by apply pos_0. }
    destruct (decide (off h s < L)) as [|Hge]; [lia|]. exfalso.
    destruct (decide (off h s = L)) as [E|HneL]; [apply Hns; by rewrite <- (pos_off h s Hs), E|].
    destruct (path_crosses h (id_at t s) s e L Hs He) as (e' & He' & E'); [lia|rewrite <- Ep, Eh0; lia|].
    apply (rr_path _ _ H s Hs Hns e'); [lia|]. by rewrite E'.
Qed.
End proofs.

(** ** The ledger as a map from order id to remaining quantity *)

Inductive rl_op :=
  | Register (id q : Z) | Replace (id q : Z) | Cancel (id : Z) | Fill (id q : Z) (terminal : bool).

Definition rl_do (bits : Z) (l : ReconciliationLedger) (op : rl_op) : option (ReconciliationLedger * bool) :=
  match op with
  | Register id q => Some (register_order bits l id q)
  | Replace id q => Some (rl_replace bits l id q)
  | Cancel id => rl_cancel bits l id
  | Fill id q last => Some (rl_apply bits l (mkReport id q last))
  end.

(** What the operations mean: a null id or a quantity that is not positive is refused. *)
Definition refused (id q : Z) : bool := (id =? 0) || (q <=? 0).

Definition spec_do (g : gmap Z Z) (op : rl_op) : gmap Z Z * bool :=
  match op with
  | Register id q => if refused id q then (g, false) else
      match g !! id with None => (<[id := q]> g, true) | Some _ => (g, false) end
  | Replace id q => if refused id q then (g, false) else
      match g !! id with None => (g, false) | Some _ => (<[id := q]> g, true) end
  | Cancel id => match g !! id with None => (g, false) | Some _ => (delete id g, true) end
  | Fill id q last => if refused id q then (g, false) else
      match g !! id with
      | None => (g, false)
      | Some r => if r <? q then (g, false) else if last || (r =? q) then (delete id g, true) else (<[id := r - q]> g, true)
      end
  end.

Lemma accepted id q : id ≠ 0 → 0 < q → refused id q = false.
Proof. intros Hid Hq. unfold refused. by rewrite (proj2 (Z.eqb_neq id 0)), (proj2 (Z.leb_gt q 0)). Qed.

(** The slot behind every slot of the order is free. *)
Definition alone (bits : Z) (l : ReconciliationLedger) (id : Z) : Prop :=
  ∀ s, in_table bits s → id_at (rl_entries l) s = id → id_at (rl_entries l) (rl_next bits s) = 0.

(** The calls the table serves: a free slot, no cancel of the null id, and a fill that
    ends an order only where nothing is probed past it. *)
Definition op_ok (bits : Z) (l : ReconciliationLedger) (g : gmap Z Z) (op : rl_op) : Prop :=
  Z.of_nat (size g) < rl_Capacity bits ∧
  match op with
  | Register _ _ | Replace _ _ => True
  | Cancel id => id ≠ 0
  | Fill id q last => last = true ∨ g !! id = Some q → alone bits l id
  end.

Record ledger_ok (bits : Z) (l : ReconciliationLedger) (g : gmap Z Z) : Prop := mk_ledger_ok {
  lo_rep : rl_rep bits (rl_entries l) g;
  lo_open : rl_open l = Z.of_nat (size g)
}.

Section refinement.
Context (bits : Z) (Hbits : 0 < bits ≤ 31).
Notation Cap := (rl_Capacity bits).

Lemma init_ok : ledger_ok bits ReconciliationLedger_init ∅.
Proof using Type.
  assert (H0 : ∀ s, id_at ∅ s = 0) by (intros s; reflexivity).
  split; [|done]. split.
  - intros s s' _ _ Hn. by rewrite H0 in Hn.
  - intros s _ Hn. by rewrite H0 in Hn.
  - intros id r Hid. rewrite lookup_empty. split; [done|]. intros (s & _ & E).
    injection E as E1 _. by symmetry in E1.
  - done.
Qed.

(** Changing the quantity of a live entry. *)
Lemma rl_update_rep t g id r r' s :
  rl_rep bits t g → in_table bits s → rl_entry t s = (id, r) → id ≠ 0 →
  rl_rep bits (<[s := (id, r')]> t) (<[id := r']> g).
Proof using Hbits.
  intros H Hs E Hid. assert (Hids : ∀ s', id_at (<[s := (id, r')]> t) s' = id_at t s').
  { intros s'. rewrite id_at_insert. case_decide; [subst|done]. unfold id_at. by rewrite E. }
  split.
  - intros a b Ha Hb. rewrite !Hids. by apply (rr_unique _ _ _ H).
  - intros a Ha. unfold reachable_at. rewrite Hids. intros Hn e He. rewrite Hids. by apply (rr_path _ _ _ H a).
  - intros id' x Hid'. destruct (decide (id' = id)) as [->|Hne].
    + rewrite lookup_insert_eq. split.
      * intros [= <-]. exists s. split; [done|]. rewrite entry_insert. by rewrite decide_True.
      * intros (a & Ha & Ea). rewrite entry_insert in Ea. case_decide as Es; [congruence|]. exfalso. apply Es.
        apply (rr_unique _ _ _ H); [done|done|..]; unfold id_at; rewrite ?E, ?Ea; done.
    + rewrite lookup_insert_ne, (rr_map _ _ _ H id' x Hid') by done. split; intros (a & Ha & Ea).
      * exists a. split; [done|]. rewrite entry_insert, decide_False; [done|]. congruence.
      * exists a. split; [done|]. rewrite entry_insert in Ea. case_decide; [|done].
        injection Ea as E1 _. by symmetry in E1.
  - by rewrite lookup_insert_ne, (rr_zero _ _ _ H) by done.
Qed.

Lemma refused_false id q : refused id q = false → id ≠ 0 ∧ 0 < q.
Proof using Type. unfold refused. rewrite orb_false_iff, Z.eqb_neq, Z.leb_gt. done. Qed.

Lemma register_ok l g id q :
  ledger_ok bits l g → op_ok bits l g (Register id q) →
  ∃ l', rl_do bits l (Register id q) = Some (l', snd (spec_do g (Register id q))) ∧
    ledger_ok bits l' (fst (spec_do g (Register id q))).
Proof using Hbits.
  intros [H Ho] (Hsz & _). pose proof (cap_bounds bits Hbits). cbn [rl_do spec_do]. unfold register_order. fold (refused id q).
  destruct (refused id q) eqn:Er; [by exists l|]. apply refused_false in Er as [Hid Hq]. destruct (g !! id) as [r|] eqn:Eg.
  - assert (Hid' := Eg). apply (rr_map _ _ _ H id r Hid) in Hid' as (s & Hs & Es).
    assert (Ei : id_at (rl_entries l) s = id) by (unfold id_at; by rewrite Es).
    rewrite (find_or_empty_spec bits Hbits _ id (dist bits id s)); [|by apply dist_range| |].
    + rewrite (slot_of_dist bits Hbits) by done. rewrite Ei, (proj2 (Z.eqb_neq id 0)) by done. by exists l.
    + left. by rewrite (slot_of_dist bits Hbits).
    + intros e He. rewrite <- Ei. apply (before_entry bits Hbits _ g); rewrite ?Ei; done.
  - destruct (free_exists bits Hbits _ _ H Hsz) as (f & Hf & Hz).
    destruct (least_below (λ e, id_at (rl_entries l) (slot_of bits id e) = 0) 0 (dist bits id f))
      as (d & Hd & Hdz & Hmin); [apply (dist_range bits Hbits)|by rewrite (slot_of_dist bits Hbits)|].
    pose proof (dist_range bits Hbits id f). rewrite (find_or_empty_spec bits Hbits _ id d); [|lia|by right|].
    + rewrite Hdz. cbn [Z.eqb negb]. eexists. split; [reflexivity|]. split; cbn [fst rl_entries rl_open].
      * apply (insert_free_rep bits Hbits); done || lia.
      * rewrite map_size_insert_None, Ho by done. unfold u32. rewrite Z.mod_small; lia.
    + intros e He. split; [|apply Hmin; lia]. intros E.
      assert (g !! id = Some (snd (rl_entry (rl_entries l) (slot_of bits id e)))); [|congruence].
      apply (rr_map _ _ _ H); [done|]. eexists. split; [apply (slot_in bits Hbits id e)|].
      unfold id_at in E. destruct (rl_entry _ _); simpl in *; by subst.
Qed.

Lemma cancel_ok l g id :
  ledger_ok bits l g → op_ok bits l g (Cancel id) →
  ∃ l', rl_do bits l (Cancel id) = Some (l', snd (spec_do g (Cancel id))) ∧
    ledger_ok bits l' (fst (spec_do g (Cancel id))).
Proof using Hbits.
  intros [H Ho] (Hsz & Hid). pose proof (cap_bounds bits Hbits). cbn [rl_do spec_do]. unfold rl_cancel.
  destruct (g !! id) as [r|] eqn:Eg; [|rewrite (find_absent bits Hbits _ g) by done; by exists l].
  destruct (find_present bits Hbits _ g id r H Eg) as (s & -> & Hs & Es).
  destruct (free_exists bits Hbits _ _ H Hsz) as (f & Hf & Hz).
  destruct (clear_moving bits Hbits _ g id r s f H Hs Es Hid Hf Hz) as (L & HL & Hm).
  unfold reinsert_cluster. replace (rl_next bits s) with (rl_next bits (pos bits s 0)) by (by rewrite (pos_0 bits)).
  rewrite (next_pos bits Hbits s). change (0 + 1) with 1.
  destruct (reinsert_moving bits Hbits s (Z.to_nat Cap) _ _ 1 L Hm) as (t' & -> & Ht'); [lia..|].
  cbn [mbind option_bind]. eexists. split; [reflexivity|]. split; cbn [fst rl_entries rl_open]; [done|].
  rewrite map_size_delete, Eg, Ho.
  assert (0 < size g)%nat by (destruct (decide (size g = 0%nat)) as [E0|]; [apply map_size_empty_inv in E0; by subst|lia]).
  unfold u32. rewrite Z.mod_small; lia.
Qed.

Lemma size_insert_present (g : gmap Z Z) id r r' : g !! id = Some r → size (<[id := r']> g) = size g.
Proof using Type. intros E. apply map_size_insert_Some. by eexists. Qed.

Lemma replace_ok l g id q :
  ledger_ok bits l g → op_ok bits l g (Replace id q) →
  ∃ l', rl_do bits l (Replace id q) = Some (l', snd (spec_do g (Replace id q))) ∧ ledger_ok bits l' (fst (spec_do g (Replace id q))).
Proof using Hbits.
  intros [H Ho] _. cbn [rl_do spec_do]. unfold rl_replace. fold (refused id q). destruct (refused id q) eqn:Er; [by exists l|]. apply refused_false in Er as [Hid Hq].
  destruct (g !! id) as [r|] eqn:Eg; [|rewrite (find_absent bits Hbits _ g) by done; by exists l].
  destruct (find_present bits Hbits _ g id r H Eg) as (s & -> & Hs & Es).
  assert (id_at (rl_entries l) s = id) as -> by (unfold id_at; by rewrite Es).
  eexists. split; [reflexivity|]. split; cbn [fst rl_entries rl_open]; [by eapply rl_update_rep|].
  by rewrite (size_insert_present g id r) by done.
Qed.

(** Where nothing is probed past an order, ending it is cancelling it. *)
Lemma end_alone l g id r s :
  ledger_ok bits l g → Z.of_nat (size g) < Cap → id ≠ 0 → g !! id = Some r → alone bits l id →
  in_table bits s → rl_entry (rl_entries l) s = (id, r) → rl_find bits (rl_entries l) id = Some s →
  ledger_ok bits (mkLedger (<[s := (0, 0)]> (rl_entries l)) (u32 (rl_open l - 1)) (rl_mismatches l)) (delete id g).
Proof using Hbits.
  intros Hl Hsz Hid Eg Ha Hs Es Ef. destruct (cancel_ok l g id Hl) as (l' & E & Hl'); [by split|]. cbn [rl_do spec_do] in *. rewrite Eg in *. unfold rl_cancel in E.
  rewrite Ef in E. assert (Hi : id_at (rl_entries l) s = id) by (unfold id_at; by rewrite Es). pose proof (cap_bounds bits Hbits).
  unfold reinsert_cluster in E. destruct (Z.to_nat Cap) as [|k] eqn:Ek; [lia|]. cbn [reinsert_from] in E. rewrite id_at_insert, (Ha s Hs Hi) in E.
  destruct (decide _); cbn [fst Z.eqb mbind option_bind] in E; injection E as E; by rewrite E.
Qed.

Lemma fill_ok l g id q last :
  ledger_ok bits l g → op_ok bits l g (Fill id q last) →
  ∃ l', rl_do bits l (Fill id q last) = Some (l', snd (spec_do g (Fill id q last))) ∧ ledger_ok bits l' (fst (spec_do g (Fill id q last))).
Proof using Hbits.
  intros Hl [Hsz Ha]. pose proof Hl as [H Ho]. cbn [rl_do spec_do]. unfold rl_apply. cbn [rep_order_id filled_quantity terminal]. fold (refused id q).
  destruct (refused id q) eqn:Er; [by exists l|]. apply refused_false in Er as [Hid Hq].
  destruct (g !! id) as [r|] eqn:Eg; [|rewrite (find_absent bits Hbits _ g) by done; by eexists].
  destruct (find_present bits Hbits _ g id r H Eg) as (s & Ef & Hs & Es). rewrite Ef, Es.
  destruct (Z.ltb_spec r q); [by eexists|]. replace (r - q =? 0) with (r =? q) by (apply eq_true_iff_eq; rewrite !Z.eqb_eq; lia).
  destruct (last || (r =? q)) eqn:Eend; eexists; (split; [reflexivity|]); cbn [fst].
  - apply (end_alone l g id r s); try done. apply Ha. apply orb_true_iff in Eend as [->| ->%Z.eqb_eq]; [by left|by right].
  - split; cbn [rl_entries rl_open]; [by eapply rl_update_rep|]. by rewrite (size_insert_present g id r) by done.
Qed.

Lemma contains_ok l g id : ledger_ok bits l g → rl_contains bits l id = bool_decide (is_Some (g !! id)).
Proof using Hbits.
  intros [H _]. unfold rl_contains. destruct (Z.eqb_spec id 0) as [->|Hid]; [by rewrite (rr_zero _ _ _ H)|].
  cbn [negb andb]. destruct (g !! id) as [r|] eqn:Eg.
  - destruct (find_present bits Hbits _ g id r H Eg) as (s & -> & _). done.
  - by rewrite (find_absent bits Hbits _ g).
Qed.
End refinement.

(** C26 (refinement): the ledger is a map from order id to remaining quantity.
    While the table has a free slot, [register_order], [replace], [apply] and [cancel]
    each return what the map operation returns, refusals of null ids, of quantities that
    are not positive, of unknown orders and of too large fills included, and leave the
    table representing the map's new contents: every live order stays reachable from its
    hash, also after [cancel] has moved the rest of a probe cluster, and [open_orders] is
    the number of live orders.  Two kinds of calls are excluded, because the code does
    not serve them: cancelling the null id ([cancel_zero_wraps_open_count]), and a report
    that ends an order while the slot behind it is in use, which can strand another order
    ([fill_strands_collided_order]). *)
Theorem ledger_refines_map bits l g op :
  0 < bits ≤ 31 → ledger_ok bits l g → op_ok bits l g op →
  ∃ l', rl_do bits l op = Some (l', snd (spec_do g op)) ∧ ledger_ok bits l' (fst (spec_do g op)) ∧
    open_orders l' = Z.of_nat (size (fst (spec_do g op))) ∧
    ∀ id, rl_contains bits l' id = bool_decide (is_Some (fst (spec_do g op) !! id)).
Proof.
  intros Hbits Hl Hop. assert (Hmain : ∃ l', rl_do bits l op = Some (l', snd (spec_do g op)) ∧
    ledger_ok bits l' (fst (spec_do g op))).
  { destruct op; [by apply register_ok|by apply replace_ok|by apply cancel_ok|by apply fill_ok]. }
  destruct Hmain as (l' & E & Hl'). exists l'. split; [done|]. split; [done|]. split; [apply (lo_open _ _ _ Hl')|].
  intros id. by apply contains_ok.
Qed.

Definition ledger_demo : ReconciliationLedger := fst (register_order 4 ReconciliationLedger_init 101 50).

Lemma ledger_refines_map_witness :
  ∃ l', rl_do 4 ReconciliationLedger_init (Register 101 50) = Some (l', true) ∧
    ledger_ok 4 l' {[101 := 50]} ∧ open_orders l' = 1 ∧
    ∀ id, rl_contains 4 l' id = bool_decide (is_Some ((<[101 := 50]> ∅ : gmap Z Z) !! id)).
Proof.
  refine (ledger_refines_map 4 ReconciliationLedger_init ∅ (Register 101 50) _ (init_ok 4) _); [lia|].
  split; [rewrite map_size_empty; unfold rl_Capacity; lia|exact I].
Defined.

(** ** Where the ledger loses orders *)

(** Filling an order can strand another.  When two orders with the
    same hash are live, completely filling the first leaves a hole in the second
    one's probe path: the second is still counted as open, but it is no longer
    found, and its next fill is booked as a mismatch. *)
Theorem fill_strands_collided_order bits a b qa qb q :
  0 < bits ≤ 31 → a ≠ 0 → b ≠ 0 → a ≠ b → 0 < qa → 0 < qb → 0 < q → rl_hash bits a = rl_hash bits b →
  let l := fst (register_order bits (fst (register_order bits ReconciliationLedger_init a qa)) b qb) in
  let l' := fst (rl_apply bits l (mkReport a qa false)) in
  rl_contains bits l b = true ∧ open_orders l = 2 ∧
  open_orders l' = 1 ∧ rl_contains bits l' b = false ∧
  mismatches (fst (rl_apply bits l' (mkReport b q false))) = mismatches l' + 1.
Proof.
  intros Hbits Ha Hb Hab Hqa Hqb Hq Hh. cbv zeta. pose proof (cap_bounds bits Hbits) as Hcap.
  set (h := rl_hash bits a). assert (Hin : in_table bits h) by (by apply hash_in).
  set (n := rl_next bits h). assert (Hne : h ≠ n).
  { unfold n, rl_next. rewrite (land_cap bits Hbits). unfold in_table in Hin. intros E.
    destruct (decide (h + 1 = rl_Capacity bits)) as [E1|]; [rewrite E1, Z.mod_same in E; lia|].
    rewrite Z.mod_small in E; lia. }
  destruct (Z.to_nat (rl_Capacity bits)) as [|[|k]] eqn:Ek; [lia|lia|].
  assert (Hg : ∀ t, rl_find bits t a = find_from bits (S (S k)) t a h ∧ rl_find bits t b = find_from bits (S (S k)) t b h ∧
    find_or_empty bits t a = find_or_empty_from bits (S (S k)) t a h ∧
    find_or_empty bits t b = find_or_empty_from bits (S (S k)) t b h)
    by (intros t; unfold rl_find, find_or_empty; rewrite Ek, <- Hh; done).
  assert (E1 : register_order bits ReconciliationLedger_init a qa = (mkLedger (<[h := (a, qa)]> ∅) 1 0, true)).
  { unfold register_order. rewrite (proj2 (Z.eqb_neq a 0)), (proj2 (Z.leb_gt qa 0)) by lia. cbn [orb].
    rewrite (proj1 (proj2 (proj2 (Hg _)))). cbn [find_or_empty_from]. change (id_at _ h) with 0. rewrite orb_true_r. done. }
  rewrite E1. cbn [fst]. set (t1 := <[h := (a, qa)]> ∅).
  assert (I1 : id_at t1 h = a) by (unfold t1; rewrite id_at_insert; by rewrite decide_True).
  assert (I2 : id_at t1 n = 0) by (unfold t1; rewrite id_at_insert; by rewrite decide_False).
  assert (E2 : register_order bits (mkLedger t1 1 0) b qb = (mkLedger (<[n := (b, qb)]> t1) 2 0, true)).
  { unfold register_order. cbn [rl_entries]. rewrite (proj2 (Z.eqb_neq b 0)), (proj2 (Z.leb_gt qb 0)) by lia. cbn [orb].
    rewrite (proj2 (proj2 (proj2 (Hg _)))). cbn [find_or_empty_from].
    rewrite I1, !(proj2 (Z.eqb_neq a _)) by done. cbn [orb]. fold n. rewrite I2, orb_true_r. by rewrite I2. }
  rewrite E2. cbn [fst]. set (t2 := <[n := (b, qb)]> t1).
  assert (J1 : rl_entry t2 h = (a, qa)) by (unfold t2, t1; rewrite !entry_insert; by rewrite decide_False, decide_True).
  assert (J2 : id_at t2 n = b) by (unfold t2; rewrite id_at_insert; by rewrite decide_True).
  assert (J1' : id_at t2 h = a) by (unfold id_at; by rewrite J1).
  assert (E3 : rl_apply bits (mkLedger t2 2 0) (mkReport a qa false) = (mkLedger (<[h := (0, 0)]> t2) 1 0, true)).
  { unfold rl_apply. cbn [rep_order_id filled_quantity terminal rl_entries rl_open rl_mismatches].
    rewrite (proj2 (Z.eqb_neq a 0)), (proj2 (Z.leb_gt qa 0)) by lia. cbn [orb].
    rewrite (proj1 (Hg _)). cbn [find_from]. rewrite J1', Z.eqb_refl, J1.
    rewrite Z.ltb_irrefl, Z.sub_diag. done. }
  rewrite E3. cbn [fst]. set (t3 := <[h := (0, 0)]> t2).
  assert (K1 : id_at t3 h = 0) by (unfold t3; rewrite id_at_insert; by rewrite decide_True).
  assert (Hlost : rl_find bits t3 b = None).
  { rewrite (proj1 (proj2 (Hg _))). cbn [find_from]. rewrite K1, (proj2 (Z.eqb_neq 0 b)) by done. done. }
  split_and!; try done.
  - unfold rl_contains. cbn [rl_entries]. rewrite (proj2 (Z.eqb_neq b 0)) by done. rewrite (proj1 (proj2 (Hg _))).
    cbn [find_from]. rewrite J1', !(proj2 (Z.eqb_neq a _)) by done. fold n. by rewrite J2, Z.eqb_refl.
  - unfold rl_contains. cbn [rl_entries]. rewrite Hlost. by rewrite andb_false_r.
  - unfold rl_apply. cbn [rep_order_id filled_quantity rl_entries rl_open rl_mismatches].
    rewrite (proj2 (Z.eqb_neq b 0)), (proj2 (Z.leb_gt q 0)), Hlost by lia. done.
Qed.

(** Orders 196 and 312 collide in the table the gateway uses (2^16 slots). *)
Lemma fill_strands_collided_order_witness :
  let l := fst (register_order 16 (fst (register_order 16 ReconciliationLedger_init 196 100)) 312 100) in
  let l' := fst (rl_apply 16 l (mkReport 196 100 false)) in
  rl_contains 16 l 312 = true ∧ open_orders l = 2 ∧
  open_orders l' = 1 ∧ rl_contains 16 l' 312 = false ∧
  mismatches (fst (rl_apply 16 l' (mkReport 312 10 false))) = mismatches l' + 1.
Proof. refine (fill_strands_collided_order 16 196 312 100 100 10 _ _ _ _ _ _ _ _); reflexivity || lia. Defined.

(** Cancelling order 0 succeeds.  [cancel] does not reject the null
    order id; it matches an empty slot, so on an empty ledger the call returns true
    and the count of open orders wraps around to 2^32 - 1. *)
Theorem cancel_zero_wraps_open_count bits :
  0 < bits ≤ 31 →
  ∃ l', rl_cancel bits ReconciliationLedger_init 0 = Some (l', true) ∧ open_orders l' = 2 ^ 32 - 1.
Proof.
  intros Hbits. pose proof (cap_bounds bits Hbits). unfold rl_cancel, rl_find.
  destruct (Z.to_nat (rl_Capacity bits)) as [|k] eqn:Ek; [lia|]. cbn [find_from].
  change (id_at (rl_entries ReconciliationLedger_init) _) with 0. cbn [Z.eqb].
  unfold reinsert_cluster. rewrite Ek. cbn [reinsert_from]. rewrite id_at_insert.
  destruct (decide _); cbn [fst Z.eqb mbind option_bind]; eexists; split; reflexivity.
Qed.

Lemma cancel_zero_wraps_open_count_witness :
  ∃ l', rl_cancel 16 ReconciliationLedger_init 0 = Some (l', true) ∧ open_orders l' = 2 ^ 32 - 1.
Proof. apply cancel_zero_wraps_open_count. lia. Defined.
