(* ===== verification/AuditLog.v ===== *)
(** * AuditLog: the hash-chained audit log (src/luv_safety.hpp, DurableAuditLog)

    The file is a list of bytes and a record is the 112 bytes of the C++ struct:
    sequence, timestamp, order id, price and quantity (8 bytes each, little
    endian), trader id (2), side, type, the previous hash (bytes 44-75), the
    record's own hash (76-107) and 4 bytes of padding.  SHA-256 is a library call
    and a parameter; the results of the system calls are inputs. *)

From S2P Require Import Prelude.
From Stdlib Require Import ZArith Lia.
From stdpp Require Import base tactics gmap numbers option list.
Open Scope Z_scope.

(** ** struct AuditEvent *)

Definition kAuditEventSize : Z := 112.

Record AuditEvent := mkAudit {
  ae_sequence : Z;
  ae_timestamp_ns : Z;
  ae_order_id : Z;
  ae_price : Z;
  ae_quantity : Z;
  ae_trader_id : Z;
  ae_side : Z;
  ae_type : Z;
  ae_previous_hash : list Z;
  ae_hash : list Z
}.

(** The fields before the hashes, 44 bytes, and the whole record in memory. *)
Definition event_fields (e : AuditEvent) : list Z :=
  enc_le 8 (ae_sequence e) ++ enc_le 8 (ae_timestamp_ns e) ++ enc_le 8 (ae_order_id e) ++
  enc_le 8 (u64 (ae_price e)) ++ enc_le 8 (u64 (ae_quantity e)) ++ enc_le 2 (ae_trader_id e) ++
  enc_le 1 (ae_side e) ++ enc_le 1 (ae_type e).

Definition event_bytes (e : AuditEvent) : list Z :=
  event_fields e ++ ae_previous_hash e ++ ae_hash e ++ replicate 4 0.

(** Members of a record read back into memory. *)
Definition rec_sequence (r : list Z) : Z := le_val (take 8 r).
Definition rec_timestamp_ns (r : list Z) : Z := le_val (take 8 (drop 8 r)).
Definition rec_previous_hash (r : list Z) : list Z := take 32 (drop 44 r).
Definition rec_hash (r : list Z) : list Z := take 32 (drop 76 r).

Definition zero_hash : list Z := replicate 32 0.

(** ** System calls *)

Inductive write_result := Wrote (n : nat) | Interrupted | WriteError.

(** [write_all]: the file afterwards and the result; [None] when the given
    outcomes of [write] do not reach an end. *)
Fixpoint write_all (file data : list Z) (results : list write_result) : option (list Z * bool) :=
  match data with
  | [] => Some (file, true)
  | _ =>
      match results with
      | [] => None
      | Interrupted :: rs => write_all file data rs
      | WriteError :: _ => Some (file, false)
      | Wrote n :: rs =>
          if (n =? 0)%nat then Some (file, false)
          else write_all (file ++ take n data) (drop n data) rs
      end
  end.

Record DurableAuditLog := mkLog {
  al_is_open : bool;
  al_sync_interval : Z;
  al_pending : Z;
  al_sequence : Z;
  al_tail : list Z;
  al_file : list Z
}.

Definition DurableAuditLog_closed (file : list Z) : DurableAuditLog := mkLog false 100 0 0 zero_hash file.

Section audit.
Context (sha256 : list Z → list Z).

(** ** Hashing: the previous hash, then the 48 bytes that start at [sequence] *)

Definition hash_input (r : list Z) : list Z := rec_previous_hash r ++ take 48 r.
Definition valid_event (r : list Z) : bool := bool_decide (sha256 (hash_input r) = rec_hash r).

Definition seal_event (e : AuditEvent) : AuditEvent :=
  mkAudit (ae_sequence e) (ae_timestamp_ns e) (ae_order_id e) (ae_price e) (ae_quantity e) (ae_trader_id e)
    (ae_side e) (ae_type e) (ae_previous_hash e)
    (sha256 (ae_previous_hash e ++ take 48 (event_bytes e))).

(** The loop of [validate_existing_records] and of [verify_log_integrity]: how
    many records were accepted and, when all [n] were, the last hash. *)
Fixpoint check_chain (n : nat) (file : list Z) (sequence : Z) (previous : list Z) : Z * option (list Z) :=
  match n with
  | O => (sequence, Some previous)
  | S n' =>
      match slice file 0 kAuditEventSize with
      | None => (sequence, None)
      | Some r =>
          if negb (rec_sequence r =? sequence) || negb (bool_decide (rec_previous_hash r = previous)) ||
             negb (valid_event r) then (sequence, None)
          else check_chain n' (drop 112 file) (u64 (sequence + 1)) (rec_hash r)
      end
  end.

Definition record_count (file : list Z) : Z := Z.of_nat (length file) / kAuditEventSize.

Definition whole_records (file : list Z) : bool := Z.of_nat (length file) mod kAuditEventSize =? 0.

Definition validate_existing_records (file : list Z) : Z * option (list Z) :=
  check_chain (Z.to_nat (record_count file)) file 0 zero_hash.

(** [verify_log_integrity] on an existing file: the number of valid events and,
    when it returns true, the root hash. *)
Definition verify_log_integrity (file : list Z) : Z * option (list Z) :=
  if whole_records file then validate_existing_records file else (0, None).

Definition audit_flush (l : DurableAuditLog) (fsync_ok : bool) : DurableAuditLog * bool :=
  if negb (al_is_open l) then (l, false)
  else if negb fsync_ok then (l, false)
  else (mkLog true (al_sync_interval l) 0 (al_sequence l) (al_tail l) (al_file l), true).

Definition audit_close (l : DurableAuditLog) (fsync_ok : bool) : DurableAuditLog :=
  if negb (al_is_open l) then l
  else let l := fst (audit_flush l fsync_ok) in
       mkLog false (al_sync_interval l) (al_pending l) (al_sequence l) (al_tail l) (al_file l).

(** [open] of a closed log; the two flags are whether [open] and [fstat] succeed. *)
Definition audit_open (l : DurableAuditLog) (open_ok fstat_ok : bool) (sync_interval : Z) : DurableAuditLog * bool :=
  if al_is_open l || (sync_interval =? 0) then (l, false) else
  if negb open_ok then (l, false) else
  if negb fstat_ok || negb (whole_records (al_file l))
  then (mkLog false sync_interval 0 (al_sequence l) zero_hash (al_file l), false)
  else match validate_existing_records (al_file l) with
       | (n, None) => (mkLog false sync_interval 0 n zero_hash (al_file l), false)
       | (n, Some tail) => (mkLog true sync_interval 0 n tail (al_file l), true)
       end.

Definition audit_append (l : DurableAuditLog) (timestamp_ns order_id price quantity trader_id side type : Z)
    (writes : list write_result) (fsync_ok : bool) : option (DurableAuditLog * bool) :=
  if negb (al_is_open l) || (order_id =? 0) || (quantity <=? 0) || (1 <? side) then Some (l, false) else
  let e := seal_event (mkAudit (al_sequence l) timestamp_ns order_id price quantity trader_id side type
                         (al_tail l) zero_hash) in
  '(file, ok) ← write_all (al_file l) (event_bytes e) writes;
  if negb (ok : bool) then
    Some (mkLog true (al_sync_interval l) (al_pending l) (al_sequence l) (al_tail l) file, false)
  else
    let pending := u32 (al_pending l + 1) in
    let l := mkLog true (al_sync_interval l) pending (u64 (al_sequence l + 1)) (ae_hash e) file in
    if pending <? al_sync_interval l then Some (l, true) else Some (audit_flush l fsync_ok).

(** [read_range]: the records read, [None] when the arguments are refused. *)
Fixpoint read_records (n : nat) (file : list Z) (offset : Z) : list (list Z) :=
  match n with
  | O => []
  | S n' => match slice file offset kAuditEventSize with
            | Some r => r :: read_records n' file (offset + kAuditEventSize)
            | None => []
            end
  end.

Definition read_range (l : DurableAuditLog) (start_seq end_seq max_events : Z) : option (list (list Z)) :=
  if negb (al_is_open l) || (max_events =? 0) || (end_seq <? start_seq) then None else
  let req := u64 (end_seq - start_seq + 1) in
  let rs := read_records (Z.to_nat (if req <? max_events then req else max_events)) (al_file l)
              (i64 (start_seq * kAuditEventSize)) in
  if (length rs =? 0)%nat then None else Some rs.

(** ** struct AuditManifestCheckpoint *)

Definition kManifestMagic : Z := 0x4D4E4653.

Record AuditManifestCheckpoint := mkCheckpoint {
  mc_magic : Z;
  mc_version : Z;
  mc_start_sequence : Z;
  mc_end_sequence : Z;
  mc_start_timestamp_ns : Z;
  mc_end_timestamp_ns : Z;
  mc_event_count : Z;
  mc_start_hash : list Z;
  mc_end_hash : list Z;
  mc_manifest_hash : list Z
}.

(** The bytes before [manifest_hash]. *)
Definition checkpoint_body (c : AuditManifestCheckpoint) : list Z :=
  enc_le 4 (mc_magic c) ++ enc_le 4 (mc_version c) ++ enc_le 8 (mc_start_sequence c) ++
  enc_le 8 (mc_end_sequence c) ++ enc_le 8 (mc_start_timestamp_ns c) ++ enc_le 8 (mc_end_timestamp_ns c) ++
  enc_le 8 (mc_event_count c) ++ mc_start_hash c ++ mc_end_hash c.

(** The checkpoint [write_manifest_checkpoint] appends to the manifest file. *)
Definition make_checkpoint (l : DurableAuditLog) (start_seq end_seq : Z) : option AuditManifestCheckpoint :=
  if negb (al_is_open l) || (end_seq <? start_seq) || (al_sequence l <=? end_seq) then None else
  first ← slice (al_file l) (start_seq * kAuditEventSize) kAuditEventSize;
  last ← slice (al_file l) (end_seq * kAuditEventSize) kAuditEventSize;
  let c := mkCheckpoint kManifestMagic 1 start_seq end_seq (rec_timestamp_ns first) (rec_timestamp_ns last)
             (u64 (end_seq - start_seq + 1)) (rec_previous_hash first) (rec_hash last) zero_hash in
  Some (mkCheckpoint (mc_magic c) (mc_version c) (mc_start_sequence c) (mc_end_sequence c)
          (mc_start_timestamp_ns c) (mc_end_timestamp_ns c) (mc_event_count c) (mc_start_hash c) (mc_end_hash c)
          (sha256 (checkpoint_body c))).

(** The loop of [verify_manifest] over [n] records from the current position: the
    last hash, when every record links to the one before it. *)
Fixpoint check_links (n : nat) (file : list Z) (previous : list Z) : option (list Z) :=
  match n with
  | O => Some previous
  | S n' =>
      r ← slice file 0 kAuditEventSize;
      if negb (bool_decide (rec_previous_hash r = previous)) || negb (valid_event r) then None
      else check_links n' (drop 112 file) (rec_hash r)
  end.

Definition verify_manifest (file : list Z) (c : AuditManifestCheckpoint) : bool :=
  if negb (mc_magic c =? kManifestMagic) || negb (mc_version c =? 1) then false else
  if negb (bool_decide (sha256 (checkpoint_body c) = mc_manifest_hash c)) then false else
  if record_count file <=? mc_end_sequence c then false else
  if i64 (mc_start_sequence c * kAuditEventSize) <? 0 then false else
  if mc_end_sequence c <? mc_start_sequence c then bool_decide (zero_hash = mc_end_hash c) else
  match check_links (Z.to_nat (mc_end_sequence c - mc_start_sequence c + 1))
          (drop (Z.to_nat (mc_start_sequence c * kAuditEventSize)) file) (mc_start_hash c) with
  | None => false
  | Some h => bool_decide (h = mc_end_hash c)
  end.
End audit.

(** ** Records and files *)

Lemma event_fields_length e : length (event_fields e) = 44%nat.
Proof. unfold event_fields. by rewrite !length_app, !enc_le_length. Qed.

Record event_ok (e : AuditEvent) : Prop := mk_event_ok {
  eo_prev : length (ae_previous_hash e) = 32%nat;
  eo_hash : length (ae_hash e) = 32%nat;
  eo_sequence : 0 ≤ ae_sequence e < 2 ^ 64
}.

Lemma event_bytes_length e : event_ok e → length (event_bytes e) = 112%nat.
Proof.
  intros [H1 H2 _]. unfold event_bytes. rewrite !length_app, event_fields_length, H1, H2. done.
Qed.

Lemma rec_of_event e :
  event_ok e → rec_sequence (event_bytes e) = ae_sequence e ∧
    rec_previous_hash (event_bytes e) = ae_previous_hash e ∧ rec_hash (event_bytes e) = ae_hash e.
Proof.
  intros [H1 H2 H3]. unfold rec_sequence, rec_previous_hash, rec_hash, event_bytes. split_and!.
  - unfold event_fields. rewrite <- !app_assoc, take_app_length' by (by rewrite enc_le_length).
    rewrite le_val_enc. apply Z.mod_small. exact H3.
  - rewrite drop_app_length' by (by rewrite event_fields_length). by rewrite take_app_length'.
  - rewrite app_assoc, drop_app_length' by (by rewrite length_app, event_fields_length, H1). by rewrite take_app_length'.
Qed.

(** What the hash of a record covers determines every field and the previous
    hash: the 44 bytes of fields are inside the 48 that are hashed. *)
Definition covered (r : list Z) : list Z := take 76 r.

Lemma hash_input_covers r r' :
  length r = 112%nat → length r' = 112%nat → hash_input r = hash_input r' → covered r = covered r'.
Proof.
  intros Hr Hr' E. unfold hash_input in E.
  apply app_inj_1 in E as [E1 E2]; [|unfold rec_previous_hash; rewrite !length_take, !length_drop; lia].
  unfold covered. rewrite <- (take_drop 44 r), <- (take_drop 44 r').
  rewrite !take_app, !length_take, Hr, Hr'. cbn [Nat.min Nat.sub]. f_equal; [|exact E1].
  apply (f_equal (take 44)) in E2. rewrite !take_take in E2. cbn [Nat.min] in E2.
  by rewrite !take_take.
Qed.

Section chain.
Context (sha256 : list Z → list Z).

(** A list of raw records that links up from [sequence] and [previous]. *)
Fixpoint chained (rs : list (list Z)) (sequence : Z) (previous : list Z) : Prop :=
  match rs with
  | [] => True
  | r :: rs' => length r = 112%nat ∧ rec_sequence r = sequence ∧ rec_previous_hash r = previous ∧
                sha256 (hash_input r) = rec_hash r ∧ chained rs' (u64 (sequence + 1)) (rec_hash r)
  end.

Definition last_hash (rs : list (list Z)) (previous : list Z) : list Z :=
  match last rs with Some r => rec_hash r | None => previous end.

Lemma last_hash_cons r rs p : last_hash (r :: rs) p = last_hash rs (rec_hash r).
Proof using Type. unfold last_hash. destruct rs as [|r' rs]; [done|]. rewrite last_cons_cons. by destruct (last (r' :: rs)) eqn:E; [|apply last_None in E]. Qed.

Lemma slice_record (r rest : list Z) : length r = 112%nat → slice (r ++ rest) 0 kAuditEventSize = Some r.
Proof using Type.
  intros H. unfold slice, kAuditEventSize. rewrite length_app, H, (proj2 (Z.leb_le (0 + 112) _)) by lia.
  cbn [Z.leb Z.compare andb]. f_equal. change (drop (Z.to_nat 0) (r ++ rest)) with (r ++ rest).
  by rewrite take_app_length'.
Qed.

(** The checker accepts exactly the chained files. *)
Lemma check_chain_accepts rs rest seq prev :
  chained rs seq prev → Z.of_nat (length rs) < 2 ^ 64 - seq → 0 ≤ seq →
  check_chain sha256 (length rs) (concat rs ++ rest) seq prev =
    (seq + Z.of_nat (length rs), Some (last_hash rs prev)).
Proof using Type.
  revert seq prev. induction rs as [|r rs IH]; intros seq prev Hc Hn H0; cbn [check_chain length].
  { simpl. f_equal. lia. }
  destruct Hc as (Hl & Hs & Hp & Hh & Hc). cbn [concat]. rewrite <- app_assoc, (slice_record r) by done.
  rewrite Hs, Z.eqb_refl, Hp, bool_decide_true by done. unfold valid_event. rewrite bool_decide_true by done.
  cbn [negb orb]. rewrite drop_app_length' by done.
  assert (Hu : u64 (seq + 1) = seq + 1) by (apply Z.mod_small; simpl in Hn; lia).
  rewrite Hu in *. rewrite (IH (seq + 1)); [|done|simpl in Hn; lia|lia]. rewrite last_hash_cons.
  f_equal. simpl. lia.
Qed.

Lemma check_chain_sound n file seq prev m h :
  check_chain sha256 n file seq prev = (m, Some h) →
  ∃ rs rest, file = concat rs ++ rest ∧ length rs = n ∧ chained rs seq prev ∧ h = last_hash rs prev.
Proof using Type.
  revert file seq prev. induction n as [|n IH]; intros file seq prev; cbn [check_chain].
  { intros [= <- <-]. exists [], file. done. }
  destruct (slice file 0 kAuditEventSize) as [r|] eqn:Er; [|done].
  unfold slice, kAuditEventSize in Er. cbn [Z.leb Z.compare andb] in Er.
  destruct (Z.leb_spec (0 + 112) (Z.of_nat (length file))) as [Hle|]; [|done]. injection Er as Er.
  change (drop (Z.to_nat 0) file) with file in Er. change (Z.to_nat 112) with 112%nat in Er.
  destruct (Z.eqb_spec (rec_sequence r) seq) as [Es|]; [|done].
  destruct (bool_decide_reflect (rec_previous_hash r = prev)) as [Ep|]; [|done]. unfold valid_event.
  destruct (bool_decide_reflect (sha256 (hash_input r) = rec_hash r)) as [Eh|]; [|done]. cbn [negb orb].
  intros (rs & rest & Ef & Hl & Hc & Hh)%IH. exists (r :: rs), rest. cbn [concat length chained].
  split_and!; try done; [|by rewrite Hl| |by rewrite last_hash_cons].
  - rewrite <- app_assoc, <- Ef, <- Er. by rewrite take_drop.
  - rewrite <- Er, length_take. lia.
Qed.
End chain.

(** ** Appending *)

Lemma write_all_ok file data rs f : write_all file data rs = Some (f, true) → f = file ++ data.
Proof.
  revert file data. induction rs as [|w rs IH]; intros file data; (destruct data as [|b data]; cbn [write_all];
    [intros [= <-]; by rewrite app_nil_r|]); [done|].
  destruct w as [n| |]; [|apply IH|done]. destruct (n =? 0)%nat; [done|]. intros ->%IH.
  by rewrite <- app_assoc, take_drop.
Qed.

(** A write that fails leaves a proper prefix of the record behind. *)
Lemma write_all_torn file data rs f :
  write_all file data rs = Some (f, false) → ∃ k, (k < length data)%nat ∧ f = file ++ take k data.
Proof.
  revert file data. induction rs as [|w rs IH]; intros file data; (destruct data as [|b data]; cbn [write_all]; [done|]); [done|].
  destruct w as [n| |]; [|apply IH|].
  - destruct (Nat.eqb_spec n 0); [intros [= <-]; exists 0%nat; simpl; rewrite app_nil_r; split; [lia|done]|].
    intros (k & Hk & ->)%IH. exists (n + k)%nat. rewrite length_drop in Hk. split; [lia|].
    by rewrite <- app_assoc, <- take_take_drop.
  - intros [= <-]. exists 0%nat. simpl. rewrite app_nil_r. split; [lia|done].
Qed.

Section log.
Context (sha256 : list Z → list Z) (Hsha : ∀ x, length (sha256 x) = 32%nat).

Record log_ok (l : DurableAuditLog) (rs : list (list Z)) : Prop := mk_log_ok {
  lg_open : al_is_open l = true;
  lg_file : al_file l = concat rs;
  lg_chain : chained sha256 rs 0 zero_hash;
  lg_sequence : al_sequence l = Z.of_nat (length rs);
  lg_tail : al_tail l = last_hash rs zero_hash;
  lg_tail_len : length (al_tail l) = 32%nat
}.

Lemma chained_snoc rs r s p :
  chained sha256 (rs ++ [r]) s p →
  chained sha256 rs s p ∧ length r = 112%nat ∧ rec_previous_hash r = last_hash rs p ∧
  sha256 (hash_input r) = rec_hash r.
Proof using Type.
  revert s p. induction rs as [|r0 rs IH]; intros s p H; cbn [app chained] in H.
  - destruct H as (A & B & C & D & _). split_and!; done.
  - destruct H as (A & B & C & D & E). destruct (IH _ _ E) as (I1 & I2 & I3 & I4).
    split_and!; try done. by rewrite last_hash_cons.
Qed.

Lemma chained_extend rs r s p :
  chained sha256 rs s p → length r = 112%nat → rec_sequence r = s + Z.of_nat (length rs) →
  rec_previous_hash r = last_hash rs p → sha256 (hash_input r) = rec_hash r →
  0 ≤ s → s + Z.of_nat (length rs) < 2 ^ 64 → chained sha256 (rs ++ [r]) s p.
Proof using Type.
  revert s p. induction rs as [|r0 rs IH]; intros s p Hc Hl Hs Hp Hh H0 Hn; cbn [app chained].
  - rewrite Z.add_0_r in Hs. done.
  - destruct Hc as (A & B & C & D & E). split_and!; try done.
    assert (Hu : u64 (s + 1) = s + 1) by (apply Z.mod_small; cbn [length] in Hn; lia). rewrite Hu in *.
    rewrite last_hash_cons in Hp. apply IH; try done; cbn [length] in *; lia.
Qed.

Lemma seal_event_ok e : length (ae_previous_hash e) = 32%nat → 0 ≤ ae_sequence e < 2 ^ 64 → event_ok (seal_event sha256 e).
Proof using Hsha. intros H1 H2. split; simpl; auto. Qed.

(** The hash a record is sealed with does not depend on its hash field. *)
Lemma sealed_valid e :
  length (ae_previous_hash e) = 32%nat → 0 ≤ ae_sequence e < 2 ^ 64 →
  sha256 (hash_input (event_bytes (seal_event sha256 e))) = rec_hash (event_bytes (seal_event sha256 e)).
Proof using Hsha.
  intros H1 H2. pose proof (seal_event_ok e H1 H2) as Hok. destruct (rec_of_event _ Hok) as (_ & E2 & ->).
  unfold hash_input. rewrite E2. cbn [ae_previous_hash ae_hash seal_event]. f_equal. f_equal.
  unfold event_bytes, seal_event, event_fields. cbn [ae_sequence ae_timestamp_ns ae_order_id ae_price ae_quantity
    ae_trader_id ae_side ae_type ae_previous_hash ae_hash].
  set (fs := enc_le 8 (ae_sequence e) ++ _). rewrite !(app_assoc fs).
  assert (Hl : (48 ≤ length (fs ++ ae_previous_hash e))%nat).
  { rewrite length_app, H1. unfold fs. rewrite !length_app, !enc_le_length. lia. }
  do 2 rewrite (take_app_le (fs ++ ae_previous_hash e)) by exact Hl. done.
Qed.

Lemma append_ok l rs ts id p q tr sd ty ws fsync file :
  log_ok l rs → id ≠ 0 → 0 < q → 0 ≤ sd ≤ 1 → Z.of_nat (length rs) < 2 ^ 64 - 1 →
  let e := seal_event sha256 (mkAudit (al_sequence l) ts id p q tr sd ty (al_tail l) zero_hash) in
  write_all (al_file l) (event_bytes e) ws = Some (file, true) →
  ∃ l' ok, audit_append sha256 l ts id p q tr sd ty ws fsync = Some (l', ok) ∧
    log_ok l' (rs ++ [event_bytes e]).
Proof using Hsha.
  intros [H1 H2 H3 H4 H5 H6] Hid Hq Hsd Hn. cbv zeta. set (e := seal_event _ _). intros Hw.
  assert (Hok : event_ok e) by (apply seal_event_ok; simpl; [done|rewrite H4; lia]).
  destruct (rec_of_event e Hok) as (E1 & E2 & E3).
  unfold audit_append. rewrite H1, (proj2 (Z.eqb_neq id 0)), (proj2 (Z.leb_gt q 0)), (proj2 (Z.ltb_ge 1 sd)) by lia.
  cbn [negb orb]. fold e. rewrite Hw. cbn [mbind option_bind negb].
  assert (Hlog : ∀ pend, log_ok (mkLog true (al_sync_interval l) pend (u64 (al_sequence l + 1)) (ae_hash e) file)
    (rs ++ [event_bytes e])).
  { intros pend. split; cbn [al_is_open al_file al_sequence al_tail]; try done.
    - rewrite (write_all_ok _ _ _ _ Hw), H2, concat_app. simpl. by rewrite app_nil_r.
    - apply chained_extend; try done; rewrite ?E1, ?E2; try done; try lia.
      + by apply event_bytes_length.
      + apply sealed_valid; simpl; [done|rewrite H4; lia].
    - rewrite H4, length_app. simpl. unfold u64. rewrite Z.mod_small; lia.
    - unfold last_hash. by rewrite last_snoc.
    - apply Hok. }
  case_cond; [by eexists _, _|]. unfold audit_flush. cbn [al_is_open negb].
  destruct fsync; cbn [negb]; eexists _, _; (split; [reflexivity|apply Hlog]).
Qed.

Lemma whole_file rs : Forall (λ r, length r = 112%nat) rs →
  whole_records (concat rs) = true ∧ record_count (concat rs) = Z.of_nat (length rs).
Proof using Type.
  intros H. assert (Hl : Z.of_nat (length (concat rs)) = Z.of_nat (length rs) * 112).
  { induction H as [|r rs Hr _ IH]; [done|]. cbn [concat length]. rewrite length_app, Hr. lia. }
  unfold whole_records, record_count, kAuditEventSize. rewrite Hl. split.
  - by rewrite Z_mod_mult.
  - by rewrite Z_div_mult by lia.
Qed.

Lemma chained_lengths rs s p : chained sha256 rs s p → Forall (λ r, length r = 112%nat) rs.
Proof using Type. revert s p. induction rs as [|r rs IH]; intros s p H; constructor; [apply H|]. destruct H as (_ & _ & _ & _ & H). by eapply IH. Qed.

Lemma verify_chained rs :
  chained sha256 rs 0 zero_hash → Z.of_nat (length rs) < 2 ^ 64 →
  verify_log_integrity sha256 (concat rs) = (Z.of_nat (length rs), Some (last_hash rs zero_hash)).
Proof using Type.
  intros Hc Hn. destruct (whole_file rs (chained_lengths _ _ _ Hc)) as [Hw Hr].
  unfold verify_log_integrity. rewrite Hw. unfold validate_existing_records. rewrite Hr, Nat2Z.id.
  rewrite <- (app_nil_r (concat rs)). rewrite check_chain_accepts; done || lia.
Qed.
End log.

(** ** Guarantees *)

(** What is appended verifies and is found again on reopening.
    Appending an accepted event to a sound log, however many partial or interrupted
    writes it takes, leaves a sound log with one more record; its file passes
    [verify_log_integrity] with that many events and the log's tail as root hash,
    and [open] on the file restores exactly the sequence and tail. *)
Theorem audit_append_then_reopen sha256 l rs ts id p q tr sd ty ws fsync file interval :
  (∀ x, length (sha256 x) = 32%nat) →
  log_ok sha256 l rs → id ≠ 0 → 0 < q → 0 ≤ sd ≤ 1 → Z.of_nat (length rs) < 2 ^ 64 - 1 → interval ≠ 0 →
  let e := seal_event sha256 (mkAudit (al_sequence l) ts id p q tr sd ty (al_tail l) zero_hash) in
  write_all (al_file l) (event_bytes e) ws = Some (file, true) →
  ∃ l' ok, audit_append sha256 l ts id p q tr sd ty ws fsync = Some (l', ok) ∧
    al_sequence l' = al_sequence l + 1 ∧ al_file l' = al_file l ++ event_bytes e ∧
    verify_log_integrity sha256 (al_file l') = (al_sequence l', Some (al_tail l')) ∧
    audit_open sha256 (DurableAuditLog_closed (al_file l')) true true interval =
      (mkLog true interval 0 (al_sequence l') (al_tail l') (al_file l'), true).
Proof.
  intros Hsha Hl Hid Hq Hsd Hn Hint. cbv zeta. set (e := seal_event _ _). intros Hw.
  destruct (append_ok sha256 Hsha l rs ts id p q tr sd ty ws fsync file Hl Hid Hq Hsd Hn Hw) as (l' & ok & E & Hl').
  fold e in Hl'. exists l', ok. split; [done|]. destruct Hl' as [_ F1 F2 F3 F4 _].
  assert (Hv : verify_log_integrity sha256 (al_file l') = (al_sequence l', Some (al_tail l'))).
  { rewrite F1, F3, F4. apply verify_chained; [done|]. rewrite length_app. simpl. lia. }
  split_and!; [|rewrite F1, concat_app, <- (lg_file _ _ _ Hl); simpl; by rewrite app_nil_r|done|].
  - rewrite F3, (lg_sequence _ _ _ Hl), length_app. simpl. lia.
  - unfold verify_log_integrity in Hv. unfold audit_open, DurableAuditLog_closed.
    cbn [al_is_open al_file al_sequence orb negb]. rewrite (proj2 (Z.eqb_neq interval 0)) by done.
    destruct (whole_records (al_file l')); [|done]. cbn [negb orb]. by rewrite Hv.
Qed.

(** A hash that keeps the last 32 bytes of its input, standing in for SHA-256. *)
Definition toy_sha (x : list Z) : list Z := take 32 (rev x ++ replicate 32 0).

Lemma toy_sha_length x : length (toy_sha x) = 32%nat.
Proof. unfold toy_sha. rewrite length_take, length_app, length_replicate. lia. Qed.

Definition new_log : DurableAuditLog := mkLog true 100 0 0 zero_hash [].

Lemma new_log_ok : log_ok toy_sha new_log [].
Proof. by split. Qed.

Lemma audit_append_then_reopen_witness :
  ∃ l' ok, audit_append toy_sha new_log 5 77 1000000 20 0 1 65 [Wrote 100; Interrupted; Wrote 12] true = Some (l', ok) ∧
    al_sequence l' = 1 ∧ verify_log_integrity toy_sha (al_file l') = (1, Some (al_tail l')).
Proof.
  destruct (audit_append_then_reopen toy_sha new_log [] 5 77 1000000 20 0 1 65 [Wrote 100; Interrupted; Wrote 12] true
    (event_bytes (seal_event toy_sha (mkAudit 0 5 77 1000000 20 0 1 65 zero_hash zero_hash))) 100
    toy_sha_length new_log_ok) as (l' & ok & E & H1 & _ & H3 & _);
    [lia|lia|lia|cbn; lia|lia|vm_compute; reflexivity|].
  exists l', ok. split; [exact E|]. split; [exact H1|]. rewrite H1 in H3. exact H3.
Defined.

Section tamper.
Context (sha256 : list Z → list Z).

(** The two files themselves exhibit two different inputs with the same hash, in
    records at the same place. *)
Definition collision (rs rs' : list (list Z)) : Prop :=
  ∃ i r r', rs !! i = Some r ∧ rs' !! i = Some r' ∧ hash_input r ≠ hash_input r' ∧
    sha256 (hash_input r) = sha256 (hash_input r').

Definition same_record (r r' : list Z) : Prop := covered r = covered r' ∧ rec_hash r = rec_hash r'.

Lemma covered_previous r : rec_previous_hash r = take 32 (drop 44 (covered r)).
Proof using Type. unfold rec_previous_hash, covered. rewrite !take_drop_commute, take_take. done. Qed.

Lemma chains_agree rs rs' s p :
  length rs = length rs' → chained sha256 rs s p → chained sha256 rs' s p → last_hash rs p = last_hash rs' p →
  Forall2 same_record rs rs' ∨ collision rs rs'.
Proof using Type.
  revert rs'. induction rs as [|r rs IH] using rev_ind; intros rs' Hl Hc Hc' Hh.
  { destruct rs'; [by left; constructor|done]. }
  destruct rs' as [|r' rs' _] using rev_ind; [rewrite length_app in Hl; simpl in Hl; lia|].
  rewrite !length_app in Hl. simpl in Hl.
  apply chained_snoc in Hc as (C1 & C2 & C3 & C4). apply chained_snoc in Hc' as (D1 & D2 & D3 & D4).
  unfold last_hash in Hh. rewrite !last_snoc in Hh.
  destruct (decide (hash_input r = hash_input r')) as [E|E].
  - pose proof (hash_input_covers r r' C2 D2 E) as Hcov.
    assert (Hp : last_hash rs p = last_hash rs' p) by (rewrite <- C3, <- D3, !covered_previous; by rewrite Hcov).
    destruct (IH rs' ltac:(lia) C1 D1 Hp) as [Hs|(i & x & x' & Hx & Hx' & Hcol)]; [left|right].
    + apply Forall2_app; [done|]. by constructor.
    + exists i, x, x'. split_and!; [by apply lookup_app_l_Some|by apply lookup_app_l_Some|apply Hcol..].
  - right. exists (length rs), r, r'. split_and!; [by apply list_lookup_middle|apply list_lookup_middle; lia|done|].
    by rewrite C4, D4.
Qed.
End tamper.

(** What a file that verifies consists of; a file's size is an [off_t]. *)
Lemma verified_records sha256 file n root :
  verify_log_integrity sha256 file = (n, Some root) → Z.of_nat (length file) < 2 ^ 63 →
  ∃ rs, file = concat rs ∧ chained sha256 rs 0 zero_hash ∧ Z.of_nat (length rs) = n ∧ root = last_hash rs zero_hash.
Proof.
  unfold verify_log_integrity, validate_existing_records. destruct (whole_records file) eqn:Ew; [|done]. intros H Hn.
  destruct (check_chain_sound sha256 _ _ _ _ _ _ H) as (rs & rest & Ef & Hl & Hc & Hr).
  pose proof (chained_lengths sha256 rs 0 zero_hash Hc) as Hlen. destruct (whole_file rs Hlen) as [Hw Hrc].
  unfold whole_records, record_count, kAuditEventSize in *. apply Z.eqb_eq in Ew, Hw.
  pose proof (Z.div_mod (Z.of_nat (length file)) 112). pose proof (Z.div_mod (Z.of_nat (length (concat rs))) 112).
  assert (Hrest : rest = []).
  { apply nil_length_inv. apply (f_equal length) in Ef. rewrite length_app in Ef. lia. }
  subst rest. rewrite <- Hl, Ef, check_chain_accepts in H by (done || lia). rewrite app_nil_r in Ef.
  injection H as H _. exists rs. split_and!; done || lia.
Qed.

(** C24 (safety): the log is tamper evident.  If two log files both verify with the
    same number of events and the same root hash, then record by record they agree
    on every field, on the previous hash and on the hash, unless the two files
    themselves contain, at the same place, two different hash inputs with the same
    SHA-256 (the four padding bytes of a record are not hashed). *)
Theorem audit_log_tamper_evident sha256 file file' n root :
  verify_log_integrity sha256 file = (n, Some root) → verify_log_integrity sha256 file' = (n, Some root) →
  Z.of_nat (length file) < 2 ^ 63 → Z.of_nat (length file') < 2 ^ 63 →
  ∃ rs rs', file = concat rs ∧ file' = concat rs' ∧ Z.of_nat (length rs) = n ∧
    Forall (λ r, length r = 112%nat) (rs ++ rs') ∧ (Forall2 same_record rs rs' ∨ collision sha256 rs rs').
Proof.
  intros H H' Hn Hn'. destruct (verified_records sha256 file n root H Hn) as (rs & -> & Hc & Hl & ->).
  destruct (verified_records sha256 file' n (last_hash rs zero_hash) H' Hn') as (rs' & -> & Hc' & Hl' & Hr).
  exists rs, rs'. split_and!; try done.
  - apply Forall_app. split; by eapply chained_lengths.
  - apply (chains_agree sha256 rs rs' 0 zero_hash); done || lia.
Qed.

(** A one-record log and the same log with its padding bytes overwritten. *)
Definition one_record (pad : list Z) : list Z :=
  take 108 (event_bytes (seal_event toy_sha (mkAudit 0 5 77 1000000 20 0 1 65 zero_hash zero_hash))) ++ pad.

Lemma audit_log_tamper_evident_witness :
  ∃ rs rs', one_record [0; 0; 0; 0] = concat rs ∧ one_record [1; 2; 3; 4] = concat rs' ∧ Z.of_nat (length rs) = 1 ∧
    Forall (λ r, length r = 112%nat) (rs ++ rs') ∧ (Forall2 same_record rs rs' ∨ collision toy_sha rs rs').
Proof.
  apply (audit_log_tamper_evident toy_sha (one_record [0; 0; 0; 0]) (one_record [1; 2; 3; 4]) 1
    (rec_hash (one_record [])));
    [vm_compute; reflexivity|vm_compute; reflexivity|vm_compute; reflexivity|vm_compute; reflexivity].
Defined.

(** ** Manifest checkpoints *)

Section manifest.
Context (sha256 : list Z → list Z).

Lemma chained_app rs1 rs2 s p :
  chained sha256 (rs1 ++ rs2) s p →
  chained sha256 rs1 s p ∧ ∃ s', chained sha256 rs2 s' (last_hash rs1 p).
Proof using Type.
  revert s p. induction rs1 as [|r rs1 IH]; intros s p H; cbn [app chained] in *; [split; [done|by exists s]|].
  destruct H as (A & B & C & D & E). destruct (IH _ _ E) as [F G]. rewrite last_hash_cons. done.
Qed.

Lemma check_links_accepts rs rest s p :
  chained sha256 rs s p → check_links sha256 (length rs) (concat rs ++ rest) p = Some (last_hash rs p).
Proof using Type.
  revert s p. induction rs as [|r rs IH]; intros s p H; cbn [check_links length]; [done|].
  destruct H as (A & B & C & D & E). cbn [concat]. rewrite <- app_assoc, (slice_record r) by done.
  cbn [mbind option_bind]. unfold valid_event. rewrite C, D, !bool_decide_true by done. cbn [negb orb].
  rewrite drop_app_length', last_hash_cons by done. by eapply IH.
Qed.

Lemma concat_length (rs : list (list Z)) : Forall (λ r, length r = 112%nat) rs → length (concat rs) = (112 * length rs)%nat.
Proof using Type. induction 1 as [|r rs Hr _ IH]; [done|]. cbn [concat length]. rewrite length_app, Hr. lia. Qed.

Lemma record_at (rs : list (list Z)) k r :
  Forall (λ r, length r = 112%nat) rs → slice (concat rs) (Z.of_nat k * kAuditEventSize) kAuditEventSize = Some r →
  rs !! k = Some r ∧ drop (Z.to_nat (Z.of_nat k * kAuditEventSize)) (concat rs) = concat (drop k rs).
Proof using Type.
  intros Hrs. assert (Hd : ∀ j, (j ≤ length rs)%nat → drop (112 * j) (concat rs) = concat (drop j rs)).
  { intros j Hj. rewrite <- (take_drop j rs) at 1. rewrite concat_app, drop_app_length'; [done|].
    rewrite concat_length by (by apply Forall_take). rewrite length_take. lia. }
  unfold slice, kAuditEventSize. rewrite concat_length by done.
  destruct (Z.leb_spec (Z.of_nat k * 112 + 112) (Z.of_nat (112 * length rs))); [|by rewrite andb_false_r].
  rewrite (proj2 (Z.leb_le 0 _)) by lia. intros [= <-].
  replace (Z.to_nat (Z.of_nat k * 112)) with (112 * k)%nat by lia. rewrite Hd by lia. split; [|done].
  destruct (lookup_lt_is_Some_2 rs k) as [r Hr]; [lia|]. rewrite Hr. f_equal. rewrite (drop_S _ _ _ Hr). cbn [concat].
  rewrite take_app_length'; [done|]. rewrite Forall_lookup in Hrs. by rewrite (Hrs _ _ Hr).
Qed.

Lemma take_last_hash (rs : list (list Z)) k r p : rs !! k = Some r → last_hash (take (S k) rs) p = rec_hash r.
Proof using Type. intros H. unfold last_hash. by rewrite (take_S_r _ _ _ H), last_snoc. Qed.

(** The span of records a checkpoint covers, cut out of the file. *)
Lemma checked_span rs a b first last_ :
  chained sha256 rs 0 zero_hash → (a ≤ b)%nat → rs !! a = Some first → rs !! b = Some last_ →
  check_links sha256 (b - a + 1) (concat (drop a rs)) (rec_previous_hash first) = Some (rec_hash last_).
Proof using Type.
  intros Hc Hab Ha Hb. pose proof (lookup_lt_Some _ _ _ Hb) as Hlt.
  rewrite <- (take_drop a rs) in Hc. apply chained_app in Hc as [_ [s Hc]].
  assert (Hp : last_hash (take a rs) zero_hash = rec_previous_hash first).
  { rewrite (drop_S _ _ _ Ha) in Hc. symmetry. apply Hc. }
  rewrite Hp in Hc. rewrite <- (take_drop (b - a + 1) (drop a rs)) in Hc |- *.
  rewrite concat_app. apply chained_app in Hc as [Hc _].
  assert (Hl : length (take (b - a + 1) (drop a rs)) = (b - a + 1)%nat) by (rewrite length_take, length_drop; lia).
  rewrite <- Hl at 1. rewrite (check_links_accepts _ _ _ _ Hc). f_equal.
  replace (b - a + 1)%nat with (S (b - a)) by lia. apply take_last_hash. rewrite lookup_drop. by replace (a + (b - a))%nat with b by lia.
Qed.
End manifest.

(** A manifest checkpoint verifies against the log it was taken from,
    and against no log cut off before the end of the span it covers. *)
Theorem manifest_detects_truncation sha256 l rs a b c :
  log_ok sha256 l rs → Z.of_nat (length (al_file l)) < 2 ^ 63 → 0 ≤ a →
  make_checkpoint sha256 l a b = Some c →
  verify_manifest sha256 (al_file l) c = true ∧
  ∀ k, Z.of_nat k ≤ b → verify_manifest sha256 (concat (take k rs)) c = false.
Proof.
  intros [_ Hf Hc Hs _ _] Hsize H0. unfold make_checkpoint.
  pose proof (chained_lengths sha256 rs 0 zero_hash Hc) as Hlen. rewrite Hf in *.
  destruct (al_is_open l), (Z.ltb_spec b a), (Z.leb_spec (al_sequence l) b); try done. cbn [negb orb].
  destruct (slice _ (a * _) _) as [first|] eqn:Ef; [|done]. cbn [mbind option_bind].
  destruct (slice _ (b * _) _) as [last_|] eqn:El; [|done]. cbn [mbind option_bind]. intros [= <-].
  rewrite <- (Z2Nat.id a) in Ef by lia. rewrite <- (Z2Nat.id b) in El by lia.
  apply (record_at _ _ _ Hlen) in Ef as [Ef Ed]. apply (record_at _ _ _ Hlen) in El as [El _].
  unfold verify_manifest. cbn [mc_magic mc_version mc_manifest_hash mc_end_sequence mc_start_sequence mc_start_hash mc_end_hash].
  rewrite !Z.eqb_refl, bool_decide_true by done. cbn [negb orb]. split.
  - rewrite (proj2 (whole_file rs Hlen)), (proj2 (Z.leb_gt _ _)) by lia.
    rewrite concat_length in Hsize by done.
    assert (Hi : i64 (a * kAuditEventSize) = a * kAuditEventSize).
    { unfold i64, u64, kAuditEventSize. rewrite Z.mod_small by lia. by rewrite (proj2 (Z.ltb_lt _ _)) by lia. }
    rewrite Hi, (proj2 (Z.ltb_ge _ 0)) by (unfold kAuditEventSize; lia). rewrite (proj2 (Z.ltb_ge b a)) by lia.
    rewrite Z2Nat.id in Ed by lia. rewrite Ed. replace (Z.to_nat (b - a + 1)) with (Z.to_nat b - Z.to_nat a + 1)%nat by lia.
    rewrite (checked_span sha256 rs _ _ first last_) by (done || lia). by rewrite bool_decide_true.
  - intros k Hk. rewrite (proj2 (whole_file (take k rs) (Forall_take _ _ _ Hlen))), length_take.
    by rewrite (proj2 (Z.leb_le _ _)) by lia.
Qed.

Definition one_record_log : DurableAuditLog :=
  mkLog true 100 0 1 (rec_hash (one_record [])) (one_record [0; 0; 0; 0]).

Lemma manifest_detects_truncation_witness :
  ∃ c, make_checkpoint toy_sha one_record_log 0 0 = Some c ∧
    verify_manifest toy_sha (al_file one_record_log) c = true ∧ verify_manifest toy_sha [] c = false.
Proof.
  eexists. split; [vm_compute; reflexivity|].
  edestruct (manifest_detects_truncation toy_sha one_record_log [one_record [0; 0; 0; 0]] 0 0) as [A B];
    [by vm_compute|by vm_compute|lia|vm_compute; reflexivity|].
  split; [exact A|]. exact (B 0%nat ltac:(lia)).
Defined.
