(* ===== verification/Recovery.v ===== *)
(** * Recovery: the write-ahead recovery ledger (src/luv_recovery.hpp)

    The ledger's file is a list of bytes, a record is the 64 bytes of the C++
    struct, and the outcomes of [write] and [fsync] are inputs.  [replay] rebuilds
    the live orders; the array it fills is the list of its first [count] entries.
    [wal_step] is the abstract ledger: a map from order id to live order. *)

From S2P Require Import Prelude AuditLog.
From Stdlib Require Import ZArith Lia.
From stdpp Require Import base tactics gmap numbers option list.
Open Scope Z_scope.

(** ** Data *)

Inductive RecoveryEventType := kAdd | kFill | kCancel | kAck | kNew | kReplace | kTerminalFill.

#[export] Instance RecoveryEventType_eq_dec : EqDecision RecoveryEventType.
Proof. solve_decision. Defined.

Definition event_code (t : RecoveryEventType) : Z :=
  match t with
  | kAdd => 1 | kFill => 2 | kCancel => 3 | kAck => 4 | kNew => 5 | kReplace => 6 | kTerminalFill => 7
  end.

Definition kRecoveryRecordVersion : Z := 2.
Definition kRecoveryMagic : Z := 0x31564352.
Definition kRecoveryRecordSize : Z := 64.

Record RecoveryEvent := mkEvent {
  ev_type : RecoveryEventType;
  ev_order_id : Z;
  ev_quantity : Z;
  ev_price : Z;
  ev_side : Z;
  ev_timestamp_ns : Z
}.

Record RecoveryRecord := mkRecord {
  rr_magic : Z;
  rr_version : Z;
  rr_type : Z;
  rr_sequence : Z;
  rr_order_id : Z;
  rr_quantity : Z;
  rr_price : Z;
  rr_side : Z;
  rr_timestamp_ns : Z;
  rr_checksum : Z
}.

Record RecoveredOrder := mkRecovered {
  ro_order_id : Z;
  ro_remaining : Z;
  ro_price : Z;
  ro_side : Z;
  ro_timestamp_ns : Z
}.

(** The 56 bytes before [checksum], and the whole record. *)
Definition record_body (r : RecoveryRecord) : list Z :=
  enc_le 4 (rr_magic r) ++ enc_le 1 (rr_version r) ++ enc_le 1 (rr_type r) ++ enc_le 2 0 ++
  enc_le 8 (rr_sequence r) ++ enc_le 8 (rr_order_id r) ++ enc_le 8 (u64 (rr_quantity r)) ++
  enc_le 8 (u64 (rr_price r)) ++ enc_le 1 (rr_side r) ++ replicate 7 0 ++ enc_le 8 (rr_timestamp_ns r).

Definition record_bytes (r : RecoveryRecord) : list Z :=
  record_body r ++ enc_le 4 (rr_checksum r) ++ enc_le 4 0.

(** The member of [n] bytes at offset [off], and a record read through a pointer. *)
Definition field (n off : nat) (b : list Z) : Z := le_val (take n (drop off b)).

Definition record_of (b : list Z) : RecoveryRecord :=
  mkRecord (field 4 0 b) (field 1 4 b) (field 1 5 b) (field 8 8 b) (field 8 16 b) (i64 (field 8 24 b))
    (i64 (field 8 32 b)) (field 1 40 b) (field 8 48 b) (field 4 56 b).

(** FNV-1a over the bytes before [checksum]. *)
Definition fnv_step (hash byte : Z) : Z := u32 (Z.lxor hash byte * 16777619).
Definition checksum (b : list Z) : Z := foldl fnv_step 2166136261 (take 56 b).

(** The check [verify_wal_integrity] and [replay] make of a record. *)
Definition record_valid (b : list Z) (expected_sequence : Z) : bool :=
  let r := record_of b in
  (rr_magic r =? kRecoveryMagic) && (rr_version r =? kRecoveryRecordVersion) &&
  (rr_sequence r =? expected_sequence) && (checksum b =? rr_checksum r).

(** ** Operations *)

Record RecoveryLedger := mkWal { wal_is_open : bool; wal_sequence : Z; wal_file : list Z }.

Definition wal_whole (file : list Z) : bool := Z.of_nat (length file) mod kRecoveryRecordSize =? 0.
Definition wal_records (file : list Z) : Z := Z.of_nat (length file) / kRecoveryRecordSize.

Definition recovery_open (l : RecoveryLedger) (open_ok fstat_ok : bool) : RecoveryLedger * bool :=
  if wal_is_open l || negb open_ok then (l, false) else
  if negb fstat_ok || negb (wal_whole (wal_file l)) then (l, false)
  else (mkWal true (wal_records (wal_file l)) (wal_file l), true).

Definition recovery_close (l : RecoveryLedger) : RecoveryLedger := mkWal false (wal_sequence l) (wal_file l).

(** The loop of [verify_wal_integrity]: the valid records, the sequence number an
    error is reported at, and the result. *)
Fixpoint verify_records (n : nat) (file : list Z) (expected_seq valid_records : Z) : Z * Z * bool :=
  match n with
  | O => (valid_records, 0, true)
  | S n' =>
      match slice file 0 kRecoveryRecordSize with
      | None => (valid_records, expected_seq, false)
      | Some b =>
          if negb (record_valid b expected_seq) then (valid_records, expected_seq, false)
          else verify_records n' (drop 64 file) (u64 (expected_seq + 1)) (u64 (valid_records + 1))
      end
  end.

Definition verify_wal_integrity (file : list Z) : Z * Z * bool :=
  if wal_whole file then verify_records (Z.to_nat (wal_records file)) file 0 0 else (0, 0, false).

(** The record [append_with_side] writes. *)
Definition make_record (sequence : Z) (e : RecoveryEvent) : RecoveryRecord :=
  let r := mkRecord kRecoveryMagic kRecoveryRecordVersion (event_code (ev_type e)) sequence (ev_order_id e)
             (ev_quantity e) (ev_price e) (ev_side e) (ev_timestamp_ns e) 0 in
  mkRecord (rr_magic r) (rr_version r) (rr_type r) (rr_sequence r) (rr_order_id r) (rr_quantity r) (rr_price r)
    (rr_side r) (rr_timestamp_ns r) (checksum (record_bytes r)).

(** [append_with_side], called by [append] and [append_and_flush]. *)
Definition append_and_flush (l : RecoveryLedger) (e : RecoveryEvent) (writes : list write_result) (fsync_ok : bool)
    : option (RecoveryLedger * bool) :=
  if negb (wal_is_open l) || (ev_order_id e =? 0) || (ev_quantity e <=? 0) then Some (l, false) else
  '(file, ok) ← write_all (wal_file l) (record_bytes (make_record (wal_sequence l) e)) writes;
  if negb (ok : bool) then Some (mkWal true (wal_sequence l) file, false)
  else if negb fsync_ok then Some (mkWal true (wal_sequence l) file, false)
  else Some (mkWal true (u64 (wal_sequence l + 1)) file, true).

(** The index scan of [apply]: [count] when no entry has the id. *)
Fixpoint find_order (output : list RecoveredOrder) (order_id : Z) : nat :=
  match output with
  | [] => O
  | o :: output' => if ro_order_id o =? order_id then O else S (find_order output' order_id)
  end.

Definition remove (output : list RecoveredOrder) (index : nat) : option (list RecoveredOrder) :=
  last ← output !! (length output - 1)%nat;
  Some (take (length output - 1) (<[index := last]> output)).

Definition in_i64 (z : Z) : bool := (- 2 ^ 63 <=? z) && (z <? 2 ^ 63).

(** [apply]: the entries afterwards and the result; [None] when the signed
    subtraction of a fill overflows. *)
Definition apply_record (r : RecoveryRecord) (output : list RecoveredOrder) (capacity : Z)
    : option (list RecoveredOrder * bool) :=
  let index := find_order output (rr_order_id r) in
  if (rr_type r =? event_code kAdd) || (rr_type r =? event_code kNew) then
    if negb (index =? length output)%nat || (Z.of_nat (length output) =? capacity) then Some (output, false)
    else Some (output ++ [mkRecovered (rr_order_id r) (rr_quantity r) (rr_price r) (rr_side r) (rr_timestamp_ns r)], true)
  else
  match output !! index with
  | None => Some (output, false)
  | Some o =>
      if rr_type r =? event_code kTerminalFill then
        if (rr_quantity r <=? 0) || (ro_remaining o <? rr_quantity r) then Some (output, false)
        else out ← remove output index; Some (out, true)
      else if rr_type r =? event_code kFill then
        if ro_remaining o <? rr_quantity r then Some (output, false) else
        let left := ro_remaining o - rr_quantity r in
        if negb (in_i64 left) then None else
        let output := <[index := mkRecovered (ro_order_id o) left (ro_price o) (ro_side o) (ro_timestamp_ns o)]> output in
        if left =? 0 then out ← remove output index; Some (out, true) else Some (output, true)
      else if rr_type r =? event_code kReplace then
        if rr_quantity r <=? 0 then Some (output, false) else
        let price := if 0 <? rr_price r then rr_price r else ro_price o in
        Some (<[index := mkRecovered (ro_order_id o) (rr_quantity r) price (ro_side o) (ro_timestamp_ns o)]> output, true)
      else if rr_type r =? event_code kCancel then out ← remove output index; Some (out, true)
      else Some (output, false)
  end.

Fixpoint replay_records (n : nat) (file : list Z) (expected_sequence : Z) (output : list RecoveredOrder)
    (capacity : Z) : option (list RecoveredOrder * bool) :=
  match n with
  | O => Some (output, true)
  | S n' =>
      b ← slice file 0 kRecoveryRecordSize;
      if negb (record_valid b expected_sequence) then Some (output, false) else
      '(output, ok) ← apply_record (record_of b) output capacity;
      if negb (ok : bool) then Some (output, false)
      else replay_records n' (drop 64 file) (u64 (expected_sequence + 1)) output capacity
  end.

(** [replay] into an array of [capacity] entries; [map_ok] is whether [fstat] and
    [mmap] succeed. *)
Definition replay (l : RecoveryLedger) (map_ok : bool) (capacity : Z) : option (list RecoveredOrder * bool) :=
  if negb (wal_is_open l) || (capacity =? 0) then Some ([], false) else
  if negb (wal_whole (wal_file l)) then Some ([], false) else
  if (length (wal_file l) =? 0)%nat then Some ([], true) else
  if negb map_ok then Some ([], false) else
  replay_records (Z.to_nat (wal_records (wal_file l))) (wal_file l) 0 [] capacity.

(** ** The abstract ledger *)

Definition wal_step (capacity : Z) (m : gmap Z RecoveredOrder) (e : RecoveryEvent) : option (gmap Z RecoveredOrder) :=
  match ev_type e, m !! ev_order_id e with
  | (kAdd | kNew), None =>
      if Z.of_nat (size m) =? capacity then None
      else Some (<[ev_order_id e := mkRecovered (ev_order_id e) (ev_quantity e) (ev_price e) (ev_side e) (ev_timestamp_ns e)]> m)
  | kTerminalFill, Some o => if ev_quantity e <=? ro_remaining o then Some (delete (ev_order_id e) m) else None
  | kFill, Some o =>
      if ev_quantity e <? ro_remaining o then
        Some (<[ev_order_id e := mkRecovered (ro_order_id o) (ro_remaining o - ev_quantity e) (ro_price o) (ro_side o)
                                   (ro_timestamp_ns o)]> m)
      else if ev_quantity e =? ro_remaining o then Some (delete (ev_order_id e) m) else None
  | kReplace, Some o =>
      Some (<[ev_order_id e := mkRecovered (ro_order_id o) (ev_quantity e)
                                 (if 0 <? ev_price e then ev_price e else ro_price o) (ro_side o) (ro_timestamp_ns o)]> m)
  | kCancel, Some _ => Some (delete (ev_order_id e) m)
  | _, _ => None
  end.

Fixpoint wal_run (capacity : Z) (m : gmap Z RecoveredOrder) (es : list RecoveryEvent) : option (gmap Z RecoveredOrder) :=
  match es with [] => Some m | e :: es' => m' ← wal_step capacity m e; wal_run capacity m' es' end.

(** ** The checksum *)

Lemma fnv_step_range h b : 0 ≤ fnv_step h b < 2 ^ 32.
Proof. apply Z.mod_pos_bound. lia. Qed.

(** The FNV prime is odd, so multiplying by it loses nothing modulo [2^32]. *)
Lemma fnv_mul_inj x y : 0 ≤ x < 2 ^ 32 → 0 ≤ y < 2 ^ 32 → u32 (x * 16777619) = u32 (y * 16777619) → x = y.
Proof.
  intros Hx Hy E. unfold u32 in E.
  assert (Hinv : ∀ z, 0 ≤ z < 2 ^ 32 → (z * 16777619) mod 2 ^ 32 * 899433627 mod 2 ^ 32 = z).
  { intros z Hz. rewrite Z.mul_mod_idemp_l by lia.
    replace (z * 16777619 * 899433627) with (z + (z * 3513497) * 2 ^ 32) by lia.
    rewrite Z_mod_plus_full. apply Z.mod_small. lia. }
  rewrite <- (Hinv x), <- (Hinv y) by done. by rewrite E.
Qed.

Lemma lxor_u32 h b : 0 ≤ h < 2 ^ 32 → 0 ≤ b < 256 → 0 ≤ Z.lxor h b < 2 ^ 32.
Proof.
  intros Hh Hb. assert (Hbits : Z.lxor h b = (Z.lxor h b) mod 2 ^ 32).
  { symmetry. rewrite <- Z.land_ones by lia. apply Z.bits_inj'. intros n Hn.
    rewrite Z.land_spec, Z.lxor_spec.
    destruct (decide (n < 32)).
    - rewrite Z.ones_spec_low by lia. by rewrite andb_true_r.
    - rewrite (Z.bits_above_log2 h), (Z.bits_above_log2 b); try lia; [done| |].
      + destruct (decide (b = 0)) as [->|]; [simpl; lia|]. apply Z.log2_lt_pow2; [lia|].
        apply Z.lt_le_trans with (2 ^ 32); [lia|]. apply Z.pow_le_mono_r; lia.
      + destruct (decide (h = 0)) as [->|]; [simpl; lia|]. apply Z.log2_lt_pow2; [lia|].
        apply Z.lt_le_trans with (2 ^ 32); [lia|]. apply Z.pow_le_mono_r; lia. }
  rewrite Hbits. apply Z.mod_pos_bound. lia.
Qed.

Lemma fnv_step_inj h h' b b' :
  0 ≤ h < 2 ^ 32 → 0 ≤ h' < 2 ^ 32 → 0 ≤ b < 256 → 0 ≤ b' < 256 →
  fnv_step h b = fnv_step h' b' → Z.lxor h b = Z.lxor h' b'.
Proof. intros. apply fnv_mul_inj; [by apply lxor_u32..|done]. Qed.

Lemma lxor_cancel_r a b c : Z.lxor a c = Z.lxor b c → a = b.
Proof. intros E. rewrite <- (Z.lxor_0_r a), <- (Z.lxor_0_r b), <- (Z.lxor_nilpotent c), <- !Z.lxor_assoc. by rewrite E. Qed.

Lemma fnv_fold_inj bs h h' :
  Forall (λ b, 0 ≤ b < 256) bs → 0 ≤ h < 2 ^ 32 → 0 ≤ h' < 2 ^ 32 →
  foldl fnv_step h bs = foldl fnv_step h' bs → h = h'.
Proof.
  intros H. revert h h'. induction H as [|b bs Hb _ IH]; intros h h' Hh Hh' E; [done|].
  cbn [foldl] in E. apply IH in E; try apply fnv_step_range.
  apply fnv_step_inj in E; try done. by eapply lxor_cancel_r.
Qed.

(** Changing one byte changes the hash. *)
Lemma fnv_detects bs i b b' h :
  Forall (λ b, 0 ≤ b < 256) bs → 0 ≤ h < 2 ^ 32 → bs !! i = Some b → 0 ≤ b' < 256 → b' ≠ b →
  foldl fnv_step h (<[i:=b']> bs) ≠ foldl fnv_step h bs.
Proof.
  intros H. revert i h. induction H as [|c bs Hc Hbs IH]; intros i h Hh Hi Hb' Hne; [done|].
  destruct i as [|i]; cbn [list_insert insert foldl].
  - injection Hi as ->. intros E. apply fnv_fold_inj in E; try apply fnv_step_range; [|done].
    apply fnv_step_inj in E; try done. rewrite !(Z.lxor_comm h) in E. by apply lxor_cancel_r in E.
  - apply IH; try done. apply fnv_step_range.
Qed.

(** ** Corruption *)

Lemma slice_first {A} (l : list A) n : (Z.to_nat n ≤ length l)%nat → 0 ≤ n → slice l 0 n = Some (take (Z.to_nat n) l).
Proof.
  intros H Hn. unfold slice. rewrite (proj2 (Z.leb_le 0 n)), (proj2 (Z.leb_le (0 + n) _)) by lia. done.
Qed.

Lemma record_refused b i x x' seq :
  length b = 64%nat → Forall (λ b, 0 ≤ b < 256) b → (i < 60)%nat → b !! i = Some x → 0 ≤ x' < 256 → x' ≠ x →
  record_valid b seq = true → record_valid (<[i:=x']> b) seq = false.
Proof.
  intros Hl Hb Hi Hx Hx' Hne. unfold record_valid. rewrite !andb_true_iff, !Z.eqb_eq. cbn [record_of rr_magic rr_version rr_sequence rr_checksum].
  intros (_ & Hc). apply andb_false_iff. right. apply Z.eqb_neq. unfold checksum, field in *.
  assert (Hx0 : 0 ≤ x < 256) by (rewrite Forall_lookup in Hb; by apply (Hb i)).
  destruct (decide (i < 56)%nat) as [Hlt|Hge].
  - rewrite drop_insert_lt by lia. rewrite <- Hc. rewrite take_insert_lt by lia.
    apply (fnv_detects _ _ x); try done; [by apply Forall_take|by rewrite lookup_take_lt].
  - rewrite take_insert_ge by lia. rewrite Hc. intros E. apply le_val_inj in E.
    + apply (f_equal (lookup (i - 56)%nat)) in E. rewrite !lookup_take_lt, !lookup_drop in E by lia.
      replace (56 + (i - 56))%nat with i in E by lia. rewrite list_lookup_insert_eq in E by lia. congruence.
    + apply Forall_take, Forall_drop, Hb.
    + apply Forall_take, Forall_drop. by apply Forall_insert.
    + rewrite !length_take, !length_drop, length_insert. done.
Qed.

Lemma verify_refuses n file i x x' seq k :
  (64 * n ≤ length file)%nat → Forall (λ b, 0 ≤ b < 256) file → (i < 64 * n)%nat → (i mod 64 < 60)%nat →
  file !! i = Some x → 0 ≤ x' < 256 → x' ≠ x →
  (verify_records n file seq k).2 = true → (verify_records n (<[i:=x']> file) seq k).2 = false.
Proof.
  revert file i seq k. induction n as [|n IH]; intros file i seq k Hl Hb Hi Hm Hx Hx' Hne; [lia|].
  cbn [verify_records]. rewrite !slice_first by (rewrite ?length_insert; unfold kRecoveryRecordSize; lia).
  change (Z.to_nat kRecoveryRecordSize) with 64%nat.
  destruct (record_valid (take 64 file) seq) eqn:Ev; [|done]. cbn [negb]. intros Hrest.
  destruct (decide (i < 64)%nat) as [Hlt|Hge].
  - rewrite take_insert_lt by lia. rewrite Nat.mod_small in Hm by lia.
    erewrite record_refused; try done; [rewrite length_take; lia|by apply Forall_take|by rewrite lookup_take_lt].
  - rewrite take_insert_ge, Ev, drop_insert_ge by lia. cbn [negb]. apply (IH _ _ _ _); try done.
    + rewrite length_drop. lia.
    + by apply Forall_drop.
    + lia.
    + replace i with (i - 64 + 1 * 64)%nat in Hm by lia. by rewrite Nat.Div0.mod_add in Hm.
    + rewrite lookup_drop. by replace (64 + (i - 64))%nat with i by lia.
Qed.

(** ** Records round-trip through the file *)

Lemma field_here n v post : field n 0 (enc_le n v ++ post) = v mod 256 ^ Z.of_nat n.
Proof. unfold field. rewrite drop_0, take_app_length' by (by rewrite enc_le_length). apply le_val_enc. Qed.

Lemma field_skip n off pre post :
  (length pre ≤ off)%nat → field n off (pre ++ post) = field n (off - length pre) post.
Proof. intros H. unfold field. by rewrite drop_app_ge. Qed.

Ltac read_field :=
  repeat first [rewrite field_here
               |rewrite field_skip; rewrite ?enc_le_length, ?length_replicate; [|lia]; cbn [Nat.sub]].

Lemma record_body_length r : length (record_body r) = 56%nat.
Proof. unfold record_body. by rewrite !length_app, !enc_le_length, length_replicate. Qed.

Lemma record_bytes_length r : length (record_bytes r) = 64%nat.
Proof. unfold record_bytes. by rewrite !length_app, record_body_length, !enc_le_length. Qed.

Record event_fits (e : RecoveryEvent) : Prop := mk_fits {
  ef_order_id : 0 < ev_order_id e < 2 ^ 64;
  ef_quantity : 0 < ev_quantity e < 2 ^ 63;
  ef_price : - 2 ^ 63 ≤ ev_price e < 2 ^ 63;
  ef_side : 0 ≤ ev_side e < 256;
  ef_timestamp_ns : 0 ≤ ev_timestamp_ns e < 2 ^ 64
}.

Lemma i64_u64 z : - 2 ^ 63 ≤ z < 2 ^ 63 → i64 (u64 z) = z.
Proof.
  intros H. unfold i64, u64. rewrite Zmod_mod.
  destruct (decide (0 ≤ z)).
  - rewrite Z.mod_small by lia. by rewrite (proj2 (Z.ltb_lt _ _)) by lia.
  - replace (z mod 2 ^ 64) with (z + 2 ^ 64).
    + rewrite (proj2 (Z.ltb_ge _ _)) by lia. lia.
    + replace z with (z + 2 ^ 64 + (-1) * 2 ^ 64) at 2 by lia. rewrite Z_mod_plus_full, Z.mod_small by lia. done.
Qed.

Lemma checksum_record r : checksum (record_bytes r) = foldl fnv_step 2166136261 (record_body r).
Proof. unfold checksum, record_bytes. by rewrite take_app_length' by (by rewrite record_body_length). Qed.

Lemma fnv_fold_range bs h : bs ≠ [] → 0 ≤ foldl fnv_step h bs < 2 ^ 32.
Proof.
  intros H. induction bs as [|b bs _] using rev_ind; [done|]. rewrite foldl_app. apply fnv_step_range.
Qed.

Lemma record_of_bytes s e :
  event_fits e → 0 ≤ s < 2 ^ 64 → record_of (record_bytes (make_record s e)) = make_record s e.
Proof.
  intros [H1 H2 H3 H4 H5] Hs. unfold make_record. cbn zeta. set (c := checksum _).
  assert (Hc : 0 ≤ c < 2 ^ 32).
  { unfold c. rewrite checksum_record. apply fnv_fold_range. intros E. apply (f_equal length) in E.
    by rewrite record_body_length in E. }
  cbn [rr_magic rr_version rr_type rr_sequence rr_order_id rr_quantity rr_price rr_side rr_timestamp_ns].
  unfold record_of, record_bytes, record_body.
  cbn [rr_magic rr_version rr_type rr_sequence rr_order_id rr_quantity rr_price rr_side rr_timestamp_ns rr_checksum].
  rewrite <- !app_assoc. read_field.
  f_equal; first [done | by apply Z.mod_small; lia | by destruct (ev_type e) | idtac].
  - rewrite (Z.mod_small (u64 _)); [apply i64_u64; lia|]. apply Z.mod_pos_bound. lia.
  - rewrite (Z.mod_small (u64 _)); [apply i64_u64; lia|]. apply Z.mod_pos_bound. lia.
Qed.

Lemma make_record_checksum s e : checksum (record_bytes (make_record s e)) = rr_checksum (make_record s e).
Proof. unfold make_record. cbn [rr_checksum]. rewrite !checksum_record. f_equal. Qed.

Lemma made_record_valid s e :
  event_fits e → 0 ≤ s < 2 ^ 64 → record_valid (record_bytes (make_record s e)) s = true.
Proof.
  intros He Hs. unfold record_valid. rewrite record_of_bytes, make_record_checksum, Z.eqb_refl by done.
  cbn [make_record rr_magic rr_version rr_sequence]. by rewrite !Z.eqb_refl.
Qed.

(** ** Replay implements the abstract ledger *)

Definition keyed (output : list RecoveredOrder) : list (Z * RecoveredOrder) := (λ o, (ro_order_id o, o)) <$> output.

(** The entries are the orders of the map, each once. *)
Definition represents (output : list RecoveredOrder) (m : gmap Z RecoveredOrder) : Prop :=
  NoDup (ro_order_id <$> output) ∧ m = list_to_map (keyed output).

Lemma keyed_fst output : (keyed output).*1 = ro_order_id <$> output.
Proof. unfold keyed. by rewrite <- list_fmap_compose. Qed.

Lemma represents_perm output output' m : output ≡ₚ output' → represents output m → represents output' m.
Proof.
  intros Hp [Hn ->]. split; [by rewrite <- Hp|]. apply list_to_map_proper; [by rewrite keyed_fst|]. unfold keyed. by rewrite Hp.
Qed.

Lemma represents_size output m : represents output m → size m = length output.
Proof.
  intros [Hn ->]. rewrite map_size_list_to_map by (by rewrite keyed_fst). apply length_fmap.
Qed.

Lemma represents_cons o output m : represents (o :: output) m →
  m !! ro_order_id o = Some o ∧ represents output (delete (ro_order_id o) m) ∧
  ∀ o', ro_order_id o' = ro_order_id o → represents (o' :: output) (<[ro_order_id o := o']> m).
Proof.
  intros [Hn ->]. cbn [keyed fmap list_fmap list_to_map foldr] in *. apply NoDup_cons in Hn as [Hnot Hn].
  change ((fix go (l : list RecoveredOrder) := _) output) with (ro_order_id <$> output) in *.
  assert (Hl : (list_to_map (keyed output) : gmap Z RecoveredOrder) !! ro_order_id o = None).
  { apply not_elem_of_list_to_map. by rewrite keyed_fst. }
  split_and!.
  - apply lookup_insert_eq.
  - split; [done|]. by rewrite delete_insert_id.
  - intros o' E. split; [cbn [fmap list_fmap]; rewrite E; by apply NoDup_cons|].
    cbn [keyed fmap list_fmap list_to_map foldr]. rewrite E. apply insert_insert_eq.
Qed.

Lemma represents_snoc o output m : represents output m → m !! ro_order_id o = None →
  represents (output ++ [o]) (<[ro_order_id o := o]> m).
Proof.
  intros [Hn ->] Hl. apply (represents_perm (o :: output)); [by rewrite Permutation_app_comm|].
  split; [|done]. cbn [fmap list_fmap]. apply NoDup_cons. split; [|done].
  apply not_elem_of_list_to_map in Hl. by rewrite keyed_fst in Hl.
Qed.

(** Where the scan stops. *)
Lemma find_order_spec output m id : represents output m →
  match m !! id with
  | None => find_order output id = length output ∧ output !! find_order output id = None
  | Some o => output !! find_order output id = Some o ∧ ro_order_id o = id
  end.
Proof.
  revert m. induction output as [|o output IH]; intros m Hr.
  { destruct Hr as [_ ->]. done. }
  destruct (represents_cons _ _ _ Hr) as (Ho & Hr' & _). cbn [find_order].
  destruct (Z.eqb_spec (ro_order_id o) id) as [<-|Hne]; [by rewrite Ho|].
  specialize (IH _ Hr'). rewrite lookup_delete_ne in IH by done. destruct (m !! id).
  - done.
  - cbn [length lookup list_lookup]. destruct IH as [-> IH]. done.
Qed.

Lemma update_perm (output : list RecoveredOrder) i o : output !! i = Some o →
  ∃ rest, output ≡ₚ o :: rest ∧ ∀ o', <[i:=o']> output ≡ₚ o' :: rest.
Proof.
  intros H. exists (take i output ++ drop (S i) output). split.
  - rewrite <- (take_drop_middle _ _ _ H) at 1. by rewrite Permutation_middle.
  - intros o'. rewrite insert_take_drop by (by eapply lookup_lt_Some). by rewrite Permutation_middle.
Qed.

Lemma remove_perm (output : list RecoveredOrder) i o : output !! i = Some o →
  ∃ output', remove output i = Some output' ∧ output ≡ₚ o :: output'.
Proof.
  induction output as [|z init _] using rev_ind; [done|]. intros Hi. unfold remove. rewrite length_app.
  cbn [length]. rewrite Nat.add_sub, list_lookup_middle by done. cbn [mbind option_bind]. eexists. split; [reflexivity|].
  destruct (decide (i < length init)%nat) as [Hlt|Hge].
  - rewrite lookup_app_l in Hi by done. rewrite insert_app_l, take_app_length' by (rewrite ?length_insert; done).
    destruct (update_perm init i o Hi) as (rest & Hp & Hu). rewrite Hu, Hp.
    rewrite Permutation_app_comm. apply Permutation_swap.
  - apply lookup_lt_Some in Hi as Hi'. rewrite length_app in Hi'. cbn [length] in Hi'.
    assert (i = length init) as -> by lia. rewrite list_lookup_middle in Hi by done. injection Hi as <-.
    rewrite list_insert_id by (by apply list_lookup_middle). rewrite take_app_length. by rewrite Permutation_app_comm.
Qed.

Definition remaining_ok (m : gmap Z RecoveredOrder) : Prop := map_Forall (λ _ o, 0 < ro_remaining o < 2 ^ 63) m.

Lemma wal_step_remaining cap m e m' :
  remaining_ok m → event_fits e → wal_step cap m e = Some m' → remaining_ok m'.
Proof.
  intros Hm He. destruct (ef_quantity e He). unfold wal_step. intros E.
  assert (Ho : ∀ o, m !! ev_order_id e = Some o → 0 < ro_remaining o < 2 ^ 63) by (intros o Ho; apply (Hm _ _ Ho)).
  destruct (ev_type e), (m !! ev_order_id e) as [o|]; try done; repeat case_match; simplify_eq/=;
    first [by apply map_Forall_delete | apply map_Forall_insert_2; [|done]; specialize (Ho _ eq_refl) || idtac; simpl;
      rewrite ?Z.ltb_lt in *; lia].
Qed.

(** The entry found is overwritten, or overwritten and removed. *)
Lemma represents_update output m i o o' : represents output m → output !! i = Some o → ro_order_id o' = ro_order_id o →
  represents (<[i:=o']> output) (<[ro_order_id o := o']> m).
Proof.
  intros Hr Hi E. destruct (update_perm _ _ _ Hi) as (rest & Hp & Hu).
  destruct (represents_cons o rest m (represents_perm _ _ _ Hp Hr)) as (_ & _ & H).
  apply (represents_perm (o' :: rest)); [by rewrite Hu|by apply H].
Qed.

Lemma represents_remove output m i o o' : represents output m → output !! i = Some o →
  ∃ output', remove (<[i:=o']> output) i = Some output' ∧ represents output' (delete (ro_order_id o) m).
Proof.
  intros Hr Hi. destruct (update_perm _ _ _ Hi) as (rest & Hp & Hu).
  destruct (represents_cons o rest m (represents_perm _ _ _ Hp Hr)) as (_ & H & _).
  destruct (remove_perm (<[i:=o']> output) i o') as (output' & E & Hp').
  { apply list_lookup_insert_eq. by eapply lookup_lt_Some. }
  exists output'. split; [done|]. apply (represents_perm rest); [|done].
  apply (Permutation_cons_inv (a := o')). by rewrite <- Hu.
Qed.

Lemma in_i64_true z : - 2 ^ 63 ≤ z < 2 ^ 63 → in_i64 z = true.
Proof. intros H. unfold in_i64. rewrite (proj2 (Z.leb_le _ _)), (proj2 (Z.ltb_lt _ _)) by lia. done. Qed.

(** A fill that was found, against the step of the abstract ledger. *)
Lemma fill_refines output m i o id q :
  represents output m → output !! i = Some o → ro_order_id o = id → 0 < ro_remaining o < 2 ^ 63 → 0 < q ≤ ro_remaining o →
  let left := ro_remaining o - q in
  let o' := mkRecovered (ro_order_id o) left (ro_price o) (ro_side o) (ro_timestamp_ns o) in
  ∃ output', (if negb (in_i64 left) then None
    else if left =? 0 then out ← remove (<[i:=o']> output) i; Some (out, true) else Some (<[i:=o']> output, true)) =
    Some (output', true) ∧
  represents output' (if q <? ro_remaining o then <[id:=o']> m else delete id m).
Proof.
  intros Hr Hi <- Ho Hq. cbv zeta. rewrite in_i64_true by lia. cbn [negb].
  destruct (Z.eqb_spec (ro_remaining o - q) 0) as [E|E].
  - rewrite (proj2 (Z.ltb_ge _ _)) by lia.
    edestruct represents_remove as (out' & -> & H); [done..|]. cbn [mbind option_bind]. eauto.
  - rewrite (proj2 (Z.ltb_lt _ _)) by lia. eexists. split; [done|]. by apply represents_update.
Qed.

(** One record against one step of the abstract ledger. *)
Lemma apply_record_refines cap output m s e :
  represents output m → remaining_ok m → event_fits e →
  match wal_step cap m e with
  | Some m' => ∃ output', apply_record (make_record s e) output cap = Some (output', true) ∧ represents output' m'
  | None => apply_record (make_record s e) output cap = Some (output, false)
  end.
Proof.
  intros Hr Hm He. pose proof (ef_quantity e He) as Hq. pose proof (find_order_spec output m (ev_order_id e) Hr) as Hf.
  unfold wal_step, apply_record. rewrite (represents_size _ _ Hr).
  cbn [make_record rr_type rr_order_id rr_quantity rr_price rr_side rr_timestamp_ns].
  destruct (m !! ev_order_id e) as [o|] eqn:Eo.
  - destruct Hf as [Hf Eid]. pose proof (Hm _ _ Eo) as Ho. cbv beta in Ho.
    pose proof (lookup_lt_Some _ _ _ Hf) as Hlt. rewrite Hf, (proj2 (Nat.eqb_neq _ _)) by lia.
    destruct (represents_remove _ _ _ _ o Hr Hf) as (out' & Hrm & Hr'). rewrite list_insert_id in Hrm by done. rewrite Eid in Hr'.
    destruct (ev_type e); cbn [event_code Z.eqb Pos.eqb orb negb]; try done; rewrite ?Hrm; cbn [mbind option_bind].
    + destruct (Z.ltb_spec (ro_remaining o) (ev_quantity e)) as [H|H].
      * by rewrite (proj2 (Z.ltb_ge _ _)), (proj2 (Z.eqb_neq _ _)) by lia.
      * destruct (fill_refines output m _ o _ (ev_quantity e) Hr Hf Eid Ho) as (out'' & E & Hr''); [lia|].
        cbn [mbind option_bind] in E. rewrite E. destruct (Z.ltb_spec (ev_quantity e) (ro_remaining o)); [eauto|].
        rewrite (proj2 (Z.eqb_eq _ _)) by lia. eauto.
    + eauto.
    + rewrite (proj2 (Z.leb_gt _ _)) by lia. eexists. split; [done|]. rewrite <- Eid at 2. by apply represents_update.
    + rewrite (proj2 (Z.leb_gt _ 0)) by lia. cbn [orb]. destruct (Z.leb_spec (ev_quantity e) (ro_remaining o)) as [H|H].
      * rewrite (proj2 (Z.ltb_ge _ _)) by lia. eauto.
      * by rewrite (proj2 (Z.ltb_lt _ _)) by lia.
  - destruct Hf as [Hlen Hnone]. rewrite Hnone, Hlen, Nat.eqb_refl.
    destruct (ev_type e); cbn [event_code Z.eqb Pos.eqb orb negb]; try done;
      (destruct (Z.of_nat (length output) =? cap); [done|]; eexists; split; [reflexivity|]; by apply represents_snoc).
Qed.

(** ** From appends to replay *)

(** The events a run of successful appends wrote, however [write] split them. *)
Inductive appended : RecoveryLedger → list RecoveryEvent → RecoveryLedger → Prop :=
  | appended_nil l : appended l [] l
  | appended_cons l e writes l1 es l2 :
      append_and_flush l e writes true = Some (l1, true) → appended l1 es l2 → appended l (e :: es) l2.

(** The bytes of a run of events numbered from [s]. *)
Fixpoint wal_bytes (s : Z) (es : list RecoveryEvent) : list Z :=
  match es with [] => [] | e :: es' => record_bytes (make_record s e) ++ wal_bytes (s + 1) es' end.

Lemma wal_bytes_length s es : length (wal_bytes s es) = (64 * length es)%nat.
Proof.
  revert s. induction es as [|e es IH]; intros s; [done|]. cbn [wal_bytes length].
  rewrite length_app, record_bytes_length, IH. lia.
Qed.

Lemma wal_bytes_app s es es' : wal_bytes s (es ++ es') = wal_bytes s es ++ wal_bytes (s + Z.of_nat (length es)) es'.
Proof.
  revert s. induction es as [|e es IH]; intros s; [simpl; f_equal; lia|]. cbn [app wal_bytes]. rewrite IH, app_assoc.
  do 2 f_equal. simpl. lia.
Qed.

Lemma append_inv l e writes fsync l' :
  append_and_flush l e writes fsync = Some (l', true) →
  wal_is_open l = true ∧ fsync = true ∧
  l' = mkWal true (u64 (wal_sequence l + 1)) (wal_file l ++ record_bytes (make_record (wal_sequence l) e)).
Proof.
  unfold append_and_flush. destruct (wal_is_open l); [|done]. cbn [negb orb].
  destruct (_ || _); [done|]. destruct (write_all _ _ _) as [[f []]|] eqn:Ew; cbn [mbind option_bind negb]; try done.
  apply write_all_ok in Ew as ->. destruct fsync; [|done]. cbn [negb]. by intros [= <-].
Qed.

Lemma appended_file l es l' :
  appended l es l' → 0 ≤ wal_sequence l → wal_sequence l + Z.of_nat (length es) < 2 ^ 64 →
  wal_file l' = wal_file l ++ wal_bytes (wal_sequence l) es ∧ wal_sequence l' = wal_sequence l + Z.of_nat (length es) ∧
  (wal_is_open l = true → wal_is_open l' = true).
Proof.
  induction 1 as [l|l e ws l1 es l2 E _ IH]; intros H0 Hn.
  { cbn [wal_bytes length]. rewrite app_nil_r. split_and!; [done|lia|done]. }
  destruct (append_inv _ _ _ _ _ E) as (_ & _ & ->). cbn [wal_sequence wal_file wal_is_open length] in *.
  assert (Hu : u64 (wal_sequence l + 1) = wal_sequence l + 1) by (apply Z.mod_small; lia). rewrite Hu in *.
  destruct IH as (-> & -> & Ho); [lia..|]. cbn [wal_bytes]. rewrite <- app_assoc. split_and!; [done|lia|auto].
Qed.

Lemma replay_bytes es k s output m cap rest :
  Forall event_fits es → represents output m → remaining_ok m → 0 ≤ s → s + Z.of_nat (length es) < 2 ^ 64 →
  ∃ output', match wal_run cap m es with
  | Some m' => replay_records (length es + k) (wal_bytes s es ++ rest) s output cap =
                 replay_records k rest (s + Z.of_nat (length es)) output' cap ∧
               represents output' m' ∧ remaining_ok m'
  | None => replay_records (length es + k) (wal_bytes s es ++ rest) s output cap = Some (output', false)
  end.
Proof.
  intros H. revert s output m. induction H as [|e es He _ IH]; intros s output m Hr Hm H0 Hn.
  { exists output. cbn [wal_run wal_bytes length app Nat.add]. by rewrite Z.add_0_r. }
  cbn [length wal_bytes wal_run replay_records Nat.add] in *. rewrite <- app_assoc.
  rewrite slice_first by (rewrite ?length_app, ?record_bytes_length; unfold kRecoveryRecordSize; lia).
  change (Z.to_nat kRecoveryRecordSize) with 64%nat. rewrite take_app_length' by (by rewrite record_bytes_length).
  rewrite drop_app_length' by (by rewrite record_bytes_length). cbn [mbind option_bind].
  rewrite made_record_valid, record_of_bytes by (done || lia). cbn [negb].
  pose proof (apply_record_refines cap output m s e Hr Hm He) as Hs.
  destruct (wal_step cap m e) as [m'|] eqn:Es; cbn [mbind option_bind].
  - destruct Hs as (output' & -> & Hr'). cbn [mbind option_bind negb].
    assert (Hu : u64 (s + 1) = s + 1) by (apply Z.mod_small; lia). rewrite Hu.
    replace (s + Z.of_nat (S (length es))) with (s + 1 + Z.of_nat (length es)) by lia.
    apply IH; [done|by eapply wal_step_remaining|lia..].
  - exists output. by rewrite Hs.
Qed.

Lemma wal_shape file n : length file = (64 * n)%nat → wal_whole file = true ∧ wal_records file = Z.of_nat n.
Proof.
  intros H. unfold wal_whole, wal_records, kRecoveryRecordSize. rewrite H. rewrite Nat2Z.inj_mul, Z.mul_comm.
  change (Z.of_nat 64) with 64. split; [by rewrite Z_mod_mult|by rewrite Z_div_mult by lia].
Qed.

Definition wal_new : RecoveryLedger := mkWal true 0 [].

(** ** Guarantees *)

(** C4 (refinement): replaying the ledger recovers the live orders.  After any run
    of appends that returned true, replay into an array of [capacity] entries
    succeeds exactly when the abstract ledger accepts the events in order without
    exceeding the capacity, and then the array holds exactly its live orders, each
    once, with remaining quantity, price, side and timestamp. *)
Theorem wal_replay_recovers es l capacity :
  appended wal_new es l → Forall event_fits es → Z.of_nat (length es) < 2 ^ 57 → 0 < capacity →
  ∃ output, match wal_run capacity ∅ es with
  | Some m => replay l true capacity = Some (output, true) ∧ represents output m
  | None => replay l true capacity = Some (output, false)
  end.
Proof.
  intros Ha He Hn Hc. destruct (appended_file _ _ _ Ha) as (Hf & _ & Ho); [simpl; lia..|].
  cbn [wal_new wal_file wal_sequence app wal_is_open] in *.
  destruct (wal_shape (wal_file l) (length es)) as [Hw Hr]; [by rewrite Hf, wal_bytes_length|].
  unfold replay. rewrite Ho, Hw, Hr, (proj2 (Z.eqb_neq capacity 0)), Nat2Z.id by (done || lia). cbn [negb orb].
  destruct es as [|e es].
  { rewrite Hf. exists []. split; [done|by split; [constructor|]]. }
  rewrite (proj2 (Nat.eqb_neq _ 0)) by (rewrite Hf, wal_bytes_length; simpl; lia).
  destruct (replay_bytes (e :: es) 0 0 [] ∅ capacity []) as [output H]; try done; [by split; [constructor|]|lia|].
  rewrite Nat.add_0_r, app_nil_r in H. exists output. rewrite Hf.
  destruct (wal_run capacity ∅ (e :: es)); [|done]. destruct H as (-> & H & _). done.
Qed.

Definition demo_events : list RecoveryEvent :=
  [mkEvent kAdd 10 100 1000000 0 1; mkEvent kAdd 11 50 1010000 1 2; mkEvent kFill 10 40 0 0 3;
   mkEvent kReplace 11 70 0 0 4; mkEvent kTerminalFill 10 20 0 0 5].

Definition fresh_wal (l : option RecoveryLedger) (e : RecoveryEvent) : option RecoveryLedger :=
  l ← l; fst <$> append_and_flush l e [Wrote 40; Interrupted; Wrote 24] true.

Lemma wal_replay_recovers_witness :
  ∃ l output, foldl fresh_wal (Some wal_new) demo_events = Some l ∧ replay l true 8 = Some (output, true) ∧
    represents output {[11 := mkRecovered 11 70 1010000 1 2]}.
Proof.
  assert (Ha : ∃ l, appended wal_new demo_events l ∧ foldl fresh_wal (Some wal_new) demo_events = Some l).
  { eexists. split; [|vm_compute; reflexivity]. unfold demo_events.
    repeat (eapply (appended_cons _ _ [Wrote 40; Interrupted; Wrote 24]); [vm_compute; reflexivity|]). constructor. }
  destruct Ha as (l & Ha & El). exists l.
  destruct (wal_replay_recovers demo_events l 8 Ha) as [output H]; [|simpl; lia|lia|].
  - unfold demo_events. repeat (constructor; [split; simpl; lia|]). constructor.
  - exists output. split; [exact El|].
    assert (Hm : wal_run 8 ∅ demo_events = Some {[11 := mkRecovered 11 70 1010000 1 2]}) by (vm_compute; reflexivity).
    rewrite Hm in H. exact H.
Defined.

(** C31 (safety): no single corrupted byte goes unnoticed.  If a write-ahead log
    verifies, changing any one byte that is not in a record's four padding bytes
    makes [verify_wal_integrity] return false. *)
Theorem wal_detects_corruption file i x x' :
  (verify_wal_integrity file).2 = true → Forall (λ b, 0 ≤ b < 256) file →
  file !! i = Some x → 0 ≤ x' < 256 → x' ≠ x → (i mod 64 < 60)%nat →
  (verify_wal_integrity (<[i:=x']> file)).2 = false.
Proof.
  intros H Hb Hx Hx' Hne Hi. unfold verify_wal_integrity, wal_whole, wal_records, kRecoveryRecordSize in *. rewrite length_insert.
  destruct (Z.eqb_spec (Z.of_nat (length file) mod 64) 0) as [E|]; [|done].
  pose proof (lookup_lt_Some _ _ _ Hx) as Hlt. pose proof (Z.div_mod (Z.of_nat (length file)) 64).
  eapply verify_refuses; try done; lia.
Qed.

Lemma wal_detects_corruption_witness :
  (verify_wal_integrity (<[90%nat:=7]> (wal_bytes 0 demo_events))).2 = false.
Proof.
  apply (wal_detects_corruption _ 90 0 7).
  - vm_compute; reflexivity.
  - by_decide.
  - vm_compute; reflexivity.
  - lia.
  - lia.
  - apply (bool_decide_unpack _). vm_compute. exact I.
Defined.

(** A record whose number is not the expected one stops the replay. *)
Lemma replay_stops n s s' e rest output cap :
  event_fits e → 0 ≤ s' < 2 ^ 64 → s ≠ s' →
  replay_records (S n) (record_bytes (make_record s' e) ++ rest) s output cap = Some (output, false).
Proof.
  intros He Hs Hne. cbn [replay_records].
  rewrite slice_first by (rewrite ?length_app, ?record_bytes_length; unfold kRecoveryRecordSize; lia).
  change (Z.to_nat kRecoveryRecordSize) with 64%nat. rewrite take_app_length' by (by rewrite record_bytes_length).
  cbn [mbind option_bind]. unfold record_valid. rewrite record_of_bytes by done.
  cbn [make_record rr_sequence]. rewrite (proj2 (Z.eqb_neq s' s)) by done. by rewrite andb_false_r.
Qed.

(** An append whose [fsync] fails poisons the ledger.  The record is
    already in the file but the sequence number is not advanced, so the next
    append succeeds with the same number; from then on replay returns false,
    whatever else is appended. *)
Theorem failed_fsync_poisons_the_log es e e' es' l writes l1 writes' l2 l3 capacity :
  appended wal_new es l →
  append_and_flush l e writes false = Some (l1, false) →
  write_all (wal_file l) (record_bytes (make_record (wal_sequence l) e)) writes = Some (wal_file l1, true) →
  append_and_flush l1 e' writes' true = Some (l2, true) → appended l2 es' l3 →
  Forall event_fits (es ++ e :: e' :: es') → Z.of_nat (length (es ++ e :: e' :: es')) < 2 ^ 57 →
  ∃ output, replay l3 true capacity = Some (output, false).
Proof.
  intros Ha Hfail Hw Hnext Hrest He Hn. rewrite length_app in Hn. cbn [length] in Hn.
  destruct (appended_file _ _ _ Ha) as (Hf & Hs & Ho); [simpl; lia..|]. cbn [wal_new wal_file wal_sequence wal_is_open app] in *.
  apply write_all_ok in Hw. assert (Hs1 : wal_sequence l1 = wal_sequence l).
  { unfold append_and_flush in Hfail. destruct (_ || _); [by injection Hfail as <-|].
    destruct (write_all _ _ _) as [[f []]|]; cbn [mbind option_bind negb] in Hfail;
      by simplify_eq/=. }
  destruct (append_inv _ _ _ _ _ Hnext) as (Ho1 & _ & ->). 
  rewrite Z.add_0_l in Hs. rewrite Hs1, Hs, Hw, Hf, Hs in Hrest.
  assert (Hu : u64 (Z.of_nat (length es) + 1) = Z.of_nat (length es) + 1) by (apply Z.mod_small; lia). rewrite Hu in Hrest.
  destruct (appended_file _ _ _ Hrest) as (Hf3 & _ & Ho3); [simpl; lia..|]. cbn [wal_file wal_sequence wal_is_open] in *.
  rewrite <- !app_assoc in Hf3.
  destruct (wal_shape (wal_file l3) (length es + S (S (length es')))) as [Hwh Hwr].
  { rewrite Hf3, !length_app, !wal_bytes_length, !record_bytes_length. lia. }
  unfold replay. rewrite Ho3, Hwh, Hwr, Nat2Z.id by done. cbn [negb orb].
  destruct (capacity =? 0); [by eexists|]. cbn [orb]. rewrite (proj2 (Nat.eqb_neq _ 0)).
  2: { rewrite Hf3, !length_app, !record_bytes_length. lia. }
  rewrite Hf3. apply Forall_app in He as [He He']. apply Forall_cons in He' as [Hfe He']. apply Forall_cons in He' as [Hfe' _].
  edestruct (replay_bytes es (S (S (length es'))) 0 [] ∅ capacity) as [out H]; [done|by split; [constructor|]|done|lia|lia|].
  destruct (wal_run capacity ∅ es) as [m|]; [|eexists; exact H]. destruct H as (E & Hr & Hm). rewrite E, Z.add_0_l.
  destruct (replay_bytes [e] (S (length es')) (Z.of_nat (length es)) out m capacity
    (record_bytes (make_record (Z.of_nat (length es)) e') ++ wal_bytes (Z.of_nat (length es) + 1) es')) as [out2 H2];
    [by constructor|done|done|lia|simpl; lia|].
  cbn [wal_bytes] in H2. rewrite app_nil_r in H2. cbn [length Nat.add] in H2.
  destruct (wal_run capacity m [e]) as [m2|]; [|eexists; exact H2]. destruct H2 as (E2 & _). rewrite E2.
  eexists. apply replay_stops; [done|lia|lia].
Qed.

Lemma failed_fsync_poisons_the_log_witness :
  ∃ l1 l2 output, append_and_flush wal_new (mkEvent kAdd 10 100 1000000 0 1) [Wrote 64] false = Some (l1, false) ∧
    append_and_flush l1 (mkEvent kAdd 11 50 1010000 0 2) [Wrote 64] true = Some (l2, true) ∧
    replay l2 true 8 = Some (output, false).
Proof.
  eexists _, _. edestruct (λ l1 l2, failed_fsync_poisons_the_log [] (mkEvent kAdd 10 100 1000000 0 1)
    (mkEvent kAdd 11 50 1010000 0 2) [] wal_new [Wrote 64] l1 [Wrote 64] l2 l2 8) as [output H].
  - constructor.
  - vm_compute; reflexivity.
  - vm_compute; reflexivity.
  - vm_compute; reflexivity.
  - constructor.
  - repeat (constructor; [split; simpl; lia|]). constructor.
  - simpl. lia.
  - exists output. split; [vm_compute; reflexivity|]. split; [vm_compute; reflexivity|]. exact H.
Defined.
