(* ===== verification/OrderTable.v ===== *)
(** * OrderTable: what the execution gateway needs of the reconciliation ledger

    The gateway talks to its table of live orders through [OrderTable]; its
    theorems use only [OrderTableLaws].  The open-addressing ledger of
    Reconciliation.v implements both. *)

From S2P Require Import Prelude Reconciliation.
From Stdlib Require Import ZArith Lia.
From stdpp Require Import base tactics gmap numbers option list.
Open Scope Z_scope.

Class OrderTable (T : Type) := {
  ot_register : T → Z → Z → T * bool;
  ot_replace : T → Z → Z → T * bool;
  ot_apply : T → ExecutionReport → T * bool;
  ot_cancel : T → Z → option (T * bool);
  ot_contains : T → Z → bool
}.

Class OrderTableLaws (T : Type) `{OrderTable T} := {
  (** the table represents a map from live order id to remaining quantity *)
  ot_rep : T → gmap Z Z → Prop;
  ot_capacity : Z;
  ot_register_refused t id q : id = 0 ∨ q ≤ 0 → ot_register t id q = (t, false);
  ot_register_known t g id q : ot_rep t g → Z.of_nat (size g) < ot_capacity → id ≠ 0 → 0 < q → is_Some (g !! id) →
    ∃ t', ot_register t id q = (t', false) ∧ ot_rep t' g;
  ot_register_new t g id q : ot_rep t g → Z.of_nat (size g) < ot_capacity → id ≠ 0 → 0 < q → g !! id = None →
    ∃ t', ot_register t id q = (t', true) ∧ ot_rep t' (<[id := q]> g);
  ot_cancel_known t g id : ot_rep t g → Z.of_nat (size g) < ot_capacity → id ≠ 0 → is_Some (g !! id) →
    ∃ t', ot_cancel t id = Some (t', true) ∧ ot_rep t' (delete id g);
  ot_contains_law t g id : ot_rep t g → ot_contains t id = bool_decide (is_Some (g !! id))
}.

(** ** The open-addressing ledger as an instance *)

(** The capacity is a template parameter; the gateway uses the default. *)
Class LedgerBits := { ledger_bits : Z; ledger_bits_ok : 0 < ledger_bits ≤ 31 }.

#[export] Instance default_ledger_bits : LedgerBits | 10 := { ledger_bits := 16; ledger_bits_ok := ltac:(lia) }.

#[export] Instance ledger_table `{LedgerBits} : OrderTable ReconciliationLedger := {
  ot_register := register_order ledger_bits;
  ot_replace := rl_replace ledger_bits;
  ot_apply := rl_apply ledger_bits;
  ot_cancel := rl_cancel ledger_bits;
  ot_contains := rl_contains ledger_bits
}.

#[export] Program Instance ledger_laws `{LedgerBits} : OrderTableLaws ReconciliationLedger := {
  ot_rep := ledger_ok ledger_bits;
  ot_capacity := rl_Capacity ledger_bits
}.
Next Obligation.
  intros ? t id q Hb. cbn. unfold register_order. destruct Hb as [->|Hq]; [done|].
  rewrite (proj2 (Z.leb_le q 0)) by lia. by rewrite orb_true_r.
Qed.
Next Obligation.
  intros ? t g id q Ht Hs Hid Hq [r Hr].
  destruct (register_ok ledger_bits ledger_bits_ok t g id q Ht) as (t' & E & Hok); [by repeat split|].
  cbn [rl_do spec_do] in *. rewrite accepted, Hr in * by done. injection E as E. exists t'. by rewrite <- E.
Qed.
Next Obligation.
  intros ? t g id q Ht Hs Hid Hq Hr.
  destruct (register_ok ledger_bits ledger_bits_ok t g id q Ht) as (t' & E & Hok); [by repeat split|].
  cbn [rl_do spec_do] in *. rewrite accepted, Hr in * by done. injection E as E. exists t'. by rewrite <- E.
Qed.
Next Obligation.
  intros ? t g id Ht Hs Hid [r Hr].
  destruct (cancel_ok ledger_bits ledger_bits_ok t g id Ht) as (t' & E & Hok); [by repeat split|].
  cbn [rl_do spec_do] in *. rewrite Hr in *. by exists t'.
Qed.
Next Obligation. intros ? t g id Ht. by apply (contains_ok ledger_bits ledger_bits_ok). Qed.
