(* ===== verification/Risk.v ===== *)
(** * Risk: pre-trade limits and the OUCH packet templates (src/luv_execution.hpp,
    namespace exec, PreTradeRisk, OuchPacketTemplates)

    The checks of [evaluate] are 0/1 bytes combined with [&] in the source and
    booleans here; unsigned arithmetic wraps and the overflow builtins return the
    wrapped result with their flag, as in the source. *)

From S2P Require Import Prelude Arena SymbolTable Itch FeedSim FeedGen.
From Stdlib Require Import ZArith Lia.
From stdpp Require Import base tactics gmap numbers option list.
Open Scope Z_scope.

(** ** namespace exec *)

Definition kBuy : Z := 0.
Definition kSell : Z := 1.

Definition kRejectNone : Z := 0.
Definition kRejectQty : Z := Z.shiftl 1 0.
Definition kRejectPosition : Z := Z.shiftl 1 1.
Definition kRejectStaleAlpha : Z := Z.shiftl 1 2.
Definition kRejectHalted : Z := Z.shiftl 1 3.
Definition kRejectFlatSignal : Z := Z.shiftl 1 4.
Definition kRejectOrderCapacity : Z := Z.shiftl 1 5.
Definition kRejectInvalidSymbol : Z := Z.shiftl 1 6.
Definition kRejectPrice : Z := Z.shiftl 1 7.

Record RiskLimits := mkLimits {
  max_order_qty : Z;
  max_abs_position : Z;
  max_alpha_age_ns : Z;
  lim_min_price : Z;
  lim_max_price : Z;
  reference_price : Z;
  max_price_collar_pct : Z;
  max_gross_loss : Z;
  lim_max_consecutive_rejections : Z
}.

Definition RiskLimits_default : RiskLimits := mkLimits 1000 100000 250000 kMinPrice kMaxPrice 0 10 0 5.

Definition RiskLimits_is_valid (l : RiskLimits) : bool :=
  is_valid_quantity (max_order_qty l) && (0 <=? max_abs_position l) && is_valid_price (lim_min_price l) &&
  (lim_min_price l <=? lim_max_price l) && (lim_max_price l <=? kMaxPrice) && (0 <=? reference_price l) &&
  (0 <=? max_price_collar_pct l) && (max_price_collar_pct l <=? 100) && (0 <=? max_gross_loss l).

Record OrderIntent := mkIntent {
  oi_symbol_idx : Z;
  oi_side : Z;
  oi_qty : Z;
  oi_price : Z;
  oi_alpha_timestamp_ns : Z;
  oi_now_ns : Z;
  oi_client_order_id : Z;
  oi_time_in_force : Z
}.

Record OrderReplaceIntent := mkReplaceIntent {
  ri_symbol_idx : Z;
  ri_original_order_id : Z;
  ri_replacement_order_id : Z;
  ri_new_qty : Z;
  ri_new_price : Z;
  ri_alpha_timestamp_ns : Z;
  ri_now_ns : Z;
  ri_time_in_force : Z
}.

Record RiskDecision := mkDecision { rd_pass : bool; rd_reject_mask : Z }.

(** ** struct RiskState of the arena *)

Record RiskState := mkRisk {
  net_position : Z;
  gross_exposure : Z;
  daily_pnl : Z;
  max_drawdown : Z;
  current_drawdown : Z;
  rs_order_count : Z;
  reject_count : Z;
  halted : Z
}.

Definition RiskState_init : RiskState := mkRisk 0 0 0 0 0 0 0 0.

Definition clamp_u32 (v : Z) : Z :=
  let ok := (0 <=? v) && (u64 v <=? 0xFFFFFFFF) in
  if ok then u32 v else if v <? 0 then 0 else 0xFFFFFFFF.

Definition signed_qty_delta (side qty : Z) : Z :=
  let sign_mask := - Z.land side 1 in Z.lxor qty sign_mask - sign_mask.

Definition abs_i64 (v : Z) : Z :=
  let bits := u64 v in
  let sign := Z.shiftr bits 63 in
  u64 (Z.lxor bits (u64 (0 - sign)) + sign).

(** [__builtin_add_overflow] and [__builtin_mul_overflow] on [int64_t]. *)
Definition builtin_overflow (z : Z) : bool * Z := (negb (bool_decide (INT64_MIN ≤ z ≤ INT64_MAX)), i64 z).

(** ** PreTradeRisk *)

Definition RiskTable : Type := gmap Z RiskLimits.

Definition risk_init (t : RiskTable) (arena_initialised : bool) : RiskTable * bool :=
  if arena_initialised then (∅, true) else (t, false).

Definition limits_at (t : RiskTable) (sym : Z) : RiskLimits := aget RiskLimits_default t sym.

Definition set_limits (t : RiskTable) (sym : Z) (l : RiskLimits) : RiskTable * bool :=
  if (kSymbols <=? sym) || negb (RiskLimits_is_valid l) then (t, false) else (<[sym := l]> t, true).

Definition limits (t : RiskTable) (sym : Z) : RiskLimits := limits_at t (if sym <? kSymbols then sym else 0).

(** The price collar around the reference price. *)
Definition collar_ok (l : RiskLimits) (price : Z) : bool :=
  if (0 <? reference_price l) && (0 <? max_price_collar_pct l) then
    let price := u64 price in
    let reference := u64 (reference_price l) in
    let diff := if reference <=? price then price - reference else reference - price in
    diff <=? u64 (reference * u64 (max_price_collar_pct l)) / 100
  else true.

Definition valid_price (l : RiskLimits) (price : Z) : bool :=
  ((if 0 <? lim_min_price l then lim_min_price l else 1) <=? price) &&
  (u64 price <=? u64 (if 0 <? lim_max_price l then lim_max_price l else 0xFFFFFFFF)) && (u64 price <=? 0xFFFFFFFF).

(** [evaluate] once the limits and the symbol's risk state are at hand. *)
Definition evaluate_limits (l : RiskLimits) (risk : RiskState) (i : OrderIntent) : RiskDecision :=
  let valid_qty := (0 <? oi_qty i) && (oi_qty i <=? max_order_qty l) in
  let safe_qty := if valid_qty then oi_qty i else 0 in
  let signed_delta := signed_qty_delta (oi_side i) safe_qty in
  let '(position_ovf, projected) := builtin_overflow (net_position risk + signed_delta) in
  let timestamp_ordered := oi_alpha_timestamp_ns i <=? oi_now_ns i in
  let age_ns := if timestamp_ordered then oi_now_ns i - oi_alpha_timestamp_ns i else 0 in
  let valid_pos := negb position_ovf && (0 <=? max_abs_position l) &&
                   (abs_i64 projected <=? u64 (max_abs_position l)) in
  let valid_alpha := timestamp_ordered && (age_ns <=? max_alpha_age_ns l) in
  let valid_halt := halted risk =? 0 in
  let valid_price_final := valid_price l (oi_price i) && collar_ok l (oi_price i) in
  let loss_ok := (max_gross_loss l <=? 0) || (current_drawdown risk <=? max_gross_loss l) in
  let '(notional_ovf, order_notional) := builtin_overflow (oi_price i * safe_qty) in
  let '(exposure_ovf, _) := builtin_overflow (gross_exposure risk + order_notional) in
  let valid_notional := valid_price_final && negb notional_ovf && negb exposure_ovf && (0 <=? gross_exposure risk) in
  let pass := valid_qty && valid_pos && valid_alpha && valid_halt && valid_price_final && valid_notional && loss_ok in
  let bit b mask := Z.b2z (negb b) * mask in
  let reject := Z.lor (Z.lor (Z.lor (Z.lor (bit valid_qty kRejectQty) (bit valid_pos kRejectPosition))
                  (bit valid_alpha kRejectStaleAlpha)) (bit (valid_halt && loss_ok) kRejectHalted))
                  (bit (valid_price_final && valid_notional) kRejectPrice) in
  let fail_mask := u8 (Z.b2z pass - 1) in
  mkDecision pass (Z.land reject fail_mask).

(** [evaluate]; [risk_of] reads the arena's risk state, [None] before [init]. *)
Definition evaluate (t : RiskTable) (risk_of : option (Z → RiskState)) (i : OrderIntent) : RiskDecision :=
  match risk_of with
  | Some risk => if kSymbols <=? oi_symbol_idx i then mkDecision false kRejectInvalidSymbol
                 else evaluate_limits (limits_at t (oi_symbol_idx i)) (risk (oi_symbol_idx i)) i
  | None => mkDecision false kRejectInvalidSymbol
  end.

(** ** OuchPacketTemplates *)

Record OutboundPacket := mkPacket { pk_len : Z; pk_bytes : list Z }.

Definition kEnterOrderLen : Z := 48.
Definition kReplaceOrderLen : Z := 32.

(** [store_u32_be] at an offset of a buffer. *)
Definition store_u32_be (dst : list Z) (off : nat) (v : Z) : option (list Z) :=
  put dst off [u8 (Z.shiftr v 24); u8 (Z.shiftr v 16); u8 (Z.shiftr v 8); u8 v].

(** [make_symbol]: the text [snprintf] leaves in the eight bytes. *)
Definition make_symbol (sym : Z) : list Z := take 8 (83 :: pad3 (dec_digits 10 sym) ++ replicate 4 32).

Definition init_template (sym side : Z) : option (list Z) :=
  t ← put (replicate 48 0) 0 [79];
  t ← put t 5 [if side =? kBuy then 66 else 83];
  t ← put t 10 (make_symbol sym);
  t ← store_u32_be t 22 0;
  t ← put t 26 [76; 85; 86; 32];
  t ← put t 30 [89];
  t ← put t 31 [65];
  t ← put t 32 [78];
  t ← store_u32_be t 33 0;
  t ← put t 37 [78];
  put t 38 [32].

(** The templates of an initialised object: [init] fills every one. *)
Definition build_enter_order (initialised : bool) (i : OrderIntent) (out : OutboundPacket)
    : option (OutboundPacket * bool) :=
  if negb initialised || (kSymbols <=? oi_symbol_idx i) then Some (out, false) else
  tmpl ← init_template (oi_symbol_idx i) (Z.land (oi_side i) 1);
  b ← put (pk_bytes out) 0 tmpl;
  b ← store_u32_be b 1 (oi_client_order_id i);
  b ← store_u32_be b 6 (clamp_u32 (oi_qty i));
  b ← store_u32_be b 18 (clamp_u32 (oi_price i));
  b ← store_u32_be b 22 (oi_time_in_force i);
  Some (mkPacket kEnterOrderLen b, true).

Definition build_replace_order (initialised : bool) (i : OrderReplaceIntent) (out : OutboundPacket)
    : option (OutboundPacket * bool) :=
  if negb initialised || (kSymbols <=? ri_symbol_idx i) then Some (out, false) else
  b ← put (replicate 64 0) 0 [85];
  b ← store_u32_be b 1 (ri_original_order_id i);
  b ← store_u32_be b 5 (ri_replacement_order_id i);
  b ← store_u32_be b 9 (clamp_u32 (ri_new_qty i));
  b ← store_u32_be b 13 (clamp_u32 (ri_new_price i));
  b ← store_u32_be b 17 (ri_time_in_force i);
  b ← put b 21 [89];
  Some (mkPacket kReplaceOrderLen b, true).

(** ** What the checks compute *)

Lemma signed_qty_delta_spec side q : signed_qty_delta side q = if Z.even side then q else - q.
Proof.
  unfold signed_qty_delta. change (Z.land side 1) with (Z.land side (Z.ones 1)).
  rewrite Z.land_ones by lia. change (2 ^ 1) with 2. rewrite Zmod_even. cbv zeta.
  destruct (Z.even side); cbn [Z.opp].
  - rewrite Z.lxor_0_r. lia.
  - rewrite Z.lxor_m1_r. unfold Z.lnot. lia.
Qed.

Lemma u64_neg v : - 2 ^ 63 ≤ v < 0 → u64 v = v + 2 ^ 64.
Proof.
  intros H. unfold u64. replace v with (v + 2 ^ 64 + (-1) * 2 ^ 64) at 1 by lia.
  rewrite Z_mod_plus_full. apply Z.mod_small. lia.
Qed.

Lemma abs_i64_spec v : - 2 ^ 63 ≤ v < 2 ^ 63 → abs_i64 v = Z.abs v.
Proof.
  intros H. unfold abs_i64. destruct (decide (0 ≤ v)) as [Hv|Hv].
  - assert (Hu : u64 v = v) by (apply Z.mod_small; lia). rewrite Hu.
    rewrite Z.shiftr_div_pow2, Z.div_small by lia. change (u64 (0 - 0)) with 0. rewrite Z.lxor_0_r, Z.add_0_r, Hu. lia.
  - cbv zeta. rewrite (u64_neg v) by lia. rewrite Z.shiftr_div_pow2 by lia.
    assert (Hd : (v + 2 ^ 64) / 2 ^ 63 = 1) by (symmetry; apply (Z.div_unique _ _ _ (v + 2 ^ 63)); lia). rewrite Hd.
    change (u64 (0 - 1)) with (Z.ones 64).
    assert (Hx : Z.lxor (v + 2 ^ 64) (Z.ones 64) = - v - 1).
    { apply Z.bits_inj'. intros n Hn. rewrite Z.lxor_spec.
      replace (- v - 1) with (Z.lnot v) by (unfold Z.lnot; lia). rewrite Z.lnot_spec by lia.
      destruct (decide (n < 64)) as [Hlt|Hge].
      - rewrite Z.ones_spec_low by lia.
        rewrite <- (Z.mod_pow2_bits_low (v + 2 ^ 64) 64 n), <- (Z.mod_pow2_bits_low v 64 n) by lia.
        replace (v + 2 ^ 64) with (v + 1 * 2 ^ 64) by lia. rewrite Z_mod_plus_full. by destruct (Z.testbit _ _).
      - rewrite Z.ones_spec_high by lia. rewrite (Z.bits_above_log2 (v + 2 ^ 64)); [|lia|].
        + rewrite Z.bits_above_log2_neg; [done|lia|].
          destruct (decide (Z.pred (- v) = 0)) as [->|]; [simpl; lia|].
          apply Z.log2_lt_pow2; [lia|]. apply Z.lt_le_trans with (2 ^ 64); [lia|]. apply Z.pow_le_mono_r; lia.
        + apply Z.log2_lt_pow2; [lia|]. apply Z.lt_le_trans with (2 ^ 64); [lia|]. apply Z.pow_le_mono_r; lia. }
    rewrite Hx. unfold u64. rewrite Z.mod_small; lia.
Qed.

Lemma i64_id z : - 2 ^ 63 ≤ z < 2 ^ 63 → i64 z = z.
Proof.
  intros H. unfold i64. destruct (decide (0 ≤ z)).
  - assert (Hu : u64 z = z) by (apply Z.mod_small; lia). rewrite Hu. by rewrite (proj2 (Z.ltb_lt _ _)) by lia.
  - rewrite u64_neg by lia. rewrite (proj2 (Z.ltb_ge _ _)) by lia. lia.
Qed.

(** The 64-bit ranges the C++ types give. *)
Definition is_i64 (z : Z) : Prop := - 2 ^ 63 ≤ z < 2 ^ 63.
Definition is_u64 (z : Z) : Prop := 0 ≤ z < 2 ^ 64.

Record limits_ok (l : RiskLimits) : Prop := mk_limits_ok {
  lo_valid : RiskLimits_is_valid l = true;
  lo_position : is_i64 (max_abs_position l);
  lo_reference : is_i64 (reference_price l)
}.

(** The price is within the collar, and the product the code computes fits 64 bits. *)
Definition within_collar (l : RiskLimits) (p : Z) : Prop :=
  0 < reference_price l → 0 < max_price_collar_pct l →
  100 * Z.abs (p - reference_price l) ≤ reference_price l * max_price_collar_pct l ∧
  reference_price l * max_price_collar_pct l < 2 ^ 64.

(** What a passing order satisfies, in unbounded arithmetic. *)
Record admissible (l : RiskLimits) (r : RiskState) (i : OrderIntent) : Prop := mk_admissible {
  ad_qty : 0 < oi_qty i ≤ max_order_qty l;
  ad_position : Z.abs (net_position r + (if Z.even (oi_side i) then oi_qty i else - oi_qty i)) ≤ max_abs_position l;
  ad_alpha : oi_alpha_timestamp_ns i ≤ oi_now_ns i ≤ oi_alpha_timestamp_ns i + max_alpha_age_ns l;
  ad_live : halted r = 0;
  ad_price : lim_min_price l ≤ oi_price i ≤ lim_max_price l;
  ad_collar : within_collar l (oi_price i);
  ad_loss : 0 < max_gross_loss l → current_drawdown r ≤ max_gross_loss l;
  ad_exposure : 0 ≤ gross_exposure r ∧ gross_exposure r + oi_price i * oi_qty i ≤ INT64_MAX
}.

Lemma limits_valid_inv l : RiskLimits_is_valid l = true →
  1 ≤ max_order_qty l ≤ kMaxQuantity ∧ 0 ≤ max_abs_position l ∧ 1 ≤ lim_min_price l ≤ lim_max_price l ∧
  lim_max_price l ≤ kMaxPrice ∧ 0 ≤ reference_price l ∧ 0 ≤ max_price_collar_pct l ≤ 100 ∧ 0 ≤ max_gross_loss l.
Proof.
  unfold RiskLimits_is_valid, is_valid_quantity, is_valid_price, kMinPrice, kMinQuantity.
  rewrite !andb_true_iff, !Z.leb_le. lia.
Qed.

Lemma valid_price_spec l p : RiskLimits_is_valid l = true → is_i64 p →
  valid_price l p = true ↔ lim_min_price l ≤ p ≤ lim_max_price l.
Proof.
  intros (_ & _ & Hmin & Hmax & _)%limits_valid_inv Hp. unfold kMaxPrice, is_i64 in *. unfold valid_price.
  rewrite !(proj2 (Z.ltb_lt 0 _)) by lia.
  assert (Hm : u64 (lim_max_price l) = lim_max_price l) by (apply Z.mod_small; lia). rewrite Hm.
  rewrite !andb_true_iff, !Z.leb_le. destruct (decide (0 ≤ p)).
  - assert (Hu : u64 p = p) by (apply Z.mod_small; lia). rewrite Hu. lia.
  - lia.
Qed.

(** A product that wraps leaves a bound that no order price reaches. *)
Lemma collar_spec l p : limits_ok l → 0 ≤ p ≤ kMaxPrice → collar_ok l p = true ↔ within_collar l p.
Proof.
  intros [Hv _ Hr] Hp. destruct (limits_valid_inv l Hv) as (_ & _ & _ & _ & H0 & Hpct & _). unfold is_i64, kMaxPrice in *.
  unfold collar_ok, within_collar. destruct (Z.ltb_spec 0 (reference_price l)) as [Ha|Ha], (Z.ltb_spec 0 (max_price_collar_pct l)) as [Hb|Hb];
    cbn [andb]; try (split; [lia|done]).
  rewrite (u64_small p), (u64_small (reference_price l)), (u64_small (max_price_collar_pct l)) by lia.
  set (m := reference_price l * max_price_collar_pct l). assert (Hm : 0 < m ≤ 100 * reference_price l) by (unfold m; nia).
  rewrite Z.leb_le. destruct (Z.lt_ge_cases m (2 ^ 64)) as [Hs|Hs].
  - rewrite u64_small by lia. pose proof (Z.div_mod m 100). pose proof (Z.mod_pos_bound m 100).
    destruct (Z.leb_spec (reference_price l) p); split; [intros; lia|intros Hi; specialize (Hi Ha Hb); lia|intros; lia|intros Hi; specialize (Hi Ha Hb); lia].
  - split; [|intros Hi; specialize (Hi Ha Hb); lia]. intros Hd. exfalso. rewrite (proj2 (Z.leb_gt _ _)) in Hd by lia.
    assert (Hw : u64 m ≤ m - 2 ^ 64).
    { unfold u64. replace m with (m - 2 ^ 64 + 1 * 2 ^ 64) at 1 by lia. rewrite Z_mod_plus_full. apply Z.mod_le; lia. }
    pose proof (Z.mul_div_le (u64 m) 100). lia.
Qed.

(** How the seven checks are combined. *)
Lemma gate_bits (q p a h lo pf n : bool) :
  let bit (b : bool) m := Z.b2z (negb b) * m in
  let pass := q && p && a && h && pf && n && lo in
  let mask := Z.land (Z.lor (Z.lor (Z.lor (Z.lor (bit q kRejectQty) (bit p kRejectPosition)) (bit a kRejectStaleAlpha))
                (bit (h && lo) kRejectHalted)) (bit (pf && n) kRejectPrice)) (u8 (Z.b2z pass - 1)) in
  (pass = true ↔ q = true ∧ p = true ∧ a = true ∧ h && lo = true ∧ pf && n = true) ∧ (mask = 0 ↔ pass = true) ∧
  (Z.testbit mask 0 = false ↔ q = true) ∧ (Z.testbit mask 1 = false ↔ p = true) ∧ (Z.testbit mask 2 = false ↔ a = true) ∧
  (Z.testbit mask 3 = false ↔ h && lo = true) ∧ (Z.testbit mask 7 = false ↔ pf && n = true).
Proof. destruct q, p, a, h, lo, pf, n; vm_compute; naive_solver. Qed.

Definition intent_ok (i : OrderIntent) : Prop :=
  is_i64 (oi_qty i) ∧ is_i64 (oi_price i) ∧ is_u64 (oi_alpha_timestamp_ns i) ∧ is_u64 (oi_now_ns i) ∧ 0 ≤ oi_side i.

Definition risk_ok (r : RiskState) : Prop := is_i64 (net_position r) ∧ is_i64 (gross_exposure r).

Lemma admissible_iff l r i : admissible l r i ↔ 0 < oi_qty i ≤ max_order_qty l ∧
  Z.abs (net_position r + (if Z.even (oi_side i) then oi_qty i else - oi_qty i)) ≤ max_abs_position l ∧
  oi_alpha_timestamp_ns i ≤ oi_now_ns i ≤ oi_alpha_timestamp_ns i + max_alpha_age_ns l ∧
  (halted r = 0 ∧ (0 < max_gross_loss l → current_drawdown r ≤ max_gross_loss l)) ∧
  (lim_min_price l ≤ oi_price i ≤ lim_max_price l ∧
    within_collar l (oi_price i) ∧
    0 ≤ gross_exposure r ∧ gross_exposure r + oi_price i * oi_qty i ≤ INT64_MAX).
Proof. split; [by intros []|]. intros (A & B & C & (D & E) & F & G & H). by constructor. Qed.

(** The position check, for a quantity that passed. *)
Lemma position_spec l r i : limits_ok l → risk_ok r → 0 ≤ oi_side i → 0 < oi_qty i ≤ kMaxQuantity →
  let '(ovf, projected) := builtin_overflow (net_position r + signed_qty_delta (oi_side i) (oi_qty i)) in
  negb ovf && (0 <=? max_abs_position l) && (abs_i64 projected <=? u64 (max_abs_position l)) = true ↔
  Z.abs (net_position r + (if Z.even (oi_side i) then oi_qty i else - oi_qty i)) ≤ max_abs_position l.
Proof.
  intros [Hv Hm _] [Hn _] Hs Hq. destruct (limits_valid_inv l Hv) as (_ & H0 & _).
  rewrite signed_qty_delta_spec. unfold builtin_overflow. set (z := net_position r + _).
  unfold is_i64, kMaxQuantity in *. rewrite negb_involutive, !andb_true_iff, bool_decide_eq_true, !Z.leb_le.
  assert (Hu : u64 (max_abs_position l) = max_abs_position l) by (apply Z.mod_small; lia). rewrite Hu.
  unfold INT64_MIN, INT64_MAX. split.
  - intros [[Hz _] Habs]. rewrite i64_id, abs_i64_spec in Habs by lia. done.
  - intros Habs. rewrite i64_id, abs_i64_spec by lia. lia.
Qed.

(** The price check: limits, collar and exposure. *)
Lemma price_spec l r i : limits_ok l → risk_ok r → is_i64 (oi_price i) → 0 < oi_qty i ≤ kMaxQuantity →
  let vp := valid_price l (oi_price i) && collar_ok l (oi_price i) in
  let '(notional_ovf, order_notional) := builtin_overflow (oi_price i * oi_qty i) in
  let '(exposure_ovf, _) := builtin_overflow (gross_exposure r + order_notional) in
  vp && (vp && negb notional_ovf && negb exposure_ovf && (0 <=? gross_exposure r)) = true ↔
  lim_min_price l ≤ oi_price i ≤ lim_max_price l ∧
  within_collar l (oi_price i) ∧
  0 ≤ gross_exposure r ∧ gross_exposure r + oi_price i * oi_qty i ≤ INT64_MAX.
Proof.
  intros Hl [_ Hg] Hp Hq. unfold builtin_overflow. cbv zeta. rewrite !negb_involutive.
  pose proof (valid_price_spec l (oi_price i) (lo_valid l Hl) Hp) as Hvp.
  destruct (limits_valid_inv l (lo_valid l Hl)) as (_ & _ & Hmin & Hmax & _).
  unfold kMaxPrice, kMaxQuantity, is_i64 in *.
  destruct (valid_price l (oi_price i)); cbn [andb]; [|split; [done|]; intros (H & _); by apply Hvp in H].
  assert (Hpr : lim_min_price l ≤ oi_price i ≤ lim_max_price l) by (by apply Hvp).
  rewrite <- (collar_spec l (oi_price i)) by (done || (unfold kMaxPrice; lia)).
  destruct (collar_ok l (oi_price i)); cbn [andb]; [|split; [done|]; intros (_ & H & _); done].
  assert (Hmul : 0 ≤ oi_price i * oi_qty i < 2 ^ 62) by nia.
  rewrite i64_id by lia. unfold INT64_MIN, INT64_MAX in *. rewrite bool_decide_true by lia. cbn [andb].
  rewrite andb_true_iff, bool_decide_eq_true, Z.leb_le. lia.
Qed.

(** What the decision says about an order: the verdict, and which check each bit
    of the mask reports. *)
Record gate_report (l : RiskLimits) (r : RiskState) (i : OrderIntent) (d : RiskDecision) : Prop := mk_report {
  gr_pass : rd_pass d = true ↔ admissible l r i;
  gr_mask : rd_reject_mask d = 0 ↔ rd_pass d = true;
  gr_qty : Z.testbit (rd_reject_mask d) 0 = false ↔ 0 < oi_qty i ≤ max_order_qty l;
  gr_alpha : Z.testbit (rd_reject_mask d) 2 = false ↔
    oi_alpha_timestamp_ns i ≤ oi_now_ns i ≤ oi_alpha_timestamp_ns i + max_alpha_age_ns l;
  gr_halted : Z.testbit (rd_reject_mask d) 3 = false ↔
    halted r = 0 ∧ (0 < max_gross_loss l → current_drawdown r ≤ max_gross_loss l);
  gr_sized : 0 < oi_qty i ≤ max_order_qty l →
    (Z.testbit (rd_reject_mask d) 1 = false ↔
       Z.abs (net_position r + (if Z.even (oi_side i) then oi_qty i else - oi_qty i)) ≤ max_abs_position l) ∧
    (Z.testbit (rd_reject_mask d) 7 = false ↔ lim_min_price l ≤ oi_price i ≤ lim_max_price l ∧
       within_collar l (oi_price i) ∧
       0 ≤ gross_exposure r ∧ gross_exposure r + oi_price i * oi_qty i ≤ INT64_MAX)
}.

Lemma gate_spec l r i : limits_ok l → risk_ok r → intent_ok i → gate_report l r i (evaluate_limits l r i).
Proof.
  intros Hl Hr (Hiq & Hip & Hia & Hin & His).
  destruct (limits_valid_inv l (lo_valid l Hl)) as (Hmq & _).
  unfold evaluate_limits. set (vq := (0 <? oi_qty i) && (oi_qty i <=? max_order_qty l)).
  assert (Hvq : vq = true ↔ 0 < oi_qty i ≤ max_order_qty l).
  { unfold vq. rewrite andb_true_iff, Z.ltb_lt, Z.leb_le. done. }
  set (va := (oi_alpha_timestamp_ns i <=? oi_now_ns i) && _).
  assert (Hva : va = true ↔ oi_alpha_timestamp_ns i ≤ oi_now_ns i ≤ oi_alpha_timestamp_ns i + max_alpha_age_ns l).
  { unfold va. destruct (Z.leb_spec (oi_alpha_timestamp_ns i) (oi_now_ns i)); cbn [andb]; [rewrite Z.leb_le; lia|].
    split; [done|lia]. }
  set (lo := (max_gross_loss l <=? 0) || _).
  assert (Hlo : lo = true ↔ (0 < max_gross_loss l → current_drawdown r ≤ max_gross_loss l)).
  { unfold lo. rewrite orb_true_iff, !Z.leb_le. lia. }
  assert (Hhl : (halted r =? 0) && lo = true ↔
    halted r = 0 ∧ (0 < max_gross_loss l → current_drawdown r ≤ max_gross_loss l)) by (by rewrite andb_true_iff, Z.eqb_eq, Hlo).
  destruct (builtin_overflow (net_position r + _)) as [povf proj] eqn:Eb1.
  destruct (builtin_overflow (oi_price i * _)) as [novf nt] eqn:Eb2.
  destruct (builtin_overflow (gross_exposure r + nt)) as [eovf gt] eqn:Eb3.
  set (vpos := _ && _ && (abs_i64 proj <=? _)). set (vpf := valid_price l _ && _). set (vn := vpf && _ && _ && _).
  pose proof (gate_bits vq vpos va (halted r =? 0) lo vpf vn) as (G & Gm & G0 & G1 & G2 & G3 & G7).
  rewrite Hhl in *. rewrite Hvq, Hva in *.
  assert (Hboth : 0 < oi_qty i ≤ max_order_qty l → (vpos = true ↔
      Z.abs (net_position r + (if Z.even (oi_side i) then oi_qty i else - oi_qty i)) ≤ max_abs_position l) ∧
    (vpf && vn = true ↔ lim_min_price l ≤ oi_price i ≤ lim_max_price l ∧
      within_collar l (oi_price i) ∧
      0 ≤ gross_exposure r ∧ gross_exposure r + oi_price i * oi_qty i ≤ INT64_MAX)).
  { intros Hq. assert (Ev : vq = true) by (by apply Hvq). rewrite Ev in Eb1, Eb2.
    pose proof (position_spec l r i Hl Hr His ltac:(lia)) as Hpos. pose proof (price_spec l r i Hl Hr Hip ltac:(lia)) as Hpr.
    rewrite Eb1 in Hpos. cbv zeta in Hpr. rewrite Eb2, Eb3 in Hpr. split; [exact Hpos|exact Hpr]. }
  split; cbn [rd_pass rd_reject_mask]; try done.
  - rewrite G, admissible_iff. split; intros (A & B & C & D & E); destruct (Hboth A) as [I1 I2]; by rewrite I1, I2 in *.
  - intros Hq. destruct (Hboth Hq) as [I1 I2]. by rewrite I1 in G1; rewrite I2 in G7.
Qed.

(** C19 (functional): the risk gate admits exactly the orders within the limits.
    For limits that [is_valid] accepts and any values of the C++ types, an order passes
    if and only if quantity, projected position, signal age, price, price collar,
    drawdown and gross exposure are all within bounds in exact arithmetic and the symbol
    is not halted.  The collar also asks that reference price times percentage fits 64
    bits: where that product wraps, the gate refuses every price.  The reject mask is
    zero exactly on a pass, and each of its bits reports its own check (the bits of
    position and price for an order whose quantity is valid). *)
Theorem risk_gate_exact l r i :
  limits_ok l → risk_ok r → intent_ok i → gate_report l r i (evaluate_limits l r i).
Proof. apply gate_spec. Qed.

Definition demo_limits : RiskLimits := mkLimits 1000 5000 250000 1 2000000 1000000 10 0 5.
Definition demo_risk : RiskState := mkRisk (-200) 5000000 0 0 0 1 0 0.
Definition demo_intent : OrderIntent := mkIntent 7 1 300 1010000 50 100 42 1.

Lemma demo_limits_ok : limits_ok demo_limits.
Proof. split; [reflexivity|unfold is_i64; simpl; lia..]. Qed.
Lemma demo_risk_ok : risk_ok demo_risk.
Proof. split; unfold is_i64; simpl; lia. Qed.
Lemma demo_intent_ok : intent_ok demo_intent.
Proof. unfold intent_ok, is_i64, is_u64. simpl. lia. Qed.

Lemma risk_gate_exact_witness :
  rd_pass (evaluate_limits demo_limits demo_risk demo_intent) = true ∧ admissible demo_limits demo_risk demo_intent.
Proof.
  destruct (risk_gate_exact demo_limits demo_risk demo_intent demo_limits_ok demo_risk_ok demo_intent_ok) as [H _ _ _ _ _].
  split; [vm_compute; reflexivity|]. apply H. vm_compute. reflexivity.
Defined.

(** ** Packets *)

(** The 48 bytes of an Enter Order and the 32 of a Replace Order, field by field. *)
Definition enter_image (i : OrderIntent) : list Z :=
  [79] ++ enc_be 4 (oi_client_order_id i) ++ [if Z.land (oi_side i) 1 =? kBuy then 66 else 83] ++
  enc_be 4 (clamp_u32 (oi_qty i)) ++ ticker (oi_symbol_idx i) ++ enc_be 4 (clamp_u32 (oi_price i)) ++
  enc_be 4 (oi_time_in_force i) ++ [76; 85; 86; 32; 89; 65; 78] ++ enc_be 4 0 ++ [78; 32] ++ replicate 9 0.

Definition replace_image (i : OrderReplaceIntent) : list Z :=
  [85] ++ enc_be 4 (ri_original_order_id i) ++ enc_be 4 (ri_replacement_order_id i) ++
  enc_be 4 (clamp_u32 (ri_new_qty i)) ++ enc_be 4 (clamp_u32 (ri_new_price i)) ++
  enc_be 4 (ri_time_in_force i) ++ [89] ++ replicate 42 0.

Ltac explode l H :=
  match type of H with
  | length l = O => apply nil_length_inv in H; subst l
  | length l = S _ =>
      let x := fresh "x" in let l' := fresh "l" in
      destruct l as [|x l']; [discriminate H|]; cbn [length] in H; apply eq_add_S in H; explode l' H
  end.

Lemma enter_order_bytes i out :
  oi_symbol_idx i < kSymbols → length (pk_bytes out) = 64%nat →
  build_enter_order true i out = Some (mkPacket kEnterOrderLen (enter_image i ++ drop 48 (pk_bytes out)), true).
Proof.
  intros Hs Hl. unfold build_enter_order, init_template. rewrite (proj2 (Z.leb_gt _ _)) by done. cbn [negb orb].
  destruct out as [len b]. cbn [pk_bytes] in *. unfold enter_image.
  change (make_symbol (oi_symbol_idx i)) with (ticker (oi_symbol_idx i)).
  pose proof (ticker_length (oi_symbol_idx i)) as Ht. revert Ht. generalize (ticker (oi_symbol_idx i)) as t. intros t Ht.
  explode b Hl. explode t Ht. reflexivity.
Qed.

Lemma replace_order_bytes i out : ri_symbol_idx i < kSymbols →
  build_replace_order true i out = Some (mkPacket kReplaceOrderLen (replace_image i), true).
Proof.
  intros Hs. unfold build_replace_order. rewrite (proj2 (Z.leb_gt _ _)) by done. cbn [negb orb]. reflexivity.
Qed.

Lemma clamp_u32_id v : 0 ≤ v < 2 ^ 32 → clamp_u32 v = v.
Proof.
  intros H. unfold clamp_u32. assert (Hu : u64 v = v) by (apply Z.mod_small; lia). rewrite Hu.
  rewrite (proj2 (Z.leb_le 0 v)), (proj2 (Z.leb_le v _)) by lia. cbn [andb]. apply Z.mod_small. lia.
Qed.

(** What a venue reads out of an Enter Order packet. *)
Definition read_enter_order (p : OutboundPacket) : option (Z * Z * Z * list Z * Z * Z) :=
  token ← be32 (pk_bytes p) 1;
  side ← pk_bytes p !! 5%nat;
  qty ← be32 (pk_bytes p) 6;
  symbol ← slice (pk_bytes p) 10 8;
  price ← be32 (pk_bytes p) 18;
  tif ← be32 (pk_bytes p) 22;
  Some (token, side, qty, symbol, price, tif).

(** An order the risk gate passes is encoded without loss.  The
    packet built for it has 48 bytes, and read back at the OUCH offsets they give
    the client order id, the side letter, the exact quantity and price (no clamping
    happens), the time in force, and the ticker the simulated feed uses for the
    symbol. *)
Theorem enter_order_roundtrip l r i out :
  limits_ok l → risk_ok r → intent_ok i → rd_pass (evaluate_limits l r i) = true →
  oi_symbol_idx i < kSymbols → 0 ≤ oi_client_order_id i < 2 ^ 32 → 0 ≤ oi_time_in_force i < 2 ^ 8 →
  length (pk_bytes out) = 64%nat →
  ∃ p, build_enter_order true i out = Some (p, true) ∧ pk_len p = 48 ∧ length (pk_bytes p) = 64%nat ∧
    read_enter_order p = Some (oi_client_order_id i, (if Z.even (oi_side i) then 66 else 83), oi_qty i,
                               ticker (oi_symbol_idx i), oi_price i, oi_time_in_force i).
Proof.
  intros Hl Hr Hi Hp Hs Hc Ht Hlen. eexists. split; [by apply enter_order_bytes|]. split; [done|].
  destruct (gate_spec l r i Hl Hr Hi) as [[Ha _] _ _ _ _ _]. destruct (Ha Hp) as [Hq _ _ _ Hpr _ _ _].
  destruct (limits_valid_inv l (lo_valid l Hl)) as (H1 & _ & H2 & H3 & _). unfold kMaxPrice, kMaxQuantity in *.
  destruct Hi as (_ & _ & _ & _ & Hside).
  assert (Hsd : (Z.land (oi_side i) 1 =? kBuy) = Z.even (oi_side i)).
  { change (Z.land (oi_side i) 1) with (Z.land (oi_side i) (Z.ones 1)). rewrite Z.land_ones by lia.
    change (2 ^ 1) with 2. rewrite Zmod_even. by destruct (Z.even (oi_side i)). }
  unfold enter_image. rewrite Hsd, !clamp_u32_id by lia. unfold read_enter_order. cbn [pk_bytes].
  pose proof (ticker_length (oi_symbol_idx i)) as Htl. revert Htl. generalize (ticker (oi_symbol_idx i)) as t. intros t Htl.
  explode t Htl. set (rest := drop 48 _).
  assert (Hrest : length rest = 16%nat) by (unfold rest; rewrite length_drop; lia).
  split; [rewrite !length_app, !enc_be_length; cbn [length replicate]; by rewrite Hrest|].
  rewrite (be32_at _ 1 (oi_client_order_id i)) by (reflexivity || lia).
  rewrite (be32_at _ 6 (oi_qty i)) by (reflexivity || lia).
  rewrite (be32_at _ 18 (oi_price i)) by (reflexivity || lia).
  rewrite (be32_at _ 22 (oi_time_in_force i)) by (reflexivity || lia).
  cbn [mbind option_bind]. unfold slice. rewrite length_app, Hrest, !length_app, !enc_be_length. reflexivity.
Qed.

Lemma enter_order_roundtrip_witness :
  ∃ p, build_enter_order true demo_intent (mkPacket 0 (replicate 64 0)) = Some (p, true) ∧
    read_enter_order p = Some (42, 83, 300, ticker 7, 1010000, 1).
Proof.
  destruct (enter_order_roundtrip demo_limits demo_risk demo_intent (mkPacket 0 (replicate 64 0))
    demo_limits_ok demo_risk_ok demo_intent_ok) as (p & H1 & _ & _ & H2);
    [vm_compute; reflexivity|unfold kSymbols; simpl; lia|simpl; lia|simpl; lia|reflexivity|].
  exists p. split; [exact H1|exact H2].
Defined.
