(* ===== verification/Gateway.v ===== *)
(** * Gateway: the execution gateway (src/luv_execution.hpp, ExecutionGateway)

    The gateway owns the breaker, the rate limiter, the risk table and the order
    table, writes the arena's per-symbol execution states, and appends to the audit
    log and the recovery ledger when they are attached.  Its methods are programs
    over that state ([ST Gateway]); [None] is undefined behaviour (a signed overflow).
    The clocks, the outcomes of system calls and the answer of the fill callback
    are the [Env] of a call. *)

From S2P Require Import Prelude Arena Safety Breaker Reconciliation AuditLog Recovery OrderTable Risk.
From Stdlib Require Import ZArith Lia.
From stdpp Require Import base tactics gmap numbers option list.
Open Scope Z_scope.

(** ** Per-symbol execution state (src/luv_arena.hpp) *)

Record ActiveOrder := mkActive {
  ao_order_id : Z;
  ao_price : Z;
  ao_qty : Z;
  ao_filled_qty : Z;
  ao_symbol_idx : Z;
  ao_side : Z;
  ao_state : Z;
  ao_time_in_force : Z
}.

Definition ActiveOrder_init : ActiveOrder := mkActive 0 0 0 0 0 0 0 0.

Record SymbolExecState := mkExec { es_orders : list ActiveOrder; es_risk : RiskState }.

Definition SymbolExecState_init : SymbolExecState :=
  mkExec (replicate (Z.to_nat kMaxActiveOrders) ActiveOrder_init) RiskState_init.

Record FillEvent := mkFill { fe_order_id : Z; fe_filled_qty : Z; fe_fill_price : Z; fe_timestamp_ns : Z }.

(** ** The gateway *)

Record Env := mkEnv {
  env_now_ns : Z;
  env_wall_ns : Z;
  env_audit_writes : list write_result;
  env_audit_fsync : bool;
  env_wal_writes : list write_result;
  env_wal_fsync : bool;
  env_callback : FillEvent → bool
}.

Record Gateway {T : Type} := mkGateway {
  gw_arena : bool;
  gw_states : gmap Z SymbolExecState;
  gw_limits : RiskTable;
  gw_ouch : bool;
  gw_breaker : CircuitBreaker;
  gw_orders : T;
  gw_pending : Z;
  gw_max_pending : Z;
  gw_audit_log : option DurableAuditLog;
  gw_recovery_ledger : option RecoveryLedger;
  gw_fill_callback : bool;
  gw_last_fill_timestamp_ns : Z;
  gw_fill_report_count : Z;
  gw_dropped_fill_notifications : Z;
  (** the events handed to the callback so far *)
  gw_notified : list FillEvent
}.
#[global] Arguments Gateway : clear implicits.
#[global] Arguments mkGateway {T}.

Section setters.
Context {T : Type}.
Implicit Types g : Gateway T.

Definition set_states g x := mkGateway (gw_arena g) x (gw_limits g) (gw_ouch g) (gw_breaker g) (gw_orders g)
  (gw_pending g) (gw_max_pending g) (gw_audit_log g) (gw_recovery_ledger g) (gw_fill_callback g)
  (gw_last_fill_timestamp_ns g) (gw_fill_report_count g) (gw_dropped_fill_notifications g) (gw_notified g).
Definition set_breaker g x := mkGateway (gw_arena g) (gw_states g) (gw_limits g) (gw_ouch g) x (gw_orders g)
  (gw_pending g) (gw_max_pending g) (gw_audit_log g) (gw_recovery_ledger g) (gw_fill_callback g)
  (gw_last_fill_timestamp_ns g) (gw_fill_report_count g) (gw_dropped_fill_notifications g) (gw_notified g).
Definition set_table g (x : T) := mkGateway (gw_arena g) (gw_states g) (gw_limits g) (gw_ouch g) (gw_breaker g) x
  (gw_pending g) (gw_max_pending g) (gw_audit_log g) (gw_recovery_ledger g) (gw_fill_callback g)
  (gw_last_fill_timestamp_ns g) (gw_fill_report_count g) (gw_dropped_fill_notifications g) (gw_notified g).
Definition set_pending g x := mkGateway (gw_arena g) (gw_states g) (gw_limits g) (gw_ouch g) (gw_breaker g) (gw_orders g)
  x (gw_max_pending g) (gw_audit_log g) (gw_recovery_ledger g) (gw_fill_callback g)
  (gw_last_fill_timestamp_ns g) (gw_fill_report_count g) (gw_dropped_fill_notifications g) (gw_notified g).
Definition set_audit_log g x := mkGateway (gw_arena g) (gw_states g) (gw_limits g) (gw_ouch g) (gw_breaker g) (gw_orders g)
  (gw_pending g) (gw_max_pending g) x (gw_recovery_ledger g) (gw_fill_callback g)
  (gw_last_fill_timestamp_ns g) (gw_fill_report_count g) (gw_dropped_fill_notifications g) (gw_notified g).
Definition set_recovery_ledger g x := mkGateway (gw_arena g) (gw_states g) (gw_limits g) (gw_ouch g) (gw_breaker g)
  (gw_orders g) (gw_pending g) (gw_max_pending g) (gw_audit_log g) x (gw_fill_callback g)
  (gw_last_fill_timestamp_ns g) (gw_fill_report_count g) (gw_dropped_fill_notifications g) (gw_notified g).
Definition set_fill_event_callback g x := mkGateway (gw_arena g) (gw_states g) (gw_limits g) (gw_ouch g) (gw_breaker g)
  (gw_orders g) (gw_pending g) (gw_max_pending g) (gw_audit_log g) (gw_recovery_ledger g) x
  (gw_last_fill_timestamp_ns g) (gw_fill_report_count g) (gw_dropped_fill_notifications g) (gw_notified g).
Definition set_fill_stats g ts count dropped notified := mkGateway (gw_arena g) (gw_states g) (gw_limits g) (gw_ouch g)
  (gw_breaker g) (gw_orders g) (gw_pending g) (gw_max_pending g) (gw_audit_log g) (gw_recovery_ledger g)
  (gw_fill_callback g) ts count dropped notified.

Definition exec_state g (sym : Z) : SymbolExecState := aget SymbolExecState_init (gw_states g) sym.
Definition risk_of g (sym : Z) : RiskState := es_risk (exec_state g sym).
Definition set_exec_state g (sym : Z) (s : SymbolExecState) : Gateway T := set_states g (<[sym := s]> (gw_states g)).
End setters.

Section gateway.
Context {T : Type} `{OrderTable T}.

Notation GW := (ST (Gateway T)).

(** ** Pieces of state as programs *)

Definition gw_get {A} (f : Gateway T → A) : GW A := λ g, Some (f g, g).
Definition gw_modify (f : Gateway T → Gateway T) : GW unit := λ g, Some (tt, f g).

Definition modify_risk (sym : Z) (f : RiskState → RiskState) : GW unit :=
  gw_modify (λ g, set_exec_state g sym (mkExec (es_orders (exec_state g sym)) (f (risk_of g sym)))).

(** [++risk.reject_count] and [risk.halted = ...]. *)
Definition count_reject (sym : Z) : GW unit := modify_risk sym (λ r,
  mkRisk (net_position r) (gross_exposure r) (daily_pnl r) (max_drawdown r) (current_drawdown r) (rs_order_count r)
    (u32 (reject_count r + 1)) (halted r)).
Definition set_halted (sym h : Z) : GW unit := modify_risk sym (λ r,
  mkRisk (net_position r) (gross_exposure r) (daily_pnl r) (max_drawdown r) (current_drawdown r) (rs_order_count r)
    (reject_count r) h).

Definition breaker_allow (now : Z) : GW bool := λ g,
  let '(b, ok) := allow (gw_breaker g) now in Some (ok, set_breaker g b).
Definition breaker_failure (ts : Z) : GW unit := gw_modify (λ g, set_breaker g (record_failure (gw_breaker g) ts)).
Definition breaker_rejection (ts : Z) : GW unit := gw_modify (λ g, set_breaker g (record_rejection (gw_breaker g) ts)).
Definition breaker_trip : GW unit := gw_modify (λ g, set_breaker g (trip (gw_breaker g) 0)).

Definition limiter_acquire : GW bool := λ g,
  let '(p, ok) := try_acquire (gw_max_pending g) (gw_pending g) in Some (ok, set_pending g p).
Definition limiter_release : GW unit := gw_modify (λ g, set_pending g (release (gw_pending g))).

Definition table_register (id q : Z) : GW bool := λ g,
  let '(t, ok) := ot_register (gw_orders g) id q in Some (ok, set_table g t).
Definition table_replace (id q : Z) : GW bool := λ g,
  let '(t, ok) := ot_replace (gw_orders g) id q in Some (ok, set_table g t).
Definition table_apply (r : ExecutionReport) : GW bool := λ g,
  let '(t, ok) := ot_apply (gw_orders g) r in Some (ok, set_table g t).
Definition table_cancel (id : Z) : GW bool := λ g,
  '(t, ok) ← ot_cancel (gw_orders g) id; Some (ok, set_table g t).
Definition table_contains (id : Z) : GW bool := gw_get (λ g, ot_contains (gw_orders g) id).

Section calls.
Context (sha256 : list Z → list Z) (env : Env).

(** [!_audit_log || _audit_log->append(...)], and the same for the recovery ledger. *)
Definition audited (timestamp_ns order_id price quantity trader_id side type : Z) : GW bool := λ g,
  match gw_audit_log g with
  | None => Some (true, g)
  | Some log =>
      '(log, ok) ← audit_append sha256 log timestamp_ns order_id price quantity trader_id side type
                     (env_audit_writes env) (env_audit_fsync env);
      Some (ok, set_audit_log g (Some log))
  end.

Definition logged (e : RecoveryEvent) : GW bool := λ g,
  match gw_recovery_ledger g with
  | None => Some (true, g)
  | Some wal =>
      '(wal, ok) ← append_and_flush wal e (env_wal_writes env) (env_wal_fsync env);
      Some (ok, set_recovery_ledger g (Some wal))
  end.

(** ** Order slots *)

Definition is_live (o : ActiveOrder) : bool := negb (ao_state o =? 0) && negb (ao_state o =? 3).

(** The index of the first slot with a property, the scan every method makes. *)
Fixpoint find_slot (p : ActiveOrder → bool) (os : list ActiveOrder) : option nat :=
  match os with
  | [] => None
  | o :: os' => if p o then Some O else S <$> find_slot p os'
  end.

(** [risk.net_position += dp; risk.gross_exposure += de] with the signed
    overflows of both sums. *)
Definition move_risk (r : RiskState) (dp de count : Z) : option RiskState :=
  np ← chk64 (net_position r + dp);
  ge ← chk64 (gross_exposure r + de);
  Some (mkRisk np ge (daily_pnl r) (max_drawdown r) (current_drawdown r) count (reject_count r) (halted r)).

Definition drop_one (n : Z) : Z := if 0 <? n then n - 1 else n.

Definition reserve_order_slot (i : OrderIntent) : GW bool :=
  let sym := oi_symbol_idx i in
  s ← gw_get (λ g, exec_state g sym);
  if kMaxActiveOrders <=? rs_order_count (es_risk s) then
    set_halted sym 1;; count_reject sym;; mret false
  else
  match find_slot (λ o, (ao_state o =? 0) || (ao_state o =? 3)) (es_orders s) with
  | None => mret false
  | Some slot =>
      let order := mkActive (oi_client_order_id i) (oi_price i) (oi_qty i) 0 sym (Z.land (oi_side i) 1) 1
                     (oi_time_in_force i) in
      notional ← lift (chk64 (oi_price i * oi_qty i));
      r ← lift (move_risk (es_risk s) (signed_qty_delta (oi_side i) (oi_qty i)) notional
                  (u32 (rs_order_count (es_risk s) + 1)));
      gw_modify (λ g, set_exec_state g sym (mkExec (<[slot := order]> (es_orders s)) r));;
      mret true
  end.

Definition release_order_slot (i : OrderIntent) : GW unit :=
  let sym := oi_symbol_idx i in
  s ← gw_get (λ g, exec_state g sym);
  match find_slot (λ o, ao_order_id o =? oi_client_order_id i) (es_orders s) with
  | None => mret tt
  | Some slot =>
      notional ← lift (chk64 (oi_price i * oi_qty i));
      r ← lift (move_risk (es_risk s) (- signed_qty_delta (oi_side i) (oi_qty i)) (- notional)
                  (drop_one (rs_order_count (es_risk s))));
      gw_modify (λ g, set_exec_state g sym (mkExec (<[slot := ActiveOrder_init]> (es_orders s)) r))
  end.

(** ** try_build *)

Definition rejected (d : RiskDecision) (bit : Z) : RiskDecision := mkDecision false (Z.lor (rd_reject_mask d) bit).
Definition no_packet (p : OutboundPacket) : OutboundPacket := mkPacket 0 (pk_bytes p).

(** Undoing the registration and the reservation when the order cannot be logged. *)
Definition roll_back (i : OrderIntent) : GW unit :=
  table_cancel (oi_client_order_id i);;
  release_order_slot i;;
  limiter_release;;
  count_reject (oi_symbol_idx i);;
  breaker_failure (oi_now_ns i).

(** The block under [if (decision.pass)]: register, reserve, audit, log. *)
Definition commit_order (i : OrderIntent) (d : RiskDecision) (packet : OutboundPacket) : GW (RiskDecision * OutboundPacket) :=
  registered ← table_register (oi_client_order_id i) (oi_qty i);
  if negb (registered : bool) then
    limiter_release;; count_reject (oi_symbol_idx i);; breaker_failure (oi_now_ns i);;
    mret (rejected d kRejectPosition, no_packet packet)
  else
  reserved ← reserve_order_slot i;
  if negb (reserved : bool) then
    table_cancel (oi_client_order_id i);; limiter_release;; breaker_failure (oi_now_ns i);;
    mret (rejected d kRejectPosition, no_packet packet)
  else
  ok ← audited (oi_now_ns i) (oi_client_order_id i) (oi_price i) (oi_qty i) 0 (oi_side i) 65;
  if negb (ok : bool) then
    roll_back i;; mret (rejected d kRejectHalted, no_packet packet)
  else
  ok ← logged (mkEvent kAdd (oi_client_order_id i) (oi_qty i) (oi_price i) (oi_side i) (oi_now_ns i));
  if negb (ok : bool) then
    roll_back i;; mret (rejected d kRejectHalted, no_packet packet)
  else mret (d, packet).

Definition try_build (i : OrderIntent) (packet : OutboundPacket) : GW (RiskDecision * OutboundPacket) :=
  let sym := oi_symbol_idx i in
  let packet := no_packet packet in
  ready ← gw_get gw_arena;
  if negb (ready : bool) || (kSymbols <=? sym) then mret (mkDecision false kRejectInvalidSymbol, packet) else
  allowed ← breaker_allow (oi_now_ns i);
  if negb (allowed : bool) then
    count_reject sym;; set_halted sym 1;; mret (mkDecision false kRejectHalted, packet)
  else
  acquired ← limiter_acquire;
  if negb (acquired : bool) then
    count_reject sym;; set_halted sym 1;; mret (mkDecision false kRejectHalted, packet)
  else
  d ← gw_get (λ g, evaluate (gw_limits g) (if gw_arena g then Some (risk_of g) else None) i);
  risk ← gw_get (λ g, risk_of g sym);
  let risk_pass := rd_pass d in
  let capacity_ok := rs_order_count risk <? kMaxActiveOrders in
  let d := mkDecision (rd_pass d && capacity_ok)
             (Z.lor (rd_reject_mask d) (Z.b2z (negb capacity_ok) * kRejectOrderCapacity)) in
  if negb risk_pass then limiter_release;; count_reject sym;; mret (d, packet) else
  if negb capacity_ok then limiter_release;; count_reject sym;; set_halted sym 1;; mret (d, packet) else
  ouch ← gw_get gw_ouch;
  '(packet, built) ← lift (if rd_pass d then build_enter_order ouch i packet else Some (packet, false));
  let d := mkDecision (rd_pass d && built) (Z.lor (rd_reject_mask d) (Z.b2z (negb built) * kRejectFlatSignal)) in
  if negb (rd_pass d) then limiter_release;; count_reject sym;; mret (d, no_packet packet) else
  let packet := mkPacket (Z.land (pk_len packet) (u8 (- Z.b2z (rd_pass d)))) (pk_bytes packet) in
  commit_order i d packet.

(** ** try_replace *)

Definition live_with_id (id : Z) (o : ActiveOrder) : bool :=
  (ao_order_id o =? id) && negb (ao_state o =? 0) && negb (ao_state o =? 3).

Definition try_replace (i : OrderReplaceIntent) (packet : OutboundPacket) : GW (RiskDecision * OutboundPacket) :=
  let sym := ri_symbol_idx i in
  let packet := no_packet packet in
  ready ← gw_get gw_arena;
  if negb (ready : bool) || (kSymbols <=? sym) then mret (mkDecision false kRejectInvalidSymbol, packet) else
  allowed ← breaker_allow (ri_now_ns i);
  if negb (allowed : bool) then
    count_reject sym;; set_halted sym 1;; mret (mkDecision false kRejectHalted, packet)
  else
  known ← table_contains (ri_original_order_id i);
  if negb (known : bool) then count_reject sym;; mret (mkDecision false kRejectPosition, packet) else
  s ← gw_get (λ g, exec_state g sym);
  match find_slot (live_with_id (ri_original_order_id i)) (es_orders s) ≫= λ k, es_orders s !! k with
  | None => count_reject sym;; mret (mkDecision false kRejectPosition, packet)
  | Some existing =>
      let test_intent := mkIntent sym (ao_side existing) (ri_new_qty i) (ri_new_price i) (ri_alpha_timestamp_ns i)
                           (ri_now_ns i) (ri_replacement_order_id i) (ri_time_in_force i) in
      d ← gw_get (λ g, evaluate (gw_limits g) (if gw_arena g then Some (risk_of g) else None) test_intent);
      if negb (rd_pass d) then count_reject sym;; mret (d, packet) else
      ouch ← gw_get gw_ouch;
      '(packet, built) ← lift (build_replace_order ouch i packet);
      if negb (built : bool) then count_reject sym;; mret (rejected d kRejectFlatSignal, no_packet packet) else
      ok ← audited (ri_now_ns i) (ri_replacement_order_id i) (ri_new_price i) (ri_new_qty i) 0 (ao_side existing) 85;
      if negb (ok : bool) then
        count_reject sym;; breaker_failure (ri_now_ns i);; mret (rejected d kRejectHalted, no_packet packet)
      else mret (d, packet)
  end.

(** ** Venue reports *)

(** [risk.halted = 1; _breaker.trip(); return false]. *)
Definition fail_closed (sym : Z) : GW bool := set_halted sym 1;; breaker_trip;; mret false.

Definition next_utc_fill_timestamp_ns : GW Z := λ g,
  let last := gw_last_fill_timestamp_ns g in
  let ts := if (env_wall_ns env <=? last) && negb (last =? UINT64_MAX) then u64 (last + 1) else env_wall_ns env in
  Some (ts, set_fill_stats g ts (gw_fill_report_count g) (gw_dropped_fill_notifications g) (gw_notified g)).

(** Counting the fill and handing it to the callback. *)
Definition notify_fill (order : ActiveOrder) : GW unit :=
  gw_modify (λ g, set_fill_stats g (gw_last_fill_timestamp_ns g) (u64 (gw_fill_report_count g + 1))
                    (gw_dropped_fill_notifications g) (gw_notified g));;
  callback ← gw_get gw_fill_callback;
  if negb (callback : bool) then mret tt else
  ts ← next_utc_fill_timestamp_ns;
  let event := mkFill (ao_order_id order) (ao_filled_qty order) (ao_price order) ts in
  gw_modify (λ g, set_fill_stats g (gw_last_fill_timestamp_ns g) (gw_fill_report_count g)
                    (if env_callback env event then gw_dropped_fill_notifications g
                     else u64 (gw_dropped_fill_notifications g + 1)) (gw_notified g ++ [event])).

Definition set_order_fill (o : ActiveOrder) (qty filled state : Z) : ActiveOrder :=
  mkActive (ao_order_id o) (ao_price o) qty filled (ao_symbol_idx o) (ao_side o) state (ao_time_in_force o).

Definition apply_execution_report (sym : Z) (report : ExecutionReport) : GW bool :=
  ready ← gw_get gw_arena;
  if negb (ready : bool) || (kSymbols <=? sym) then breaker_trip;; mret false else
  s ← gw_get (λ g, exec_state g sym);
  match find_slot (λ o, (ao_order_id o =? rep_order_id report) && negb (ao_state o =? 0)) (es_orders s) with
  | None => fail_closed sym
  | Some k =>
  order ← lift (es_orders s !! k);
  known ← table_contains (rep_order_id report);
  if (filled_quantity report <=? 0) || (ao_qty order <? filled_quantity report) || negb known then fail_closed sym else
  let remaining := ao_qty order - filled_quantity report in
  let type := if terminal report && (0 <? remaining) then kTerminalFill else kFill in
  ok ← logged (mkEvent type (ao_order_id order) (filled_quantity report) (ao_price order) (ao_side order) (env_now_ns env));
  if negb (ok : bool) then fail_closed sym else
  ok ← table_apply report;
  if negb (ok : bool) then fail_closed sym else
  filled ← lift (chk64 (ao_filled_qty order + filled_quantity report));
  notify_fill (set_order_fill order remaining filled (ao_state order));;
  if terminal report || (remaining =? 0) then
    r ← lift (if terminal report && (0 <? remaining) then
                notional ← chk64 (ao_price order * remaining);
                move_risk (es_risk s) (- signed_qty_delta (ao_side order) remaining) (- notional)
                  (drop_one (rs_order_count (es_risk s)))
              else move_risk (es_risk s) 0 0 (drop_one (rs_order_count (es_risk s))));
    gw_modify (λ g, set_exec_state g sym (mkExec (<[k := set_order_fill order remaining filled 3]> (es_orders s)) r));;
    limiter_release;;
    mret true
  else
    gw_modify (λ g, set_exec_state g sym
      (mkExec (<[k := set_order_fill order remaining filled 2]> (es_orders s)) (es_risk s)));;
    mret true
  end.

(** Clearing a live order's slot and its reservation. *)
Definition clear_order (sym : Z) (k : nat) (order : ActiveOrder) : GW unit :=
  s ← gw_get (λ g, exec_state g sym);
  notional ← lift (chk64 (ao_price order * ao_qty order));
  r ← lift (move_risk (es_risk s) (- signed_qty_delta (ao_side order) (ao_qty order)) (- notional)
              (drop_one (rs_order_count (es_risk s))));
  gw_modify (λ g, set_exec_state g sym (mkExec (<[k := ActiveOrder_init]> (es_orders s)) r));;
  limiter_release.

Definition apply_cancel_report (sym order_id : Z) : GW bool :=
  ready ← gw_get gw_arena;
  if negb (ready : bool) || (kSymbols <=? sym) then breaker_trip;; mret false else
  s ← gw_get (λ g, exec_state g sym);
  match find_slot (λ o, (ao_order_id o =? order_id) && negb (ao_state o =? 0)) (es_orders s) with
  | None => fail_closed sym
  | Some k =>
  order ← lift (es_orders s !! k);
  if ao_state order =? 3 then mret false else
  known ← table_contains order_id;
  if negb (known : bool) then fail_closed sym else
  ok ← logged (mkEvent kCancel (ao_order_id order) (ao_qty order) (ao_price order) (ao_side order) (env_now_ns env));
  if negb (ok : bool) then fail_closed sym else
  ok ← table_cancel order_id;
  if negb (ok : bool) then fail_closed sym else
  clear_order sym k order;;
  mret true
  end.

Definition apply_replace_report (sym order_id new_qty new_price : Z) : GW bool :=
  ready ← gw_get gw_arena;
  if negb (ready : bool) || (kSymbols <=? sym) then breaker_trip;; mret false else
  s ← gw_get (λ g, exec_state g sym);
  match find_slot (live_with_id order_id) (es_orders s) with
  | None => fail_closed sym
  | Some k =>
  order ← lift (es_orders s !! k);
  known ← table_contains order_id;
  if negb known || (new_qty <=? 0) || (new_price <=? 0) then fail_closed sym else
  ok ← logged (mkEvent kReplace (ao_order_id order) new_qty new_price (ao_side order) (env_now_ns env));
  if negb (ok : bool) then fail_closed sym else
  ok ← table_replace order_id new_qty;
  if negb (ok : bool) then fail_closed sym else
  delta ← lift (chk64 (signed_qty_delta (ao_side order) new_qty - signed_qty_delta (ao_side order) (ao_qty order)));
  old_notional ← lift (chk64 (ao_price order * ao_qty order));
  new_notional ← lift (chk64 (new_price * new_qty));
  change ← lift (chk64 (new_notional - old_notional));
  r ← lift (move_risk (es_risk s) delta change (rs_order_count (es_risk s)));
  let order := mkActive (ao_order_id order) new_price new_qty (ao_filled_qty order) (ao_symbol_idx order) (ao_side order)
                 (ao_state order) (ao_time_in_force order) in
  gw_modify (λ g, set_exec_state g sym (mkExec (<[k := order]> (es_orders s)) r));;
  mret true
  end.

Definition apply_reject_report (sym order_id : Z) : GW bool :=
  ready ← gw_get gw_arena;
  if negb (ready : bool) || (kSymbols <=? sym) then breaker_failure (env_now_ns env);; mret false else
  s ← gw_get (λ g, exec_state g sym);
  let slot := find_slot (λ o, (ao_order_id o =? order_id) && negb (ao_state o =? 0)) (es_orders s) in
  let matching := slot ≫= λ k, o ← es_orders s !! k; Some (k, o) in
  match matching with
  | Some (_, o) => if ao_state o =? 3 then mret false else mret true
  | None => mret true
  end ≫= λ counted : bool, if negb counted then mret false else
  count_reject sym;;
  breaker_rejection (env_now_ns env);;
  r ← gw_get (λ g, risk_of g sym);
  max ← gw_get (λ g, lim_max_consecutive_rejections (limits (gw_limits g) sym));
  (if max <=? reject_count r then set_halted sym 1 else mret tt);;
  match matching with
  | Some (k, order) =>
      table_cancel order_id;;
      clear_order sym k order;;
      mret true
  | None => mret false
  end.

(** ** Control plane *)

Definition halt_symbol (sym : Z) : GW unit :=
  ready ← gw_get gw_arena; if (ready : bool) && (sym <? kSymbols) then set_halted sym 1 else mret tt.

Definition resume_symbol (sym : Z) : GW unit :=
  ready ← gw_get gw_arena; if (ready : bool) && (sym <? kSymbols) then set_halted sym 0 else mret tt.

Definition is_symbol_halted (g : Gateway T) (sym : Z) : bool :=
  if negb (gw_arena g) || (kSymbols <=? sym) then true else negb (halted (risk_of g sym) =? 0).

Definition symbols : list Z := Z.of_nat <$> seq 0 (Z.to_nat kSymbols).

Definition order_with_id (g : Gateway T) (p : ActiveOrder → bool) (id sym : Z) : option ActiveOrder :=
  let os := es_orders (exec_state g sym) in
  k ← find_slot (λ o, (ao_order_id o =? id) && p o) os; os !! k.

Definition query_order (g : Gateway T) (id : Z) : option ActiveOrder :=
  if negb (gw_arena g) || (id =? 0) then None
  else head (omap (order_with_id g (λ o, negb (ao_state o =? 0)) id) symbols).

Definition query_position (g : Gateway T) (sym : Z) : option RiskState :=
  if negb (gw_arena g) || (kSymbols <=? sym) then None else Some (risk_of g sym).

Definition cancel_order (id : Z) : GW bool :=
  g ← gw_get (λ g, g);
  if negb (gw_arena g) || (id =? 0) then mret false else
  match list_find (λ sym, is_Some (order_with_id g is_live id sym)) symbols with
  | Some (_, sym) => apply_cancel_report sym id
  | None => mret false
  end.
End calls.

(** ** Construction and [init] *)

Definition Gateway_new (table : T) (rate_limit : Z) : Gateway T :=
  mkGateway false ∅ ∅ false (CircuitBreaker_new 1 0) table 0 rate_limit None None false 0 0 0 [].

Definition Gateway_init (g : Gateway T) (arena_initialised : bool) : Gateway T * bool :=
  if negb arena_initialised then (g, false)
  else (mkGateway true (gw_states g) ∅ true (breaker_reset (gw_breaker g)) (gw_orders g) (gw_pending g)
          (gw_max_pending g) (gw_audit_log g) (gw_recovery_ledger g) (gw_fill_callback g)
          (gw_last_fill_timestamp_ns g) 0 0 (gw_notified g), true).
End gateway.
