(* ===== verification/GatewayBooks.v ===== *)
(** * GatewayBooks: what the gateway's accounts say

    For each symbol the net position and the gross exposure are the executed
    quantity plus what the live orders reserve; the order count and the rate
    limiter's tokens are the numbers of live orders.  [same_books] relates states
    whose accounts and live orders agree; most of what a method does stays inside it. *)

From S2P Require Import Prelude Arena Safety Breaker Reconciliation AuditLog Recovery OrderTable Risk Gateway.
From Stdlib Require Import ZArith Lia.
From stdpp Require Import base tactics gmap numbers option list.
Open Scope Z_scope.

(** ** Sums over the live orders *)

Definition weigh (f : ActiveOrder → Z) (o : ActiveOrder) : Z := if is_live o then f o else 0.
Definition osum (f : ActiveOrder → Z) (os : list ActiveOrder) : Z := foldr (λ o a, weigh f o + a) 0 os.

Definition live_count (os : list ActiveOrder) : Z := osum (λ _, 1) os.
Definition open_position (os : list ActiveOrder) : Z := osum (λ o, signed_qty_delta (ao_side o) (ao_qty o)) os.
Definition open_exposure (os : list ActiveOrder) : Z := osum (λ o, ao_price o * ao_qty o) os.

Definition live_view (os : list ActiveOrder) : list (option ActiveOrder) :=
  (λ o, if is_live o then Some o else None) <$> os.

Lemma osum_insert f os k o o' : os !! k = Some o → osum f (<[k := o']> os) = osum f os - weigh f o + weigh f o'.
Proof.
  revert k. induction os as [|a os IH]; intros [|k] H; simplify_eq/=; [lia|]. rewrite (IH k H). lia.
Qed.

Lemma osum_view f os os' : live_view os = live_view os' → osum f os = osum f os'.
Proof.
  revert os'. induction os as [|a os IH]; intros [|a' os'] E; try done. injection E as E1 E2. cbn [osum foldr].
  fold (osum f os) (osum f os'). rewrite (IH os') by done. f_equal. unfold weigh. destruct (is_live a), (is_live a'); congruence.
Qed.

Lemma osum_nonneg f os : (∀ o, 0 ≤ f o) → 0 ≤ osum f os.
Proof.
  intros Hf. induction os as [|a os IH]; [done|]. cbn [osum foldr]. fold (osum f os). unfold weigh.
  specialize (Hf a). destruct (is_live a); lia.
Qed.

Lemma live_count_bound os : 0 ≤ live_count os ≤ Z.of_nat (length os).
Proof.
  unfold live_count. induction os as [|a os IH]; [done|]. cbn [osum foldr length]. fold (osum (λ _, 1) os). unfold weigh.
  destruct (is_live a); lia.
Qed.

Lemma view_insert_dead os k o : os !! k = Some o → is_live o = false → live_view (<[k := ActiveOrder_init]> os) = live_view os.
Proof.
  intros Hk Hd. unfold live_view. rewrite list_fmap_insert. apply list_insert_id. by rewrite list_lookup_fmap, Hk; simpl; rewrite Hd.
Qed.

Lemma find_slot_Some p os k : find_slot p os = Some k →
  ∃ o, os !! k = Some o ∧ p o = true ∧ ∀ j o', (j < k)%nat → os !! j = Some o' → p o' = false.
Proof.
  revert k. induction os as [|a os IH]; intros k; cbn [find_slot]; [done|]. destruct (p a) eqn:Ea.
  - intros [= <-]. exists a. split_and!; [done..|lia].
  - destruct (find_slot p os) as [j|]; [|done]. intros [= <-]. destruct (IH j eq_refl) as (o & H1 & H2 & H3).
    exists o. split_and!; [done..|]. intros [|j'] o' Hlt Ho'; simplify_eq/=; [done|]. apply (H3 j'); [lia|done].
Qed.

Lemma find_slot_None p os k o : find_slot p os = None → os !! k = Some o → p o = false.
Proof.
  revert k. induction os as [|a os IH]; intros [|k]; cbn [find_slot]; try done; destruct (p a) eqn:Ea; try done;
    destruct (find_slot p os); try done; intros _ Hk; simplify_eq/=; [done|]. by apply (IH k).
Qed.

Lemma find_slot_first p os k o : os !! k = Some o → p o = true →
  (∀ j o', (j < k)%nat → os !! j = Some o' → p o' = false) → find_slot p os = Some k.
Proof.
  revert k. induction os as [|a os IH]; intros k Hk Hp Hb; [done|]. cbn [find_slot]. destruct k as [|k]; simplify_eq/=.
  - by rewrite Hp.
  - rewrite (Hb 0%nat a) by (done || lia). rewrite (IH k Hk Hp); [done|]. intros j o' Hj Ho'. apply (Hb (S j)); [lia|done].
Qed.

(** ** Books *)

Section books.
Context {T : Type}.
Implicit Types g : Gateway T.

Record same_symbol (s s' : SymbolExecState) : Prop := mk_same_symbol {
  ss_live : live_view (es_orders s') = live_view (es_orders s);
  ss_position : net_position (es_risk s') = net_position (es_risk s);
  ss_exposure : gross_exposure (es_risk s') = gross_exposure (es_risk s);
  ss_count : rs_order_count (es_risk s') = rs_order_count (es_risk s)
}.

(** Same live orders, accounts and tokens. *)
Record same_books g g' : Prop := mk_same_books {
  sb_arena : gw_arena g' = gw_arena g;
  sb_limits : gw_limits g' = gw_limits g;
  sb_max : gw_max_pending g' = gw_max_pending g;
  sb_pending : gw_pending g' = gw_pending g;
  sb_symbols : ∀ sym, same_symbol (exec_state g sym) (exec_state g' sym)
}.

#[export] Instance same_symbol_equiv : Equivalence same_symbol.
Proof.
  split.
  - intros s. by split.
  - intros s s' []. by split.
  - intros s s' s'' [] []. split; congruence.
Qed.

#[export] Instance same_books_equiv : Equivalence same_books.
Proof.
  split.
  - intros g. by split.
  - intros g g' []. by split.
  - intros g g' g'' [] []. split; try congruence. intros sym. by transitivity (exec_state g' sym).
Qed.

Lemma exec_state_set g sym s sym' :
  exec_state (set_exec_state g sym s) sym' = if decide (sym = sym') then s else exec_state g sym'.
Proof. unfold exec_state, set_exec_state. cbn [gw_states set_states]. apply aget_insert. Qed.

Lemma same_books_set g sym s : same_symbol (exec_state g sym) s → same_books g (set_exec_state g sym s).
Proof.
  intros Hs. split; try done. intros sym'. rewrite exec_state_set. case_decide; [by subst|done].
Qed.
End books.

(** A program that leaves the books alone. *)
Definition neutral {T A} (m : ST (Gateway T) A) : Prop := ∀ g, safe m g (λ _ g', same_books g g').

Create HintDb gateway.

Section neutral.
Context {T : Type} `{OrderTable T}.

Lemma neutral_ret {A} (x : A) : neutral (mret x : ST (Gateway T) A).
Proof using Type. by intros g. Qed.

Lemma neutral_bind {A B} (m : ST (Gateway T) A) (k : A → ST (Gateway T) B) :
  neutral m → (∀ x, neutral (k x)) → neutral (m ≫= k).
Proof using Type.
  intros Hm Hk g. apply safe_bind. eapply safe_mono; [apply Hm|]. intros x g' Hg'. cbv beta.
  eapply safe_mono; [apply Hk|]. intros y g'' Hg''. cbv beta in *. by etrans.
Qed.

Lemma neutral_lift {A} (o : option A) : neutral (lift o : ST (Gateway T) A).
Proof using Type. intros g. by apply safe_lift. Qed.

Lemma neutral_get {A} (f : Gateway T → A) : neutral (gw_get f).
Proof using Type. by intros g. Qed.

Lemma neutral_if {A} (b : bool) (m m' : ST (Gateway T) A) : neutral m → neutral m' → neutral (if b then m else m').
Proof using Type. by destruct b. Qed.

Lemma neutral_modify (f : Gateway T → Gateway T) : (∀ g, same_books g (f g)) → neutral (gw_modify f).
Proof using Type. intros Hf g. apply Hf. Qed.

Lemma neutral_count_reject sym : neutral (count_reject sym : ST (Gateway T) _).
Proof using Type. apply neutral_modify. intros g. by apply same_books_set. Qed.

Lemma neutral_set_halted sym h : neutral (set_halted sym h : ST (Gateway T) _).
Proof using Type. apply neutral_modify. intros g. by apply same_books_set. Qed.

Lemma neutral_breaker_allow now : neutral (breaker_allow now : ST (Gateway T) _).
Proof using Type. intros g. unfold safe, breaker_allow. by destruct (allow _ _). Qed.

Lemma neutral_breaker_failure ts : neutral (breaker_failure ts : ST (Gateway T) _).
Proof using Type. by apply neutral_modify. Qed.

Lemma neutral_breaker_rejection ts : neutral (breaker_rejection ts : ST (Gateway T) _).
Proof using Type. by apply neutral_modify. Qed.

Lemma neutral_breaker_trip : neutral (breaker_trip : ST (Gateway T) _).
Proof using Type. by apply neutral_modify. Qed.

Lemma neutral_register id q : neutral (table_register id q).
Proof using Type. intros g. unfold safe, table_register. by destruct (ot_register _ _ _). Qed.

Lemma neutral_replace id q : neutral (table_replace id q).
Proof using Type. intros g. unfold safe, table_replace. by destruct (ot_replace _ _ _). Qed.

Lemma neutral_apply r : neutral (table_apply r).
Proof using Type. intros g. unfold safe, table_apply. by destruct (ot_apply _ _). Qed.

Lemma neutral_cancel id : neutral (table_cancel id).
Proof using Type. intros g. unfold safe, table_cancel. by destruct (ot_cancel _ _) as [[]|]. Qed.

Lemma neutral_contains id : neutral (table_contains id).
Proof using Type. apply neutral_get. Qed.

Lemma neutral_audited sha env a b c d e f h : neutral (audited (T := T) sha env a b c d e f h).
Proof using Type.
  intros g. unfold safe, audited. destruct (gw_audit_log g); [|done]. by destruct (audit_append _ _ _ _ _ _ _ _ _ _ _) as [[]|].
Qed.

Lemma neutral_logged env e : neutral (logged (T := T) env e).
Proof using Type.
  intros g. unfold safe, logged. destruct (gw_recovery_ledger g); [|done]. by destruct (append_and_flush _ _ _ _) as [[]|].
Qed.

Lemma neutral_timestamp env : neutral (next_utc_fill_timestamp_ns (T := T) env).
Proof using Type. by intros g. Qed.
End neutral.

#[export] Hint Resolve neutral_ret neutral_bind neutral_lift neutral_get neutral_if neutral_count_reject neutral_set_halted
  neutral_breaker_allow neutral_breaker_failure neutral_breaker_rejection neutral_breaker_trip neutral_register
  neutral_replace neutral_apply neutral_cancel neutral_contains neutral_audited neutral_logged neutral_timestamp : gateway.

Section neutral_calls.
Context {T : Type} `{OrderTable T}.

Lemma neutral_fail_closed sym : neutral (fail_closed (T := T) sym).
Proof using Type. unfold fail_closed. auto with gateway. Qed.

Lemma neutral_notify env o : neutral (notify_fill (T := T) env o).
Proof using Type.
  unfold notify_fill. apply neutral_bind; [by apply neutral_modify|]. intros _. apply neutral_bind; [apply neutral_get|].
  intros cb. apply neutral_if; [apply neutral_ret|]. apply neutral_bind; [apply neutral_timestamp|]. intros ts.
  by apply neutral_modify.
Qed.
End neutral_calls.

#[export] Hint Resolve neutral_fail_closed neutral_notify : gateway.

(** ** The accounts *)

Section accounts.
Context {T : Type}.
Implicit Types g : Gateway T.

(** What the accounts hold beyond the open reservations. *)
Definition settled_position g (sym : Z) : Z := net_position (risk_of g sym) - open_position (es_orders (exec_state g sym)).
Definition settled_exposure g (sym : Z) : Z := gross_exposure (risk_of g sym) - open_exposure (es_orders (exec_state g sym)).

Definition sum_over (f : Z → Z) (l : list Z) : Z := foldr (λ sym a, f sym + a) 0 l.
Definition total_live g : Z := sum_over (λ sym, live_count (es_orders (exec_state g sym))) symbols.

Record sym_ok (s : SymbolExecState) : Prop := mk_sym_ok {
  so_length : length (es_orders s) = 64%nat;
  so_count : rs_order_count (es_risk s) = live_count (es_orders s)
}.

(** Every count is the number of live orders, and the limiter holds a token for
    each of them and [n] more. *)
Record books g (n : Z) : Prop := mk_books {
  bk_max : gw_max_pending g < 2 ^ 32;
  bk_symbols : ∀ sym, sym_ok (exec_state g sym);
  bk_tokens : gw_pending g = total_live g + n
}.

(** The books are in order and nothing has been settled since [g0]. *)
Record tracked g0 (n : Z) g : Prop := mk_tracked {
  tk_books : books g n;
  tk_position : ∀ sym, settled_position g sym = settled_position g0 sym;
  tk_exposure : ∀ sym, settled_exposure g sym = settled_exposure g0 sym
}.

Lemma sum_over_ext f f' l : (∀ x, x ∈ l → f x = f' x) → sum_over f l = sum_over f' l.
Proof.
  induction l as [|x l IH]; intros E; [done|]. cbn [sum_over foldr]. fold (sum_over f l) (sum_over f' l).
  rewrite (E x), IH; [done|intros; apply E|]; rewrite ?elem_of_cons; auto.
Qed.

Lemma sum_over_update f f' l x : NoDup l → x ∈ l → (∀ y, y ≠ x → f' y = f y) → sum_over f' l = sum_over f l - f x + f' x.
Proof.
  induction 1 as [|y l Hy _ IH]; intros Hx E; [by apply elem_of_nil in Hx|]. cbn [sum_over foldr].
  fold (sum_over f l) (sum_over f' l). apply elem_of_cons in Hx as [->|Hx].
  - rewrite (sum_over_ext f' f l); [lia|]. intros z Hz. apply E. by intros ->.
  - rewrite (IH Hx E), (E y); [lia|]. by intros ->.
Qed.

Lemma symbols_NoDup : NoDup symbols.
Proof. unfold symbols. apply NoDup_fmap_2; [intros a b; lia|]. apply NoDup_seq. Qed.

Lemma elem_of_symbols sym : sym ∈ symbols ↔ 0 ≤ sym < kSymbols.
Proof.
  unfold symbols. rewrite list_elem_of_fmap. setoid_rewrite elem_of_seq. split.
  - intros (k & -> & Hk). unfold kSymbols in *. lia.
  - intros Hs. exists (Z.to_nat sym). unfold kSymbols in *. lia.
Qed.

Lemma live_view_length os : length (live_view os) = length os.
Proof. apply length_fmap. Qed.

Lemma view_lookup os k o : live_view os !! k = Some (Some o) ↔ os !! k = Some o ∧ is_live o = true.
Proof.
  unfold live_view. rewrite list_lookup_fmap. destruct (os !! k) as [o'|]; simpl; [|by split; [|intros [? _]]].
  destruct (is_live o') eqn:E; split; [by intros [= <-]|by intros [[= <-] _]|done|intros [[= <-] Hl]; congruence].
Qed.

Lemma same_symbol_ok s s' : same_symbol s s' → sym_ok s → sym_ok s'.
Proof.
  intros [Hv _ _ Hc] [Hl Hn]. split.
  - by rewrite <- live_view_length, Hv, live_view_length.
  - unfold live_count. by rewrite Hc, Hn, (osum_view _ _ _ Hv).
Qed.

Lemma same_books_settled g g' : same_books g g' →
  (∀ sym, settled_position g' sym = settled_position g sym) ∧ (∀ sym, settled_exposure g' sym = settled_exposure g sym).
Proof.
  intros Hs. split; intros sym; destruct (sb_symbols _ _ Hs sym) as [Hv Hp He _].
  - unfold settled_position, risk_of, open_position. by rewrite Hp, (osum_view _ _ _ Hv).
  - unfold settled_exposure, risk_of, open_exposure. by rewrite He, (osum_view _ _ _ Hv).
Qed.

Lemma same_books_books g g' n : same_books g g' → books g n → books g' n.
Proof.
  intros Hs [H1 H2 H3]. split.
  - by rewrite (sb_max _ _ Hs).
  - intros sym. by eapply same_symbol_ok; [apply Hs|].
  - rewrite (sb_pending _ _ Hs), H3. f_equal. apply sum_over_ext. intros sym _. symmetry. unfold live_count.
    apply osum_view, (ss_live _ _ (sb_symbols _ _ Hs sym)).
Qed.

Lemma same_books_tracked g0 n g g' : same_books g g' → tracked g0 n g → tracked g0 n g'.
Proof.
  intros Hs [Hb Hp He]. destruct (same_books_settled _ _ Hs) as [Hp' He']. split.
  - by eapply same_books_books.
  - intros sym. by rewrite Hp'.
  - intros sym. by rewrite He'.
Qed.

(** Replacing one symbol's state. *)
Lemma set_exec_tokens g sym s : 0 ≤ sym < kSymbols →
  total_live (set_exec_state g sym s) = total_live g - live_count (es_orders (exec_state g sym)) + live_count (es_orders s).
Proof.
  intros Hs. unfold total_live.
  rewrite (sum_over_update (λ y, live_count (es_orders (exec_state g y))) _ symbols sym); [|apply symbols_NoDup|by apply elem_of_symbols|].
  - rewrite exec_state_set, decide_True by done. done.
  - intros y Hy. by rewrite exec_state_set, decide_False.
Qed.

Lemma set_exec_books g n sym s n' : 0 ≤ sym < kSymbols → books g n → sym_ok s →
  n' = n + live_count (es_orders (exec_state g sym)) - live_count (es_orders s) → books (set_exec_state g sym s) n'.
Proof.
  intros Hs [H1 H2 H3] Hok Hn'. split; [done| |].
  - intros sym'. rewrite exec_state_set. by case_decide.
  - rewrite set_exec_tokens by done. cbn. rewrite H3. lia.
Qed.

Lemma set_exec_settled g sym s :
  (∀ sym', settled_position (set_exec_state g sym s) sym' =
     if decide (sym = sym') then net_position (es_risk s) - open_position (es_orders s) else settled_position g sym') ∧
  (∀ sym', settled_exposure (set_exec_state g sym s) sym' =
     if decide (sym = sym') then gross_exposure (es_risk s) - open_exposure (es_orders s) else settled_exposure g sym').
Proof.
  split; intros sym'; unfold settled_position, settled_exposure, risk_of; rewrite exec_state_set; by case_decide.
Qed.

Lemma set_exec_tracked g0 g n sym s n' : 0 ≤ sym < kSymbols → tracked g0 n g → sym_ok s →
  net_position (es_risk s) - open_position (es_orders s) = settled_position g sym →
  gross_exposure (es_risk s) - open_exposure (es_orders s) = settled_exposure g sym →
  n' = n + live_count (es_orders (exec_state g sym)) - live_count (es_orders s) → tracked g0 n' (set_exec_state g sym s).
Proof.
  intros Hs [Hb Hp He] Hok Ep Ee Hn'. destruct (set_exec_settled g sym s) as [Hp' He']. split.
  - by eapply set_exec_books.
  - intros sym'. rewrite Hp'. case_decide; [subst; by rewrite Ep, Hp|apply Hp].
  - intros sym'. rewrite He'. case_decide; [subst; by rewrite Ee, He|apply He].
Qed.

Lemma tracked_neutral {A} (m : ST (Gateway T) A) g0 n g : neutral m → tracked g0 n g → safe m g (λ _ g', tracked g0 n g').
Proof.
  intros Hm Hg. eapply safe_mono; [apply Hm|]. intros x g' Hs. exact (same_books_tracked _ _ _ _ Hs Hg).
Qed.
End accounts.
