(* ===== verification/GatewayCorrect.v ===== *)
(** * GatewayCorrect: the gateway's methods keep its accounts

    Every method is checked against the books of GatewayBooks.v: submitting,
    cancelling, replacing and rejecting orders settle nothing, a fill settles
    exactly what it reports. *)

From S2P Require Import Prelude Arena Safety Breaker Reconciliation AuditLog Recovery OrderTable Risk Gateway GatewayBooks.
From Stdlib Require Import ZArith Lia.
From stdpp Require Import base tactics gmap numbers option list.
Open Scope Z_scope.

(** ** Facts that only depend on the books *)

Class BookFact {T} (P : Gateway T → Prop) : Prop := book_fact : ∀ g g', same_books g g' → P g → P g'.

#[export] Instance tracked_fact {T} (g0 : Gateway T) n : BookFact (tracked g0 n).
Proof. intros g g'. apply same_books_tracked. Qed.

#[export] Instance and_fact {T} (P Q : Gateway T → Prop) : BookFact P → BookFact Q → BookFact (λ g, P g ∧ Q g).
Proof. intros HP HQ g g' Hs [H1 H2]. split; [by apply (HP g)|by apply (HQ g)]. Qed.

#[export] Instance same_books_fact {T} (g : Gateway T) : BookFact (same_books g).
Proof. intros g1 g2 H12 H1. by etrans. Qed.

(** A neutral step of a program keeps them. *)
Lemma quiet_step {T A B} (P : Gateway T → Prop) (m : ST (Gateway T) A) (k : A → ST (Gateway T) B) g Q :
  BookFact P → neutral m → P g → (∀ x g', P g' → safe (k x) g' Q) → safe (m ≫= k) g Q.
Proof.
  intros HP Hm Hg Hk. apply safe_bind. eapply safe_mono; [apply Hm|]. intros x g' Hs. apply Hk. exact (HP _ _ Hs Hg).
Qed.

Ltac quiet P x g' H' :=
  apply (quiet_step P); [apply _|by auto with gateway|done|]; intros x g' H'.

Section pieces.
Context {T : Type} `{OrderTable T}.
Implicit Types g : Gateway T.

(** ** Tokens *)

Lemma total_live_nonneg g : 0 ≤ total_live g.
Proof using Type.
  unfold total_live. induction symbols as [|x l IH]; [done|]. cbn [sum_over foldr].
  fold (sum_over (λ sym, live_count (es_orders (exec_state g sym))) l).
  pose proof (live_count_bound (es_orders (exec_state g x))). lia.
Qed.

Lemma set_pending_tracked g0 n g p n' : tracked g0 n g → p = total_live g + n' → tracked g0 n' (set_pending g p).
Proof using Type. intros [[H1 H2 H3] Hp He] E. split; [by split|done..]. Qed.

Lemma tracked_acquire g0 n g : tracked g0 n g → 0 ≤ n →
  safe limiter_acquire g (λ ok g', tracked g0 (if ok then n + 1 else n) g' ∧ gw_states g' = gw_states g).
Proof using Type.
  intros Hg Hn. unfold safe, limiter_acquire, try_acquire. pose proof (bk_tokens _ _ (tk_books _ _ _ Hg)) as Ht.
  pose proof (bk_max _ _ (tk_books _ _ _ Hg)) as Hm. pose proof (total_live_nonneg g).
  destruct (Z.ltb_spec (gw_pending g) (gw_max_pending g)).
  - split; [|done]. apply (set_pending_tracked _ n); [done|]. unfold u32. rewrite Z.mod_small by lia. lia.
  - split; [|done]. by apply (set_pending_tracked _ n).
Qed.

Lemma total_live_bound g n : books g n → total_live g ≤ 32768.
Proof using Type.
  intros [_ Hs _]. unfold total_live. assert (Hl : Z.of_nat (length symbols) * 64 = 32768) by (by vm_compute). rewrite <- Hl.
  clear Hl. induction symbols as [|x l IH]; [done|]. cbn [sum_over foldr length].
  fold (sum_over (λ sym, live_count (es_orders (exec_state g sym))) l).
  pose proof (live_count_bound (es_orders (exec_state g x))) as Hb. rewrite (so_length _ (Hs x)) in Hb. lia.
Qed.

Lemma tracked_release g0 n g : tracked g0 (n + 1) g → 0 ≤ n ≤ 1 → safe limiter_release g (λ _ g', tracked g0 n g').
Proof using Type.
  intros Hg Hn. unfold safe, limiter_release, gw_modify, release. pose proof (bk_tokens _ _ (tk_books _ _ _ Hg)) as Ht.
  pose proof (total_live_nonneg g). pose proof (total_live_bound _ _ (tk_books _ _ _ Hg)).
  rewrite (proj2 (Z.eqb_neq (gw_pending g) 0)) by lia.
  apply (set_pending_tracked _ (n + 1)); [done|]. unfold u32. rewrite Z.mod_small; lia.
Qed.

(** ** Slots *)

Lemma land_side side q : signed_qty_delta (Z.land side 1) q = signed_qty_delta side q.
Proof using Type. unfold signed_qty_delta. by rewrite <- Z.land_assoc. Qed.

Lemma move_risk_inv r dp de c r' : move_risk r dp de c = Some r' →
  net_position r' = net_position r + dp ∧ gross_exposure r' = gross_exposure r + de ∧ rs_order_count r' = c.
Proof using Type.
  unfold move_risk. destruct (chk64 (net_position r + dp)) as [np|] eqn:E1; [|done]. cbn [mbind option_bind].
  destruct (chk64 (gross_exposure r + de)) as [ge|] eqn:E2; [|done]. cbn [mbind option_bind].
  apply chk64_inv in E1, E2. intros [= <-]. by subst.
Qed.

(** Books in order, with [dp] and [de] settled for [sym] since [g]. *)
Record settled_by g (sym dp de n : Z) g' : Prop := mk_settled_by {
  sd_books : books g' n;
  sd_position : ∀ sym', settled_position g' sym' = settled_position g sym' + (if decide (sym = sym') then dp else 0);
  sd_exposure : ∀ sym', settled_exposure g' sym' = settled_exposure g sym' + (if decide (sym = sym') then de else 0)
}.

(** A slot is written back after some neutral steps. *)
Lemma write_slot g g' sym k o o' r n n' :
  0 ≤ sym < kSymbols → books g n → same_books g g' → es_orders (exec_state g sym) !! k = Some o →
  rs_order_count r = rs_order_count (es_risk (exec_state g sym)) - weigh (λ _, 1) o + weigh (λ _, 1) o' →
  n' = n + weigh (λ _, 1) o - weigh (λ _, 1) o' →
  settled_by g sym
    (net_position r - net_position (es_risk (exec_state g sym))
      + weigh (λ o, signed_qty_delta (ao_side o) (ao_qty o)) o - weigh (λ o, signed_qty_delta (ao_side o) (ao_qty o)) o')
    (gross_exposure r - gross_exposure (es_risk (exec_state g sym))
      + weigh (λ o, ao_price o * ao_qty o) o - weigh (λ o, ao_price o * ao_qty o) o')
    n' (set_exec_state g' sym (mkExec (<[k := o']> (es_orders (exec_state g sym))) r)).
Proof using Type.
  intros Hs Hg Hsame Hk Hc Hn. pose proof (bk_symbols _ _ Hg sym) as [Hl Hcount].
  pose proof (ss_live _ _ (sb_symbols _ _ Hsame sym)) as Hv.
  destruct (same_books_settled _ _ Hsame) as [Hp' He'].
  destruct (set_exec_settled g' sym (mkExec (<[k := o']> (es_orders (exec_state g sym))) r)) as [Sp Se]. split.
  - apply (set_exec_books _ n); [done|by eapply same_books_books| |].
    + split; cbn [es_orders es_risk]; [by rewrite length_insert|]. unfold live_count.
      rewrite (osum_insert _ _ _ _ _ Hk), Hc, Hcount. unfold live_count. lia.
    + cbn [es_orders]. unfold live_count. rewrite (osum_view _ _ _ Hv), (osum_insert _ _ _ _ _ Hk). lia.
  - intros sym'. rewrite Sp. case_decide; [subst sym'|rewrite Hp'; lia]. cbn [es_orders es_risk].
    unfold settled_position, open_position, risk_of. rewrite (osum_insert _ _ _ _ _ Hk). lia.
  - intros sym'. rewrite Se. case_decide; [subst sym'|rewrite He'; lia]. cbn [es_orders es_risk].
    unfold settled_exposure, open_exposure, risk_of. rewrite (osum_insert _ _ _ _ _ Hk). lia.
Qed.

Lemma settled_none g0 g sym n n' g' : tracked g0 n g → settled_by g sym 0 0 n' g' → tracked g0 n' g'.
Proof using Type.
  intros [_ Hp He] [Hb Hp' He']. split; [done|intros sym'..].
  - rewrite Hp', Hp. case_decide; lia.
  - rewrite He', He. case_decide; lia.
Qed.

(** The same with nothing settled, with and without steps in between. *)
Lemma set_exec_stale g0 g g' sym k o o' r n n' :
  0 ≤ sym < kSymbols → tracked g0 n g → same_books g g' → es_orders (exec_state g sym) !! k = Some o →
  net_position r = net_position (es_risk (exec_state g sym))
    - weigh (λ o, signed_qty_delta (ao_side o) (ao_qty o)) o + weigh (λ o, signed_qty_delta (ao_side o) (ao_qty o)) o' →
  gross_exposure r = gross_exposure (es_risk (exec_state g sym))
    - weigh (λ o, ao_price o * ao_qty o) o + weigh (λ o, ao_price o * ao_qty o) o' →
  rs_order_count r = rs_order_count (es_risk (exec_state g sym)) - weigh (λ _, 1) o + weigh (λ _, 1) o' →
  n' = n + weigh (λ _, 1) o - weigh (λ _, 1) o' →
  tracked g0 n' (set_exec_state g' sym (mkExec (<[k := o']> (es_orders (exec_state g sym))) r)).
Proof using Type.
  intros Hs Hg Hsame Hk Hp He Hc Hn. pose proof (write_slot g g' sym k o o' r n n' Hs (tk_books _ _ _ Hg) Hsame Hk Hc Hn) as Hw.
  eapply settled_none; [exact Hg|]. rewrite Hp, He in Hw.
  match type of Hw with settled_by _ _ ?a ?b _ _ => replace a with 0 in Hw by lia; replace b with 0 in Hw by lia end. exact Hw.
Qed.

Lemma set_slot_tracked g0 n g sym k o o' r n' :
  0 ≤ sym < kSymbols → tracked g0 n g → es_orders (exec_state g sym) !! k = Some o →
  net_position r = net_position (risk_of g sym)
    - weigh (λ o, signed_qty_delta (ao_side o) (ao_qty o)) o + weigh (λ o, signed_qty_delta (ao_side o) (ao_qty o)) o' →
  gross_exposure r = gross_exposure (risk_of g sym) - weigh (λ o, ao_price o * ao_qty o) o + weigh (λ o, ao_price o * ao_qty o) o' →
  rs_order_count r = rs_order_count (risk_of g sym) - weigh (λ _, 1) o + weigh (λ _, 1) o' →
  n' = n + weigh (λ _, 1) o - weigh (λ _, 1) o' →
  tracked g0 n' (set_exec_state g sym (mkExec (<[k := o']> (es_orders (exec_state g sym))) r)).
Proof using Type. intros Hs Hg. by apply set_exec_stale. Qed.

(** No live order of the symbol carries the id. *)
Definition fresh_id g (sym id : Z) : Prop :=
  ∀ o, o ∈ es_orders (exec_state g sym) → is_live o = true → ao_order_id o ≠ id.

Lemma fresh_id_same g g' sym id : same_books g g' → fresh_id g sym id → fresh_id g' sym id.
Proof using Type.
  intros Hs Hf o [k Hk]%list_elem_of_lookup Hl. assert (Hv : live_view (es_orders (exec_state g' sym)) !! k = Some (Some o)).
  { by apply view_lookup. }
  rewrite (ss_live _ _ (sb_symbols _ _ Hs sym)) in Hv. apply view_lookup in Hv as [Hv _].
  apply (Hf o); [|done]. by eapply list_elem_of_lookup_2.
Qed.

#[export] Instance fresh_fact sym id : BookFact (λ g, fresh_id g sym id).
Proof using Type. intros g g'. apply fresh_id_same. Qed.

Lemma drop_one_pos c : 0 < c → drop_one c = c - 1.
Proof using Type. intros Hc. unfold drop_one. by rewrite (proj2 (Z.ltb_lt 0 c)). Qed.

Lemma live_count_pos os k o : os !! k = Some o → is_live o = true → 0 < live_count os.
Proof using Type.
  intros Hk Hl. pose proof (osum_insert (λ _, 1) os k o ActiveOrder_init Hk) as E. unfold weigh in E. rewrite Hl in E.
  change (is_live ActiveOrder_init) with false in E. cbv iota in E.
  pose proof (osum_nonneg (λ _, 1) (<[k:=ActiveOrder_init]> os) ltac:(intros; lia)). unfold live_count. lia.
Qed.

(** Clearing a live slot returns what it reserved. *)
Lemma clear_slot_tracked g0 n g sym k o r :
  0 ≤ sym < kSymbols → tracked g0 n g → es_orders (exec_state g sym) !! k = Some o → is_live o = true →
  move_risk (es_risk (exec_state g sym)) (- signed_qty_delta (ao_side o) (ao_qty o)) (- (ao_price o * ao_qty o))
    (drop_one (rs_order_count (es_risk (exec_state g sym)))) = Some r →
  tracked g0 (n + 1) (set_exec_state g sym (mkExec (<[k := ActiveOrder_init]> (es_orders (exec_state g sym))) r)).
Proof using Type.
  intros Hs Hg Hk Hl Hr. destruct (move_risk_inv _ _ _ _ _ Hr) as (R1 & R2 & R3).
  pose proof (bk_symbols _ _ (tk_books _ _ _ Hg) sym) as [_ Hcount]. pose proof (live_count_pos _ _ _ Hk Hl).
  apply (set_slot_tracked _ n _ _ _ o); try done; unfold weigh, risk_of; rewrite Hl; change (is_live ActiveOrder_init) with false; cbv iota.
  - rewrite R1. lia.
  - rewrite R2. lia.
  - rewrite R3, drop_one_pos; lia.
  - lia.
Qed.

(** ** Reports that settle nothing *)

Definition slot_is (sym : Z) (k : nat) (o : ActiveOrder) g : Prop :=
  live_view (es_orders (exec_state g sym)) !! k = Some (Some o).

#[export] Instance slot_fact sym k o : BookFact (slot_is sym k o).
Proof using Type. intros g g' Hs. unfold slot_is. by rewrite (ss_live _ _ (sb_symbols _ _ Hs sym)). Qed.

Lemma tracked_clear sym k o g0 g : 0 ≤ sym < kSymbols → tracked g0 0 g → slot_is sym k o g →
  safe (clear_order sym k o) g (λ _ g', tracked g0 0 g').
Proof using Type.
  intros Hs Hg [Hk Hl]%view_lookup. unfold clear_order. apply safe_bind. unfold safe at 1, gw_get.
  apply safe_bind, safe_lift. intros nt Hnt%chk64_inv. apply safe_bind, safe_lift. intros r Hr. apply safe_bind.
  unfold safe at 1, gw_modify. apply (tracked_release g0 0); [|lia]. apply (clear_slot_tracked _ 0 _ _ _ o); try done.
  by rewrite <- Hnt.
Qed.

(** The order a report refers to: the first slot in use with its id. *)
Definition named (id : Z) (o : ActiveOrder) : bool := (ao_order_id o =? id) && negb (ao_state o =? 0).

Lemma tracked_cancel_report env sym id g0 g : 0 ≤ sym → tracked g0 0 g →
  safe (apply_cancel_report env sym id) g (λ _ g', tracked g0 0 g').
Proof using Type.
  intros Hs Hg. unfold apply_cancel_report. quiet (tracked g0 0) ready g1 H1.
  destruct (Z.leb_spec kSymbols sym); [rewrite orb_true_r; apply tracked_neutral; auto with gateway|].
  destruct ready; cbn [negb orb]; [|apply tracked_neutral; auto with gateway].
  apply safe_bind. unfold safe at 1, gw_get. change (λ o, _ && _) with (named id).
  destruct (find_slot (named id) _) as [k|] eqn:Ef; [|apply tracked_neutral; auto with gateway].
  apply safe_bind, safe_lift. intros o Ho. destruct (find_slot_Some _ _ _ Ef) as (o' & Ho' & Hn & _). simplify_eq.
  destruct (ao_state o =? 3) eqn:E3; [done|]. assert (Hk : slot_is sym k o g1).
  { apply view_lookup. split; [done|]. unfold named in Hn. apply andb_true_iff in Hn as [_ Hn]. unfold is_live. by rewrite Hn, E3. }
  set (P := λ g, tracked g0 0 g ∧ slot_is sym k o g). assert (HP : P g1) by done.
  quiet P known g2 H2. destruct known; cbn [negb]; [|apply tracked_neutral; [auto with gateway|apply H2]].
  quiet P ok1 g3 H3. destruct ok1; cbn [negb]; [|apply tracked_neutral; [auto with gateway|apply H3]].
  quiet P ok2 g4 H4. destruct ok2; cbn [negb]; [|apply tracked_neutral; [auto with gateway|apply H4]].
  destruct H4 as [H4 K4]. apply safe_bind. eapply safe_mono; [by apply tracked_clear|]. intros ? g5 H5. exact H5.
Qed.

Lemma tracked_reject_report env sym id g0 g : 0 ≤ sym → tracked g0 0 g →
  safe (apply_reject_report env sym id) g (λ _ g', tracked g0 0 g').
Proof using Type.
  intros Hs Hg. unfold apply_reject_report. quiet (tracked g0 0) ready g1 H1.
  destruct (Z.leb_spec kSymbols sym); [rewrite orb_true_r; apply tracked_neutral; auto with gateway|].
  destruct ready; cbn [negb orb]; [|apply tracked_neutral; auto with gateway].
  apply safe_bind. unfold safe at 1, gw_get. change (λ o, _ && _) with (named id).
  set (matching := find_slot _ _ ≫= _).
  assert (Hm : match matching with Some (k, o) => es_orders (exec_state g1 sym) !! k = Some o ∧ named id o = true | None => True end).
  { unfold matching. destruct (find_slot _ _) as [k|] eqn:Ef; [|done]. cbn [mbind option_bind].
    destruct (find_slot_Some _ _ _ Ef) as (o & Ho & Hn & _). by rewrite Ho. }
  assert (Hcase : match matching with Some (k, o) => ao_state o = 3 ∨ slot_is sym k o g1 | None => True end).
  { destruct matching as [[k o]|]; [|done]. destruct Hm as [Hk Hn]. unfold named in Hn. apply andb_true_iff in Hn as [_ Hn].
    destruct (Z.eqb_spec (ao_state o) 3) as [|Hne]; [by left|right]. apply view_lookup. split; [done|].
    unfold is_live. by rewrite Hn, (proj2 (Z.eqb_neq _ _)). }
  clearbody matching. clear Hm.
  set (P := λ g, tracked g0 0 g ∧ match matching with Some (k, o) => ao_state o = 3 ∨ slot_is sym k o g | None => True end).
  assert (HPf : BookFact P).
  { unfold P. apply and_fact; [apply _|]. destruct matching as [[k o]|]; intros ga gb Hab; [|done].
    intros [|Hk]; [by left|right]. by apply (slot_fact sym k o ga). }
  assert (HP : P g1) by done. clear H1 Hcase. revert HP. generalize g1. clear g1. intros g1 HP.
  destruct matching as [[k o]|]; [destruct (Z.eqb_spec (ao_state o) 3) as [|Hne]; [by apply HP|]|];
    (apply safe_bind, safe_ret; cbn [negb]; quiet P x2 g2 H2; quiet P x3 g3 H3; quiet P r g4 H4; quiet P mx g5 H5;
     quiet P x6 g6 H6).
  - quiet P x7 g7 H7. destruct H7 as [H7 [?|K7]]; [done|]. apply safe_bind. eapply safe_mono; [by apply tracked_clear|].
    intros ? g8 H8. exact H8.
  - apply safe_ret, H6.
Qed.

Lemma tracked_replace_report env sym id q pr g0 g : 0 ≤ sym → tracked g0 0 g →
  safe (apply_replace_report env sym id q pr) g (λ _ g', tracked g0 0 g').
Proof using Type.
  intros Hs Hg. unfold apply_replace_report. quiet (tracked g0 0) ready g1 H1.
  destruct (Z.leb_spec kSymbols sym); [rewrite orb_true_r; apply tracked_neutral; auto with gateway|].
  destruct ready; cbn [negb orb]; [|apply tracked_neutral; auto with gateway].
  apply safe_bind. unfold safe at 1, gw_get.
  destruct (find_slot _ _) as [k|] eqn:Ef; [|apply tracked_neutral; auto with gateway].
  apply safe_bind, safe_lift. intros o Ho. destruct (find_slot_Some _ _ _ Ef) as (o' & Ho' & Hn & _). simplify_eq.
  assert (Hl : is_live o = true).
  { unfold live_with_id in Hn. rewrite <- andb_assoc in Hn. by apply andb_true_iff in Hn as [_ Hn]. }
  set (P := λ g, tracked g0 0 g ∧ same_books g1 g).
  assert (HPf : BookFact P).
  { unfold P. apply and_fact; [apply _|]. intros ga gb Hab Ha. by etrans. }
  assert (HP : P g1) by done.
  quiet P known g2 H2. destruct (_ || _ || _); [apply tracked_neutral; [auto with gateway|apply H2]|].
  quiet P ok1 g3 H3. destruct ok1; cbn [negb]; [|apply tracked_neutral; [auto with gateway|apply H3]].
  quiet P ok2 g4 H4. destruct ok2; cbn [negb]; [|apply tracked_neutral; [auto with gateway|apply H4]].
  apply safe_bind, safe_lift. intros d Hd%chk64_inv. apply safe_bind, safe_lift. intros n1 Hn1%chk64_inv.
  apply safe_bind, safe_lift. intros n2 Hn2%chk64_inv. apply safe_bind, safe_lift. intros n3 Hn3%chk64_inv.
  apply safe_bind, safe_lift. intros r Hr. destruct (move_risk_inv _ _ _ _ _ Hr) as (R1 & R2 & R3).
  apply safe_bind. unfold safe at 1, gw_modify. apply safe_ret. destruct H4 as [H4 S4].
  set (o' := mkActive _ _ _ _ _ _ _ _). assert (Hl' : is_live o' = true) by exact Hl.
  eapply (set_exec_stale g0 g1 g4 sym k o o' r 0); try done; unfold weigh; rewrite Hl, Hl'; cbn [o' ao_side ao_qty ao_price]; lia.
Qed.

(** ** Fills *)

Lemma signed_linear side a b : signed_qty_delta side a - signed_qty_delta side b = signed_qty_delta side (a - b).
Proof using Type. rewrite !signed_qty_delta_spec. destruct (Z.even side); lia. Qed.

Lemma signed_zero side : signed_qty_delta side 0 = 0.
Proof using Type. rewrite signed_qty_delta_spec. by destruct (Z.even side). Qed.

(** The report names no terminal order the table still knows. *)
Definition report_live g (sym : Z) (r : ExecutionReport) : Prop :=
  ∀ k o, find_slot (named (rep_order_id r)) (es_orders (exec_state g sym)) = Some k →
    es_orders (exec_state g sym) !! k = Some o → ot_contains (gw_orders g) (rep_order_id r) = true → is_live o = true.

(** The order a report will fill. *)
Definition target g (sym : Z) (r : ExecutionReport) : option ActiveOrder :=
  k ← find_slot (named (rep_order_id r)) (es_orders (exec_state g sym)); es_orders (exec_state g sym) !! k.

Lemma settled_release g sym dp de g' : settled_by g sym dp de 1 g' →
  safe limiter_release g' (λ _ g'', settled_by g sym dp de 0 g'').
Proof using Type.
  intros [Hb Hp He]. assert (Ht : tracked g' (0 + 1) g') by (by split).
  eapply safe_mono; [apply (tracked_release g' 0 g' Ht); lia|]. intros ? g'' [Hb'' Hp'' He'']. split; [done|intros sym'..].
  - by rewrite Hp''.
  - by rewrite He''.
Qed.

(** The slot after a fill: still working, or terminal. *)
Lemma fill_slot g g' sym k o q filled state r n' :
  0 ≤ sym < kSymbols → books g 0 → same_books g g' → es_orders (exec_state g sym) !! k = Some o → is_live o = true →
  let o' := set_order_fill o (ao_qty o - q) filled state in
  net_position r = net_position (es_risk (exec_state g sym))
    - (if is_live o' then 0 else signed_qty_delta (ao_side o) (ao_qty o - q)) →
  gross_exposure r = gross_exposure (es_risk (exec_state g sym)) - (if is_live o' then 0 else ao_price o * (ao_qty o - q)) →
  rs_order_count r = rs_order_count (es_risk (exec_state g sym)) - (if is_live o' then 0 else 1) →
  n' = (if is_live o' then 0 else 1) →
  settled_by g sym (signed_qty_delta (ao_side o) q) (ao_price o * q) n'
    (set_exec_state g' sym (mkExec (<[k := o']> (es_orders (exec_state g sym))) r)).
Proof using Type.
  intros Hs Hg Hsame Hk Hl. cbv zeta. set (o' := set_order_fill _ _ _ _). intros Hp He Hc Hn.
  pose proof (write_slot g g' sym k o o' r 0 n' Hs Hg Hsame Hk) as Hw. unfold weigh in Hw. rewrite Hl in Hw.
  pose proof (signed_linear (ao_side o) (ao_qty o) (ao_qty o - q)) as Hlin. replace (ao_qty o - (ao_qty o - q)) with q in Hlin by lia.
  change (ao_side o') with (ao_side o) in Hw. change (ao_price o') with (ao_price o) in Hw.
  change (ao_qty o') with (ao_qty o - q) in Hw.
  assert (Hw' := Hw ltac:(destruct (is_live o'); lia) ltac:(destruct (is_live o'); lia)).
  match type of Hw' with settled_by _ _ ?a ?b _ _ =>
    replace a with (signed_qty_delta (ao_side o) q) in Hw' by (destruct (is_live o'); lia);
    replace b with (ao_price o * q) in Hw' by (destruct (is_live o'); lia) end.
  exact Hw'.
Qed.

Lemma fill_report env sym rep g : 0 ≤ sym → books g 0 → report_live g sym rep →
  safe (apply_execution_report env sym rep) g (λ ok g',
    if ok then ∃ o, target g sym rep = Some o ∧ is_live o = true ∧
      settled_by g sym (signed_qty_delta (ao_side o) (filled_quantity rep)) (ao_price o * filled_quantity rep) 0 g'
    else same_books g g').
Proof using Type.
  intros Hs Hg Hrep. unfold apply_execution_report. apply safe_bind. unfold safe at 1, gw_get.
  assert (Hfail : ∀ (m : ST (Gateway T) bool) g', same_books g g' → neutral m →
    (∀ g'' g3, m g'' = Some (true, g3) → False) → safe m g' (λ ok g'',
    if ok then ∃ o, target g sym rep = Some o ∧ is_live o = true ∧
      settled_by g sym (signed_qty_delta (ao_side o) (filled_quantity rep)) (ao_price o * filled_quantity rep) 0 g''
    else same_books g g'')).
  { intros m g' Hsame Hm Hf. specialize (Hm g'). unfold safe in *. destruct (m g') as [[[] g'']|] eqn:E; [by destruct (Hf _ _ E)| |done].
    by etrans. }
  destruct (Z.leb_spec kSymbols sym); [rewrite orb_true_r; apply Hfail; [done|by auto with gateway|by intros ? ? [=]]|].
  destruct (gw_arena g); cbn [negb orb]; [|apply Hfail; [done|by auto with gateway|by intros ? ? [=]]].
  apply safe_bind. unfold safe at 1, gw_get. change (λ o, _ && _) with (named (rep_order_id rep)).
  destruct (find_slot _ _) as [k|] eqn:Ef; [|apply Hfail; [done|by auto with gateway|by intros ? ? [=]]].
  apply safe_bind, safe_lift. intros o Ho.
  assert (Htar : target g sym rep = Some o) by (unfold target; by rewrite Ef).
  apply safe_bind. unfold safe at 1, table_contains, gw_get.
  destruct (Z.leb_spec (filled_quantity rep) 0); cbn [orb]; [apply Hfail; [done|by auto with gateway|by intros ? ? [=]]|].
  destruct (Z.ltb_spec (ao_qty o) (filled_quantity rep)); cbn [orb]; [apply Hfail; [done|by auto with gateway|by intros ? ? [=]]|].
  destruct (ot_contains _ _) eqn:Ec; cbn [negb orb]; [|apply Hfail; [done|by auto with gateway|by intros ? ? [=]]].
  assert (Hl : is_live o = true) by (by eapply Hrep).
  quiet (same_books g) ok1 g1 B1. destruct ok1; cbn [negb]; [|apply Hfail; [done|by auto with gateway|by intros ? ? [=]]].
  quiet (same_books g) ok2 g2 B2. destruct ok2; cbn [negb]; [|apply Hfail; [done|by auto with gateway|by intros ? ? [=]]].
  apply safe_bind, safe_lift. intros fq Hfq. quiet (same_books g) x3 g3 B3.
  pose proof (bk_symbols _ _ Hg sym) as [_ Hcount]. pose proof (live_count_pos _ _ _ Ho Hl) as Hpos.
  destruct (terminal rep || _) eqn:Et.
  - apply safe_bind, safe_lift. intros r Hr. apply safe_bind. unfold safe at 1, gw_modify. apply safe_bind.
    eapply safe_mono; [apply settled_release|].
    2: { intros ? g5 H5. apply safe_ret. exists o. split_and!; [done..|exact H5]. }
    assert (Hrisk : net_position r = net_position (es_risk (exec_state g sym))
        - signed_qty_delta (ao_side o) (ao_qty o - filled_quantity rep) ∧
      gross_exposure r = gross_exposure (es_risk (exec_state g sym)) - ao_price o * (ao_qty o - filled_quantity rep) ∧
      rs_order_count r = drop_one (rs_order_count (es_risk (exec_state g sym)))).
    { destruct (terminal rep && _) eqn:Etp.
      - destruct (chk64 (ao_price o * _)) as [nt|] eqn:Ent; [|done]. apply chk64_inv in Ent. cbn [mbind option_bind] in Hr.
        apply move_risk_inv in Hr as (-> & -> & ->). subst nt. split_and!; lia.
      - assert (ao_qty o - filled_quantity rep = 0) as ->.
        { destruct (terminal rep); cbn [andb orb] in *; [apply Z.ltb_ge in Etp; lia|by apply Z.eqb_eq in Et]. }
        apply move_risk_inv in Hr as (-> & -> & ->). rewrite signed_zero. split_and!; lia. }
    destruct Hrisk as (R1 & R2 & R3). rewrite drop_one_pos in R3 by lia. apply fill_slot; try done.
  - apply safe_bind. unfold safe at 1, gw_modify. apply safe_ret. exists o. split_and!; [done..|].
    apply fill_slot; try done; cbn; lia.
Qed.
End pieces.
