(* ===== verification/GatewaySubmit.v ===== *)
(** * GatewaySubmit: submitting an order is all or nothing

    [opened i g g'] says that [g'] is [g] with the order of intent [i] placed in a
    slot and its reservation booked; every other end of [try_build] leaves the
    books as they were. *)

From S2P Require Import Prelude Arena Safety Breaker Reconciliation AuditLog Recovery OrderTable Risk Gateway GatewayBooks GatewayCorrect.
From Stdlib Require Import ZArith Lia.
From stdpp Require Import base tactics gmap numbers option list.
Open Scope Z_scope.

Section submit.
Context {T : Type} `{OrderTable T}.
Implicit Types g : Gateway T.

Definition order_of (i : OrderIntent) : ActiveOrder :=
  mkActive (oi_client_order_id i) (oi_price i) (oi_qty i) 0 (oi_symbol_idx i) (Z.land (oi_side i) 1) 1 (oi_time_in_force i).

(** The order of [i] has taken a free slot, after live orders with other ids. *)
Record opened_symbol (i : OrderIntent) (s s' : SymbolExecState) : Prop := mk_opened_symbol {
  os_slot : ∃ j, live_view (es_orders s) !! j = Some None ∧
    live_view (es_orders s') = <[j := Some (order_of i)]> (live_view (es_orders s)) ∧
    ∀ k, (k < j)%nat → ∃ o, live_view (es_orders s) !! k = Some (Some o) ∧ ao_order_id o ≠ oi_client_order_id i;
  os_position : net_position (es_risk s') = net_position (es_risk s) + signed_qty_delta (oi_side i) (oi_qty i);
  os_exposure : gross_exposure (es_risk s') = gross_exposure (es_risk s) + oi_price i * oi_qty i;
  os_count : rs_order_count (es_risk s') = rs_order_count (es_risk s) + 1
}.

Record opened (i : OrderIntent) g g' : Prop := mk_opened {
  op_arena : gw_arena g' = gw_arena g;
  op_limits : gw_limits g' = gw_limits g;
  op_max : gw_max_pending g' = gw_max_pending g;
  op_pending : gw_pending g' = gw_pending g;
  op_symbol : opened_symbol i (exec_state g (oi_symbol_idx i)) (exec_state g' (oi_symbol_idx i));
  op_others : ∀ sym, sym ≠ oi_symbol_idx i → same_symbol (exec_state g sym) (exec_state g' sym)
}.

Lemma opened_symbol_same i s s' s'' : opened_symbol i s s' → same_symbol s' s'' → opened_symbol i s s''.
Proof using Type. intros [Hs Hp He Hc] [Hv Hp' He' Hc']. split; [by rewrite Hv|congruence..]. Qed.

#[export] Instance opened_fact i g : BookFact (opened i g).
Proof using Type.
  intros g1 g2 [S1 S2 S3 S4 S5] [O1 O2 O3 O4 O5 O6]. split; try congruence.
  - by eapply opened_symbol_same.
  - intros sym Hne. etrans; [by apply O6|apply S5].
Qed.

(** Opening after a neutral step is opening. *)
Lemma opened_from i g g1 g2 : same_books g g1 → opened i g1 g2 → opened i g g2.
Proof using Type.
  intros [S1 S2 S3 S4 S5] [O1 O2 O3 O4 [Hs Hp He Hc] O6]. destruct (S5 (oi_symbol_idx i)) as [Hv Hp' He' Hc'].
  split; try congruence.
  - split; [by rewrite <- Hv|congruence..].
  - intros sym Hne. etrans; [apply S5|by apply O6].
Qed.

(** ** Reserving and releasing a slot *)

Lemma reserve_opens i g : fresh_id g (oi_symbol_idx i) (oi_client_order_id i) →
  sym_ok (exec_state g (oi_symbol_idx i)) →
  safe (reserve_order_slot i) g (λ ok g', if ok then opened i g g' else same_books g g').
Proof using Type.
  intros Hfresh Hok. unfold reserve_order_slot. apply safe_bind. unfold safe at 1, gw_get.
  set (sym := oi_symbol_idx i) in *. set (s := exec_state g sym) in *.
  destruct (Z.leb_spec kMaxActiveOrders (rs_order_count (es_risk s))) as [Hfull|Hroom].
  { quiet (same_books g) x1 g1 H1. quiet (same_books g) x2 g2 H2. done. }
  destruct (find_slot _ _) as [slot|] eqn:Ef; [|done].
  destruct (find_slot_Some _ _ _ Ef) as (o & Ho & Hfree & Hbefore). cbv beta in *.
  assert (Hdead : is_live o = false).
  { unfold is_live. destruct (ao_state o =? 0); [done|]. by destruct (ao_state o =? 3). }
  apply safe_bind, safe_lift. intros nt Hnt%chk64_inv. apply safe_bind, safe_lift. intros r Hr.
  destruct (move_risk_inv _ _ _ _ _ Hr) as (R1 & R2 & R3). apply safe_bind. unfold safe at 1, gw_modify. apply safe_ret.
  split; try done.
  - fold sym. rewrite exec_state_set, decide_True by done. fold s. split; cbn [es_risk es_orders]; [|done|by rewrite R2, Hnt|].
    + exists slot. split_and!.
      * unfold live_view. by rewrite list_lookup_fmap, Ho; simpl; rewrite Hdead.
      * unfold live_view. rewrite list_fmap_insert. done.
      * intros k Hk. pose proof (lookup_lt_Some _ _ _ Ho) as Hlt.
        destruct (lookup_lt_is_Some_2 (es_orders s) k) as [o' Ho']; [lia|]. exists o'.
        assert (Hl' : is_live o' = true).
        { pose proof (Hbefore _ _ Hk Ho') as Hb. unfold is_live. by destruct (ao_state o' =? 0), (ao_state o' =? 3). }
        split; [by apply view_lookup|]. apply Hfresh; [by eapply list_elem_of_lookup_2|done].
    + rewrite R3. destruct Hok as [Hl Hcount]. pose proof (live_count_bound (es_orders s)). unfold u32.
      rewrite Z.mod_small; [done|]. unfold kMaxActiveOrders in *. lia.
  - intros sym' Hne. rewrite exec_state_set, decide_False; [done|intros E; by apply Hne].
Qed.

Lemma opened_slot i g g' : opened i g g' →
  ∃ j, es_orders (exec_state g' (oi_symbol_idx i)) !! j = Some (order_of i) ∧
    find_slot (λ o, ao_order_id o =? oi_client_order_id i) (es_orders (exec_state g' (oi_symbol_idx i))) = Some j ∧
    live_view (<[j := ActiveOrder_init]> (es_orders (exec_state g' (oi_symbol_idx i)))) =
      live_view (es_orders (exec_state g (oi_symbol_idx i))).
Proof using Type.
  intros [_ _ _ _ [(j & Hj & Hv & Hbefore) _ _ _] _]. set (os' := es_orders (exec_state g' _)) in *.
  assert (Hlt := lookup_lt_Some _ _ _ Hj).
  assert (Ho : os' !! j = Some (order_of i)).
  { assert (Hvj : live_view os' !! j = Some (Some (order_of i))) by (by rewrite Hv, list_lookup_insert_eq).
    by apply view_lookup in Hvj as [? _]. }
  exists j. split_and!; [done| |].
  - apply (find_slot_first _ _ j (order_of i)); [done|by apply Z.eqb_refl|]. intros k o Hk Hko.
    destruct (Hbefore k Hk) as (o' & Ho' & Hne). assert (Hvk : live_view os' !! k = Some (Some o')).
    { by rewrite Hv, list_lookup_insert_ne by lia. }
    apply view_lookup in Hvk as [Hvk _]. apply Z.eqb_neq. congruence.
  - unfold live_view at 1. rewrite list_fmap_insert. fold (live_view os'). rewrite Hv, list_insert_insert_eq.
    by apply list_insert_id.
Qed.

Lemma release_undoes i g g' : opened i g g' → 0 ≤ rs_order_count (risk_of g (oi_symbol_idx i)) →
  safe (release_order_slot i) g' (λ _ g'', same_books g g'').
Proof using Type.
  intros Hop Hc. destruct (opened_slot i g g' Hop) as (j & Hj & Hfind & Hview). unfold release_order_slot.
  apply safe_bind. unfold safe at 1, gw_get. rewrite Hfind.
  apply safe_bind, safe_lift. intros nt Hnt%chk64_inv. apply safe_bind, safe_lift. intros r Hr. unfold safe, gw_modify.
  destruct (move_risk_inv _ _ _ _ _ Hr) as (R1 & R2 & R3). destruct Hop as [O1 O2 O3 O4 [_ Op Oe Oc] O6].
  split; try done. intros sym. rewrite exec_state_set. case_decide as E; [subst sym|by apply O6].
  unfold risk_of in Hc. split; cbn [es_orders es_risk]; [done|lia|lia|]. rewrite R3, drop_one_pos; lia.
Qed.

(** ** Tokens *)

Definition spend g : Gateway T := set_pending g (release (gw_pending g)).
Definition earn g : Gateway T := set_pending g (gw_pending g + 1).

Lemma spend_same g g' : same_books g g' → same_books (spend g) (spend g').
Proof using Type. intros [S1 S2 S3 S4 S5]. split; try done. cbn. by rewrite S4. Qed.

Lemma release_spends g g' : same_books g g' → safe limiter_release g' (λ _ g'', same_books (spend g) g'').
Proof using Type. intros Hs. unfold safe, limiter_release, gw_modify. by apply spend_same. Qed.

(** ** The transaction *)

Lemma roll_back_undoes i g g' : opened i g g' → 0 ≤ rs_order_count (risk_of g (oi_symbol_idx i)) →
  safe (roll_back i) g' (λ _ g'', same_books (spend g) g'').
Proof using Type.
  intros Hop Hc. unfold roll_back. quiet (opened i g) x1 g1 H1.
  apply safe_bind. eapply safe_mono; [by apply (release_undoes i g)|]. intros ? g2 H2. cbv beta in H2.
  apply safe_bind. eapply safe_mono; [by apply release_spends|]. intros ? g3 H3. cbv beta in H3.
  quiet (same_books (spend g)) x4 g4 H4. eapply safe_mono; [apply neutral_breaker_failure|]. intros ? g5 H5. cbv beta in H5. by etrans.
Qed.

Lemma commit_all_or_nothing sha env i d p g :
  fresh_id g (oi_symbol_idx i) (oi_client_order_id i) → sym_ok (exec_state g (oi_symbol_idx i)) → rd_pass d = true →
  safe (commit_order sha env i d p) g (λ '(d', p') g',
    if rd_pass d' then d' = d ∧ p' = p ∧ opened i g g' else same_books (spend g) g' ∧ pk_len p' = 0).
Proof using Type.
  intros Hf Hok Hd. assert (Hc : 0 ≤ rs_order_count (risk_of g (oi_symbol_idx i))).
  { unfold risk_of. rewrite (so_count _ Hok). apply live_count_bound. }
  unfold commit_order. quiet (same_books g) reg g1 H1. destruct reg; cbn [negb].
  2: { apply safe_bind. eapply safe_mono; [by apply (release_spends g)|]. intros ? g2 H2. cbv beta in H2.
       quiet (same_books (spend g)) x3 g3 H3. quiet (same_books (spend g)) x4 g4 H4. by apply safe_ret. }
  apply safe_bind. eapply safe_mono.
  { apply (reserve_opens i g1); [by apply (fresh_id_same g)|]. eapply same_symbol_ok; [apply H1|done]. }
  intros res g2 H2. cbv beta in H2. destruct res; cbn [negb].
  2: { assert (B2 : same_books g g2) by (by etrans). quiet (same_books g) x3 g3 H3. apply safe_bind.
       eapply safe_mono; [by apply (release_spends g)|]. intros ? g4 H4. cbv beta in H4.
       quiet (same_books (spend g)) x5 g5 H5. by apply safe_ret. }
  assert (O2 : opened i g g2) by (by eapply opened_from). clear H2.
  quiet (opened i g) ok1 g3 H3. destruct ok1; cbn [negb].
  2: { apply safe_bind. eapply safe_mono; [by apply (roll_back_undoes i g)|]. intros ? g4 H4. by apply safe_ret. }
  quiet (opened i g) ok2 g4 H4. destruct ok2; cbn [negb]; [apply safe_ret; by rewrite Hd|].
  apply safe_bind. eapply safe_mono; [by apply (roll_back_undoes i g)|]. intros ? g5 H5. by apply safe_ret.
Qed.

(** The order passed the gate in the state it was submitted in, and its packet is
    the one the templates give. *)
Record submitted (i : OrderIntent) (p : OutboundPacket) g (d : RiskDecision) (p' : OutboundPacket) g' : Prop := mk_submitted {
  sm_ready : gw_arena g = true ∧ oi_symbol_idx i < kSymbols;
  sm_gate : rd_pass (evaluate_limits (limits_at (gw_limits g) (oi_symbol_idx i)) (risk_of g (oi_symbol_idx i)) i) = true;
  sm_packet : ∃ q, build_enter_order (gw_ouch g) i (no_packet p) = Some (q, true) ∧
    pk_bytes p' = pk_bytes q ∧ pk_len p' = Z.land (pk_len q) 255;
  sm_opened : opened i (earn g) g'
}.

Lemma try_build_cases sha env i p g :
  fresh_id g (oi_symbol_idx i) (oi_client_order_id i) → books g 0 →
  safe (try_build sha env i p) g (λ '(d', p') g',
    if rd_pass d' then submitted i p g d' p' g' else same_books g g' ∧ pk_len p' = 0).
Proof using Type.
  intros Hf Hg. pose proof (bk_symbols _ _ Hg (oi_symbol_idx i)) as Hok. unfold try_build.
  apply safe_bind. unfold safe at 1, gw_get at 1. destruct (gw_arena g) eqn:Ea; cbn [negb orb]; [|by apply safe_ret].
  destruct (Z.leb_spec kSymbols (oi_symbol_idx i)); [by apply safe_ret|].
  apply safe_bind. unfold safe at 1, breaker_allow. destruct (allow _ _) as [b allowed].
  set (g1 := set_breaker g b). assert (B1 : same_books g g1) by done. destruct allowed; cbn [negb].
  2: { quiet (same_books g) x3 g3 H3. quiet (same_books g) x4 g4 H4. by apply safe_ret. }
  apply safe_bind. unfold safe at 1, limiter_acquire, try_acquire. pose proof (bk_tokens _ _ Hg) as Ht.
  pose proof (bk_max _ _ Hg) as Hm. pose proof (total_live_nonneg g). cbn [gw_pending gw_max_pending g1 set_breaker].
  destruct (Z.ltb_spec (gw_pending g) (gw_max_pending g)); cbn [negb].
  2: { assert (B2 : same_books g (set_pending g1 (gw_pending g))) by done.
       quiet (same_books g) x3 g3 H3. quiet (same_books g) x4 g4 H4. by apply safe_ret. }
  assert (Hu : u32 (gw_pending g + 1) = gw_pending g + 1) by (apply Z.mod_small; lia). rewrite Hu.
  assert (Hspend : ∀ g', same_books (spend (earn g)) g' → same_books g g').
  { intros g' [S1 S2 S3 S4 S5]. split; try done. rewrite S4. cbn. unfold release. rewrite (proj2 (Z.eqb_neq _ 0)) by lia.
    unfold u32. rewrite Z.mod_small; lia. }
  set (g2 := set_pending g1 (gw_pending g + 1)). assert (B2 : same_books (earn g) g2) by done.
  apply safe_bind. unfold safe at 1, gw_get at 1. change (gw_arena g2) with (gw_arena g). rewrite Ea.
  unfold evaluate. rewrite (proj2 (Z.leb_gt _ _)) by done. change (gw_limits g2) with (gw_limits g).
  change (risk_of g2 (oi_symbol_idx i)) with (risk_of g (oi_symbol_idx i)).
  set (d := evaluate_limits _ _ _). apply safe_bind. unfold safe at 1, gw_get at 1. cbv zeta. cbn [rd_pass].
  destruct (rd_pass d) eqn:Ed; cbn [negb andb].
  2: { apply safe_bind. eapply safe_mono; [by apply (release_spends (earn g))|]. intros ? g3 H3. cbv beta in H3.
       quiet (same_books (spend (earn g))) x4 g4 H4. apply safe_ret. cbn [rd_pass andb]. auto. }
  destruct (_ <? kMaxActiveOrders); cbn [negb].
  2: { apply safe_bind. eapply safe_mono; [by apply (release_spends (earn g))|]. intros ? g3 H3. cbv beta in H3.
       quiet (same_books (spend (earn g))) x4 g4 H4. quiet (same_books (spend (earn g))) x5 g5 H5. apply safe_ret. cbn [rd_pass andb]. auto. }
  apply safe_bind. unfold safe at 1, gw_get at 1. change (gw_ouch g2) with (gw_ouch g). cbn [rd_pass].
  apply safe_bind, safe_lift. intros [q built] Hq. cbn [rd_pass andb]. destruct built; cbn [negb].
  2: { apply safe_bind. eapply safe_mono; [by apply (release_spends (earn g))|]. intros ? g3 H3. cbv beta in H3.
       quiet (same_books (spend (earn g))) x4 g4 H4. apply safe_ret. cbn [rd_pass andb]. auto. }
  eapply safe_mono; [apply commit_all_or_nothing; done|]. intros [d' p'] g3 Hc. cbv beta iota in Hc.
  destruct (rd_pass d'); [|destruct Hc as [Hc Hl]; split; [apply Hspend; etrans; [by apply spend_same|done]|done]].
  destruct Hc as (-> & -> & Hop). split; [done|done| |by eapply opened_from]. by exists q.
Qed.
End submit.
