(* ===== verification/GatewayTotal.v ===== *)
(** * GatewayTotal: [try_build] always comes to an end

    Under the checks the gateway itself makes, no signed arithmetic of a submission
    overflows and the order table's cancel terminates, so that a submission ends in
    one of the two ways GatewaySubmit.v describes. *)

From S2P Require Import Prelude Arena Safety Breaker Reconciliation AuditLog Recovery OrderTable Risk Gateway GatewayBooks GatewayCorrect GatewaySubmit.
From Stdlib Require Import ZArith Lia.
From stdpp Require Import base tactics gmap numbers option list.
Open Scope Z_scope.

(** The system calls return: whatever is written, the outcomes reach an end. *)
Definition returns (ws : list write_result) : Prop := ∀ file data, is_Some (write_all file data ws).

Definition env_returns (env : Env) : Prop := returns (env_audit_writes env) ∧ returns (env_wal_writes env).

(** A step that ends, and touches neither the books nor the order table. *)
Definition calm {T A} (m : ST (Gateway T) A) : Prop :=
  ∀ g, runs m g (λ _ g', same_books g g' ∧ gw_orders g' = gw_orders g).

Section total.
Context {T : Type} `{OrderTableLaws T}.
Implicit Types g : Gateway T.

Lemma calm_modify (f : Gateway T → Gateway T) : (∀ g, same_books g (f g) ∧ gw_orders (f g) = gw_orders g) → calm (gw_modify f).
Proof using Type. intros Hf g. by exists tt, (f g). Qed.

Lemma calm_count_reject sym : calm (count_reject sym : ST (Gateway T) _).
Proof using Type. apply calm_modify. intros g. split; [by apply same_books_set|done]. Qed.

Lemma calm_set_halted sym h : calm (set_halted sym h : ST (Gateway T) _).
Proof using Type. apply calm_modify. intros g. split; [by apply same_books_set|done]. Qed.

Lemma calm_breaker_failure ts : calm (breaker_failure ts : ST (Gateway T) _).
Proof using Type. by apply calm_modify. Qed.

Lemma calm_audited sha env a b c d e f h : env_returns env → calm (audited (T := T) sha env a b c d e f h).
Proof using Type.
  intros [Hr _] g. unfold runs, audited. destruct (gw_audit_log g) as [log|]; [|by exists true, g].
  unfold audit_append. destruct (_ || _); [by eexists _, _|].
  destruct (Hr (al_file log) (event_bytes (seal_event sha (mkAudit (al_sequence log) a b c d e f h (al_tail log) zero_hash))))
    as [[file ok] ->]. cbn [mbind option_bind]. destruct ok; cbn [negb]; [|by eexists _, _].
  destruct (_ <? _); [by eexists _, _|]. destruct (audit_flush _ _). by eexists _, _.
Qed.

Lemma calm_logged env e : env_returns env → calm (logged (T := T) env e).
Proof using Type.
  intros [_ Hr] g. unfold runs, logged. destruct (gw_recovery_ledger g) as [wal|]; [|by exists true, g].
  unfold append_and_flush. destruct (_ || _); [by eexists _, _|].
  destruct (Hr (wal_file wal) (record_bytes (make_record (wal_sequence wal) e))) as [[file ok] ->].
  cbn [mbind option_bind]. destruct ok, (env_wal_fsync env); cbn [negb]; by eexists _, _.
Qed.

(** Facts about the books and the table together. *)
Lemma calm_step {A B} (m : ST (Gateway T) A) (k : A → ST (Gateway T) B) g (P : Gateway T → Prop) (R : T → Prop) Q :
  BookFact P → calm m → P g → R (gw_orders g) → (∀ x g', P g' → R (gw_orders g') → runs (k x) g' Q) → runs (m ≫= k) g Q.
Proof using Type.
  intros HP Hm Hg HR Hk. apply runs_bind. eapply runs_mono; [apply Hm|]. intros x g' [Hs Ho]. apply Hk; [by apply (HP g)|by rewrite Ho].
Qed.

(** The reservation of [i] fits the accounts. *)
Record fits (i : OrderIntent) g : Prop := mk_fits_in {
  ft_before : is_i64 (net_position (risk_of g (oi_symbol_idx i))) ∧ is_i64 (gross_exposure (risk_of g (oi_symbol_idx i)));
  ft_position : is_i64 (net_position (risk_of g (oi_symbol_idx i)) + signed_qty_delta (oi_side i) (oi_qty i));
  ft_notional : is_i64 (oi_price i * oi_qty i);
  ft_exposure : is_i64 (gross_exposure (risk_of g (oi_symbol_idx i)) + oi_price i * oi_qty i)
}.

#[export] Instance fits_fact i : BookFact (fits i).
Proof using Type.
  intros g g' Hs [F1 F2 F3 F4]. destruct (sb_symbols _ _ Hs (oi_symbol_idx i)) as [_ Hp He _].
  unfold risk_of in *. split; unfold risk_of; by rewrite ?Hp, ?He.
Qed.

Lemma chk64_i64 z : is_i64 z → chk64 z = Some z.
Proof using Type. unfold is_i64. intros Hz. apply chk64_ok. unfold INT64_MIN, INT64_MAX. lia. Qed.

Lemma move_risk_runs r dp de c : is_i64 (net_position r + dp) → is_i64 (gross_exposure r + de) → is_Some (move_risk r dp de c).
Proof using Type. intros Hp He. unfold move_risk. rewrite !chk64_i64 by done. by eexists. Qed.

Lemma reserve_runs i g : fits i g → runs (reserve_order_slot i) g (λ _ g', gw_orders g' = gw_orders g).
Proof using Type.
  intros [_ Fp Fn Fe]. unfold reserve_order_slot. apply runs_bind. eexists _, _. split; [reflexivity|].
  destruct (_ <=? _); [by eexists _, _|]. destruct (find_slot _ _); [|by eexists _, _].
  rewrite chk64_i64 by done. apply runs_bind. eexists _, _. split; [reflexivity|]. apply runs_bind.
  edestruct move_risk_runs as [r Hr]; [exact Fp|exact Fe|]. eapply runs_lift; [exact Hr|]. by eexists _, _.
Qed.

Lemma release_runs i g g' : fits i g → opened i g g' →
  runs (release_order_slot i) g' (λ _ g'', gw_orders g'' = gw_orders g').
Proof using Type.
  intros [[Fb1 Fb2] Fp Fn Fe] Hop. destruct (opened_slot i g g' Hop) as (j & _ & Hfind & _).
  destruct (op_symbol _ _ _ Hop) as [_ Hp He _]. unfold risk_of in *.
  unfold release_order_slot. apply runs_bind. eexists _, _. split; [reflexivity|]. rewrite Hfind, chk64_i64 by done.
  apply runs_bind. eexists _, _. split; [reflexivity|]. apply runs_bind.
  edestruct (move_risk_runs (es_risk (exec_state g' (oi_symbol_idx i))) (- signed_qty_delta (oi_side i) (oi_qty i))
    (- (oi_price i * oi_qty i))) as [r Hr].
  - rewrite Hp. by replace (_ + _ + - _) with (net_position (es_risk (exec_state g (oi_symbol_idx i)))) by lia.
  - rewrite He. by replace (_ + _ + - _) with (gross_exposure (es_risk (exec_state g (oi_symbol_idx i)))) by lia.
  - eapply runs_lift; [exact Hr|]. by eexists _, _.
Qed.

Lemma cancel_runs g m id : ot_rep (gw_orders g) m → Z.of_nat (size m) < ot_capacity → id ≠ 0 → is_Some (m !! id) →
  runs (table_cancel id) g (λ _ g', same_books g g' ∧ ot_rep (gw_orders g') (delete id m)).
Proof using Type.
  intros Hr Hs Hid Hm. destruct (ot_cancel_known _ _ _ Hr Hs Hid Hm) as (t' & E & Hr').
  unfold runs, table_cancel. rewrite E. cbn [mbind option_bind]. by eexists _, _.
Qed.

Lemma release_token_runs g : runs limiter_release g (λ _ g', gw_orders g' = gw_orders g).
Proof using Type. by eexists _, _. Qed.

(** The table while the order is registered. *)
Record registered (i : OrderIntent) (m : gmap Z Z) (t : T) : Prop := mk_registered {
  rg_rep : ot_rep t (<[oi_client_order_id i := oi_qty i]> m);
  rg_new : m !! oi_client_order_id i = None;
  rg_id : oi_client_order_id i ≠ 0;
  rg_room : Z.of_nat (size m) + 1 < ot_capacity
}.

Lemma unregister_runs i m g : registered i m (gw_orders g) →
  runs (table_cancel (oi_client_order_id i)) g (λ _ g', same_books g g' ∧ ot_rep (gw_orders g') m).
Proof using Type.
  intros [Hr Hn Hid Hs]. eapply runs_mono; [apply (cancel_runs _ _ _ Hr)|].
  - rewrite map_size_insert_None by done. lia.
  - done.
  - by rewrite lookup_insert_eq.
  - intros ? g' [Hb Hr']. split; [done|]. by rewrite delete_insert_id in Hr'.
Qed.

Lemma roll_back_runs i m g g' : fits i g → opened i g g' → registered i m (gw_orders g') →
  runs (roll_back i) g' (λ _ g'', ot_rep (gw_orders g'') m).
Proof using Type.
  intros Hf Hop Hreg. unfold roll_back. apply runs_bind. eapply runs_mono; [by apply unregister_runs|]. intros ? g1 [B1 R1].
  apply runs_bind. eapply runs_mono; [apply (release_runs i g); [done|by apply (opened_fact i g g')]|]. intros ? g2 E2. cbv beta in E2.
  apply runs_bind. eapply runs_mono; [apply release_token_runs|]. intros ? g3 E3. cbv beta in E3.
  apply runs_bind. eapply runs_mono; [apply calm_count_reject|]. intros ? g4 [_ E4].
  eapply runs_mono; [apply calm_breaker_failure|]. intros ? g5 [_ E5]. cbv beta. by rewrite E5, E4, E3, E2.
Qed.

Lemma commit_runs sha env i d p m g :
  env_returns env → fits i g → 0 < oi_qty i → ot_rep (gw_orders g) m → Z.of_nat (size m) + 1 < ot_capacity → rd_pass d = true →
  fresh_id g (oi_symbol_idx i) (oi_client_order_id i) → sym_ok (exec_state g (oi_symbol_idx i)) →
  runs (commit_order sha env i d p) g (λ '(d', _) g',
    ot_rep (gw_orders g') (if rd_pass d' then <[oi_client_order_id i := oi_qty i]> m else m)).
Proof using Type.
  intros Henv Hf Hq Hrep Hroom Hd Hfresh Hok. unfold commit_order.
  assert (Hreg : ∃ t ok, ot_register (gw_orders g) (oi_client_order_id i) (oi_qty i) = (t, ok) ∧
    if ok : bool then registered i m t else ot_rep t m).
  { destruct (decide (oi_client_order_id i = 0)) as [E|Hid].
    - rewrite ot_register_refused by auto. by eexists _, false.
    - destruct (m !! oi_client_order_id i) as [r|] eqn:Em.
      + destruct (ot_register_known _ m (oi_client_order_id i) (oi_qty i) Hrep) as (t & E & Ht); [lia|done|done|by eexists|]. by exists t, false.
      + destruct (ot_register_new _ m (oi_client_order_id i) (oi_qty i) Hrep) as (t & E & Ht); [lia|done..|]. by exists t, true. }
  destruct Hreg as (t & ok & Et & Hreg). apply runs_bind. unfold runs at 1, table_register. rewrite Et.
  eexists _, _. split; [reflexivity|]. set (g1 := set_table g t). assert (B1 : same_books g g1) by done.
  destruct ok; cbn [negb].
  2: { apply runs_bind. eapply runs_mono; [apply release_token_runs|]. intros ? g2 E2. cbv beta in E2.
       apply (calm_step _ _ _ (λ _, True) (λ t, ot_rep t m)); [done|apply calm_count_reject|done|by rewrite E2|]. intros ? g3 _ R3.
       apply (calm_step _ _ _ (λ _, True) (λ t, ot_rep t m)); [done|apply calm_breaker_failure|done..|]. intros ? g4 _ R4.
       by apply runs_ret. }
  apply runs_bind. eapply runs_mono.
  { apply runs_safe; [apply (reserve_runs i g1); by apply (fits_fact i g)|].
    apply reserve_opens; [by apply (fresh_id_same g)|by eapply same_symbol_ok; [apply B1|]]. }
  intros res g2 [E2 O2]. cbv beta in *. assert (R2 : registered i m (gw_orders g2)) by (by rewrite E2). destruct res; cbn [negb].
  2: { apply runs_bind. eapply runs_mono; [by apply unregister_runs|]. intros ? g3 [_ R3].
       apply runs_bind. eapply runs_mono; [apply release_token_runs|]. intros ? g4 E4. cbv beta in E4.
       apply (calm_step _ _ _ (λ _, True) (λ t, ot_rep t m)); [done|apply calm_breaker_failure|done|by rewrite E4|]. intros ? g5 _ R5.
       by apply runs_ret. }
  assert (O2' : opened i g g2) by (by eapply opened_from).
  apply (calm_step _ _ _ (opened i g) (registered i m)); [apply _|by apply calm_audited|done..|]. intros ok1 g3 O3 R3.
  destruct ok1; cbn [negb].
  2: { apply runs_bind. eapply runs_mono; [by apply (roll_back_runs i m g)|]. intros ? g4 R4. by apply runs_ret. }
  apply (calm_step _ _ _ (opened i g) (registered i m)); [apply _|by apply calm_logged|done..|]. intros ok2 g4 O4 R4.
  destruct ok2; cbn [negb].
  2: { apply runs_bind. eapply runs_mono; [by apply (roll_back_runs i m g)|]. intros ? g5 R5. by apply runs_ret. }
  apply runs_ret. rewrite Hd. apply R4.
Qed.

(** What [try_build] relies on: an initialised gateway with sound books, a table
    with room, validated limits, machine-sized values and system calls that return. *)
Record submission (env : Env) (i : OrderIntent) (p : OutboundPacket) (m : gmap Z Z) g : Prop := mk_submission {
  sb_ready : gw_arena g = true ∧ gw_ouch g = true;
  sb_books : books g 0;
  sb_symbol : 0 ≤ oi_symbol_idx i;
  sb_limits_ok : limits_ok (limits_at (gw_limits g) (oi_symbol_idx i));
  sb_risk : risk_ok (risk_of g (oi_symbol_idx i));
  sb_intent : intent_ok i;
  sb_fresh : fresh_id g (oi_symbol_idx i) (oi_client_order_id i);
  sb_table : ot_rep (gw_orders g) m;
  sb_room : Z.of_nat (size m) + 1 < ot_capacity;
  sb_buffer : length (pk_bytes p) = 64%nat;
  sb_env : env_returns env
}.

Lemma gate_fits i g : limits_ok (limits_at (gw_limits g) (oi_symbol_idx i)) → risk_ok (risk_of g (oi_symbol_idx i)) → intent_ok i →
  rd_pass (evaluate_limits (limits_at (gw_limits g) (oi_symbol_idx i)) (risk_of g (oi_symbol_idx i)) i) = true →
  fits i g ∧ 0 < oi_qty i.
Proof using Type.
  intros Hl Hr Hi Hp. destruct (gate_spec _ _ _ Hl Hr Hi) as [[Ha _] _ _ _ _ _]. destruct (Ha Hp) as [Aq Apos _ _ Apr _ _ Ae].
  destruct Hr as [Hr1 Hr2]. destruct (limits_valid_inv _ (lo_valid _ Hl)) as (V1 & _ & V3 & V4 & _).
  pose proof (lo_position _ Hl) as V5. unfold is_i64, kMaxPrice, kMaxQuantity, INT64_MAX in *.
  assert (Hmul : 0 ≤ oi_price i * oi_qty i < 2 ^ 62) by nia.
  split; [|lia]. split; [done|rewrite signed_qty_delta_spec; unfold is_i64; lia|unfold is_i64; lia|unfold is_i64; lia].
Qed.

Lemma try_build_runs sha env i p m g : submission env i p m g →
  runs (try_build sha env i p) g (λ '(d', _) g',
    ot_rep (gw_orders g') (if rd_pass d' then <[oi_client_order_id i := oi_qty i]> m else m)).
Proof using Type.
  intros [[Ha Ho] Hg Hs Hl Hr Hi Hf Ht Hroom Hbuf Henv]. unfold try_build.
  apply runs_bind. eexists _, _. split; [reflexivity|]. rewrite Ha. cbn [negb orb].
  destruct (Z.leb_spec kSymbols (oi_symbol_idx i)); [by apply runs_ret|].
  apply runs_bind. unfold runs at 1, breaker_allow. destruct (allow _ _) as [b allowed]. eexists _, _. split; [reflexivity|].
  set (g1 := set_breaker g b). destruct allowed; cbn [negb].
  2: { apply (calm_step _ _ _ (λ _, True) (λ t, ot_rep t m)); [done|apply calm_count_reject|done..|]. intros ? g2 _ R2.
       apply (calm_step _ _ _ (λ _, True) (λ t, ot_rep t m)); [done|apply calm_set_halted|done..|]. intros ? g3 _ R3. by apply runs_ret. }
  apply runs_bind. unfold runs at 1, limiter_acquire. destruct (try_acquire _ _) as [pend acq]. eexists _, _. split; [reflexivity|].
  set (g2 := set_pending g1 pend). destruct acq; cbn [negb].
  2: { apply (calm_step _ _ _ (λ _, True) (λ t, ot_rep t m)); [done|apply calm_count_reject|done..|]. intros ? g3 _ R3.
       apply (calm_step _ _ _ (λ _, True) (λ t, ot_rep t m)); [done|apply calm_set_halted|done..|]. intros ? g4 _ R4. by apply runs_ret. }
  apply runs_bind. eexists _, _. split; [reflexivity|]. change (gw_arena g2) with (gw_arena g). rewrite Ha.
  unfold evaluate. rewrite (proj2 (Z.leb_gt _ _)) by done. change (gw_limits g2) with (gw_limits g).
  change (risk_of g2 (oi_symbol_idx i)) with (risk_of g (oi_symbol_idx i)).
  set (d := evaluate_limits _ _ _). apply runs_bind. eexists _, _. split; [reflexivity|]. cbv zeta. cbn [rd_pass].
  assert (Hquit : ∀ (k : ST (Gateway T) (RiskDecision * OutboundPacket)),
    (∀ g', ot_rep (gw_orders g') m → runs k g' (λ '(d', _) g'', ot_rep (gw_orders g'')
      (if rd_pass d' then <[oi_client_order_id i := oi_qty i]> m else m))) →
    runs (limiter_release;; count_reject (oi_symbol_idx i);; k) g2 (λ '(d', _) g'', ot_rep (gw_orders g'')
      (if rd_pass d' then <[oi_client_order_id i := oi_qty i]> m else m))).
  { intros k Hk. apply runs_bind. eapply runs_mono; [apply release_token_runs|]. intros ? g3 E3. cbv beta in E3.
    apply (calm_step _ _ _ (λ _, True) (λ t, ot_rep t m)); [done|apply calm_count_reject|done|by rewrite E3|]. intros ? g4 _ R4. by apply Hk. }
  destruct (rd_pass d) eqn:Ed; cbn [negb andb]; [|apply Hquit; intros g' Hg'; by apply runs_ret].
  destruct (_ <? kMaxActiveOrders); cbn [negb].
  2: { apply Hquit. intros g' Hg'. apply (calm_step _ _ _ (λ _, True) (λ t, ot_rep t m)); [done|apply calm_set_halted|done..|].
       intros ? g4 _ R4. by apply runs_ret. }
  apply runs_bind. eexists _, _. split; [reflexivity|]. change (gw_ouch g2) with (gw_ouch g). rewrite Ho. cbn [rd_pass].
  rewrite enter_order_bytes by done. apply runs_bind. eexists _, _. split; [reflexivity|]. cbn [rd_pass andb negb].
  destruct (gate_fits i g Hl Hr Hi Ed) as [Hfit Hq]. apply commit_runs; try done.
  - by destruct Hfit.
  - apply (bk_symbols _ _ Hg).
Qed.
End total.
