(* ===== verification/GatewayTheorems.v ===== *)
(** * GatewayTheorems: what the execution gateway guarantees *)

From S2P Require Import Prelude Arena Safety Breaker Reconciliation AuditLog Recovery OrderTable Risk Gateway GatewayBooks GatewayCorrect GatewaySubmit GatewayTotal.
From Stdlib Require Import ZArith Lia.
From stdpp Require Import base tactics gmap numbers option list.
Open Scope Z_scope.

Section calls.
Context {T : Type} `{OrderTable T}.
Implicit Types g : Gateway T.

(** ** An opened order in the books *)

Definition vsum (f : ActiveOrder → Z) (v : list (option ActiveOrder)) : Z := foldr (λ o a, from_option f 0 o + a) 0 v.

Lemma osum_vsum f os : osum f os = vsum f (live_view os).
Proof using Type.
  induction os as [|o os IH]; [done|]. cbn [osum foldr live_view fmap list_fmap vsum]. fold (osum f os) (live_view os).
  fold (vsum f (live_view os)). rewrite IH. unfold weigh. by destruct (is_live o).
Qed.

Lemma vsum_insert f v j o : v !! j = Some None → vsum f (<[j := Some o]> v) = vsum f v + f o.
Proof using Type. revert j. induction v as [|a v IH]; intros [|j] Hj; simplify_eq/=; [lia|]. rewrite (IH j Hj). lia. Qed.

Lemma opened_osum i s s' f : opened_symbol i s s' → osum f (es_orders s') = osum f (es_orders s) + f (order_of i).
Proof using Type. intros [(j & Hj & Hv & _) _ _ _]. by rewrite !osum_vsum, Hv, vsum_insert. Qed.

Lemma opened_tracked i g g' : 0 ≤ oi_symbol_idx i < kSymbols → books g 0 → opened i (earn g) g' → tracked g 0 g'.
Proof using Type.
  intros Hs [B1 B2 B3] [O1 O2 O3 O4 O5 O6]. set (sym := oi_symbol_idx i) in *.
  change (exec_state (earn g)) with (exec_state g) in *.
  assert (Hother : ∀ f sym', sym' ≠ sym → osum f (es_orders (exec_state g' sym')) = osum f (es_orders (exec_state g sym'))).
  { intros f sym' Hne. apply osum_view, (ss_live _ _ (O6 sym' Hne)). }
  assert (Hhere : ∀ f, osum f (es_orders (exec_state g' sym)) = osum f (es_orders (exec_state g sym)) + f (order_of i)).
  { intros f. by apply opened_osum. }
  split; [split|intros sym'..].
  - by rewrite O3.
  - intros sym'. destruct (decide (sym' = sym)) as [->|Hne]; [|by eapply same_symbol_ok; [apply O6|]].
    destruct (B2 sym) as [Hl Hc]. split.
    + destruct O5 as [(j & Hj & Hv & _) _ _ _]. rewrite <- live_view_length, Hv, length_insert. by rewrite live_view_length.
    + rewrite (os_count _ _ _ O5), Hc. unfold live_count. by rewrite Hhere.
  - rewrite O4. cbn. rewrite B3. unfold total_live.
    rewrite (sum_over_update (λ y, live_count (es_orders (exec_state g y)))
      (λ y, live_count (es_orders (exec_state g' y))) symbols sym); [|apply symbols_NoDup|by apply elem_of_symbols|].
    + unfold live_count. rewrite Hhere. lia.
    + intros y Hy. by apply Hother.
  - unfold settled_position, risk_of, open_position. destruct (decide (sym' = sym)) as [->|Hne].
    + rewrite Hhere, (os_position _ _ _ O5). cbn [order_of ao_side ao_qty]. rewrite land_side. lia.
    + by rewrite Hother, (ss_position _ _ (O6 sym' Hne)).
  - unfold settled_exposure, risk_of, open_exposure. destruct (decide (sym' = sym)) as [->|Hne].
    + rewrite Hhere, (os_exposure _ _ _ O5). cbn [order_of ao_price ao_qty]. lia.
    + by rewrite Hother, (ss_exposure _ _ (O6 sym' Hne)).
Qed.

(** ** Sessions *)

Inductive gw_call :=
  | Submit (sha256 : list Z → list Z) (env : Env) (i : OrderIntent) (p : OutboundPacket)
  | RequestReplace (sha256 : list Z → list Z) (env : Env) (i : OrderReplaceIntent) (p : OutboundPacket)
  | Execution (env : Env) (sym : Z) (r : ExecutionReport)
  | Cancelled (env : Env) (sym id : Z)
  | Replaced (env : Env) (sym id qty price : Z)
  | Rejected (env : Env) (sym id : Z)
  | CancelById (env : Env) (id : Z)
  | HaltSymbol (sym : Z)
  | ResumeSymbol (sym : Z).

Definition do_gw (c : gw_call) : ST (Gateway T) bool :=
  match c with
  | Submit sha env i p => dp ← try_build sha env i p; mret (rd_pass (fst dp))
  | RequestReplace sha env i p => dp ← try_replace sha env i p; mret (rd_pass (fst dp))
  | Execution env sym r => apply_execution_report env sym r
  | Cancelled env sym id => apply_cancel_report env sym id
  | Replaced env sym id q p => apply_replace_report env sym id q p
  | Rejected env sym id => apply_reject_report env sym id
  | CancelById env id => cancel_order env id
  | HaltSymbol sym => halt_symbol sym;; mret true
  | ResumeSymbol sym => resume_symbol sym;; mret true
  end.

(** Symbols are [uint16_t] and sides [uint8_t]; a submitted id is not the id of a
    live order of its symbol; a report names no terminal order whose id is live
    elsewhere. *)
Definition call_ok g (c : gw_call) : Prop :=
  match c with
  | Submit _ _ i _ => 0 ≤ oi_symbol_idx i ∧ fresh_id g (oi_symbol_idx i) (oi_client_order_id i)
  | Execution _ sym r => 0 ≤ sym ∧ report_live g sym r
  | Cancelled _ sym _ | Replaced _ sym _ _ _ | Rejected _ sym _ => 0 ≤ sym
  | _ => True
  end.

(** What a call settles: symbol, signed quantity, notional. *)
Definition fills_of g (c : gw_call) (ok : bool) : list (Z * Z * Z) :=
  match c with
  | Execution _ sym r =>
      match target g sym r with
      | Some o => if ok then [(sym, signed_qty_delta (ao_side o) (filled_quantity r), ao_price o * filled_quantity r)] else []
      | None => []
      end
  | _ => []
  end.

Inductive session : Gateway T → list (Z * Z * Z) → Gateway T → Prop :=
  | session_nil g : session g [] g
  | session_call g c ok g1 fills g2 :
      call_ok g c → do_gw c g = Some (ok, g1) → session g1 fills g2 → session g (fills_of g c ok ++ fills) g2.

Definition filled_position (sym : Z) (fills : list (Z * Z * Z)) : Z :=
  foldr (λ '(s, q, _) a, (if decide (sym = s) then q else 0) + a) 0 fills.
Definition filled_notional (sym : Z) (fills : list (Z * Z * Z)) : Z :=
  foldr (λ '(s, _, n) a, (if decide (sym = s) then n else 0) + a) 0 fills.

Record accounts g (fills : list (Z * Z * Z)) g' : Prop := mk_accounts {
  ac_books : books g' 0;
  ac_position : ∀ sym, settled_position g' sym = settled_position g sym + filled_position sym fills;
  ac_exposure : ∀ sym, settled_exposure g' sym = settled_exposure g sym + filled_notional sym fills
}.

Lemma neutral_try_replace sha env i p : neutral (try_replace (T := T) sha env i p).
Proof using Type.
  unfold try_replace. apply neutral_bind; [auto with gateway|]. intros ready. apply neutral_if; [auto with gateway|].
  apply neutral_bind; [auto with gateway|]. intros allowed. apply neutral_if; [auto 6 with gateway|].
  apply neutral_bind; [auto with gateway|]. intros known. apply neutral_if; [auto 6 with gateway|].
  apply neutral_bind; [auto with gateway|]. intros s. destruct (_ ≫= _) as [o|]; [|auto 6 with gateway].
  apply neutral_bind; [auto with gateway|]. intros d. apply neutral_if; [auto 6 with gateway|].
  apply neutral_bind; [auto with gateway|]. intros ouch. apply neutral_bind; [auto with gateway|]. intros [q built].
  apply neutral_if; [auto 6 with gateway|]. apply neutral_bind; [auto with gateway|]. intros ok. auto 8 with gateway.
Qed.

Lemma tracked_accounts g g' : tracked g 0 g' → accounts g [] g'.
Proof using Type. intros [Hb Hp He]. split; [done|intros sym..]; rewrite ?Hp, ?He; simpl; lia. Qed.

Lemma call_accounts g c : books g 0 → call_ok g c → safe (do_gw c) g (λ ok g', accounts g (fills_of g c ok) g').
Proof using Type.
  intros Hg Hc. assert (Hself : tracked g 0 g) by (by split).
  assert (Hneu : ∀ (m : ST (Gateway T) bool), neutral m → safe m g (λ _ g', accounts g [] g')).
  { intros m Hm. eapply safe_mono; [by apply (tracked_neutral m g 0)|]. intros ? g' Hg'. by apply tracked_accounts. }
  destruct c as [sha env i p|sha env i p|env sym r|env sym id|env sym id q pr|env sym id|env id|sym|sym]; cbn [do_gw fills_of].
  - destruct Hc as [Hs Hf]. apply safe_bind. eapply safe_mono; [by apply try_build_cases|]. intros [d p'] g' Hd. cbv beta iota in Hd.
    apply safe_ret, tracked_accounts. destruct (rd_pass d).
    + destruct Hd as [[_ Hlt] _ _ Hop]. by eapply opened_tracked; [| |exact Hop].
    + destruct Hd as [Hd _]. by eapply same_books_tracked.
  - apply Hneu. apply neutral_bind; [apply neutral_try_replace|]. intros x. apply neutral_ret.
  - destruct Hc as [Hs Hr]. eapply safe_mono; [by apply fill_report|]. intros [] g' Hfill; cbv beta iota in Hfill.
    + destruct Hfill as (o & -> & _ & [Sb Sp Se]). split; [done|intros sym'..]; rewrite ?Sp, ?Se; simpl;
        repeat case_decide; congruence || lia.
    + destruct (target g sym r); apply tracked_accounts; by eapply same_books_tracked.
  - eapply safe_mono; [by apply (tracked_cancel_report env sym id g)|]. intros ? g' Hg'. by apply tracked_accounts.
  - eapply safe_mono; [by apply (tracked_replace_report env sym id q pr g)|]. intros ? g' Hg'. by apply tracked_accounts.
  - eapply safe_mono; [by apply (tracked_reject_report env sym id g)|]. intros ? g' Hg'. by apply tracked_accounts.
  - unfold cancel_order. apply safe_bind. unfold safe at 1, gw_get. destruct (_ || _); [by apply tracked_accounts|].
    destruct (list_find _ _) as [[k sym]|] eqn:Ef; [|by apply tracked_accounts].
    apply list_find_Some in Ef as (Hk & _). apply list_elem_of_lookup_2, elem_of_symbols in Hk.
    eapply safe_mono; [apply (tracked_cancel_report env sym id g); [lia|done]|]. intros ? g' Hg'. by apply tracked_accounts.
  - apply Hneu. unfold halt_symbol. auto 7 with gateway.
  - apply Hneu. unfold resume_symbol. auto 7 with gateway.
Qed.

Lemma filled_position_app sym l l' : filled_position sym (l ++ l') = filled_position sym l + filled_position sym l'.
Proof using Type. induction l as [|[[s q] n] l IH]; [done|]. cbn. fold (filled_position sym (l ++ l')). rewrite IH. unfold filled_position. lia. Qed.

Lemma filled_notional_app sym l l' : filled_notional sym (l ++ l') = filled_notional sym l + filled_notional sym l'.
Proof using Type. induction l as [|[[s q] n] l IH]; [done|]. cbn. fold (filled_notional sym (l ++ l')). rewrite IH. unfold filled_notional. lia. Qed.

Lemma session_accounts g fills g' : session g fills g' → books g 0 → accounts g fills g'.
Proof using Type.
  induction 1 as [g|g c ok g1 fills g2 Hc E _ IH]; intros Hg; [apply tracked_accounts; by split|].
  pose proof (call_accounts g c Hg Hc) as H1. unfold safe in H1. rewrite E in H1. destruct H1 as [B1 P1 E1].
  destruct (IH B1) as [B2 P2 E2]. split; [done|intros sym..].
  - rewrite P2, P1, filled_position_app. lia.
  - rewrite E2, E1, filled_notional_app. lia.
Qed.

(** A gateway that has not traded. *)
Definition untraded g : Prop := gw_states g = ∅ ∧ gw_pending g = 0 ∧ gw_max_pending g < 2 ^ 32.

Lemma untraded_books g : untraded g → books g 0 ∧ ∀ sym, settled_position g sym = 0 ∧ settled_exposure g sym = 0.
Proof using Type.
  intros (Hs & Hp & Hm). assert (Hx : ∀ sym, exec_state g sym = SymbolExecState_init).
  { intros sym. unfold exec_state. by rewrite Hs. }
  split; [split|].
  - done.
  - intros sym. rewrite Hx. by vm_compute.
  - rewrite Hp. unfold total_live. rewrite (sum_over_ext _ (λ _, 0)); [by vm_compute|]. intros sym _. rewrite Hx. by vm_compute.
  - intros sym. unfold settled_position, settled_exposure, risk_of. rewrite Hx. by vm_compute.
Qed.
End calls.

(** C2 (invariant): the gateway's accounts balance.  Take any sequence of submissions,
    replace requests, fills, cancels, replacements, rejects, halts and resumes, accepted
    or refused, with any outcome of the logs and the breaker, in which no signed sum
    overflows and order ids are used as follows: a submission does not carry the id of a
    live order of its symbol, and a fill does not name a finished order whose id the
    order table still holds (the gateway does not enforce the second condition, and
    [terminal_order_revived] shows accounts that go wrong without it).  Then at the end a
    symbol's net position is the sum of its fills plus what its live orders still have
    open, its gross exposure likewise in notional, its order count is the number of its
    live orders, and the rate limiter holds one token per live order. *)
Theorem gateway_accounts_balance {T} `{OrderTable T} (g g' : Gateway T) fills :
  untraded g → session g fills g' →
  (∀ sym, let s := exec_state g' sym in
    net_position (es_risk s) = filled_position sym fills + open_position (es_orders s) ∧
    gross_exposure (es_risk s) = filled_notional sym fills + open_exposure (es_orders s) ∧
    rs_order_count (es_risk s) = live_count (es_orders s)) ∧
  gw_pending g' = total_live g'.
Proof.
  intros Hu Hs. destruct (untraded_books g Hu) as [Hb H0]. destruct (session_accounts g fills g' Hs Hb) as [Hb' Hp He].
  split; [|rewrite (bk_tokens _ _ Hb'); lia]. intros sym. cbv zeta. destruct (H0 sym) as [Hp0 He0].
  specialize (Hp sym). specialize (He sym). unfold settled_position, settled_exposure, risk_of in *.
  split_and!; [lia|lia|]. apply (so_count _ (bk_symbols _ _ Hb' sym)).
Qed.

(** ** A gateway over the open-addressing ledger, with both logs attached *)

Definition demo_env : Env :=
  mkEnv 1000 2000 [Wrote 112; WriteError] true [Wrote 64; WriteError] true (λ _, true).
Definition demo_gateway : Gateway ReconciliationLedger :=
  set_recovery_ledger (set_audit_log (fst (Gateway_init (Gateway_new ReconciliationLedger_init 10000) true))
    (Some new_log)) (Some wal_new).
Definition demo_order (sym id : Z) : OrderIntent := mkIntent sym 0 100 1000000 500 600 id 0.
Definition demo_packet : OutboundPacket := mkPacket 0 (replicate 64 0).

(** Checks of the two side conditions that evaluate. *)
Lemma fresh_id_check {T} (g : Gateway T) sym id :
  forallb (λ o, negb (is_live o) || negb (ao_order_id o =? id)) (es_orders (exec_state g sym)) = true → fresh_id g sym id.
Proof.
  intros Hf o Ho Hl. rewrite forallb_forall in Hf. specialize (Hf o (proj1 (list_elem_of_In _ _) Ho)). rewrite Hl in Hf.
  cbn [negb orb] in Hf. apply negb_true_iff, Z.eqb_neq in Hf. done.
Qed.

Lemma report_live_check {T} `{OrderTable T} (g : Gateway T) sym r :
  match target g sym r with Some o => is_live o = true | None => True end → report_live g sym r.
Proof. unfold target. intros Ht k o Ek Eo _. rewrite Ek in Ht. cbn [mbind option_bind] in Ht. by rewrite Eo in Ht. Qed.

(** Submit, partial fill, replace, then a terminal fill of part of the rest. *)
Lemma gateway_accounts_balance_witness :
  ∃ (g' : Gateway ReconciliationLedger) fills, session demo_gateway fills g' ∧
    net_position (risk_of g' 3) = filled_position 3 fills + open_position (es_orders (exec_state g' 3)) ∧
    fills = [(3, 40, 40000000); (3, 15, 15150000)] ∧ gw_pending g' = total_live g'.
Proof.
  assert (Hs : ∃ (g' : Gateway ReconciliationLedger) fills, session demo_gateway fills g' ∧
    fills = [(3, 40, 40000000); (3, 15, 15150000)]).
  { eexists _, _. split.
    - eapply (session_call _ (Submit toy_sha demo_env (demo_order 3 5) demo_packet) true);
        [split; [simpl; lia|apply fresh_id_check; vm_compute; reflexivity]|vm_compute; reflexivity|].
      eapply (session_call _ (Execution demo_env 3 (mkReport 5 40 false)) true);
        [split; [lia|apply report_live_check; vm_compute; reflexivity]|vm_compute; reflexivity|].
      eapply (session_call _ (Replaced demo_env 3 5 80 1010000) true); [simpl; lia|vm_compute; reflexivity|].
      eapply (session_call _ (Execution demo_env 3 (mkReport 5 15 true)) true);
        [split; [lia|apply report_live_check; vm_compute; reflexivity]|vm_compute; reflexivity|]. constructor.
    - vm_compute. reflexivity. }
  destruct Hs as (g' & fills & Hs & Hf). exists g', fills.
  destruct (gateway_accounts_balance demo_gateway g' fills ltac:(by vm_compute) Hs) as [Hacc Hp].
  split; [exact Hs|]. split; [exact (proj1 (Hacc 3))|]. split; [exact Hf|exact Hp].
Defined.

(** What a submission leaves behind: the order in full, or nothing. *)
Definition submission_outcome {T} `{OrderTableLaws T} i m (g : Gateway T) d p' (g' : Gateway T) : Prop :=
  if rd_pass d then
    admissible (limits_at (gw_limits g) (oi_symbol_idx i)) (risk_of g (oi_symbol_idx i)) i ∧
    pk_len p' = 48 ∧ opened i (earn g) g' ∧
    Z.abs (net_position (risk_of g' (oi_symbol_idx i))) ≤ max_abs_position (limits_at (gw_limits g) (oi_symbol_idx i)) ∧
    ot_rep (gw_orders g') (<[oi_client_order_id i := oi_qty i]> m)
  else pk_len p' = 0 ∧ same_books g g' ∧ ot_rep (gw_orders g') m.

(** C3 (error): submitting an order is all or nothing.  For an initialised gateway
    with balanced books and valid limits, an order table that keeps the laws of a map and
    has room, an id that no live order of the symbol carries, and system calls that
    return, [try_build] always ends.  An accepted order is within the risk limits,
    produces a 48-byte packet, occupies exactly one new slot, moves position and exposure
    by exactly its own quantity and notional (leaving the position within the limit),
    takes one token and is registered.  A rejected order, also when the audit log or the
    recovery ledger fails after the order was registered and reserved, produces an empty
    packet and leaves positions, exposures, order counts, live orders, tokens and the
    order table exactly as they were. *)
Theorem submission_all_or_nothing {T} `{OrderTableLaws T} sha256 env i p m (g : Gateway T) :
  submission env i p m g →
  ∃ d p' g', try_build sha256 env i p g = Some ((d, p'), g') ∧ submission_outcome i m g d p' g'.
Proof.
  intros Hsub. pose proof (runs_safe _ _ _ _ (try_build_runs sha256 env i p m g Hsub)
    (try_build_cases sha256 env i p g (sb_fresh _ _ _ _ _ Hsub) (sb_books _ _ _ _ _ Hsub))) as ([d p'] & g' & E & Ht & Hc).
  exists d, p', g'. split; [done|]. unfold submission_outcome. cbv beta iota in *. destruct (rd_pass d); [|by destruct Hc].
  destruct Hc as [[_ Hlt] Hgate (q & Hq & _ & Hlen) Hop].
  destruct (gate_spec _ _ _ (sb_limits_ok _ _ _ _ _ Hsub) (sb_risk _ _ _ _ _ Hsub) (sb_intent _ _ _ _ _ Hsub)) as [Hpass _ _ _ _ _].
  assert (Had := proj1 Hpass Hgate). destruct (sb_ready _ _ _ _ _ Hsub) as [_ Ho].
  rewrite Ho, enter_order_bytes in Hq by (done || apply (sb_buffer _ _ _ _ _ Hsub)). injection Hq as <-.
  split_and!; [done|by rewrite Hlen|done| |done].
  unfold risk_of. rewrite (os_position _ _ _ (op_symbol _ _ _ Hop)), signed_qty_delta_spec. apply (ad_position _ _ _ Had).
Qed.

Lemma demo_submission : submission demo_env (demo_order 3 5) demo_packet ∅ demo_gateway.
Proof.
  split.
  - done.
  - apply (untraded_books demo_gateway). by vm_compute.
  - simpl. lia.
  - split; [by vm_compute|by vm_compute..].
  - by vm_compute.
  - unfold intent_ok, is_i64, is_u64. simpl. lia.
  - apply fresh_id_check. vm_compute. reflexivity.
  - apply (init_ok ledger_bits).
  - vm_compute. reflexivity.
  - reflexivity.
  - split; intros file data; cbn [env_audit_writes env_wal_writes demo_env]; (destruct data as [|b data]; [by eexists|]);
      cbn [write_all Nat.eqb]; destruct (drop _ _); by eexists.
Qed.

Lemma submission_all_or_nothing_witness :
  ∃ d p' (g' : Gateway ReconciliationLedger),
    try_build toy_sha demo_env (demo_order 3 5) demo_packet demo_gateway = Some ((d, p'), g') ∧ rd_pass d = true ∧
    ot_rep (gw_orders g') {[5 := 100]}.
Proof.
  destruct (submission_all_or_nothing toy_sha demo_env (demo_order 3 5) demo_packet ∅ demo_gateway demo_submission)
    as (d & p' & g' & E & Hc). exists d, p', g'. split; [exact E|].
  assert (Hd : match try_build toy_sha demo_env (demo_order 3 5) demo_packet demo_gateway with
    | Some ((d, _), _) => rd_pass d | None => false end = true) by (vm_compute; reflexivity).
  rewrite E in Hd. unfold submission_outcome in Hc. rewrite Hd in Hc. split; [exact Hd|]. apply Hc.
Defined.

(** ** Where the gateway goes wrong *)

(** A late report can bring a finished order back to life.  A terminal
    partial fill leaves its slot in state 3 with the cancelled remainder as its
    quantity, and [apply_execution_report], unlike the cancel and reject reports,
    does not skip state 3: once the id is live again for another symbol, a report
    for the old symbol is accepted, the slot becomes live without being counted,
    and the fill is missing from the position. *)
Theorem terminal_order_revived :
  ∃ g1 g2 g3 g4 : Gateway ReconciliationLedger,
    do_gw (Submit toy_sha demo_env (demo_order 0 5) demo_packet) demo_gateway = Some (true, g1) ∧
    do_gw (Execution demo_env 0 (mkReport 5 40 true)) g1 = Some (true, g2) ∧
    do_gw (Submit toy_sha demo_env (demo_order 1 5) demo_packet) g2 = Some (true, g3) ∧
    do_gw (Execution demo_env 0 (mkReport 5 10 false)) g3 = Some (true, g4) ∧
    live_count (es_orders (exec_state g4 0)) = 1 ∧ rs_order_count (risk_of g4 0) = 0 ∧ net_position (risk_of g4 0) = 40.
Proof.
  eexists _, _, _, _. split; [vm_compute; reflexivity|]. split; [vm_compute; reflexivity|].
  split; [vm_compute; reflexivity|]. split; [vm_compute; reflexivity|]. by vm_compute.
Qed.

(** A rejected order comes back on recovery.  [apply_reject_report]
    clears the slot, the reservation and the registration but writes nothing to the
    recovery ledger, whose replay therefore still returns the order as live. *)
Theorem rejected_order_recovered :
  ∃ (g1 g2 : Gateway ReconciliationLedger) wal output,
    do_gw (Submit toy_sha demo_env (demo_order 3 5) demo_packet) demo_gateway = Some (true, g1) ∧
    do_gw (Rejected demo_env 3 5) g1 = Some (true, g2) ∧
    live_count (es_orders (exec_state g2 3)) = 0 ∧ ot_contains (gw_orders g2) 5 = false ∧
    gw_recovery_ledger g2 = Some wal ∧ replay wal true 8 = Some (output, true) ∧
    output = [mkRecovered 5 100 1000000 0 600].
Proof.
  eexists _, _, _, _. split; [vm_compute; reflexivity|]. split; [vm_compute; reflexivity|].
  split; [vm_compute; reflexivity|]. split; [vm_compute; reflexivity|]. split; [vm_compute; reflexivity|].
  split; vm_compute; reflexivity.
Qed.
