(* ===== verification/Stops.v ===== *)
(** * Stops: stop and pegged orders (src/luv_execution.hpp, StopOrderTable)

    A table of conditional orders that turns them into submissions when the best
    prices of their symbol allow it. *)

From S2P Require Import Prelude Arena Reconciliation AuditLog Recovery OrderTable Risk Gateway GatewayBooks GatewayCorrect GatewaySubmit GatewayTheorems.
From Stdlib Require Import ZArith Lia.
From stdpp Require Import base tactics gmap numbers option list.
Open Scope Z_scope.

Inductive TriggerType := kStopLoss | kStopLimit | kPeggedBid | kPeggedAsk | kPeggedMid.

Record ConditionalOrder := mkTrigger {
  tg_trigger_id : Z;
  tg_symbol_idx : Z;
  tg_side : Z;
  tg_type : TriggerType;
  tg_stop_price : Z;
  tg_limit_price : Z;
  tg_peg_offset : Z;
  tg_qty : Z;
  tg_client_order_id : Z;
  tg_time_in_force : Z;
  tg_active : bool
}.

Definition ConditionalOrder_init : ConditionalOrder := mkTrigger 0 0 0 kStopLoss 0 0 0 0 0 0 false.

Record StopOrderTable := mkStops { st_triggers : list ConditionalOrder; st_active_count : Z }.

Definition StopOrderTable_new (max_triggers : nat) : StopOrderTable :=
  mkStops (replicate max_triggers ConditionalOrder_init) 0.

Definition set_active (t : ConditionalOrder) (id : Z) (active : bool) : ConditionalOrder :=
  mkTrigger id (tg_symbol_idx t) (tg_side t) (tg_type t) (tg_stop_price t) (tg_limit_price t) (tg_peg_offset t) (tg_qty t)
    (tg_client_order_id t) (tg_time_in_force t) active.

Fixpoint find_trigger (p : ConditionalOrder → bool) (ts : list ConditionalOrder) : option nat :=
  match ts with [] => None | t :: ts' => if p t then Some O else S <$> find_trigger p ts' end.

Definition register_trigger (s : StopOrderTable) (order : ConditionalOrder) : StopOrderTable * bool :=
  if (tg_client_order_id order =? 0) || (tg_qty order <=? 0) || (kSymbols <=? tg_symbol_idx order) then (s, false) else
  match find_trigger (λ t, negb (tg_active t)) (st_triggers s) with
  | None => (s, false)
  | Some k => (mkStops (<[k := set_active order (u32 (Z.of_nat k + 1)) true]> (st_triggers s)) (u64 (st_active_count s + 1)), true)
  end.

Definition cancel_trigger (s : StopOrderTable) (client_order_id : Z) : StopOrderTable * bool :=
  if client_order_id =? 0 then (s, false) else
  match find_trigger (λ t, tg_active t && (tg_client_order_id t =? client_order_id)) (st_triggers s) with
  | None => (s, false)
  | Some k =>
      match st_triggers s !! k with
      | None => (s, false)
      | Some t => (mkStops (<[k := set_active t (tg_trigger_id t) false]> (st_triggers s)) (drop_one (st_active_count s)), true)
      end
  end.

Definition get_trigger (s : StopOrderTable) (index : nat) : option ConditionalOrder :=
  t ← st_triggers s !! index; if tg_active t then Some t else None.

(** The switch of [evaluate_bbo]: [None] on a signed overflow, [Some None] when the
    order is not triggered, otherwise its price. *)
Definition trigger_price (t : ConditionalOrder) (best_bid best_ask : Z) : option (option Z) :=
  let buy_stop := (tg_side t =? kBuy) && (0 <? best_ask) && (tg_stop_price t <=? best_ask) in
  let sell_stop := (tg_side t =? kSell) && (0 <? best_bid) && (best_bid <=? tg_stop_price t) in
  match tg_type t with
  | kStopLoss => Some (if buy_stop then Some best_ask else if sell_stop then Some best_bid else None)
  | kStopLimit =>
      let limit other := if 0 <? tg_limit_price t then tg_limit_price t else other in
      Some (if buy_stop then Some (limit best_ask) else if sell_stop then Some (limit best_bid) else None)
  | kPeggedBid => if 0 <? best_bid then Some <$> chk64 (best_bid + tg_peg_offset t) else Some None
  | kPeggedAsk => if 0 <? best_ask then Some <$> chk64 (best_ask + tg_peg_offset t) else Some None
  | kPeggedMid =>
      if (0 <? best_bid) && (0 <? best_ask) then
        sum ← chk64 (best_bid + best_ask);
        Some <$> chk64 (Z.quot sum 2 + tg_peg_offset t)
      else Some None
  end.

Definition intent_of (t : ConditionalOrder) (price now : Z) : OrderIntent :=
  mkIntent (tg_symbol_idx t) (tg_side t) (tg_qty t) price now now (tg_client_order_id t) (tg_time_in_force t).

Section stops.
Context {T : Type} `{OrderTable T} (sha256 : list Z → list Z).

(** One pass of the loop for an active trigger of the symbol. *)
Definition fire (env : Env) (t : ConditionalOrder) (best_bid best_ask now : Z) (packet : OutboundPacket)
    : ST (Gateway T) (bool * OutboundPacket) :=
  price ← lift (trigger_price t best_bid best_ask);
  match price with
  | Some p =>
      if 0 <? p then dp ← try_build sha256 env (intent_of t p now) packet; mret (rd_pass (fst dp), snd dp)
      else mret (false, packet)
  | None => mret (false, packet)
  end.

(** The loop over the slots from [k]; the environment of each submission is its own. *)
Fixpoint evaluate_from (n k : nat) (envs : nat → Env) (s : StopOrderTable) (symbol best_bid best_ask now : Z)
    (packets : list OutboundPacket) (routed : nat) : ST (Gateway T) (StopOrderTable * list OutboundPacket * nat) :=
  match n with
  | O => mret (s, packets, routed)
  | S n' =>
      match st_triggers s !! k, packets !! routed with
      | Some t, Some packet =>
          if negb (tg_active t) || negb (tg_symbol_idx t =? symbol) then
            evaluate_from n' (S k) envs s symbol best_bid best_ask now packets routed
          else
            '(fired, packet) ← fire (envs k) t best_bid best_ask now packet;
            let packets := <[routed := packet]> packets in
            if fired : bool then
              let s := mkStops (<[k := set_active t (tg_trigger_id t) false]> (st_triggers s)) (drop_one (st_active_count s)) in
              evaluate_from n' (S k) envs s symbol best_bid best_ask now packets (S routed)
            else evaluate_from n' (S k) envs s symbol best_bid best_ask now packets routed
      | _, _ => mret (s, packets, routed)
      end
  end.

(** [out_packets] is the array of [max_packets] entries. *)
Definition evaluate_bbo (envs : nat → Env) (s : StopOrderTable) (symbol best_bid best_ask now : Z)
    (out_packets : list OutboundPacket) : ST (Gateway T) (StopOrderTable * list OutboundPacket * nat) :=
  if (kSymbols <=? symbol) || (st_active_count s =? 0) || (length out_packets =? 0)%nat then mret (s, out_packets, O)
  else evaluate_from (length (st_triggers s)) 0 envs s symbol best_bid best_ask now out_packets 0.
End stops.

(** ** The table's count *)

Definition active_triggers (ts : list ConditionalOrder) : Z :=
  foldr (λ t a, Z.b2z (tg_active t) + a) 0 ts.

Definition stops_ok (s : StopOrderTable) : Prop :=
  st_active_count s = active_triggers (st_triggers s) ∧ Z.of_nat (length (st_triggers s)) < 2 ^ 32.

Lemma active_insert ts k t t' : ts !! k = Some t →
  active_triggers (<[k := t']> ts) = active_triggers ts - Z.b2z (tg_active t) + Z.b2z (tg_active t').
Proof. revert k. induction ts as [|a ts IH]; intros [|k] Hk; simplify_eq/=; [lia|]. rewrite (IH k Hk). lia. Qed.

Lemma active_bound ts : 0 ≤ active_triggers ts ≤ Z.of_nat (length ts).
Proof. induction ts as [|t ts IH]; [done|]. cbn [active_triggers foldr length]. fold (active_triggers ts). destruct (tg_active t); simpl; lia. Qed.

Lemma active_pos ts k t : ts !! k = Some t → tg_active t = true → 0 < active_triggers ts.
Proof.
  intros Hk Ht. pose proof (active_insert ts k t ConditionalOrder_init Hk) as E. rewrite Ht in E. cbn in E.
  pose proof (active_bound (<[k:=ConditionalOrder_init]> ts)). lia.
Qed.

Lemma find_trigger_Some p ts k : find_trigger p ts = Some k → ∃ t, ts !! k = Some t ∧ p t = true.
Proof.
  revert k. induction ts as [|a ts IH]; intros k; cbn [find_trigger]; [done|]. destruct (p a) eqn:Ea; [intros [= <-]; eauto|].
  destruct (find_trigger p ts); [|done]. intros [= <-]. by apply IH.
Qed.

(** Retiring one active trigger. *)
Lemma retire_ok s k t id : stops_ok s → st_triggers s !! k = Some t → tg_active t = true →
  let s' := mkStops (<[k := set_active t id false]> (st_triggers s)) (drop_one (st_active_count s)) in
  stops_ok s' ∧ st_active_count s' = st_active_count s - 1.
Proof.
  intros [Hc Hl] Hk Ha. cbv zeta. pose proof (active_pos _ _ _ Hk Ha). cbn [st_active_count st_triggers].
  rewrite drop_one_pos by lia. split; [|lia]. split; cbn [st_active_count st_triggers]; [|by rewrite length_insert].
  rewrite (active_insert _ _ _ _ Hk), Ha. cbn. lia.
Qed.

Lemma register_trigger_ok s o : stops_ok s → stops_ok (fst (register_trigger s o)).
Proof.
  intros [Hc Hl]. unfold register_trigger. destruct (_ || _); [done|].
  destruct (find_trigger _ _) as [k|] eqn:Ef; [|done]. destruct (find_trigger_Some _ _ _ Ef) as (t & Hk & Ht).
  apply negb_true_iff in Ht. split; cbn [fst st_active_count st_triggers]; [|by rewrite length_insert].
  pose proof (active_insert (st_triggers s) k t (set_active o (u32 (Z.of_nat k + 1)) true) Hk) as E. rewrite Ht in E. cbn in E.
  pose proof (active_bound (st_triggers s)). rewrite Hc, E. unfold u64. rewrite Z.mod_small; lia.
Qed.

Lemma cancel_trigger_ok s id : stops_ok s → stops_ok (fst (cancel_trigger s id)).
Proof.
  intros Hs. unfold cancel_trigger. destruct (id =? 0); [done|]. destruct (find_trigger _ _) as [k|] eqn:Ef; [|done].
  destruct (find_trigger_Some _ _ _ Ef) as (t & Hk & Ht). rewrite Hk. apply andb_true_iff in Ht as [Ht _].
  by apply (retire_ok s k t).
Qed.

(** ** One evaluation *)

Section evaluation.
Context {T : Type} `{OrderTable T} (sha256 : list Z → list Z).

(** How a slot may change: not at all, or an active trigger of the symbol fired at
    a positive price. *)
Definition slot_step (symbol bid ask : Z) (t t' : ConditionalOrder) : Prop :=
  t' = t ∨
  (tg_active t = true ∧ tg_symbol_idx t = symbol ∧ (∃ p, trigger_price t bid ask = Some (Some p) ∧ 0 < p) ∧
   t' = set_active t (tg_trigger_id t) false).

Lemma fire_cases env t bid ask now p (g : Gateway T) :
  safe (fire sha256 env t bid ask now p) g (λ '(fired, _) _,
    fired = true → ∃ price, trigger_price t bid ask = Some (Some price) ∧ 0 < price).
Proof using Type.
  unfold fire. apply safe_bind, safe_lift. intros [price|] E; [|by apply safe_ret].
  destruct (Z.ltb_spec 0 price); [|by apply safe_ret]. apply safe_bind. unfold safe at 1.
  destruct (try_build _ _ _ _ _) as [[dp g']|]; [|done]. apply safe_ret. intros _. by exists price.
Qed.

Lemma evaluate_from_ok n k envs s0 s symbol bid ask now packets routed (g : Gateway T) :
  stops_ok s → (routed ≤ length packets)%nat → st_active_count s + Z.of_nat routed = st_active_count s0 →
  length (st_triggers s) = length (st_triggers s0) →
  (∀ j t t', st_triggers s0 !! j = Some t → st_triggers s !! j = Some t' →
     if decide (j < k)%nat then slot_step symbol bid ask t t' else t' = t) →
  safe (evaluate_from sha256 n k envs s symbol bid ask now packets routed) g (λ '(s', packets', routed') _,
    stops_ok s' ∧ (routed' ≤ length packets)%nat ∧ st_active_count s' + Z.of_nat routed' = st_active_count s0 ∧
    length packets' = length packets ∧
    Forall2 (slot_step symbol bid ask) (st_triggers s0) (st_triggers s')).
Proof using Type.
  revert k s packets routed g. induction n as [|n IH]; intros k s packets routed g Hs Hr Hc Hlen Hslots;
    (assert (Hall : Forall2 (slot_step symbol bid ask) (st_triggers s0) (st_triggers s));
     [apply Forall2_same_length_lookup_2; [done|]; intros j t t' Ht Ht'; specialize (Hslots j t t' Ht Ht');
      case_decide; [done|by left]|]); cbn [evaluate_from]; [by apply safe_ret|].
  destruct (st_triggers s !! k) as [t|] eqn:Ek; [|by apply safe_ret].
  destruct (packets !! routed) as [packet|] eqn:Ep; [|by apply safe_ret].
  assert (Hnext : ∀ j t0 t', st_triggers s0 !! j = Some t0 → st_triggers s !! j = Some t' →
    if decide (j < S k)%nat then slot_step symbol bid ask t0 t' else t' = t0).
  { intros j t0 t' H1 H2. specialize (Hslots j t0 t' H1 H2). repeat case_decide; first [done | lia | by left]. }
  destruct (negb (tg_active t) || negb (tg_symbol_idx t =? symbol)) eqn:Eskip; [by apply IH|].
  apply orb_false_iff in Eskip as [Ea Esym]. apply negb_false_iff in Ea, Esym. apply Z.eqb_eq in Esym.
  apply safe_bind. eapply safe_mono; [apply fire_cases|]. intros [fired packet'] g' Hfire. cbv beta iota in Hfire.
  destruct fired; [|eapply safe_mono; [apply IH; rewrite ?length_insert; done|]; intros [[s' ps'] r'] g'' (A & B & C & D & E);
    rewrite ?length_insert in *; by split_and!].
  destruct (retire_ok s k t (tg_trigger_id t) Hs Ek Ea) as [Hs' Hc'].
  pose proof (lookup_lt_Some _ _ _ Ep) as Hlt.
  eapply safe_mono; [apply IH; rewrite ?length_insert; try done|].
  - rewrite Hc'. lia.
  - cbn [st_triggers]. by rewrite length_insert.
  - intros j t0 t' H1 H2. cbn [st_triggers] in H2. destruct (decide (j = k)) as [->|Hne].
    + rewrite list_lookup_insert_eq in H2 by (by eapply lookup_lt_Some). injection H2 as <-. rewrite decide_True by lia.
      specialize (Hslots k t0 t H1 Ek). rewrite decide_False in Hslots by lia. subst t0. right. split_and!; try done. by apply Hfire.
    + rewrite list_lookup_insert_ne in H2 by done. by apply Hnext.
  - intros [[s' ps'] r'] g'' (A & B & C & D & E). rewrite ?length_insert in *. by split_and!.
Qed.
End evaluation.

(** Conditional orders fire at most once, and only when the market
    says so.  Evaluating a table against a symbol's best prices changes only active
    triggers of that symbol whose condition holds at a positive price and whose
    submission the gateway accepted: each becomes inactive, the packets routed are
    as many as the triggers retired and fit the output array, and the active count
    stays exact. *)
Theorem stop_orders_fire_once {T} `{OrderTable T} sha256 envs s symbol bid ask now packets (g : Gateway T) s' packets' routed g' :
  stops_ok s → evaluate_bbo sha256 envs s symbol bid ask now packets g = Some ((s', packets', routed), g') →
  stops_ok s' ∧ (routed ≤ length packets)%nat ∧ st_active_count s - st_active_count s' = Z.of_nat routed ∧
  length packets' = length packets ∧ Forall2 (slot_step symbol bid ask) (st_triggers s) (st_triggers s').
Proof.
  intros Hs E. assert (Hrefl : Forall2 (slot_step symbol bid ask) (st_triggers s) (st_triggers s)).
  { apply Forall2_same_length_lookup_2; [done|]. intros j t t' H1 H2. left. congruence. }
  unfold evaluate_bbo in E. destruct (_ || _).
  { injection E as <- <- <- <-. split_and!; [done|lia|lia|done|done]. }
  pose proof (evaluate_from_ok sha256 (length (st_triggers s)) 0 envs s s symbol bid ask now packets 0 g Hs) as Hev.
  unfold safe in Hev. rewrite E in Hev. destruct Hev as (A & B & C & D & F); [lia|lia|done| |].
  - intros j t t' H1 H2. rewrite decide_False by lia. congruence.
  - split_and!; [done|done|lia|done|done].
Qed.

Definition demo_stops : StopOrderTable :=
  fst (register_trigger (StopOrderTable_new 4) (mkTrigger 0 3 kBuy kStopLoss 990000 0 0 100 5 0 false)).

Lemma stop_orders_fire_once_witness :
  ∃ s' packets' (g' : Gateway ReconciliationLedger),
    evaluate_bbo toy_sha (λ _, demo_env) demo_stops 3 980000 1000000 600 [demo_packet; demo_packet] demo_gateway =
      Some ((s', packets', 1%nat), g') ∧ st_active_count demo_stops - st_active_count s' = 1.
Proof.
  assert (E : ∃ s' packets' (g' : Gateway ReconciliationLedger),
    evaluate_bbo toy_sha (λ _, demo_env) demo_stops 3 980000 1000000 600 [demo_packet; demo_packet] demo_gateway =
      Some ((s', packets', 1%nat), g')) by (eexists _, _, _; vm_compute; reflexivity).
  destruct E as (s' & packets' & g' & E). exists s', packets', g'. split; [exact E|].
  apply (stop_orders_fire_once _ _ demo_stops _ _ _ _ _ _ _ _ _ _ ltac:(by vm_compute) E).
Defined.
