(* ===== verification/ArenaLayout.v ===== *)
(** * ArenaLayout: carving the arena (src/luv_arena.hpp, slab_sizes, Arena, ShardedTickRing)

    Addresses are integers; the outcomes of [mmap] and [mlock] and the build flag
    [LUV_REQUIRE_MLOCK] are inputs.  The layout is what every other component
    relies on when it treats its slab as an array of its own. *)

From S2P Require Import Prelude Arena.
From Stdlib Require Import ZArith Lia Sorted.
From stdpp Require Import base tactics gmap numbers option list.
Open Scope Z_scope.

(** ** Sizes the static assertions fix *)

Definition sizeof_PriceLevel : Z := 576.
Definition sizeof_TickMsg : Z := 64.
Definition sizeof_FeatureRow : Z := 5120.
Definition sizeof_SignalOutput : Z := 16.
Definition sizeof_SymbolExecState : Z := 4096 + 128 + 128.
Definition sizeof_TelemSnapshot : Z := 128.

(** ** namespace slab_sizes *)

Definition kLOB : Z := kSymbols * 2 * kLevelsPerSide * sizeof_PriceLevel.
Definition kTickRing : Z := kTickCapacity * sizeof_TickMsg.
Definition kFeatures : Z := kSymbols * sizeof_FeatureRow.
Definition kSignals : Z := kSignalSlots * sizeof_SignalOutput.
Definition kExecState : Z := kSymbols * sizeof_SymbolExecState.
Definition kTelemetry : Z := kTelemCapacity * sizeof_TelemSnapshot.
Definition kWebSocketControlPlane : Z := kWebSocketConnections * kWebSocketConnectionSlotBytes.
Definition kInfraRaw : Z :=
  kLOB + kTickRing + kFeatures + kSignals + kExecState + kTelemetry + kWebSocketControlPlane.
Definition kInfraTotal : Z := align_up kInfraRaw kHugePage.
Definition kAIRegion : Z := kAIBudgetBytes.
Definition kGrandTotal : Z := kInfraTotal + kAIRegion.

(** ** class Arena *)

Inductive CapacityMode := kFull | kInfrastructureOnly.

Record Span := mkSpan { sp_ptr : Z; sp_count : Z }.
Definition no_span : Span := mkSpan 0 0.

(** The two rings appear as their [slots] pointers; 0 is a null pointer. *)
Record ArenaState := mkArena {
  ar_lob_flat : Span;
  ar_tick_slots : Span;
  ar_feature_rows : Span;
  ar_signal_slots : Span;
  ar_exec_states : Span;
  ar_telem_slots : Span;
  ar_websocket : Span;
  ar_tick_ring_slots : Z;
  ar_telem_ring_slots : Z;
  ar_ai_region : Z;
  ar_ai_region_size : Z;
  ar_base : Z;
  ar_total_size : Z;
  ar_capacity_mode : CapacityMode;
  ar_initialised : bool;
  ar_mlocked : bool
}.

Definition Arena_new : ArenaState :=
  mkArena no_span no_span no_span no_span no_span no_span no_span 0 0 0 0 0 0 kFull false false.

Definition set_mode (a : ArenaState) (m : CapacityMode) (mlocked : bool) : ArenaState :=
  mkArena (ar_lob_flat a) (ar_tick_slots a) (ar_feature_rows a) (ar_signal_slots a) (ar_exec_states a) (ar_telem_slots a)
    (ar_websocket a) (ar_tick_ring_slots a) (ar_telem_ring_slots a) (ar_ai_region a) (ar_ai_region_size a) (ar_base a)
    (ar_total_size a) m (ar_initialised a) mlocked.

(** The spans and ring pointers wired onto the mapping at [base]. *)
Definition wire (base total : Z) (mode : CapacityMode) (mlocked : bool) : ArenaState :=
  let cursor := base in
  let lob := mkSpan cursor (kLOB / sizeof_PriceLevel) in
  let cursor := cursor + kLOB in
  let tick := mkSpan cursor kTickCapacity in
  let cursor := cursor + kTickRing in
  let feat := mkSpan cursor kSymbols in
  let cursor := cursor + kFeatures in
  let sig := mkSpan cursor kSignalSlots in
  let cursor := cursor + kSignals in
  let exec := mkSpan cursor kSymbols in
  let cursor := cursor + kExecState in
  let telem := mkSpan cursor kTelemCapacity in
  let cursor := cursor + kTelemetry in
  let ws := mkSpan cursor kWebSocketControlPlane in
  let cursor := base + kInfraTotal in
  mkArena lob tick feat sig exec telem ws (sp_ptr tick) (sp_ptr telem)
    (match mode with kFull => cursor | kInfrastructureOnly => 0 end)
    (match mode with kFull => kAIRegion | kInfrastructureOnly => 0 end)
    base total mode true mlocked.

(** [init]: [grand] and [infra] are what the two [mmap] calls return. *)
Definition Arena_init (a : ArenaState) (require_mlock : bool) (grand infra : option Z) (mlock_ok : bool)
    : ArenaState * bool :=
  if negb (ar_base a =? 0) then (a, false) else
  if negb (can_align_up kInfraRaw kHugePage) || (kGrandTotal =? 0) then (a, false) else
  let '(mem, total, mode) :=
    match grand with
    | Some m => (Some m, kGrandTotal, kFull)
    | None => (infra, kInfraTotal, kInfrastructureOnly)
    end in
  match mem with
  | None => (set_mode a kFull (ar_mlocked a), false)
  | Some base =>
      if negb mlock_ok && require_mlock then (set_mode a mode (ar_mlocked a), false)
      else (wire base total mode mlock_ok, true)
  end.

Definition Arena_teardown (a : ArenaState) : ArenaState :=
  if ar_base a =? 0 then a else
  mkArena (ar_lob_flat a) (ar_tick_slots a) (ar_feature_rows a) (ar_signal_slots a) (ar_exec_states a) (ar_telem_slots a)
    no_span (ar_tick_ring_slots a) (ar_telem_ring_slots a) 0 0 0 (ar_total_size a) kFull false (ar_mlocked a).

(** ** class ShardedTickRing *)

Record Shard := mkShard { sh_slots : Z; sh_head : Z; sh_tail : Z }.

Record ShardedTickRing := mkSharded { sr_rings : list Shard; sr_initialised : bool }.

Section sharded.
Context (num_shards shard_capacity : Z).

Definition ShardedTickRing_init (r : ShardedTickRing) (storage_base : Z) : ShardedTickRing * bool :=
  if storage_base =? 0 then (r, false)
  else (mkSharded ((λ i, mkShard (storage_base + Z.of_nat i * shard_capacity * sizeof_TickMsg) 0 0) <$>
                     seq 0 (Z.to_nat num_shards)) true, true).

Definition shard_index (symbol_idx : Z) : Z := Z.land symbol_idx (num_shards - 1).
Definition shard_for_symbol (r : ShardedTickRing) (symbol_idx : Z) : option Shard := zget (sr_rings r) (shard_index symbol_idx).
Definition total_capacity : Z := num_shards * shard_capacity.
End sharded.

(** ** The layout *)

(** The byte ranges of the slabs, in address order: start and length. *)
Definition slabs (a : ArenaState) : list (Z * Z) :=
  let bytes s size := (sp_ptr s, sp_count s * size) in
  [bytes (ar_lob_flat a) sizeof_PriceLevel; bytes (ar_tick_slots a) sizeof_TickMsg;
   bytes (ar_feature_rows a) sizeof_FeatureRow; bytes (ar_signal_slots a) sizeof_SignalOutput;
   bytes (ar_exec_states a) sizeof_SymbolExecState; bytes (ar_telem_slots a) sizeof_TelemSnapshot;
   bytes (ar_websocket a) 1; (ar_base a + kInfraTotal, ar_ai_region_size a)].

Definition before (s t : Z * Z) : Prop := s.1 + s.2 <= t.1.

(** What [mmap] documents of a successful mapping: page-aligned, not null. *)
Definition mapping_ok (m : option Z) : Prop := ∀ b, m = Some b → 0 < b ∧ b mod 4096 = 0.

Lemma wire_slabs base total mode mlocked :
  slabs (wire base total mode mlocked) =
    [(base, 603979776); (base + 603979776, 268435456); (base + 872415232, 2621440); (base + 875036672, 8192);
     (base + 875044864, 2228224); (base + 877273088, 8388608); (base + 885661696, 10240000);
     (base + 897581056, match mode with kFull => 13958643712 | kInfrastructureOnly => 0 end)].
Proof.
  unfold slabs, wire. cbn [ar_lob_flat ar_tick_slots ar_feature_rows ar_signal_slots ar_exec_states ar_telem_slots
    ar_websocket ar_base ar_ai_region_size sp_ptr sp_count].
  change kLOB with 603979776. change kTickRing with 268435456. change kFeatures with 2621440.
  change kSignals with 8192. change kExecState with 2228224. change kTelemetry with 8388608.
  change kWebSocketControlPlane with 10240000. change kInfraTotal with 897581056. change kAIRegion with 13958643712.
  rewrite <-!Z.add_assoc. reflexivity.
Qed.

Lemma Arena_init_wires rm grand infra ok a :
  mapping_ok grand → mapping_ok infra → Arena_init Arena_new rm grand infra ok = (a, true) →
  ∃ base mode, 0 < base ∧ base mod 4096 = 0 ∧
    a = wire base (match mode with kFull => kGrandTotal | kInfrastructureOnly => kInfraTotal end) mode ok.
Proof.
  intros Hg Hi. unfold Arena_init. simpl (negb (ar_base _ =? 0)). cbv iota.
  replace (_ || (kGrandTotal =? 0)) with false by reflexivity.
  destruct grand as [b|]; [|destruct infra as [b|]]; try discriminate.
  all: case_match; intros [= <-].
  - exists b, kFull. by destruct (Hg b eq_refl).
  - exists b, kInfrastructureOnly. by destruct (Hi b eq_refl).
Qed.

Lemma before_chain l : StronglySorted before l → ∀ i j s t,
  (i < j)%nat → l !! i = Some s → l !! j = Some t → before s t.
Proof.
  induction 1 as [|x l Hs IH Hx]; intros i j s t Hij Hi Hj; [done|].
  destruct j as [|j]; [lia|]. destruct i as [|i]; simplify_eq/=.
  - rewrite Forall_forall in Hx. apply Hx. by eapply list_elem_of_lookup_2.
  - apply (IH i j); auto; lia.
Qed.

Lemma wire_sorted base total mode mlocked : StronglySorted before (slabs (wire base total mode mlocked)).
Proof.
  rewrite wire_slabs. unfold before.
  repeat (constructor; [|repeat constructor; simpl; lia]). constructor.
Qed.

Lemma wire_inside base mode mlocked :
  base mod 4096 = 0 →
  Forall (λ s, s.1 mod 64 = 0 ∧ base <= s.1 ∧
            s.1 + s.2 <= base + (match mode with kFull => kGrandTotal | kInfrastructureOnly => kInfraTotal end))
    (slabs (wire base (match mode with kFull => kGrandTotal | kInfrastructureOnly => kInfraTotal end) mode mlocked)).
Proof.
  intros Hb. rewrite wire_slabs.
  assert (Hm : ∀ k, k mod 64 = 0 → (base + k) mod 64 = 0).
  { intros k Hk. pose proof (Z.div_mod base 4096). pose proof (Z.div_mod k 64).
    replace (base + k) with ((64 * (base / 4096) + k / 64) * 64) by lia. apply Z.mod_mul. lia. }
  change kGrandTotal with 14856224768. change kInfraTotal with 897581056.
  assert (base mod 64 = 0) by (rewrite <-(Z.add_0_r base); by apply Hm).
  destruct mode; repeat (constructor; [split_and!; simpl; (by auto) || lia|]); constructor.
Qed.

(** A successful [Arena::init] cuts the mapping into slabs that come
    one after the other without overlap, start on cache lines and stay inside the
    mapping; the eighth, for the model, is empty when only the infrastructure could
    be mapped.  Initialising again is refused and changes nothing. *)
Theorem arena_slabs_disjoint rm grand infra ok a :
  mapping_ok grand → mapping_ok infra → Arena_init Arena_new rm grand infra ok = (a, true) →
  (∀ i j s t, (i < j)%nat → slabs a !! i = Some s → slabs a !! j = Some t → before s t) ∧
  (∀ i s, slabs a !! i = Some s → s.1 mod 64 = 0 ∧ ar_base a <= s.1 ∧ s.1 + s.2 <= ar_base a + ar_total_size a) ∧
  sp_ptr (ar_tick_slots a) = ar_tick_ring_slots a ∧ sp_ptr (ar_telem_slots a) = ar_telem_ring_slots a ∧
  (ar_ai_region a = 0 ↔ ar_capacity_mode a = kInfrastructureOnly) ∧
  (∀ rm' grand' infra' ok', Arena_init a rm' grand' infra' ok' = (a, false)).
Proof.
  intros Hg Hi H. destruct (Arena_init_wires _ _ _ _ _ Hg Hi H) as (b & mode & Hb0 & Hb & ->).
  split_and!; try done.
  - eapply before_chain, wire_sorted.
  - intros i s Hs. eapply Forall_lookup_1 in Hs; [|by apply wire_inside]. exact Hs.
  - destruct mode; unfold wire; simpl ar_ai_region; simpl ar_capacity_mode; [|done].
    change kInfraTotal with 897581056. split; [lia|done].
  - intros. unfold Arena_init. simpl ar_base. by destruct (Z.eqb_spec b 0); [lia|].
Qed.

Lemma arena_slabs_disjoint_witness :
  ∃ a, Arena_init Arena_new true None (Some 4096) true = (a, true) ∧ ar_capacity_mode a = kInfrastructureOnly ∧
    ∀ rm' grand' infra' ok', Arena_init a rm' grand' infra' ok' = (a, false).
Proof.
  eexists. split; [reflexivity|]. split; [reflexivity|].
  apply (arena_slabs_disjoint true None (Some 4096) true); [|intros b [= <-]; by split|reflexivity]. intros b [=].
Defined.

(** ** Sharding *)

Section sharded_layout.
Context (num_shards shard_capacity storage : Z).
Context (Hn : ∃ k, 0 <= k ∧ num_shards = 2 ^ k) (Hc : 0 <= shard_capacity) (Hs : storage ≠ 0).

Lemma shard_index_mod sym : shard_index num_shards sym = sym mod num_shards.
Proof using Hn.
  destruct Hn as (k & Hk & ->). unfold shard_index. rewrite <-Z.land_ones by done. f_equal. by rewrite Z.ones_equiv.
Qed.

Lemma shard_for_symbol_slots r r' sym :
  ShardedTickRing_init num_shards shard_capacity r storage = (r', true) → 0 <= sym →
  shard_for_symbol num_shards r' sym =
    Some (mkShard (storage + (sym mod num_shards) * shard_capacity * sizeof_TickMsg) 0 0).
Proof using Hn Hs.
  intros H Hsym. unfold ShardedTickRing_init in H. rewrite (proj2 (Z.eqb_neq _ _) Hs) in H. injection H as <-.
  assert (0 < num_shards) by (destruct Hn as (k & Hk & ->); by apply Z.pow_pos_nonneg).
  unfold shard_for_symbol. rewrite shard_index_mod. pose proof (Z.mod_pos_bound sym num_shards).
  unfold zget. simpl sr_rings. rewrite (proj2 (Z.leb_le _ _)) by lia.
  rewrite list_lookup_fmap, lookup_seq_lt by lia. simpl. rewrite Z2Nat.id by lia. done.
Qed.

(** Symbols share a ring or have rings whose slots do not overlap; every ring stays
    inside the [total_capacity] messages of the storage. *)
Lemma shards_disjoint r r' sym sym' :
  ShardedTickRing_init num_shards shard_capacity r storage = (r', true) → 0 <= sym → 0 <= sym' →
  ∃ s s', shard_for_symbol num_shards r' sym = Some s ∧ shard_for_symbol num_shards r' sym' = Some s' ∧
    (s = s' ∨ before (sh_slots s, shard_capacity * sizeof_TickMsg) (sh_slots s', shard_capacity * sizeof_TickMsg) ∨
      before (sh_slots s', shard_capacity * sizeof_TickMsg) (sh_slots s, shard_capacity * sizeof_TickMsg)) ∧
    storage <= sh_slots s ∧
    sh_slots s + shard_capacity * sizeof_TickMsg <= storage + total_capacity num_shards shard_capacity * sizeof_TickMsg.
Proof using Hn Hc Hs.
  intros H H1 H2. do 2 eexists. split; [by eapply shard_for_symbol_slots|]. split; [by eapply shard_for_symbol_slots|].
  assert (0 < num_shards) by (destruct Hn as (k & Hk & ->); by apply Z.pow_pos_nonneg).
  pose proof (Z.mod_pos_bound sym num_shards). pose proof (Z.mod_pos_bound sym' num_shards).
  unfold before, total_capacity. simpl sh_slots. simpl fst. simpl snd.
  set (w := shard_capacity * sizeof_TickMsg) in *. rewrite <-!Z.mul_assoc. fold w.
  assert (0 <= w) by (unfold w, sizeof_TickMsg; lia).
  split_and!; [|nia|nia].
  destruct (Z.lt_trichotomy (sym mod num_shards) (sym' mod num_shards)) as [Hl|[->|Hl]]; [|by left|].
  - right. left. nia.
  - right. right. nia.
Qed.
End sharded_layout.
