(* ===== verification/Ouch.v ===== *)
(** * Ouch: venue messages and the order-flow adapter (src/luv_ouch.hpp)

    A message is a 2-byte big-endian length and a body; the adapter turns each one
    into the gateway call it stands for.  Reads outside the buffer are undefined
    behaviour ([None]). *)

From S2P Require Import Prelude Arena Itch FeedGen Mold Reconciliation OrderTable Risk Gateway GatewayTheorems.
From Stdlib Require Import ZArith Lia.
From stdpp Require Import base tactics gmap numbers option list.
Open Scope Z_scope.

Inductive EventType := kAccepted | kRejected | kExecuted | kCanceled | kReplaced.

#[export] Instance EventType_eq_dec : EqDecision EventType.
Proof. solve_decision. Defined.

Record Event := mkOuch {
  oe_type : EventType;
  oe_order_id : Z;
  oe_quantity : Z;
  oe_price : Z;
  oe_reason : Z
}.

Definition Event_init : Event := mkOuch kRejected 0 0 0 0.

(** ** namespace detail *)

Definition detail_be32 (data : list Z) (off : Z) : option Z :=
  a ← zget data off; b ← zget data (off + 1); c ← zget data (off + 2); d ← zget data (off + 3);
  Some (Z.lor (Z.lor (Z.lor (Z.shiftl a 24) (Z.shiftl b 16)) (Z.shiftl c 8)) d).

Definition detail_be64 (data : list Z) (off : Z) : option Z := read_be 8 data off 0.

(** ** class Parser *)

Definition kAcceptedLength : Z := 9.
Definition kRejectedLength : Z := 10.
Definition kExecutedLength : Z := 13.
Definition kCanceledLength : Z := 9.
Definition kReplacedLength : Z := 17.
Definition kMaxBodyLength : Z := kReplacedLength.

(** The switch of [parse] on a body: the event, [None] inside when it is refused. *)
Definition parse_body (body : list Z) (body_length id : Z) : option (option Event) :=
  type ← zget body 0;
  if type =? 65 then
    if negb (body_length =? kAcceptedLength) then Some None else Some (Some (mkOuch kAccepted id 0 0 0))
  else if type =? 74 then
    if negb (body_length =? kRejectedLength) then Some None else
    reason ← zget body 9; Some (Some (mkOuch kRejected id 0 0 reason))
  else if type =? 69 then
    if negb (body_length =? kExecutedLength) then Some None else
    q ← detail_be32 body 9;
    if q <=? 0 then Some None else Some (Some (mkOuch kExecuted id q 0 0))
  else if type =? 67 then
    if negb (body_length =? kCanceledLength) then Some None else Some (Some (mkOuch kCanceled id 0 0 0))
  else if type =? 85 then
    if negb (body_length =? kReplacedLength) then Some None else
    q ← detail_be32 body 9; p ← detail_be32 body 13;
    if (q <=? 0) || (p <=? 0) then Some None else Some (Some (mkOuch kReplaced id q p 0))
  else Some None.

(** [parse]: the result, the event as left by the call and [consumed]. *)
Definition parse (data : option (list Z)) (event : Event) : option (bool * Event * Z) :=
  match data with
  | None => Some (false, event, 0)
  | Some data =>
      if Z.of_nat (length data) <? 2 then Some (false, event, 0) else
      hi ← zget data 0; lo ← zget data 1;
      let body_length := Z.lor (Z.shiftl hi 8) lo in
      if (body_length <? 9) || (kMaxBodyLength <? body_length) || (Z.of_nat (length data) <? body_length + 2)
      then Some (false, event, 0) else
      let body := drop 2 data in
      id ← detail_be64 body 1;
      if id =? 0 then Some (false, event, 0) else
      parsed ← parse_body body body_length id;
      match parsed with
      | None => Some (false, event, 0)
      | Some e => Some (true, e, body_length + 2)
      end
  end.

(** ** class OrderFlowAdapter *)

Section adapter.
Context {T : Type} `{OrderTable T}.

Definition adapter_consume (env : Env) (data : option (list Z)) (sym : Z) : ST (Gateway T) (bool * Z) :=
  '(ok, event, consumed) ← lift (parse data Event_init);
  if negb (ok : bool) then mret (false, consumed) else
  match oe_type event with
  | kExecuted =>
      r ← apply_execution_report env sym (mkReport (oe_order_id event) (oe_quantity event) false); mret (r, consumed)
  | kCanceled => r ← apply_cancel_report env sym (oe_order_id event); mret (r, consumed)
  | kReplaced =>
      r ← apply_replace_report env sym (oe_order_id event) (oe_quantity event) (oe_price event); mret (r, consumed)
  | kRejected => r ← apply_reject_report env sym (oe_order_id event); mret (r, consumed)
  | kAccepted => mret (true, consumed)
  end.
End adapter.

(** ** Messages as they are written *)

Definition type_char (t : EventType) : Z :=
  match t with kAccepted => 65 | kRejected => 74 | kExecuted => 69 | kCanceled => 67 | kReplaced => 85 end.

Definition event_tail (e : Event) : list Z :=
  match oe_type e with
  | kAccepted | kCanceled => []
  | kRejected => [oe_reason e]
  | kExecuted => enc_be 4 (oe_quantity e)
  | kReplaced => enc_be 4 (oe_quantity e) ++ enc_be 4 (oe_price e)
  end.

Definition event_body (e : Event) : list Z := type_char (oe_type e) :: enc_be 8 (oe_order_id e) ++ event_tail e.
Definition encode (e : Event) : list Z := frame (event_body e).

Definition in_u32 (z : Z) : Prop := 0 < z < 2 ^ 32.

(** The events a venue can send. *)
Definition event_valid (e : Event) : Prop :=
  0 < oe_order_id e < 2 ^ 64 ∧
  match oe_type e with
  | kAccepted | kCanceled => oe_quantity e = 0 ∧ oe_price e = 0 ∧ oe_reason e = 0
  | kRejected => oe_quantity e = 0 ∧ oe_price e = 0 ∧ 0 ≤ oe_reason e < 256
  | kExecuted => in_u32 (oe_quantity e) ∧ oe_price e = 0 ∧ oe_reason e = 0
  | kReplaced => in_u32 (oe_quantity e) ∧ in_u32 (oe_price e) ∧ oe_reason e = 0
  end.

Lemma zget_drop {A} (l : list A) n i : 0 ≤ i → zget (drop n l) i = zget l (Z.of_nat n + i).
Proof.
  intros Hi. unfold zget. rewrite !(proj2 (Z.leb_le _ _)) by lia. rewrite lookup_drop. f_equal. lia.
Qed.

Lemma zget_byte_at data i : bytes data → 0 ≤ i < Z.of_nat (length data) → ∃ b, zget data i = Some b ∧ 0 ≤ b < 256.
Proof.
  intros Hb Hi. unfold zget. rewrite (proj2 (Z.leb_le _ _)) by lia. apply byte_at; [done|lia].
Qed.

Lemma be64_reads data off :
  bytes data → (off + 8 ≤ length data)%nat →
  detail_be64 data (Z.of_nat off) = Some (be_val (take 8 (drop off data))).
Proof.
  intros Hb Ho. unfold detail_be64. rewrite read_be_val by (done || lia || (simpl; lia)). by rewrite Nat2Z.id.
Qed.

Lemma be32_reads data off :
  bytes data → (off + 4 ≤ length data)%nat →
  detail_be32 data (Z.of_nat off) = Some (be_val (take 4 (drop off data))).
Proof.
  intros Hb Ho. unfold detail_be32.
  assert (∀ k, (k < 4)%nat → ∃ b, zget data (Z.of_nat off + Z.of_nat k) = Some b ∧ 0 ≤ b < 256 ∧ drop off data !! k = Some b) as Hk.
  { intros k Hk. destruct (byte_at data (off + k) Hb) as (b & E & Hr); [lia|]. exists b.
    unfold zget. rewrite (proj2 (Z.leb_le _ _)) by lia. split_and!; [by rewrite <- Nat2Z.inj_add, Nat2Z.id|lia..|].
    by rewrite lookup_drop. }
  destruct (Hk 0%nat ltac:(lia)) as (a & Ea & Ha & La), (Hk 1%nat ltac:(lia)) as (b & Eb & Hb' & Lb),
    (Hk 2%nat ltac:(lia)) as (c & Ec & Hc & Lc), (Hk 3%nat ltac:(lia)) as (d & Ed & Hd & Ld).
  change (Z.of_nat 0) with 0 in Ea. rewrite Z.add_0_r in Ea.
  change (Z.of_nat 1) with 1 in Eb. change (Z.of_nat 2) with 2 in Ec. change (Z.of_nat 3) with 3 in Ed.
  rewrite Ea, Eb, Ec, Ed. cbn [mbind option_bind]. f_equal.
  destruct (drop off data) as [|? [|? [|? [|? l]]]]; simplify_eq/=.
  rewrite <- !Z.lor_assoc, (lor_add _ _ 8), (lor_add _ _ 16), (lor_add _ _ 24) by lia. lia.
Qed.

Lemma be16_value hi lo : 0 ≤ hi < 256 → 0 ≤ lo < 256 → Z.lor (Z.shiftl hi 8) lo = be_val [hi; lo].
Proof. intros Hhi Hlo. rewrite lor_add by lia. simpl. lia. Qed.

(** ** The parser inverts the encoder *)

Lemma event_body_length e :
  Z.of_nat (length (event_body e)) =
    match oe_type e with
    | kAccepted | kCanceled => 9 | kRejected => 10 | kExecuted => 13 | kReplaced => 17
    end.
Proof. unfold event_body, event_tail. destruct (oe_type e); reflexivity. Qed.

Lemma event_body_bytes e : event_valid e → bytes (event_body e).
Proof.
  intros [_ Ht]. unfold bytes, event_body, event_tail. constructor; [by destruct (oe_type e)|]. apply Forall_app.
  split; [apply enc_be_bytes|]. destruct (oe_type e); rewrite ?Forall_app, ?Forall_singleton; auto using enc_be_bytes.
  lia.
Qed.

Lemma encode_length e : Z.of_nat (length (encode e)) = Z.of_nat (length (event_body e)) + 2.
Proof. unfold encode. rewrite frame_length. lia. Qed.

(** What [parse] does with a body of the announced length. *)
Lemma parse_at data ev body rest :
  bytes body → data = frame body ++ rest → 9 ≤ Z.of_nat (length body) ≤ kMaxBodyLength →
  parse (Some data) ev =
    let id := be_val (take 8 (drop 1 body)) in
    if id =? 0 then Some (false, ev, 0) else
    parsed ← parse_body (body ++ rest) (Z.of_nat (length body)) id;
    match parsed with
    | None => Some (false, ev, 0)
    | Some e => Some (true, e, Z.of_nat (length body) + 2)
    end.
Proof.
  intros Hb -> Hl. unfold kMaxBodyLength, kReplacedLength in *. unfold parse.
  assert (Hfl : Z.of_nat (length (frame body ++ rest)) = Z.of_nat (length body) + 2 + Z.of_nat (length rest))
    by (rewrite length_app, frame_length; lia).
  rewrite Hfl, (proj2 (Z.ltb_ge _ _)) by lia. set (n := Z.of_nat (length body)) in *.
  assert (E0 : zget (frame body ++ rest) 0 = Some (u8 (Z.shiftr n 8))) by reflexivity.
  assert (E1 : zget (frame body ++ rest) 1 = Some (u8 (Z.shiftr n 0))) by reflexivity.
  rewrite E0, E1. cbn [mbind option_bind].
  rewrite be16_value by (apply Z.mod_pos_bound; lia). change ([u8 (Z.shiftr n 8); u8 (Z.shiftr n 0)]) with (enc_be 2 n).
  rewrite be_val_enc, Z.mod_small by (simpl; lia).
  rewrite !(proj2 (Z.ltb_ge _ _)) by (unfold kMaxBodyLength, kReplacedLength; lia). cbn [orb].
  change (drop 2 (frame body ++ rest)) with (body ++ rest).
  assert (E64 : detail_be64 (body ++ rest) 1 = Some (be_val (take 8 (drop 1 body)))).
  { transitivity (detail_be64 body 1).
    - unfold detail_be64. cbn [read_be]. unfold zget. cbn [Z.leb Z.compare].
      repeat (rewrite lookup_app_l by lia). reflexivity.
    - apply (be64_reads body 1); [done|lia]. }
  rewrite E64. reflexivity.
Qed.

Lemma be32_app body rest off :
  0 ≤ off → off + 4 ≤ Z.of_nat (length body) → detail_be32 (body ++ rest) off = detail_be32 body off.
Proof.
  intros Ho Hl. unfold detail_be32, zget. rewrite !(proj2 (Z.leb_le _ _)) by lia. rewrite !lookup_app_l by lia. done.
Qed.

Lemma be32_value body off v :
  bytes body → take 4 (drop off body) = enc_be 4 v → 0 ≤ v < 2 ^ 32 → detail_be32 body (Z.of_nat off) = Some v.
Proof.
  intros Hb E Hv. assert (Hl : length (take 4 (drop off body)) = 4%nat) by (by rewrite E).
  rewrite length_take, length_drop in Hl. rewrite be32_reads by (done || lia). rewrite E, be_val_enc. f_equal.
  apply Z.mod_small. exact Hv.
Qed.

Lemma parse_body_encode e rest :
  event_valid e → parse_body (event_body e ++ rest) (Z.of_nat (length (event_body e))) (oe_order_id e) = Some (Some e).
Proof.
  intros Hv. rewrite event_body_length. unfold parse_body.
  assert (zget (event_body e ++ rest) 0 = Some (type_char (oe_type e))) as -> by reflexivity.
  pose proof (event_body_bytes e Hv) as Hb. destruct Hv as [Hid Ht]. pose proof (event_body_length e) as Hl.
  destruct e as [t id q p r]. cbn [oe_type oe_order_id oe_quantity oe_price oe_reason] in *.
  destruct t; cbn [type_char mbind option_bind Z.eqb Pos.eqb negb]; unfold in_u32 in *.
  - by destruct Ht as (-> & -> & ->).
  - destruct Ht as (-> & -> & Hr). reflexivity.
  - destruct Ht as (Hq & -> & ->). rewrite be32_app by (lia || (rewrite Hl; lia)).
    rewrite (be32_value _ 9 q) by (done || lia). cbn [mbind option_bind]. by rewrite (proj2 (Z.leb_gt _ _)) by lia.
  - by destruct Ht as (-> & -> & ->).
  - destruct Ht as (Hq & Hp & ->). rewrite !be32_app by (lia || (rewrite Hl; lia)).
    rewrite (be32_value _ 9 q), (be32_value _ 13 p) by (done || lia). cbn [mbind option_bind].
    by rewrite !(proj2 (Z.leb_gt _ _)) by lia.
Qed.

Lemma parse_encode e rest ev :
  event_valid e → parse (Some (encode e ++ rest)) ev = Some (true, e, Z.of_nat (length (encode e))).
Proof.
  intros Hv. rewrite (parse_at _ ev (event_body e) rest); [|by apply event_body_bytes|done|].
  - cbv zeta. change (take 8 (drop 1 (event_body e))) with (enc_be 8 (oe_order_id e)).
    rewrite be_val_enc, Z.mod_small by (destruct Hv; simpl in *; lia).
    rewrite (proj2 (Z.eqb_neq _ _)) by (destruct Hv; lia). rewrite parse_body_encode by done.
    cbn [mbind option_bind]. by rewrite encode_length.
  - rewrite event_body_length. unfold kMaxBodyLength, kReplacedLength. destruct (oe_type e); lia.
Qed.

Lemma body_split body : bytes body → (9 ≤ length body)%nat →
  ∃ t, zget body 0 = Some t ∧ body = t :: enc_be 8 (be_val (take 8 (drop 1 body))) ++ drop 9 body.
Proof.
  intros Hb Hl. destruct body as [|t body]; [simpl in Hl; lia|]. exists t. split; [done|].
  change (drop 1 (t :: body)) with body. change (drop 9 (t :: body)) with (drop 8 body). f_equal.
  assert (E : enc_be 8 (be_val (take 8 body)) = take 8 body).
  { rewrite <- (enc_be_val (take 8 body)) at 2; [|apply Forall_take, (Forall_cons_1 _ _ _ Hb)].
    rewrite length_take. simpl in Hl. by replace (Nat.min 8 (length body)) with 8%nat by lia. }
  rewrite E. by rewrite take_drop.
Qed.

Lemma parse_body_sound body rest id e :
  bytes body → 9 ≤ Z.of_nat (length body) ≤ 17 → id = be_val (take 8 (drop 1 body)) → id ≠ 0 →
  parse_body (body ++ rest) (Z.of_nat (length body)) id = Some (Some e) → event_valid e ∧ body = event_body e.
Proof.
  intros Hb Hl Hid Hne. destruct (body_split body Hb ltac:(lia)) as (t & Ht & Hbody). rewrite <- Hid in Hbody.
  assert (Hid' : 0 < id < 2 ^ 64).
  { pose proof (be_val_range (take 8 (drop 1 body))) as H. rewrite length_take, length_drop in H.
    replace (Nat.min 8 (length body - 1)) with 8%nat in H by lia. rewrite <- Hid in H.
    specialize (H ltac:(by apply Forall_take, Forall_drop)). change (256 ^ Z.of_nat 8) with (2 ^ 64) in H. lia. }
  assert (Htail : ∀ off, (off + 4 ≤ length body)%nat →
    ∃ v, detail_be32 (body ++ rest) (Z.of_nat off) = Some v ∧ 0 ≤ v < 2 ^ 32 ∧ take 4 (drop off body) = enc_be 4 v).
  { intros off Ho. rewrite be32_app, be32_reads by (done || lia). eexists. split; [done|].
    assert (Hx : bytes (take 4 (drop off body))) by (by apply Forall_take, Forall_drop).
    assert (Hn : length (take 4 (drop off body)) = 4%nat) by (rewrite length_take, length_drop; lia).
    pose proof (be_val_range _ Hx) as Hr. rewrite Hn in Hr. split; [exact Hr|].
    rewrite <- (enc_be_val _ Hx) at 1. by rewrite Hn. }
  assert (Hz : zget (body ++ rest) 0 = Some t).
  { unfold zget in *. cbn [Z.leb Z.compare] in *. rewrite lookup_app_l by lia. done. }
  unfold parse_body. rewrite Hz. cbn [mbind option_bind].
  unfold kAcceptedLength, kRejectedLength, kExecutedLength, kCanceledLength, kReplacedLength.
  assert (Hnil : length body = 9%nat → drop 9 body = []) by (intros; apply drop_ge; lia).
  destruct (Z.eqb_spec t 65) as [->|_].
  { destruct (Z.eqb_spec (Z.of_nat (length body)) 9); [|done]. intros [= <-]. rewrite Hnil in Hbody by lia. done. }
  destruct (Z.eqb_spec t 74) as [->|_].
  { destruct (Z.eqb_spec (Z.of_nat (length body)) 10); [|done].
    destruct (zget_byte_at body 9 Hb) as (r & Er & Hr); [lia|].
    assert (zget (body ++ rest) 9 = Some r) as ->.
    { unfold zget in *. cbn [Z.leb Z.compare] in *. rewrite lookup_app_l by lia. done. }
    intros [= <-]. split; [done|]. rewrite Hbody at 1. unfold event_body, event_tail. cbn [oe_type oe_order_id oe_reason type_char].
    do 2 f_equal. unfold zget in Er. cbn [Z.leb Z.compare] in Er. change (Z.to_nat 9) with 9%nat in Er. rewrite (drop_S _ _ _ Er). f_equal. apply drop_ge. lia. }
  destruct (Z.eqb_spec t 69) as [->|_].
  { destruct (Z.eqb_spec (Z.of_nat (length body)) 13); [|done].
    destruct (Htail 9%nat ltac:(lia)) as (q & Eq & Hq & Dq). change (Z.of_nat 9) with 9 in Eq. rewrite Eq. cbn [mbind option_bind].
    destruct (Z.leb_spec q 0); [done|]. intros [= <-]. split; [split; [done|]; unfold in_u32; cbn; lia|].
    rewrite take_ge in Dq by (rewrite length_drop; lia). by rewrite Hbody, Dq at 1. }
  destruct (Z.eqb_spec t 67) as [->|_].
  { destruct (Z.eqb_spec (Z.of_nat (length body)) 9); [|done]. intros [= <-]. rewrite Hnil in Hbody by lia. done. }
  destruct (Z.eqb_spec t 85) as [->|_]; [|done].
  destruct (Z.eqb_spec (Z.of_nat (length body)) 17); [|done].
  destruct (Htail 9%nat ltac:(lia)) as (q & Eq & Hq & Dq). change (Z.of_nat 9) with 9 in Eq.
  destruct (Htail 13%nat ltac:(lia)) as (p & Ep & Hp & Dp). change (Z.of_nat 13) with 13 in Ep.
  rewrite Eq, Ep. cbn [mbind option_bind]. destruct (Z.leb_spec q 0); [done|]. destruct (Z.leb_spec p 0); [done|].
  intros [= <-]. split; [split; [done|]; unfold in_u32; cbn; lia|].
  assert (Hd : drop 9 body = enc_be 4 q ++ enc_be 4 p).
  { rewrite <- (take_drop 4 (drop 9 body)), Dq, drop_drop. f_equal. rewrite <- Dp. symmetry. apply take_ge.
    rewrite length_drop. lia. }
  by rewrite Hbody, Hd at 1.
Qed.

Lemma parse_body_total body rest id :
  bytes body → 9 ≤ Z.of_nat (length body) → is_Some (parse_body (body ++ rest) (Z.of_nat (length body)) id).
Proof.
  intros Hb Hl. assert (H32 : ∀ off, (off + 4 ≤ length body)%nat → is_Some (detail_be32 (body ++ rest) (Z.of_nat off))).
  { intros off Ho. rewrite be32_app, be32_reads by (done || lia). by eexists. }
  assert (Hz : ∀ i, 0 ≤ i < Z.of_nat (length body) → is_Some (zget (body ++ rest) i)).
  { intros i Hi. destruct (zget_byte_at body i Hb Hi) as (b & E & _). exists b. unfold zget in *.
    rewrite (proj2 (Z.leb_le _ _)) in * by lia. by rewrite lookup_app_l by lia. }
  unfold parse_body. destruct (Hz 0 ltac:(lia)) as [t ->]. cbn [mbind option_bind].
  unfold kAcceptedLength, kRejectedLength, kExecutedLength, kCanceledLength, kReplacedLength.
  destruct (t =? 65); [case_cond; by eexists|]. destruct (t =? 74).
  { destruct (Z.eqb_spec (Z.of_nat (length body)) 10); [|by eexists]. destruct (Hz 9 ltac:(lia)) as [r ->]. by eexists. }
  destruct (t =? 69).
  { destruct (Z.eqb_spec (Z.of_nat (length body)) 13); [|by eexists]. destruct (H32 9%nat ltac:(lia)) as [q Eq].
    change (Z.of_nat 9) with 9 in Eq. rewrite Eq. cbn. case_cond; by eexists. }
  destruct (t =? 67); [case_cond; by eexists|]. destruct (t =? 85); [|by eexists].
  destruct (Z.eqb_spec (Z.of_nat (length body)) 17); [|by eexists].
  destruct (H32 9%nat ltac:(lia)) as [q Eq], (H32 13%nat ltac:(lia)) as [p Ep].
  change (Z.of_nat 9) with 9 in Eq. change (Z.of_nat 13) with 13 in Ep. rewrite Eq, Ep. cbn. case_cond; by eexists.
Qed.

(** A message is accepted exactly when it starts with the encoding of a valid
    event, and then that event and its length are returned. *)
Lemma parse_total data ev :
  bytes data → ∃ ok e n, parse (Some data) ev = Some (ok, e, n) ∧
    if (ok : bool) then event_valid e ∧ n = Z.of_nat (length (encode e)) ∧ ∃ rest, data = encode e ++ rest
    else e = ev ∧ n = 0 ∧ ∀ e' rest, event_valid e' → data ≠ encode e' ++ rest.
Proof.
  intros Hb. assert (Hno : ∀ r, parse (Some data) ev = Some r → r.1.1 = false →
    ∀ e' rest, event_valid e' → data ≠ encode e' ++ rest).
  { intros r Er Hr e' rest Hv ->. rewrite parse_encode in Er by done. by simplify_eq/=. }
  assert (Hfail : parse (Some data) ev = Some (false, ev, 0) →
    ∃ ok e n, parse (Some data) ev = Some (ok, e, n) ∧
    if (ok : bool) then event_valid e ∧ n = Z.of_nat (length (encode e)) ∧ ∃ rest, data = encode e ++ rest
    else e = ev ∧ n = 0 ∧ ∀ e' rest, event_valid e' → data ≠ encode e' ++ rest).
  { intros E. exists false, ev, 0. split; [done|]. split_and!; [done..|]. by apply (Hno _ E). }
  destruct (Z.ltb_spec (Z.of_nat (length data)) 2) as [Hs|Hs].
  { apply Hfail. unfold parse. by rewrite (proj2 (Z.ltb_lt _ _)) by lia. }
  destruct (zget_byte_at data 0 Hb) as (hi & Ehi & Hhi); [lia|]. destruct (zget_byte_at data 1 Hb) as (lo & Elo & Hlo); [lia|].
  set (L := Z.lor (Z.shiftl hi 8) lo).
  destruct ((L <? 9) || (kMaxBodyLength <? L) || (Z.of_nat (length data) <? L + 2)) eqn:Hg.
  { apply Hfail. unfold parse. rewrite (proj2 (Z.ltb_ge _ _)), Ehi, Elo by lia. cbn [mbind option_bind]. fold L. by rewrite Hg. }
  unfold kMaxBodyLength, kReplacedLength in Hg. rewrite !orb_false_iff, !Z.ltb_ge in Hg. destruct Hg as [[H9 H17] Hlen].
  set (body := take (Z.to_nat L) (drop 2 data)). set (rest := drop (Z.to_nat L) (drop 2 data)).
  assert (Hbl : Z.of_nat (length body) = L) by (unfold body; rewrite length_take, length_drop; lia).
  assert (Hbb : bytes body) by (by apply Forall_take, Forall_drop).
  assert (Hd : data = frame body ++ rest).
  { unfold frame. rewrite Hbl, <- app_assoc. unfold body, rest. rewrite take_drop.
    assert (enc_be 2 L = [hi; lo]) as ->.
    { unfold L. rewrite be16_value by done. apply (enc_be_val [hi; lo]). by rewrite !Forall_cons, Forall_nil. }
    destruct data as [|a [|b data]]; [simpl in Hs; lia..|].
    change (Some a = Some hi) in Ehi. change (Some b = Some lo) in Elo. change (drop 2 (a :: b :: data)) with data. simpl. congruence. }
  pose proof (parse_at data ev body rest Hbb Hd ltac:(unfold kMaxBodyLength, kReplacedLength; lia)) as Ep. cbv zeta in Ep.
  destruct (Z.eqb_spec (be_val (take 8 (drop 1 body))) 0) as [Hz|Hz]; [by apply Hfail|].
  destruct (parse_body (body ++ rest) (Z.of_nat (length body)) _) as [[e|]|] eqn:Eb; cbn [mbind option_bind] in Ep.
  - destruct (parse_body_sound body rest _ e Hbb ltac:(lia) eq_refl Hz Eb) as [Hv Hbe].
    exists true, e, (Z.of_nat (length body) + 2). split; [done|]. split; [done|]. rewrite encode_length, <- Hbe.
    split; [done|]. exists rest. unfold encode. by rewrite <- Hbe.
  - by apply Hfail.
  - destruct (parse_body_total body rest (be_val (take 8 (drop 1 body))) Hbb ltac:(lia)) as [r Hr]. congruence.
Qed.

(** C30 (roundtrip): the parser accepts exactly what a venue writes.  For every byte
    string [parse] returns without reading outside it; it accepts if and only if the
    string starts with the encoding of a valid event, and then returns that event
    and the length of its encoding; otherwise it leaves the event alone and consumes
    nothing. *)
Theorem ouch_parser_exact data ev :
  bytes data → ∃ ok e n, parse (Some data) ev = Some (ok, e, n) ∧
    if (ok : bool) then event_valid e ∧ n = Z.of_nat (length (encode e)) ∧ ∃ rest, data = encode e ++ rest
    else e = ev ∧ n = 0 ∧ ∀ e' rest, event_valid e' → data ≠ encode e' ++ rest.
Proof. apply parse_total. Qed.

Definition demo_fill : Event := mkOuch kExecuted 5 40 0 0.

Lemma ouch_parser_exact_witness :
  ∃ e n, parse (Some (encode demo_fill ++ [0; 9])) Event_init = Some (true, e, n) ∧ event_valid e ∧ n = 15.
Proof.
  destruct (ouch_parser_exact (encode demo_fill ++ [0; 9]) Event_init) as (ok & e & n & E & H); [by_decide|].
  assert (Hok : ok = true) by (vm_compute in E; congruence). subst ok. destruct H as (Hv & Hn & _).
  exists e, n. split; [exact E|]. split; [exact Hv|]. vm_compute in E. congruence.
Defined.

(** ** Streams of messages *)

Section stream.
Context {T : Type} `{OrderTable T}.
Implicit Types g : Gateway T.

(** Calling the adapter on what is left until it consumes nothing. *)
Fixpoint drain (n : nat) (envs : nat → Env) (sym : Z) (data : list Z) : ST (Gateway T) (list bool * list Z) :=
  match n with
  | O => mret ([], data)
  | S n' =>
      '(ok, used) ← adapter_consume (envs O) (Some data) sym;
      if used =? 0 then mret ([], data) else
      '(oks, rest) ← drain n' (λ k, envs (S k)) sym (drop (Z.to_nat used) data);
      mret (ok :: oks, rest)
  end.

(** The gateway call an event stands for. *)
Definition event_call (env : Env) (sym : Z) (e : Event) : ST (Gateway T) bool :=
  match oe_type e with
  | kAccepted => mret true
  | kRejected => do_gw (Rejected env sym (oe_order_id e))
  | kExecuted => do_gw (Execution env sym (mkReport (oe_order_id e) (oe_quantity e) false))
  | kCanceled => do_gw (Cancelled env sym (oe_order_id e))
  | kReplaced => do_gw (Replaced env sym (oe_order_id e) (oe_quantity e) (oe_price e))
  end.

Fixpoint event_calls (envs : nat → Env) (sym : Z) (es : list Event) : ST (Gateway T) (list bool) :=
  match es with
  | [] => mret []
  | e :: es' => ok ← event_call (envs O) sym e; oks ← event_calls (λ k, envs (S k)) sym es'; mret (ok :: oks)
  end.

Lemma consume_encoded env sym e rest g :
  event_valid e →
  adapter_consume env (Some (encode e ++ rest)) sym g =
    (ok ← event_call env sym e; mret (ok, Z.of_nat (length (encode e)))) g.
Proof using Type.
  intros Hv. unfold adapter_consume. unfold mbind at 1, st_bind, lift. rewrite parse_encode by done. cbn [mbind option_bind negb].
  unfold event_call. by destruct (oe_type e).
Qed.

Lemma drain_encoded envs sym es rest g :
  Forall event_valid es →
  drain (length es) envs sym (concat (encode <$> es) ++ rest) g = (oks ← event_calls envs sym es; mret (oks, rest)) g.
Proof using Type.
  intros Hes. revert envs g. induction Hes as [|e es Hv _ IH]; intros envs g; [done|].
  change (concat (encode <$> e :: es) ++ rest) with ((encode e ++ concat (encode <$> es)) ++ rest).
  rewrite <- app_assoc. cbn [length drain event_calls]. unfold mbind, st_bind. rewrite consume_encoded by done.
  unfold mbind, st_bind. destruct (event_call (envs 0%nat) sym e g) as [[ok g1]|]; [|done]. cbv beta iota delta [mret st_ret].
  rewrite (proj2 (Z.eqb_neq _ _)) by (rewrite encode_length, event_body_length; destruct (oe_type e); lia).
  rewrite Nat2Z.id, drop_app_length. specialize (IH (λ k, envs (S k)) g1). unfold mbind, st_bind in IH. rewrite IH.
  by destruct (event_calls _ sym es g1) as [[oks g2]|].
Qed.
End stream.

(** C5 (refinement): a stream of venue messages drives the gateway exactly as the
    reports it spells out.  Feeding the adapter the concatenation of the encodings
    of any valid events, followed by anything, makes the corresponding gateway
    calls, one per event and in order, with the same results, and leaves the rest
    of the buffer unread. *)
Theorem ouch_stream_drives_gateway {T} `{OrderTable T} envs sym es rest (g : Gateway T) :
  Forall event_valid es →
  drain (length es) envs sym (concat (encode <$> es) ++ rest) g = (oks ← event_calls envs sym es; mret (oks, rest)) g.
Proof. apply drain_encoded. Qed.

Lemma ouch_stream_drives_gateway_witness :
  ∃ g1 g2 : Gateway ReconciliationLedger,
    do_gw (Submit AuditLog.toy_sha demo_env (demo_order 0 5) demo_packet) demo_gateway = Some (true, g1) ∧
    drain 2 (λ _, demo_env) 0 (concat (encode <$> [demo_fill; mkOuch kCanceled 5 0 0 0]) ++ [7]) g1 = Some (([true; true], [7]), g2) ∧
    net_position (risk_of g2 0) = 40.
Proof.
  eexists _, _. split; [vm_compute; reflexivity|]. split.
  - rewrite (ouch_stream_drives_gateway (λ _, demo_env) 0 [demo_fill; mkOuch kCanceled 5 0 0 0]).
    + vm_compute. reflexivity.
    + repeat constructor.
  - vm_compute. reflexivity.
Defined.
