(* ===== verification/Mempool.v ===== *)
(** * Mempool: the lock-free block pool (src/luv_mempool.hpp)

    A Treiber stack of block indices under any number of threads.  One step is one
    access to shared memory: a load of [head_], a read or a write of a [freelist_]
    entry, or a compare-exchange, which may fail spuriously.  A block is its index;
    [owned] are the blocks handed out and not yet given back, and [ops] counts the
    successful exchanges (both are ghost state).  Accesses to [freelist_] are
    atomic words here: the source reads and writes them without atomics. *)

From S2P Require Import Prelude.
From Stdlib Require Import ZArith Lia.
From stdpp Require Import base tactics gmap numbers option list.
Open Scope Z_scope.

Definition kInvalidIndex : Z := 0xFFFFFFFF.

Record TaggedIndex := mkTagged { ti_index : Z; ti_tag : Z }.

#[export] Instance TaggedIndex_eq_dec : EqDecision TaggedIndex.
Proof. solve_decision. Defined.

Record Pool := mkPool { pl_head : TaggedIndex; pl_freelist : gmap Z Z }.

(** [head_.compare_exchange_weak(old, new)] when it does not fail spuriously. *)
Definition compare_exchange (p : Pool) (old new : TaggedIndex) : option Pool :=
  if bool_decide (pl_head p = old) then Some (mkPool new (pl_freelist p)) else None.

(** The new heads the two loops try to install. *)
Definition popped (old : TaggedIndex) (next_idx : Z) : TaggedIndex := mkTagged next_idx (u32 (ti_tag old + 1)).
Definition pushed (old : TaggedIndex) (idx : Z) : TaggedIndex := mkTagged idx (u32 (ti_tag old + 1)).

(** The index [deallocate] computes from a pointer [diff] bytes into [storage_]. *)
Definition block_index (node_size diff : Z) : Z := u32 (u64 diff / node_size).

Section pool.
Context (Capacity : Z).

Definition Pool_new : Pool :=
  mkPool (mkTagged 0 0)
    (<[Capacity - 1 := kInvalidIndex]> (list_to_map ((λ i, (i, u32 (i + 1))) <$> seqZ 0 Capacity))).

(** A call that nobody disturbs: the block, or null when the pool is exhausted. *)
Definition allocate (p : Pool) : option (Pool * option Z) :=
  let old := pl_head p in
  if ti_index old =? kInvalidIndex then Some (p, None) else
  next_idx ← pl_freelist p !! ti_index old;
  p ← compare_exchange p old (popped old next_idx); Some (p, Some (ti_index old)).

Definition deallocate (p : Pool) (idx : Z) : option Pool :=
  if Capacity <=? idx then Some p else
  let old := pl_head p in
  let p := mkPool (pl_head p) (<[idx := ti_index old]> (pl_freelist p)) in
  compare_exchange p old (pushed old idx).

(** ** Threads *)

(** Where a thread is inside [allocate] or [deallocate idx], with its locals. *)
Inductive pc :=
  | Idle
  | AllocHave (old : TaggedIndex)
  | AllocNext (old : TaggedIndex) (next_idx : Z)
  | FreeHave (idx : Z) (old : TaggedIndex)
  | FreeLinked (idx : Z) (old : TaggedIndex).

Record conf := mkConf { pool : Pool; pcs : gmap Z pc; owned : gset Z; ops : Z }.

Definition at_pc (c : conf) (t : Z) : pc := aget Idle (pcs c) t.
Definition goto (c : conf) (t : Z) (x : pc) : conf := mkConf (pool c) (<[t := x]> (pcs c)) (owned c) (ops c).

Inductive pstep (t : Z) : conf → conf → Prop :=
  | step_alloc c :
      at_pc c t = Idle → pstep t c (goto c t (AllocHave (pl_head (pool c))))
  | step_exhausted c old :
      at_pc c t = AllocHave old → ti_index old = kInvalidIndex → pstep t c (goto c t Idle)
  | step_read c old next_idx :
      at_pc c t = AllocHave old → ti_index old ≠ kInvalidIndex →
      pl_freelist (pool c) !! ti_index old = Some next_idx → pstep t c (goto c t (AllocNext old next_idx))
  | step_popped c old next_idx p :
      at_pc c t = AllocNext old next_idx → compare_exchange (pool c) old (popped old next_idx) = Some p →
      pstep t c (mkConf p (<[t := Idle]> (pcs c)) (owned c ∪ {[ti_index old]}) (ops c + 1))
  | step_pop_failed c old next_idx :
      at_pc c t = AllocNext old next_idx → pstep t c (goto c t (AllocHave (pl_head (pool c))))
  | step_free c idx :
      at_pc c t = Idle → idx ∈ owned c →
      pstep t c (mkConf (pool c) (<[t := FreeHave idx (pl_head (pool c))]> (pcs c)) (owned c ∖ {[idx]}) (ops c))
  | step_link c idx old :
      at_pc c t = FreeHave idx old → idx < Capacity →
      pstep t c (mkConf (mkPool (pl_head (pool c)) (<[idx := ti_index old]> (pl_freelist (pool c))))
                   (<[t := FreeLinked idx old]> (pcs c)) (owned c) (ops c))
  | step_pushed c idx old p :
      at_pc c t = FreeLinked idx old → compare_exchange (pool c) old (pushed old idx) = Some p →
      pstep t c (mkConf p (<[t := Idle]> (pcs c)) (owned c) (ops c + 1))
  | step_push_failed c idx old :
      at_pc c t = FreeLinked idx old → pstep t c (goto c t (FreeHave idx (pl_head (pool c)))).

Inductive preachable : conf → Prop :=
  | preach_init : preachable (mkConf Pool_new ∅ ∅ 0)
  | preach_step t c c' : preachable c → pstep t c c' → preachable c'.

(** ** The invariant *)

Context (Hcap : 0 < Capacity < 2 ^ 32).

Definition valid (i : Z) : Prop := 0 ≤ i < Capacity.

Fixpoint chain (f : gmap Z Z) (h : Z) (l : list Z) : Prop :=
  match l with
  | [] => h = kInvalidIndex
  | i :: l' => h = i ∧ ∃ n, f !! i = Some n ∧ chain f n l'
  end.

(** The block a thread is giving back, and the head it last saw. *)
Definition returning (x : pc) : option Z :=
  match x with FreeHave idx _ | FreeLinked idx _ => Some idx | _ => None end.
Definition seen_head (x : pc) : option TaggedIndex :=
  match x with Idle => None | AllocHave old | AllocNext old _ | FreeHave _ old | FreeLinked _ old => Some old end.

(** What a thread remembers is still true if no exchange succeeded since. *)
Definition local_ok (c : conf) (x : pc) : Prop :=
  (∀ old, seen_head x = Some old → 0 ≤ ti_tag old ≤ ops c ∧ (ti_tag old = ops c → old = pl_head (pool c))) ∧
  match x with
  | AllocNext old next_idx =>
      ti_index old ≠ kInvalidIndex ∧ (ti_tag old = ops c → pl_freelist (pool c) !! ti_index old = Some next_idx)
  | FreeLinked idx old => pl_freelist (pool c) !! idx = Some (ti_index old)
  | _ => True
  end.

Record pinv (c : conf) (l : list Z) : Prop := mk_pinv {
  pi_chain : chain (pl_freelist (pool c)) (ti_index (pl_head (pool c))) l;
  pi_nodup : NoDup l;
  pi_valid : ∀ i, i ∈ l → valid i;
  pi_owned : ∀ i, i ∈ owned c → valid i ∧ i ∉ l;
  pi_returning : ∀ t i, returning (at_pc c t) = Some i → valid i ∧ i ∉ l ∧ i ∉ owned c;
  pi_distinct : ∀ t t' i, returning (at_pc c t) = Some i → returning (at_pc c t') = Some i → t = t';
  pi_all : ∀ i, valid i → i ∈ l ∨ i ∈ owned c ∨ ∃ t, returning (at_pc c t) = Some i;
  pi_tag : ti_tag (pl_head (pool c)) = ops c;
  pi_local : ∀ t, local_ok c (at_pc c t)
}.

Lemma chain_frame f h l i v : i ∉ l → chain f h l → chain (<[i := v]> f) h l.
Proof using Type.
  revert h. induction l as [|j l IH]; intros h Hi Hc; [done|]. apply not_elem_of_cons in Hi as [Hne Hi].
  destruct Hc as (-> & n & En & Hc). split; [done|]. exists n. rewrite lookup_insert_ne by done. auto.
Qed.

Lemma at_goto c t x t' : at_pc (goto c t x) t' = if decide (t = t') then x else at_pc c t'.
Proof using Type. apply aget_insert. Qed.

(** A step that moves one thread and touches nothing else. *)
Lemma goto_inv c l t x :
  pinv c l → returning x = returning (at_pc c t) → local_ok c x → pinv (goto c t x) l.
Proof using Hcap.
  intros [H1 H2 H3 H4 H5 H6 H7 H8 H9] Hr Hx.
  assert (Hret : ∀ t', returning (at_pc (goto c t x) t') = returning (at_pc c t')).
  { intros t'. rewrite at_goto. case_decide; [by subst|done]. }
  split; try done.
  - intros t' i. rewrite Hret. apply H5.
  - intros t' t'' i. rewrite !Hret. apply H6.
  - intros i Hi. destruct (H7 i Hi) as [?|[?|[t' Ht]]]; [by left|by right; left|]. right. right. exists t'. by rewrite Hret.
  - intros t'. rewrite at_goto. case_decide; [exact Hx|apply (H9 t')].
Qed.

(** A thread that has just loaded the head knows it. *)
Lemma fresh_ok c l x :
  pinv c l → 0 ≤ ops c → seen_head x = Some (pl_head (pool c)) →
  match x with AllocNext _ _ | FreeLinked _ _ => False | _ => True end → local_ok c x.
Proof using Hcap.
  intros Hi Ho Hs Hx. split; [|by destruct x]. rewrite Hs. intros ? [= <-]. rewrite (pi_tag _ _ Hi). split; [lia|done].
Qed.

(** After a successful exchange nothing a thread saw before is current. *)
Lemma stale_ok c c' x :
  local_ok c x → pl_freelist (pool c') = pl_freelist (pool c) → ops c' = ops c + 1 → local_ok c' x.
Proof using Hcap.
  intros [Hs Hx] Hf Ho. split.
  - intros old Hold. destruct (Hs old Hold) as [Ht _]. rewrite Ho. split; [lia|]. intros. lia.
  - destruct x as [|old|old n|idx old|idx old]; try done.
    + destruct Hx as [Hne _]. split; [done|]. intros. destruct (Hs old eq_refl). lia.
    + by rewrite Hf.
Qed.

Lemma exchange_inv p old new p' : compare_exchange p old new = Some p' → pl_head p = old ∧ p' = mkPool new (pl_freelist p).
Proof using Hcap. unfold compare_exchange. case_bool_decide; [|done]. intros [= <-]. done. Qed.

Lemma tag_next c l : pinv c l → 0 ≤ ops c → ops c + 1 < 2 ^ 32 → u32 (ti_tag (pl_head (pool c)) + 1) = ops c + 1.
Proof using Hcap. intros Hi H0 H1. rewrite (pi_tag _ _ Hi). apply Z.mod_small. lia. Qed.

Lemma popped_inv c l t old next_idx p :
  pinv c l → 0 ≤ ops c → ops c + 1 < 2 ^ 32 → at_pc c t = AllocNext old next_idx →
  compare_exchange (pool c) old (popped old next_idx) = Some p →
  ∃ l', l = ti_index old :: l' ∧
    pinv (mkConf p (<[t := Idle]> (pcs c)) (owned c ∪ {[ti_index old]}) (ops c + 1)) l'.
Proof using Hcap.
  intros Hi H0 H1 Ht Hx. apply exchange_inv in Hx as [Hh ->]. subst old.
  destruct (pi_local _ _ Hi t) as [_ Hl]. rewrite Ht in Hl. destruct Hl as [Hne Hnext].
  specialize (Hnext (pi_tag _ _ Hi)). pose proof (tag_next c l Hi H0 H1) as Htag.
  destruct Hi as [C1 C2 C3 C4 C5 C6 C7 C8 C9]. destruct l as [|i l']; [by destruct Hne|].
  destruct C1 as (Ei & n & En & C1). rewrite <- Ei in En. rewrite Hnext in En. injection En as <-.
  exists l'. split; [by rewrite Ei|]. rewrite Ei in *. apply NoDup_cons in C2 as [Hni C2].
  assert (Hret : ∀ t', returning (aget Idle (<[t:=Idle]> (pcs c)) t') = returning (at_pc c t')).
  { intros t'. rewrite aget_insert. case_decide; [|done]. subst. by rewrite Ht. }
  split; cbn [pool pcs owned ops pl_head pl_freelist ti_index ti_tag popped] in *; unfold at_pc; cbn [pcs].
  - done.
  - done.
  - intros j Hj. apply C3. by right.
  - intros j Hj. apply elem_of_union in Hj as [Hj%C4|Hj%elem_of_singleton].
    + destruct Hj as [Hv Hn]. apply not_elem_of_cons in Hn as [_ Hn]. done.
    + subst j. split; [|done]. apply C3. by left.
  - intros t' j. rewrite Hret. intros (Hv & Hnl & Hno)%C5. apply not_elem_of_cons in Hnl as [Hne' Hnl].
    split_and!; [apply Hv..|done|]. set_solver.
  - intros t1 t2 j. rewrite !Hret. apply C6.
  - intros j Hj. destruct (C7 j Hj) as [Hl|[Hl|[t' Hl]]].
    + apply elem_of_cons in Hl as [->|Hl]; [|by left]. right. left. set_solver.
    + right. left. set_solver.
    + right. right. exists t'. by rewrite Hret.
  - exact Htag.
  - intros t'. rewrite aget_insert. case_decide; [split; [done|exact I]|]. by apply (stale_ok c _ _ (C9 t')).
Qed.

Lemma pushed_inv c l t idx old p :
  pinv c l → 0 ≤ ops c → ops c + 1 < 2 ^ 32 → at_pc c t = FreeLinked idx old →
  compare_exchange (pool c) old (pushed old idx) = Some p →
  pinv (mkConf p (<[t := Idle]> (pcs c)) (owned c) (ops c + 1)) (idx :: l).
Proof using Hcap.
  intros Hi H0 H1 Ht Hx. apply exchange_inv in Hx as [Hh ->]. subst old.
  destruct (pi_local _ _ Hi t) as [_ Hl]. rewrite Ht in Hl. pose proof (tag_next c l Hi H0 H1) as Htag.
  destruct Hi as [C1 C2 C3 C4 C5 C6 C7 C8 C9]. destruct (C5 t idx) as (Hv & Hnl & Hno); [by rewrite Ht|].
  assert (Hret : ∀ t' j, returning (aget Idle (<[t:=Idle]> (pcs c)) t') = Some j → j ≠ idx ∧ returning (at_pc c t') = Some j).
  { intros t' j. rewrite aget_insert. case_decide as Hd; [done|]. intros Hj. split; [|done]. intros ->.
    apply Hd, (C6 t t' idx); [by rewrite Ht|done]. }
  split; cbn [pool pcs owned ops pl_head pl_freelist ti_index ti_tag pushed] in *; unfold at_pc; cbn [pcs].
  - split; [done|]. by eexists.
  - by constructor.
  - intros j [->|Hj]%elem_of_cons; [done|by apply C3].
  - intros j Hj. destruct (C4 j Hj) as [Hvj Hnj]. split; [done|]. apply not_elem_of_cons. split; [|done]. by intros ->.
  - intros t' j [Hne Hj]%Hret. destruct (C5 t' j Hj) as (Hvj & Hnj & Hoj). split_and!; [apply Hvj..| |done].
    apply not_elem_of_cons. done.
  - intros t1 t2 j [_ Hj1]%Hret [_ Hj2]%Hret. by apply (C6 t1 t2 j).
  - intros j Hj. destruct (decide (j = idx)) as [->|Hne]; [left; by left|].
    destruct (C7 j Hj) as [Hlj|[Hlj|[t' Hlj]]]; [left; by right|by right; left|]. right. right. exists t'.
    rewrite aget_insert. case_decide; [|done]. subst t'. rewrite Ht in Hlj. by injection Hlj as ->.
  - exact Htag.
  - intros t'. rewrite aget_insert. case_decide; [split; [done|exact I]|]. by apply (stale_ok c _ _ (C9 t')).
Qed.

Lemma link_inv c l t idx old :
  pinv c l → at_pc c t = FreeHave idx old →
  pinv (mkConf (mkPool (pl_head (pool c)) (<[idx := ti_index old]> (pl_freelist (pool c))))
          (<[t := FreeLinked idx old]> (pcs c)) (owned c) (ops c)) l.
Proof using Hcap.
  intros [C1 C2 C3 C4 C5 C6 C7 C8 C9] Ht. destruct (C5 t idx) as (Hv & Hnl & Hno); [by rewrite Ht|].
  assert (Hret : ∀ t', returning (aget Idle (<[t:=FreeLinked idx old]> (pcs c)) t') = returning (at_pc c t')).
  { intros t'. rewrite aget_insert. case_decide; [|done]. subst. by rewrite Ht. }
  split; cbn [pool pcs owned ops pl_head pl_freelist]; unfold at_pc; cbn [pcs]; try done.
  - by apply chain_frame.
  - intros t' j. rewrite Hret. apply C5.
  - intros t1 t2 j. rewrite !Hret. apply C6.
  - intros j Hj. destruct (C7 j Hj) as [?|[?|[t' Ht']]]; [by left|by right; left|]. right. right. exists t'. by rewrite Hret.
  - intros t'. rewrite aget_insert. case_decide as Hd.
    + destruct (C9 t) as [Hs _]. rewrite Ht in Hs. split; [exact Hs|]. cbn. by rewrite lookup_insert_eq.
    + destruct (C9 t') as [Hs Hx]. split; [exact Hs|]. fold (at_pc c t').
      destruct (at_pc c t') as [|o|o n|j o|j o] eqn:Et; try done; cbn [pool ops pl_freelist] in *.
      * destruct Hx as [Hne Hx]. split; [done|]. intros Hto. rewrite lookup_insert_ne; [by apply Hx|]. intros ->.
        destruct (Hs o eq_refl) as [_ Ho]. specialize (Ho Hto). subst o.
        destruct l as [|k l]; [by destruct C1|]. destruct C1 as (Ek & _). apply Hnl. rewrite Ek. by left.
      * rewrite lookup_insert_ne; [done|]. intros ->. apply Hd, (C6 t t' j); [by rewrite Ht|by rewrite Et].
Qed.

Lemma free_inv c l t idx :
  pinv c l → 0 ≤ ops c → at_pc c t = Idle → idx ∈ owned c →
  pinv (mkConf (pool c) (<[t := FreeHave idx (pl_head (pool c))]> (pcs c)) (owned c ∖ {[idx]}) (ops c)) l.
Proof using Hcap.
  intros Hi H0 Ht Hidx. pose proof (fresh_ok c l (FreeHave idx (pl_head (pool c))) Hi H0 eq_refl I) as Hfr.
  destruct Hi as [C1 C2 C3 C4 C5 C6 C7 C8 C9].
  assert (Hret : ∀ t' j, returning (aget Idle (<[t:=FreeHave idx (pl_head (pool c))]> (pcs c)) t') = Some j →
    (t' = t ∧ j = idx) ∨ (t' ≠ t ∧ returning (at_pc c t') = Some j)).
  { intros t' j. rewrite aget_insert. case_decide; [|by right]. intros [= <-]. by left. }
  split; cbn [pool pcs owned ops]; unfold at_pc; cbn [pcs]; try done.
  - intros j Hj. apply C4. set_solver.
  - intros t' j [[-> ->]|[Hne Hj]]%Hret.
    + destruct (C4 idx Hidx). split_and!; [done..|]. set_solver.
    + destruct (C5 t' j Hj) as (? & ? & ?). split_and!; [done..|]. set_solver.
  - intros t1 t2 j [[-> ->]|[Hn1 Hj1]]%Hret [[-> Hj]|[Hn2 Hj2]]%Hret; subst; try done.
    + by destruct (C5 t2 _ Hj2) as (_ & _ & []).
    + by destruct (C5 t1 _ Hj1) as (_ & _ & []).
    + by apply (C6 t1 t2 j).
  - intros j Hj. destruct (C7 j Hj) as [?|[Ho|[t' Ht']]]; [by left| |].
    + destruct (decide (j = idx)) as [->|]; [|right; left; set_solver]. right. right. exists t. by rewrite aget_insert_eq.
    + right. right. exists t'. rewrite aget_insert_ne; [done|]. intros <-. by rewrite Ht in Ht'.
  - intros t'. rewrite aget_insert. case_decide; [exact Hfr|]. exact (C9 t').
Qed.

(** ** Reachable states *)

Lemma new_freelist i : valid i →
  pl_freelist Pool_new !! i = Some (if decide (i = Capacity - 1) then kInvalidIndex else i + 1).
Proof using Hcap.
  unfold valid. intros Hi. cbn [Pool_new pl_freelist]. case_decide as Hd; [by rewrite Hd, lookup_insert_eq|].
  rewrite lookup_insert_ne by done. apply elem_of_list_to_map.
  - rewrite <- list_fmap_compose. erewrite list_fmap_ext; [rewrite list_fmap_id; apply NoDup_seqZ|]. done.
  - apply list_elem_of_fmap. exists i. split; [|apply elem_of_seqZ; lia]. f_equal. unfold u32. rewrite Z.mod_small; lia.
Qed.

Lemma new_chain n s : 0 ≤ s → s + Z.of_nat (S n) = Capacity → chain (pl_freelist Pool_new) s (seqZ s (Z.of_nat (S n))).
Proof using Hcap.
  revert s. induction n as [|n IH]; intros s Hs E; rewrite seqZ_cons by lia; cbn [chain]; (split; [done|]).
  - exists kInvalidIndex. split; [|by rewrite seqZ_nil by lia]. rewrite new_freelist by (unfold valid; lia).
    by rewrite decide_True by lia.
  - exists (s + 1). split; [rewrite new_freelist by (unfold valid; lia); by rewrite decide_False by lia|].
    replace (Z.pred (Z.of_nat (S (S n)))) with (Z.of_nat (S n)) by lia. change (Z.succ s) with (s + 1). apply IH; lia.
Qed.

Lemma new_inv : pinv (mkConf Pool_new ∅ ∅ 0) (seqZ 0 Capacity).
Proof using Hcap.
  split; unfold at_pc; cbn [pool pcs owned ops].
  - pose proof (new_chain (Z.to_nat (Capacity - 1)) 0) as H. replace (Z.of_nat (S (Z.to_nat (Capacity - 1)))) with Capacity in H by lia.
    apply H; lia.
  - apply NoDup_seqZ.
  - intros i Hi%elem_of_seqZ. unfold valid. lia.
  - set_solver.
  - done.
  - done.
  - intros i Hi. left. apply elem_of_seqZ. unfold valid in Hi. lia.
  - done.
  - intros t. by split.
Qed.

Lemma pstep_inv t c c' l : pstep t c c' → pinv c l → 0 ≤ ops c → ops c' < 2 ^ 32 → ∃ l', pinv c' l'.
Proof using Hcap.
  intros Hstep Hi H0 H1. pose proof (pi_local _ _ Hi t) as Hl.
  inversion Hstep as [? Ht|? old Ht Hn|? old n Ht Hn Hf|? old n p Ht Hx|? old n Ht|? idx Ht Hin|? idx old Ht Hlt|? idx old p Ht Hx|? idx old Ht];
    subst; cbn [ops] in H1.
  - exists l. apply goto_inv; [done|by rewrite Ht|by eapply fresh_ok].
  - exists l. apply goto_inv; [done|by rewrite Ht|by split].
  - exists l. apply goto_inv; [done|by rewrite Ht|]. rewrite Ht in Hl. destruct Hl as [Hl _]. split; [exact Hl|]. by split.
  - destruct (popped_inv c l t old n p Hi H0 H1 Ht Hx) as (l' & _ & H). by exists l'.
  - exists l. apply goto_inv; [done|by rewrite Ht|by eapply fresh_ok].
  - exists l. by apply free_inv.
  - exists l. by apply link_inv.
  - exists (idx :: l). by apply (pushed_inv c l t idx old p).
  - exists l. apply goto_inv; [done|by rewrite Ht|by eapply fresh_ok].
Qed.

Lemma ops_step t c c' : pstep t c c' → ops c ≤ ops c'.
Proof using Type. by destruct 1; cbn [ops goto]; lia. Qed.

Lemma preachable_inv c : preachable c → ops c < 2 ^ 32 → 0 ≤ ops c ∧ ∃ l, pinv c l.
Proof using Hcap.
  induction 1 as [|t c c' _ IH Hs]; intros Ho; [split; [done|]; eexists; apply new_inv|].
  pose proof (ops_step t c c' Hs). destruct IH as [H0 [l Hl]]; [lia|]. split; [lia|]. by eapply pstep_inv.
Qed.
End pool.

(** C21 (safety): the pool never hands out a block twice, whatever the interleaving.
    As long as fewer than 2^32 exchanges have succeeded: a block that a call of
    [allocate] returns is in range, is owned by nobody and is not being given back;
    every block is in the free list, owned, or being given back, and in only one of
    the three; and a call that finds the pool exhausted finds every block owned or
    being given back. *)
Theorem pool_never_shares_a_block Capacity t c c' :
  0 < Capacity < 2 ^ 32 → preachable Capacity c → pstep Capacity t c c' → ops c' < 2 ^ 32 →
  (∀ old n, at_pc c t = AllocNext old n → at_pc c' t = Idle →
     valid Capacity (ti_index old) ∧ ti_index old ∉ owned c ∧ owned c' = owned c ∪ {[ti_index old]} ∧
     ∀ t', returning (at_pc c t') ≠ Some (ti_index old)) ∧
  (∀ old, at_pc c t = Idle → at_pc c' t = AllocHave old → ti_index old = kInvalidIndex →
     ∀ i, valid Capacity i → i ∈ owned c ∨ ∃ t', returning (at_pc c t') = Some i) ∧
  ∃ free, chain (pl_freelist (pool c')) (ti_index (pl_head (pool c'))) free ∧ NoDup free ∧
    (∀ i, valid Capacity i → i ∈ free ∨ i ∈ owned c' ∨ ∃ t', returning (at_pc c' t') = Some i) ∧
    (∀ i, i ∈ free → i ∉ owned c' ∧ ∀ t', returning (at_pc c' t') ≠ Some i).
Proof.
  intros Hcap Hr Hs Ho. pose proof (ops_step Capacity t c c' Hs) as Hops.
  destruct (preachable_inv Capacity Hcap c Hr ltac:(lia)) as [H0 [l Hi]].
  destruct (preachable_inv Capacity Hcap c' (preach_step _ _ _ _ Hr Hs) Ho) as [_ [l' Hi']].
  split_and!.
  - intros old n Ht Ht'. inversion Hs as [? E|? ? E|? ? ? E|? o m p E Hx|? ? ? E|? ? E|? ? ? E|? ? ? ? E|? ? ? E]; subst;
      rewrite Ht in E; simplify_eq; unfold at_pc, goto in Ht'; cbn [pcs] in Ht'; rewrite ?aget_insert_eq in Ht'; try done.
    destruct (popped_inv Capacity Hcap c l t o m p Hi H0 Ho Ht Hx) as (l1 & -> & Hi1).
    split_and!; [apply (pi_valid _ _ _ Hi); by left..| |done|].
    + intros Hin. destruct (pi_owned _ _ _ Hi _ Hin) as [_ []]. by left.
    + intros t' Hret. destruct (pi_returning _ _ _ Hi t' _ Hret) as (_ & [] & _). by left.
  - intros old Ht Ht' Hn i Hv. inversion Hs as [? E|? ? E|? ? ? E|? ? ? ? E|? ? ? E|? ? E|? ? ? E|? ? ? ? E|? ? ? E]; subst;
      rewrite Ht in E; simplify_eq; unfold at_pc, goto in Ht'; cbn [pcs] in Ht'; rewrite ?aget_insert_eq in Ht'; simplify_eq.
    pose proof (pi_chain _ _ _ Hi) as Hc. destruct l as [|k l]; [|exfalso].
    + by destruct (pi_all _ _ _ Hi i Hv) as [?%elem_of_nil|].
    + destruct Hc as [Hk _]. pose proof (pi_valid _ _ _ Hi k ltac:(by left)) as Hvk. unfold valid in Hvk.
      rewrite Hn in Hk. unfold kInvalidIndex in Hk. lia.
  - exists l'. split_and!; [apply Hi'..|]. intros i Hin. split.
    + intros Hown. by destruct (pi_owned _ _ _ Hi' i Hown).
    + intros t' Hret. by destruct (pi_returning _ _ _ Hi' t' i Hret) as (_ & ? & _).
Qed.

Definition demo_conf : conf :=
  goto (goto (mkConf (Pool_new 2) ∅ ∅ 0) 1 (AllocHave (mkTagged 0 0))) 1 (AllocNext (mkTagged 0 0) 1).

Lemma demo_conf_reachable : preachable 2 demo_conf.
Proof.
  eapply (preach_step 2 1); [|by apply step_read]. eapply (preach_step 2 1); [apply preach_init|]. by apply step_alloc.
Qed.

Lemma pool_never_shares_a_block_witness :
  ∃ c', pstep 2 1 demo_conf c' ∧ valid 2 0 ∧ owned c' = ∅ ∪ {[0]}.
Proof.
  destruct (compare_exchange (pool demo_conf) (mkTagged 0 0) (popped (mkTagged 0 0) 1)) as [p|] eqn:E; [|discriminate E].
  pose proof (step_popped 2 1 demo_conf (mkTagged 0 0) 1 p eq_refl E) as Hs. eexists. split; [exact Hs|].
  destruct (pool_never_shares_a_block 2 1 demo_conf _ ltac:(lia) demo_conf_reachable Hs ltac:(cbn; lia)) as (H & _).
  destruct (H (mkTagged 0 0) 1 eq_refl eq_refl) as (Hv & _ & Ho & _). split; [exact Hv|exact Ho].
Defined.

(** ** Undisturbed calls

    [allocate] and [deallocate] are the runs of one thread that no other interrupts. *)

Definition psteps (Capacity t : Z) : conf → conf → Prop := rtc (pstep Capacity t).

Lemma allocate_runs Capacity t c p r :
  at_pc c t = Idle → allocate (pool c) = Some (p, r) →
  ∃ c', psteps Capacity t c c' ∧ pool c' = p ∧ at_pc c' t = Idle ∧
    owned c' = match r with Some i => owned c ∪ {[i]} | None => owned c end.
Proof.
  intros Ht. unfold allocate. set (old := pl_head (pool c)). set (c1 := goto c t (AllocHave old)).
  assert (Hs1 : pstep Capacity t c c1) by (by apply step_alloc).
  assert (Ht1 : at_pc c1 t = AllocHave old) by apply aget_insert_eq.
  destruct (Z.eqb_spec (ti_index old) kInvalidIndex) as [Hn|Hn].
  { intros [= <- <-]. exists (goto c1 t Idle). split_and!; [|done|apply aget_insert_eq|done].
    eapply rtc_l; [exact Hs1|]. apply rtc_once. by apply (step_exhausted _ t c1 old). }
  destruct (pl_freelist (pool c) !! ti_index old) as [n|] eqn:En; cbn [mbind option_bind]; [|done].
  destruct (compare_exchange _ _ _) as [p'|] eqn:Ex; cbn [mbind option_bind]; [|done]. intros [= <- <-].
  set (c2 := goto c1 t (AllocNext old n)). eexists. split_and!.
  - eapply rtc_l; [exact Hs1|]. eapply rtc_l; [by apply (step_read Capacity t c1 old n)|].
    apply rtc_once. apply (step_popped Capacity t c2 old n p'); [apply aget_insert_eq|done].
  - done.
  - apply aget_insert_eq.
  - done.
Qed.

Lemma deallocate_runs Capacity t c idx p :
  at_pc c t = Idle → idx ∈ owned c → idx < Capacity → deallocate Capacity (pool c) idx = Some p →
  ∃ c', psteps Capacity t c c' ∧ pool c' = p ∧ at_pc c' t = Idle ∧ owned c' = owned c ∖ {[idx]}.
Proof.
  intros Ht Hin Hlt. unfold deallocate. rewrite (proj2 (Z.leb_gt _ _)) by done. intros Ex.
  eexists. split_and!.
  - eapply rtc_l; [by apply (step_free Capacity t c idx)|]. eapply rtc_l.
    { apply (step_link Capacity t _ idx (pl_head (pool c))); [apply aget_insert_eq|done]. }
    apply rtc_once. eapply step_pushed; [apply aget_insert_eq|exact Ex].
  - done.
  - apply aget_insert_eq.
  - done.
Qed.

(** A pointer to the start of a block gives back its index. *)
Lemma block_index_start node_size i :
  0 < node_size → 0 ≤ i < 2 ^ 32 → i * node_size < 2 ^ 63 → block_index node_size (i * node_size) = i.
Proof.
  intros Hs Hi Hd. unfold block_index, u32, u64. rewrite (Z.mod_small (i * node_size)) by nia.
  rewrite Z.div_mul by lia. apply Z.mod_small. lia.
Qed.
