(* ===== verification/Auction.v ===== *)
(** * Auction: the opening and closing cross (src/luv_auction.hpp)

    The indicative match price is the price that pairs the most volume, and among
    those the least imbalance.  The order array is a list of [kMaxAuctionOrders]
    entries; the sums of quantities are [int64_t] and checked. *)

From S2P Require Import Prelude Arena Risk.
From Stdlib Require Import ZArith Lia Sorted.
From stdpp Require Import base tactics gmap numbers option sorting list.
Open Scope Z_scope.

Inductive AuctionPhase := kContinuous | kPreOpen | kOpeningAuction | kClosingAuction | kVolatilityHalt.
Inductive ImbalanceSide := kNone | kBuyImbalance | kSellImbalance.

Record AuctionOrder := mkAuctionOrder {
  aq_order_id : Z;
  aq_symbol_idx : Z;
  aq_side : Z;
  aq_price : Z;
  aq_qty : Z;
  aq_is_market : bool;
  aq_active : bool
}.

Definition AuctionOrder_init : AuctionOrder := mkAuctionOrder 0 0 kBuy 0 0 false false.

Record NoiiSnapshot := mkNoii {
  noii_symbol_idx : Z;
  indicative_match_price : Z;
  paired_qty : Z;
  imbalance_qty : Z;
  imbalance_side : ImbalanceSide;
  far_price : Z;
  near_price : Z
}.

Definition kMaxAuctionOrders : Z := 2048.

Record AuctionCrossEngine := mkAuction { au_orders : list AuctionOrder; au_order_count : Z }.

Definition AuctionCrossEngine_new : AuctionCrossEngine :=
  mkAuction (replicate (Z.to_nat kMaxAuctionOrders) AuctionOrder_init) 0.

Definition add_auction_order (e : AuctionCrossEngine) (order_id symbol_idx side price qty : Z) (is_market : bool)
    : AuctionCrossEngine * bool :=
  if (kMaxAuctionOrders <=? au_order_count e) || (qty <=? 0) then (e, false) else
  match first_index (λ o, negb (aq_active o)) (au_orders e) with
  | None => (e, false)
  | Some i =>
      (mkAuction (<[i := mkAuctionOrder order_id symbol_idx side (if is_market then 0 else price) qty is_market true]>
                    (au_orders e)) (au_order_count e + 1), true)
  end.

Definition auction_reset (e : AuctionCrossEngine) : AuctionCrossEngine :=
  mkAuction ((λ o, mkAuctionOrder (aq_order_id o) (aq_symbol_idx o) (aq_side o) (aq_price o) (aq_qty o) (aq_is_market o)
                     false) <$> au_orders e) 0.

(** ** compute_noii *)

Definition of_symbol (sym : Z) (o : AuctionOrder) : bool := aq_active o && (aq_symbol_idx o =? sym).

(** The distinct limit prices, in order of first appearance. *)
Definition collect_prices (sym : Z) (os : list AuctionOrder) : list Z :=
  foldl (λ levels o,
    if of_symbol sym o && negb (aq_is_market o) then
      if existsb (Z.eqb (aq_price o)) levels then levels else levels ++ [aq_price o]
    else levels) [] os.

Definition buys_at (p : Z) (o : AuctionOrder) : bool := (aq_side o =? kBuy) && (aq_is_market o || (p <=? aq_price o)).
Definition sells_at (p : Z) (o : AuctionOrder) : bool := negb (aq_side o =? kBuy) && (aq_is_market o || (aq_price o <=? p)).

(** The volumes willing to trade at [p]. *)
Fixpoint volumes (sym p : Z) (os : list AuctionOrder) (buy_vol sell_vol : Z) : option (Z * Z) :=
  match os with
  | [] => Some (buy_vol, sell_vol)
  | o :: os' =>
      if negb (of_symbol sym o) then volumes sym p os' buy_vol sell_vol else
      if buys_at p o then b ← chk64 (buy_vol + aq_qty o); volumes sym p os' b sell_vol
      else if sells_at p o then s ← chk64 (sell_vol + aq_qty o); volumes sym p os' buy_vol s
      else volumes sym p os' buy_vol sell_vol
  end.

(** The loop over the sorted prices. *)
Fixpoint best_match (sym : Z) (os : list AuctionOrder) (prices : list Z) (best_price max_paired min_imbalance : Z)
    : option Z :=
  match prices with
  | [] => Some best_price
  | test_p :: prices' =>
      '(buy_vol, sell_vol) ← volumes sym test_p os 0 0;
      let paired := Z.min buy_vol sell_vol in
      let imbalance := Z.abs (buy_vol - sell_vol) in
      if (max_paired <? paired) || ((paired =? max_paired) && (imbalance <? min_imbalance))
      then best_match sym os prices' test_p paired imbalance
      else best_match sym os prices' best_price max_paired min_imbalance
  end.

Definition compute_noii (e : AuctionCrossEngine) (sym reference_price : Z) : option NoiiSnapshot :=
  let os := au_orders e in
  let levels := collect_prices sym os in
  if (length levels =? 0)%nat then Some (mkNoii sym reference_price 0 0 kNone 0 0) else
  best_price ← best_match sym os (merge_sort Z.le levels) reference_price 0 INT64_MAX;
  '(total_buy, total_sell) ← volumes sym best_price os 0 0;
  Some (mkNoii sym best_price (Z.min total_buy total_sell) (Z.abs (total_buy - total_sell))
          (if total_sell <? total_buy then kBuyImbalance else if total_buy <? total_sell then kSellImbalance else kNone) 0 0).

(** ** What an auction should find

    The orders that want to trade at a price, said without the code, and their volumes. *)

Definition total_of (f : AuctionOrder → bool) (os : list AuctionOrder) : Z :=
  foldr (λ o a, (if f o then aq_qty o else 0) + a) 0 os.

Definition buyer (sym p : Z) (o : AuctionOrder) : Prop :=
  aq_active o = true ∧ aq_symbol_idx o = sym ∧ aq_side o = kBuy ∧ (aq_is_market o = true ∨ p ≤ aq_price o).
Definition seller (sym p : Z) (o : AuctionOrder) : Prop :=
  aq_active o = true ∧ aq_symbol_idx o = sym ∧ aq_side o ≠ kBuy ∧ (aq_is_market o = true ∨ aq_price o ≤ p).
#[export] Instance buyer_dec sym p o : Decision (buyer sym p o).
Proof. unfold buyer. solve_decision. Defined.
#[export] Instance seller_dec sym p o : Decision (seller sym p o).
Proof. unfold seller. solve_decision. Defined.

Definition buy_at (sym p : Z) (os : list AuctionOrder) : Z := total_of (λ o, bool_decide (buyer sym p o)) os.
Definition sell_at (sym p : Z) (os : list AuctionOrder) : Z := total_of (λ o, bool_decide (seller sym p o)) os.
Definition paired_at (sym p : Z) (os : list AuctionOrder) : Z := Z.min (buy_at sym p os) (sell_at sym p os).
Definition imbalance_at (sym p : Z) (os : list AuctionOrder) : Z := Z.abs (buy_at sym p os - sell_at sym p os).

(** A price some limit order of the symbol names. *)
Definition limit_price (sym : Z) (os : list AuctionOrder) (p : Z) : Prop :=
  ∃ o, o ∈ os ∧ aq_active o = true ∧ aq_symbol_idx o = sym ∧ aq_is_market o = false ∧ aq_price o = p.

Lemma total_of_ext f f' os : (∀ o, f o = f' o) → total_of f os = total_of f' os.
Proof. intros E. unfold total_of. induction os as [|o os IH]; [done|]. cbn [foldr]. by rewrite E, IH. Qed.

Lemma buyer_code sym p o : bool_decide (buyer sym p o) = of_symbol sym o && buys_at p o.
Proof.
  apply eq_true_iff_eq. unfold of_symbol, buys_at, buyer. rewrite bool_decide_eq_true, !andb_true_iff, orb_true_iff, !Z.eqb_eq, Z.leb_le. tauto.
Qed.

Lemma seller_code sym p o : bool_decide (seller sym p o) = of_symbol sym o && sells_at p o.
Proof.
  apply eq_true_iff_eq. unfold of_symbol, sells_at, seller. rewrite bool_decide_eq_true, !andb_true_iff, orb_true_iff, negb_true_iff, !Z.eqb_eq, Z.eqb_neq, Z.leb_le. tauto.
Qed.

Lemma buy_at_code sym p os : buy_at sym p os = total_of (λ o, of_symbol sym o && buys_at p o) os.
Proof. apply total_of_ext, buyer_code. Qed.

Lemma sell_at_code sym p os : sell_at sym p os = total_of (λ o, of_symbol sym o && sells_at p o) os.
Proof. apply total_of_ext, seller_code. Qed.

Lemma limit_price_code sym os p : limit_price sym os p ↔ ∃ o, o ∈ os ∧ of_symbol sym o = true ∧ aq_is_market o = false ∧ aq_price o = p.
Proof. unfold limit_price, of_symbol. setoid_rewrite andb_true_iff. setoid_rewrite Z.eqb_eq. naive_solver. Qed.

Lemma total_of_mono f f' os :
  Forall (λ o, f o = true → 0 ≤ aq_qty o ∧ f' o = true) os → Forall (λ o, f' o = true → 0 ≤ aq_qty o) os →
  0 ≤ total_of f os ≤ total_of f' os.
Proof.
  induction os as [|o os IH]; intros H H'; [done|]. apply Forall_cons in H as [Ho H]. apply Forall_cons in H' as [Ho' H'].
  destruct (IH H H'). cbn [total_of foldr]. fold (total_of f os) (total_of f' os).
  destruct (f o); [destruct (Ho eq_refl) as [? ->]; lia|]. destruct (f' o); [specialize (Ho' eq_refl)|]; lia.
Qed.

Lemma greatest_below p (l : list Z) :
  Exists (λ q, q ≤ p) l → ∃ q, q ∈ l ∧ q ≤ p ∧ ∀ q', q' ∈ l → q' ≤ p → q' ≤ q.
Proof.
  induction l as [|x l IH]; intros He; [by apply Exists_nil in He|]. destruct (decide (Exists (λ q, q ≤ p) l)) as [Hx|Hx].
  - destruct (IH Hx) as (q & Hq & Hqp & Hmax). destruct (decide (x ≤ p ∧ q < x)) as [[Hxp Hqx]|Hno].
    + exists x. split_and!; [by left|done|]. intros q' [->|Hq']%elem_of_cons Hp; [lia|]. specialize (Hmax q' Hq' Hp). lia.
    + exists q. split_and!; [by right|done|]. intros q' [->|Hq']%elem_of_cons Hp; [lia|by apply Hmax].
  - apply Exists_cons in He as [He|He]; [|done]. exists x. split_and!; [by left|done|].
    intros q' [->|Hq']%elem_of_cons Hp; [lia|]. destruct Hx. apply Exists_exists. by exists q'.
Qed.

Lemma least_of (l : list Z) : l ≠ [] → ∃ q, q ∈ l ∧ ∀ q', q' ∈ l → q ≤ q'.
Proof.
  induction l as [|x [|y l] IH]; intros Hne; [done| |].
  - exists x. split; [by left|]. intros q' [->|[]%elem_of_nil]%elem_of_cons. lia.
  - destruct IH as (q & Hq & Hmin); [done|]. destruct (decide (x ≤ q)).
    + exists x. split; [by left|]. intros q' [->|Hq']%elem_of_cons; [lia|]. specialize (Hmin q' Hq'). lia.
    + exists q. split; [by right|]. intros q' [->|Hq']%elem_of_cons; [lia|by apply Hmin].
Qed.

Section cross.
Context (sym : Z) (os : list AuctionOrder) (Hpos : Forall (λ o, aq_active o = true → 0 < aq_qty o) os).
Notation buy p := (buy_at sym p os).
Notation sell p := (sell_at sym p os).
Notation paired p := (paired_at sym p os).
Notation imbalance p := (imbalance_at sym p os).

Lemma symbol_qty : Forall (λ o, of_symbol sym o = true → 0 < aq_qty o) os.
Proof using Hpos.
  eapply Forall_impl; [exact Hpos|]. intros o Ho [Ha _]%andb_true_iff. auto.
Qed.

Lemma part_le f f' :
  (∀ o, o ∈ os → of_symbol sym o = true → f o = true → f' o = true) →
  0 ≤ total_of (λ o, of_symbol sym o && f o) os ≤ total_of (λ o, of_symbol sym o && f' o) os.
Proof using Hpos.
  intros H. apply total_of_mono; apply Forall_forall; intros o Hin;
    pose proof (proj1 (Forall_forall _ _) symbol_qty o Hin) as Hq; intros [Hs Hf]%andb_true_iff; specialize (Hq Hs).
  - split; [lia|]. apply andb_true_iff. auto.
  - lia.
Qed.

Lemma buy_antitone p q : p ≤ q → 0 ≤ buy q ≤ buy p.
Proof using Hpos.
  intros Hpq. rewrite !buy_at_code. apply part_le. intros o _ _. unfold buys_at. rewrite !andb_true_iff, !orb_true_iff, !Z.leb_le. intuition lia.
Qed.

Lemma sell_monotone p q : p ≤ q → 0 ≤ sell p ≤ sell q.
Proof using Hpos.
  intros Hpq. rewrite !sell_at_code. apply part_le. intros o _ _. unfold sells_at. rewrite !andb_true_iff, !orb_true_iff, !Z.leb_le. intuition lia.
Qed.

Lemma volumes_from p l b s :
  Forall (λ o, of_symbol sym o = true → 0 < aq_qty o) l → 0 ≤ b ≤ INT64_MAX → 0 ≤ s ≤ INT64_MAX →
  0 ≤ buy_at sym p l ∧ 0 ≤ sell_at sym p l ∧
  volumes sym p l b s = if bool_decide (b + buy_at sym p l ≤ INT64_MAX ∧ s + sell_at sym p l ≤ INT64_MAX)
                        then Some (b + buy_at sym p l, s + sell_at sym p l) else None.
Proof using Type.
  rewrite buy_at_code, sell_at_code. intros Hq. revert b s.
  induction Hq as [|o l Ho _ IH]; intros b s Hb Hs; unfold total_of in *; cbn [volumes foldr] in *.
  { split_and!; [done|done|]. rewrite !Z.add_0_r, bool_decide_eq_true_2 by lia. done. }
  set (B := foldr _ 0 l) in *. set (S := foldr _ 0 l) in *.
  destruct (of_symbol sym o); cbn [negb andb]; [|rewrite !Z.add_0_l; by apply IH].
  specialize (Ho eq_refl). assert (Hxor : buys_at p o = true → sells_at p o = false) by (unfold buys_at, sells_at; by destruct (aq_side o =? kBuy)).
  destruct (buys_at p o); [rewrite (Hxor eq_refl)|destruct (sells_at p o)]; rewrite ?Z.add_0_l.
  - destruct (IH b s Hb Hs) as (HB & HS & _). split_and!; [lia|done|]. destruct (Z.le_gt_cases (b + aq_qty o) INT64_MAX).
    + rewrite chk64_ok by (unfold INT64_MIN; lia). cbn [mbind option_bind]. destruct (IH (b + aq_qty o) s) as (_ & _ & ->); [lia..|]. by rewrite !Z.add_assoc.
    + unfold chk64. rewrite (proj2 (Z.leb_gt (b + aq_qty o) _)), andb_false_r, bool_decide_eq_false_2 by lia. done.
  - destruct (IH b s Hb Hs) as (HB & HS & _). split_and!; [done|lia|]. destruct (Z.le_gt_cases (s + aq_qty o) INT64_MAX).
    + rewrite chk64_ok by (unfold INT64_MIN; lia). cbn [mbind option_bind]. destruct (IH b (s + aq_qty o)) as (_ & _ & ->); [lia..|]. by rewrite !Z.add_assoc.
    + unfold chk64. rewrite (proj2 (Z.leb_gt (s + aq_qty o) _)), andb_false_r, bool_decide_eq_false_2 by lia. done.
  - by apply IH.
Qed.

(** A price has volumes exactly when both fit. *)
Lemma volumes_spec p : 0 ≤ buy p ∧ 0 ≤ sell p ∧
  volumes sym p os 0 0 = if bool_decide (buy p ≤ INT64_MAX ∧ sell p ≤ INT64_MAX) then Some (buy p, sell p) else None.
Proof using Hpos. apply (volumes_from p os 0 0); [apply symbol_qty|unfold INT64_MAX; lia..]. Qed.

(** ** The price levels *)

Lemma collect_prices_spec p : p ∈ collect_prices sym os ↔ limit_price sym os p.
Proof using Type.
  rewrite limit_price_code. unfold collect_prices. assert (H : ∀ l levels,
    p ∈ foldl (λ levels o, if of_symbol sym o && negb (aq_is_market o) then
      if existsb (Z.eqb (aq_price o)) levels then levels else levels ++ [aq_price o] else levels) levels l ↔
    p ∈ levels ∨ ∃ o, o ∈ l ∧ of_symbol sym o = true ∧ aq_is_market o = false ∧ aq_price o = p).
  { induction l as [|o l IH]; intros levels; cbn [foldl].
    - split; [by left|]. intros [?|(o & Ho%elem_of_nil & _)]; done.
    - rewrite IH. clear IH. setoid_rewrite elem_of_cons. destruct (of_symbol sym o) eqn:Es, (aq_is_market o) eqn:Em; cbn [negb andb].
      1,3,4: split; [intros [Hp|(x & Hx & Hr)]; [by left|right; exists x; by split; [right|]]|
               intros [Hp|(x & [->|Hx] & Hr)]; [by left|by destruct Hr as (? & ? & _); congruence|right; by exists x]].
      destruct (existsb (Z.eqb (aq_price o)) levels) eqn:Ex.
      + apply existsb_exists in Ex as (q & Hq & Hpq%Z.eqb_eq). apply list_elem_of_In in Hq. subst q.
        split; [intros [?|(x & ?)]; [by left|right; naive_solver]|].
        intros [?|(x & [->|?] & ? & ? & <-)]; [by left|by left|right; naive_solver].
      + rewrite elem_of_app, list_elem_of_singleton. split.
        * intros [[?| ->]|(x & ?)]; [by left|right; by exists o; naive_solver|right; naive_solver].
        * intros [?|(x & [->|?] & ? & ? & <-)]; [by left; left|by left; right|right; naive_solver]. }
  rewrite H. split; [intros [?%elem_of_nil|?]; done|by right].
Qed.

(** Some listed price pairs as much as any price at all. *)
Lemma listed_price_dominates p levels :
  levels ≠ [] → (∀ q, q ∈ levels ↔ limit_price sym os q) → ∃ q, q ∈ levels ∧ paired p ≤ paired q.
Proof using Hpos.
  intros Hne Hlev.
  destruct (decide (Exists (λ q, q ≤ p) levels)) as [He|He].
  - assert (∃ q, q ∈ levels ∧ q ≤ p ∧ ∀ q', q' ∈ levels → q' ≤ p → q' ≤ q) as (q & Hq & Hqp & Hmax).
    { by apply greatest_below. }
    exists q. split; [done|]. unfold paired_at. assert (sell p ≤ sell q).
    { rewrite !sell_at_code. apply part_le. intros o Hin Hs. unfold sells_at. rewrite !andb_true_iff, !orb_true_iff, !Z.leb_le.
      intros [Hsd [Hm|Hp]]; split; auto. destruct (aq_is_market o) eqn:Em; [by left|]. right. apply Hmax; [|done].
      apply Hlev, limit_price_code. by exists o. }
    pose proof (buy_antitone q p Hqp). lia.
  - assert (Hnone : ∀ q, q ∈ levels → p < q).
    { intros q Hq. apply Z.nle_gt. intros Hle. apply He, Exists_exists. by exists q. }
    assert (∃ q, q ∈ levels ∧ ∀ q', q' ∈ levels → q ≤ q') as (q & Hq & Hmin).
    { by apply least_of. }
    exists q. split; [done|]. unfold paired_at. assert (buy p ≤ buy q).
    { rewrite !buy_at_code. apply part_le. intros o Hin Hs. unfold buys_at. rewrite !andb_true_iff, !orb_true_iff, !Z.leb_le.
      intros [Hsd [Hm|Hp]]; split; auto. destruct (aq_is_market o) eqn:Em; [by left|]. right. apply Hmin, Hlev, limit_price_code. by exists o. }
    pose proof (sell_monotone p q ltac:(specialize (Hnone q Hq); lia)). lia.
Qed.

(** ** The search *)

(** Fewer paired, or as many with more imbalance. *)
Definition worse (x y : Z * Z) : Prop := x.1 < y.1 ∨ (x.1 = y.1 ∧ y.2 < x.2).
Definition score (p : Z) : Z * Z := (paired p, imbalance p).

Lemma best_match_spec prices best P I :
  (∀ q, q ∈ prices → buy q < INT64_MAX ∧ sell q < INT64_MAX) → StronglySorted Z.lt prices →
  ∃ r, best_match sym os prices best P I = Some r ∧
    ((r = best ∧ ∀ q, q ∈ prices → ¬ worse (P, I) (score q)) ∨
     (r ∈ prices ∧ worse (P, I) (score r) ∧ (∀ q, q ∈ prices → ¬ worse (score r) (score q)) ∧
      ∀ q, q ∈ prices → q < r → worse (score q) (score r))).
Proof using Hpos.
  intros Hfit Hs. revert best P I. induction Hs as [|p prices Hs IH Hp]; intros best P I.
  { exists best. split; [done|]. left. split; [done|]. by intros q ?%elem_of_nil. }
  specialize (IH (λ q Hq, Hfit q (list_elem_of_further q p prices Hq))). destruct (Hfit p ltac:(by left)) as [Hb Hsl].
  cbn [best_match]. destruct (volumes_spec p) as (_ & _ & ->). rewrite bool_decide_eq_true_2 by lia. cbn [mbind option_bind]. change (Z.min (buy p) (sell p)) with (paired p).
  change (Z.abs (buy p - sell p)) with (imbalance p). rewrite Forall_forall in Hp.
  destruct ((P <? paired p) || ((paired p =? P) && (imbalance p <? I))) eqn:Hbp.
  - assert (Hw : worse (P, I) (score p)).
    { rewrite orb_true_iff, andb_true_iff, !Z.ltb_lt, Z.eqb_eq in Hbp. unfold worse, score. simpl. lia. }
    destruct (IH p (paired p) (imbalance p)) as (r & Hr & Hc). exists r. split; [done|]. right. fold (score p) in Hc.
    destruct Hc as [[-> Hbest]|(Hin & Hwr & Hbest & Hlow)].
    + split_and!; [by left|done| |].
      * intros q [->|Hq]%elem_of_cons; [unfold worse; lia|by apply Hbest].
      * intros q [->|Hq]%elem_of_cons Hlt; [lia|]. specialize (Hp q Hq). lia.
    + split_and!; [by right|unfold worse in *; simpl in *; lia| |].
      * intros q [->|Hq]%elem_of_cons; [unfold worse in *; lia|by apply Hbest].
      * intros q [->|Hq]%elem_of_cons Hlt; [done|by apply Hlow].
  - assert (Hw : ¬ worse (P, I) (score p)).
    { rewrite orb_false_iff, andb_false_iff, !Z.ltb_ge, Z.eqb_neq in Hbp. unfold worse, score. simpl. lia. }
    destruct (IH best P I) as (r & Hr & Hc). exists r. split; [done|].
    destruct Hc as [[-> Hbest]|(Hin & Hwr & Hbest & Hlow)]; [left|right].
    + split; [done|]. intros q [->|Hq]%elem_of_cons; [done|by apply Hbest].
    + split_and!; [by right|done| |].
      * intros q [->|Hq]%elem_of_cons; [unfold worse in *; lia|by apply Hbest].
      * intros q [->|Hq]%elem_of_cons Hlt; [unfold worse in *; lia|by apply Hlow].
Qed.

(** A price whose volumes overflow is met, whatever the search does before it. *)
Lemma best_match_overflows prices best P I q : q ∈ prices → volumes sym q os 0 0 = None → best_match sym os prices best P I = None.
Proof using Type.
  intros Hq E. revert best P I. induction Hq as [q prices|q p prices _ IH]; intros best P I; cbn [best_match]; [by rewrite E|].
  destruct (volumes sym p os 0 0) as [[b s]|]; [|done]. cbn [mbind option_bind]. case_cond; by apply IH.
Qed.

Lemma collect_prices_NoDup : NoDup (collect_prices sym os).
Proof using Type.
  unfold collect_prices. assert (H : ∀ l levels, NoDup levels → NoDup (foldl (λ levels o,
    if of_symbol sym o && negb (aq_is_market o) then
      if existsb (Z.eqb (aq_price o)) levels then levels else levels ++ [aq_price o] else levels) levels l)).
  { induction l as [|o l IH]; intros levels Hn; [done|]. cbn [foldl]. apply IH. case_cond; [|done].
    destruct (existsb _ _) eqn:Ex; [done|]. apply NoDup_app. split_and!; [done| |apply NoDup_singleton].
    intros q Hq ->%list_elem_of_singleton. assert (existsb (Z.eqb (aq_price o)) levels = true); [|congruence].
    apply existsb_exists. exists (aq_price o). split; [by apply list_elem_of_In|apply Z.eqb_refl]. }
  apply H, NoDup_nil_2.
Qed.

Lemma sorted_prices_strict : StronglySorted Z.lt (merge_sort Z.le (collect_prices sym os)).
Proof using Type.
  pose proof (StronglySorted_merge_sort Z.le (collect_prices sym os)) as Hs.
  assert (Hn : NoDup (merge_sort Z.le (collect_prices sym os))).
  { rewrite merge_sort_Permutation. apply collect_prices_NoDup. }
  revert Hs Hn. generalize (merge_sort Z.le (collect_prices sym os)) as l.
  induction l as [|x l IH]; intros Hs Hn; [constructor|]. apply NoDup_cons in Hn as [Hx Hn].
  apply StronglySorted_inv in Hs as [Hs Hle]. constructor; [by apply IH|]. apply Forall_forall. intros y Hy.
  rewrite Forall_forall in Hle. specialize (Hle y Hy). assert (x ≠ y) by (by intros ->). lia.
Qed.

Lemma match_price_spec reference :
  (∀ q, limit_price sym os q → buy q < INT64_MAX ∧ sell q < INT64_MAX) → collect_prices sym os ≠ [] →
  ∃ r, best_match sym os (merge_sort Z.le (collect_prices sym os)) reference 0 INT64_MAX = Some r ∧ limit_price sym os r ∧
    (∀ p, paired p ≤ paired r) ∧
    (∀ p, limit_price sym os p → paired p = paired r → imbalance r ≤ imbalance p) ∧
    (∀ p, limit_price sym os p → p < r → worse (score p) (score r)).
Proof using Hpos.
  intros Hfit Hne. assert (Hin : ∀ q, q ∈ merge_sort Z.le (collect_prices sym os) ↔ limit_price sym os q).
  { intros q. rewrite merge_sort_Permutation. apply collect_prices_spec. }
  destruct (best_match_spec (merge_sort Z.le (collect_prices sym os)) reference 0 INT64_MAX) as (r & Hr & Hc); [intros q Hq; by apply Hfit, Hin|apply sorted_prices_strict|].
  exists r. split; [done|].
  destruct Hc as [[_ Hbad]|(Hlim%Hin & _ & Hbest & Hlow)].
  - exfalso. destruct (collect_prices sym os) as [|q l] eqn:El; [done|]. apply (Hbad q).
    + rewrite merge_sort_Permutation. by left.
    + destruct (volumes_spec q) as (H1 & H2 & _), (Hfit q) as [H3 H4]; [apply collect_prices_spec; rewrite El; by left|]. unfold worse, score, paired_at, imbalance_at. simpl.
      destruct (decide (Z.min (buy q) (sell q) = 0)); [right; split; lia|left; lia].
  - split_and!; [done| | |].
    + intros p. destruct (listed_price_dominates p (collect_prices sym os) Hne) as (q & Hq & Hle).
      { intros q. apply collect_prices_spec. }
      apply collect_prices_spec, Hin in Hq. specialize (Hbest q Hq). unfold worse, score in Hbest. simpl in Hbest. lia.
    + intros p Hp%Hin Heq. specialize (Hbest p Hp). unfold worse, score in Hbest. simpl in Hbest. lia.
    + intros p Hp%Hin Hlt. by apply Hlow.
Qed.
End cross.

(** The engines that orders and resets lead to. *)
Inductive auction_reachable : AuctionCrossEngine → Prop :=
  | auction_start : auction_reachable AuctionCrossEngine_new
  | auction_added e id sym side price qty market : auction_reachable e → auction_reachable (add_auction_order e id sym side price qty market).1
  | auction_cleared e : auction_reachable e → auction_reachable (auction_reset e).

Lemma reachable_positive e : auction_reachable e → Forall (λ o, aq_active o = true → 0 < aq_qty o) (au_orders e).
Proof.
  induction 1 as [|e id sym side price qty market _ IH|e _ IH].
  - by apply Forall_replicate.
  - unfold add_auction_order. destruct (Z.leb_spec qty 0); [by rewrite orb_true_r|]. case_cond; [done|]. destruct (first_index _ _) as [i|]; [|done]. by apply Forall_insert.
  - cbn [auction_reset au_orders]. apply Forall_fmap, Forall_true. done.
Qed.

(** C23 (functional): the auction crosses at the best price.  After any sequence of
    orders and resets, if at every limit price of the symbol the volume of each side is
    below 2^63 - 1: when the symbol has a limit order, [compute_noii] returns a limit
    price at which no less volume pairs than at any price whatsoever, listed or not;
    among the limit prices that pair as much it has the least imbalance, and it is the
    lowest of those; the snapshot reports the paired volume, the imbalance and its side
    exactly.  Without a limit order it reports the reference price and pairs nothing.
    Nothing bounds the volumes, however: if at some limit price the volume of a side
    exceeds 2^63 - 1, the signed sum overflows. *)
Theorem auction_crosses_at_best_price e sym reference :
  auction_reachable e →
  let os := au_orders e in
  ((∃ p, limit_price sym os p ∧ (INT64_MAX < buy_at sym p os ∨ INT64_MAX < sell_at sym p os)) → compute_noii e sym reference = None) ∧
  ((∀ p, limit_price sym os p → buy_at sym p os < INT64_MAX ∧ sell_at sym p os < INT64_MAX) →
   ∃ n, compute_noii e sym reference = Some n ∧ noii_symbol_idx n = sym ∧
    let r := indicative_match_price n in
    ((∀ p, ¬ limit_price sym os p) → r = reference ∧ paired_qty n = 0 ∧ imbalance_qty n = 0 ∧ imbalance_side n = kNone) ∧
    ((∃ p, limit_price sym os p) → limit_price sym os r ∧ (∀ p, paired_at sym p os ≤ paired_at sym r os) ∧
      (∀ p, limit_price sym os p → paired_at sym p os = paired_at sym r os → imbalance_at sym r os ≤ imbalance_at sym p os) ∧
      (∀ p, limit_price sym os p → p < r → worse (score sym os p) (score sym os r)) ∧
      paired_qty n = paired_at sym r os ∧ imbalance_qty n = imbalance_at sym r os ∧
      (imbalance_side n = kBuyImbalance ↔ sell_at sym r os < buy_at sym r os) ∧
      (imbalance_side n = kSellImbalance ↔ buy_at sym r os < sell_at sym r os))).
Proof.
  intros Hpos%reachable_positive os. fold os in Hpos. unfold compute_noii. fold os. split.
  - intros (p & Hp & Hv). pose proof Hp as Hin. apply collect_prices_spec in Hin. destruct (collect_prices sym os) as [|q l] eqn:El; [by apply elem_of_nil in Hin|]. cbn [length Nat.eqb].
    rewrite (best_match_overflows sym os _ _ _ _ p); [done|by rewrite merge_sort_Permutation|]. destruct (volumes_spec sym os Hpos p) as (_ & _ & ->). by rewrite bool_decide_eq_false_2 by lia.
  - intros Hfit. destruct (Nat.eqb_spec (length (collect_prices sym os)) 0) as [Hl|Hl].
    + eexists. split; [done|]. split; [done|]. split; [done|]. intros (p & Hp%collect_prices_spec). apply nil_length_inv in Hl. rewrite Hl in Hp. by apply elem_of_nil in Hp.
    + destruct (match_price_spec sym os Hpos reference Hfit) as (r & -> & H1 & H2 & H3 & H4); [intros E; by rewrite E in Hl|].
      cbn [mbind option_bind]. destruct (volumes_spec sym os Hpos r) as (_ & _ & ->). destruct (Hfit r H1). rewrite bool_decide_eq_true_2 by lia. cbn [mbind option_bind]. eexists. split; [done|].
      split; [done|]. cbn [indicative_match_price paired_qty imbalance_qty imbalance_side]. split; [intros Hno; by destruct (Hno r)|]. intros _. split_and!; try done.
      * destruct (Z.ltb_spec (sell_at sym r os) (buy_at sym r os)); [done|]. case_cond; split; done || lia.
      * destruct (Z.ltb_spec (sell_at sym r os) (buy_at sym r os)); [split; done || lia|].
        destruct (Z.ltb_spec (buy_at sym r os) (sell_at sym r os)); split; done || lia.
Qed.

Definition demo_cross : AuctionCrossEngine :=
  let add e id side price qty market := fst (add_auction_order e id 7 side price qty market) in
  add (add (add (add AuctionCrossEngine_new 1 0 1010000 300 false) 2 1 1000000 200 false) 3 1 1005000 200 false) 4 0 0 50 true.

Lemma demo_cross_prices p : limit_price 7 (au_orders demo_cross) p ↔ p ∈ [1010000; 1000000; 1005000].
Proof. rewrite <- collect_prices_spec. assert (E : collect_prices 7 (au_orders demo_cross) = [1010000; 1000000; 1005000]) by (vm_compute; reflexivity). by rewrite E. Qed.

Lemma auction_crosses_at_best_price_witness :
  ∃ n, compute_noii demo_cross 7 999 = Some n ∧ indicative_match_price n = 1005000 ∧ paired_qty n = 350 ∧
    ∀ p, paired_at 7 p (au_orders demo_cross) ≤ 350.
Proof.
  destruct (auction_crosses_at_best_price demo_cross 7 999) as [_ H]; [repeat constructor|]. destruct H as (n & E & _ & _ & H).
  { intros p Hp%demo_cross_prices. repeat (apply elem_of_cons in Hp as [->|Hp]; [by vm_compute|]). by apply elem_of_nil in Hp. }
  destruct H as (_ & H & _ & _ & Hp & _); [exists 1010000; apply demo_cross_prices; by left|]. exists n. split; [exact E|].
  assert (Hn : compute_noii demo_cross 7 999 = Some (mkNoii 7 1005000 350 50 kSellImbalance 0 0)) by (vm_compute; reflexivity).
  rewrite E in Hn. injection Hn as ->. split; [reflexivity|]. split; [reflexivity|]. intros p. specialize (H p). rewrite <- Hp in H. exact H.
Defined.

(** Two orders are enough to overflow the volume of a side. *)
Theorem two_orders_overflow_the_auction :
  let e := (add_auction_order (add_auction_order AuctionCrossEngine_new 1 7 0 1000000 INT64_MAX false).1 2 7 0 1000000 1 false).1 in
  au_order_count e = 2 ∧ compute_noii e 7 999 = None.
Proof. by vm_compute. Qed.

(** ** The order table *)

(** The count is the number of active entries, so an order is refused only when its
    quantity is not positive or the table is full. *)
Definition auction_wf (e : AuctionCrossEngine) : Prop :=
  length (au_orders e) = Z.to_nat kMaxAuctionOrders ∧ au_order_count e = count_if aq_active (au_orders e).

Lemma add_auction_order_wf e id sym side price qty market :
  auction_wf e → let '(e', ok) := add_auction_order e id sym side price qty market in
    auction_wf e' ∧ (ok = true ↔ 0 < qty ∧ au_order_count e < kMaxAuctionOrders).
Proof.
  intros [Hl Hc]. unfold add_auction_order. destruct (Z.leb_spec kMaxAuctionOrders (au_order_count e)).
  { split; [done|]. split; [done|lia]. }
  destruct (Z.leb_spec qty 0); cbn [orb]; [split; [done|]; split; [done|lia]|].
  destruct (first_index _ (au_orders e)) as [i|] eqn:Ef.
  - apply first_index_Some in Ef as [(o & Ho & Ha%negb_true_iff) _]. split; [|done]. split; [cbn [au_orders]; by rewrite length_insert|].
    cbn [au_order_count au_orders]. rewrite (count_if_insert _ _ _ o) by done. rewrite Ha. simpl. lia.
  - apply first_index_None in Ef. rewrite count_if_full in Hc; [rewrite Hl in Hc; unfold kMaxAuctionOrders in *; lia|].
    eapply Forall_impl; [exact Ef|]. intros o Ho%negb_false_iff. done.
Qed.
