(* ===== verification/DarkPool.v ===== *)
(** * DarkPool: matching hidden and displayed interest (src/luv_dark_pool.hpp)

    An incoming order is matched in price, display, time priority.  [std::sort] is
    used on a strict weak order with possible ties and promises no order among
    them: it is a [Sorter], any function with its documented contract. *)

From S2P Require Import Prelude Arena Risk.
From Stdlib Require Import ZArith Lia Sorted.
From stdpp Require Import base tactics gmap numbers option sorting list.
Open Scope Z_scope.

Inductive DisplayMode := kDisplayed | kHidden | kMidpointPeg.

#[export] Instance DisplayMode_eq_dec : EqDecision DisplayMode.
Proof. solve_decision. Defined.

Record DarkOrder := mkDark {
  dk_order_id : Z;
  dk_firm_id : Z;
  dk_symbol_idx : Z;
  dk_side : Z;
  dk_display_mode : DisplayMode;
  dk_price : Z;
  dk_qty : Z;
  dk_min_qty : Z;
  dk_priority_ts_ns : Z;
  dk_active : bool
}.

Definition DarkOrder_init : DarkOrder := mkDark 0 0 0 kBuy kDisplayed 0 0 0 0 false.

Record MatchFill := mkMatch {
  mf_maker_order_id : Z;
  mf_taker_order_id : Z;
  mf_symbol_idx : Z;
  mf_match_price : Z;
  mf_match_qty : Z;
  mf_is_midpoint : bool
}.

Definition kMaxRestingOrders : Z := 1024.

Record DarkPoolEngine := mkDarkPool { dp_orders : list DarkOrder; dp_order_count : Z }.

Definition DarkPoolEngine_new : DarkPoolEngine :=
  mkDarkPool (replicate (Z.to_nat kMaxRestingOrders) DarkOrder_init) 0.

Definition dark_add_order (e : DarkPoolEngine) (order_id firm_id symbol_idx side : Z) (mode : DisplayMode)
    (price qty min_qty ts_ns : Z) : DarkPoolEngine * bool :=
  if (kMaxRestingOrders <=? dp_order_count e) || (qty <=? 0) then (e, false) else
  match first_index (λ o, negb (dk_active o)) (dp_orders e) with
  | None => (e, false)
  | Some i =>
      (mkDarkPool (<[i := mkDark order_id firm_id symbol_idx side mode price qty min_qty ts_ns true]> (dp_orders e))
         (dp_order_count e + 1), true)
  end.

(** A maker after [fill] of its quantity traded; inactive when nothing is left. *)
Definition reduce_dark (o : DarkOrder) (fill : Z) : DarkOrder :=
  mkDark (dk_order_id o) (dk_firm_id o) (dk_symbol_idx o) (dk_side o) (dk_display_mode o) (dk_price o) (dk_qty o - fill)
    (dk_min_qty o) (dk_priority_ts_ns o) (if dk_qty o - fill =? 0 then false else dk_active o).

Definition deactivate (o : DarkOrder) : DarkOrder :=
  mkDark (dk_order_id o) (dk_firm_id o) (dk_symbol_idx o) (dk_side o) (dk_display_mode o) (dk_price o) (dk_qty o)
    (dk_min_qty o) (dk_priority_ts_ns o) false.

Definition dark_cancel_order (e : DarkPoolEngine) (order_id : Z) : DarkPoolEngine * bool :=
  match first_index (λ o, dk_active o && (dk_order_id o =? order_id)) (dp_orders e) with
  | None => (e, false)
  | Some i => (mkDarkPool (alter deactivate i (dp_orders e)) (u64 (dp_order_count e - 1)), true)
  end.

(** ** match_cross *)

Definition effective_price (mid : Z) (o : DarkOrder) : Z :=
  if bool_decide (dk_display_mode o = kMidpointPeg) then mid else dk_price o.

Definition eligible (symbol_idx taker_firm_id taker_side taker_price mid : Z) (o : DarkOrder) : bool :=
  dk_active o && (dk_symbol_idx o =? symbol_idx) && negb (dk_side o =? taker_side) &&
  negb (dk_firm_id o =? taker_firm_id) &&
  (if taker_side =? kBuy then effective_price mid o <=? taker_price else taker_price <=? effective_price mid o).

Definition dark_less (taker_side mid : Z) (a b : DarkOrder) : bool :=
  let pa := effective_price mid a in
  let pb := effective_price mid b in
  if negb (pa =? pb) then if taker_side =? kBuy then pa <? pb else pb <? pa else
  let disp_a := if bool_decide (dk_display_mode a = kDisplayed) then 0 else 1 in
  let disp_b := if bool_decide (dk_display_mode b = kDisplayed) then 0 else 1 in
  if negb (disp_a =? disp_b) then disp_a <? disp_b else
  dk_priority_ts_ns a <? dk_priority_ts_ns b.

(** The comparison of two entries of the array by index. *)
Definition index_less (taker_side mid : Z) (os : list DarkOrder) (i j : nat) : bool :=
  match os !! i, os !! j with Some a, Some b => dark_less taker_side mid a b | _, _ => false end.

(** The loop over the sorted candidates: entries, count, remaining quantity, fills. *)
Fixpoint fill_candidates (cs : list nat) (os : list DarkOrder) (count remaining : Z) (slots : nat) (taker_id sym mid : Z)
    : option (list DarkOrder * Z * Z * list MatchFill) :=
  match cs with
  | [] => Some (os, count, remaining, [])
  | i :: cs' =>
      match slots with
      | O => Some (os, count, remaining, [])
      | S slots' =>
          if remaining <=? 0 then Some (os, count, remaining, []) else
          maker ← os !! i;
          let fill_qty := Z.min remaining (dk_qty maker) in
          if (0 <? dk_min_qty maker) && (fill_qty <? dk_min_qty maker)
          then fill_candidates cs' os count remaining slots taker_id sym mid
          else
            let fill := mkMatch (dk_order_id maker) taker_id sym (effective_price mid maker) fill_qty
                          (bool_decide (dk_display_mode maker = kMidpointPeg)) in
            let count := if dk_qty maker - fill_qty =? 0 then u64 (count - 1) else count in
            '(os, count, remaining, fills) ←
              fill_candidates cs' (<[i := reduce_dark maker fill_qty]> os) count (remaining - fill_qty) slots' taker_id sym mid;
            Some (os, count, remaining, fill :: fills)
      end
  end.

Section matching.
Context `{Sorter}.

Definition match_cross (e : DarkPoolEngine) (taker_order_id taker_firm_id symbol_idx taker_side taker_price taker_qty
    best_bid best_ask : Z) (max_fills : nat) : option (DarkPoolEngine * list MatchFill) :=
  if (max_fills =? 0)%nat || (taker_qty <=? 0) then Some (e, []) else
  sum ← chk64 (best_bid + best_ask);
  let mid := Z.quot sum 2 in
  let os := dp_orders e in
  let cs := filter (λ i, from_option (eligible symbol_idx taker_firm_id taker_side taker_price mid) false (os !! i))
              (seq 0 (length os)) in
  '(os, count, _, fills) ← fill_candidates (std_sort (index_less taker_side mid os) cs) os (dp_order_count e) taker_qty
                             max_fills taker_order_id symbol_idx mid;
  Some (mkDarkPool os count, fills).
End matching.

(** ** What a match should do

    The rules of the pool, said without the code: who may trade with the taker, and who
    stands before whom. *)

Definition resting_price (mid : Z) (o : DarkOrder) : Z :=
  match dk_display_mode o with kMidpointPeg => mid | _ => dk_price o end.

Record crosses (sym firm side price mid : Z) (o : DarkOrder) : Prop := mk_crosses {
  cr_active : dk_active o = true;
  cr_symbol : dk_symbol_idx o = sym;
  cr_side : dk_side o ≠ side;
  cr_firm : dk_firm_id o ≠ firm;
  cr_buy : side = kBuy → resting_price mid o ≤ price;
  cr_sell : side ≠ kBuy → price ≤ resting_price mid o
}.

(** A better price for the taker, then displayed, then earlier. *)
Inductive ahead (side mid : Z) (a b : DarkOrder) : Prop :=
  | ahead_buy : side = kBuy → resting_price mid a < resting_price mid b → ahead side mid a b
  | ahead_sell : side ≠ kBuy → resting_price mid b < resting_price mid a → ahead side mid a b
  | ahead_display : resting_price mid a = resting_price mid b →
      dk_display_mode a = kDisplayed → dk_display_mode b ≠ kDisplayed → ahead side mid a b
  | ahead_time : resting_price mid a = resting_price mid b →
      (dk_display_mode a = kDisplayed ↔ dk_display_mode b = kDisplayed) →
      dk_priority_ts_ns a < dk_priority_ts_ns b → ahead side mid a b.

Definition ahead_at (side mid : Z) (os : list DarkOrder) (i j : nat) : Prop :=
  ∃ a b, os !! i = Some a ∧ os !! j = Some b ∧ ahead side mid a b.

Definition fills_total (fs : list MatchFill) : Z := foldr (λ f a, mf_match_qty f + a) 0 fs.

(** What the taker still wants after the first [n] fills. *)
Definition left_after (qty : Z) (fs : list MatchFill) (n : nat) : Z := qty - fills_total (take n fs).

Definition fill_of (tid sym mid q : Z) (o : DarkOrder) : MatchFill :=
  mkMatch (dk_order_id o) tid sym (resting_price mid o) q (bool_decide (dk_display_mode o = kMidpointPeg)).

Definition traded (o : DarkOrder) (q : Z) : DarkOrder :=
  mkDark (dk_order_id o) (dk_firm_id o) (dk_symbol_idx o) (dk_side o) (dk_display_mode o) (dk_price o) (dk_qty o - q)
    (dk_min_qty o) (dk_priority_ts_ns o) (bool_decide (q < dk_qty o)).

(** ** Filling the candidates *)

Record filling (cs : list nat) (os : list DarkOrder) (rem : Z) (slots : nat) (tid sym mid : Z)
    (os' : list DarkOrder) (fs : list MatchFill) (taken : list nat) : Prop := mk_filling {
  fl_taken : taken `sublist_of` cs;
  fl_slots : (length fs ≤ slots)%nat;
  fl_length : length taken = length fs;
  fl_rest : 0 ≤ left_after rem fs (length fs);
  fl_fills : ∀ k i f, taken !! k = Some i → fs !! k = Some f → ∃ o, os !! i = Some o ∧
    let q := Z.min (left_after rem fs k) (dk_qty o) in
    0 < q ∧ dk_min_qty o ≤ q ∧ f = fill_of tid sym mid q o ∧ os' !! i = Some (traded o q);
  fl_same : ∀ i, i ∉ taken → os' !! i = os !! i;
  fl_missed : ∀ i, i ∈ cs → i ∉ taken → ∃ o l1 l2 n, os !! i = Some o ∧ cs = l1 ++ i :: l2 ∧ (n ≤ length fs)%nat ∧
    (∀ j, j ∈ take n taken → j ∈ l1) ∧ (∀ j, j ∈ drop n taken → j ∈ l2) ∧
    ((0 < left_after rem fs n ∧ Z.min (left_after rem fs n) (dk_qty o) < dk_min_qty o) ∨
     (n = length fs ∧ (left_after rem fs n = 0 ∨ length fs = slots)))
}.

Lemma left_after_0 rem fs : left_after rem fs 0 = rem.
Proof. unfold left_after. change (fills_total (take 0 fs)) with 0. lia. Qed.

Lemma left_after_cons rem f fs n : left_after rem (f :: fs) (S n) = left_after (rem - mf_match_qty f) fs n.
Proof. unfold left_after. cbn [take fills_total foldr]. fold (fills_total (take n fs)). lia. Qed.

Lemma effective_resting mid o : effective_price mid o = resting_price mid o.
Proof. unfold effective_price, resting_price. by destruct (dk_display_mode o). Qed.

Lemma reduce_traded o q : dk_active o = true → q ≤ dk_qty o → reduce_dark o q = traded o q.
Proof.
  intros Ha Hq. unfold reduce_dark, traded. f_equal. rewrite Ha. destruct (Z.eqb_spec (dk_qty o - q) 0); symmetry; [apply bool_decide_eq_false_2|apply bool_decide_eq_true_2]; lia.
Qed.

Lemma filling_stop cs os rem slots tid sym mid :
  (∀ i, i ∈ cs → is_Some (os !! i)) → 0 ≤ rem → rem ≤ 0 ∨ slots = O ∨ cs = [] → filling cs os rem slots tid sym mid os [] [].
Proof.
  intros Hcs Hr Hw. split; cbn [length]; try done; try lia; [apply sublist_nil_l|by rewrite left_after_0|].
  intros i Hi _. destruct (Hcs i Hi) as [o Ho]. apply list_elem_of_split in Hi as (l1 & l2 & ->). exists o, l1, l2, 0%nat. rewrite left_after_0.
  split_and!; try done; [by intros ? ?%elem_of_nil|by intros ? ?%elem_of_nil|]. right. split; [done|].
  destruct Hw as [Hw|[-> |E]]; [left; lia|by right|by destruct l1].
Qed.

Lemma filling_skip i cs os rem slots tid sym mid os' fs taken o :
  os !! i = Some o → 0 < rem → Z.min rem (dk_qty o) < dk_min_qty o →
  filling cs os rem slots tid sym mid os' fs taken → filling (i :: cs) os rem slots tid sym mid os' fs taken.
Proof.
  intros Ho Hr Hsmall [H1 H2 H3 H4 H5 H6 H7]. split; try done; [by apply sublist_cons|].
  intros k [->|Hk]%elem_of_cons Hnk.
  - exists o, [], cs, 0%nat. rewrite left_after_0, take_0, drop_0. split_and!; [done|done|lia|by intros ? ?%elem_of_nil| |by left].
    intros j Hj. by apply (elem_of_sublist _ _ _ Hj H1).
  - destruct (H7 k Hk Hnk) as (o' & l1 & l2 & n & Ho' & -> & Hn & Hb & Ha & Hc). exists o', (i :: l1), l2, n.
    split_and!; try done. intros j Hj. right. by apply Hb.
Qed.

Lemma filling_step i cs os rem slots tid sym mid os' fs taken o :
  i ∉ cs → os !! i = Some o → 0 < rem → 0 < dk_qty o → dk_min_qty o ≤ Z.min rem (dk_qty o) →
  let q := Z.min rem (dk_qty o) in
  filling cs (<[i := traded o q]> os) (rem - q) slots tid sym mid os' fs taken →
  filling (i :: cs) os rem (S slots) tid sym mid os' (fill_of tid sym mid q o :: fs) (i :: taken).
Proof.
  intros Hi Ho Hr Hq Hmin q [H1 H2 H3 H4 H5 H6 H7]. assert (Hqb : 0 < q) by (unfold q; lia).
  assert (Hin : ∀ k, k ∈ taken → k ≠ i ∧ k ∈ cs).
  { intros k Hk. pose proof (elem_of_sublist _ _ _ Hk H1). split; [by intros ->|done]. }
  assert (Hni : i ∉ taken) by (intros Hk; by apply Hin in Hk as []).
  split; cbn [length]; [by apply sublist_skip|lia|lia|by rewrite left_after_cons| | |].
  - intros [|k] j f Hj Hf; simplify_eq/=.
    + exists o. rewrite left_after_0. split; [done|]. cbv zeta. split_and!; [done|done|done|].
      rewrite H6 by done. apply list_lookup_insert_eq. by eapply lookup_lt_Some.
    + destruct (H5 k j f Hj Hf) as (o' & Ho' & Hrest). exists o'. rewrite left_after_cons. split; [|done].
      rewrite list_lookup_insert_ne in Ho'; [done|]. apply list_elem_of_lookup_2, Hin in Hj as [? _]. done.
  - intros k [Hki Hk]%not_elem_of_cons. rewrite H6 by done. by apply list_lookup_insert_ne.
  - intros k [->|Hk]%elem_of_cons Hnk; [by destruct Hnk; left|]. apply not_elem_of_cons in Hnk as [Hki Hnk].
    destruct (H7 k Hk Hnk) as (o' & l1 & l2 & n & Ho' & -> & Hn & Hb & Ha & Hc). exists o', (i :: l1), l2, (S n).
    rewrite list_lookup_insert_ne in Ho' by done. rewrite left_after_cons. cbn [take drop fill_of mf_match_qty].
    split_and!; [done|done|lia| |done|destruct Hc as [?|[-> Hc]]; [by left|right; split; [done|]; destruct Hc; [by left|right; lia]]].
    intros j [->|Hj]%elem_of_cons; [by left|right; by apply Hb].
Qed.

(** A resting order that can trade. *)
Definition tradable (os : list DarkOrder) (i : nat) : Prop := ∃ o, os !! i = Some o ∧ 0 < dk_qty o ∧ dk_active o = true.

Lemma fill_candidates_ok cs os count rem slots tid sym mid :
  NoDup cs → (∀ i, i ∈ cs → tradable os i) → 0 ≤ rem → 0 ≤ count < 2 ^ 64 → count = count_if dk_active os →
  ∃ os' rem' fs taken,
    fill_candidates cs os count rem slots tid sym mid = Some (os', count_if dk_active os', rem', fs) ∧
    length os' = length os ∧ filling cs os rem slots tid sym mid os' fs taken.
Proof.
  revert os count rem slots. induction cs as [|i cs IH]; intros os count rem slots Hn Hcs Hr Hc Hcount; cbn [fill_candidates].
  { exists os, rem, [], []. rewrite Hcount. split_and!; [done..|]. apply filling_stop; auto. by intros ? ?%elem_of_nil. }
  assert (Hsome : ∀ k, k ∈ i :: cs → is_Some (os !! k)) by (intros k (o & Ho & _)%Hcs; by exists o).
  destruct slots as [|slots]; [exists os, rem, [], []; rewrite Hcount; split_and!; [done..|]; apply filling_stop; auto|].
  destruct (Z.leb_spec rem 0) as [Hz|Hz]; [exists os, rem, [], []; rewrite Hcount; split_and!; [done..|]; apply filling_stop; auto|].
  apply NoDup_cons in Hn as [Hi Hn]. destruct (Hcs i ltac:(by left)) as (o & Ho & Hq & Ha). rewrite Ho. cbn [mbind option_bind].
  assert (Hcs' : ∀ k, k ∈ cs → tradable os k) by (intros k Hk; apply Hcs; by right).
  destruct ((0 <? dk_min_qty o) && (Z.min rem (dk_qty o) <? dk_min_qty o)) eqn:Hm.
  - apply andb_true_iff in Hm as [_ Hm%Z.ltb_lt].
    destruct (IH os count rem (S slots) Hn Hcs' Hr Hc Hcount) as (os' & rem' & fs & taken & E & Hl & Hf).
    exists os', rem', fs, taken. split_and!; [done..|]. by eapply filling_skip.
  - apply andb_false_iff in Hm. rewrite !Z.ltb_ge in Hm. set (q := Z.min rem (dk_qty o)) in *.
    rewrite (reduce_traded o q Ha ltac:(lia)), effective_resting. set (os1 := <[i := traded o q]> os) in *.
    assert (Hcount1 : (if dk_qty o - q =? 0 then u64 (count - 1) else count) = count_if dk_active os1).
    { unfold os1. rewrite (count_if_insert _ _ _ o), Ha by done. pose proof (count_if_pos dk_active os i o Ho Ha).
      cbn [traded dk_active]. destruct (Z.eqb_spec (dk_qty o - q) 0); [rewrite bool_decide_eq_false_2, u64_small by lia; lia|].
      rewrite bool_decide_eq_true_2 by lia. lia. }
    assert (Hlen : length os1 = length os) by apply length_insert.
    destruct (IH os1 (count_if dk_active os1) (rem - q) slots Hn) as (os' & rem' & fs & taken & E & Hl & Hf).
    + intros k Hk. destruct (Hcs' k Hk) as (o' & Ho' & ?). exists o'. unfold os1.
      by rewrite list_lookup_insert_ne by (by intros ->).
    + unfold q. lia.
    + rewrite <- Hcount1. case_cond; [|done]. apply Z.mod_pos_bound. lia.
    + done.
    + rewrite Hcount1, E. cbn [mbind option_bind]. exists os', rem', (fill_of tid sym mid q o :: fs), (i :: taken).
      split; [done|]. split; [by rewrite Hl|]. eapply filling_step; [done|done|done|done| |exact Hf]. fold q. lia.
Qed.

(** ** The order of candidates *)

(** The three-level key the comparison looks at. *)
Definition dark_key (taker_side mid : Z) (o : DarkOrder) : Z * Z * Z :=
  ((if taker_side =? kBuy then effective_price mid o else - effective_price mid o),
   (if bool_decide (dk_display_mode o = kDisplayed) then 0 else 1), dk_priority_ts_ns o).

Definition key_less (x y : Z * Z * Z) : Prop :=
  x.1.1 < y.1.1 ∨ (x.1.1 = y.1.1 ∧ (x.1.2 < y.1.2 ∨ (x.1.2 = y.1.2 ∧ x.2 < y.2))).

Lemma dark_less_key side mid a b : dark_less side mid a b = true ↔ key_less (dark_key side mid a) (dark_key side mid b).
Proof.
  unfold dark_less, key_less, dark_key. simpl. destruct (Z.eqb_spec (effective_price mid a) (effective_price mid b)) as [E|E]; cbn [negb].
  - rewrite E. set (da := if bool_decide (dk_display_mode a = kDisplayed) then 0 else 1).
    set (db := if bool_decide (dk_display_mode b = kDisplayed) then 0 else 1).
    destruct (Z.eqb_spec da db); cbn [negb]; rewrite Z.ltb_lt; destruct (side =? kBuy); lia.
  - destruct (side =? kBuy); rewrite Z.ltb_lt; lia.
Qed.

Lemma index_less_weak side mid os l : (∀ i, i ∈ l → is_Some (os !! i)) → strict_weak_on (index_less side mid os) l.
Proof.
  intros Hl a b c [oa Ha]%Hl [ob Hb]%Hl [oc Hc]%Hl. unfold index_less. rewrite Ha, Hb, Hc.
  rewrite <- not_true_iff_false, !dark_less_key. unfold key_less. lia.
Qed.

Lemma dark_less_ahead side mid a b : dark_less side mid a b = true ↔ ahead side mid a b.
Proof.
  rewrite dark_less_key. unfold key_less, dark_key. cbn [fst snd]. rewrite !effective_resting.
  destruct (Z.eqb_spec side kBuy) as [Hs|Hs]; case_bool_decide; case_bool_decide; split;
    (intros [Hk|[Hk [Hd|[Hd Ht]]]]; try lia;
     first [apply ahead_buy; [done|lia] | apply ahead_sell; [done|lia] | apply ahead_display; [lia|done|done] | apply ahead_time; [lia|tauto|done]])
    || (intros []; try done; first [lia | tauto | exfalso; tauto]).
Qed.

Lemma index_less_ahead side mid os i j : index_less side mid os i j = true ↔ ahead_at side mid os i j.
Proof.
  unfold index_less, ahead_at. destruct (os !! i) as [a|], (os !! j) as [b|]; try (split; [done|by intros (? & ? & ? & ? & _)]).
  rewrite dark_less_ahead. split; [by exists a, b|]. intros (? & ? & [= <-] & [= <-] & ?). done.
Qed.

Lemma eligible_crosses sym firm side price mid o : eligible sym firm side price mid o = true ↔ crosses sym firm side price mid o.
Proof.
  unfold eligible. rewrite effective_resting, !andb_true_iff, !negb_true_iff, Z.eqb_eq, !Z.eqb_neq.
  destruct (Z.eqb_spec side kBuy); rewrite Z.leb_le; split; [intros [[[[]]]]; by split|by intros [? ? ? ? ? ?]; auto|intros [[[[]]]]; by split|by intros [? ? ? ? ? ?]; auto].
Qed.

Lemma strongly_sorted_impl {A} (R S : A → A → Prop) l : (∀ x y, R x y → S x y) → StronglySorted R l → StronglySorted S l.
Proof. intros Hi. induction 1 as [|x l _ IH Hx]; constructor; [done|]. eapply Forall_impl; [exact Hx|]. apply Hi. Qed.

Lemma strongly_sorted_sublist {A} (R : A → A → Prop) l k : k `sublist_of` l → StronglySorted R l → StronglySorted R k.
Proof.
  induction 1 as [|x k l Hs IH|x k l _ IH]; intros Hl; [done| |]; apply StronglySorted_cons in Hl as [Hx Hl]; [|by apply IH].
  constructor; [by apply IH|]. apply Forall_forall. intros y Hy. rewrite Forall_forall in Hx. apply Hx. by eapply elem_of_sublist.
Qed.

(** ** What a match does *)

Record pool_ok (e : DarkPoolEngine) : Prop := mk_pool_ok {
  po_length : length (dp_orders e) = Z.to_nat kMaxRestingOrders;
  po_qty : Forall (λ o, dk_active o = true → 0 < dk_qty o) (dp_orders e);
  po_count : dp_order_count e = count_if dk_active (dp_orders e)
}.

Section matched.
Context `{Sorter}.
Context (e : DarkPoolEngine) (tid firm sym side price qty bid ask : Z) (max : nat).
Notation mid := (Z.quot (bid + ask) 2).

(** The fills [fs] with the makers [taken], in that order. *)
Record matched (e' : DarkPoolEngine) (fs : list MatchFill) (taken : list nat) : Prop := mk_matched {
  ma_pool : pool_ok e';
  ma_slots : (length fs ≤ max)%nat;
  ma_total : 0 ≤ left_after qty fs (length fs);
  ma_makers : NoDup taken ∧ length taken = length fs;
  ma_fills : ∀ k i f, taken !! k = Some i → fs !! k = Some f →
    ∃ o, dp_orders e !! i = Some o ∧ crosses sym firm side price mid o ∧
      let q := Z.min (left_after qty fs k) (dk_qty o) in
      0 < q ∧ dk_min_qty o ≤ q ∧ f = fill_of tid sym mid q o ∧ dp_orders e' !! i = Some (traded o q);
  ma_order : StronglySorted (λ i j, ¬ ahead_at side mid (dp_orders e) j i) taken;
  ma_same : ∀ i, i ∉ taken → dp_orders e' !! i = dp_orders e !! i;
  ma_missed : ∀ i o, dp_orders e !! i = Some o → crosses sym firm side price mid o → i ∉ taken → ∃ n, (n ≤ length fs)%nat ∧
    (∀ j, j ∈ take n taken → ¬ ahead_at side mid (dp_orders e) i j) ∧
    (∀ j, j ∈ drop n taken → ¬ ahead_at side mid (dp_orders e) j i) ∧
    ((0 < left_after qty fs n ∧ Z.min (left_after qty fs n) (dk_qty o) < dk_min_qty o) ∨
     (n = length fs ∧ (left_after qty fs n = 0 ∨ length fs = max)))
}.

Lemma match_cross_ok :
  pool_ok e → 0 < qty → (0 < max)%nat → INT64_MIN ≤ bid + ask ≤ INT64_MAX →
  ∃ e' fs taken, match_cross e tid firm sym side price qty bid ask max = Some (e', fs) ∧ matched e' fs taken.
Proof using Type.
  intros [Hlen Hqty Hcount] Hq Hmax Hsum. unfold match_cross.
  destruct (Nat.eqb_spec max 0); [lia|]. rewrite (proj2 (Z.leb_gt _ _)) by lia. cbn [orb].
  rewrite chk64_ok by done. cbn [mbind option_bind].
  set (os := dp_orders e) in *. set (cs := filter _ (seq 0 (length os))).
  set (sorted := std_sort (index_less side mid os) cs).
  assert (Hcs : ∀ i, i ∈ cs ↔ ∃ o, os !! i = Some o ∧ crosses sym firm side price mid o).
  { intros i. unfold cs. rewrite list_elem_of_filter, elem_of_seq.
    destruct (os !! i) as [o|] eqn:E; cbn [from_option]; split.
    - intros [He%Is_true_true _]. exists o. by rewrite <- eligible_crosses.
    - intros (o' & [= <-] & He%eligible_crosses). apply lookup_lt_Some in E. rewrite He. split; [done|lia].
    - by intros [[] _].
    - by intros (? & ? & _). }
  assert (Hsorted : ∀ i, i ∈ sorted ↔ ∃ o, os !! i = Some o ∧ crosses sym firm side price mid o) by (intros i; unfold sorted; rewrite sort_perm; apply Hcs).
  assert (Hn : NoDup sorted) by (unfold sorted; rewrite sort_perm; apply NoDup_filter, NoDup_seq).
  assert (Hsw : StronglySorted (λ i j, ¬ ahead_at side mid os j i) sorted).
  { eapply strongly_sorted_impl; [|apply sort_sorted, index_less_weak; intros i (o & Ho & _)%Hcs; by exists o].
    intros i j E. by rewrite <- index_less_ahead, E. }
  destruct (fill_candidates_ok sorted os (dp_order_count e) qty max tid sym mid Hn) as (os' & rem' & fs & taken & E & Hl & [F1 F2 F3 F4 F5 F6 F7]).
  - intros i (o & Ho & Hc)%Hsorted. exists o. split_and!; [done| |apply Hc]. by apply (proj1 (Forall_lookup _ _) Hqty i o Ho), Hc.
  - lia.
  - rewrite Hcount. pose proof (count_if_bounds dk_active os). rewrite Hlen in *. unfold kMaxRestingOrders in *. lia.
  - done.
  - fold sorted. rewrite E. cbn [mbind option_bind]. eexists _, fs, taken. split; [done|]. split; cbn [dp_orders dp_order_count]; fold os; try done.
    + split; cbn [dp_orders dp_order_count]; [by rewrite Hl| |done]. apply Forall_lookup. intros i o Ho Ha.
      destruct (decide (i ∈ taken)) as [Ht|Ht]; [|rewrite (F6 i Ht) in Ho; by apply (proj1 (Forall_lookup _ _) Hqty i o Ho)].
      apply list_elem_of_lookup in Ht as [k Hk]. destruct (lookup_lt_is_Some_2 fs k) as [f Hf]; [rewrite <- F3; by eapply lookup_lt_Some|].
      destruct (F5 k i f Hk Hf) as (o1 & _ & _ & _ & _ & Ho1). rewrite Ho1 in Ho. injection Ho as <-. cbn [traded dk_active dk_qty] in *. apply bool_decide_eq_true in Ha. lia.
    + split; [by eapply sublist_NoDup|done].
    + intros k i f Hk Hf. destruct (F5 k i f Hk Hf) as (o & Ho & Hrest). exists o. split; [done|]. split; [|done].
      assert (Hi : i ∈ sorted) by (eapply elem_of_sublist; [by eapply list_elem_of_lookup_2|done]). apply Hsorted in Hi as (o' & Ho' & Hc). by simplify_eq.
    + by eapply strongly_sorted_sublist.
    + intros i o Ho Hc Hni. destruct (F7 i) as (o' & l1 & l2 & m & Ho' & El & Hnl & Hb & Ha & Hwhy); [apply Hsorted; by exists o|done|]. simplify_eq.
      exists m. rewrite El in Hsw. apply StronglySorted_app in Hsw as (Hl1 & _ & [Hl2 _]%StronglySorted_cons). rewrite Forall_forall in Hl2.
      split_and!; [done| |intros j Hj; by apply Hl2, Ha|done]. intros j Hj. apply Hl1; [by apply Hb|by left].
Qed.
End matched.

(** C22 (safety): the dark pool matches in price, display, time priority and invents
    nothing.  For a well-formed pool, a positive quantity, a non-empty output array and a
    bid and ask whose sum fits 64 bits, and whatever order the sort gives to ties: every
    fill is with a resting order that is active, of the same symbol, the other side and
    another firm, at the order's price (the midpoint for a pegged one), which is within
    the taker's limit; it takes all the taker still wants or all the maker has, and at
    least the maker's minimum (the taker has none); the maker is reduced by exactly that
    and the other orders are untouched.  The fills stand in priority: no maker is ahead
    of one that traded before it, where a better price for the taker comes first, then a
    displayed order, then an earlier time.  A maker that could trade but did not was
    passed over at its turn because its minimum exceeded what was on offer, or stands
    behind all that traded when the taker was filled or the output array was full.  The
    table stays well formed. *)
Theorem dark_pool_keeps_priority `{Sorter} e tid firm sym side price qty bid ask max :
  pool_ok e → 0 < qty → (0 < max)%nat → INT64_MIN ≤ bid + ask ≤ INT64_MAX →
  ∃ e' fs taken, match_cross e tid firm sym side price qty bid ask max = Some (e', fs) ∧
    matched e tid firm sym side price qty bid ask max e' fs taken.
Proof. apply match_cross_ok. Qed.

Definition demo_pool : DarkPoolEngine :=
  let add e id firm side mode price qty min_qty ts := fst (dark_add_order e id firm 7 side mode price qty min_qty ts) in
  add (add (add DarkPoolEngine_new 1 10 1 kHidden 1000 50 0 5) 2 11 1 kDisplayed 1000 30 0 9) 3 12 1 kMidpointPeg 0 40 40 1.

Lemma dark_pool_keeps_priority_witness :
  ∃ e' fs taken, match_cross demo_pool 99 20 7 0 1002 60 990 1010 8 = Some (e', fs) ∧
    matched demo_pool 99 20 7 0 1002 60 990 1010 8 e' fs taken ∧
    (λ f, (mf_maker_order_id f, mf_match_qty f)) <$> fs = [(2, 30); (1, 30)].
Proof.
  destruct (dark_pool_keeps_priority demo_pool 99 20 7 0 1002 60 990 1010 8) as (e' & fs & taken & E & Hm).
  - split; [by vm_compute| |by vm_compute]. by_decide.
  - lia.
  - lia.
  - unfold INT64_MIN, INT64_MAX. lia.
  - exists e', fs, taken. split; [exact E|]. split; [exact Hm|].
    assert (Hf : snd <$> match_cross demo_pool 99 20 7 0 1002 60 990 1010 8 =
      Some [mkMatch 2 99 7 1000 30 false; mkMatch 1 99 7 1000 30 false]) by (vm_compute; reflexivity).
    rewrite E in Hf. injection Hf as ->. reflexivity.
Defined.

(** ** Adding and cancelling *)

Lemma dark_add_ok e id firm sym side mode price qty min_qty ts :
  pool_ok e → let '(e', ok) := dark_add_order e id firm sym side mode price qty min_qty ts in
    pool_ok e' ∧ (ok = true ↔ 0 < qty ∧ dp_order_count e < kMaxRestingOrders).
Proof.
  intros [Hl Hq Hc]. unfold dark_add_order. destruct (Z.leb_spec kMaxRestingOrders (dp_order_count e)).
  { split; [done|]. split; [done|lia]. }
  destruct (Z.leb_spec qty 0); cbn [orb]; [split; [done|]; split; [done|lia]|].
  destruct (first_index _ (dp_orders e)) as [i|] eqn:Ef.
  - apply first_index_Some in Ef as [(o & Ho & Ha%negb_true_iff) _]. split; [|done]. split; cbn [dp_orders dp_order_count].
    + by rewrite length_insert.
    + apply Forall_insert; [done|]. done.
    + rewrite (count_if_insert _ _ _ o) by done. rewrite Ha. simpl. lia.
  - apply first_index_None in Ef. rewrite count_if_full in Hc; [rewrite Hl in Hc; unfold kMaxRestingOrders in *; lia|].
    eapply Forall_impl; [exact Ef|]. intros o Ho%negb_false_iff. done.
Qed.

Lemma dark_cancel_ok e id :
  pool_ok e → let '(e', ok) := dark_cancel_order e id in
    pool_ok e' ∧ (ok = true ↔ ∃ i o, dp_orders e !! i = Some o ∧ dk_active o = true ∧ dk_order_id o = id).
Proof.
  intros [Hl Hq Hc]. unfold dark_cancel_order. destruct (first_index _ (dp_orders e)) as [i|] eqn:Ef.
  - apply first_index_Some in Ef as [(o & Ho & [Ha Hid%Z.eqb_eq]%andb_true_iff) _].
    assert (Hi : alter deactivate i (dp_orders e) = <[i := deactivate o]> (dp_orders e)).
    { apply list_eq. intros j. destruct (decide (i = j)) as [<-|Hne].
      - rewrite list_lookup_alter_eq, Ho, list_lookup_insert_eq; [done|]. by eapply lookup_lt_Some.
      - by rewrite list_lookup_alter_ne, list_lookup_insert_ne. }
    split; [|split; [intros _; by exists i, o|done]]. rewrite Hi. split; cbn [dp_orders dp_order_count].
    + by rewrite length_insert.
    + by apply Forall_insert.
    + rewrite (count_if_insert _ _ _ o) by done. rewrite Ha. pose proof (count_if_pos dk_active _ i o Ho Ha).
      pose proof (count_if_bounds dk_active (dp_orders e)). rewrite Hl in *. unfold u64, kMaxRestingOrders in *.
      rewrite Z.mod_small; simpl; lia.
  - split; [done|]. split; [done|]. intros (i & o & Ho & Ha & Hid). apply first_index_None in Ef.
    pose proof (proj1 (Forall_lookup _ _) Ef i o Ho) as H. cbn in H. rewrite Ha, (proj2 (Z.eqb_eq _ _) Hid) in H. done.
Qed.
