(* ===== verification/Mbo.v ===== *)
(** * Mbo: the market-by-order book (src/luv_mbo.hpp)

    An array of orders found by scanning, refined to a finite map from order ids to
    orders. *)

From S2P Require Import Prelude Arena Risk.
From Stdlib Require Import ZArith Lia.
From stdpp Require Import base tactics gmap numbers option list.
Open Scope Z_scope.

(** ** Fixed arrays of entries as finite maps

    Several components keep an array of entries with an id and an active flag and
    scan it for the first hit.  As long as the active ids are distinct such an
    array is a finite map from ids to entries, and each kind of write to one entry
    is an operation on the map. *)

Section tables.
Context {A : Type} (key : A → Z) (live : A → bool).
Implicit Types l : list A.

Definition live_rows l : list A := filter (λ x, live x = true) l.
Definition keyed_rows l : list (Z * A) := (λ x, (key x, x)) <$> live_rows l.
Definition keys_unique l : Prop := NoDup (key <$> live_rows l).
Definition table_map l : gmap Z A := list_to_map (keyed_rows l).

Lemma keyed_rows_fst l : (keyed_rows l).*1 = key <$> live_rows l.
Proof. unfold keyed_rows. rewrite <- list_fmap_compose. by apply list_fmap_ext. Qed.

Lemma elem_of_live_rows l x : x ∈ live_rows l ↔ ∃ i, l !! i = Some x ∧ live x = true.
Proof. clear key. unfold live_rows. rewrite list_elem_of_filter, list_elem_of_lookup. naive_solver. Qed.

Lemma table_lookup l k x :
  keys_unique l → table_map l !! k = Some x ↔ ∃ i, l !! i = Some x ∧ live x = true ∧ key x = k.
Proof.
  intros Hu. unfold table_map. rewrite <- elem_of_list_to_map by (by rewrite keyed_rows_fst).
  unfold keyed_rows. rewrite list_elem_of_fmap. split.
  - intros (y & [= -> ->] & (i & ? & ?)%elem_of_live_rows). by exists i.
  - intros (i & Hi & Hx & <-). exists x. split; [done|]. apply elem_of_live_rows. by exists i.
Qed.

(** ** Scans *)

Lemma scan_hit l k i :
  keys_unique l → first_index (λ x, live x && (key x =? k)) l = Some i →
  ∃ x, l !! i = Some x ∧ live x = true ∧ key x = k ∧ table_map l !! k = Some x.
Proof.
  intros Hu [(x & Hx & [Hl Hk%Z.eqb_eq]%andb_true_iff) _]%first_index_Some. exists x. split_and!; try done.
  apply table_lookup; [done|]. by exists i.
Qed.

Lemma scan_miss l k : keys_unique l → first_index (λ x, live x && (key x =? k)) l = None → table_map l !! k = None.
Proof.
  intros Hu Hn%first_index_None. apply eq_None_not_Some. intros [x (i & Hi & Hl & Hk)%table_lookup]; [|done].
  pose proof (proj1 (Forall_lookup _ _) Hn i x Hi) as H. cbn in H. by rewrite Hl, (proj2 (Z.eqb_eq _ _) Hk) in H.
Qed.

(** ** Writes *)

(** The rows around a written index. *)
Lemma rows_write l i x y :
  l !! i = Some x → ∃ rest, live_rows l ≡ₚ live_rows [x] ++ rest ∧ live_rows (<[i := y]> l) ≡ₚ live_rows [y] ++ rest.
Proof.
  intros Hx. exists (live_rows (take i l) ++ live_rows (drop (S i) l)).
  rewrite <- (take_drop_middle l i x Hx) at 1. rewrite insert_take_drop by (by eapply lookup_lt_Some).
  unfold live_rows. change (x :: drop (S i) l) with ([x] ++ drop (S i) l). change (y :: drop (S i) l) with ([y] ++ drop (S i) l).
  rewrite !filter_app. split; apply Permutation_app_swap_app.
Qed.

Lemma live_rows_one x : live_rows [x] = if live x then [x] else [].
Proof. unfold live_rows. cbn. destruct (live x) eqn:E; by rewrite ?decide_True, ?decide_False by congruence. Qed.

Lemma table_map_perm l rows :
  keys_unique l → live_rows l ≡ₚ rows → table_map l = list_to_map ((λ x, (key x, x)) <$> rows) ∧ NoDup (key <$> rows).
Proof.
  intros Hu Hp. split; [|by rewrite <- Hp]. unfold table_map. apply list_to_map_proper; [by rewrite keyed_rows_fst|].
  unfold keyed_rows. by rewrite Hp.
Qed.

Lemma table_rows l rows : live_rows l ≡ₚ rows → NoDup (key <$> rows) →
  keys_unique l ∧ table_map l = list_to_map ((λ x, (key x, x)) <$> rows).
Proof.
  intros Hp Hn. assert (Hu : keys_unique l) by (unfold keys_unique; by rewrite Hp). split; [done|]. by apply table_map_perm.
Qed.

(** A live entry is rewritten under its key. *)
Lemma table_update l i x y :
  keys_unique l → l !! i = Some x → live x = true → live y = true → key y = key x →
  keys_unique (<[i := y]> l) ∧ table_map (<[i := y]> l) = <[key x := y]> (table_map l).
Proof.
  intros Hu Hx Hlx Hly Hk. destruct (rows_write l i x y Hx) as (rest & H1 & H2).
  rewrite live_rows_one, Hlx in H1. rewrite live_rows_one, Hly in H2.
  destruct (table_map_perm l _ Hu H1) as [-> Hn]. destruct (table_rows _ _ H2) as [Hu' ->]; [by rewrite fmap_app in *; cbn in *; rewrite Hk|].
  split; [done|]. cbn. rewrite Hk. by rewrite insert_insert_eq.
Qed.

(** A live entry is switched off. *)
Lemma table_remove l i x y :
  keys_unique l → l !! i = Some x → live x = true → live y = false →
  keys_unique (<[i := y]> l) ∧ table_map (<[i := y]> l) = delete (key x) (table_map l).
Proof.
  intros Hu Hx Hlx Hly. destruct (rows_write l i x y Hx) as (rest & H1 & H2).
  rewrite live_rows_one, Hlx in H1. rewrite live_rows_one, Hly in H2.
  destruct (table_map_perm l _ Hu H1) as [-> Hn]. cbn in Hn. apply NoDup_cons in Hn as [Hnx Hn].
  destruct (table_rows _ _ H2 Hn) as [Hu' ->]. split; [done|]. cbn. rewrite delete_insert_id; [done|].
  apply not_elem_of_list_to_map_1. by rewrite <- list_fmap_compose, (list_fmap_ext _ key).
Qed.

(** A dead entry is taken for a new key. *)
Lemma table_insert l i x y :
  keys_unique l → l !! i = Some x → live x = false → live y = true → table_map l !! key y = None →
  keys_unique (<[i := y]> l) ∧ table_map (<[i := y]> l) = <[key y := y]> (table_map l).
Proof.
  intros Hu Hx Hlx Hly Hf. destruct (rows_write l i x y Hx) as (rest & H1 & H2).
  rewrite live_rows_one, Hlx in H1. rewrite live_rows_one, Hly in H2.
  destruct (table_map_perm l _ Hu H1) as [Em Hn]. rewrite Em in *.
  destruct (table_rows _ _ H2) as [Hu' ->]; [|by split].
  cbn. apply NoDup_cons. split; [|done]. apply not_elem_of_list_to_map in Hf.
  by rewrite <- list_fmap_compose, (list_fmap_ext _ key) in Hf.
Qed.

(** ** Aggregates *)

Lemma table_rows_perm l : keys_unique l → (map_to_list (table_map l)).*2 ≡ₚ live_rows l.
Proof.
  intros Hu. unfold table_map. rewrite map_to_list_to_map by (by rewrite keyed_rows_fst). unfold keyed_rows.
  rewrite <- list_fmap_compose. by rewrite (list_fmap_ext _ id), list_fmap_id.
Qed.

Lemma table_size l : keys_unique l → count_if live l = Z.of_nat (size (table_map l)).
Proof.
  intros Hu. rewrite <- length_map_to_list, <- (length_fmap snd), (table_rows_perm l Hu). unfold live_rows, count_if.
  clear Hu. induction l as [|x l IH]; [done|]. cbn [foldr]. rewrite IH. destruct (live x) eqn:E.
  - rewrite filter_cons_True by done. cbn [length]. lia.
  - rewrite filter_cons_False by congruence. lia.
Qed.

Lemma table_empty l : Forall (λ x, live x = false) l → keys_unique l ∧ table_map l = ∅.
Proof.
  intros H. assert (E : live_rows l = []).
  { unfold live_rows. induction H as [|x l Hx _ IH]; [done|]. cbn. rewrite decide_False by congruence. done. }
  unfold keys_unique, table_map, keyed_rows. rewrite E. split; [apply NoDup_nil_2|done].
Qed.
End tables.

(** ** The market-by-order book *)

Record MboOrder := mkMbo {
  mo_order_id : Z;
  mo_symbol_idx : Z;
  mo_side : Z;
  mo_price : Z;
  mo_qty : Z;
  mo_priority_ts : Z;
  mo_active : bool
}.

Definition MboOrder_init : MboOrder := mkMbo 0 0 kBuy 0 0 0 false.

Definition kMaxOrders : Z := 4096.

Record Level3MarketByOrderBook := mkMboBook { mb_orders : list MboOrder; mb_order_count : Z }.

Definition MboBook_new : Level3MarketByOrderBook :=
  mkMboBook (replicate (Z.to_nat kMaxOrders) MboOrder_init) 0.

Definition set_mbo (o : MboOrder) (price qty ts : Z) (active : bool) : MboOrder :=
  mkMbo (mo_order_id o) (mo_symbol_idx o) (mo_side o) price qty ts active.
Definition mbo_off (o : MboOrder) : MboOrder := set_mbo o (mo_price o) (mo_qty o) (mo_priority_ts o) false.

(** The scan for an active order with an id. *)
Definition find_mbo (b : Level3MarketByOrderBook) (id : Z) : option (nat * MboOrder) :=
  i ← first_index (λ o, mo_active o && (mo_order_id o =? id)) (mb_orders b);
  o ← mb_orders b !! i; Some (i, o).

Definition mbo_add_order (b : Level3MarketByOrderBook) (id symbol side price qty ts : Z) : Level3MarketByOrderBook * bool :=
  if (kMaxOrders <=? mb_order_count b) || (qty <=? 0) then (b, false) else
  match find_mbo b id with
  | Some _ => (b, false)
  | None =>
      match first_index (λ o, negb (mo_active o)) (mb_orders b) with
      | None => (b, false)
      | Some i => (mkMboBook (<[i := mkMbo id symbol side price qty ts true]> (mb_orders b)) (mb_order_count b + 1), true)
      end
  end.

Definition mbo_remove (b : Level3MarketByOrderBook) (i : nat) (o : MboOrder) : Level3MarketByOrderBook :=
  mkMboBook (<[i := mbo_off o]> (mb_orders b)) (u64 (mb_order_count b - 1)).

(** An order after a modification with a positive quantity. *)
Definition modified (o : MboOrder) (new_qty new_price new_ts : Z) : MboOrder :=
  set_mbo o new_price new_qty
    (if negb (new_price =? mo_price o) || (mo_qty o <? new_qty) then new_ts else mo_priority_ts o) true.

Definition mbo_modify_order (b : Level3MarketByOrderBook) (id new_qty new_price new_ts : Z) : Level3MarketByOrderBook * bool :=
  match find_mbo b id with
  | None => (b, false)
  | Some (i, o) =>
      if new_qty <=? 0 then (mbo_remove b i o, true)
      else (mkMboBook (<[i := modified o new_qty new_price new_ts]> (mb_orders b)) (mb_order_count b), true)
  end.

Definition mbo_cancel_order (b : Level3MarketByOrderBook) (id : Z) : Level3MarketByOrderBook * bool :=
  match find_mbo b id with None => (b, false) | Some (i, o) => (mbo_remove b i o, true) end.

(** [None]: the subtraction of a negative quantity overflows. *)
Definition mbo_execute_order (b : Level3MarketByOrderBook) (id exec_qty : Z) : option (Level3MarketByOrderBook * bool) :=
  match find_mbo b id with
  | None => Some (b, false)
  | Some (i, o) =>
      if mo_qty o <=? exec_qty then Some (mbo_remove b i o, true) else
      q ← chk64 (mo_qty o - exec_qty);
      Some (mkMboBook (<[i := set_mbo o (mo_price o) q (mo_priority_ts o) (mo_active o)]> (mb_orders b)) (mb_order_count b), true)
  end.

Definition ahead_of (t o : MboOrder) : bool :=
  (mo_symbol_idx o =? mo_symbol_idx t) && (mo_side o =? mo_side t) && (mo_price o =? mo_price t) &&
  negb (mo_order_id o =? mo_order_id t) && (mo_priority_ts o <? mo_priority_ts t).

Fixpoint sum_ahead (t : MboOrder) (os : list MboOrder) (ahead_qty : Z) : option Z :=
  match os with
  | [] => Some ahead_qty
  | o :: os' =>
      if mo_active o && ahead_of t o then a ← chk64 (ahead_qty + mo_qty o); sum_ahead t os' a
      else sum_ahead t os' ahead_qty
  end.

Definition compute_queue_ahead (b : Level3MarketByOrderBook) (id : Z) : option Z :=
  match find_mbo b id with None => Some (-1) | Some (_, t) => sum_ahead t (mb_orders b) 0 end.

(** ** The book as a map *)

Definition mbo_map (b : Level3MarketByOrderBook) : gmap Z MboOrder := table_map mo_order_id mo_active (mb_orders b).

Record mbo_ok (b : Level3MarketByOrderBook) : Prop := mk_mbo_ok {
  bo_length : length (mb_orders b) = Z.to_nat kMaxOrders;
  bo_unique : keys_unique mo_order_id mo_active (mb_orders b);
  bo_count : mb_order_count b = Z.of_nat (size (mbo_map b))
}.

(** The calls and what they do to the map. *)
Inductive mbo_call :=
  | MboAdd (id symbol side price qty ts : Z)
  | MboModify (id new_qty new_price new_ts : Z)
  | MboCancel (id : Z)
  | MboExecute (id exec_qty : Z).

Definition do_mbo (b : Level3MarketByOrderBook) (c : mbo_call) : option (Level3MarketByOrderBook * bool) :=
  match c with
  | MboAdd id symbol side price qty ts => Some (mbo_add_order b id symbol side price qty ts)
  | MboModify id q p ts => Some (mbo_modify_order b id q p ts)
  | MboCancel id => Some (mbo_cancel_order b id)
  | MboExecute id q => mbo_execute_order b id q
  end.

Definition spec_mbo (m : gmap Z MboOrder) (c : mbo_call) : gmap Z MboOrder * bool :=
  match c with
  | MboAdd id symbol side price qty ts =>
      if (0 <? qty) && (Z.of_nat (size m) <? kMaxOrders) && bool_decide (m !! id = None)
      then (<[id := mkMbo id symbol side price qty ts true]> m, true) else (m, false)
  | MboModify id q p ts =>
      match m !! id with
      | None => (m, false)
      | Some o => (if q <=? 0 then delete id m else <[id := modified o q p ts]> m, true)
      end
  | MboCancel id => match m !! id with None => (m, false) | Some _ => (delete id m, true) end
  | MboExecute id q =>
      match m !! id with
      | None => (m, false)
      | Some o => (if mo_qty o <=? q then delete id m
                   else <[id := set_mbo o (mo_price o) (mo_qty o - q) (mo_priority_ts o) true]> m, true)
      end
  end.

Lemma find_mbo_spec b id :
  mbo_ok b → match find_mbo b id with
             | Some (i, o) => mb_orders b !! i = Some o ∧ mo_active o = true ∧ mo_order_id o = id ∧ mbo_map b !! id = Some o
             | None => mbo_map b !! id = None
             end.
Proof.
  intros [_ Hu _]. unfold find_mbo. destruct (first_index _ (mb_orders b)) as [i|] eqn:Ei; cbn [mbind option_bind].
  - destruct (scan_hit mo_order_id mo_active _ _ _ Hu Ei) as (o & Ho & Ha & Hid & Hm). rewrite Ho. cbn. done.
  - by apply (scan_miss mo_order_id mo_active _ _ Hu Ei).
Qed.

Lemma mbo_size b : mbo_ok b → 0 ≤ mb_order_count b ≤ kMaxOrders.
Proof.
  intros [Hl Hu ->]. unfold mbo_map. rewrite <- (table_size mo_order_id mo_active) by done.
  pose proof (count_if_bounds mo_active (mb_orders b)). rewrite Hl in *. unfold kMaxOrders in *. lia.
Qed.

Lemma mbo_write_ok b i o y m count :
  mbo_ok b → mb_orders b !! i = Some o →
  keys_unique mo_order_id mo_active (<[i := y]> (mb_orders b)) ∧ table_map mo_order_id mo_active (<[i := y]> (mb_orders b)) = m →
  count = Z.of_nat (size m) →
  mbo_ok (mkMboBook (<[i := y]> (mb_orders b)) count) ∧ mbo_map (mkMboBook (<[i := y]> (mb_orders b)) count) = m.
Proof.
  intros Hb Ho [Hu Hm] Hc. split; [|done]. split; cbn [mb_orders mb_order_count]; [|done|].
  - rewrite length_insert. apply Hb.
  - unfold mbo_map. cbn [mb_orders]. by rewrite Hm.
Qed.

Lemma mbo_remove_ok b i o :
  mbo_ok b → mb_orders b !! i = Some o → mo_active o = true →
  mbo_ok (mbo_remove b i o) ∧ mbo_map (mbo_remove b i o) = delete (mo_order_id o) (mbo_map b).
Proof.
  intros Hb Ho Ha. apply (mbo_write_ok b i o); [done|done| |].
  - by apply table_remove; [apply Hb|..].
  - assert (Hm : mbo_map b !! mo_order_id o = Some o) by (apply table_lookup; [apply Hb|]; by exists i).
    pose proof (mbo_size b Hb) as Hs. rewrite (bo_count _ Hb) in *. rewrite map_size_delete_Some by (by exists o).
    assert (size (mbo_map b) ≠ 0%nat).
    { intros E%map_size_empty_inv. by rewrite E, lookup_empty in Hm. }
    unfold u64. rewrite Z.mod_small by (unfold kMaxOrders in *; lia). lia.
Qed.

Lemma mbo_update_ok b i o y :
  mbo_ok b → mb_orders b !! i = Some o → mo_active o = true → mo_active y = true → mo_order_id y = mo_order_id o →
  let b' := mkMboBook (<[i := y]> (mb_orders b)) (mb_order_count b) in
  mbo_ok b' ∧ mbo_map b' = <[mo_order_id o := y]> (mbo_map b).
Proof.
  intros Hb Ho Ha Hy Hid b'. apply (mbo_write_ok b i o); [done|done| |].
  - by apply table_update; [apply Hb|..].
  - assert (Hm : mbo_map b !! mo_order_id o = Some o) by (apply table_lookup; [apply Hb|]; by exists i).
    rewrite map_size_insert_Some by (by exists o). apply Hb.
Qed.

(** Every call refines its operation on the map. *)
Lemma do_mbo_ok b c :
  mbo_ok b → match c with MboExecute _ q => 0 ≤ q | _ => True end → Forall (λ o, mo_qty o ≤ INT64_MAX) (mb_orders b) →
  ∃ b' ok, do_mbo b c = Some (b', ok) ∧ mbo_ok b' ∧ spec_mbo (mbo_map b) c = (mbo_map b', ok).
Proof.
  intros Hb Hc Hq. destruct c as [id sym side price q ts|id q p ts|id|id q]; cbn [do_mbo spec_mbo].
  - unfold mbo_add_order. pose proof (find_mbo_spec b id Hb) as Hf. rewrite (bo_count _ Hb).
    destruct (Z.leb_spec kMaxOrders (Z.of_nat (size (mbo_map b)))) as [Hs|Hs]; cbn [orb].
    { exists b, false. rewrite (proj2 (Z.ltb_ge _ kMaxOrders)) by lia. by rewrite andb_false_r. }
    destruct (Z.leb_spec q 0) as [Hq0|Hq0]; [exists b, false; by rewrite (proj2 (Z.ltb_ge 0 q)) by lia|].
    rewrite !(proj2 (Z.ltb_lt _ _)) by lia. cbn [andb]. destruct (find_mbo b id) as [[i o]|].
    { destruct Hf as (_ & _ & _ & ->). exists b, false. by rewrite bool_decide_false. }
    rewrite Hf, bool_decide_true by done. destruct (first_index _ (mb_orders b)) as [i|] eqn:Ei.
    + apply first_index_Some in Ei as [(o & Ho & Ha%negb_true_iff) _]. eexists _, true. split; [done|].
      destruct (mbo_write_ok b i o (mkMbo id sym side price q ts true)
        (<[id := mkMbo id sym side price q ts true]> (mbo_map b)) (Z.of_nat (size (mbo_map b)) + 1) Hb Ho) as [H1 ->]; [| |done].
      * by apply (table_insert mo_order_id mo_active _ i o (mkMbo id sym side price q ts true)); [apply Hb|..].
      * rewrite map_size_insert_None by done. lia.
    + exfalso. apply first_index_None in Ei. unfold mbo_map in Hs. rewrite <- table_size, count_if_full in Hs.
      * rewrite (bo_length _ Hb) in Hs. unfold kMaxOrders in Hs. lia.
      * eapply Forall_impl; [exact Ei|]. intros o Ho%negb_false_iff. done.
      * apply Hb.
  - unfold mbo_modify_order. pose proof (find_mbo_spec b id Hb) as Hf. destruct (find_mbo b id) as [[i o]|].
    + destruct Hf as (Ho & Ha & <- & ->). destruct (q <=? 0); eexists _, true; (split; [done|]).
      * by destruct (mbo_remove_ok b i o Hb Ho Ha) as [? ->].
      * by destruct (mbo_update_ok b i o (modified o q p ts) Hb Ho Ha) as [? ->].
    + rewrite Hf. by exists b, false.
  - unfold mbo_cancel_order. pose proof (find_mbo_spec b id Hb) as Hf. destruct (find_mbo b id) as [[i o]|].
    + destruct Hf as (Ho & Ha & <- & ->). eexists _, true. split; [done|]. by destruct (mbo_remove_ok b i o Hb Ho Ha) as [? ->].
    + rewrite Hf. by exists b, false.
  - unfold mbo_execute_order. pose proof (find_mbo_spec b id Hb) as Hf. destruct (find_mbo b id) as [[i o]|].
    + destruct Hf as (Ho & Ha & <- & ->). destruct (Z.leb_spec (mo_qty o) q) as [Hle|Hgt].
      * eexists _, true. split; [done|]. by destruct (mbo_remove_ok b i o Hb Ho Ha) as [? ->].
      * pose proof (proj1 (Forall_lookup _ _) Hq i o Ho) as Hmax. cbn in Hmax. unfold chk64, INT64_MIN, INT64_MAX in *.
        rewrite !(proj2 (Z.leb_le _ _)) by lia. cbn [andb mbind option_bind]. eexists _, true. split; [done|]. rewrite Ha.
        by destruct (mbo_update_ok b i o (set_mbo o (mo_price o) (mo_qty o - q) (mo_priority_ts o) true) Hb Ho Ha) as [? ->].
    + rewrite Hf. by exists b, false.
Qed.

(** ** Quantities *)

Definition mbo_call_ok (c : mbo_call) : Prop :=
  match c with
  | MboAdd _ _ _ _ q _ | MboModify _ q _ _ => q ≤ INT64_MAX
  | MboCancel _ => True
  | MboExecute _ q => 0 ≤ q
  end.

(** Resting quantities are positive [int64_t] values. *)
Definition qty_ok (o : MboOrder) : Prop := mo_qty o ≤ INT64_MAX ∧ (mo_active o = true → 0 < mo_qty o).

Lemma do_mbo_qty b c b' ok :
  mbo_ok b → mbo_call_ok c → Forall qty_ok (mb_orders b) → do_mbo b c = Some (b', ok) → Forall qty_ok (mb_orders b').
Proof.
  intros Hb Hc Hq E.
  assert (Hoff : ∀ i o, mb_orders b !! i = Some o → Forall qty_ok (mb_orders (mbo_remove b i o))).
  { intros i o Ho. apply Forall_insert; [done|]. split; [apply (proj1 (Forall_lookup _ _) Hq i o Ho)|done]. }
  destruct c as [id sym side price q ts|id q p ts|id|id q]; cbn [do_mbo mbo_call_ok] in *.
  - unfold mbo_add_order in E. destruct (kMaxOrders <=? mb_order_count b); [by simplify_eq/=|].
    destruct (Z.leb_spec q 0); [by simplify_eq/=|].
    cbn [orb] in E. destruct (find_mbo b id); [by simplify_eq|]. destruct (first_index _ _); simplify_eq; [|done].
    by apply Forall_insert.
  - unfold mbo_modify_order in E. pose proof (find_mbo_spec b id Hb) as Hf. destruct (find_mbo b id) as [[i o]|]; [|by simplify_eq].
    destruct Hf as (Ho & _). destruct (Z.leb_spec q 0); simplify_eq; [by apply Hoff|]. by apply Forall_insert.
  - unfold mbo_cancel_order in E. pose proof (find_mbo_spec b id Hb) as Hf. destruct (find_mbo b id) as [[i o]|]; [|by simplify_eq].
    destruct Hf as (Ho & _). simplify_eq. by apply Hoff.
  - unfold mbo_execute_order in E. pose proof (find_mbo_spec b id Hb) as Hf. destruct (find_mbo b id) as [[i o]|]; [|by simplify_eq].
    destruct Hf as (Ho & Ha & _). destruct (Z.leb_spec (mo_qty o) q); [simplify_eq; by apply Hoff|].
    destruct (proj1 (Forall_lookup _ _) Hq i o Ho) as [Hm Hp].
    unfold chk64 in E. destruct (_ && _); [|done]. cbn [mbind option_bind] in E. simplify_eq. apply Forall_insert; [done|].
    split; cbn; [lia|intros; lia].
Qed.

(** The quantity queued in front of [t] according to the map. *)
Definition queued_ahead (m : gmap Z MboOrder) (t : MboOrder) : Z :=
  zsum (λ o, if ahead_of t o then mo_qty o else 0) (map_to_list m).*2.
Definition resting_qty (m : gmap Z MboOrder) : Z := zsum mo_qty (map_to_list m).*2.

Lemma sum_ahead_spec t os a :
  Forall qty_ok os → 0 ≤ a →
  a + zsum (λ o, if ahead_of t o then mo_qty o else 0) (live_rows mo_active os) ≤ INT64_MAX →
  sum_ahead t os a = Some (a + zsum (λ o, if ahead_of t o then mo_qty o else 0) (live_rows mo_active os)).
Proof.
  unfold live_rows. intros Hq. revert a. induction Hq as [|o os [_ Ho] Hq IH]; intros a Ha Hfit; [cbn; f_equal; lia|].
  assert (Hnn : 0 ≤ zsum (λ o, if ahead_of t o then mo_qty o else 0) (filter (λ x, mo_active x = true) os)).
  { apply (zsum_le _ (λ o, if ahead_of t o then mo_qty o else 0)), Forall_forall. intros x [Hx Hin]%list_elem_of_filter.
    destruct (proj1 (Forall_forall _ _) Hq x Hin) as [_ Hp]. specialize (Hp Hx). case_cond; lia. }
  cbn [sum_ahead]. destruct (mo_active o) eqn:E; cbn [andb].
  - rewrite filter_cons_True in * by done. unfold zsum in *. cbn [foldr] in *. specialize (Ho eq_refl). destruct (ahead_of t o).
    + unfold chk64, INT64_MIN in *. rewrite !(proj2 (Z.leb_le _ _)) by lia. cbn [andb mbind option_bind]. rewrite IH by lia. f_equal; lia.
    + rewrite IH by lia. f_equal; lia.
  - rewrite filter_cons_False in * by congruence. by apply IH.
Qed.

Lemma queue_ahead_ok b id :
  mbo_ok b → Forall qty_ok (mb_orders b) → resting_qty (mbo_map b) ≤ INT64_MAX →
  compute_queue_ahead b id = Some (from_option (queued_ahead (mbo_map b)) (-1) (mbo_map b !! id)).
Proof.
  intros Hb Hq Hfit. unfold compute_queue_ahead. pose proof (find_mbo_spec b id Hb) as Hf.
  destruct (find_mbo b id) as [[i t]|]; [|by rewrite Hf]. destruct Hf as (_ & _ & _ & ->). cbn [from_option].
  unfold queued_ahead, resting_qty, mbo_map in *. rewrite table_rows_perm in * by apply Hb.
  assert (HF : Forall (λ x, 0 ≤ (if ahead_of t x then mo_qty x else 0) ≤ mo_qty x) (live_rows mo_active (mb_orders b))).
  { apply Forall_forall. intros x (j & Hj & Hx)%elem_of_live_rows.
    destruct (proj1 (Forall_lookup _ _) Hq j x Hj) as [_ Hp]. specialize (Hp Hx). case_cond; lia. }
  pose proof (zsum_le _ _ _ HF). rewrite sum_ahead_spec; [done|done|done|lia].
Qed.

(** ** Sessions *)

Fixpoint mbo_run (b : Level3MarketByOrderBook) (cs : list mbo_call) : option (Level3MarketByOrderBook * list bool) :=
  match cs with
  | [] => Some (b, [])
  | c :: cs' => '(b, ok) ← do_mbo b c; '(b, oks) ← mbo_run b cs'; Some (b, ok :: oks)
  end.

Fixpoint spec_run (m : gmap Z MboOrder) (cs : list mbo_call) : gmap Z MboOrder * list bool :=
  match cs with
  | [] => (m, [])
  | c :: cs' => let '(m, ok) := spec_mbo m c in let '(m, oks) := spec_run m cs' in (m, ok :: oks)
  end.

Lemma mbo_run_ok b cs :
  mbo_ok b → Forall qty_ok (mb_orders b) → Forall mbo_call_ok cs →
  ∃ b' oks, mbo_run b cs = Some (b', oks) ∧ spec_run (mbo_map b) cs = (mbo_map b', oks) ∧ mbo_ok b' ∧ Forall qty_ok (mb_orders b').
Proof.
  intros Hb Hq Hcs. revert b Hb Hq. induction Hcs as [|c cs Hc _ IH]; intros b Hb Hq; [by exists b, []|].
  destruct (do_mbo_ok b c Hb) as (b1 & ok & E1 & Hb1 & Hs).
  - by destruct c.
  - eapply Forall_impl; [exact Hq|]. by intros o [].
  - destruct (IH b1 Hb1 (do_mbo_qty b c b1 ok Hb Hc Hq E1)) as (b2 & oks & E2 & Hs2 & H2).
    exists b2, (ok :: oks). cbn [mbo_run spec_run]. rewrite E1. cbn [mbind option_bind]. rewrite E2. cbn [mbind option_bind].
    by rewrite Hs, Hs2.
Qed.

Lemma mbo_new_ok : mbo_ok MboBook_new ∧ mbo_map MboBook_new = ∅ ∧ Forall qty_ok (mb_orders MboBook_new).
Proof.
  destruct (table_empty mo_order_id mo_active (mb_orders MboBook_new)) as [Hu Hm].
  { apply Forall_replicate. done. }
  split_and!; [split; [apply length_replicate|done|by unfold mbo_map; rewrite Hm]|done|].
  apply Forall_replicate. split; [by vm_compute|done].
Qed.

(** The market-by-order book is a finite map.  Any sequence of
    additions, modifications, cancels and executions does to the array, with the
    same results, what it does to a map from ids to orders of at most 4096 entries;
    the count is the size of the map; and the quantity reported ahead of an order is
    exact: what rests at its symbol, side and price with an earlier timestamp. *)
Theorem mbo_book_is_a_map cs :
  Forall mbo_call_ok cs →
  ∃ b oks, mbo_run MboBook_new cs = Some (b, oks) ∧ spec_run ∅ cs = (mbo_map b, oks) ∧
    mb_order_count b = Z.of_nat (size (mbo_map b)) ∧
    (resting_qty (mbo_map b) ≤ INT64_MAX → ∀ id,
       compute_queue_ahead b id = Some (from_option (queued_ahead (mbo_map b)) (-1) (mbo_map b !! id))).
Proof.
  intros Hcs. destruct mbo_new_ok as (Hb & Hm & Hq). destruct (mbo_run_ok _ cs Hb Hq Hcs) as (b & oks & E & Hs & Hb' & Hq').
  rewrite Hm in Hs. exists b, oks. split_and!; [done|done|apply Hb'|]. intros Hfit id. by apply queue_ahead_ok.
Qed.

Definition demo_mbo : list mbo_call :=
  [MboAdd 1 7 0 1000 50 10; MboAdd 2 7 0 1000 30 11; MboAdd 3 7 0 1000 20 12; MboModify 1 60 1000 13; MboExecute 2 10].

Lemma mbo_book_is_a_map_witness :
  ∃ b oks, mbo_run MboBook_new demo_mbo = Some (b, oks) ∧ spec_run ∅ demo_mbo = (mbo_map b, oks) ∧
    compute_queue_ahead b 1 = Some 40 ∧ compute_queue_ahead b 3 = Some 20.
Proof.
  destruct (mbo_book_is_a_map demo_mbo) as (b & oks & E & Hs & _); [repeat constructor; by vm_compute|].
  exists b, oks. split; [exact E|]. split; [exact Hs|].
  assert (Hq : match mbo_run MboBook_new demo_mbo with
    | Some (b, _) => (compute_queue_ahead b 1, compute_queue_ahead b 3) | None => (None, None) end = (Some 40, Some 20))
    by (vm_compute; reflexivity).
  rewrite E in Hq. by injection Hq as -> ->.
Defined.
