(* ===== verification/Contingent.v ===== *)
(** * Contingent: one-cancels-other pairs and trailing stops (src/luv_contingent_orders.hpp)

    The manager keeps the first [order_count_] entries of an array; the entries
    beyond them are still default-initialised, so registering one appends to the
    list of entries in use. *)

From S2P Require Import Prelude.
From Stdlib Require Import ZArith Lia.
From stdpp Require Import base tactics gmap numbers option list.
Open Scope Z_scope.

Inductive ContingencyType := OCO | OTO | TrailingStop.
Inductive ContingentState := Inactive | Active | Triggered | Cancelled | Filled.

#[export] Instance ContingencyType_eq_dec : EqDecision ContingencyType.
Proof. solve_decision. Defined.
#[export] Instance ContingentState_eq_dec : EqDecision ContingentState.
Proof. solve_decision. Defined.

Record ContingentOrder := mkContingent {
  ct_order_id : Z;
  ct_parent_id : Z;
  ct_pair_order_id : Z;
  ct_is_buy : bool;
  ct_limit_price : Z;
  ct_stop_price : Z;
  ct_trailing_delta : Z;
  ct_peak_price : Z;
  ct_quantity : Z;
  ct_type : ContingencyType;
  ct_state : ContingentState
}.

Definition kMaxContingent : Z := 128.

Definition ContingentOrderManager : Type := list ContingentOrder.

Definition set_ct_state (o : ContingentOrder) (s : ContingentState) : ContingentOrder :=
  mkContingent (ct_order_id o) (ct_parent_id o) (ct_pair_order_id o) (ct_is_buy o) (ct_limit_price o) (ct_stop_price o)
    (ct_trailing_delta o) (ct_peak_price o) (ct_quantity o) (ct_type o) s.
Definition set_ct_peak (o : ContingentOrder) (peak stop : Z) : ContingentOrder :=
  mkContingent (ct_order_id o) (ct_parent_id o) (ct_pair_order_id o) (ct_is_buy o) (ct_limit_price o) stop
    (ct_trailing_delta o) peak (ct_quantity o) (ct_type o) (ct_state o).

Definition add_oco_pair (m : ContingentOrderManager) (a_id limit_price b_id stop_price : Z) (is_buy : bool) (qty : Z)
    : ContingentOrderManager * bool :=
  if kMaxContingent <? Z.of_nat (length m) + 2 then (m, false)
  else (m ++ [mkContingent a_id 0 b_id is_buy limit_price 0 0 0 qty OCO Active;
              mkContingent b_id 0 a_id is_buy 0 stop_price 0 0 qty OCO Active], true).

Definition stop_below (price delta : Z) : Z := if delta <? price then price - delta else 0.

Definition add_trailing_stop (m : ContingentOrderManager) (order_id : Z) (is_buy : bool) (initial_price trailing_delta qty : Z)
    : ContingentOrderManager * bool :=
  if kMaxContingent <=? Z.of_nat (length m) then (m, false)
  else (m ++ [mkContingent order_id 0 0 is_buy 0
                (if is_buy then u64 (initial_price + trailing_delta) else stop_below initial_price trailing_delta)
                trailing_delta initial_price qty TrailingStop Active], true).

(** One order at a market price. *)
Definition price_tick (current_price : Z) (o : ContingentOrder) : ContingentOrder :=
  if negb (bool_decide (ct_state o = Active)) then o else
  if negb (bool_decide (ct_type o = TrailingStop)) then o else
  if negb (ct_is_buy o) then
    if ct_peak_price o <? current_price then set_ct_peak o current_price (stop_below current_price (ct_trailing_delta o))
    else if (current_price <=? ct_stop_price o) && (0 <? ct_stop_price o) then set_ct_state o Triggered else o
  else
    if current_price <? ct_peak_price o then set_ct_peak o current_price (u64 (current_price + ct_trailing_delta o))
    else if ct_stop_price o <=? current_price then set_ct_state o Triggered else o.

Definition on_market_price (m : ContingentOrderManager) (current_price : Z) : ContingentOrderManager :=
  price_tick current_price <$> m.

Definition ct_cancel_order (m : ContingentOrderManager) (order_id : Z) : ContingentOrderManager :=
  match first_index (λ o, (ct_order_id o =? order_id) && bool_decide (ct_state o = Active)) m with
  | None => m
  | Some i => alter (λ o, set_ct_state o Cancelled) i m
  end.

Definition on_order_fill (m : ContingentOrderManager) (order_id : Z) : ContingentOrderManager :=
  match first_index (λ o, ct_order_id o =? order_id) m with
  | None => m
  | Some i =>
      let m := alter (λ o, set_ct_state o Filled) i m in
      match m !! i with
      | Some o => if bool_decide (ct_type o = OCO) && (0 <? ct_pair_order_id o) then ct_cancel_order m (ct_pair_order_id o) else m
      | None => m
      end
  end.

Definition get_order (m : ContingentOrderManager) (order_id : Z) : option ContingentOrder :=
  i ← first_index (λ o, ct_order_id o =? order_id) m; m !! i.

(** ** Trailing stops *)

Definition ticks (ps : list Z) (o : ContingentOrder) : ContingentOrder := foldl (λ o p, price_tick p o) o ps.

Definition highest (p0 : Z) (ps : list Z) : Z := foldl Z.max p0 ps.
Definition lowest (p0 : Z) (ps : list Z) : Z := foldl Z.min p0 ps.

(** A fresh trailing stop, as [add_trailing_stop] registers it. *)
Definition trailing (id : Z) (is_buy : bool) (p0 delta qty : Z) : ContingentOrder :=
  mkContingent id 0 0 is_buy 0 (if is_buy then u64 (p0 + delta) else stop_below p0 delta) delta p0 qty TrailingStop Active.

(** The price falls [delta] below the highest seen before it (rises above the
    lowest, for a buy): the event a trailing stop waits for. *)
Definition pulls_back (is_buy : bool) (p0 delta : Z) (before : list Z) (p : Z) : Prop :=
  if is_buy then lowest p0 before ≤ p ∧ lowest p0 before + delta ≤ p
  else p ≤ highest p0 before ∧ p ≤ highest p0 before - delta ∧ delta < highest p0 before.

Definition fires (is_buy : bool) (p0 delta : Z) (ps : list Z) : Prop :=
  ∃ before p after, ps = before ++ p :: after ∧ pulls_back is_buy p0 delta before p.

Lemma ticks_app ps qs o : ticks (ps ++ qs) o = ticks qs (ticks ps o).
Proof. unfold ticks. apply foldl_app. Qed.

Lemma ticks_done ps o : ct_state o ≠ Active → ticks ps o = o.
Proof.
  intros H. induction ps as [|p ps IH]; [done|]. change (ticks (p :: ps) o) with (ticks ps (price_tick p o)).
  unfold price_tick. by rewrite bool_decide_false.
Qed.

(** The extreme price seen, and the stop price it implies. *)
Definition extreme (is_buy : bool) (p0 : Z) (ps : list Z) : Z := if is_buy then lowest p0 ps else highest p0 ps.
Definition implied_stop (is_buy : bool) (peak delta : Z) : Z := if is_buy then peak + delta else stop_below peak delta.

Lemma lowest_bounds p0 ps hi : p0 ≤ hi → Forall (λ p, 0 ≤ p) ps → 0 ≤ p0 → 0 ≤ lowest p0 ps ≤ hi.
Proof.
  unfold lowest. revert p0. induction ps as [|p ps IH]; intros p0 H1 H2 H3; [simpl; lia|].
  apply Forall_cons in H2 as [Hp H2]. cbn [foldl]. apply IH; [lia|done|lia].
Qed.

Section trailing.
Context (id : Z) (is_buy : bool) (p0 delta qty : Z).
Context (Hp0 : 0 ≤ p0) (Hd : 0 ≤ delta) (Hfit : p0 + delta < 2 ^ 64).

Lemma tick_step ps p o :
  Forall (λ p, 0 ≤ p) ps → 0 ≤ p →
  o = set_ct_peak (trailing id is_buy p0 delta qty) (extreme is_buy p0 ps) (implied_stop is_buy (extreme is_buy p0 ps) delta) →
  (pulls_back is_buy p0 delta ps p ∧ price_tick p o = set_ct_state o Triggered) ∨
  (¬ pulls_back is_buy p0 delta ps p ∧ price_tick p o = set_ct_peak (trailing id is_buy p0 delta qty)
     (extreme is_buy p0 (ps ++ [p])) (implied_stop is_buy (extreme is_buy p0 (ps ++ [p])) delta)).
Proof using Hp0 Hd Hfit.
  intros Hps Hp ->. pose proof (lowest_bounds p0 ps p0 ltac:(lia) Hps Hp0) as Hlo.
  unfold price_tick, extreme, implied_stop, pulls_back, stop_below. cbn.
  unfold highest, lowest in *. rewrite !foldl_app. cbn [foldl]. destruct is_buy; cbn [negb].
  - set (lo := foldl Z.min p0 ps) in *. destruct (Z.ltb_spec p lo).
    + right. split; [lia|]. rewrite Z.min_r by lia. unfold u64. by rewrite Z.mod_small by lia.
    + destruct (Z.leb_spec (lo + delta) p); [left; split; [lia|done]|right]. split; [lia|]. by rewrite Z.min_l by lia.
  - set (hi := foldl Z.max p0 ps) in *. destruct (Z.ltb_spec hi p).
    + right. split; [lia|]. by rewrite Z.max_r by lia.
    + destruct (Z.ltb_spec delta hi).
      * destruct (Z.leb_spec p (hi - delta)); cbn [andb].
        -- rewrite (proj2 (Z.ltb_lt _ _)) by lia. left. split; [lia|done].
        -- right. split; [lia|]. rewrite Z.max_l by lia. by rewrite (proj2 (Z.ltb_lt _ _)) by lia.
      * rewrite andb_false_r. right. split; [lia|]. rewrite Z.max_l by lia. by rewrite (proj2 (Z.ltb_ge _ _)) by lia.
Qed.

Lemma ticks_spec ps :
  Forall (λ p, 0 ≤ p) ps →
  (fires is_buy p0 delta ps ∧ ct_state (ticks ps (trailing id is_buy p0 delta qty)) = Triggered) ∨
  (¬ fires is_buy p0 delta ps ∧ ticks ps (trailing id is_buy p0 delta qty) =
     set_ct_peak (trailing id is_buy p0 delta qty) (extreme is_buy p0 ps) (implied_stop is_buy (extreme is_buy p0 ps) delta)).
Proof using Hp0 Hd Hfit.
  induction ps as [|p ps IH] using rev_ind; intros Hps.
  - right. split; [intros (before & p & after & E & _); by destruct before|]. unfold extreme, implied_stop, ticks, trailing, set_ct_peak.
    cbn. destruct is_buy; [|done]. unfold u64, lowest. by rewrite Z.mod_small by (cbn; lia).
  - apply Forall_app in Hps as [Hps Hp]. rewrite Forall_singleton in Hp. rewrite ticks_app.
    assert (Hone : ∀ x, ticks [p] x = price_tick p x) by done. destruct (IH Hps) as [[(before & q & after & -> & Hq) Hst]|[Hno Hst]].
    + left. split; [exists before, q, (after ++ [p]); by rewrite <- app_assoc|]. rewrite (ticks_done [p]); [done|by rewrite Hst].
    + rewrite Hst. destruct (tick_step ps p _ Hps Hp eq_refl) as [[Hpull E]|[Hpull E]].
      * left. split; [by exists ps, p, []|]. rewrite Hone. by rewrite E.
      * right. rewrite Hone. split; [|done].
        intros (before & q & after & Eq & Hq). destruct after as [|a after] using rev_ind.
        -- apply app_inj_tail in Eq as [-> ->]. done.
        -- rewrite app_comm_cons, app_assoc in Eq. apply app_inj_tail in Eq as [-> _]. apply Hno. by exists before, q, after.
Qed.
End trailing.

(** A trailing stop fires exactly at the first pull-back.  Fed any
    sequence of prices, a trailing sell stop is triggered if and only if some price
    fell at least its delta below the highest price seen before it (for a buy: rose
    at least the delta above the lowest); until then its peak is exactly that
    extreme and its stop price follows it. *)
Theorem trailing_stop_fires_at_pull_back id is_buy p0 delta qty ps :
  0 ≤ p0 → 0 ≤ delta → p0 + delta < 2 ^ 64 → Forall (λ p, 0 ≤ p) ps →
  let o := ticks ps (trailing id is_buy p0 delta qty) in
  (ct_state o = Triggered ↔ fires is_buy p0 delta ps) ∧
  (ct_state o = Active → ct_peak_price o = extreme is_buy p0 ps ∧
     ct_stop_price o = implied_stop is_buy (extreme is_buy p0 ps) delta).
Proof.
  intros H0 Hd Hf Hps. cbv zeta. destruct (ticks_spec id is_buy p0 delta qty H0 Hd Hf ps Hps) as [[H1 H2]|[H1 H2]].
  - split; [done|]. congruence.
  - rewrite H2. cbn. split; [split; [done|by intros ?]|done].
Qed.

Lemma trailing_stop_fires_at_pull_back_witness :
  ct_state (ticks [100; 120; 115; 109] (trailing 1 false 100 10 5)) = Triggered ∧ fires false 100 10 [100; 120; 115; 109].
Proof.
  destruct (trailing_stop_fires_at_pull_back 1 false 100 10 5 [100; 120; 115; 109]) as [H _]; [lia..|repeat constructor; lia|].
  split; [reflexivity|]. apply H. reflexivity.
Defined.

(** ** One cancels other *)

Lemma cancel_gone m id o i :
  NoDup (ct_order_id <$> m) → ct_cancel_order m id !! i = Some o → ct_order_id o = id → ct_state o ≠ Active.
Proof.
  intros Hn Ho Hid Ha. unfold ct_cancel_order, ContingentOrderManager in *. destruct (first_index _ m) as [j|] eqn:Ej.
  - apply first_index_Some in Ej as [(x & Hx & [Hxid%Z.eqb_eq _]%andb_true_iff) _].
    destruct (decide (i = j)) as [->|Hne].
    + rewrite list_lookup_alter_eq, Hx in Ho. cbn in Ho. by simplify_eq/=.
    + rewrite list_lookup_alter_ne in Ho by done. apply Hne, (NoDup_lookup (ct_order_id <$> m) i j id); [done|..];
        rewrite list_lookup_fmap, ?Ho, ?Hx; cbn; congruence.
  - apply first_index_None in Ej. pose proof (proj1 (Forall_lookup _ _) Ej i o Ho) as H. cbn in H.
    by rewrite (proj2 (Z.eqb_eq _ _) Hid), bool_decide_true in H.
Qed.

(** Filling one side of a pair leaves the other side not active. *)
Lemma oco_fill_cancels_pair m a b i j :
  NoDup (ct_order_id <$> m) → m !! i = Some a → m !! j = Some b → ct_type a = OCO → ct_pair_order_id a = ct_order_id b →
  0 < ct_order_id b → i ≠ j →
  ∃ a' b', on_order_fill m (ct_order_id a) !! i = Some a' ∧ ct_state a' = Filled ∧
    on_order_fill m (ct_order_id a) !! j = Some b' ∧ ct_order_id b' = ct_order_id b ∧ ct_state b' ≠ Active.
Proof.
  intros Hn Ha Hb Hty Hpair Hpos Hij. unfold on_order_fill, ct_cancel_order, ContingentOrderManager in *.
  assert (first_index (λ o, ct_order_id o =? ct_order_id a) m = Some i) as ->.
  { apply first_index_Some. split; [exists a; split; [done|apply Z.eqb_refl]|]. intros k y Hk Hy. apply Z.eqb_neq. intros E.
    assert (k = i); [|lia]. apply (NoDup_lookup (ct_order_id <$> m) k i (ct_order_id a)); [done|..];
      rewrite list_lookup_fmap, ?Hy, ?Ha; cbn; congruence. }
  set (m1 := alter (λ o, set_ct_state o Filled) i m).
  assert (Hi1 : m1 !! i = Some (set_ct_state a Filled)) by (unfold m1; by rewrite list_lookup_alter_eq, Ha).
  assert (Hj1 : m1 !! j = Some b) by (unfold m1; by rewrite list_lookup_alter_ne).
  assert (Hn1 : NoDup (ct_order_id <$> m1)).
  { replace (ct_order_id <$> m1) with (ct_order_id <$> m); [done|]. apply list_eq. intros k. rewrite !list_lookup_fmap. unfold m1.
    destruct (decide (i = k)) as [<-|]; [rewrite list_lookup_alter_eq; by destruct (m !! i)|by rewrite list_lookup_alter_ne]. }
  rewrite Hi1. cbn [set_ct_state ct_type ct_pair_order_id]. rewrite bool_decide_true, Hpair by done.
  rewrite (proj2 (Z.ltb_lt _ _)) by done. cbn [andb].
  destruct (first_index _ m1) as [k|] eqn:Ek.
  - pose proof Ek as Ek'. apply first_index_Some in Ek as [(x & Hx & [Hxid%Z.eqb_eq Hxa]%andb_true_iff) _].
    assert (k = j) as ->.
    { apply (NoDup_lookup (ct_order_id <$> m1) k j (ct_order_id b)); [done|..]; rewrite list_lookup_fmap, ?Hx, ?Hj1; cbn; congruence. }
    rewrite list_lookup_alter_ne by done. rewrite list_lookup_alter_eq, Hi1, Hj1. cbn. by do 2 eexists.
  - rewrite Hi1, Hj1. do 2 eexists. split_and!; try done. apply first_index_None in Ek.
    pose proof (proj1 (Forall_lookup _ _) Ek j b Hj1) as H. cbn in H. rewrite Z.eqb_refl in H. cbn in H. by case_bool_decide.
Qed.
