(* ===== verification/Stp.v ===== *)
(** * Stp: self-trade prevention and market-maker protection (src/luv_stp.hpp)

    [stp_evaluate] decides what happens to two orders of one firm that would trade with
    each other.  [MarketMakerProtection] adds up a market maker's fills over a window
    and trips when a limit is passed.  [None] is signed overflow. *)

From S2P Require Import Prelude Risk.
From Stdlib Require Import ZArith Lia.
From stdpp Require Import base tactics numbers option list.
Open Scope Z_scope.

(** ** Self-trade prevention *)

Inductive StpMode := StpNone | kCancelNewest | kCancelOldest | kCancelBoth | kDecrementAndCancel.
#[global] Instance stp_mode_eq_dec : EqDecision StpMode.
Proof. solve_decision. Defined.

Record StpResolution := mkResolution {
  sr_self_trade_detected : bool;
  sr_cancel_incoming : bool;
  sr_cancel_resting : bool;
  sr_adjusted_incoming_qty : Z;
  sr_adjusted_resting_qty : Z
}.

Definition stp_evaluate (incoming_firm_id resting_firm_id : Z) (mode : StpMode) (incoming_qty resting_qty : Z) : option StpResolution :=
  if (incoming_firm_id =? 0) || (resting_firm_id =? 0) || negb (incoming_firm_id =? resting_firm_id) || bool_decide (mode = StpNone)
  then Some (mkResolution false false false incoming_qty resting_qty) else
  match mode with
  | kCancelNewest => Some (mkResolution true true false 0 resting_qty)
  | kCancelOldest => Some (mkResolution true false true incoming_qty 0)
  | kCancelBoth => Some (mkResolution true true true 0 0)
  | kDecrementAndCancel =>
      if incoming_qty =? resting_qty then Some (mkResolution true true true 0 0)
      else if resting_qty <? incoming_qty then left ← chk64 (incoming_qty - resting_qty); Some (mkResolution true false true left 0)
      else left ← chk64 (resting_qty - incoming_qty); Some (mkResolution true true false 0 left)
  | StpNone => Some (mkResolution true false false 0 0)
  end.

(** Two positive quantities of one firm under a mode other than [StpNone]. *)
Lemma stp_evaluate_same_firm firm mode incoming_qty resting_qty :
  firm ≠ 0 → mode ≠ StpNone → 0 < incoming_qty ≤ INT64_MAX → 0 < resting_qty ≤ INT64_MAX →
  stp_evaluate firm firm mode incoming_qty resting_qty = Some
    match mode with
    | kCancelNewest => mkResolution true true false 0 resting_qty
    | kCancelOldest => mkResolution true false true incoming_qty 0
    | kDecrementAndCancel =>
        let traded := incoming_qty `min` resting_qty in
        mkResolution true (incoming_qty <=? resting_qty) (resting_qty <=? incoming_qty) (incoming_qty - traded) (resting_qty - traded)
    | _ => mkResolution true true true 0 0
    end.
Proof.
  intros Hf Hm Hi Hr. unfold stp_evaluate. rewrite (proj2 (Z.eqb_neq firm 0)), Z.eqb_refl, bool_decide_eq_false_2 by done. cbn [orb negb]. destruct mode; try done. cbv zeta.
  destruct (Z.eqb_spec incoming_qty resting_qty) as [->|]; [by rewrite Z.leb_refl, Z.min_id, Z.sub_diag|]. destruct (Z.ltb_spec resting_qty incoming_qty).
  - rewrite chk64_ok, (proj2 (Z.leb_gt incoming_qty _)), (proj2 (Z.leb_le resting_qty _)), Z.min_r, Z.sub_diag by (unfold INT64_MIN, INT64_MAX in *; lia). done.
  - rewrite chk64_ok, (proj2 (Z.leb_gt resting_qty _)), (proj2 (Z.leb_le incoming_qty _)), Z.min_l, Z.sub_diag by (unfold INT64_MIN, INT64_MAX in *; lia). done.
Qed.

(** Orders of one firm never trade with each other under any mode but [StpNone]: at
    least one of two positive quantities is gone, an order is cancelled exactly when
    its quantity is gone, no quantity grows, and what is taken off one order in
    [kDecrementAndCancel] is taken off the other. *)
Theorem self_trade_prevented firm mode incoming_qty resting_qty :
  firm ≠ 0 → mode ≠ StpNone → 0 < incoming_qty ≤ INT64_MAX → 0 < resting_qty ≤ INT64_MAX →
  ∃ r, stp_evaluate firm firm mode incoming_qty resting_qty = Some r ∧ sr_self_trade_detected r = true ∧
    (sr_adjusted_incoming_qty r = 0 ∨ sr_adjusted_resting_qty r = 0) ∧
    (sr_cancel_incoming r = true ↔ sr_adjusted_incoming_qty r = 0) ∧ (sr_cancel_resting r = true ↔ sr_adjusted_resting_qty r = 0) ∧
    0 ≤ sr_adjusted_incoming_qty r ≤ incoming_qty ∧ 0 ≤ sr_adjusted_resting_qty r ≤ resting_qty ∧
    (mode = kDecrementAndCancel → incoming_qty - sr_adjusted_incoming_qty r = resting_qty - sr_adjusted_resting_qty r).
Proof.
  intros Hf Hm Hi Hr. eexists. split; [by apply stp_evaluate_same_firm|]. destruct mode; try done; cbv zeta; cbn [sr_self_trade_detected sr_cancel_incoming sr_cancel_resting sr_adjusted_incoming_qty sr_adjusted_resting_qty].
  all: rewrite ?Z.leb_le; intuition (lia || congruence).
Qed.

(** Orders of different firms, of no firm, or with the mode off are left alone. *)
Theorem strangers_untouched incoming_firm resting_firm mode incoming_qty resting_qty :
  incoming_firm = 0 ∨ resting_firm = 0 ∨ incoming_firm ≠ resting_firm ∨ mode = StpNone →
  stp_evaluate incoming_firm resting_firm mode incoming_qty resting_qty = Some (mkResolution false false false incoming_qty resting_qty).
Proof.
  intros H. unfold stp_evaluate. destruct (Z.eqb_spec incoming_firm 0), (Z.eqb_spec resting_firm 0), (Z.eqb_spec incoming_firm resting_firm); try done. cbn [orb negb].
  by rewrite bool_decide_eq_true_2 by naive_solver.
Qed.

(** ** Market-maker protection *)

Record MmpConfig := mkMmpConfig {
  window_ns : Z;
  max_traded_volume : Z;
  max_traded_notional : Z;
  max_delta_volume : Z
}.
Definition MmpConfig_init : MmpConfig := mkMmpConfig 500000000 10000 100000000 5000.

Record MarketMakerProtection := mkMmp {
  mp_config : MmpConfig;
  mp_tripped : bool;
  mp_trip_ts_ns : Z;
  mp_window_start_ts_ns : Z;
  mp_volume_in_window : Z;
  mp_notional_in_window : Z;
  mp_delta_in_window : Z
}.
Definition MarketMakerProtection_new (config : MmpConfig) : MarketMakerProtection := mkMmp config false 0 0 0 0 0.

Definition mmp_on_trade (m : MarketMakerProtection) (ts_ns side qty price : Z) : option (MarketMakerProtection * bool) :=
  if mp_tripped m then Some (m, false) else
  let m := if u64 (mp_window_start_ts_ns m + window_ns (mp_config m)) <? ts_ns
    then mkMmp (mp_config m) (mp_tripped m) (mp_trip_ts_ns m) ts_ns 0 0 0 else m in
  volume ← chk64 (mp_volume_in_window m + qty);
  traded ← chk64 (qty * price);
  notional ← chk64 (mp_notional_in_window m + traded);
  delta ← if side =? kBuy then chk64 (mp_delta_in_window m + qty) else chk64 (mp_delta_in_window m - qty);
  abs_delta ← if delta <? 0 then chk64 (- delta) else Some delta;
  if (max_traded_volume (mp_config m) <? volume) || (max_traded_notional (mp_config m) <? notional) || (max_delta_volume (mp_config m) <? abs_delta)
  then Some (mkMmp (mp_config m) true ts_ns (mp_window_start_ts_ns m) volume notional delta, false)
  else Some (mkMmp (mp_config m) false (mp_trip_ts_ns m) (mp_window_start_ts_ns m) volume notional delta, true).

Definition mmp_reset (m : MarketMakerProtection) : MarketMakerProtection := mkMmp (mp_config m) false 0 0 0 0 0.

(** *** What it promises

    The trades of the current window, and a trip when their totals pass a limit. *)

Record Fill := mkFill { fl_ts : Z; fl_side : Z; fl_qty : Z; fl_price : Z }.
Definition signed_qty (f : Fill) : Z := if fl_side f =? kBuy then fl_qty f else - fl_qty f.
Definition total (value : Fill → Z) (fills : list Fill) : Z := foldr (λ f z, value f + z) 0 fills.
Definition volume_of := total fl_qty.
Definition notional_of := total (λ f, fl_qty f * fl_price f).
Definition delta_of := total signed_qty.

Record Window := mkWindow { wd_start : Z; wd_fills : list Fill; wd_tripped : bool }.
Definition within (c : MmpConfig) (fills : list Fill) : bool :=
  (volume_of fills <=? max_traded_volume c) && (notional_of fills <=? max_traded_notional c) && (Z.abs (delta_of fills) <=? max_delta_volume c).

Definition spec_trade (c : MmpConfig) (w : Window) (f : Fill) : Window * bool :=
  if wd_tripped w then (w, false) else
  let '(start, fills) := if wd_start w + window_ns c <? fl_ts f then (fl_ts f, []) else (wd_start w, wd_fills w) in
  let fills := fills ++ [f] in
  (mkWindow start fills (negb (within c fills)), within c fills).

Fixpoint spec_trades (c : MmpConfig) (w : Window) (fills : list Fill) : Window * list bool :=
  match fills with
  | [] => (w, [])
  | f :: rest => let '(w, ok) := spec_trade c w f in let '(w, oks) := spec_trades c w rest in (w, ok :: oks)
  end.

Fixpoint mmp_on_trades (m : MarketMakerProtection) (fills : list Fill) : option (MarketMakerProtection * list bool) :=
  match fills with
  | [] => Some (m, [])
  | f :: rest => '(m, ok) ← mmp_on_trade m (fl_ts f) (fl_side f) (fl_qty f) (fl_price f); '(m, oks) ← mmp_on_trades m rest; Some (m, ok :: oks)
  end.

Lemma total_snoc value fills f : total value (fills ++ [f]) = total value fills + value f.
Proof. unfold total. rewrite foldr_app. cbn. induction fills as [|g fills IH]; cbn; lia. Qed.

(** Room for the sums: the absolute values of what the fills add. *)
Definition weight (f : Fill) : Z := Z.abs (fl_qty f) + Z.abs (fl_qty f * fl_price f).

Lemma total_le value fills : (∀ f, Z.abs (value f) ≤ weight f) → Z.abs (total value fills) ≤ total weight fills.
Proof. intros H. induction fills as [|f fills IH]; cbn; [lia|]. specialize (H f). unfold total in *. lia. Qed.

Lemma sums_bounded fills : total weight fills ≤ INT64_MAX →
  Z.abs (volume_of fills) ≤ INT64_MAX ∧ Z.abs (notional_of fills) ≤ INT64_MAX ∧ Z.abs (delta_of fills) ≤ INT64_MAX.
Proof.
  intros H. unfold volume_of, notional_of, delta_of. split_and!; (etransitivity; [apply total_le|done]); intros f; unfold weight, signed_qty; [lia|lia|case_cond; lia].
Qed.

Lemma weight_pos fills : 0 ≤ total weight fills.
Proof. induction fills as [|f fills IH]; cbn; [lia|]. unfold weight in *. unfold total in IH. lia. Qed.

Definition clock_ok (c : MmpConfig) (ts : Z) : Prop := 0 ≤ ts ∧ 0 ≤ window_ns c ∧ ts + window_ns c < 2 ^ 64.

Record tracks (c : MmpConfig) (m : MarketMakerProtection) (w : Window) : Prop := mkTracks {
  tk_config : mp_config m = c;
  tk_tripped : mp_tripped m = wd_tripped w;
  tk_clock : clock_ok c (wd_start w);
  tk_start : mp_window_start_ts_ns m = wd_start w;
  tk_volume : mp_volume_in_window m = volume_of (wd_fills w);
  tk_notional : mp_notional_in_window m = notional_of (wd_fills w);
  tk_delta : mp_delta_in_window m = delta_of (wd_fills w)
}.

(** The sums after one more fill. *)
Lemma fold_fill c m w f :
  tracks c m w → wd_tripped w = false → total weight (wd_fills w ++ [f]) ≤ INT64_MAX → fl_ts f ≤ wd_start w + window_ns c →
  ∃ m', mmp_on_trade m (fl_ts f) (fl_side f) (fl_qty f) (fl_price f) = Some (m', within c (wd_fills w ++ [f])) ∧
    tracks c m' (mkWindow (wd_start w) (wd_fills w ++ [f]) (negb (within c (wd_fills w ++ [f])))).
Proof.
  intros [Hc Ht Hk Hs Hv Hn Hd] Hw Hb Hts. unfold mmp_on_trade. rewrite Ht, Hw, Hs, Hc. unfold u64. destruct Hk as [Hk0 Hk]. rewrite Z.mod_small by lia. rewrite (proj2 (Z.ltb_ge _ _)) by lia. cbv zeta.
  destruct (sums_bounded _ Hb) as (B1 & B2 & B3). rewrite Hc, Hs, Hv, Hn, Hd. unfold volume_of, notional_of, delta_of in *. rewrite total_snoc in B1. rewrite total_snoc in B2. rewrite total_snoc in B3.
  assert (Hp : Z.abs (fl_qty f * fl_price f) ≤ INT64_MAX) by (rewrite total_snoc in Hb; pose proof (weight_pos (wd_fills w)); unfold weight in Hb at 2; lia).
  assert (Hdelta : (if fl_side f =? kBuy then chk64 (total signed_qty (wd_fills w) + fl_qty f) else chk64 (total signed_qty (wd_fills w) - fl_qty f)) = Some (total signed_qty (wd_fills w ++ [f]))).
  { rewrite total_snoc. change (signed_qty f) with (if fl_side f =? kBuy then fl_qty f else - fl_qty f) in *. destruct (fl_side f =? kBuy); rewrite chk64_ok by (unfold INT64_MIN, INT64_MAX in *; lia); f_equal; lia. }
  assert (Hchk : ∀ z, Z.abs z ≤ INT64_MAX → chk64 z = Some z) by (intros z Hz; apply chk64_ok; unfold INT64_MIN, INT64_MAX in *; lia).
  rewrite (Hchk _ B1). cbn [mbind option_bind]. rewrite (Hchk _ Hp). cbn [mbind option_bind]. rewrite (Hchk _ B2). cbn [mbind option_bind]. rewrite Hdelta. cbn [mbind option_bind].
  assert (Habs : (if total signed_qty (wd_fills w ++ [f]) <? 0 then chk64 (- total signed_qty (wd_fills w ++ [f])) else Some (total signed_qty (wd_fills w ++ [f]))) = Some (Z.abs (total signed_qty (wd_fills w ++ [f])))).
  { rewrite total_snoc. destruct (Z.ltb_spec (total signed_qty (wd_fills w) + signed_qty f) 0); [rewrite Hchk by lia|]; f_equal; lia. }
  rewrite Habs. cbn [mbind option_bind].
  assert (Hin : within c (wd_fills w ++ [f]) = negb ((max_traded_volume c <? total fl_qty (wd_fills w) + fl_qty f) || (max_traded_notional c <? total (λ g, fl_qty g * fl_price g) (wd_fills w) + fl_qty f * fl_price f) || (max_delta_volume c <? Z.abs (total signed_qty (wd_fills w ++ [f]))))).
  { unfold within, volume_of, notional_of, delta_of. rewrite (total_snoc fl_qty), (total_snoc (λ g, _)). by rewrite !negb_orb, !Z.leb_antisym. }
  rewrite Hin. case_cond; eexists; (split; [reflexivity|]); split; try done; unfold volume_of, notional_of; cbn [mp_volume_in_window mp_notional_in_window wd_fills]; rewrite ?total_snoc; (done || by split).
Qed.

Lemma trade_refines c m w f :
  tracks c m w → clock_ok c (fl_ts f) → total weight (wd_fills w) + weight f ≤ INT64_MAX →
  ∃ m', mmp_on_trade m (fl_ts f) (fl_side f) (fl_qty f) (fl_price f) = Some (m', (spec_trade c w f).2) ∧ tracks c m' (spec_trade c w f).1 ∧
    total weight (wd_fills (spec_trade c w f).1) ≤ total weight (wd_fills w) + weight f.
Proof.
  intros Hk Hts Hb. unfold spec_trade. destruct (wd_tripped w) eqn:Hw.
  - exists m. unfold mmp_on_trade. rewrite (tk_tripped _ _ _ Hk), Hw. split_and!; [done|done|]. unfold weight. cbn [fst]. lia.
  - destruct (Z.ltb_spec (wd_start w + window_ns c) (fl_ts f)) as [Hnew|Hold]; cbv beta iota zeta; cbn [fst snd wd_fills].
    + destruct Hk as [Hc Ht [Hk0 Hk] Hs Hv Hn Hd].
      destruct (fold_fill c (mkMmp c false (mp_trip_ts_ns m) (fl_ts f) 0 0 0) (mkWindow (fl_ts f) [] false) f) as (m' & Hm & Htr); [by split|done| | |].
      * cbn. pose proof (weight_pos (wd_fills w)). lia.
      * cbn. lia.
      * exists m'. split_and!; [|done|cbn; pose proof (weight_pos (wd_fills w)); lia]. cbn [wd_fills app] in *. rewrite <- Hm. unfold mmp_on_trade. cbn [mp_tripped mp_config mp_window_start_ts_ns]. rewrite Ht, Hw, Hs, Hc.
        unfold u64. destruct Hts as (? & ? & ?). rewrite !Z.mod_small by lia. rewrite (proj2 (Z.ltb_lt _ (fl_ts f))), (proj2 (Z.ltb_ge (fl_ts f + _) _)) by lia. done.
    + destruct (fold_fill c m w f) as (m' & Hm & Htr); [done|done|rewrite total_snoc; lia|done|]. exists m'. split_and!; [done|done|]. by rewrite total_snoc.
Qed.

(** Market-maker protection refines its promise: as long as the fills' quantities and
    notionals fit 64 bits, [mmp_on_trade] answers every fill as the window of trades does,
    so it trips at the first fill that takes the volume, the notional or the net
    position of the current window over its limit and refuses from then on. *)
Theorem mmp_refines_window c m w fills :
  tracks c m w → Forall (λ f, clock_ok c (fl_ts f)) fills → total weight (wd_fills w) + total weight fills ≤ INT64_MAX →
  ∃ m', mmp_on_trades m fills = Some (m', (spec_trades c w fills).2) ∧ tracks c m' (spec_trades c w fills).1.
Proof.
  intros Hk Hts. revert m w Hk. induction Hts as [|f fills Hf _ IH]; intros m w Hk Hb; cbn [mmp_on_trades spec_trades]; [by exists m|].
  cbn in Hb. fold (total weight fills) in Hb. pose proof (weight_pos fills). destruct (trade_refines c m w f Hk Hf ltac:(lia)) as (m1 & -> & Hk1 & Hb1). cbn [mbind option_bind].
  destruct (spec_trade c w f) as [w1 ok]. cbn [fst snd] in *. destruct (IH m1 w1 Hk1 ltac:(lia)) as (m2 & -> & Hk2). cbn [mbind option_bind].
  destruct (spec_trades c w1 fills) as [w2 oks]. by exists m2.
Qed.

Lemma mmp_new_tracks c : 0 ≤ window_ns c < 2 ^ 64 → tracks c (MarketMakerProtection_new c) (mkWindow 0 [] false).
Proof. intros [H0 H1]. by split. Qed.

Lemma mmp_reset_tracks c m w : tracks c m w → 0 ≤ window_ns c < 2 ^ 64 → tracks c (mmp_reset m) (mkWindow 0 [] false).
Proof. intros Hk H. unfold mmp_reset. rewrite (tk_config _ _ _ Hk). by apply mmp_new_tracks. Qed.

(** The window is fixed where its comment says sliding: two bursts one nanosecond
    apart, each of the full volume limit, both pass. *)
Theorem mmp_window_does_not_slide :
  mmp_on_trades (MarketMakerProtection_new MmpConfig_init)
    [mkFill 500000000 kBuy 5000 1; mkFill 500000000 kSell 5000 1; mkFill 500000001 kBuy 5000 1; mkFill 500000001 kSell 5000 1] =
  Some (mkMmp MmpConfig_init false 0 500000001 10000 10000 0, [true; true; true; true]).
Proof. reflexivity. Qed.
