(* ===== verification/Luld.v ===== *)
(** * Luld: limit-up/limit-down bands (src/luv_luld.hpp)

    The price bands around a reference price and the state they put a symbol in as
    the best bid and ask move.  All arithmetic is unsigned 64-bit and wraps. *)

From S2P Require Import Prelude.
From Stdlib Require Import ZArith Lia.
From stdpp Require Import base tactics numbers option list.
Open Scope Z_scope.

Inductive LuldTier := Tier1 | Tier2.
Inductive LuldState := Normal | Straddle | LimitState | TradingPause.
#[global] Instance luld_state_eq_dec : EqDecision LuldState.
Proof. solve_decision. Defined.

Record LuldConfig := mkLuldConfig {
  lc_tier : LuldTier;
  lc_straddle_timeout_ns : Z;
  lc_open_or_close : bool
}.
Definition LuldConfig_init : LuldConfig := mkLuldConfig Tier1 15000000000 false.

Record LuldBands := mkBands {
  lb_reference_price : Z;
  lb_lower_band : Z;
  lb_upper_band : Z;
  lb_state : LuldState;
  lb_straddle_start_ns : Z;
  lb_pause_triggered : bool
}.
Definition LuldBands_init : LuldBands := mkBands 0 0 0 Normal 0 false.

Record LuldEngine := mkLuld { le_config : LuldConfig; le_bands : LuldBands }.
Definition LuldEngine_new (config : LuldConfig) : LuldEngine := mkLuld config LuldBands_init.

Definition band_bps (config : LuldConfig) (p : Z) : Z :=
  let bp := match lc_tier config with
    | Tier1 => if 30000 <? p then 500 else if 7500 <=? p then 2000 else 7500
    | Tier2 => if 30000 <? p then 1000 else if 7500 <=? p then 2000 else 7500
    end in
  if lc_open_or_close config then u64 (bp * 2) else bp.

Definition band_delta (config : LuldConfig) (p : Z) : Z :=
  let delta := u64 (p * band_bps config p) / 10000 in
  if (p <=? 7500) && (1500 <? delta) then 1500 else delta.

Definition with_bands (b : LuldBands) (lower upper : Z) : LuldBands :=
  mkBands (lb_reference_price b) lower upper (lb_state b) (lb_straddle_start_ns b) (lb_pause_triggered b).
Definition with_luld_state (b : LuldBands) (state : LuldState) (start : Z) (paused : bool) : LuldBands :=
  mkBands (lb_reference_price b) (lb_lower_band b) (lb_upper_band b) state start paused.

Definition recalculate_bands (config : LuldConfig) (b : LuldBands) : LuldBands :=
  let p := lb_reference_price b in
  if p =? 0 then with_bands b 0 0 else
  let delta := band_delta config p in
  with_bands b (if delta <? p then p - delta else 0) (u64 (p + delta)).

Definition set_reference_price (e : LuldEngine) (ref_price : Z) : LuldEngine :=
  let b := le_bands e in
  let b := mkBands ref_price (lb_lower_band b) (lb_upper_band b) (lb_state b) (lb_straddle_start_ns b) (lb_pause_triggered b) in
  mkLuld (le_config e) (recalculate_bands (le_config e) b).

Definition nbbo_step (config : LuldConfig) (b : LuldBands) (best_bid best_ask now_ns : Z) : LuldBands :=
  if lb_reference_price b =? 0 then b else
  let bid_at_upper := lb_upper_band b <=? best_bid in
  let ask_at_lower := (best_ask <=? lb_lower_band b) && (0 <? best_ask) in
  let expired := u64 (lb_straddle_start_ns b + lc_straddle_timeout_ns config) <=? now_ns in
  let pause := with_luld_state b TradingPause (lb_straddle_start_ns b) true in
  if bool_decide (lb_state b = TradingPause) then b else
  if bid_at_upper || ask_at_lower then
    if negb (bool_decide (lb_state b = LimitState)) && negb (bool_decide (lb_state b = Straddle)) then with_luld_state b LimitState now_ns (lb_pause_triggered b)
    else if expired then pause else b
  else if (lb_lower_band b <? best_bid) && (best_ask <? lb_upper_band b) then with_luld_state b Normal 0 (lb_pause_triggered b)
  else if bool_decide (lb_state b = Normal) then with_luld_state b Straddle now_ns (lb_pause_triggered b)
  else if bool_decide (lb_state b = Straddle) && expired then pause else b.

Definition update_nbbo (e : LuldEngine) (best_bid best_ask now_ns : Z) : LuldEngine :=
  mkLuld (le_config e) (nbbo_step (le_config e) (le_bands e) best_bid best_ask now_ns).

Definition is_trade_allowed (e : LuldEngine) (trade_price : Z) : bool :=
  let b := le_bands e in
  if bool_decide (lb_state b = TradingPause) then false
  else if lb_reference_price b =? 0 then true
  else (lb_lower_band b <=? trade_price) && (trade_price <=? lb_upper_band b).

Definition resume_trading (e : LuldEngine) (new_ref_price : Z) : LuldEngine :=
  set_reference_price (mkLuld (le_config e) (with_luld_state (le_bands e) Normal 0 false)) new_ref_price.

(** ** The bands *)

Lemma band_bps_range config p : 500 ≤ band_bps config p ≤ 15000.
Proof. unfold band_bps. destruct (lc_tier config), (lc_open_or_close config); repeat case_cond; by vm_compute. Qed.

(** Reference prices whose product with the widest band fits 64 bits. *)
Definition priced (p : Z) : Prop := 0 < p ≤ 1000000000000000.

Lemma band_delta_exact config p : priced p →
  band_delta config p = (if p <=? 7500 then (p * band_bps config p / 10000) `min` 1500 else p * band_bps config p / 10000) ∧ 0 ≤ band_delta config p ≤ 2 * p.
Proof.
  intros [Hp0 Hp]. pose proof (band_bps_range config p) as Hb. unfold band_delta, u64. rewrite Z.mod_small by nia. set (d := p * band_bps config p / 10000).
  assert (Hd : 0 ≤ d ≤ 2 * p) by (subst d; split; [apply Z.div_pos; nia|apply Z.div_le_upper_bound; nia]). destruct (Z.leb_spec p 7500), (Z.ltb_spec 1500 d); cbn [andb]; lia.
Qed.

(** After a reference price is set the bands are the price plus and minus the band's
    share of it, cut at zero and, up to 75 cents, at 15 cents; the reference itself
    trades unless the symbol is paused. *)
Theorem luld_bands_bracket e p :
  priced p →
  let e' := set_reference_price e p in
  let b := le_bands e' in
  lb_lower_band b = 0 `max` (p - band_delta (le_config e) p) ∧ lb_upper_band b = p + band_delta (le_config e) p ∧ lb_lower_band b ≤ p ≤ lb_upper_band b ∧
  (p ≤ 7500 → lb_upper_band b - p ≤ 1500) ∧ is_trade_allowed e' p = negb (bool_decide (lb_state (le_bands e) = TradingPause)).
Proof.
  intros Hp. destruct (band_delta_exact (le_config e) p Hp) as [Hd Hr]. unfold priced in Hp. cbv zeta. unfold set_reference_price, recalculate_bands, is_trade_allowed.
  cbn [le_bands le_config lb_reference_price lb_state]. rewrite (proj2 (Z.eqb_neq p 0)) by lia. cbn [with_bands lb_lower_band lb_upper_band lb_state lb_reference_price]. rewrite (proj2 (Z.eqb_neq p 0)) by lia.
  unfold u64. rewrite Z.mod_small by lia. set (d := band_delta (le_config e) p) in *. destruct (Z.ltb_spec d p); split_and!; try lia; try (case_bool_decide; cbn [negb]; lia).
  all: intros Hs; rewrite (proj2 (Z.leb_le p 7500)) in Hd by done; lia.
Qed.

(** ** Runs *)

Inductive luld_op := SetReference (p : Z) | Nbbo (bid ask now : Z) | Resume (p : Z).

Definition luld_do (e : LuldEngine) (op : luld_op) : LuldEngine :=
  match op with
  | SetReference p => set_reference_price e p
  | Nbbo bid ask now => update_nbbo e bid ask now
  | Resume p => resume_trading e p
  end.
Definition luld_run (e : LuldEngine) (ops : list luld_op) : LuldEngine := foldl luld_do e ops.
Definition state_of (e : LuldEngine) : LuldState := lb_state (le_bands e).

(** Out of the bands, and the clock runs. *)
Definition timed (e : LuldEngine) : Prop := state_of e = Straddle ∨ state_of e = LimitState.

Lemma set_reference_state e p :
  state_of (set_reference_price e p) = state_of e ∧ lb_straddle_start_ns (le_bands (set_reference_price e p)) = lb_straddle_start_ns (le_bands e) ∧
  lb_pause_triggered (le_bands (set_reference_price e p)) = lb_pause_triggered (le_bands e).
Proof. unfold state_of, set_reference_price, recalculate_bands. cbn. by case_cond. Qed.

Lemma luld_config e op : le_config (luld_do e op) = le_config e.
Proof. by destruct op. Qed.

(** Decide the tests of a known state. *)
Ltac decide_state := repeat (first [rewrite bool_decide_eq_true_2 by done|rewrite bool_decide_eq_false_2 by done]); cbn [negb andb orb].

(** How a step can leave the clock running. *)
Lemma timed_step e op : timed (luld_do e op) →
  (timed e ∧ lb_straddle_start_ns (le_bands (luld_do e op)) = lb_straddle_start_ns (le_bands e)) ∨
  (state_of e = Normal ∧ ∃ bid ask, op = Nbbo bid ask (lb_straddle_start_ns (le_bands (luld_do e op)))).
Proof.
  unfold timed. destruct op as [p|bid ask now|p]; cbn [luld_do].
  - destruct (set_reference_state e p) as (-> & -> & _). by left.
  - unfold state_of, update_nbbo, nbbo_step. cbn [le_bands]. destruct (lb_state (le_bands e)) eqn:Es; decide_state;
      repeat case_cond; cbn [with_luld_state lb_state lb_straddle_start_ns le_bands]; rewrite ?Es; naive_solver.
  - unfold resume_trading. destruct (set_reference_state (mkLuld (le_config e) (with_luld_state (le_bands e) Normal 0 false)) p) as (-> & _). cbn. naive_solver.
Qed.

(** How a step can pause. *)
Lemma pause_step e op : state_of (luld_do e op) = TradingPause → state_of e ≠ TradingPause →
  timed e ∧ ∃ bid ask now, op = Nbbo bid ask now ∧ u64 (lb_straddle_start_ns (le_bands e) + lc_straddle_timeout_ns (le_config e)) ≤ now.
Proof.
  unfold timed. destruct op as [p|bid ask now|p]; cbn [luld_do].
  - destruct (set_reference_state e p) as (-> & _). done.
  - unfold state_of, update_nbbo, nbbo_step. cbn [le_bands]. intros H Hn. destruct (Z.leb_spec (u64 (lb_straddle_start_ns (le_bands e) + lc_straddle_timeout_ns (le_config e))) now).
    + destruct (lb_state (le_bands e)) eqn:Es; try done; [|naive_solver|naive_solver]. exfalso. revert H. decide_state.
      repeat case_cond; cbn [with_luld_state lb_state]; by rewrite ?Es.
    + exfalso. revert H. destruct (lb_state (le_bands e)) eqn:Es; try done; decide_state;
      repeat case_cond; cbn [with_luld_state lb_state]; by rewrite ?Es.
  - unfold resume_trading. by destruct (set_reference_state (mkLuld (le_config e) (with_luld_state (le_bands e) Normal 0 false)) p) as (-> & _).
Qed.

(** The quote that started the clock: the symbol was normal before it, and out of its
    bands ever since. *)
Definition started (e : LuldEngine) (ops : list luld_op) (start : Z) : Prop :=
  ∃ before bid ask since, ops = before ++ Nbbo bid ask start :: since ∧ state_of (luld_run e before) = Normal ∧
    ∀ some, some `prefix_of` since → timed (luld_run e (before ++ Nbbo bid ask start :: some)).

Lemma luld_run_snoc e ops op : luld_run e (ops ++ [op]) = luld_do (luld_run e ops) op.
Proof. unfold luld_run. by rewrite foldl_app. Qed.

Lemma prefix_snoc {A} (l1 l2 : list A) x : l1 `prefix_of` l2 ++ [x] → l1 = l2 ++ [x] ∨ l1 `prefix_of` l2.
Proof.
  intros [k E]. destruct k as [|y k _] using rev_ind; [left; by rewrite app_nil_r in E|]. rewrite app_assoc in E. apply app_inj_tail in E as [-> _]. right. by exists k.
Qed.

Lemma timed_started e ops : ¬ timed e → timed (luld_run e ops) → started e ops (lb_straddle_start_ns (le_bands (luld_run e ops))).
Proof.
  intros Hn. induction ops as [|op ops IH] using rev_ind; [done|]. rewrite luld_run_snoc. intros Ht. destruct (timed_step _ _ Ht) as [[Hb ->]|[Hs (bid & ask & Hop)]].
  - specialize (IH Hb). revert IH. generalize (lb_straddle_start_ns (le_bands (luld_run e ops))). intros start (before & bid & ask & since & E & Hs & Hall).
    exists before, bid, ask, (since ++ [op]). split_and!; [by rewrite E, <- app_assoc|done|]. intros some Hpre.
    apply prefix_snoc in Hpre as [->|Hpre]; [|by apply Hall]. rewrite app_comm_cons, app_assoc, <- E. by rewrite luld_run_snoc.
  - exists ops, bid, ask, []. split_and!; [by rewrite <- Hop|done|]. intros some Hpre. apply prefix_nil_inv in Hpre as ->. rewrite <- Hop. by rewrite luld_run_snoc.
Qed.

Lemma luld_run_config e ops : le_config (luld_run e ops) = le_config e.
Proof. induction ops as [|op ops IH] using rev_ind; [done|]. by rewrite luld_run_snoc, luld_config. Qed.

(** A symbol is paused only by a quote that finds it out of its bands for the whole
    timeout: some earlier quote took it out of the normal state, no quote since then
    brought it back, and the timeout has passed since. *)
Theorem luld_pause_needs_timeout e ops op :
  state_of e = Normal → state_of (luld_run e ops) ≠ TradingPause → state_of (luld_run e (ops ++ [op])) = TradingPause →
  ∃ start bid ask now, started e ops start ∧ op = Nbbo bid ask now ∧ u64 (start + lc_straddle_timeout_ns (le_config e)) ≤ now.
Proof.
  intros Hn H1 H2. rewrite luld_run_snoc in H2. destruct (pause_step _ _ H2 H1) as [Ht (bid & ask & now & -> & Hnow)]. rewrite luld_run_config in Hnow.
  exists (lb_straddle_start_ns (le_bands (luld_run e ops))), bid, ask, now. split_and!; [|done|done]. apply timed_started; [|done]. unfold timed. rewrite Hn. by intros [|].
Qed.

(** A paused symbol stays paused, and trades at no price, until [resume_trading]. *)
Theorem luld_pause_holds e ops : state_of e = TradingPause → Forall (λ op, match op with Resume _ => False | _ => True end) ops →
  state_of (luld_run e ops) = TradingPause ∧ ∀ p, is_trade_allowed (luld_run e ops) p = false.
Proof.
  intros Hp Hops. assert (Hs : state_of (luld_run e ops) = TradingPause).
  { revert e Hp. induction Hops as [|op ops Hop _ IH]; intros e Hp; [done|]. cbn. apply IH. destruct op as [p|bid ask now|p]; cbn [luld_do]; [by destruct (set_reference_state e p) as (-> & _)| |done].
    unfold state_of, luld_do, update_nbbo, nbbo_step in *. cbn [le_bands]. case_cond; [done|]. by rewrite bool_decide_eq_true_2. }
  split; [done|]. intros p. unfold is_trade_allowed. by rewrite bool_decide_eq_true_2.
Qed.

(** The pause flag is the paused state, in every run from a new engine. *)
Theorem luld_flag_agrees config ops : let e := luld_run (LuldEngine_new config) ops in lb_pause_triggered (le_bands e) = bool_decide (state_of e = TradingPause).
Proof.
  cbv zeta. induction ops as [|op ops IH] using rev_ind; [done|]. rewrite luld_run_snoc. set (e := luld_run _ ops) in *. clearbody e. destruct op as [p|bid ask now|p]; cbn [luld_do].
  - by destruct (set_reference_state e p) as (-> & _ & ->).
  - unfold state_of, update_nbbo, nbbo_step in *. cbn [le_bands]. destruct (lb_state (le_bands e)) eqn:Es; decide_state; rewrite ?IH;
      repeat case_cond; cbn [with_luld_state lb_state lb_pause_triggered]; rewrite ?IH, ?Es; done.
  - unfold resume_trading. by destruct (set_reference_state (mkLuld (le_config e) (with_luld_state (le_bands e) Normal 0 false)) p) as (-> & _ & ->).
Qed.
