(* ===== verification/WsText.v ===== *)
(** * WsText: the texts the WebSocket server writes and checks (src/luv_websocket.cpp)

    Decimal numbers and the JSON text of a fill, written into a fixed buffer at an
    offset; and the UTF-8 validation of a close reason.  A [char] is its byte; the
    buffer is a list of [capacity] bytes and a write outside it is undefined
    behaviour ([None]). *)

From S2P Require Import Prelude Gateway.
From Stdlib Require Import ZArith Lia String.
From stdpp Require Import base tactics gmap numbers option list.
Open Scope Z_scope.

(** ** Appending to a buffer *)

(** The buffer and the offset behind what has been written. *)
Record Cursor := mkCursor { cur_output : list Z; cur_offset : Z }.

(** [None] is undefined behaviour; the bool is the function's result. *)
Definition append_literal (c : Cursor) (literal : list Z) : option (Cursor * bool) :=
  let kBytes := Z.of_nat (length literal) in
  let capacity := Z.of_nat (length (cur_output c)) in
  if u64 (capacity - cur_offset c) <? kBytes then Some (c, false)
  else output ← put (cur_output c) (Z.to_nat (cur_offset c)) literal;
       Some (mkCursor output (cur_offset c + kBytes), true).

(** The digits of [value], least significant first: the do-while loop. *)
Fixpoint reversed_digits (fuel : nat) (value : Z) : option (list Z) :=
  match fuel with
  | O => None
  | S fuel' =>
      let digit := 48 + value mod 10 in
      let value := value / 10 in
      if negb (value =? 0) then r ← reversed_digits fuel' value; Some (digit :: r) else Some [digit]
  end.

Definition append_unsigned (c : Cursor) (value : Z) : option (Cursor * bool) :=
  reversed ← reversed_digits 20 value;
  let count := Z.of_nat (length reversed) in
  let capacity := Z.of_nat (length (cur_output c)) in
  if u64 (capacity - cur_offset c) <? count then Some (c, false)
  else output ← put (cur_output c) (Z.to_nat (cur_offset c)) (reverse reversed);
       Some (mkCursor output (cur_offset c + count), true).

Definition append_signed (c : Cursor) (value : Z) : option (Cursor * bool) :=
  if 0 <=? value then append_unsigned c value
  else if cur_offset c =? Z.of_nat (length (cur_output c)) then Some (c, false)
  else output ← put (cur_output c) (Z.to_nat (cur_offset c)) [45];
       append_unsigned (mkCursor output (cur_offset c + 1)) (u64 (0 - u64 value)).

(** [a && b] over one cursor. *)
Definition and_then (a b : Cursor → option (Cursor * bool)) (c : Cursor) : option (Cursor * bool) :=
  '(c, ok) ← a c; if ok : bool then b c else Some (c, false).

(** JSON text, with a quote written as an apostrophe. *)
Definition json (s : string) : list Z := (λ c, if c =? 39 then 34 else c) <$> str s.

Definition format_fill_json (output : list Z) (event : FillEvent) : option (Cursor * bool) :=
  and_then (λ c, append_literal c (json "{'event':'fill','order_id':"))
  (and_then (λ c, append_unsigned c (fe_order_id event))
  (and_then (λ c, append_literal c (json ",'filled_qty':"))
  (and_then (λ c, append_signed c (fe_filled_qty event))
  (and_then (λ c, append_literal c (json ",'fill_price':"))
  (and_then (λ c, append_signed c (fe_fill_price event))
  (and_then (λ c, append_literal c (json ",'timestamp_ns':"))
  (and_then (λ c, append_unsigned c (fe_timestamp_ns event))
            (λ c, append_literal c (json "}"))))))))) (mkCursor output 0).

(** ** UTF-8 *)

(** The continuation bytes of one character: the code point and what follows. *)
Fixpoint continuation (count : nat) (text : list Z) (code_point : Z) : option (Z * list Z) :=
  match count with
  | O => Some (code_point, text)
  | S count' =>
      match text with
      | [] => None
      | next :: text' =>
          if negb (Z.land next 0xC0 =? 0x80) then None
          else continuation count' text' (Z.lor (Z.shiftl code_point 6) (Z.land next 0x3F))
      end
  end.

(** The leading byte: initial bits, number of continuation bytes, least code point. *)
Definition utf8_lead (first : Z) : option (Z * nat * Z) :=
  if Z.land first 0xE0 =? 0xC0 then Some (Z.land first 0x1F, 1%nat, 0x80)
  else if Z.land first 0xF0 =? 0xE0 then Some (Z.land first 0x0F, 2%nat, 0x800)
  else if Z.land first 0xF8 =? 0xF0 then Some (Z.land first 0x07, 3%nat, 0x10000)
  else None.

Fixpoint utf8_loop (fuel : nat) (text : list Z) : option bool :=
  match fuel, text with
  | _, [] => Some true
  | O, _ => None
  | S fuel', first :: rest =>
      if first <=? 0x7F then utf8_loop fuel' rest else
      match utf8_lead first with
      | None => Some false
      | Some (bits, count, minimum) =>
          if (length rest <? count)%nat then Some false else
          match continuation count rest bits with
          | None => Some false
          | Some (code_point, rest) =>
              if (code_point <? minimum) || (0x10FFFF <? code_point) || ((0xD800 <=? code_point) && (code_point <=? 0xDFFF))
              then Some false else utf8_loop fuel' rest
          end
      end
  end.

(** [size] is the length of the text; the text is not null. *)
Definition valid_utf8 (text : list Z) : option bool := utf8_loop (length text) text.

Definition valid_close_code (code : Z) : bool :=
  if (3000 <=? code) && (code <=? 4999) then true
  else (1000 <=? code) && (code <=? 1014) && negb (code =? 1004) && negb (code =? 1005) && negb (code =? 1006).

(** ** UTF-8: the definition of the encoding *)

Definition scalar_value (c : Z) : Prop := 0 ≤ c ≤ 0x10FFFF ∧ ¬ (0xD800 ≤ c ≤ 0xDFFF).

Definition utf8_encode (c : Z) : list Z :=
  if c <? 0x80 then [c]
  else if c <? 0x800 then [0xC0 + c / 64; 0x80 + c mod 64]
  else if c <? 0x10000 then [0xE0 + c / 4096; 0x80 + c / 64 mod 64; 0x80 + c mod 64]
  else [0xF0 + c / 262144; 0x80 + c / 4096 mod 64; 0x80 + c / 64 mod 64; 0x80 + c mod 64].

Definition is_utf8 (text : list Z) : Prop := ∃ cs, Forall scalar_value cs ∧ text = concat (utf8_encode <$> cs).

Example utf8_smoke : valid_utf8 [0xE2; 0x82; 0xAC; 65] = Some true ∧ valid_utf8 [0xC0; 0x80] = Some false ∧
  valid_utf8 [0xED; 0xA0; 0x80] = Some false.
Proof. by_decide. Qed.

Example json_smoke : (λ '(c, _), take (Z.to_nat (cur_offset c)) (cur_output c)) <$>
   format_fill_json (replicate 256 0) (mkFill 42 (-7) (- 2 ^ 63) 0) =
  Some (json "{'event':'fill','order_id':42,'filled_qty':-7,'fill_price':-9223372036854775808,'timestamp_ns':0}").
Proof. vm_compute. reflexivity. Qed.

(** ** Validation is membership in the encoding *)

Lemma lead_byte b :
  0x80 ≤ b < 256 →
  utf8_lead b = if b <? 0xC0 then None else if b <? 0xE0 then Some (b - 0xC0, 1%nat, 0x80)
                else if b <? 0xF0 then Some (b - 0xE0, 2%nat, 0x800)
                else if b <? 0xF8 then Some (b - 0xF0, 3%nat, 0x10000) else None.
Proof.
  intros Hb. pose proof (byte_cases (λ b, (b <? 0x80) || bool_decide (utf8_lead b =
    if b <? 0xC0 then None else if b <? 0xE0 then Some (b - 0xC0, 1%nat, 0x80)
    else if b <? 0xF0 then Some (b - 0xE0, 2%nat, 0x800)
    else if b <? 0xF8 then Some (b - 0xF0, 3%nat, 0x10000) else None)) b) as H.
  specialize (H ltac:(vm_compute; reflexivity) ltac:(lia)). cbv beta in H. apply orb_true_iff in H as [H|H]; [lia|]. by apply bool_decide_eq_true in H.
Qed.

Lemma continuation_byte b :
  0 ≤ b < 256 → (Z.land b 0xC0 =? 0x80) = ((0x80 <=? b) && (b <? 0xC0)) ∧ (0x80 ≤ b < 0xC0 → Z.land b 0x3F = b - 0x80).
Proof.
  intros Hb. pose proof (byte_cases (λ b, bool_decide ((Z.land b 0xC0 =? 0x80) = ((0x80 <=? b) && (b <? 0xC0))) &&
    (negb ((0x80 <=? b) && (b <? 0xC0)) || (Z.land b 0x3F =? b - 0x80))) b) as H.
  specialize (H ltac:(vm_compute; reflexivity) Hb). cbv beta in H. apply andb_true_iff in H as [H1%bool_decide_eq_true H2]. split; [done|]. intros Hr.
  rewrite (proj2 (Z.leb_le _ _)), (proj2 (Z.ltb_lt _ _)) in H2 by lia. cbn in H2. lia.
Qed.

Lemma continuation_cons n b text cp :
  0 ≤ b < 256 → continuation (S n) (b :: text) cp =
    if (0x80 <=? b) && (b <? 0xC0) then continuation n text (cp * 64 + (b - 0x80)) else None.
Proof.
  intros Hb. destruct (continuation_byte b Hb) as [E1 E2]. cbn [continuation]. rewrite E1.
  destruct ((0x80 <=? b) && (b <? 0xC0)) eqn:Er; [|done]. cbn [negb]. rewrite E2 by lia.
  rewrite lor_add by lia. done.
Qed.

(** One character of the encoding is one round of the loop. *)
Lemma utf8_loop_char f c rest :
  scalar_value c → bytes rest → utf8_loop (S f) (utf8_encode c ++ rest) = utf8_loop f rest.
Proof.
  intros [Hc Hs] Hrest. unfold utf8_encode.
  destruct (Z.ltb_spec c 0x80); [cbn [app utf8_loop]; by rewrite (proj2 (Z.leb_le _ _)) by lia|].
  assert (Hd : c = c / 64 * 64 + c mod 64) by (pose proof (Z.div_mod c 64); lia).
  pose proof (Z.mod_pos_bound c 64 ltac:(lia)).
  pose proof (Z.mod_pos_bound (c / 64) 64 ltac:(lia)). pose proof (Z.mod_pos_bound (c / 4096) 64 ltac:(lia)).
  assert (Hd2 : c / 64 = c / 4096 * 64 + c / 64 mod 64).
  { replace (c / 4096) with (c / 64 / 64) by (rewrite Z.div_div by lia; done). pose proof (Z.div_mod (c / 64) 64). lia. }
  assert (Hd3 : c / 4096 = c / 262144 * 64 + c / 4096 mod 64).
  { replace (c / 262144) with (c / 4096 / 64) by (rewrite Z.div_div by lia; done). pose proof (Z.div_mod (c / 4096) 64). lia. }
  destruct (Z.ltb_spec c 0x800); [|destruct (Z.ltb_spec c 0x10000)].
  all: cbn [app utf8_loop]; rewrite (proj2 (Z.leb_gt _ _)), lead_byte by lia.
  all: repeat (rewrite (proj2 (Z.ltb_ge (_ + _) _)) by lia); rewrite (proj2 (Z.ltb_lt (_ + _) _)) by lia.
  all: cbn [length Nat.ltb Nat.leb].
  all: repeat (rewrite continuation_cons by lia; rewrite (proj2 (Z.leb_le _ _)), (proj2 (Z.ltb_lt _ _)) by lia; cbn [andb]).
  all: cbn [continuation]; match goal with |- (if ?b then _ else _) = _ => destruct b eqn:E; [exfalso|done] end; lia.
Qed.

(** A round that goes on has read one character of the encoding. *)
Lemma utf8_loop_reads f first rest :
  bytes (first :: rest) → utf8_loop (S f) (first :: rest) = Some true →
  ∃ c rest', scalar_value c ∧ first :: rest = utf8_encode c ++ rest' ∧ utf8_loop f rest' = Some true.
Proof.
  intros [Hb Hr]%Forall_cons H. cbn [utf8_loop] in H. destruct (Z.leb_spec first 0x7F).
  { exists first, rest. unfold scalar_value, utf8_encode. rewrite (proj2 (Z.ltb_lt _ _)) by lia. split_and!; [lia..|done|done]. }
  rewrite lead_byte in H by lia.
  destruct (Z.ltb_spec first 0xC0); [done|]. destruct (Z.ltb_spec first 0xE0); [|destruct (Z.ltb_spec first 0xF0)].
  3: destruct (Z.ltb_spec first 0xF8); [|done].
  all: repeat (destruct rest as [|?b rest]; [done|]; apply Forall_cons in Hr as [? Hr]; cbn [length Nat.ltb Nat.leb] in H).
  all: repeat (rewrite continuation_cons in H by done; match type of H with context [if ?b then _ else _] => destruct b eqn:? end; [|done]).
  all: cbn [continuation] in H; match type of H with context [if ?b then _ else _] => destruct b eqn:? end; [done|].
  all: match goal with E : (?c <? _) || _ || _ = false |- _ => exists c, rest end; split; [|split; [|exact H]]; [unfold scalar_value; lia|]; unfold utf8_encode.
  all: repeat match goal with |- context [if ?x <? ?y then _ else _] => destruct (Z.ltb_spec x y); [lia|] end.
  all: try match goal with |- context [if ?x <? ?y then _ else _] => destruct (Z.ltb_spec x y); [|lia] end.
  all: cbn [app]; repeat f_equal; Z.div_mod_to_equations; lia.
Qed.

Lemma utf8_encode_nonempty c : utf8_encode c ≠ [].
Proof. unfold utf8_encode. by repeat case_cond. Qed.

Lemma utf8_encode_bytes c : scalar_value c → bytes (utf8_encode c).
Proof.
  intros [Hc _]. unfold utf8_encode, bytes.
  repeat match goal with |- context [if ?x <? ?y then _ else _] => destruct (Z.ltb_spec x y) end.
  all: repeat constructor; Z.div_mod_to_equations; lia.
Qed.

Lemma utf8_bytes cs : Forall scalar_value cs → bytes (concat (utf8_encode <$> cs)).
Proof.
  intros H. unfold bytes. apply Forall_concat, Forall_fmap. eapply Forall_impl; [exact H|]. exact utf8_encode_bytes.
Qed.

(** Enough rounds for the characters: the loop accepts their encoding. *)
Lemma utf8_loop_complete cs f :
  Forall scalar_value cs → (length (concat (utf8_encode <$> cs)) ≤ f)%nat → utf8_loop f (concat (utf8_encode <$> cs)) = Some true.
Proof.
  intros H. revert f. induction H as [|c cs Hc Hcs IH]; intros f Hf; [by destruct f|]. cbn [fmap list_fmap concat] in *.
  rewrite length_app in Hf. pose proof (utf8_encode_nonempty c) as Hne. destruct (utf8_encode c) as [|b bs] eqn:E; [done|].
  cbn [length] in Hf. destruct f as [|f]; [lia|]. rewrite <- E, utf8_loop_char by (done || by apply utf8_bytes).
  apply IH. unfold fmap in *. lia.
Qed.

Lemma utf8_loop_sound f text : bytes text → utf8_loop f text = Some true → is_utf8 text.
Proof.
  revert text. induction f as [|f IH]; intros [|first rest] Hb H; try done; [by exists []..|].
  destruct (utf8_loop_reads f first rest Hb H) as (c & rest' & Hc & E & H'). rewrite E in Hb |- *.
  apply Forall_app in Hb as [_ Hb]. destruct (IH rest' Hb H') as (cs & Hcs & ->). exists (c :: cs). by split; [constructor|].
Qed.

(** The loop ends within its fuel. *)
Lemma utf8_loop_total f text : (length text ≤ f)%nat → is_Some (utf8_loop f text).
Proof.
  revert text. induction f as [|f IH]; intros [|first rest] Hl; try (by eexists); [cbn in Hl; lia|].
  cbn [length] in Hl. cbn [utf8_loop]. destruct (first <=? 0x7F); [apply IH; lia|].
  destruct (utf8_lead first) as [[[bits n] minimum]|]; [|by eexists]. case_cond; [by eexists|].
  destruct (continuation n rest bits) as [[cp rest']|] eqn:E; [|by eexists]. case_cond; [by eexists|]. apply IH.
  assert (∀ n text cp cp' text', continuation n text cp = Some (cp', text') → (length text' ≤ length text)%nat) as Hc.
  { clear. induction n as [|n IH]; intros [|b text] cp cp' text' E; cbn in E; simplify_eq; [done..|].
    destruct (negb (_ =? _)); [done|]. apply IH in E. cbn. lia. }
  apply Hc in E. lia.
Qed.

(** The close-reason check is exactly UTF-8.  For every byte string
    [valid_utf8] ends and accepts it if and only if it is the concatenated UTF-8
    encoding of Unicode scalar values: no overlong forms, no surrogates, nothing
    above U+10FFFF, no truncated character. *)
Theorem valid_utf8_exact text :
  bytes text → ∃ ok, valid_utf8 text = Some ok ∧ (ok = true ↔ is_utf8 text).
Proof.
  intros Hb. destruct (utf8_loop_total (length text) text) as [ok E]; [done|]. exists ok. split; [done|]. split.
  - intros ->. by apply (utf8_loop_sound (length text)).
  - intros (cs & Hcs & ->). unfold valid_utf8 in E. rewrite utf8_loop_complete in E by done. by simplify_eq.
Qed.

Lemma valid_utf8_exact_witness : bytes [0xE2; 0x82; 0xAC; 65] ∧ is_utf8 [0xE2; 0x82; 0xAC; 65] ∧ ¬ is_utf8 [0xED; 0xA0; 0x80].
Proof.
  split; [repeat constructor; lia|]. split.
  - destruct (valid_utf8_exact [0xE2; 0x82; 0xAC; 65]) as (ok & E & H); [repeat constructor; lia|]. apply H.
    vm_compute in E. by injection E.
  - destruct (valid_utf8_exact [0xED; 0xA0; 0x80]) as (ok & E & H); [repeat constructor; lia|]. intros Hu. apply H in Hu.
    subst ok. vm_compute in E. discriminate.
Defined.

(** ** Decimal numbers *)

Definition digit (d : Z) : bool := (48 <=? d) && (d <=? 57).
Definition numeral_value (ds : list Z) : Z := foldl (λ a d, a * 10 + (d - 48)) 0 ds.

(** A canonical numeral: digits, at least one, no leading zero. *)
Definition numeral (ds : list Z) (v : Z) : Prop :=
  Forall (λ d, digit d = true) ds ∧ numeral_value ds = v ∧ ds ≠ [] ∧ (v ≠ 0 → head ds ≠ Some 48).

Lemma numeral_value_app ds d : numeral_value (ds ++ [d]) = numeral_value ds * 10 + (d - 48).
Proof. unfold numeral_value. by rewrite foldl_app. Qed.

Lemma reversed_digits_ok fuel v :
  (0 < fuel)%nat → 0 ≤ v < 10 ^ Z.of_nat fuel →
  ∃ r, reversed_digits fuel v = Some r ∧ (length r ≤ fuel)%nat ∧ numeral (reverse r) v.
Proof.
  revert v. induction fuel as [|fuel IH]; intros v Hf Hv; [lia|]. cbn [reversed_digits].
  rewrite Nat2Z.inj_succ, Z.pow_succ_r in Hv by lia.
  pose proof (Z.div_mod v 10 ltac:(lia)) as Hdm. pose proof (Z.mod_pos_bound v 10 ltac:(lia)).
  destruct (Z.eqb_spec (v / 10) 0) as [E|E]; cbn [negb].
  - exists [48 + v mod 10]. split_and!; [done|cbn; lia|]. rewrite reverse_singleton. split_and!.
    + constructor; [unfold digit; lia|done].
    + unfold numeral_value. cbn. lia.
    + done.
    + cbn. intros Hz [=]. lia.
  - assert (0 ≤ v / 10 < 10 ^ Z.of_nat fuel) by (split; [lia|]; apply Z.div_lt_upper_bound; lia).
    destruct fuel as [|fuel]; [cbn in *; lia|].
    destruct (IH (v / 10) ltac:(lia) ltac:(lia)) as (r & -> & Hl & Hd & Hval & Hne & Hz). cbn [mbind option_bind].
    exists ((48 + v mod 10) :: r). split_and!; [done|cbn; lia|]. rewrite reverse_cons. split_and!.
    + apply Forall_app. split; [done|]. constructor; [unfold digit; lia|done].
    + rewrite numeral_value_app, Hval. lia.
    + by destruct (reverse r).
    + intros _. destruct (reverse r) as [|d ds]; [done|]. cbn in *. apply Hz. lia.
Qed.

(** ** What an append leaves in the buffer *)

Definition written (c : Cursor) : list Z := take (Z.to_nat (cur_offset c)) (cur_output c).

Definition cursor_ok (cap : Z) (c : Cursor) : Prop := Z.of_nat (length (cur_output c)) = cap ∧ 0 ≤ cur_offset c ≤ cap ∧ cap < 2 ^ 64.

(** [f] appends [bs] when it fits. *)
Definition appends (cap : Z) (bs : list Z) (f : Cursor → option (Cursor * bool)) : Prop :=
  ∀ c, cursor_ok cap c → cur_offset c + Z.of_nat (length bs) ≤ cap →
  ∃ c', f c = Some (c', true) ∧ cursor_ok cap c' ∧ written c' = written c ++ bs.

Lemma put_written c bs cap :
  cursor_ok cap c → cur_offset c + Z.of_nat (length bs) ≤ cap →
  ∃ output, put (cur_output c) (Z.to_nat (cur_offset c)) bs = Some output ∧
    cursor_ok cap (mkCursor output (cur_offset c + Z.of_nat (length bs))) ∧
    written (mkCursor output (cur_offset c + Z.of_nat (length bs))) = written c ++ bs.
Proof.
  intros (Hl & Ho & Hcap) Hf. unfold put. rewrite (proj2 (Nat.leb_le _ _)) by lia. eexists. split; [done|]. unfold cursor_ok, written. cbn.
  rewrite length_inserts. split; [lia|]. rewrite Z2Nat.inj_add, Nat2Z.id by lia.
  apply list_eq. intros i. destruct (decide (i < Z.to_nat (cur_offset c) + length bs)%nat).
  - rewrite lookup_take_lt by lia. destruct (decide (i < Z.to_nat (cur_offset c))%nat).
    + rewrite list_lookup_inserts_lt by lia. rewrite lookup_app_l by (rewrite length_take; lia). by rewrite lookup_take_lt by lia.
    + rewrite list_lookup_inserts by lia. rewrite lookup_app_r by (rewrite length_take; lia). f_equal. rewrite length_take. lia.
  - rewrite lookup_take_ge by lia. symmetry. apply lookup_ge_None. rewrite length_app, length_take. lia.
Qed.

Lemma appends_literal cap bs : appends cap bs (λ c, append_literal c bs).
Proof.
  intros c Hc Hf. pose proof Hc as (Hl & Ho & Hcap). unfold append_literal. rewrite Hl. unfold u64.
  rewrite Z.mod_small, (proj2 (Z.ltb_ge _ _)) by lia. destruct (put_written c bs cap Hc Hf) as (out & -> & Hok & Hw).
  cbn [mbind option_bind]. by eexists.
Qed.

Lemma appends_unsigned cap v :
  0 ≤ v < 2 ^ 64 → ∃ ds, numeral ds v ∧ (length ds ≤ 20)%nat ∧ appends cap ds (λ c, append_unsigned c v).
Proof.
  intros Hv. destruct (reversed_digits_ok 20 v) as (r & Hr & Hlen & Hn); [lia|cbn; lia|].
  exists (reverse r). rewrite length_reverse. split_and!; [done..|]. intros c Hc Hf. rewrite length_reverse in Hf.
  pose proof Hc as (Hl & Ho & Hcap). unfold append_unsigned. rewrite Hr. cbn [mbind option_bind]. rewrite Hl. unfold u64.
  rewrite Z.mod_small, (proj2 (Z.ltb_ge _ _)) by lia.
  destruct (put_written c (reverse r) cap Hc) as (out & -> & Hok & Hw); [by rewrite length_reverse|].
  rewrite length_reverse in Hok, Hw. cbn [mbind option_bind]. by eexists.
Qed.

(** A signed number: a minus sign before the numeral of the magnitude. *)
Definition signed_numeral (bs : list Z) (v : Z) : Prop :=
  if 0 <=? v then numeral bs v else ∃ ds, bs = 45 :: ds ∧ numeral ds (- v).

Lemma appends_signed cap v :
  INT64_MIN ≤ v ≤ INT64_MAX → ∃ bs, signed_numeral bs v ∧ (length bs ≤ 21)%nat ∧ appends cap bs (λ c, append_signed c v).
Proof.
  unfold INT64_MIN, INT64_MAX, signed_numeral. intros Hv. destruct (Z.leb_spec 0 v).
  - destruct (appends_unsigned cap v) as (ds & Hn & Hl & Ha); [lia|]. exists ds. split_and!; [done|lia|].
    intros c Hc Hf. unfold append_signed. rewrite (proj2 (Z.leb_le _ _)) by lia. by apply Ha.
  - destruct (appends_unsigned cap (- v)) as (ds & Hn & Hl & Ha); [lia|]. exists (45 :: ds). split_and!; [by exists ds|cbn; lia|].
    intros c Hc Hf. cbn [length] in Hf. unfold append_signed. rewrite (proj2 (Z.leb_gt _ _)) by lia.
    pose proof Hc as (Hlen & Ho & Hcap). rewrite Hlen, (proj2 (Z.eqb_neq _ _)) by lia.
    destruct (put_written c [45] cap Hc) as (out & -> & Hok & Hw); [cbn; lia|]. cbn [mbind option_bind length] in *.
    replace (u64 (0 - u64 v)) with (- v) by (unfold u64; Z.div_mod_to_equations; lia).
    destruct (Ha _ Hok) as (c' & Ec & Hc' & Hw'); [cbn; lia|]. exists c'. split_and!; [done..|]. rewrite Hw', Hw. by rewrite <- app_assoc.
Qed.

Lemma appends_and cap bs bs' f g : appends cap bs f → appends cap bs' g → appends cap (bs ++ bs') (and_then f g).
Proof.
  intros Hf Hg c Hc Hl. rewrite length_app in Hl. unfold and_then.
  destruct (Hf c Hc) as (c1 & -> & Hc1 & Hw); [lia|]. cbn [mbind option_bind].
  destruct (Hg c1 Hc1) as (c2 & -> & Hc2 & Hw2).
  { assert (Hlw : ∀ c, cursor_ok cap c → cur_offset c = Z.of_nat (length (written c))).
    { clear. intros c (? & ? & ?). unfold written. rewrite length_take. lia. }
    rewrite (Hlw c1 Hc1), Hw, length_app. pose proof (Hlw c Hc). lia. }
  eexists. split_and!; [done..|]. by rewrite Hw2, Hw, app_assoc.
Qed.

(** ** Reading a fill back *)

Fixpoint strip (p l : list Z) : option (list Z) :=
  match p, l with
  | [], _ => Some l
  | x :: p', y :: l' => if x =? y then strip p' l' else None
  | _, _ => None
  end.

Fixpoint span_digits (l : list Z) : list Z * list Z :=
  match l with
  | d :: l' => if digit d then (d :: (span_digits l').1, (span_digits l').2) else ([], l)
  | [] => ([], [])
  end.

Definition read_unsigned (l : list Z) : option (Z * list Z) :=
  match span_digits l with ([], _) => None | (ds, rest) => Some (numeral_value ds, rest) end.

Definition read_signed (l : list Z) : option (Z * list Z) :=
  match l with
  | c :: l' => if c =? 45 then '(v, rest) ← read_unsigned l'; Some (- v, rest) else read_unsigned l
  | [] => None
  end.

Definition read_fill (l : list Z) : option FillEvent :=
  l ← strip (json "{'event':'fill','order_id':") l;
  '(order_id, l) ← read_unsigned l;
  l ← strip (json ",'filled_qty':") l;
  '(filled_qty, l) ← read_signed l;
  l ← strip (json ",'fill_price':") l;
  '(fill_price, l) ← read_signed l;
  l ← strip (json ",'timestamp_ns':") l;
  '(timestamp_ns, l) ← read_unsigned l;
  l ← strip (json "}") l;
  match l with [] => Some (mkFill order_id filled_qty fill_price timestamp_ns) | _ => None end.

Lemma strip_app p l : strip p (p ++ l) = Some l.
Proof. induction p as [|x p IH]; [done|]. cbn. by rewrite Z.eqb_refl. Qed.

Definition ends_numeral (rest : list Z) : Prop := match rest with [] => True | c :: _ => digit c = false end.

Lemma read_numeral ds v rest : numeral ds v → ends_numeral rest → read_unsigned (ds ++ rest) = Some (v, rest).
Proof.
  intros (Hd & Hv & Hne & _) Hr. unfold read_unsigned. assert (span_digits (ds ++ rest) = (ds, rest)) as ->.
  { clear Hv Hne. induction Hd as [|d ds Hd _ IH].
    - destruct rest as [|c rest]; [done|]. cbn in *. by rewrite Hr.
    - cbn. by rewrite Hd, IH. }
  destruct ds; [done|]. by rewrite Hv.
Qed.

Lemma read_signed_numeral bs v rest : signed_numeral bs v → ends_numeral rest → read_signed (bs ++ rest) = Some (v, rest).
Proof.
  unfold signed_numeral. intros Hs Hr. destruct (0 <=? v).
  - pose proof (read_numeral bs v rest Hs Hr) as E. destruct Hs as (Hd & _ & Hne & _). destruct bs as [|b bs]; [done|].
    apply Forall_cons in Hd as [Hb _]. unfold digit in Hb. unfold read_signed. cbn [app] in *.
    by rewrite (proj2 (Z.eqb_neq _ _)) by lia.
  - destruct Hs as (ds & -> & Hn). cbn. rewrite (read_numeral ds (- v) rest Hn Hr). cbn. by rewrite Z.opp_involutive.
Qed.

Definition fill_in_range (e : FillEvent) : Prop :=
  0 ≤ fe_order_id e < 2 ^ 64 ∧ INT64_MIN ≤ fe_filled_qty e ≤ INT64_MAX ∧
  INT64_MIN ≤ fe_fill_price e ≤ INT64_MAX ∧ 0 ≤ fe_timestamp_ns e < 2 ^ 64.

(** The text of a fill, whatever the values of its fields. *)
Lemma format_fill_text cap e :
  fill_in_range e → 256 ≤ cap < 2 ^ 64 → ∃ bs,
  (length bs ≤ 154)%nat ∧ read_fill bs = Some e ∧
  ∃ c, format_fill_json (replicate (Z.to_nat cap) 0) e = Some (c, true) ∧ cursor_ok cap c ∧ written c = bs.
Proof.
  intros (H1 & H2 & H3 & H4) Hcap.
  destruct (appends_unsigned cap _ H1) as (d1 & N1 & L1 & A1). destruct (appends_signed cap _ H2) as (d2 & N2 & L2 & A2).
  destruct (appends_signed cap _ H3) as (d3 & N3 & L3 & A3). destruct (appends_unsigned cap _ H4) as (d4 & N4 & L4 & A4).
  pose proof (appends_and cap _ _ _ _ (appends_literal cap (json "{'event':'fill','order_id':")) (appends_and cap _ _ _ _ A1
    (appends_and cap _ _ _ _ (appends_literal cap (json ",'filled_qty':")) (appends_and cap _ _ _ _ A2
    (appends_and cap _ _ _ _ (appends_literal cap (json ",'fill_price':")) (appends_and cap _ _ _ _ A3
    (appends_and cap _ _ _ _ (appends_literal cap (json ",'timestamp_ns':")) (appends_and cap _ _ _ _ A4
    (appends_literal cap (json "}")))))))))) as Hf.
  match type of Hf with appends _ ?bs _ => set (text := bs) in Hf; exists text; assert (Hlen : (length text ≤ 154)%nat) end.
  { unfold text. rewrite !length_app.
    repeat match goal with |- context [length (json ?x)] =>
      let n := eval vm_compute in (length (json x)) in change (length (json x)) with n end. lia. }
  split_and!; [done| |].
  - unfold text, read_fill. rewrite strip_app. cbn [mbind option_bind]. rewrite (read_numeral _ _ _ N1) by done.
    cbn [mbind option_bind]. rewrite strip_app. cbn [mbind option_bind]. rewrite (read_signed_numeral _ _ _ N2) by done.
    cbn [mbind option_bind]. rewrite strip_app. cbn [mbind option_bind]. rewrite (read_signed_numeral _ _ _ N3) by done.
    cbn [mbind option_bind]. rewrite strip_app. cbn [mbind option_bind]. rewrite (read_numeral _ _ _ N4) by done.
    by destruct e.
  - destruct (Hf (mkCursor (replicate (Z.to_nat cap) 0) 0)) as (c & E & Hc & Hw).
    + unfold cursor_ok. cbn. rewrite length_replicate. lia.
    + cbn [cur_offset]. lia.
    + exists c. by rewrite Hw.
Qed.

(** A fill notification says what happened.  For every fill event
    whose fields fit their C++ types, [format_fill_json] succeeds in the 256-byte
    payload of [broadcast], with at most 154 bytes, and reading the JSON text back
    gives the event: no truncated text, no number off, [INT64_MIN] included. *)
Theorem fill_json_roundtrip e :
  fill_in_range e → ∃ c, format_fill_json (replicate 256 0) e = Some (c, true) ∧ cur_offset c ≤ 154 ∧ read_fill (written c) = Some e.
Proof.
  intros He. destruct (format_fill_text 256 e He) as (bs & Hl & Hr & c & E & (Hlen & Ho & _) & Hw); [lia|].
  exists c. split_and!; [done| |by rewrite Hw]. rewrite <- Hw in Hl. unfold written in Hl. rewrite length_take in Hl. lia.
Qed.

Lemma fill_json_roundtrip_witness :
  ∃ c, format_fill_json (replicate 256 0) (mkFill 7 INT64_MIN 100 3) = Some (c, true) ∧ read_fill (written c) = Some (mkFill 7 INT64_MIN 100 3).
Proof.
  destruct (fill_json_roundtrip (mkFill 7 INT64_MIN 100 3)) as (c & E & _ & H); [vm_compute; intuition congruence|]. exists c. exact (conj E H).
Defined.
