(* ===== verification/WsAccept.v ===== *)
(** * WsAccept: the WebSocket opening handshake (src/luv_websocket.cpp)

    The client's key is a C string: the memory behind the pointer as a list of
    bytes, null-terminated or not; reading past it is undefined behaviour ([None]).
    The accept value is the base64 of the SHA-1 of key and GUID; [fips_sha1] is the
    hash as the standard pads and splits its message. *)

From S2P Require Import Prelude.
From Stdlib Require Import ZArith Lia String.
From stdpp Require Import base tactics gmap numbers option list.
Open Scope Z_scope.

Definition kWebSocketGuid : list Z := str "258EAFA5-E914-47DA-95CA-C5AB0DC85B11".
Definition kWebSocketKeyBytes : Z := 24.
Definition kDecodedKeyBytes : Z := 16.
Definition kSha1Bytes : Z := 20.
Definition kAcceptBytes : Z := 28.

(** ** Base64 *)

Definition base64_value (value : Z) : Z :=
  if (65 <=? value) && (value <=? 90) then value - 65
  else if (97 <=? value) && (value <=? 122) then value - 97 + 26
  else if (48 <=? value) && (value <=? 57) then value - 48 + 52
  else if value =? 43 then 62
  else if value =? 47 then 63
  else -1.

(** [while (length <= 24 && key[length] != 0) ++length;] *)
Fixpoint key_length (n : nat) (key : list Z) (len : Z) : option Z :=
  match n with
  | O => Some len
  | S n' => c ← zget key len; if c =? 0 then Some len else key_length n' key (len + 1)
  end.

Fixpoint decode_quartets (n : nat) (key : list Z) (input : Z) (decoded : list Z) : option (option (list Z)) :=
  match n with
  | O => Some (Some decoded)
  | S n' =>
      a ← base64_value <$> zget key input;
      b ← base64_value <$> zget key (input + 1);
      c ← base64_value <$> zget key (input + 2);
      d ← base64_value <$> zget key (input + 3);
      if (a <? 0) || (b <? 0) || (c <? 0) || (d <? 0) then Some None else
      decode_quartets n' key (input + 4)
        (decoded ++ [u8 (Z.lor (Z.shiftl a 2) (Z.shiftr b 4)); u8 (Z.lor (Z.shiftl b 4) (Z.shiftr c 2));
                     u8 (Z.lor (Z.shiftl c 6) d)])
  end.

(** The inner [None] is the result false. *)
Definition decode_websocket_key (key : option (list Z)) : option (option (list Z)) :=
  match key with
  | None => Some None
  | Some key =>
      len ← key_length 25 key 0;
      if negb (len =? kWebSocketKeyBytes) then Some None else
      p ← zget key 22;
      if negb (p =? 61) then Some None else
      q ← zget key 23;
      if negb (q =? 61) then Some None else
      r ← decode_quartets 5 key 0 [];
      match r with
      | None => Some None
      | Some decoded =>
          a ← base64_value <$> zget key 20;
          b ← base64_value <$> zget key 21;
          if (a <? 0) || (b <? 0) || negb (Z.land b 0x0F =? 0) then Some None else
          let decoded := decoded ++ [u8 (Z.lor (Z.shiftl a 2) (Z.shiftr b 4))] in
          if Z.of_nat (length decoded) =? kDecodedKeyBytes then Some (Some decoded) else Some None
      end
  end.

Definition kAlphabet : list Z := str "ABCDEFGHIJKLMNOPQRSTUVWXYZabcdefghijklmnopqrstuvwxyz0123456789+/".

Definition alphabet (v : Z) : Z := default 0 (kAlphabet !! Z.to_nat v).

(** The loop over groups of three bytes, the last one padded. *)
Fixpoint encode_groups (input : list Z) : list Z :=
  match input with
  | x :: y :: z :: rest =>
      let triple := Z.lor (Z.lor (Z.shiftl x 16) (Z.shiftl y 8)) z in
      [alphabet (Z.land (Z.shiftr triple 18) 0x3F); alphabet (Z.land (Z.shiftr triple 12) 0x3F);
       alphabet (Z.land (Z.shiftr triple 6) 0x3F); alphabet (Z.land triple 0x3F)] ++ encode_groups rest
  | [x; y] =>
      let triple := Z.lor (Z.lor (Z.shiftl x 16) (Z.shiftl y 8)) 0 in
      [alphabet (Z.land (Z.shiftr triple 18) 0x3F); alphabet (Z.land (Z.shiftr triple 12) 0x3F);
       alphabet (Z.land (Z.shiftr triple 6) 0x3F); 61]
  | [x] =>
      let triple := Z.lor (Z.lor (Z.shiftl x 16) 0) 0 in
      [alphabet (Z.land (Z.shiftr triple 18) 0x3F); alphabet (Z.land (Z.shiftr triple 12) 0x3F); 61; 61]
  | [] => []
  end.

Definition base64_encode (input : list Z) : list Z := encode_groups input ++ [0].

(** ** SHA-1 *)

Definition rotate_left (value bits : Z) : Z := Z.lor (u32 (Z.shiftl value bits)) (Z.shiftr value (32 - bits)).

Record Sha := mkSha { sh_a : Z; sh_b : Z; sh_c : Z; sh_d : Z; sh_e : Z }.

Definition sha_init : Sha := mkSha 0x67452301 0xEFCDAB89 0x98BADCFE 0x10325476 0xC3D2E1F0.

Fixpoint load_words (n : nat) (padded : list Z) (offset : Z) : option (list Z) :=
  match n with
  | O => Some []
  | S n' =>
      x ← zget padded offset; y ← zget padded (offset + 1); z ← zget padded (offset + 2); t ← zget padded (offset + 3);
      ws ← load_words n' padded (offset + 4);
      Some (Z.lor (Z.lor (Z.lor (u32 (Z.shiftl x 24)) (u32 (Z.shiftl y 16))) (u32 (Z.shiftl z 8))) t :: ws)
  end.

(** Words 16 to 79, each from four earlier ones. *)
Fixpoint extend_words (n : nat) (words : list Z) : option (list Z) :=
  match n with
  | O => Some words
  | S n' =>
      let index := Z.of_nat (length words) in
      w3 ← zget words (index - 3); w8 ← zget words (index - 8);
      w14 ← zget words (index - 14); w16 ← zget words (index - 16);
      extend_words n' (words ++ [rotate_left (Z.lxor (Z.lxor (Z.lxor w3 w8) w14) w16) 1])
  end.

Definition sha_round (s : Sha) (index w : Z) : Sha :=
  let '(mkSha a b c d e) := s in
  let '(function, constant) :=
    if index <? 20 then (Z.lor (Z.land b c) (Z.land (u32 (Z.lnot b)) d), 0x5A827999)
    else if index <? 40 then (Z.lxor (Z.lxor b c) d, 0x6ED9EBA1)
    else if index <? 60 then (Z.lor (Z.lor (Z.land b c) (Z.land b d)) (Z.land c d), 0x8F1BBCDC)
    else (Z.lxor (Z.lxor b c) d, 0xCA62C1D6) in
  let next := u32 (rotate_left a 5 + function + e + constant + w) in
  mkSha next a (rotate_left b 30) c d.

Fixpoint sha_rounds (s : Sha) (index : Z) (ws : list Z) : Sha :=
  match ws with [] => s | w :: ws' => sha_rounds (sha_round s index w) (index + 1) ws' end.

Definition sha_add (s t : Sha) : Sha :=
  mkSha (u32 (sh_a s + sh_a t)) (u32 (sh_b s + sh_b t)) (u32 (sh_c s + sh_c t)) (u32 (sh_d s + sh_d t)) (u32 (sh_e s + sh_e t)).

(** One block: the 80 words from its 16, the rounds, the sum. *)
Definition sha_words (state : Sha) (words : list Z) : option Sha :=
  words ← extend_words 64 words; Some (sha_add state (sha_rounds state 0 words)).

Definition sha_block (padded : list Z) (state : Sha) (block : Z) : option Sha :=
  words ← load_words 16 padded block; sha_words state words.

Definition sha_digest (s : Sha) : list Z := concat (enc_be 4 <$> [sh_a s; sh_b s; sh_c s; sh_d s; sh_e s]).

(** The eight bytes of the bit length, from the last one backwards. *)
Fixpoint store_length (n : nat) (padded : list Z) (padded_size bit_length index : Z) : option (list Z) :=
  match n with
  | O => Some padded
  | S n' =>
      padded ← zset padded (padded_size - 1 - index) (u8 (Z.shiftr bit_length (index * 8)));
      store_length n' padded padded_size bit_length (index + 1)
  end.

Fixpoint sha_blocks (padded : list Z) (state : Sha) (blocks : list Z) : option Sha :=
  match blocks with [] => Some state | b :: bs => state ← sha_block padded state b; sha_blocks padded state bs end.

Definition sha1 (input digest : list Z) : option (list Z) :=
  let input_size := Z.of_nat (length input) in
  if 119 <? input_size then Some digest else
  padded ← put (replicate 128 0) 0 input;
  padded ← zset padded input_size 0x80;
  let padded_size := if input_size <? 56 then 64 else 128 in
  padded ← store_length 8 padded padded_size (u64 (input_size * 8)) 0;
  state ← sha_blocks padded sha_init (if padded_size =? 64 then [0] else [0; 64]);
  Some (sha_digest state).

(** ** The accept value *)

Definition make_accept (key : option (list Z)) : option (option (list Z)) :=
  decoded ← decode_websocket_key key;
  match decoded with
  | None => Some None
  | Some _ =>
      key ← key;
      chars ← slice key 0 kWebSocketKeyBytes;
      digest ← sha1 (chars ++ kWebSocketGuid) (replicate 20 0);
      Some (Some (base64_encode digest))
  end.

Example sha1_abc : sha1 (str "abc") [] = Some [0xa9; 0x99; 0x3e; 0x36; 0x47; 0x06; 0x81; 0x6a; 0xba; 0x3e; 0x25; 0x71; 0x78; 0x50;
  0xc2; 0x6c; 0x9c; 0xd0; 0xd8; 0x9d].
Proof. vm_compute. reflexivity. Qed.

(** The example of RFC 6455. *)
Example accept_rfc : make_accept (Some (str "dGhlIHNhbXBsZSBub25jZQ==" ++ [0])) = Some (Some (str "s3pPLMBiTxaQ9kYGzzhZRbK+xOo=" ++ [0])).
Proof. vm_compute. reflexivity. Qed.

(** ** Base64 is a bijection between bytes and canonical text *)

Lemma alphabet_value v : 0 ≤ v < 64 → base64_value (alphabet v) = v ∧ 0 < alphabet v < 256 ∧ alphabet v ≠ 61.
Proof.
  intros Hv. pose proof (byte_cases (λ v, (64 <=? v) || ((base64_value (alphabet v) =? v) && (0 <? alphabet v) &&
    (alphabet v <? 256) && negb (alphabet v =? 61))) v) as H.
  specialize (H ltac:(vm_compute; reflexivity) ltac:(lia)). cbv beta in H. lia.
Qed.

Lemma value_alphabet c : 0 ≤ base64_value c → 0 ≤ base64_value c < 64 ∧ alphabet (base64_value c) = c.
Proof.
  intros Hc. assert (0 ≤ c < 256).
  { unfold base64_value in Hc. repeat match type of Hc with context [if ?b then _ else _] => destruct b eqn:? end; lia. }
  pose proof (byte_cases (λ c, (base64_value c <? 0) || ((base64_value c <? 64) && (alphabet (base64_value c) =? c))) c) as E.
  specialize (E ltac:(vm_compute; reflexivity) ltac:(lia)). cbv beta in E. lia.
Qed.

(** Compare two texts character by character, by the values of the characters. *)
Ltac same_text :=
  repeat (apply (f_equal2 cons)); try reflexivity; try apply (f_equal alphabet); try apply (f_equal Some);
  repeat (apply (f_equal2 cons)); try reflexivity; Z.div_mod_to_equations; lia.

Lemma land_3f z : Z.land z 0x3F = z mod 64.
Proof. change 0x3F with (Z.ones 6). by rewrite Z.land_ones by lia. Qed.

Lemma triple_value x y z : 0 ≤ y < 256 → 0 ≤ z < 256 → Z.lor (Z.lor (Z.shiftl x 16) (Z.shiftl y 8)) z = x * 65536 + y * 256 + z.
Proof. intros. rewrite <- Z.lor_assoc, (lor_add _ z 8), lor_add by lia. lia. Qed.

(** Three bytes as four characters, by arithmetic. *)
Lemma encode_three x y z rest :
  0 ≤ x < 256 → 0 ≤ y < 256 → 0 ≤ z < 256 →
  encode_groups (x :: y :: z :: rest) =
    [alphabet (x / 4); alphabet (x mod 4 * 16 + y / 16); alphabet (y mod 16 * 4 + z / 64); alphabet (z mod 64)] ++ encode_groups rest.
Proof.
  intros. cbn [encode_groups]. rewrite triple_value by lia. rewrite !land_3f, !Z.shiftr_div_pow2 by lia. cbn [app].
  same_text.
Qed.

Lemma encode_one x :
  0 ≤ x < 256 → encode_groups [x] = [alphabet (x / 4); alphabet (x mod 4 * 16); 61; 61].
Proof.
  intros. cbn [encode_groups]. rewrite !Z.lor_0_r, Z.shiftl_mul_pow2 by lia. rewrite !land_3f, !Z.shiftr_div_pow2 by lia.
  same_text.
Qed.

(** The bytes of four characters, when they are all of the alphabet. *)
Definition quartet (c1 c2 c3 c4 : Z) : option (list Z) :=
  let a := base64_value c1 in let b := base64_value c2 in let c := base64_value c3 in let d := base64_value c4 in
  if (a <? 0) || (b <? 0) || (c <? 0) || (d <? 0) then None
  else Some [u8 (Z.lor (Z.shiftl a 2) (Z.shiftr b 4)); u8 (Z.lor (Z.shiftl b 4) (Z.shiftr c 2)); u8 (Z.lor (Z.shiftl c 6) d)].

Lemma quartet_bytes c1 c2 c3 c4 bs :
  quartet c1 c2 c3 c4 = Some bs → ∃ x y z, bs = [x; y; z] ∧ bytes bs ∧ encode_groups [x; y; z] = [c1; c2; c3; c4].
Proof.
  unfold quartet. cbv zeta. destruct ((base64_value c1 <? 0) || _ || _ || _) eqn:E; [done|]. intros [= <-].
  destruct (value_alphabet c1 ltac:(lia)) as [Ha Ea]. destruct (value_alphabet c2 ltac:(lia)) as [Hb Eb].
  destruct (value_alphabet c3 ltac:(lia)) as [Hc Ec]. destruct (value_alphabet c4 ltac:(lia)) as [Hd Ed].
  set (a := base64_value c1) in *. set (b := base64_value c2) in *. set (c := base64_value c3) in *. set (d := base64_value c4) in *.
  rewrite !Z.shiftr_div_pow2 by lia. rewrite !lor_add by (Z.div_mod_to_equations; lia). unfold u8.
  eexists _, _, _. split; [done|]. split; [repeat constructor; Z.div_mod_to_equations; lia|].
  rewrite encode_three by (Z.div_mod_to_equations; lia). cbn [app encode_groups]. rewrite <- Ea, <- Eb, <- Ec, <- Ed.
  same_text.
Qed.

Lemma quartet_encode x y z c1 c2 c3 c4 :
  bytes [x; y; z] → encode_groups [x; y; z] = [c1; c2; c3; c4] → quartet c1 c2 c3 c4 = Some [x; y; z].
Proof.
  intros Hb. inversion_clear Hb as [|? ? Hx Hb']. inversion_clear Hb' as [|? ? Hy Hb]. inversion_clear Hb as [|? ? Hz _].
  rewrite encode_three by lia. cbn [app encode_groups]. intros [= <- <- <- <-]. unfold quartet.
  rewrite (proj1 (alphabet_value (x / 4) ltac:(Z.div_mod_to_equations; lia))),
    (proj1 (alphabet_value (x mod 4 * 16 + y / 16) ltac:(Z.div_mod_to_equations; lia))),
    (proj1 (alphabet_value (y mod 16 * 4 + z / 64) ltac:(Z.div_mod_to_equations; lia))),
    (proj1 (alphabet_value (z mod 64) ltac:(Z.div_mod_to_equations; lia))). cbv zeta.
  match goal with |- (if ?b then _ else _) = _ => replace b with false by (symmetry; Z.div_mod_to_equations; lia) end.
  rewrite !Z.shiftr_div_pow2 by lia. rewrite !lor_add by (Z.div_mod_to_equations; lia). unfold u8.
  same_text.
Qed.

Lemma zget_behind {A} (l : list A) (n k : Z) : 0 ≤ n → 0 ≤ k → zget l (n + k) = drop (Z.to_nat n) l !! Z.to_nat k.
Proof. intros. unfold zget. rewrite (proj2 (Z.leb_le _ _)) by lia. rewrite lookup_drop. f_equal. lia. Qed.

(** Look up the first four characters of a list in constructor form. *)
Ltac look_up_four :=
  change (Z.to_nat 0) with 0%nat; change (Z.to_nat 1) with 1%nat; change (Z.to_nat 2) with 2%nat; change (Z.to_nat 3) with 3%nat;
  cbn [lookup list_lookup fmap option_fmap option_map mbind option_bind].

Lemma decode_quartets_step n key input acc c1 c2 c3 c4 rest :
  0 ≤ input → drop (Z.to_nat input) key = c1 :: c2 :: c3 :: c4 :: rest →
  decode_quartets (S n) key input acc =
    match quartet c1 c2 c3 c4 with Some bs => decode_quartets n key (input + 4) (acc ++ bs) | None => Some None end ∧
  drop (Z.to_nat (input + 4)) key = rest.
Proof.
  intros Hi E. split.
  - cbn [decode_quartets]. replace (zget key input) with (zget key (input + 0)) by (f_equal; lia).
    rewrite !zget_behind, E by lia.
    look_up_four. unfold quartet. cbv zeta.
    by destruct ((base64_value c1 <? 0) || (base64_value c2 <? 0) || (base64_value c3 <? 0) || (base64_value c4 <? 0)).
  - replace (Z.to_nat (input + 4)) with (Z.to_nat input + 4)%nat by lia. rewrite <- drop_drop, E. done.
Qed.

Lemma encode_groups_app bs bs' :
  (length bs mod 3 = 0)%nat → encode_groups (bs ++ bs') = encode_groups bs ++ encode_groups bs'.
Proof.
  assert (H : ∀ n bs, length bs = (3 * n)%nat → encode_groups (bs ++ bs') = encode_groups bs ++ encode_groups bs').
  { clear bs. induction n as [|n IH]; intros bs Hl; [by apply nil_length_inv in Hl; subst|].
    destruct bs as [|x [|y [|z bs]]]; cbn in Hl; try lia. cbn [app encode_groups]. rewrite (IH bs) by lia. done. }
  intros Hm. apply (H (length bs / 3)%nat). pose proof (Nat.div_mod_eq (length bs) 3). lia.
Qed.

Lemma encode_groups_length bs n : length bs = (3 * n)%nat → length (encode_groups bs) = (4 * n)%nat.
Proof.
  revert bs. induction n as [|n IH]; intros bs Hl; [by apply nil_length_inv in Hl; subst|].
  destruct bs as [|x [|y [|z bs]]]; cbn in Hl; try lia. cbn [encode_groups length app]. rewrite (IH bs) by lia. lia.
Qed.

(** [n] quartets are read exactly when they are the text of [3 n] bytes. *)
Lemma decode_quartets_spec n key input acc :
  0 ≤ input → (4 * n ≤ length (drop (Z.to_nat input) key))%nat →
  ∃ r, decode_quartets n key input acc = Some r ∧
    ∀ out, r = Some out ↔ ∃ bs, length bs = (3 * n)%nat ∧ bytes bs ∧ out = acc ++ bs ∧
      take (4 * n) (drop (Z.to_nat input) key) = encode_groups bs.
Proof.
  revert input acc. induction n as [|n IH]; intros input acc Hi Hl.
  { exists (Some acc). split; [done|]. intros out. split.
    - intros [= <-]. exists []. split_and!; [done|constructor|by rewrite app_nil_r|done].
    - intros (bs & Hb & _ & -> & _). apply nil_length_inv in Hb. subst. by rewrite app_nil_r. }
  destruct (drop (Z.to_nat input) key) as [|c1 [|c2 [|c3 [|c4 rest]]]] eqn:E; cbn [length] in Hl; try lia.
  destruct (decode_quartets_step n key input acc c1 c2 c3 c4 rest Hi E) as [-> Hd].
  replace (4 * S n)%nat with (4 + 4 * n)%nat by lia. cbn [take Nat.add].
  destruct (quartet c1 c2 c3 c4) as [bs|] eqn:Eq.
  - destruct (quartet_bytes _ _ _ _ _ Eq) as (x & y & z & -> & Hb & Henc).
    destruct (IH (input + 4) (acc ++ [x; y; z])) as (r & -> & Hr); [lia|rewrite Hd; lia|]. exists r. split; [done|].
    intros out. rewrite (Hr out), Hd. split.
    + intros (bs & Hlb & Hbb & -> & Ht). exists ([x; y; z] ++ bs). split_and!.
      * rewrite length_app. cbn. lia.
      * by apply Forall_app.
      * by rewrite app_assoc.
      * rewrite encode_groups_app by done. by rewrite Henc, <- Ht.
    + intros (bs & Hlb & Hbb & -> & Ht). destruct bs as [|x' [|y' [|z' bs]]]; cbn [length] in Hlb; try lia.
      change (x' :: y' :: z' :: bs) with ([x'; y'; z'] ++ bs) in *. apply Forall_app in Hbb as [Hb3 Hbb].
      rewrite encode_groups_app in Ht by done. pose proof (encode_groups_length [x'; y'; z'] 1 eq_refl) as Hl4.
      destruct (encode_groups [x'; y'; z']) as [|d1 [|d2 [|d3 [|d4 [|]]]]] eqn:Ed; try done.
      cbn [app] in Ht. injection Ht as -> -> -> -> Ht. pose proof (quartet_encode _ _ _ _ _ _ _ Hb3 Ed) as Eq'.
      rewrite Eq in Eq'. injection Eq' as -> -> ->. exists bs. split_and!; [lia|done|by rewrite app_assoc|done].
  - exists None. split; [done|]. intros out. split; [done|]. intros (bs & Hlb & Hbb & -> & Ht). exfalso.
    destruct bs as [|x' [|y' [|z' bs]]]; cbn [length] in Hlb; try lia.
    change (x' :: y' :: z' :: bs) with ([x'; y'; z'] ++ bs) in *. apply Forall_app in Hbb as [Hb3 Hbb].
    rewrite encode_groups_app in Ht by done. pose proof (encode_groups_length [x'; y'; z'] 1 eq_refl) as Hl4.
    destruct (encode_groups [x'; y'; z']) as [|d1 [|d2 [|d3 [|d4 [|]]]]] eqn:Ed; try done.
    cbn [app] in Ht. injection Ht as -> -> -> -> Ht. pose proof (quartet_encode _ _ _ _ _ _ _ Hb3 Ed) as Eq'. congruence.
Qed.

(** ** The key decoder accepts exactly the text of 16 bytes *)

Lemma encode_groups_chars bs : bytes bs → Forall (λ c, 0 < c < 256) (encode_groups bs).
Proof.
  assert (Ha : ∀ z, 0 < alphabet (Z.land z 0x3F) < 256).
  { intros z. rewrite land_3f. apply alphabet_value. apply Z.mod_pos_bound. lia. }
  assert (H : ∀ n bs, (length bs ≤ n)%nat → bytes bs → Forall (λ c, 0 < c < 256) (encode_groups bs)).
  { induction n as [|n IH]; intros [|x [|y [|z bs']]] Hl Hb; cbn [length] in Hl; try lia; cbn [encode_groups app].
    all: repeat (constructor; [first [apply Ha|lia]|]); try by constructor.
    apply IH; [lia|]. by do 3 apply Forall_inv_tail in Hb. }
  apply (H (length bs)). done.
Qed.

(** The key's memory ends with a null or is longer than the scan. *)
Definition key_readable (key : list Z) : Prop := 0 ∈ key ∨ (25 ≤ length key)%nat.

Lemma key_length_scan n key len :
  0 ≤ len → (0 ∈ drop (Z.to_nat len) key ∨ (n ≤ length (drop (Z.to_nat len) key))%nat) →
  ∃ m, key_length n key len = Some (len + Z.of_nat m) ∧ (m ≤ n)%nat ∧ Forall (λ c, c ≠ 0) (take m (drop (Z.to_nat len) key)) ∧
    (m = n ∨ drop (Z.to_nat len) key !! m = Some 0).
Proof.
  revert len. induction n as [|n IH]; intros len Hlen H.
  { exists O. split_and!; [cbn; f_equal; lia|lia|done|by left]. }
  cbn [key_length]. replace (zget key len) with (drop (Z.to_nat len) key !! O)
    by (replace len with (len + 0) at 2 by lia; by rewrite zget_behind by lia).
  destruct (drop (Z.to_nat len) key) as [|c rest] eqn:E; [destruct H as [H|H]; [by apply elem_of_nil in H|cbn in H; lia]|].
  cbn [lookup list_lookup mbind option_bind]. destruct (Z.eqb_spec c 0) as [->|Hc].
  { exists O. split_and!; [f_equal; lia|lia|done|by right]. }
  assert (Ed : drop (Z.to_nat (len + 1)) key = rest).
  { replace (Z.to_nat (len + 1)) with (Z.to_nat len + 1)%nat by lia. by rewrite <- drop_drop, E. }
  destruct (IH (len + 1)) as (m & Em & Hm & Hf & Hz); [lia|rewrite Ed; set_unfold; cbn in H; destruct H as [[?|?]|?]; [done|by left|right; lia]|].
  rewrite Ed in Hf, Hz. exists (S m). split_and!; [rewrite Em; f_equal; lia|lia|cbn; by constructor|]. destruct Hz; [left; lia|by right].
Qed.

Lemma last_quartet c1 c2 x :
  (0 ≤ base64_value c1 ∧ 0 ≤ base64_value c2 ∧ Z.land (base64_value c2) 0x0F = 0 ∧
     x = u8 (Z.lor (Z.shiftl (base64_value c1) 2) (Z.shiftr (base64_value c2) 4))) ↔
  (0 ≤ x < 256 ∧ encode_groups [x] = [c1; c2; 61; 61]).
Proof.
  change 0x0F with (Z.ones 4). rewrite Z.land_ones, Z.shiftr_div_pow2 by lia. split.
  - intros (H1 & H2 & Hb & ->). destruct (value_alphabet c1 H1) as [Ha Ea]. destruct (value_alphabet c2 H2) as [Hb' Eb].
    set (a := base64_value c1) in *. set (b := base64_value c2) in *.
    rewrite lor_add by (Z.div_mod_to_equations; lia). unfold u8. split; [Z.div_mod_to_equations; lia|].
    rewrite encode_one by (Z.div_mod_to_equations; lia). rewrite <- Ea, <- Eb. same_text.
  - intros [Hx E]. rewrite encode_one in E by done. injection E as <- <-.
    rewrite (proj1 (alphabet_value (x / 4) ltac:(Z.div_mod_to_equations; lia))),
      (proj1 (alphabet_value (x mod 4 * 16) ltac:(Z.div_mod_to_equations; lia))).
    rewrite lor_add by (Z.div_mod_to_equations; lia). unfold u8. split_and!; Z.div_mod_to_equations; lia.
Qed.

(** Where the scan of the text of 16 bytes stops. *)
Lemma key_text_stops out rest m :
  length out = 16%nat → bytes out → Forall (λ c, c ≠ 0) (take m (encode_groups out ++ 0 :: rest)) →
  (m = 25%nat ∨ (encode_groups out ++ 0 :: rest) !! m = Some 0) → m = 24%nat.
Proof.
  intros Hl Hb Hnz Hz. assert (Hlen : length (encode_groups out) = 24%nat).
  { rewrite <- (take_drop 15 out), encode_groups_app by (rewrite length_take; by rewrite Hl). rewrite length_app.
    rewrite (encode_groups_length (take 15 out) 5) by (rewrite length_take; lia).
    pose proof (length_drop out 15) as Hd. rewrite Hl in Hd. destruct (drop 15 out) as [|x []]; done. }
  destruct (Nat.lt_trichotomy m 24) as [Hm|[Hm|Hm]]; [exfalso|done|exfalso].
  - destruct Hz as [|Hz]; [lia|]. rewrite lookup_app_l in Hz by lia.
    apply (Forall_lookup_1 _ _ _ _ (encode_groups_chars out Hb)) in Hz. lia.
  - rewrite Forall_lookup in Hnz. apply (Hnz 24%nat 0); [|done]. rewrite lookup_take_lt by lia.
    rewrite lookup_app_r by lia. by rewrite Hlen.
Qed.

Lemma split_key_text key c1 c2 c3 c4 rest out :
  drop 20 key = c1 :: c2 :: c3 :: c4 :: 0 :: rest →
  (length out = 16%nat ∧ bytes out ∧ ∃ rest, key = encode_groups out ++ 0 :: rest) ↔
  ∃ bs x, out = bs ++ [x] ∧ length bs = 15%nat ∧ bytes bs ∧ take 20 key = encode_groups bs ∧
    0 ≤ x < 256 ∧ encode_groups [x] = [c1; c2; c3; c4].
Proof.
  intros E. pose proof (take_drop 20 key) as Hk. rewrite E in Hk. split.
  - intros (Hl & Hb & rest' & Hkey). rewrite <- (take_drop 15 out) in Hb, Hkey. apply Forall_app in Hb as [Hb Hx].
    pose proof (length_take out 15) as Hlt. pose proof (length_drop out 15) as Hld. rewrite Hl in Hlt, Hld. cbn in Hlt, Hld.
    rewrite encode_groups_app in Hkey by (by rewrite Hlt). pose proof (encode_groups_length (take 15 out) 5 Hlt) as Hle.
    assert (E1 : take 20 key = encode_groups (take 15 out)) by (rewrite Hkey, <- app_assoc; by rewrite take_app_length' by lia).
    assert (E2 : drop 20 key = encode_groups (drop 15 out) ++ 0 :: rest') by (rewrite Hkey, <- app_assoc; by rewrite drop_app_length' by lia).
    destruct (drop 15 out) as [|x []] eqn:Ex; try done. apply Forall_cons in Hx as [Hx _].
    rewrite E in E2. rewrite encode_one in E2 by done. injection E2 as -> -> -> -> _.
    exists (take 15 out), x. split_and!; [by rewrite <- Ex, take_drop|done|done|done|lia..|by rewrite encode_one].
  - intros (bs & x & -> & Hl & Hb & Ht & Hx & Ex). split_and!; [rewrite length_app; cbn; lia|by apply Forall_app; split; [|constructor]|].
    exists rest. rewrite encode_groups_app by (by rewrite Hl). rewrite <- Ht, Ex, <- app_assoc. by rewrite Hk at 1.
Qed.

Lemma decode_key_spec key :
  key_readable key →
  ∃ r, decode_websocket_key (Some key) = Some r ∧
    ∀ out, r = Some out ↔ length out = 16%nat ∧ bytes out ∧ ∃ rest, key = encode_groups out ++ 0 :: rest.
Proof.
  intros Hr. destruct (key_length_scan 25 key 0) as (m & Em & Hm & Hnz & Hz); [lia|by destruct Hr; [left|right]|].
  change (drop (Z.to_nat 0) key) with key in *. unfold decode_websocket_key. rewrite Em. cbn [mbind option_bind].
  unfold kWebSocketKeyBytes. destruct (Z.eqb_spec (0 + Z.of_nat m) 24) as [Hm24|Hm24]; cbn [negb].
  2:{ exists None. split; [done|]. intros out. split; [done|]. intros (Hl & Hb & rest & ->).
      pose proof (key_text_stops out rest m Hl Hb Hnz Hz). lia. }
  assert (m = 24%nat) as -> by lia. destruct Hz as [Hz|Hz]; [done|]. change 24%nat with (20 + 4)%nat in Hz. rewrite <- lookup_drop in Hz.
  destruct (drop 20 key) as [|c1 [|c2 [|c3 [|c4 [|z rest]]]]] eqn:E; try done. cbn in Hz. injection Hz as ->.
  pose proof (λ out, split_key_text key c1 c2 c3 c4 rest out E) as Hsplit.
  assert (Hget : ∀ k : nat, zget key (20 + Z.of_nat k) = drop 20 key !! k).
  { intros k. rewrite zget_behind by lia. by rewrite Nat2Z.id. }
  rewrite E in Hget. pose proof (Hget 0%nat : zget key 20 = Some c1) as G1. pose proof (Hget 1%nat : zget key 21 = Some c2) as G2.
  pose proof (Hget 2%nat : zget key 22 = Some c3) as G3. pose proof (Hget 3%nat : zget key 23 = Some c4) as G4. rewrite G1, G2, G3, G4.
  cbn [mbind option_bind fmap option_fmap option_map].
  destruct (decode_quartets_spec 5 key 0 []) as (r & -> & Hq); [done| |].
  { change (drop (Z.to_nat 0) key) with key. pose proof (length_drop key 20) as Hd. rewrite E in Hd. cbn in Hd. lia. }
  change (drop (Z.to_nat 0) key) with key in Hq. change (4 * 5)%nat with 20%nat in Hq. change (3 * 5)%nat with 15%nat in Hq.
  setoid_rewrite Hsplit. clear Hsplit.
  assert (Hlast : ∀ x, encode_groups [x] = [c1; c2; c3; c4] → 0 ≤ x < 256 → c3 = 61 ∧ c4 = 61).
  { intros x Ex Hx. rewrite encode_one in Ex by done. by injection Ex. }
  destruct (Z.eqb_spec c3 61) as [->|]; cbn [negb];
    [|exists None; split; [done|]; intros out; split; [done|]; intros (? & x & _ & _ & _ & _ & Hx & Ex); by destruct (Hlast x Ex Hx)].
  destruct (Z.eqb_spec c4 61) as [->|]; cbn [negb];
    [|exists None; split; [done|]; intros out; split; [done|]; intros (? & x & _ & _ & _ & _ & Hx & Ex); by destruct (Hlast x Ex Hx)].
  cbn [mbind option_bind]. destruct r as [decoded|].
  2:{ exists None. split; [done|]. intros out. split; [done|]. intros (bs & x & _ & Hl & Hb & Ht & _).
      assert (None = Some bs); [|done]. apply Hq. by exists bs. }
  destruct (proj1 (Hq decoded) eq_refl) as (bs & Hl & Hb & -> & Ht). cbn [app].
  destruct ((base64_value c1 <? 0) || (base64_value c2 <? 0) || negb (Z.land (base64_value c2) 0x0F =? 0)) eqn:Ec.
  - exists None. split; [done|]. intros out. split; [done|]. intros (bs' & x & _ & _ & _ & _ & Hx & Ex).
    destruct (proj2 (last_quartet c1 c2 x) (conj Hx Ex)) as (H1 & H2 & H3 & _). lia.
  - rewrite length_app, Hl. cbn [length Nat.add Z.of_nat]. change (_ =? kDecodedKeyBytes) with true. cbv iota.
    destruct (proj1 (last_quartet c1 c2 _) ltac:(split_and!; [lia..|reflexivity])) as [Hx Ex].
    eexists. split; [done|]. intros out. split.
    + intros [= <-]. by exists bs, (u8 (Z.lor (base64_value c1 ≪ 2) (base64_value c2 ≫ 4))).
    + intros (bs' & x & -> & Hl' & Hb' & Ht' & Hx' & Ex'). destruct (proj2 (last_quartet c1 c2 x) (conj Hx' Ex')) as (_ & _ & _ & ->).
      assert (Some ([] ++ bs) = Some bs') as [= ->]; [|done]. apply Hq. by exists bs'.
Qed.

(** ** SHA-1 as the standard defines it *)

(** Big-endian 32-bit words. *)
Fixpoint be_words (l : list Z) : list Z :=
  match l with a :: b :: c :: d :: l' => be_val [a; b; c; d] :: be_words l' | _ => [] end.

(** The message schedule: word [t] from words [t-3], [t-8], [t-14] and [t-16]. *)
Fixpoint schedule (n : nat) (block : list Z) : list Z :=
  match n with
  | O => block
  | S n' =>
      let ws := schedule n' block in
      let w k := default 0 (ws !! (16 + n' - k)%nat) in
      ws ++ [rotate_left (Z.lxor (Z.lxor (Z.lxor (w 3%nat) (w 8%nat)) (w 14%nat)) (w 16%nat)) 1]
  end.

Definition fips_compress (s : Sha) (block : list Z) : Sha := sha_add s (sha_rounds s 0 (schedule 64 (be_words block))).

(** A one bit, zeros up to 8 bytes before a block boundary, the length in bits. *)
Definition fips_pad (m : list Z) : list Z :=
  let n := Z.of_nat (length m) in m ++ [0x80] ++ replicate (Z.to_nat ((55 - n) mod 64)) 0 ++ enc_be 8 (8 * n).

Fixpoint chunks (n : nat) (l : list Z) : list (list Z) :=
  match n with O => [] | S n' => take 64 l :: chunks n' (drop 64 l) end.

Definition fips_sha1 (m : list Z) : list Z :=
  sha_digest (foldl fips_compress sha_init (chunks (length (fips_pad m) / 64) (fips_pad m))).

Lemma schedule_length n block : length (schedule n block) = (n + length block)%nat.
Proof. induction n as [|n IH]; [done|]. cbn [schedule]. rewrite length_app, IH. cbn. lia. Qed.

Lemma extend_words_schedule n k block :
  length block = 16%nat → extend_words n (schedule k block) = Some (schedule (n + k) block).
Proof.
  intros Hb. revert k. induction n as [|n IH]; intros k; [done|]. cbn [extend_words]. rewrite schedule_length, Hb.
  assert (Hget : ∀ j : nat, (0 < j ≤ 16)%nat → zget (schedule k block) (Z.of_nat (k + 16) - Z.of_nat j) =
    Some (default 0 (schedule k block !! (16 + k - j)%nat))).
  { intros j Hj. unfold zget. rewrite (proj2 (Z.leb_le _ _)) by lia.
    replace (Z.to_nat (Z.of_nat (k + 16) - Z.of_nat j)) with (16 + k - j)%nat by lia.
    destruct (lookup_lt_is_Some_2 (schedule k block) (16 + k - j)) as [w Hw]; [rewrite schedule_length; lia|]. by rewrite Hw. }
  rewrite (Hget 3%nat ltac:(lia) : zget _ (_ - 3) = _), (Hget 8%nat ltac:(lia) : zget _ (_ - 8) = _), (Hget 14%nat ltac:(lia) : zget _ (_ - 14) = _),
    (Hget 16%nat ltac:(lia) : zget _ (_ - 16) = _). cbn [mbind option_bind].
  replace (S n + k)%nat with (n + S k)%nat by lia. rewrite <- IH. done.
Qed.

Lemma load_words_spec n padded offset :
  bytes padded → 0 ≤ offset → (Z.to_nat offset + 4 * n ≤ length padded)%nat →
  load_words n padded offset = Some (be_words (take (4 * n) (drop (Z.to_nat offset) padded))).
Proof.
  intros Hb. revert offset. induction n as [|n IH]; intros offset Ho Hl; [done|]. cbn [load_words].
  replace (zget padded offset) with (zget padded (offset + 0)) by (f_equal; lia). rewrite !zget_behind by lia.
  pose proof (length_drop padded (Z.to_nat offset)) as Hd. pose proof (Forall_drop _ (Z.to_nat offset) _ Hb) as Hbd.
  assert (Ed : drop (Z.to_nat (offset + 4)) padded = drop 4 (drop (Z.to_nat offset) padded)).
  { rewrite drop_drop. f_equal. lia. }
  rewrite IH, Ed by lia. destruct (drop (Z.to_nat offset) padded) as [|x [|y [|z [|t rest]]]]; cbn [length] in Hd; try lia.
  do 4 (apply Forall_cons in Hbd as [? Hbd]). look_up_four.
  replace (4 * S n)%nat with (4 + 4 * n)%nat by lia. cbn [take Nat.add be_words drop]. do 2 f_equal. cbn [be_val length].
  unfold u32. rewrite !Z.shiftl_mul_pow2, !Z.mod_small by lia. rewrite <- !Z.shiftl_mul_pow2 by lia.
  rewrite <- !Z.lor_assoc, (lor_add z t 8), (lor_add y _ 16), (lor_add x _ 24) by lia. lia.
Qed.

Lemma be_words_length n l : length l = (4 * n)%nat → length (be_words l) = n.
Proof.
  revert l. induction n as [|n IH]; intros l Hl; [by apply nil_length_inv in Hl; subst|].
  destruct l as [|a [|b [|c [|d l]]]]; cbn [length] in Hl; try lia. cbn [be_words length]. rewrite IH by lia. done.
Qed.

Lemma sha_block_spec padded state block :
  bytes padded → 0 ≤ block → (Z.to_nat block + 64 ≤ length padded)%nat →
  sha_block padded state block = Some (fips_compress state (take 64 (drop (Z.to_nat block) padded))).
Proof.
  intros Hb Ho Hl. unfold sha_block. rewrite load_words_spec by (done || lia). cbn [mbind option_bind]. unfold sha_words, fips_compress.
  change (4 * 16)%nat with 64%nat. set (ws := be_words _). change ws with (schedule 0 ws) at 1.
  rewrite extend_words_schedule; [done|]. apply be_words_length. rewrite length_take, length_drop. lia.
Qed.

Lemma enc_be_snoc n w : enc_be (S n) w = enc_be n (Z.shiftr w 8) ++ [u8 w].
Proof.
  induction n as [|n IH]; [done|].
  change (enc_be (S (S n)) w) with (u8 (Z.shiftr w (8 * Z.of_nat (S n))) :: enc_be (S n) w). rewrite IH. cbn [enc_be app]. f_equal.
  rewrite Z.shiftr_shiftr by lia. do 2 f_equal. lia.
Qed.

(** The length field, written from its last byte backwards. *)
Lemma store_length_spec n pre mid tail size v i :
  length mid = n → 0 ≤ i → size = Z.of_nat (length pre) + Z.of_nat n + i →
  store_length n (pre ++ mid ++ tail) size v i = Some (pre ++ enc_be n (Z.shiftr v (i * 8)) ++ tail).
Proof.
  revert mid tail i. induction n as [|n IH]; intros mid tail i Hm Hi Hs; [by apply nil_length_inv in Hm; subst|].
  destruct mid as [|m mid _] using rev_ind; [done|]. rewrite length_app in Hm. cbn in Hm.
  cbn [store_length]. unfold zset. rewrite !length_app. cbn [length].
  rewrite (proj2 (Z.leb_le _ _)), (proj2 (Z.ltb_lt _ _)) by lia. cbn [andb mbind option_bind].
  replace (<[_ := _]> _) with (pre ++ mid ++ u8 (Z.shiftr v (i * 8)) :: tail).
  - rewrite IH by lia. rewrite enc_be_snoc, Z.shiftr_shiftr by lia. rewrite <- app_assoc. do 5 f_equal. lia.
  - rewrite <- app_assoc. cbn [app]. rewrite insert_app_r_alt by lia. f_equal. rewrite insert_app_r_alt by lia. f_equal.
    by replace (_ - _ - _)%nat with O by lia.
Qed.

Lemma fips_pad_length m : (length (fips_pad m) = 64 * ((length m + 72) / 64))%nat.
Proof.
  unfold fips_pad. rewrite !length_app, length_replicate, enc_be_length. cbn [length].
  apply Nat2Z.inj. rewrite !Nat2Z.inj_add, Nat2Z.inj_mul, Nat2Z.inj_div, Z2Nat.id by (apply Z.mod_pos_bound; lia).
  rewrite Nat2Z.inj_add. cbn. Z.div_mod_to_equations. lia.
Qed.

(** The array of the code: the padded message and zeros. *)
Lemma padded_array input :
  (length input ≤ 119)%nat →
  let n := Z.of_nat (length input) in
  let size := if n <? 56 then 64 else 128 in
  (padded ← put (replicate 128 0) 0 input; padded ← zset padded n 0x80; store_length 8 padded size (u64 (n * 8)) 0) =
    Some (fips_pad input ++ replicate (128 - Z.to_nat size) 0) ∧ Z.of_nat (length (fips_pad input)) = size.
Proof.
  intros Hl. cbv zeta. remember (Z.of_nat (length input)) as n eqn:En. remember (if n <? 56 then 64 else 128) as size eqn:Es.
  assert (Hsize : size = 64 ∧ n < 56 ∨ size = 128 ∧ 56 ≤ n) by (destruct (Z.ltb_spec n 56); lia).
  split.
  - unfold put. rewrite length_replicate, (proj2 (Nat.leb_le _ _)) by lia. cbn [mbind option_bind].
    assert (list_inserts 0 input (replicate 128 0) = input ++ replicate (128 - length input) 0) as ->.
    { rewrite <- (take_drop (length input) (replicate 128 0)) at 1. rewrite take_replicate, drop_replicate.
      rewrite Nat.min_l by lia. apply list_inserts_0_r. by rewrite length_replicate. }
    unfold zset. rewrite length_app, length_replicate, (proj2 (Z.leb_le _ _)), (proj2 (Z.ltb_lt _ _)) by lia. cbn [andb mbind option_bind].
    replace (<[_ := _]> _) with ((input ++ [0x80] ++ replicate (Z.to_nat ((55 - n) mod 64)) 0) ++ replicate 8 0 ++ replicate (128 - Z.to_nat size) 0).
    + rewrite (store_length_spec 8); [|done|lia|].
      * change (0 * 8) with 0. rewrite Z.shiftr_0_r.
        replace (u64 (n * 8)) with (8 * n) by (unfold u64; rewrite Z.mod_small; lia).
        unfold fips_pad. rewrite <- En. by rewrite <- !app_assoc.
      * rewrite !length_app, length_replicate. cbn [length]. Z.div_mod_to_equations. lia.
    + rewrite insert_app_r_alt by lia. rewrite <- !app_assoc. f_equal.
      replace (128 - length input)%nat with (1 + (127 - length input))%nat by lia. rewrite replicate_add.
      replace (Z.to_nat n - length input)%nat with O by lia. cbn [app insert list_insert replicate]. f_equal.
      change (0 :: 0 :: 0 :: 0 :: 0 :: 0 :: 0 :: 0 :: ?l) with (replicate 8 0 ++ l). rewrite <- !replicate_add. f_equal.
      Z.div_mod_to_equations. lia.
  - rewrite fips_pad_length. rewrite Nat2Z.inj_mul, Nat2Z.inj_div, Nat2Z.inj_add, <- En. cbn. Z.div_mod_to_equations. lia.
Qed.

Lemma fips_pad_bytes m : bytes m → bytes (fips_pad m).
Proof.
  intros H. unfold fips_pad, bytes. rewrite !Forall_app. split_and!; [done|repeat constructor; lia| |apply enc_be_bytes].
  apply Forall_replicate. lia.
Qed.

(** The code's hash is the standard's, for the messages it accepts. *)
Lemma sha1_fips input digest : bytes input → (length input ≤ 119)%nat → sha1 input digest = Some (fips_sha1 input).
Proof.
  intros Hb Hl. unfold sha1. rewrite (proj2 (Z.ltb_ge _ _)) by lia.
  destruct (padded_array input Hl) as [Hp Hs]. cbv zeta in Hp, Hs. set (n := Z.of_nat (length input)) in *.
  destruct (put (replicate 128 0) 0 input) as [p1|]; [|done]. cbn [mbind option_bind] in *.
  destruct (zset p1 n 128) as [p2|]; [|done]. cbn [mbind option_bind] in *. rewrite Hp. cbn [mbind option_bind].
  set (size := if n <? 56 then 64 else 128) in *. assert (Hsize : size = 64 ∨ size = 128) by (unfold size; case_cond; auto).
  set (pad := fips_pad input) in *. set (tail := replicate (128 - Z.to_nat size) 0).
  assert (Hbp : bytes (pad ++ tail)) by (apply Forall_app; split; [by apply fips_pad_bytes|apply Forall_replicate; lia]).
  assert (Hlp : length (pad ++ tail) = 128%nat) by (rewrite length_app; unfold tail; rewrite length_replicate; lia).
  assert (Hblock : ∀ s b, 0 ≤ b → b + 64 ≤ size → sha_block (pad ++ tail) s b = Some (fips_compress s (take 64 (drop (Z.to_nat b) pad)))).
  { intros s b H0 H1. rewrite sha_block_spec by (done || lia). do 2 f_equal. rewrite drop_app_le by lia. rewrite take_app_le; [done|]. rewrite length_drop. lia. }
  unfold fips_sha1. fold pad. assert (length pad / 64 = Z.to_nat (size / 64))%nat as ->.
  { apply Nat2Z.inj. rewrite Nat2Z.inj_div, Hs, Z2Nat.id by (Z.div_mod_to_equations; lia). done. }
  destruct Hsize as [Hz|Hz]; rewrite Hz in *.
  - cbn [Z.eqb Pos.eqb sha_blocks]. rewrite Hblock by lia. done.
  - cbn [Z.eqb Pos.eqb sha_blocks]. rewrite Hblock by lia. cbn [mbind option_bind]. rewrite Hblock by lia. done.
Qed.

(** ** The handshake *)

(** The accept value RFC 6455 asks for. *)
Definition accept_of (key : list Z) : list Z := encode_groups (fips_sha1 (key ++ kWebSocketGuid)).

Lemma encode_key_length out : length out = 16%nat → length (encode_groups out) = 24%nat.
Proof.
  intros Hl. rewrite <- (take_drop 15 out), encode_groups_app by (rewrite length_take; by rewrite Hl). rewrite length_app.
  rewrite (encode_groups_length (take 15 out) 5) by (rewrite length_take; lia).
  pose proof (length_drop out 15) as Hd. rewrite Hl in Hd. by destruct (drop 15 out) as [|x []].
Qed.

Lemma make_accept_text out rest :
  length out = 16%nat → bytes out →
  make_accept (Some (encode_groups out ++ 0 :: rest)) = Some (Some (accept_of (encode_groups out) ++ [0])).
Proof.
  intros Hl Hb. set (k := encode_groups out). pose proof (encode_key_length out Hl) as Hk. fold k in Hk.
  unfold make_accept. destruct (decode_key_spec (k ++ 0 :: rest)) as (r & -> & Hr).
  { left. apply elem_of_app. right. apply elem_of_cons. by left. }
  cbn [mbind option_bind]. assert (r = Some out) as -> by (apply Hr; by eauto).
  unfold slice, kWebSocketKeyBytes. rewrite length_app, Hk. cbn [length].
  rewrite (proj2 (Z.leb_le (0 + 24) _)) by lia. change ((0 <=? 0) && (0 <=? 24) && true) with true.
  cbn [mbind option_bind]. change (drop (Z.to_nat 0) ?l) with l. rewrite take_app_length' by (rewrite Hk; done).
  rewrite sha1_fips; [done| |].
  - apply Forall_app. split; [|by apply (bool_decide_unpack _); vm_compute].
    eapply Forall_impl; [by apply encode_groups_chars|]. cbn. lia.
  - rewrite length_app, Hk. vm_compute. lia.
Qed.

(** C17 (equivalence): the handshake accepts exactly the keys RFC 6455 allows and
    answers what it asks.  For every key in readable memory [make_accept] ends
    without reading outside it; it succeeds if and only if the key is the base64
    text of 16 bytes, and then the answer is the base64 text of the SHA-1 of the key
    and the protocol's GUID, null-terminated; the hash is the standard's, with its
    padding rule (its round function is the one of the code, which the examples of the
    standard and of the RFC check). *)
Theorem handshake_exact key :
  key_readable key →
  ∃ r, make_accept (Some key) = Some r ∧
    ∀ answer, r = Some answer ↔ ∃ nonce rest, length nonce = 16%nat ∧ bytes nonce ∧ key = encode_groups nonce ++ 0 :: rest ∧
      answer = accept_of (encode_groups nonce) ++ [0].
Proof.
  intros Hr. destruct (decode_key_spec key Hr) as ([out|] & E & Hd).
  - destruct (proj1 (Hd out) eq_refl) as (Hl & Hb & rest & ->). rewrite make_accept_text by done. eexists. split; [done|].
    intros answer. split; [intros [= <-]; by exists out, rest|]. intros (nonce & rest' & Hl' & Hb' & Ek & ->).
    do 3 f_equal. apply app_inj_1 in Ek as [Ek _]; [done|]. by rewrite !encode_key_length.
  - exists None. split; [unfold make_accept; by rewrite E|]. intros answer. split; [done|].
    intros (nonce & rest & Hl & Hb & -> & _). by discriminate (proj2 (Hd nonce) ltac:(eauto)).
Qed.

Lemma handshake_exact_witness :
  make_accept (Some (str "dGhlIHNhbXBsZSBub25jZQ==" ++ [0])) = Some (Some (accept_of (encode_groups (str "the sample nonce")) ++ [0])).
Proof.
  destruct (handshake_exact (str "dGhlIHNhbXBsZSBub25jZQ==" ++ [0])) as (r & E & H); [right; vm_compute; repeat constructor|].
  rewrite E. f_equal. apply H. exists (str "the sample nonce"), []. split_and!; [by_decide..|vm_compute; reflexivity|reflexivity].
Defined.
