(* ===== verification/WsConn.v ===== *)
(** * WsConn: one WebSocket connection (src/luv_websocket.hpp, src/luv_websocket.cpp)

    The buffers and the frame formats of a connection slot.  Buffers are the fixed
    arrays of the source as lists; an access outside is undefined behaviour
    ([None]).  The members used only by the macOS event queue (flush_next,
    flush_queued, write_waiting) are left out: on the other platforms they never
    change. *)

From S2P Require Import Prelude WsText.
From Stdlib Require Import ZArith Lia.
From stdpp Require Import base tactics gmap numbers option list.
Open Scope Z_scope.

Definition kReadBufferBytes : Z := 2048.
Definition kWriteBufferBytes : Z := 4096.
Definition kMaxClientFrameHeaderBytes : Z := 14.
Definition kNoSubscriptionBucket : Z := 65535.

Record Connection := mkConn {
  cn_fd : Z;
  cn_order_id : Z;
  cn_last_ping_ns : Z;
  cn_last_pong_ns : Z;
  cn_write_blocked_since_ns : Z;
  cn_read_size : Z;
  cn_write_offset : Z;
  cn_write_size : Z;
  cn_subscription_bucket : Z;
  cn_subscription_prev : Z;
  cn_subscription_next : Z;
  cn_awaiting_pong : bool;
  cn_close_after_flush : bool;
  cn_fragmented_data : bool;
  cn_read_buffer : list Z;
  cn_write_buffer : list Z
}.

Definition Connection_init : Connection :=
  mkConn (-1) 0 0 0 0 0 0 0 kNoSubscriptionBucket (-1) (-1) false false false
    (replicate (Z.to_nat kReadBufferBytes) 0) (replicate (Z.to_nat kWriteBufferBytes) 0).

(** Assignments to groups of members. *)
Definition set_write (c : Connection) (offset size : Z) (buffer : list Z) : Connection :=
  mkConn (cn_fd c) (cn_order_id c) (cn_last_ping_ns c) (cn_last_pong_ns c) (cn_write_blocked_since_ns c) (cn_read_size c)
    offset size (cn_subscription_bucket c) (cn_subscription_prev c) (cn_subscription_next c) (cn_awaiting_pong c)
    (cn_close_after_flush c) (cn_fragmented_data c) (cn_read_buffer c) buffer.
Definition set_blocked (c : Connection) (since : Z) : Connection :=
  mkConn (cn_fd c) (cn_order_id c) (cn_last_ping_ns c) (cn_last_pong_ns c) since (cn_read_size c)
    (cn_write_offset c) (cn_write_size c) (cn_subscription_bucket c) (cn_subscription_prev c) (cn_subscription_next c)
    (cn_awaiting_pong c) (cn_close_after_flush c) (cn_fragmented_data c) (cn_read_buffer c) (cn_write_buffer c).
Definition set_read (c : Connection) (size : Z) (buffer : list Z) : Connection :=
  mkConn (cn_fd c) (cn_order_id c) (cn_last_ping_ns c) (cn_last_pong_ns c) (cn_write_blocked_since_ns c) size
    (cn_write_offset c) (cn_write_size c) (cn_subscription_bucket c) (cn_subscription_prev c) (cn_subscription_next c)
    (cn_awaiting_pong c) (cn_close_after_flush c) (cn_fragmented_data c) buffer (cn_write_buffer c).
Definition set_links (c : Connection) (bucket prev next : Z) : Connection :=
  mkConn (cn_fd c) (cn_order_id c) (cn_last_ping_ns c) (cn_last_pong_ns c) (cn_write_blocked_since_ns c) (cn_read_size c)
    (cn_write_offset c) (cn_write_size c) bucket prev next
    (cn_awaiting_pong c) (cn_close_after_flush c) (cn_fragmented_data c) (cn_read_buffer c) (cn_write_buffer c).
Definition set_flags (c : Connection) (awaiting_pong close_after_flush fragmented_data : bool) : Connection :=
  mkConn (cn_fd c) (cn_order_id c) (cn_last_ping_ns c) (cn_last_pong_ns c) (cn_write_blocked_since_ns c) (cn_read_size c)
    (cn_write_offset c) (cn_write_size c) (cn_subscription_bucket c) (cn_subscription_prev c) (cn_subscription_next c)
    awaiting_pong close_after_flush fragmented_data (cn_read_buffer c) (cn_write_buffer c).
Definition set_ping (c : Connection) (last_ping last_pong : Z) : Connection :=
  mkConn (cn_fd c) (cn_order_id c) last_ping last_pong (cn_write_blocked_since_ns c) (cn_read_size c)
    (cn_write_offset c) (cn_write_size c) (cn_subscription_bucket c) (cn_subscription_prev c) (cn_subscription_next c)
    (cn_awaiting_pong c) (cn_close_after_flush c) (cn_fragmented_data c) (cn_read_buffer c) (cn_write_buffer c).
Definition set_identity (c : Connection) (fd order_id : Z) : Connection :=
  mkConn fd order_id (cn_last_ping_ns c) (cn_last_pong_ns c) (cn_write_blocked_since_ns c) (cn_read_size c)
    (cn_write_offset c) (cn_write_size c) (cn_subscription_bucket c) (cn_subscription_prev c) (cn_subscription_next c)
    (cn_awaiting_pong c) (cn_close_after_flush c) (cn_fragmented_data c) (cn_read_buffer c) (cn_write_buffer c).

(** ** Outbound bytes *)

Definition pending_size (c : Connection) : Z := u64 (cn_write_size c - cn_write_offset c).

(** [queue_bytes] without the refresh of the poll set. *)
Definition put_bytes (c : Connection) (bs : list Z) : option (Connection * bool) :=
  let count := Z.of_nat (length bs) in
  if count =? 0 then Some (c, true) else
  if kWriteBufferBytes <? count then Some (c, false) else
  let pending := pending_size c in
  if kWriteBufferBytes <? u64 (pending + count) then Some (c, false) else
  buffer ← (if negb (cn_write_offset c =? 0) && negb (pending =? 0)
            then moved ← slice (cn_write_buffer c) (cn_write_offset c) pending; put (cn_write_buffer c) 0 moved
            else Some (cn_write_buffer c));
  buffer ← put buffer (Z.to_nat (u16 pending)) bs;
  Some (set_write c 0 (u16 (pending + count)) buffer, true).

(** The header of a server frame: final, not masked. *)
Definition frame_head (opcode payload_size : Z) : list Z :=
  if payload_size <=? 125 then [u8 (Z.lor 0x80 opcode); u8 payload_size]
  else [u8 (Z.lor 0x80 opcode); 126; u8 (Z.shiftr payload_size 8); u8 payload_size].

(** ** Inbound frames *)

Inductive FrameResult := kIncomplete | kConsumed | kProtocolError | kInvalidUtf8 | kMessageTooLarge.

#[export] Instance FrameResult_eq_dec : EqDecision FrameResult.
Proof. solve_decision. Defined.

(** What the header of an inbound frame says. *)
Record FrameHead := mkHead { fh_final : bool; fh_opcode : Z; fh_header_size : Z; fh_payload_size : Z }.

(** The payload length: the header size and the length, or an early return. *)
Definition payload_length (input : list Z) (read_size length_marker : Z) : option (FrameResult + (Z * Z)) :=
  if length_marker <=? 125 then Some (inr (2, length_marker))
  else if length_marker =? 126 then
    if read_size <? 4 then Some (inl kIncomplete) else
    hi ← zget input 2; lo ← zget input 3;
    let size := Z.lor (Z.shiftl hi 8) lo in
    if size <? 126 then Some (inl kProtocolError) else Some (inr (4, size))
  else
    if read_size <? 10 then Some (inl kIncomplete) else
    top ← zget input 2;
    if negb (Z.land top 0x80 =? 0) then Some (inl kProtocolError) else
    bs ← slice input 2 8;
    let size := foldl (λ size b, Z.lor (u64 (Z.shiftl size 8)) b) 0 bs in
    if size <=? 0xFFFF then Some (inl kProtocolError) else Some (inr (10, size)).

(** The checks of [consume_frame] before the payload is touched. *)
Definition parse_head (c : Connection) : option (FrameResult + FrameHead) :=
  if cn_read_size c <? 2 then Some (inl kIncomplete) else
  first ← zget (cn_read_buffer c) 0;
  second ← zget (cn_read_buffer c) 1;
  let final := negb (Z.land first 0x80 =? 0) in
  let opcode := Z.land first 0x0F in
  let masked := negb (Z.land second 0x80 =? 0) in
  if negb (Z.land first 0x70 =? 0) || negb masked then Some (inl kProtocolError) else
  l ← payload_length (cn_read_buffer c) (cn_read_size c) (Z.land second 0x7F);
  match l with
  | inl r => Some (inl r)
  | inr (header_size, payload_size) =>
      let control := negb (Z.land opcode 0x08 =? 0) in
      if control && (negb final || (125 <? payload_size)) then Some (inl kProtocolError) else
      if kReadBufferBytes - kMaxClientFrameHeaderBytes <? payload_size then Some (inl kMessageTooLarge) else
      if cn_read_size c <? header_size + 4 + payload_size then Some (inl kIncomplete)
      else Some (inr (mkHead final opcode header_size payload_size))
  end.

(** [payload[index] ^= mask[index & 3]] *)
Definition unmask (mask payload : list Z) : list Z := imap (λ i b, Z.lxor b (default 0 (mask !! (i mod 4)%nat))) payload.

(** The payload, unmasked in place. *)
Definition unmask_payload (c : Connection) (h : FrameHead) : option (Connection * list Z) :=
  mask ← slice (cn_read_buffer c) (fh_header_size h) 4;
  payload ← slice (cn_read_buffer c) (fh_header_size h + 4) (fh_payload_size h);
  let payload := unmask mask payload in
  buffer ← put (cn_read_buffer c) (Z.to_nat (fh_header_size h + 4)) payload;
  Some (set_read c (cn_read_size c) buffer, payload).

(** Drop the consumed frame from the front of the read buffer. *)
Definition drop_frame (c : Connection) (h : FrameHead) : option Connection :=
  let frame_size := fh_header_size h + 4 + fh_payload_size h in
  let remaining := cn_read_size c - frame_size in
  buffer ← (if negb (remaining =? 0) then rest ← slice (cn_read_buffer c) frame_size remaining; put (cn_read_buffer c) 0 rest
            else Some (cn_read_buffer c));
  Some (set_read c (u16 remaining) buffer).

(** The data frames of a fragmented message; [None] is a protocol error. *)
Definition fragment_step (fragmented final : bool) (opcode : Z) : option bool :=
  if opcode =? 0x00 then if fragmented then Some (negb final) else None
  else if (opcode =? 0x01) || (opcode =? 0x02) then if fragmented then None else Some (negb final)
  else None.

(** The checks on a close payload. *)
Definition check_close (payload : list Z) : option (option FrameResult) :=
  let size := Z.of_nat (length payload) in
  if size =? 1 then Some (Some kProtocolError) else
  bad_code ← (if 2 <=? size then hi ← zget payload 0; lo ← zget payload 1;
                Some (negb (valid_close_code (u16 (Z.lor (Z.shiftl hi 8) lo)))) else Some false);
  if bad_code : bool then Some (Some kProtocolError) else
  bad_text ← (if 2 <? size then ok ← valid_utf8 (drop 2 payload); Some (negb ok) else Some false);
  if bad_text : bool then Some (Some kInvalidUtf8) else Some None.

(** ** The invariant of a slot *)

Record conn_ok (c : Connection) : Prop := mk_conn_ok {
  co_read : length (cn_read_buffer c) = 2048%nat;
  co_write : length (cn_write_buffer c) = 4096%nat;
  co_bytes : bytes (cn_read_buffer c);
  co_read_size : 0 ≤ cn_read_size c ≤ 2048;
  co_write_size : 0 ≤ cn_write_offset c ≤ cn_write_size c;
  co_write_max : cn_write_size c ≤ 4096
}.

Lemma conn_ok_init : conn_ok Connection_init.
Proof.
  split; cbn; try lia; try by rewrite length_replicate. apply Forall_replicate. lia.
Qed.

(** What waits to be sent, and what has been received. *)
Definition pending (c : Connection) : list Z :=
  take (Z.to_nat (cn_write_size c - cn_write_offset c)) (drop (Z.to_nat (cn_write_offset c)) (cn_write_buffer c)).
Definition input (c : Connection) : list Z := take (Z.to_nat (cn_read_size c)) (cn_read_buffer c).

Lemma pending_length c : conn_ok c → Z.of_nat (length (pending c)) = cn_write_size c - cn_write_offset c.
Proof. intros [_ Hw _ _ Ho Hs]. unfold pending. rewrite length_take, length_drop. lia. Qed.

Lemma pending_size_length c : conn_ok c → pending_size c = Z.of_nat (length (pending c)).
Proof. intros H. rewrite pending_length by done. destruct H. unfold pending_size, u64. apply Z.mod_small. lia. Qed.

Lemma put_0 {A} (buf bs : list A) : (length bs ≤ length buf)%nat → put buf 0 bs = Some (bs ++ drop (length bs) buf).
Proof.
  intros H. unfold put. rewrite (proj2 (Nat.leb_le _ _)) by lia. f_equal.
  rewrite <- (take_drop (length bs) buf) at 1. apply list_inserts_0_r. rewrite length_take. lia.
Qed.

Lemma put_app {A} (pre buf bs : list A) :
  (length bs ≤ length buf)%nat → put (pre ++ buf) (length pre) bs = Some (pre ++ bs ++ drop (length bs) buf).
Proof.
  intros H. unfold put. rewrite length_app, (proj2 (Nat.leb_le _ _)) by lia. f_equal.
  replace (length pre) with (length pre + 0)%nat by lia. rewrite list_inserts_app_r. f_equal.
  rewrite <- (take_drop (length bs) buf) at 1. apply list_inserts_0_r. rewrite length_take. lia.
Qed.

Lemma slice_drop {A} (l : list A) (off n : Z) :
  0 ≤ off → 0 ≤ n → off + n ≤ Z.of_nat (length l) → slice l off n = Some (take (Z.to_nat n) (drop (Z.to_nat off) l)).
Proof. intros. unfold slice. rewrite (proj2 (Z.leb_le 0 off)), (proj2 (Z.leb_le 0 n)), (proj2 (Z.leb_le (off + n) _)) by lia. done. Qed.

(** Queueing appends behind what waits, or leaves everything as it was. *)
Lemma put_bytes_fits c bs :
  conn_ok c → bs ≠ [] → (length (pending c) + length bs ≤ 4096)%nat →
  ∃ buffer, put_bytes c bs = Some (set_write c 0 (Z.of_nat (length (pending c) + length bs)) buffer, true) ∧
    conn_ok (set_write c 0 (Z.of_nat (length (pending c) + length bs)) buffer) ∧
    pending (set_write c 0 (Z.of_nat (length (pending c) + length bs)) buffer) = pending c ++ bs.
Proof.
  intros Hok Hne Hfit. pose proof (pending_size_length c Hok) as Hps. pose proof (pending_length c Hok) as Hpl. destruct Hok as [Hr Hw Hb Hrs Ho Hs].
  unfold put_bytes. unfold kWriteBufferBytes. rewrite Hps.
  rewrite (proj2 (Z.eqb_neq _ _)) by (destruct bs; cbn; [done|lia]). rewrite (proj2 (Z.ltb_ge 4096 _)) by lia.
  unfold u64. rewrite (Z.mod_small (_ + _)) by lia. rewrite (proj2 (Z.ltb_ge 4096 _)) by lia.
  assert (Hmv : ∃ tail, (if negb (cn_write_offset c =? 0) && negb (Z.of_nat (length (pending c)) =? 0)
     then moved ← slice (cn_write_buffer c) (cn_write_offset c) (Z.of_nat (length (pending c))); put (cn_write_buffer c) 0 moved
     else Some (cn_write_buffer c)) = Some (pending c ++ tail) ∧ (length (pending c) + length tail = 4096)%nat).
  { destruct (Z.eqb_spec (cn_write_offset c) 0) as [E|E]; cbn [negb andb].
    - exists (drop (length (pending c)) (cn_write_buffer c)). rewrite length_drop. split; [|lia]. f_equal.
      unfold pending. rewrite E, Z.sub_0_r. change (drop (Z.to_nat 0) ?l) with l. rewrite length_take, Nat.min_l by lia. by rewrite take_drop.
    - destruct (Z.eqb_spec (Z.of_nat (length (pending c))) 0) as [E2|E2]; cbn [negb].
      + exists (cn_write_buffer c). assert (pending c = []) as -> by (apply nil_length_inv; lia). split; [done|cbn; lia].
      + rewrite slice_drop by lia. replace (Z.to_nat (Z.of_nat (length (pending c)))) with (Z.to_nat (cn_write_size c - cn_write_offset c)) by lia.
        fold (pending c). cbn [mbind option_bind]. rewrite put_0 by lia. eexists. split; [done|]. rewrite length_drop. lia. }
  destruct Hmv as (tail & -> & Hlt). cbn [mbind option_bind]. unfold u16. rewrite (Z.mod_small (Z.of_nat _)) by lia. rewrite Nat2Z.id.
  rewrite put_app by lia. cbn [mbind option_bind]. eexists. rewrite Z.mod_small by lia. rewrite <- Nat2Z.inj_add. split; [done|]. split.
  - split; cbn; try done; try lia. rewrite !length_app, length_drop. lia.
  - unfold pending at 1. cbn [set_write cn_write_size cn_write_offset cn_write_buffer]. rewrite Z.sub_0_r, Nat2Z.id. change (drop (Z.to_nat 0) ?l) with l.
    rewrite app_assoc. apply take_app_length'. by rewrite length_app.
Qed.

Lemma put_bytes_full c bs :
  conn_ok c → (4096 < length (pending c) + length bs)%nat → (length bs < 2 ^ 20)%nat → put_bytes c bs = Some (c, false).
Proof.
  intros Hok Hfull Hlen. pose proof (pending_size_length c Hok) as Hps. pose proof (pending_length c Hok) as Hpl. destruct Hok as [Hr Hw Hb Hrs Ho Hs].
  unfold put_bytes, kWriteBufferBytes. rewrite Hps. rewrite (proj2 (Z.eqb_neq _ _)) by lia.
  destruct (Z.ltb_spec 4096 (Z.of_nat (length bs))); [done|]. unfold u64. rewrite Z.mod_small by lia.
  by rewrite (proj2 (Z.ltb_lt 4096 _)) by lia.
Qed.

(** ** Client frames *)

Record ClientFrame := mkFrame { cf_final : bool; cf_opcode : Z; cf_mask : list Z; cf_payload : list Z }.

(** The length field of a masked frame: 7 bits, or a marker and 16 or 64 bits. *)
Definition length_field (n : Z) : list Z :=
  if n <=? 125 then [0x80 + n] else if n <=? 0xFFFF then (0x80 + 126) :: enc_be 2 n else (0x80 + 127) :: enc_be 8 n.

Definition client_bytes (f : ClientFrame) : list Z :=
  ((if cf_final f then 0x80 else 0) + cf_opcode f) :: length_field (Z.of_nat (length (cf_payload f))) ++
  cf_mask f ++ unmask (cf_mask f) (cf_payload f).

Record frame_valid (f : ClientFrame) : Prop := mk_frame_valid {
  fv_opcode : 0 ≤ cf_opcode f < 16;
  fv_mask : length (cf_mask f) = 4%nat ∧ bytes (cf_mask f);
  fv_payload : bytes (cf_payload f) ∧ Z.of_nat (length (cf_payload f)) ≤ 2034;
  fv_control : 8 ≤ cf_opcode f → cf_final f = true ∧ Z.of_nat (length (cf_payload f)) ≤ 125
}.

Lemma unmask_length m p : length (unmask m p) = length p.
Proof. apply length_imap. Qed.

(** Masking twice is nothing. *)
Lemma unmask_unmask m p : unmask m (unmask m p) = p.
Proof.
  apply list_eq. intros i. unfold unmask. rewrite !list_lookup_imap. destruct (p !! i) as [b|]; [|done]. cbn.
  by rewrite Z.lxor_assoc, Z.lxor_nilpotent, Z.lxor_0_r.
Qed.

Lemma lxor_byte a b : 0 ≤ a < 256 → 0 ≤ b < 256 → 0 ≤ Z.lxor a b < 256.
Proof.
  intros Ha Hb. split; [apply Z.lxor_nonneg; lia|]. destruct (decide (Z.lxor a b = 0)) as [->|Hne]; [lia|].
  change 256 with (2 ^ 8). apply Z.log2_lt_pow2; [pose proof (proj2 (Z.lxor_nonneg a b)); lia|].
  eapply Z.le_lt_trans; [apply Z.log2_lxor; lia|]. assert (∀ x, 0 ≤ x < 256 → Z.log2 x < 8) as Hl.
  { intros x Hx. destruct (decide (x = 0)) as [->|]; [done|]. apply Z.log2_lt_pow2; lia. }
  pose proof (Hl a Ha). pose proof (Hl b Hb). lia.
Qed.

Lemma unmask_bytes m p : bytes m → bytes p → bytes (unmask m p).
Proof.
  intros Hm Hp. apply Forall_lookup. intros i b. unfold unmask. rewrite list_lookup_imap.
  destruct (p !! i) as [x|] eqn:E; [|done]. cbn [fmap option_fmap option_map]. intros H. apply (inj Some) in H as <-. apply lxor_byte; [by apply (Forall_lookup_1 _ _ _ _ Hp E)|].
  destruct (m !! (i mod 4)%nat) as [y|] eqn:Ey; cbn; [by apply (Forall_lookup_1 _ _ _ _ Hm Ey)|lia].
Qed.

(** The bits of the first two bytes. *)
Lemma first_byte b :
  0 ≤ b < 256 → Z.land b 0x0F = b mod 16 ∧ (negb (Z.land b 0x80 =? 0) = (128 <=? b)) ∧
  (negb (Z.land b 0x70 =? 0) = negb (b mod 128 / 16 =? 0)) ∧ Z.land b 0x7F = b mod 128.
Proof.
  intros Hb. pose proof (byte_cases (λ b, (Z.land b 0x0F =? b mod 16) && bool_decide (negb (Z.land b 0x80 =? 0) = (128 <=? b)) &&
    bool_decide (negb (Z.land b 0x70 =? 0) = negb (b mod 128 / 16 =? 0)) && (Z.land b 0x7F =? b mod 128)) b) as H.
  specialize (H ltac:(vm_compute; reflexivity) Hb). cbv beta in H. rewrite !andb_true_iff, !bool_decide_eq_true, !Z.eqb_eq in H. naive_solver.
Qed.

Lemma opcode_control o : 0 ≤ o < 16 → negb (Z.land o 0x08 =? 0) = (8 <=? o).
Proof.
  intros Ho. pose proof (byte_cases (λ o, (16 <=? o) || bool_decide (negb (Z.land o 0x08 =? 0) = (8 <=? o))) o) as H.
  specialize (H ltac:(vm_compute; reflexivity) ltac:(lia)). cbv beta in H. apply orb_true_iff in H as [H|H]; [lia|by apply bool_decide_eq_true in H].
Qed.

(** Reading inside what has been received. *)
Lemma zget_input c k : conn_ok c → 0 ≤ k < cn_read_size c → zget (cn_read_buffer c) k = input c !! Z.to_nat k.
Proof. intros Hok Hk. unfold zget, input. rewrite (proj2 (Z.leb_le _ _)) by lia. rewrite lookup_take_lt by lia. done. Qed.

Lemma input_length c : conn_ok c → Z.of_nat (length (input c)) = cn_read_size c.
Proof. intros [Hr _ _ Hs _ _]. unfold input. rewrite length_take. lia. Qed.

Lemma input_bytes c : conn_ok c → bytes (input c).
Proof. intros Hok. apply Forall_take, co_bytes, Hok. Qed.

Lemma slice_input c off n :
  conn_ok c → 0 ≤ off → 0 ≤ n → off + n ≤ cn_read_size c → slice (cn_read_buffer c) off n = Some (take (Z.to_nat n) (drop (Z.to_nat off) (input c))).
Proof.
  intros Hok H0 H1 H2. destruct Hok as [Hr _ _ Hs _ _]. rewrite slice_drop by lia. f_equal. unfold input.
  rewrite skipn_firstn_comm, take_take. f_equal. lia.
Qed.

Lemma fold_be bs acc :
  bytes bs → 0 ≤ acc → (acc + 1) * 256 ^ Z.of_nat (length bs) ≤ 2 ^ 64 →
  foldl (λ size b, Z.lor (u64 (Z.shiftl size 8)) b) acc bs = acc * 256 ^ Z.of_nat (length bs) + be_val bs.
Proof.
  intros Hb. revert acc. induction Hb as [|b bs Hb Hbs IH]; intros acc Ha Hs; [cbn; lia|]. cbn [foldl length be_val] in *.
  rewrite Nat2Z.inj_succ, Z.pow_succ_r in * by lia. set (M := 256 ^ Z.of_nat (length bs)) in *. assert (1 ≤ M) by (unfold M; lia).
  rewrite Z.shiftl_mul_pow2 by lia. unfold u64. rewrite Z.mod_small by nia. rewrite <- Z.shiftl_mul_pow2 by lia.
  rewrite lor_add by lia. rewrite IH by nia. fold M. lia.
Qed.

(** ** What the checks say of the received bytes *)

Definition length_of (marker : Z) (rest : list Z) : FrameResult + (Z * Z) :=
  if marker <=? 125 then inr (2, marker)
  else if marker =? 126 then
    match rest with
    | a :: b :: _ => if be_val [a; b] <? 126 then inl kProtocolError else inr (4, be_val [a; b])
    | _ => inl kIncomplete
    end
  else if (length rest <? 8)%nat then inl kIncomplete
  else if 128 <=? default 0 (head rest) then inl kProtocolError
  else if be_val (take 8 rest) <=? 0xFFFF then inl kProtocolError
  else inr (10, be_val (take 8 rest)).

Definition head_of (l : list Z) : FrameResult + FrameHead :=
  match l with
  | first :: second :: rest =>
      if negb (first mod 128 / 16 =? 0) || (second <? 128) then inl kProtocolError else
      match length_of (second mod 128) rest with
      | inl r => inl r
      | inr (header_size, n) =>
          if (8 <=? first mod 16) && ((first <? 128) || (125 <? n)) then inl kProtocolError
          else if 2034 <? n then inl kMessageTooLarge
          else if Z.of_nat (length l) <? header_size + 4 + n then inl kIncomplete
          else inr (mkHead (128 <=? first) (first mod 16) header_size n)
      end
  | _ => inl kIncomplete
  end.

Lemma payload_length_of c first second rest marker :
  conn_ok c → input c = first :: second :: rest → payload_length (cn_read_buffer c) (cn_read_size c) marker = Some (length_of marker rest).
Proof.
  intros Hok E. pose proof (input_length c Hok) as Hl. pose proof (input_bytes c Hok) as Hb. rewrite E in Hl, Hb. cbn [length] in Hl.
  do 2 (apply Forall_cons in Hb as [? Hb]). unfold payload_length, length_of.
  destruct (marker <=? 125); [done|]. destruct (marker =? 126).
  - destruct (Z.ltb_spec (cn_read_size c) 4).
    + destruct rest as [|a [|b rest]]; cbn [length] in Hl; [done|done|lia].
    + destruct rest as [|a [|b rest]]; cbn [length] in Hl; [lia|lia|]. rewrite !zget_input, E by (done || lia).
      change (Z.to_nat 2) with 2%nat. change (Z.to_nat 3) with 3%nat. cbn [lookup list_lookup mbind option_bind].
      do 2 (apply Forall_cons in Hb as [? Hb]). rewrite lor_add by lia. cbn [be_val length]. replace (a * 2 ^ 8 + b) with (a * 256 ^ Z.of_nat 1 + (b * 256 ^ Z.of_nat 0 + 0)) by lia.
      by case_cond.
  - destruct (Z.ltb_spec (cn_read_size c) 10); [by rewrite (proj2 (Nat.ltb_lt _ _)) by lia|]. rewrite (proj2 (Nat.ltb_ge _ _)) by lia.
    rewrite zget_input, E by (done || lia). change (Z.to_nat 2) with 2%nat. destruct rest as [|a rest]; cbn [length] in Hl; [lia|].
    cbn [lookup list_lookup mbind option_bind head from_option id]. pose proof Hb as Hb'. apply Forall_cons in Hb' as [Ha _].
    rewrite (proj1 (proj2 (first_byte a Ha))). destruct (128 <=? a); [done|].
    rewrite slice_input, E by (done || lia). change (Z.to_nat 2) with 2%nat. change (Z.to_nat 8) with 8%nat. cbn [drop mbind option_bind].
    assert (Ht : length (take 8 (a :: rest)) = 8%nat) by (rewrite length_take; cbn [length]; lia).
    rewrite fold_be; [|by apply Forall_take|lia|rewrite Ht; cbn; lia]. rewrite Z.mul_0_l, Z.add_0_l. by case_cond.
Qed.

Lemma parse_head_of c : conn_ok c → parse_head c = Some (head_of (input c)).
Proof.
  intros Hok. pose proof (input_length c Hok) as Hl. pose proof (input_bytes c Hok) as Hb. unfold parse_head, head_of.
  destruct (Z.ltb_spec (cn_read_size c) 2); [destruct (input c) as [|? [|? ?]]; cbn [length] in Hl; [done|done|lia]|].
  destruct (input c) as [|first [|second rest]] eqn:E; cbn [length] in Hl; [lia|lia|].
  rewrite !zget_input, E by (done || lia). change (Z.to_nat 0) with 0%nat. change (Z.to_nat 1) with 1%nat. cbn [lookup list_lookup mbind option_bind].
  do 2 (apply Forall_cons in Hb as [? Hb]). destruct (first_byte first) as (E1 & E2 & E3 & _); [done|]. destruct (first_byte second) as (_ & E4 & _ & E5); [done|].
  rewrite E1, E2, E3, E4, E5. replace (negb (128 <=? second)) with (second <? 128) by lia. case_cond; [done|].
  rewrite (payload_length_of c first second rest) by done. cbn [mbind option_bind]. destruct (length_of (second mod 128) rest) as [r|[hs n]]; [done|].
  rewrite opcode_control by (apply Z.mod_pos_bound; lia). replace (negb (128 <=? first)) with (first <? 128) by lia.
  unfold kReadBufferBytes, kMaxClientFrameHeaderBytes. change (2048 - 14) with 2034. case_cond; [done|]. case_cond; [done|].
  rewrite <- Hl. cbn [length]. by case_cond.
Qed.

(** An accepted header is the front of a valid frame, all of which is there. *)
Lemma head_of_sound l h :
  bytes l → head_of l = inr h → ∃ f rest, frame_valid f ∧ l = client_bytes f ++ rest ∧
    h = mkHead (cf_final f) (cf_opcode f) (fh_header_size h) (Z.of_nat (length (cf_payload f))) ∧
    Z.of_nat (length (client_bytes f)) = fh_header_size h + 4 + Z.of_nat (length (cf_payload f)) ∧ 2 ≤ fh_header_size h.
Proof.
  intros Hb. unfold head_of. destruct l as [|first [|second rest]]; [done..|]. do 2 (apply Forall_cons in Hb as [? Hb]).
  destruct (negb (first mod 128 / 16 =? 0) || (second <? 128)) eqn:E1; [done|].
  destruct (length_of (second mod 128) rest) as [|[hs n]] eqn:El; [done|].
  destruct ((8 <=? first mod 16) && _) eqn:E2; [done|]. destruct (Z.ltb_spec 2034 n) as [|Hn]; [done|].
  destruct (Z.ltb_spec (Z.of_nat (length (first :: second :: rest))) (hs + 4 + n)) as [|Hlen]; [done|]. intros [= <-].
  assert (Hfield : ∃ field rest', second :: rest = field ++ rest' ∧ field = length_field n ∧ Z.of_nat (length field) + 1 = hs ∧ 0 ≤ n).
  { unfold length_of in El. destruct (Z.leb_spec (second mod 128) 125).
    - injection El as <- <-. exists [second], rest. split; [done|]. unfold length_field. rewrite (proj2 (Z.leb_le _ _)) by lia.
      split_and!; [f_equal; Z.div_mod_to_equations; lia|done|Z.div_mod_to_equations; lia].
    - destruct (Z.eqb_spec (second mod 128) 126) as [E126|E126].
      + destruct rest as [|a [|b rest]]; [done..|]. remember (be_val [a; b]) as v eqn:Ev. destruct (Z.ltb_spec v 126); [done|]. injection El as <- <-.
        assert (Hab : bytes [a; b]) by (change (a :: b :: rest) with ([a; b] ++ rest) in Hb; by apply Forall_app in Hb as [Hb _]).
        pose proof (be_val_range [a; b] Hab) as Hr. rewrite <- Ev in Hr. change (256 ^ Z.of_nat (length [a; b])) with 65536 in Hr.
        exists [second; a; b], rest. split; [done|]. unfold length_field. rewrite (proj2 (Z.leb_gt _ 125)), (proj2 (Z.leb_le _ _)) by lia.
        split_and!; [|done|lia]. assert (second = 128 + 126) as -> by (Z.div_mod_to_equations; lia).
        apply (f_equal2 cons); [done|]. rewrite Ev. symmetry. apply (enc_be_val [a; b] Hab).
      + destruct (length rest <? 8)%nat; [done|]. destruct (128 <=? _); [done|]. remember (be_val (take 8 rest)) as v eqn:Ev.
        destruct (Z.leb_spec v 0xFFFF); [done|]. injection El as <- <-. lia. }
  destruct Hfield as (field & rest' & E & Ef & Hhs & Hn0). cbn [length] in Hlen. pose proof (f_equal length E) as Elen. rewrite length_app in Elen. cbn [length] in Elen.
  assert (Hb' : bytes (field ++ rest')) by (rewrite <- E; by constructor). apply Forall_app in Hb' as [_ Hb'].
  set (mask := take 4 rest'). set (body := take (Z.to_nat n) (drop 4 rest')).
  assert (Lm : length mask = 4%nat) by (unfold mask; rewrite length_take; lia).
  assert (Lb : length body = Z.to_nat n) by (unfold body; rewrite length_take, length_drop; lia).
  assert (Hmb : bytes mask ∧ bytes body) by (split; [by apply Forall_take|by apply Forall_take, Forall_drop]). destruct Hmb as [Hbm Hbb].
  exists (mkFrame (128 <=? first) (first mod 16) mask (unmask mask body)), (drop (Z.to_nat n) (drop 4 rest')).
  unfold client_bytes. cbn [cf_final cf_opcode cf_mask cf_payload fh_header_size]. rewrite unmask_length, unmask_unmask, Lb, Z2Nat.id, <- Ef by lia.
  split_and!.
  - split; cbn [cf_final cf_opcode cf_mask cf_payload].
    + apply Z.mod_pos_bound. lia.
    + done.
    + split; [by apply unmask_bytes|]. rewrite unmask_length, Lb. lia.
    + intros H8. rewrite unmask_length, Lb. rewrite (proj2 (Z.leb_le _ _)) in E2 by lia. cbn [andb] in E2. lia.
  - cbn [app]. assert (Hf : first mod 128 / 16 = 0) by lia.
    f_equal; [destruct (Z.leb_spec 128 first); Z.div_mod_to_equations; lia|]. rewrite E, <- !app_assoc. f_equal. unfold body, mask. by rewrite take_drop, take_drop.
  - done.
  - cbn [length]. rewrite !length_app. lia.
  - unfold length_field in Ef. rewrite Ef in Hhs. destruct (n <=? 125); cbn [length] in Hhs; [lia|]. destruct (n <=? 0xFFFF); cbn [length] in Hhs; lia.
Qed.

Lemma length_field_size n : 0 ≤ n ≤ 2034 → Z.of_nat (length (length_field n)) = if n <=? 125 then 1 else 3.
Proof. intros Hn. unfold length_field. destruct (n <=? 125); [done|]. rewrite (proj2 (Z.leb_le _ _)) by lia. done. Qed.

(** A valid frame at the front is accepted. *)
Lemma head_of_complete f rest :
  frame_valid f → head_of (client_bytes f ++ rest) =
    inr (mkHead (cf_final f) (cf_opcode f) (if Z.of_nat (length (cf_payload f)) <=? 125 then 2 else 4) (Z.of_nat (length (cf_payload f)))).
Proof.
  intros [Ho [Lm Hm] [Hp Hn] Hc]. set (n := Z.of_nat (length (cf_payload f))) in *. assert (Hn0 : 0 ≤ n) by lia.
  set (first := (if cf_final f then 128 else 0) + cf_opcode f).
  assert (Ef : (128 <=? first) = cf_final f ∧ (first <? 128) = negb (cf_final f) ∧ first mod 16 = cf_opcode f ∧ first mod 128 / 16 = 0).
  { unfold first. destruct (cf_final f); split_and!; try (Z.div_mod_to_equations; lia). }
  destruct Ef as (E1 & E2 & E3 & E4).
  assert (Hlen : Z.of_nat (length (client_bytes f ++ rest)) =
    (if n <=? 125 then 2 else 4) + 4 + n + Z.of_nat (length rest)).
  { unfold client_bytes. cbn [app length]. rewrite !length_app, unmask_length, Lm. pose proof (length_field_size n ltac:(lia)) as Hlf.
    fold n. destruct (n <=? 125); lia. }
  assert (Hhead : ∀ second tail, length_field n = second :: tail → 128 ≤ second < 256 →
    (∀ t, length_of (second mod 128) (tail ++ t) = inr (if n <=? 125 then 2 else 4, n)) →
    head_of (client_bytes f ++ rest) = inr (mkHead (cf_final f) (cf_opcode f) (if n <=? 125 then 2 else 4) n)).
  { intros second tail El Hs Ht. unfold head_of. rewrite Hlen. unfold client_bytes. fold n first. rewrite El. cbn [app].
    rewrite E4. change (negb (0 =? 0)) with false. rewrite (proj2 (Z.ltb_ge second 128)) by lia. cbn [orb].
    rewrite <- app_assoc, Ht. rewrite E1, E2, E3.
    replace ((8 <=? cf_opcode f) && _) with false.
    2:{ symmetry. apply andb_false_iff. destruct (Z.leb_spec 8 (cf_opcode f)) as [H8|]; [right|by left]. destruct (Hc H8) as [-> ?]. cbn. lia. }
    rewrite (proj2 (Z.ltb_ge 2034 n)) by lia. rewrite (proj2 (Z.ltb_ge _ _)) by lia. done. }
  unfold length_field in Hhead. unfold length_of in Hhead. destruct (Z.leb_spec n 125).
  - apply (Hhead (128 + n) []); [done|lia|]. intros t. replace ((128 + n) mod 128) with n by (Z.div_mod_to_equations; lia).
    by rewrite (proj2 (Z.leb_le _ _)) by lia.
  - rewrite (proj2 (Z.leb_le n 65535)) in Hhead by lia. apply (Hhead (128 + 126) (enc_be 2 n)); [done|lia|]. intros t.
    change ((128 + 126) mod 128) with 126. change (126 <=? 125) with false. change (126 =? 126) with true. cbv iota.
    pose proof (be_val_enc 2 n) as Hv. change (256 ^ Z.of_nat 2) with 65536 in Hv. rewrite Z.mod_small in Hv by lia.
    cbn [enc_be app] in Hv |- *. rewrite Hv. by rewrite (proj2 (Z.ltb_ge _ _)) by lia.
Qed.

(** ** Taking a frame out of the buffer *)

Lemma read_split c : conn_ok c → cn_read_buffer c = input c ++ drop (Z.to_nat (cn_read_size c)) (cn_read_buffer c).
Proof. intros _. unfold input. by rewrite take_drop. Qed.

Lemma set_read_ok c size buffer :
  conn_ok c → length buffer = 2048%nat → bytes buffer → 0 ≤ size ≤ 2048 → conn_ok (set_read c size buffer).
Proof. intros [Hr Hw Hb Hs Ho Hm] Hl Hby Hsz. by split. Qed.

(** The payload is unmasked, nothing else of the buffer changes. *)
Lemma unmask_payload_ok c h f rest :
  conn_ok c → frame_valid f → input c = client_bytes f ++ rest →
  h = mkHead (cf_final f) (cf_opcode f) (if Z.of_nat (length (cf_payload f)) <=? 125 then 2 else 4) (Z.of_nat (length (cf_payload f))) →
  ∃ buffer, unmask_payload c h = Some (set_read c (cn_read_size c) buffer, cf_payload f) ∧ conn_ok (set_read c (cn_read_size c) buffer) ∧
    drop (length (client_bytes f)) (input (set_read c (cn_read_size c) buffer)) = rest.
Proof.
  intros Hok Hv E ->. pose proof Hv as [Ho [Lm Hm] [Hp Hn] Hc]. set (n := Z.of_nat (length (cf_payload f))) in *.
  set (hs := if n <=? 125 then 2 else 4). set (field := length_field n).
  assert (Lf : Z.of_nat (length field) = hs - 1).
  { unfold field, hs. rewrite length_field_size by lia. by destruct (n <=? 125). }
  pose proof (input_length c Hok) as Hl. rewrite E in Hl.
  set (pre := ((if cf_final f then 128 else 0) + cf_opcode f) :: field). set (masked := unmask (cf_mask f) (cf_payload f)).
  assert (Ei : input c = pre ++ cf_mask f ++ masked ++ rest) by (rewrite E; unfold client_bytes, pre; cbn [app]; by rewrite <- !app_assoc).
  assert (Lp : Z.of_nat (length pre) = hs) by (unfold pre; cbn [length]; lia).
  assert (Lk : length masked = Z.to_nat n) by (unfold masked; rewrite unmask_length; lia).
  assert (Hhs : 0 ≤ hs ≤ 4) by (unfold hs; case_cond; lia).
  assert (Hsz : hs + 4 + n ≤ cn_read_size c).
  { rewrite <- (input_length c Hok), Ei, !length_app, Lm, Lk. lia. }
  unfold unmask_payload. cbn [fh_header_size fh_payload_size]. rewrite !slice_input by (done || lia). cbn [mbind option_bind].
  replace (take (Z.to_nat 4) (drop (Z.to_nat hs) (input c))) with (cf_mask f).
  2:{ rewrite Ei, drop_app_length' by lia. by rewrite take_app_length' by (rewrite Lm; done). }
  replace (take (Z.to_nat n) (drop (Z.to_nat (hs + 4)) (input c))) with masked.
  2:{ rewrite Ei, app_assoc, drop_app_length' by (rewrite length_app; lia). by rewrite take_app_length' by lia. }
  cbv zeta. replace (unmask (cf_mask f) masked) with (cf_payload f) by (unfold masked; by rewrite unmask_unmask).
  assert (Eb : cn_read_buffer c = (pre ++ cf_mask f) ++ masked ++ rest ++ drop (Z.to_nat (cn_read_size c)) (cn_read_buffer c)).
  { rewrite (read_split c Hok) at 1. rewrite Ei, <- !app_assoc. done. }
  replace (Z.to_nat (hs + 4)) with (length (pre ++ cf_mask f)) by (rewrite length_app; lia).
  set (tail := drop (Z.to_nat (cn_read_size c)) (cn_read_buffer c)) in *. cbv zeta. rewrite Eb.
  rewrite put_app by (rewrite length_app, Lk; unfold n; lia). cbn [mbind option_bind]. eexists. split; [done|].
  replace (drop (length (cf_payload f)) (masked ++ rest ++ tail)) with (rest ++ tail) by (rewrite drop_app_length'; [done|unfold n in Lk; lia]).
  assert (Hbuf : bytes (cn_read_buffer c)) by apply (co_bytes _ Hok). rewrite Eb in Hbuf. unfold bytes in Hbuf. rewrite !Forall_app in Hbuf. destruct Hbuf as ([B1 B2] & B3 & B4 & B5).
  split.
  - apply set_read_ok; [done| |unfold bytes; by rewrite !Forall_app|apply (co_read_size _ Hok)].
    rewrite <- (co_read _ Hok), Eb. rewrite !length_app. lia.
  - unfold input. cbn [set_read cn_read_size cn_read_buffer]. rewrite <- Hl. rewrite Nat2Z.id.
    assert (Lc : length (client_bytes f) = (length pre + 4 + Z.to_nat n)%nat).
    { unfold client_bytes. fold n field. cbn [length]. rewrite !length_app, unmask_length. unfold pre. cbn [length]. lia. }
    rewrite length_app, <- !app_assoc, !app_assoc. rewrite take_app_length' by (rewrite !length_app; lia).
    rewrite drop_app_length'; [done|]. rewrite !length_app. lia.
Qed.

Lemma drop_frame_ok c h :
  conn_ok c → 0 ≤ fh_header_size h + 4 + fh_payload_size h ≤ cn_read_size c →
  ∃ buffer, drop_frame c h = Some (set_read c (cn_read_size c - (fh_header_size h + 4 + fh_payload_size h)) buffer) ∧
    conn_ok (set_read c (cn_read_size c - (fh_header_size h + 4 + fh_payload_size h)) buffer) ∧
    input (set_read c (cn_read_size c - (fh_header_size h + 4 + fh_payload_size h)) buffer) =
      drop (Z.to_nat (fh_header_size h + 4 + fh_payload_size h)) (input c).
Proof.
  intros Hok Hs. set (size := fh_header_size h + 4 + fh_payload_size h) in *. set (left := cn_read_size c - size).
  assert (Hleft : left = cn_read_size c - size) by done.
  pose proof (co_read_size _ Hok) as Hrs. pose proof (co_read _ Hok) as Hr.
  unfold drop_frame. fold size left. clearbody left. clearbody size. replace (u16 left) with left by (unfold u16; rewrite Z.mod_small; lia).
  assert (Hd : take (Z.to_nat left) (drop (Z.to_nat size) (input c)) = drop (Z.to_nat size) (input c)).
  { apply take_ge. rewrite length_drop. pose proof (input_length c Hok). lia. }
  destruct (Z.eqb_spec left 0) as [E|E]; cbn [negb mbind option_bind].
  - eexists. split; [done|]. split; [apply set_read_ok; [done..|apply (co_bytes _ Hok)|lia]|].
    rewrite <- Hd, E. done.
  - rewrite slice_input by (done || lia). rewrite Hd. cbn [mbind option_bind].
    assert (Ll : length (drop (Z.to_nat size) (input c)) = Z.to_nat left) by (rewrite length_drop; pose proof (input_length c Hok); lia).
    rewrite put_0 by lia. cbn [mbind option_bind]. eexists. split; [done|]. split.
    + apply set_read_ok; [done| | |lia].
      * rewrite length_app, Ll, length_drop. lia.
      * apply Forall_app. split; [by apply Forall_drop, input_bytes|by apply Forall_drop, (co_bytes _ Hok)].
    + unfold input at 1. cbn [set_read cn_read_size cn_read_buffer]. apply take_app_length'. lia.
Qed.
