(* ===== verification/WsSubs.v ===== *)
(** * WsSubs: which connection wants which order (src/luv_websocket.cpp,
    subscription_hash to unsubscribe)

    A hash table from order ids to buckets, open addressing with tombstones, and in
    each bucket the head of a doubly linked list threaded through the connection
    slots.  The file shows that the two together are a finite map from order ids to
    lists of connections. *)

From S2P Require Import Prelude WsText WsConn.
From Stdlib Require Import ZArith Lia.
From stdpp Require Import base tactics functions gmap numbers option list.
Open Scope Z_scope.

Inductive BucketState := kEmpty | kOccupied | kTombstone.

#[export] Instance BucketState_eq_dec : EqDecision BucketState.
Proof. solve_decision. Defined.

Record SubscriptionBucket := mkBucket { sb_order_id : Z; sb_head : Z; sb_state : BucketState }.

Definition SubscriptionBucket_init : SubscriptionBucket := mkBucket 0 (-1) kEmpty.

Definition kSubscriptionBuckets : Z := 2048.
Definition kSubscriptionMask : Z := kSubscriptionBuckets - 1.

(** What the subscription code reads and writes: the slots and the table. *)
Record Index := mkIndex { ix_connections : list Connection; ix_subscriptions : list SubscriptionBucket }.

Definition reset_subscriptions : list SubscriptionBucket := replicate (Z.to_nat kSubscriptionBuckets) SubscriptionBucket_init.

Definition subscription_hash (order_id : Z) : Z :=
  let value := u64 (order_id + 0x9E3779B97F4A7C15) in
  let value := u64 (Z.lxor value (Z.shiftr value 30) * 0xBF58476D1CE4E5B9) in
  let value := u64 (Z.lxor value (Z.shiftr value 27) * 0x94D049BB133111EB) in
  Z.land (Z.lxor value (Z.shiftr value 31)) kSubscriptionMask.

Definition next_bucket (index : Z) : Z := Z.land (u32 (index + 1)) kSubscriptionMask.

Fixpoint subscription_probe (n : nat) (subs : list SubscriptionBucket) (order_id index : Z) : option Z :=
  match n with
  | O => Some (-1)
  | S n' =>
      bucket ← zget subs index;
      if bool_decide (sb_state bucket = kEmpty) then Some (-1)
      else if bool_decide (sb_state bucket = kOccupied) && (sb_order_id bucket =? order_id) then Some index
      else subscription_probe n' subs order_id (next_bucket index)
  end.

Definition find_subscription (subs : list SubscriptionBucket) (order_id : Z) : option Z :=
  subscription_probe (Z.to_nat kSubscriptionBuckets) subs order_id (subscription_hash order_id).

(** Place a fresh bucket for the order id. *)
Definition claim_bucket (subs : list SubscriptionBucket) (order_id target : Z) : option (list SubscriptionBucket * Z) :=
  subs ← zset subs target (mkBucket order_id (-1) kOccupied); Some (subs, target).

Fixpoint create_probe (n : nat) (subs : list SubscriptionBucket) (order_id index first_tombstone : Z)
    : option (list SubscriptionBucket * Z) :=
  match n with
  | O => if negb (first_tombstone =? kSubscriptionBuckets) then claim_bucket subs order_id first_tombstone else Some (subs, -1)
  | S n' =>
      bucket ← zget subs index;
      match sb_state bucket with
      | kEmpty => claim_bucket subs order_id (if first_tombstone =? kSubscriptionBuckets then index else first_tombstone)
      | kTombstone =>
          create_probe n' subs order_id (next_bucket index)
            (if first_tombstone =? kSubscriptionBuckets then index else first_tombstone)
      | kOccupied =>
          if sb_order_id bucket =? order_id then Some (subs, index)
          else create_probe n' subs order_id (next_bucket index) first_tombstone
      end
  end.

Definition find_or_create_subscription (subs : list SubscriptionBucket) (order_id : Z)
    : option (list SubscriptionBucket * Z) :=
  create_probe (Z.to_nat kSubscriptionBuckets) subs order_id (subscription_hash order_id) kSubscriptionBuckets.

Definition update {A} (l : list A) (i : Z) (f : A → A) : option (list A) := x ← zget l i; zset l i (f x).

(** [subscribe] of the connection in slot [i]; the slot is inside the pool. *)
Definition subscribe (x : Index) (i : Z) : option (Index * bool) :=
  connection ← zget (ix_connections x) i;
  if cn_fd connection <? 0 then Some (x, false) else
  '(subs, bucket_index) ← find_or_create_subscription (ix_subscriptions x) (cn_order_id connection);
  if (bucket_index <? 0) || (kSubscriptionBuckets <=? u32 bucket_index) then Some (mkIndex (ix_connections x) subs, false) else
  bucket ← zget subs bucket_index;
  cs ← zset (ix_connections x) i (set_links connection (u16 bucket_index) (-1) (sb_head bucket));
  cs ← (if 0 <=? sb_head bucket
        then update cs (sb_head bucket) (λ c, set_links c (cn_subscription_bucket c) i (cn_subscription_next c)) else Some cs);
  subs ← zset subs bucket_index (mkBucket (sb_order_id bucket) i (sb_state bucket));
  Some (mkIndex cs subs, true).

Definition unsubscribe (x : Index) (i : Z) : option Index :=
  connection ← zget (ix_connections x) i;
  let bucket_index := cn_subscription_bucket connection in
  if (bucket_index =? kNoSubscriptionBucket) || (kSubscriptionBuckets <=? bucket_index) then Some x else
  bucket ← zget (ix_subscriptions x) bucket_index;
  let previous := cn_subscription_prev connection in
  let next := cn_subscription_next connection in
  '(cs, head) ←
    (if 0 <=? previous
     then cs ← update (ix_connections x) previous (λ c, set_links c (cn_subscription_bucket c) (cn_subscription_prev c) next);
          Some (cs, sb_head bucket)
     else if sb_head bucket =? i then Some (ix_connections x, next) else Some (ix_connections x, sb_head bucket));
  cs ← (if 0 <=? next
        then update cs next (λ c, set_links c (cn_subscription_bucket c) previous (cn_subscription_next c)) else Some cs);
  subs ← zset (ix_subscriptions x) bucket_index
           (if head <? 0 then mkBucket (sb_order_id bucket) (-1) kTombstone else mkBucket (sb_order_id bucket) head (sb_state bucket));
  cs ← update cs i (λ c, set_links c kNoSubscriptionBucket (-1) (-1));
  Some (mkIndex cs subs).

(** ** The hash table *)

Lemma zget_lookup {A} (l : list A) (i : nat) : zget l (Z.of_nat i) = l !! i.
Proof. unfold zget. rewrite (proj2 (Z.leb_le _ _)) by lia. by rewrite Nat2Z.id. Qed.

Lemma zset_insert {A} (l : list A) (i : nat) x : (i < length l)%nat → zset l (Z.of_nat i) x = Some (<[i := x]> l).
Proof. intros H. unfold zset. rewrite (proj2 (Z.leb_le _ _)), (proj2 (Z.ltb_lt _ _)) by lia. cbn. by rewrite Nat2Z.id. Qed.

(** The bucket of the [d]-th probe for an order id. *)
Definition probe (k : Z) (d : nat) : nat := Z.to_nat ((subscription_hash k + Z.of_nat d) mod kSubscriptionBuckets).

Lemma land_mask z : Z.land z kSubscriptionMask = z mod kSubscriptionBuckets.
Proof. change kSubscriptionMask with (Z.ones 11). rewrite Z.land_ones by lia. done. Qed.

Lemma subscription_hash_range k : 0 ≤ subscription_hash k < kSubscriptionBuckets.
Proof. unfold subscription_hash. cbv zeta. rewrite land_mask. by apply Z.mod_pos_bound. Qed.

Lemma probe_lt k d : (probe k d < 2048)%nat.
Proof.
  unfold probe, kSubscriptionBuckets. pose proof (Z.mod_pos_bound (subscription_hash k + Z.of_nat d) 2048 ltac:(lia)). lia.
Qed.

Lemma probe_Z k d : Z.of_nat (probe k d) = (subscription_hash k + Z.of_nat d) mod 2048.
Proof. unfold probe, kSubscriptionBuckets. rewrite Z2Nat.id; [done|]. apply Z.mod_pos_bound. lia. Qed.

Lemma probe_0 k : Z.of_nat (probe k 0) = subscription_hash k.
Proof. rewrite probe_Z, Z.add_0_r. apply Z.mod_small, subscription_hash_range. Qed.

Lemma probe_next k d : next_bucket (Z.of_nat (probe k d)) = Z.of_nat (probe k (S d)).
Proof.
  unfold next_bucket. rewrite land_mask. pose proof (probe_lt k d). unfold u32. rewrite (Z.mod_small (_ + 1)) by lia.
  rewrite !probe_Z. unfold kSubscriptionBuckets. rewrite Zplus_mod_idemp_l. f_equal. lia.
Qed.

Lemma probe_inj k d e : (d < 2048)%nat → (e < 2048)%nat → probe k d = probe k e → d = e.
Proof.
  intros Hd He E. apply (f_equal Z.of_nat) in E. rewrite !probe_Z in E. apply (mod_inj 2048) in E; lia.
Qed.

(** Every bucket is some probe. *)
Lemma probe_surj k b : (b < 2048)%nat → ∃ d, (d < 2048)%nat ∧ probe k d = b.
Proof.
  intros Hb. exists (Z.to_nat ((Z.of_nat b - subscription_hash k) mod 2048)).
  pose proof (Z.mod_pos_bound (Z.of_nat b - subscription_hash k) 2048 ltac:(lia)). split; [lia|].
  apply Nat2Z.inj. rewrite probe_Z, Z2Nat.id by lia. rewrite Zplus_mod_idemp_r.
  replace (_ + (_ - _)) with (Z.of_nat b) by lia. apply Z.mod_small. lia.
Qed.

Definition occupied_by (k : Z) (bk : SubscriptionBucket) : Prop := sb_state bk = kOccupied ∧ sb_order_id bk = k.

#[export] Instance occupied_by_dec k bk : Decision (occupied_by k bk).
Proof. unfold occupied_by. apply _. Defined.

(** Nothing empty before the bucket of an id, and one bucket per id. *)
Record table_ok (subs : list SubscriptionBucket) : Prop := mk_table_ok {
  tb_length : length subs = 2048%nat;
  tb_reach : ∀ b bk, subs !! b = Some bk → sb_state bk = kOccupied →
    ∃ d, (d < 2048)%nat ∧ probe (sb_order_id bk) d = b ∧
      ∀ e bk', (e < d)%nat → subs !! probe (sb_order_id bk) e = Some bk' → sb_state bk' ≠ kEmpty;
  tb_unique : ∀ k b b' bk bk', subs !! b = Some bk → subs !! b' = Some bk' → occupied_by k bk → occupied_by k bk' → b = b'
}.

Implicit Types (subs : list SubscriptionBucket) (cs : list Connection).

Lemma bucket_at subs k d : length subs = 2048%nat → ∃ bk, subs !! probe k d = Some bk.
Proof. intros Hl. apply lookup_lt_is_Some_2. rewrite Hl. apply probe_lt. Qed.

(** The probe loops, from the [d]-th probe on, for an id the table holds. *)
Lemma subscription_probe_hit subs k d0 bk n d :
  length subs = 2048%nat → subs !! probe k d0 = Some bk → occupied_by k bk → (d ≤ d0)%nat → (d0 - d < n)%nat →
  (∀ e bk', (d ≤ e < d0)%nat → subs !! probe k e = Some bk' → sb_state bk' ≠ kEmpty ∧ ¬ occupied_by k bk') →
  subscription_probe n subs k (Z.of_nat (probe k d)) = Some (Z.of_nat (probe k d0)).
Proof.
  intros Hl Hbk [Hs Hk]. revert d. induction n as [|n IH]; intros d Hd Hn Hne; [lia|]. cbn [subscription_probe]. rewrite zget_lookup.
  destruct (bucket_at subs k d Hl) as [b Hb]. rewrite Hb. cbn [mbind option_bind].
  destruct (decide (d = d0)) as [->|Hdd].
  - rewrite Hbk in Hb. injection Hb as <-. rewrite bool_decide_false by congruence. rewrite bool_decide_true by done.
    by rewrite (proj2 (Z.eqb_eq _ _) Hk).
  - destruct (Hne d b ltac:(lia) Hb) as [H1 H2]. rewrite bool_decide_false by done.
    replace (bool_decide (sb_state b = kOccupied) && (sb_order_id b =? k)) with false.
    + rewrite probe_next. apply IH; [lia..|]. intros e bk' He. apply Hne. lia.
    + symmetry. apply andb_false_iff. destruct (decide (sb_state b = kOccupied)); [right|left; by apply bool_decide_false].
      apply Z.eqb_neq. intros E. by apply H2.
Qed.

Lemma subscription_probe_miss subs k n d :
  length subs = 2048%nat → (∀ b bk, subs !! b = Some bk → ¬ occupied_by k bk) →
  subscription_probe n subs k (Z.of_nat (probe k d)) = Some (-1).
Proof.
  intros Hl Hno. revert d. induction n as [|n IH]; intros d; [done|]. cbn [subscription_probe]. rewrite zget_lookup.
  destruct (bucket_at subs k d Hl) as [b Hb]. rewrite Hb. cbn [mbind option_bind].
  case_bool_decide; [done|]. replace (bool_decide (sb_state b = kOccupied) && (sb_order_id b =? k)) with false.
  - rewrite probe_next. apply IH.
  - symmetry. apply andb_false_iff. destruct (decide (sb_state b = kOccupied)); [right|left; by apply bool_decide_false].
    apply Z.eqb_neq. intros E. by apply (Hno _ _ Hb).
Qed.

Lemma find_subscription_spec subs k :
  table_ok subs →
  (∃ b bk, subs !! b = Some bk ∧ occupied_by k bk ∧ find_subscription subs k = Some (Z.of_nat b)) ∨
  ((∀ b bk, subs !! b = Some bk → ¬ occupied_by k bk) ∧ find_subscription subs k = Some (-1)).
Proof.
  intros [Hl Hr Hu]. unfold find_subscription. rewrite <- probe_0.
  destruct (decide (Exists (occupied_by k) subs)) as [He|He].
  - apply Exists_exists in He as (bk & Hin & Hocc). apply list_elem_of_lookup in Hin as [b Hb]. left. exists b, bk.
    split_and!; [done..|]. pose proof Hocc as [Hs Hk]. destruct (Hr b bk Hb Hs) as (d & Hd & Hp & Hne). rewrite Hk in Hp, Hne.
    rewrite <- Hp in Hb |- *. apply (subscription_probe_hit subs k d bk); [done..|lia|change (Z.to_nat kSubscriptionBuckets) with 2048%nat; lia|].
    intros e bk' He' Hbk'. split; [by apply (Hne e); [lia|]|]. intros Ho. pose proof (Hu k _ _ _ _ Hb Hbk' Hocc Ho) as Heq.
    apply probe_inj in Heq; lia.
  - right. assert (Hno : ∀ b bk, subs !! b = Some bk → ¬ occupied_by k bk).
    { intros b bk Hb Ho. apply He, Exists_exists. exists bk. split; [by eapply list_elem_of_lookup_2|done]. }
    split; [done|]. by apply subscription_probe_miss.
Qed.

(** ** Finding or creating a bucket *)

Lemma create_probe_hit subs k d0 bk n d t :
  length subs = 2048%nat → subs !! probe k d0 = Some bk → occupied_by k bk → (d ≤ d0)%nat → (d0 - d < n)%nat →
  (∀ e bk', (d ≤ e < d0)%nat → subs !! probe k e = Some bk' → sb_state bk' ≠ kEmpty ∧ ¬ occupied_by k bk') →
  create_probe n subs k (Z.of_nat (probe k d)) t = Some (subs, Z.of_nat (probe k d0)).
Proof.
  intros Hl Hbk [Hs Hk]. revert d t. induction n as [|n IH]; intros d t Hd Hn Hne; [lia|]. cbn [create_probe]. rewrite zget_lookup.
  destruct (bucket_at subs k d Hl) as [b Hb]. rewrite Hb. cbn [mbind option_bind].
  destruct (decide (d = d0)) as [->|Hdd].
  - rewrite Hbk in Hb. injection Hb as <-. by rewrite Hs, (proj2 (Z.eqb_eq _ _) Hk).
  - destruct (Hne d b ltac:(lia) Hb) as [H1 H2].
    assert (Hnext : ∀ t, create_probe n subs k (next_bucket (Z.of_nat (probe k d))) t = Some (subs, Z.of_nat (probe k d0))).
    { intros t'. rewrite probe_next. apply IH; [lia..|]. intros e bk' He. apply Hne. lia. }
    destruct (sb_state b) eqn:Eb; [done| |apply Hnext]. destruct (Z.eqb_spec (sb_order_id b) k); [by destruct H2|apply Hnext].
Qed.

(** What is claimed for an id the table does not hold: a bucket not in use, with
    nothing empty before it. *)
Definition claimed subs (k : Z) (r : option (list SubscriptionBucket * Z)) : Prop :=
  (∃ d bk, (d < 2048)%nat ∧ subs !! probe k d = Some bk ∧ sb_state bk ≠ kOccupied ∧
     (∀ e bk', (e < d)%nat → subs !! probe k e = Some bk' → sb_state bk' ≠ kEmpty) ∧
     r = Some (<[probe k d := mkBucket k (-1) kOccupied]> subs, Z.of_nat (probe k d))) ∨
  (Forall (λ bk, sb_state bk = kOccupied) subs ∧ r = Some (subs, -1)).

(** The first tombstone among the probes before [d], or none. *)
Definition tombstone_seen subs (k : Z) (d : nat) (t : Z) : Prop :=
  (t = kSubscriptionBuckets ∧ ∀ e bk, (e < d)%nat → subs !! probe k e = Some bk → sb_state bk = kOccupied) ∨
  (∃ e bk, (e < d)%nat ∧ t = Z.of_nat (probe k e) ∧ subs !! probe k e = Some bk ∧ sb_state bk = kTombstone).

Lemma claim_at subs k e bk :
  length subs = 2048%nat → (e < 2048)%nat → subs !! probe k e = Some bk → sb_state bk ≠ kOccupied →
  (∀ e' bk', (e' < e)%nat → subs !! probe k e' = Some bk' → sb_state bk' ≠ kEmpty) →
  claimed subs k (claim_bucket subs k (Z.of_nat (probe k e))).
Proof.
  intros Hl He Hbk Hs Hne. left. exists e, bk. split_and!; [done..|]. unfold claim_bucket.
  rewrite zset_insert by (rewrite Hl; apply probe_lt). done.
Qed.

Lemma create_probe_miss subs k n d t :
  length subs = 2048%nat → (∀ b bk, subs !! b = Some bk → ¬ occupied_by k bk) → (d + n = 2048)%nat →
  (∀ e bk, (e < d)%nat → subs !! probe k e = Some bk → sb_state bk ≠ kEmpty) → tombstone_seen subs k d t →
  claimed subs k (create_probe n subs k (Z.of_nat (probe k d)) t).
Proof.
  intros Hl Hno. revert d t. induction n as [|n IH]; intros d t Hdn Hne Ht.
  { cbn [create_probe]. destruct Ht as [[-> Hocc]|(e & bk & He & -> & Hbk & Hs)].
    - right. split; [|done]. apply Forall_lookup. intros b bk Hb. destruct (probe_surj k b) as (e & He & <-).
      { apply lookup_lt_Some in Hb. lia. } apply (Hocc e); [lia|done].
    - replace (negb _) with true.
      + apply (claim_at subs k e bk); [done|lia|done|congruence|]. intros e' bk' He'. apply Hne. lia.
      + pose proof (probe_lt k e). unfold kSubscriptionBuckets. lia. }
  cbn [create_probe]. rewrite zget_lookup. destruct (bucket_at subs k d Hl) as [b Hb]. rewrite Hb. cbn [mbind option_bind].
  destruct (sb_state b) eqn:Eb.
  - destruct Ht as [[-> Hocc]|(e & bk & He & -> & Hbk & Hs)].
    + rewrite Z.eqb_refl. apply (claim_at subs k d b); [done|lia|done|congruence|done].
    + replace (_ =? kSubscriptionBuckets) with false by (pose proof (probe_lt k e); unfold kSubscriptionBuckets; lia).
      apply (claim_at subs k e bk); [done|lia|done|congruence|]. intros e' bk' He'. apply Hne. lia.
  - destruct (Z.eqb_spec (sb_order_id b) k) as [E|E]; [by destruct (Hno _ _ Hb)|]. rewrite probe_next. apply IH; [lia| |].
    + intros e bk He Hbk. destruct (decide (e = d)) as [->|]; [congruence|]. apply (Hne e); [lia|done].
    + destruct Ht as [[-> Hocc]|(e & bk & He & -> & Hbk & Hs)].
      * left. split; [done|]. intros e bk He Hbk. destruct (decide (e = d)) as [->|]; [congruence|]. apply (Hocc e); [lia|done].
      * right. exists e, bk. split_and!; [lia|done..].
  - rewrite probe_next. apply IH; [lia| |].
    + intros e bk He Hbk. destruct (decide (e = d)) as [->|]; [congruence|]. apply (Hne e); [lia|done].
    + right. destruct Ht as [[-> Hocc]|(e & bk & He & -> & Hbk & Hs)].
      * rewrite Z.eqb_refl. exists d, b. split_and!; [lia|done..].
      * replace (_ =? kSubscriptionBuckets) with false by (pose proof (probe_lt k e); unfold kSubscriptionBuckets; lia).
        exists e, bk. split_and!; [lia|done..].
Qed.

(** Claiming a bucket keeps the table in order. *)
Lemma claimed_ok subs k d bk h :
  table_ok subs → (∀ b bk, subs !! b = Some bk → ¬ occupied_by k bk) → (d < 2048)%nat → subs !! probe k d = Some bk →
  (∀ e bk', (e < d)%nat → subs !! probe k e = Some bk' → sb_state bk' ≠ kEmpty) →
  table_ok (<[probe k d := mkBucket k h kOccupied]> subs).
Proof.
  intros [Hl Hr Hu] Hno Hd Hbk Hne. split.
  - by rewrite length_insert.
  - intros b bk' Hb Hs. destruct (decide (probe k d = b)) as [<-|Hbd].
    + rewrite list_lookup_insert_eq in Hb by (rewrite Hl; apply probe_lt). injection Hb as <-. cbn. exists d. split_and!; [done..|].
      intros e bk' He Hb'. rewrite list_lookup_insert_ne in Hb' by (intros E; apply probe_inj in E; lia). by apply (Hne e).
    + rewrite list_lookup_insert_ne in Hb by done. destruct (Hr b bk' Hb Hs) as (d' & Hd' & Hp & Hne'). exists d'. split_and!; [done..|].
      intros e bk2 He Hb2. destruct (decide (probe k d = probe (sb_order_id bk') e)) as [E|E].
      * rewrite E, list_lookup_insert_eq in Hb2 by (rewrite Hl; apply probe_lt). by injection Hb2 as <-.
      * rewrite list_lookup_insert_ne in Hb2 by done. by apply (Hne' e).
  - intros k' b b' bk1 bk2 H1 H2 O1 O2.
    destruct (decide (probe k d = b)) as [<-|N1]; destruct (decide (probe k d = b')) as [<-|N2].
    + done.
    + rewrite list_lookup_insert_eq in H1 by (rewrite Hl; apply probe_lt). injection H1 as <-. destruct O1 as [_ E]. cbn in E. subst k'.
      rewrite list_lookup_insert_ne in H2 by done. by destruct (Hno _ _ H2).
    + rewrite list_lookup_insert_eq in H2 by (rewrite Hl; apply probe_lt). injection H2 as <-. destruct O2 as [_ E]. cbn in E. subst k'.
      rewrite list_lookup_insert_ne in H1 by done. by destruct (Hno _ _ H1).
    + rewrite list_lookup_insert_ne in H1 by done. rewrite list_lookup_insert_ne in H2 by done. by apply (Hu k' _ _ _ _ H1 H2).
Qed.

Lemma find_or_create_spec subs k :
  table_ok subs →
  (∃ b bk, subs !! b = Some bk ∧ occupied_by k bk ∧ find_or_create_subscription subs k = Some (subs, Z.of_nat b)) ∨
  ((∀ b bk, subs !! b = Some bk → ¬ occupied_by k bk) ∧ claimed subs k (find_or_create_subscription subs k)).
Proof.
  intros Hok. pose proof Hok as [Hl Hr Hu]. unfold find_or_create_subscription. rewrite <- probe_0.
  destruct (find_subscription_spec subs k Hok) as [(b & bk & Hb & Hocc & _)|[Hno _]].
  - left. exists b, bk. split_and!; [done..|]. pose proof Hocc as [Hs Hk]. destruct (Hr b bk Hb Hs) as (d & Hd & Hp & Hne).
    rewrite Hk in Hp, Hne. rewrite <- Hp in Hb |- *.
    apply (create_probe_hit subs k d bk); [done..|lia|change (Z.to_nat kSubscriptionBuckets) with 2048%nat; lia|].
    intros e bk' He' Hbk'. split; [by apply (Hne e); [lia|]|]. intros Ho. pose proof (Hu k _ _ _ _ Hb Hbk' Hocc Ho) as Heq.
    apply probe_inj in Heq; lia.
  - right. split; [done|]. apply create_probe_miss; [done|done|reflexivity|intros; lia|]. left. split; [done|]. intros. lia.
Qed.

(** ** The lists through the slots *)

Implicit Types (l : list nat) (ch : nat → list nat).

(** The slots [l] are linked from [head], behind [prev], and the list continues at
    [head'] behind [prev']. *)
Fixpoint seg cs (prev head : Z) l (prev' head' : Z) : Prop :=
  match l with
  | [] => prev' = prev ∧ head' = head
  | i :: l' => head = Z.of_nat i ∧ ∃ c, cs !! i = Some c ∧ cn_subscription_prev c = prev ∧
      seg cs (Z.of_nat i) (cn_subscription_next c) l' prev' head'
  end.

Definition linked cs (head : Z) l : Prop := ∃ last, seg cs (-1) head l last (-1).

Lemma links_app cs p h l1 l2 p' h' : seg cs p h (l1 ++ l2) p' h' ↔ ∃ q g, seg cs p h l1 q g ∧ seg cs q g l2 p' h'.
Proof.
  revert p h. induction l1 as [|i l1 IH]; intros p h; cbn; [split; [by exists p, h|by intros (q & g & [-> ->] & H)]|].
  split.
  - intros (-> & c & Hc & Hp & H). apply IH in H as (q & g & H1 & H2). exists q, g. split; [|done]. split; [done|]. by exists c.
  - intros (q & g & (-> & c & Hc & Hp & H1) & H2). split; [done|]. exists c. split_and!; [done..|]. apply IH. by exists q, g.
Qed.

(** Only the links of the listed slots matter. *)
Lemma seg_ext cs cs' p h l p' h' :
  (∀ i c, i ∈ l → cs !! i = Some c → ∃ c', cs' !! i = Some c' ∧ cn_subscription_prev c' = cn_subscription_prev c ∧
     cn_subscription_next c' = cn_subscription_next c) →
  seg cs p h l p' h' → seg cs' p h l p' h'.
Proof.
  revert p h. induction l as [|i l IH]; intros p h Hext; cbn; [done|]. intros (-> & c & Hc & Hp & H). split; [done|].
  destruct (Hext i c ltac:(set_solver) Hc) as (c' & Hc' & Ep & En). exists c'. split_and!; [done|congruence|]. rewrite En. apply IH; [|done].
  intros j cj Hj. apply Hext. set_solver.
Qed.

(** Redirect the end of a segment: its last slot gets another successor. *)
Lemma seg_set_next cs p h l j cj p' h' b n :
  NoDup (l ++ [j]) → cs !! j = Some cj → seg cs p h (l ++ [j]) p' h' →
  seg (<[j := set_links cj b (cn_subscription_prev cj) n]> cs) p h (l ++ [j]) (Z.of_nat j) n.
Proof.
  intros Hn Hj H. apply links_app in H as (q & g & H1 & H2). apply links_app. exists q, g. split.
  - eapply seg_ext; [|exact H1]. intros i c Hi Hc. exists c. rewrite list_lookup_insert_ne; [done|].
    intros <-. apply NoDup_app in Hn as (_ & Hn & _). apply (Hn j); set_solver.
  - destruct H2 as (-> & c & Hc & Hp & _). rewrite Hj in Hc. injection Hc as <-. split; [done|].
    eexists. rewrite list_lookup_insert_eq by (by eapply lookup_lt_Some). split; [done|]. cbn. done.
Qed.

(** Redirect the front of a segment: its first slot gets another predecessor. *)
Lemma seg_set_prev cs p l j cj p' h' b q :
  NoDup (j :: l) → cs !! j = Some cj → seg cs p (Z.of_nat j) (j :: l) p' h' →
  seg (<[j := set_links cj b q (cn_subscription_next cj)]> cs) q (Z.of_nat j) (j :: l) p' h'.
Proof.
  intros Hn Hj (_ & c & Hc & Hp & H). rewrite Hj in Hc. injection Hc as <-. split; [done|].
  eexists. rewrite list_lookup_insert_eq by (by eapply lookup_lt_Some). split; [done|]. cbn. split; [done|].
  eapply seg_ext; [|exact H]. intros i c Hi Hc. exists c. rewrite list_lookup_insert_ne; [done|]. intros <-. by apply NoDup_cons in Hn as [? _].
Qed.

(** ** The invariant: chains of live connections of one order, in distinct buckets *)

Record index_ok (x : Index) ch : Prop := mk_index_ok {
  ix_table : table_ok (ix_subscriptions x);
  ix_slots : (length (ix_connections x) ≤ 1000)%nat;
  ix_chain : ∀ b bk, ix_subscriptions x !! b = Some bk →
    linked (ix_connections x) (sb_head bk) (ch b) ∧ (sb_state bk = kOccupied ↔ ch b ≠ []);
  ix_member : ∀ b i, i ∈ ch b → ∃ c bk, ix_connections x !! i = Some c ∧ ix_subscriptions x !! b = Some bk ∧
    0 ≤ cn_fd c ∧ cn_subscription_bucket c = Z.of_nat b ∧ cn_order_id c = sb_order_id bk;
  ix_nodup : ∀ b, NoDup (ch b);
  ix_free : ∀ i c, ix_connections x !! i = Some c → (∀ b, i ∉ ch b) → cn_subscription_bucket c = kNoSubscriptionBucket
}.

Lemma member_bucket x ch b i : index_ok x ch → i ∈ ch b → (b < 2048)%nat.
Proof.
  intros Hok Hi. destruct (ix_member _ _ Hok b i Hi) as (_ & bk & _ & Hb & _). apply lookup_lt_Some in Hb.
  by rewrite (tb_length _ (ix_table _ _ Hok)) in Hb.
Qed.

(** A slot is in at most one list. *)
Lemma member_unique x ch b b' i : index_ok x ch → i ∈ ch b → i ∈ ch b' → b = b'.
Proof.
  intros Hok Hi Hi'. destruct (ix_member _ _ Hok b i Hi) as (c & _ & Hc & _ & _ & Hb & _).
  destruct (ix_member _ _ Hok b' i Hi') as (c' & _ & Hc' & _ & _ & Hb' & _). assert (c' = c) by congruence. subst. lia.
Qed.

(** The slots up to their links. *)
Definition unlinked (c : Connection) : Connection := set_links c kNoSubscriptionBucket (-1) (-1).

(** There is always a bucket: fewer slots than buckets. *)
Lemma not_all_occupied x ch : index_ok x ch → ¬ Forall (λ bk, sb_state bk = kOccupied) (ix_subscriptions x).
Proof.
  intros Hok Hall. set (hd b := default O (head (ch b))).
  assert (Hmem : ∀ b, (b < 2048)%nat → hd b ∈ ch b).
  { intros b Hb. destruct (lookup_lt_is_Some_2 (ix_subscriptions x) b) as [bk Hbk]; [by rewrite (tb_length _ (ix_table _ _ Hok))|].
    pose proof (proj1 (Forall_lookup _ _) Hall b bk Hbk) as Hs. destruct (ix_chain _ _ Hok b bk Hbk) as [_ Hne].
    apply Hne in Hs. unfold hd. destruct (ch b); [done|]. cbn. set_solver. }
  assert (Hnd : NoDup (hd <$> seq 0 2048)).
  { apply NoDup_fmap_2_strong; [|apply NoDup_seq]. intros b b' Hb Hb' E. apply elem_of_seq in Hb, Hb'.
    apply (member_unique x ch b b' (hd b)); [done|apply Hmem; lia|]. rewrite E. apply Hmem. lia. }
  assert (Hsub : hd <$> seq 0 2048 ⊆+ seq 0 1000).
  { apply NoDup_submseteq; [done|]. intros i Hi. apply list_elem_of_fmap in Hi as (b & -> & Hb). apply elem_of_seq in Hb.
    destruct (ix_member _ _ Hok b (hd b) (Hmem b ltac:(lia))) as (c & _ & Hc & _). apply lookup_lt_Some in Hc.
    apply elem_of_seq. pose proof (ix_slots _ _ Hok). lia. }
  apply submseteq_length in Hsub. rewrite length_fmap, !length_seq in Hsub. lia.
Qed.

(** A bucket may change its head, or from occupied to tombstone. *)
Lemma table_ok_update subs b bk bk' :
  table_ok subs → subs !! b = Some bk → sb_order_id bk' = sb_order_id bk → sb_state bk' ≠ kEmpty →
  (sb_state bk' = kOccupied → sb_state bk = kOccupied) → table_ok (<[b := bk']> subs).
Proof.
  intros [Hl Hr Hu] Hb Hid Hne Hocc. assert (Hlt : (b < length subs)%nat) by (by eapply lookup_lt_Some).
  assert (Hback : ∀ b1 bk1, <[b := bk']> subs !! b1 = Some bk1 → sb_state bk1 = kOccupied →
    ∃ bk0, subs !! b1 = Some bk0 ∧ sb_state bk0 = kOccupied ∧ sb_order_id bk0 = sb_order_id bk1).
  { intros b1 bk1 H1 Hs. destruct (decide (b = b1)) as [<-|].
    - rewrite list_lookup_insert_eq in H1 by done. injection H1 as <-. exists bk. auto.
    - rewrite list_lookup_insert_ne in H1 by done. by exists bk1. }
  split.
  - by rewrite length_insert.
  - intros b1 bk1 H1 Hs. destruct (Hback b1 bk1 H1 Hs) as (bk0 & H0 & Hs0 & E). destruct (Hr b1 bk0 H0 Hs0) as (d & Hd & Hp & Hn).
    rewrite E in Hp, Hn. exists d. split_and!; [done..|]. intros e bk2 He H2. destruct (decide (b = probe (sb_order_id bk1) e)) as [->|].
    + rewrite list_lookup_insert_eq in H2 by done. by injection H2 as <-.
    + rewrite list_lookup_insert_ne in H2 by done. by apply (Hn e).
  - intros k b1 b2 bk1 bk2 H1 H2 [S1 I1] [S2 I2]. destruct (Hback b1 bk1 H1 S1) as (bk01 & ? & ? & ?).
    destruct (Hback b2 bk2 H2 S2) as (bk02 & ? & ? & ?). apply (Hu k b1 b2 bk01 bk02); try done; split; congruence.
Qed.

(** The bucket of an order, found or made, before its list is extended. *)
Lemma bucket_for x ch k :
  index_ok x ch → ∃ subs b bk, find_or_create_subscription (ix_subscriptions x) k = Some (subs, Z.of_nat b) ∧ (b < 2048)%nat ∧
    subs !! b = Some bk ∧ occupied_by k bk ∧ table_ok subs ∧ linked (ix_connections x) (sb_head bk) (ch b) ∧
    (∀ b', b' ≠ b → subs !! b' = ix_subscriptions x !! b') ∧
    (∀ i, i ∈ ch b → ∃ bk0, ix_subscriptions x !! b = Some bk0 ∧ sb_order_id bk0 = k).
Proof.
  intros Hok. pose proof (ix_table _ _ Hok) as Ht. pose proof (tb_length _ Ht) as Hl.
  destruct (find_or_create_spec _ k Ht) as [(b & bk & Hb & Hocc & E)|[Hno [(d & bk & Hd & Hb & Hs & Hne & E)|[Hall _]]]].
  - exists (ix_subscriptions x), b, bk. destruct (ix_chain _ _ Hok b bk Hb) as [Hlink _].
    split_and!; try done; [apply lookup_lt_Some in Hb; lia|]. intros i Hi. exists bk. by destruct Hocc.
  - eexists _, (probe k d), (mkBucket k (-1) kOccupied). split; [exact E|]. destruct (ix_chain _ _ Hok _ bk Hb) as [Hlink Hiff].
    assert (Hnil : ch (probe k d) = []).
    { destruct (ch (probe k d)); [done|]. exfalso. apply Hs, Hiff. done. }
    split_and!.
    + apply probe_lt.
    + apply list_lookup_insert_eq. rewrite Hl. apply probe_lt.
    + done.
    + by apply (claimed_ok _ k d bk).
    + rewrite Hnil. by exists (-1).
    + intros b' Hb'. by rewrite list_lookup_insert_ne.
    + rewrite Hnil. set_solver.
  - by destruct (not_all_occupied x ch Hok).
Qed.

Lemma unlinked_insert cs i c c' : cs !! i = Some c → unlinked c' = unlinked c → unlinked <$> <[i := c']> cs = unlinked <$> cs.
Proof. intros Hc E. rewrite list_fmap_insert, E. apply list_insert_id. by rewrite list_lookup_fmap, Hc. Qed.

(** Push slot [i] in front of a list: the slots afterwards. *)
Definition pushed_slots cs (i : nat) (b head : Z) : list Connection :=
  match cs !! i with
  | None => cs
  | Some c =>
      let cs1 := <[i := set_links c b (-1) head]> cs in
      if 0 <=? head then alter (λ c, set_links c (cn_subscription_bucket c) (Z.of_nat i) (cn_subscription_next c)) (Z.to_nat head) cs1 else cs1
  end.

Lemma alter_insert {A} (l : list A) (j : nat) (f : A → A) y : l !! j = Some y → alter f j l = <[j := f y]> l.
Proof.
  intros Hj. apply list_eq. intros k. destruct (decide (j = k)) as [<-|].
  - rewrite list_lookup_alter_eq, Hj, list_lookup_insert_eq; [done|]. by eapply lookup_lt_Some.
  - by rewrite list_lookup_alter_ne, list_lookup_insert_ne.
Qed.

Lemma update_alter {A} (l : list A) (i : nat) f : (i < length l)%nat → update l (Z.of_nat i) f = Some (alter f i l).
Proof.
  intros Hi. unfold update. rewrite zget_lookup. destruct (lookup_lt_is_Some_2 l i Hi) as [y Hy]. rewrite Hy. cbn [mbind option_bind].
  rewrite zset_insert by done. f_equal. symmetry. by apply alter_insert.
Qed.

Lemma pushed_slots_spec cs i c b l head :
  cs !! i = Some c → i ∉ l → NoDup l → linked cs head l →
  let cs' := pushed_slots cs i b head in
  linked cs' (Z.of_nat i) (i :: l) ∧ unlinked <$> cs' = unlinked <$> cs ∧
  (∀ j, j ≠ i → j ∉ l → cs' !! j = cs !! j) ∧
  (∃ c', cs' !! i = Some c' ∧ cn_subscription_bucket c' = b) ∧
  (∀ j c', j ≠ i → cs' !! j = Some c' → ∃ c0, cs !! j = Some c0 ∧ cn_subscription_bucket c' = cn_subscription_bucket c0).
Proof.
  intros Hc Hi Hn [last Hlink]. cbv zeta. unfold pushed_slots. rewrite Hc.
  assert (Hlt : (i < length cs)%nat) by (by eapply lookup_lt_Some). set (cs1 := <[i := set_links c b (-1) head]> cs).
  assert (E1 : cs1 !! i = Some (set_links c b (-1) head)) by (by apply list_lookup_insert_eq).
  assert (E2 : ∀ j, j ≠ i → cs1 !! j = cs !! j) by (intros; by apply list_lookup_insert_ne).
  assert (Hu1 : unlinked <$> cs1 = unlinked <$> cs) by (by apply (unlinked_insert _ _ c)).
  assert (Hl1 : seg cs1 (-1) head l last (-1)).
  { eapply seg_ext; [|exact Hlink]. intros j cj Hj Hcj. exists cj. rewrite E2 by set_solver. done. }
  destruct l as [|j l].
  { destruct Hlink as [-> <-]. change (0 <=? -1) with false. cbv iota. split_and!.
    - exists (Z.of_nat i). split; [done|]. exists (set_links c b (-1) (-1)). done.
    - done.
    - intros k Hk _. by apply E2.
    - eexists. by split; [exact E1|].
    - intros k c' Hk Hc'. rewrite E2 in Hc' by done. by exists c'. }
  destruct Hl1 as (Eh & cj & Hj & Hp & Hrest). rewrite Eh. rewrite (proj2 (Z.leb_le _ _)), Nat2Z.id by lia.
  assert (Hij : j ≠ i) by set_solver.
  set (f := λ c, set_links c (cn_subscription_bucket c) (Z.of_nat i) (cn_subscription_next c)).
  rewrite (alter_insert cs1 j f cj Hj). split_and!.
  - exists last. split; [done|]. exists (set_links c b (-1) head). rewrite list_lookup_insert_ne by done. split_and!; [done..|].
    cbn [set_links cn_subscription_next]. rewrite Eh. apply (seg_set_prev cs1 (-1) l j cj); [done..|]. split; [done|]. by exists cj.
  - by rewrite (unlinked_insert _ _ cj).
  - intros k Hk Hkl. rewrite list_lookup_insert_ne by set_solver. by apply E2.
  - eexists. rewrite list_lookup_insert_ne by done. by split; [exact E1|].
  - intros k c' Hk Hc'. destruct (decide (j = k)) as [<-|].
    + rewrite list_lookup_insert_eq in Hc' by (by eapply lookup_lt_Some). injection Hc' as <-. rewrite E2 in Hj by done. by exists cj.
    + rewrite list_lookup_insert_ne in Hc' by done. rewrite E2 in Hc' by done. by exists c'.
Qed.

Lemma unlinked_lookup cs cs' j c' :
  unlinked <$> cs' = unlinked <$> cs → cs' !! j = Some c' → ∃ c, cs !! j = Some c ∧ unlinked c' = unlinked c.
Proof.
  intros E H. pose proof (f_equal (λ m : list Connection, m !! j) E) as Ej. cbn in Ej. rewrite !list_lookup_fmap, H in Ej.
  destruct (cs !! j) as [c|]; [|done]. exists c. split; [done|]. cbn in Ej. congruence.
Qed.

Lemma unlinked_fd c c' : unlinked c' = unlinked c → cn_fd c' = cn_fd c ∧ cn_order_id c' = cn_order_id c.
Proof. intros E. split; [apply (f_equal cn_fd) in E|apply (f_equal cn_order_id) in E]; done. Qed.

Lemma unlinked_length cs cs' : unlinked <$> cs' = unlinked <$> cs → length cs' = length cs.
Proof. intros E. apply (f_equal length) in E. by rewrite !length_fmap in E. Qed.

Lemma subscribe_ok x ch i c :
  index_ok x ch → ix_connections x !! i = Some c → 0 ≤ cn_fd c → (∀ b, i ∉ ch b) →
  ∃ x' b, subscribe x (Z.of_nat i) = Some (x', true) ∧ index_ok x' (<[b := i :: ch b]> ch) ∧
    unlinked <$> ix_connections x' = unlinked <$> ix_connections x.
Proof.
  intros Hok Hc Hfd Hfree. destruct (bucket_for x ch (cn_order_id c) Hok)
    as (subs & b & bk & Efc & Hb & Hbk & [Hs Hid] & Ht & Hlink & Hother & Hsame).
  assert (Hlt : (i < length (ix_connections x))%nat) by (by eapply lookup_lt_Some).
  set (cs' := pushed_slots (ix_connections x) i (Z.of_nat b) (sb_head bk)).
  destruct (pushed_slots_spec (ix_connections x) i c (Z.of_nat b) (ch b) (sb_head bk) Hc (Hfree b) (ix_nodup _ _ Hok b) Hlink)
    as (Hlink' & Hun & Hrest & (ci' & Hci' & Hbi') & Hbuck). fold cs' in Hlink', Hun, Hrest, Hci', Hbuck.
  set (subs' := <[b := mkBucket (cn_order_id c) (Z.of_nat i) kOccupied]> subs).
  assert (Hlen : length subs = 2048%nat) by apply (tb_length _ Ht).
  exists (mkIndex cs' subs'), b. split; [|split; [|done]].
  - unfold subscribe. rewrite zget_lookup, Hc. cbn [mbind option_bind]. rewrite (proj2 (Z.ltb_ge _ _)) by lia. rewrite Efc.
    cbn [mbind option_bind]. replace ((Z.of_nat b <? 0) || _) with false.
    2:{ unfold u32, kSubscriptionBuckets. rewrite Z.mod_small by lia. lia. }
    rewrite zget_lookup, Hbk. cbn [mbind option_bind]. rewrite !zset_insert by (done || lia). cbn [mbind option_bind].
    replace (u16 (Z.of_nat b)) with (Z.of_nat b) by (unfold u16; rewrite Z.mod_small; lia).
    rewrite Hs, Hid. unfold subs', cs', pushed_slots. rewrite Hc. destruct (Z.leb_spec 0 (sb_head bk)) as [Hh|Hh].
    + rewrite <- (Z2Nat.id (sb_head bk) Hh) at 2. rewrite update_alter.
      * done.
      * rewrite length_insert. destruct Hlink as [last Hl]. destruct (ch b) as [|j l]; [destruct Hl; lia|].
        destruct Hl as (-> & cj & Hj & _). rewrite Nat2Z.id. by eapply lookup_lt_Some.
    + done.
  - split; cbn [ix_connections ix_subscriptions].
    + apply (table_ok_update subs b bk); [done|done|cbn; congruence|done|done].
    + rewrite (unlinked_length _ _ Hun). apply (ix_slots _ _ Hok).
    + intros b' bk' Hb'. destruct (decide (b = b')) as [<-|Hne].
      * rewrite fn_lookup_insert. unfold subs' in Hb'. rewrite list_lookup_insert_eq in Hb' by lia. injection Hb' as <-. by split.
      * rewrite fn_lookup_insert_ne by done. unfold subs' in Hb'. rewrite list_lookup_insert_ne, Hother in Hb' by done.
        destruct (ix_chain _ _ Hok b' bk' Hb') as [[last Hl] Hiff]. split; [|done]. exists last. eapply seg_ext; [|exact Hl].
        intros j cj Hj Hcj. exists cj. split; [|done]. rewrite Hrest; [done|set_solver|].
        intros Hj'. by apply Hne, (member_unique x ch b b' j).
    + intros b' j Hj. assert (Hcase : b' = b ∧ j = i ∨ j ≠ i ∧ j ∈ ch b').
      { destruct (decide (b = b')) as [<-|]; [rewrite fn_lookup_insert in Hj|rewrite fn_lookup_insert_ne in Hj by done; right; set_solver].
        destruct (decide (j = i)); [by left|right; set_solver]. }
      destruct Hcase as [[-> ->]|[Hji Hjb]].
      * destruct (unlinked_lookup _ _ _ _ Hun Hci') as (c0 & Hc0 & Eu). destruct (unlinked_fd _ _ Eu) as [E1 E2].
        assert (c0 = c) by congruence. subst c0. exists ci'. eexists. split; [done|]. split; [by apply list_lookup_insert_eq; lia|]. cbn. split_and!; [lia|done|congruence].
      * destruct (ix_member _ _ Hok b' j Hjb) as (cj & bkj & Hcj & Hbkj & Hfdj & Hbj & Hidj).
        destruct (lookup_lt_is_Some_2 cs' j) as [cj' Hcj'].
        { rewrite (unlinked_length _ _ Hun). by eapply lookup_lt_Some. }
        destruct (unlinked_lookup _ _ _ _ Hun Hcj') as (c0 & Hc0 & Eu). destruct (unlinked_fd _ _ Eu) as [E1 E2].
        destruct (Hbuck j cj' Hji Hcj') as (c1 & Hc1 & E3). assert (c0 = cj) by congruence. assert (c1 = cj) by congruence. subst c0 c1.
        unfold subs'. destruct (decide (b = b')) as [<-|Hne].
        -- exists cj'. eexists. rewrite list_lookup_insert_eq by lia. split_and!; try done; [lia|congruence|]. cbn.
           destruct (Hsame j Hjb) as (bk0 & Hbk0 & Ek). congruence.
        -- exists cj', bkj. rewrite list_lookup_insert_ne, Hother by done. split_and!; try done; [lia|congruence|congruence].
    + intros b'. destruct (decide (b = b')) as [<-|]; [rewrite fn_lookup_insert|rewrite fn_lookup_insert_ne by done; apply (ix_nodup _ _ Hok)].
      constructor; [apply Hfree|apply (ix_nodup _ _ Hok)].
    + intros j cj Hj Hnone. assert (Hji : j ≠ i) by (intros ->; specialize (Hnone b); rewrite fn_lookup_insert in Hnone; set_solver).
      destruct (Hbuck j cj Hji Hj) as (c0 & Hc0 & ->). apply (ix_free _ _ Hok j c0 Hc0). intros b' Hb'. specialize (Hnone b').
      destruct (decide (b = b')) as [<-|]; [rewrite fn_lookup_insert in Hnone; set_solver|by rewrite fn_lookup_insert_ne in Hnone].
Qed.

(** ** Leaving a list *)

Lemma seg_last cs p h l j q g : seg cs p h (l ++ [j]) q g → q = Z.of_nat j.
Proof. intros H. apply links_app in H as (q0 & g0 & _ & (_ & c & _ & _ & [-> _])). done. Qed.

(** The slots after slot [i], between [q] and [n], has left. *)
Definition removed_slots cs (i : nat) (q n : Z) : list Connection :=
  let cs1 := if 0 <=? q then alter (λ c, set_links c (cn_subscription_bucket c) (cn_subscription_prev c) n) (Z.to_nat q) cs else cs in
  let cs2 := if 0 <=? n then alter (λ c, set_links c (cn_subscription_bucket c) q (cn_subscription_next c)) (Z.to_nat n) cs1 else cs1 in
  alter unlinked i cs2.

(** An alteration of links leaves everything else. *)
Lemma alter_links cs (j : nat) f :
  (∀ c, unlinked (f c) = unlinked c) → unlinked <$> alter f j cs = unlinked <$> cs.
Proof.
  intros Hf. apply list_eq. intros k. rewrite !list_lookup_fmap. destruct (decide (j = k)) as [<-|].
  - rewrite list_lookup_alter_eq. destruct (cs !! j); [|done]. cbn. by rewrite Hf.
  - by rewrite list_lookup_alter_ne.
Qed.

Lemma removed_slots_unlinked cs i q n : unlinked <$> removed_slots cs i q n = unlinked <$> cs.
Proof. unfold removed_slots. rewrite alter_links by done. repeat case_cond; by rewrite ?alter_links. Qed.

Lemma removed_slots_bucket cs i q n j c' :
  removed_slots cs i q n !! j = Some c' → ∃ c, cs !! j = Some c ∧
    (j = i → c' = unlinked c) ∧ (j ≠ i → cn_subscription_bucket c' = cn_subscription_bucket c) ∧
    (j ≠ i → Z.of_nat j ≠ q → Z.of_nat j ≠ n → c' = c).
Proof.
  unfold removed_slots. intros H. rewrite list_lookup_alter in H.
  assert (Halt : ∀ (a : Z) f (m : list Connection) cj, (∀ c, cn_subscription_bucket (f c) = cn_subscription_bucket c) → (∀ c, unlinked (f c) = unlinked c) →
    (if 0 <=? a then alter f (Z.to_nat a) m else m) !! j = Some cj →
    ∃ c, m !! j = Some c ∧ cn_subscription_bucket cj = cn_subscription_bucket c ∧ unlinked cj = unlinked c ∧ (Z.of_nat j ≠ a → cj = c)).
  { intros a f m cj Hf Hu Hl. destruct (Z.leb_spec 0 a); [|by exists cj]. rewrite list_lookup_alter in Hl. case_decide as E.
    - rewrite E in Hl. destruct (m !! j) as [c|]; [|done]. cbn in Hl. apply (inj Some) in Hl as <-. exists c. split_and!; [done|apply Hf|apply Hu|lia].
    - by exists cj. }
  destruct (decide (i = j)) as [->|Hne].
  - match type of H with context [?l !! j] => destruct (l !! j) as [c2|] eqn:E2 end; [|done]. cbn in H. apply (inj Some) in H as <-.
    apply Halt in E2 as (c1 & E1 & _ & U1 & _); [|done..]. apply Halt in E1 as (c0 & E0 & _ & U0 & _); [|done..].
    exists c0. split; [done|]. split; [intros _; congruence|]. split; intros; done.
  - apply Halt in H as (c1 & E1 & B1 & _ & K1); [|done..]. apply Halt in E1 as (c0 & E0 & B0 & _ & K0); [|done..].
    exists c0. split; [done|]. split; [intros ->; done|]. split; [congruence|]. intros _ H1 H2. rewrite K1 by done. by apply K0.
Qed.

Lemma removed_slots_linked cs i c l1 l2 head :
  cs !! i = Some c → NoDup (l1 ++ i :: l2) → linked cs head (l1 ++ i :: l2) →
  let q := cn_subscription_prev c in let n := cn_subscription_next c in
  linked (removed_slots cs i q n) (if 0 <=? q then head else n) (l1 ++ l2) ∧
  (0 ≤ q → ∃ j, q = Z.of_nat j ∧ j ∈ l1) ∧ (0 ≤ n → ∃ j, n = Z.of_nat j ∧ j ∈ l2) ∧ (q < 0 → l1 = [] ∧ head = Z.of_nat i) ∧
  (q < 0 → n < 0 → l1 ++ l2 = []).
Proof.
  intros Hc Hn [last H]. cbv zeta. apply links_app in H as (q & g & H1 & H2). destruct H2 as (-> & c0 & Hc0 & Hq & H2).
  rewrite Hc in Hc0. injection Hc0 as <-. rewrite Hq. set (n := cn_subscription_next c) in *.
  apply NoDup_app in Hn as (Hn1 & Hdis & Hn2). apply NoDup_cons in Hn2 as [Hi2 Hn2].
  assert (Hi1 : i ∉ l1) by (intros Hx; apply (Hdis i Hx); set_solver).
  assert (Hq1 : (l1 = [] ∧ q = -1 ∧ head = Z.of_nat i) ∨ (∃ l j, l1 = l ++ [j] ∧ q = Z.of_nat j)).
  { destruct l1 as [|j l _] using rev_ind; [left; destruct H1; done|right]. exists l, j. split; [done|]. by eapply seg_last. }
  assert (Hn1' : (l2 = [] ∧ n = -1) ∨ (∃ k l, l2 = k :: l ∧ n = Z.of_nat k)).
  { destruct l2 as [|k l]; [left; by destruct H2|right]. exists k, l. by destruct H2. }
  split; [|split_and!].
  2:{ intros H. destruct Hq1 as [(-> & -> & ->)|(l & j & -> & ->)]; [lia|]. exists j. split; [done|set_solver]. }
  2:{ intros H. destruct Hn1' as [[-> E]|(k & l' & -> & E)]; [lia|]. exists k. split; [done|set_solver]. }
  2:{ intros H. destruct Hq1 as [(-> & -> & ->)|(l & j & -> & ->)]; [done|lia]. }
  2:{ intros H H'. destruct Hq1 as [(-> & -> & ->)|(l & j & -> & ->)]; [|lia]. destruct Hn1' as [[-> E]|(k & l' & -> & E)]; [done|lia]. }
  unfold removed_slots.
  set (cs1 := if 0 <=? q then _ else cs). set (cs2 := if 0 <=? n then _ else cs1).
  assert (S1 : seg cs1 (-1) (if 0 <=? q then head else n) l1 q n ∧ seg cs1 (Z.of_nat i) n l2 last (-1)).
  { unfold cs1. destruct Hq1 as [(-> & -> & ->)|(l & j & -> & ->)]; [done|]. rewrite (proj2 (Z.leb_le _ _)), Nat2Z.id by lia.
    assert (∃ cj, cs !! j = Some cj) as [cj Hj]. { apply links_app in H1 as (? & ? & _ & (_ & cj & Hj & _)). by exists cj. }
    rewrite (alter_insert _ _ _ cj Hj). split; [by apply (seg_set_next cs (-1) head l j cj _ _ _ n Hn1 Hj H1)|].
    eapply seg_ext; [|exact H2]. intros m cm Hm Hcm. exists cm. rewrite list_lookup_insert_ne; [done|]. intros <-. apply (Hdis j); set_solver. }
  destruct S1 as [S1 S2].
  assert (S3 : ∃ last', seg cs2 (-1) (if 0 <=? q then head else n) l1 q n ∧ seg cs2 q n l2 last' (-1)).
  { unfold cs2. clearbody n. destruct Hn1' as [[-> ->]|(k & l' & -> & ->)].
    - change (0 <=? -1) with false. cbv iota. exists q. split; [done|]. done.
    - rewrite (proj2 (Z.leb_le _ _)), Nat2Z.id by lia. assert (∃ ck, cs1 !! k = Some ck) as [ck Hk] by (destruct S2 as (_ & ck & Hk & _); by exists ck).
      rewrite (alter_insert _ _ _ ck Hk). exists last. split; [|by apply (seg_set_prev cs1 (Z.of_nat i) l' k ck)].
      eapply seg_ext; [|exact S1]. intros m cm Hm Hcm. exists cm. rewrite list_lookup_insert_ne; [done|]. intros <-. apply (Hdis k Hm). set_solver. }
  destruct S3 as (last' & S3 & S4). exists last'. apply (seg_ext cs2).
  - intros m cm Hm Hcm. exists cm. rewrite list_lookup_alter_ne; [done|]. intros <-. apply elem_of_app in Hm as [Hm|Hm]; done.
  - apply links_app. by exists q, n.
Qed.

Lemma unsubscribe_free x ch i c :
  index_ok x ch → ix_connections x !! i = Some c → (∀ b, i ∉ ch b) → unsubscribe x (Z.of_nat i) = Some x.
Proof.
  intros Hok Hc Hfree. unfold unsubscribe. rewrite zget_lookup, Hc. cbn [mbind option_bind].
  by rewrite (ix_free _ _ Hok i c Hc Hfree).
Qed.

(** The assignments of [unsubscribe], for a slot in the list of bucket [b]. *)
Lemma unsubscribe_eq x ch i c b bk :
  index_ok x ch → i ∈ ch b → ix_connections x !! i = Some c → ix_subscriptions x !! b = Some bk →
  let q := cn_subscription_prev c in let n := cn_subscription_next c in
  let head := if 0 <=? q then sb_head bk else n in
  unsubscribe x (Z.of_nat i) = Some (mkIndex (removed_slots (ix_connections x) i q n)
    (<[b := if head <? 0 then mkBucket (sb_order_id bk) (-1) kTombstone else mkBucket (sb_order_id bk) head (sb_state bk)]>
       (ix_subscriptions x))).
Proof.
  intros Hok Hi Hc Hbk. cbv zeta. pose proof (member_bucket _ _ _ _ Hok Hi) as Hb.
  destruct (ix_member _ _ Hok b i Hi) as (c0 & bk0 & Hc0 & Hbk0 & Hfd & Hbc & Hid). assert (c0 = c) by congruence. subst c0.
  apply list_elem_of_split in Hi as (l1 & l2 & El). pose proof (ix_nodup _ _ Hok b) as Hnd. rewrite El in Hnd.
  destruct (ix_chain _ _ Hok b bk Hbk) as [Hlink _]. rewrite El in Hlink.
  destruct (removed_slots_linked _ i c l1 l2 _ Hc Hnd Hlink) as (_ & Hq & Hn & Hhead & _).
  assert (Hlt : (i < length (ix_connections x))%nat) by (by eapply lookup_lt_Some).
  assert (Hlb : (b < length (ix_subscriptions x))%nat) by (by eapply lookup_lt_Some).
  assert (Hin : ∀ j : nat, j ∈ l1 ++ l2 → (j < length (ix_connections x))%nat).
  { intros j Hj. destruct (ix_member _ _ Hok b j) as (cj & _ & Hcj & _); [rewrite El; set_solver|]. by eapply lookup_lt_Some. }
  unfold unsubscribe. rewrite zget_lookup, Hc. cbn [mbind option_bind]. rewrite Hbc.
  replace (_ || _) with false by (unfold kNoSubscriptionBucket, kSubscriptionBuckets; lia).
  rewrite zget_lookup, Hbk. cbn [mbind option_bind]. unfold removed_slots.
  set (q := cn_subscription_prev c) in *. set (n := cn_subscription_next c) in *.
  set (cs1 := if 0 <=? q then alter (λ c, set_links c (cn_subscription_bucket c) (cn_subscription_prev c) n) (Z.to_nat q) (ix_connections x)
              else ix_connections x).
  replace (if 0 <=? q then _ else _) with (Some (cs1, if 0 <=? q then sb_head bk else n)).
  2:{ unfold cs1. destruct (Z.leb_spec 0 q) as [H|H].
      - destruct (Hq H) as (j & -> & Hj). rewrite Nat2Z.id. rewrite update_alter by (apply Hin; set_solver). done.
      - destruct (Hhead H) as [_ ->]. by rewrite Z.eqb_refl. }
  cbn [mbind option_bind]. assert (Hl1 : length cs1 = length (ix_connections x)) by (unfold cs1; case_cond; [apply length_alter|done]).
  set (cs2 := if 0 <=? n then alter (λ c, set_links c (cn_subscription_bucket c) q (cn_subscription_next c)) (Z.to_nat n) cs1 else cs1).
  replace (if 0 <=? n then _ else _) with (Some cs2).
  2:{ unfold cs2. destruct (Z.leb_spec 0 n) as [H|H]; [|done]. destruct (Hn H) as (j & -> & Hj). rewrite Nat2Z.id.
      rewrite update_alter; [done|]. rewrite Hl1. apply Hin. set_solver. }
  cbn [mbind option_bind]. assert (Hl2 : length cs2 = length (ix_connections x)) by (unfold cs2; case_cond; [by rewrite length_alter|done]).
  rewrite zset_insert by done. cbn [mbind option_bind]. rewrite update_alter by (by rewrite Hl2). done.
Qed.

Lemma unsubscribe_ok x ch i b :
  index_ok x ch → i ∈ ch b →
  ∃ x' c, unsubscribe x (Z.of_nat i) = Some x' ∧ index_ok x' (<[b := filter (.≠ i) (ch b)]> ch) ∧
    unlinked <$> ix_connections x' = unlinked <$> ix_connections x ∧
    ix_connections x !! i = Some c ∧ ix_connections x' !! i = Some (unlinked c).
Proof.
  intros Hok Hi. pose proof (member_bucket _ _ _ _ Hok Hi) as Hb.
  destruct (ix_member _ _ Hok b i Hi) as (c & bk & Hc & Hbk & Hfd & Hbc & Hid).
  rewrite (unsubscribe_eq x ch i c b bk Hok Hi Hc Hbk). pose proof (ix_nodup _ _ Hok b) as Hnd.
  set (q := cn_subscription_prev c). set (n := cn_subscription_next c). set (head := if 0 <=? q then sb_head bk else n).
  set (cs' := removed_slots (ix_connections x) i q n).
  assert (Hsplit : ∃ l1 l2, ch b = l1 ++ i :: l2 ∧ filter (.≠ i) (ch b) = l1 ++ l2).
  { apply list_elem_of_split in Hi as (l1 & l2 & El). exists l1, l2. split; [done|]. rewrite El in Hnd |- *.
    apply NoDup_app in Hnd as (Hn1 & Hdis & Hn2). apply NoDup_cons in Hn2 as [Hi2 Hn2]. rewrite filter_app, filter_cons_False by naive_solver.
    f_equal; apply filter_id, Forall_forall; intros j Hj ->; [apply (Hdis i Hj); set_solver|done]. }
  destruct Hsplit as (l1 & l2 & El & Ef). rewrite Ef.
  destruct (ix_chain _ _ Hok b bk Hbk) as [Hlink Hst]. rewrite El in Hlink, Hnd.
  destruct (removed_slots_linked _ i c l1 l2 _ Hc Hnd Hlink) as (Hlink' & _ & Hn & Hhead & Hnil). fold q n head cs' in Hlink', Hn, Hhead, Hnil.
  pose proof (removed_slots_unlinked (ix_connections x) i q n) as Hun. fold cs' in Hun.
  pose proof (removed_slots_bucket (ix_connections x) i q n) as Hbuck. fold cs' in Hbuck.
  assert (Hhd : head < 0 ↔ l1 ++ l2 = []).
  { destruct Hlink' as [last Hl']. destruct (l1 ++ l2) as [|j l]; [destruct Hl' as [_ <-]; split; [done|lia]|]. destruct Hl' as (-> & _). split; [lia|done]. }
  eexists _, c. split; [done|]. split; [|split_and!; [done|done|]].
  2:{ cbn. destruct (lookup_lt_is_Some_2 cs' i) as [c' Hc']; [rewrite (unlinked_length _ _ Hun); by eapply lookup_lt_Some|].
      rewrite Hc'. destruct (Hbuck i c' Hc') as (c0 & Hc0 & E & _). rewrite E by done. congruence. }
  assert (Hlb : (b < length (ix_subscriptions x))%nat) by (by eapply lookup_lt_Some).
  set (bk' := if head <? 0 then mkBucket (sb_order_id bk) (-1) kTombstone else mkBucket (sb_order_id bk) head (sb_state bk)).
  assert (Hocc : sb_state bk = kOccupied) by (apply Hst; rewrite El; by destruct l1).
  assert (Hsub : ∀ j, j ∈ l1 ++ l2 ↔ j ∈ ch b ∧ j ≠ i).
  { intros j. rewrite <- Ef, list_elem_of_filter. naive_solver. }
  split; cbn [ix_connections ix_subscriptions].
  - apply (table_ok_update _ b bk); [apply (ix_table _ _ Hok)|done|unfold bk'; by case_cond|unfold bk'; by case_cond; [|rewrite Hocc]|done].
  - rewrite (unlinked_length _ _ Hun). apply (ix_slots _ _ Hok).
  - intros b' bkb Hb'. destruct (decide (b = b')) as [<-|Hne].
    + rewrite fn_lookup_insert. rewrite list_lookup_insert_eq in Hb' by done. injection Hb' as <-. unfold bk'.
      destruct (Z.ltb_spec head 0) as [Hh|Hh]; cbn [sb_head sb_state].
      * rewrite (proj1 Hhd Hh). split; [by exists (-1)|done].
      * split; [done|]. rewrite Hocc. split; [|done]. intros _ E. apply Hhd in E. lia.
    + rewrite fn_lookup_insert_ne by done. rewrite list_lookup_insert_ne in Hb' by done.
      destruct (ix_chain _ _ Hok b' bkb Hb') as [[last Hl] Hiff]. split; [|done]. exists last. eapply seg_ext; [|exact Hl].
      intros j cj Hj Hcj. assert (Hjb : j ∉ ch b) by (intros Hj'; by apply Hne, (member_unique x ch b b' j)).
      destruct (lookup_lt_is_Some_2 cs' j) as [cj' Hcj']; [rewrite (unlinked_length _ _ Hun); by eapply lookup_lt_Some|].
      exists cj'. split; [done|]. destruct (Hbuck j cj' Hcj') as (c0 & Hc0 & _ & _ & Hkeep). assert (c0 = cj) by congruence. subst c0.
      destruct (removed_slots_linked _ i c l1 l2 _ Hc Hnd Hlink) as (_ & Hq' & _). fold q in Hq'.
      rewrite Hkeep; [done|by intros ->|intros Hq''|intros Hn''].
      * destruct Hq' as (j' & Ej & Hj'); [lia|]. apply Hjb. rewrite El. assert (j = j') as -> by lia. set_solver.
      * destruct Hn as (j' & Ej & Hj'); [lia|]. apply Hjb. rewrite El. assert (j = j') as -> by lia. set_solver.
  - intros b' j Hj. assert (Hj' : j ∈ ch b' ∧ j ≠ i).
    { destruct (decide (b = b')) as [<-|Hne]; [rewrite fn_lookup_insert in Hj; by apply Hsub|rewrite fn_lookup_insert_ne in Hj by done].
      split; [done|]. intros ->. by apply Hne, (member_unique x ch b b' i). }
    destruct Hj' as [Hjb Hji]. destruct (ix_member _ _ Hok b' j Hjb) as (cj & bkj & Hcj & Hbkj & Hfdj & Hbj & Hidj).
    destruct (lookup_lt_is_Some_2 cs' j) as [cj' Hcj']; [rewrite (unlinked_length _ _ Hun); by eapply lookup_lt_Some|].
    destruct (unlinked_lookup _ _ _ _ Hun Hcj') as (c0 & Hc0 & Eu). destruct (unlinked_fd _ _ Eu) as [E1 E2].
    destruct (Hbuck j cj' Hcj') as (c1 & Hc1 & _ & Hkb & _). specialize (Hkb Hji).
    assert (c0 = cj) by congruence. assert (c1 = cj) by congruence. subst c0 c1.
    destruct (decide (b = b')) as [<-|Hne].
    + exists cj', bk'. rewrite list_lookup_insert_eq by done. split_and!; [done|done|lia|congruence|].
      assert (bkj = bk) by congruence. subst bkj. unfold bk'. case_cond; cbn; congruence.
    + exists cj', bkj. rewrite list_lookup_insert_ne by done. split_and!; [done|done|lia|congruence|congruence].
  - intros b'. destruct (decide (b = b')) as [<-|]; [rewrite fn_lookup_insert, <- Ef; apply NoDup_filter, (ix_nodup _ _ Hok)
      |rewrite fn_lookup_insert_ne by done; apply (ix_nodup _ _ Hok)].
  - intros j cj Hj Hnone. destruct (Hbuck j cj Hj) as (c0 & Hc0 & Hself & Hkb & _). destruct (decide (j = i)) as [->|Hji].
    + by rewrite (Hself eq_refl).
    + rewrite (Hkb Hji). apply (ix_free _ _ Hok j c0 Hc0). intros b' Hb'. specialize (Hnone b').
      destruct (decide (b = b')) as [<-|]; [rewrite fn_lookup_insert in Hnone; apply Hnone, Hsub; done|by rewrite fn_lookup_insert_ne in Hnone].
Qed.

(** ** Changes that leave the subscriptions alone *)

(** What the index reads of a slot. *)
Definition core (c : Connection) : Z * Z * Z * Z * Z :=
  (cn_fd c, cn_order_id c, cn_subscription_bucket c, cn_subscription_prev c, cn_subscription_next c).

Lemma index_ok_slot x ch i c c' :
  index_ok x ch → ix_connections x !! i = Some c →
  core c' = core c ∨ ((∀ b, i ∉ ch b) ∧ cn_subscription_bucket c' = kNoSubscriptionBucket) →
  index_ok (mkIndex (<[i := c']> (ix_connections x)) (ix_subscriptions x)) ch.
Proof.
  intros Hok Hc Hcase. assert (Hlt : (i < length (ix_connections x))%nat) by (by eapply lookup_lt_Some).
  assert (Hmem : ∀ b j cj, j ∈ ch b → ix_connections x !! j = Some cj →
    ∃ cj', <[i := c']> (ix_connections x) !! j = Some cj' ∧ core cj' = core cj).
  { intros b j cj Hj Hcj. destruct (decide (i = j)) as [<-|]; [|rewrite list_lookup_insert_ne by done; by exists cj].
    rewrite list_lookup_insert_eq by done. exists c'. split; [done|]. assert (cj = c) by congruence. subst.
    destruct Hcase as [|[Hfree _]]; [done|]. by destruct (Hfree b). }
  split; cbn [ix_connections ix_subscriptions].
  - apply (ix_table _ _ Hok).
  - rewrite length_insert. apply (ix_slots _ _ Hok).
  - intros b bk Hb. destruct (ix_chain _ _ Hok b bk Hb) as [[last Hl] Hiff]. split; [|done]. exists last.
    eapply seg_ext; [|exact Hl]. intros j cj Hj Hcj. destruct (Hmem b j cj Hj Hcj) as (cj' & Hcj' & E). exists cj'.
    split; [done|]. unfold core in E. by simplify_eq.
  - intros b j Hj. destruct (ix_member _ _ Hok b j Hj) as (cj & bk & Hcj & Hbk & Hfd & Hb & Hid).
    destruct (Hmem b j cj Hj Hcj) as (cj' & Hcj' & E). exists cj', bk. unfold core in E. simplify_eq. split_and!; congruence || lia.
  - apply (ix_nodup _ _ Hok).
  - intros j cj Hj Hfree. destruct (decide (i = j)) as [<-|].
    + rewrite list_lookup_insert_eq in Hj by done. apply (inj Some) in Hj as <-. destruct Hcase as [E|[_ E]]; [|done].
      rewrite <- (ix_free _ _ Hok i c Hc Hfree). unfold core in E. congruence.
    + rewrite list_lookup_insert_ne in Hj by done. by apply (ix_free _ _ Hok j cj).
Qed.

Lemma index_ok_start n : (n ≤ 1000)%nat → index_ok (mkIndex (replicate n Connection_init) reset_subscriptions) (λ _, []).
Proof.
  intros Hn. unfold reset_subscriptions. change (Z.to_nat kSubscriptionBuckets) with 2048%nat.
  split; cbn [ix_connections ix_subscriptions].
  - split; [by rewrite length_replicate| |]; intros.
    + apply lookup_replicate in H as [-> _]. done.
    + destruct H1 as [H1 _]. apply lookup_replicate in H as [-> _]. done.
  - by rewrite length_replicate.
  - intros b bk Hb. apply lookup_replicate in Hb as [-> _]. split; [by exists (-1)|done].
  - intros b i Hi. set_solver.
  - intros _. constructor.
  - intros i c Hc _. by apply lookup_replicate in Hc as [-> _].
Qed.
