(* ===== verification/WsServer.v ===== *)
(** * WsServer: the WebSocket worker (src/luv_websocket.cpp, class Server)

    The worker's methods over its state, for the poll(2) platforms.  Clock
    readings and the outcomes of system calls are inputs; a descriptor given to
    close(2) is recorded.  The two queues are FIFO lists of bounded length, what
    Ring.v shows of the rings; the admission words are treated step by step in
    WsAdmission.v. *)

From S2P Require Import Prelude Arena ArenaLayout Gateway WsText WsAccept WsConn WsSubs.
From Stdlib Require Import ZArith Lia String.
From stdpp Require Import base tactics functions gmap numbers option list.
Open Scope Z_scope.

Definition kMaxConnections : Z := kWebSocketConnections.
Definition kUpgradeQueueCapacity : Z := 1024.
Definition kEventQueueCapacity : Z := 1024.
Definition kMaxUpgradePreReadBytes : Z := 2048.
Definition kBackpressureCloseNs : Z := 5000000.
Definition kMaintenanceIntervalNs : Z := 1000000.
Definition kMaximumMaintenanceDeferralNs : Z := 1000000.
Definition kPostFillQuietPeriodNs : Z := 50000.
Definition kMaxUpgradesPerTurn : nat := 16.
Definition kMaxFillsPerTurn : nat := 128.
Definition kLatencySampleCapacity : Z := 1024.
Definition kLatencySampleMask : Z := kLatencySampleCapacity - 1.

(** poll(2) event bits. *)
Definition POLLIN : Z := 1.
Definition POLLPRI : Z := 2.
Definition POLLOUT : Z := 4.
Definition POLLERR : Z := 8.
Definition POLLHUP : Z := 16.
Definition POLLNVAL : Z := 32.

Record PollFd := mkPoll { pf_fd : Z; pf_events : Z }.

Record Upgrade := mkUpgrade { ug_fd : Z; ug_order_id : Z; ug_key : list Z; ug_pre_read : list Z }.
Record PendingFill := mkPending { pn_event : FillEvent; pn_published_ns : Z }.

Inductive UpgradeResult := uAccepted | uInvalidKey | uInvalidUpgrade | uPoolExhausted | uQueueFull.

(** The diagnostics counters. *)
Inductive Counter :=
  | completed_broadcasts | last_broadcast_latency_ns | last_fanout_count | queued_frames | dropped_frames
  | slow_client_closes | last_backpressure_close_ns | pings_sent | pongs_received | last_pong_rtt_ns | cleanup_count
  | dropped_events.

#[export] Instance Counter_eq_dec : EqDecision Counter.
Proof. solve_decision. Defined.

Record Server := mkServer {
  sv_index : Index;
  sv_poll_fds : list PollFd;
  sv_active : Z;
  sv_reserved : Z;
  sv_counters : Counter → Z;
  sv_samples : list Z;
  sv_upgrades : list Upgrade;
  sv_events : list PendingFill;
  sv_next_maintenance_ns : Z;
  sv_last_fill_activity_ns : Z;
  sv_ping_interval_ns : Z;
  sv_pong_timeout_ns : Z;
  sv_closed : list Z
}.

Definition max_connections (s : Server) : Z := Z.of_nat (length (ix_connections (sv_index s))).

(** Member assignments. *)
Definition with_index (s : Server) (x : Index) : Server :=
  mkServer x (sv_poll_fds s) (sv_active s) (sv_reserved s) (sv_counters s) (sv_samples s) (sv_upgrades s) (sv_events s)
    (sv_next_maintenance_ns s) (sv_last_fill_activity_ns s) (sv_ping_interval_ns s) (sv_pong_timeout_ns s) (sv_closed s).
Definition with_poll (s : Server) (p : list PollFd) : Server :=
  mkServer (sv_index s) p (sv_active s) (sv_reserved s) (sv_counters s) (sv_samples s) (sv_upgrades s) (sv_events s)
    (sv_next_maintenance_ns s) (sv_last_fill_activity_ns s) (sv_ping_interval_ns s) (sv_pong_timeout_ns s) (sv_closed s).
Definition with_slots (s : Server) (active reserved : Z) : Server :=
  mkServer (sv_index s) (sv_poll_fds s) active reserved (sv_counters s) (sv_samples s) (sv_upgrades s) (sv_events s)
    (sv_next_maintenance_ns s) (sv_last_fill_activity_ns s) (sv_ping_interval_ns s) (sv_pong_timeout_ns s) (sv_closed s).
Definition with_counters (s : Server) (f : Counter → Z) (samples : list Z) : Server :=
  mkServer (sv_index s) (sv_poll_fds s) (sv_active s) (sv_reserved s) f samples (sv_upgrades s) (sv_events s)
    (sv_next_maintenance_ns s) (sv_last_fill_activity_ns s) (sv_ping_interval_ns s) (sv_pong_timeout_ns s) (sv_closed s).
Definition with_queues (s : Server) (u : list Upgrade) (e : list PendingFill) : Server :=
  mkServer (sv_index s) (sv_poll_fds s) (sv_active s) (sv_reserved s) (sv_counters s) (sv_samples s) u e
    (sv_next_maintenance_ns s) (sv_last_fill_activity_ns s) (sv_ping_interval_ns s) (sv_pong_timeout_ns s) (sv_closed s).
Definition with_times (s : Server) (maintenance activity : Z) : Server :=
  mkServer (sv_index s) (sv_poll_fds s) (sv_active s) (sv_reserved s) (sv_counters s) (sv_samples s) (sv_upgrades s) (sv_events s)
    maintenance activity (sv_ping_interval_ns s) (sv_pong_timeout_ns s) (sv_closed s).
Definition with_closed (s : Server) (fds : list Z) : Server :=
  mkServer (sv_index s) (sv_poll_fds s) (sv_active s) (sv_reserved s) (sv_counters s) (sv_samples s) (sv_upgrades s) (sv_events s)
    (sv_next_maintenance_ns s) (sv_last_fill_activity_ns s) (sv_ping_interval_ns s) (sv_pong_timeout_ns s) fds.

Definition sv_get : ST Server Server := λ s, Some (s, s).
Definition sv_modify (f : Server → Server) : ST Server unit := λ s, Some (tt, f s).

(** The connection in a slot, and an assignment to it. *)
Definition conn (i : Z) : ST Server Connection := s ← sv_get; lift (zget (ix_connections (sv_index s)) i).
Definition set_conn (i : Z) (c : Connection) : ST Server unit :=
  s ← sv_get;
  cs ← lift (zset (ix_connections (sv_index s)) i c);
  sv_modify (λ s, with_index s (mkIndex cs (ix_subscriptions (sv_index s)))).

Definition count (k : Counter) : ST Server unit :=
  sv_modify (λ s, with_counters s (<[k := u64 (sv_counters s k + 1)]> (sv_counters s)) (sv_samples s)).
Definition record (k : Counter) (v : Z) : ST Server unit :=
  sv_modify (λ s, with_counters s (<[k := v]> (sv_counters s)) (sv_samples s)).

Definition close_fd (fd : Z) : ST Server unit := sv_modify (λ s, with_closed s (sv_closed s ++ [fd])).

(** ** Poll interest *)

Definition interest (c : Connection) : PollFd :=
  mkPoll (cn_fd c)
    (if cn_fd c <? 0 then 0 else if negb (cn_write_offset c =? cn_write_size c) then Z.lor POLLIN POLLOUT else POLLIN).

Definition refresh_poll_interest (i : Z) : ST Server unit :=
  c ← conn i; s ← sv_get;
  p ← lift (zset (sv_poll_fds s) (i + 1) (interest c));
  sv_modify (λ s, with_poll s p).

Definition clear_poll_interest (i : Z) : ST Server unit :=
  s ← sv_get;
  p ← lift (zset (sv_poll_fds s) (i + 1) (mkPoll (-1) 0));
  sv_modify (λ s, with_poll s p).

(** ** Closing *)

Definition close (i : Z) : ST Server unit :=
  c ← conn i;
  if cn_fd c <? 0 then mret tt else
  s ← sv_get;
  x ← lift (unsubscribe (sv_index s) i);
  sv_modify (λ s, with_index s x);;
  clear_poll_interest i;;
  close_fd (cn_fd c);;
  set_conn i Connection_init;;
  sv_modify (λ s, with_slots s (u32 (sv_active s - 1)) (u32 (sv_reserved s - 1)));;
  count cleanup_count.

Definition close_pending_upgrade (u : Upgrade) : ST Server unit :=
  (if 0 <=? ug_fd u then close_fd (ug_fd u) else mret tt);;
  sv_modify (λ s, with_slots s (sv_active s) (u32 (sv_reserved s - 1))).

(** ** Queueing *)

Definition queue_bytes (i : Z) (bs : list Z) : ST Server bool :=
  c ← conn i;
  '(c, ok) ← lift (put_bytes c bs);
  set_conn i c;;
  (if ok && negb (Z.of_nat (length bs) =? 0) then refresh_poll_interest i else mret tt);;
  mret ok.

Definition queue_frame (i opcode : Z) (payload : list Z) : ST Server bool :=
  let payload_size := Z.of_nat (length payload) in
  if negb (Z.land opcode 0xF0 =? 0) || (0xFFFF <? payload_size) then mret false else
  let header := frame_head opcode payload_size in
  c ← conn i;
  if kWriteBufferBytes <? u64 (pending_size c + Z.of_nat (length header) + payload_size) then mret false else
  ok ← queue_bytes i header;
  if ok : bool then queue_bytes i payload else mret false.

Definition queue_close (i code : Z) (reason : list Z) : ST Server bool :=
  if 123 <? Z.of_nat (length reason) then mret false
  else queue_frame i 0x08 ([u8 (Z.shiftr code 8); u8 code] ++ reason).

Definition close_with_code (i code : Z) : ST Server bool :=
  ok ← queue_close i code [];
  if negb ok then close i;; mret false else
  c ← conn i;
  set_conn i (set_flags c (cn_awaiting_pong c) true (cn_fragmented_data c));;
  mret true.

(** ** Sending *)

(** What [send] returns for the bytes it is offered: a number of bytes it takes, or
    an error. *)
Inductive SendResult := Sent (n : Z) | SendInterrupted | SendWouldBlock | SendFailed.

(** Everything has been sent: the buffer is empty, and a connection that waits for
    that is closed. *)
Definition flushed (i : Z) : ST Server bool :=
  c ← conn i;
  set_conn i (set_blocked (set_write c 0 0 (cn_write_buffer c)) 0);;
  if cn_close_after_flush c then close i;; mret false
  else refresh_poll_interest i;; mret true.

Definition flush (i timestamp_ns : Z) (outcome : SendResult) : ST Server bool :=
  c ← conn i;
  if cn_write_offset c =? cn_write_size c then flushed i else
  let pending := pending_size c in
  let blocked :=
    if cn_write_blocked_since_ns c =? 0 then set_conn i (set_blocked c timestamp_ns);; mret true
    else if kBackpressureCloseNs <=? u64 (timestamp_ns - cn_write_blocked_since_ns c) then
      record last_backpressure_close_ns (u64 (timestamp_ns - cn_write_blocked_since_ns c));;
      count slow_client_closes;;
      close i;; mret false
    else mret true in
  match outcome with
  | Sent n =>
      let sent := Z.min n pending in
      if 0 <? sent then
        let c := set_write c (u16 (cn_write_offset c + sent)) (cn_write_size c) (cn_write_buffer c) in
        set_conn i c;;
        if cn_write_offset c =? cn_write_size c then flushed i
        else set_conn i (set_blocked c timestamp_ns);; refresh_poll_interest i;; mret true
      else blocked
  | SendInterrupted => mret true
  | SendFailed => close i;; mret false
  | SendWouldBlock => blocked
  end.

(** ** Receiving *)

(** A frame whose payload is not queued fails the connection. *)
Definition reply_or_close (i opcode : Z) (payload : list Z) : ST Server bool :=
  ok ← queue_frame i opcode payload;
  if negb ok then count slow_client_closes;; close i;; mret false else mret true.

(** A control frame: [Some r] returns early. *)
Definition handle_control (i timestamp_ns opcode : Z) (payload : list Z) : ST Server (option FrameResult) :=
  if opcode =? 0x08 then
    bad ← lift (check_close payload);
    match bad with
    | Some r => mret (Some r)
    | None =>
        ok ← reply_or_close i 0x08 payload;
        if negb ok then mret (Some kConsumed) else
        c ← conn i;
        set_conn i (set_flags c (cn_awaiting_pong c) true (cn_fragmented_data c));;
        mret None
    end
  else if opcode =? 0x09 then
    ok ← reply_or_close i 0x0A payload;
    mret (if negb ok then Some kConsumed else None)
  else if opcode =? 0x0A then
    c ← conn i;
    let c := set_ping c (cn_last_ping_ns c) timestamp_ns in
    set_conn i c;;
    count pongs_received;;
    if cn_awaiting_pong c && (cn_last_ping_ns c <=? timestamp_ns) then
      record last_pong_rtt_ns (timestamp_ns - cn_last_ping_ns c);;
      set_conn i (set_flags c false (cn_close_after_flush c) (cn_fragmented_data c));;
      mret None
    else mret None
  else mret None.

Definition handle_data (i : Z) (h : FrameHead) : ST Server (option FrameResult) :=
  c ← conn i;
  match fragment_step (cn_fragmented_data c) (fh_final h) (fh_opcode h) with
  | None => mret (Some kProtocolError)
  | Some fragmented =>
      set_conn i (set_flags c (cn_awaiting_pong c) (cn_close_after_flush c) fragmented);; mret None
  end.

Definition consume_frame (i timestamp_ns : Z) : ST Server FrameResult :=
  c ← conn i;
  head ← lift (parse_head c);
  match head with
  | inl r => mret r
  | inr h =>
      '(c, payload) ← lift (unmask_payload c h);
      set_conn i c;;
      r ← (if negb (Z.land (fh_opcode h) 0x08 =? 0) then handle_control i timestamp_ns (fh_opcode h) payload else handle_data i h);
      match r with
      | Some r => mret r
      | None =>
          c ← conn i;
          c ← lift (drop_frame c h);
          set_conn i c;;
          mret kConsumed
      end
  end.

(** What [recv] finds in the socket: bytes, of which it takes what fits (none is an
    orderly shutdown), or an error. *)
Inductive RecvResult := Received (bs : list Z) | RecvInterrupted | RecvWouldBlock | RecvFailed.

(** The inner loop: frames as long as there are complete ones.  [Some b] is a
    return of [receive]. *)
Fixpoint consume_frames (fuel : nat) (i timestamp_ns : Z) : ST Server (option bool) :=
  match fuel with
  | O => λ _, None
  | S fuel' =>
      result ← consume_frame i timestamp_ns;
      match result with
      | kConsumed =>
          c ← conn i;
          if (cn_fd c <? 0) || cn_close_after_flush c then mret (Some true) else consume_frames fuel' i timestamp_ns
      | kProtocolError => b ← close_with_code i 1002; mret (Some b)
      | kInvalidUtf8 => b ← close_with_code i 1007; mret (Some b)
      | kMessageTooLarge => b ← close_with_code i 1009; mret (Some b)
      | kIncomplete => mret None
      end
  end.

(** Frames take at least 6 bytes of the read buffer each. *)
Definition kFrameFuel : nat := 400.

(** One round of [receive] per element of [recvs]; it takes at most eight. *)
Fixpoint receive_passes (recvs : list RecvResult) (i timestamp_ns : Z) : ST Server bool :=
  match recvs with
  | [] => mret true
  | outcome :: recvs' =>
      r ← consume_frames kFrameFuel i timestamp_ns;
      match r with
      | Some b => mret b
      | None =>
          c ← conn i;
          if cn_close_after_flush c then mret true else
          if cn_read_size c =? kReadBufferBytes then close_with_code i 1009 else
          let remaining := kReadBufferBytes - cn_read_size c in
          match outcome with
          | Received bs =>
              let bs := take (Z.to_nat remaining) bs in
              let received := Z.of_nat (length bs) in
              if 0 <? received then
                buffer ← lift (put (cn_read_buffer c) (Z.to_nat (cn_read_size c)) bs);
                set_conn i (set_read c (u16 (cn_read_size c + received)) buffer);;
                receive_passes recvs' i timestamp_ns
              else close i;; mret false
          | RecvInterrupted => receive_passes recvs' i timestamp_ns
          | RecvWouldBlock => mret true
          | RecvFailed => close i;; mret false
          end
      end
  end.

Definition receive (i timestamp_ns : Z) (recvs : list RecvResult) : ST Server bool :=
  receive_passes (take 8 (recvs ++ replicate 8 RecvWouldBlock)) i timestamp_ns.

(** ** Fill fan-out *)

(** The subscribers of one order, along their list; [clock] reads the time when a
    slot is dropped. *)
Fixpoint fan_out (fuel : nat) (order_id : Z) (payload : list Z) (clock : Z → Z) (connection_index fanout : Z) : ST Server Z :=
  match fuel with
  | O => λ _, None
  | S fuel' =>
      if connection_index <? 0 then mret fanout else
      c ← conn connection_index;
      let next_connection := cn_subscription_next c in
      if (cn_fd c <? 0) || cn_close_after_flush c || negb (cn_order_id c =? order_id)
      then fan_out fuel' order_id payload clock next_connection fanout else
      queued ← queue_frame connection_index 0x01 payload;
      if queued : bool then
        count queued_frames;;
        fan_out fuel' order_id payload clock next_connection (u32 (fanout + 1))
      else
        count dropped_frames;;
        c ← conn connection_index;
        (if 0 <=? cn_fd c then
           let closed_at := clock connection_index in
           let pending_since := cn_write_blocked_since_ns c in
           record last_backpressure_close_ns
             (if negb (pending_since =? 0) && (pending_since <=? closed_at) then closed_at - pending_since else 0);;
           count slow_client_closes;;
           close connection_index
         else mret tt);;
        fan_out fuel' order_id payload clock next_connection fanout
  end.

Definition broadcast (fill : PendingFill) (clock : Z → Z) (completed_ns : Z) : ST Server unit :=
  '(cursor, formatted) ← lift (format_fill_json (replicate 256 0) (pn_event fill));
  s ← sv_get;
  fanout ←
    (if formatted && negb (cur_offset cursor =? 0) then
       bucket_index ← lift (find_subscription (ix_subscriptions (sv_index s)) (fe_order_id (pn_event fill)));
       head ← (if bucket_index <? 0 then mret (-1)
               else bucket ← lift (zget (ix_subscriptions (sv_index s)) bucket_index); mret (sb_head bucket));
       fan_out (S (length (ix_connections (sv_index s)))) (fe_order_id (pn_event fill)) (written cursor) clock head 0
     else mret 0);
  let latency := if pn_published_ns fill <=? completed_ns then completed_ns - pn_published_ns fill else 0 in
  record last_fanout_count fanout;;
  record last_broadcast_latency_ns latency;;
  s ← sv_get;
  let completed := sv_counters s completed_broadcasts in
  samples ← lift (zset (sv_samples s) (Z.land completed kLatencySampleMask) latency);
  sv_modify (λ s, with_counters s (sv_counters s) samples);;
  record completed_broadcasts (u64 (completed + 1)).

(** ** Keep-alive *)

Definition service_keepalive (i timestamp_ns : Z) : ST Server unit :=
  c ← conn i; s ← sv_get;
  if cn_fd c <? 0 then mret tt else
  if negb (cn_write_offset c =? cn_write_size c) && negb (cn_write_blocked_since_ns c =? 0) &&
     (kBackpressureCloseNs <=? u64 (timestamp_ns - cn_write_blocked_since_ns c)) then
    record last_backpressure_close_ns (u64 (timestamp_ns - cn_write_blocked_since_ns c));;
    count slow_client_closes;;
    close i
  else
  if cn_close_after_flush c then mret tt else
  if cn_awaiting_pong c then
    if sv_pong_timeout_ns s <=? u64 (timestamp_ns - cn_last_ping_ns c) then close i else mret tt
  else
  if (sv_ping_interval_ns s =? 0) || (u64 (timestamp_ns - cn_last_ping_ns c) <? sv_ping_interval_ns s) then mret tt else
  ok ← queue_frame i 0x09 [];
  if negb ok then count slow_client_closes;; close i else
  c ← conn i;
  set_conn i (set_flags (set_ping c timestamp_ns (cn_last_pong_ns c)) true (cn_close_after_flush c) (cn_fragmented_data c));;
  count pings_sent.

(** ** Upgrades *)

Definition crlf : list Z := [13; 10].

Definition upgrade_response (accept : list Z) : list Z :=
  str "HTTP/1.1 101 Switching Protocols" ++ crlf ++ str "Upgrade: websocket" ++ crlf ++ str "Connection: Upgrade" ++ crlf ++
  str "Sec-WebSocket-Accept: " ++ accept ++ crlf ++ crlf.

(** The characters of a C string. *)
Fixpoint c_string (l : list Z) : list Z := match l with [] => [] | c :: l' => if c =? 0 then [] else c :: c_string l' end.

(** Clock readings and system call outcomes of one [accept_upgrade]. *)
Record AcceptEnv := mkAccept { ae_nonblocking : bool; ae_now : Z; ae_receive_now : Z; ae_recvs : list RecvResult }.

Definition accept_upgrade (u : Upgrade) (env : AcceptEnv) : ST Server unit :=
  if ug_fd u <? 0 then close_pending_upgrade u else
  s ← sv_get;
  match first_index (λ c, cn_fd c <? 0) (ix_connections (sv_index s)) with
  | None => close_pending_upgrade u
  | Some slot =>
      let i := Z.of_nat slot in
      accept ← lift (make_accept (Some (ug_key u)));
      match accept with
      | None => close_pending_upgrade u
      | Some accept =>
          if negb (ae_nonblocking env) then close_pending_upgrade u else
          let c := set_ping (set_identity Connection_init (ug_fd u) (ug_order_id u)) (ae_now env) (ae_now env) in
          c ← (if negb (Z.of_nat (length (ug_pre_read u)) =? 0)
               then buffer ← lift (put (cn_read_buffer c) 0 (ug_pre_read u));
                    mret (set_read c (u16 (Z.of_nat (length (ug_pre_read u)))) buffer)
               else mret c);
          set_conn i c;;
          sv_modify (λ s, with_slots s (u32 (sv_active s + 1)) (sv_reserved s));;
          s ← sv_get;
          '(x, ok) ← lift (subscribe (sv_index s) i);
          sv_modify (λ s, with_index s x);;
          if negb ok then close i else
          let response := upgrade_response (c_string accept) in
          let written := Z.of_nat (length response) in
          ok ← (if 192 <=? written then mret false else queue_bytes i response);
          if negb ok then close i else
          c ← conn i;
          if negb (cn_read_size c =? 0) then receive i (ae_receive_now env) (ae_recvs env);; mret tt else mret tt
      end
  end.

(** ** The producers *)

(** [leased] is the outcome of the admission lease. *)
Definition enqueue_upgrade (fd order_id : Z) (key : option (list Z)) (pre_read : list Z) (leased : bool)
    : ST Server UpgradeResult :=
  if fd <? 0 then mret uInvalidKey else
  decoded ← lift (decode_websocket_key key);
  match decoded with
  | None => close_fd fd;; mret uInvalidKey
  | Some _ =>
      if kMaxUpgradePreReadBytes <? Z.of_nat (length pre_read) then close_fd fd;; mret uInvalidUpgrade else
      if negb leased then close_fd fd;; mret uQueueFull else
      s ← sv_get;
      if max_connections s <=? sv_reserved s then close_fd fd;; mret uPoolExhausted else
      sv_modify (λ s, with_slots s (sv_active s) (u32 (sv_reserved s + 1)));;
      chars ← lift (k ← key; slice k 0 kWebSocketKeyBytes);
      let upgrade := mkUpgrade fd order_id (chars ++ replicate 8 0) pre_read in
      if Z.of_nat (length (sv_upgrades s)) <? kUpgradeQueueCapacity
      then sv_modify (λ s, with_queues s (sv_upgrades s ++ [upgrade]) (sv_events s));; mret uAccepted
      else sv_modify (λ s, with_slots s (sv_active s) (u32 (sv_reserved s - 1)));; close_fd fd;; mret uQueueFull
  end.

Definition publish (event : FillEvent) (published_ns : Z) (leased : bool) : ST Server bool :=
  if negb leased then mret false else
  s ← sv_get;
  if Z.of_nat (length (sv_events s)) <? kEventQueueCapacity
  then sv_modify (λ s, with_queues s (sv_upgrades s) (sv_events s ++ [mkPending event published_ns]));; mret true
  else count dropped_events;; mret false.

(** ** The worker's loop *)

(** One turn's clock readings and system call outcomes. *)
Record TurnEnv := mkTurn {
  te_clock : nat → Z → Z;
  te_completed : nat → Z;
  te_fill_now : Z;
  te_accept : nat → AcceptEnv;
  te_now : Z;
  te_ready : Z;
  te_wake : Z;
  te_io_now : Z;
  te_revents : Z → Z;
  te_recvs : Z → list RecvResult;
  te_sends : Z → SendResult
}.

(** At most [n] fills, the [k]-th first; the number processed. *)
Fixpoint drain_fills (n k : nat) (env : TurnEnv) : ST Server nat :=
  match n with
  | O => mret k
  | S n' =>
      s ← sv_get;
      match sv_events s with
      | [] => mret k
      | fill :: rest =>
          sv_modify (λ s, with_queues s (sv_upgrades s) rest);;
          broadcast fill (te_clock env k) (te_completed env k);;
          drain_fills n' (S k) env
      end
  end.

Fixpoint drain_upgrades (n k : nat) (env : TurnEnv) : ST Server unit :=
  match n with
  | O => mret tt
  | S n' =>
      s ← sv_get;
      match sv_upgrades s with
      | [] => mret tt
      | u :: rest =>
          sv_modify (λ s, with_queues s rest (sv_events s));;
          accept_upgrade u (te_accept env k);;
          drain_upgrades n' (S k) env
      end
  end.

(** [f] for the slots from [i], [n] of them. *)
Fixpoint each_slot (n : nat) (i : Z) (f : Z → ST Server unit) : ST Server unit :=
  match n with O => mret tt | S n' => f i;; each_slot n' (i + 1) f end.

Definition for_slots (f : Z → ST Server unit) : ST Server unit :=
  s ← sv_get; each_slot (length (ix_connections (sv_index s))) 0 f.

Definition any_bit (events bits : Z) : bool := negb (Z.land events bits =? 0).

Definition service_io (env : TurnEnv) (i : Z) : ST Server unit :=
  c ← conn i;
  if cn_fd c <? 0 then mret tt else
  let events := te_revents env i in
  (if any_bit events (Z.lor POLLIN POLLPRI) then receive i (te_io_now env) (te_recvs env i);; mret tt else mret tt);;
  c ← conn i;
  (if (0 <=? cn_fd c) && (any_bit events POLLOUT || (cn_close_after_flush c && negb (cn_write_offset c =? cn_write_size c)))
   then flush i (te_io_now env) (te_sends env i);; mret tt else mret tt);;
  c ← conn i;
  if (0 <=? cn_fd c) && any_bit events (Z.lor (Z.lor POLLERR POLLHUP) POLLNVAL) &&
     (negb (cn_close_after_flush c) || (cn_write_offset c =? cn_write_size c))
  then close i else mret tt.

(** The poll timeout, in milliseconds. *)
Definition poll_timeout (queue_work_remains recently_filled maintenance_due : bool) (now next_maintenance last_fill : Z) : Z :=
  if queue_work_remains then 0 else
  let deadline :=
    if recently_filled then
      let quiet := if UINT64_MAX - kPostFillQuietPeriodNs <? last_fill then UINT64_MAX else last_fill + kPostFillQuietPeriodNs in
      if maintenance_due && (now <? quiet) then quiet
      else if (now <? quiet) && (quiet <? next_maintenance) then quiet else next_maintenance
    else next_maintenance in
  if now <? deadline then
    let milliseconds := u64 (deadline - now + 1000000 - 1) / 1000000 in
    if 2 ^ 31 - 1 <? milliseconds then 2 ^ 31 - 1 else milliseconds
  else 0.

(** One iteration of [run]; the result is the timeout it polls with. *)
Definition turn (env : TurnEnv) : ST Server Z :=
  fills ← drain_fills kMaxFillsPerTurn 0 env;
  (if (0 <? fills)%nat then sv_modify (λ s, with_times s (sv_next_maintenance_ns s) (te_fill_now env)) else mret tt);;
  drain_upgrades kMaxUpgradesPerTurn 0 env;;
  s ← sv_get;
  let queue_work_remains := negb (bool_decide (length (sv_events s) = 0%nat)) || negb (bool_decide (length (sv_upgrades s) = 0%nat)) in
  let now := te_now env in
  let last := sv_last_fill_activity_ns s in
  let recently_filled := negb (last =? 0) && (last <=? now) && (now - last <? kPostFillQuietPeriodNs) in
  let maintenance_due := sv_next_maintenance_ns s <=? now in
  let must_run := maintenance_due && (negb recently_filled || (kMaximumMaintenanceDeferralNs <=? now - sv_next_maintenance_ns s)) in
  (if must_run then
     for_slots (λ i, service_keepalive i now);;
     sv_modify (λ s, with_times s (if UINT64_MAX - kMaintenanceIntervalNs <? now then UINT64_MAX else now + kMaintenanceIntervalNs)
                                  (sv_last_fill_activity_ns s))
   else mret tt);;
  s ← sv_get;
  let timeout := poll_timeout queue_work_remains recently_filled maintenance_due now (sv_next_maintenance_ns s) last in
  (if 0 <? te_ready env then
     if negb queue_work_remains && any_bit (te_wake env) (Z.lor (Z.lor POLLIN POLLPRI) (Z.lor POLLERR POLLHUP)) then mret tt
     else for_slots (service_io env)
   else mret tt);;
  mret timeout.

(** ** Life cycle *)

(** The members of a new server. *)
Definition Server_new (ping_interval_ns pong_timeout_ns : Z) : Server :=
  mkServer (mkIndex [] reset_subscriptions) (replicate (Z.to_nat (kMaxConnections + 1)) (mkPoll 0 0)) 0 0 (λ _, 0)
    (replicate (Z.to_nat kLatencySampleCapacity) 0) [] [] 0 0 ping_interval_ns pong_timeout_ns [].

(** The constructor's [max_connections_]. *)
Definition clamp_connections (max_connections : Z) : Z := if max_connections <=? kMaxConnections then max_connections else kMaxConnections.

(** [slot_bytes] is [sizeof(Connection)]. *)
Definition connection_pool_storage_bytes (slot_bytes connection_count : Z) : Z :=
  if connection_count <=? kMaxConnections then slot_bytes * connection_count else 0.

(** The size of the storage, if it is not null, and its alignment; the read end of
    the wake pipe, if it could be made; whether the thread started; the clock. *)
Record StartEnv := mkStart {
  se_storage : option Z; se_aligned : bool; se_wake : option Z; se_thread : bool; se_now : Z
}.

Fixpoint close_upgrades (us : list Upgrade) : ST Server unit :=
  match us with [] => mret tt | u :: us' => close_pending_upgrade u;; close_upgrades us' end.

(** [while (upgrades_.try_pop(pending)) close_pending_upgrade(pending);] *)
Definition drop_pending : ST Server unit :=
  s ← sv_get;
  sv_modify (λ s, with_queues s [] (sv_events s));;
  close_upgrades (sv_upgrades s).

Definition set_slots (cs : list Connection) (subs : list SubscriptionBucket) : ST Server unit := sv_modify (λ s, with_index s (mkIndex cs subs)).

Definition start (slot_bytes max_connections : Z) (running : bool) (env : StartEnv) : ST Server bool :=
  if running then mret false else
  let required_storage := connection_pool_storage_bytes slot_bytes max_connections in
  if (required_storage =? 0) || match se_storage env with None => true | Some size => size <? required_storage end || negb (se_aligned env)
  then drop_pending;; mret false else
  set_slots (replicate (Z.to_nat max_connections) Connection_init) reset_subscriptions;;
  sv_modify (λ s, with_counters s (sv_counters s) (replicate (Z.to_nat kLatencySampleCapacity) 0));;
  match se_wake env with
  | None => sv_modify (λ s, with_index s (mkIndex [] (ix_subscriptions (sv_index s))));; drop_pending;; mret false
  | Some wake_read_fd =>
      sv_modify (λ s, with_poll s (mkPoll wake_read_fd POLLIN :: replicate (Z.to_nat kMaxConnections) (mkPoll (-1) 0)));;
      sv_modify (λ s, with_times s (u64 (se_now env + kMaintenanceIntervalNs)) 0);;
      if se_thread env then mret true
      else sv_modify (λ s, with_index s (mkIndex [] (ix_subscriptions (sv_index s))));; drop_pending;; mret false
  end.

(** [stop] once the worker has ended and no producer is inside. *)
Definition stop : ST Server unit :=
  for_slots close;;
  drop_pending;;
  sv_modify (λ s, with_slots (with_times (with_poll (with_queues (with_index s (mkIndex [] (ix_subscriptions (sv_index s)))) [] [])
    ((λ _, mkPoll (-1) 0) <$> sv_poll_fds s)) 0 0) 0 0).
