(* ===== verification/WsInv.v ===== *)
(** * WsInv: the invariant of the WebSocket worker and its slot operations

    [server_ok k pl s]: every slot is well formed, the subscriptions are in order
    and cover exactly the open slots, the counts are right up to [k] reservations
    in flight, and the poll set asks for what each slot in [pl] waits for.  [quiet i]
    relates two states between which only slot [i] was worked on. *)

From S2P Require Import Prelude Arena ArenaLayout Gateway WsText WsAccept WsConn WsSubs WsServer.
From Stdlib Require Import ZArith Lia String.
From stdpp Require Import base tactics functions gmap numbers option list.
Open Scope Z_scope.

Implicit Types (s : Server) (c : Connection) (i j : nat).

Definition conns (s : Server) : list Connection := ix_connections (sv_index s).
Definition open (c : Connection) : bool := 0 <=? cn_fd c.

(** A queued upgrade: a descriptor, a key the handshake may read, bytes that fit. *)
Definition upgrade_ok (u : Upgrade) : Prop :=
  0 ≤ ug_fd u ∧ key_readable (ug_key u) ∧ bytes (ug_pre_read u) ∧ Z.of_nat (length (ug_pre_read u)) ≤ 2048.

Record server_okc (ch : nat → list nat) (k : Z) (pl : nat → Prop) s : Prop := mk_server_ok {
  so_index : index_ok (sv_index s) ch;
  so_conns : ∀ i c, conns s !! i = Some c → conn_ok c;
  so_live : ∀ i c, conns s !! i = Some c → 0 ≤ cn_fd c → ∃ b, i ∈ ch b;
  so_polls : length (sv_poll_fds s) = 1001%nat;
  so_poll : ∀ i c, conns s !! i = Some c → pl i → sv_poll_fds s !! S i = Some (interest c);
  so_active : sv_active s = count_if open (conns s);
  so_reserved : sv_reserved s = sv_active s + Z.of_nat (length (sv_upgrades s)) + k;
  so_capacity : 0 ≤ k ∧ sv_reserved s ≤ Z.of_nat (length (conns s));
  so_upgrades : Forall upgrade_ok (sv_upgrades s);
  so_events : Forall (λ p, fill_in_range (pn_event p)) (sv_events s);
  so_samples : length (sv_samples s) = 1024%nat;
  so_completed : 0 ≤ sv_counters s completed_broadcasts
}.

Definition server_ok (k : Z) (pl : nat → Prop) s : Prop := ∃ ch, server_okc ch k pl s.

(** Every descriptor the server was given: open, waiting or closed again. *)
Definition descriptors s : list Z :=
  (cn_fd <$> filter (λ c, open c = true) (conns s)) ++ (ug_fd <$> sv_upgrades s) ++ sv_closed s.

(** Between [s] and [s'] only slot [i] was worked on. *)
Record quiet (i : nat) s s' : Prop := mk_quiet {
  qu_others : ∀ j, j ≠ i → unlinked <$> (conns s' !! j) = unlinked <$> (conns s !! j);
  qu_length : length (conns s') = length (conns s);
  qu_queues : sv_upgrades s' = sv_upgrades s ∧ sv_events s' = sv_events s;
  qu_times : sv_next_maintenance_ns s' = sv_next_maintenance_ns s ∧ sv_last_fill_activity_ns s' = sv_last_fill_activity_ns s ∧
    sv_ping_interval_ns s' = sv_ping_interval_ns s ∧ sv_pong_timeout_ns s' = sv_pong_timeout_ns s;
  qu_descriptors : descriptors s' ≡ₚ descriptors s
}.

Lemma quiet_refl i s : quiet i s s.
Proof. by split. Qed.

Lemma quiet_trans i s1 s2 s3 : quiet i s1 s2 → quiet i s2 s3 → quiet i s1 s3.
Proof.
  intros [A1 B1 [C1 C1'] (D1 & D2 & D3 & D4) E1] [A2 B2 [C2 C2'] (F1 & F2 & F3 & F4) E2]. split.
  - intros j Hj. rewrite A2 by done. by apply A1.
  - congruence.
  - split; congruence.
  - split_and!; congruence.
  - by rewrite E2.
Qed.

#[export] Instance quiet_preorder i : PreOrder (quiet i).
Proof. split; [exact (quiet_refl i)|exact (quiet_trans i)]. Qed.

(** ** Primitive steps *)

Lemma runs_get s (Q : Server → Server → Prop) : Q s s → runs sv_get s Q.
Proof. intros H. by exists s, s. Qed.

Lemma runs_modify f s (Q : unit → Server → Prop) : Q tt (f s) → runs (sv_modify f) s Q.
Proof. intros H. by exists tt, (f s). Qed.

Lemma runs_conn i c s (Q : Connection → Server → Prop) : conns s !! i = Some c → Q c s → runs (conn (Z.of_nat i)) s Q.
Proof.
  intros Hc H. unfold conn. apply runs_bind, runs_get. apply (runs_lift _ c); [|done]. by rewrite zget_lookup.
Qed.

Definition with_conn s i c : Server := with_index s (mkIndex (<[i := c]> (conns s)) (ix_subscriptions (sv_index s))).

Lemma runs_set_conn i c s (Q : unit → Server → Prop) :
  (i < length (conns s))%nat → Q tt (with_conn s i c) → runs (set_conn (Z.of_nat i) c) s Q.
Proof.
  intros Hi H. unfold set_conn. apply runs_bind, runs_get. apply runs_bind. apply (runs_lift _ (<[i := c]> (conns s))).
  - by rewrite zset_insert.
  - by apply runs_modify.
Qed.

Lemma slot_lt s i c : conns s !! i = Some c → (i < length (conns s))%nat.
Proof. apply lookup_lt_Some. Qed.

Lemma conns_with s i c : conns (with_conn s i c) = <[i := c]> (conns s).
Proof. done. Qed.

Lemma conn_with_conn s i c : (i < length (conns s))%nat → conns (with_conn s i c) !! i = Some c.
Proof. intros H. unfold with_conn, conns. cbn. by apply list_lookup_insert_eq. Qed.

Lemma conns_with_conn s i j c : i ≠ j → conns (with_conn s i c) !! j = conns s !! j.
Proof. intros H. unfold with_conn, conns. cbn. by apply list_lookup_insert_ne. Qed.

Lemma filter_insert_same (P : Connection → Prop) `{!∀ c, Decision (P c)} (l : list Connection) i c c' (f : Connection → Z) :
  l !! i = Some c → (P c' ↔ P c) → f c' = f c → f <$> filter P (<[i := c']> l) = f <$> filter P l.
Proof.
  intros Hc HP Hf. revert i Hc. induction l as [|x l IH]; intros [|i] Hc; simplify_eq/=; [|by rewrite !filter_cons; case_decide; cbn; rewrite IH].
  rewrite !filter_cons. destruct (decide (P c)), (decide (P c')); try tauto. cbn. by rewrite Hf.
Qed.

(** An assignment that leaves the identity and the links of a slot. *)
Lemma with_conn_quiet s i c c' : conns s !! i = Some c → cn_fd c' = cn_fd c → quiet i s (with_conn s i c').
Proof.
  intros Hc Hfd. split; try done.
  - intros j Hj. by rewrite conns_with_conn.
  - unfold with_conn, conns. cbn. apply length_insert.
  - unfold descriptors. apply Permutation_app_tail. unfold with_conn, conns. cbn. fold (conns s).
    rewrite (filter_insert_same _ _ i c); [done|done| |done]. unfold open. by rewrite Hfd.
Qed.

Lemma with_conn_ok ch k pl s i c c' :
  server_okc ch k pl s → conns s !! i = Some c → conn_ok c' → core c' = core c →
  server_okc ch k (λ j, pl j ∧ (j = i → interest c' = interest c)) (with_conn s i c').
Proof.
  intros [Hx Hc Hl Hps Hp Ha Hr Hcap Hu He Hs Hcm] Hi Hok Hcore. pose proof (slot_lt _ _ _ Hi) as Hlt.
  assert (Hfd : cn_fd c' = cn_fd c) by (unfold core in Hcore; congruence). split; cbn [with_conn with_index sv_index sv_poll_fds sv_active
    sv_reserved sv_upgrades sv_events sv_samples sv_counters]; try done.
  - apply (index_ok_slot _ _ i c); [done|done|by left].
  - intros j cj Hj. destruct (decide (i = j)) as [<-|]; [rewrite conn_with_conn in Hj by done; by simplify_eq|]. rewrite conns_with_conn in Hj by done. by apply (Hc j).
  - intros j cj Hj Hf. destruct (decide (i = j)) as [<-|]; [rewrite conn_with_conn in Hj by done; simplify_eq; apply (Hl i c Hi); lia|].
    rewrite conns_with_conn in Hj by done. by apply (Hl j cj).
  - intros j cj Hj [Hpl Hint]. destruct (decide (i = j)) as [<-|].
    + rewrite conn_with_conn in Hj by done. apply (inj Some) in Hj as <-. rewrite Hint by done. by apply Hp.
    + rewrite conns_with_conn in Hj by done. by apply Hp.
  - rewrite Ha, conns_with, (count_if_insert _ _ _ _ _ Hi). unfold open. rewrite Hfd. lia.
  - by rewrite conns_with, length_insert.
Qed.

(** ** Counters and poll entries *)

Lemma with_counters_ok ch k pl s f samples :
  server_okc ch k pl s → 0 ≤ f completed_broadcasts → length samples = 1024%nat → server_okc ch k pl (with_counters s f samples).
Proof. intros [] Hf Hl. by split. Qed.

Lemma with_counters_quiet i s f samples : quiet i s (with_counters s f samples).
Proof. by split. Qed.

Lemma u64_nonneg z : 0 ≤ u64 z.
Proof. apply Z.mod_pos_bound. lia. Qed.

Lemma count_ok ch k pl s x i (Q : unit → Server → Prop) :
  server_okc ch k pl s →
  (∀ s', server_okc ch k pl s' → quiet i s s' → conns s' = conns s → sv_counters s' = <[x := u64 (sv_counters s x + 1)]> (sv_counters s) → Q tt s') →
  runs (count x) s Q.
Proof.
  intros Hok HQ. unfold count. apply runs_modify, HQ; [|apply with_counters_quiet|done|done]. apply with_counters_ok; [done| |apply (so_samples _ _ _ _ Hok)].
  destruct (decide (x = completed_broadcasts)) as [->|]; [rewrite fn_lookup_insert; apply u64_nonneg|rewrite fn_lookup_insert_ne by done; apply (so_completed _ _ _ _ Hok)].
Qed.

Lemma record_ok ch k pl s x v i (Q : unit → Server → Prop) :
  server_okc ch k pl s → (x = completed_broadcasts → 0 ≤ v) →
  (∀ s', server_okc ch k pl s' → quiet i s s' → conns s' = conns s → sv_counters s' = <[x := v]> (sv_counters s) → Q tt s') →
  runs (record x v) s Q.
Proof.
  intros Hok Hv HQ. unfold record. apply runs_modify, HQ; [|apply with_counters_quiet|done|done]. apply with_counters_ok; [done| |apply (so_samples _ _ _ _ Hok)].
  destruct (decide (x = completed_broadcasts)) as [->|]; [rewrite fn_lookup_insert; auto|rewrite fn_lookup_insert_ne by done; apply (so_completed _ _ _ _ Hok)].
Qed.

Lemma server_okc_weaken ch k (pl pl' : nat → Prop) s : server_okc ch k pl s → (∀ j, pl' j → pl j) → server_okc ch k pl' s.
Proof. intros [] H. split; auto. Qed.

Lemma refresh_ok ch k pl s i c (Q : unit → Server → Prop) :
  server_okc ch k (λ j, pl j ∧ j ≠ i) s → conns s !! i = Some c →
  (∀ s', server_okc ch k (λ j, pl j ∨ j = i) s' → quiet i s s' → conns s' = conns s → sv_counters s' = sv_counters s → Q tt s') →
  runs (refresh_poll_interest (Z.of_nat i)) s Q.
Proof.
  intros Hok Hc HQ. pose proof (so_polls _ _ _ _ Hok) as Hlen.
  assert (Hi : (S i < length (sv_poll_fds s))%nat).
  { rewrite Hlen. pose proof (ix_slots _ _ (so_index _ _ _ _ Hok)). pose proof (slot_lt _ _ _ Hc) as H'. unfold conns in H'. lia. }
  unfold refresh_poll_interest. apply runs_bind, (runs_conn i c); [done|]. apply runs_bind, runs_get. apply runs_bind.
  apply (runs_lift _ (<[S i := interest c]> (sv_poll_fds s))).
  { replace (Z.of_nat i + 1) with (Z.of_nat (S i)) by lia. by rewrite zset_insert. }
  apply runs_modify, HQ; [|by split|done|done]. destruct Hok as [Hx Hcs Hl Hps Hp Ha Hr Hcap Hu He Hs Hcm].
  split; cbn [with_poll sv_index sv_poll_fds sv_active sv_reserved sv_upgrades sv_events sv_samples sv_counters]; try done.
  - by rewrite length_insert.
  - intros j cj Hj Hpl. change (conns s !! j = Some cj) in Hj. destruct (decide (i = j)) as [<-|].
    + rewrite list_lookup_insert_eq by done. congruence.
    + rewrite list_lookup_insert_ne by lia. apply Hp; [done|]. destruct Hpl as [|]; [by split|congruence].
Qed.

(** ** Closing a slot *)

Lemma open_unlinked c : open (unlinked c) = open c.
Proof. done. Qed.

Lemma count_unlinked (l l' : list Connection) : unlinked <$> l' = unlinked <$> l → count_if open l' = count_if open l.
Proof.
  assert (H : ∀ l, count_if open (unlinked <$> l) = count_if open l) by (induction l0 as [|c l0 IH]; [done|]; unfold count_if in *; cbn; by rewrite <- IH).
  intros E. by rewrite <- (H l), <- E, H.
Qed.

(** The descriptors of the open slots. *)
Definition open_fds (l : list Connection) : list Z := cn_fd <$> filter (λ c, open c = true) l.

Lemma open_fds_unlinked (l l' : list Connection) : unlinked <$> l' = unlinked <$> l → open_fds l' = open_fds l.
Proof.
  revert l'. induction l as [|c l IH]; intros [|c' l'] E; try done. rewrite !fmap_cons in E. injection E as E1 E2.
  unfold open_fds in *. rewrite !filter_cons. specialize (IH l' ltac:(done)). unfold open in *.
  assert (cn_fd c' = cn_fd c) as -> by congruence. case_decide; cbn; congruence.
Qed.

Lemma open_fds_close (l : list Connection) i c c' :
  l !! i = Some c → open c = true → open c' = false → cn_fd c :: open_fds (<[i := c']> l) ≡ₚ open_fds l.
Proof.
  intros Hc Ho Ho'. unfold open_fds. revert i Hc. induction l as [|x l IH]; intros [|i] Hc; simplify_eq/=.
  - rewrite filter_cons_False, filter_cons_True by congruence. done.
  - rewrite !filter_cons. case_decide; cbn; rewrite <- (IH i Hc); [apply perm_swap|done].
Qed.

Lemma unlinked_lookup_eq (l l' : list Connection) j : unlinked <$> l' = unlinked <$> l → unlinked <$> (l' !! j) = unlinked <$> (l !! j).
Proof. intros E. rewrite <- !list_lookup_fmap. by rewrite E. Qed.

Lemma interest_unlinked c c' : unlinked c' = unlinked c → interest c' = interest c.
Proof.
  intros E. unfold interest. pose proof (f_equal cn_fd E) as E1. pose proof (f_equal cn_write_offset E) as E2. pose proof (f_equal cn_write_size E) as E3.
  cbn in E1, E2, E3. by rewrite E1, E2, E3.
Qed.

Lemma conn_ok_unlinked c c' : unlinked c' = unlinked c → conn_ok c → conn_ok c'.
Proof.
  intros E [H1 H2 H3 H4 H5 H6].
  pose proof (f_equal cn_read_buffer E) as E1. pose proof (f_equal cn_write_buffer E) as E2. pose proof (f_equal cn_read_size E) as E3.
  pose proof (f_equal cn_write_offset E) as E4. pose proof (f_equal cn_write_size E) as E5. cbn in E1, E2, E3, E4, E5. split; congruence.
Qed.

(** The state after [close] of an open slot whose subscription has left [x]. *)
Definition closed_state s i x (fd : Z) : Server :=
  let s := with_closed (with_poll (with_index s (mkIndex (<[i := Connection_init]> (ix_connections x)) (ix_subscriptions x)))
             (<[S i := mkPoll (-1) 0]> (sv_poll_fds s))) (sv_closed s ++ [fd]) in
  let s := with_slots s (u32 (sv_active s - 1)) (u32 (sv_reserved s - 1)) in
  with_counters s (<[cleanup_count := u64 (sv_counters s cleanup_count + 1)]> (sv_counters s)) (sv_samples s).

Lemma close_eq ch k pl s i c :
  server_okc ch k pl s → conns s !! i = Some c → 0 ≤ cn_fd c →
  ∃ x b, index_ok x (<[b := filter (.≠ i) (ch b)]> ch) ∧ i ∈ ch b ∧ unlinked <$> ix_connections x = unlinked <$> conns s ∧
    close (Z.of_nat i) s = Some (tt, closed_state s i x (cn_fd c)).
Proof.
  intros Hok Hc Hfd. destruct (so_live _ _ _ _ Hok i c Hc Hfd) as [b Hb].
  destruct (unsubscribe_ok _ _ i b (so_index _ _ _ _ Hok) Hb) as (x & c0 & Hun & Hx & Hu & Hc0 & Hxi).
  exists x, b. split_and!; [done..|]. unfold close. unfold conn, mbind, st_bind, sv_get, lift.
  unfold conns in Hc. rewrite zget_lookup, Hc. cbn [mbind option_bind]. rewrite (proj2 (Z.ltb_ge _ _)) by lia. rewrite Hun. cbn [mbind option_bind].
  unfold sv_modify, clear_poll_interest, mbind, st_bind, sv_get, lift. cbn [with_index sv_poll_fds].
  assert (Hi : (S i < length (sv_poll_fds s))%nat).
  { rewrite (so_polls _ _ _ _ Hok). pose proof (ix_slots _ _ (so_index _ _ _ _ Hok)). apply lookup_lt_Some in Hc. lia. }
  replace (Z.of_nat i + 1) with (Z.of_nat (S i)) by lia. rewrite zset_insert by done. cbn [mbind option_bind].
  unfold close_fd, sv_modify, set_conn, mbind, st_bind, sv_get, lift. cbn [with_poll with_closed with_index sv_index].
  rewrite zset_insert by (apply lookup_lt_Some in Hxi; done). cbn [mbind option_bind]. unfold sv_modify, count. done.
Qed.

Lemma close_open ch k pl s i c (Q : unit → Server → Prop) :
  server_okc ch k (λ j, pl j ∧ j ≠ i) s → conns s !! i = Some c → 0 ≤ cn_fd c →
  (∀ s' ch', server_okc ch' k (λ j, pl j ∨ j = i) s' → quiet i s s' → conns s' !! i = Some Connection_init →
     (∀ x, x ≠ cleanup_count → sv_counters s' x = sv_counters s x) → (∀ b, ch' b = filter (.≠ i) (ch b)) → Q tt s') →
  runs (close (Z.of_nat i)) s Q.
Proof.
  intros Hok Hc Hfd HQ. destruct (close_eq ch k _ s i c Hok Hc Hfd) as (x & b & Hx & Hb & Hu & E).
  eexists _, _. split; [exact E|]. set (ch' := <[b := filter (.≠ i) (ch b)]> ch) in *.
  assert (Hpoint : ∀ b', ch' b' = filter (.≠ i) (ch b')).
  { intros b'. unfold ch'. destruct (decide (b = b')) as [<-|Hne]; [by rewrite fn_lookup_insert|]. rewrite fn_lookup_insert_ne by done. symmetry. apply filter_id.
    apply Forall_forall. intros j Hj ->. by apply Hne, (member_unique (sv_index s) ch b b' i); [apply (so_index _ _ _ _ Hok)|..]. }
  assert (Hch : ∀ j b', j ∈ ch' b' ↔ j ∈ ch b' ∧ j ≠ i) by (intros j b'; rewrite Hpoint, list_elem_of_filter; tauto).
  pose proof (unlinked_length _ _ Hu) as Hlen. pose proof (slot_lt _ _ _ Hc) as Hlt.
  assert (Hci : ∃ ci, ix_connections x !! i = Some ci) by (apply lookup_lt_is_Some_2; lia). destruct Hci as [ci Hci].
  assert (Hconns : conns (closed_state s i x (cn_fd c)) = <[i := Connection_init]> (ix_connections x)) by done.
  assert (Hother : ∀ j cj, j ≠ i → conns (closed_state s i x (cn_fd c)) !! j = Some cj → ∃ c0, conns s !! j = Some c0 ∧ unlinked cj = unlinked c0).
  { intros j cj Hj Hcj. rewrite Hconns, list_lookup_insert_ne in Hcj by done. by apply (unlinked_lookup _ (ix_connections x)). }
  destruct Hok as [Hix Hcs Hl Hps Hp Ha Hr [Hk Hcap] Hup He Hs Hcm].
  assert (Hcount : count_if open (conns s) = count_if open (<[i := Connection_init]> (ix_connections x)) + 1).
  { rewrite (count_if_insert _ _ _ _ _ Hci), (count_unlinked _ _ Hu). destruct (unlinked_lookup _ _ _ _ Hu Hci) as (c0 & Hc0 & Eu).
    destruct (unlinked_fd _ _ Eu) as [Ef _]. assert (c0 = c) by congruence. subst c0. unfold open. rewrite Ef, (proj2 (Z.leb_le _ _)) by lia. cbn. lia. }
  pose proof (count_if_bounds open (<[i := Connection_init]> (ix_connections x))) as [Hb0 Hb1].
  assert (Hsmall : Z.of_nat (length (conns s)) ≤ 1000) by (pose proof (ix_slots _ _ Hix); unfold conns; lia).
  assert (Hact : sv_active (closed_state s i x (cn_fd c)) = sv_active s - 1) by (cbn; unfold u32; rewrite Z.mod_small; lia).
  assert (Hres : sv_reserved (closed_state s i x (cn_fd c)) = sv_reserved s - 1) by (cbn; unfold u32; rewrite Z.mod_small; lia).
  apply (HQ _ ch').
  - split; try done.
    + apply (index_ok_slot x ch' i ci Connection_init Hx Hci). right. split; [|done]. intros b' Hb'. by apply Hch in Hb' as [_ ?].
    + intros j cj Hj. destruct (decide (j = i)) as [->|Hji].
      * rewrite Hconns, list_lookup_insert_eq in Hj by lia. apply (inj Some) in Hj as <-. apply conn_ok_init.
      * destruct (Hother j cj Hji Hj) as (c0 & Hc0 & Eu). apply (conn_ok_unlinked _ _ Eu). by apply (Hcs j).
    + intros j cj Hj Hf. destruct (decide (j = i)) as [->|Hji].
      * rewrite Hconns, list_lookup_insert_eq in Hj by lia. apply (inj Some) in Hj as <-. cbn in Hf. lia.
      * destruct (Hother j cj Hji Hj) as (c0 & Hc0 & Eu). destruct (unlinked_fd _ _ Eu) as [Ef _].
        destruct (Hl j c0 Hc0 ltac:(lia)) as [b' Hb']. exists b'. by apply Hch.
    + cbn. by rewrite length_insert.
    + intros j cj Hj Hpl. change (sv_poll_fds (closed_state s i x (cn_fd c))) with (<[S i := mkPoll (-1) 0]> (sv_poll_fds s)).
      destruct (decide (j = i)) as [->|Hji].
      * rewrite Hconns, list_lookup_insert_eq in Hj by lia. apply (inj Some) in Hj as <-. rewrite list_lookup_insert_eq by (rewrite Hps; lia). done.
      * destruct (Hother j cj Hji Hj) as (c0 & Hc0 & Eu). rewrite list_lookup_insert_ne by lia. rewrite (interest_unlinked _ _ Eu). apply Hp; [done|]. by destruct Hpl.
    + rewrite Hact, Hconns. lia.
    + rewrite Hact, Hres. change (sv_upgrades (closed_state s i x (cn_fd c))) with (sv_upgrades s). lia.
    + rewrite Hres, Hconns, length_insert. unfold conns in *. lia.
  - split; try done.
    + intros j Hj. rewrite Hconns, list_lookup_insert_ne by done. by apply unlinked_lookup_eq.
    + by rewrite Hconns, length_insert.
    + unfold descriptors. fold (open_fds (conns s)). fold (open_fds (conns (closed_state s i x (cn_fd c)))). rewrite Hconns.
      change (sv_closed (closed_state s i x (cn_fd c))) with (sv_closed s ++ [cn_fd c]). change (sv_upgrades (closed_state s i x (cn_fd c))) with (sv_upgrades s).
      destruct (unlinked_lookup _ _ _ _ Hu Hci) as (c0 & Hc0 & Eu). destruct (unlinked_fd _ _ Eu) as [Ef _]. assert (c0 = c) by congruence. subst c0.
      rewrite <- (open_fds_unlinked _ _ Hu). rewrite <- (open_fds_close _ i ci Connection_init Hci); [|unfold open; lia|done]. rewrite Ef.
      solve_Permutation.
  - rewrite Hconns. apply list_lookup_insert_eq. lia.
  - intros y Hy. cbn. by rewrite fn_lookup_insert_ne.
  - exact Hpoint.
Qed.

(** ** Specifications of the slot operations *)

Definition all : nat → Prop := λ _, True.
Definition but (i : nat) : nat → Prop := λ j, j ≠ i.

Lemma okc_but ch k i s : server_okc ch k all s → server_okc ch k (but i) s.
Proof. intros H. by apply (server_okc_weaken ch k all). Qed.

Lemma refresh_all ch k s i c (Q : unit → Server → Prop) :
  server_okc ch k (but i) s → conns s !! i = Some c →
  (∀ s', server_okc ch k all s' → quiet i s s' → conns s' = conns s → sv_counters s' = sv_counters s → Q tt s') →
  runs (refresh_poll_interest (Z.of_nat i)) s Q.
Proof.
  intros Hok Hc HQ. apply (refresh_ok ch k all s i c); [|done|].
  - apply (server_okc_weaken ch k (but i)); [done|]. by intros j [].
  - intros s' Hs'. apply HQ. apply (server_okc_weaken ch k _ _ s' Hs'). intros j _. by left.
Qed.

Lemma close_all ch k s i c (Q : unit → Server → Prop) :
  server_okc ch k (but i) s → conns s !! i = Some c → 0 ≤ cn_fd c →
  (∀ s' ch', server_okc ch' k all s' → quiet i s s' → conns s' !! i = Some Connection_init →
     (∀ x, x ≠ cleanup_count → sv_counters s' x = sv_counters s x) → (∀ b, ch' b = filter (.≠ i) (ch b)) → Q tt s') →
  runs (close (Z.of_nat i)) s Q.
Proof.
  intros Hok Hc Hfd HQ. apply (close_open ch k all s i c); [|done|done|].
  - apply (server_okc_weaken ch k (but i)); [done|]. by intros j [].
  - intros s' ch' Hs'. apply HQ. apply (server_okc_weaken ch' k _ _ s' Hs'). intros j _. by left.
Qed.

(** Assignments to a slot inside the invariant. *)
Lemma set_conn_but ch k s i c c' (Q : unit → Server → Prop) :
  server_okc ch k (but i) s → conns s !! i = Some c → conn_ok c' → core c' = core c →
  (∀ s', server_okc ch k (but i) s' → quiet i s s' → conns s' = <[i := c']> (conns s) → sv_counters s' = sv_counters s → Q tt s') →
  runs (set_conn (Z.of_nat i) c') s Q.
Proof.
  intros Hok Hc Hc' Hcore HQ. apply runs_set_conn; [by eapply slot_lt|]. apply HQ; [| |done|done].
  - apply (server_okc_weaken ch k (λ j, but i j ∧ (j = i → interest c' = interest c))); [by apply with_conn_ok|]. intros j Hj. by split.
  - apply (with_conn_quiet s i c); [done|]. unfold core in Hcore. congruence.
Qed.

Lemma set_conn_all ch k s i c c' (Q : unit → Server → Prop) :
  server_okc ch k all s → conns s !! i = Some c → conn_ok c' → core c' = core c → interest c' = interest c →
  (∀ s', server_okc ch k all s' → quiet i s s' → conns s' = <[i := c']> (conns s) → sv_counters s' = sv_counters s → Q tt s') →
  runs (set_conn (Z.of_nat i) c') s Q.
Proof.
  intros Hok Hc Hc' Hcore Hint HQ. apply runs_set_conn; [by eapply slot_lt|]. apply HQ; [| |done|done].
  - apply (server_okc_weaken ch k (λ j, all j ∧ (j = i → interest c' = interest c))); [by apply with_conn_ok|]. intros j _. by split.
  - apply (with_conn_quiet s i c); [done|]. unfold core in Hcore. congruence.
Qed.

(** Two slots that differ in their outbound buffer only. *)
Definition same_but_write c c' : Prop := set_write c' 0 0 [] = set_write c 0 0 [].

Lemma same_but_write_trans c1 c2 c3 : same_but_write c1 c2 → same_but_write c2 c3 → same_but_write c1 c3.
Proof. intros E1 E2. exact (eq_trans E2 E1). Qed.

Lemma same_but_write_core c c' : same_but_write c c' → core c' = core c.
Proof. intros E. exact (f_equal core E). Qed.

(** Slot [i] is now [c'], nothing else was touched. *)
Definition moved (ch : nat → list nat) (k : Z) i s s' c' : Prop :=
  server_okc ch k all s' ∧ quiet i s s' ∧ sv_counters s' = sv_counters s ∧ conns s' = <[i := c']> (conns s).

Lemma moved_conn ch k i s s' c c' : conns s !! i = Some c → moved ch k i s s' c' → conns s' !! i = Some c'.
Proof. intros Hc (_ & _ & _ & ->). apply list_lookup_insert_eq. by eapply slot_lt. Qed.

Lemma moved_trans ch k i s s1 s2 c1 c2 : moved ch k i s s1 c1 → moved ch k i s1 s2 c2 → moved ch k i s s2 c2.
Proof.
  intros (A1 & B1 & C1 & D1) (A2 & B2 & C2 & D2). split_and!; [done|by etrans|congruence|]. rewrite D2, D1. apply list_insert_insert_eq.
Qed.

Lemma queue_bytes_ok ch k s i c bs (Q : bool → Server → Prop) :
  server_okc ch k (but i) s → conns s !! i = Some c → bs ≠ [] → (length (pending c) + length bs ≤ 4096)%nat →
  (∀ s' c', moved ch k i s s' c' → same_but_write c c' → pending c' = pending c ++ bs → conn_ok c' → Q true s') →
  runs (queue_bytes (Z.of_nat i) bs) s Q.
Proof.
  intros Hok Hc Hne Hfit HQ. destruct (put_bytes_fits c bs (so_conns _ _ _ _ Hok i c Hc) Hne Hfit) as (buf & E & Hc' & Hp).
  set (c' := set_write c 0 _ buf) in *. unfold queue_bytes. apply runs_bind, (runs_conn i c); [done|]. apply runs_bind, (runs_lift _ (c', true)); [done|].
  apply runs_bind. apply (set_conn_but ch k s i c c'); [done..|]. intros s1 Hs1 Hq1 E1 Ec1.
  assert (Hc1 : conns s1 !! i = Some c') by (rewrite E1; apply list_lookup_insert_eq; by eapply slot_lt).
  apply runs_bind. assert (Hbl : Z.of_nat (length bs) ≠ 0) by (destruct bs; [done|cbn [length]; lia]).
  rewrite (proj2 (Z.eqb_neq _ _) Hbl). cbn [negb andb].
  apply (refresh_all ch k s1 i c'); [done..|]. intros s2 Hs2 Hq2 E2 Ec2. apply runs_ret.
  apply (HQ s2 c'); [|done|done|done]. split_and!; [done|by etrans|congruence|congruence].
Qed.

Definition server_frame (opcode : Z) (payload : list Z) : list Z := frame_head opcode (Z.of_nat (length payload)) ++ payload.

Lemma frame_head_length opcode n : (2 ≤ length (frame_head opcode n) ≤ 4)%nat.
Proof. unfold frame_head. case_cond; cbn; lia. Qed.

Lemma list_insert_same (l : list Connection) i c : l !! i = Some c → l = <[i := c]> l.
Proof. intros H. symmetry. by apply list_insert_id. Qed.

Lemma queue_nothing_ok ch k s i c (Q : bool → Server → Prop) :
  server_okc ch k all s → conns s !! i = Some c →
  (∀ s', moved ch k i s s' c → Q true s') → runs (queue_bytes (Z.of_nat i) []) s Q.
Proof.
  intros Hok Hc HQ. unfold queue_bytes. apply runs_bind, (runs_conn i c); [done|]. apply runs_bind, (runs_lift _ (c, true)); [done|].
  apply runs_bind. apply (set_conn_all ch k s i c c); [done|done|by apply (so_conns _ _ _ _ Hok i)|done..|]. intros s1 Hs1 Hq1 E1 Ec1.
  apply runs_bind, runs_ret, runs_ret, HQ. by split_and!.
Qed.

Lemma queue_frame_ok ch k s i c opcode payload (Q : bool → Server → Prop) :
  server_okc ch k all s → conns s !! i = Some c → 0 ≤ opcode < 16 → (length payload ≤ 2048)%nat →
  (∀ s' c', (length (pending c) + length (server_frame opcode payload) ≤ 4096)%nat → moved ch k i s s' c' → same_but_write c c' →
     pending c' = pending c ++ server_frame opcode payload → conn_ok c' → Q true s') →
  ((4096 < length (pending c) + length (server_frame opcode payload))%nat → Q false s) →
  runs (queue_frame (Z.of_nat i) opcode payload) s Q.
Proof.
  intros Hok Hc Hop Hlen HQ1 HQ2. pose proof (so_conns _ _ _ _ Hok i c Hc) as Hco. unfold queue_frame.
  assert (Z.land opcode 0xF0 = 0) as ->.
  { pose proof (byte_cases (λ o, (16 <=? o) || (Z.land o 0xF0 =? 0)) opcode) as H. specialize (H ltac:(vm_compute; reflexivity) ltac:(lia)). cbv beta in H. lia. }
  rewrite (proj2 (Z.ltb_ge _ _)) by lia. change (negb (0 =? 0) || false) with false. cbv iota.
  set (head := frame_head opcode (Z.of_nat (length payload))). pose proof (frame_head_length opcode (Z.of_nat (length payload))) as Hh. fold head in Hh.
  assert (Hsf : length (server_frame opcode payload) = (length head + length payload)%nat) by (unfold server_frame; by rewrite length_app).
  pose proof (pending_length c Hco) as Hpl. pose proof (co_write_max _ Hco) as Hmax. pose proof (co_write_size _ Hco) as Hws.
  apply runs_bind, (runs_conn i c); [done|]. rewrite pending_size_length by done. unfold kWriteBufferBytes, u64. rewrite Z.mod_small by lia.
  destruct (Z.ltb_spec 4096 (Z.of_nat (length (pending c)) + Z.of_nat (length head) + Z.of_nat (length payload))) as [Hfull|Hfits].
  { apply runs_ret, HQ2. lia. }
  apply runs_bind. apply (queue_bytes_ok ch k s i c head); [by apply okc_but|done|by destruct head; cbn in Hh; [lia|]|lia|].
  intros s1 c1 Hm1 Hs1 Hp1 Hc1. pose proof (moved_conn _ _ _ _ _ _ _ Hc Hm1) as Hi1. destruct (decide (payload = [])) as [Hnil|Hnil].
  - rewrite Hnil. apply (queue_nothing_ok ch k s1 i c1); [apply Hm1|done|]. intros s2 Hm2.
    apply (HQ1 s2 c1); [lia|by eapply moved_trans|done| |done]. rewrite Hp1. unfold server_frame. fold head. rewrite Hnil, app_nil_r. done.
  - apply (queue_bytes_ok ch k s1 i c1 payload); [by apply okc_but, Hm1|done|done|rewrite Hp1, length_app; lia|]. intros s2 c2 Hm2 Hs2 Hp2 Hc2.
    apply (HQ1 s2 c2); [lia|by eapply moved_trans|by eapply same_but_write_trans| |done]. rewrite Hp2, Hp1. unfold server_frame. fold head. by rewrite app_assoc.
Qed.
