(* ===== verification/WsWorker.v ===== *)
(** * WsWorker: what the worker does with one connection

    Each operation on an open slot returns (no access outside a buffer, every loop
    within its fuel), keeps the invariant and touches no other slot; a frame has
    exactly the effect [frame_effect] describes. *)

From S2P Require Import Prelude Arena ArenaLayout Gateway WsText WsAccept WsConn WsSubs WsServer WsInv.
From Stdlib Require Import ZArith Lia String.
From stdpp Require Import base tactics functions gmap numbers option list.
Open Scope Z_scope.

Implicit Types (s : Server) (c : Connection) (i j : nat).

Lemma check_close_total payload : bytes payload → ∃ v, check_close payload = Some v.
Proof.
  intros Hb. unfold check_close. case_cond; [by eexists|].
  assert (∃ bad, (if 2 <=? Z.of_nat (length payload) then hi ← zget payload 0; lo ← zget payload 1;
     Some (negb (valid_close_code (u16 (Z.lor (Z.shiftl hi 8) lo)))) else Some false) = Some bad) as [bad ->].
  { destruct (Z.leb_spec 2 (Z.of_nat (length payload))); [|by eexists]. destruct payload as [|a [|b p]]; cbn [length] in *; [lia|lia|]. by eexists. }
  cbn [mbind option_bind]. destruct bad; [by eexists|].
  destruct (2 <? Z.of_nat (length payload)); [|by eexists]. destruct (utf8_loop_total (length (drop 2 payload)) (drop 2 payload)) as [ok Eok]; [done|].
  unfold valid_utf8. rewrite Eok. cbn [mbind option_bind]. case_cond; by eexists.
Qed.

(** ** The effect of a frame *)

(** Why a well-formed frame is refused, if it is. *)
Definition refusal (fragmented : bool) (f : ClientFrame) : option FrameResult :=
  if cf_opcode f =? 8 then default None (check_close (cf_payload f))
  else if cf_opcode f <? 8 then
    match fragment_step fragmented (cf_final f) (cf_opcode f) with None => Some kProtocolError | Some _ => None end
  else None.

(** What the server answers. *)
Definition reply (f : ClientFrame) : list Z :=
  if cf_opcode f =? 8 then server_frame 8 (cf_payload f) else if cf_opcode f =? 9 then server_frame 10 (cf_payload f) else [].

(** Whether a message is still incomplete afterwards. *)
Definition fragmented_after (fragmented : bool) (f : ClientFrame) : bool :=
  if 8 <=? cf_opcode f then fragmented else default fragmented (fragment_step fragmented (cf_final f) (cf_opcode f)).

(** The slot [c'] and the result [r] after frame [f], with [rest] behind it. *)
Definition frame_effect c (f : ClientFrame) (rest : list Z) (r : FrameResult) c' : Prop :=
  match refusal (cn_fragmented_data c) f with
  | Some e => r = e ∧ core c' = core c ∧ pending c' = pending c ∧ cn_close_after_flush c' = cn_close_after_flush c
  | None =>
      r = kConsumed ∧
      if decide (length (pending c) + length (reply f) ≤ 4096)%nat then
        core c' = core c ∧ input c' = rest ∧ pending c' = pending c ++ reply f ∧
        cn_close_after_flush c' = (cn_close_after_flush c || (cf_opcode f =? 8)) ∧
        cn_fragmented_data c' = fragmented_after (cn_fragmented_data c) f
      else c' = Connection_init
  end.

(** Slot [i] is now [c'] in a state that is otherwise untouched. *)
Definition worked (k : Z) i s s' c' : Prop := (∃ ch, server_okc ch k all s') ∧ quiet i s s' ∧ conns s' !! i = Some c'.

Lemma moved_worked ch k i s s' c c' : conns s !! i = Some c → moved ch k i s s' c' → worked k i s s' c'.
Proof. intros Hc Hm. split; [exists ch; apply Hm|]. split; [apply Hm|]. by eapply moved_conn. Qed.

Lemma worked_trans k i s s1 s2 c1 c2 : worked k i s s1 c1 → worked k i s1 s2 c2 → worked k i s s2 c2.
Proof. intros (_ & Q1 & _) (H2 & Q2 & C2). split; [done|]. split; [by etrans|done]. Qed.

Lemma reply_or_close_ok ch k s i c opcode payload (Q : bool → Server → Prop) :
  server_okc ch k all s → conns s !! i = Some c → 0 ≤ cn_fd c → 0 ≤ opcode < 16 → (length payload ≤ 2048)%nat →
  (∀ s' c', (length (pending c) + length (server_frame opcode payload) ≤ 4096)%nat → moved ch k i s s' c' → same_but_write c c' →
     pending c' = pending c ++ server_frame opcode payload → conn_ok c' → Q true s') →
  (∀ s', (4096 < length (pending c) + length (server_frame opcode payload))%nat → worked k i s s' Connection_init → Q false s') →
  runs (reply_or_close (Z.of_nat i) opcode payload) s Q.
Proof.
  intros Hok Hc Hfd Hop Hlen HQ1 HQ2. unfold reply_or_close. apply runs_bind. apply (queue_frame_ok ch k s i c); [done..| |].
  - intros s' c' Hfit Hm Hw Hp Hco. apply runs_ret. by apply (HQ1 s' c').
  - intros Hfull. apply runs_bind. apply (count_ok ch k all s slow_client_closes i); [done|]. intros s1 Hok1 Hq1 E1 _. apply runs_bind.
    apply (close_all ch k s1 i c); [by apply okc_but|congruence|done|]. intros s2 ch2 Hok2 Hq2 Hc2 _ _. apply runs_ret.
    apply (HQ2 s2); [done|]. split; [by exists ch2|]. split; [by etrans|done].
Qed.

Lemma set_flags_ok c a b d : conn_ok c → conn_ok (set_flags c a b d).
Proof. by intros []. Qed.
Lemma set_ping_ok c a b : conn_ok c → conn_ok (set_ping c a b).
Proof. by intros []. Qed.
Lemma set_blocked_ok c a : conn_ok c → conn_ok (set_blocked c a).
Proof. by intros []. Qed.

(** The parts of a slot that handling a payload leaves alone. *)
Definition same_input c c' : Prop :=
  cn_read_buffer c' = cn_read_buffer c ∧ cn_read_size c' = cn_read_size c ∧ core c' = core c.

Lemma same_but_write_input c c' : same_but_write c c' → same_input c c'.
Proof. intros E. split_and!; [exact (f_equal cn_read_buffer E)|exact (f_equal cn_read_size E)|exact (f_equal core E)]. Qed.

Lemma same_input_trans c1 c2 c3 : same_input c1 c2 → same_input c2 c3 → same_input c1 c3.
Proof. intros (A & B & C) (D & E & F). split_and!; congruence. Qed.

(** A control frame's handling, before the frame is dropped. *)
Lemma handle_control_ok ch k s i c ts f (Q : option FrameResult → Server → Prop) :
  server_okc ch k all s → conns s !! i = Some c → 0 ≤ cn_fd c → frame_valid f → 8 ≤ cf_opcode f →
  (∀ e s', refusal (cn_fragmented_data c) f = Some e → worked k i s s' c → Q (Some e) s') →
  (∀ s', refusal (cn_fragmented_data c) f = None → (4096 < length (pending c) + length (reply f))%nat →
     worked k i s s' Connection_init → Q (Some kConsumed) s') →
  (∀ s' c', refusal (cn_fragmented_data c) f = None → (length (pending c) + length (reply f) ≤ 4096)%nat → worked k i s s' c' → conn_ok c' →
     same_input c c' → pending c' = pending c ++ reply f → cn_close_after_flush c' = (cn_close_after_flush c || (cf_opcode f =? 8)) →
     cn_fragmented_data c' = cn_fragmented_data c → Q None s') →
  runs (handle_control (Z.of_nat i) ts (cf_opcode f) (cf_payload f)) s Q.
Proof.
  intros Hok Hc Hfd [Ho _ [Hpb Hpl] _] H8 HQe HQc HQn. pose proof (so_conns _ _ _ _ Hok i c Hc) as Hco. unfold refusal, reply in *.
  unfold handle_control. destruct (Z.eqb_spec (cf_opcode f) 8) as [E8|E8].
  - destruct (check_close_total (cf_payload f) Hpb) as [v Ev]. rewrite Ev in *. cbn [default from_option id] in *. apply runs_bind, (runs_lift _ v); [done|].
    destruct v as [e|].
    + apply runs_ret, HQe; [done|]. split; [by exists ch|]. by split.
    + apply runs_bind. apply (reply_or_close_ok ch k s i c); [done|done|done|lia|lia| |].
      * intros s1 c1 Hfit Hm Hw Hp Hc1. pose proof (moved_conn _ _ _ _ _ _ _ Hc Hm) as Hi1. cbn [negb]. apply runs_bind, (runs_conn i c1); [done|].
        apply runs_bind. apply (set_conn_all ch k s1 i c1); [apply Hm|done|by apply set_flags_ok|done|done|]. intros s2 Hok2 Hq2 E2 _. apply runs_ret.
        pose proof (same_but_write_input _ _ Hw) as Hsi. apply (HQn s2 (set_flags c1 (cn_awaiting_pong c1) true (cn_fragmented_data c1))); [done|done| | | |done| |].
        -- eapply worked_trans; [by eapply moved_worked|]. split; [by exists ch|]. split; [done|]. rewrite E2. apply list_lookup_insert_eq. by eapply slot_lt.
        -- by apply set_flags_ok.
        -- eapply same_input_trans; [exact Hsi|]. done.
        -- cbn. by rewrite orb_true_r.
        -- cbn. exact (f_equal cn_fragmented_data Hw).
      * intros s1 Hfull Hw. cbn [negb]. apply runs_ret. by apply HQc.
  - rewrite (proj2 (Z.ltb_ge _ _)) in * by lia. destruct (Z.eqb_spec (cf_opcode f) 9) as [E9|E9].
    + apply runs_bind. apply (reply_or_close_ok ch k s i c); [done|done|done|lia|lia| |].
      * intros s1 c1 Hfit Hm Hw Hp Hc1. cbn [negb]. apply runs_ret. apply (HQn s1 c1); [done|done|by eapply moved_worked|done|by apply same_but_write_input|done| |].
        -- rewrite orb_false_r. exact (f_equal cn_close_after_flush Hw).
        -- exact (f_equal cn_fragmented_data Hw).
      * intros s1 Hfull Hw. cbn [negb]. apply runs_ret. by apply HQc.
    + assert (Hdone : ∀ s' c', worked k i s s' c' → conn_ok c' → same_input c c' → pending c' = pending c →
        cn_close_after_flush c' = cn_close_after_flush c → cn_fragmented_data c' = cn_fragmented_data c → Q None s').
      { intros s' c' Hw Hc' Hsi Hp Hcl Hfr. apply (HQn s' c'); [done| |done|done|done|by rewrite app_nil_r|by rewrite orb_false_r|done].
        pose proof (pending_length c Hco). pose proof (co_write_max _ Hco). pose proof (co_write_size _ Hco). cbn [length]. lia. }
      destruct (Z.eqb_spec (cf_opcode f) 10) as [E10|E10].
      * apply runs_bind, (runs_conn i c); [done|]. set (c1 := set_ping c (cn_last_ping_ns c) ts). apply runs_bind.
        apply (set_conn_all ch k s i c c1); [done|done|by apply set_ping_ok|done|done|]. intros s1 Hok1 Hq1 Eq1 _. apply runs_bind.
        apply (count_ok ch k all s1 pongs_received i); [done|]. intros s2 Hok2 Hq2 Eq2 _.
        assert (Hi2 : conns s2 !! i = Some c1) by (rewrite Eq2, Eq1; apply list_lookup_insert_eq; by eapply slot_lt).
        case_cond.
        -- apply runs_bind. apply (record_ok ch k all s2 last_pong_rtt_ns _ i); [done|done|]. intros s3 Hok3 Hq3 Eq3 _. apply runs_bind.
           apply (set_conn_all ch k s3 i c1); [done|congruence|by apply set_flags_ok, set_ping_ok|done|done|]. intros s4 Hok4 Hq4 Eq4 _. apply runs_ret.
           apply (Hdone s4 (set_flags c1 false (cn_close_after_flush c1) (cn_fragmented_data c1))); [|by apply set_flags_ok, set_ping_ok|done..].
           split; [by exists ch|]. split; [by etrans; [exact Hq1|]; etrans; [exact Hq2|]; etrans|]. rewrite Eq4. apply list_lookup_insert_eq. rewrite Eq3. by eapply slot_lt.
        -- apply runs_ret. apply (Hdone s2 c1); [|by apply set_ping_ok|done..]. split; [by exists ch|]. split; [by etrans|done].
      * apply runs_ret. apply (Hdone s c); [|done..]. split; [by exists ch|]. by split.
Qed.

(** A data frame only moves the fragmentation flag. *)
Lemma handle_data_ok ch k s i c f hs n (Q : option FrameResult → Server → Prop) :
  server_okc ch k all s → conns s !! i = Some c → 0 ≤ cf_opcode f < 8 →
  (∀ s', refusal (cn_fragmented_data c) f = Some kProtocolError → worked k i s s' c → Q (Some kProtocolError) s') →
  (∀ s' c', refusal (cn_fragmented_data c) f = None → worked k i s s' c' → conn_ok c' →
     same_input c c' → pending c' = pending c → cn_close_after_flush c' = cn_close_after_flush c →
     cn_fragmented_data c' = fragmented_after (cn_fragmented_data c) f → Q None s') →
  runs (handle_data (Z.of_nat i) (mkHead (cf_final f) (cf_opcode f) hs n)) s Q.
Proof.
  intros Hok Hc Ho HQe HQn. pose proof (so_conns _ _ _ _ Hok i c Hc) as Hco. unfold refusal, fragmented_after in *.
  rewrite (proj2 (Z.eqb_neq _ 8)), (proj2 (Z.ltb_lt _ _)) in * by lia. rewrite (proj2 (Z.leb_gt 8 _)) in * by lia.
  unfold handle_data. apply runs_bind, (runs_conn i c); [done|]. cbn [fh_final fh_opcode].
  destruct (fragment_step (cn_fragmented_data c) (cf_final f) (cf_opcode f)) as [fr|].
  - apply runs_bind. apply (set_conn_all ch k s i c); [done|done|by apply set_flags_ok|done|done|]. intros s1 Hok1 Hq1 E1 _. apply runs_ret.
    eapply (HQn s1); [done| |by apply set_flags_ok|done..]. split; [by exists ch|]. split; [done|]. rewrite E1. apply list_lookup_insert_eq. by eapply slot_lt.
  - apply runs_ret, HQe; [done|]. split; [by exists ch|]. by split.
Qed.

Lemma client_bytes_length f :
  frame_valid f → Z.of_nat (length (client_bytes f)) =
    (if Z.of_nat (length (cf_payload f)) <=? 125 then 2 else 4) + 4 + Z.of_nat (length (cf_payload f)).
Proof.
  intros [_ [Lm _] [_ Hn] _]. unfold client_bytes. cbn [length]. rewrite !length_app, unmask_length, Lm.
  pose proof (length_field_size (Z.of_nat (length (cf_payload f))) ltac:(lia)) as Hl. destruct (_ <=? 125); lia.
Qed.

(** A complete frame at the front has exactly its effect. *)
Lemma consume_frame_exact ch k s i c ts f rest (Q : FrameResult → Server → Prop) :
  server_okc ch k all s → conns s !! i = Some c → 0 ≤ cn_fd c → frame_valid f → input c = client_bytes f ++ rest →
  (∀ r s' c', worked k i s s' c' → conn_ok c' → frame_effect c f rest r c' → Q r s') →
  runs (consume_frame (Z.of_nat i) ts) s Q.
Proof.
  intros Hok Hc Hfd Hv Ein HQ. pose proof (so_conns _ _ _ _ Hok i c Hc) as Hco. pose proof Hv as [Ho _ [Hpb Hpl] Hctl].
  unfold consume_frame. apply runs_bind, (runs_conn i c); [done|]. apply runs_bind, (runs_lift _ (head_of (input c))); [by apply parse_head_of|].
  rewrite Ein, head_of_complete by done. set (h := mkHead _ _ _ _).
  destruct (unmask_payload_ok c h f rest Hco Hv Ein eq_refl) as (buf & Eu & Hcu & Hrest). set (cu := set_read c (cn_read_size c) buf) in *.
  apply runs_bind, (runs_lift _ (cu, cf_payload f)); [done|]. apply runs_bind.
  apply (set_conn_all ch k s i c cu); [done|done|done|done|done|]. intros s1 Hok1 Hq1 E1 _.
  assert (Hi1 : conns s1 !! i = Some cu) by (rewrite E1; apply list_lookup_insert_eq; by eapply slot_lt).
  assert (Hsize : fh_header_size h + 4 + fh_payload_size h = Z.of_nat (length (client_bytes f))) by (symmetry; by apply client_bytes_length).
  assert (Hfits : Z.of_nat (length (client_bytes f)) ≤ cn_read_size c) by (rewrite <- (input_length c Hco), Ein, length_app; lia).
  assert (Hdrop : ∀ s2 c2, worked k i s1 s2 c2 → conn_ok c2 → same_input cu c2 → refusal (cn_fragmented_data c) f = None →
     (length (pending c) + length (reply f) ≤ 4096)%nat → pending c2 = pending c ++ reply f →
     cn_close_after_flush c2 = (cn_close_after_flush c || (cf_opcode f =? 8)) → cn_fragmented_data c2 = fragmented_after (cn_fragmented_data c) f →
     runs (c ← conn (Z.of_nat i); c ← lift (drop_frame c h); set_conn (Z.of_nat i) c;; mret kConsumed) s2 Q).
  { intros s2 c2 ([ch2 Hok2] & Hq2 & Hi2) Hc2 (Hb & Hs & Hcore) Href Hfit Hp Hcl Hfr.
    apply runs_bind, (runs_conn i c2); [done|]. destruct (drop_frame_ok c2 h Hc2) as (buf' & Ed & Hc3 & Hin3); [rewrite Hsize, Hs; change (cn_read_size cu) with (cn_read_size c); lia|].
    apply runs_bind, (runs_lift _ _ _ _ Ed). apply runs_bind. apply (set_conn_all ch2 k s2 i c2); [done|done|done|done|done|]. intros s3 Hok3 Hq3 E3 _.
    apply runs_ret. eapply (HQ kConsumed s3); [| exact Hc3|].
    - split; [by exists ch2|]. split; [by etrans; [exact Hq1|]; etrans|]. rewrite E3. apply list_lookup_insert_eq. by eapply slot_lt.
    - unfold frame_effect. rewrite Href. split; [done|]. rewrite decide_True by done. split_and!; [exact Hcore| |done|done|done].
      rewrite Hin3, Hsize, Nat2Z.id. assert (input c2 = input cu) as -> by (unfold input; by rewrite Hb, Hs). done. }
  apply runs_bind. rewrite opcode_control by done. cbn [h fh_opcode]. destruct (Z.leb_spec 8 (cf_opcode f)) as [H8|H8].
  - apply (handle_control_ok ch k s1 i cu ts f); [done|done|done|done|done| | |].
    + intros e s2 Href Hw. apply runs_ret. eapply (HQ e s2); [|exact Hcu|].
      * eapply worked_trans; [|exact Hw]. split; [by exists ch|]. by split.
      * unfold frame_effect. change (cn_fragmented_data cu) with (cn_fragmented_data c) in Href. by rewrite Href.
    + intros s2 Href Hfull Hw. apply runs_ret. eapply (HQ kConsumed s2); [|apply conn_ok_init|].
      * eapply worked_trans; [|exact Hw]. split; [by exists ch|]. by split.
      * unfold frame_effect. change (cn_fragmented_data cu) with (cn_fragmented_data c) in Href. rewrite Href. change (pending cu) with (pending c) in Hfull.
        by rewrite decide_False by lia.
    + intros s2 c2 Href Hfit Hw Hc2 Hsi Hp Hcl Hfr. apply (Hdrop s2 c2); [done..|]. unfold fragmented_after. by rewrite (proj2 (Z.leb_le _ _)) by done.
  - assert (Hreply : reply f = []) by (unfold reply; rewrite !(proj2 (Z.eqb_neq _ _)) by lia; done).
    apply (handle_data_ok ch k s1 i cu f); [done|done|lia| |].
    + intros s2 Href Hw. apply runs_ret. eapply (HQ _ s2); [|exact Hcu|].
      * eapply worked_trans; [|exact Hw]. split; [by exists ch|]. by split.
      * unfold frame_effect. change (cn_fragmented_data cu) with (cn_fragmented_data c) in Href. by rewrite Href.
    + intros s2 c2 Href Hw Hc2 Hsi Hp Hcl Hfr. apply (Hdrop s2 c2); [done|done|done|done| | | |done].
      * rewrite Hreply. pose proof (pending_length c Hco). pose proof (co_write_max _ Hco). pose proof (co_write_size _ Hco). cbn [length]. lia.
      * rewrite Hreply, app_nil_r. done.
      * rewrite (proj2 (Z.eqb_neq _ _)), orb_false_r by lia. done.
Qed.

(** Any call: nothing happens, or a frame is handled. *)
Lemma consume_frame_ok ch k s i c ts (Q : FrameResult → Server → Prop) :
  server_okc ch k all s → conns s !! i = Some c → 0 ≤ cn_fd c →
  (∀ r s' c', worked k i s s' c' → conn_ok c' → (r = kConsumed ∧ c' = Connection_init) ∨ core c' = core c →
     (r = kConsumed → 0 ≤ cn_fd c' → cn_read_size c' + 6 ≤ cn_read_size c) → Q r s') →
  runs (consume_frame (Z.of_nat i) ts) s Q.
Proof.
  intros Hok Hc Hfd HQ. pose proof (so_conns _ _ _ _ Hok i c Hc) as Hco. destruct (head_of (input c)) as [r|h] eqn:Eh.
  - unfold consume_frame. apply runs_bind, (runs_conn i c); [done|]. apply runs_bind, (runs_lift _ (inl r)); [rewrite <- Eh; by apply parse_head_of|].
    apply runs_ret. apply (HQ r s c); [|done|by right|].
    + split; [by exists ch|]. by split.
    + intros ->. exfalso. clear -Eh. unfold head_of, length_of in Eh. repeat case_match; simplify_eq.
  - destruct (head_of_sound _ h (input_bytes c Hco) Eh) as (f & rest & Hv & Ein & _ & _ & _).
    apply (consume_frame_exact ch k s i c ts f rest); [done..|]. intros r s' c' Hw Hc' He. apply (HQ r s' c'); [done|done| |].
    + unfold frame_effect in He. destruct (refusal _ _); [right; apply He|]. destruct He as [-> He]. case_decide; [right; apply He|by left].
    + intros -> Hf. unfold frame_effect in He. destruct (refusal (cn_fragmented_data c) f) as [e|] eqn:Er.
      * exfalso. destruct He as [<- _]. clear -Er. unfold refusal, check_close, mbind, option_bind in Er. repeat case_match; simplify_eq.
      * destruct He as [_ He]. case_decide; [|rewrite He in Hf; cbn in Hf; lia]. destruct He as (_ & Hin & _).
        rewrite <- (input_length c Hco), <- (input_length c' Hc'), Hin, Ein, length_app. pose proof (client_bytes_length f Hv).
        destruct (_ <=? 125); lia.
Qed.

(** ** The loops around it *)

Lemma core_fd c c' : core c' = core c → cn_fd c' = cn_fd c.
Proof. unfold core. congruence. Qed.

Lemma close_with_code_ok ch k s i c code (Q : bool → Server → Prop) :
  server_okc ch k all s → conns s !! i = Some c → 0 ≤ cn_fd c →
  (∀ b s' c', worked k i s s' c' → Q b s') → runs (close_with_code (Z.of_nat i) code) s Q.
Proof.
  intros Hok Hc Hfd HQ. unfold close_with_code, queue_close. apply runs_bind.
  change (123 <? Z.of_nat (length [])) with false. cbv iota. rewrite app_nil_r.
  apply (queue_frame_ok ch k s i c); [done|done|lia|cbn; lia| |].
  - intros s1 c1 _ Hm Hw _ Hc1. pose proof (moved_conn _ _ _ _ _ _ _ Hc Hm) as Hi1. cbn [negb]. apply runs_bind, (runs_conn i c1); [done|].
    apply runs_bind. apply (set_conn_all ch k s1 i c1); [apply Hm|done|by apply set_flags_ok|done|done|]. intros s2 Hok2 Hq2 E2 _. apply runs_ret.
    eapply (HQ true s2). eapply worked_trans; [by eapply moved_worked|]. split; [by exists ch|]. split; [done|]. rewrite E2. apply list_lookup_insert_eq. by eapply slot_lt.
  - intros _. cbn [negb]. apply runs_bind. apply (close_all ch k s i c); [by apply okc_but|done|done|]. intros s1 ch1 Hok1 Hq1 Hi1 _ _. apply runs_ret.
    apply (HQ false s1 Connection_init). split; [by exists ch1|]. by split.
Qed.

Lemma consume_frames_ok fuel ch k s i c ts (Q : option bool → Server → Prop) :
  server_okc ch k all s → conns s !! i = Some c → 0 ≤ cn_fd c → cn_read_size c < 6 * Z.of_nat fuel →
  (∀ r s' c', worked k i s s' c' → conn_ok c' → (r = None → 0 ≤ cn_fd c') → Q r s') →
  runs (consume_frames fuel (Z.of_nat i) ts) s Q.
Proof.
  revert ch s c Q. induction fuel as [|fuel IH]; intros ch s c Q Hok Hc Hfd Hfuel HQ.
  { pose proof (co_read_size _ (so_conns _ _ _ _ Hok i c Hc)). lia. }
  cbn [consume_frames]. apply runs_bind. apply (consume_frame_ok ch k s i c); [done..|]. intros r s1 c1 Hw1 Hc1 Hcase Hdec.
  pose proof Hw1 as ([ch1 Hok1] & Hq1 & Hi1).
  assert (Hcl : ∀ code, core c1 = core c → runs (b ← close_with_code (Z.of_nat i) code; mret (Some b)) s1 Q).
  { intros code Hcore. apply runs_bind. apply (close_with_code_ok ch1 k s1 i c1); [done|done|by rewrite (core_fd _ _ Hcore)|]. intros b s2 c2 Hw2. apply runs_ret.
    apply (HQ (Some b) s2 c2); [by eapply worked_trans| |done]. destruct Hw2 as ([ch2 Hok2] & _ & Hi2). by apply (so_conns _ _ _ _ Hok2 i). }
  destruct r; [|destruct (decide (cn_fd c1 < 0)) as [Hneg|Hneg]|..].
  - apply runs_ret. apply (HQ None s1 c1); [done|done|]. intros _. destruct Hcase as [[? _]|Hcore]; [done|]. by rewrite (core_fd _ _ Hcore).
  - apply runs_bind, (runs_conn i c1); [done|]. rewrite (proj2 (Z.ltb_lt _ _)) by done. cbn [orb]. apply runs_ret. by apply (HQ (Some true) s1 c1).
  - apply runs_bind, (runs_conn i c1); [done|]. rewrite (proj2 (Z.ltb_ge _ _)) by lia. cbn [orb]. destruct (cn_close_after_flush c1).
    + apply runs_ret. by apply (HQ (Some true) s1 c1).
    + apply (IH ch1 s1 c1); [done|done|lia|specialize (Hdec eq_refl ltac:(lia)); lia|]. intros r s2 c2 Hw2 Hc2 Hr. apply (HQ r s2 c2); [by eapply worked_trans|done|done].
  - destruct Hcase as [[? _]|Hcore]; [done|by apply Hcl].
  - destruct Hcase as [[? _]|Hcore]; [done|by apply Hcl].
  - destruct Hcase as [[? _]|Hcore]; [done|by apply Hcl].
Qed.

(** The bytes a socket delivers. *)
Definition recv_ok (r : RecvResult) : Prop := match r with Received bs => bytes bs | _ => True end.

Lemma receive_passes_ok recvs ch k s i c ts (Q : bool → Server → Prop) :
  server_okc ch k all s → conns s !! i = Some c → 0 ≤ cn_fd c → Forall recv_ok recvs →
  (∀ b s' c', worked k i s s' c' → Q b s') → runs (receive_passes recvs (Z.of_nat i) ts) s Q.
Proof.
  intros Hok Hc Hfd Hr. revert ch s c Q Hok Hc Hfd. induction Hr as [|outcome recvs Ho Hr IH]; intros ch s c Q Hok Hc Hfd HQ.
  { apply runs_ret. apply (HQ true s c). split; [by exists ch|]. by split. }
  cbn [receive_passes]. apply runs_bind. pose proof (co_read_size _ (so_conns _ _ _ _ Hok i c Hc)) as Hrs.
  apply (consume_frames_ok kFrameFuel ch k s i c); [done|done|done|unfold kFrameFuel; lia|]. intros r s1 c1 Hw1 Hc1 Hopen.
  destruct r as [b|]; [apply runs_ret; by apply (HQ b s1 c1)|]. specialize (Hopen eq_refl). pose proof Hw1 as ([ch1 Hok1] & Hq1 & Hi1).
  apply runs_bind, (runs_conn i c1); [done|]. destruct (cn_close_after_flush c1); [apply runs_ret; by apply (HQ true s1 c1)|].
  assert (Hclose : ∀ b, runs (close (Z.of_nat i);; mret b) s1 Q).
  { intros b. apply runs_bind. apply (close_all ch1 k s1 i c1); [by apply okc_but|done|done|]. intros s2 ch2 Hok2 Hq2 Hi2 _ _. apply runs_ret.
    apply (HQ b s2 Connection_init). eapply worked_trans; [exact Hw1|]. split; [by exists ch2|]. by split. }
  assert (Hagain : runs (receive_passes recvs (Z.of_nat i) ts) s1 Q).
  { apply (IH ch1 s1 c1); [done..|]. intros b s2 c2 Hw2. apply (HQ b s2 c2). by eapply worked_trans. }
  unfold kReadBufferBytes. destruct (Z.eqb_spec (cn_read_size c1) 2048) as [Hfull|Hfull].
  { apply (close_with_code_ok ch1 k s1 i c1); [done..|]. intros b s2 c2 Hw2. apply (HQ b s2 c2). by eapply worked_trans. }
  pose proof (co_read_size _ Hc1) as Hrs1. pose proof (co_read _ Hc1) as Hrb1.
  destruct outcome as [bs| | |]; [|done|apply runs_ret; by apply (HQ true s1 c1)|apply Hclose].
  set (got := take (Z.to_nat (2048 - cn_read_size c1)) bs). assert (Hgot : (length got ≤ Z.to_nat (2048 - cn_read_size c1))%nat) by (unfold got; rewrite length_take; lia).
  destruct (Z.ltb_spec 0 (Z.of_nat (length got))); [|apply Hclose].
  assert (Hput : ∃ buf, put (cn_read_buffer c1) (Z.to_nat (cn_read_size c1)) got = Some buf ∧ length buf = 2048%nat ∧ bytes buf).
  { pose proof (input_length c1 Hc1) as Hil. pose proof (co_bytes _ Hc1) as Hby. pose proof (read_split c1 Hc1) as Hsplit.
    set (tail := drop _ _) in Hsplit. assert (Htl : length tail = Z.to_nat (2048 - cn_read_size c1)) by (unfold tail; rewrite length_drop; lia).
    assert (Hbt : bytes tail) by by apply Forall_drop. clearbody tail. rewrite Hsplit. replace (Z.to_nat (cn_read_size c1)) with (length (input c1)) by lia.
    rewrite put_app by lia. eexists. split; [done|]. split; [rewrite !length_app, !length_drop; lia|].
    apply Forall_app. split; [by apply input_bytes|]. apply Forall_app. split; [by apply Forall_take|by apply Forall_drop]. }
  destruct Hput as (buf & Ep & Hlb & Hbb). apply runs_bind, (runs_lift _ buf); [done|]. apply runs_bind.
  replace (u16 (cn_read_size c1 + Z.of_nat (length got))) with (cn_read_size c1 + Z.of_nat (length got)) by (unfold u16; rewrite Z.mod_small; lia).
  assert (Hc2 : conn_ok (set_read c1 (cn_read_size c1 + Z.of_nat (length got)) buf)) by (apply set_read_ok; [done..|lia]).
  apply (set_conn_all ch1 k s1 i c1); [done|done|done|done|done|]. intros s2 Hok2 Hq2 E2 _.
  assert (Hi2 : conns s2 !! i = Some (set_read c1 (cn_read_size c1 + Z.of_nat (length got)) buf)) by (rewrite E2; apply list_lookup_insert_eq; by eapply slot_lt).
  apply (IH ch1 s2 _ Q Hok2 Hi2); [done|]. intros b s3 c3 Hw3. apply (HQ b s3 c3). eapply worked_trans; [exact Hw1|]. eapply worked_trans; [|exact Hw3].
  split; [by exists ch1|]. by split.
Qed.

Lemma receive_ok ch k s i c ts recvs (Q : bool → Server → Prop) :
  server_okc ch k all s → conns s !! i = Some c → 0 ≤ cn_fd c → Forall recv_ok recvs →
  (∀ b s' c', worked k i s s' c' → Q b s') → runs (receive (Z.of_nat i) ts recvs) s Q.
Proof.
  intros Hok Hc Hfd Hr HQ. apply (receive_passes_ok _ ch k s i c); [done..| |done].
  apply Forall_take, Forall_app. split; [done|]. by apply Forall_replicate.
Qed.

(** ** Sending *)

Lemma flushed_ok ch k s i c (Q : bool → Server → Prop) :
  server_okc ch k (but i) s → conns s !! i = Some c → 0 ≤ cn_fd c →
  (∀ b s' c', worked k i s s' c' → Q b s') → runs (flushed (Z.of_nat i)) s Q.
Proof.
  intros Hok Hc Hfd HQ. pose proof (so_conns _ _ _ _ Hok i c Hc) as Hco. unfold flushed. apply runs_bind, (runs_conn i c); [done|]. apply runs_bind.
  set (c1 := set_blocked _ 0). assert (Hc1 : conn_ok c1) by (destruct Hco; split; cbn; (done || lia)).
  apply (set_conn_but ch k s i c c1); [done|done|done|done|]. intros s1 Hok1 Hq1 E1 _.
  assert (Hi1 : conns s1 !! i = Some c1) by (rewrite E1; apply list_lookup_insert_eq; by eapply slot_lt).
  case_cond.
  - apply runs_bind. apply (close_all ch k s1 i c1); [done|done|done|]. intros s2 ch2 Hok2 Hq2 Hi2 _ _. apply runs_ret.
    apply (HQ false s2 Connection_init). split; [by exists ch2|]. split; [by etrans|done].
  - apply runs_bind. apply (refresh_all ch k s1 i c1); [done|done|]. intros s2 Hok2 Hq2 E2 _. apply runs_ret.
    apply (HQ true s2 c1). split; [by exists ch|]. split; [by etrans|congruence].
Qed.

Lemma set_write_ok c offset : conn_ok c → 0 ≤ offset ≤ cn_write_size c → conn_ok (set_write c offset (cn_write_size c) (cn_write_buffer c)).
Proof. intros [] H. by split. Qed.

Lemma close_worked ch k s i c (b : bool) (Q : bool → Server → Prop) :
  server_okc ch k (but i) s → conns s !! i = Some c → 0 ≤ cn_fd c →
  (∀ s', worked k i s s' Connection_init → Q b s') → runs (close (Z.of_nat i);; mret b) s Q.
Proof.
  intros Hok Hc Hfd HQ. apply runs_bind. apply (close_all ch k s i c); [done..|]. intros s1 ch1 Hok1 Hq1 Hi1 _ _. apply runs_ret, HQ.
  split; [by exists ch1|]. by split.
Qed.

(** A connection without progress is dropped, whoever notices. *)
Lemma drop_slow_ok {A} (a : A) ch k s i c v (Q : A → Server → Prop) :
  server_okc ch k all s → conns s !! i = Some c → 0 ≤ cn_fd c →
  (∀ s', worked k i s s' Connection_init → Q a s') →
  runs (record last_backpressure_close_ns v;; count slow_client_closes;; close (Z.of_nat i);; mret a) s Q.
Proof.
  intros Hok Hc Hfd HQ. apply runs_bind. apply (record_ok ch k all s last_backpressure_close_ns v i); [done|done|]. intros s1 Hok1 Hq1 E1 _.
  apply runs_bind. apply (count_ok ch k all s1 slow_client_closes i); [done|]. intros s2 Hok2 Hq2 E2 _.
  apply runs_bind. apply (close_all ch k s2 i c); [by apply okc_but|congruence|done|]. intros s3 ch3 Hok3 Hq3 Hi3 _ _. apply runs_ret, HQ.
  split; [by exists ch3|]. split; [|done]. etrans; [exact Hq1|]. by etrans.
Qed.

Lemma set_worked ch k s i c c' (Q : unit → Server → Prop) :
  server_okc ch k all s → conns s !! i = Some c → conn_ok c' → core c' = core c → interest c' = interest c →
  (∀ s', worked k i s s' c' → Q tt s') → runs (set_conn (Z.of_nat i) c') s Q.
Proof.
  intros Hok Hc Hc' Hcore Hint HQ. apply (set_conn_all ch k s i c); [done..|]. intros s1 Hok1 Hq1 E1 _. apply HQ.
  split; [by exists ch|]. split; [done|]. rewrite E1. apply list_lookup_insert_eq. by eapply slot_lt.
Qed.

Lemma flush_ok ch k s i c ts outcome (Q : bool → Server → Prop) :
  server_okc ch k all s → conns s !! i = Some c → 0 ≤ cn_fd c →
  (∀ b s' c', worked k i s s' c' → Q b s') → runs (flush (Z.of_nat i) ts outcome) s Q.
Proof.
  intros Hok Hc Hfd HQ. pose proof (so_conns _ _ _ _ Hok i c Hc) as Hco. pose proof (okc_but _ _ i _ Hok) as Hbut.
  unfold flush. apply runs_bind, (runs_conn i c); [done|].
  destruct (Z.eqb_spec (cn_write_offset c) (cn_write_size c)) as [E|E]; [by apply (flushed_ok ch k s i c)|]. cbv zeta.
  set (blocked := if cn_write_blocked_since_ns c =? 0 then _ else _).
  assert (Hblocked : runs blocked s Q).
  { unfold blocked. case_cond; [|case_cond].
    - apply runs_bind. apply (set_worked ch k s i c); [done|done|by apply set_blocked_ok|done|done|]. intros s1 Hw. apply runs_ret. by eapply HQ.
    - apply (drop_slow_ok false ch k s i c); [done..|]. intros s1 Hw. by eapply HQ.
    - apply runs_ret, (HQ true s c). split; [by exists ch|]. by split. }
  assert (Hclose : runs (close (Z.of_nat i);; mret false) s Q) by (apply (close_worked ch k s i c); [done..|]; intros s1 Hw; by eapply HQ).
  clearbody blocked. destruct outcome as [n| | |]; [|apply runs_ret, (HQ true s c); by split; [exists ch|]|done|done].
  rewrite pending_size_length, pending_length by done. pose proof (co_write_size _ Hco). pose proof (co_write_max _ Hco).
  destruct (Z.ltb_spec 0 (Z.min n (cn_write_size c - cn_write_offset c))); [|done]. set (sent := Z.min n _) in *.
  replace (u16 (cn_write_offset c + sent)) with (cn_write_offset c + sent) by (unfold u16; rewrite Z.mod_small; unfold sent; lia).
  set (c1 := set_write c _ _ _). assert (Hc1 : conn_ok c1) by (apply set_write_ok; [done|unfold sent; lia]).
  apply runs_bind. apply (set_conn_but ch k s i c c1); [done..|]. intros s1 Hok1 Hq1 E1 _.
  assert (Hi1 : conns s1 !! i = Some c1) by (rewrite E1; apply list_lookup_insert_eq; by eapply slot_lt).
  case_cond.
  - apply (flushed_ok ch k s1 i c1); [done..|]. intros b s2 c2 (Ho2 & Hq2 & Hi2). apply (HQ b s2 c2). split; [done|]. split; [by etrans|done].
  - apply runs_bind. apply (set_conn_but ch k s1 i c1); [done|done|by apply set_blocked_ok|done|]. intros s2 Hok2 Hq2 E2 _.
    apply runs_bind. apply (refresh_all ch k s2 i (set_blocked c1 ts)); [done|rewrite E2; apply list_lookup_insert_eq; by eapply slot_lt|].
    intros s3 Hok3 Hq3 E3 _. apply runs_ret. apply (HQ true s3 (set_blocked c1 ts)). split; [by exists ch|]. split; [etrans; [exact Hq1|]; by etrans|].
    rewrite E3, E2. apply list_lookup_insert_eq. by eapply slot_lt.
Qed.

(** ** Keep-alive *)

Lemma service_keepalive_ok ch k s i c ts (Q : unit → Server → Prop) :
  server_okc ch k all s → conns s !! i = Some c →
  (∀ s' c', worked k i s s' c' → Q tt s') → runs (service_keepalive (Z.of_nat i) ts) s Q.
Proof.
  intros Hok Hc HQ. pose proof (so_conns _ _ _ _ Hok i c Hc) as Hco.
  assert (Hsame : runs (mret tt) s Q) by (apply runs_ret, (HQ s c); by split; [exists ch|]).
  unfold service_keepalive. apply runs_bind, (runs_conn i c); [done|]. apply runs_bind, runs_get.
  destruct (Z.ltb_spec (cn_fd c) 0); [done|].
  assert (Hclose : ∀ s1, server_okc ch k all s1 → quiet i s s1 → conns s1 = conns s → runs (close (Z.of_nat i)) s1 Q).
  { intros s1 Hok1 Hq1 E1. apply (close_all ch k s1 i c); [by apply okc_but|congruence|done|]. intros s2 ch2 Hok2 Hq2 Hi2 _ _.
    apply (HQ s2 Connection_init). split; [by exists ch2|]. split; [by etrans|done]. }
  case_cond; [|case_cond; [done|case_cond; [case_cond; [by apply Hclose|done]|case_cond; [done|]]]].
  - apply runs_bind. apply (record_ok ch k all s last_backpressure_close_ns _ i); [done|done|]. intros s1 Hok1 Hq1 E1 _.
    apply runs_bind. apply (count_ok ch k all s1 slow_client_closes i); [done|]. intros s2 Hok2 Hq2 E2 _. apply Hclose; [done|by etrans|congruence].
  - apply runs_bind. apply (queue_frame_ok ch k s i c); [done|done|lia|cbn; lia| |].
    + intros s1 c1 _ Hm Hw _ Hc1. cbn [negb]. pose proof (moved_conn _ _ _ _ _ _ _ Hc Hm) as Hi1. apply runs_bind, (runs_conn i c1); [done|].
      apply runs_bind. apply (set_conn_all ch k s1 i c1); [apply Hm|done|by apply set_flags_ok, set_ping_ok|done|done|]. intros s2 Hok2 Hq2 E2 _.
      apply (count_ok ch k all s2 pings_sent i); [done|]. intros s3 Hok3 Hq3 E3 _. eapply (HQ s3). split; [by exists ch|].
      split; [etrans; [apply Hm|]; by etrans|]. rewrite E3, E2. apply list_lookup_insert_eq. by eapply slot_lt.
    + intros _. cbn [negb]. apply runs_bind. apply (count_ok ch k all s slow_client_closes i); [done|]. intros s1 Hok1 Hq1 E1 _. by apply Hclose.
Qed.

Lemma service_io_ok ch k s i c env (Q : unit → Server → Prop) :
  server_okc ch k all s → conns s !! i = Some c → Forall recv_ok (te_recvs env (Z.of_nat i)) →
  (∀ s' c', worked k i s s' c' → Q tt s') → runs (service_io env (Z.of_nat i)) s Q.
Proof.
  intros Hok Hc Hr HQ. unfold service_io. apply runs_bind, (runs_conn i c); [done|].
  destruct (Z.ltb_spec (cn_fd c) 0); [apply runs_ret, (HQ s c); by split; [exists ch|]|]. cbv zeta. set (events := te_revents env _).
  assert (Hlast : ∀ s2 c2, worked k i s s2 c2 → runs (c ← conn (Z.of_nat i);
    if (0 <=? cn_fd c) && any_bit events (Z.lor (Z.lor POLLERR POLLHUP) POLLNVAL) &&
       (negb (cn_close_after_flush c) || (cn_write_offset c =? cn_write_size c)) then close (Z.of_nat i) else mret tt) s2 Q).
  { intros s2 c2 ([ch2 Hok2] & Hq2 & Hi2). apply runs_bind, (runs_conn i c2); [done|]. destruct (Z.leb_spec 0 (cn_fd c2)); cbn [andb]; [case_cond|].
    - apply (close_all ch2 k s2 i c2); [by apply okc_but|done|done|]. intros s3 ch3 Hok3 Hq3 Hi3 _ _. apply (HQ s3 Connection_init).
      split; [by exists ch3|]. split; [by etrans|done].
    - apply runs_ret, (HQ s2 c2). by split; [exists ch2|].
    - apply runs_ret, (HQ s2 c2). by split; [exists ch2|]. }
  assert (Hmid : ∀ s1 c1, worked k i s s1 c1 → runs (c ← conn (Z.of_nat i);
    (if (0 <=? cn_fd c) && (any_bit events POLLOUT || (cn_close_after_flush c && negb (cn_write_offset c =? cn_write_size c)))
     then flush (Z.of_nat i) (te_io_now env) (te_sends env (Z.of_nat i));; mret tt else mret tt);; c ← conn (Z.of_nat i);
    if (0 <=? cn_fd c) && any_bit events (Z.lor (Z.lor POLLERR POLLHUP) POLLNVAL) &&
       (negb (cn_close_after_flush c) || (cn_write_offset c =? cn_write_size c)) then close (Z.of_nat i) else mret tt) s1 Q).
  { intros s1 c1 Hw1. pose proof Hw1 as ([ch1 Hok1] & Hq1 & Hi1). apply runs_bind, (runs_conn i c1); [done|].
    destruct (Z.leb_spec 0 (cn_fd c1)); cbn [andb]; [case_cond|].
    - apply runs_bind, runs_bind. apply (flush_ok ch1 k s1 i c1); [done..|]. intros b s2 c2 Hw2. apply runs_ret, (Hlast s2 c2). by eapply worked_trans.
    - apply runs_bind, runs_ret. by eapply Hlast.
    - apply runs_bind, runs_ret. by eapply Hlast. }
  case_cond; apply runs_bind.
  - apply runs_bind. apply (receive_ok ch k s i c); [done..|]. intros b s1 c1 Hw1. apply runs_ret. by eapply Hmid.
  - apply runs_ret. apply (Hmid s c). by split; [exists ch|].
Qed.
