(* ===== verification/WsBroadcast.v ===== *)
(** * WsBroadcast: a fill reaches its subscribers and nobody else

    [broadcast] walks the list of one order's subscribers.  The frame is queued for
    exactly the open slots of that order that are not closing; a slot without room is
    closed; every other slot is untouched; the fan-out count is the number queued. *)

From S2P Require Import Prelude Arena ArenaLayout Gateway WsText WsAccept WsConn WsSubs WsServer WsInv WsWorker.
From Stdlib Require Import ZArith Lia String.
From stdpp Require Import base tactics functions gmap numbers option list.
Open Scope Z_scope.

Implicit Types (s : Server) (c : Connection) (i j : nat) (l : list nat).

(** What no step of the worker but the queues changes; descriptors are kept. *)
Record steady s s' : Prop := mk_steady {
  st_length : length (conns s') = length (conns s);
  st_queues : sv_upgrades s' = sv_upgrades s ∧ sv_events s' = sv_events s;
  st_descriptors : descriptors s' ≡ₚ descriptors s
}.

#[export] Instance steady_preorder : PreOrder steady.
Proof.
  split; [by split|]. intros s1 s2 s3 [A1 [B1 C1] D1] [A2 [B2 C2] D2]. split; [congruence|split; congruence|by rewrite D2].
Qed.

Lemma quiet_steady i s s' : quiet i s s' → steady s s'.
Proof. by intros []. Qed.

(** ** The subscribers *)

Definition receives (order_id : Z) c : bool := open c && negb (cn_close_after_flush c) && (cn_order_id c =? order_id).

Definition fits (frame : list Z) c : bool := bool_decide (length (pending c) + length frame ≤ 4096)%nat.

(** A subscriber before and after. *)
Definition delivered (frame : list Z) c c' : Prop :=
  if fits frame c then same_but_write (unlinked c) (unlinked c') ∧ pending c' = pending c ++ frame else unlinked c' = Connection_init.

Definition first_of l : Z := match l with [] => -1 | i :: _ => Z.of_nat i end.

(** The successor of a slot is the next of its list. *)
Lemma next_in_chain ch k pl s b l1 i l2 c :
  server_okc ch k pl s → ch b = l1 ++ i :: l2 → conns s !! i = Some c → cn_subscription_next c = first_of l2.
Proof.
  intros Hok Hch Hc. pose proof (so_index _ _ _ _ Hok) as Hix.
  destruct (ix_member _ _ Hix b i) as (_ & bk & _ & Hbk & _); [rewrite Hch; set_solver|].
  destruct (ix_chain _ _ Hix b bk Hbk) as [[last Hl] _]. rewrite Hch in Hl. apply links_app in Hl as (q & g & _ & (_ & c' & Hc' & _ & Hs)).
  assert (c' = c) by (unfold conns in *; congruence). subst c'. destruct l2 as [|j l2]; cbn in Hs |- *; [by destruct Hs|apply Hs].
Qed.

(** How many of the slots [l] get the frame. *)
Definition reached (order_id : Z) (frame : list Z) (cs : list Connection) l : Z :=
  count_if (λ j, match cs !! j with Some c => receives order_id c && fits frame c | None => false end) l.

Lemma receives_unlinked o c c' : unlinked c' = unlinked c → receives o c' = receives o c.
Proof.
  intros E. unfold receives, open. pose proof (f_equal cn_fd E) as E1. pose proof (f_equal cn_order_id E) as E2. pose proof (f_equal cn_close_after_flush E) as E3.
  cbn in E1, E2, E3. by rewrite E1, E2, E3.
Qed.

Lemma pending_unlinked c c' : unlinked c' = unlinked c → pending c' = pending c.
Proof. intros E. exact (f_equal pending E). Qed.

Lemma reached_ext o frame cs cs' l :
  (∀ j, j ∈ l → unlinked <$> (cs' !! j) = unlinked <$> (cs !! j)) → reached o frame cs' l = reached o frame cs l.
Proof.
  intros H. unfold reached, count_if. induction l as [|j l IH]; [done|]. cbn. rewrite IH by set_solver. f_equal.
  specialize (H j ltac:(set_solver)). destruct (cs' !! j) as [c'|], (cs !! j) as [c|]; try done. apply (inj Some) in H.
  rewrite (receives_unlinked o _ _ H). unfold fits. by rewrite (pending_unlinked _ _ H).
Qed.

(** What happened to the slots: those of [l] that subscribe were served. *)
Definition served (o : Z) (frame : list Z) l s s' : Prop :=
  ∀ j c, conns s !! j = Some c → ∃ c', conns s' !! j = Some c' ∧
    if bool_decide (j ∈ l) && receives o c then delivered frame c c' else unlinked c' = unlinked c.

Lemma unlinked_some (o o' : option Connection) c : unlinked <$> o' = unlinked <$> o → o = Some c → ∃ c', o' = Some c' ∧ unlinked c' = unlinked c.
Proof. intros E ->. destruct o' as [c'|]; [|done]. exists c'. split; [done|]. by apply (inj Some) in E. Qed.

(** First slot [i], then the others. *)
Lemma served_cons o frame i l s s1 s2 c c1 :
  i ∉ l → quiet i s s1 → conns s !! i = Some c → conns s1 !! i = Some c1 →
  (if receives o c then delivered frame c c1 else unlinked c1 = unlinked c) → served o frame l s1 s2 → served o frame (i :: l) s s2.
Proof.
  intros Hn Hq Hc Hc1 Hcase Hs j cj Hj. destruct (decide (j = i)) as [->|Hji].
  - assert (cj = c) by congruence. subst cj. rewrite bool_decide_true by set_solver. cbn [andb].
    destruct (Hs i c1 Hc1) as (c' & Hc' & H). exists c'. split; [done|]. rewrite bool_decide_false in H by done. cbn [andb] in H.
    destruct (receives o c); [|by rewrite H]. unfold delivered in *. destruct (fits frame c).
    + destruct Hcase as [Hw Hp]. split; [|rewrite <- Hp; by apply pending_unlinked]. unfold same_but_write in *. by rewrite H.
    + by rewrite H.
  - destruct (unlinked_some _ _ cj (qu_others _ _ _ Hq j Hji) Hj) as (cj1 & Hj1 & E). destruct (Hs j cj1 Hj1) as (c' & Hc' & H). exists c'. split; [done|].
    assert (bool_decide (j ∈ i :: l) = bool_decide (j ∈ l)) as -> by (apply bool_decide_ext; set_solver).
    rewrite (receives_unlinked o _ _ E) in H. destruct (bool_decide (j ∈ l) && receives o cj); [|by rewrite H].
    clear Hcase. unfold delivered, fits, same_but_write in *. rewrite (pending_unlinked _ _ E) in H. destruct (bool_decide _); [|done]. by rewrite <- E.
Qed.

Lemma served_nil o frame s : served o frame [] s s.
Proof. intros j c Hc. exists c. split; [done|]. by rewrite bool_decide_false by set_solver. Qed.

Lemma fan_out_ok fuel l ch k s b pre o payload clock fanout (Q : Z → Server → Prop) :
  server_okc ch k all s → ch b = pre ++ l → (length l < fuel)%nat → (length payload ≤ 2048)%nat → 0 ≤ fanout → fanout + Z.of_nat (length l) < 2 ^ 32 →
  (∀ s', server_ok k all s' → steady s s' → served o (server_frame 1 payload) l s s' →
     Q (fanout + reached o (server_frame 1 payload) (conns s) l) s') →
  runs (fan_out fuel o payload clock (first_of l) fanout) s Q.
Proof.
  revert l ch s pre fanout Q. induction fuel as [|fuel IH]; intros l ch s pre fanout Q Hok Hch Hfuel Hpl Hf0 Hf1 HQ; [lia|].
  destruct l as [|i l]; cbn [fan_out first_of].
  { apply runs_ret. replace fanout with (fanout + reached o (server_frame 1 payload) (conns s) []) by (unfold reached; cbn; lia).
    apply HQ; [by exists ch|done|apply served_nil]. }
  rewrite (proj2 (Z.ltb_ge _ _)) by lia. cbn [length] in *.
  destruct (ix_member _ _ (so_index _ _ _ _ Hok) b i) as (c & bk & Hc & Hbk & Hfd & _); [rewrite Hch; set_solver|]. fold (conns s) in Hc.
  pose proof (ix_nodup _ _ (so_index _ _ _ _ Hok) b) as Hnd. rewrite Hch in Hnd.
  assert (Hnot : i ∉ l ∧ i ∉ pre). { apply NoDup_app in Hnd as (_ & Hd & Hn). apply NoDup_cons in Hn as [? _]. split; [done|]. intros Hi. apply (Hd i Hi). set_solver. }
  apply runs_bind, (runs_conn i c); [done|]. cbv zeta. rewrite (next_in_chain ch k all s b pre i l c Hok Hch Hc).
  set (frame := server_frame 1 payload) in *.
  assert (Hstep : ∀ s1 ch1 c1 n, server_okc ch1 k all s1 → quiet i s s1 → conns s1 !! i = Some c1 → (∃ pre1, ch1 b = pre1 ++ l) →
    (if receives o c then delivered frame c c1 else unlinked c1 = unlinked c) →
    n = (if receives o c && fits frame c then 1 else 0) →
    runs (fan_out fuel o payload clock (first_of l) (fanout + n)) s1 Q).
  { intros s1 ch1 c1 n Hok1 Hq1 Hi1 [pre1 Hch1] Hcase ->. apply (IH l ch1 s1 pre1); [done|done|lia|done|case_cond; lia|case_cond; lia|].
    intros s2 Hok2 Hst2 Hs2. fold frame. replace (_ + _ + _) with (fanout + reached o frame (conns s) (i :: l)).
    - apply HQ; [done|etrans; [by eapply quiet_steady|done]|]. eapply (served_cons o frame i l s s1 s2 c c1); [apply Hnot|done..].
    - rewrite (reached_ext o frame (conns s) (conns s1) l).
      + unfold reached, count_if. cbn [foldr]. rewrite Hc. lia.
      + intros j Hj. apply (qu_others _ _ _ Hq1). intros ->. by apply (proj1 Hnot). }
  assert (Hgate : (cn_fd c <? 0) || cn_close_after_flush c || negb (cn_order_id c =? o) = negb (receives o c)).
  { unfold receives, open. rewrite (proj2 (Z.ltb_ge _ _)), (proj2 (Z.leb_le _ _)) by lia. by destruct (cn_close_after_flush c), (_ =? _). }
  rewrite Hgate. destruct (receives o c) eqn:Er; cbn [negb andb] in *.
  - apply runs_bind. apply (queue_frame_ok ch k s i c); [done|done|lia|lia| |].
    + intros s1 c1 Hfit Hm Hw Hp Hc1. fold frame in Hfit, Hp. pose proof (moved_conn _ _ _ _ _ _ _ Hc Hm) as Hi1. destruct Hm as (Hok1 & Hq1 & _ & E1).
      apply runs_bind. apply (count_ok ch k all s1 queued_frames i); [done|]. intros s2 Hok2 Hq2 E2 _.
      replace (u32 (fanout + 1)) with (fanout + 1) by (unfold u32; rewrite Z.mod_small; lia).
      assert (Hft : fits frame c = true) by (apply bool_decide_eq_true; done).
      apply (Hstep s2 ch c1); [done|by etrans|congruence|exists (pre ++ [i]); by rewrite Hch, <- app_assoc| |by rewrite Hft].
      unfold delivered. rewrite Hft. split; [|done]. unfold same_but_write in *. exact (f_equal unlinked Hw).
    + intros Hfull. fold frame in Hfull. assert (Hft : fits frame c = false) by (apply bool_decide_eq_false; lia).
      apply runs_bind. apply (count_ok ch k all s dropped_frames i); [done|]. intros s1 Hok1 Hq1 E1 _.
      apply runs_bind, (runs_conn i c); [congruence|]. rewrite (proj2 (Z.leb_le _ _)) by done. cbv zeta. apply runs_bind.
      apply runs_bind. apply (record_ok ch k all s1 last_backpressure_close_ns _ i); [done|done|]. intros s2 Hok2 Hq2 E2 _.
      apply runs_bind. apply (count_ok ch k all s2 slow_client_closes i); [done|]. intros s3 Hok3 Hq3 E3 _.
      apply (close_all ch k s3 i c); [by apply okc_but|congruence|done|]. intros s4 ch4 Hok4 Hq4 Hi4 _ Hch4.
      replace fanout with (fanout + 0) by lia.
      apply (Hstep s4 ch4 Connection_init); [done|etrans; [exact Hq1|]; etrans; [exact Hq2|]; by etrans|done| |unfold delivered; by rewrite Hft|by rewrite Hft].
      exists pre. rewrite Hch4, Hch, filter_app, filter_cons_False by tauto. destruct Hnot as [Hni Hnp]. rewrite !filter_id; [done|by apply Forall_forall; intros j Hj ->..].
  - replace fanout with (fanout + 0) by lia. apply (Hstep s ch c); [done|done|done|exists (pre ++ [i]); by rewrite Hch, <- app_assoc|done|done].
Qed.

(** ** The whole broadcast *)

Lemma count_if_filter {A} (p : A → bool) (l : list A) : count_if p l = Z.of_nat (length (filter (λ x, p x = true) l)).
Proof.
  unfold count_if. induction l as [|x l IH]; [done|]. cbn [foldr]. rewrite filter_cons, IH. destruct (p x); [rewrite decide_True by done|rewrite decide_False by done]; cbn; lia.
Qed.

Lemma count_seq {A} (p : A → bool) (cs : list A) :
  count_if (λ j, match cs !! j with Some x => p x | None => false end) (seq 0 (length cs)) = count_if p cs.
Proof.
  induction cs as [|x cs IH]; [done|]. cbn [length seq]. rewrite <- fmap_S_seq. unfold count_if in *. cbn [foldr]. rewrite <- IH. f_equal.
  generalize (seq 0 (length cs)) as l. induction l as [|j l IHl]; [done|]. rewrite fmap_cons. cbn [foldr lookup list_lookup]. by rewrite IHl.
Qed.

Lemma count_positions {A} (p : A → bool) (cs : list A) l :
  NoDup l → (∀ j x, cs !! j = Some x → p x = true → j ∈ l) →
  count_if (λ j, match cs !! j with Some x => p x | None => false end) l = count_if p cs.
Proof.
  intros Hn Hall. rewrite <- (count_seq p cs), !count_if_filter. f_equal. apply Permutation_length, NoDup_Permutation; [by apply NoDup_filter|apply NoDup_filter, NoDup_seq|].
  intros j. rewrite !list_elem_of_filter. destruct (cs !! j) as [x|] eqn:Ex; [|by split; intros []]. split; intros [Hp Hj]; (split; [done|]).
  - apply elem_of_seq. apply lookup_lt_Some in Ex. lia.
  - by eapply Hall.
Qed.

(** Where the walk starts: at the list with all the order's open slots. *)
Lemma walk_start ch k pl s o (K : Z → ST Server Z) (Q : Z → Server → Prop) :
  server_okc ch k pl s →
  (∀ b l, (ch b = l ∨ l = []) → (∀ j c, conns s !! j = Some c → open c = true → cn_order_id c = o → j ∈ l) → runs (K (first_of l)) s Q) →
  runs (bucket_index ← lift (find_subscription (ix_subscriptions (sv_index s)) o);
        head ← (if bucket_index <? 0 then mret (-1)
                else bucket ← lift (zget (ix_subscriptions (sv_index s)) bucket_index); mret (sb_head bucket)); K head) s Q.
Proof.
  intros Hok HQ. pose proof (so_index _ _ _ _ Hok) as Hix.
  assert (Hmem : ∀ j c, conns s !! j = Some c → open c = true → ∃ b bk, j ∈ ch b ∧ ix_subscriptions (sv_index s) !! b = Some bk ∧ occupied_by (cn_order_id c) bk).
  { intros j c Hc Ho. destruct (so_live _ _ _ _ Hok j c Hc) as [b Hb]; [unfold open in Ho; lia|].
    destruct (ix_member _ _ Hix b j Hb) as (c' & bk & Hc' & Hbk & _ & _ & Hid). assert (c' = c) by (unfold conns in *; congruence). subst c'.
    exists b, bk. split_and!; [done..|]. split; [|done]. apply (ix_chain _ _ Hix b bk Hbk). intros E. rewrite E in Hb. set_solver. }
  destruct (find_subscription_spec _ o (ix_table _ _ Hix)) as [(b & bk & Hbk & Hocc & E)|[Hno E]]; rewrite E; apply runs_bind, (runs_lift _ _ _ _ eq_refl), runs_bind.
  - rewrite (proj2 (Z.ltb_ge _ _)) by lia. apply runs_bind, (runs_lift _ bk); [by rewrite zget_lookup|]. apply runs_ret.
    destruct (ix_chain _ _ Hix b bk Hbk) as [[last Hl] _]. replace (sb_head bk) with (first_of (ch b)).
    + apply (HQ b); [by left|]. intros j c Hc Ho Hid. destruct (Hmem j c Hc Ho) as (b' & bk' & Hj & Hbk' & Hocc'). rewrite Hid in Hocc'.
      by rewrite (tb_unique _ (ix_table _ _ Hix) o b b' bk bk').
    + destruct (ch b); cbn in *; [by destruct Hl|by destruct Hl].
  - change (-1 <? 0) with true. cbv iota. apply runs_ret. apply (HQ O []); [by right|]. intros j c Hc Ho Hid. destruct (Hmem j c Hc Ho) as (b & bk & _ & Hbk & Hocc).
    rewrite Hid in Hocc. by destruct (Hno b bk Hbk).
Qed.

Lemma chain_short ch k pl s b : server_okc ch k pl s → (length (ch b) ≤ length (conns s))%nat.
Proof.
  intros Hok. pose proof (so_index _ _ _ _ Hok) as Hix. 
  rewrite <- (length_seq (length (conns s)) 0). apply submseteq_length, NoDup_submseteq; [apply (ix_nodup _ _ Hix)|]. intros j Hj. apply elem_of_seq.
  destruct (ix_member _ _ Hix b j Hj) as (c & _ & Hc & _). apply lookup_lt_Some in Hc. unfold conns. lia.
Qed.

(** Everybody who subscribes is served. *)
Definition served_all (o : Z) (frame : list Z) s s' : Prop :=
  ∀ j c, conns s !! j = Some c → ∃ c', conns s' !! j = Some c' ∧ if receives o c then delivered frame c c' else unlinked c' = unlinked c.

Lemma broadcast_ok ch k s fill clock completed_ns (Q : unit → Server → Prop) :
  server_okc ch k all s → fill_in_range (pn_event fill) →
  (∀ s' text, read_fill text = Some (pn_event fill) → server_ok k all s' → steady s s' →
     served_all (fe_order_id (pn_event fill)) (server_frame 1 text) s s' →
     sv_counters s' last_fanout_count = count_if (λ c, receives (fe_order_id (pn_event fill)) c && fits (server_frame 1 text) c) (conns s) → Q tt s') →
  runs (broadcast fill clock completed_ns) s Q.
Proof.
  intros Hok Hr HQ. destruct (format_fill_text 256 _ Hr ltac:(lia)) as (text & Hlt & Hread & cur & Ef & (_ & Hoff & _) & Hw).
  set (o := fe_order_id (pn_event fill)) in *. unfold broadcast. apply runs_bind, (runs_lift _ (cur, true)); [done|]. apply runs_bind, runs_get.
  assert (Hnz : negb (cur_offset cur =? 0) = true).
  { apply negb_true_iff, Z.eqb_neq. intros E0. unfold written in Hw. rewrite E0 in Hw. change (take (Z.to_nat 0) (cur_output cur)) with (@nil Z) in Hw. subst text. done. }
  rewrite Hnz. cbn [andb]. apply runs_bind.
  set (frame := server_frame 1 text) in *. set (total := count_if (λ c, receives o c && fits frame c) (conns s)).
  apply (walk_start ch k all); [done|]. intros b l Hl Hcover. rewrite Hw.
  assert (Hpost : ∀ s1 n, server_ok k all s1 → steady s s1 → served o frame l s s1 → n = reached o frame (conns s) l →
    n = total ∧ served_all o frame s s1).
  { intros s1 n _ _ Hs ->. split.
    - unfold total, reached. apply (count_positions (λ c, receives o c && fits frame c)).
      + destruct Hl as [<-| ->]; [apply (ix_nodup _ _ (so_index _ _ _ _ Hok))|constructor].
      + intros j c Hc [Hrec _]%andb_true_iff. unfold receives in Hrec. apply andb_true_iff in Hrec as [[Ho _]%andb_true_iff Hid]. apply (Hcover j c); [done|done|lia].
    - intros j c Hc. destruct (Hs j c Hc) as (c' & Hc' & H). exists c'. split; [done|]. destruct (receives o c) eqn:Hrec; [|by rewrite andb_false_r in H].
      rewrite bool_decide_true in H; [done|]. unfold receives in Hrec. apply andb_true_iff in Hrec as [[Ho _]%andb_true_iff Hid]. apply (Hcover j c); [done|done|lia]. }
  assert (Hlen : (length l ≤ length (conns s) ∧ length (conns s) ≤ 1000)%nat).
  { split; [|apply (ix_slots _ _ (so_index _ _ _ _ Hok))]. destruct Hl as [<-| ->]; [by eapply chain_short|cbn; lia]. }
  assert (∃ pre, ch b = pre ++ l) as [pre Hpre] by (destruct Hl as [<-| ->]; [by exists []|exists (ch b); by rewrite app_nil_r]).
  apply (fan_out_ok _ l ch k s b pre); [done|done|unfold conns in Hlen; lia|lia|lia|lia|]. fold o frame. intros s1 [ch1 Hok1] Hst1 Hs1.
  destruct (Hpost s1 _ ltac:(by exists ch1) Hst1 Hs1 eq_refl) as [Hn Hall]. fold o. rewrite Z.add_0_l, Hn. cbv zeta.
  apply runs_bind. apply (record_ok ch1 k all s1 last_fanout_count total O); [done|done|]. intros s2 Hok2 Hq2 E2 Ec2.
  apply runs_bind. apply (record_ok ch1 k all s2 last_broadcast_latency_ns _ O); [done|done|]. intros s3 Hok3 Hq3 E3 Ec3.
  apply runs_bind, runs_get. cbv zeta. set (latency := if _ <=? _ then _ else _) in *. pose proof (so_samples _ _ _ _ Hok3) as Hsm.
  set (slot := Z.land (sv_counters s3 completed_broadcasts) kLatencySampleMask).
  assert (Hslot : 0 ≤ slot < 1024) by (unfold slot; change kLatencySampleMask with (Z.ones 10); rewrite Z.land_ones by lia; apply Z.mod_pos_bound; lia).
  apply runs_bind, (runs_lift _ (<[Z.to_nat slot := latency]> (sv_samples s3))).
  { replace slot with (Z.of_nat (Z.to_nat slot)) at 1 by lia. apply zset_insert. lia. }
  apply runs_bind, runs_modify. set (s4 := with_counters s3 _ _).
  assert (Hok4 : server_okc ch1 k all s4) by (apply with_counters_ok; [done|apply (so_completed _ _ _ _ Hok3)|by rewrite length_insert]).
  apply (record_ok ch1 k all s4 completed_broadcasts _ O); [done|intros _; apply u64_nonneg|]. intros s5 Hok5 Hq5 E5 Ec5.
  assert (Hc5 : conns s5 = conns s1) by (rewrite E5; change (conns s4) with (conns s3); congruence).
  apply (HQ s5 text Hread); [by exists ch1| | |].
  - etrans; [exact Hst1|]. etrans; [by eapply quiet_steady|]. etrans; [by eapply quiet_steady|]. etrans; [|by eapply quiet_steady]. by split.
  - intros j c Hc. rewrite Hc5. by apply Hall.
  - rewrite Ec5, fn_lookup_insert_ne by done. change (sv_counters s4) with (sv_counters s3). by rewrite Ec3, fn_lookup_insert_ne, Ec2, fn_lookup_insert by done.
Qed.
