(* ===== verification/WsUpgrade.v ===== *)
(** * WsUpgrade: from a handed-over descriptor to an open connection

    [accept_upgrade] either opens a slot, which then has the handshake's answer queued
    first, or closes the descriptor and gives its reservation back; in both cases the
    invariant holds again and the descriptor is accounted for. *)

From S2P Require Import Prelude Arena ArenaLayout Gateway WsText WsAccept WsConn WsSubs WsServer WsInv WsWorker WsBroadcast.
From Stdlib Require Import ZArith Lia String.
From stdpp Require Import base tactics functions gmap numbers option list.
Open Scope Z_scope.

Implicit Types (s : Server) (c : Connection) (i j : nat) (u : Upgrade).

(** ** The answer *)

Lemma fips_sha1_shape m : length (fips_sha1 m) = 20%nat ∧ bytes (fips_sha1 m).
Proof.
  unfold fips_sha1. generalize (foldl fips_compress sha_init (chunks (length (fips_pad m) / 64) (fips_pad m))) as h. intros h. unfold sha_digest. split; [reflexivity|].
  unfold bytes. apply Forall_concat, Forall_fmap, Forall_true. intros w. apply enc_be_bytes.
Qed.

Lemma accept_shape key : length (accept_of key) = 28%nat ∧ Forall (λ b, 0 < b < 256) (accept_of key).
Proof.
  destruct (fips_sha1_shape (key ++ kWebSocketGuid)) as [Hl Hb]. unfold accept_of. set (d := fips_sha1 _) in *. split; [|by apply encode_groups_chars].
  rewrite <- (take_drop 18 d), encode_groups_app by (rewrite length_take; by rewrite Hl). rewrite length_app.
  rewrite (encode_groups_length (take 18 d) 6) by (rewrite length_take; lia).
  pose proof (length_drop d 18) as Hd. rewrite Hl in Hd. by destruct (drop 18 d) as [|x [|y []]].
Qed.

Lemma c_string_text text : Forall (λ b, 0 < b < 256) text → c_string (text ++ [0]) = text.
Proof. induction 1 as [|b text Hb _ IH]; [done|]. cbn. rewrite (proj2 (Z.eqb_neq b 0)) by lia. by rewrite IH. Qed.

(** The request of a queued upgrade, when it is one. *)
Definition answer_of u : option (list Z) :=
  match make_accept (Some (ug_key u)) with Some (Some a) => Some (upgrade_response (c_string a)) | _ => None end.

Lemma make_accept_cases u : upgrade_ok u →
  (make_accept (Some (ug_key u)) = Some None ∧ answer_of u = None) ∨
  ∃ key a, make_accept (Some (ug_key u)) = Some (Some a) ∧ c_string a = accept_of key ∧ answer_of u = Some (upgrade_response (accept_of key)) ∧
    (∃ rest, ug_key u = key ++ 0 :: rest).
Proof.
  intros (_ & Hk & _). unfold answer_of. destruct (decode_key_spec (ug_key u) Hk) as ([out|] & E & Hd).
  - right. destruct (proj1 (Hd out) eq_refl) as (Hl & Hb & rest & Ek). rewrite Ek, make_accept_text by done. do 2 eexists. split; [done|].
    rewrite c_string_text by apply accept_shape. split_and!; [done|done|]. by exists rest.
  - left. unfold make_accept. rewrite E. done.
Qed.

Lemma response_length key : length (upgrade_response (accept_of key)) = 129%nat.
Proof. unfold upgrade_response. rewrite !length_app, (proj1 (accept_shape key)). reflexivity. Qed.

(** ** Giving a reservation back *)

(** The descriptor of [u] has been added to the books, nothing else. *)
Record absorbed (fd : Z) s s' : Prop := mk_absorbed {
  ab_length : length (conns s') = length (conns s);
  ab_queues : sv_upgrades s' = sv_upgrades s ∧ sv_events s' = sv_events s;
  ab_descriptors : descriptors s' ≡ₚ fd :: descriptors s
}.

Lemma absorbed_steady fd s s1 s2 : absorbed fd s s1 → steady s1 s2 → absorbed fd s s2.
Proof. intros [A1 [B1 C1] D1] [A2 [B2 C2] D2]. split; [congruence|split; congruence|by rewrite D2]. Qed.

Lemma ws_active_bound ch k pl s : server_okc ch k pl s → 0 ≤ sv_active s ∧ sv_reserved s ≤ 1000.
Proof.
  intros Hok. rewrite (so_active _ _ _ _ Hok). pose proof (count_if_bounds open (conns s)). destruct (so_capacity _ _ _ _ Hok).
  pose proof (ix_slots _ _ (so_index _ _ _ _ Hok)). unfold conns in *. lia.
Qed.

Lemma close_pending_ok ch k s u (Q : unit → Server → Prop) :
  server_okc ch (k + 1) all s → 0 ≤ k → 0 ≤ ug_fd u →
  (∀ s', server_okc ch k all s' → absorbed (ug_fd u) s s' → conns s' = conns s → Q tt s') → runs (close_pending_upgrade u) s Q.
Proof.
  intros Hok Hk Hfd HQ. pose proof (ws_active_bound _ _ _ _ Hok) as [Ha Hr]. unfold close_pending_upgrade. rewrite (proj2 (Z.leb_le _ _)) by done.
  apply runs_bind, runs_modify, runs_modify. apply HQ; [| |done].
  - destruct Hok as [Hx Hcs Hl Hps Hp Hac Hre [Hk0 Hcap] Hu He Hs Hcm]. split; try done; cbn; unfold u32; rewrite ?Z.mod_small by lia; try lia.
    split; [done|]. change (conns _) with (conns s). lia.
  - split; try done. unfold descriptors. cbn. unfold conns. cbn. solve_Permutation.
Qed.

(** ** Opening a slot *)

(** The slot [accept_upgrade] fills in. *)
Definition fresh_conn u (now : Z) (buffer : list Z) : Connection :=
  let c := set_ping (set_identity Connection_init (ug_fd u) (ug_order_id u)) now now in
  if negb (Z.of_nat (length (ug_pre_read u)) =? 0) then set_read c (Z.of_nat (length (ug_pre_read u))) buffer else c.

Definition opened_state s i c x : Server :=
  with_index (with_slots (with_conn s i c) (sv_active s + 1) (sv_reserved s)) x.

Lemma open_slot ch k s i c0 c :
  server_okc ch (k + 1) all s → 0 ≤ k → conns s !! i = Some c0 → cn_fd c0 < 0 → conn_ok c → 0 ≤ cn_fd c → cn_subscription_bucket c = kNoSubscriptionBucket →
  ∃ x ch' c', subscribe (mkIndex (<[i := c]> (conns s)) (ix_subscriptions (sv_index s))) (Z.of_nat i) = Some (x, true) ∧
    server_okc ch' k (but i) (opened_state s i c x) ∧ absorbed (cn_fd c) s (opened_state s i c x) ∧
    conns (opened_state s i c x) !! i = Some c' ∧ unlinked c' = unlinked c.
Proof.
  intros Hok Hk Hc0 Hneg Hco Hfd Hb. pose proof (slot_lt _ _ _ Hc0) as Hlt. pose proof (so_index _ _ _ _ Hok) as Hix.
  assert (Hfree : ∀ b, i ∉ ch b). { intros b Hi. destruct (ix_member _ _ Hix b i Hi) as (c1 & _ & Hc1 & _ & Hf & _). unfold conns in *. assert (c1 = c0) by congruence. subst. lia. }
  set (x0 := mkIndex (<[i := c]> (conns s)) (ix_subscriptions (sv_index s))).
  assert (Hix0 : index_ok x0 ch) by (apply (index_ok_slot _ _ i c0); [done|done|by right]).
  assert (Hx0i : ix_connections x0 !! i = Some c) by by apply list_lookup_insert_eq.
  destruct (subscribe_ok x0 ch i c Hix0 Hx0i Hfd Hfree) as (x & b & Es & Hx & Hu). set (ch' := <[b := i :: ch b]> ch) in *.
  pose proof (unlinked_length _ _ Hu) as Hlen. cbn [x0 ix_connections] in Hlen, Hu. rewrite length_insert in Hlen.
  set (s2 := opened_state s i c x). assert (Hcs2 : conns s2 = ix_connections x) by done.
  assert (Hother : ∀ j cj, conns s2 !! j = Some cj → j ≠ i → ∃ c1, conns s !! j = Some c1 ∧ unlinked cj = unlinked c1).
  { intros j cj Hj Hji. destruct (unlinked_lookup _ _ _ _ Hu Hj) as (c1 & Hc1 & E). rewrite list_lookup_insert_ne in Hc1 by done. by exists c1. }
  assert (∃ c', conns s2 !! i = Some c' ∧ unlinked c' = unlinked c) as (c' & Hc' & Ec').
  { destruct (lookup_lt_is_Some_2 (conns s2) i) as [c' Hc']; [rewrite Hcs2; lia|]. exists c'. split; [done|].
    destruct (unlinked_lookup _ _ _ _ Hu Hc') as (c1 & Hc1 & E). rewrite list_lookup_insert_eq in Hc1 by done. by apply (inj Some) in Hc1 as <-. }
  assert (Hcount : count_if open (conns s2) = count_if open (conns s) + 1).
  { rewrite Hcs2, (count_unlinked _ _ Hu), (count_if_insert _ _ _ _ _ Hc0). unfold open. rewrite (proj2 (Z.leb_gt _ _)), (proj2 (Z.leb_le _ _)) by lia. lia. }
  exists x, ch', c'. fold s2. split_and!; [done| | |done|done].
  - destruct Hok as [_ Hcs Hl Hps Hp Hac Hre [Hk0 Hcap] Hup He Hs Hcm]. split; try done.
    + intros j cj Hj. destruct (decide (j = i)) as [->|Hji]; [rewrite Hc' in Hj; apply (inj Some) in Hj as <-; by apply (conn_ok_unlinked c)|].
      destruct (Hother j cj Hj Hji) as (c1 & Hc1 & E). apply (conn_ok_unlinked _ _ E). by apply (Hcs j).
    + intros j cj Hj Hf. destruct (decide (j = i)) as [->|Hji]; [exists b; unfold ch'; rewrite fn_lookup_insert; set_solver|].
      destruct (Hother j cj Hj Hji) as (c1 & Hc1 & E). destruct (unlinked_fd _ _ E) as [Ef _]. destruct (Hl j c1 Hc1 ltac:(lia)) as [b' Hb'].
      exists b'. unfold ch'. destruct (decide (b = b')) as [<-|]; [rewrite fn_lookup_insert; set_solver|by rewrite fn_lookup_insert_ne].
    + intros j cj Hj Hji. destruct (Hother j cj Hj Hji) as (c1 & Hc1 & E). rewrite (interest_unlinked _ _ E). by apply Hp.
    + rewrite Hcount. cbn. lia.
    + cbn. lia.
    + rewrite Hcs2, Hlen. cbn. lia.
  - split; try done. unfold descriptors. fold (open_fds (conns s)) (open_fds (conns s2)). rewrite Hcs2, (open_fds_unlinked _ _ Hu).
    change (sv_upgrades s2) with (sv_upgrades s). change (sv_closed s2) with (sv_closed s).
    rewrite <- (open_fds_close (<[i := c]> (conns s)) i c c0); [|done|unfold open; lia|unfold open; lia]. rewrite list_insert_insert_eq, list_insert_id by done. done.
Qed.

(** What waits to be sent in slot [i] starts with [text], or the slot is closed. *)
Lemma accept_upgrade_ok ch k s u env (Q : unit → Server → Prop) :
  server_okc ch (k + 1) all s → 0 ≤ k → upgrade_ok u → Forall recv_ok (ae_recvs env) →
  (∀ s', server_ok k all s' → absorbed (ug_fd u) s s' →
     (ae_nonblocking env = true → ug_pre_read u = [] → ∀ text, answer_of u = Some text →
       ∃ i c', conns s' !! i = Some c' ∧ cn_fd c' = ug_fd u ∧ cn_order_id c' = ug_order_id u ∧ pending c' = text) → Q tt s') →
  runs (accept_upgrade u env) s Q.
Proof.
  intros Hok Hk Hu Hr HQ. pose proof Hu as (Hfd & Hkey & Hpb & Hpl). unfold accept_upgrade. rewrite (proj2 (Z.ltb_ge _ _)) by done.
  apply runs_bind, runs_get. pose proof (ws_active_bound _ _ _ _ Hok) as [Ha0 Hr1]. pose proof (so_reserved _ _ _ _ Hok) as Hres.
  assert (Hgiveback : (ae_nonblocking env = true → ug_pre_read u = [] → answer_of u = None) → runs (close_pending_upgrade u) s Q).
  { intros Hno. apply (close_pending_ok ch k s u); [done..|]. intros s1 Hok1 Hab _. apply HQ; [by exists ch|done|]. intros Hn Hp text E. rewrite Hno in E; done. }
  destruct (first_index _ _) as [i|] eqn:Efi.
  2: { exfalso. apply first_index_None in Efi. assert (Hall : sv_active s = Z.of_nat (length (conns s))).
    { rewrite (so_active _ _ _ _ Hok). apply count_if_full. eapply Forall_impl; [exact Efi|]. intros c Hc%Z.ltb_ge. by apply Z.leb_le. }
    pose proof (so_reserved _ _ _ _ Hok). pose proof (so_capacity _ _ _ _ Hok). lia. }
  apply first_index_Some in Efi as [(c0 & Hc0 & Hneg) _]. fold (conns s) in Hc0. pose proof (slot_lt _ _ _ Hc0) as Hlt.
  destruct (make_accept_cases u Hu) as [[E En]|(key & a & E & Ea & Ean & _)]; apply runs_bind, (runs_lift _ _ _ _ E).
  { apply Hgiveback. done. }
  destruct (ae_nonblocking env) eqn:Enb; cbn [negb]; [|by apply Hgiveback]. cbv zeta.
  set (base := set_ping (set_identity Connection_init (ug_fd u) (ug_order_id u)) (ae_now env) (ae_now env)).
  assert (Hbase : conn_ok base) by (apply set_ping_ok; by destruct conn_ok_init).
  assert (Hput : ∃ buffer, put (cn_read_buffer base) 0 (ug_pre_read u) = Some buffer ∧ length buffer = 2048%nat ∧ bytes buffer).
  { pose proof (co_read _ Hbase). rewrite put_0 by lia. eexists. split; [done|]. split; [rewrite length_app, length_drop; lia|].
    apply Forall_app. split; [done|]. apply Forall_drop, (co_bytes _ Hbase). }
  destruct Hput as (buffer & Eput & Hlb & Hbb). set (c := fresh_conn u (ae_now env) buffer).
  apply runs_bind. assert (Hc : conn_ok c) by (unfold c, fresh_conn; fold base; case_cond; [apply set_read_ok; [done..|lia]|done]).
  assert (Hcfd : cn_fd c = ug_fd u ∧ cn_order_id c = ug_order_id u ∧ cn_subscription_bucket c = kNoSubscriptionBucket ∧ pending c = [] ∧
    cn_read_size c = Z.of_nat (length (ug_pre_read u))).
  { unfold c, fresh_conn. destruct (Z.eqb_spec (Z.of_nat (length (ug_pre_read u))) 0) as [Hz|]; cbn [negb]; [rewrite Hz|]; done. }
  destruct Hcfd as (Hf & Hid & Hbucket & Hpend & Hrs). assert (Hgo : ∀ P : Connection → Server → Prop, P c s →
    runs (if negb (Z.of_nat (length (ug_pre_read u)) =? 0) then buffer ← lift (put (cn_read_buffer base) 0 (ug_pre_read u));
            mret (set_read base (u16 (Z.of_nat (length (ug_pre_read u)))) buffer) else mret base) s P).
  { intros P HP. unfold c, fresh_conn in HP. fold base in HP. destruct (negb _); [|by apply runs_ret].
    apply runs_bind, (runs_lift _ buffer); [done|]. apply runs_ret. unfold u16. rewrite Z.mod_small by lia. done. }
  apply Hgo. clear Hgo. apply runs_bind, runs_set_conn; [done|]. apply runs_bind, runs_modify, runs_bind, runs_get.
  destruct (open_slot ch k s i c0 c) as (x & ch' & c' & Es & Hok2 & Hab & Hi2 & Eu); [done|done|done|lia|done|lia|done|].
  apply runs_bind, (runs_lift _ (x, true)); [exact Es|]. apply runs_bind, runs_modify. cbn [negb].
  replace (with_index _ x) with (opened_state s i c x) by (unfold opened_state, u32; cbn [with_conn with_index sv_active sv_reserved]; rewrite Z.mod_small by lia; done).
  set (s2 := opened_state s i c x) in *. rewrite Hf in Hab. destruct (unlinked_fd _ _ Eu) as [Ef' Eo'].
  rewrite Ea. set (response := upgrade_response (accept_of key)) in *. pose proof (response_length key) as Hrl. fold response in Hrl. rewrite Hrl.
  change (192 <=? Z.of_nat 129) with false. cbv iota. apply runs_bind. apply (queue_bytes_ok ch' k s2 i c'); [done|done|by destruct response| |].
  { rewrite (pending_unlinked _ _ Eu), Hpend. cbn [length]. lia. }
  intros s3 c3 Hm Hw Hp Hc3. pose proof (moved_conn _ _ _ _ _ _ _ Hi2 Hm) as Hi3. destruct Hm as (Hok3 & Hq3 & _ & _).
  cbn [negb]. apply runs_bind, (runs_conn i c3); [done|]. rewrite (pending_unlinked _ _ Eu), Hpend in Hp.
  pose proof (same_but_write_core _ _ Hw) as Hcore. pose proof (f_equal cn_order_id Hw) as Eoid. cbn in Eoid.
  assert (Hab3 : absorbed (ug_fd u) s s3) by (eapply absorbed_steady; [exact Hab|by eapply quiet_steady]).
  assert (Hr3 : cn_read_size c3 = Z.of_nat (length (ug_pre_read u))).
  { rewrite <- Hrs. pose proof (f_equal cn_read_size Hw) as E1. pose proof (f_equal cn_read_size Eu) as E2. cbn in E1, E2. congruence. }
  rewrite Hr3. destruct (Z.eqb_spec (Z.of_nat (length (ug_pre_read u))) 0) as [Hz|Hz]; cbn [negb].
  - apply runs_ret, HQ; [by exists ch'|done|]. intros _ _ text Et. exists i, c3. split_and!; [done|rewrite (core_fd _ _ Hcore); congruence|congruence|].
    rewrite Ean in Et. by apply (inj Some) in Et as <-.
  - apply runs_bind. apply (receive_ok ch' k s3 i c3); [done|done|rewrite (core_fd _ _ Hcore); lia|done|]. intros b s4 c4 (Hok4 & Hq4 & _). apply runs_ret, HQ; [done| |].
    + eapply absorbed_steady; [exact Hab3|by eapply quiet_steady].
    + intros _ Hnil. rewrite Hnil in Hz. done.
Qed.
