(* ===== verification/WsRun.v ===== *)
(** * WsRun: whole runs of the WebSocket server

    Any sequence of producer calls and worker turns from a started server stays
    inside the model (no access outside a buffer, no exhausted fuel), keeps the
    invariant, and accounts for every descriptor handed over: after [stop] each one
    has been closed exactly once. *)

From S2P Require Import Prelude Arena ArenaLayout Gateway WsText WsAccept WsConn WsSubs WsServer WsInv WsWorker WsBroadcast WsUpgrade.
From Stdlib Require Import ZArith Lia String.
From stdpp Require Import base tactics functions gmap numbers option list.
Open Scope Z_scope.

Implicit Types (s : Server) (c : Connection) (i j : nat) (u : Upgrade).

(** The slots stay, and [fds] were added to the books. *)
Definition kept (fds : list Z) s s' : Prop := length (conns s') = length (conns s) ∧ descriptors s' ≡ₚ fds ++ descriptors s.

Lemma kept_refl s : kept [] s s.
Proof. by split. Qed.

Lemma kept_trans f g s1 s2 s3 : kept f s1 s2 → kept g s2 s3 → kept (g ++ f) s1 s3.
Proof. intros [L1 D1] [L2 D2]. split; [congruence|]. by rewrite D2, D1, app_assoc. Qed.

Lemma kept_trans0 s1 s2 s3 : kept [] s1 s2 → kept [] s2 s3 → kept [] s1 s3.
Proof. apply kept_trans. Qed.

Lemma steady_kept s s' : steady s s' → kept [] s s'.
Proof. intros [L _ D]. by split. Qed.

Lemma worked_kept k i s s' c : worked k i s s' c → server_ok k all s' ∧ kept [] s s'.
Proof. intros (H & Hq & _). split; [done|]. by eapply steady_kept, quiet_steady. Qed.

(** ** The queues *)

Lemma with_events_ok ch k pl s e : server_okc ch k pl s → Forall (λ p, fill_in_range (pn_event p)) e → server_okc ch k pl (with_queues s (sv_upgrades s) e).
Proof. intros [] He. by split. Qed.

Lemma with_times_ok ch k pl s a b : server_okc ch k pl s → server_okc ch k pl (with_times s a b).
Proof. intros []. by split. Qed.

Lemma drain_fills_ok n k0 ch s env (Q : nat → Server → Prop) :
  server_okc ch 0 all s → (∀ m s', server_ok 0 all s' → kept [] s s' → Q m s') → runs (drain_fills n k0 env) s Q.
Proof.
  revert k0 ch s Q. induction n as [|n IH]; intros k0 ch s Q Hok HQ; cbn [drain_fills]; [apply runs_ret, HQ; [by exists ch|apply kept_refl]|].
  apply runs_bind, runs_get. destruct (sv_events s) as [|fill rest] eqn:Ee; [apply runs_ret, HQ; [by exists ch|apply kept_refl]|].
  pose proof (so_events _ _ _ _ Hok) as He. rewrite Ee in He. apply Forall_cons in He as [Hf Hrest].
  apply runs_bind, runs_modify, runs_bind. apply (broadcast_ok ch 0); [by apply with_events_ok|done|]. intros s1 text _ [ch1 Hok1] Hst _ _.
  apply (IH _ ch1 s1); [done|]. intros m s2 Hok2 Hk. apply HQ; [done|]. eapply kept_trans0; [|exact Hk]. by apply steady_kept in Hst.
Qed.

Definition accept_env_ok (e : AcceptEnv) : Prop := Forall recv_ok (ae_recvs e).

Lemma drain_upgrades_ok n k0 ch s env (Q : unit → Server → Prop) :
  server_okc ch 0 all s → (∀ m, accept_env_ok (te_accept env m)) → (∀ s', server_ok 0 all s' → kept [] s s' → Q tt s') →
  runs (drain_upgrades n k0 env) s Q.
Proof.
  revert k0 ch s Q. induction n as [|n IH]; intros k0 ch s Q Hok Henv HQ; cbn [drain_upgrades]; [apply runs_ret, HQ; [by exists ch|apply kept_refl]|].
  apply runs_bind, runs_get. destruct (sv_upgrades s) as [|u rest] eqn:Eu; [apply runs_ret, HQ; [by exists ch|apply kept_refl]|].
  assert (Hok1 : upgrade_ok u ∧ server_okc ch (0 + 1) all (with_queues s rest (sv_events s))).
  { destruct Hok as [Hx Hcs Hl Hps Hp Hac Hre [Hk0 Hcap] Hu He Hs Hcm]. rewrite Eu in Hu, Hre. apply Forall_cons in Hu as [Hu Hrest]. split; [done|].
    split; try done. cbn [with_queues sv_reserved sv_active sv_upgrades]. cbn [length] in Hre. lia. }
  destruct Hok1 as [Hu Hok1]. apply runs_bind, runs_modify, runs_bind. apply (accept_upgrade_ok ch 0 _ u); [done|lia|done|apply Henv|].
  intros s2 [ch2 Hok2] [Hl _ Hd] _. apply (IH _ ch2 s2); [done|done|]. intros s3 Hok3 Hk. apply HQ; [done|]. eapply kept_trans0; [|exact Hk].
  split; [done|]. rewrite Hd. unfold descriptors. rewrite Eu. cbn. solve_Permutation.
Qed.

(** ** All the slots *)

Lemma each_slot_ok n a ch s f (Q : unit → Server → Prop) :
  server_okc ch 0 all s → (a + n ≤ length (conns s))%nat →
  (∀ i c ch1 s1 (P : unit → Server → Prop), server_okc ch1 0 all s1 → conns s1 !! i = Some c →
     (∀ s2 c2, worked 0 i s1 s2 c2 → P tt s2) → runs (f (Z.of_nat i)) s1 P) →
  (∀ s', server_ok 0 all s' → kept [] s s' → Q tt s') → runs (each_slot n (Z.of_nat a) f) s Q.
Proof.
  intros Hok Hlen Hf. revert a ch s Q Hok Hlen. induction n as [|n IH]; intros a ch s Q Hok Hlen HQ; cbn [each_slot]; [apply runs_ret, HQ; [by exists ch|apply kept_refl]|].
  destruct (lookup_lt_is_Some_2 (conns s) a) as [c Hc]; [lia|]. apply runs_bind. apply (Hf a c ch); [done..|]. intros s1 c1 Hw. apply worked_kept in Hw as [[ch1 Hok1] Hk].
  replace (Z.of_nat a + 1) with (Z.of_nat (S a)) by lia. apply (IH _ ch1 s1); [done|destruct Hk; lia|]. intros s2 Hok2 Hk2. apply HQ; [done|by eapply kept_trans0].
Qed.

Lemma for_slots_ok ch s f (Q : unit → Server → Prop) :
  server_okc ch 0 all s →
  (∀ i c ch1 s1 (P : unit → Server → Prop), server_okc ch1 0 all s1 → conns s1 !! i = Some c →
     (∀ s2 c2, worked 0 i s1 s2 c2 → P tt s2) → runs (f (Z.of_nat i)) s1 P) →
  (∀ s', server_ok 0 all s' → kept [] s s' → Q tt s') → runs (for_slots f) s Q.
Proof. intros Hok Hf HQ. unfold for_slots. apply runs_bind, runs_get. by apply (each_slot_ok _ O ch). Qed.

(** ** One turn *)

Record turn_env_ok (env : TurnEnv) : Prop := mk_turn_env_ok {
  tv_accept : ∀ m, accept_env_ok (te_accept env m);
  tv_recvs : ∀ slot, Forall recv_ok (te_recvs env slot)
}.

Lemma runs_if {A} (b : bool) (m1 m2 : ST Server A) s Q : (b = true → runs m1 s Q) → (b = false → runs m2 s Q) → runs (if b then m1 else m2) s Q.
Proof. destruct b; auto. Qed.

Lemma turn_ok ch s env (Q : Z → Server → Prop) :
  server_okc ch 0 all s → turn_env_ok env → (∀ t s', server_ok 0 all s' → kept [] s s' → Q t s') → runs (turn env) s Q.
Proof.
  intros Hok [Hacc Hrecv] HQ. unfold turn. apply runs_bind. apply (drain_fills_ok _ _ ch); [done|]. intros fills s1 [ch1 Hok1] Hk1. apply runs_bind.
  assert (Hnext : ∀ s2, server_ok 0 all s2 → kept [] s s2 → runs (drain_upgrades kMaxUpgradesPerTurn 0 env) s2 (λ _ s3, server_ok 0 all s3 ∧ kept [] s s3)).
  { intros s2 [ch2 Hok2] Hk2. apply (drain_upgrades_ok _ _ ch2); [done|done|]. intros s3 Hok3 Hk3. split; [done|by eapply kept_trans0]. }
  eapply (runs_mono _ _ (λ _ s2, server_ok 0 all s2 ∧ kept [] s s2)).
  { apply runs_if; intros _; [apply runs_modify|apply runs_ret]; (split; [exists ch1|done]); [by apply with_times_ok|done]. }
  intros [] s2 [Hok2 Hk2]. apply runs_bind. eapply runs_mono; [by apply Hnext|]. intros [] s3 [[ch3 Hok3] Hk3]. cbv beta. apply runs_bind, runs_get. cbv zeta. apply runs_bind.
  eapply (runs_mono _ _ (λ _ s4, server_ok 0 all s4 ∧ kept [] s s4)).
  { apply runs_if; intros _; [|apply runs_ret; split; [by exists ch3|done]]. apply runs_bind. apply (for_slots_ok ch3); [done| |].
    - intros i c ch4 s4 P Hok4 Hi HP. by apply (service_keepalive_ok ch4 0 s4 i c).
    - intros s4 [ch4 Hok4] Hk4. apply runs_modify. split; [exists ch4; by apply with_times_ok|]. by eapply (kept_trans0 _ s3). }
  intros [] s4 [[ch4 Hok4] Hk4]. apply runs_bind, runs_get. apply runs_bind. eapply (runs_mono _ _ (λ _ s5, server_ok 0 all s5 ∧ kept [] s s5)).
  { apply runs_if; intros _; [|apply runs_ret; split; [by exists ch4|done]]. apply runs_if; intros _; [apply runs_ret; split; [by exists ch4|done]|].
    apply (for_slots_ok ch4); [done| |].
    - intros i c ch5 s5 P Hok5 Hi HP. by apply (service_io_ok ch5 0 s5 i c).
    - intros s5 Hok5 Hk5. split; [done|]. by eapply (kept_trans0 _ s4). }
  intros [] s5 [Hok5 Hk5]. by apply runs_ret, HQ.
Qed.

(** ** The producers *)

Definition handed (fd : Z) : list Z := if fd <? 0 then [] else [fd].

Lemma close_fd_ok ch k s fd (Q : unit → Server → Prop) :
  server_okc ch k all s → (∀ s', server_okc ch k all s' → kept [fd] s s' → Q tt s') → runs (close_fd fd) s Q.
Proof.
  intros Hok HQ. apply runs_modify, HQ; [by destruct Hok|]. split; [done|]. unfold descriptors. cbn. unfold conns. cbn. solve_Permutation.
Qed.

Lemma enqueue_upgrade_ok ch s fd oid key pre leased (Q : UpgradeResult → Server → Prop) :
  server_okc ch 0 all s → (∀ bytes, key = Some bytes → key_readable bytes) → bytes pre →
  (∀ r s', server_ok 0 all s' → kept (handed fd) s s' → Q r s') → runs (enqueue_upgrade fd oid key pre leased) s Q.
Proof.
  intros Hok Hkey Hpre HQ. unfold enqueue_upgrade, handed in *. destruct (Z.ltb_spec fd 0); [apply runs_ret, HQ; [by exists ch|apply kept_refl]|].
  assert (Hreject : ∀ r, runs (close_fd fd;; mret r) s Q).
  { intros r. apply runs_bind. apply (close_fd_ok ch 0); [done|]. intros s1 Hok1 Hk. apply runs_ret, HQ; [by exists ch|done]. }
  destruct key as [key|]; [|apply runs_bind, (runs_lift _ None); [done|apply Hreject]].
  destruct (decode_key_spec key (Hkey _ eq_refl)) as (r & E & Hd). apply runs_bind, (runs_lift _ r); [done|].
  destruct r as [out|]; [|apply Hreject]. destruct (proj1 (Hd out) eq_refl) as (Hl & Hb & rest & Ek).
  unfold kMaxUpgradePreReadBytes. destruct (Z.ltb_spec 2048 (Z.of_nat (length pre))); [apply Hreject|]. destruct leased; cbn [negb]; [|apply Hreject].
  apply runs_bind, runs_get. destruct (Z.leb_spec (max_connections s) (sv_reserved s)) as [|Hroom]; [apply Hreject|].
  unfold max_connections in Hroom. fold (conns s) in Hroom. pose proof (ws_active_bound _ _ _ _ Hok) as [Ha Hr]. pose proof (so_reserved _ _ _ _ Hok) as Hres.
  apply runs_bind, runs_modify. apply runs_bind, (runs_lift _ (encode_groups out)).
  { rewrite Ek. cbn [mbind option_bind]. pose proof (encode_key_length out Hl) as Hel. unfold kWebSocketKeyBytes. rewrite slice_drop by (rewrite ?length_app, ?Hel; cbn; lia).
    f_equal. apply take_app_length'. by rewrite Hel. }
  unfold kUpgradeQueueCapacity. rewrite (proj2 (Z.ltb_lt _ _)) by lia. apply runs_bind, runs_modify. apply runs_ret, HQ.
  - exists ch. destruct Hok as [Hx Hcs Hlv Hps Hp Hac Hre [Hk0 Hcap] Hu He Hs Hcm].
    split; try done; cbn [with_queues with_slots sv_reserved sv_active sv_upgrades]; unfold u32; rewrite ?Z.mod_small by lia.
    + rewrite length_app. cbn. lia.
    + split; [done|]. change (conns _) with (conns s). lia.
    + apply Forall_app. split; [done|]. apply Forall_singleton. split_and!; [done| |done|done]. left. cbn. apply elem_of_app. right. set_solver.
  - split; [done|]. unfold descriptors. cbn [with_queues with_slots sv_upgrades sv_closed]. change (conns (with_queues _ _ _)) with (conns s).
    rewrite fmap_app. cbn. solve_Permutation.
Qed.

Lemma publish_ok ch s event ns leased (Q : bool → Server → Prop) :
  server_okc ch 0 all s → fill_in_range event → (∀ r s', server_ok 0 all s' → kept [] s s' → Q r s') → runs (publish event ns leased) s Q.
Proof.
  intros Hok He HQ. unfold publish. destruct leased; cbn [negb]; [|apply runs_ret, HQ; [by exists ch|apply kept_refl]]. apply runs_bind, runs_get. case_cond.
  - apply runs_bind, runs_modify, runs_ret, HQ; [|by split]. exists ch. apply with_events_ok; [done|]. apply Forall_app. split; [apply (so_events _ _ _ _ Hok)|by apply Forall_singleton].
  - apply runs_bind. apply (count_ok ch 0 all s dropped_events O); [done|]. intros s1 Hok1 Hq _ _. apply runs_ret, HQ; [by exists ch|]. by eapply steady_kept, quiet_steady.
Qed.

(** ** Schedules *)

Inductive Call :=
  | Enqueue (fd order_id : Z) (key : option (list Z)) (pre_read : list Z) (leased : bool)
  | Publish (event : FillEvent) (published_ns : Z) (leased : bool)
  | Turn (env : TurnEnv).

Definition perform (call : Call) : ST Server unit :=
  match call with
  | Enqueue fd order_id key pre_read leased => enqueue_upgrade fd order_id key pre_read leased;; mret tt
  | Publish event ns leased => publish event ns leased;; mret tt
  | Turn env => turn env;; mret tt
  end.

Fixpoint schedule_run (calls : list Call) : ST Server unit :=
  match calls with [] => mret tt | call :: calls' => perform call;; schedule_run calls' end.

(** The callers' side: a readable key, fields of their C++ types; bytes from the sockets. *)
Definition call_ok (call : Call) : Prop :=
  match call with
  | Enqueue _ _ key pre_read _ => (∀ k, key = Some k → key_readable k) ∧ bytes pre_read
  | Publish event _ _ => fill_in_range event
  | Turn env => turn_env_ok env
  end.

(** The descriptors a schedule hands over. *)
Definition handed_over (calls : list Call) : list Z :=
  calls ≫= λ call, match call with Enqueue fd _ _ _ _ => handed fd | _ => [] end.

Lemma perform_ok ch s call (Q : unit → Server → Prop) :
  server_okc ch 0 all s → call_ok call → (∀ s', server_ok 0 all s' → kept (handed_over [call]) s s' → Q tt s') → runs (perform call) s Q.
Proof.
  intros Hok Hc HQ. destruct call as [fd oid key pre leased|event ns leased|env]; cbn [perform handed_over mbind list_bind] in *; apply runs_bind.
  - destruct Hc as [Hkey Hpre]. apply (enqueue_upgrade_ok ch); [done..|]. intros r s1 Hok1 Hk. apply runs_ret, HQ; [done|]. cbn. by rewrite app_nil_r.
  - apply (publish_ok ch); [done..|]. intros r s1 Hok1 Hk. by apply runs_ret, HQ.
  - apply (turn_ok ch); [done..|]. intros r s1 Hok1 Hk. by apply runs_ret, HQ.
Qed.

Lemma schedule_run_ok ch s calls (Q : unit → Server → Prop) :
  server_okc ch 0 all s → Forall call_ok calls → (∀ s', server_ok 0 all s' → kept (handed_over calls) s s' → Q tt s') → runs (schedule_run calls) s Q.
Proof.
  intros Hok Hc. revert ch s Q Hok. induction Hc as [|call calls Hc _ IH]; intros ch s Q Hok HQ; cbn [schedule_run]; [apply runs_ret, HQ; [by exists ch|apply kept_refl]|].
  apply runs_bind. apply (perform_ok ch); [done..|]. intros s1 [ch1 Hok1] Hk. apply (IH ch1); [done|]. intros s2 Hok2 Hk2. apply HQ; [done|].
  destruct (kept_trans _ _ _ _ _ Hk Hk2) as [Hl Hd]. split; [done|]. rewrite Hd. cbn. rewrite app_nil_r. solve_Permutation.
Qed.

(** The state a successful [start] leaves. *)
Definition started (n : nat) (now ping_interval pong_timeout wake_fd : Z) : Server :=
  mkServer (mkIndex (replicate n Connection_init) reset_subscriptions)
    (mkPoll wake_fd POLLIN :: replicate (Z.to_nat kMaxConnections) (mkPoll (-1) 0)) 0 0 (λ _, 0)
    (replicate (Z.to_nat kLatencySampleCapacity) 0) [] [] (u64 (now + kMaintenanceIntervalNs)) 0 ping_interval pong_timeout [].

(** Storage for [n] slots, a pipe and a thread. *)
Record start_env_ok (slot_bytes : Z) (n : Z) (env : StartEnv) : Prop := mk_start_env_ok {
  sx_slots : 0 < n ≤ 1000;
  sx_bytes : 0 < slot_bytes;
  sx_storage : ∃ size, se_storage env = Some size ∧ slot_bytes * n ≤ size;
  sx_aligned : se_aligned env = true;
  sx_wake : is_Some (se_wake env);
  sx_thread : se_thread env = true
}.

Lemma start_ok slot_bytes n env ping pong :
  start_env_ok slot_bytes n env → ∃ wake, start slot_bytes n false env (Server_new ping pong) = Some (true, started (Z.to_nat n) (se_now env) ping pong wake).
Proof.
  intros [Hn Hb (size & Hs & Hle) Ha [wake Hw] Ht]. exists wake. unfold start. rewrite Hs, Ha, Hw, Ht. unfold connection_pool_storage_bytes, kMaxConnections.
  change kWebSocketConnections with 1000. rewrite (proj2 (Z.leb_le n 1000)) by lia. rewrite (proj2 (Z.eqb_neq _ _)), (proj2 (Z.ltb_ge _ _)) by nia. done.
Qed.

Lemma started_ok n now ping pong wake :
  (n ≤ 1000)%nat → server_okc (λ _, []) 0 all (started n now ping pong wake).
Proof.
  intros Hn. assert (Hopen : ∀ m, count_if open (replicate m Connection_init) = 0) by (induction m as [|m IH]; [done|]; unfold count_if in *; by cbn; rewrite IH).
  split; try done.
  - by apply index_ok_start.
  - intros i c Hc. unfold conns in Hc. cbn in Hc. apply lookup_replicate in Hc as [-> _]. apply conn_ok_init.
  - intros i c Hc Hf. unfold conns in Hc. cbn in Hc. apply lookup_replicate in Hc as [-> _]. by cbn in Hf.
  - intros i c Hc _. unfold conns in Hc. cbn [started sv_index ix_connections] in Hc. apply lookup_replicate in Hc as [-> Hi].
    cbn [started sv_poll_fds]. rewrite <- (app_nil_l (replicate _ _)). change (mkPoll wake POLLIN :: [] ++ ?l) with (mkPoll wake POLLIN :: l). cbn [lookup list_lookup].
    apply lookup_replicate. split; [done|]. change (Z.to_nat kMaxConnections) with 1000%nat. lia.
  - change (0 = count_if open (replicate n Connection_init)). by rewrite Hopen.
  - split; [done|]. cbn. lia.
Qed.

Lemma started_descriptors n now ping pong wake : descriptors (started n now ping pong wake) = [].
Proof. unfold descriptors, conns. cbn. rewrite app_nil_r. induction n as [|n IH]; [done|]. cbn [replicate]. by rewrite filter_cons_False. Qed.

(** ** Stopping *)

Lemma close_slots_ok n a ch s (Q : unit → Server → Prop) :
  server_okc ch 0 all s → (a + n = length (conns s))%nat → (∀ j c, (j < a)%nat → conns s !! j = Some c → cn_fd c < 0) →
  (∀ s', server_ok 0 all s' → kept [] s s' → (∀ j c, conns s' !! j = Some c → cn_fd c < 0) → Q tt s') → runs (each_slot n (Z.of_nat a) close) s Q.
Proof.
  revert a ch s Q. induction n as [|n IH]; intros a ch s Q Hok Hlen Hdone HQ; cbn [each_slot].
  { apply runs_ret, HQ; [by exists ch|apply kept_refl|]. intros j c Hc. apply (Hdone j c); [|done]. apply slot_lt in Hc. lia. }
  destruct (lookup_lt_is_Some_2 (conns s) a) as [c Hc]; [lia|]. apply runs_bind. replace (Z.of_nat a + 1) with (Z.of_nat (S a)) by lia.
  destruct (decide (cn_fd c < 0)) as [Hneg|Hneg].
  - unfold close. apply runs_bind, (runs_conn a c); [done|]. rewrite (proj2 (Z.ltb_lt _ _)) by done. apply runs_ret.
    apply (IH _ ch); [done|lia| |done]. intros j cj Hj Hcj. destruct (decide (j = a)) as [->|]; [congruence|]. apply (Hdone j cj); [lia|done].
  - apply (close_all ch 0 s a c); [by apply okc_but|done|lia|]. intros s1 ch1 Hok1 Hq1 Hi1 _ _. apply (IH _ ch1); [done|rewrite (qu_length _ _ _ Hq1); lia| |].
    + intros j cj Hj Hcj. destruct (decide (j = a)) as [->|Hja]; [rewrite Hi1 in Hcj; by apply (inj Some) in Hcj as <-|].
      destruct (unlinked_some _ _ cj (eq_sym (qu_others _ _ _ Hq1 j Hja)) Hcj) as (c0 & Hc0 & E). destruct (unlinked_fd _ _ E) as [Ef _].
      rewrite <- Ef. apply (Hdone j c0); [lia|done].
    + intros s2 Hok2 Hk2. apply HQ; [done|]. eapply kept_trans0; [|exact Hk2]. by eapply steady_kept, quiet_steady.
Qed.

Lemma close_upgrades_ok us s (Q : unit → Server → Prop) :
  Forall upgrade_ok us → (∀ s', sv_closed s' = sv_closed s ++ (ug_fd <$> us) → Q tt s') → runs (close_upgrades us) s Q.
Proof.
  intros Hu. revert s Q. induction Hu as [|u us (Hfd & _) _ IH]; intros s Q HQ; cbn [close_upgrades]; [apply runs_ret, HQ; by rewrite app_nil_r|].
  apply runs_bind. unfold close_pending_upgrade. rewrite (proj2 (Z.leb_le _ _)) by done. apply runs_bind, runs_modify, runs_modify. apply IH. intros s' E.
  apply HQ. rewrite E. cbn. by rewrite <- app_assoc.
Qed.

Lemma open_fds_none (cs : list Connection) : (∀ j c, cs !! j = Some c → cn_fd c < 0) → open_fds cs = [].
Proof.
  intros H. unfold open_fds. induction cs as [|c cs IH]; [done|]. rewrite filter_cons_False.
  - apply IH. intros j c' Hc'. by apply (H (S j)).
  - pose proof (H O c eq_refl). unfold open. lia.
Qed.

Lemma stop_ok ch s (Q : unit → Server → Prop) :
  server_okc ch 0 all s →
  (∀ s', sv_closed s' ≡ₚ descriptors s → conns s' = [] → sv_upgrades s' = [] → sv_events s' = [] → sv_active s' = 0 → sv_reserved s' = 0 → Q tt s') →
  runs stop s Q.
Proof.
  intros Hok HQ. unfold stop, for_slots. apply runs_bind, runs_bind, runs_get. change 0 with (Z.of_nat 0) at 1.
  apply (close_slots_ok _ O ch); [done|done|lia|]. intros s1 [ch1 Hok1] [_ Hd1] Hclosed. unfold drop_pending. apply runs_bind, runs_bind, runs_get, runs_bind, runs_modify.
  apply close_upgrades_ok; [apply (so_upgrades _ _ _ _ Hok1)|]. intros s2 E2. apply runs_modify, HQ; try done. cbn. rewrite E2.
  rewrite <- Hd1. unfold descriptors. fold (open_fds (conns s1)). rewrite open_fds_none by done. cbn. apply Permutation_app_comm.
Qed.

(** ** The claims *)

(** A server of [n] slots is started and used. *)
Definition session (slot_bytes n : Z) (env : StartEnv) (calls : list Call) : ST Server unit :=
  ok ← start slot_bytes n false env; if ok : bool then schedule_run calls else λ _, None.

Lemma session_ok slot_bytes n env ping pong calls :
  start_env_ok slot_bytes n env → Forall call_ok calls →
  ∃ s, session slot_bytes n env calls (Server_new ping pong) = Some (tt, s) ∧ server_ok 0 all s ∧
    Z.of_nat (length (conns s)) = n ∧ descriptors s ≡ₚ handed_over calls.
Proof.
  intros He Hc. destruct (start_ok slot_bytes n env ping pong He) as (wake & E). pose proof (sx_slots _ _ _ He) as Hn.
  destruct (schedule_run_ok _ _ calls (λ _ s', server_ok 0 all s' ∧ kept (handed_over calls) (started (Z.to_nat n) (se_now env) ping pong wake) s')
    (started_ok (Z.to_nat n) (se_now env) ping pong wake ltac:(lia)) Hc) as ([] & s & Es & Hok & Hl & Hd); [done|].
  exists s. split_and!; [|done| |].
  - unfold session, mbind, st_bind. by rewrite E.
  - rewrite Hl. unfold conns. cbn [started sv_index ix_connections]. rewrite length_replicate. lia.
  - by rewrite Hd, started_descriptors, app_nil_r.
Qed.

(** C6 (safety): the WebSocket server survives every client.  From a server started
    with up to 1,000 slots, any sequence of [enqueue_upgrade] and [publish] calls and
    worker turns, whatever bytes the clients send and whatever the system calls
    return, runs to the end: no buffer is read or written out of bounds and no loop
    exhausts its bound.  Afterwards every slot's buffers are consistent, the number
    of active connections is the number of open slots, at most as many connections
    are admitted as there are slots, and every open slot is polled for input. *)
Theorem websocket_survives_every_client slot_bytes n env ping pong calls :
  start_env_ok slot_bytes n env → Forall call_ok calls →
  ∃ s, session slot_bytes n env calls (Server_new ping pong) = Some (tt, s) ∧
    (∀ i c, conns s !! i = Some c → conn_ok c ∧ sv_poll_fds s !! S i = Some (interest c)) ∧
    sv_active s = count_if open (conns s) ∧ sv_reserved s = sv_active s + Z.of_nat (length (sv_upgrades s)) ∧ sv_reserved s ≤ n.
Proof.
  intros He Hc. destruct (session_ok slot_bytes n env ping pong calls He Hc) as (s & E & [ch Hok] & Hl & _). exists s. split; [done|]. split_and!.
  - intros i c Hi. split; [by apply (so_conns _ _ _ _ Hok i)|by apply (so_poll _ _ _ _ Hok)].
  - apply (so_active _ _ _ _ Hok).
  - rewrite (so_reserved _ _ _ _ Hok). lia.
  - rewrite <- Hl. apply (so_capacity _ _ _ _ Hok).
Qed.

(** C7 (safety): no descriptor leaks and none is closed twice.  After any such
    session and [stop], the descriptors given to close(2) are exactly those that
    [enqueue_upgrade] was handed, each as often as it was handed over, and the slots,
    the queues and both counts are empty. *)
Theorem websocket_closes_each_descriptor_once slot_bytes n env ping pong calls :
  start_env_ok slot_bytes n env → Forall call_ok calls →
  ∃ s, (session slot_bytes n env calls;; stop) (Server_new ping pong) = Some (tt, s) ∧
    sv_closed s ≡ₚ handed_over calls ∧ conns s = [] ∧ sv_upgrades s = [] ∧ sv_events s = [] ∧ sv_active s = 0 ∧ sv_reserved s = 0.
Proof.
  intros He Hc. destruct (session_ok slot_bytes n env ping pong calls He Hc) as (s & E & [ch Hok] & _ & Hd).
  destruct (stop_ok ch s (λ _ s', sv_closed s' ≡ₚ handed_over calls ∧ conns s' = [] ∧ sv_upgrades s' = [] ∧ sv_events s' = [] ∧ sv_active s' = 0 ∧ sv_reserved s' = 0) Hok)
    as ([] & s' & E' & H).
  - intros s' Hcl **. split_and!; try done. by rewrite Hcl.
  - exists s'. split; [|done]. unfold mbind, st_bind. by rewrite E.
Qed.
