(* ===== verification/WsClaims.v ===== *)
(** * WsClaims: frames, fills and upgrades on the states the server reaches

    The per-operation lemmas of WsWorker, WsBroadcast and WsUpgrade, stated for the
    states that whole runs (WsRun) reach, with a run that exercises them. *)

From S2P Require Import Prelude Arena ArenaLayout Gateway WsText WsAccept WsConn WsSubs WsServer WsInv WsWorker WsBroadcast WsUpgrade WsRun.
From Stdlib Require Import ZArith Lia String.
From stdpp Require Import base tactics functions gmap numbers option list.
Open Scope Z_scope.

(** A server that has been started and has performed some calls. *)
Definition reaches (n : Z) (calls : list Call) (s : Server) : Prop :=
  Forall call_ok calls ∧ ∃ slot_bytes env ping pong, start_env_ok slot_bytes n env ∧ session slot_bytes n env calls (Server_new ping pong) = Some (tt, s).

Lemma reaches_ok n calls s : reaches n calls s → server_ok 0 all s.
Proof.
  intros (Hc & bytes & env & ping & pong & He & E). destruct (session_ok bytes n env ping pong calls He Hc) as (s' & E' & H & _).
  rewrite E in E'. apply (inj Some) in E'. apply (f_equal snd) in E'. cbn in E'. by subst s'.
Qed.

(** ** A run *)

(** A client of order 42 sends a close frame and, behind it, a ping. *)
Definition demo_close : ClientFrame := mkFrame true 8 [1; 2; 3; 4] [3; 232].
Definition demo_ping : ClientFrame := mkFrame true 9 [9; 8; 7; 6] (str "hi").
Definition demo_key : list Z := str "dGhlIHNhbXBsZSBub25jZQ==" ++ [0].
Definition demo_accept : AcceptEnv := mkAccept true 5 6 [].
Definition demo_env : TurnEnv := mkTurn (λ _ _, 0) (λ _, 0) 0 (λ _, demo_accept) 10 0 0 11 (λ _, 0) (λ _, []) (λ _, SendWouldBlock).
Definition demo_calls : list Call :=
  [Enqueue 7 42 (Some demo_key) [] true; Enqueue 8 42 (Some demo_key) (client_bytes demo_close ++ client_bytes demo_ping) true; Turn demo_env].
Definition demo_start : StartEnv := mkStart (Some 30720) true (Some 9) true 1.
Definition demo_state : Server :=
  match session 10240 3 demo_start demo_calls (Server_new 0 0) with Some (_, s) => s | None => Server_new 0 0 end.

Lemma demo_start_ok : start_env_ok 10240 3 demo_start.
Proof. split; try (done || lia). by exists 30720. Qed.

Lemma demo_calls_ok : Forall call_ok demo_calls.
Proof.
  assert (Hk : ∀ k, Some demo_key = Some k → key_readable k) by (intros k [= <-]; left; by_decide).
  repeat (apply Forall_cons; split); [split; [done|by_decide]|split; [done|by_decide]|split; intros; by constructor|by constructor].
Qed.

Lemma demo_reached : reaches 3 demo_calls demo_state.
Proof. split; [apply demo_calls_ok|]. exists 10240, demo_start, 0, 0. split; [apply demo_start_ok|]. vm_compute. reflexivity. Qed.

Lemma websocket_survives_every_client_witness :
  ∃ s, session 10240 3 demo_start demo_calls (Server_new 0 0) = Some (tt, s) ∧ sv_reserved s ≤ 3.
Proof.
  destruct (websocket_survives_every_client 10240 3 demo_start 0 0 demo_calls demo_start_ok demo_calls_ok) as (s & E & _ & _ & _ & H). exists s. exact (conj E H).
Defined.

Lemma websocket_closes_each_descriptor_once_witness :
  ∃ s, (session 10240 3 demo_start demo_calls;; stop) (Server_new 0 0) = Some (tt, s) ∧ sv_closed s ≡ₚ [7; 8].
Proof.
  destruct (websocket_closes_each_descriptor_once 10240 3 demo_start 0 0 demo_calls demo_start_ok demo_calls_ok) as (s & E & H & _). exists s. exact (conj E H).
Defined.

(** ** The claims *)

(** C8 (functional): a client frame has exactly its effect.  In every state the
    server reaches, when a complete masked frame of the accepted size is at the front
    of an open slot's input, [consume_frame] returns with exactly [frame_effect]: an
    invalid close or a misplaced fragment is refused and changes nothing that waits
    to be sent; a ping is answered by a pong with its payload, a close by its echo
    with the slot marked for closing, behind everything already queued; the frame and
    nothing else leaves the input; and a reply without room closes the slot.  No other
    slot changes, up to its links. *)
Theorem frame_has_exactly_its_effect n calls s i c ts f rest :
  reaches n calls s → conns s !! i = Some c → 0 ≤ cn_fd c → frame_valid f → input c = client_bytes f ++ rest →
  ∃ r s' c', consume_frame (Z.of_nat i) ts s = Some (r, s') ∧ conns s' !! i = Some c' ∧ frame_effect c f rest r c' ∧
    (∀ j, j ≠ i → unlinked <$> (conns s' !! j) = unlinked <$> (conns s !! j)).
Proof.
  intros [ch Hok]%reaches_ok Hc Hfd Hv Hin.
  destruct (consume_frame_exact ch 0 s i c ts f rest (λ r s', ∃ c', worked 0 i s s' c' ∧ frame_effect c f rest r c')) as (r & s' & E & c' & (_ & Hq & Hi) & He);
    [done..| |].
  - intros r s' c' Hw _ He. by exists c'.
  - exists r, s', c'. split_and!; [done..|]. apply (qu_others _ _ _ Hq).
Qed.

Lemma frame_has_exactly_its_effect_witness :
  ∃ c r s' c', conns demo_state !! 1%nat = Some c ∧ input c = client_bytes demo_ping ++ [] ∧
    consume_frame 1 20 demo_state = Some (r, s') ∧ frame_effect c demo_ping [] r c'.
Proof.
  assert (∃ c, conns demo_state !! 1%nat = Some c ∧ 0 ≤ cn_fd c ∧ input c = client_bytes demo_ping ++ []) as (c & Hc & Hf & Hin)
    by (eexists; split; [vm_compute; reflexivity|]; split; [by_decide|vm_compute; reflexivity]).
  destruct (frame_has_exactly_its_effect 3 demo_calls demo_state 1 c 20 demo_ping [] demo_reached Hc Hf) as (r & s' & c' & E & _ & He & _);
    [split; [by_decide|by_decide|by_decide|by_decide]|exact Hin|]. exists c, r, s', c'. exact (conj Hc (conj Hin (conj E He))).
Defined.

(** C9 (functional): a fill reaches its subscribers and nobody else.  In every state
    the server reaches, [broadcast] returns; it queues one text frame, whose payload
    reads back as the fill, behind what each open and not closing subscriber of the
    order already waits for; a subscriber without room is closed instead of losing
    the fill silently; every other slot is unchanged up to its links; and the
    published fan-out is the number of frames queued. *)
Theorem fill_reaches_exactly_its_subscribers n calls s fill clock completed_ns :
  reaches n calls s → fill_in_range (pn_event fill) →
  ∃ s' text, broadcast fill clock completed_ns s = Some (tt, s') ∧ read_fill text = Some (pn_event fill) ∧
    served_all (fe_order_id (pn_event fill)) (server_frame 1 text) s s' ∧
    sv_counters s' last_fanout_count = count_if (λ c, receives (fe_order_id (pn_event fill)) c && fits (server_frame 1 text) c) (conns s).
Proof.
  intros [ch Hok]%reaches_ok Hf.
  destruct (broadcast_ok ch 0 s fill clock completed_ns (λ _ s', ∃ text, read_fill text = Some (pn_event fill) ∧
    served_all (fe_order_id (pn_event fill)) (server_frame 1 text) s s' ∧
    sv_counters s' last_fanout_count = count_if (λ c, receives (fe_order_id (pn_event fill)) c && fits (server_frame 1 text) c) (conns s)))
    as ([] & s' & E & text & H); [done|done| |by exists s', text].
  intros s' text Hr _ _ Hs Hn. by exists text.
Qed.

Lemma fill_reaches_exactly_its_subscribers_witness :
  ∃ s' text, broadcast (mkPending (mkFill 42 100 5000 3) 12) (λ _, 13) 14 demo_state = Some (tt, s') ∧ read_fill text = Some (mkFill 42 100 5000 3) ∧
    served_all 42 (server_frame 1 text) demo_state s'.
Proof.
  destruct (fill_reaches_exactly_its_subscribers 3 demo_calls demo_state (mkPending (mkFill 42 100 5000 3) 12) (λ _, 13) 14 demo_reached)
    as (s' & text & E & Hr & Hs & _); [vm_compute; intuition congruence|]. exists s', text. exact (conj E (conj Hr Hs)).
Defined.

Example one_subscriber_served :
  (λ r, sv_counters r.2 last_fanout_count) <$> broadcast (mkPending (mkFill 42 100 5000 3) 12) (λ _, 13) 14 demo_state = Some 1.
Proof. vm_compute. reflexivity. Qed.
