(* ===== verification/WsAdmission.v ===== *)
(** * WsAdmission: who may enter the WebSocket server (src/luv_websocket.cpp)

    [stop] must not tear the server down while a producer is inside
    [enqueue_upgrade] or [publish].  One 32-bit word per entrance holds a closed bit
    and the number of leases; producers take a lease with a compare-and-swap loop.
    The atomic accesses of the producers and of [start]/[stop] are interleaved in any
    order. *)

From S2P Require Import Prelude.
From Stdlib Require Import ZArith Lia.
From stdpp Require Import base tactics gmap numbers option list relations.
Open Scope Z_scope.

Definition kAdmissionClosedBit : Z := Z.shiftl 1 31.
Definition kAdmissionRefMask : Z := u32 (Z.lnot kAdmissionClosedBit).

(** ** The accesses *)

(** The test of [acquire_admission] on the value it observed. *)
Definition may_enter (observed : Z) : bool :=
  (Z.land observed kAdmissionClosedBit =? 0) && negb (Z.land observed kAdmissionRefMask =? kAdmissionRefMask).

Definition close_admission (admission : Z) : Z := Z.lor admission kAdmissionClosedBit.
Definition open_admission (_ : Z) : Z := 0.
Definition release_admission (admission : Z) : Z := u32 (admission - 1).

(** The test of [wait_for_admission_drain]. *)
Definition drained (admission : Z) : bool := Z.land admission kAdmissionRefMask =? 0.

(** A producer outside, about to compare-and-swap, and holding a lease. *)
Inductive Producer := Outside | Trying (observed : Z) | Inside.

(** The owner: between [start] and [stop], waiting in [stop], done waiting. *)
Inductive Owner := Serving | Draining | Stopped.

#[export] Instance Owner_eq_dec : EqDecision Owner.
Proof. solve_decision. Defined.

Record Admission := mkAdmission { ad_word : Z; ad_producers : list Producer; ad_owner : Owner }.

(** A value that was read: go on trying, or give up. *)
Definition acquire_admission (word : Z) : Producer := if may_enter word then Trying word else Outside.

Inductive step : Admission → Admission → Prop :=
  | step_load w ps o i : ps !! i = Some Outside → step (mkAdmission w ps o) (mkAdmission w (<[i := acquire_admission w]> ps) o)
  | step_swap w ps o i : ps !! i = Some (Trying w) → step (mkAdmission w ps o) (mkAdmission (u32 (w + 1)) (<[i := Inside]> ps) o)
  | step_retry w ps o i observed : ps !! i = Some (Trying observed) → step (mkAdmission w ps o) (mkAdmission w (<[i := acquire_admission w]> ps) o)
  | step_release w ps o i : ps !! i = Some Inside → step (mkAdmission w ps o) (mkAdmission (release_admission w) (<[i := Outside]> ps) o)
  | step_close w ps : step (mkAdmission w ps Serving) (mkAdmission (close_admission w) ps Draining)
  | step_wait w ps : step (mkAdmission w ps Draining) (mkAdmission w ps (if drained w then Stopped else Draining))
  | step_start w ps : step (mkAdmission w ps Stopped) (mkAdmission (open_admission (close_admission w)) ps Serving).

(** Before the first [start], with [n] producers. *)
Definition initial (n : nat) : Admission := mkAdmission kAdmissionClosedBit (replicate n Outside) Stopped.

(** ** The invariant *)

Definition inside (p : Producer) : bool := match p with Inside => true | _ => false end.

(** The word is the closed bit and the number of leases; who tries has seen an open
    word with room. *)
Record admission_ok (a : Admission) : Prop := mk_admission_ok {
  am_word : ad_word a = (if decide (ad_owner a = Serving) then 0 else 2 ^ 31) + count_if inside (ad_producers a);
  am_room : count_if inside (ad_producers a) < 2 ^ 31;
  am_trying : ∀ i w, ad_producers a !! i = Some (Trying w) → 0 ≤ w < 2 ^ 31 - 1;
  am_stopped : ad_owner a = Stopped → count_if inside (ad_producers a) = 0
}.

Lemma mask_ones : kAdmissionRefMask = Z.ones 31.
Proof. reflexivity. Qed.

Lemma ref_count (b : bool) n : 0 ≤ n < 2 ^ 31 → Z.land ((if b then 0 else 2 ^ 31) + n) kAdmissionRefMask = n.
Proof.
  intros H. rewrite mask_ones, Z.land_ones by lia. destruct b; [by rewrite Z.add_0_l, Z.mod_small|].
  replace (2 ^ 31 + n) with (n + 1 * 2 ^ 31) by lia. rewrite Z.mod_add, Z.mod_small by lia. done.
Qed.

Lemma closed_bit_test n : 0 ≤ n < 2 ^ 32 → Z.land n kAdmissionClosedBit = if decide (2 ^ 31 ≤ n) then 2 ^ 31 else 0.
Proof.
  intros H. change kAdmissionClosedBit with (2 ^ 31). apply Z.bits_inj'. intros k Hk. rewrite Z.land_spec, Z.pow2_bits_eqb by lia.
  destruct (Z.eqb_spec 31 k) as [<-|Hne].
  - rewrite andb_true_r. case_decide; [|rewrite Z.bits_0; apply Z.testbit_false; [lia|]; rewrite Z.div_small by lia; done].
    rewrite Z.pow2_bits_true by lia. apply Z.testbit_true; [lia|]. replace n with ((n - 2 ^ 31) + 1 * 2 ^ 31) by lia. rewrite Z.div_add, Z.div_small by lia. done.
  - rewrite andb_false_r. case_decide; [by rewrite Z.pow2_bits_false|by rewrite Z.bits_0].
Qed.

Lemma may_enter_iff n : 0 ≤ n < 2 ^ 32 → may_enter n = true ↔ n < 2 ^ 31 - 1.
Proof.
  intros H. unfold may_enter. rewrite closed_bit_test by done. case_decide as Hd.
  - cbn. split; [done|lia].
  - change (0 =? 0) with true. cbn [andb]. pose proof (ref_count true n) as Hr. rewrite Z.add_0_l in Hr. rewrite Hr by lia. rewrite negb_true_iff, Z.eqb_neq.
    change kAdmissionRefMask with (2 ^ 31 - 1). lia.
Qed.

Lemma observe_trying w v : 0 ≤ w < 2 ^ 32 → acquire_admission w = Trying v → v = w ∧ 0 ≤ w < 2 ^ 31 - 1.
Proof. intros Hw. unfold acquire_admission. destruct (may_enter w) eqn:E; [|done]. intros [= <-]. split; [done|]. apply may_enter_iff in E; lia. Qed.

Lemma observe_outside w : inside (acquire_admission w) = false.
Proof. unfold acquire_admission. by case_cond. Qed.

Lemma initial_ok n : admission_ok (initial n).
Proof.
  assert (H : count_if inside (replicate n Outside) = 0) by (induction n as [|n IH]; [done|]; unfold count_if in *; by cbn; rewrite IH).
  split; cbn [initial ad_word ad_producers ad_owner]; rewrite ?H; try done. intros i w Hi. by apply lookup_replicate in Hi as [? _].
Qed.

(** Replacing one producer. *)
Lemma trying_insert (ps : list Producer) (i : nat) p : (∀ j w, ps !! j = Some (Trying w) → 0 ≤ w < 2 ^ 31 - 1) → (∀ w, p = Trying w → 0 ≤ w < 2 ^ 31 - 1) →
  ∀ j w, <[i := p]> ps !! j = Some (Trying w) → 0 ≤ w < 2 ^ 31 - 1.
Proof. intros H Hp j w Hj. apply list_lookup_insert_Some in Hj as [(_ & Hj & _)|[_ Hj]]; [by apply Hp|by apply (H j)]. Qed.

Lemma step_ok a a' : admission_ok a → step a a' → admission_ok a'.
Proof.
  intros [Hw Hr Ht Hs] Hst. pose proof (count_if_bounds inside (ad_producers a)) as [H0 _].
  destruct Hst as [w ps o i Hi|w ps o i Hi|w ps o i v Hi|w ps o i Hi|w ps|w ps|w ps]; cbn [ad_word ad_producers ad_owner] in *.
  - assert (Hrange : 0 ≤ w < 2 ^ 32) by (case_decide; lia).
    assert (Hc : count_if inside (<[i := acquire_admission w]> ps) = count_if inside ps) by (rewrite (count_if_insert _ _ _ _ _ Hi), observe_outside; cbn; lia).
    split; cbn [ad_word ad_producers ad_owner]; rewrite ?Hc; try done. apply trying_insert; [done|]. intros v Hv. apply observe_trying in Hv; lia.
  - pose proof (Ht i w Hi) as Hlt. assert (Hc : count_if inside (<[i := Inside]> ps) = count_if inside ps + 1) by (rewrite (count_if_insert _ _ _ _ _ Hi); cbn; lia).
    assert (Ho : o = Serving) by (destruct (decide (o = Serving)); [done|lia]). subst o. rewrite decide_True in Hw by done.
    split; cbn [ad_word ad_producers ad_owner]; rewrite ?Hc; [rewrite decide_True by done; unfold u32; rewrite Z.mod_small; lia|lia| |done]. by apply trying_insert.
  - assert (Hrange : 0 ≤ w < 2 ^ 32) by (case_decide; lia).
    assert (Hc : count_if inside (<[i := acquire_admission w]> ps) = count_if inside ps) by (rewrite (count_if_insert _ _ _ _ _ Hi), observe_outside; cbn; lia).
    split; cbn [ad_word ad_producers ad_owner]; rewrite ?Hc; try done. apply trying_insert; [done|]. intros u Hu. apply observe_trying in Hu; lia.
  - assert (Hc : count_if inside (<[i := Outside]> ps) = count_if inside ps - 1) by (rewrite (count_if_insert _ _ _ _ _ Hi); cbn; lia).
    pose proof (count_if_pos inside ps i Inside Hi eq_refl) as Hpos.
    split; cbn [ad_word ad_producers ad_owner]; rewrite ?Hc; [unfold release_admission, u32; rewrite Z.mod_small; case_decide; lia|lia| |intros E; specialize (Hs E); lia].
    by apply trying_insert.
  - rewrite decide_True in Hw by done. split; cbn [ad_word ad_producers ad_owner]; try done.
    rewrite decide_False by done. unfold close_admission. rewrite Hw, Z.add_0_l. change kAdmissionClosedBit with (Z.shiftl 1 31).
    rewrite Z.lor_comm, (lor_add 1 _ 31) by lia. lia.
  - rewrite decide_False in Hw by done. destruct (drained w) eqn:E; split; cbn [ad_word ad_producers ad_owner]; try done.
    intros _. unfold drained in E. rewrite Hw in E. pose proof (ref_count false (count_if inside ps)) as Hc. cbv iota in Hc. rewrite Hc in E by lia. lia.
  - specialize (Hs eq_refl). by split.
Qed.

Lemma reachable_ok n a : rtc step (initial n) a → admission_ok a.
Proof. intros H. eapply (rtc_ind_r admission_ok (initial n)); [apply initial_ok| |exact H]. intros a1 a2 _ Hst Ha1. by eapply step_ok. Qed.

(** ** The claims *)

(** Draining makes progress: each lease that is returned brings the count down, and
    no new one is granted. *)
Lemma draining_step a a' :
  admission_ok a → step a a' → ad_owner a = Draining → count_if inside (ad_producers a') ≤ count_if inside (ad_producers a).
Proof.
  intros [Hw Hr Ht Hs] Hst. pose proof (count_if_bounds inside (ad_producers a)) as [H0 _].
  destruct Hst as [w ps o i Hi|w ps o i Hi|w ps o i v Hi|w ps o i Hi|w ps|w ps|w ps]; cbn [ad_word ad_producers ad_owner] in *; intros Ho; try done.
  - rewrite (count_if_insert _ _ _ _ _ Hi), observe_outside. cbn. lia.
  - subst o. rewrite decide_False in Hw by done. pose proof (Ht i w Hi). lia.
  - rewrite (count_if_insert _ _ _ _ _ Hi), observe_outside. cbn. lia.
  - rewrite (count_if_insert _ _ _ _ _ Hi). cbn. lia.
Qed.

Lemma leave_one w ps n :
  admission_ok (mkAdmission w ps Draining) → count_if inside ps = Z.of_nat (S n) →
  ∃ w' ps', step (mkAdmission w ps Draining) (mkAdmission w' ps' Draining) ∧ count_if inside ps' = Z.of_nat n.
Proof.
  intros Hok Hc. assert (∃ i, ps !! i = Some Inside) as [i Hi].
  { clear Hok. revert Hc. induction ps as [|p ps IH]; [done|]. intros Hc. destruct p as [| |]; [..|by exists O].
    all: destruct IH as [i Hi]; [exact Hc|by exists (S i)]. }
  exists (release_admission w), (<[i := Outside]> ps). split; [by constructor|]. rewrite (count_if_insert _ _ _ _ _ Hi). cbn. lia.
Qed.

Lemma drains n w ps :
  admission_ok (mkAdmission w ps Draining) → count_if inside ps = Z.of_nat n → ∃ w' ps', rtc step (mkAdmission w ps Draining) (mkAdmission w' ps' Stopped).
Proof.
  revert w ps. induction n as [|n IH]; intros w ps Hok Hc.
  - exists w, ps. apply rtc_once. destruct Hok as [Hw _ _ _]. cbn [ad_word ad_producers ad_owner] in Hw. rewrite decide_False, Hc in Hw by done.
    pose proof (step_wait w ps) as H. replace (drained w) with true in H; [done|]. subst w. reflexivity.
  - destruct (leave_one w ps n Hok Hc) as (w1 & ps1 & Hst & Hc1). destruct (IH w1 ps1 (step_ok _ _ Hok Hst) Hc1) as (w' & ps' & H).
    exists w', ps'. by eapply rtc_l.
Qed.

(** C16 (safety): nobody is inside a stopped server.  For any number of producers
    and any interleaving of the loads, compare-and-swaps (spurious failures included)
    and releases of [acquire_admission] and [release_admission] with the
    [close_admission], [wait_for_admission_drain] and [open_admission] of [stop] and
    [start], across restarts: the word always counts exactly the producers inside,
    next to the closed bit, without overflowing into it; once the wait is over no
    producer holds a lease, so [stop] tears nothing down under one; and while [stop]
    waits no new lease is granted. *)
Theorem nobody_inside_a_stopped_server n a :
  rtc step (initial n) a →
  Z.land (ad_word a) kAdmissionRefMask = count_if inside (ad_producers a) ∧ 0 ≤ ad_word a < 2 ^ 32 ∧
  (ad_owner a = Stopped → ∀ i p, ad_producers a !! i = Some p → inside p = false) ∧
  (ad_owner a = Draining → ∀ a', step a a' → count_if inside (ad_producers a') ≤ count_if inside (ad_producers a)).
Proof.
  intros Ha%reachable_ok. pose proof Ha as [Hw Hr _ Hs]. pose proof (count_if_bounds inside (ad_producers a)) as [H0 _]. split_and!.
  - rewrite Hw. pose proof (ref_count (bool_decide (ad_owner a = Serving)) _ (conj H0 Hr)) as H. by case_decide; [rewrite bool_decide_true in H|rewrite bool_decide_false in H].
  - case_decide; lia.
  - case_decide; lia.
  - intros Ho i p Hi. specialize (Hs Ho). destruct (inside p) eqn:E; [|done]. pose proof (count_if_pos inside _ _ _ Hi E). lia.
  - intros Ho a' Hst. by apply draining_step.
Qed.

Lemma nobody_inside_a_stopped_server_witness :
  ∃ a, rtc step (initial 2) a ∧ ad_owner a = Serving ∧ Z.land (ad_word a) kAdmissionRefMask = count_if inside (ad_producers a) ∧ inside <$> ad_producers a = [true; false].
Proof.
  assert (H : rtc step (initial 2) (mkAdmission 1 [Inside; Outside] Serving)).
  { eapply rtc_l; [apply step_start|]. eapply rtc_l; [by apply (step_load _ _ _ 0)|]. eapply rtc_l; [by apply (step_swap _ _ _ 0)|]. apply rtc_refl. }
  eexists. split; [exact H|]. split; [reflexivity|]. split; [exact (proj1 (nobody_inside_a_stopped_server 2 _ H))|reflexivity].
Defined.

(** C40 (liveness): [stop] can always finish.  From every reachable state in which
    [stop] waits, returning the leases that are out is enough for the wait to end:
    no lease is lost and the count cannot stick above zero. *)
Theorem stop_can_always_finish n a :
  rtc step (initial n) a → ad_owner a = Draining → ∃ a', rtc step a a' ∧ ad_owner a' = Stopped.
Proof.
  intros Ha%reachable_ok Ho. destruct a as [w ps o]. cbn in Ho. subst o. pose proof (count_if_bounds inside ps) as [H0 _].
  destruct (drains (Z.to_nat (count_if inside ps)) w ps Ha ltac:(lia)) as (w' & ps' & H). by eexists.
Qed.

Lemma stop_can_always_finish_witness : ∃ a', rtc step (mkAdmission (2 ^ 31 + 1) [Inside; Outside] Draining) a' ∧ ad_owner a' = Stopped.
Proof.
  apply (stop_can_always_finish 2); [|reflexivity]. eapply rtc_l; [apply step_start|]. eapply rtc_l; [by apply (step_load _ _ _ 0)|].
  eapply rtc_l; [by apply (step_swap _ _ _ 0)|]. eapply rtc_l; [apply step_close|]. apply rtc_refl.
Defined.
