(* ===== verification/HttpText.v ===== *)
(** * HttpText: reading HTTP requests and JSON orders (src/luv_http_server.cpp)

    The helpers of the control plane that read text.  A [const char*] into
    null-terminated memory is the list of the characters before the null; the end of
    the list is the null character, and every advance of a pointer in the source is
    behind a test that rules the null out, here a pattern match.  A [HeaderRange] is
    the text between its two pointers; [None] is the source's [false] or null. *)

From S2P Require Import Prelude Arena Gateway Risk WsText.
From Stdlib Require Import ZArith Lia String.
From stdpp Require Import base tactics gmap numbers option list.
Open Scope Z_scope.

Implicit Types (text body request : list Z).

(** ** Library functions *)

Fixpoint starts_with (prefix text : list Z) : bool :=
  match prefix, text with
  | [], _ => true
  | c :: prefix', d :: text' => (c =? d) && starts_with prefix' text'
  | _ :: _, [] => false
  end.

(** [std::strstr], as the offset of the first occurrence. *)
Fixpoint strpos (needle text : list Z) : option nat :=
  if starts_with needle text then Some O
  else match text with [] => None | _ :: text' => S <$> strpos needle text' end.

(** The longest prefix of characters with a property, and the rest. *)
Fixpoint skip_while (p : Z → bool) (text : list Z) : list Z :=
  match text with c :: text' => if p c then skip_while p text' else text | [] => [] end.
Fixpoint take_while (p : Z → bool) (text : list Z) : list Z :=
  match text with c :: text' => if p c then c :: take_while p text' else [] | [] => [] end.

(** [isspace] in the C locale. *)
Definition isspace (c : Z) : bool := (c =? 32) || ((9 <=? c) && (c <=? 13)).

(** One [%<n>s] of [std::sscanf]: the token and what follows it. *)
Definition scan_token (n : nat) text : option (list Z * list Z) :=
  let text := skip_while isspace text in
  let token := take n (take_while (λ c, negb (isspace c)) text) in
  match token with [] => None | _ => Some (token, drop (length token) text) end.

(** [std::sscanf(request, "%7s %127s HTTP/1.1", method, path) == 2]. *)
Definition scan_request_line request : option (list Z * list Z) :=
  '(method, rest) ← scan_token 7 request;
  '(path, _) ← scan_token 127 (skip_while isspace rest);
  Some (method, path).

(** ** JSON values *)

Definition is_digit (c : Z) : bool := (48 <=? c) && (c <=? 57).

(** The digits at the front as a 64-bit number; [None] when it does not fit. *)
Fixpoint read_digits text (value : Z) : option (Z * list Z) :=
  match text with
  | c :: text' =>
      if is_digit c then
        let digit := c - 48 in
        if (UINT64_MAX - digit) / 10 <? value then None else read_digits text' (u64 (value * 10 + digit))
      else Some (value, text)
  | [] => Some (value, [])
  end.

Definition leading_digit text : bool := match text with c :: _ => is_digit c | [] => false end.

Definition number text : option Z := if negb (leading_digit text) then None else fst <$> read_digits text 0.

(** The text behind a quoted key, its separator skipped. *)
Definition value body (key : list Z) : option (list Z) :=
  let needle := [34] ++ key ++ [34] in
  if 48 <=? Z.of_nat (length needle) then None else
  found ← strpos needle body;
  Some (skip_while (λ c, (c =? 32) || (c =? 9) || (c =? 58)) (drop (found + length needle) body)).

Definition json_value_end text : bool :=
  match skip_while (λ c, (c =? 32) || (c =? 9) || (c =? 13) || (c =? 10)) text with
  | c :: _ => (c =? 44) || (c =? 125)
  | [] => true
  end.

Definition json_uint64 (text : option (list Z)) : option Z :=
  text ← text;
  if negb (leading_digit text) then None else
  '(parsed, rest) ← read_digits text 0;
  if negb (json_value_end rest) then None else Some parsed.

(** The text behind the character [c], when that is the next one. *)
Definition after (c : Z) text : option (list Z) :=
  match text with d :: text' => if d =? c then Some text' else None | [] => None end.

Definition json_side (text : option (list Z)) : option Z :=
  text ← text;
  text ← after 34 text;
  if starts_with (str "buy" ++ [34]) text then if json_value_end (drop 4 text) then Some kBuy else None
  else if starts_with (str "sell" ++ [34]) text then if json_value_end (drop 5 text) then Some kSell else None
  else None.

(** The digits behind a decimal point, at most four. *)
Fixpoint read_fraction text (fractional : Z) (digits : nat) : option (Z * nat * list Z) :=
  match text with
  | c :: text' =>
      if is_digit c then
        if (digits =? 4)%nat then None else read_fraction text' (u64 (fractional * 10 + (c - 48))) (S digits)
      else Some (fractional, digits, text)
  | [] => Some (fractional, digits, [])
  end.

Fixpoint pad_fraction (missing : nat) (fractional : Z) : Z :=
  match missing with O => fractional | S missing' => pad_fraction missing' (u64 (fractional * 10)) end.

Definition json_decimal_price (text : option (list Z)) : option Z :=
  text ← text;
  if negb (leading_digit text) then None else
  '(whole, rest) ← read_digits text 0;
  '(fractional, fractional_digits, rest) ←
    match after 46 rest with
    | Some rest' =>
        '(fractional, fractional_digits, rest') ← read_fraction rest' 0 0;
        if (fractional_digits =? 0)%nat then None else Some (fractional, fractional_digits, rest')
    | None => Some (0, O, rest)
    end;
  if negb (json_value_end rest) then None else
  let fractional := pad_fraction (4 - fractional_digits) fractional in
  if u64 (INT64_MAX - fractional) / 10000 <? whole then None else
  Some (i64 (whole * 10000 + fractional)).

(** ** Symbols *)

Definition symbol_char (c : Z) : bool :=
  ((65 <=? c) && (c <=? 90)) || ((97 <=? c) && (c <=? 122)) || ((48 <=? c) && (c <=? 57)) || (c =? 46) || (c =? 45).
Definition symbol_upper (c : Z) : Z := if (97 <=? c) && (c <=? 122) then c - 97 + 65 else c.

(** FNV-1a over the characters up to a quote, at most eight. *)
Fixpoint hash_symbol text (hash : Z) (len : nat) : option (Z * nat * list Z) :=
  match text with
  | c :: text' =>
      if c =? 34 then Some (hash, len, text)
      else if (len =? 8)%nat || negb (symbol_char c) then None
      else hash_symbol text' (u32 (Z.lxor hash (symbol_upper c) * 16777619)) (S len)
  | [] => Some (hash, len, [])
  end.

Definition json_symbol_index (text : option (list Z)) : option Z :=
  text ← text;
  text ← after 34 text;
  '(hash, len, rest) ← hash_symbol text 2166136261 0;
  rest ← after 34 rest;
  if (len =? 0)%nat || negb (json_value_end rest) then None else Some (u16 (hash mod kSymbols)).

(** ** POST /orders: the order in a request body *)

Definition kDay : Z := 0.

Definition is_null {A} (o : option A) : bool := match o with None => true | Some _ => false end.

Definition submit_order body (now_ns : Z) : option OrderIntent :=
  let symbol_idx := value body (str "symbol_idx") in
  let symbol := value body (str "symbol") in
  let side := value body (str "side") in
  let qty_text := value body (str "qty") in
  let price_text := value body (str "price") in
  if Bool.eqb (is_null symbol_idx) (is_null symbol) then None else
  qty ← json_uint64 qty_text;
  if INT64_MAX <? qty then None else
  side ← json_side side;
  '(sym, price) ←
    match symbol_idx with
    | Some _ =>
        parsed ← json_uint64 symbol_idx;
        if kSymbols <=? parsed then None else
        price ← json_uint64 price_text;
        if INT64_MAX <? price then None else Some (u16 parsed, price)
    | None => sym ← json_symbol_index symbol; price ← json_decimal_price price_text; Some (sym, price)
    end;
  Some (mkIntent sym side qty price now_ns now_ns 0 kDay).

(** ** Headers *)

Definition ascii_lower (c : Z) : Z := if (65 <=? c) && (c <=? 90) then c - 65 + 97 else c.
Definition ascii_equal (left right : list Z) : bool := bool_decide (ascii_lower <$> left = ascii_lower <$> right).

Definition blank (c : Z) : bool := (c =? 32) || (c =? 9).
Definition trim_end (p : Z → bool) text : list Z := reverse (skip_while p (reverse text)).
Definition crlf : list Z := [13; 10].

(** The lines from the end of line at offset [line] on, up to [block_end].  The outer
    [None] is out of fuel. *)
Fixpoint header_from (fuel : nat) request (line block_end : nat) (wanted_name : list Z) : option (option (list Z)) :=
  match fuel with
  | O => None
  | S fuel' =>
      if (block_end <=? line)%nat then Some None else
      let line := (line + 2)%nat in
      if (block_end <=? line)%nat then Some None else
      match strpos crlf (drop line request) with
      | None => Some None
      | Some len =>
          if (block_end <? line + len)%nat then Some None else
          let text := take len (drop line request) in
          let name := take_while (λ c, negb (c =? 58)) text in
          if (length name <? length text)%nat && ascii_equal name wanted_name
          then Some (Some (trim_end blank (skip_while blank (drop (S (length name)) text))))
          else header_from fuel' request (line + len) block_end wanted_name
      end
  end.

Definition header request (block_end : nat) (wanted_name : list Z) : option (option (list Z)) :=
  match strpos crlf request with
  | None => Some None
  | Some line => header_from (S (length request)) request line block_end wanted_name
  end.

(** A list of comma-separated tokens. *)
Fixpoint has_token (fuel : nat) text (token : list Z) : option bool :=
  match fuel with
  | O => None
  | S fuel' =>
      match text with
      | [] => Some false
      | _ =>
          let text := skip_while (λ c, blank c || (c =? 44)) text in
          let item := take_while (λ c, negb (c =? 44)) text in
          if ascii_equal (trim_end blank item) token then Some true
          else has_token fuel' (drop (S (length item)) text) token
      end
  end.

Definition header_has_token (v : option (list Z)) (token : list Z) : option bool :=
  match v with None => Some false | Some text => has_token (S (length text)) text token end.

(** [SIZE_MAX] is [UINT64_MAX] here. *)
Definition header_decimal_size (v : option (list Z)) : option Z :=
  text ← v;
  match text with
  | [] => None
  | _ => '(parsed, rest) ← read_digits text 0; match rest with [] => Some parsed | _ => None end
  end.

Definition path_number path (prefix : list Z) : option Z :=
  if negb (starts_with prefix path) then None else
  let text := drop (length prefix) path in
  id ← number text;
  match skip_while is_digit text with [] => Some id | _ => None end.

Definition order_id path : option Z := path_number path (str "/api/v1/orders/").

(** ** Decimal numbers *)

Definition digits_value (ds : list Z) (acc : Z) : Z := foldl (λ a d, a * 10 + (d - 48)) acc ds.
Definition digits (ds : list Z) : Prop := Forall (λ c, is_digit c = true) ds.

Lemma digits_value_app a b acc : digits_value (a ++ b) acc = digits_value b (digits_value a acc).
Proof. apply foldl_app. Qed.

Lemma digits_value_mono ds acc : digits ds → 0 ≤ acc → acc ≤ digits_value ds acc.
Proof.
  intros Hd. revert acc. induction Hd as [|c ds Hc _ IH]; intros acc Ha; [done|]. cbn. unfold is_digit in Hc. specialize (IH (acc * 10 + (c - 48)) ltac:(lia)).
  unfold digits_value in IH. lia.
Qed.

Definition ends_digits text : Prop := match text with c :: _ => is_digit c = false | [] => True end.

(** The digits at the front are read, unless the number leaves 64 bits. *)
Lemma read_digits_spec ds rest acc :
  digits ds → ends_digits rest → 0 ≤ acc ≤ UINT64_MAX →
  read_digits (ds ++ rest) acc = if digits_value ds acc <=? UINT64_MAX then Some (digits_value ds acc, rest) else None.
Proof.
  intros Hd Hr. revert acc. induction Hd as [|c ds Hc Hds IH]; intros acc Ha.
  - cbn [app digits_value foldl]. rewrite (proj2 (Z.leb_le _ _)) by lia. destruct rest as [|c rest]; [done|]. cbn [read_digits]. unfold ends_digits in Hr. by rewrite Hr.
  - cbn [app read_digits]. rewrite Hc. unfold is_digit in Hc. cbv zeta.
    change (digits_value (c :: ds) acc) with (digits_value ds (acc * 10 + (c - 48))).
    destruct (Z.ltb_spec ((UINT64_MAX - (c - 48)) / 10) acc) as [Hover|Hfit].
    + pose proof (digits_value_mono ds (acc * 10 + (c - 48)) Hds ltac:(lia)). rewrite (proj2 (Z.leb_gt _ _)); [done|]. Z.div_mod_to_equations. lia.
    + assert (acc * 10 + (c - 48) ≤ UINT64_MAX) by (Z.div_mod_to_equations; lia). unfold u64. rewrite Z.mod_small by (unfold UINT64_MAX in *; lia). apply IH. lia.
Qed.

(** Every text splits into its leading digits and a rest that does not go on. *)
Lemma split_digits text : ∃ ds rest, text = ds ++ rest ∧ digits ds ∧ ends_digits rest.
Proof.
  induction text as [|c text (ds & rest & -> & Hd & Hr)]; [exists [], []; split_and!; [done|constructor|done]|]. destruct (is_digit c) eqn:E.
  - exists (c :: ds), rest. split_and!; [done|by constructor|done].
  - exists [], (c :: ds ++ rest). split_and!; [done|constructor|done].
Qed.

Lemma split_digits_inj ds rest ds' rest' :
  digits ds → digits ds' → ends_digits rest → ends_digits rest' → ds ++ rest = ds' ++ rest' → ds = ds' ∧ rest = rest'.
Proof.
  intros Hd. revert ds'. induction Hd as [|c ds Hc _ IH]; intros ds' Hd' Hr Hr' E.
  - destruct Hd' as [|c' ds' Hc' _]; [exact (conj eq_refl E)|]. cbn in E. subst rest. cbn in Hr. congruence.
  - destruct Hd' as [|c' ds' Hc' Hd']; [cbn in E; subst rest'; cbn in Hr'; congruence|]. cbn in E. injection E as -> E. destruct (IH ds' Hd' Hr Hr' E) as [-> ->]. split; reflexivity.
Qed.

Lemma read_digits_exact text acc v rest :
  0 ≤ acc ≤ UINT64_MAX →
  read_digits text acc = Some (v, rest) ↔ ∃ ds, text = ds ++ rest ∧ digits ds ∧ ends_digits rest ∧ v = digits_value ds acc ∧ v ≤ UINT64_MAX.
Proof.
  intros Ha. destruct (split_digits text) as (ds & r & -> & Hd & Hr). rewrite read_digits_spec by done. split.
  - destruct (Z.leb_spec (digits_value ds acc) UINT64_MAX); [|done]. intros [= <- <-]. by exists ds.
  - intros (ds' & E & Hd' & Hr' & -> & Hv). destruct (split_digits_inj _ _ _ _ Hd Hd' Hr Hr' E) as [<- <-]. rewrite (proj2 (Z.leb_le _ _)); done.
Qed.

(** At most four digits of a fraction, filled up to four. *)
Lemma read_fraction_spec ds rest acc n :
  digits ds → ends_digits rest → 0 ≤ acc < 10 ^ Z.of_nat n → (n ≤ 4)%nat →
  read_fraction (ds ++ rest) acc n = if (n + length ds <=? 4)%nat then Some (digits_value ds acc, (n + length ds)%nat, rest) else None.
Proof.
  intros Hd Hr. revert acc n. induction Hd as [|c ds Hc Hds IH]; intros acc n Ha Hn.
  - cbn [app length digits_value foldl]. rewrite Nat.add_0_r. destruct (Nat.leb_spec n 4); [|lia]. destruct rest as [|c rest]; [done|]. cbn [read_fraction]. unfold ends_digits in Hr. by rewrite Hr.
  - cbn [app read_fraction length]. rewrite Hc. unfold is_digit in Hc. destruct (Nat.eqb_spec n 4) as [->|Hn4]; [done|].
    assert (Hp : 10 ^ Z.of_nat (S n) = 10 * 10 ^ Z.of_nat n) by (rewrite Nat2Z.inj_succ, Z.pow_succ_r; lia).
    assert (10 ^ Z.of_nat n ≤ 10 ^ 4) by (apply Z.pow_le_mono_r; lia). unfold u64. rewrite Z.mod_small by lia.
    rewrite IH by lia. replace (S n + length ds)%nat with (n + S (length ds))%nat by lia. done.
Qed.

Lemma pad_fraction_spec missing v : 0 ≤ v → v * 10 ^ Z.of_nat missing < 2 ^ 64 → pad_fraction missing v = v * 10 ^ Z.of_nat missing.
Proof.
  revert v. induction missing as [|m IH]; intros v Hv Hb; [cbn; lia|]. cbn [pad_fraction]. rewrite Nat2Z.inj_succ, Z.pow_succ_r in * by lia.
  assert (0 < 10 ^ Z.of_nat m) by (apply Z.pow_pos_nonneg; lia). unfold u64. rewrite Z.mod_small by nia. rewrite IH by nia. lia.
Qed.

Lemma digits_value_bound ds acc n : digits ds → 0 ≤ acc < 10 ^ Z.of_nat n → 0 ≤ digits_value ds acc < 10 ^ Z.of_nat (n + length ds).
Proof.
  intros Hd. revert acc n. induction Hd as [|c ds Hc _ IH]; intros acc n Ha; [cbn; by rewrite Nat.add_0_r|]. cbn [length]. replace (n + S (length ds))%nat with (S n + length ds)%nat by lia.
  apply IH. unfold is_digit in Hc. rewrite Nat2Z.inj_succ, Z.pow_succ_r by lia. lia.
Qed.

Lemma value_end_no_digit rest : json_value_end rest = true → ends_digits rest ∧ (∀ r, rest ≠ 46 :: r).
Proof.
  unfold json_value_end. destruct rest as [|c rest]; [done|]. cbn [skip_while]. intros H. unfold ends_digits, is_digit. split.
  - destruct (_ || _ || _ || _) eqn:E; [|]; lia.
  - intros r [= -> ->]. done.
Qed.

Lemma leading_digit_spec ds rest : digits ds → ends_digits rest → leading_digit (ds ++ rest) = true ↔ ds ≠ [].
Proof.
  intros Hd Hr. destruct Hd as [|c ds Hc _]; cbn; [|by split]. split; [|done]. destruct rest as [|c rest]; cbn in *; [done|congruence].
Qed.

(** The price text [whole], or [whole.fraction]. *)
Definition price_text (whole fraction : list Z) : list Z := whole ++ match fraction with [] => [] | _ => 46 :: fraction end.

Definition amount (whole fraction : list Z) : Z :=
  digits_value whole 0 * 10 ^ 4 + digits_value fraction 0 * 10 ^ (4 - Z.of_nat (length fraction)).

(** The last test and the result. *)
Lemma price_result w fraction :
  0 ≤ w ≤ UINT64_MAX → digits fraction → (length fraction ≤ 4)%nat →
  let fr := pad_fraction (4 - length fraction) (digits_value fraction 0) in
  let total := w * 10 ^ 4 + digits_value fraction 0 * 10 ^ (4 - Z.of_nat (length fraction)) in
  (if u64 (INT64_MAX - fr) / 10000 <? w then None else Some (i64 (w * 10000 + fr))) = if total <=? INT64_MAX then Some total else None.
Proof.
  intros Hw Hd Hl fr total. pose proof (digits_value_bound fraction 0 0 Hd ltac:(cbn; lia)) as Hb. cbn [Nat.add] in Hb.
  assert (Hpow : 10 ^ Z.of_nat (length fraction) * 10 ^ (4 - Z.of_nat (length fraction)) = 10 ^ 4) by (rewrite <- Z.pow_add_r by lia; f_equal; lia).
  assert (0 < 10 ^ (4 - Z.of_nat (length fraction))) by (apply Z.pow_pos_nonneg; lia).
  assert (Hfr : fr = digits_value fraction 0 * 10 ^ (4 - Z.of_nat (length fraction))).
  { unfold fr. rewrite pad_fraction_spec; rewrite ?Nat2Z.inj_sub by lia; [done|lia|]. change (Z.of_nat 4) with 4. nia. }
  assert (Hrange : 0 ≤ fr < 10 ^ 4) by (rewrite Hfr; nia). unfold total. rewrite <- Hfr. clearbody fr. change (10 ^ 4) with 10000 in *.
  unfold u64. rewrite Z.mod_small by (unfold INT64_MAX; lia). unfold INT64_MAX, UINT64_MAX in *.
  destruct (Z.ltb_spec ((2 ^ 63 - 1 - fr) / 10000) w), (Z.leb_spec (w * 10000 + fr) (2 ^ 63 - 1)); [Z.div_mod_to_equations; lia|done| |Z.div_mod_to_equations; lia].
  f_equal. unfold i64, u64. rewrite Z.mod_small by lia. by rewrite (proj2 (Z.ltb_lt _ _)) by lia.
Qed.

Lemma price_reads whole fraction rest :
  whole ≠ [] → digits whole → digits fraction → (length fraction ≤ 4)%nat → json_value_end rest = true →
  json_decimal_price (Some (price_text whole fraction ++ rest)) = if amount whole fraction <=? INT64_MAX then Some (amount whole fraction) else None.
Proof.
  intros Hne Hw Hf Hl He. destruct (value_end_no_digit rest He) as [Hend Hdot]. cbn [json_decimal_price mbind option_bind]. unfold price_text. rewrite <- app_assoc.
  set (r1 := match fraction with [] => [] | _ => 46 :: fraction end ++ rest). assert (Hr1 : ends_digits r1) by (unfold r1; by destruct fraction).
  rewrite (proj2 (leading_digit_spec whole r1 Hw Hr1) Hne), (read_digits_spec whole r1 0 Hw Hr1) by (unfold UINT64_MAX; lia). cbn [negb].
  pose proof (digits_value_mono whole 0 Hw ltac:(lia)) as Hpos. pose proof (digits_value_bound fraction 0 0 Hf ltac:(cbn; lia)) as Hfb.
  assert (0 < 10 ^ (4 - Z.of_nat (length fraction))) by (apply Z.pow_pos_nonneg; lia).
  destruct (Z.leb_spec (digits_value whole 0) UINT64_MAX) as [Hu|Hu].
  2: { cbn [mbind option_bind]. rewrite (proj2 (Z.leb_gt _ _)); [done|]. unfold amount, INT64_MAX, UINT64_MAX in *. change (10 ^ 4) with 10000. nia. }
  cbn [mbind option_bind]. unfold amount. rewrite <- (price_result (digits_value whole 0) fraction) by (done || lia). destruct fraction as [|c fraction].
  - unfold r1. cbn [app]. replace (after 46 rest) with (@None (list Z)); [cbn [mbind option_bind]; by rewrite He|].
    destruct rest as [|d rest]; [done|]. cbn. destruct (Z.eqb_spec d 46) as [->|]; [by destruct (Hdot rest)|done].
  - unfold r1. cbn [app after Z.eqb Pos.eqb]. change (c :: fraction ++ rest) with ((c :: fraction) ++ rest). rewrite read_fraction_spec by (done || (cbn; lia)).
    rewrite (proj2 (Nat.leb_le _ _)) by (cbn [Nat.add]; lia). cbn [mbind option_bind Nat.add length Nat.eqb]. by rewrite He.
Qed.

Lemma price_inv text p :
  json_decimal_price (Some text) = Some p →
  ∃ whole fraction rest, text = price_text whole fraction ++ rest ∧ whole ≠ [] ∧ digits whole ∧ digits fraction ∧ (length fraction ≤ 4)%nat ∧
    json_value_end rest = true ∧ p = amount whole fraction ∧ p ≤ INT64_MAX.
Proof.
  intros H. pose proof H as Hp. destruct (split_digits text) as (whole & r1 & -> & Hw & Hr1). cbn [json_decimal_price mbind option_bind] in H.
  destruct (leading_digit (whole ++ r1)) eqn:Hlead; [|done]. apply leading_digit_spec in Hlead; [|done..]. cbn [negb] in H.
  rewrite (read_digits_spec whole r1 0 Hw Hr1) in H by (unfold UINT64_MAX; lia). destruct (_ <=? UINT64_MAX) eqn:Hu; [|done]. cbn [mbind option_bind] in H.
  assert (∃ fraction rest, r1 = match fraction with [] => [] | _ => 46 :: fraction end ++ rest ∧ digits fraction ∧ (length fraction ≤ 4)%nat ∧ json_value_end rest = true)
    as (fraction & rest & -> & Hf & Hl & He).
  { destruct (after 46 r1) as [r|] eqn:Ea; cbn [mbind option_bind] in H.
    - assert (r1 = 46 :: r) as -> by (destruct r1 as [|d r1]; [done|]; cbn in Ea; destruct (Z.eqb_spec d 46); congruence).
      destruct (split_digits r) as (fr & r2 & -> & Hf & Hr2). rewrite read_fraction_spec in H by (done || (cbn; lia)).
      destruct (Nat.leb_spec (0 + length fr) 4); [|done]. cbn [mbind option_bind] in H. destruct fr as [|c fr]; [done|]. cbn [Nat.add length Nat.eqb mbind option_bind] in H.
      destruct (json_value_end r2) eqn:He; [|done]. by exists (c :: fr), r2.
    - destruct (json_value_end r1) eqn:He; [|done]. exists [], r1. split_and!; [done|constructor|cbn; lia|done]. }
  clear H Hr1. exists whole, fraction, rest. pose proof (price_reads whole fraction rest Hlead Hw Hf Hl He) as E. unfold price_text in *. rewrite <- app_assoc in E |- *.
  rewrite E in Hp. destruct (Z.leb_spec (amount whole fraction) INT64_MAX) as [Hle|]; [|done]. apply (inj Some) in Hp as <-. by split_and!.
Qed.

(** Decimal prices are read exactly.  [json_decimal_price] accepts
    a text exactly when it is a whole number, or a whole number, a point and one to
    four digits, followed by the end of the JSON value, and the amount in
    ten-thousandths fits in [int64_t]; the result is that amount, with no rounding and
    no wrap-around, however many leading zeros are written. *)
Theorem decimal_price_exact text p :
  json_decimal_price (Some text) = Some p ↔
  ∃ whole fraction rest, text = price_text whole fraction ++ rest ∧ whole ≠ [] ∧ digits whole ∧ digits fraction ∧ (length fraction ≤ 4)%nat ∧
    json_value_end rest = true ∧ p = amount whole fraction ∧ p ≤ INT64_MAX.
Proof.
  split; [apply price_inv|]. intros (whole & fraction & rest & -> & Hne & Hw & Hf & Hl & He & -> & Hle). rewrite price_reads by done. by rewrite (proj2 (Z.leb_le _ _)).
Qed.

(** ** Header blocks *)

(** Nothing is found before the first character of the needle occurs. *)
Lemma strpos_skip c needle a b : c ∉ a → strpos (c :: needle) (a ++ b) = (λ n, (length a + n)%nat) <$> strpos (c :: needle) b.
Proof.
  induction a as [|d a IH]; intros Hn; [cbn [app length]; by destruct (strpos (c :: needle) b)|]. apply not_elem_of_cons in Hn as [Hd Ha].
  cbn [app strpos starts_with length]. rewrite (proj2 (Z.eqb_neq c d)) by done. cbn [andb]. rewrite IH by done. by destruct (strpos (c :: needle) b).
Qed.

Lemma strpos_here needle text : starts_with needle text = true → strpos needle text = Some O.
Proof. intros H. destruct text; cbn; by rewrite H. Qed.

Record Field := mkField { fd_name : list Z; fd_value : list Z }.

Definition field_line (f : Field) : list Z := fd_name f ++ [58] ++ fd_value f.

(** A request line and header fields, up to the empty line. *)
Definition header_block (start : list Z) (fields : list Field) : list Z := start ++ (fields ≫= λ f, crlf ++ field_line f).
Definition request_text (start : list Z) (fields : list Field) (rest : list Z) : list Z := header_block start fields ++ crlf ++ crlf ++ rest.

(** No line break inside a line, no colon inside a name. *)
Definition field_ok (f : Field) : Prop := 13 ∉ fd_name f ∧ 58 ∉ fd_name f ∧ 13 ∉ fd_value f.

Lemma field_line_ok f : field_ok f → 13 ∉ field_line f ∧ field_line f ≠ [] ∧ take_while (λ c, negb (c =? 58)) (field_line f) = fd_name f.
Proof.
  intros (H1 & H2 & H3). unfold field_line. split_and!; [|destruct (fd_name f); cbn; discriminate|].
  - rewrite !not_elem_of_app. split_and!; [done|set_solver|done].
  - induction (fd_name f) as [|c n IH]; [done|]. apply not_elem_of_cons in H1 as [_ H1]. apply not_elem_of_cons in H2 as [Hc H2].
    rewrite <- app_comm_cons. cbn [take_while]. rewrite (proj2 (Z.eqb_neq c 58)) by done. cbn [negb]. by rewrite IH.
Qed.

Definition field_value (f : Field) : list Z := trim_end blank (skip_while blank (fd_value f)).

(** The first field with that name, whatever its case. *)
Fixpoint lookup_field (fields : list Field) (wanted : list Z) : option (list Z) :=
  match fields with
  | [] => None
  | f :: fields' => if ascii_equal (fd_name f) wanted then Some (field_value f) else lookup_field fields' wanted
  end.

Lemma header_from_spec fuel pre fields rest wanted :
  Forall field_ok fields → (length fields < fuel)%nat →
  header_from fuel (pre ++ (fields ≫= λ f, crlf ++ field_line f) ++ crlf ++ crlf ++ rest) (length pre)
    (length (pre ++ (fields ≫= λ f, crlf ++ field_line f))) wanted = Some (lookup_field fields wanted).
Proof.
  intros Hf. revert fuel pre. induction Hf as [|f fields Hf Hfs IH]; intros [|fuel] pre Hfuel; cbn [length] in Hfuel; try lia.
  - cbn [mbind list_bind app header_from lookup_field]. rewrite app_nil_r, (proj2 (Nat.leb_le _ _)) by lia. done.
  - destruct (field_line_ok f Hf) as (Hcr & Hne & Hname). set (more := fields ≫= λ f, crlf ++ field_line f) in *.
    assert (Hbind : ((f :: fields) ≫= λ f, crlf ++ field_line f) = crlf ++ field_line f ++ more) by (unfold more; cbn; by rewrite <- ?app_assoc). rewrite Hbind.
    assert (Hlen : (0 < length (field_line f))%nat) by (destruct (field_line f); [done|cbn; lia]).
    cbn [header_from]. rewrite !length_app. change (length crlf) with 2%nat. rewrite (proj2 (Nat.leb_gt _ _)) by lia. rewrite (proj2 (Nat.leb_gt _ _)) by lia.
    assert (Hdrop : drop (length pre + 2) (pre ++ (crlf ++ field_line f ++ more) ++ crlf ++ crlf ++ rest) = field_line f ++ more ++ crlf ++ crlf ++ rest).
    { rewrite <- !app_assoc, (app_assoc pre crlf). replace (length pre + 2)%nat with (length (pre ++ crlf)) by (rewrite length_app; done). by rewrite drop_app_length. }
    rewrite Hdrop. assert (Hpos : strpos crlf (field_line f ++ more ++ crlf ++ crlf ++ rest) = Some (length (field_line f))).
    { unfold crlf at 1. rewrite strpos_skip by done. rewrite (strpos_here [13; 10]); [cbn; by rewrite Nat.add_0_r|]. unfold more. by destruct fields. }
    rewrite Hpos. rewrite (proj2 (Nat.ltb_ge _ _)) by lia. rewrite take_app_length. rewrite Hname.
    assert (Hshort : (length (fd_name f) <? length (field_line f))%nat = true) by (apply Nat.ltb_lt; unfold field_line; rewrite !length_app; cbn; lia). rewrite Hshort. cbn [andb lookup_field].
    destruct (ascii_equal (fd_name f) wanted).
    + unfold field_value, field_line. rewrite app_assoc. replace (S (length (fd_name f))) with (length (fd_name f ++ [58])) by (rewrite length_app; cbn; lia). by rewrite drop_app_length.
    + specialize (IH fuel (pre ++ crlf ++ field_line f) ltac:(lia)). rewrite <- IH. f_equal; rewrite ?length_app, <- ?app_assoc; change (length crlf) with 2%nat; [done|lia..].
Qed.

(** The block of a request is found, and its fields looked up. *)
Lemma request_fields start fields rest wanted :
  13 ∉ start → Forall field_ok fields →
  strpos (crlf ++ crlf) (request_text start fields rest) = Some (length (header_block start fields)) ∧
  header (request_text start fields rest) (length (header_block start fields)) wanted = Some (lookup_field fields wanted).
Proof.
  intros Hs Hf. unfold request_text, header_block. split.
  - rewrite <- app_assoc. change (crlf ++ crlf) with (13 :: [10; 13; 10]). rewrite strpos_skip by done. rewrite length_app. cut (∀ fs, Forall field_ok fs →
      strpos [13; 10; 13; 10] ((fs ≫= λ f, crlf ++ field_line f) ++ crlf ++ crlf ++ rest) = Some (length (fs ≫= λ f, crlf ++ field_line f))); [intros H; by rewrite (H fields Hf)|].
    intros fs Hfs. induction Hfs as [|f fs Hf' _ IH]; [by apply strpos_here|]. destruct (field_line_ok f Hf') as (Hcr & Hne & _).
    set (more := fs ≫= λ f, crlf ++ field_line f) in *. assert (Hbind : ((f :: fs) ≫= λ f, crlf ++ field_line f) = crlf ++ field_line f ++ more) by (unfold more; cbn; by rewrite <- ?app_assoc).
    rewrite Hbind, <- !app_assoc. destruct (field_line f) as [|d line] eqn:El; [done|]. apply not_elem_of_cons in Hcr as [Hd Hcr].
    cbn [crlf app strpos starts_with]. change (10 =? 10) with true. change (13 =? 13) with true. change (13 =? 10) with false. rewrite (proj2 (Z.eqb_neq 13 d)) by done. cbn [andb].
    rewrite strpos_skip by done. unfold crlf in IH at 1 2. cbn [app] in IH. rewrite IH. cbn. by rewrite length_app.
  - unfold header. rewrite <- app_assoc.
    assert (Hpos : strpos crlf (start ++ (fields ≫= λ f, crlf ++ field_line f) ++ crlf ++ crlf ++ rest) = Some (length start)).
    { unfold crlf at 1. rewrite strpos_skip by done. rewrite (strpos_here [13; 10]); [cbn; by rewrite Nat.add_0_r|]. by destruct fields. }
    rewrite Hpos. apply header_from_spec; [done|]. rewrite !length_app. cut (length fields ≤ length (fields ≫= λ f, crlf ++ field_line f))%nat; [lia|].
    clear. induction fields as [|f fs IH]; [done|]. rewrite bind_cons, !length_app. cbn [length]. change (length crlf) with 2%nat. lia.
Qed.

(** Header fields are found as HTTP wants it.  In every request
    whose lines contain no line break and whose field names contain no colon,
    [header] over the block before the empty line returns the value of the first
    field whose name equals the wanted one up to ASCII case, with the surrounding
    blanks removed, and nothing when there is no such field; the empty line that ends
    the block is where [read_client] finds it, whatever follows as the body. *)
Theorem header_finds_first_field start fields rest wanted :
  13 ∉ start → Forall field_ok fields →
  strpos (crlf ++ crlf) (request_text start fields rest) = Some (length (header_block start fields)) ∧
  header (request_text start fields rest) (length (header_block start fields)) wanted = Some (lookup_field fields wanted).
Proof. apply request_fields. Qed.

Lemma header_finds_first_field_witness :
  header (request_text (str "GET / HTTP/1.1") [mkField (str "Host") (str " here"); mkField (str "content-LENGTH") [32; 49; 50; 9]] (str "body"))
    (length (header_block (str "GET / HTTP/1.1") [mkField (str "Host") (str " here"); mkField (str "content-LENGTH") [32; 49; 50; 9]])) (str "Content-Length") = Some (Some (str "12")).
Proof.
  rewrite (proj2 (header_finds_first_field (str "GET / HTTP/1.1") [mkField (str "Host") (str " here"); mkField (str "content-LENGTH") [32; 49; 50; 9]] (str "body") (str "Content-Length") ltac:(by_decide) ltac:(by_decide))).
  vm_compute. reflexivity.
Defined.

(** ** Orders in JSON *)

(** The texts differ before either of them ends. *)
Fixpoint clash (needle text : list Z) : bool :=
  match needle, text with c :: needle', d :: text' => negb (c =? d) || clash needle' text' | _, _ => false end.
Fixpoint clash_all (needle text : list Z) : bool :=
  match text with [] => true | _ :: text' => clash needle text && clash_all needle text' end.

Lemma clash_starts needle text t : clash needle text = true → starts_with needle (text ++ t) = false.
Proof.
  revert text. induction needle as [|c needle IH]; intros [|d text]; cbn; try done. destruct (c =? d); cbn; [apply IH|done].
Qed.

(** [needle] does not begin inside [a], whatever follows. *)
Definition absent (needle a : list Z) : Prop := ∀ t, strpos needle (a ++ t) = (λ n, (length a + n)%nat) <$> strpos needle t.

Lemma absent_lit needle a : clash_all needle a = true → absent needle a.
Proof.
  intros H t. induction a as [|c a IH]; [cbn [app length]; by destruct (strpos needle t)|]. cbn [clash_all] in H. apply andb_true_iff in H as [H1 H2].
  rewrite <- app_comm_cons. cbn [strpos]. rewrite app_comm_cons, clash_starts, IH by done. by destruct (strpos needle t).
Qed.

Lemma absent_skip c needle a : c ∉ a → absent (c :: needle) a.
Proof. intros H t. by apply strpos_skip. Qed.

Lemma absent_app needle a b : absent needle a → absent needle b → absent needle (a ++ b).
Proof.
  intros Ha Hb t. rewrite <- app_assoc, Ha, Hb, length_app. destruct (strpos needle t); cbn; [|done]. f_equal. lia.
Qed.

Lemma starts_with_app needle t : starts_with needle (needle ++ t) = true.
Proof. induction needle as [|c needle IH]; [done|]. cbn. by rewrite Z.eqb_refl. Qed.

Definition quoted (key : list Z) : list Z := [34] ++ key ++ [34].

Lemma value_found key a t :
  (length (quoted key) < 48)%nat → absent (quoted key) a →
  value (a ++ quoted key ++ t) key = Some (skip_while (λ c, (c =? 32) || (c =? 9) || (c =? 58)) t).
Proof.
  intros Hl Ha. unfold value. fold (quoted key). rewrite (proj2 (Z.leb_gt _ _)) by lia. rewrite Ha, strpos_here by apply starts_with_app. cbn [fmap option_fmap option_map mbind option_bind].
  rewrite Nat.add_0_r, app_assoc, <- length_app, drop_app_length. done.
Qed.

Lemma value_missing key a : absent (quoted key) a → value a key = None.
Proof. intros Ha. unfold value. fold (quoted key). case_cond; [done|]. specialize (Ha []). rewrite app_nil_r in Ha. by rewrite Ha. Qed.

Lemma digits_no_quote ds : digits ds → 34 ∉ ds.
Proof. intros Hd Hin. unfold digits in Hd. rewrite Forall_forall in Hd. specialize (Hd 34 Hin). done. Qed.

Lemma skip_while_digits p ds rest : digits ds → ds ≠ [] → (∀ c, is_digit c = true → p c = false) → skip_while p (ds ++ rest) = ds ++ rest.
Proof. intros Hd Hne Hp. destruct Hd as [|c ds Hc _]; [done|]. cbn. by rewrite Hp. Qed.

Lemma json_uint64_digits ds rest :
  digits ds → ds ≠ [] → digits_value ds 0 ≤ UINT64_MAX → json_value_end rest = true → json_uint64 (Some (ds ++ rest)) = Some (digits_value ds 0).
Proof.
  intros Hd Hne Hv He. destruct (value_end_no_digit rest He) as [Hr _]. unfold json_uint64. cbn [mbind option_bind].
  rewrite (proj2 (leading_digit_spec ds rest Hd Hr) Hne), (read_digits_spec ds rest 0 Hd Hr) by (unfold UINT64_MAX; lia). cbn [negb].
  rewrite (proj2 (Z.leb_le _ _)) by done. cbn [mbind option_bind]. by rewrite He.
Qed.

(** The two texts a client writes. *)
Definition order_json (symbol_idx : list Z) (buy : bool) (qty price : list Z) : list Z :=
  json "{'symbol_idx':" ++ symbol_idx ++ json (if buy then ",'side':'buy','qty':" else ",'side':'sell','qty':") ++ qty ++ json ",'price':" ++ price ++ json "}".

Ltac solve_absent :=
  repeat (apply absent_app); first [apply absent_lit; vm_compute; reflexivity | apply absent_skip, digits_no_quote; assumption | idtac].

(** C32 (roundtrip): the order a client writes is the order that is submitted.  For
    every symbol index below 512, either side, and every quantity and fixed-point
    price up to [INT64_MAX], written with any number of leading zeros,
    [submit_order] reads the JSON text back as exactly that order, stamped with the
    clock. *)
Theorem order_json_roundtrip sym buy qty price now :
  digits sym → digits qty → digits price → sym ≠ [] → qty ≠ [] → price ≠ [] →
  digits_value sym 0 < kSymbols → digits_value qty 0 ≤ INT64_MAX → digits_value price 0 ≤ INT64_MAX →
  submit_order (order_json sym buy qty price) now =
    Some (mkIntent (digits_value sym 0) (if buy then kBuy else kSell) (digits_value qty 0) (digits_value price 0) now now 0 kDay).
Proof.
  intros Hs Hq Hp Hs0 Hq0 Hp0 Vs Vq Vp. pose proof (digits_value_mono sym 0 Hs ltac:(lia)) as Ps. unfold kSymbols, INT64_MAX in *.
  assert (Hsep : ∀ c, is_digit c = true → (c =? 32) || (c =? 9) || (c =? 58) = false) by (intros c Hc; unfold is_digit in Hc; lia).
  assert (E1 : value (order_json sym buy qty price) (str "symbol_idx") = Some (sym ++ json (if buy then ",'side':'buy','qty':" else ",'side':'sell','qty':") ++ qty ++ json ",'price':" ++ price ++ json "}")).
  { unfold order_json. change (json "{'symbol_idx':" ++ ?l) with ([123] ++ quoted (str "symbol_idx") ++ ([58] ++ l)). rewrite value_found; [|vm_compute; lia|solve_absent].
    cbn [app skip_while]. change (58 =? 58) with true. rewrite orb_true_r. by rewrite skip_while_digits. }
  assert (E2 : value (order_json sym buy qty price) (str "symbol") = None).
  { apply value_missing. unfold order_json. destruct buy; solve_absent. }
  assert (E3 : value (order_json sym buy qty price) (str "side") = Some (json (if buy then "'buy','qty':" else "'sell','qty':") ++ qty ++ json ",'price':" ++ price ++ json "}")).
  { set (T := qty ++ _). transitivity (value ((json "{'symbol_idx':" ++ sym ++ [44]) ++ quoted (str "side") ++ [58] ++ json (if buy then "'buy','qty':" else "'sell','qty':") ++ T) (str "side")).
    - f_equal. unfold order_json. fold T. clearbody T. rewrite <- !app_assoc. by destruct buy.
    - rewrite value_found; [|vm_compute; lia|solve_absent]. by destruct buy. }
  assert (E4 : value (order_json sym buy qty price) (str "qty") = Some (qty ++ json ",'price':" ++ price ++ json "}")).
  { set (T := json ",'price':" ++ _). transitivity (value ((json "{'symbol_idx':" ++ sym ++ json (if buy then ",'side':'buy'," else ",'side':'sell',")) ++ quoted (str "qty") ++ [58] ++ qty ++ T) (str "qty")).
    - f_equal. unfold order_json. fold T. clearbody T. rewrite <- !app_assoc. by destruct buy.
    - rewrite value_found; [|vm_compute; lia|destruct buy; solve_absent]. cbn [app skip_while]. change (58 =? 58) with true. rewrite orb_true_r. by rewrite skip_while_digits. }
  assert (E5 : value (order_json sym buy qty price) (str "price") = Some (price ++ json "}")).
  { transitivity (value ((json "{'symbol_idx':" ++ sym ++ json (if buy then ",'side':'buy','qty':" else ",'side':'sell','qty':") ++ qty ++ [44]) ++ quoted (str "price") ++ [58] ++ price ++ json "}") (str "price")).
    - f_equal. unfold order_json. rewrite <- !app_assoc. by destruct buy.
    - rewrite value_found; [|vm_compute; lia|destruct buy; solve_absent]. cbn [app skip_while]. change (58 =? 58) with true. rewrite orb_true_r. by rewrite skip_while_digits. }
  set (T1 := json (if buy then ",'side':'buy','qty':" else ",'side':'sell','qty':") ++ _) in E1.
  assert (J1 : json_uint64 (Some (sym ++ T1)) = Some (digits_value sym 0)) by (apply json_uint64_digits; [done|done|unfold UINT64_MAX; lia|unfold T1; by destruct buy]).
  assert (J3 : json_side (value (order_json sym buy qty price) (str "side")) = Some (if buy then kBuy else kSell)) by (rewrite E3; by destruct buy).
  assert (J4 : json_uint64 (value (order_json sym buy qty price) (str "qty")) = Some (digits_value qty 0)) by (rewrite E4; apply json_uint64_digits; [done|done|unfold UINT64_MAX; lia|done]).
  assert (J5 : json_uint64 (value (order_json sym buy qty price) (str "price")) = Some (digits_value price 0)) by (rewrite E5; apply json_uint64_digits; [done|done|unfold UINT64_MAX; lia|done]).
  unfold submit_order. rewrite J3, J4, J5, E1, E2. cbv zeta.
  cbn [is_null Bool.eqb mbind option_bind]. rewrite J1. unfold INT64_MAX, kSymbols in *. cbn [mbind option_bind].
  rewrite !(proj2 (Z.ltb_ge (2 ^ 63 - 1) _)), (proj2 (Z.leb_gt 512 _)) by lia. cbn [mbind option_bind]. unfold u16. by rewrite Z.mod_small by lia.
Qed.

Lemma order_json_roundtrip_witness :
  submit_order (order_json (str "0042") true (str "100") (str "1505000")) 77 = Some (mkIntent 42 kBuy 100 1505000 77 77 0 kDay).
Proof. apply (order_json_roundtrip (str "0042") true (str "100") (str "1505000") 77); try (vm_compute; (reflexivity || congruence)); by_decide. Defined.

(** A ticker that is one of the keys in lower case hides that key. *)
Example ticker_hides_key :
  submit_order (json "{'symbol':'ABC','side':'buy','qty':5,'price':10.5}") 1 ≠ None ∧
  submit_order (json "{'symbol':'qty','side':'buy','qty':5,'price':10.5}") 1 = None.
Proof. split; vm_compute; [discriminate|reflexivity]. Qed.

(** What is submitted is in range, whatever the body. *)
Lemma submit_order_range body now o :
  submit_order body now = Some o →
  0 ≤ oi_symbol_idx o < kSymbols ∧ (oi_side o = kBuy ∨ oi_side o = kSell) ∧ 0 ≤ oi_qty o ≤ INT64_MAX ∧ 0 ≤ oi_price o ≤ INT64_MAX ∧
  oi_now_ns o = now ∧ oi_alpha_timestamp_ns o = now ∧ oi_client_order_id o = 0 ∧ oi_time_in_force o = kDay.
Proof.
  assert (Hu : ∀ t v, json_uint64 t = Some v → 0 ≤ v).
  { intros [t|] v; [|done]. unfold json_uint64. cbn [mbind option_bind]. case_cond; [done|]. destruct (read_digits t 0) as [[p r]|] eqn:E; [|done]. cbn [mbind option_bind].
    apply read_digits_exact in E as (ds & _ & Hd & _ & -> & _); [|unfold UINT64_MAX; lia]. case_cond; [done|]. intros [= <-]. by apply digits_value_mono. }
  assert (Hside : ∀ t v, json_side t = Some v → v = kBuy ∨ v = kSell).
  { intros t v. unfold json_side, mbind, option_bind. repeat case_match; intros; simplify_eq; auto. }
  assert (Hsym : ∀ t v, json_symbol_index t = Some v → 0 ≤ v < kSymbols).
  { intros t v. unfold json_symbol_index, mbind, option_bind. repeat case_match; intros; simplify_eq. unfold u16, kSymbols.
    match goal with |- _ ≤ (?h `mod` 512) `mod` _ < _ => pose proof (Z.mod_pos_bound h 512 ltac:(lia)); rewrite (Z.mod_small (h `mod` 512)) by lia; lia end. }
  assert (Hprice : ∀ t v, json_decimal_price t = Some v → 0 ≤ v ≤ INT64_MAX).
  { intros [t|] v; [|done]. intros H. assert (∃ w f, v = amount w f ∧ v ≤ INT64_MAX ∧ digits w ∧ digits f) as (w & f & -> & Hle & Hw & Hf).
    { apply price_inv in H as (w & f & _ & _ & _ & Hw & Hf & _ & _ & -> & Hle). by exists w, f. }
    split; [|done]. unfold amount. pose proof (digits_value_mono w 0 Hw ltac:(lia)). pose proof (digits_value_mono f 0 Hf ltac:(lia)).
    pose proof (Z.pow_nonneg 10 (4 - Z.of_nat (length f)) ltac:(lia)). nia. }
  unfold submit_order. cbv zeta. case_cond; [done|]. destruct (json_uint64 (value body (str "qty"))) as [q|] eqn:Eq; [|done]. cbn [mbind option_bind]. apply Hu in Eq.
  destruct (Z.ltb_spec INT64_MAX q); [done|]. destruct (json_side _) as [sd|] eqn:Es; [|done]. cbn [mbind option_bind]. apply Hside in Es.
  destruct (value body (str "symbol_idx")) as [si|].
  - destruct (json_uint64 (Some si)) as [p|] eqn:Ep; [|done]. apply Hu in Ep. cbn [mbind option_bind]. unfold kSymbols. destruct (Z.leb_spec 512 p); [done|].
    destruct (json_uint64 (value body (str "price"))) as [pr|] eqn:Epr; [|done]. apply Hu in Epr. cbn [mbind option_bind]. destruct (Z.ltb_spec INT64_MAX pr); [done|].
    intros [= <-]. cbn. unfold u16. rewrite Z.mod_small by lia. split_and!; done || lia.
  - destruct (json_symbol_index _) as [sy|] eqn:Esy; [|done]. apply Hsym in Esy. cbn [mbind option_bind]. destruct (json_decimal_price _) as [pr|] eqn:Epr; [|done]. apply Hprice in Epr.
    cbn [mbind option_bind]. intros [= <-]. cbn. unfold kSymbols in *. split_and!; done || lia.
Qed.

(** ** The scans end *)

Lemma starts_with_length needle text : starts_with needle text = true → (length needle ≤ length text)%nat.
Proof. revert text. induction needle as [|c needle IH]; intros [|d text]; cbn; try done; [lia|]. intros [_ H]%andb_true_iff. specialize (IH _ H). lia. Qed.

Lemma strpos_length needle text n : strpos needle text = Some n → (n + length needle ≤ length text)%nat.
Proof.
  revert n. induction text as [|c text IH]; intros n; cbn [strpos].
  - destruct (starts_with needle []) eqn:E; [|done]. intros [= <-]. by apply starts_with_length in E.
  - destruct (starts_with needle (c :: text)) eqn:E; [intros [= <-]; by apply starts_with_length in E|].
    intros H. apply fmap_Some in H as (m & Hm & ->). specialize (IH _ Hm). cbn. lia.
Qed.

Lemma header_from_total fuel request line block_end name :
  (line < length request)%nat → (length request ≤ fuel + line)%nat → is_Some (header_from fuel request line block_end name).
Proof.
  revert line. induction fuel as [|fuel IH]; intros line Hl Hf; [lia|]. cbn [header_from]. cbv zeta. case_cond; [by eexists|]. case_cond; [by eexists|].
  destruct (strpos crlf (drop (line + 2) request)) as [len|] eqn:E; [|by eexists]. apply strpos_length in E. rewrite length_drop in E. cbn [crlf length] in E.
  case_cond; [by eexists|]. case_cond; [by eexists|]. apply IH; lia.
Qed.

Lemma header_total request block_end name : is_Some (header request block_end name).
Proof.
  unfold header. destruct (strpos crlf request) as [line|] eqn:E; [|by eexists]. apply strpos_length in E. cbn [crlf length] in E. apply header_from_total; lia.
Qed.

Lemma skip_while_length p text : (length (skip_while p text) ≤ length text)%nat.
Proof. induction text as [|c text IH]; cbn [skip_while]; [lia|]. case_cond; cbn; lia. Qed.

Lemma has_token_total fuel text token : (length text < fuel)%nat → is_Some (has_token fuel text token).
Proof.
  revert text. induction fuel as [|fuel IH]; intros text Hf; [lia|]. destruct text as [|c text]; [by eexists|]. cbn [has_token]. cbv zeta. case_cond; [by eexists|].
  apply IH. rewrite length_drop. pose proof (skip_while_length (λ c, blank c || (c =? 44)) (c :: text)). cbn [length] in *. lia.
Qed.

Lemma header_has_token_total v token : is_Some (header_has_token v token).
Proof. destruct v as [text|]; [|by eexists]. apply has_token_total. lia. Qed.

(** A field's value is part of the request. *)
Lemma skip_while_split p text : text = take_while p text ++ skip_while p text.
Proof. induction text as [|c text IH]; cbn [take_while skip_while]; [done|]. case_cond; [cbn; by f_equal|done]. Qed.

Lemma take_while_all p text : Forall (λ c, p c = true) (take_while p text).
Proof. induction text as [|c text IH]; cbn [take_while]; [constructor|]. destruct (p c) eqn:E; [by constructor|constructor]. Qed.

Lemma Forall_skip_while (P : Z → Prop) p text : Forall P text → Forall P (skip_while p text).
Proof. rewrite (skip_while_split p text) at 1. by intros [_ ?]%Forall_app. Qed.

Lemma header_part (P : Z → Prop) request block_end name v : Forall P request → header request block_end name = Some (Some v) → Forall P v.
Proof.
  intros HP. unfold header. destruct (strpos crlf request) as [line|]; [|done]. generalize (S (length request)) as fuel. intros fuel. revert line.
  induction fuel as [|fuel IH]; intros line; [done|]. cbn [header_from]. cbv zeta. case_cond; [done|]. case_cond; [done|]. case_match; [|done]. case_cond; [done|].
  case_cond; [|apply IH]. intros [= <-]. unfold trim_end. apply Forall_reverse, Forall_skip_while, Forall_reverse, Forall_skip_while, Forall_drop, Forall_take, Forall_drop, HP.
Qed.
