(* ===== verification/Printf.v ===== *)
(** * Printf: numbers as [std::snprintf] writes them, and floating point

    The decimal conversions the sources use, that they read back, and how many
    characters they take; binary32 and binary64 arithmetic, and [%.3f]. *)

From S2P Require Import Prelude HttpText.
From Stdlib Require Import ZArith Lia String SpecFloat.
From stdpp Require Import base tactics numbers option list.
Open Scope Z_scope.

Fixpoint print_digits (fuel : nat) (v : Z) (acc : list Z) : list Z :=
  match fuel with
  | O => acc
  | S fuel' => if v <? 10 then (48 + v) :: acc else print_digits fuel' (v / 10) ((48 + v mod 10) :: acc)
  end.

(** [%u], [%zu] and [%llu]: 20 digits are enough for 64 bits. *)
Definition print_unsigned (v : Z) : list Z := print_digits 20 v [].
(** [%d] and [%lld]. *)
Definition print_signed (v : Z) : list Z := if v <? 0 then 45 :: print_unsigned (- v) else print_unsigned v.

Lemma print_digits_length fuel v acc : (length (print_digits fuel v acc) ≤ fuel + length acc)%nat.
Proof. revert v acc. induction fuel as [|fuel IH]; intros v acc; cbn [print_digits]; [lia|]. case_cond; [cbn; lia|]. specialize (IH (v / 10) ((48 + v mod 10) :: acc)). cbn in IH. lia. Qed.

Lemma print_unsigned_length v : (length (print_unsigned v) ≤ 20)%nat.
Proof. unfold print_unsigned. pose proof (print_digits_length 20 v []) as H. by rewrite Nat.add_0_r in H. Qed.

Lemma print_signed_length v : (length (print_signed v) ≤ 21)%nat.
Proof. unfold print_signed. case_cond; [cbn [length]|]; [pose proof (print_unsigned_length (- v))|pose proof (print_unsigned_length v)]; lia. Qed.

Lemma print_digits_spec (fuel k : nat) v acc :
  (1 ≤ k ≤ fuel)%nat → 0 ≤ v < 10 ^ Z.of_nat k →
  ∃ ds, print_digits fuel v acc = ds ++ acc ∧ digits ds ∧ ds ≠ [] ∧ digits_value ds 0 = v ∧ (length ds ≤ k)%nat.
Proof.
  revert k v acc. induction fuel as [|fuel IH]; intros k v acc Hk Hv; [lia|]. cbn [print_digits]. destruct (Z.ltb_spec v 10) as [Hlt|Hge].
  - exists [48 + v]. split_and!; [done| |done|cbn; lia|cbn; lia]. apply Forall_singleton. unfold is_digit. lia.
  - destruct k as [|[|k]]; [lia|cbn in Hv; lia|]. rewrite Nat2Z.inj_succ, Z.pow_succ_r in Hv by lia.
    destruct (IH (S k) (v / 10) ((48 + v mod 10) :: acc)) as (ds & E & Hd & Hn & Hval & Hl); [lia|split; [apply Z.div_pos; lia|apply Z.div_lt_upper_bound; lia]|].
    pose proof (Z.mod_pos_bound v 10 ltac:(lia)) as Hm. exists (ds ++ [48 + v mod 10]). rewrite E, <- app_assoc. split_and!; [done| |by destruct ds| |rewrite length_app; cbn; lia].
    + apply Forall_app. split; [done|]. apply Forall_singleton. unfold is_digit. lia.
    + rewrite digits_value_app, Hval. cbn. pose proof (Z.div_mod v 10 ltac:(lia)). lia.
Qed.

Lemma print_unsigned_spec (k : nat) v : (1 ≤ k ≤ 20)%nat → 0 ≤ v < 10 ^ Z.of_nat k →
  digits (print_unsigned v) ∧ print_unsigned v ≠ [] ∧ digits_value (print_unsigned v) 0 = v ∧ (length (print_unsigned v) ≤ k)%nat.
Proof. intros Hk Hv. destruct (print_digits_spec 20 k v [] Hk Hv) as (ds & E & H). unfold print_unsigned. by rewrite E, app_nil_r. Qed.

Lemma print_signed_bound v : INT64_MIN ≤ v ≤ INT64_MAX → (length (print_signed v) ≤ 20)%nat.
Proof.
  intros Hv. unfold print_signed, INT64_MIN, INT64_MAX in *. destruct (Z.ltb_spec v 0); [cbn [length]|].
  - destruct (print_unsigned_spec 19 (- v)) as (_ & _ & _ & Hl); [lia|cbn; lia|lia].
  - destruct (print_unsigned_spec 19 v) as (_ & _ & _ & Hl); [lia|cbn; lia|lia].
Qed.

Lemma print_digits_digits fuel v acc : 0 ≤ v → digits acc → digits (print_digits fuel v acc).
Proof.
  revert v acc. induction fuel as [|fuel IH]; intros v acc Hv Ha; cbn [print_digits]; [done|]. destruct (Z.ltb_spec v 10).
  - constructor; [unfold is_digit; lia|done].
  - apply IH; [apply Z.div_pos; lia|]. pose proof (Z.mod_pos_bound v 10 ltac:(lia)). constructor; [unfold is_digit; lia|done].
Qed.

Lemma digits_one_line ds : digits ds → 13 ∉ ds.
Proof. unfold digits. rewrite Forall_forall. intros Hd Hin. by apply Hd in Hin. Qed.

(** ** Floating point: the numbers the engine keeps

    [float] and [double] are the binary32 and binary64 numbers of the standard
    library's [SpecFloat]: arithmetic rounds to nearest, ties to even.  A conversion to
    [double] is exact.  The sign of a NaN is not kept. *)

Definition float := spec_float.
Definition double := spec_float.

Definition float_zero : float := S754_zero false.
(** [static_cast<float>] of an integer. *)
Definition float_of (z : Z) : float := binary_normalize 24 128 z 0 false.
Definition float_div (x y : float) : float := SFdiv 24 128 x y.

Definition double_of (z : Z) : double := binary_normalize 53 1024 z 0 false.
Definition double_add (x y : double) : double := SFadd 53 1024 x y.
Definition double_sub (x y : double) : double := SFsub 53 1024 x y.
Definition double_mul (x y : double) : double := SFmul 53 1024 x y.
Definition double_div (x y : double) : double := SFdiv 53 1024 x y.
(** Comparisons are false on a NaN. *)
Definition double_lt (x y : double) : bool := SFltb x y.
Definition double_le (x y : double) : bool := SFleb x y.

(** A value of type [float]. *)
Definition is_float (x : float) : Prop := valid_binary 24 128 x = true.

(** ** [%.3f] *)

(** [m * 2^e] in thousandths, to the nearest, ties to even. *)
Definition thousandths (m e : Z) : Z :=
  if 0 <=? e then m * 2 ^ e * 1000
  else
    let q := m * 1000 / 2 ^ (- e) in
    let r := m * 1000 mod 2 ^ (- e) in
    if (2 ^ (- e) <? 2 * r) || ((2 * r =? 2 ^ (- e)) && Z.odd q) then q + 1 else q.

(** [v] thousandths; 40 digits are enough for the integer part of a [float]. *)
Definition print_thousandths (v : Z) : list Z :=
  print_digits 40 (v / 1000) [] ++ [46; 48 + v / 100 mod 10; 48 + v / 10 mod 10; 48 + v mod 10].

Definition minus (s : bool) : list Z := if s then [45] else [].
Definition print_f3 (x : float) : list Z :=
  match x with
  | S754_zero s => minus s ++ str "0.000"
  | S754_infinity s => minus s ++ str "inf"
  | S754_nan => str "nan"
  | S754_finite s m e => minus s ++ print_thousandths (thousandths (Z.pos m) e)
  end.

Lemma digits2_bound m : Z.pos m < 2 ^ Z.pos (digits2_pos m).
Proof. induction m as [m IH|m IH|]; cbn [digits2_pos]; [| |done]; rewrite Pos2Z.inj_succ, Z.pow_succ_r by lia; lia. Qed.

Lemma is_float_bounds s m e : is_float (S754_finite s m e) → Z.pos m < 2 ^ 24 ∧ -149 ≤ e ≤ 104.
Proof.
  unfold is_float, valid_binary, bounded, canonical_mantissa, fexp, emin. rewrite andb_true_iff, Z.eqb_eq, Z.leb_le. intros [Hc He]. split; [|lia].
  eapply Z.lt_le_trans; [apply digits2_bound|]. apply Z.pow_le_mono_r; lia.
Qed.

Lemma thousandths_bound m e : 0 < m < 2 ^ 24 → e ≤ 104 → 0 ≤ thousandths m e ≤ 2 ^ 128 * 1000.
Proof.
  intros Hm He. unfold thousandths. destruct (Z.leb_spec 0 e).
  - assert (2 ^ e ≤ 2 ^ 104) by (apply Z.pow_le_mono_r; lia). assert (0 < 2 ^ e) by (apply Z.pow_pos_nonneg; lia). nia.
  - assert (0 < 2 ^ (- e)) by (apply Z.pow_pos_nonneg; lia). pose proof (Z.div_pos (m * 1000) (2 ^ (- e)) ltac:(lia) ltac:(lia)).
    assert (m * 1000 / 2 ^ (- e) ≤ m * 1000) by (apply Z.div_le_upper_bound; nia). case_cond; lia.
Qed.

Lemma print_thousandths_length v : 0 ≤ v ≤ 2 ^ 128 * 1000 → (length (print_thousandths v) ≤ 43)%nat.
Proof.
  intros Hv. unfold print_thousandths. destruct (print_digits_spec 40 39 (v / 1000) []) as (ds & E & _ & _ & _ & Hl).
  - lia.
  - split; [apply Z.div_pos; lia|]. apply Z.div_lt_upper_bound; [lia|]. eapply Z.le_lt_trans; [apply Hv|]. by vm_compute.
  - rewrite E, !length_app. cbn [length]. lia.
Qed.

(** A [float] takes at most 44 characters. *)
Lemma print_f3_length x : is_float x → (length (print_f3 x) ≤ 44)%nat.
Proof.
  intros Hx. destruct x as [[]|[]| |s m e]; [by_decide..|]. destruct (is_float_bounds _ _ _ Hx) as [Hm He]. unfold print_f3. rewrite length_app.
  pose proof (print_thousandths_length _ (thousandths_bound (Z.pos m) e ltac:(lia) ltac:(lia))). destruct s; cbn [minus length]; lia.
Qed.

(** The text is the value: half a thousandth away at most. *)
Lemma thousandths_nearest m e : 0 < m → e < 0 → 2 * Z.abs (thousandths m e * 2 ^ (- e) - m * 1000) ≤ 2 ^ (- e).
Proof.
  intros Hm He. unfold thousandths. rewrite (proj2 (Z.leb_gt 0 e)) by done. assert (0 < 2 ^ (- e)) by (apply Z.pow_pos_nonneg; lia).
  pose proof (Z.div_mod (m * 1000) (2 ^ (- e)) ltac:(lia)). pose proof (Z.mod_pos_bound (m * 1000) (2 ^ (- e)) ltac:(lia)). cbv zeta.
  destruct (Z.ltb_spec (2 ^ (- e)) (2 * (m * 1000 mod 2 ^ (- e)))); cbn [orb]; [nia|]. destruct (Z.eqb_spec (2 * (m * 1000 mod 2 ^ (- e))) (2 ^ (- e))); cbn [andb]; [|nia]. case_cond; nia.
Qed.

Example print_f3_demo : print_f3 (float_div (float_of 1234567) (float_of 1000)) = str "1234.567".
Proof. reflexivity. Qed.
