(* ===== verification/Fix.v ===== *)
(** * Fix: FIX messages and sessions (src/luv_fix.hpp)

    The message view (parsing, field access, checksum) and the session (sequence
    numbers and the three messages it writes).  A [std::string_view] is the list of
    its characters.  [None] is undefined behaviour: signed overflow in [get_int], or a
    copy that leaves the stack buffer or the caller's buffer. *)

From S2P Require Import Prelude HttpText Printf.
From Stdlib Require Import ZArith Lia String.
From stdpp Require Import base tactics numbers option list.
Open Scope Z_scope.

Definition SOH : Z := 1.

(** ** Tags *)

Definition BeginString : Z := 8.
Definition BodyLength : Z := 9.
Definition CheckSum : Z := 10.
Definition ClOrdID : Z := 11.
Definition CumQty : Z := 14.
Definition ExecID : Z := 17.
Definition MsgSeqNum : Z := 34.
Definition MsgType : Z := 35.
Definition OrderID : Z := 37.
Definition OrderQty : Z := 38.
Definition OrdStatus : Z := 39.
Definition Price : Z := 44.
Definition SenderCompID : Z := 49.
Definition SendingTime : Z := 52.
Definition Side : Z := 54.
Definition Symbol : Z := 55.
Definition TargetCompID : Z := 56.
Definition ExecType : Z := 150.
Definition LeavesQty : Z := 151.
Definition HeartBtInt : Z := 108.
Definition TestReqID : Z := 112.

(** ** FixMessageView *)

Definition kMaxFields : nat := 64.

Record FixField := mkFix { fx_tag : Z; fx_val : list Z }.
Record FixMessageView := mkView { fv_fields : list FixField; fv_raw_len : Z }.
Definition FixMessageView_new : FixMessageView := mkView [] 0.

(** [std::memchr]. *)
Definition memchr (c : Z) (text : list Z) : option nat := first_index (λ x, x =? c) text.

Fixpoint parse_tag (text : list Z) (tag : Z) : option Z :=
  match text with
  | [] => Some tag
  | c :: text' => if negb (is_digit c) then None else parse_tag text' (u32 (tag * 10 + (c - 48)))
  end.

Definition value_end (val_start : list Z) : nat :=
  match memchr SOH val_start with
  | Some d => d
  | None => match memchr 124 val_start with Some d => d | None => length val_start end
  end.

(** The loop; [false] is a return inside it.  The outer [None] is out of fuel. *)
Fixpoint parse_fields (fuel : nat) (ptr : list Z) (fields : list FixField) : option (list FixField * bool) :=
  match fuel with
  | O => None
  | S fuel' =>
      if bool_decide (ptr = []) || (kMaxFields <=? length fields)%nat then Some (fields, true) else
      match memchr 61 ptr with
      | None => Some (fields, true)
      | Some eq =>
          match parse_tag (take eq ptr) 0 with
          | None => Some (fields, false)
          | Some tag =>
              let val_start := drop (S eq) ptr in
              let delim := value_end val_start in
              parse_fields fuel' (drop (S delim) val_start) (fields ++ [mkFix tag (take delim val_start)])
          end
      end
  end.

Definition fix_parse (buf : option (list Z)) (len : Z) : option (FixMessageView * bool) :=
  match buf with
  | None => Some (mkView [] len, false)
  | Some buf =>
      if len <? 10 then Some (mkView [] len, false) else
      text ← slice buf 0 len;
      if negb (starts_with [56; 61] text) then Some (mkView [] len, false) else
      '(fields, ok) ← parse_fields (S (length text)) text [];
      Some (mkView fields len, ok && negb (bool_decide (fields = [])))
  end.

Definition fix_get (v : FixMessageView) (tag : Z) : list Z :=
  match first_index (λ f, fx_tag f =? tag) (fv_fields v) with
  | Some i => default [] (fx_val <$> fv_fields v !! i)
  | None => []
  end.

(** The digits at the front; [None] is a signed overflow. *)
Fixpoint int_digits (text : list Z) (val : Z) : option Z :=
  match text with
  | [] => Some val
  | c :: text' => if negb (is_digit c) then Some val else m ← chk64 (val * 10); val ← chk64 (m + (c - 48)); int_digits text' val
  end.

Definition get_int (v : FixMessageView) (tag default_val : Z) : option Z :=
  match fix_get v tag with
  | [] => Some default_val
  | c :: rest =>
      let neg := c =? 45 in
      val ← int_digits (if neg then rest else c :: rest) 0;
      Some (if neg then - val else val)
  end.

Definition get_char (v : FixMessageView) (tag default_val : Z) : Z :=
  match fix_get v tag with [] => default_val | c :: _ => c end.

Definition msg_type (v : FixMessageView) : list Z := fix_get v MsgType.
Definition seq_num (v : FixMessageView) : option Z := n ← get_int v MsgSeqNum 0; Some (u64 n).

(** The loop down from [i]: the last separator with a checksum tag behind it. *)
Fixpoint find_checksum (i : nat) (buf : list Z) : option nat :=
  let here := drop i buf in
  match here with
  | sep :: rest =>
      if ((sep =? SOH) || (sep =? 124)) && starts_with [49; 48; 61] rest then Some (S i)
      else match i with O => None | S i' => find_checksum i' buf end
  | [] => match i with O => None | S i' => find_checksum i' buf end
  end.

Fixpoint checksum_digits (n : nat) (text : list Z) (actual : Z) : Z :=
  match n, text with
  | S n', c :: text' => if is_digit c then checksum_digits n' text' (u32 (actual * 10 + (c - 48))) else actual
  | _, _ => actual
  end.

Definition sum_bytes (text : list Z) : Z := foldl (λ sum c, u32 (sum + u8 c)) 0 text.

Definition verify_checksum (buf : option (list Z)) (len : Z) : option bool :=
  match buf with
  | None => Some false
  | Some buf =>
      if len <? 7 then Some false else
      text ← slice buf 0 len;
      if len <? 8 then Some false else
      match find_checksum (Z.to_nat (len - 8)) text with
      | None => Some false
      | Some ck_tag =>
          Some (sum_bytes (take ck_tag text) mod 256 =? checksum_digits 3 (drop (ck_tag + 3) text) 0)
      end
  end.

(** ** FixSession *)

Inductive SessionState := kDisconnected | kLogonSent | kActive | kLogoutSent.

Record FixSession := mkSession {
  fs_sender : list Z;
  fs_target : list Z;
  fs_state : SessionState;
  fs_next_in : Z;
  fs_next_out : Z
}.
Definition FixSession_new (sender target : list Z) : FixSession := mkSession sender target kDisconnected 1 1.
Definition with_in (s : FixSession) (x : Z) : FixSession := mkSession (fs_sender s) (fs_target s) (fs_state s) x (fs_next_out s).
Definition with_out (s : FixSession) (x : Z) : FixSession := mkSession (fs_sender s) (fs_target s) (fs_state s) (fs_next_in s) x.

(** Whether the message is in order, and the expected number on a gap. *)
Definition handle_inbound_seq (s : FixSession) (seq_num : Z) : FixSession * bool * option Z :=
  if fs_next_in s <? seq_num then (s, false, Some (fs_next_in s))
  else if seq_num =? fs_next_in s then (with_in s (u64 (fs_next_in s + 1)), true, None)
  else (s, false, None).

Definition on_logon (s : FixSession) : FixSession := mkSession (fs_sender s) (fs_target s) kActive (fs_next_in s) (fs_next_out s).
Definition on_logout (s : FixSession) : FixSession := mkSession (fs_sender s) (fs_target s) kDisconnected (fs_next_in s) (fs_next_out s).

(** ** Writing messages *)

(** [%.*s] stops at a null character. *)
Definition printed (view : list Z) : list Z := take_while (λ c, negb (c =? 0)) view.

(** One field of the format string. *)
Definition fix_field (tag : Z) (val : list Z) : list Z := print_unsigned tag ++ [61] ++ val ++ [SOH].
Definition sending_time : list Z := str "20260908-00:00:00.000".

(** The fields every message starts with. *)
Definition session_fields (s : FixSession) (type : list Z) (seq : Z) : list Z :=
  fix_field MsgType type ++ fix_field SenderCompID (printed (fs_sender s)) ++ fix_field TargetCompID (printed (fs_target s)) ++
  fix_field MsgSeqNum (print_unsigned seq) ++ fix_field SendingTime sending_time.

Definition execution_report_body (s : FixSession) (seq clordid order_id exec_id exec_type ord_status : Z) (symbol : list Z)
    (side order_qty price cum_qty leaves_qty : Z) : list Z :=
  session_fields s (str "8") seq ++ fix_field ClOrdID (print_unsigned clordid) ++ fix_field OrderID (print_unsigned order_id) ++
  fix_field ExecID (print_unsigned exec_id) ++ fix_field ExecType [exec_type] ++ fix_field OrdStatus [ord_status] ++ fix_field Symbol (printed symbol) ++
  fix_field Side [side] ++ fix_field OrderQty (print_signed order_qty) ++ fix_field Price (print_signed price) ++ fix_field CumQty (print_signed cum_qty) ++
  fix_field LeavesQty (print_signed leaves_qty).

Definition logon_body (s : FixSession) (seq heartbeat_sec : Z) : list Z :=
  session_fields s (str "A") seq ++ fix_field 98 (str "0") ++ fix_field HeartBtInt (print_unsigned heartbeat_sec).

Definition heartbeat_body (s : FixSession) (seq : Z) (test_req_id : list Z) : list Z :=
  session_fields s (str "0") seq ++ match test_req_id with [] => [] | _ => fix_field TestReqID (printed test_req_id) end.

(** [std::snprintf] into an array of [size] characters: what it leaves there. *)
Definition snprintf_into (size : nat) (text : list Z) : list Z := take (size - 1) text ++ [0].

(** The [body_len] characters that [std::memcpy] takes from the array. *)
Definition copied (size : nat) (text : list Z) : option (list Z) :=
  if (length text <=? length (snprintf_into size text))%nat then Some (take (length text) (snprintf_into size text)) else None.

Definition message_prefix (body_len : nat) : list Z := fix_field BeginString (str "FIX.4.4") ++ fix_field BodyLength (print_signed (Z.of_nat body_len)).

(** [%03u]. *)
Definition print_03 (v : Z) : list Z := let ds := print_unsigned v in replicate (3 - length ds) 48 ++ ds.
Definition trailer (payload : list Z) : list Z := print_unsigned CheckSum ++ [61] ++ print_03 (sum_bytes payload mod 256) ++ [SOH].

(** What is in the caller's buffer, and the length returned. *)
Definition append_trailer (payload : list Z) (max_len : Z) : list Z * Z :=
  let space := Z.to_nat (max_len - Z.of_nat (length payload)) in
  (payload ++ match space with O => [] | _ => snprintf_into space (trailer payload) end, Z.of_nat (length payload) + Z.of_nat (length (trailer payload))).

Definition format_execution_report (s : FixSession) (out_buf : bool) (max_len clordid order_id exec_id exec_type ord_status : Z) (symbol : list Z)
    (side order_qty price cum_qty leaves_qty : Z) : option (FixSession * list Z * Z) :=
  if negb out_buf || (max_len <? 128) then Some (s, [], 0) else
  let seq := fs_next_out s in
  let s := with_out s (u64 (seq + 1)) in
  let body := execution_report_body s seq clordid order_id exec_id exec_type ord_status symbol side order_qty price cum_qty leaves_qty in
  let prefix := message_prefix (length body) in
  if max_len <? Z.of_nat (length prefix + length body) + 16 then Some (s, [], 0) else
  copy ← copied 512 body;
  let '(text, size) := append_trailer (prefix ++ copy) max_len in
  Some (s, text, size).

(** The other two messages do not look at the caller's room; the copy of the payload
    does. *)
Definition format_message (max_len : Z) (s : FixSession) (body : list Z) : option (FixSession * list Z * Z) :=
  copy ← copied 256 body;
  let payload := message_prefix (length body) ++ copy in
  if max_len <? Z.of_nat (length payload) then None else
  let '(text, size) := append_trailer payload max_len in
  Some (s, text, size).

Definition format_logon (s : FixSession) (out_buf : bool) (max_len heartbeat_sec : Z) : option (FixSession * list Z * Z) :=
  if negb out_buf || (max_len <? 128) then Some (s, [], 0) else
  let seq := fs_next_out s in
  let s := with_out s (u64 (seq + 1)) in
  format_message max_len s (logon_body s seq heartbeat_sec).

Definition format_heartbeat (s : FixSession) (out_buf : bool) (max_len : Z) (test_req_id : list Z) : option (FixSession * list Z * Z) :=
  if negb out_buf || (max_len <? 128) then Some (s, [], 0) else
  let seq := fs_next_out s in
  let s := with_out s (u64 (seq + 1)) in
  format_message max_len s (heartbeat_body s seq test_req_id).

(** ** Reading what was written *)

Definition encode (fields : list FixField) : list Z := fields ≫= λ f, fix_field (fx_tag f) (fx_val f).

Definition fix_ok (f : FixField) : Prop := 0 ≤ fx_tag f < 2 ^ 32 ∧ SOH ∉ fx_val f.

Lemma memchr_skip c text rest : c ∉ text → memchr c (text ++ c :: rest) = Some (length text).
Proof.
  intros Hn. apply first_index_Some. split.
  - exists c. split; [|apply Z.eqb_refl]. rewrite lookup_app_r, Nat.sub_diag by lia. done.
  - intros j y Hj Hy. rewrite lookup_app_l in Hy by done. apply Z.eqb_neq. intros ->. apply Hn. by eapply list_elem_of_lookup_2.
Qed.

Lemma parse_tag_spec ds acc : digits ds → 0 ≤ acc → digits_value ds acc < 2 ^ 32 → parse_tag ds acc = Some (digits_value ds acc).
Proof.
  intros Hd. revert acc. induction Hd as [|c ds Hc Hds IH]; intros acc Ha Hv; [done|]. cbn [parse_tag]. rewrite Hc. cbn [negb]. change (digits_value (c :: ds) acc) with (digits_value ds (acc * 10 + (c - 48))) in *.
  unfold is_digit in Hc. pose proof (digits_value_mono ds (acc * 10 + (c - 48)) Hds ltac:(lia)). unfold u32. rewrite Z.mod_small by lia. apply IH; [lia|done].
Qed.

Lemma digits_not (c : Z) ds : digits ds → is_digit c = false → c ∉ ds.
Proof. unfold digits. rewrite Forall_forall. intros Hd Hc Hin. apply Hd in Hin. congruence. Qed.

Lemma fix_field_step tag val rest fuel acc :
  0 ≤ tag < 2 ^ 32 → SOH ∉ val → (length acc < kMaxFields)%nat →
  parse_fields (S fuel) (fix_field tag val ++ rest) acc = parse_fields fuel rest (acc ++ [mkFix tag val]).
Proof.
  intros Ht Hv Ha. destruct (print_unsigned_spec 10 tag) as (Hd & Hne & Hval & _); [lia|cbn; lia|]. cbn [parse_fields].
  rewrite bool_decide_eq_false_2 by (unfold fix_field; by destruct (print_unsigned tag)). cbn [orb]. rewrite (proj2 (Nat.leb_gt _ _)) by done.
  assert (E : fix_field tag val ++ rest = print_unsigned tag ++ 61 :: val ++ SOH :: rest) by (unfold fix_field; by rewrite <- !app_assoc).
  rewrite E, memchr_skip by (by apply digits_not). rewrite take_app_length, parse_tag_spec by (done || lia). rewrite Hval. cbv zeta.
  rewrite (cons_middle 61), app_assoc, drop_app_length' by (rewrite length_app; cbn; lia). unfold value_end. rewrite memchr_skip by done. rewrite take_app_length.
  by rewrite (cons_middle SOH), app_assoc, drop_app_length' by (rewrite length_app; cbn; lia).
Qed.

Lemma parse_encoded fields fuel acc :
  Forall fix_ok fields → (length fields < fuel)%nat → (length acc + length fields ≤ kMaxFields)%nat →
  parse_fields fuel (encode fields) acc = Some (acc ++ fields, true).
Proof.
  intros Hf. revert fuel acc. induction Hf as [|[tag val] fields [Ht Hv] _ IH]; intros [|fuel] acc Hfuel Hacc; cbn [length] in *; try lia.
  - cbn [encode mbind list_bind parse_fields]. rewrite bool_decide_eq_true_2 by done. by rewrite app_nil_r.
  - unfold encode. rewrite bind_cons. cbn [fx_tag fx_val] in *. rewrite fix_field_step by (done || lia). fold (encode fields). rewrite IH by (rewrite ?length_app; cbn; lia). by rewrite <- app_assoc.
Qed.

Lemma encode_app a b : encode (a ++ b) = encode a ++ encode b.
Proof. apply bind_app. Qed.

Lemma fix_encode_length fields : (length fields ≤ length (encode fields))%nat.
Proof.
  induction fields as [|f fields IH]; [done|]. unfold encode in *. rewrite bind_cons, length_app.
  assert (1 ≤ length (fix_field (fx_tag f) (fx_val f)))%nat by (unfold fix_field; rewrite !length_app; cbn [length]; lia). cbn [length]. lia.
Qed.

(** [get_int] on a printed number. *)
Lemma int_digits_spec ds acc : digits ds → 0 ≤ acc → digits_value ds acc ≤ INT64_MAX → int_digits ds acc = Some (digits_value ds acc).
Proof.
  intros Hd. revert acc. induction Hd as [|c ds Hc Hds IH]; intros acc Ha Hv; [done|]. cbn [int_digits]. rewrite Hc. cbn [negb]. change (digits_value (c :: ds) acc) with (digits_value ds (acc * 10 + (c - 48))) in *.
  unfold is_digit in Hc. pose proof (digits_value_mono ds (acc * 10 + (c - 48)) Hds ltac:(lia)). unfold INT64_MAX in *.
  rewrite chk64_ok by (unfold INT64_MIN, INT64_MAX; lia). cbn [mbind option_bind]. rewrite chk64_ok by (unfold INT64_MIN, INT64_MAX; lia). cbn [mbind option_bind]. apply IH; lia.
Qed.

Lemma get_int_printed v tag x d : fix_get v tag = print_signed x → INT64_MIN < x ≤ INT64_MAX → get_int v tag d = Some x.
Proof.
  intros Hg Hx. unfold get_int. rewrite Hg. unfold print_signed, INT64_MIN, INT64_MAX in *. destruct (Z.ltb_spec x 0).
  - destruct (print_unsigned_spec 19 (- x)) as (Hd & _ & Hval & _); [lia|cbn; lia|]. cbv zeta. rewrite Z.eqb_refl, int_digits_spec by (done || unfold INT64_MAX; lia). cbn [mbind option_bind]. f_equal. lia.
  - destruct (print_unsigned_spec 19 x) as (Hd & Hne & Hval & _); [lia|cbn; lia|]. destruct (print_unsigned x) as [|c ds] eqn:E; [done|]. cbv zeta.
    assert (Hc : is_digit c = true) by (by apply Forall_cons in Hd as [? _]). rewrite (proj2 (Z.eqb_neq c 45)) by (unfold is_digit in Hc; lia).
    rewrite int_digits_spec by (done || unfold INT64_MAX; lia). cbn [mbind option_bind]. by rewrite Hval.
Qed.

(** ** Whole messages *)

Lemma print_03_spec v : 0 ≤ v < 256 → length (print_03 v) = 3%nat ∧ digits (print_03 v) ∧ checksum_digits 3 (print_03 v ++ [SOH]) 0 = v.
Proof.
  intros Hv. assert (Hall : forallb (λ k, let ds := print_03 (Z.of_nat k) in (length ds =? 3)%nat && forallb is_digit ds && (checksum_digits 3 (ds ++ [SOH]) 0 =? Z.of_nat k)) (seq 0 256) = true) by (vm_compute; reflexivity).
  rewrite forallb_forall in Hall. specialize (Hall (Z.to_nat v) ltac:(apply in_seq; lia)). rewrite Z2Nat.id in Hall by lia. cbv zeta in Hall.
  apply andb_true_iff in Hall as [[Hl Hd]%andb_true_iff Hc]. apply Nat.eqb_eq in Hl. apply Z.eqb_eq in Hc. split_and!; [done| |done]. apply Forall_forall. intros x Hx. rewrite forallb_forall in Hd. by apply Hd, list_elem_of_In.
Qed.

Definition checksum_field (payload : list Z) : FixField := mkFix CheckSum (print_03 (sum_bytes payload mod 256)).
Definition message_fields (body : list FixField) : list FixField :=
  [mkFix BeginString (str "FIX.4.4"); mkFix BodyLength (print_signed (Z.of_nat (length (encode body))))] ++ body.
Definition message (body : list FixField) : list Z := encode (message_fields body) ++ trailer (encode (message_fields body)).

Lemma encode_ends fields : fields ≠ [] → ∃ pre, encode fields = pre ++ [SOH].
Proof.
  intros Hne. destruct (exists_last Hne) as (front & f & ->). exists (encode front ++ print_unsigned (fx_tag f) ++ [61] ++ fx_val f).
  rewrite encode_app. unfold encode at 2. rewrite bind_cons. cbn [mbind list_bind]. rewrite app_nil_r. unfold fix_field. by rewrite <- !app_assoc.
Qed.

Lemma take_all_slice (text : list Z) : slice text 0 (Z.of_nat (length text)) = Some text.
Proof. unfold slice. rewrite !(proj2 (Z.leb_le _ _)) by lia. cbn [andb]. by rewrite Nat2Z.id, drop_0, firstn_all. Qed.

Lemma mod_range (x : Z) : 0 ≤ x mod 256 < 256.
Proof. apply Z.mod_pos_bound. lia. Qed.

Lemma message_checksum body : verify_checksum (Some (message body)) (Z.of_nat (length (message body))) = Some true.
Proof.
  destruct (encode_ends (message_fields body)) as [pre Hpre]; [done|]. unfold message. set (payload := encode (message_fields body)) in *. destruct (print_03_spec _ (mod_range (sum_bytes payload))) as (Hl & _ & Hc).
  assert (Ht : trailer payload = [49; 48; 61] ++ print_03 (sum_bytes payload mod 256) ++ [SOH]) by done. assert (Htl : length (trailer payload) = 7%nat) by (rewrite Ht, !length_app, Hl; done).
  unfold verify_checksum. rewrite (proj2 (Z.ltb_ge _ _)) by (rewrite length_app; lia). rewrite take_all_slice. cbn [mbind option_bind].
  assert (Hp : (1 ≤ length payload)%nat) by (rewrite Hpre, length_app; cbn; lia). rewrite (proj2 (Z.ltb_ge _ _)) by (rewrite length_app; lia).
  replace (Z.to_nat (Z.of_nat (length (payload ++ trailer payload)) - 8)) with (length pre) by (rewrite length_app, Htl; rewrite Hpre, length_app; cbn; lia).
  assert (Hd : drop (length pre) (payload ++ trailer payload) = SOH :: trailer payload) by (rewrite Hpre at 1; rewrite <- app_assoc; apply drop_app_length).
  assert (Hf : find_checksum (length pre) (payload ++ trailer payload) = Some (S (length pre))) by (destruct (length pre); cbn [find_checksum]; rewrite Hd, Ht; done).
  rewrite Hf. replace (S (length pre)) with (length payload) by (rewrite Hpre, length_app; cbn; lia). rewrite take_app_length.
  replace (drop (length payload + 3) (payload ++ trailer payload)) with (print_03 (sum_bytes payload mod 256) ++ [SOH]); [by rewrite Hc, Z.eqb_refl|].
  rewrite Ht, drop_app_ge by lia. by replace (length payload + 3 - length payload)%nat with 3%nat by lia.
Qed.

Lemma message_parses body :
  Forall fix_ok body → (length body ≤ 61)%nat → Z.of_nat (length (message body)) ≤ INT64_MAX →
  fix_parse (Some (message body)) (Z.of_nat (length (message body))) =
    Some (mkView (message_fields body ++ [checksum_field (encode (message_fields body))]) (Z.of_nat (length (message body))), true).
Proof.
  intros Hb Hl Hlen. set (fields := message_fields body ++ [checksum_field (encode (message_fields body))]).
  assert (Hm : message body = encode fields) by (unfold message, fields; rewrite encode_app; unfold encode at 4; rewrite bind_cons; cbn [mbind list_bind]; by rewrite app_nil_r).
  destruct (print_03_spec _ (mod_range (sum_bytes (encode (message_fields body))))) as (_ & Hd & _).
  assert (Hn : 0 ≤ Z.of_nat (length (encode body)) ≤ INT64_MAX).
  { unfold message in Hlen. rewrite length_app in Hlen. unfold message_fields in Hlen. rewrite encode_app, length_app in Hlen. lia. }
  assert (Hok : Forall fix_ok fields).
  { unfold fields, message_fields. rewrite !Forall_app, !Forall_cons, Forall_nil. split_and!; try done; cbn [fx_tag fx_val].
    - split; [done|]. apply (bool_decide_unpack _). reflexivity.
    - split; [done|]. cbn [fx_val]. unfold print_signed. rewrite (proj2 (Z.ltb_ge _ _)) by lia.
      destruct (print_unsigned_spec 19 (Z.of_nat (length (encode body)))) as (Hdig & _); [lia|unfold INT64_MAX in Hn; cbn; lia|]. by apply digits_not.
    - split; [done|]. by apply digits_not. }
  assert (Hcount : (length fields ≤ kMaxFields)%nat) by (unfold fields, message_fields; rewrite !length_app; cbn; unfold kMaxFields; lia).
  assert (Hhead : ∃ rest, message body = fix_field BeginString (str "FIX.4.4") ++ rest).
  { eexists. unfold message, message_fields. cbn [app]. unfold encode at 1. rewrite bind_cons, <- app_assoc. reflexivity. }
  destruct Hhead as [rest Hhead]. unfold fix_parse. rewrite (proj2 (Z.ltb_ge _ _)) by (rewrite Hhead, length_app; change (length (fix_field _ _)) with 10%nat; lia).
  rewrite take_all_slice. cbn [mbind option_bind]. replace (starts_with [56; 61] (message body)) with true by (by rewrite Hhead). cbn [negb].
  replace (parse_fields (S (length (message body))) (message body) []) with (Some (fields, true)).
  2: { rewrite Hm. symmetry. apply (parse_encoded fields _ []); [done| |done]. pose proof (fix_encode_length fields). lia. }
  cbn [mbind option_bind]. by rewrite bool_decide_eq_false_2.
Qed.

(** ** Execution reports *)

Lemma printed_text text : 0 ∉ text → printed text = text.
Proof.
  unfold printed. induction text as [|c text IH]; [done|]. intros [Hc Ht]%not_elem_of_cons. cbn [take_while].
  rewrite (proj2 (Z.eqb_neq c 0)) by lia. cbn [negb]. by rewrite IH.
Qed.

(** Text a field can carry: no separator, and no null character, where [%.*s] stops. *)
Definition plain (text : list Z) : Prop := SOH ∉ text ∧ 0 ∉ text.
Definition wire_id (x : Z) : Prop := 0 ≤ x < 2 ^ 64.
Definition wire_qty (x : Z) : Prop := INT64_MIN < x ≤ INT64_MAX.

Section Report.
Context (s : FixSession) (clordid order_id exec_id exec_type ord_status : Z) (symbol : list Z) (side order_qty price cum_qty leaves_qty : Z).

Definition report_fields (seq : Z) : list FixField :=
  [mkFix MsgType (str "8"); mkFix SenderCompID (fs_sender s); mkFix TargetCompID (fs_target s); mkFix MsgSeqNum (print_unsigned seq);
   mkFix SendingTime sending_time; mkFix ClOrdID (print_unsigned clordid); mkFix OrderID (print_unsigned order_id); mkFix ExecID (print_unsigned exec_id);
   mkFix ExecType [exec_type]; mkFix OrdStatus [ord_status]; mkFix Symbol symbol; mkFix Side [side]; mkFix OrderQty (print_signed order_qty);
   mkFix Price (print_signed price); mkFix CumQty (print_signed cum_qty); mkFix LeavesQty (print_signed leaves_qty)].

Record report_ok : Prop := mkReportOk {
  ro_sender : plain (fs_sender s);
  ro_target : plain (fs_target s);
  ro_symbol : plain symbol;
  ro_names : (length (fs_sender s) + length (fs_target s) + length symbol ≤ 260)%nat;
  ro_chars : Forall (λ c, c ≠ SOH) [exec_type; ord_status; side];
  ro_ids : Forall wire_id [fs_next_out s; clordid; order_id; exec_id];
  ro_qtys : Forall wire_qty [order_qty; price; cum_qty; leaves_qty]
}.

Lemma report_body_fields seq : report_ok →
  execution_report_body (with_out s (u64 (seq + 1))) seq clordid order_id exec_id exec_type ord_status symbol side order_qty price cum_qty leaves_qty = encode (report_fields seq).
Proof using Type.
  intros [[_ H1] [_ H2] [_ H3] _ _ _ _]. unfold execution_report_body, session_fields. cbn [fs_sender fs_target with_out]. rewrite !printed_text by done.
  unfold encode, report_fields. cbn [mbind list_bind fx_tag fx_val]. by rewrite app_nil_r, <- !app_assoc.
Qed.

Lemma unsigned_plain x : wire_id x → SOH ∉ print_unsigned x ∧ (length (print_unsigned x) ≤ 20)%nat.
Proof using Type. intros Hx. destruct (print_unsigned_spec 20 x) as (Hd & _ & _ & Hl); [lia|unfold wire_id in Hx; cbn; lia|]. split; [by apply digits_not|done]. Qed.

Lemma signed_plain x : wire_qty x → SOH ∉ print_signed x ∧ (length (print_signed x) ≤ 20)%nat.
Proof using Type.
  intros Hx. split; [|apply print_signed_bound; unfold wire_qty in Hx; lia]. unfold wire_qty, INT64_MIN, INT64_MAX, print_signed in *. destruct (Z.ltb_spec x 0).
  - apply not_elem_of_cons. split; [done|]. apply unsigned_plain. unfold wire_id. lia.
  - apply unsigned_plain. unfold wire_id. lia.
Qed.

(** The numbers of a report, as text. *)
Ltac report_numbers :=
  repeat match goal with H : Forall _ (_ :: _) |- _ => apply Forall_cons in H as [? H] end;
  repeat match goal with H : wire_id _ |- _ => destruct (unsigned_plain _ H); clear H | H : wire_qty _ |- _ => destruct (signed_plain _ H); clear H end.

Lemma report_fields_ok : report_ok → Forall fix_ok (report_fields (fs_next_out s)).
Proof using Type.
  intros [[H1 _] [H2 _] [H3 _] _ Hc Hi Hq]. report_numbers.
  unfold report_fields. repeat apply Forall_cons_2; try apply Forall_nil_2; split; try done; cbn [fx_val]; try (by apply not_elem_of_cons; split; [auto|apply not_elem_of_nil]); apply (bool_decide_unpack _); reflexivity.
Qed.

Lemma report_length : report_ok → (length (encode (report_fields (fs_next_out s))) ≤ 511)%nat.
Proof using Type.
  intros [_ _ _ Hn _ Hi Hq]. report_numbers.
  unfold encode, report_fields, fix_field. cbn [mbind list_bind fx_tag fx_val]. rewrite !length_app. cbn [length].
  repeat match goal with |- context [length (print_unsigned ?t)] => is_const t; let n := eval vm_compute in (length (print_unsigned t)) in change (length (print_unsigned t)) with n end.
  change (length (str "8")) with 1%nat. change (length sending_time) with 21%nat. lia.
Qed.
End Report.

Lemma copied_all size text : (length text < size)%nat → copied size text = Some text.
Proof.
  intros Hl. unfold copied, snprintf_into. rewrite (take_ge text) by lia. rewrite (proj2 (Nat.leb_le _ _)) by (rewrite length_app; cbn; lia). by rewrite take_app_length.
Qed.

Lemma trailer_length payload : length (trailer payload) = 7%nat.
Proof. destruct (print_03_spec _ (mod_range (sum_bytes payload))) as (Hl & _). unfold trailer. rewrite !length_app, Hl. done. Qed.

Lemma append_trailer_fits payload max_len :
  Z.of_nat (length payload) + 8 ≤ max_len →
  append_trailer payload max_len = ((payload ++ trailer payload) ++ [0], Z.of_nat (length (payload ++ trailer payload))).
Proof.
  intros Hm. unfold append_trailer. pose proof (trailer_length payload) as Hl. rewrite length_app, Nat2Z.inj_add.
  destruct (Z.to_nat (max_len - Z.of_nat (length payload))) as [|space] eqn:E; [lia|]. f_equal. unfold snprintf_into. by rewrite take_ge, <- app_assoc by lia.
Qed.

Lemma message_of_body body : message_prefix (length (encode body)) ++ encode body = encode (message_fields body).
Proof. unfold message_fields. rewrite encode_app. f_equal. unfold encode, message_prefix. cbn [mbind list_bind fx_tag fx_val]. by rewrite app_nil_r. Qed.

Lemma prefix_length n : (n ≤ 999)%nat → (length (message_prefix n) ≤ 16)%nat.
Proof.
  intros Hn. unfold message_prefix, print_signed. rewrite (proj2 (Z.ltb_ge _ _)) by lia. destruct (print_unsigned_spec 3 (Z.of_nat n)) as (_ & _ & _ & Hl); [lia|cbn; lia|].
  rewrite length_app. change (length (fix_field BeginString _)) with 10%nat. unfold fix_field. rewrite !length_app. change (length (print_unsigned BodyLength)) with 1%nat. cbn [length]. lia.
Qed.

(** A report as it leaves the session. *)
Lemma report_written s max_len clordid order_id exec_id exec_type ord_status symbol side order_qty price cum_qty leaves_qty :
  report_ok s clordid order_id exec_id exec_type ord_status symbol side order_qty price cum_qty leaves_qty → 600 ≤ max_len →
  let text := message (report_fields s clordid order_id exec_id exec_type ord_status symbol side order_qty price cum_qty leaves_qty (fs_next_out s)) in
  format_execution_report s true max_len clordid order_id exec_id exec_type ord_status symbol side order_qty price cum_qty leaves_qty =
    Some (with_out s (u64 (fs_next_out s + 1)), text ++ [0], Z.of_nat (length text)) ∧ (length text ≤ 600)%nat.
Proof.
  intros Hok Hm. cbv zeta. unfold format_execution_report. cbn [negb orb]. rewrite (proj2 (Z.ltb_ge _ _)) by lia. cbv zeta. rewrite report_body_fields by done.
  pose proof (report_length _ _ _ _ _ _ _ _ _ _ _ _ Hok) as Hl. set (body := report_fields _ _ _ _ _ _ _ _ _ _ _ _ _) in *. pose proof (prefix_length (length (encode body)) ltac:(lia)) as Hp.
  rewrite (proj2 (Z.ltb_ge _ _)) by lia. rewrite copied_all by lia. cbn [mbind option_bind]. rewrite message_of_body.
  assert (He : (length (encode (message_fields body)) ≤ 527)%nat) by (rewrite <- message_of_body, length_app; lia).
  rewrite append_trailer_fits by lia. split; [done|]. unfold message. rewrite length_app, trailer_length. lia.
Qed.

(** C33 (roundtrip): an execution report reads back.  The conditions are on what the report is given: the comp ids
    and the symbol have no SOH and no NUL and at most 260 characters in all, the three character fields are
    not SOH, the sequence number and the identifiers are unsigned 64-bit values, the quantities and the price are
    signed 64-bit values above the lowest one, and the buffer holds 600 bytes.  Then [format_execution_report]
    writes a message whose checksum verifies and which [parse] splits into the fields it was given; [get_int]
    reads the quantities back, and every identifier below 2^63; and the report takes the next sequence number.
    Nothing in the code enforces the conditions on the text and on the lowest price: see [symbol_injects_a_field] and
    [lowest_price_unreadable]. *)
Theorem fix_report_roundtrip s max_len clordid order_id exec_id exec_type ord_status symbol side order_qty price cum_qty leaves_qty :
  report_ok s clordid order_id exec_id exec_type ord_status symbol side order_qty price cum_qty leaves_qty → 600 ≤ max_len →
  ∃ text v,
    format_execution_report s true max_len clordid order_id exec_id exec_type ord_status symbol side order_qty price cum_qty leaves_qty =
      Some (with_out s (u64 (fs_next_out s + 1)), text ++ [0], Z.of_nat (length text)) ∧
    verify_checksum (Some text) (Z.of_nat (length text)) = Some true ∧ fix_parse (Some text) (Z.of_nat (length text)) = Some (v, true) ∧
    msg_type v = str "8" ∧ fix_get v SenderCompID = fs_sender s ∧ fix_get v TargetCompID = fs_target s ∧ fix_get v Symbol = symbol ∧
    get_char v ExecType 0 = exec_type ∧ get_char v OrdStatus 0 = ord_status ∧ get_char v Side 0 = side ∧
    get_int v OrderQty 0 = Some order_qty ∧ get_int v Price 0 = Some price ∧ get_int v CumQty 0 = Some cum_qty ∧ get_int v LeavesQty 0 = Some leaves_qty ∧
    (fs_next_out s ≤ INT64_MAX → seq_num v = Some (fs_next_out s)) ∧ (clordid ≤ INT64_MAX → get_int v ClOrdID 0 = Some clordid) ∧
    (order_id ≤ INT64_MAX → get_int v OrderID 0 = Some order_id) ∧ (exec_id ≤ INT64_MAX → get_int v ExecID 0 = Some exec_id).
Proof.
  intros Hok Hm. destruct (report_written _ _ _ _ _ _ _ _ _ _ _ _ _ Hok Hm) as [Hw Hl]. eexists _, _. split; [exact Hw|]. split; [apply message_checksum|].
  split; [apply message_parses; [by apply report_fields_ok|cbn; lia|unfold INT64_MAX; lia]|]. destruct Hok as [_ _ _ _ _ Hi Hq].
  repeat match goal with H : Forall _ (_ :: _) |- _ => apply Forall_cons in H as [? H] end. unfold wire_id, wire_qty, INT64_MIN, INT64_MAX in *.
  assert (Hid : ∀ v tag x, fix_get v tag = print_unsigned x → 0 ≤ x → x ≤ 2 ^ 63 - 1 → get_int v tag 0 = Some x).
  { intros v tag x Hg Hpos Hx. apply get_int_printed; [|unfold INT64_MIN, INT64_MAX; lia]. rewrite Hg. unfold print_signed. by rewrite (proj2 (Z.ltb_ge _ _)). }
  split_and!; try reflexivity; try (apply get_int_printed; [reflexivity|unfold INT64_MIN, INT64_MAX; lia]); try (intros; apply Hid; [reflexivity|lia|lia]).
  intros Hs. unfold seq_num. erewrite Hid; [|reflexivity|lia|lia]. cbn [mbind option_bind]. unfold u64. by rewrite Z.mod_small by lia.
Qed.

Lemma fix_report_roundtrip_witness :
  ∃ text v, format_execution_report (FixSession_new (str "LUV") (str "NASDAQ")) true 1024 7 8 9 50 50 (str "AAPL") 49 100 1502500 100 0 =
    Some (mkSession (str "LUV") (str "NASDAQ") kDisconnected 1 2, text ++ [0], Z.of_nat (length text)) ∧
    fix_parse (Some text) (Z.of_nat (length text)) = Some (v, true) ∧ get_int v Price 0 = Some 1502500.
Proof.
  destruct (fix_report_roundtrip (FixSession_new (str "LUV") (str "NASDAQ")) 1024 7 8 9 50 50 (str "AAPL") 49 100 1502500 100 0) as (text & v & Hw & _ & Hp & _ & _ & _ & _ & _ & _ & _ & _ & Hprice & _).
  - split; try (split; apply (bool_decide_unpack _); vm_compute; reflexivity); try (repeat constructor; (discriminate || vm_compute; intuition congruence)).
  - lia.
  - exists text, v. split; [exact Hw|]. split; [exact Hp|exact Hprice].
Defined.

(** What a reader makes of the report of a buy (49) of 100 shares. *)
Definition read_back (symbol : list Z) (price : Z) : option FixMessageView :=
  '(_, text, len) ← format_execution_report (FixSession_new (str "LUV") (str "NASDAQ")) true 1024 7 8 9 50 50 symbol 49 100 price 100 0;
  '(v, ok) ← fix_parse (Some (take (Z.to_nat len) text)) len;
  if (ok : bool) then Some v else None.

(** Text given for the symbol is written as it is: with a separator in it the report carries a field of the symbol's
    choice, and the reader finds it before the genuine one.  Here the buy reads back as a sell (50). *)
Theorem symbol_injects_a_field :
  (λ v, (fix_get v Symbol, get_char v Side 0)) <$> read_back (str "A") 1502500 = Some (str "A", 49) ∧
  (λ v, (fix_get v Symbol, get_char v Side 0)) <$> read_back (str "A" ++ [SOH] ++ str "54=2") 1502500 = Some (str "A", 50).
Proof. split; vm_compute; reflexivity. Qed.

(** The lowest 64-bit price is written, but [get_int] overflows reading it back. *)
Theorem lowest_price_unreadable : (λ v, get_int v Price 0) <$> read_back (str "A") INT64_MIN = Some None.
Proof. vm_compute. reflexivity. Qed.

(** ** Inbound sequence numbers *)

(** The numbers of [nums] that the session takes. *)
Fixpoint inbound (s : FixSession) (nums : list Z) : FixSession * list Z :=
  match nums with
  | [] => (s, [])
  | n :: nums' =>
      let '(s, taken, _) := handle_inbound_seq s n in
      let '(s, rest) := inbound s nums' in
      (s, if taken then n :: rest else rest)
  end.

(** Whatever numbers arrive, in whatever order and however often, the session takes the consecutive ones from the next expected number on, each once. *)
Theorem inbound_in_order nums s :
  0 ≤ fs_next_in s → fs_next_in s + Z.of_nat (length nums) < 2 ^ 64 →
  fs_next_in s ≤ fs_next_in (inbound s nums).1 ∧ (inbound s nums).2 = seqZ (fs_next_in s) (fs_next_in (inbound s nums).1 - fs_next_in s).
Proof.
  revert s. induction nums as [|n nums IH]; intros s H0 Hl; cbn [inbound length] in *; [by rewrite Z.sub_diag|]. unfold handle_inbound_seq.
  destruct (Z.ltb_spec (fs_next_in s) n); [destruct (IH s H0 ltac:(lia)); by destruct (inbound s nums)|]. destruct (Z.eqb_spec n (fs_next_in s)) as [->|]; [|destruct (IH s H0 ltac:(lia)); by destruct (inbound s nums)].
  unfold u64. rewrite Z.mod_small by lia. destruct (IH (with_in s (fs_next_in s + 1))) as [Hle He]; [cbn; lia|cbn; lia|]. destruct (inbound _ nums) as [s' rest]. cbn [fst snd fs_next_in with_in] in *.
  split; [lia|]. rewrite He, (seqZ_cons (fs_next_in s)) by lia. f_equal. f_equal; lia.
Qed.

(** A number beyond the next one is a gap: nothing changes and the expected number is reported. *)
Theorem inbound_gap s n : fs_next_in s < n → handle_inbound_seq s n = (s, false, Some (fs_next_in s)).
Proof. intros H. unfold handle_inbound_seq. by rewrite (proj2 (Z.ltb_lt _ _)). Qed.
