(* ===== verification/HttpBridge.v ===== *)
(** * HttpBridge: API keys and the bridge to the execution thread (src/luv_http_server.cpp)

    [BearerKeyStore] compares tokens without early exit; [ExecutionBridge] carries
    requests to the gateway's owner and responses back, over two bounded queues (FIFO
    lists of bounded length, what Ring.v shows of [StaticSpscQueue]) and one spill
    slot. *)

From S2P Require Import Prelude Arena AuditLog OrderTable Risk Gateway GatewayTheorems WsConn.
From Stdlib Require Import ZArith Lia.
From stdpp Require Import base tactics gmap numbers option list.
Open Scope Z_scope.

(** ** BearerKeyStore *)

Definition kMaxBearerTokenBytes : Z := 64.
Definition kMaxApiKeys : Z := 32.

Record Key := mkKey { ky_length : Z; ky_value : list Z }.
Definition Key_init : Key := mkKey 0 (replicate 64 0).
Definition BearerKeyStore_new : list Key := replicate (Z.to_nat kMaxApiKeys) Key_init.

(** [token] is the string before its null; [strnlen] stops at the limit. *)
Definition add_key (keys : list Key) (token : option (list Z)) : option (list Key * bool) :=
  match token with
  | None => Some (keys, false)
  | Some token =>
      let len := Z.min (Z.of_nat (length token)) kMaxBearerTokenBytes in
      if (len =? 0) || (kMaxBearerTokenBytes <=? len) then Some (keys, false) else
      match first_index (λ k, ky_length k =? 0) keys with
      | None => Some (keys, false)
      | Some i =>
          k ← keys !! i;
          v ← put (ky_value k) 0 token;
          Some (<[i := mkKey (u8 len) v]> keys, true)
      end
  end.

(** All 64 bytes are compared, whatever the first difference. *)
Definition key_difference (k : Key) (token : list Z) : Z :=
  foldl (λ diff i, Z.lor diff (Z.lxor (default 0 (ky_value k !! i)) (if (i <? length token)%nat then default 0 (token !! i) else 0)))
    (u8 (Z.lxor (ky_length k) (Z.of_nat (length token)))) (seq 0 (Z.to_nat kMaxBearerTokenBytes)).

(** The token between two pointers, the first of them not null. *)
Definition validate (keys : list Key) (token : list Z) : bool :=
  let len := Z.of_nat (length token) in
  if (len =? 0) || (kMaxBearerTokenBytes <=? len) then false else
  negb (foldl (λ found k, Z.lor found (Z.b2z ((key_difference k token =? 0) && negb (ky_length k =? 0)))) 0 keys =? 0).

(** The tokens in a store. *)
Definition key_ok (k : Key) : Prop := length (ky_value k) = 64%nat ∧ bytes (ky_value k) ∧ 0 ≤ ky_length k < 64 ∧
  ∀ i : nat, ky_length k ≤ Z.of_nat i → (i < 64)%nat → ky_value k !! i = Some 0.
Definition key_token (k : Key) : list Z := take (Z.to_nat (ky_length k)) (ky_value k).
Lemma key_difference_zero k token :
  key_ok k → bytes token → (length token < 64)%nat → key_difference k token = 0 ↔ token = key_token k.
Proof.
  intros (Hl & Hb & Hk & Hpad) Ht Hlen. unfold key_difference. rewrite (lor_fold_zero (λ i, Z.lxor (default 0 (ky_value k !! i)) (if (i <? length token)%nat then default 0 (token !! i) else 0))).
  assert (Hlx : u8 (Z.lxor (ky_length k) (Z.of_nat (length token))) = 0 ↔ ky_length k = Z.of_nat (length token)).
  { split; [|intros ->; by rewrite Z.lxor_nilpotent]. intros E. unfold u8 in E. rewrite Z.mod_small in E; [by apply Z.lxor_eq|].
    assert (Hnn : 0 ≤ Z.lxor (ky_length k) (Z.of_nat (length token))) by (apply Z.lxor_nonneg; lia). split; [done|].
    destruct (Z.eq_dec (Z.lxor (ky_length k) (Z.of_nat (length token))) 0) as [->|Hnz]; [lia|]. apply Z.log2_lt_pow2; [lia|].
    pose proof (Z.log2_lxor (ky_length k) (Z.of_nat (length token)) ltac:(lia) ltac:(lia)) as Hlog.
    assert (Z.log2 (ky_length k) < 6 ∧ Z.log2 (Z.of_nat (length token)) < 6); [|lia].
    split; [destruct (Z.eq_dec (ky_length k) 0) as [->|]|destruct (Z.eq_dec (Z.of_nat (length token)) 0) as [->|]]; try (cbn; lia); apply Z.log2_lt_pow2; lia. }
  rewrite Hlx, Forall_forall. change (Z.to_nat kMaxBearerTokenBytes) with 64%nat. split.
  - intros [El Hz]. unfold key_token. apply list_eq. intros i. rewrite El, Nat2Z.id.
    destruct (decide (i < length token)%nat) as [Hi|Hi]; [rewrite lookup_take_lt by done|rewrite lookup_take_ge by lia; apply lookup_ge_None; lia].
    specialize (Hz i ltac:(apply elem_of_seq; lia)). cbv beta in Hz. rewrite (proj2 (Nat.ltb_lt _ _) Hi) in Hz. apply Z.lxor_eq in Hz.
    destruct (lookup_lt_is_Some_2 token i Hi) as [x Hx]. destruct (lookup_lt_is_Some_2 (ky_value k) i ltac:(lia)) as [y Hy]. rewrite Hx, Hy in *. cbn in Hz. congruence.
  - intros ->. unfold key_token. assert (El : ky_length k = Z.of_nat (length (take (Z.to_nat (ky_length k)) (ky_value k)))) by (rewrite length_take; lia). split; [done|].
    intros i Hi. apply elem_of_seq in Hi. cbv beta. assert (Hlt : length (take (Z.to_nat (ky_length k)) (ky_value k)) = Z.to_nat (ky_length k)) by (rewrite length_take; lia).
    rewrite Hlt. destruct (Nat.ltb_spec i (Z.to_nat (ky_length k))) as [Hin|Hout]; [rewrite lookup_take_lt by done; apply Z.lxor_nilpotent|]. by rewrite (Hpad i) by lia.
Qed.

Lemma validate_spec keys token :
  Forall key_ok keys → bytes token →
  validate keys token = true ↔ (0 < length token < 64)%nat ∧ ∃ k, k ∈ keys ∧ key_token k = token.
Proof.
  intros Hk Hb. unfold validate, kMaxBearerTokenBytes. cbv zeta. match goal with |- context [if ?b then _ else _] => destruct b eqn:Hc end; [split; [done|intros [? _]; apply orb_true_iff in Hc; lia]|]. apply orb_false_iff in Hc.
  rewrite negb_true_iff, Z.eqb_neq, (lor_fold_zero (λ k, Z.b2z ((key_difference k token =? 0) && negb (ky_length k =? 0)))).
  assert (Hlen : (0 < length token < 64)%nat) by lia. rewrite Forall_forall in *. split.
  - intros Hn. split; [done|]. setoid_rewrite <- Exists_exists. apply dec_stable. rewrite Exists_exists. intros Hno. apply Hn. split; [done|]. intros k Hin. destruct (Z.eqb_spec (key_difference k token) 0) as [E|]; [|done].
    apply key_difference_zero in E; [|by apply Hk|done|lia]. exfalso. eauto.
  - intros [_ (k & Hin & Ht)] [_ Hf]. specialize (Hf k Hin). specialize (Hk k Hin). cbn in Hf. rewrite (proj2 (Z.eqb_eq _ _)) in Hf by (apply key_difference_zero; [done|done|lia|done]).
    destruct (Z.eqb_spec (ky_length k) 0) as [E|]; [|done]. unfold key_token in Ht. rewrite E in Ht. rewrite take_0 in Ht. subst token. destruct Hlen as [Hlen _]. by apply Nat.lt_irrefl in Hlen.
Qed.

(** A store that was offered tokens, in order. *)
Fixpoint add_all (keys : list Key) (offered : list (list Z)) : option (list Key) :=
  match offered with [] => Some keys | token :: offered' => '(keys, _) ← add_key keys (Some token); add_all keys offered' end.

(** A token that token_fits, and how it is stored. *)
Definition token_fits (token : list Z) : Prop := (0 < length token < 64)%nat.
Definition key_of (token : list Z) : Key := mkKey (Z.of_nat (length token)) (token ++ replicate (64 - length token) 0).
Definition store (accepted : list (list Z)) : list Key := (key_of <$> accepted) ++ replicate (32 - length accepted) Key_init.


Lemma first_free accepted :
  Forall token_fits accepted → first_index (λ k, ky_length k =? 0) (store accepted) = if (length accepted <? 32)%nat then Some (length accepted) else None.
Proof.
  intros Hf. assert (Hused : ∀ j y, (key_of <$> accepted) !! j = Some y → (ky_length y =? 0) = false).
  { intros j y Hy. apply list_lookup_fmap_Some in Hy as (t & -> & Ht). apply (Forall_lookup_1 _ _ _ _ Hf) in Ht. unfold token_fits in Ht. apply Z.eqb_neq. cbn. lia. }
  unfold store. destruct (Nat.ltb_spec (length accepted) 32).
  - apply first_index_Some. split.
    + exists Key_init. split; [|done]. rewrite lookup_app_r, length_fmap by (rewrite length_fmap; lia). apply lookup_replicate_2. lia.
    + intros j y Hj. rewrite lookup_app_l by (rewrite length_fmap; lia). apply Hused.
  - replace (32 - length accepted)%nat with 0%nat by lia. rewrite app_nil_r. apply first_index_None, Forall_lookup. intros j y Hy. by apply (Hused j).
Qed.

(** Adding a token that token_fits stores it while there is room. *)
Lemma add_key_store accepted token :
  Forall token_fits accepted →
  add_key (store accepted) (Some token) =
  Some (if bool_decide (token_fits token) && (length accepted <? 32)%nat then (store (accepted ++ [token]), true) else (store accepted, false)).
Proof.
  intros Hf. unfold add_key, kMaxBearerTokenBytes. cbv zeta. case_bool_decide as Ht; unfold token_fits in Ht.
  - rewrite (proj2 (orb_false_iff _ _)) by lia. rewrite first_free by done. cbn [andb]. destruct (Nat.ltb_spec (length accepted) 32) as [Hr|]; [|done].
    assert (store accepted !! length accepted = Some Key_init) as ->.
    { unfold store. rewrite lookup_app_r, length_fmap by (rewrite length_fmap; lia). apply lookup_replicate_2. lia. }
    cbn [mbind option_bind ky_value Key_init].
    rewrite put_0 by (rewrite length_replicate; lia). rewrite drop_replicate. cbn [mbind option_bind]. do 2 f_equal. unfold store.
    rewrite insert_app_r_alt, length_fmap, Nat.sub_diag by (rewrite length_fmap; lia). rewrite fmap_app, <- app_assoc. f_equal. rewrite length_app.
    replace (32 - length accepted)%nat with (S (32 - (length accepted + length [token]))) by (cbn; lia). cbn [replicate list_insert fmap list_fmap app].
    f_equal. unfold key_of. f_equal. unfold u8. rewrite Z.min_l, Z.mod_small by lia. done.
  - rewrite (proj2 (orb_true_iff _ _)) by lia. done.
Qed.

#[global] Instance token_fits_dec token : Decision (token_fits token).
Proof. unfold token_fits. apply _. Defined.

Lemma key_of_ok token : token_fits token → bytes token → key_ok (key_of token).
Proof.
  intros Hf Hb. unfold token_fits in Hf. unfold key_ok, key_of. cbn [ky_value ky_length]. rewrite length_app, length_replicate. split_and!; [lia| |lia|lia|].
  - apply Forall_app. split; [done|]. apply Forall_replicate. lia.
  - intros i H1 H2. rewrite lookup_app_r by lia. apply lookup_replicate_2. lia.
Qed.

Lemma key_of_token token : key_token (key_of token) = token.
Proof. unfold key_token, key_of. cbn [ky_value ky_length]. rewrite Nat2Z.id. apply take_app_length. Qed.

Lemma add_all_store offered accepted :
  Forall token_fits accepted → (length accepted ≤ 32)%nat →
  add_all (store accepted) offered = Some (store (take 32 (accepted ++ filter token_fits offered))).
Proof.
  revert accepted. induction offered as [|t offered IH]; intros accepted Hf Hl; cbn [add_all].
  - rewrite filter_nil, app_nil_r, take_ge by lia. done.
  - rewrite add_key_store by done. rewrite filter_cons. case_bool_decide as Ht; cbn [andb].
    + rewrite decide_True by done. destruct (Nat.ltb_spec (length accepted) 32) as [Hr|Hr]; cbn [mbind option_bind].
      * rewrite IH by (rewrite ?Forall_app, ?Forall_singleton, ?length_app; cbn [length]; (done || lia)). by rewrite <- app_assoc.
      * rewrite IH by done. rewrite !take_app, !(take_ge accepted) by lia. replace (32 - length accepted)%nat with 0%nat by lia. by rewrite !take_0.
    + rewrite decide_False by done. cbn [mbind option_bind]. by apply IH.
Qed.

(** A store accepts exactly the first 32 tokens that fit. *)
Lemma bearer_store offered :
  Forall bytes offered →
  ∃ keys, add_all BearerKeyStore_new offered = Some keys ∧
  ∀ token, bytes token → validate keys token = true ↔ token ∈ take 32 (filter token_fits offered).
Proof.
  intros Hb. change BearerKeyStore_new with (store []). rewrite add_all_store by (done || cbn; lia). cbn [app]. eexists. split; [done|].
  intros token Ht. set (accepted := take 32 (filter token_fits offered)).
  assert (Hacc : ∀ t, t ∈ accepted → token_fits t ∧ bytes t).
  { intros t Hin. apply (subseteq_take 32), list_elem_of_filter in Hin as [Hf Hin]. rewrite Forall_forall in Hb. auto. }
  rewrite validate_spec; [|unfold store|done].
  - unfold store. split.
    + intros [Hl (k & Hk & <-)]. apply elem_of_app in Hk as [Hk|Hk]; [|apply elem_of_replicate in Hk as [-> _]; destruct Hl as [Hl _]; by apply Nat.lt_irrefl in Hl].
      apply list_elem_of_fmap in Hk as (t & -> & Hin). by rewrite key_of_token.
    + intros Hin. split; [by apply Hacc|]. exists (key_of token). split; [|apply key_of_token]. apply elem_of_app. left. by apply list_elem_of_fmap_2.
  - apply Forall_app. split.
    + apply Forall_fmap, Forall_forall. intros t Hin. apply Hacc in Hin as [? ?]. by apply key_of_ok.
    + apply Forall_replicate. split_and!; [done|by apply Forall_replicate|cbn; lia|cbn; lia|]. intros i _ Hi. by apply lookup_replicate_2.
Qed.

(** The control plane admits exactly the configured keys.  After any
    tokens were offered to an empty store, [validate] accepts a token when it is one
    of the first 32 offered ones of 1 to 63 characters, and nothing else: no prefix,
    no extension, no padding of a key, and no empty token.  The comparison that looks
    at all 64 bytes of all 32 slots is exact. *)
Theorem bearer_keys_exact offered :
  Forall bytes offered →
  ∃ keys, add_all BearerKeyStore_new offered = Some keys ∧
  ∀ token, bytes token → validate keys token = true ↔ token ∈ take 32 (filter token_fits offered).
Proof. apply bearer_store. Qed.

Lemma bearer_keys_exact_witness :
  ∃ keys, add_all BearerKeyStore_new [[]; [65; 66]; replicate 64 65] = Some keys ∧ validate keys [65; 66] = true ∧ validate keys [65] = false.
Proof.
  destruct (bearer_keys_exact [[]; [65; 66]; replicate 64 65]) as (keys & E & H); [by_decide|]. exists keys. split; [done|]. split.
  - apply H; [by_decide|]. by_decide.
  - apply not_true_is_false. rewrite H by by_decide. by_decide.
Defined.

(** ** ExecutionBridge *)

Inductive Command := kSubmit | kQuery | kCancel | kPositions.
Inductive OrderStatus := stPending | stLive | stPartial | stCancelled | stDone | stRejected | stNotFound.
#[global] Instance Command_dec : EqDecision Command.
Proof. solve_decision. Defined.
#[global] Instance OrderStatus_dec : EqDecision OrderStatus.
Proof. solve_decision. Defined.

Record OrderSnapshot := mkSnapshot {
  os_order_id : Z; os_price : Z; os_quantity : Z; os_filled_quantity : Z; os_symbol_idx : Z; os_side : Z; os_status : OrderStatus; os_reject_mask : Z
}.
Definition OrderSnapshot_new (order_id : Z) (status : OrderStatus) : OrderSnapshot := mkSnapshot order_id 0 0 0 0 kBuy status 0.

Record PositionSnapshot := mkPosition { ps_symbol_idx : Z; ps_net_position : Z; ps_gross_exposure : Z }.
Record Request := mkRequest { rq_command : Command; rq_request_id : Z; rq_order_id : Z; rq_order : OrderIntent }.
Record AcceptedSubmission := mkAccepted { ac_order_id : Z; ac_quantity : Z; ac_symbol_idx : Z; ac_accepted : bool }.
Definition AcceptedSubmission_init : AcceptedSubmission := mkAccepted 0 0 0 false.

(** [rp_positions] are the first [position_count] entries of the array. *)
Record Response := mkResponse { rp_request_id : Z; rp_order : OrderSnapshot; rp_positions : list PositionSnapshot }.

Record Bridge := mkBridge { br_requests : list Request; br_responses : list Response; br_deferred : option Response }.
Definition Bridge_new : Bridge := mkBridge [] [] None.

Definition kRequestCapacity : nat := 256.
Definition kResponseCapacity : nat := 8.

Definition bridge_submit (b : Bridge) (r : Request) : Bridge * bool :=
  if (length (br_requests b) <? kRequestCapacity)%nat
  then (mkBridge (br_requests b ++ [r]) (br_responses b) (br_deferred b), true) else (b, false).

Definition try_take_response (b : Bridge) : Bridge * option Response :=
  match br_responses b with
  | [] => (b, None)
  | r :: rs => (mkBridge (br_requests b) rs (br_deferred b), Some r)
  end.

Definition push_response (b : Bridge) (r : Response) : option Bridge :=
  if (length (br_responses b) <? kResponseCapacity)%nat
  then Some (mkBridge (br_requests b) (br_responses b ++ [r]) (br_deferred b)) else None.

(** [None] is a signed overflow. *)
Definition snapshot (o : ActiveOrder) : option OrderSnapshot :=
  quantity ← chk64 (ao_qty o + ao_filled_qty o);
  Some (mkSnapshot (ao_order_id o) (ao_price o) quantity (ao_filled_qty o) (u16 (ao_symbol_idx o)) (ao_side o)
    (if ao_state o =? 1 then stLive else if ao_state o =? 2 then stPartial else if ao_state o =? 3 then stDone else stNotFound) 0).

Section process.
Context {T : Type} `{OrderTable T}.
Context (sha256 : list Z → list Z) (env : Env).

(** The loop over the symbols; it stops at the first one without a position. *)
Fixpoint open_positions (g : Gateway T) (syms : list Z) : list PositionSnapshot :=
  match syms with
  | [] => []
  | sym :: syms' =>
      match query_position g sym with
      | None => []
      | Some state =>
          if negb (net_position state =? 0) || negb (gross_exposure state =? 0)
          then mkPosition sym (net_position state) (gross_exposure state) :: open_positions g syms' else open_positions g syms'
      end
  end.

(** The response to a request that is not a submission. *)
Definition respond (r : Request) : ST (Gateway T) Response :=
  match rq_command r with
  | kQuery =>
      g ← gw_get (λ g, g);
      match query_order g (rq_order_id r) with
      | Some o => order ← lift (snapshot o); mret (mkResponse (rq_request_id r) order [])
      | None => mret (mkResponse (rq_request_id r) (OrderSnapshot_new (rq_order_id r) stNotFound) [])
      end
  | kCancel =>
      ok ← cancel_order env (rq_order_id r);
      mret (mkResponse (rq_request_id r) (OrderSnapshot_new (rq_order_id r) (if (ok : bool) then stCancelled else stNotFound)) [])
  | kPositions => g ← gw_get (λ g, g); mret (mkResponse (rq_request_id r) (OrderSnapshot_new 0 stNotFound) (open_positions g symbols))
  | kSubmit => mret (mkResponse (rq_request_id r) (OrderSnapshot_new 0 stNotFound) [])
  end.

Definition flush_deferred (b : Bridge) : option (Bridge * bool) :=
  match br_deferred b with
  | None => Some (b, false)
  | Some r => b ← push_response b r; Some (mkBridge (br_requests b) (br_responses b) None, true)
  end.

(** [packet] is the caller's buffer, or a local one when it passes none; a caller that
    passes no [accepted] drops that result. *)
Definition process_one (b : Bridge) (packet : OutboundPacket) : ST (Gateway T) (Bridge * bool * AcceptedSubmission * OutboundPacket) :=
  match flush_deferred b with
  | None => mret (b, false, AcceptedSubmission_init, packet)
  | Some (b, flushed_deferred_response) =>
      match br_requests b with
      | [] => mret (b, flushed_deferred_response, AcceptedSubmission_init, packet)
      | r :: rs =>
          let b := mkBridge rs (br_responses b) (br_deferred b) in
          if bool_decide (rq_command r = kSubmit) then
            '(decision, packet) ← try_build sha256 env (rq_order r) packet;
            mret (b, true,
              (if rd_pass decision then mkAccepted (oi_client_order_id (rq_order r)) (oi_qty (rq_order r)) (oi_symbol_idx (rq_order r)) true
               else AcceptedSubmission_init), packet)
          else
            response ← respond r;
            mret (match push_response b response with
                  | Some b => b
                  | None => mkBridge (br_requests b) (br_responses b) (Some response)
                  end, true, AcceptedSubmission_init, packet)
      end
  end.
End process.

(** ** What the bridge owes

    The request ids whose responses have yet to be taken: those that wait in the
    response queue, the deferred one, and the queued requests that get a response. *)

Definition wants_response (r : Request) : Prop := rq_command r ≠ kSubmit.
#[global] Instance wants_response_dec r : Decision (wants_response r).
Proof. unfold wants_response. apply _. Defined.

Definition owed (b : Bridge) : list Z :=
  (rp_request_id <$> br_responses b) ++ (rp_request_id <$> option_list (br_deferred b)) ++ (rq_request_id <$> filter wants_response (br_requests b)).

Definition bridge_ok (b : Bridge) : Prop := (length (br_requests b) ≤ kRequestCapacity)%nat ∧ (length (br_responses b) ≤ kResponseCapacity)%nat.

Lemma bridge_submit_owed b r :
  let '(b', ok) := bridge_submit b r in
  bridge_ok b → bridge_ok b' ∧ owed b' = owed b ++ (if (ok : bool) && bool_decide (wants_response r) then [rq_request_id r] else []).
Proof.
  unfold bridge_submit. destruct (Nat.ltb_spec (length (br_requests b)) kRequestCapacity) as [Hl|Hl].
  - intros [H1 H2]. split; [split; [cbn; rewrite length_app; cbn; lia|done]|]. unfold owed. cbn [br_requests br_responses br_deferred]. rewrite filter_app, fmap_app, <- !app_assoc.
    do 3 f_equal. rewrite filter_cons, filter_nil. case_bool_decide; [by rewrite decide_True|by rewrite decide_False].
  - intros Hb. cbn [andb]. by rewrite app_nil_r.
Qed.

Lemma take_response_owed b :
  let '(b', r) := try_take_response b in
  bridge_ok b → bridge_ok b' ∧ owed b = (rp_request_id <$> option_list r) ++ owed b'.
Proof.
  unfold try_take_response. destruct b as [rq [|r rs] d]; cbn [br_responses]; [done|]. intros [H1 H2]. cbn in H2. split; [split; [done|cbn; lia]|]. done.
Qed.

Section progress.
Context {T : Type} `{OrderTable T}.
Implicit Types g : Gateway T.


(** The gateway's part in a request: what it answers, or an empty response for a
    submission. *)
Definition gateway_part sha256 env (r : Request) (packet : OutboundPacket) : ST (Gateway T) unit :=
  if bool_decide (rq_command r = kSubmit) then try_build sha256 env (rq_order r) packet;; mret tt else respond env r;; mret tt.

Lemma respond_id env r g : safe (respond (T := T) env r) g (λ rp _, rp_request_id rp = rq_request_id r).
Proof.
  unfold respond. destruct (rq_command r).
  - done.
  - apply safe_bind. unfold gw_get. cbn. destruct (query_order g _); [|done]. apply safe_bind, safe_lift. done.
  - apply safe_bind. unfold safe at 1. by destruct (cancel_order env _ g) as [[? ?]|].
  - done.
Qed.

Lemma flush_deferred_owed b :
  match flush_deferred b with
  | Some (b', flushed) => (bridge_ok b → bridge_ok b') ∧ owed b' = owed b ∧ br_deferred b' = None ∧ br_requests b' = br_requests b ∧
      (flushed = false → b' = b)
  | None => bridge_ok b → is_Some (br_deferred b) ∧ length (br_responses b) = kResponseCapacity
  end.
Proof using Type.
  destruct b as [rq rs [d|]]; unfold flush_deferred, push_response; cbn [br_deferred br_responses br_requests]; [|done].
  destruct (Nat.ltb_spec (length rs) kResponseCapacity) as [Hl|Hl]; cbn [mbind option_bind br_requests br_responses].
  - split_and!; try done; [intros [? ?]; split; [done|cbn; rewrite length_app; cbn; lia]|]. unfold owed. cbn [br_responses br_deferred br_requests option_list fmap list_fmap].
    rewrite fmap_app, <- app_assoc. done.
  - intros [_ Hb]. cbn in Hb. split; [done|lia].
Qed.

(** One turn of the execution owner. *)
Lemma process_one_owed sha256 env b packet g :
  bridge_ok b →
  safe (process_one sha256 env b packet) g (λ '(b', busy, _, _) _,
    bridge_ok b' ∧ owed b' = owed b ∧
    (busy = false → b' = b ∧ (br_requests b = [] ∧ br_deferred b = None ∨ is_Some (br_deferred b) ∧ length (br_responses b) = kResponseCapacity))).
Proof.
  intros Hb. unfold process_one. pose proof (flush_deferred_owed b) as Hf. destruct (flush_deferred b) as [[b1 flushed]|].
  2: { split_and!; [done..|]. intros _. auto. }
  destruct Hf as (Hok & Ho & Hd & Hr & Hnf). specialize (Hok Hb). rewrite <- Ho. clear Ho. destruct b1 as [[|r rs] rp d]; cbn [br_requests br_responses br_deferred] in *; subst d.
  { split_and!; [done..|]. intros Hfl. specialize (Hnf Hfl). subst b. split; [done|by left]. }
  assert (Hrs : bridge_ok (mkBridge rs rp None)) by (destruct Hok as [Hok1 Hok2]; cbn in Hok1; split; [cbn; lia|done]).
  assert (owed (mkBridge (r :: rs) rp None) = (rp_request_id <$> rp) ++ (rq_request_id <$> filter wants_response (r :: rs))) as -> by done.
  rewrite filter_cons. case_bool_decide as Hc.
  - rewrite decide_False by (unfold wants_response; by intros []). apply safe_bind. unfold safe at 1. destruct (try_build _ _ _ _ _) as [[[d p] g']|]; [|done]. done.
  - rewrite decide_True by done. apply safe_bind. eapply safe_mono; [apply respond_id|]. intros resp g' Hid. cbv beta in Hid. apply safe_ret.
    unfold push_response. cbn [br_responses br_requests br_deferred]. destruct (Nat.ltb_spec (length rp) kResponseCapacity); (split_and!; [| |done]).
    + destruct Hrs as [Hrs1 Hrs2]. split; [done|cbn; rewrite length_app; cbn; lia].
    + unfold owed. cbn [br_requests br_responses br_deferred option_list]. rewrite fmap_app, <- app_assoc. cbn. by rewrite Hid.
    + done.
    + unfold owed. cbn. by rewrite Hid.
Qed.

Lemma process_one_returns sha256 env b packet g :
  (∀ r, head (br_requests b) = Some r → is_Some (gateway_part sha256 env r packet g)) → is_Some (process_one sha256 env b packet g).
Proof.
  intros H1. unfold process_one. pose proof (flush_deferred_owed b) as Hf. destruct (flush_deferred b) as [[b1 flushed]|]; [|done].
  destruct Hf as (_ & _ & _ & E & _). rewrite <- E in H1. destruct (br_requests b1) as [|r rs]; [done|]. specialize (H1 r eq_refl). unfold gateway_part in H1. revert H1.
  case_bool_decide; unfold mbind, st_bind; [destruct (try_build _ _ _ _ _) as [[[? ?] ?]|]|destruct (respond _ _ _) as [[? ?]|]]; try done; by intros [? ?].
Qed.
End progress.

(** ** A history of the bridge *)

(** The HTTP thread submits and takes, the execution owner processes. *)
Inductive BridgeOp := opSubmit (r : Request) | opTake | opProcess (env : Env) (packet : OutboundPacket).

Section history.
Context {T : Type} `{OrderTable T}.
Context (sha256 : list Z → list Z).

Record History := mkHistory { hi_bridge : Bridge; hi_asked : list Z; hi_taken : list Z }.

Definition bridge_op (h : History) (op : BridgeOp) : ST (Gateway T) History :=
  let b := hi_bridge h in
  match op with
  | opSubmit r =>
      let '(b, ok) := bridge_submit b r in
      mret (mkHistory b (hi_asked h ++ if (ok : bool) && bool_decide (wants_response r) then [rq_request_id r] else []) (hi_taken h))
  | opTake =>
      let '(b, rp) := try_take_response b in
      mret (mkHistory b (hi_asked h) (hi_taken h ++ (rp_request_id <$> option_list rp)))
  | opProcess env packet =>
      '(b, _, _, _) ← process_one sha256 env b packet;
      mret (mkHistory b (hi_asked h) (hi_taken h))
  end.

Fixpoint bridge_run (h : History) (ops : list BridgeOp) : ST (Gateway T) History :=
  match ops with [] => mret h | op :: ops' => h ← bridge_op h op; bridge_run h ops' end.

Definition history_ok (h : History) : Prop := bridge_ok (hi_bridge h) ∧ hi_asked h = hi_taken h ++ owed (hi_bridge h).

Lemma bridge_op_ok h op g : history_ok h → safe (bridge_op h op) g (λ h' _, history_ok h').
Proof.
  intros [Hb Ha]. destruct op as [r| |env packet]; cbn [bridge_op].
  - pose proof (bridge_submit_owed (hi_bridge h) r) as Hs. destruct (bridge_submit (hi_bridge h) r) as [b ok]. destruct (Hs Hb) as [Hb' Ho].
    split; [done|]. cbn [hi_asked hi_taken hi_bridge]. by rewrite Ho, Ha, app_assoc.
  - pose proof (take_response_owed (hi_bridge h)) as Ht. destruct (try_take_response (hi_bridge h)) as [b rp]. destruct (Ht Hb) as [Hb' Ho].
    split; [done|]. cbn [hi_asked hi_taken hi_bridge]. by rewrite Ha, Ho, app_assoc.
  - apply safe_bind. eapply safe_mono; [by apply process_one_owed|]. intros [[[b busy] acc] p] g' (Hb' & Ho & _). split; [done|]. cbn [hi_asked hi_taken hi_bridge]. by rewrite Ho.
Qed.

Lemma bridge_run_ok h ops g : history_ok h → safe (bridge_run h ops) g (λ h' _, history_ok h').
Proof.
  revert h g. induction ops as [|op ops IH]; intros h g Hh; [done|]. apply safe_bind. eapply safe_mono; [by apply bridge_op_ok|]. intros h' g' Hh'. by apply IH.
Qed.
End history.

(** C15 (safety): no response is lost, repeated or reordered between the two threads.
    In every history of submissions, takes and turns of the execution owner, the
    request ids taken so far are, in order, the first of the ids the bridge accepted
    for a response; what is missing is in the response queue, in the spill slot or
    in the request queue, and the queues keep within 256 and 8 entries.  A turn ends
    whenever the gateway's part does, and one that reports no work leaves the bridge
    alone: it has no request, or the spilled response still finds the queue full. *)
Theorem bridge_answers_in_order {T} `{OrderTable T} sha256 (ops : list BridgeOp) (g g' : Gateway T) h :
  bridge_run sha256 (mkHistory Bridge_new [] []) ops g = Some (h, g') →
  bridge_ok (hi_bridge h) ∧ hi_asked h = hi_taken h ++ owed (hi_bridge h) ∧
  ∀ env packet, (∀ r, head (br_requests (hi_bridge h)) = Some r → is_Some (gateway_part sha256 env r packet g')) →
  ∃ b busy acc p g'', process_one sha256 env (hi_bridge h) packet g' = Some (b, busy, acc, p, g'') ∧ owed b = owed (hi_bridge h) ∧
  (busy = false → b = hi_bridge h ∧
    (br_requests b = [] ∧ br_deferred b = None ∨ is_Some (br_deferred b) ∧ length (br_responses b) = kResponseCapacity)).
Proof.
  intros E. assert (Hh : history_ok (mkHistory Bridge_new [] [])) by (split; [by split; cbn; lia|done]).
  pose proof (bridge_run_ok sha256 _ ops g Hh) as Hs. unfold safe in Hs. rewrite E in Hs. destruct Hs as [Hb Ha]. split_and!; [done..|].
  intros env packet Hp. destruct (process_one_returns sha256 env _ packet g' Hp) as [[[[[b busy] acc] p] g''] Eb].
  pose proof (process_one_owed sha256 env _ packet g' Hb) as Ho. unfold safe in Ho. rewrite Eb in Ho. destruct Ho as (_ & Ho & Hi).
  exists b, busy, acc, p, g''. split_and!; [done..|]. intros Hbusy. destruct (Hi Hbusy) as [-> Hc]. done.
Qed.

(** A submission, a query and a snapshot of the positions; two turns and a take. *)
Definition bridge_demo : list BridgeOp :=
  [opSubmit (mkRequest kSubmit 0 0 (demo_order 3 5)); opSubmit (mkRequest kQuery 7 5 (demo_order 0 0)); opSubmit (mkRequest kPositions 8 0 (demo_order 0 0));
   opProcess demo_env demo_packet; opProcess demo_env demo_packet; opTake].

Lemma bridge_answers_in_order_witness :
  ∃ h (g' : Gateway _), bridge_run toy_sha (mkHistory Bridge_new [] []) bridge_demo demo_gateway = Some (h, g') ∧
    hi_taken h = [7] ∧ owed (hi_bridge h) = [8] ∧ hi_asked h = [7] ++ [8].
Proof.
  destruct (bridge_run toy_sha (mkHistory Bridge_new [] []) bridge_demo demo_gateway) as [[h g']|] eqn:E; [|by vm_compute in E].
  destruct (bridge_answers_in_order toy_sha bridge_demo demo_gateway g' h E) as (_ & Ha & _). exists h, g'.
  assert (Hh : (hi_taken h, owed (hi_bridge h)) = ([7], [8])) by (vm_compute in E; by injection E as <- _).
  injection Hh as Ht Ho. rewrite Ha, Ht, Ho. done.
Defined.
