(* ===== verification/HttpServer.v ===== *)
(** * HttpServer: the control plane's listener (src/luv_http_server.cpp)

    One thread owns a fixed table of 64 clients, the identifiers of the requests in
    flight and the one buffer for position snapshots.  A client's [incoming] is the
    list of the bytes received ([incoming_size] is its length, and a null byte
    follows); [outgoing] is the list of the bytes to send.  [positions_body] is what
    is written of the snapshot buffer.  System calls are inputs: the descriptors
    accepted, the bytes received, the outcomes of [send] and the clock.  The log
    records what happens to the clients' sockets. *)

From S2P Require Import Prelude Arena Gateway Risk WsText WsAccept WsConn WsServer HttpText Printf HttpBridge.
From Stdlib Require Import ZArith Lia String.
From stdpp Require Import base tactics gmap numbers option list.
Open Scope Z_scope.

Definition UINT32_MAX : Z := 2 ^ 32 - 1.
Definition kMaxClientSlots : nat := 64.
Definition kMaxAcceptsPerTurn : nat := 16.
Definition kMaxRequestBytes : nat := 2048.
Definition kMaxClientReadBytes : nat := 4096.
Definition kMaxPendingExecutionResponses : nat := 8.
Definition kMaxInlineResponseBytes : nat := 1024.
Definition kMaxPositionsJsonBytes : Z := 64 * 1024.
Definition kResponseWriteTimeoutNs : Z := 5000000000.
Definition kDefaultWriteChunkBytes : Z := 16 * 1024.
Definition kNoClientSlot : Z := UINT32_MAX.

Definition status_name (s : OrderStatus) : list Z :=
  match s with
  | stPending => str "pending" | stLive => str "live" | stPartial => str "partial" | stCancelled => str "cancelled"
  | stDone => str "done" | stRejected => str "rejected" | stNotFound => str "not_found"
  end.

(** The head of every response. *)
Definition response_head (status : Z) (reason : list Z) (body_size : nat) : list Z :=
  str "HTTP/1.1 " ++ print_signed status ++ [32] ++ reason ++ crlf ++ str "Content-Type: application/json" ++ crlf ++
  str "Content-Length: " ++ print_unsigned (Z.of_nat body_size) ++ crlf ++ str "Connection: close" ++ crlf ++ crlf.

(** What [reject_unowned_connection] sends. *)
Definition rejection (status : Z) (reason body : list Z) : option (list Z) :=
  let response := response_head status reason (length body) ++ body in
  if (length response <? 256)%nat then Some response else None.

(** ** The state *)

Record ClientSlot := mkClient {
  cl_fd : Z;
  cl_deadline_ns : Z;
  cl_request_id : Z;
  cl_incoming : list Z;
  cl_header_size : nat;
  cl_required_size : nat;
  cl_command : Command;
  cl_header_complete : bool;
  cl_waiting_response : bool;
  cl_sending_response : bool;
  cl_owns_positions_body : bool;
  cl_outgoing : list Z;
  cl_outgoing_offset : nat;
  cl_positions_body_offset : nat
}.
Definition ClientSlot_init : ClientSlot := mkClient (-1) 0 0 [] 0 0 kSubmit false false false false [] 0 0.

Inductive SocketEvent := evAccept (fd : Z) | evSend (fd : Z) (bytes : list Z) | evClose (fd : Z).

Record HttpServer := mkHttp {
  ht_fd : Z;
  ht_port : Z;
  ht_running : bool;
  ht_thread : bool;
  ht_next_order_id : Z;
  ht_outstanding : list Z;
  ht_clients : list ClientSlot;
  ht_positions_body : list Z;
  ht_positions_owner : Z;
  (** beyond the class: the global counter, the other threads' objects, the sockets *)
  ht_next_request_id : Z;
  ht_bridge : Bridge;
  ht_websocket : option Server;
  ht_log : list SocketEvent
}.

Definition with_listener h fd port running thread := mkHttp fd port running thread (ht_next_order_id h) (ht_outstanding h) (ht_clients h)
  (ht_positions_body h) (ht_positions_owner h) (ht_next_request_id h) (ht_bridge h) (ht_websocket h) (ht_log h).
Definition with_order_id h x := mkHttp (ht_fd h) (ht_port h) (ht_running h) (ht_thread h) x (ht_outstanding h) (ht_clients h)
  (ht_positions_body h) (ht_positions_owner h) (ht_next_request_id h) (ht_bridge h) (ht_websocket h) (ht_log h).
Definition with_outstanding h x := mkHttp (ht_fd h) (ht_port h) (ht_running h) (ht_thread h) (ht_next_order_id h) x (ht_clients h)
  (ht_positions_body h) (ht_positions_owner h) (ht_next_request_id h) (ht_bridge h) (ht_websocket h) (ht_log h).
Definition with_clients h x := mkHttp (ht_fd h) (ht_port h) (ht_running h) (ht_thread h) (ht_next_order_id h) (ht_outstanding h) x
  (ht_positions_body h) (ht_positions_owner h) (ht_next_request_id h) (ht_bridge h) (ht_websocket h) (ht_log h).
Definition with_positions h body owner := mkHttp (ht_fd h) (ht_port h) (ht_running h) (ht_thread h) (ht_next_order_id h) (ht_outstanding h)
  (ht_clients h) body owner (ht_next_request_id h) (ht_bridge h) (ht_websocket h) (ht_log h).
Definition with_request_id h x := mkHttp (ht_fd h) (ht_port h) (ht_running h) (ht_thread h) (ht_next_order_id h) (ht_outstanding h)
  (ht_clients h) (ht_positions_body h) (ht_positions_owner h) x (ht_bridge h) (ht_websocket h) (ht_log h).
Definition with_bridge h x := mkHttp (ht_fd h) (ht_port h) (ht_running h) (ht_thread h) (ht_next_order_id h) (ht_outstanding h)
  (ht_clients h) (ht_positions_body h) (ht_positions_owner h) (ht_next_request_id h) x (ht_websocket h) (ht_log h).
Definition with_websocket h x := mkHttp (ht_fd h) (ht_port h) (ht_running h) (ht_thread h) (ht_next_order_id h) (ht_outstanding h)
  (ht_clients h) (ht_positions_body h) (ht_positions_owner h) (ht_next_request_id h) (ht_bridge h) x (ht_log h).
Definition with_log h x := mkHttp (ht_fd h) (ht_port h) (ht_running h) (ht_thread h) (ht_next_order_id h) (ht_outstanding h)
  (ht_clients h) (ht_positions_body h) (ht_positions_owner h) (ht_next_request_id h) (ht_bridge h) (ht_websocket h) x.

Notation HT := (ST HttpServer).

Definition ht_get : HT HttpServer := λ h, Some (h, h).
Definition ht_modify (f : HttpServer → HttpServer) : HT unit := λ h, Some (tt, f h).
Definition log_event (e : SocketEvent) : HT unit := ht_modify (λ h, with_log h (ht_log h ++ [e])).
Definition client (i : nat) : HT ClientSlot := h ← ht_get; lift (ht_clients h !! i).
Definition set_client (i : nat) (c : ClientSlot) : HT unit := ht_modify (λ h, with_clients h (<[i := c]> (ht_clients h))).

Definition HttpServer_new (first_order_id next_request_id : Z) (b : Bridge) (websocket : option Server) : HttpServer :=
  mkHttp (-1) 0 false false first_order_id (replicate kMaxPendingExecutionResponses 0) (replicate kMaxClientSlots ClientSlot_init) [] kNoClientSlot
    next_request_id b websocket [].

(** ** Identifiers *)

Definition take_http_request_id : HT Z :=
  h ← ht_get;
  let id := ht_next_request_id h in
  if id =? 0 then mret 0 else
  ht_modify (λ h, with_request_id h (if id =? UINT64_MAX then 0 else id + 1));; mret id.

Definition take_order_id : HT Z :=
  h ← ht_get;
  let id := ht_next_order_id h in
  if id =? 0 then mret 0 else
  ht_modify (λ h, with_order_id h (if id =? UINT32_MAX then 0 else id + 1));; mret id.

Definition reserve_response_id (request_id : Z) : HT bool :=
  if request_id =? 0 then mret false else
  h ← ht_get;
  match first_index (λ o, o =? 0) (ht_outstanding h) with
  | None => mret false
  | Some k => ht_modify (λ h, with_outstanding h (<[k := request_id]> (ht_outstanding h)));; mret true
  end.

Definition release_response_id (request_id : Z) : HT bool :=
  if request_id =? 0 then mret false else
  h ← ht_get;
  match first_index (λ o, o =? request_id) (ht_outstanding h) with
  | None => mret false
  | Some k => ht_modify (λ h, with_outstanding h (<[k := 0]> (ht_outstanding h)));; mret true
  end.

(** ** The snapshot buffer *)

Definition set_owns c (owns : bool) (offset : nat) := mkClient (cl_fd c) (cl_deadline_ns c) (cl_request_id c) (cl_incoming c) (cl_header_size c)
  (cl_required_size c) (cl_command c) (cl_header_complete c) (cl_waiting_response c) (cl_sending_response c) owns (cl_outgoing c) (cl_outgoing_offset c) offset.

Definition reserve_positions_body (i : nat) : HT bool :=
  c ← client i; h ← ht_get;
  if cl_owns_positions_body c || negb (ht_positions_owner h =? kNoClientSlot) then mret false else
  ht_modify (λ h, with_positions h [] (Z.of_nat i));;
  set_client i (set_owns c true (cl_positions_body_offset c));; mret true.

Definition release_positions_body (i : nat) : HT unit :=
  c ← client i; h ← ht_get;
  if negb (cl_owns_positions_body c) then mret tt else
  (if ht_positions_owner h =? Z.of_nat i then ht_modify (λ h, with_positions h [] kNoClientSlot) else mret tt);;
  set_client i (set_owns c false 0).

(** ** Clients *)

Definition close_client (i : nat) : HT unit :=
  c ← client i;
  release_positions_body i;;
  set_client i ClientSlot_init;;
  if 0 <=? cl_fd c then log_event (evClose (cl_fd c)) else mret tt.

Fixpoint each_client (n i : nat) (f : nat → HT unit) : HT unit :=
  match n with O => mret tt | S n' => f i;; each_client n' (S i) f end.
Definition for_clients (f : nat → HT unit) : HT unit := each_client kMaxClientSlots 0 f.

Definition close_all_clients : HT unit := for_clients close_client.

Section config.
Context (keys : list Key) (response_wait_ms max_write_chunk_bytes : Z).

(** A connection that [accept] returned: its descriptor, whether it could be made
    non-blocking, and the clock behind it.  The rejection is sent once, and whatever
    becomes of it ignored: the log has what was offered. *)
Record Accepted := mkAcceptedFd { ad_fd : Z; ad_nonblocking : bool; ad_now : Z }.

Definition deadline (now : Z) : Z := u64 (now + response_wait_ms * 1000000).

Definition acquire_client (h : HttpServer) : option nat := first_index (λ c, cl_fd c <? 0) (ht_clients h).

Definition accept_client (a : Accepted) : HT unit :=
  log_event (evAccept (ad_fd a));;
  if negb (ad_nonblocking a) then log_event (evClose (ad_fd a)) else
  h ← ht_get;
  match acquire_client h with
  | None =>
      match rejection 503 (str "Service Unavailable") (json "{'error':'connection_pool_exhausted'}") with
      | Some response => log_event (evSend (ad_fd a) response)
      | None => mret tt
      end;;
      log_event (evClose (ad_fd a))
  | Some i => set_client i (mkClient (ad_fd a) (deadline (ad_now a)) 0 [] 0 0 kSubmit false false false false [] 0 0)
  end.

(** The turn ends with the list: nothing left to accept, or a server that stops. *)
Fixpoint accept_each (accepted : list Accepted) : HT unit :=
  match accepted with [] => mret tt | a :: accepted' => accept_client a;; accept_each accepted' end.
Definition accept_clients (accepted : list Accepted) : HT unit := accept_each (take kMaxAcceptsPerTurn accepted).

(** ** Sending *)

(** The clock and the outcomes of [send], until one that is not an interruption. *)
Record IoEnv := mkIo { io_now : Z; io_sends : list SendResult }.

Definition set_sent c (outgoing positions : nat) := mkClient (cl_fd c) (cl_deadline_ns c) (cl_request_id c) (cl_incoming c) (cl_header_size c)
  (cl_required_size c) (cl_command c) (cl_header_complete c) (cl_waiting_response c) (cl_sending_response c) (cl_owns_positions_body c) (cl_outgoing c)
  outgoing positions.

(** [send] takes at most the bytes it is given. *)
Fixpoint send_loop (sends : list SendResult) (i : nat) (rest : list Z) (advance : ClientSlot → nat → ClientSlot) : HT unit :=
  match sends with
  | [] | SendWouldBlock :: _ => mret tt
  | SendInterrupted :: sends' => send_loop sends' i rest advance
  | SendFailed :: _ => close_client i
  | Sent n :: _ =>
      let sent := Z.to_nat (Z.min n (Z.of_nat (length rest))) in
      if (sent =? 0)%nat then close_client i else
      c ← client i;
      log_event (evSend (cl_fd c) (take sent rest));; set_client i (advance c sent)
  end.

Definition flush_client (i : nat) (sends : list SendResult) : HT unit :=
  c ← client i; h ← ht_get;
  if (cl_fd c <? 0) || negb (cl_sending_response c) then mret tt else
  let configured_chunk := if max_write_chunk_bytes =? 0 then kDefaultWriteChunkBytes else max_write_chunk_bytes in
  let chunk l := take (Z.to_nat configured_chunk) l in
  if (cl_outgoing_offset c <? length (cl_outgoing c))%nat then
    send_loop sends i (chunk (drop (cl_outgoing_offset c) (cl_outgoing c)))
      (λ c n, set_sent c (cl_outgoing_offset c + n) (cl_positions_body_offset c))
  else if cl_owns_positions_body c && (cl_positions_body_offset c <? length (ht_positions_body h))%nat then
    send_loop sends i (chunk (drop (cl_positions_body_offset c) (ht_positions_body h)))
      (λ c n, set_sent c (cl_outgoing_offset c) (cl_positions_body_offset c + n))
  else close_client i.

(** A response in [outgoing], to be sent by the deadline. *)
Definition set_outgoing c (outgoing : list Z) (now : Z) := mkClient (cl_fd c) (u64 (now + kResponseWriteTimeoutNs)) (cl_request_id c) (cl_incoming c)
  (cl_header_size c) (cl_required_size c) (cl_command c) (cl_header_complete c) false true (cl_owns_positions_body c) outgoing 0 0.

Definition queue_inline_json (i : nat) (status : Z) (reason body : list Z) (env : IoEnv) : HT unit :=
  c ← client i;
  if cl_fd c <? 0 then mret tt else
  release_positions_body i;;
  let head := response_head status reason (length body) in
  if (kMaxInlineResponseBytes <=? length head)%nat || (kMaxInlineResponseBytes - length head <? length body)%nat then close_client i else
  c ← client i;
  set_client i (set_outgoing c (head ++ body) (io_now env));;
  flush_client i (io_sends env).

(** The entries of a snapshot; [None] when the buffer is too small. *)
Fixpoint positions_entries (body : list Z) (first : bool) (ps : list PositionSnapshot) : option (list Z) :=
  match ps with
  | [] => Some body
  | p :: ps' =>
      let entry := (if first then [] else str ",") ++ json "{'symbol_idx':" ++ print_unsigned (ps_symbol_idx p) ++ json ",'net_position':" ++
        print_signed (ps_net_position p) ++ json ",'gross_exposure':" ++ print_signed (ps_gross_exposure p) ++ str "}" in
      if kMaxPositionsJsonBytes - Z.of_nat (length body) <=? Z.of_nat (length entry) then None else positions_entries (body ++ entry) false ps'
  end.

Definition positions_json (ps : list PositionSnapshot) : option (list Z) :=
  let prefix := json "{'positions':[" in
  if kMaxPositionsJsonBytes <=? Z.of_nat (length prefix) then None else
  body ← positions_entries prefix true ps;
  if kMaxPositionsJsonBytes <? Z.of_nat (length body) + 3 then None else Some (body ++ str "]}").

Definition queue_positions_json (i : nat) (response : Response) (env : IoEnv) : HT unit :=
  c ← client i;
  if (cl_fd c <? 0) || negb (cl_owns_positions_body c) then mret tt else
  match positions_json (rp_positions response) with
  | None => queue_inline_json i 500 (str "Internal Server Error") (json "{'error':'positions_response_too_large'}") env
  | Some body =>
      ht_modify (λ h, with_positions h body (ht_positions_owner h));;
      let head := response_head 200 (str "OK") (length body) in
      if (kMaxInlineResponseBytes <=? length head)%nat then
        queue_inline_json i 500 (str "Internal Server Error") (json "{'error':'response_format_failed'}") env
      else
        set_client i (set_outgoing c head (io_now env));;
        flush_client i (io_sends env)
  end.

(** The body that describes an order. *)
Definition order_body (o : OrderSnapshot) : list Z :=
  json "{'order_id':" ++ print_unsigned (os_order_id o) ++ json ",'status':'" ++ status_name (os_status o) ++ json "','symbol_idx':" ++
  print_unsigned (os_symbol_idx o) ++ json ",'qty':" ++ print_signed (os_quantity o) ++ json ",'filled_qty':" ++ print_signed (os_filled_quantity o) ++
  json ",'price':" ++ print_signed (os_price o) ++ str "}".

Definition send_response (i : nat) (response : Response) (env : IoEnv) : HT unit :=
  c ← client i;
  if bool_decide (cl_command c = kPositions) then queue_positions_json i response env else
  let body := order_body (rp_order response) in
  if (256 <=? length body)%nat then
    queue_inline_json i 500 (str "Internal Server Error") (json "{'error':'response_format_failed'}") env
  else
  let missing := bool_decide (os_status (rp_order response) = stNotFound) in
  queue_inline_json i (if missing then 404 else 200) (str (if missing then "Not Found" else "OK")) body env.

(** ** Dispatching a complete request *)

(** What the system says to one request: the outcome of [dup], the admission lease of
    the WebSocket server, the clock for the order, and the clock and sends of the
    reply. *)
Record DispatchEnv := mkDispatch { de_dup : Z; de_leased : bool; de_order_now : Z; de_io : IoEnv }.

(** The request is the text before the first null byte. *)
Definition request_of c : list Z := c_string (cl_incoming c).
Definition block_end c : nat := (cl_header_size c - 4)%nat.

(** The value of the [Authorization] field behind its scheme; [None] when the scheme
    is not [Bearer]. *)
Definition bearer_token (authorization : option (list Z)) : option (list Z) :=
  value ← authorization;
  let scheme := str "Bearer" in
  if (length value <=? length scheme + 1)%nat || negb (ascii_equal (take (length scheme) value) scheme) then None else
  separator ← value !! length scheme;
  if negb (blank separator) then None else Some (skip_while blank (drop (length scheme) value)).

Definition authorized (authorization : option (list Z)) : bool :=
  match bearer_token authorization with
  | Some token => negb (bool_decide (token = [])) && validate keys token
  | None => false
  end.

Definition bad_upgrade (i : nat) (env : IoEnv) : HT unit :=
  queue_inline_json i 400 (str "Bad Request") (json "{'error':'invalid_websocket_upgrade'}") env.

Definition ws_enqueue (fd id : Z) (key pre_read : list Z) (leased : bool) : HT UpgradeResult := λ h,
  s ← ht_websocket h;
  '(result, s) ← enqueue_upgrade fd id (Some key) pre_read leased s;
  Some (result, with_websocket h (Some s)).

(** GET /api/v1/stream/<id>. *)
Definition dispatch_upgrade (i : nat) (path : list Z) (env : DispatchEnv) : HT unit :=
  c ← client i;
  let incoming := request_of c in
  let field (name : string) := header incoming (block_end c) (str name) in
  key_header ← lift (field "Sec-WebSocket-Key"%string);
  version ← lift (field "Sec-WebSocket-Version"%string);
  upgrade ← lift (field "Upgrade"%string);
  connection ← lift (field "Connection"%string);
  upgrade_ok ← lift (header_has_token upgrade (str "websocket"));
  connection_ok ← lift (header_has_token connection (str "Upgrade"));
  let version_ok := match version with Some v => ascii_equal v (str "13") | None => false end in
  match path_number path (str "/api/v1/stream/"), key_header with
  | Some id, Some key_value =>
      if negb upgrade_ok || negb connection_ok || negb version_ok then bad_upgrade i (de_io env) else
      if (32 <=? length key_value)%nat then
        queue_inline_json i 400 (str "Bad Request") (json "{'error':'Invalid WebSocket key'}") (de_io env)
      else
      let key := key_value ++ replicate (32 - length key_value) 0 in
      if negb (cl_required_size c =? cl_header_size c)%nat || (length (cl_incoming c) <? cl_header_size c)%nat then bad_upgrade i (de_io env) else
      let pre_read := drop (cl_header_size c) (cl_incoming c) in
      if kMaxUpgradePreReadBytes <? Z.of_nat (length pre_read) then bad_upgrade i (de_io env) else
      result ← (if de_dup env <? 0 then mret uQueueFull else ws_enqueue (de_dup env) id key pre_read (de_leased env));
      match result with
      | uAccepted => close_client i
      | uInvalidKey => queue_inline_json i 400 (str "Bad Request") (json "{'error':'Invalid WebSocket key'}") (de_io env)
      | uInvalidUpgrade => bad_upgrade i (de_io env)
      | _ => queue_inline_json i 503 (str "Service Unavailable") (json "{'error':'Connection pool exhausted'}") (de_io env)
      end
  | _, _ => bad_upgrade i (de_io env)
  end.

Definition submit_request (r : Request) : HT bool := λ h,
  let '(b, ok) := bridge_submit (ht_bridge h) r in Some (ok, with_bridge h b).

Definition set_order_id (o : OrderIntent) (id : Z) : OrderIntent :=
  mkIntent (oi_symbol_idx o) (oi_side o) (oi_qty o) (oi_price o) (oi_alpha_timestamp_ns o) (oi_now_ns o) id (oi_time_in_force o).
Definition OrderIntent_init : OrderIntent := mkIntent 0 kBuy 0 0 0 0 0 kDay.

(** POST /api/v1/orders. *)
Definition dispatch_submit (i : nat) (env : DispatchEnv) : HT unit :=
  c ← client i;
  match submit_order (drop (cl_header_size c) (request_of c)) (de_order_now env) with
  | None => queue_inline_json i 400 (str "Bad Request") (json "{'error':'invalid_order'}") (de_io env)
  | Some order =>
      id ← take_order_id;
      if id =? 0 then queue_inline_json i 503 (str "Service Unavailable") (json "{'error':'order_id_exhausted'}") (de_io env) else
      ok ← submit_request (mkRequest kSubmit 0 0 (set_order_id order id));
      if negb (ok : bool) then queue_inline_json i 503 (str "Service Unavailable") (json "{'error':'queue_full'}") (de_io env) else
      let body := json "{'order_id':" ++ print_unsigned id ++ json ",'status':'accepted'}" in
      if (96 <=? length body)%nat then
        queue_inline_json i 500 (str "Internal Server Error") (json "{'error':'response_format_failed'}") (de_io env)
      else queue_inline_json i 202 (str "Accepted") body (de_io env)
  end.

Definition set_waiting c (id : Z) (command : Command) (deadline_ns : Z) := mkClient (cl_fd c) deadline_ns id (cl_incoming c) (cl_header_size c)
  (cl_required_size c) command (cl_header_complete c) true (cl_sending_response c) (cl_owns_positions_body c) (cl_outgoing c) (cl_outgoing_offset c)
  (cl_positions_body_offset c).

(** The commands that wait for a response: reserve its place, hand over the request and
    wait. *)
Definition await_response (i : nat) (command : Command) (id order_id : Z) (env : DispatchEnv) : HT unit :=
  reserved ← reserve_response_id id;
  if negb (reserved : bool) then
    release_positions_body i;; queue_inline_json i 503 (str "Service Unavailable") (json "{'error':'response_queue_full'}") (de_io env)
  else
  ok ← submit_request (mkRequest command id order_id OrderIntent_init);
  if negb (ok : bool) then
    release_response_id id;; release_positions_body i;;
    queue_inline_json i 503 (str "Service Unavailable") (json "{'error':'queue_full'}") (de_io env)
  else
  c ← client i;
  set_client i (set_waiting c id command (deadline (io_now (de_io env)))).

Definition dispatch_command (i : nat) (command : Command) (order_id : Z) (env : DispatchEnv) : HT unit :=
  id ← take_http_request_id;
  if id =? 0 then queue_inline_json i 503 (str "Service Unavailable") (json "{'error':'request_id_exhausted'}") (de_io env) else
  body_ok ← (if bool_decide (command = kPositions) then reserve_positions_body i else mret true);
  if negb (body_ok : bool) then queue_inline_json i 503 (str "Service Unavailable") (json "{'error':'positions_response_busy'}") (de_io env) else
  await_response i command id order_id env.

Definition method_get : list Z := str "GET".

(** Which command a request line names, for the commands that wait. *)
Definition waiting_command (method path : list Z) : option (Command * Z) :=
  if bool_decide (method = method_get) && bool_decide (path = str "/api/v1/positions") then Some (kPositions, 0)
  else if bool_decide (method = method_get) && negb (is_null (order_id path)) then id ← order_id path; Some (kQuery, id)
  else if bool_decide (method = str "DELETE") && negb (is_null (order_id path)) then id ← order_id path; Some (kCancel, id)
  else None.

Definition route (i : nat) (method path : list Z) (env : DispatchEnv) : HT unit :=
  h ← ht_get;
  if bool_decide (method = method_get) && negb (is_null (ht_websocket h)) && starts_with (str "/api/v1/stream/") path then dispatch_upgrade i path env
  else if bool_decide (method = str "POST") && bool_decide (path = str "/api/v1/orders") then dispatch_submit i env
  else match waiting_command method path with
       | Some (command, order_id) => dispatch_command i command order_id env
       | None => queue_inline_json i 404 (str "Not Found") (json "{'error':'not_found'}") (de_io env)
       end.

Definition dispatch_client (i : nat) (env : DispatchEnv) : HT unit :=
  c ← client i;
  authorization ← lift (header (request_of c) (block_end c) (str "Authorization"));
  if negb (authorized authorization) then queue_inline_json i 401 (str "Unauthorized") (json "{'error':'unauthorized'}") (de_io env) else
  match scan_request_line (request_of c) with
  | None => queue_inline_json i 400 (str "Bad Request") (json "{'error':'bad_request'}") (de_io env)
  | Some (method, path) => route i method path env
  end.

(** ** Receiving a request *)

Definition set_incoming c (incoming : list Z) := mkClient (cl_fd c) (cl_deadline_ns c) (cl_request_id c) incoming (cl_header_size c)
  (cl_required_size c) (cl_command c) (cl_header_complete c) (cl_waiting_response c) (cl_sending_response c) (cl_owns_positions_body c) (cl_outgoing c)
  (cl_outgoing_offset c) (cl_positions_body_offset c).
Definition set_header c (header_size required_size : nat) (complete : bool) := mkClient (cl_fd c) (cl_deadline_ns c) (cl_request_id c) (cl_incoming c) header_size
  required_size (cl_command c) complete (cl_waiting_response c) (cl_sending_response c) (cl_owns_positions_body c) (cl_outgoing c)
  (cl_outgoing_offset c) (cl_positions_body_offset c).

Definition too_large (i : nat) (env : IoEnv) : HT unit :=
  queue_inline_json i 413 (str "Payload Too Large") (json "{'error':'request_too_large'}") env.

(** Look for the end of the header behind new bytes; [false] when the request has
    been answered. *)
Definition read_header (i : nat) (env : IoEnv) : HT bool :=
  c ← client i;
  match strpos (crlf ++ crlf) (request_of c) with
  | None => mret true
  | Some block_end =>
      let header_size := (block_end + 4)%nat in
      set_client i (set_header c header_size (cl_required_size c) false);;
      content_length ← lift (header (request_of c) block_end (str "Content-Length"));
      match content_length, header_decimal_size content_length with
      | Some _, None => queue_inline_json i 400 (str "Bad Request") (json "{'error':'invalid_content_length'}") env;; mret false
      | _, size =>
          let body_size := default 0 size in
          if (kMaxRequestBytes <=? header_size)%nat || (Z.of_nat (kMaxRequestBytes - 1 - header_size) <? body_size) then
            too_large i env;; mret false
          else set_client i (set_header c header_size (header_size + Z.to_nat body_size) true);; mret true
      end
  end.

Definition request_complete c : bool := cl_header_complete c && (cl_required_size c <=? length (cl_incoming c))%nat.

(** [recv] returns at most the bytes it is asked for, and nothing on an orderly
    shutdown; the list ends where it would block.  [false] is a return. *)
Fixpoint read_loop (recvs : list RecvResult) (i : nat) (env : IoEnv) : HT bool :=
  c ← client i;
  if cl_fd c <? 0 then mret true else
  let read_limit := if cl_header_complete c then kMaxClientReadBytes else kMaxRequestBytes in
  if (read_limit <=? length (cl_incoming c) + 1)%nat then
    if negb (cl_header_complete c) then too_large i env;; mret false else mret true
  else
  match recvs with
  | [] | RecvWouldBlock :: _ => mret true
  | RecvInterrupted :: recvs' => read_loop recvs' i env
  | RecvFailed :: _ => close_client i;; mret false
  | Received bs :: recvs' =>
      let bs := take (read_limit - length (cl_incoming c) - 1) bs in
      match bs with
      | [] => if request_complete c then mret true else close_client i;; mret false
      | _ =>
          let incoming := cl_incoming c ++ bs in
          (* the null byte behind them *)
          if (kMaxClientReadBytes <=? length incoming)%nat then λ _, None else
          set_client i (set_incoming c incoming);;
          more ← (if cl_header_complete c then mret true else read_header i env);
          if (more : bool) then read_loop recvs' i env else mret false
      end
  end.

Definition read_client (i : nat) (recvs : list RecvResult) (env : DispatchEnv) : HT unit :=
  more ← read_loop recvs i (de_io env);
  if negb (more : bool) then mret tt else
  c ← client i;
  if (0 <=? cl_fd c) && request_complete c then dispatch_client i env else mret tt.

(** ** Responses and deadlines *)

Definition take_response : HT (option Response) := λ h,
  let '(b, r) := try_take_response (ht_bridge h) in Some (r, with_bridge h b).

Definition awaits (id : Z) c : bool := (0 <=? cl_fd c) && cl_waiting_response c && (cl_request_id c =? id).

Definition set_answered c := mkClient (cl_fd c) (cl_deadline_ns c) (cl_request_id c) (cl_incoming c) (cl_header_size c) (cl_required_size c) (cl_command c)
  (cl_header_complete c) false (cl_sending_response c) (cl_owns_positions_body c) (cl_outgoing c) (cl_outgoing_offset c) (cl_positions_body_offset c).

(** One response, if there is one: to the client that waits for it. *)
Definition drain_response (env : IoEnv) : HT bool :=
  r ← take_response;
  match r with
  | None => mret false
  | Some response =>
      ours ← release_response_id (rp_request_id response);
      if negb (ours : bool) then mret true else
      h ← ht_get;
      match first_index (awaits (rp_request_id response)) (ht_clients h) with
      | None => mret true
      | Some i =>
          c ← client i;
          set_client i (set_answered c);;
          send_response i response env;; mret true
      end
  end.

(** The loop ends when the queue is empty; [fuel] bounds the responses of one turn. *)
Fixpoint drain_responses (fuel k : nat) (env : nat → IoEnv) : HT unit :=
  match fuel with
  | O => λ _, None
  | S fuel' => more ← drain_response (env k); if (more : bool) then drain_responses fuel' (S k) env else mret tt
  end.

Definition expire_client (now : Z) (env : nat → IoEnv) (i : nat) : HT unit :=
  c ← client i;
  if (cl_fd c <? 0) || (now <? cl_deadline_ns c) then mret tt else
  if cl_sending_response c then close_client i
  else if cl_waiting_response c then queue_inline_json i 504 (str "Gateway Timeout") (json "{'error':'execution_timeout'}") (env i)
  else queue_inline_json i 408 (str "Request Timeout") (json "{'error':'request_timeout'}") (env i).

Definition expire_clients (now : Z) (env : nat → IoEnv) : HT unit := for_clients (expire_client now env).

(** ** The listener's loop *)

(** What [poll] and the calls behind it say to one client. *)
Record ClientEnv := mkClientEnv { ce_events : Z; ce_sends : list SendResult; ce_recvs : list RecvResult; ce_dispatch : DispatchEnv }.

Definition service_client (env : ClientEnv) (i : nat) : HT unit :=
  c ← client i;
  if cl_fd c <? 0 then mret tt else
  (if cl_sending_response c && any_bit (ce_events env) POLLOUT then flush_client i (ce_sends env) else mret tt);;
  c ← client i;
  (if (0 <=? cl_fd c) && negb (cl_sending_response c) && negb (cl_waiting_response c) && any_bit (ce_events env) (Z.lor POLLIN POLLPRI)
   then read_client i (ce_recvs env) (ce_dispatch env) else mret tt);;
  c ← client i;
  if (0 <=? cl_fd c) && any_bit (ce_events env) (Z.lor POLLERR (Z.lor POLLHUP POLLNVAL)) then close_client i else mret tt.

(** The slots that are polled: the clients at the start of the turn. *)
Definition polled (h : HttpServer) : list nat := filter (λ i, match ht_clients h !! i with Some c => 0 <=? cl_fd c | None => false end = true) (seq 0 kMaxClientSlots).

Fixpoint service_each (slots : list nat) (env : nat → ClientEnv) : HT unit :=
  match slots with [] => mret tt | i :: slots' => service_client (env i) i;; service_each slots' env end.

Record HttpTurn := mkHttpTurn {
  tu_ready : Z;
  tu_listener : bool;
  tu_accepted : list Accepted;
  tu_clients : nat → ClientEnv;
  tu_drain : nat → IoEnv;
  tu_now : Z;
  tu_expire : nat → IoEnv
}.

(** [false] ends the loop: no listener, or [poll] failed.  [tu_ready] is its result, an interruption
    counting as none. *)
Definition serve_turn (env : HttpTurn) : HT bool :=
  h ← ht_get;
  let slots := polled h in
  if (ht_fd h <? 0) || (tu_ready env <? 0) then mret false else
  (if 0 <? tu_ready env then
     (if ht_running h && tu_listener env then accept_clients (tu_accepted env) else mret tt);;
     service_each slots (tu_clients env)
   else mret tt);;
  drain_responses (S kResponseCapacity) 0 (tu_drain env);;
  expire_clients (tu_now env) (tu_expire env);;
  mret true.

Definition close_socket : HT unit := ht_modify (λ h, with_listener h (-1) (ht_port h) (ht_running h) (ht_thread h)).

(** Behind the loop. *)
Definition serve_exit : HT unit :=
  close_all_clients;; close_socket;;
  ht_modify (λ h, with_listener h (ht_fd h) (ht_port h) false (ht_thread h)).

(** ** start and stop *)

Record ListenEnv := mkListen { le_socket : Z; le_nonblocking : bool; le_bound : bool; le_named : option Z; le_thread : bool }.

Definition http_start (bind_address : bool) (env : ListenEnv) : HT bool :=
  h ← ht_get;
  if ht_running h || ht_thread h || negb bind_address then mret false else
  ht_modify (λ h, with_positions (with_outstanding h (replicate kMaxPendingExecutionResponses 0)) [] kNoClientSlot);;
  if le_socket env <? 0 then mret false else
  if negb (le_nonblocking env) then mret false else
  ht_modify (λ h, with_listener h (le_socket env) (ht_port h) (ht_running h) (ht_thread h));;
  if negb (le_bound env) then close_socket;; mret false else
  match le_named env with
  | None => close_socket;; mret false
  | Some port =>
      if negb (le_thread env) then ht_modify (λ h, with_listener h (ht_fd h) port false false);; close_socket;; mret false
      else ht_modify (λ h, with_listener h (ht_fd h) port true true);; mret true
  end.

(** The caller clears [running_] and joins the thread, which then leaves its loop. *)
Definition http_stop : HT unit :=
  h ← ht_get;
  (if ht_running h then serve_exit else mret tt);;
  ht_modify (λ h, with_listener h (ht_fd h) (ht_port h) (ht_running h) false).
End config.
