(* ===== verification/HttpInv.v ===== *)
(** * HttpInv: what holds of the control plane's clients

    The invariant of the client table, the snapshot buffer and the sockets
    ([slots_ok]), and that every operation on one client keeps it and leaves the
    other clients alone. *)

From S2P Require Import Prelude Arena Gateway Risk WsText WsAccept WsConn WsServer WsInv WsWorker WsRun HttpText Printf HttpBridge HttpServer.
From Stdlib Require Import ZArith Lia String.
From stdpp Require Import base tactics gmap numbers option list.
Open Scope Z_scope.

Implicit Types (h : HttpServer) (c : ClientSlot) (i j : nat).

(** ** The sockets *)

(** The descriptors that are open after a log; [None] when a descriptor was accepted
    while it was open, or used or closed while it was not. *)
Definition socket_step (open : option (gset Z)) (e : SocketEvent) : option (gset Z) :=
  X ← open;
  match e with
  | evAccept fd => if decide (fd ∈ X) then None else Some ({[fd]} ∪ X)
  | evSend fd _ => if decide (fd ∈ X) then Some X else None
  | evClose fd => if decide (fd ∈ X) then Some (X ∖ {[fd]}) else None
  end.
Definition sockets (log : list SocketEvent) : option (gset Z) := foldl socket_step (Some ∅) log.

(** What was sent on a descriptor since it was last accepted. *)
Definition sent_on_step (fd : Z) (sent : list Z) (e : SocketEvent) : list Z :=
  match e with
  | evAccept fd' => if decide (fd' = fd) then [] else sent
  | evSend fd' bs => if decide (fd' = fd) then sent ++ bs else sent
  | evClose _ => sent
  end.
Definition sent_on (fd : Z) (log : list SocketEvent) : list Z := foldl (sent_on_step fd) [] log.

Lemma sockets_snoc log e : sockets (log ++ [e]) = socket_step (sockets log) e.
Proof. unfold sockets. by rewrite foldl_app. Qed.
Lemma sent_on_snoc fd log e : sent_on fd (log ++ [e]) = sent_on_step fd (sent_on fd log) e.
Proof. unfold sent_on. by rewrite foldl_app. Qed.

(** ** The invariant *)

(** The whole response of a client: [outgoing], and the snapshot when it owns it. *)
Definition reply h c : list Z := cl_outgoing c ++ (if cl_owns_positions_body c then ht_positions_body h else []).
Definition sent c : nat := (cl_outgoing_offset c + cl_positions_body_offset c)%nat.

(** One line of text. *)
Definition one_line (text : list Z) : bool := forallb (λ x, negb (x =? 13)) text.

(** A complete response: a head that announces the length of the body behind it. *)
Definition http_response (text : list Z) : Prop :=
  ∃ status reason body, one_line reason = true ∧ text = response_head status reason (length body) ++ body.

Record client_ok h i c : Prop := mk_client_ok {
  co_free : cl_fd c < 0 → c = ClientSlot_init;
  co_incoming : bytes (cl_incoming c) ∧ (length (cl_incoming c) < kMaxClientReadBytes)%nat;
  co_header : if cl_header_complete c then (4 ≤ cl_header_size c ≤ cl_required_size c)%nat ∧ (cl_required_size c < kMaxRequestBytes)%nat ∧ (cl_header_size c ≤ length (cl_incoming c))%nat
              else (length (cl_incoming c) < kMaxRequestBytes)%nat;
  co_offsets : (cl_outgoing_offset c ≤ length (cl_outgoing c) ≤ kMaxInlineResponseBytes)%nat ∧ (sent c ≤ length (reply h c))%nat ∧
    (cl_positions_body_offset c ≠ 0%nat → cl_outgoing_offset c = length (cl_outgoing c));
  co_reply : if cl_sending_response c then cl_waiting_response c = false ∧ http_response (reply h c) else reply h c = [];
  co_owner : cl_owns_positions_body c = true ↔ ht_positions_owner h = Z.of_nat i;
  co_sent_on : 0 ≤ cl_fd c → sent_on (cl_fd c) (ht_log h) = take (sent c) (reply h c)
}.

Record slots_ok h : Prop := mk_slots_ok {
  sl_length : length (ht_clients h) = kMaxClientSlots;
  sl_each : ∀ i c, ht_clients h !! i = Some c → client_ok h i c;
  sl_owner : ht_positions_owner h = kNoClientSlot ∧ ht_positions_body h = [] ∨
    0 ≤ ht_positions_owner h < Z.of_nat kMaxClientSlots ∧ Z.of_nat (length (ht_positions_body h)) < kMaxPositionsJsonBytes;
  sl_distinct : ∀ i j c d, ht_clients h !! i = Some c → ht_clients h !! j = Some d → 0 ≤ cl_fd c → cl_fd c = cl_fd d → i = j;
  sl_sockets : ∃ X, sockets (ht_log h) = Some X ∧ ∀ fd, fd ∈ X ↔ ∃ i c, ht_clients h !! i = Some c ∧ cl_fd c = fd ∧ 0 ≤ fd;
}.

(** ** One client changes *)

(** Client [i], the snapshot buffer and the log of a server. *)
Definition upd h i c (body : list Z) (owner : Z) (evs : list SocketEvent) : HttpServer :=
  with_log (with_positions (with_clients h (<[i := c]> (ht_clients h))) body owner) (ht_log h ++ evs).

Lemma upd_upd h i c1 b1 o1 e1 c2 b2 o2 e2 : upd (upd h i c1 b1 o1 e1) i c2 b2 o2 e2 = upd h i c2 b2 o2 (e1 ++ e2).
Proof. unfold upd. cbn. by rewrite list_insert_insert_eq, app_assoc. Qed.

Lemma upd_same h i c : ht_clients h !! i = Some c → upd h i c (ht_positions_body h) (ht_positions_owner h) [] = h.
Proof. intros Hc. unfold upd. cbn. rewrite list_insert_id, app_nil_r by done. by destruct h. Qed.

(** What may happen to the socket of a client that becomes [c']. *)
Inductive socket_moves c c' : list SocketEvent → Prop :=
  | sm_none : cl_fd c' = cl_fd c → socket_moves c c' []
  | sm_send bs : cl_fd c' = cl_fd c → 0 ≤ cl_fd c → socket_moves c c' [evSend (cl_fd c) bs]
  | sm_close : cl_fd c' < 0 → 0 ≤ cl_fd c → socket_moves c c' [evClose (cl_fd c)].

(** What may happen to the buffer on behalf of client [i]. *)
Definition buffer_moves h i (body : list Z) (owner : Z) : Prop :=
  body = ht_positions_body h ∧ owner = ht_positions_owner h ∨
  (ht_positions_owner h = kNoClientSlot ∨ ht_positions_owner h = Z.of_nat i) ∧ (owner = kNoClientSlot ∧ body = [] ∨ owner = Z.of_nat i ∧ Z.of_nat (length body) < kMaxPositionsJsonBytes).

Lemma slot_range h i c : slots_ok h → ht_clients h !! i = Some c → (i < 64)%nat.
Proof. intros Hok Hc. apply lookup_lt_Some in Hc. by rewrite (sl_length _ Hok) in Hc. Qed.

Lemma others_reply h i j c d body owner evs c' :
  slots_ok h → ht_clients h !! i = Some c → ht_clients h !! j = Some d → j ≠ i → buffer_moves h i body owner →
  reply (upd h i c' body owner evs) d = reply h d ∧ (cl_owns_positions_body d = true ↔ owner = Z.of_nat j).
Proof.
  intros Hok Hc Hd Hij Hb. pose proof (co_owner _ _ _ (sl_each _ Hok _ _ Hd)) as Ho. pose proof (slot_range _ _ _ Hok Hd) as Hj. unfold reply. cbn.
  destruct Hb as [[-> ->]|[Hfrom Hto]]; [done|].
  assert (Hno : cl_owns_positions_body d = false).
  { destruct (cl_owns_positions_body d); [|done]. specialize (proj1 Ho eq_refl) as E. rewrite E in Hfrom. unfold kNoClientSlot, UINT32_MAX in Hfrom. lia. }
  rewrite Hno. split; [done|]. split; [done|]. intros E. rewrite E in Hto. unfold kNoClientSlot, UINT32_MAX in Hto. lia.
Qed.

Lemma others_sent_on c c' evs fd log : socket_moves c c' evs → fd ≠ cl_fd c → sent_on fd (log ++ evs) = sent_on fd log.
Proof.
  intros Hm Hne. destruct Hm; rewrite ?app_nil_r, ?sent_on_snoc; [done| |done]. cbn. by rewrite decide_False.
Qed.

(** The sockets that are open after a client moved. *)
Lemma sockets_upd h i c c' evs :
  slots_ok h → ht_clients h !! i = Some c → socket_moves c c' evs →
  ∃ X, sockets (ht_log h ++ evs) = Some X ∧ ∀ fd, fd ∈ X ↔ ∃ k d, <[i := c']> (ht_clients h) !! k = Some d ∧ cl_fd d = fd ∧ 0 ≤ fd.
Proof.
  intros Hok Hc Hm. destruct (sl_sockets _ Hok) as (X & EX & HX). pose proof (lookup_lt_Some _ _ _ Hc) as Hi.
  assert (Hin : 0 ≤ cl_fd c → cl_fd c ∈ X) by (intros Hp; apply HX; eauto).
  assert (Hkeep : cl_fd c' = cl_fd c → ∀ fd, fd ∈ X ↔ ∃ k d, <[i := c']> (ht_clients h) !! k = Some d ∧ cl_fd d = fd ∧ 0 ≤ fd).
  { intros E fd. rewrite HX. split; intros (k & d & Hk & Hf & Hp); destruct (decide (k = i)) as [->|Hki].
    - exists i, c'. rewrite list_lookup_insert_eq by done. replace d with c in Hf by congruence. split_and!; [done|congruence|done].
    - exists k, d. by rewrite list_lookup_insert_ne.
    - rewrite list_lookup_insert_eq in Hk by done. exists i, c. replace d with c' in Hf by congruence. split_and!; [done|congruence|done].
    - rewrite list_lookup_insert_ne in Hk by done. eauto. }
  destruct Hm as [E|bs E Hp|E Hp]; rewrite ?app_nil_r, ?sockets_snoc, ?EX; cbn [socket_step mbind option_bind].
  - exists X. auto.
  - rewrite decide_True by auto. exists X. auto.
  - rewrite decide_True by auto. exists (X ∖ {[cl_fd c]}). split; [done|]. intros fd. rewrite elem_of_difference, elem_of_singleton, HX. split.
    + intros [(k & d & Hk & Hf & Hfp) Hne]. destruct (decide (k = i)) as [->|Hki]; [congruence|]. exists k, d. by rewrite list_lookup_insert_ne.
    + intros (k & d & Hk & Hf & Hfp). destruct (decide (k = i)) as [->|Hki]; [rewrite list_lookup_insert_eq in Hk by done; simplify_eq; lia|].
      rewrite list_lookup_insert_ne in Hk by done. split; [eauto|]. intros ->. apply Hki. symmetry. by eapply (sl_distinct _ Hok i k c d).
Qed.

(** The invariant only depends on client [i] when only client [i] moves. *)
Lemma slots_upd h i c c' body owner evs :
  slots_ok h → ht_clients h !! i = Some c → socket_moves c c' evs → buffer_moves h i body owner →
  client_ok (upd h i c' body owner evs) i c' → slots_ok (upd h i c' body owner evs).
Proof.
  intros Hok Hc Hm Hb Hok'. pose proof (lookup_lt_Some _ _ _ Hc) as Hi. pose proof (slot_range _ _ _ Hok Hc) as Hi64.
  assert (Hfd : 0 ≤ cl_fd c' → cl_fd c' = cl_fd c) by (destruct Hm; lia).
  split; cbn [upd with_log with_positions with_clients ht_clients ht_positions_owner ht_positions_body ht_log].
  - rewrite length_insert. apply (sl_length _ Hok).
  - intros j d Hd. destruct (decide (j = i)) as [->|Hji]; [rewrite list_lookup_insert_eq in Hd by done; by simplify_eq|]. rewrite list_lookup_insert_ne in Hd by done.
    destruct (others_reply h i j c d body owner evs c' Hok Hc Hd Hji Hb) as [Er Ho]. destruct (sl_each _ Hok _ _ Hd) as [D1 D2 D3 D4 D5 D6 D7].
    split; rewrite ?Er; try done. intros Hp. change (ht_log (upd h i c' body owner evs)) with (ht_log h ++ evs). rewrite (others_sent_on c c'); [by apply D7|done|]. intros E. apply Hji. by apply (sl_distinct _ Hok _ _ d c).
  - destruct Hb as [[-> ->]|[_ [[-> ->]|[-> Hlen]]]]; [apply (sl_owner _ Hok)|by left|right; unfold kMaxClientSlots; lia].
  - intros j k d e Hd He Hp E. destruct (decide (j = i)) as [->|Hji], (decide (k = i)) as [->|Hki];
      rewrite ?list_lookup_insert_eq in * by done; rewrite ?list_lookup_insert_ne in * by done; simplify_eq; [done| | |by eapply (sl_distinct _ Hok)].
    + exfalso. apply Hki. rewrite Hfd in E, Hp by done. by apply (sl_distinct _ Hok k i e c); rewrite <- ?E.
    + exfalso. apply Hji. assert (cl_fd e = cl_fd c) by (apply Hfd; lia). apply (sl_distinct _ Hok j i d c); [done..|congruence].
  - by apply (sockets_upd h i c).
Qed.

(** ** Primitive steps *)

Lemma runs_ht_get h (Q : HttpServer → HttpServer → Prop) : Q h h → runs ht_get h Q.
Proof. intros HQ. by exists h, h. Qed.

Lemma runs_ht_modify f h (Q : unit → HttpServer → Prop) : Q tt (f h) → runs (ht_modify f) h Q.
Proof. intros HQ. by exists tt, (f h). Qed.

Lemma runs_client i c h (Q : ClientSlot → HttpServer → Prop) : ht_clients h !! i = Some c → Q c h → runs (client i) h Q.
Proof. intros Hc HQ. unfold client. apply runs_bind, runs_ht_get. by apply (runs_lift _ c). Qed.

(** [step c]: the next primitive step, on a client that is [c]. *)
Ltac ht_step :=
  apply runs_bind; first [apply runs_ht_get | apply runs_ht_modify | eapply runs_client; [eassumption|] | idtac].

(** ** Releasing and closing *)

Definition released h i c : HttpServer := if cl_owns_positions_body c then upd h i (set_owns c false 0) [] kNoClientSlot [] else h.
Definition closing c : list SocketEvent := if 0 <=? cl_fd c then [evClose (cl_fd c)] else [].
Definition closed h i c : HttpServer :=
  if cl_owns_positions_body c then upd h i ClientSlot_init [] kNoClientSlot (closing c)
  else upd h i ClientSlot_init (ht_positions_body h) (ht_positions_owner h) (closing c).

Lemma release_exec h i c (Q : unit → HttpServer → Prop) :
  slots_ok h → ht_clients h !! i = Some c → Q tt (released h i c) → runs (release_positions_body i) h Q.
Proof.
  intros Hok Hc HQ. unfold release_positions_body. ht_step. ht_step. unfold released in HQ. pose proof (co_owner _ _ _ (sl_each _ Hok _ _ Hc)) as Ho.
  destruct (cl_owns_positions_body c); cbn [negb]; [|by apply runs_ret]. rewrite (proj1 Ho eq_refl), Z.eqb_refl. ht_step. apply runs_ht_modify. cbn. unfold upd in HQ. by rewrite app_nil_r in HQ.
Qed.

Lemma upd_client h i c c' body owner evs : ht_clients h !! i = Some c → ht_clients (upd h i c' body owner evs) !! i = Some c'.
Proof. intros Hc. apply list_lookup_insert_eq. by apply lookup_lt_Some in Hc. Qed.

(** Client [i] was dealt with, and is now one with [P]. *)
Definition handled i (P : HttpServer → ClientSlot → Prop) h h' : Prop :=
  ∃ c body owner evs, h' = upd h i c body owner evs ∧ slots_ok h' ∧ ht_clients h' !! i = Some c ∧ P h' c.

Lemma handled_mono i (P P' : HttpServer → ClientSlot → Prop) h h' : handled i P h h' → (∀ c, P h' c → P' h' c) → handled i P' h h'.
Proof. intros (c & b & o & e & E & Hok & Hl & HP) HPP. exists c, b, o, e. auto. Qed.

Lemma handled_upd i P h c body owner evs h' : handled i P (upd h i c body owner evs) h' → handled i P h h'.
Proof. intros (c' & b & o & e & -> & Hok & Hl & HP). exists c', b, o, (evs ++ e). rewrite upd_upd in *. done. Qed.

Lemma handled_trans i P P' h h1 h2 : handled i P' h h1 → handled i P h1 h2 → handled i P h h2.
Proof. intros (c & b & o & e & -> & _ & _). apply handled_upd. Qed.

Lemma handled_refl i (P : HttpServer → ClientSlot → Prop) h c : slots_ok h → ht_clients h !! i = Some c → P h c → handled i P h h.
Proof. intros Hok Hc HP. eexists c, _, _, _. rewrite upd_same by done. done. Qed.

Lemma no_client i c h : slots_ok h → ht_clients h !! i = Some c → kNoClientSlot ≠ Z.of_nat i.
Proof. intros Hok Hc. apply (slot_range _ _ _ Hok) in Hc. unfold kNoClientSlot, UINT32_MAX. lia. Qed.

Lemma client_init_ok h i : ht_positions_owner h ≠ Z.of_nat i → client_ok h i ClientSlot_init.
Proof.
  intros Ho. split; cbn; try done.
  - split; [by constructor|]. unfold kMaxClientReadBytes. lia.
  - unfold kMaxRequestBytes. lia.
  - unfold kMaxInlineResponseBytes. lia.
Qed.

Lemma closing_moves c c' : cl_fd c' < 0 → (cl_fd c < 0 → cl_fd c' = cl_fd c) → socket_moves c c' (closing c).
Proof. intros H1 H2. unfold closing. destruct (Z.leb_spec 0 (cl_fd c)); [by apply sm_close|apply sm_none; auto]. Qed.

Lemma close_ok h i c (Q : unit → HttpServer → Prop) :
  slots_ok h → ht_clients h !! i = Some c → (∀ h', handled i (λ _ c', c' = ClientSlot_init) h h' → Q tt h') → runs (close_client i) h Q.
Proof.
  intros Hok Hc HQ. pose proof (sl_each _ Hok _ _ Hc) as Hcok. assert (Hcl : handled i (λ _ c', c' = ClientSlot_init) h (closed h i c)).
  { pose proof (co_owner _ _ _ Hcok) as Ho. pose proof (no_client _ _ _ Hok Hc) as Hn.
    assert (Hm : socket_moves c ClientSlot_init (closing c)) by (apply closing_moves; [done|]; intros Hf; by rewrite (co_free _ _ _ Hcok Hf)).
    unfold closed. destruct (cl_owns_positions_body c); eexists _, _, _, _; (split; [reflexivity|split; [|split; [by eapply upd_client|done]]]); apply (slots_upd h i c); try done.
    - right. split; [right; by apply Ho|by left].
    - apply client_init_ok. cbn. done.
    - by left.
    - apply client_init_ok. cbn. intros E. by apply Ho in E. }
  unfold close_client. ht_step. apply runs_bind. apply (release_exec h i c); [done..|]. apply runs_bind, runs_ht_modify.
  enough (E : (if 0 <=? cl_fd c then log_event (evClose (cl_fd c)) else mret tt) (with_clients (released h i c) (<[i:=ClientSlot_init]> (ht_clients (released h i c)))) = Some (tt, closed h i c))
    by (exists tt, (closed h i c); auto).
  unfold released, closed, closing. destruct (cl_owns_positions_body c), (0 <=? cl_fd c); cbn; unfold upd; cbn; rewrite ?list_insert_insert_eq, ?app_nil_r; try done; by destruct h.
Qed.

(** ** Sending *)

(** A client that has its answer: the response is on its way, or the socket closed. *)
Definition answered (text : list Z) h c : Prop := c = ClientSlot_init ∨ cl_sending_response c = true ∧ reply h c = text.

Lemma take_prefix {A} (whole rest : list A) (s n : nat) :
  rest `prefix_of` drop s whole → (n ≤ length rest)%nat → take s whole ++ take n rest = take (s + n) whole.
Proof. intros [k E] Hn. rewrite <- take_take_drop, E. f_equal. by rewrite take_app_le. Qed.

Lemma send_loop_ok sends h i c rest advance (Q : unit → HttpServer → Prop) :
  slots_ok h → ht_clients h !! i = Some c → 0 ≤ cl_fd c → cl_sending_response c = true → rest `prefix_of` drop (sent c) (reply h c) →
  (∀ n, (n ≤ length rest)%nat → ∃ a b, advance c n = set_sent c a b ∧ (a + b = sent c + n)%nat ∧ (a ≤ length (cl_outgoing c))%nat ∧ (b ≠ 0%nat → a = length (cl_outgoing c))) →
  (∀ h', handled i (answered (reply h c)) h h' → Q tt h') → runs (send_loop sends i rest advance) h Q.
Proof.
  intros Hok Hc Hfd Hs Hrest Hadv HQ. pose proof (sl_each _ Hok _ _ Hc) as Hcok.
  assert (Hstay : Q tt h) by (apply HQ, (handled_refl i _ _ c); [done..|by right]).
  assert (Hcl : runs (close_client i) h Q) by (apply (close_ok h i c); [done..|]; intros h' Hh; apply HQ; eapply handled_mono; [done|]; by left).
  induction sends as [|[n| | |] sends IH]; cbn [send_loop]; [by apply runs_ret| |done|by apply runs_ret|done].
  set (m := Z.to_nat (Z.min n (Z.of_nat (length rest)))). destruct (Nat.eqb_spec m 0); [done|]. ht_step. ht_step. apply runs_ht_modify.
  assert (Hm : (m ≤ length rest)%nat) by (unfold m; lia). destruct (Hadv m Hm) as (a & b & -> & Hab & Ha & Hb). apply HQ.
  exists (set_sent c a b), (ht_positions_body h), (ht_positions_owner h), [evSend (cl_fd c) (take m rest)]. split; [done|]. split; [|split; [apply list_lookup_insert_eq; by eapply lookup_lt_Some|by right]].
  apply (slots_upd h i c); [done|done|by apply sm_send|by left|]. destruct Hcok as [C1 C2 C3 (C4a & C4b & C4c) C5 C6 C7].
  assert (Hlen : (sent c + m ≤ length (reply h c))%nat) by (apply prefix_length in Hrest; rewrite length_drop in Hrest; lia).
  split; try done.
  - cbn. intros ?. lia.
  - split; [cbn; lia|]. split; [|done]. change (length (reply _ _)) with (length (reply h c)). change (sent (set_sent c a b)) with (a + b)%nat. lia.
  - intros _. cbn [set_sent cl_fd upd with_log ht_log]. rewrite sent_on_snoc. cbn [sent_on_step]. rewrite decide_True, C7 by done. change (reply _ _) with (reply h c).
    rewrite take_prefix by done. change (sent (set_sent c a b)) with (a + b)%nat. by rewrite Hab.
Qed.

Lemma flush_client_ok chunk sends h i c (Q : unit → HttpServer → Prop) :
  slots_ok h → ht_clients h !! i = Some c → 0 ≤ cl_fd c → cl_sending_response c = true →
  (∀ h', handled i (answered (reply h c)) h h' → Q tt h') → runs (flush_client chunk i sends) h Q.
Proof.
  intros Hok Hc Hfd Hs HQ. unfold flush_client. ht_step. ht_step. rewrite (proj2 (Z.ltb_ge _ _)), Hs by done. cbn [orb negb]. cbv zeta.
  destruct (co_offsets _ _ _ (sl_each _ Hok _ _ Hc)) as (Ha & Hb & Hp).
  destruct (Nat.ltb_spec (cl_outgoing_offset c) (length (cl_outgoing c))) as [Hlt|Hge].
  - assert (Hz : cl_positions_body_offset c = 0%nat) by (destruct (decide (cl_positions_body_offset c = 0%nat)) as [|Hn]; [done|]; specialize (Hp Hn); lia).
    apply (send_loop_ok _ _ _ c); [done..| | |done].
    + unfold sent, reply. rewrite Hz, Nat.add_0_r, drop_app_le by lia. apply prefix_app_r, prefix_take.
    + intros n. rewrite length_take, length_drop. intros Hn. eexists _, _. split; [reflexivity|]. unfold sent. rewrite Hz. lia.
  - destruct (cl_owns_positions_body c && _) eqn:Ho.
    + apply andb_true_iff in Ho as [Ho Hl]. apply Nat.ltb_lt in Hl. apply (send_loop_ok _ _ _ c); [done..| | |done].
      * unfold sent, reply. rewrite Ho, drop_app_ge by lia. replace (cl_outgoing_offset c + cl_positions_body_offset c - length (cl_outgoing c))%nat with (cl_positions_body_offset c) by lia. apply prefix_take.
      * intros n Hn. eexists _, _. split; [reflexivity|]. unfold sent. lia.
    + apply (close_ok h i c); [done..|]. intros h' Hh. apply HQ. eapply handled_mono; [done|]. by left.
Qed.

(** A response is put into an idle client and its first part sent. *)
Lemma start_reply_ok chunk h i c c' out body owner now sends (Q : unit → HttpServer → Prop) :
  slots_ok h → ht_clients h !! i = Some c → 0 ≤ cl_fd c → cl_sending_response c = false → buffer_moves h i body owner →
  (length out ≤ kMaxInlineResponseBytes)%nat → cl_fd c' = cl_fd c → cl_incoming c' = cl_incoming c → cl_header_size c' = cl_header_size c → cl_required_size c' = cl_required_size c → cl_header_complete c' = cl_header_complete c →
  (cl_owns_positions_body c' = true ↔ owner = Z.of_nat i) → http_response (out ++ if cl_owns_positions_body c' then body else []) →
  (∀ h', handled i (answered (out ++ if cl_owns_positions_body c' then body else [])) h h' → Q tt h') → runs (flush_client chunk i sends) (upd h i (set_outgoing c' out now) body owner []) Q.
Proof.
  intros Hok Hc Hfd Hs Hbuf Hout E1 E2 E3 E4 E5 Ho Hr HQ. pose proof (sl_each _ Hok _ _ Hc) as Hcok.
  assert (Hok' : slots_ok (upd h i (set_outgoing c' out now) body owner [])).
  { apply (slots_upd h i c); [done|done|by apply sm_none|done|]. destruct Hcok as [C1 C2 C3 C4 C5 C6 C7]. split; cbn [set_outgoing cl_fd cl_incoming cl_header_complete cl_header_size cl_required_size cl_outgoing_offset cl_sending_response cl_waiting_response cl_outgoing cl_positions_body_offset]; try done.
    - rewrite E1. lia.
    - by rewrite E2.
    - by rewrite E2, E3, E4, E5.
    - split; [lia|]. split; [unfold sent; cbn; lia|done].
    - intros _. rewrite E1. change (ht_log _) with (ht_log h ++ []). rewrite app_nil_r, C7 by done. rewrite Hs in C5. rewrite C5. by rewrite take_nil. }
  apply (flush_client_ok _ _ _ _ (set_outgoing c' out now)); [done|by eapply upd_client|cbn; lia|done|]. intros h' Hh. apply HQ. by eapply handled_upd.
Qed.

Lemma with_clients_upd h i c : with_clients h (<[i := c]> (ht_clients h)) = upd h i c (ht_positions_body h) (ht_positions_owner h) [].
Proof. unfold upd. cbn. rewrite app_nil_r. by destruct h. Qed.

Lemma runs_set_client h i c (Q : unit → HttpServer → Prop) :
  Q tt (upd h i c (ht_positions_body h) (ht_positions_owner h) []) → runs (set_client i c) h Q.
Proof. intros HQ. apply runs_ht_modify. by rewrite with_clients_upd. Qed.

Definition without_body c : ClientSlot := if cl_owns_positions_body c then set_owns c false 0 else c.

(** The buffer of an idle client is given back. *)
Lemma release_ok h i c (Q : unit → HttpServer → Prop) :
  slots_ok h → ht_clients h !! i = Some c → cl_sending_response c = false →
  (∀ h', handled i (λ _ c', c' = without_body c) h h' → Q tt h') → runs (release_positions_body i) h Q.
Proof.
  intros Hok Hc Hs HQ. apply (release_exec h i c); [done..|]. apply HQ. unfold released, without_body. pose proof (sl_each _ Hok _ _ Hc) as [C1 C2 C3 (C4a & C4b & C4c) C5 C6 C7].
  destruct (cl_owns_positions_body c) eqn:Ho; [|by apply (handled_refl i _ _ c)].
  exists (set_owns c false 0), [], kNoClientSlot, []. split; [done|]. split; [|split; [by eapply upd_client|done]]. rewrite Hs in C5. unfold reply in C5. rewrite Ho in C5. apply app_eq_nil in C5 as [Eo Eb].
  apply (slots_upd h i c); [done|done|by apply sm_none| |].
  - right. split; [right; by apply C6|by left].
  - split; try done; cbn [set_owns cl_fd cl_sending_response cl_owns_positions_body].
    + intros Hf. specialize (C1 Hf). rewrite C1 in Ho. done.
    + unfold sent, reply. cbn. rewrite Eo in *. cbn in *. lia.
    + rewrite Hs. unfold reply. cbn. by rewrite Eo.
    + split; [done|]. intros E. cbn in E. by apply (no_client i c h) in E.
    + intros Hf. change (ht_log _) with (ht_log h ++ []). rewrite app_nil_r, C7 by done. unfold reply, sent. cbn. rewrite Ho, Eo, Eb. cbn. by rewrite !take_nil.
Qed.

Lemma queue_inline_ok chunk h i c status reason body env (Q : unit → HttpServer → Prop) :
  slots_ok h → ht_clients h !! i = Some c → 0 ≤ cl_fd c → cl_sending_response c = false → one_line reason = true →
  (∀ h', handled i (answered (response_head status reason (length body) ++ body)) h h' → Q tt h') → runs (queue_inline_json chunk i status reason body env) h Q.
Proof.
  intros Hok Hc Hfd Hs Hline HQ. unfold queue_inline_json. ht_step. rewrite (proj2 (Z.ltb_ge _ _)) by done. apply runs_bind. apply (release_ok h i c); [done..|].
  intros h1 Hh1. pose proof Hh1 as (c1 & b1 & o1 & e1 & Eh & Hok1 & Hc1 & ->).
  assert (Hsame : cl_fd (without_body c) = cl_fd c ∧ cl_sending_response (without_body c) = false ∧ cl_owns_positions_body (without_body c) = false)
    by (unfold without_body; by destruct (cl_owns_positions_body c) eqn:?).
  destruct Hsame as (Hf1 & Hs1 & Ho1). cbv zeta. set (head := response_head status reason (length body)).
  destruct (_ || _) eqn:Efit; [|apply orb_false_iff in Efit as [Hf2%Nat.leb_gt Hf3%Nat.ltb_ge]].
  - apply (close_ok h1 i (without_body c)); [done..|]. intros h2 Hh2. apply HQ. eapply handled_mono; [by eapply handled_trans|]. by left.
  - ht_step. apply runs_bind, runs_set_client.
    apply (start_reply_ok chunk h1 i (without_body c) (without_body c)); try done; [lia|by left| | | |].
    + rewrite length_app. fold head. lia.
    + apply (co_owner _ _ _ (sl_each _ Hok1 _ _ Hc1)).
    + rewrite Ho1, app_nil_r. by exists status, reason, body.
    + rewrite Ho1, app_nil_r. intros h2 Hh2. apply HQ. by eapply handled_trans.
Qed.

Lemma response_head_length status reason n : (length (response_head status reason n) ≤ 134 + length reason)%nat.
Proof.
  unfold response_head. rewrite !length_app. pose proof (print_signed_length status). pose proof (print_unsigned_length (Z.of_nat n)). cbn [length crlf str]. 
  repeat match goal with |- context [length (str ?s)] => let n := eval vm_compute in (length (str s)) in change (length (str s)) with n end. lia.
Qed.

(** The answer to a client that asked for the positions, and to one that asked about an
    order. *)
Definition positions_reply (ps : list PositionSnapshot) : list Z :=
  match positions_json ps with
  | Some body => response_head 200 (str "OK") (length body) ++ body
  | None => let body := json "{'error':'positions_response_too_large'}" in response_head 500 (str "Internal Server Error") (length body) ++ body
  end.
Definition order_reply (o : OrderSnapshot) : list Z :=
  let body := order_body o in
  if (256 <=? length body)%nat then
    let body := json "{'error':'response_format_failed'}" in response_head 500 (str "Internal Server Error") (length body) ++ body
  else if bool_decide (os_status o = stNotFound) then response_head 404 (str "Not Found") (length body) ++ body
  else response_head 200 (str "OK") (length body) ++ body.
Definition reply_to (command : Command) (response : Response) : list Z :=
  if bool_decide (command = kPositions) then positions_reply (rp_positions response) else order_reply (rp_order response).

Lemma positions_json_bound ps body : positions_json ps = Some body → Z.of_nat (length body) < kMaxPositionsJsonBytes.
Proof.
  unfold positions_json. cbv zeta. case_cond; [done|]. destruct (positions_entries _ _ _) as [text|]; [|done]. cbn [mbind option_bind].
  destruct (Z.ltb_spec kMaxPositionsJsonBytes (Z.of_nat (length text) + 3)); [done|]. intros [= <-]. rewrite length_app. change (length (str "]}")) with 2%nat. lia.
Qed.

Lemma queue_positions_ok chunk h i c response env (Q : unit → HttpServer → Prop) :
  slots_ok h → ht_clients h !! i = Some c → 0 ≤ cl_fd c → cl_sending_response c = false → cl_owns_positions_body c = true →
  (∀ h', handled i (answered (positions_reply (rp_positions response))) h h' → Q tt h') → runs (queue_positions_json chunk i response env) h Q.
Proof.
  intros Hok Hc Hfd Hs Ho HQ. unfold queue_positions_json, positions_reply in *. ht_step. rewrite (proj2 (Z.ltb_ge _ _)), Ho by done. cbn [orb negb].
  destruct (positions_json (rp_positions response)) as [body|] eqn:Ej; [apply positions_json_bound in Ej|by apply (queue_inline_ok chunk h i c)]. ht_step. cbv zeta.
  pose proof (co_owner _ _ _ (sl_each _ Hok _ _ Hc)) as Hown. pose proof (response_head_length 200 (str "OK") (length body)) as Hl. change (length (str "OK")) with 2%nat in Hl.
  rewrite (proj2 (Nat.leb_gt _ _)) by (unfold kMaxInlineResponseBytes; lia).
  apply runs_bind, runs_ht_modify.
  replace (with_clients _ _) with (upd h i (set_outgoing c (response_head 200 (str "OK") (length body)) (io_now env)) body (ht_positions_owner h) []) by (unfold upd; cbn; by rewrite app_nil_r).
  apply (start_reply_ok chunk h i c c); try done.
  - right. rewrite (proj1 Hown Ho). auto.
  - unfold kMaxInlineResponseBytes. lia.
  - rewrite Ho. by exists 200, (str "OK"), body.
  - by rewrite Ho.
Qed.

Lemma send_response_ok chunk h i c response env (Q : unit → HttpServer → Prop) :
  slots_ok h → ht_clients h !! i = Some c → 0 ≤ cl_fd c → cl_sending_response c = false → (cl_command c = kPositions → cl_owns_positions_body c = true) →
  (∀ h', handled i (answered (reply_to (cl_command c) response)) h h' → Q tt h') → runs (send_response chunk i response env) h Q.
Proof.
  intros Hok Hc Hfd Hs Ho HQ. unfold send_response, reply_to, order_reply in *. ht_step. case_bool_decide as Hk; [apply (queue_positions_ok chunk h i c); auto|].
  cbv zeta in *. case_cond; [by apply (queue_inline_ok chunk h i c)|]. case_bool_decide; by apply (queue_inline_ok chunk h i c).
Qed.

