(* ===== verification/HttpReply.v ===== *)
(** * HttpReply: the responses the control plane writes

    Numbers are printed as they are read, every response announces its length, and the
    snapshot of all positions fits its buffer. *)

From S2P Require Import Prelude Arena OrderTable Reconciliation Risk Gateway GatewayTheorems WsText HttpText Printf HttpBridge HttpServer HttpInv.
From Stdlib Require Import ZArith Lia String.
From stdpp Require Import base tactics gmap numbers option list.
Open Scope Z_scope.

(** ** Framing *)

Definition reply_start (status : Z) (reason : list Z) : list Z := str "HTTP/1.1 " ++ print_signed status ++ [32] ++ reason.
Definition reply_fields (n : nat) : list Field :=
  [mkField (str "Content-Type") (str " application/json"); mkField (str "Content-Length") (32 :: print_unsigned (Z.of_nat n)); mkField (str "Connection") (str " close")].

Lemma response_text status reason n rest : response_head status reason n ++ rest = request_text (reply_start status reason) (reply_fields n) rest.
Proof.
  unfold response_head, request_text, header_block, reply_start, reply_fields, field_line. cbn [mbind list_bind fd_name fd_value].
  change (str "Content-Type: application/json") with (str "Content-Type" ++ [58] ++ str " application/json"). change (str "Content-Length: ") with (str "Content-Length" ++ [58] ++ [32]).
  change (str "Connection: close") with (str "Connection" ++ [58] ++ str " close"). rewrite ?app_nil_r. repeat (cbn [app]; rewrite <- ?app_assoc). done.
Qed.

Lemma print_signed_one_line v : 13 ∉ print_signed v.
Proof.
  assert (Hu : ∀ w, 0 ≤ w → 13 ∉ print_unsigned w) by (intros w Hw; apply digits_one_line, print_digits_digits; [done|constructor]).
  unfold print_signed. destruct (Z.ltb_spec v 0); [|by apply Hu]. apply not_elem_of_cons. split; [done|]. apply Hu. lia.
Qed.

Lemma one_line_spec text : one_line text = true → 13 ∉ text.
Proof. unfold one_line. rewrite forallb_forall. intros Hall Hin%list_elem_of_In. by apply Hall in Hin. Qed.

Lemma reply_start_line status reason : one_line reason = true → 13 ∉ reply_start status reason.
Proof.
  intros Hr%one_line_spec. unfold reply_start. rewrite !not_elem_of_app. split_and!; [by_decide|apply print_signed_one_line|by_decide|done].
Qed.

Lemma reply_fields_ok n : Forall field_ok (reply_fields n).
Proof.
  assert (Hv : 13 ∉ 32 :: print_unsigned (Z.of_nat n)).
  { apply not_elem_of_cons. split; [done|]. apply digits_one_line, print_digits_digits; [lia|constructor]. }
  unfold reply_fields. rewrite !Forall_cons, Forall_nil. unfold field_ok. cbn [fd_name fd_value]. split_and!; first [exact Hv|exact I|by_decide].
Qed.

(** The head of a text announces the length of what follows it. *)
Definition well_framed (text : list Z) : Prop :=
  ∃ e v, strpos (crlf ++ crlf) text = Some e ∧ header text e (str "Content-Length") = Some v ∧
    header_decimal_size v = Some (Z.of_nat (length (drop (e + 4) text))).

Lemma field_value_digits ds : digits ds → ds ≠ [] → field_value (mkField (str "Content-Length") (32 :: ds)) = ds.
Proof.
  intros Hd Hn. unfold field_value. cbn [fd_value skip_while]. change (blank 32) with true. cbn [orb].
  assert (Hb : ∀ x, is_digit x = true → blank x = false) by (intros x; unfold is_digit, blank; lia).
  assert (Hskip : ∀ l, digits l → skip_while blank l = l) by (intros [|x l] Hl; [done|]; apply Forall_cons in Hl as [Hx _]; cbn [skip_while]; by rewrite Hb).
  rewrite (Hskip ds) by done. unfold trim_end. rewrite Hskip, reverse_involutive; [done|]. by apply Forall_reverse.
Qed.

Lemma response_framed text : http_response text → Z.of_nat (length text) ≤ UINT64_MAX → well_framed text.
Proof.
  intros (status & reason & body & Hr & ->) Hlen. rewrite response_text in *.
  destruct (request_fields (reply_start status reason) (reply_fields (length body)) body (str "Content-Length") (reply_start_line status reason Hr) (reply_fields_ok _)) as [Hs Hh].
  assert (Hn : 0 ≤ Z.of_nat (length body) ≤ UINT64_MAX) by (unfold request_text in Hlen; rewrite !length_app in Hlen; lia).
  destruct (print_unsigned_spec 20 (Z.of_nat (length body))) as (Hd & Hne & Hval & _); [lia|unfold UINT64_MAX in Hn; cbn; lia|].
  eexists _, _. split; [exact Hs|]. split; [exact Hh|]. replace (lookup_field (reply_fields (length body)) (str "Content-Length")) with (Some (print_unsigned (Z.of_nat (length body)))).
  2: { unfold reply_fields. cbn [lookup_field fd_name]. rewrite field_value_digits by done. done. }
  unfold header_decimal_size. cbn [mbind option_bind]. destruct (print_unsigned (Z.of_nat (length body))) as [|d ds] eqn:Ep; [done|]. rewrite <- Ep in *.
  rewrite <- (app_nil_r (print_unsigned (Z.of_nat (length body)))), read_digits_spec by (done || lia). rewrite Hval, (proj2 (Z.leb_le _ _)) by lia. cbn [mbind option_bind].
  do 2 f_equal. unfold request_text. rewrite app_assoc, app_assoc, drop_app_length'; [done|]. rewrite !length_app. change (length crlf) with 2%nat. lia.
Qed.

(** ** The snapshot of the positions *)

Definition position_ok (p : PositionSnapshot) : Prop :=
  0 ≤ ps_symbol_idx p < kSymbols ∧ INT64_MIN ≤ ps_net_position p ≤ INT64_MAX ∧ INT64_MIN ≤ ps_gross_exposure p ≤ INT64_MAX.

Lemma positions_entries_fit ps body first :
  Forall position_ok ps → Z.of_nat (length body) + 93 * Z.of_nat (length ps) < kMaxPositionsJsonBytes →
  ∃ text, positions_entries body first ps = Some text ∧ Z.of_nat (length text) ≤ Z.of_nat (length body) + 93 * Z.of_nat (length ps).
Proof.
  intros Hps. revert body first. induction Hps as [|p ps (Hs & Hn & Hg) Hps IH]; intros body first Hfit; cbn [positions_entries]; [exists body; split; [done|lia]|].
  cbv zeta. cbn [length] in Hfit. set (entry := (if first then _ else _) ++ _).
  assert (He : (length entry ≤ 93)%nat).
  { unfold entry. destruct (print_unsigned_spec 3 (ps_symbol_idx p)) as (_ & _ & _ & Hl); [lia|unfold kSymbols in Hs; cbn; lia|].
    pose proof (print_signed_bound _ Hn). pose proof (print_signed_bound _ Hg). rewrite !length_app.
    repeat match goal with |- context [length (json ?t)] => let n := eval vm_compute in (length (json t)) in change (length (json t)) with n end.
    change (length (str "}")) with 1%nat. assert (length (if first then [] else str ",") ≤ 1)%nat by (by destruct first; vm_compute; lia). lia. }
  rewrite (proj2 (Z.leb_gt _ _)) by lia. destruct (IH (body ++ entry) false) as (text & E & Hl); rewrite length_app in *; [lia|]. exists text. split; [done|]. cbn [length]. lia.
Qed.

Lemma positions_fit ps : Forall position_ok ps → Z.of_nat (length ps) ≤ kSymbols →
  ∃ body, positions_json ps = Some body ∧ Z.of_nat (length body) < 48 * 1024.
Proof.
  intros Hps Hn. unfold kSymbols in Hn. destruct (positions_entries_fit ps (json "{'positions':[") true Hps) as (text & E & Hl).
  { change (length (json "{'positions':[")) with 14%nat. unfold kMaxPositionsJsonBytes. lia. }
  change (length (json "{'positions':[")) with 14%nat in Hl. unfold positions_json. cbv zeta. rewrite (proj2 (Z.leb_gt _ _)) by (change (length (json "{'positions':[")) with 14%nat; done).
  rewrite E. cbn [mbind option_bind]. unfold kMaxPositionsJsonBytes. rewrite (proj2 (Z.ltb_ge _ _)) by lia. eexists. split; [done|]. rewrite length_app. change (length (str "]}")) with 2%nat. lia.
Qed.

(** The symbols with a position or an exposure, in order. *)
Definition exposed {T} (g : Gateway T) (sym : Z) : Prop := ¬ (net_position (risk_of g sym) = 0 ∧ gross_exposure (risk_of g sym) = 0).
#[global] Instance exposed_dec {T} (g : Gateway T) sym : Decision (exposed g sym).
Proof. unfold exposed. apply _. Defined.
Definition position_of {T} (g : Gateway T) (sym : Z) : PositionSnapshot := mkPosition sym (net_position (risk_of g sym)) (gross_exposure (risk_of g sym)).

Lemma open_positions_spec {T} (g : Gateway T) syms :
  gw_arena g = true → Forall (λ sym, 0 ≤ sym < kSymbols) syms → open_positions g syms = position_of g <$> filter (exposed g) syms.
Proof.
  intros Ha. induction 1 as [|sym syms Hs _ IH]; [done|]. cbn [open_positions]. unfold query_position. rewrite Ha, (proj2 (Z.leb_gt _ _)) by lia. cbn [negb orb]. rewrite filter_cons, IH.
  destruct (Z.eqb_spec (net_position (risk_of g sym)) 0) as [En|], (Z.eqb_spec (gross_exposure (risk_of g sym)) 0) as [Eg|]; cbn [negb orb]; [rewrite decide_False by (unfold exposed; tauto)|rewrite decide_True by (unfold exposed; tauto)..]; done.
Qed.

Lemma symbols_range : Forall (λ sym, 0 ≤ sym < kSymbols) symbols.
Proof. apply Forall_fmap, Forall_forall. intros k Hk%elem_of_seq. cbn. unfold kSymbols in *. lia. Qed.

(** C39 (bounds): the snapshot of the positions is complete.  Whatever 64-bit positions
    and exposures the gateway holds, the answer to GET /positions lists exactly the
    symbols with a position or an exposure, in order, with their values, and its JSON
    always fits: it stays below the 48 KiB the header file promises, so the 64 KiB
    buffer never overflows and the error branch is never taken. *)
Theorem positions_snapshot_complete {T} `{OrderTable T} env r (g : Gateway T) :
  rq_command r = kPositions → gw_arena g = true → (∀ sym, is_i64 (net_position (risk_of g sym)) ∧ is_i64 (gross_exposure (risk_of g sym))) →
  ∃ rp body, respond env r g = Some (rp, g) ∧ rp_request_id rp = rq_request_id r ∧ rp_positions rp = position_of g <$> filter (exposed g) symbols ∧
    positions_json (rp_positions rp) = Some body ∧ Z.of_nat (length body) < 48 * 1024.
Proof.
  intros Hr Ha Hv. destruct (positions_fit (position_of g <$> filter (exposed g) symbols)) as (body & E & Hl).
  - apply Forall_fmap, Forall_forall. intros sym [_ Hin]%list_elem_of_filter. pose proof symbols_range as Hs. rewrite Forall_forall in Hs. split; [by apply Hs|]. cbn. destruct (Hv sym) as [H1 H2]. unfold is_i64, INT64_MIN, INT64_MAX in *. lia.
  - rewrite length_fmap. pose proof (length_filter (exposed g) symbols). change (length symbols) with 512%nat in *. unfold kSymbols. lia.
  - eexists _, body. unfold respond. rewrite Hr. split; [reflexivity|]. cbn [rp_request_id rp_positions]. rewrite (open_positions_spec g symbols Ha symbols_range). done.
Qed.

Lemma positions_snapshot_complete_witness :
  ∃ rp body, respond demo_env (mkRequest kPositions 9 0 (demo_order 0 0)) demo_gateway = Some (rp, demo_gateway) ∧ positions_json (rp_positions rp) = Some body ∧ Z.of_nat (length body) < 48 * 1024.
Proof.
  assert (Hrisk : ∀ sym, risk_of demo_gateway sym = RiskState_init) by (intros sym; done).
  destruct (positions_snapshot_complete demo_env (mkRequest kPositions 9 0 (demo_order 0 0)) demo_gateway) as (rp & body & E & _ & _ & Ej & Hl); [reflexivity|reflexivity| |by exists rp, body].
  intros sym. rewrite Hrisk. unfold is_i64. cbn. lia.
Defined.
