(* ===== verification/HttpRun.v ===== *)
(** * HttpRun: the control plane keeps its invariant

    The identifiers of the requests in flight ([ids_ok]), the whole invariant
    ([http_ok]), and that every operation of the listener's thread ends and keeps it,
    whatever the clients send. *)

From S2P Require Import Prelude Arena Gateway Risk WsText WsAccept WsConn WsServer WsInv WsWorker WsRun HttpText HttpBridge HttpServer HttpInv.
From Stdlib Require Import ZArith Lia String.
From stdpp Require Import base tactics gmap numbers option list.
Open Scope Z_scope.

Implicit Types (h : HttpServer) (c : ClientSlot) (i j : nat).

(** ** Requests in flight *)

(** A client that waits has its identifier reserved; every reserved identifier is owed
    by the bridge, and identifiers are not used twice. *)
Record ids_ok h : Prop := mk_ids_ok {
  id_length : length (ht_outstanding h) = kMaxPendingExecutionResponses;
  id_waiting : ∀ i c, ht_clients h !! i = Some c → cl_waiting_response c = true →
    cl_request_id c ≠ 0 ∧ cl_request_id c ∈ ht_outstanding h ∧ (cl_command c = kPositions → cl_owns_positions_body c = true);
  id_unique : ∀ i j c d, ht_clients h !! i = Some c → ht_clients h !! j = Some d → cl_waiting_response c = true → cl_waiting_response d = true →
    cl_request_id c = cl_request_id d → i = j;
  id_owed : ∀ id, id ∈ ht_outstanding h → id ≠ 0 → id ∈ owed (ht_bridge h);
  id_once : ∀ (k l : nat) id, ht_outstanding h !! k = Some id → ht_outstanding h !! l = Some id → id ≠ 0 → k = l;
  id_nodup : NoDup (owed (ht_bridge h));
  id_next : 0 ≤ ht_next_request_id h ≤ UINT64_MAX ∧ ∀ id, id ∈ owed (ht_bridge h) → 0 < id ∧ (ht_next_request_id h ≠ 0 → id < ht_next_request_id h);
  id_bridge : bridge_ok (ht_bridge h)
}.

(** A client that owns the snapshot buffer waits for the snapshot or sends it. *)
Definition settled c : Prop := cl_owns_positions_body c = true → cl_sending_response c = true ∨ cl_waiting_response c = true ∧ cl_command c = kPositions.

Definition websocket_ok h : Prop := match ht_websocket h with Some s => server_ok 0 all s | None => True end.

(** The invariant, but for the buffer of client [i]. *)
Record http_but (skip : option nat) h : Prop := mk_http_but {
  hb_slots : slots_ok h;
  hb_ids : ids_ok h;
  hb_settled : ∀ j c, Some j ≠ skip → ht_clients h !! j = Some c → settled c;
  hb_websocket : websocket_ok h;
  hb_stopped : ht_running h = false → ∀ j c, ht_clients h !! j = Some c → cl_fd c < 0
}.
Notation http_ok := (http_but None).

(** The invariant of a server that runs. *)
Definition http_up h : Prop := http_ok h ∧ ht_running h = true.

Lemma http_weaken h i : http_ok h → http_but (Some i) h.
Proof. intros [H1 H2 H3 H4 H5]. split; try done. intros j c _. by apply H3. Qed.

(** The invariant of the slots only looks at clients, buffer and log. *)
Lemma slots_same h h' :
  ht_clients h' = ht_clients h → ht_positions_body h' = ht_positions_body h → ht_positions_owner h' = ht_positions_owner h → ht_log h' = ht_log h →
  slots_ok h → slots_ok h'.
Proof.
  intros Ec Eb Eo El [S1 S2 S3 S4 S5]. split; rewrite ?Ec, ?Eb, ?Eo, ?El; try done. intros i c Hc. destruct (S2 i c Hc) as [C1 C2 C3 C4 C5 C6 C7].
  assert (Er : ∀ d, reply h' d = reply h d) by (intros d; unfold reply; by rewrite Eb). split; rewrite ?Er, ?Eo, ?El; done.
Qed.

(** A waiting client of the new table was there before. *)
Lemma waiting_before (l : list ClientSlot) i c j d :
  cl_waiting_response c = false → <[i := c]> l !! j = Some d → cl_waiting_response d = true → l !! j = Some d.
Proof. intros Hw [(_ & <- & _)|[_ Hd]]%list_lookup_insert_Some Hdw; [congruence|done]. Qed.

(** Client [i] no longer waits; nothing else changed. *)
Lemma ids_upd h i c body owner evs : ids_ok h → (cl_waiting_response c = false) → ids_ok (upd h i c body owner evs).
Proof.
  intros [I1 I2 I3 I4 I5 I6 I7 I8] Hw. split; try done; cbn [upd with_log with_positions with_clients ht_clients ht_outstanding].
  - intros j d Hd Hdw. apply (I2 j); [|done]. by eapply waiting_before.
  - intros j k d e Hd He Hdw Hew. apply I3; [by eapply waiting_before..|done|done].
Qed.

Lemma handled_fields i P h h' : handled i P h h' → ht_bridge h' = ht_bridge h ∧ ht_running h' = ht_running h ∧ ht_outstanding h' = ht_outstanding h ∧ ht_websocket h' = ht_websocket h ∧ ht_next_order_id h' = ht_next_order_id h ∧ ht_next_request_id h' = ht_next_request_id h.
Proof. by intros (c & b & o & e & -> & _). Qed.

Lemma handled_http h h' i (P : HttpServer → ClientSlot → Prop) :
  http_but (Some i) h → handled i P h h' → (∀ c, P h' c → cl_waiting_response c = false ∧ (cl_owns_positions_body c = true → cl_sending_response c = true)) →
  (ht_running h = false → ∀ c, P h' c → cl_fd c < 0) → http_ok h'.
Proof.
  intros [B1 B2 B3 B4 B5] (c & b & o & e & -> & Hok & Hi & HP) Hc Hr. destruct (Hc c HP) as [Hw Ho]. split; [done|by apply ids_upd| |done|].
  - intros j d _ Hd. destruct (decide (j = i)) as [->|Hji]; [simplify_eq; intros Hown; left; auto|].
    cbn in Hd. rewrite list_lookup_insert_ne in Hd by done. apply (B3 j); [congruence|done].
  - intros Er j d Hd. destruct (decide (j = i)) as [->|Hji]; [simplify_eq; by apply Hr|].
    cbn in Hd. rewrite list_lookup_insert_ne in Hd by done. by apply (B5 Er j).
Qed.

Lemma answered_http h h' i text : http_but (Some i) h → ht_running h = true → handled i (answered text) h h' → http_up h'.
Proof.
  intros Hb Hr Hh. split; [|by rewrite (proj1 (proj2 (handled_fields _ _ _ _ Hh)))]. destruct Hh as (c & b & o & e & Eh & Hok & Hi & Ha). apply (handled_http h h' i (λ _ d, d = c)); [done|by exists c, b, o, e| |congruence].
  intros d ->. destruct Ha as [->|[Hs _]]; [done|]. pose proof (co_reply _ _ _ (sl_each _ Hok i c Hi)) as Hcr. rewrite Hs in Hcr. by destruct Hcr.
Qed.

(** ** Dispatching *)

(** Client [i] is connected and has no response yet. *)
Record reading h i c : Prop := mk_reading {
  rd_client : ht_clients h !! i = Some c;
  rd_fd : 0 ≤ cl_fd c;
  rd_idle : cl_sending_response c = false ∧ cl_waiting_response c = false;
  rd_but : http_but (Some i) h;
  rd_running : ht_running h = true
}.

Lemma reading_reply h i c chunk status reason body env (Q : unit → HttpServer → Prop) :
  reading h i c → one_line reason = true → (∀ h', http_up h' → Q tt h') → runs (queue_inline_json chunk i status reason body env) h Q.
Proof.
  intros [R1 R2 [R3 _] R4 R5] Hline HQ. apply (queue_inline_ok chunk h i c); [apply R4|done..|]. intros h' Hh. apply HQ. by eapply answered_http.
Qed.

Lemma reading_close h i c (Q : unit → HttpServer → Prop) : reading h i c → (∀ h', http_up h' → Q tt h') → runs (close_client i) h Q.
Proof.
  intros [R1 R2 _ R4 R5] HQ. apply (close_ok h i c); [apply R4|done|]. intros h' Hh. apply HQ. apply (answered_http h h' i []); [done..|]. eapply handled_mono; [done|]. by left.
Qed.

(** Fields that are not the clients' change. *)
Lemma reading_same h h' i c :
  reading h i c → ht_clients h' = ht_clients h → ht_positions_body h' = ht_positions_body h → ht_positions_owner h' = ht_positions_owner h → ht_log h' = ht_log h →
  ht_running h' = ht_running h → ids_ok h' → websocket_ok h' → reading h' i c.
Proof.
  intros [R1 R2 R3 [B1 B2 B3 B4 B5] R5] Ec Eb Eo El Er Hi Hw. split; [by rewrite Ec|done|done| |by rewrite Er].
  split; rewrite ?Ec, ?Er; try done. by apply (slots_same h h').
Qed.

Lemma runs_total {A} (o : option A) h (Q : A → HttpServer → Prop) : is_Some o → (∀ x, o = Some x → Q x h) → runs (lift o) h Q.
Proof. intros [x E] HQ. apply (runs_lift _ x); auto. Qed.

Section dispatch.
Context (keys : list Key) (wait chunk : Z).

Lemma ws_enqueue_ok h i c fd id key pre leased (Q : UpgradeResult → HttpServer → Prop) :
  reading h i c → is_Some (ht_websocket h) → key_readable key → bytes pre → (∀ r h', reading h' i c → Q r h') → runs (ws_enqueue fd id key pre leased) h Q.
Proof.
  intros Hr [s Es] Hk Hp HQ. pose proof (hb_websocket _ _ (rd_but _ _ _ Hr)) as Hws. unfold websocket_ok in Hws. rewrite Es in Hws. destruct Hws as [ch Hws].
  destruct (enqueue_upgrade_ok ch s fd id (Some key) pre leased (λ _ s', server_ok 0 all s') Hws ltac:(by intros ? [= <-]) Hp ltac:(done)) as (r & s' & E & Hok').
  exists r, (with_websocket h (Some s')). split; [unfold ws_enqueue; rewrite Es; cbn [mbind option_bind]; by rewrite E|]. apply HQ.
  apply (reading_same h); [done..| |by unfold websocket_ok]. by destruct (hb_ids _ _ (rd_but _ _ _ Hr)).
Qed.

Lemma dispatch_upgrade_ok h i c path env (Q : unit → HttpServer → Prop) :
  reading h i c → is_Some (ht_websocket h) → (∀ h', http_up h' → Q tt h') → runs (dispatch_upgrade chunk i path env) h Q.
Proof.
  intros Hr Hws HQ. pose proof (rd_client _ _ _ Hr) as Hc. assert (Hq : ∀ status reason body, one_line reason = true → runs (queue_inline_json chunk i status reason body (de_io env)) h Q) by (intros; by apply (reading_reply h i c)).
  unfold dispatch_upgrade, bad_upgrade. ht_step. cbv zeta.
  do 4 (apply runs_bind, runs_total; [apply header_total|]; intros ? _). do 2 (apply runs_bind, runs_total; [apply header_has_token_total|]; intros ? _).
  destruct (path_number path _) as [id|]; [|by apply Hq]. case_match; [|by apply Hq]. case_cond; [by apply Hq|]. destruct (Nat.leb_spec 32 (length l)); [by apply Hq|]. case_cond; [by apply Hq|]. case_cond; [by apply Hq|].
  assert (Hnext : ∀ r h', reading h' i c → runs (match r with uAccepted => close_client i | uInvalidKey => queue_inline_json chunk i 400 (str "Bad Request") (json "{'error':'Invalid WebSocket key'}") (de_io env)
      | uInvalidUpgrade => queue_inline_json chunk i 400 (str "Bad Request") (json "{'error':'invalid_websocket_upgrade'}") (de_io env)
      | _ => queue_inline_json chunk i 503 (str "Service Unavailable") (json "{'error':'Connection pool exhausted'}") (de_io env) end) h' Q)
    by (intros [] h' Hr'; by first [apply (reading_close h' i c)|apply (reading_reply h' i c)]).
  apply runs_bind. case_cond; [apply runs_ret; by apply (Hnext uQueueFull)|]. apply (ws_enqueue_ok h i c); [done|done| | |done].
  - left. apply elem_of_app. right. destruct (32 - length l)%nat eqn:E; [lia|]. cbn. by left.
  - apply Forall_drop. apply (co_incoming _ _ _ (sl_each _ (hb_slots _ _ (rd_but _ _ _ Hr)) _ _ Hc)).
Qed.

Lemma reading_bridge h i c b : reading h i c → bridge_ok b → owed b = owed (ht_bridge h) → reading (with_bridge h b) i c.
Proof.
  intros Hr Hb Ho. apply (reading_same h); try done; [|apply (hb_websocket _ _ (rd_but _ _ _ Hr))]. destruct (hb_ids _ _ (rd_but _ _ _ Hr)). split; cbn; rewrite ?Ho; done.
Qed.

Lemma dispatch_submit_ok h i c env (Q : unit → HttpServer → Prop) :
  reading h i c → (∀ h', http_up h' → Q tt h') → runs (dispatch_submit chunk i env) h Q.
Proof.
  intros Hr HQ. pose proof (rd_client _ _ _ Hr) as Hc. unfold dispatch_submit. ht_step. destruct (submit_order _ _) as [order|]; [|by apply (reading_reply h i c)].
  unfold take_order_id. apply runs_bind, runs_bind, runs_ht_get. cbv zeta. destruct (Z.eqb_spec (ht_next_order_id h) 0) as [|Hid]; [apply runs_ret; by apply (reading_reply h i c)|].
  apply runs_bind, runs_ht_modify, runs_ret. set (h1 := with_order_id h _). assert (Hr1 : reading h1 i c) by (apply (reading_same h); try done; destruct Hr as [_ _ _ [_ [] _ ? _] _]; done).
  rewrite (proj2 (Z.eqb_neq _ _)) by done. apply runs_bind. unfold submit_request, runs at 1.
  pose proof (bridge_submit_owed (ht_bridge h1) (mkRequest kSubmit 0 0 (set_order_id order (ht_next_order_id h)))) as Hs.
  destruct (bridge_submit (ht_bridge h1) _) as [b ok]. destruct (Hs (id_bridge _ (hb_ids _ _ (rd_but _ _ _ Hr1)))) as [Hb Ho].
  rewrite (bool_decide_eq_false_2 (wants_response _)), andb_false_r, app_nil_r in Ho by (by intros []). exists ok, (with_bridge h1 b). split; [done|].
  pose proof (reading_bridge h1 i c b Hr1 Hb Ho) as Hr2. destruct ok; cbn [negb]; [cbv zeta; case_cond|]; by apply (reading_reply _ i c).
Qed.

(** The buffer is given back before the reply. *)
Lemma release_reply h i c status reason body env (Q : unit → HttpServer → Prop) :
  reading h i c → one_line reason = true → (∀ h', http_up h' → Q tt h') → runs (release_positions_body i;; queue_inline_json chunk i status reason body env) h Q.
Proof.
  intros Hr Hline HQ. pose proof Hr as [R1 R2 [R3 R3'] [B1 B2 B3 B4 B5] R5]. apply runs_bind. apply (release_ok h i c); [done..|]. intros h' (c' & b & o & e & -> & Hok & Hi & ->).
  assert (Hsame : cl_fd (without_body c) = cl_fd c ∧ cl_sending_response (without_body c) = false ∧ cl_waiting_response (without_body c) = false)
    by (unfold without_body; by destruct (cl_owns_positions_body c)).
  destruct Hsame as (S1 & S2 & S3). apply (reading_reply _ i (without_body c)); [|done|done]. split; [done|lia|done| |done]. split; [done|by apply ids_upd| |done|cbn; congruence].
  intros j d Hj Hd. cbn in Hd. rewrite list_lookup_insert_ne in Hd by congruence. by apply (B3 j).
Qed.

(** Reserving an identifier that is not in use, and giving it back. *)
Lemma release_reserved (o : list Z) (k : nat) id :
  first_index (λ x, x =? 0) o = Some k → id ∉ o → id ≠ 0 → first_index (λ x, x =? id) (<[k := id]> o) = Some k ∧ <[k := 0]> (<[k := id]> o) = o.
Proof.
  intros [(x & Hx & Hz) Hf]%first_index_Some Hn Hid. apply Z.eqb_eq in Hz. subst x. pose proof (lookup_lt_Some _ _ _ Hx) as Hl. split.
  - apply first_index_Some. split; [exists id; split; [by apply list_lookup_insert_eq|apply Z.eqb_refl]|]. intros j y Hj Hy. rewrite list_lookup_insert_ne in Hy by lia.
    apply Z.eqb_neq. intros ->. apply Hn. by eapply list_elem_of_lookup_2.
  - by rewrite list_insert_insert_eq, list_insert_id.
Qed.

(** The client waits for the response to a request the bridge has just taken. *)
Lemma waiting_http h i c (k : nat) id command b dl :
  reading h i c → (cl_owns_positions_body c = true ↔ command = kPositions) → first_index (λ x, x =? 0) (ht_outstanding h) = Some k → id ≠ 0 → 0 < id →
  (∀ x, x ∈ owed (ht_bridge h) → x < id) → (ht_next_request_id h ≠ 0 → id < ht_next_request_id h) → bridge_ok b → owed b = owed (ht_bridge h) ++ [id] →
  http_ok (upd (with_bridge (with_outstanding h (<[k := id]> (ht_outstanding h))) b) i (set_waiting c id command dl) (ht_positions_body h) (ht_positions_owner h) []).
Proof.
  intros [R1 R2 [R3 R4] [B1 [I1 I2 I3 I4 I5 I6 [I7 I7'] I8] B3 B4 B5] R5] Hown [(z & Hz & Ez) _]%first_index_Some Hid Hpos Hfresh Hnext Hb Ho.
  apply Z.eqb_eq in Ez. subst z. pose proof (lookup_lt_Some _ _ _ Hz) as Hk. set (h1 := with_bridge (with_outstanding h _) b).
  assert (Hok1 : slots_ok h1) by (by apply (slots_same h)). assert (Hnot : id ∉ ht_outstanding h) by (intros Hin; specialize (Hfresh id (I4 id Hin Hid)); lia).
  assert (Hkeep : ∀ x, x ∈ ht_outstanding h → x ≠ 0 → x ∈ <[k := id]> (ht_outstanding h)).
  { intros x [m Hm]%list_elem_of_lookup Hx. apply list_elem_of_lookup. exists m. rewrite list_lookup_insert_ne; [done|]. intros ->. congruence. }
  split.
  - apply (slots_upd h1 i c); [done|done|by apply sm_none|by left|]. pose proof (sl_each _ Hok1 i c R1) as [C1 C2 C3 C4 C5 C6 C7].
    split; try done; cbn [set_waiting cl_fd cl_sending_response]; [intros; lia|by rewrite R3 in *|]. intros Hf. change (ht_log _) with (ht_log h1 ++ []). rewrite app_nil_r. by apply C7.
  - split; cbn [upd with_log with_positions with_clients with_bridge with_outstanding h1 ht_outstanding ht_clients ht_bridge ht_next_request_id]; try done.
    + by rewrite length_insert.
    + intros j d [(-> & <- & _)|[Hj Hd]]%list_lookup_insert_Some Hw; cbn [set_waiting cl_request_id cl_command cl_owns_positions_body].
      * split_and!; [done| |by apply Hown]. apply list_elem_of_lookup. exists k. by apply list_lookup_insert_eq.
      * destruct (I2 j d Hd Hw) as (D1 & D2 & D3). auto.
    + assert (Hother : ∀ j d, ht_clients h !! j = Some d → cl_waiting_response d = true → cl_request_id d ≠ id) by (intros j d Hd Hw E; apply Hnot; rewrite <- E; by apply (I2 j d)).
      intros j m d e [(-> & <- & _)|[Hj Hd]]%list_lookup_insert_Some [(-> & <- & _)|[Hm He]]%list_lookup_insert_Some Hdw Hew E; [done| | |by eapply I3].
      * cbn in E. exfalso. by apply (Hother m e).
      * cbn in E. exfalso. by apply (Hother j d).
    + intros x [m Hm]%list_elem_of_lookup Hx. rewrite Ho. apply elem_of_app. apply list_lookup_insert_Some in Hm as [(_ & <- & _)|[_ Hm]]; [right; by apply list_elem_of_singleton|].
      left. apply I4; [by eapply list_elem_of_lookup_2|done].
    + intros m l x [(-> & <- & _)|[Hm Hx]]%list_lookup_insert_Some [(-> & E & _)|[Hl Hx']]%list_lookup_insert_Some Hne; [done| | |by eapply I5].
      * exfalso. apply Hnot. by eapply list_elem_of_lookup_2.
      * subst x. exfalso. apply Hnot. by eapply list_elem_of_lookup_2.
    + rewrite Ho. apply NoDup_app. split_and!; [done| |apply NoDup_singleton]. intros x Hx Ex%list_elem_of_singleton. subst x. specialize (Hfresh _ Hx). lia.
    + split; [done|]. intros x. rewrite Ho, elem_of_app, list_elem_of_singleton. intros [Hx| ->]; [by apply I7'|done].
  - intros j d _ [(-> & <- & _)|[Hj Hd]]%list_lookup_insert_Some; [|apply (B3 j); [congruence|done]]. intros Hw. right. split; [done|]. cbn in *. by apply Hown.
  - done.
  - cbn. congruence.
Qed.

(** The buffer is reserved for a client that has none. *)
Lemma reserve_body_ok h i c (Q : bool → HttpServer → Prop) :
  reading h i c → cl_owns_positions_body c = false → Q false h →
  (reading (upd h i (set_owns c true (cl_positions_body_offset c)) [] (Z.of_nat i) []) i (set_owns c true (cl_positions_body_offset c)) →
    Q true (upd h i (set_owns c true (cl_positions_body_offset c)) [] (Z.of_nat i) [])) →
  runs (reserve_positions_body i) h Q.
Proof.
  intros Hr Hno Hf Ht. pose proof Hr as [R1 R2 [R3 R4] [B1 B2 B3 B4 B5] R5]. unfold reserve_positions_body. ht_step. ht_step. rewrite Hno. cbn [orb].
  destruct (Z.eqb_spec (ht_positions_owner h) kNoClientSlot) as [Eo|]; cbn [negb]; [|by apply runs_ret]. ht_step. apply runs_bind, runs_set_client, runs_ret.
  set (c' := set_owns _ _ _) in *. replace (upd _ _ _ _ _ _) with (upd h i c' [] (Z.of_nat i) []) by (unfold upd; cbn; done). apply Ht.
  pose proof (sl_each _ B1 i c R1) as [C1 C2 C3 (C4a & C4b & C4c) C5 C6 C7]. assert (Hrep : reply h c = [] ∧ cl_outgoing c = []).
  { rewrite R3 in C5. split; [done|]. unfold reply in C5. by apply app_eq_nil in C5 as [? _]. }
  destruct Hrep as [Hrep Hout]. assert (Hok : slots_ok (upd h i c' [] (Z.of_nat i) [])).
  { apply (slots_upd h i c); [done|done|by apply sm_none|by right; split; [left|right]|]. assert (Er : reply (upd h i c' [] (Z.of_nat i) []) c' = []) by (unfold reply; cbn; by rewrite Hout).
    split; rewrite ?Er; try done; cbn [c' set_owns cl_fd cl_sending_response cl_outgoing cl_outgoing_offset cl_positions_body_offset].
    - intros; lia.
    - split; [done|]. split; [|done]. rewrite Hrep in C4b. done.
    - by rewrite R3.
    - intros _. change (ht_log _) with (ht_log h ++ []). rewrite app_nil_r, C7, Hrep by done. by rewrite !take_nil. }
  split; [by eapply upd_client|done|done| |done]. split; [done|by apply ids_upd| |done|cbn; congruence].
  intros j d Hj Hd. cbn in Hd. rewrite list_lookup_insert_ne in Hd by congruence. by apply (B3 j).
Qed.


Lemma await_response_ok h i c command id oid env (Q : unit → HttpServer → Prop) :
  reading h i c → (cl_owns_positions_body c = true ↔ command = kPositions) → command ≠ kSubmit → 0 < id → (∀ x, x ∈ owed (ht_bridge h) → x < id) →
  (ht_next_request_id h ≠ 0 → id < ht_next_request_id h) → (∀ h', http_up h' → Q tt h') → runs (await_response wait chunk i command id oid env) h Q.
Proof.
  intros Hr Hown Hcmd Hid Hlt Hnext HQ. pose proof (hb_ids _ _ (rd_but _ _ _ Hr)) as Hids. assert (Hnz : id ≠ 0) by lia.
  unfold await_response. apply runs_bind. unfold reserve_response_id. rewrite (proj2 (Z.eqb_neq _ _)) by done. ht_step.
  destruct (first_index (λ o, o =? 0) (ht_outstanding h)) as [k|] eqn:Ek; [|apply runs_ret; by apply (release_reply h i c)].
  apply runs_bind, runs_ht_modify, runs_ret. cbn [negb]. apply runs_bind. unfold submit_request, runs at 1. cbn [with_outstanding ht_bridge].
  pose proof (bridge_submit_owed (ht_bridge h) (mkRequest command id oid OrderIntent_init)) as Hs.
  destruct (bridge_submit (ht_bridge h) (mkRequest command id oid OrderIntent_init)) as [b ok] eqn:Esub.
  destruct (Hs (id_bridge _ Hids)) as [Hb Ho]. rewrite (bool_decide_eq_true_2 (wants_response (mkRequest command id oid OrderIntent_init)) Hcmd), andb_true_r in Ho.
  eexists ok, _. split; [reflexivity|]. destruct ok; cbn [negb].
  - apply runs_bind. eapply runs_client; [apply (rd_client _ _ _ Hr)|]. apply runs_set_client, HQ. split; [by apply (waiting_http h i c k id command b)|apply (rd_running _ _ _ Hr)].
  - apply runs_bind. unfold release_response_id. rewrite (proj2 (Z.eqb_neq _ _)) by done. ht_step. cbn [with_bridge with_outstanding ht_outstanding].
    assert (Hnot : id ∉ ht_outstanding h) by (intros Hin; specialize (Hlt id (id_owed _ Hids id Hin Hnz)); lia). destruct (release_reserved _ _ _ Ek Hnot Hnz) as [-> Eback].
    apply runs_bind, runs_ht_modify, runs_ret. cbn [with_bridge with_outstanding ht_outstanding]. rewrite Eback. apply (release_reply _ i c); [|done|done].
    rewrite app_nil_r in Ho. apply (reading_same h); try done; [|apply (hb_websocket _ _ (rd_but _ _ _ Hr))]. destruct Hids. split; cbn; rewrite ?Ho; done.
Qed.

Lemma dispatch_command_ok h i c command oid env (Q : unit → HttpServer → Prop) :
  reading h i c → cl_owns_positions_body c = false → command ≠ kSubmit → (∀ h', http_up h' → Q tt h') →
  runs (dispatch_command wait chunk i command oid env) h Q.
Proof.
  intros Hr Hno Hcmd HQ. unfold dispatch_command, take_http_request_id. apply runs_bind, runs_bind, runs_ht_get. cbv zeta. pose proof (hb_ids _ _ (rd_but _ _ _ Hr)) as Hids.
  pose proof (id_next _ Hids) as [Hrange Hfresh]. set (id := ht_next_request_id h) in *. destruct (Z.eqb_spec id 0) as [|Hid]; [apply runs_ret; by apply (reading_reply h i c)|].
  apply runs_bind, runs_ht_modify, runs_ret. rewrite (proj2 (Z.eqb_neq _ _)) by done. set (h1 := with_request_id h _).
  assert (Hnext : 0 ≤ ht_next_request_id h1 ≤ UINT64_MAX ∧ (ht_next_request_id h1 ≠ 0 → id < ht_next_request_id h1)) by (cbn; destruct (Z.eqb_spec id UINT64_MAX); lia).
  assert (Hlt : ∀ x, x ∈ owed (ht_bridge h) → x < id) by (intros x Hx; destruct (Hfresh x Hx); auto).
  assert (Hr1 : reading h1 i c).
  { apply (reading_same h); try done; [|apply (hb_websocket _ _ (rd_but _ _ _ Hr))]. destruct Hids. split; try done. split; [apply Hnext|]. intros x Hx. destruct (Hfresh x Hx).
    specialize (Hlt x Hx). destruct Hnext as [_ Hn]. split; [done|]. intros Hz. specialize (Hn Hz). lia. }
  apply runs_bind. case_bool_decide as Hpos.
  - apply (reserve_body_ok h1 i c); [done|done|cbn [negb]; by apply (reading_reply h1 i c)|]. intros Hr2. cbn [negb].
    apply (await_response_ok _ i (set_owns c true (cl_positions_body_offset c))); [done|done|done|lia|done|apply Hnext|done].
  - apply runs_ret. cbn [negb]. apply (await_response_ok _ i c); [done| |done|lia|done|apply Hnext|done]. rewrite Hno. split; [done|]. congruence.
Qed.

Lemma route_ok h i c method path env (Q : unit → HttpServer → Prop) :
  reading h i c → cl_owns_positions_body c = false → (∀ h', http_up h' → Q tt h') → runs (route wait chunk i method path env) h Q.
Proof.
  intros Hr Hno HQ. unfold route. ht_step. destruct (bool_decide (method = method_get) && negb (is_null (ht_websocket h)) && _) eqn:Eu.
  - apply (dispatch_upgrade_ok h i c); [done| |done]. destruct (ht_websocket h); [done|]. cbn in Eu. by rewrite andb_false_r in Eu.
  - case_cond; [by apply (dispatch_submit_ok h i c)|]. destruct (waiting_command method path) as [[command oid]|] eqn:Ew; [|by apply (reading_reply h i c)].
    apply (dispatch_command_ok h i c); [done|done| |done]. intros ->. unfold waiting_command in Ew. repeat case_match; simplify_eq; by destruct (order_id path).
Qed.

Lemma dispatch_ok h i c env (Q : unit → HttpServer → Prop) :
  reading h i c → cl_owns_positions_body c = false → (∀ h', http_up h' → Q tt h') → runs (dispatch_client keys wait chunk i env) h Q.
Proof.
  intros Hr Hno HQ. pose proof (rd_client _ _ _ Hr) as Hc. unfold dispatch_client. ht_step. apply runs_bind, runs_total; [apply header_total|]. intros auth _.
  case_cond; [by apply (reading_reply h i c)|]. destruct (scan_request_line _) as [[method path]|]; [by apply (route_ok h i c)|by apply (reading_reply h i c)].
Qed.

(** ** Receiving *)

(** Client [i] is [reading] and has no buffer. *)
Definition idle h i c : Prop := reading h i c ∧ cl_owns_positions_body c = false.

Definition set_request c (incoming : list Z) (hs rs : nat) (hc : bool) : ClientSlot := set_header (set_incoming c incoming) hs rs hc.

Lemma idle_request h i c (incoming : list Z) (hs rs : nat) (hc : bool) :
  idle h i c → bytes incoming → (length incoming < kMaxClientReadBytes)%nat →
  (if hc then (4 ≤ hs ≤ rs)%nat ∧ (rs < kMaxRequestBytes)%nat ∧ (hs ≤ length incoming)%nat else (length incoming < kMaxRequestBytes)%nat) →
  idle (upd h i (set_request c incoming hs rs hc) (ht_positions_body h) (ht_positions_owner h) []) i (set_request c incoming hs rs hc).
Proof.
  intros [[R1 R2 R3 [B1 B2 B3 B4 B5] R5] Hno] Hb Hl Hh. split; [|done]. split; [by eapply upd_client|done|done| |done].
  split; [|apply ids_upd; [done|apply R3]| |done|cbn; congruence].
  - apply (slots_upd h i c); [done|done|by apply sm_none|by left|]. pose proof (sl_each _ B1 i c R1) as [C1 C2 C3 C4 C5 C6 C7].
    split; try done; cbn [set_request set_header set_incoming cl_fd]; [intros; lia|]. intros _. change (ht_log _) with (ht_log h ++ []). rewrite app_nil_r. by apply C7.
  - intros j d Hj Hd. cbn in Hd. rewrite list_lookup_insert_ne in Hd by congruence. by apply (B3 j).
Qed.

Lemma c_string_length l : (length (c_string l) ≤ length l)%nat.
Proof. induction l as [|x l IH]; cbn [c_string]; [lia|]. case_cond; cbn; lia. Qed.

Lemma read_header_ok h i c env (Q : bool → HttpServer → Prop) :
  idle h i c → cl_header_complete c = false → (∀ h', http_up h' → Q false h') → (∀ h' c', idle h' i c' → Q true h') → runs (read_header chunk i env) h Q.
Proof.
  intros Hi Hh Hf Ht. pose proof Hi as [Hr _]. pose proof (rd_client _ _ _ Hr) as Hc. pose proof (sl_each _ (hb_slots _ _ (rd_but _ _ _ Hr)) i c Hc) as Hcok.
  pose proof (co_header _ _ _ Hcok) as Hlen. rewrite Hh in Hlen. destruct (co_incoming _ _ _ Hcok) as [Hb Hl].
  unfold read_header. ht_step. destruct (strpos (crlf ++ crlf) (request_of c)) as [e|] eqn:Ee; [|apply runs_ret; by eapply Ht].
  apply strpos_length in Ee. change (length (crlf ++ crlf)) with 4%nat in Ee. pose proof (c_string_length (cl_incoming c)) as Hcs. fold (request_of c) in Hcs. cbv zeta.
  apply runs_bind, runs_set_client. change (set_header c (e + 4) (cl_required_size c) false) with (set_request c (cl_incoming c) (e + 4) (cl_required_size c) false).
  pose proof (idle_request h i c (cl_incoming c) (e + 4)%nat (cl_required_size c) false Hi Hb Hl Hlen) as Hi1. set (h1 := upd _ _ _ _ _ _) in *. set (c1 := set_request _ _ _ _ _) in *.
  assert (Hq : ∀ status reason body, one_line reason = true → runs (queue_inline_json chunk i status reason body env;; mret false) h1 Q).
  { intros. apply runs_bind. apply (reading_reply h1 i c1); [apply Hi1|done|]. intros h' Hok. by apply runs_ret, Hf. }
  apply runs_bind, runs_total; [apply header_total|]. intros cl _. assert (Hfit : ∀ size, runs (let body_size := default 0 size in
    if (kMaxRequestBytes <=? e + 4)%nat || (Z.of_nat (kMaxRequestBytes - 1 - (e + 4)) <? body_size) then too_large chunk i env;; mret false
    else set_client i (set_header c (e + 4) (e + 4 + Z.to_nat body_size) true);; mret true) h1 Q).
  { intros size. cbv zeta. unfold kMaxRequestBytes in *. destruct (Nat.leb_spec 2048 (e + 4)); [by apply Hq|]. cbn [orb]. destruct (Z.ltb_spec (Z.of_nat (2048 - 1 - (e + 4))) (default 0 size)) as [|Hle]; [by apply Hq|].
    apply runs_bind, runs_set_client, runs_ret. eapply Ht. change (set_header c (e + 4) ?rs true) with (set_request c1 (cl_incoming c1) (e + 4) rs true). apply (idle_request h1 i c1); [done..|].
    change (cl_incoming c1) with (cl_incoming c). unfold kMaxRequestBytes. lia. }
  destruct cl as [v|]; [destruct (header_decimal_size (Some v)); [apply Hfit|by apply Hq]|apply Hfit].
Qed.

Lemma read_loop_ok recvs h i c env (Q : bool → HttpServer → Prop) :
  idle h i c → Forall recv_ok recvs → (∀ h', http_up h' → Q false h') → (∀ h' c', idle h' i c' → Q true h') → runs (read_loop chunk recvs i env) h Q.
Proof.
  intros Hi Hrecv Hf Ht. revert h c Hi. induction Hrecv as [|r recvs Hr0 Hrecv IH]; intros h c Hi; cbn [read_loop]; pose proof (rd_client _ _ _ (proj1 Hi)) as Hc; ht_step;
    rewrite (proj2 (Z.ltb_ge _ _)) by apply (rd_fd _ _ _ (proj1 Hi)); cbv zeta.
  all: assert (Hstay : runs (mret true) h Q) by (apply runs_ret; by eapply Ht).
  all: assert (Hlarge : runs (if negb (cl_header_complete c) then too_large chunk i env;; mret false else mret true) h Q)
    by (destruct (cl_header_complete c); [done|]; apply runs_bind; apply (reading_reply h i c); [apply Hi|done|]; intros h' Hok; by apply runs_ret, Hf).
  { by case_cond. }
  destruct (Nat.leb_spec (if cl_header_complete c then kMaxClientReadBytes else kMaxRequestBytes) (length (cl_incoming c) + 1)) as [|Hroom]; [done|].
  assert (Hclose : runs (close_client i;; mret false) h Q) by (apply runs_bind; apply (reading_close h i c); [apply Hi|]; intros h' Hok; by apply runs_ret, Hf).
  destruct r as [bs| | |]; [|by apply (IH h c)|done|done]. set (bs' := take _ bs). destruct bs' as [|b bs''] eqn:Ebs; [by case_cond|]. rewrite <- Ebs.
  pose proof (sl_each _ (hb_slots _ _ (rd_but _ _ _ (proj1 Hi))) i c Hc) as Hcok. destruct (co_incoming _ _ _ Hcok) as [Hb Hl]. pose proof (co_header _ _ _ Hcok) as Hh.
  assert (Hlen : (length (cl_incoming c ++ bs') < (if cl_header_complete c then kMaxClientReadBytes else kMaxRequestBytes))%nat).
  { rewrite length_app. unfold bs'. rewrite length_take. lia. }
  assert (Hlen' : (length (cl_incoming c ++ bs') < kMaxClientReadBytes)%nat) by (unfold kMaxClientReadBytes, kMaxRequestBytes in *; destruct (cl_header_complete c); lia).
  rewrite (proj2 (Nat.leb_gt _ _)) by done. apply runs_bind, runs_set_client.
  change (set_incoming c ?inc) with (set_request c inc (cl_header_size c) (cl_required_size c) (cl_header_complete c)).
  pose proof (idle_request h i c (cl_incoming c ++ bs') (cl_header_size c) (cl_required_size c) (cl_header_complete c) Hi) as Hi1.
  specialize (Hi1 ltac:(apply Forall_app; split; [done|]; unfold bs'; by apply Forall_take) Hlen').
  specialize (Hi1 ltac:(destruct (cl_header_complete c); [rewrite length_app; lia|done])). apply runs_bind.
  destruct (cl_header_complete c) eqn:Ehc; [apply runs_ret; by eapply IH|]. eapply read_header_ok; [exact Hi1|done| |].
  - intros h' Hok. by apply runs_ret, Hf.
  - intros h' c' Hi'. by apply (IH h' c').
Qed.

Lemma http_idle h i c : http_ok h → ht_clients h !! i = Some c → 0 ≤ cl_fd c → cl_sending_response c = false → cl_waiting_response c = false → ht_running h = true → idle h i c.
Proof.
  intros Hok Hc Hf Hs Hw Hr. split; [split; try done; by apply http_weaken|]. pose proof (hb_settled _ _ Hok i c ltac:(done) Hc) as Hset.
  destruct (cl_owns_positions_body c) eqn:E; [|done]. destruct (Hset E) as [|[? _]]; congruence.
Qed.

Lemma read_client_ok recvs h i c env (Q : unit → HttpServer → Prop) :
  idle h i c → Forall recv_ok recvs → (∀ h', http_up h' → Q tt h') → runs (read_client keys wait chunk i recvs env) h Q.
Proof.
  intros Hi Hrecv HQ. unfold read_client. apply runs_bind. apply (read_loop_ok recvs h i c); [done..|by intros h' Hok; apply runs_ret, HQ|].
  intros h' c' [Hr Hno]. cbn [negb]. apply runs_bind. eapply runs_client; [apply (rd_client _ _ _ Hr)|]. case_cond; [by apply (dispatch_ok h' i c')|].
  apply runs_ret, HQ. destruct Hr as [R1 R2 R3 [B1 B2 B3 B4 B5] R5]. split; [|done]. split; try done. intros j d _ Hd. destruct (decide (j = i)) as [->|Hji]; [|apply (B3 j); [congruence|done]].
  simplify_eq. intros Hown. congruence.
Qed.

(** ** Responses *)

(** A response leaves the bridge and its identifier is free again. *)
Lemma drained_ids h h' b (k : nat) id :
  ids_ok h → owed (ht_bridge h) = id :: owed b → bridge_ok b → ht_outstanding h !! k = Some id →
  ht_bridge h' = b → ht_outstanding h' = <[k := 0]> (ht_outstanding h) → ht_next_request_id h' = ht_next_request_id h →
  (∀ j d, ht_clients h' !! j = Some d → cl_waiting_response d = true → ht_clients h !! j = Some d ∧ cl_request_id d ≠ id) → ids_ok h'.
Proof.
  intros [I1 I2 I3 I4 I5 I6 [I7 I7'] I8] Ho Hb Hk Eb Eo En Hl. rewrite Ho in I6. apply NoDup_cons in I6 as [Hni I6].
  split; rewrite ?Eb, ?Eo, ?En; try done.
  - by rewrite length_insert.
  - intros j d Hd Hw. destruct (Hl j d Hd Hw) as [Hd' Hne]. destruct (I2 j d Hd' Hw) as (D1 & [m Hm]%list_elem_of_lookup & D3). split_and!; [done| |done].
    apply list_elem_of_lookup. exists m. rewrite list_lookup_insert_ne; [done|]. intros ->. congruence.
  - intros j m d e Hd He Hdw Hew. destruct (Hl j d Hd Hdw) as [Hd' _]. destruct (Hl m e He Hew) as [He' _]. by eapply I3.
  - intros x [m [(_ & <- & _)|[Hmk Hm]]%list_lookup_insert_Some]%list_elem_of_lookup Hx; [done|]. specialize (I4 x ltac:(by eapply list_elem_of_lookup_2) Hx). rewrite Ho in I4.
    apply elem_of_cons in I4 as [->|]; [|done]. exfalso. apply Hmk. by apply (I5 k m id).
  - intros m l x [(_ & <- & _)|[Hmk Hm]]%list_lookup_insert_Some Hl' Hx; [done|]. apply list_lookup_insert_Some in Hl' as [(_ & <- & _)|[_ Hl']]; [done|]. by eapply I5.
  - split; [done|]. intros x Hx. apply I7'. rewrite Ho. by apply elem_of_cons; right.
Qed.

Lemma waiting_open h i c : slots_ok h → ht_clients h !! i = Some c → cl_waiting_response c = true → 0 ≤ cl_fd c ∧ cl_sending_response c = false.
Proof.
  intros Hok Hc Hw. destruct (sl_each _ Hok i c Hc) as [C1 _ _ _ C5 _ _]. split.
  - apply Z.nlt_ge. intros Hf. rewrite (C1 Hf) in Hw. done.
  - destruct (cl_sending_response c); [|done]. destruct C5; congruence.
Qed.

Definition waits_for (id : Z) c : Prop := cl_waiting_response c = true ∧ cl_request_id c = id.

(** A response goes to the client that waits for it, or to nobody. *)
Definition delivered h h' (r : Response) : Prop :=
  (∃ i c c', ht_clients h !! i = Some c ∧ waits_for (rp_request_id r) c ∧ (∀ j, j ≠ i → ht_clients h' !! j = ht_clients h !! j) ∧
     ht_clients h' !! i = Some c' ∧ answered (reply_to (cl_command c) r) h' c') ∨
  (∀ i c, ht_clients h !! i = Some c → ¬ waits_for (rp_request_id r) c) ∧ ht_clients h' = ht_clients h.

(** What [drain_response] does: the first response of the queue is delivered. *)
Definition drain_outcome h h' (more : bool) : Prop :=
  http_up h' ∧
  match br_responses (ht_bridge h) with
  | [] => more = false ∧ ht_clients h' = ht_clients h
  | r :: rs => more = true ∧ br_responses (ht_bridge h') = rs ∧ delivered h h' r
  end.

(** Client [i] no longer waits, its identifier is free, and everything else as before. *)
Lemma answered_but h b (k : nat) i c id :
  http_ok h → ht_running h = true → owed (ht_bridge h) = id :: owed b → bridge_ok b → ht_outstanding h !! k = Some id →
  ht_clients h !! i = Some c → cl_waiting_response c = true → cl_request_id c = id →
  http_but (Some i) (upd (with_outstanding (with_bridge h b) (<[k := 0]> (ht_outstanding h))) i (set_answered c) (ht_positions_body h) (ht_positions_owner h) []).
Proof.
  intros [B1 B2 B3 B4 B5] Hrun Ho Hb Hk Hc Hw Eid. set (h2 := with_outstanding _ _). assert (Hok2 : slots_ok h2) by (by apply (slots_same h)).
  destruct (waiting_open h i c B1 Hc Hw) as [Hf Hs]. split; [| | |done|cbn; congruence].
  - apply (slots_upd h2 i c); [done|done|by apply sm_none|by left|]. pose proof (sl_each _ Hok2 i c Hc) as [C1 C2 C3 C4 C5 C6 C7].
    split; try done; cbn [set_answered cl_fd cl_sending_response]; [intros; lia|by rewrite Hs in *|]. intros _. change (ht_log _) with (ht_log h2 ++ []). rewrite app_nil_r. by apply C7.
  - apply (drained_ids h _ b k id); try done. intros j d [(_ & <- & _)|[Hji Hd]]%list_lookup_insert_Some Hdw; [done|]. split; [done|]. intros E. apply Hji.
    symmetry. apply (id_unique _ B2 j i d c); [done..|congruence].
  - intros j d Hj Hd. cbn in Hd. rewrite list_lookup_insert_ne in Hd by congruence. by apply (B3 j).
Qed.

Lemma drain_response_ok h env (Q : bool → HttpServer → Prop) :
  http_up h → (∀ more h', drain_outcome h h' more → Q more h') → runs (drain_response chunk env) h Q.
Proof.
  intros [Hok Hrun] HQ. unfold drain_response. apply runs_bind. unfold take_response, runs at 1. pose proof Hok as [B1 B2 B3 B4 B5].
  pose proof (take_response_owed (ht_bridge h)) as Ht. destruct (try_take_response (ht_bridge h)) as [b r] eqn:Et. destruct (Ht (id_bridge _ B2)) as [Hb Ho]. clear Ht.
  unfold try_take_response in Et. exists r, (with_bridge h b). split; [done|]. destruct (br_responses (ht_bridge h)) as [|r0 rs] eqn:Er; injection Et as <- <-.
  { apply runs_ret, HQ. unfold drain_outcome. rewrite Er. split; [split; [|done]|done]. split; try done; [by apply (slots_same h)|]. by destruct B2. }
  set (b := mkBridge _ _ _) in *. set (id := rp_request_id r0) in *. cbn [option_list fmap list_fmap app] in Ho. fold id in Ho.
  destruct (proj2 (id_next _ B2) id) as [Hpos _]; [rewrite Ho; by left|]. unfold release_response_id. rewrite (proj2 (Z.eqb_neq _ _)) by lia. apply runs_bind, runs_bind, runs_ht_get. cbn [with_bridge ht_outstanding].
  destruct (first_index (λ o, o =? id) (ht_outstanding h)) as [k|] eqn:Ek.
  2: { apply runs_ret. cbn [negb]. apply runs_ret, HQ. rewrite first_index_None, Forall_forall in Ek. unfold drain_outcome. rewrite Er. split; [split; [|done]|].
    2: { split_and!; [done..|]. right. split; [|done]. intros i c Hc [Hw Eid]. destruct (id_waiting _ B2 i c Hc Hw) as (_ & Hin & _). specialize (Ek _ Hin). cbv beta in Ek. rewrite Eid in Ek. by rewrite Z.eqb_refl in Ek. } split; try done; [by apply (slots_same h)|].
    destruct B2 as [I1 I2 I3 I4 I5 I6 [I7 I7'] I8]. rewrite Ho in I6, I4, I7'. apply NoDup_cons in I6 as [_ I6]. split; cbn; try done.
    - intros x Hx Hnz. specialize (Ek x Hx). specialize (I4 x Hx Hnz). apply elem_of_cons in I4 as [->|]; [|done]. by rewrite Z.eqb_refl in Ek.
    - split; [done|]. intros x Hx. apply I7'. by right. }
  apply first_index_Some in Ek as [(x & Hk & Ex) _]. apply Z.eqb_eq in Ex. subst x. apply runs_bind, runs_ht_modify, runs_ret. cbn [negb]. ht_step. cbn [with_bridge with_outstanding ht_clients ht_outstanding].
  destruct (first_index (awaits id) (ht_clients h)) as [i|] eqn:Ei.
  - apply first_index_Some in Ei as [(c & Hc & Ha) _]. unfold awaits in Ha. apply andb_true_iff in Ha as [[_ Hw]%andb_true_iff Eid]. apply Z.eqb_eq in Eid.
    apply runs_bind, (runs_client _ c); [done|]. apply runs_bind, runs_set_client. pose proof (answered_but h b k i c id Hok Hrun Ho Hb Hk Hc Hw Eid) as Hbut.
    cbn [with_bridge with_outstanding ht_positions_body ht_positions_owner]. set (h3 := upd _ _ _ _ _ _) in *. destruct (waiting_open h i c B1 Hc Hw) as [Hf Hs].
    assert (Hc3 : ht_clients h3 !! i = Some (set_answered c)) by (by eapply upd_client). apply runs_bind.
    apply (send_response_ok chunk h3 i (set_answered c)); [apply Hbut|done|done|done| |]. { cbn. apply (id_waiting _ B2 i c Hc Hw). }
    intros h' Hh. apply runs_ret, HQ. destruct (handled_fields _ _ _ _ Hh) as (Eb & _). unfold drain_outcome. rewrite Er, Eb. split; [by eapply answered_http|]. split_and!; [done..|].
    left. destruct Hh as (c' & bd & o & e & Eh & _ & Hc' & Hans). exists i, c, c'. split_and!; [done..| |done|done]. intros j Hj. rewrite Eh. cbn. by rewrite !list_lookup_insert_ne by done.
  - rewrite first_index_None, Forall_forall in Ei. assert (Hnone : ∀ j d, ht_clients h !! j = Some d → ¬ waits_for id d).
    { intros j d Hd [Hw E]. specialize (Ei d ltac:(by eapply list_elem_of_lookup_2)). unfold awaits in Ei.
      destruct (waiting_open h j d B1 Hd Hw) as [Hf _]. rewrite (proj2 (Z.leb_le _ _)), Hw, E, Z.eqb_refl in Ei by done. done. }
    apply runs_ret, HQ. unfold drain_outcome. rewrite Er. split; [split; [|done]|split_and!; [done..|by right]]. split; try done; [by apply (slots_same h)|].
    apply (drained_ids h _ b k id); try done. intros j d Hd Hw. split; [done|]. intros E. by apply (Hnone j d).
Qed.

Lemma drain_responses_ok fuel k h env (Q : unit → HttpServer → Prop) :
  http_up h → (length (br_responses (ht_bridge h)) < fuel)%nat → (∀ h', http_up h' → Q tt h') → runs (drain_responses chunk fuel k env) h Q.
Proof.
  revert k h. induction fuel as [|fuel IH]; intros k h Hup Hf HQ; [lia|]. cbn [drain_responses]. apply runs_bind. apply drain_response_ok; [done|].
  intros more h' [Hup' Hl]. destruct (br_responses (ht_bridge h)) as [|r rs]; [destruct Hl as [-> _]; by apply runs_ret, HQ|].
  destruct Hl as (-> & <- & _). cbn [length] in Hf. apply IH; [done|lia|done].
Qed.

(** ** Accepting *)

(** The descriptor of a new connection is not one of the clients'. *)
Definition unused h (fd : Z) : Prop := 0 ≤ fd ∧ ∀ i c, ht_clients h !! i = Some c → cl_fd c ≠ fd.

(** A connection that is turned away. *)
Lemma slots_turned_away h fd evs :
  slots_ok h → unused h fd → evs = [evAccept fd; evClose fd] ∨ (∃ bs, evs = [evAccept fd; evSend fd bs; evClose fd]) → slots_ok (with_log h (ht_log h ++ evs)).
Proof.
  intros [S1 S2 S3 S4 (X & EX & HX)] [Hfd Hun] Hevs. assert (Hni : fd ∉ X) by (rewrite HX; intros (i & c & Hc & E & _); by apply (Hun i c)).
  split; try done; cbn [with_log ht_clients ht_log].
  - intros i c Hc. destruct (S2 i c Hc) as [C1 C2 C3 C4 C5 C6 C7]. split; try done. intros Hf. change (reply _ c) with (reply h c). rewrite <- C7 by done. specialize (Hun i c Hc).
    cbn [with_log ht_log]. unfold sent_on. rewrite foldl_app. fold (sent_on (cl_fd c) (ht_log h)). destruct Hevs as [->|[bs ->]]; cbn; by rewrite ?decide_False by done.
  - exists X. split; [|done]. unfold sockets. rewrite foldl_app. fold (sockets (ht_log h)). rewrite EX.
    destruct Hevs as [->|[bs ->]]; cbn; rewrite (decide_False (P := fd ∈ X)) by done; cbn; rewrite !decide_True by set_solver; cbn; rewrite ?decide_True by set_solver; f_equal; set_solver.
Qed.

Lemma slots_accepted h i c c' fd :
  slots_ok h → unused h fd → ht_clients h !! i = Some c → cl_fd c < 0 → c' = mkClient fd (cl_deadline_ns c') 0 [] 0 0 kSubmit false false false false [] 0 0 →
  slots_ok (with_clients (with_log h (ht_log h ++ [evAccept fd])) (<[i := c']> (ht_clients h))).
Proof.
  intros Hok [Hfd Hun] Hc Hfree Hnew. pose proof Hok as [S1 S2 S3 S4 (X & EX & HX)]. pose proof (lookup_lt_Some _ _ _ Hc) as Hi. assert (Hfd' : cl_fd c' = fd) by (by rewrite Hnew).
  assert (Hni : fd ∉ X) by (rewrite HX; intros (j & d & Hd & E & _); by apply (Hun j d)). split; cbn [with_clients with_log ht_clients ht_log ht_positions_owner ht_positions_body]; [by rewrite length_insert| |done| |].
  - intros j d [(<- & <- & _)|[Hji Hd]]%list_lookup_insert_Some.
    + assert (Ho : ht_positions_owner h ≠ Z.of_nat i) by (intros E; apply (co_owner _ _ _ (S2 i c Hc)) in E; by rewrite (co_free _ _ _ (S2 i c Hc) Hfree) in E).
      rewrite Hnew. split; try done; cbn [cl_fd cl_incoming cl_header_complete].
      * intros; lia.
      * split; [by constructor|]. cbn. unfold kMaxClientReadBytes. lia.
      * cbn. unfold kMaxRequestBytes. lia.
      * split; [cbn; unfold kMaxInlineResponseBytes; lia|]. split; [cbn; lia|done].
      * intros _. cbn [with_clients with_log ht_log]. rewrite sent_on_snoc. cbn. by rewrite decide_True.
    + destruct (S2 j d Hd) as [C1 C2 C3 C4 C5 C6 C7]. split; try done. intros Hf. change (reply _ d) with (reply h d). rewrite <- C7 by done. cbn [with_clients with_log ht_log].
      rewrite sent_on_snoc. cbn. rewrite decide_False; [done|]. specialize (Hun j d Hd). congruence.
  - intros j k d e [(<- & <- & _)|[Hji Hd]]%list_lookup_insert_Some [(<- & <- & _)|[Hki He]]%list_lookup_insert_Some Hf E; [done| | |by eapply S4].
    + exfalso. apply (Hun k e He). congruence.
    + exfalso. apply (Hun j d Hd). congruence.
  - exists ({[fd]} ∪ X). split; [rewrite sockets_snoc, EX; cbn; by rewrite decide_False|]. intros x. rewrite elem_of_union, elem_of_singleton, HX. split.
    + intros [->|(j & d & Hd & E & Hp)]; [exists i, c'; by rewrite list_lookup_insert_eq|]. exists j, d. rewrite list_lookup_insert_ne; [done|]. intros ->. simplify_eq. lia.
    + intros (j & d & [(<- & <- & _)|[Hji Hd]]%list_lookup_insert_Some & E & Hp); [left; congruence|right; eauto].
Qed.

Lemma turned_away_http h fd evs : http_up h → unused h fd → evs = [evAccept fd; evClose fd] ∨ (∃ bs, evs = [evAccept fd; evSend fd bs; evClose fd]) → http_up (with_log h (ht_log h ++ evs)).
Proof. intros [[B1 B2 B3 B4 B5] Hr] Hun Hevs. split; [|done]. split; try done; [by apply (slots_turned_away h fd)|]. by destruct B2. Qed.

Lemma accept_client_ok h a (Q : unit → HttpServer → Prop) :
  http_up h → unused h (ad_fd a) → (∀ h', http_up h' → Q tt h') → runs (accept_client wait a) h Q.
Proof.
  intros Hup Hun HQ. unfold accept_client, log_event. ht_step. destruct (ad_nonblocking a); cbn [negb].
  2: { apply runs_ht_modify. cbn. apply HQ. rewrite <- app_assoc. apply (turned_away_http h (ad_fd a)); auto. }
  ht_step. unfold acquire_client. cbn [with_log ht_clients]. destruct (first_index (λ c, cl_fd c <? 0) (ht_clients h)) as [i|] eqn:Ei.
  - apply first_index_Some in Ei as [(c & Hc & Hf) _]. apply Z.ltb_lt in Hf. apply runs_ht_modify. apply HQ. destruct Hup as [[B1 B2 B3 B4 B5] Hr]. split; [|done].
    split; [by apply (slots_accepted h i c)| | |done|cbn; congruence].
    + set (c' := mkClient _ _ _ _ _ _ _ _ _ _ _ _ _ _). pose proof (ids_upd h i c' (ht_positions_body h) (ht_positions_owner h) [evAccept (ad_fd a)] B2 ltac:(done)) as [I1 I2 I3 I4 I5 I6 I7 I8]. by split.
    + intros j d _ [(_ & <- & _)|[_ Hd]]%list_lookup_insert_Some; [done|]. by apply (B3 j).
  - case_match; apply runs_bind; [apply runs_ht_modify|apply runs_ret]; apply runs_ht_modify; apply HQ; cbn; rewrite <- ?app_assoc; cbn; apply (turned_away_http h (ad_fd a)); eauto.
Qed.

(** ** Deadlines and events *)

Lemma up_idle h i c : http_up h → ht_clients h !! i = Some c → 0 ≤ cl_fd c → cl_sending_response c = false → cl_waiting_response c = false → idle h i c.
Proof. intros [Hok Hr] **. by apply http_idle. Qed.

Lemma up_close h i c (Q : unit → HttpServer → Prop) : http_up h → ht_clients h !! i = Some c → (∀ h', http_up h' → Q tt h') → runs (close_client i) h Q.
Proof.
  intros [Hok Hr] Hc HQ. apply (close_ok h i c); [apply Hok|done|]. intros h' Hh. apply HQ. apply (answered_http h h' i []); [by apply http_weaken|done|]. eapply handled_mono; [done|]. by left.
Qed.

Lemma expire_client_ok h i c now env (Q : unit → HttpServer → Prop) :
  http_up h → ht_clients h !! i = Some c → (∀ h', http_up h' → Q tt h') → runs (expire_client chunk now env i) h Q.
Proof.
  intros Hup Hc HQ. unfold expire_client. ht_step. destruct (Z.ltb_spec (cl_fd c) 0); [by apply runs_ret, HQ|]. cbn [orb]. case_cond; [by apply runs_ret, HQ|].
  destruct (cl_sending_response c) eqn:Es; [by apply (up_close h i c)|]. pose proof Hup as [Hok Hr].
  assert (Hq : ∀ status reason body, one_line reason = true → runs (queue_inline_json chunk i status reason body (env i)) h Q); [|case_cond; by apply Hq].
  intros. apply (queue_inline_ok chunk h i c); [apply Hok|done..|]. intros h' Hh. apply HQ. by eapply (answered_http h h' i); [apply http_weaken|..].
Qed.

Lemma up_client h i : http_up h → (i < kMaxClientSlots)%nat → ∃ c, ht_clients h !! i = Some c.
Proof. intros [Hok _] Hi. apply lookup_lt_is_Some_2. by rewrite (sl_length _ (hb_slots _ _ Hok)). Qed.

Definition client_env_ok (env : ClientEnv) : Prop := Forall recv_ok (ce_recvs env).

Lemma service_client_ok h i env (Q : unit → HttpServer → Prop) :
  http_up h → (i < kMaxClientSlots)%nat → client_env_ok env → (∀ h', http_up h' → Q tt h') → runs (service_client keys wait chunk env i) h Q.
Proof.
  intros Hup Hi Henv HQ. destruct (up_client h i Hup Hi) as [c Hc]. unfold service_client. ht_step. destruct (Z.ltb_spec (cl_fd c) 0) as [|Hf]; [by apply runs_ret, HQ|].
  apply runs_bind. eapply (runs_mono _ _ (λ _ h1, http_up h1)).
  { destruct (cl_sending_response c) eqn:Es; cbn [andb]; [|by apply runs_ret]. case_cond; [|by apply runs_ret]. destruct Hup as [Hok Hr].
    apply (flush_client_ok chunk _ h i c); [apply Hok|done..|]. intros h' Hh. by eapply (answered_http h h' i); [apply http_weaken|..]. }
  intros [] h1 Hup1. destruct (up_client h1 i Hup1 Hi) as [c1 Hc1]. ht_step. apply runs_bind. eapply (runs_mono _ _ (λ _ h2, http_up h2)).
  { destruct (Z.leb_spec 0 (cl_fd c1)); cbn [andb]; [|by apply runs_ret]. destruct (cl_sending_response c1) eqn:Es; cbn [negb andb]; [by apply runs_ret|].
    destruct (cl_waiting_response c1) eqn:Ew; cbn [negb andb]; [by apply runs_ret|]. case_cond; [|by apply runs_ret]. apply (read_client_ok _ h1 i c1); [by apply up_idle|done|done]. }
  intros [] h2 Hup2. destruct (up_client h2 i Hup2 Hi) as [c2 Hc2]. ht_step. case_cond; [by apply (up_close h2 i c2)|by apply runs_ret, HQ].
Qed.
End dispatch.
