(* ===== verification/HttpClaims.v ===== *)
(** * HttpClaims: what the control plane promises

    Runs of the listener's thread, interleaved with the execution owner and the
    WebSocket server, from construction over [start] and [stop]. *)

From S2P Require Import Prelude Arena AuditLog OrderTable Reconciliation Gateway GatewayTheorems Risk WsText WsAccept WsConn WsServer WsInv WsWorker WsRun HttpText HttpBridge HttpServer HttpInv HttpReply HttpRun.
From Stdlib Require Import ZArith Lia String.
From stdpp Require Import base tactics gmap numbers option list.
Open Scope Z_scope.

Implicit Types (h : HttpServer) (c : ClientSlot) (i j : nat).

Section runs.
Context {T : Type} `{OrderTable T}.
Context (sha256 : list Z → list Z) (keys : list Key) (wait chunk : Z).

(** ** A whole turn *)

Lemma each_client_up n i f h (Q : unit → HttpServer → Prop) :
  (∀ j h1 (P : unit → HttpServer → Prop), http_up h1 → (j < kMaxClientSlots)%nat → (∀ h2, http_up h2 → P tt h2) → runs (f j) h1 P) →
  http_up h → (i + n ≤ kMaxClientSlots)%nat → (∀ h', http_up h' → Q tt h') → runs (each_client n i f) h Q.
Proof using Type.
  intros Hf. revert i h. induction n as [|n IH]; intros i h Hup Hle HQ; cbn [each_client]; [by apply runs_ret, HQ|].
  apply runs_bind. apply Hf; [done|lia|]. intros h1 Hup1. apply IH; [done|lia|done].
Qed.

Lemma expire_clients_up h now env (Q : unit → HttpServer → Prop) : http_up h → (∀ h', http_up h' → Q tt h') → runs (expire_clients chunk now env) h Q.
Proof using Type.
  intros Hup HQ. apply each_client_up; [|done|done|done]. intros j h1 P Hup1 Hj HP. destruct (up_client h1 j Hup1 Hj) as [c Hc]. by apply (expire_client_ok chunk h1 j c).
Qed.

(** The descriptors that [accept] returns are new each time. *)
Fixpoint accepts_ok h (accepted : list Accepted) : Prop :=
  match accepted with
  | [] => True
  | a :: accepted' => unused h (ad_fd a) ∧ ∀ h', accept_client wait a h = Some (tt, h') → accepts_ok h' accepted'
  end.

Lemma accept_each_up h accepted (Q : unit → HttpServer → Prop) : http_up h → accepts_ok h accepted → (∀ h', http_up h' → Q tt h') → runs (accept_each wait accepted) h Q.
Proof using Type.
  revert h. induction accepted as [|a accepted IH]; intros h Hup Ha HQ; cbn [accept_each]; [by apply runs_ret, HQ|]. destruct Ha as [Hun Hnext].
  destruct (accept_client_ok wait h a (λ _ h1, http_up h1) Hup Hun ltac:(done)) as ([] & h1 & E & Hup1). apply runs_bind. exists tt, h1. split; [done|]. by apply IH; [|apply Hnext|].
Qed.

Record http_turn_ok h (env : HttpTurn) : Prop := mk_http_turn_ok {
  to_accepted : accepts_ok h (take kMaxAcceptsPerTurn (tu_accepted env));
  to_clients : ∀ i, client_env_ok (tu_clients env i)
}.

Lemma service_each_up slots h env (Q : unit → HttpServer → Prop) :
  Forall (λ i, i < kMaxClientSlots)%nat slots → (∀ i, client_env_ok (env i)) → http_up h → (∀ h', http_up h' → Q tt h') → runs (service_each keys wait chunk slots env) h Q.
Proof using Type.
  intros Hs Henv. revert h. induction Hs as [|i slots Hi _ IH]; intros h Hup HQ; cbn [service_each]; [by apply runs_ret, HQ|].
  apply runs_bind. apply (service_client_ok keys wait chunk h i); [done|done|apply Henv|]. intros h1 Hup1. by apply IH.
Qed.

Lemma serve_turn_up h env (Q : bool → HttpServer → Prop) : http_up h → http_turn_ok h env → (∀ b h', http_up h' → Q b h') → runs (serve_turn keys wait chunk env) h Q.
Proof using Type.
  intros Hup [Ha Hc] HQ. unfold serve_turn. apply runs_bind, runs_ht_get. cbv zeta. case_cond; [by apply runs_ret, HQ|]. apply runs_bind.
  assert (Hp : Forall (λ i, i < kMaxClientSlots)%nat (polled h)).
  { apply Forall_forall. intros i [_ Hin]%list_elem_of_filter. apply elem_of_seq in Hin. lia. }
  eapply (runs_mono _ _ (λ _ h1, http_up h1)).
  { case_cond; [|by apply runs_ret]. apply runs_bind. eapply (runs_mono _ _ (λ _ h1, http_up h1)).
    - case_cond; [by apply accept_each_up|by apply runs_ret].
    - intros [] h1 Hup1. by apply service_each_up. }
  intros [] h1 Hup1. apply runs_bind. apply drain_responses_ok; [done| |].
  { destruct (id_bridge _ (hb_ids _ _ (proj1 Hup1))) as [_ Hl]. lia. }
  intros h2 Hup2. apply runs_bind. apply expire_clients_up; [done|]. intros h3 Hup3. by apply runs_ret, HQ.
Qed.

(** ** start and stop *)

Lemma close_each_up n i h (Q : unit → HttpServer → Prop) :
  http_up h → (i + n = kMaxClientSlots)%nat → (∀ j c, (j < i)%nat → ht_clients h !! j = Some c → c = ClientSlot_init) →
  (∀ h', http_up h' → (∀ j c, ht_clients h' !! j = Some c → c = ClientSlot_init) → Q tt h') → runs (each_client n i close_client) h Q.
Proof using Type.
  revert i h. induction n as [|n IH]; intros i h Hup Hin Hdone HQ; cbn [each_client].
  - apply runs_ret, HQ; [done|]. intros j c Hc. apply (Hdone j c); [|done]. apply (slot_range h) in Hc; [unfold kMaxClientSlots in *; lia|apply Hup].
  - destruct (up_client h i Hup ltac:(lia)) as [c Hc]. apply runs_bind. apply (close_ok h i c); [apply Hup|done|]. intros h1 Hh1.
    assert (Hup1 : http_up h1) by (apply (answered_http h h1 i []); [apply http_weaken, Hup|apply Hup|]; eapply handled_mono; [done|]; by left).
    apply IH; [done|lia| |done]. destruct Hh1 as (c1 & b & o & e & -> & _ & Hi & ->). intros j d Hj Hd. destruct (decide (j = i)) as [->|Hji]; [congruence|].
    cbn in Hd. rewrite list_lookup_insert_ne in Hd by done. apply (Hdone j); [lia|done].
Qed.

(** Listener fields change. *)
Lemma http_listener h fd port running thread :
  http_ok h → (running = false → ∀ j c, ht_clients h !! j = Some c → cl_fd c < 0) → http_ok (with_listener h fd port running thread).
Proof using Type. intros [B1 B2 B3 B4 B5] Hr. split; try done; [by apply (slots_same h)|]. by destruct B2. Qed.

Definition all_closed h : Prop := ∀ j c, ht_clients h !! j = Some c → c = ClientSlot_init.

Lemma all_closed_fd h : all_closed h → ∀ j c, ht_clients h !! j = Some c → cl_fd c < 0.
Proof using Type. intros Hall j c Hc. by rewrite (Hall j c Hc). Qed.

Lemma http_all_closed h : http_ok h → ht_running h = false → all_closed h.
Proof using Type. intros [B1 _ _ _ B5] Hr j c Hc. apply (co_free _ _ _ (sl_each _ B1 j c Hc)). by apply (B5 Hr j). Qed.

Lemma http_stop_ok h (Q : unit → HttpServer → Prop) :
  http_ok h → (∀ h', http_ok h' → ht_running h' = false → ht_thread h' = false → all_closed h' → Q tt h') → runs http_stop h Q.
Proof using Type.
  intros Hok HQ. unfold http_stop. apply runs_bind, runs_ht_get. apply runs_bind. eapply (runs_mono _ _ (λ _ h1, http_ok h1 ∧ ht_running h1 = false)).
  - destruct (ht_running h) eqn:Hr; [|by apply runs_ret]. unfold serve_exit, close_all_clients, for_clients. apply runs_bind. apply close_each_up; [done|done|intros; lia|]. intros h1 [Hok1 Hr1] Hall.
    apply runs_bind, runs_ht_modify, runs_ht_modify. split; [|done]. pose proof (all_closed_fd h1 Hall) as Hfd. apply http_listener; [apply http_listener; [done|]|]; cbn; done.
  - intros [] h1 [Hok1 Hr1]. apply runs_ht_modify. pose proof (http_all_closed h1 Hok1 Hr1) as Hall. apply HQ; try done. apply http_listener; [done|]. intros _. by apply all_closed_fd.
Qed.

(** A server that is not running forgets what an earlier one had in flight. *)
Lemma http_forget h : http_ok h → ht_running h = false → http_ok (with_positions (with_outstanding h (replicate kMaxPendingExecutionResponses 0)) [] kNoClientSlot).
Proof using Type.
  intros Hok Hr. pose proof (http_all_closed h Hok Hr) as Hall. destruct Hok as [[S1 S2 S3 S4 S5] [I1 I2 I3 I4 I5 I6 I7 I8] B3 B4 B5]. split; try done.
  - split; try done; [|by left]. intros i c Hc. rewrite (Hall i c Hc). apply client_init_ok. cbn. apply (lookup_lt_Some (ht_clients h)) in Hc. rewrite S1 in Hc. unfold kNoClientSlot, UINT32_MAX, kMaxClientSlots in *. lia.
  - split; try done; cbn [with_positions with_outstanding ht_clients ht_outstanding].
    + intros i c Hc. by rewrite (Hall i c Hc).
    + intros id [-> _]%elem_of_replicate. done.
    + intros k l id [-> _]%lookup_replicate. done.
Qed.

Lemma http_start_ok h address env (Q : bool → HttpServer → Prop) : http_ok h → (∀ b h', http_ok h' → Q b h') → runs (http_start address env) h Q.
Proof using Type.
  intros Hok HQ. unfold http_start. apply runs_bind, runs_ht_get. destruct (ht_running h) eqn:Hr; cbn [orb]; [by apply runs_ret, HQ|]. case_cond; [by apply runs_ret, HQ|].
  pose proof (http_forget h Hok Hr) as Hok1. pose proof (all_closed_fd _ (http_all_closed h Hok Hr)) as Hall. apply runs_bind, runs_ht_modify. set (h1 := with_positions _ _ _) in *.
  case_cond; [by apply runs_ret, HQ|]. case_cond; [by apply runs_ret, HQ|]. apply runs_bind, runs_ht_modify. set (h2 := with_listener h1 _ _ _ _).
  assert (Hok2 : http_ok h2) by (by apply http_listener).
  assert (Hfail : ∀ h3, http_ok h3 → ht_clients h3 = ht_clients h → runs (close_socket;; mret false) h3 Q).
  { intros h3 Hok3 Ec. apply runs_bind, runs_ht_modify, runs_ret, HQ. apply http_listener; [done|]. by rewrite Ec. }
  case_cond; [by apply Hfail|]. destruct (le_named env) as [port|]; [|by apply Hfail]. case_cond.
  - apply runs_bind, runs_ht_modify. apply Hfail; [|done]. by apply http_listener.
  - apply runs_bind, runs_ht_modify, runs_ret, HQ. by apply http_listener.
Qed.

(** ** Histories *)

(** What can happen next: a piece of the listener's loop, a turn of the execution owner
    (to a new state of the bridge), a call of the WebSocket server's, [start], [stop]. *)
Inductive HttpOp :=
  | hAccept (a : Accepted)
  | hService (i : nat) (env : ClientEnv)
  | hDrain (env : IoEnv)
  | hExpire (i : nat) (now : Z) (env : IoEnv)
  | hExecute (b : Bridge)
  | hWebsocket (call : Call)
  | hStart (address : bool) (env : ListenEnv)
  | hStop.

Definition ws_call (call : Call) : HT unit := λ h,
  match ht_websocket h with
  | None => Some (tt, h)
  | Some s => '(_, s) ← perform call s; Some (tt, with_websocket h (Some s))
  end.

Definition do_http (op : HttpOp) : HT unit :=
  match op with
  | hAccept a => accept_client wait a
  | hService i env => service_client keys wait chunk env i
  | hDrain env => drain_response chunk env;; mret tt
  | hExpire i now env => expire_client chunk now (λ _, env) i
  | hExecute b => ht_modify (λ h, with_bridge h b)
  | hWebsocket call => ws_call call
  | hStart address env => http_start address env;; mret tt
  | hStop => http_stop
  end.

Definition executed (b b' : Bridge) : Prop :=
  ∃ env packet (g g' : Gateway T) busy acc p, process_one sha256 env b packet g = Some (b', busy, acc, p, g').

(** The listener's pieces belong to a running thread; [accept] returns descriptors that
    are not in use; bytes come from the sockets. *)
Definition http_op_ok h (op : HttpOp) : Prop :=
  match op with
  | hAccept a => ht_running h = true ∧ unused h (ad_fd a)
  | hService i env => ht_running h = true ∧ (i < kMaxClientSlots)%nat ∧ client_env_ok env
  | hDrain _ => ht_running h = true
  | hExpire i _ _ => ht_running h = true ∧ (i < kMaxClientSlots)%nat
  | hExecute b => executed (ht_bridge h) b
  | hWebsocket call => call_ok call
  | hStart _ _ | hStop => True
  end.

Inductive http_run : HttpServer → list HttpOp → HttpServer → Prop :=
  | http_run_nil h : http_run h [] h
  | http_run_op h op h1 ops h2 : http_op_ok h op → do_http op h = Some (tt, h1) → http_run h1 ops h2 → http_run h (op :: ops) h2.

Lemma execute_ok h b : http_ok h → executed (ht_bridge h) b → http_ok (with_bridge h b).
Proof.
  intros [B1 B2 B3 B4 B5] (env & packet & g & g' & busy & acc & p & E). pose proof (process_one_owed sha256 env (ht_bridge h) packet g (id_bridge _ B2)) as Ho.
  unfold safe in Ho. rewrite E in Ho. destruct Ho as (Hb & Ho & _). split; try done; [by apply (slots_same h)|]. destruct B2. split; cbn; rewrite ?Ho; done.
Qed.

Lemma ws_call_ok h call (Q : unit → HttpServer → Prop) : http_ok h → call_ok call → (∀ h', http_ok h' → Q tt h') → runs (ws_call call) h Q.
Proof using Type.
  intros Hok Hc HQ. unfold ws_call, runs. pose proof (hb_websocket _ _ Hok) as Hws. unfold websocket_ok in Hws. destruct (ht_websocket h) as [s|] eqn:Es; [|by exists tt, h; auto].
  destruct Hws as [ch Hws]. destruct (perform_ok ch s call (λ _ s', server_ok 0 all s') Hws Hc ltac:(done)) as ([] & s' & E & Hs'). rewrite E. cbn [mbind option_bind].
  exists tt, (with_websocket h (Some s')). split; [done|]. apply HQ. destruct Hok as [B1 B2 B3 B4 B5]. split; try done; [by apply (slots_same h)|]. by destruct B2.
Qed.

Lemma do_http_ok h op : http_ok h → http_op_ok h op → runs (do_http op) h (λ _ h', http_ok h').
Proof.
  intros Hok Hop. destruct op as [a|i env|env|i now env|b|call|address env|]; cbn [do_http http_op_ok] in *.
  - destruct Hop as [Hr Hun]. apply accept_client_ok; [done..|]. by intros h' [? _].
  - destruct Hop as (Hr & Hi & Henv). apply (service_client_ok keys wait chunk h i); [done..|]. by intros h' [? _].
  - apply runs_bind. apply drain_response_ok; [done|]. intros more h' [[? _] _]. by apply runs_ret.
  - destruct Hop as [Hr Hi]. destruct (up_client h i (conj Hok Hr) Hi) as [c Hc]. apply (expire_client_ok chunk h i c); [done..|]. by intros h' [? _].
  - apply runs_ht_modify. by apply execute_ok.
  - by apply ws_call_ok.
  - apply runs_bind. apply http_start_ok; [done|]. intros b h' Hok'. by apply runs_ret.
  - by apply http_stop_ok.
Qed.

Lemma http_run_ok h ops h' : http_ok h → http_run h ops h' → http_ok h'.
Proof.
  intros Hok Hrun. induction Hrun as [|h op h1 ops h2 Hop E _ IH]; [done|]. apply IH. destruct (do_http_ok h op Hok Hop) as (u & h1' & E' & Hok'). congruence.
Qed.

(** ** Construction *)

(** A bridge whose identifiers were given out before [next]. *)
Definition bridge_ready (next : Z) (b : Bridge) : Prop :=
  bridge_ok b ∧ NoDup (owed b) ∧ 0 ≤ next ≤ UINT64_MAX ∧ ∀ id, id ∈ owed b → 0 < id ∧ (next ≠ 0 → id < next).

Lemma http_new_ok first next b ws : bridge_ready next b → (∀ s, ws = Some s → server_ok 0 all s) → http_ok (HttpServer_new first next b ws).
Proof using Type.
  intros (Hb & Hnd & Hn & Hids) Hws. assert (Hinit : ∀ i c, ht_clients (HttpServer_new first next b ws) !! i = Some c → c = ClientSlot_init ∧ (i < 64)%nat)
    by (intros i c Hc; unfold HttpServer_new in Hc; cbn [ht_clients] in Hc; by apply lookup_replicate in Hc).
  split.
  - split.
    + apply length_replicate.
    + intros i c Hc. destruct (Hinit i c Hc) as [-> Hi]. apply client_init_ok. cbn. unfold kNoClientSlot, UINT32_MAX. lia.
    + by left.
    + intros i j c d Hc _ Hf. destruct (Hinit i c Hc) as [-> _]. done.
    + exists ∅. split; [done|]. intros fd. split; [set_solver|]. intros (i & c & Hc & E & Hp). destruct (Hinit i c Hc) as [-> _]. cbn in E. lia.
  - split; try done; unfold HttpServer_new; cbn [ht_outstanding].
    + intros i c Hc. by destruct (Hinit i c Hc) as [-> _].
    + intros i j c d Hc. by destruct (Hinit i c Hc) as [-> _].
    + intros id Hin. by apply elem_of_replicate in Hin as [-> _].
    + intros k l id Hk. by apply lookup_replicate in Hk as [-> _].
  - intros i c _ Hc. by destruct (Hinit i c Hc) as [-> _].
  - unfold websocket_ok. cbn. destruct ws; [by apply Hws|done].
  - intros _ i c Hc. by destruct (Hinit i c Hc) as [-> _].
Qed.

(** A state of a server in use. *)
Definition http_reachable h : Prop := ∃ first next b ws ops,
  bridge_ready next b ∧ (∀ s, ws = Some s → server_ok 0 all s) ∧ http_run (HttpServer_new first next b ws) ops h.

Lemma http_reachable_ok h : http_reachable h → http_ok h.
Proof. intros (first & next & b & ws & ops & Hb & Hws & Hrun). eapply http_run_ok; [by apply http_new_ok|done]. Qed.
End runs.

(** ** The claims *)

Section claims.
Context {T : Type} `{OrderTable T}.
Context (sha256 : list Z → list Z) (keys : list Key) (wait chunk : Z).

(** The bytes a client holds stay within its arrays, and the snapshot buffer has one
    owner, a client that waits for the snapshot or sends it. *)
Definition client_bounds h : Prop := ∀ i c, ht_clients h !! i = Some c →
  (length (cl_incoming c) < kMaxClientReadBytes)%nat ∧ (cl_outgoing_offset c ≤ length (cl_outgoing c) ≤ kMaxInlineResponseBytes)%nat ∧
  Z.of_nat (length (ht_positions_body h)) < kMaxPositionsJsonBytes ∧
  (cl_owns_positions_body c = true ↔ ht_positions_owner h = Z.of_nat i) ∧
  (cl_owns_positions_body c = true → cl_sending_response c = true ∨ cl_waiting_response c = true ∧ cl_command c = kPositions).

Lemma reply_bound h i c : http_ok h → ht_clients h !! i = Some c → Z.of_nat (length (reply h c)) < Z.of_nat kMaxInlineResponseBytes + kMaxPositionsJsonBytes.
Proof using Type.
  intros [B1 _ _ _ _] Hc. destruct (co_offsets _ _ _ (sl_each _ B1 i c Hc)) as [[_ Ho] _]. pose proof (sl_owner _ B1) as Hb. unfold reply. rewrite length_app.
  assert (Z.of_nat (length (ht_positions_body h)) < kMaxPositionsJsonBytes) by (destruct Hb as [[_ ->]|[_ ?]]; done). destruct (cl_owns_positions_body c); cbn [length]; unfold kMaxPositionsJsonBytes in *; lia.
Qed.

Lemma http_bounds h : http_ok h → client_bounds h.
Proof using Type.
  intros [B1 _ B3 _ _] i c Hc. pose proof (sl_each _ B1 i c Hc) as [_ [_ C2] _ [C4 _] _ C6 _]. split; [done|]. split; [done|]. split; [by destruct (sl_owner _ B1) as [[_ ->]|[_ ?]]|]. split; [done|].
  apply (B3 i c); [done|exact Hc].
Qed.

Lemma authorized_token auth : authorized keys auth = true →
  ∃ scheme blanks token, auth = Some (scheme ++ blanks ++ token) ∧ ascii_equal scheme (str "Bearer") = true ∧ blanks ≠ [] ∧
    Forall (λ x, blank x = true) blanks ∧ validate keys token = true.
Proof using Type.
  unfold authorized, bearer_token. destruct auth as [v|]; [|done]. cbn [mbind option_bind]. change (length (str "Bearer")) with 6%nat. destruct (_ || _) eqn:Ec; [done|].
  apply orb_false_iff in Ec as [_ Es%negb_false_iff]. destruct (v !! 6%nat) as [sep|] eqn:Esep; [|done]. cbn [mbind option_bind]. destruct (blank sep) eqn:Eb; [|done].
  cbn [negb]. intros [_ Hv]%andb_true_iff. exists (take 6 v), (take_while blank (drop 6 v)), (skip_while blank (drop 6 v)).
  rewrite <- skip_while_split, take_drop. split_and!; [done|done| |apply take_while_all|done].
  pose proof (drop_S v sep 6 Esep) as ->. cbn [take_while]. by rewrite Eb.
Qed.
End claims.

(** C10 (safety): no client can bring the control plane down.  From construction, over
    any sequence of connections, requests of any bytes in any pieces, failing and
    partial sends, deadlines, responses, starts and stops, with the execution owner
    and the WebSocket server working in between, every operation that can come next
    is defined (no access outside a buffer, no loop without end), and so is every
    whole turn of [serve]; requests, responses and snapshots stay within their arrays,
    and the one snapshot buffer has at most one owner, a client that waits for the
    snapshot or sends it, so it is never lost. *)
Theorem http_survives_every_client {T} `{OrderTable T} sha256 keys wait chunk h :
  http_reachable (T := T) sha256 keys wait chunk h →
  (∀ op, http_op_ok (T := T) sha256 h op → ∃ h', do_http keys wait chunk op h = Some (tt, h')) ∧
  (ht_running h = true → ∀ env, http_turn_ok wait h env → ∃ more h', serve_turn keys wait chunk env h = Some (more, h') ∧ client_bounds h') ∧
  client_bounds h.
Proof.
  intros Hr. pose proof (http_reachable_ok sha256 keys wait chunk h Hr) as Hok. split_and!; [| |by apply http_bounds].
  - intros op Hop. destruct (do_http_ok sha256 keys wait chunk h op Hok Hop) as ([] & h' & E & _). by exists h'.
  - intros Hrun env Henv. destruct (serve_turn_up keys wait chunk h env (λ _ h', http_ok h') (conj Hok Hrun) Henv) as (more & h' & E & Hok'); [by intros ? ? []|].
    exists more, h'. split; [done|]. by apply http_bounds.
Qed.

(** C13 (safety): every connection is closed exactly once.  At any point the sockets
    that were accepted and not yet closed are exactly those of the clients, each the
    descriptor of one client; no descriptor was used or closed while it was not
    open; and [stop] closes all that are left. *)
Theorem http_closes_each_descriptor_once {T} `{OrderTable T} sha256 keys wait chunk h :
  http_reachable (T := T) sha256 keys wait chunk h →
  (∃ X, sockets (ht_log h) = Some X ∧ ∀ fd, fd ∈ X ↔ ∃ i c, ht_clients h !! i = Some c ∧ cl_fd c = fd ∧ 0 ≤ fd) ∧
  (∀ i j c d, ht_clients h !! i = Some c → ht_clients h !! j = Some d → 0 ≤ cl_fd c → cl_fd c = cl_fd d → i = j) ∧
  ∃ h', http_stop h = Some (tt, h') ∧ sockets (ht_log h') = Some ∅.
Proof.
  intros Hr. pose proof (http_reachable_ok sha256 keys wait chunk h Hr) as Hok. split_and!; [apply (hb_slots _ _ Hok)..|].
  destruct (http_stop_ok h (λ _ h', http_ok h' ∧ all_closed h') Hok) as ([] & h' & E & Hok' & Hall); [by intros h' ? _ _ ?|]. exists h'. split; [done|].
  destruct (sl_sockets _ (hb_slots _ _ Hok')) as (X & -> & HX). f_equal. apply set_eq. intros fd. rewrite HX. split; [|set_solver].
  intros (i & c & Hc & E' & Hp). rewrite (Hall i c Hc) in E'. cbn in E'. lia.
Qed.

(** C14 (safety): a client never sees a broken response.  What has been sent to a
    connected client is a prefix of one response whose [Content-Length] is the length
    of the body behind its head, whether that body is in the client's own buffer or
    the shared snapshot; a client that has no response yet has been sent nothing. *)
Theorem clients_see_whole_responses {T} `{OrderTable T} sha256 keys wait chunk h i c :
  http_reachable (T := T) sha256 keys wait chunk h → ht_clients h !! i = Some c → 0 ≤ cl_fd c →
  sent_on (cl_fd c) (ht_log h) `prefix_of` reply h c ∧ (if cl_sending_response c then well_framed (reply h c) else sent_on (cl_fd c) (ht_log h) = []).
Proof.
  intros Hr Hc Hf. pose proof (http_reachable_ok sha256 keys wait chunk h Hr) as Hok. pose proof (reply_bound h i c Hok Hc) as Hl. destruct (sl_each _ (hb_slots _ _ Hok) i c Hc) as [_ _ _ _ C5 _ C7].
  rewrite C7 by done. split; [apply prefix_take|]. destruct (cl_sending_response c); [apply response_framed; [apply C5|unfold kMaxInlineResponseBytes, kMaxPositionsJsonBytes, UINT64_MAX in *; lia]|]. by rewrite C5, take_nil.
Qed.

(** C12 (safety): every answer reaches the client that asked.  In a running server each
    waiting client has an identifier of its own that the bridge still owes, and the
    next response in the queue goes to the client that waits for it and to no other:
    that client is sending exactly the answer to its command, or its socket has been
    closed, and all other clients are as they were; a response nobody waits for
    (its client timed out or left) changes no client. *)
Theorem answers_reach_their_client {T} `{OrderTable T} sha256 keys wait chunk h env :
  http_reachable (T := T) sha256 keys wait chunk h → ht_running h = true →
  (∀ i c, ht_clients h !! i = Some c → cl_waiting_response c = true → cl_request_id c ∈ owed (ht_bridge h) ∧
     ∀ j d, ht_clients h !! j = Some d → waits_for (cl_request_id c) d → j = i) ∧
  ∃ more h', drain_response chunk env h = Some (more, h') ∧
    match br_responses (ht_bridge h) with
    | [] => more = false ∧ ht_clients h' = ht_clients h
    | r :: rs => more = true ∧ br_responses (ht_bridge h') = rs ∧ delivered h h' r
    end.
Proof.
  intros Hr Hrun. pose proof (http_reachable_ok sha256 keys wait chunk h Hr) as Hok. pose proof (hb_ids _ _ Hok) as Hids. split.
  - intros i c Hc Hw. destruct (id_waiting _ Hids i c Hc Hw) as (Hn & Hin & _). split; [by apply (id_owed _ Hids)|]. intros j d Hd [Hdw Ed].
    by apply (id_unique _ Hids j i d c).
  - destruct (drain_response_ok chunk h env (λ more h', drain_outcome h h' more) (conj Hok Hrun) ltac:(done)) as (more & h' & E & _ & Hd). by exists more, h'.
Qed.

(** What a request can touch beyond its own client. *)
Definition effects h := (ht_bridge h, ht_websocket h, ht_next_order_id h, ht_next_request_id h, ht_outstanding h).

(** C11 (safety): no command without a configured key.  When a complete request is
    dispatched, it reaches the execution bridge, the WebSocket server or any of the
    counters only if its [Authorization] field is the scheme [Bearer], in any case,
    blanks, and one of the first 32 tokens of 1 to 63 characters that were
    configured; every other request is answered with [401] and nothing else. *)
Theorem commands_need_a_configured_key {T} `{OrderTable T} sha256 offered keys wait chunk h i c env :
  http_reachable (T := T) sha256 keys wait chunk h → ht_running h = true → Forall bytes offered → add_all BearerKeyStore_new offered = Some keys →
  ht_clients h !! i = Some c → 0 ≤ cl_fd c → cl_sending_response c = false → cl_waiting_response c = false →
  ∃ authorization h', header (request_of c) (block_end c) (str "Authorization") = Some authorization ∧
    dispatch_client keys wait chunk i env h = Some (tt, h') ∧
    ((∃ scheme blanks token, authorization = Some (scheme ++ blanks ++ token) ∧ ascii_equal scheme (str "Bearer") = true ∧ blanks ≠ [] ∧
        Forall (λ x, blank x = true) blanks ∧ token ∈ take 32 (filter token_fits offered)) ∨
     effects h' = effects h ∧ (∀ j, j ≠ i → ht_clients h' !! j = ht_clients h !! j) ∧
     ∃ c', ht_clients h' !! i = Some c' ∧
       answered (response_head 401 (str "Unauthorized") 24 ++ json "{'error':'unauthorized'}") h' c').
Proof.
  intros Hr Hrun Hoff Hkeys Hc Hf Hs Hw. pose proof (http_reachable_ok sha256 keys wait chunk h Hr) as Hok.
  destruct (header_total (request_of c) (block_end c) (str "Authorization")) as [auth Ea]. exists auth.
  destruct (authorized keys auth) eqn:Eauth.
  - destruct (dispatch_ok keys wait chunk h i c env (λ _ _, True)) as ([] & h' & E & _); [apply (http_idle h i c); done..|done|]. exists h'. split_and!; [done..|]. left.
    destruct (authorized_token keys auth Eauth) as (scheme & blanks & token & -> & Hsch & Hbl & Hall & Hv). exists scheme, blanks, token. split_and!; [done..|].
    assert (Hb : bytes token).
    { apply header_part with (P := λ b, 0 ≤ b < 256) in Ea; [by apply Forall_app in Ea as [_ [_ ?]%Forall_app]|]. destruct (co_incoming _ _ _ (sl_each _ (hb_slots _ _ Hok) i c Hc)) as [Hin _].
      unfold request_of. clear -Hin. induction Hin as [|x l Hx _ IH]; cbn [c_string]; [constructor|]. case_cond; [constructor|by constructor]. }
    destruct (bearer_store offered Hoff) as (keys' & E' & Hval). rewrite Hkeys in E'. injection E' as <-. by apply Hval.
  - destruct (queue_inline_ok chunk h i c 401 (str "Unauthorized") (json "{'error':'unauthorized'}") (de_io env)
      (λ _ h', handled i (answered (response_head 401 (str "Unauthorized") 24 ++ json "{'error':'unauthorized'}")) h h')) as ([] & h' & E & Hh); [apply Hok|done..|].
    exists h'. split; [done|]. split; [|right].
    + unfold dispatch_client. unfold mbind, st_bind. unfold client, ht_get, mbind, st_bind, lift. rewrite Hc. cbn [mbind option_bind]. rewrite Ea. cbn [mbind option_bind]. rewrite Eauth. exact E.
    + destruct (handled_fields _ _ _ _ Hh) as (E1 & _ & E3 & E4 & E5 & E6). unfold effects. rewrite E1, E3, E4, E5, E6. split; [done|].
      destruct Hh as (c' & b & o & e & -> & _ & Hc' & Hans). split; [|by exists c']. intros j Hj. cbn. by rewrite list_lookup_insert_ne.
Qed.

(** ** A session: a client asks for an order and gets its answer *)

Definition demo_keys : list Key := default [] (add_all BearerKeyStore_new [str "k1"]).
Definition demo_request : list Z :=
  request_text (str "GET /api/v1/orders/5 HTTP/1.1") [mkField (str "Host") (str " desk"); mkField (str "authorization") (str " bearer k1")] [].
Definition demo_io : IoEnv := mkIo 2000 [Sent 40].
Definition demo_dispatch : DispatchEnv := mkDispatch (-1) true 1500 demo_io.
(** The bridge after a turn of the execution owner. *)
Definition processed {T} `{OrderTable T} sha env packet (g : Gateway T) (b : Bridge) : option Bridge :=
  '(b, _, _, _, _) ← process_one sha env b packet g; Some b.
Definition demo_bridge (h : HttpServer) : Bridge := default Bridge_new (processed toy_sha demo_env demo_packet demo_gateway (ht_bridge h)).

Lemma processed_executed {T} `{OrderTable T} sha env packet (g : Gateway T) (b : Bridge) :
  is_null (processed sha env packet g b) = false → executed (T := T) sha b (default Bridge_new (processed sha env packet g b)).
Proof.
  unfold processed. destruct (process_one sha env b packet g) as [[[[[b' busy] acc] p] g']|] eqn:E; [|done]. intros _. by exists env, packet, g, g', busy, acc, p.
Qed.

Definition http_next (op : HttpOp) (h : HttpServer) : HttpServer := match do_http demo_keys 100 0 op h with Some (_, h') => h' | None => h end.
Definition http_defined (op : HttpOp) (h : HttpServer) : bool := match do_http demo_keys 100 0 op h with Some _ => true | None => false end.

Definition demo_started : HttpServer := http_next (hStart true (mkListen 3 true true (Some 8080) true)) (HttpServer_new 1 1 Bridge_new None).
Definition demo_connected : HttpServer := http_next (hAccept (mkAcceptedFd 10 true 1000)) demo_started.
Definition demo_waiting : HttpServer := http_next (hService 0 (mkClientEnv POLLIN [] [Received demo_request] demo_dispatch)) demo_connected.
Definition demo_responded : HttpServer := http_next (hExecute (demo_bridge demo_waiting)) demo_waiting.
Definition demo_sending : HttpServer := http_next (hDrain demo_io) demo_responded.

Lemma http_next_ok op h : http_defined op h = true → do_http demo_keys 100 0 op h = Some (tt, http_next op h).
Proof. unfold http_defined, http_next. by destruct (do_http demo_keys 100 0 op h) as [[[] h']|]. Qed.

Lemma unused_check h fd : 0 ≤ fd → forallb (λ c, negb (cl_fd c =? fd)) (ht_clients h) = true → unused h fd.
Proof. intros Hfd Hall. split; [done|]. rewrite forallb_forall in Hall. intros i c Hc E. apply list_elem_of_lookup_2, list_elem_of_In, Hall in Hc. rewrite E, Z.eqb_refl in Hc. done. Qed.

Notation demo_run := (http_run (T := ReconciliationLedger) toy_sha demo_keys 100 0).

Lemma demo_step op h :
  http_op_ok (T := ReconciliationLedger) toy_sha h op → http_defined op h = true → demo_run h [op] (http_next op h).
Proof. intros Hop Hd. eapply http_run_op; [done|by apply http_next_ok|constructor]. Qed.

Lemma http_run_app {T} `{OrderTable T} sha keys wait chunk h1 ops1 h2 ops2 h3 :
  http_run (T := T) sha keys wait chunk h1 ops1 h2 → http_run (T := T) sha keys wait chunk h2 ops2 h3 → http_run (T := T) sha keys wait chunk h1 (ops1 ++ ops2) h3.
Proof. induction 1; [done|]. intros Hr. rewrite <- app_comm_cons. eapply http_run_op; eauto. Qed.

Lemma demo_connected_run : demo_run (HttpServer_new 1 1 Bridge_new None) ([hStart true (mkListen 3 true true (Some 8080) true)] ++ [hAccept (mkAcceptedFd 10 true 1000)]) demo_connected.
Proof.
  apply (http_run_app _ _ _ _ _ _ demo_started); [unfold demo_started; apply (demo_step (hStart true (mkListen 3 true true (Some 8080) true)) (HttpServer_new 1 1 Bridge_new None)); [exact I|vm_compute; reflexivity]|].
  unfold demo_connected. apply (demo_step (hAccept (mkAcceptedFd 10 true 1000)) demo_started); [|vm_compute; reflexivity]. split; [vm_compute; reflexivity|]. apply unused_check; [done|vm_compute; reflexivity].
Qed.

Lemma demo_responded_run : demo_run demo_connected ([hService 0 (mkClientEnv POLLIN [] [Received demo_request] demo_dispatch)] ++ [hExecute (demo_bridge demo_waiting)]) demo_responded.
Proof.
  apply (http_run_app _ _ _ _ _ _ demo_waiting).
  - unfold demo_waiting. apply (demo_step (hService 0 (mkClientEnv POLLIN [] [Received demo_request] demo_dispatch)) demo_connected); [|vm_compute; reflexivity].
    split; [vm_compute; reflexivity|]. split; [unfold kMaxClientSlots; lia|]. apply Forall_singleton. unfold recv_ok. by_decide.
  - unfold demo_responded. apply (demo_step (hExecute (demo_bridge demo_waiting)) demo_waiting); [|vm_compute; reflexivity].
    apply processed_executed. vm_compute. reflexivity.
Qed.

Lemma demo_sending_run : demo_run demo_responded [hDrain demo_io] demo_sending.
Proof. unfold demo_sending. apply (demo_step (hDrain demo_io) demo_responded); vm_compute; reflexivity. Qed.

Lemma run_reachable ops h : demo_run (HttpServer_new 1 1 Bridge_new None) ops h → http_reachable (T := ReconciliationLedger) toy_sha demo_keys 100 0 h.
Proof.
  intros Hrun. exists 1, 1, Bridge_new, None, ops. split; [|done]. split_and!; [split; cbn; lia|constructor|done|done|]. cbn. intros id Hin. by apply elem_of_nil in Hin.
Qed.

Lemma demo_connected_reachable : http_reachable (T := ReconciliationLedger) toy_sha demo_keys 100 0 demo_connected.
Proof. eapply run_reachable, demo_connected_run. Qed.
Lemma demo_responded_reachable : http_reachable (T := ReconciliationLedger) toy_sha demo_keys 100 0 demo_responded.
Proof. eapply run_reachable, http_run_app; [apply demo_connected_run|apply demo_responded_run]. Qed.
Lemma demo_sending_reachable : http_reachable (T := ReconciliationLedger) toy_sha demo_keys 100 0 demo_sending.
Proof. eapply run_reachable, http_run_app; [apply demo_connected_run|]. eapply http_run_app; [apply demo_responded_run|apply demo_sending_run]. Qed.

Definition first_client (h : HttpServer) : ClientSlot := default ClientSlot_init (ht_clients h !! 0%nat).

Lemma sending_client : ht_clients demo_sending !! 0%nat = Some (first_client demo_sending).
Proof. vm_compute. reflexivity. Qed.
Lemma connected_client : ht_clients demo_connected !! 0%nat = Some (first_client demo_connected).
Proof. vm_compute. reflexivity. Qed.

Lemma http_survives_every_client_witness :
  (∃ h', do_http demo_keys 100 0 (hDrain demo_io) demo_responded = Some (tt, h')) ∧ client_bounds demo_responded.
Proof.
  destruct (http_survives_every_client toy_sha demo_keys 100 0 demo_responded demo_responded_reachable) as (Hop & _ & Hb). split; [|exact Hb].
  apply Hop. vm_compute. reflexivity.
Defined.

Lemma http_closes_each_descriptor_once_witness :
  ∃ X, sockets (ht_log demo_sending) = Some X ∧ 10 ∈ X ∧ ∃ h', http_stop demo_sending = Some (tt, h') ∧ sockets (ht_log h') = Some ∅.
Proof.
  destruct (http_closes_each_descriptor_once toy_sha demo_keys 100 0 demo_sending demo_sending_reachable) as ((X & E & HX) & _ & Hstop). exists X. split; [exact E|]. split; [|exact Hstop].
  apply HX. exists O, (first_client demo_sending). split; [exact sending_client|]. split; [vm_compute; reflexivity|done].
Defined.

Lemma clients_see_whole_responses_witness :
  sent_on 10 (ht_log demo_sending) = take 40 (order_reply (OrderSnapshot_new 5 stNotFound)) ∧ well_framed (order_reply (OrderSnapshot_new 5 stNotFound)).
Proof.
  destruct (clients_see_whole_responses toy_sha demo_keys 100 0 demo_sending O (first_client demo_sending) demo_sending_reachable
    sending_client ltac:(vm_compute; discriminate)) as [_ Hw]. split; [vm_compute; reflexivity|].
  replace (order_reply (OrderSnapshot_new 5 stNotFound)) with (reply demo_sending (first_client demo_sending)) by (vm_compute; reflexivity).
  replace (cl_sending_response (first_client demo_sending)) with true in Hw by (vm_compute; reflexivity). exact Hw.
Defined.

Lemma answers_reach_their_client_witness :
  ∃ more h', drain_response 0 demo_io demo_responded = Some (more, h') ∧ more = true ∧
    ∀ i c, ht_clients demo_responded !! i = Some c → cl_waiting_response c = true → cl_request_id c ∈ [1].
Proof.
  destruct (answers_reach_their_client toy_sha demo_keys 100 0 demo_responded demo_io demo_responded_reachable ltac:(vm_compute; reflexivity)) as (Hw & more & h' & E & Hm).
  exists more, h'. split; [exact E|]. split.
  - replace (br_responses (ht_bridge demo_responded)) with [mkResponse 1 (OrderSnapshot_new 5 stNotFound) []] in Hm by (vm_compute; reflexivity). exact (proj1 Hm).
  - intros i c Hc Hcw. replace [1] with (owed (ht_bridge demo_responded)) by (vm_compute; reflexivity). exact (proj1 (Hw i c Hc Hcw)).
Defined.

Lemma commands_need_a_configured_key_witness :
  ∃ authorization h', header (request_of (first_client demo_connected)) 0 (str "Authorization") = Some authorization ∧
    dispatch_client demo_keys 100 0 0 demo_dispatch demo_connected = Some (tt, h') ∧ authorization = None ∧ effects h' = effects demo_connected.
Proof.
  destruct (commands_need_a_configured_key toy_sha [str "k1"] demo_keys 100 0 demo_connected O (first_client demo_connected) demo_dispatch
    demo_connected_reachable ltac:(vm_compute; reflexivity) ltac:(by_decide) ltac:(vm_compute; reflexivity) connected_client ltac:(vm_compute; discriminate)
    ltac:(vm_compute; reflexivity) ltac:(vm_compute; reflexivity)) as (a & h' & Ea & Ed & Hor).
  exists a, h'. split; [exact Ea|]. split; [exact Ed|]. assert (Ha : a = None) by (vm_compute in Ea; by injection Ea as <-). split; [exact Ha|].
  destruct Hor as [(s1 & s2 & s3 & E & _)|[E _]]; [rewrite Ha in E; discriminate|exact E].
Defined.
