(* ===== verification/Telemetry.v ===== *)
(** * Telemetry: snapshots, the batch collector and the UDP bridge
    (src/luv_telemetry.hpp)

    Producers write snapshots into the arena's ring and count what does not fit; the
    bridge takes them out in order and sends each once.  Clock readings and the results
    of system calls are arguments.  [None] is signed overflow, or fewer outcomes than
    system calls. *)

From S2P Require Import Prelude Arena Ring Risk Gateway HttpText Printf.
From Stdlib Require Import ZArith Lia String.
From stdpp Require Import base tactics gmap numbers option list sorting.
Open Scope Z_scope.

Record TelemSnapshot := mkSnap {
  tm_timestamp_ns : Z;
  tm_session_pnl : Z;
  tm_gross_exposure : Z;
  tm_fill_count : Z;
  tm_reject_count : Z;
  tm_tick_rate_hz : Z;
  tm_active_orders : Z;
  tm_fills_total : Z;
  tm_rejections_total : Z;
  tm_websocket_drops_total : Z;
  tm_inference_us : float;
  tm_risk_ns : float;
  tm_halted : Z
}.
Definition TelemSnapshot_init : TelemSnapshot := mkSnap 0 0 0 0 0 0 0 0 0 0 float_zero float_zero 0.

(** [telem_ring] and [telemetry_drops]. *)
Record TelemArena := mkTelem { ta_ring : SPSCRing TelemSnapshot; ta_drops : Z }.
Definition telem_bits : Z := 16.

(** ** TelemetryPublisher *)

Definition publish_snapshot (a : TelemArena) (snapshot : TelemSnapshot) : TelemArena * bool :=
  match try_claim telem_bits (ta_ring a) (ring_tail (ta_ring a)) with
  | None => (mkTelem (ta_ring a) (u64 (ta_drops a + 1)), false)
  | Some slot => (mkTelem (commit (write_slot (ta_ring a) slot snapshot)) (ta_drops a), true)
  end.

Definition i32 (z : Z) : Z := let r := u32 z in if r <? 2 ^ 31 then r else r - 2 ^ 32.

(** The orders of one symbol. *)
Fixpoint count_fills (orders : list ActiveOrder) (fill_count : Z) : option Z :=
  match orders with
  | [] => Some fill_count
  | o :: rest => if 0 <? ao_filled_qty o then fill_count ← chk32 (fill_count + 1); count_fills rest fill_count else count_fills rest fill_count
  end.

Definition add_symbol (snap : TelemSnapshot) (exec : SymbolExecState) : option TelemSnapshot :=
  pnl ← chk64 (tm_session_pnl snap + daily_pnl (es_risk exec));
  gross ← chk64 (tm_gross_exposure snap + gross_exposure (es_risk exec));
  rejects ← chk32 (tm_reject_count snap + i32 (reject_count (es_risk exec)));
  fills ← count_fills (es_orders exec) (tm_fill_count snap);
  Some (mkSnap (tm_timestamp_ns snap) pnl gross fills rejects (tm_tick_rate_hz snap) (u32 (tm_active_orders snap + rs_order_count (es_risk exec)))
    (tm_fills_total snap) (tm_rejections_total snap) (tm_websocket_drops_total snap) (tm_inference_us snap) (tm_risk_ns snap) (Z.lor (tm_halted snap) (halted (es_risk exec)))).

Fixpoint add_symbols (snap : TelemSnapshot) (execs : list SymbolExecState) : option TelemSnapshot :=
  match execs with
  | [] => Some snap
  | exec :: rest => snap ← add_symbol snap exec; add_symbols snap rest
  end.

Definition publish_heartbeat (a : TelemArena) (exec_states : list SymbolExecState) (now_ns tick_rate_hz : Z) (inference_us risk_ns : float) : option (TelemArena * bool) :=
  match try_claim telem_bits (ta_ring a) (ring_tail (ta_ring a)) with
  | None => Some (mkTelem (ta_ring a) (u64 (ta_drops a + 1)), false)
  | Some slot =>
      snap ← add_symbols (mkSnap now_ns 0 0 0 0 tick_rate_hz 0 0 0 0 inference_us risk_ns 0) exec_states;
      Some (mkTelem (commit (write_slot (ta_ring a) slot snap)) (ta_drops a), true)
  end.

(** ** TelemetryBatchCollector *)

Record TelemetryBatch := mkBatch {
  tb_timestamp_ns : Z;
  tb_orders_sent : Z;
  tb_orders_approved : Z;
  tb_orders_rejected : Z;
  tb_orders_acked : Z;
  tb_orders_filled : Z;
  tb_orders_canceled : Z;
  tb_position : Z;
  tb_notional : Z;
  tb_latency_p50_ns : Z;
  tb_latency_p99_ns : Z;
  tb_latency_p999_ns : Z
}.
Definition TelemetryBatch_init : TelemetryBatch := mkBatch 0 0 0 0 0 0 0 0 0 0 0 0.

(** [tc_latencies] holds the first [_latency_count] entries of the array. *)
Record TelemetryBatchCollector := mkCollector {
  tc_batch : TelemetryBatch;
  tc_latencies : list Z;
  tc_dropped_latencies : Z;
  tc_fills_total : Z;
  tc_rejections_total : Z
}.
Definition TelemetryBatchCollector_new : TelemetryBatchCollector := mkCollector TelemetryBatch_init [] 0 0 0.

Definition with_batch (c : TelemetryBatchCollector) (b : TelemetryBatch) : TelemetryBatchCollector :=
  mkCollector b (tc_latencies c) (tc_dropped_latencies c) (tc_fills_total c) (tc_rejections_total c).
Definition batch_counts (b : TelemetryBatch) (sent approved rejected acked filled canceled : Z) : TelemetryBatch :=
  mkBatch (tb_timestamp_ns b) (u32 (tb_orders_sent b + sent)) (u32 (tb_orders_approved b + approved)) (u32 (tb_orders_rejected b + rejected)) (u32 (tb_orders_acked b + acked))
    (u32 (tb_orders_filled b + filled)) (u32 (tb_orders_canceled b + canceled)) (tb_position b) (tb_notional b) (tb_latency_p50_ns b) (tb_latency_p99_ns b) (tb_latency_p999_ns b).

Definition record_order_sent (c : TelemetryBatchCollector) : TelemetryBatchCollector := with_batch c (batch_counts (tc_batch c) 1 0 0 0 0 0).
Definition record_order_check (c : TelemetryBatchCollector) (approved : bool) : TelemetryBatchCollector :=
  if approved then with_batch c (batch_counts (tc_batch c) 0 1 0 0 0 0)
  else mkCollector (batch_counts (tc_batch c) 0 0 1 0 0 0) (tc_latencies c) (tc_dropped_latencies c) (tc_fills_total c) (u64 (tc_rejections_total c + 1)).
Definition record_ack (c : TelemetryBatchCollector) : TelemetryBatchCollector := with_batch c (batch_counts (tc_batch c) 0 0 0 1 0 0).
Definition record_fill (c : TelemetryBatchCollector) (notional : Z) : option TelemetryBatchCollector :=
  let b := batch_counts (tc_batch c) 0 0 0 0 1 0 in
  total ← chk64 (tb_notional b + notional);
  let b := mkBatch (tb_timestamp_ns b) (tb_orders_sent b) (tb_orders_approved b) (tb_orders_rejected b) (tb_orders_acked b) (tb_orders_filled b) (tb_orders_canceled b)
    (tb_position b) total (tb_latency_p50_ns b) (tb_latency_p99_ns b) (tb_latency_p999_ns b) in
  Some (mkCollector b (tc_latencies c) (tc_dropped_latencies c) (u64 (tc_fills_total c + 1)) (tc_rejections_total c)).
Definition record_cancellation (c : TelemetryBatchCollector) : TelemetryBatchCollector := with_batch c (batch_counts (tc_batch c) 0 0 0 0 0 1).
Definition set_position (c : TelemetryBatchCollector) (position : Z) : TelemetryBatchCollector :=
  let b := tc_batch c in
  with_batch c (mkBatch (tb_timestamp_ns b) (tb_orders_sent b) (tb_orders_approved b) (tb_orders_rejected b) (tb_orders_acked b) (tb_orders_filled b) (tb_orders_canceled b)
    position (tb_notional b) (tb_latency_p50_ns b) (tb_latency_p99_ns b) (tb_latency_p999_ns b)).
Definition MaxLatencies : Z := 10000.
Definition record_latency (c : TelemetryBatchCollector) (latency_ns : Z) : TelemetryBatchCollector :=
  if Z.of_nat (length (tc_latencies c)) <? MaxLatencies
  then mkCollector (tc_batch c) (tc_latencies c ++ [latency_ns]) (tc_dropped_latencies c) (tc_fills_total c) (tc_rejections_total c)
  else mkCollector (tc_batch c) (tc_latencies c) (u32 (tc_dropped_latencies c + 1)) (tc_fills_total c) (tc_rejections_total c).

Definition percentile (latencies : list Z) (rank : Z) : Z :=
  let count := Z.of_nat (length latencies) in
  if count =? 0 then 0 else
  let denominator := if 1000 <=? rank then 1000 else 100 in
  let index := u64 (count * rank + denominator - 1) / denominator in
  default 0 (latencies !! Z.to_nat (if index =? 0 then 0 else (index - 1) `min` (count - 1))).

(** [std::sort] on integers. *)
Definition sort_latencies (latencies : list Z) : list Z := merge_sort (≤) latencies.

Definition flush_snapshot (c : TelemetryBatchCollector) (b : TelemetryBatch) : TelemSnapshot :=
  let closed := u32 (tb_orders_filled b + tb_orders_canceled b) in
  mkSnap (tb_timestamp_ns b) (tb_notional b) (tb_notional b) (i32 (tb_orders_filled b)) (i32 (tb_orders_rejected b)) 0
    (if closed <? tb_orders_approved b then tb_orders_approved b - closed else 0)
    (tc_fills_total c) (tc_rejections_total c) 0
    (float_div (float_of (tb_latency_p50_ns b)) (float_of 1000)) (float_div (float_of (tb_latency_p99_ns b)) (float_of 1000)) 0.

Definition collector_flush (c : TelemetryBatchCollector) (a : TelemArena) (now_ns : Z) : TelemetryBatchCollector * TelemArena * bool :=
  match try_claim telem_bits (ta_ring a) (ring_tail (ta_ring a)) with
  | None => (c, mkTelem (ta_ring a) (u64 (ta_drops a + 1)), false)
  | Some slot =>
      let sorted := sort_latencies (tc_latencies c) in
      let b := tc_batch c in
      let b := mkBatch now_ns (tb_orders_sent b) (tb_orders_approved b) (tb_orders_rejected b) (tb_orders_acked b) (tb_orders_filled b) (tb_orders_canceled b)
        (tb_position b) (tb_notional b) (percentile sorted 50) (percentile sorted 99) (percentile sorted 999) in
      (mkCollector TelemetryBatch_init [] (tc_dropped_latencies c) (tc_fills_total c) (tc_rejections_total c),
       mkTelem (commit (write_slot (ta_ring a) slot (flush_snapshot c b))) (ta_drops a), true)
  end.

(** ** TelemetryBridge *)

Inductive TelemetryWireFormat := kJson | kBinary.
Record TelemetryBridgeConfig := mkBridgeConfig {
  bc_host : option (list Z);
  bc_port : Z;
  bc_format : TelemetryWireFormat;
  bc_max_batch : Z;
  bc_idle_sleep_us : Z
}.
Record TelemetryPacket := mkPacket { tp_magic : Z; tp_version : Z; tp_bytes : Z; tp_sequence : Z; tp_snapshot : TelemSnapshot }.

(** [tg_thread] says that [_thread] is joinable. *)
Record TelemetryBridge := mkBridge {
  tg_arena : bool;
  tg_cfg : TelemetryBridgeConfig;
  tg_fd : Z;
  tg_running : bool;
  tg_thread : bool;
  tg_sequence : Z;
  tg_snapshots_sent : Z;
  tg_send_errors : Z
}.
Definition TelemetryBridge_new : TelemetryBridge := mkBridge false (mkBridgeConfig (Some (str "127.0.0.1")) 7777 kJson 256 1000) (-1) false false 0 0 0.

(** The descriptors a call closes are its last result. *)
Definition bridge_close_socket (g : TelemetryBridge) : TelemetryBridge * list Z :=
  if 0 <=? tg_fd g
  then (mkBridge (tg_arena g) (tg_cfg g) (-1) (tg_running g) (tg_thread g) (tg_sequence g) (tg_snapshots_sent g) (tg_send_errors g), [tg_fd g])
  else (g, []).

Definition bridge_init (g : TelemetryBridge) (initialised : bool) (cfg : TelemetryBridgeConfig) (socket : Z) (address_ok : bool) : TelemetryBridge * bool * list Z :=
  if negb initialised || bool_decide (bc_host cfg = None) || (bc_port cfg =? 0) then (g, false, []) else
  let cfg := mkBridgeConfig (bc_host cfg) (bc_port cfg) (bc_format cfg) (if bc_max_batch cfg =? 0 then 1 else bc_max_batch cfg) (bc_idle_sleep_us cfg) in
  let g := mkBridge true cfg socket (tg_running g) (tg_thread g) (tg_sequence g) (tg_snapshots_sent g) (tg_send_errors g) in
  if socket <? 0 then (g, false, []) else
  if negb address_ok then let '(g, closed) := bridge_close_socket g in (g, false, closed) else (g, true, []).

Definition bridge_start (g : TelemetryBridge) (thread_ok : bool) : TelemetryBridge * bool :=
  if negb (tg_arena g) || (tg_fd g <? 0) || tg_running g then (g, false) else
  (mkBridge (tg_arena g) (tg_cfg g) (tg_fd g) thread_ok (thread_ok || tg_thread g) (tg_sequence g) (tg_snapshots_sent g) (tg_send_errors g), thread_ok).

Definition bridge_stop (g : TelemetryBridge) : TelemetryBridge :=
  mkBridge (tg_arena g) (tg_cfg g) (tg_fd g) false false (tg_sequence g) (tg_snapshots_sent g) (tg_send_errors g).

Definition heartbeat_json (sequence : Z) (snap : TelemSnapshot) : list Z :=
  str "{'type':'luv_heartbeat','seq':" ++ print_unsigned sequence ++ str ",'timestamp_ns':" ++ print_unsigned (tm_timestamp_ns snap) ++
  str ",'session_pnl':" ++ print_signed (tm_session_pnl snap) ++ str ",'gross_exposure':" ++ print_signed (tm_gross_exposure snap) ++
  str ",'fill_count':" ++ print_signed (tm_fill_count snap) ++ str ",'reject_count':" ++ print_signed (tm_reject_count snap) ++
  str ",'tick_rate_hz':" ++ print_unsigned (tm_tick_rate_hz snap) ++ str ",'active_orders':" ++ print_unsigned (tm_active_orders snap) ++
  str ",'inference_us':" ++ print_f3 (tm_inference_us snap) ++ str ",'risk_ns':" ++ print_f3 (tm_risk_ns snap) ++
  str ",'halted':" ++ print_unsigned (tm_halted snap) ++ str "}" ++ [10].
(** The text above is written with apostrophes for the quotation marks. *)
Definition requote (text : list Z) : list Z := (λ c, if c =? 39 then 34 else c) <$> text.

(** What is handed to [sendto]. *)
Inductive Datagram := Text (text : list Z) | Binary (packet : TelemetryPacket).
Definition datagram_length (d : Datagram) : Z := match d with Text text => Z.of_nat (length text) | Binary _ => 192 end.

(** The datagram, when the text fits its buffer. *)
Definition snapshot_datagram (format : TelemetryWireFormat) (sequence : Z) (snap : TelemSnapshot) : option Datagram :=
  match format with
  | kBinary => Some (Binary (mkPacket 0x3156554C 1 192 sequence snap))
  | kJson => let text := requote (heartbeat_json sequence snap) in if Z.of_nat (length text) <? 512 then Some (Text text) else None
  end.

(** [results] are the return values of [sendto] still to come. *)
Definition send_snapshot (g : TelemetryBridge) (snap : TelemSnapshot) (results : list Z) : option (TelemetryBridge * bool * option Datagram * list Z) :=
  let g' := mkBridge (tg_arena g) (tg_cfg g) (tg_fd g) (tg_running g) (tg_thread g) (u64 (tg_sequence g + 1)) (tg_snapshots_sent g) (tg_send_errors g) in
  match snapshot_datagram (bc_format (tg_cfg g)) (tg_sequence g) snap with
  | None => Some (g', false, None, results)
  | Some d => match results with [] => None | rc :: results => Some (g', rc =? datagram_length d, Some d, results) end
  end.

Definition count_send (g : TelemetryBridge) (ok : bool) : TelemetryBridge :=
  mkBridge (tg_arena g) (tg_cfg g) (tg_fd g) (tg_running g) (tg_thread g) (tg_sequence g)
    (if ok then u64 (tg_snapshots_sent g + 1) else tg_snapshots_sent g) (if ok then tg_send_errors g else u64 (tg_send_errors g + 1)).

(** The loop of [pump_once]: at most one turn per queued snapshot.  The datagrams handed
    to the socket are collected. *)
Fixpoint pump_loop (fuel : nat) (g : TelemetryBridge) (a : TelemArena) (sent : Z) (results : list Z) (out : list Datagram) : option (TelemetryBridge * TelemArena * Z * list Datagram) :=
  match fuel with
  | O => None
  | S fuel' =>
      if bc_max_batch (tg_cfg g) <=? sent then Some (g, a, sent, out) else
      match try_peek telem_bits (ta_ring a) (ring_head (ta_ring a)) with
      | None => Some (g, a, sent, out)
      | Some slot =>
          '(g, ok, d, results) ← send_snapshot g (read_slot TelemSnapshot_init (ta_ring a) slot) results;
          pump_loop fuel' (count_send g ok) (mkTelem (consume (ta_ring a)) (ta_drops a)) (if ok then u32 (sent + 1) else sent) results (out ++ option_list d)
      end
  end.

Definition pump_once (g : TelemetryBridge) (a : TelemArena) (results : list Z) : option (TelemetryBridge * TelemArena * Z * list Datagram) :=
  if negb (tg_arena g) || (tg_fd g <? 0) then Some (g, a, 0, []) else pump_loop (S (Z.to_nat (ring_size (ta_ring a)))) g a 0 results [].

(** ** Health checks *)

Record HealthCheckResult := mkHealth {
  hc_feed_fresh : bool;
  hc_lob_consistent : bool;
  hc_execution_backlog : bool;
  hc_memory_ok : bool;
  hc_disk_space_ok : bool;
  hc_cpu_usage_ok : bool
}.
Definition run_health_checks (snapshot : TelemSnapshot) (now_ns last_feed_msg_ns active_orders rss_bytes available_disk_bytes : Z) (cpu_usage_pct : double)
    (backlog_limit memory_limit_bytes disk_limit_bytes : Z) (cpu_limit_pct : double) : HealthCheckResult :=
  let feed_age_ns := if last_feed_msg_ns <? now_ns then now_ns - last_feed_msg_ns else 0 in
  mkHealth (feed_age_ns <? 100000000) ((tm_halted snapshot =? 0) && (0 <=? tm_active_orders snapshot)) (active_orders <=? backlog_limit)
    (rss_bytes <=? memory_limit_bytes) (disk_limit_bytes <=? available_disk_bytes) (double_le cpu_usage_pct cpu_limit_pct).

(** ** Every snapshot fits its datagram *)

Record snap_ok (s : TelemSnapshot) : Prop := mkSnapOk {
  so_u64 : Forall (λ v, 0 ≤ v < 2 ^ 64) [tm_timestamp_ns s; tm_fills_total s; tm_rejections_total s; tm_websocket_drops_total s];
  so_i64 : Forall (λ v, INT64_MIN ≤ v ≤ INT64_MAX) [tm_session_pnl s; tm_gross_exposure s];
  so_i32 : Forall (λ v, - 2 ^ 31 ≤ v < 2 ^ 31) [tm_fill_count s; tm_reject_count s];
  so_u32 : Forall (λ v, 0 ≤ v < 2 ^ 32) [tm_tick_rate_hz s; tm_active_orders s];
  so_float : Forall is_float [tm_inference_us s; tm_risk_ns s];
  so_halted : 0 ≤ tm_halted s < 256
}.

Lemma print_unsigned_bound (k : nat) v : (1 ≤ k ≤ 20)%nat → 0 ≤ v < 10 ^ Z.of_nat k → (length (print_unsigned v) ≤ k)%nat.
Proof. intros Hk Hv. by destruct (print_unsigned_spec k v Hk Hv) as (_ & _ & _ & Hl). Qed.

Lemma print_i32_length v : - 2 ^ 31 ≤ v < 2 ^ 31 → (length (print_signed v) ≤ 11)%nat.
Proof.
  intros Hv. unfold print_signed. destruct (Z.ltb_spec v 0); cbn [length].
  - pose proof (print_unsigned_bound 10 (- v) ltac:(lia) ltac:(cbn; lia)). lia.
  - pose proof (print_unsigned_bound 10 v ltac:(lia) ltac:(cbn; lia)). lia.
Qed.

(** The lengths of all the numbers of a snapshot. *)
Lemma snap_lengths s : snap_ok s →
  (length (print_signed (tm_session_pnl s)) ≤ 20 ∧ length (print_signed (tm_gross_exposure s)) ≤ 20 ∧ length (print_signed (tm_fill_count s)) ≤ 11 ∧
   length (print_signed (tm_reject_count s)) ≤ 11 ∧ length (print_unsigned (tm_tick_rate_hz s)) ≤ 10 ∧ length (print_unsigned (tm_active_orders s)) ≤ 10 ∧
   length (print_f3 (tm_inference_us s)) ≤ 44 ∧ length (print_f3 (tm_risk_ns s)) ≤ 44 ∧ length (print_unsigned (tm_halted s)) ≤ 3)%nat.
Proof.
  intros [_ Hl Hi Hu Hf Hh]. repeat match goal with H : Forall _ (_ :: _) |- _ => apply Forall_cons in H as [? H] end.
  split_and!; try (by apply print_signed_bound); try (by apply print_i32_length); try (by apply print_f3_length); apply print_unsigned_bound; (lia || (cbn; lia)).
Qed.

Lemma heartbeat_json_fits sequence s : snap_ok s → Z.of_nat (length (requote (heartbeat_json sequence s))) < 512.
Proof.
  intros Hs. destruct (snap_lengths s Hs) as (H1 & H2 & H3 & H4 & H5 & H6 & H7 & H8 & H9). pose proof (print_unsigned_length sequence). pose proof (print_unsigned_length (tm_timestamp_ns s)).
  unfold requote, heartbeat_json. rewrite length_fmap, !length_app.
  repeat match goal with |- context [length (str ?t)] => let n := eval vm_compute in (length (str t)) in change (length (str t)) with n end. cbn [length]. lia.
Qed.

Lemma snapshot_datagram_fits format sequence s : snap_ok s → is_Some (snapshot_datagram format sequence s).
Proof. intros Hs. destruct format; [|by eexists]. unfold snapshot_datagram. rewrite (proj2 (Z.ltb_lt _ _)) by (by apply heartbeat_json_fits). by eexists. Qed.

(** ** The bridge sends what was published, in order *)

Notation telem_queue := (holds_queue TelemSnapshot_init telem_bits).

(** The datagrams of consecutive snapshots. *)
Fixpoint datagrams (format : TelemetryWireFormat) (sequence : Z) (snaps : list TelemSnapshot) : list Datagram :=
  match snaps with
  | [] => []
  | s :: snaps' => option_list (snapshot_datagram format sequence s) ++ datagrams format (u64 (sequence + 1)) snaps'
  end.

Lemma telem_bits_ok : 0 ≤ telem_bits ≤ 32.
Proof. done. Qed.

(** Looking at the ring's next snapshot and taking it. *)
Lemma peek_pops (r : SPSCRing TelemSnapshot) q : telem_queue r q →
  match q with
  | [] => try_peek telem_bits r (ring_head r) = None
  | s :: q' => ∃ slot, try_peek telem_bits r (ring_head r) = Some slot ∧ read_slot TelemSnapshot_init r slot = s ∧ telem_queue (consume r) q'
  end.
Proof.
  intros Hq. pose proof (pop_spec _ _ telem_bits_ok r q Hq) as Hp. assert (Hsl : is_Some (slots r)) by (destruct Hq as [start Hq]; apply Hq). destruct Hsl as [m Hm].
  unfold try_pop in Hp. unfold try_peek. rewrite Hm. destruct (ring_head r =? ring_tail r); destruct Hp as [Ho Hd]; destruct q as [|s q']; try done.
  eexists. split; [done|]. injection Ho as ->. done.
Qed.

Lemma publish_spec a q s : telem_queue (ta_ring a) q →
  let '(a', ok) := publish_snapshot a s in
  telem_queue (ta_ring a') (if ok then q ++ [s] else q) ∧ ta_drops a' = (if ok then ta_drops a else u64 (ta_drops a + 1)) ∧ (ok = true ↔ Z.of_nat (length q) < 2 ^ 16).
Proof.
  intros Hq. pose proof (claim_write_spec _ _ telem_bits_ok _ q s Hq) as Hc. unfold publish_snapshot. destruct (try_claim _ _ _) as [slot|]; cbn [ta_ring ta_drops].
  - destruct Hc as (Hl & _ & Hn). split_and!; [done|done|]. split; [intros _; apply Hl|done].
  - split_and!; [done|done|]. split; [done|]. rewrite Hc. unfold Capacity, telem_bits. lia.
Qed.

(** How far a bridge has come: sequence number, and the two counters together. *)
Record advanced (g g' : TelemetryBridge) (n : nat) : Prop := mkAdvanced {
  ad_arena : tg_arena g' = tg_arena g;
  ad_cfg : tg_cfg g' = tg_cfg g;
  ad_fd : tg_fd g' = tg_fd g;
  ad_sequence : tg_sequence g' = u64 (tg_sequence g + Z.of_nat n);
  ad_counts : u64 (tg_snapshots_sent g' + tg_send_errors g') = u64 (tg_snapshots_sent g + tg_send_errors g + Z.of_nat n)
}.

Definition is_sequence (n : Z) : Prop := 0 ≤ n < 2 ^ 64.

Lemma sequence_next n k : is_sequence (u64 (n + k)) ∧ u64 (u64 (n + k) + 1) = u64 (n + (k + 1)).
Proof. unfold is_sequence, u64. split; [apply Z.mod_pos_bound; lia|]. rewrite Zplus_mod_idemp_l. f_equal. lia. Qed.

Lemma sequence_same n : is_sequence n → u64 (n + 0) = n.
Proof. intros Hn. unfold u64. rewrite Z.add_0_r. by apply Z.mod_small. Qed.

Lemma datagrams_app format sequence a b : is_sequence sequence →
  datagrams format sequence (a ++ b) = datagrams format sequence a ++ datagrams format (u64 (sequence + Z.of_nat (length a))) b.
Proof.
  revert sequence. induction a as [|s a IH]; intros sequence Hs; cbn [app datagrams length]; [by rewrite sequence_same|]. rewrite IH, <- app_assoc by apply (sequence_next sequence 1).
  do 3 f_equal. unfold u64. rewrite Zplus_mod_idemp_l. f_equal. lia.
Qed.

Lemma advanced_one g s results : is_sequence (tg_sequence g) → snap_ok s → results ≠ [] →
  ∃ g' ok d rest, send_snapshot g s results = Some (g', ok, d, rest) ∧ option_list d = datagrams (bc_format (tg_cfg g)) (tg_sequence g) [s] ∧ (length results = S (length rest)) ∧ advanced g (count_send g' ok) 1.
Proof.
  intros Hs Hok Hr. destruct results as [|rc rest]; [done|]. unfold send_snapshot. cbv zeta. destruct (snapshot_datagram_fits (bc_format (tg_cfg g)) (tg_sequence g) s Hok) as [d Hd].
  rewrite Hd. eexists _, _, _, _. split; [reflexivity|]. split_and!; [cbn [datagrams]; rewrite Hd; by rewrite app_nil_r|done|]. unfold count_send. split; try done; cbn.
  case_cond; unfold u64; rewrite ?Zplus_mod_idemp_l, ?Zplus_mod_idemp_r; f_equal; lia.
Qed.

Lemma advanced_trans g1 g2 g3 n m : advanced g1 g2 n → advanced g2 g3 m → advanced g1 g3 (n + m).
Proof.
  intros [A1 A2 A3 A4 A5] [B1 B2 B3 B4 B5]. split; try congruence.
  - rewrite B4, A4. unfold u64. rewrite Zplus_mod_idemp_l. f_equal. lia.
  - rewrite B5. unfold u64 in *. rewrite <- Zplus_mod_idemp_l, A5, Zplus_mod_idemp_l. f_equal. lia.
Qed.

Lemma advanced_none g : is_sequence (tg_sequence g) → advanced g g 0.
Proof. intros Hs. split; try done; [by rewrite sequence_same|by rewrite Z.add_0_r]. Qed.

Lemma pump_loop_spec fuel g a q sent results out :
  telem_queue (ta_ring a) q → Forall snap_ok q → (length q < fuel)%nat → (length q ≤ length results)%nat → is_sequence (tg_sequence g) →
  ∃ g' a' sent' k, pump_loop fuel g a sent results out = Some (g', a', sent', out ++ datagrams (bc_format (tg_cfg g)) (tg_sequence g) (take k q)) ∧
    (k ≤ length q)%nat ∧ telem_queue (ta_ring a') (drop k q) ∧ ta_drops a' = ta_drops a ∧ advanced g g' k ∧ (k = length q ∨ bc_max_batch (tg_cfg g) ≤ sent').
Proof.
  revert g a q sent results out. induction fuel as [|fuel IH]; intros g a q sent results out Hq Hok Hf Hr Hs; [lia|]. cbn [pump_loop].
  destruct (Z.leb_spec (bc_max_batch (tg_cfg g)) sent).
  { exists g, a, sent, 0%nat. rewrite take_0, app_nil_r. split_and!; try done; [lia|by apply advanced_none|by right]. }
  pose proof (peek_pops _ _ Hq) as Hp. destruct q as [|s q].
  { rewrite Hp. exists g, a, sent, 0%nat. rewrite take_0, app_nil_r. split_and!; try done; [by apply advanced_none|by left]. }
  destruct Hp as (slot & -> & -> & Hq'). apply Forall_cons in Hok as [Hs1 Hok]. cbn [length] in *.
  destruct (advanced_one g s results Hs Hs1) as (g1 & ok & d & rest & Hsend & Hd & Hl & Ha); [by destruct results; cbn in *; [lia|]|]. rewrite Hsend. cbn [mbind option_bind].
  assert (Hs' : is_sequence (tg_sequence (count_send g1 ok))) by (rewrite (ad_sequence _ _ _ Ha); apply (sequence_next _ 1)).
  destruct (IH (count_send g1 ok) (mkTelem (consume (ta_ring a)) (ta_drops a)) q (if ok then u32 (sent + 1) else sent) rest (out ++ option_list d)) as (g' & a' & sent' & k & E & Hk & Hqk & Hdr & Hadv & Hmax);
    [done|done|lia|lia|done|]. exists g', a', sent', (S k). rewrite (ad_cfg _ _ _ Ha) in *. split_and!; [|lia|done|done|by apply (advanced_trans _ _ _ 1 k Ha)|destruct Hmax; [left; lia|by right]].
  rewrite E. do 2 f_equal. rewrite Hd, <- app_assoc. f_equal. cbn [take]. rewrite (ad_sequence _ _ _ Ha). cbn [datagrams]. by rewrite app_nil_r.
Qed.

(** Producers and the bridge's thread, a call at a time. *)
Inductive telem_op := Publish (snapshot : TelemSnapshot) | Pump (results : list Z).

Record TelemRun := mkTelemRun { tr_bridge : TelemetryBridge; tr_arena : TelemArena; tr_accepted : list TelemSnapshot; tr_out : list Datagram }.

Definition telem_do (r : TelemRun) (op : telem_op) : option TelemRun :=
  match op with
  | Publish s => let '(a, ok) := publish_snapshot (tr_arena r) s in Some (mkTelemRun (tr_bridge r) a (if ok then tr_accepted r ++ [s] else tr_accepted r) (tr_out r))
  | Pump results => '(g, a, _, out) ← pump_once (tr_bridge r) (tr_arena r) results; Some (mkTelemRun g a (tr_accepted r) (tr_out r ++ out))
  end.
Fixpoint telem_run (r : TelemRun) (ops : list telem_op) : option TelemRun :=
  match ops with [] => Some r | op :: ops' => r ← telem_do r op; telem_run r ops' end.

Definition published (ops : list telem_op) : list TelemSnapshot := ops ≫= λ op, match op with Publish s => [s] | Pump _ => [] end.
(** Snapshots of the right types, and a result for every send. *)
Definition telem_op_ok (op : telem_op) : Prop := match op with Publish s => snap_ok s | Pump results => (Z.to_nat (2 ^ 16) ≤ length results)%nat end.

Definition bridge_ready (g : TelemetryBridge) : Prop := tg_arena g = true ∧ 0 ≤ tg_fd g ∧ is_sequence (tg_sequence g).

(** [g0] and [drops0] are the bridge and the counter at the start; [pub] is what has been
    published so far, [tried] what was taken out. *)
Record telem_inv (g0 : TelemetryBridge) (drops0 : Z) (pub : list TelemSnapshot) (r : TelemRun) : Prop := mkTelemInv {
  ti_queue : ∃ tried q, tr_accepted r = tried ++ q ∧ telem_queue (ta_ring (tr_arena r)) q ∧ advanced g0 (tr_bridge r) (length tried) ∧
    tr_out r = datagrams (bc_format (tg_cfg g0)) (tg_sequence g0) tried;
  ti_accepted : tr_accepted r `sublist_of` pub;
  ti_ok : Forall snap_ok (tr_accepted r);
  ti_drops : u64 (ta_drops (tr_arena r) + Z.of_nat (length (tr_accepted r))) = u64 (drops0 + Z.of_nat (length pub))
}.

Lemma telem_publish g0 drops0 pub r s : telem_inv g0 drops0 pub r → snap_ok s → ∃ r', telem_do r (Publish s) = Some r' ∧ telem_inv g0 drops0 (pub ++ [s]) r'.
Proof.
  intros [(tried & q & Ha & Hq & Hg & Ho) Hs Hok Hd] Hsn. cbn [telem_do]. pose proof (publish_spec _ _ s Hq) as Hp. destruct (publish_snapshot (tr_arena r) s) as [a ok]. destruct Hp as (Hq' & Hdr & _).
  eexists. split; [done|]. split; cbn [tr_bridge tr_arena tr_accepted tr_out].
  - exists tried, (if ok then q ++ [s] else q). split_and!; try done. destruct ok; rewrite Ha; [by rewrite <- app_assoc|done].
  - destruct ok; [by apply sublist_app|]. by apply sublist_inserts_r.
  - destruct ok; [|done]. apply Forall_app. split; [done|]. by apply Forall_singleton.
  - rewrite Hdr, length_app. cbn [length]. unfold u64 in *. destruct ok; rewrite ?length_app; cbn [length].
    + rewrite !Nat2Z.inj_add, !Z.add_assoc. rewrite <- Zplus_mod_idemp_l, Hd, Zplus_mod_idemp_l. done.
    + rewrite Zplus_mod_idemp_l, Nat2Z.inj_add, Z.add_assoc. rewrite <- (Zplus_mod_idemp_l (drops0 + _)), <- Hd, Zplus_mod_idemp_l. f_equal. lia.
Qed.

Lemma telem_pump g0 drops0 pub r results :
  bridge_ready g0 → telem_inv g0 drops0 pub r → (Z.to_nat (2 ^ 16) ≤ length results)%nat → ∃ r', telem_do r (Pump results) = Some r' ∧ telem_inv g0 drops0 pub r'.
Proof.
  intros (Hga & Hfd & Hseq) [(tried & q & Ha & Hq & Hg & Ho) Hs Hok Hd] Hr. cbn [telem_do]. unfold pump_once. rewrite (ad_arena _ _ _ Hg), Hga, (ad_fd _ _ _ Hg), (proj2 (Z.ltb_ge _ _)) by lia. cbn [negb orb].
  assert (Hlen : Z.of_nat (length q) ≤ 2 ^ 16) by (destruct Hq as [start Hq]; apply (hq_len _ _ _ _ _ Hq)).
  rewrite (size_spec _ _ telem_bits_ok _ _ Hq). rewrite Nat2Z.id. rewrite Ha in Hok. apply Forall_app in Hok as [Hok1 Hok2].
  assert (Hs' : is_sequence (tg_sequence (tr_bridge r))) by (rewrite (ad_sequence _ _ _ Hg); apply sequence_next).
  destruct (pump_loop_spec (S (length q)) (tr_bridge r) (tr_arena r) q 0 results []) as (g' & a' & sent & k & -> & Hk & Hqk & Hdr & Hadv & _); [done|done|lia|lia|done|].
  eexists. split; [done|]. split; cbn [tr_bridge tr_arena tr_accepted tr_out]; [|done|by rewrite Ha; apply Forall_app|by rewrite Hdr].
  exists (tried ++ take k q), (drop k q). rewrite <- app_assoc, take_drop. split_and!; [done|done| |].
  - rewrite length_app, length_take_le by done. by eapply advanced_trans.
  - rewrite datagrams_app, Ho by done. cbn [app]. by rewrite (ad_cfg _ _ _ Hg), (ad_sequence _ _ _ Hg).
Qed.

Lemma telem_run_inv g0 drops0 pub r ops : bridge_ready g0 → telem_inv g0 drops0 pub r → Forall telem_op_ok ops → ∃ r', telem_run r ops = Some r' ∧ telem_inv g0 drops0 (pub ++ published ops) r'.
Proof.
  intros Hg Hi Hops. revert pub r Hi. induction Hops as [|op ops Hop _ IH]; intros pub r Hi; cbn [telem_run]; [exists r; by rewrite app_nil_r|].
  destruct op as [s|results]; cbn [telem_op_ok] in Hop.
  - destruct (telem_publish _ _ _ _ s Hi Hop) as (r1 & -> & Hi1). destruct (IH _ _ Hi1) as (r' & E & Hi'). exists r'. split; [done|]. by rewrite <- app_assoc in Hi'.
  - destruct (telem_pump _ _ _ _ results Hg Hi Hop) as (r1 & -> & Hi1). by apply IH.
Qed.

(** Telemetry loses only what it counts: however publishing and pumping interleave, the
    bridge hands to the socket exactly the snapshots that were accepted, each once, in
    order and numbered consecutively; what is still accepted waits in the ring; and
    the drop counter grew by exactly the number of snapshots refused, the send and error
    counters together by the number taken out. *)
Theorem telemetry_loses_only_what_it_counts g a ops :
  bridge_ready g → telem_queue (ta_ring a) [] → Forall telem_op_ok ops →
  ∃ r tried waiting, telem_run (mkTelemRun g a [] []) ops = Some r ∧ tr_accepted r = tried ++ waiting ∧ telem_queue (ta_ring (tr_arena r)) waiting ∧
    tr_out r = datagrams (bc_format (tg_cfg g)) (tg_sequence g) tried ∧ (length (tr_out r) = length tried) ∧ tr_accepted r `sublist_of` published ops ∧
    u64 (ta_drops (tr_arena r) + Z.of_nat (length (tr_accepted r))) = u64 (ta_drops a + Z.of_nat (length (published ops))) ∧
    u64 (tg_snapshots_sent (tr_bridge r) + tg_send_errors (tr_bridge r)) = u64 (tg_snapshots_sent g + tg_send_errors g + Z.of_nat (length tried)).
Proof.
  intros Hg Hq Hops. destruct (telem_run_inv g (ta_drops a) [] (mkTelemRun g a [] []) ops Hg) as (r & Hrun & [(tried & q & Ha & Hq' & Hadv & Ho) Hs Hok Hd]); [|done|].
  { split; cbn; try done. exists [], []. split_and!; try done. apply advanced_none, Hg. }
  exists r, tried, q. split_and!; try done; [|apply Hadv]. rewrite Ho. rewrite Ha in Hok. apply Forall_app in Hok as [Hok _]. clear Ho Ha Hadv. revert Hok. generalize (tg_sequence g).
  induction tried as [|s tried IH]; intros n Hok; [done|]. apply Forall_cons in Hok as [Hs1 Hok]. cbn [datagrams length]. rewrite length_app, (IH _ Hok).
  destruct (snapshot_datagram_fits (bc_format (tg_cfg g)) n s Hs1) as [d ->]. done.
Qed.

(** A new ring is empty. *)
Lemma new_ring_empty : telem_queue (mkRing 0 0 (Some ∅)) [].
Proof. exists 0%nat. split; try done; by eexists. Qed.

Lemma snapshot_init_ok : snap_ok TelemSnapshot_init.
Proof. split; repeat apply Forall_cons_2; try apply Forall_nil_2; by vm_compute. Qed.

Definition demo_bridge : TelemetryBridge := mkBridge true (mkBridgeConfig (Some (str "127.0.0.1")) 7777 kBinary 256 1000) 5 true true 0 0 0.

Lemma telemetry_loses_only_what_it_counts_witness :
  ∃ r tried waiting, telem_run (mkTelemRun demo_bridge (mkTelem (mkRing 0 0 (Some ∅)) 0) [] []) [Publish TelemSnapshot_init; Pump (replicate (Z.to_nat (2 ^ 16)) 192)] = Some r ∧
    tr_accepted r = tried ++ waiting ∧ tr_out r = datagrams kBinary 0 tried.
Proof.
  destruct (telemetry_loses_only_what_it_counts demo_bridge (mkTelem (mkRing 0 0 (Some ∅)) 0) [Publish TelemSnapshot_init; Pump (replicate (Z.to_nat (2 ^ 16)) 192)]) as (r & tried & waiting & Hr & Ha & _ & Ho & _).
  - split; [reflexivity|]. split; [by vm_compute|]. by split.
  - exact new_ring_empty.
  - apply Forall_cons_2; [exact snapshot_init_ok|]. apply Forall_cons_2; [|apply Forall_nil_2]. unfold telem_op_ok. rewrite length_replicate. apply le_n.
  - exists r, tried, waiting. split; [exact Hr|]. split; [exact Ha|exact Ho].
Defined.

(** * What a batch reports

    The counters and percentiles that [flush] writes, as functions of what was recorded. *)

(** ** Percentiles *)

Lemma sorted_latencies l : StronglySorted (≤) (sort_latencies l) ∧ sort_latencies l ≡ₚ l.
Proof. split; [apply (StronglySorted_merge_sort (≤))|apply merge_sort_Permutation]. Qed.

Lemma count_if_app {A} (p : A → bool) l k : count_if p (l ++ k) = count_if p l + count_if p k.
Proof. unfold count_if. induction l as [|x l IH]; cbn; [done|]. rewrite IH. lia. Qed.

Lemma count_if_perm {A} (p : A → bool) l k : l ≡ₚ k → count_if p l = count_if p k.
Proof. unfold count_if. induction 1; cbn; lia. Qed.

Lemma count_if_none {A} (p : A → bool) l : Forall (λ x, p x = false) l → count_if p l = 0.
Proof. unfold count_if. induction 1 as [|x l Hx _ IH]; cbn; [done|]. by rewrite Hx. Qed.

(** The entries of a sorted list around one of them. *)
Lemma sorted_counts l i v : StronglySorted (≤) l → l !! i = Some v → Z.of_nat i + 1 ≤ count_if (λ x, x <=? v) l ∧ count_if (λ x, x <? v) l ≤ Z.of_nat i.
Proof.
  intros Hs Hi. rewrite <- (take_drop_middle l i v Hi) in Hs |- *. pose proof (lookup_lt_Some _ _ _ Hi) as Hlt. set (a := take i l) in *. set (b := drop (S i) l) in *.
  assert (Hl : length a = i) by (unfold a; rewrite length_take; lia). apply StronglySorted_app in Hs as (Hab & _ & Hb). apply StronglySorted_cons in Hb as [Hb _]. rewrite !count_if_app. split.
  - rewrite (count_if_full _ a). { change (count_if _ (v :: b)) with ((if v <=? v then 1 else 0) + count_if (λ x, x <=? v) b). rewrite Z.leb_refl. pose proof (count_if_bounds (λ x, x <=? v) b). lia. }
    apply Forall_forall. intros x Hx. apply Z.leb_le, Hab; [done|]. by left.
  - rewrite (count_if_none _ (v :: b)). { pose proof (count_if_bounds (λ x, x <? v) a). lia. }
    apply Forall_cons. split; [apply Z.ltb_irrefl|]. eapply Forall_impl; [exact Hb|]. intros x Hx. cbn in *. apply Z.ltb_ge. lia.
Qed.

(** Below a rank of 1000 the index is the nearest rank, of a hundred, cut at the last
    entry. *)
Lemma percentile_index l rank : l ≠ [] → Z.of_nat (length l) ≤ MaxLatencies → 0 < rank < 1000 →
  ∃ v, percentile l rank = v ∧ l !! Z.to_nat (((Z.of_nat (length l) * rank + 99) / 100 - 1) `min` (Z.of_nat (length l) - 1)) = Some v.
Proof.
  intros Hne Hl Hr. assert (Hpos : 0 < Z.of_nat (length l)) by (destruct l; [done|cbn; lia]). unfold percentile, MaxLatencies in *. rewrite (proj2 (Z.eqb_neq _ _)), (proj2 (Z.leb_gt 1000 _)) by lia. cbv zeta.
  replace (Z.of_nat (length l) * rank + 100 - 1) with (Z.of_nat (length l) * rank + 99) by lia. unfold u64. rewrite Z.mod_small by nia.
  set (k := (Z.of_nat (length l) * rank + 99) / 100). assert (1 ≤ k) by (unfold k; apply Z.div_le_lower_bound; nia). rewrite (proj2 (Z.eqb_neq k 0)) by lia.
  destruct (lookup_lt_is_Some_2 l (Z.to_nat ((k - 1) `min` (Z.of_nat (length l) - 1)))) as [v Hv]; [lia|]. exists v. by rewrite Hv.
Qed.

(** The median and the 99th percentile are nearest ranks: at least that share of the
    recorded latencies is no larger, and less than that share is smaller. *)
Theorem percentile_nearest_rank l rank : l ≠ [] → Z.of_nat (length l) ≤ MaxLatencies → 0 < rank ≤ 100 →
  let v := percentile (sort_latencies l) rank in
  v ∈ l ∧ rank * Z.of_nat (length l) ≤ 100 * count_if (λ x, x <=? v) l ∧ 100 * count_if (λ x, x <? v) l < rank * Z.of_nat (length l).
Proof.
  intros Hne Hl Hr. cbv zeta. destruct (sorted_latencies l) as [Hs Hp]. set (s := sort_latencies l) in *. assert (Hlen : length s = length l) by (by rewrite Hp).
  assert (Hpos : 0 < Z.of_nat (length s)) by (rewrite Hlen; destruct l; [done|cbn; lia]).
  destruct (percentile_index s rank) as (v & Hv & Hi); [by destruct s|lia|lia|]. rewrite Hv. rewrite Z.min_l in Hi by (apply Z.sub_le_mono_r, Z.lt_succ_r, Z.div_lt_upper_bound; nia).
  destruct (sorted_counts s _ v Hs Hi) as [H1 H2]. rewrite (count_if_perm _ _ _ Hp) in H1. rewrite (count_if_perm _ _ _ Hp) in H2. split; [rewrite <- Hp; by eapply list_elem_of_lookup_2|].
  rewrite <- Hlen. assert (1 ≤ (Z.of_nat (length s) * rank + 99) / 100) by (apply Z.div_le_lower_bound; nia).
  pose proof (Z.div_mod (Z.of_nat (length s) * rank + 99) 100 ltac:(lia)). pose proof (Z.mod_pos_bound (Z.of_nat (length s) * rank + 99) 100 ltac:(lia)). lia.
Qed.

(** [percentile(999)] divides by a hundred, not a thousand: the reported 99.9th
    percentile is always the maximum. *)
Theorem p999_is_the_maximum l : l ≠ [] → Z.of_nat (length l) ≤ MaxLatencies → percentile (sort_latencies l) 999 ∈ l ∧ Forall (λ x, x ≤ percentile (sort_latencies l) 999) l.
Proof.
  intros Hne Hl. destruct (sorted_latencies l) as [Hs Hp]. set (s := sort_latencies l) in *. assert (Hlen : length s = length l) by (by rewrite Hp).
  assert (Hpos : 0 < Z.of_nat (length s)) by (rewrite Hlen; destruct l; [done|cbn; lia]).
  destruct (percentile_index s 999) as (v & Hv & Hi); [by destruct s|lia|lia|]. rewrite Hv. rewrite Z.min_r in Hi by (apply Z.sub_le_mono_r, Z.div_le_lower_bound; lia).
  split; [rewrite <- Hp; by eapply list_elem_of_lookup_2|]. rewrite <- Hp. apply Forall_forall. intros x Hx. apply list_elem_of_lookup in Hx as [j Hj].
  destruct (sorted_counts s _ v Hs Hi) as [H1 _]. destruct (Z.le_gt_cases x v) as [|Hgt]; [done|]. exfalso. pose proof (count_if_insert (λ y, y <=? v) s j x v Hj) as Hins.
  cbn in Hins. rewrite (proj2 (Z.leb_gt x v)), Z.leb_refl in Hins by lia. pose proof (count_if_bounds (λ y, y <=? v) (<[j := v]> s)) as Hb. rewrite length_insert in Hb. lia.
Qed.

(** ** Counters *)

Inductive collect_op :=
  | OrderSent | OrderCheck (approved : bool) | Ack | FillOf (notional : Z) | Cancellation | SetPosition (position : Z) | Latency (latency_ns : Z).

Definition collect_do (c : TelemetryBatchCollector) (op : collect_op) : option TelemetryBatchCollector :=
  match op with
  | OrderSent => Some (record_order_sent c)
  | OrderCheck approved => Some (record_order_check c approved)
  | Ack => Some (record_ack c)
  | FillOf notional => record_fill c notional
  | Cancellation => Some (record_cancellation c)
  | SetPosition position => Some (set_position c position)
  | Latency ns => Some (record_latency c ns)
  end.
Definition collect_run (c : TelemetryBatchCollector) (ops : list collect_op) : option TelemetryBatchCollector := foldl (λ c op, c ← c; collect_do c op) (Some c) ops.

Definition is_sent (op : collect_op) : bool := match op with OrderSent => true | _ => false end.
Definition is_approved (op : collect_op) : bool := match op with OrderCheck b => b | _ => false end.
Definition is_rejected (op : collect_op) : bool := match op with OrderCheck b => negb b | _ => false end.
Definition is_acked (op : collect_op) : bool := match op with Ack => true | _ => false end.
Definition is_filled (op : collect_op) : bool := match op with FillOf _ => true | _ => false end.
Definition is_cancelled (op : collect_op) : bool := match op with Cancellation => true | _ => false end.
Definition notional_sum (ops : list collect_op) : Z := foldr (λ op z, match op with FillOf n => n | _ => 0 end + z) 0 ops.
Definition notional_weight (ops : list collect_op) : Z := foldr (λ op z, match op with FillOf n => Z.abs n | _ => 0 end + z) 0 ops.
Definition latencies_of (ops : list collect_op) : list Z := ops ≫= λ op, match op with Latency ns => [ns] | _ => [] end.

(** What a collector holds after [ops], from totals [fills] and [rejections]. *)
Record collected (fills rejections : Z) (ops : list collect_op) (c : TelemetryBatchCollector) : Prop := mkCollected {
  cl_sent : tb_orders_sent (tc_batch c) = u32 (count_if is_sent ops);
  cl_approved : tb_orders_approved (tc_batch c) = u32 (count_if is_approved ops);
  cl_rejected : tb_orders_rejected (tc_batch c) = u32 (count_if is_rejected ops);
  cl_acked : tb_orders_acked (tc_batch c) = u32 (count_if is_acked ops);
  cl_filled : tb_orders_filled (tc_batch c) = u32 (count_if is_filled ops);
  cl_canceled : tb_orders_canceled (tc_batch c) = u32 (count_if is_cancelled ops);
  cl_notional : tb_notional (tc_batch c) = notional_sum ops;
  cl_latencies : tc_latencies c = take (Z.to_nat MaxLatencies) (latencies_of ops);
  cl_fills_total : u64 (tc_fills_total c) = u64 (fills + count_if is_filled ops);
  cl_rejections_total : u64 (tc_rejections_total c) = u64 (rejections + count_if is_rejected ops)
}.

Lemma collect_run_snoc c ops op : collect_run c (ops ++ [op]) = (c ← collect_run c ops; collect_do c op).
Proof. unfold collect_run. by rewrite foldl_app. Qed.

Lemma count_snoc {A} (p : A → bool) l x : count_if p (l ++ [x]) = count_if p l + (if p x then 1 else 0).
Proof. rewrite count_if_app. unfold count_if at 2. cbn. lia. Qed.

Lemma notional_snoc ops op : notional_sum (ops ++ [op]) = notional_sum ops + match op with FillOf n => n | _ => 0 end.
Proof. unfold notional_sum. rewrite foldr_app. cbn. induction ops as [|x ops IH]; cbn; lia. Qed.

Lemma notional_bounded ops : Z.abs (notional_sum ops) ≤ notional_weight ops.
Proof. unfold notional_sum, notional_weight. induction ops as [|x ops IH]; cbn; [lia|]. destruct x; lia. Qed.

Lemma weight_snoc ops op : notional_weight (ops ++ [op]) = notional_weight ops + match op with FillOf n => Z.abs n | _ => 0 end.
Proof. unfold notional_weight. rewrite foldr_app. cbn. induction ops as [|x ops IH]; cbn; lia. Qed.

Lemma latencies_snoc ops op : latencies_of (ops ++ [op]) = latencies_of ops ++ match op with Latency ns => [ns] | _ => [] end.
Proof. unfold latencies_of. rewrite bind_app, bind_singleton. done. Qed.

Lemma take_snoc (n : nat) (l : list Z) x : take n (l ++ [x]) = if bool_decide (length (take n l) < n)%nat then take n l ++ [x] else take n l.
Proof.
  rewrite length_take. case_bool_decide as Hlt.
  - rewrite !take_ge by (rewrite ?length_app; cbn; lia). done.
  - rewrite take_app_le by lia. done.
Qed.

Lemma u32_add a b : u32 (u32 a + b) = u32 (a + b).
Proof. unfold u32. apply Zplus_mod_idemp_l. Qed.

Lemma u32_same a : u32 (u32 a + 0) = u32 a.
Proof. by rewrite u32_add, Z.add_0_r. Qed.

(** Carry a total over one more event. *)
Lemma total_step t base n k : u64 t = u64 (base + n) → u64 (u64 (t + k)) = u64 (base + (n + k)).
Proof. unfold u64. intros H. rewrite Z.mod_mod by lia. rewrite <- Zplus_mod_idemp_l, H, Zplus_mod_idemp_l. f_equal. lia. Qed.

Lemma collected_new : collected 0 0 [] TelemetryBatchCollector_new.
Proof. by split. Qed.

Lemma collect_step fills rejections ops c op : collected fills rejections ops c → notional_weight (ops ++ [op]) ≤ INT64_MAX → ∃ c', collect_do c op = Some c' ∧ collected fills rejections (ops ++ [op]) c'.
Proof.
  intros [H1 H2 H3 H4 H5 H6 H7 H8 H9 H10] Hw.
  assert (Hn : chk64 (notional_sum (ops ++ [op])) = Some (notional_sum (ops ++ [op]))) by (apply chk64_ok; pose proof (notional_bounded (ops ++ [op])); unfold INT64_MIN, INT64_MAX in *; lia).
  rewrite notional_snoc in Hn. destruct op as [|[]| |n| |p|ns]; cbn [collect_do].
  8: { unfold record_latency. rewrite H8. pose proof (take_snoc (Z.to_nat MaxLatencies) (latencies_of ops) ns) as Ht. eexists. split; [reflexivity|].
    destruct (Z.ltb_spec (Z.of_nat (length (take (Z.to_nat MaxLatencies) (latencies_of ops)))) MaxLatencies).
    - rewrite bool_decide_eq_true_2 in Ht by lia. split; cbn; rewrite ?count_snoc, ?notional_snoc, ?latencies_snoc; cbn [is_sent is_approved is_rejected is_acked is_filled is_cancelled]; rewrite ?Z.add_0_r; done.
    - rewrite bool_decide_eq_false_2 in Ht by lia. split; cbn; rewrite ?count_snoc, ?notional_snoc, ?latencies_snoc; cbn [is_sent is_approved is_rejected is_acked is_filled is_cancelled]; rewrite ?Z.add_0_r; done. }
  all: unfold record_order_sent, record_order_check, record_ack, record_fill, record_cancellation, set_position, with_batch, batch_counts.
  all: cbn [tb_notional]; rewrite ?H7, ?Hn; cbn [mbind option_bind]; eexists; (split; [reflexivity|]).
  all: split; cbn; rewrite ?count_snoc, ?notional_snoc, ?latencies_snoc; cbn [is_sent is_approved is_rejected is_acked is_filled is_cancelled negb];
    rewrite ?H1, ?H2, ?H3, ?H4, ?H5, ?H6, ?H7, ?H8, ?u32_add, ?Z.add_0_r, ?app_nil_r; try done; try (by apply total_step).
Qed.

Lemma collect_all fills rejections c ops : collected fills rejections [] c → notional_weight ops ≤ INT64_MAX → ∃ c', collect_run c ops = Some c' ∧ collected fills rejections ops c'.
Proof.
  intros Hc. induction ops as [|op ops IH] using rev_ind; intros Hw; [by exists c|]. destruct IH as (c1 & Hrun & Hc1); [rewrite weight_snoc in Hw; destruct op; lia|].
  rewrite collect_run_snoc, Hrun. cbn [mbind option_bind]. by apply collect_step.
Qed.

(** A batch reports exactly what was recorded since the last one: the counters modulo
    their width, the notional, the orders neither filled nor cancelled, the latencies'
    percentiles; the totals carry over every batch; and the next batch starts empty.
    When the ring is full nothing is lost but the counted drop. *)
Theorem flush_reports_the_batch fills rejections c ops a q now_ns :
  collected fills rejections [] c → notional_weight ops ≤ INT64_MAX → telem_queue (ta_ring a) q →
  ∃ c1, collect_run c ops = Some c1 ∧
    let '(c2, a2, ok) := collector_flush c1 a now_ns in
    if ok then
      ∃ s, telem_queue (ta_ring a2) (q ++ [s]) ∧ collected (fills + count_if is_filled ops) (rejections + count_if is_rejected ops) [] c2 ∧
        tm_timestamp_ns s = now_ns ∧ tm_session_pnl s = notional_sum ops ∧ tm_fill_count s = i32 (count_if is_filled ops) ∧ tm_reject_count s = i32 (count_if is_rejected ops) ∧
        tm_active_orders s = 0 `max` (u32 (count_if is_approved ops) - u32 (count_if is_filled ops + count_if is_cancelled ops)) ∧
        u64 (tm_fills_total s) = u64 (fills + count_if is_filled ops) ∧ u64 (tm_rejections_total s) = u64 (rejections + count_if is_rejected ops) ∧
        let latencies := take (Z.to_nat MaxLatencies) (latencies_of ops) in
        tm_inference_us s = float_div (float_of (percentile (sort_latencies latencies) 50)) (float_of 1000) ∧
        tm_risk_ns s = float_div (float_of (percentile (sort_latencies latencies) 99)) (float_of 1000)
    else c2 = c1 ∧ telem_queue (ta_ring a2) q ∧ ta_drops a2 = u64 (ta_drops a + 1) ∧ Z.of_nat (length q) = 2 ^ 16.
Proof.
  intros Hc Hw Hq. destruct (collect_all fills rejections c ops Hc Hw) as (c1 & Hrun & Hc1). exists c1. split; [done|]. unfold collector_flush.
  set (s := flush_snapshot c1 _). pose proof (claim_write_spec _ _ telem_bits_ok _ q s Hq) as Hcl. destruct (try_claim _ _ _) as [slot|]; [|by split_and!].
  destruct Hcl as (_ & _ & Hq'). exists s. destruct Hc1 as [H1 H2 H3 H4 H5 H6 H7 H8 H9 H10]. split_and!; [done| |done|by rewrite <- H7| | | |done|done| |].
  - split; try done; cbn; by rewrite ?Z.add_0_r.
  - subst s. cbn. rewrite H5. unfold i32, u32. by rewrite Z.mod_mod by lia.
  - subst s. cbn. rewrite H3. unfold i32, u32. by rewrite Z.mod_mod by lia.
  - subst s. cbn. rewrite H2, H5, H6. replace (u32 (u32 (count_if is_filled ops) + u32 (count_if is_cancelled ops))) with (u32 (count_if is_filled ops + count_if is_cancelled ops)) by (unfold u32; by rewrite Zplus_mod).
    case_match; lia.
  - subst s. cbn. by rewrite H8.
  - subst s. cbn. by rewrite H8.
Qed.
