(* ===== verification/Metrics.v ===== *)
(** * Metrics: the Prometheus exporter and its HTTP server (src/luv_telemetry.hpp,
    PrometheusMetricsExporter, MetricsHttpServer)

    The exposition text, the request and credential checks, and the single worker that
    answers one client at a time.  A request is the list of the bytes received.  The
    results of system calls are events; [None] is a run with fewer events than system
    calls, or an event the call cannot return. *)

From S2P Require Import Prelude Arena Ring HttpText Printf Telemetry.
From Stdlib Require Import ZArith Lia String.
From stdpp Require Import base tactics gmap numbers option list.
Open Scope Z_scope.

(** ** PrometheusMetricsExporter *)

Definition kMaxRenderedBytes : Z := 4096.

(** The three lines of a metric. *)
Definition metric (name help kind : string) (value : list Z) : list Z :=
  str "# HELP " ++ str name ++ str " " ++ str help ++ [10] ++ str "# TYPE " ++ str name ++ str " " ++ str kind ++ [10] ++ str name ++ str " " ++ value ++ [10].

Definition render_text (snap : TelemSnapshot) (telemetry_queue_depth telemetry_dropped : Z) : list Z :=
  metric "luv_execution_session_pnl" "Session PnL in fixed-point units" "gauge" (print_signed (tm_session_pnl snap)) ++
  metric "luv_execution_gross_exposure" "Gross exposure in fixed-point units" "gauge" (print_signed (tm_gross_exposure snap)) ++
  metric "luv_execution_fills_observed" "Fills in the most recent telemetry observation" "gauge" (print_signed (tm_fill_count snap)) ++
  metric "luv_execution_rejections_observed" "Rejections in the most recent telemetry observation" "gauge" (print_signed (tm_reject_count snap)) ++
  metric "luv_execution_fills_total" "Cumulative reconciled execution fill reports" "counter" (print_unsigned (tm_fills_total snap)) ++
  metric "luv_execution_rejections_total" "Cumulative execution rejections" "counter" (print_unsigned (tm_rejections_total snap)) ++
  metric "luv_websocket_fill_notification_drops_total" "Fill notifications dropped because the bounded WebSocket SPSC queue was full" "counter" (print_unsigned (tm_websocket_drops_total snap)) ++
  metric "luv_execution_tick_rate_hz" "Tick processing rate in hertz" "gauge" (print_unsigned (tm_tick_rate_hz snap)) ++
  metric "luv_execution_active_orders" "Active order count" "gauge" (print_unsigned (tm_active_orders snap)) ++
  metric "luv_execution_halted" "Execution halt state; 1 means halted" "gauge" (print_unsigned (Z.b2z (negb (tm_halted snap =? 0)))) ++
  metric "luv_execution_inference_latency_microseconds" "Last inference latency" "gauge" (print_f3 (tm_inference_us snap)) ++
  metric "luv_execution_risk_check_latency_nanoseconds" "Last risk check latency" "gauge" (print_f3 (tm_risk_ns snap)) ++
  metric "luv_session_pnl" "Deprecated alias for luv_execution_session_pnl" "gauge" (print_signed (tm_session_pnl snap)) ++
  metric "luv_gross_exposure" "Deprecated alias for luv_execution_gross_exposure" "gauge" (print_signed (tm_gross_exposure snap)) ++
  metric "luv_fill_count" "Deprecated observation gauge, not a cumulative counter" "gauge" (print_signed (tm_fill_count snap)) ++
  metric "luv_reject_count" "Deprecated observation gauge, not a cumulative counter" "gauge" (print_signed (tm_reject_count snap)) ++
  metric "luv_tick_rate_hz" "Deprecated alias for luv_execution_tick_rate_hz" "gauge" (print_unsigned (tm_tick_rate_hz snap)) ++
  metric "luv_active_orders" "Deprecated alias for luv_execution_active_orders" "gauge" (print_unsigned (tm_active_orders snap)) ++
  metric "luv_inference_us" "Deprecated alias for inference latency" "gauge" (print_f3 (tm_inference_us snap)) ++
  metric "luv_risk_ns" "Deprecated alias for risk check latency" "gauge" (print_f3 (tm_risk_ns snap)) ++
  metric "luv_telemetry_queue_depth" "Pending telemetry snapshots" "gauge" (print_unsigned telemetry_queue_depth) ++
  metric "luv_telemetry_dropped_snapshots_total" "Snapshots dropped because the SPSC ring was full" "counter" (print_unsigned telemetry_dropped).

(** The text in the buffer, or nothing when 0 is returned. *)
Definition render_into (out : bool) (capacity : Z) (snap : TelemSnapshot) (telemetry_queue_depth telemetry_dropped : Z) : option (list Z) :=
  if negb out || (capacity =? 0) then None else
  let text := render_text snap telemetry_queue_depth telemetry_dropped in
  if capacity <=? Z.of_nat (length text) then None else Some text.

(** [allocated] says whether the string could be allocated. *)
Definition render (snap : TelemSnapshot) (allocated : bool) : list Z :=
  match render_into true kMaxRenderedBytes snap 0 0 with Some text => if allocated then text else [] | None => [] end.

(** ** Requests *)

Inductive RequestKind := kInvalid | kMetrics | kHealth.

Definition metrics_token_max : Z := 256.
Definition kRequestBytes : Z := 2048.
Definition kMaxSnapshotsPerLoop : Z := 1024.

Definition header_complete (data : list Z) : bool := match strpos (crlf ++ crlf) data with Some _ => true | None => false end.

Definition classify_request (request : list Z) : RequestKind :=
  match strpos crlf request with
  | None => kInvalid
  | Some line_end =>
      if bool_decide (take line_end request = str "GET /metrics HTTP/1.1") then kMetrics
      else if bool_decide (take line_end request = str "GET /healthz HTTP/1.1") then kHealth
      else kInvalid
  end.

Definition byte_at (text : list Z) (i : nat) : Z := if (i <? length text)%nat then default 0 (text !! i) else 0.

(** All 256 positions are compared, whatever the first difference. *)
Definition constant_time_token_equal (expected token : list Z) : bool :=
  foldl (λ difference i, Z.lor difference (Z.lxor (byte_at token i) (byte_at expected i)))
    (Z.b2z (negb (Z.of_nat (length token) =? Z.of_nat (length expected)))) (seq 0 (Z.to_nat metrics_token_max)) =? 0.

(** The value behind the colon of an [Authorization] line. *)
Definition bearer_line (expected line : list Z) : bool :=
  let value := skip_while blank line in
  if (length value <? 7)%nat || negb (ascii_equal (take 6 value) (str "Bearer")) || negb (byte_at value 6 =? 32) then false
  else constant_time_token_equal expected (trim_end blank (drop 7 value)).

(** The lines behind the request line; the outer [None] is out of fuel. *)
Fixpoint bearer_lines (fuel : nat) (expected text : list Z) : option bool :=
  match fuel with
  | O => None
  | S fuel' =>
      match strpos crlf text with
      | None | Some O => Some false
      | Some len =>
          let line := take len text in
          let name := take_while (λ c, negb (c =? 58)) line in
          if (length name <? length line)%nat && ascii_equal name (str "Authorization") then Some (bearer_line expected (drop (S (length name)) line))
          else bearer_lines fuel' expected (drop (len + 2) text)
      end
  end.

Definition has_valid_bearer (expected request : list Z) : option bool :=
  match strpos crlf request with
  | None => Some false
  | Some line_start => bearer_lines (S (length request)) expected (drop (line_start + 2) request)
  end.

(** ** MetricsHttpServer *)

(** [ms_thread] says that [_thread] is joinable; [ms_token] is the stored token, its
    length [_token_size]. *)
Record MetricsHttpServer := mkMetrics {
  ms_requested_port : Z;
  ms_bound_port : Z;
  ms_bound_address : Z;
  ms_fd : Z;
  ms_running : bool;
  ms_thread : bool;
  ms_arena : bool;
  ms_snapshot : TelemSnapshot;
  ms_token : list Z
}.
Definition MetricsHttpServer_new (port : Z) : MetricsHttpServer := mkMetrics port 0 0 (-1) false false false TelemSnapshot_init [].

Definition with_fd (m : MetricsHttpServer) (fd : Z) : MetricsHttpServer :=
  mkMetrics (ms_requested_port m) (ms_bound_port m) (ms_bound_address m) fd (ms_running m) (ms_thread m) (ms_arena m) (ms_snapshot m) (ms_token m).
Definition with_token (m : MetricsHttpServer) (token : list Z) : MetricsHttpServer :=
  mkMetrics (ms_requested_port m) (ms_bound_port m) (ms_bound_address m) (ms_fd m) (ms_running m) (ms_thread m) (ms_arena m) (ms_snapshot m) token.
Definition with_snapshot (m : MetricsHttpServer) (s : TelemSnapshot) : MetricsHttpServer :=
  mkMetrics (ms_requested_port m) (ms_bound_port m) (ms_bound_address m) (ms_fd m) (ms_running m) (ms_thread m) (ms_arena m) s (ms_token m).

(** The characters of a C string before its terminator. *)
Definition copy_token (m : MetricsHttpServer) (bearer_token : option (list Z)) : MetricsHttpServer * bool :=
  match bearer_token with
  | None => (m, false)
  | Some token =>
      let size := Z.of_nat (length token) `min` (metrics_token_max + 1) in
      if (size =? 0) || (metrics_token_max <? size) then (m, false) else (with_token m token, true)
  end.

Definition close_listener (m : MetricsHttpServer) : MetricsHttpServer * list Z :=
  if 0 <=? ms_fd m then (with_fd m (-1), [ms_fd m]) else (m, []).

(** The outcomes of the calls of [start], in their order. *)
Record StartEnv := mkStart {
  se_initialised : bool;
  se_socket : Z;
  se_nonblocking : bool;
  se_bind : bool;
  se_listen : bool;
  se_getsockname : option (Z * Z);
  se_thread : bool
}.

Definition metrics_start (m : MetricsHttpServer) (initial : TelemSnapshot) (bearer_token : option (list Z)) (env : StartEnv) : MetricsHttpServer * bool * list Z :=
  if negb (se_initialised env) || ms_running m || (0 <=? ms_fd m) then (m, false, []) else
  let '(m, copied) := copy_token m bearer_token in
  if negb copied then (m, false, []) else
  let m := with_fd m (se_socket env) in
  if ms_fd m <? 0 then (m, false, []) else
  if negb (se_nonblocking env) then let '(m, closed) := close_listener m in (m, false, closed) else
  if negb (se_bind env) || negb (se_listen env) then let '(m, closed) := close_listener m in (m, false, closed) else
  match se_getsockname env with
  | None => let '(m, closed) := close_listener m in (m, false, closed)
  | Some (port, address) =>
      let m := mkMetrics (ms_requested_port m) port address (ms_fd m) true true true initial (ms_token m) in
      if se_thread env then (m, true, []) else
      let m := mkMetrics (ms_requested_port m) port address (ms_fd m) false false false initial (ms_token m) in
      let '(m, closed) := close_listener m in (m, false, closed)
  end.

Definition metrics_stop (m : MetricsHttpServer) : MetricsHttpServer * list Z :=
  if negb (ms_running m) then (m, []) else
  let '(m, closed) := close_listener (mkMetrics (ms_requested_port m) (ms_bound_port m) (ms_bound_address m) (ms_fd m) false false (ms_arena m) (ms_snapshot m) (ms_token m)) in
  (mkMetrics (ms_requested_port m) (ms_bound_port m) (ms_bound_address m) (ms_fd m) false false false (ms_snapshot m) (ms_token m), closed).

Fixpoint drain_loop (n : nat) (m : MetricsHttpServer) (a : TelemArena) : MetricsHttpServer * TelemArena :=
  match n with
  | O => (m, a)
  | S n' =>
      match try_peek telem_bits (ta_ring a) (ring_head (ta_ring a)) with
      | None => (m, a)
      | Some slot => drain_loop n' (with_snapshot m (read_slot TelemSnapshot_init (ta_ring a) slot)) (mkTelem (consume (ta_ring a)) (ta_drops a))
      end
  end.
Definition drain_snapshots (m : MetricsHttpServer) (a : TelemArena) : MetricsHttpServer * TelemArena :=
  if ms_arena m then drain_loop (Z.to_nat kMaxSnapshotsPerLoop) m a else (m, a).

(** *** One client *)

(** What [recv] does: data, the end of the stream, an error, or nothing yet, and then how
    the wait in [poll] ends: the time left, its result, and whether an error bit is set. *)
Inductive recv_event := Received (data : list Z) | EndOfStream | RecvError | WouldBlock (remaining_ms ready : Z) (bad : bool).

Fixpoint receive_headers (capacity : Z) (out : list Z) (events : list recv_event) : option (list Z * bool) :=
  if capacity <=? Z.of_nat (length out) then Some (out, false) else
  match events with
  | [] => None
  | Received data :: events' =>
      if bool_decide (data = []) || (capacity - Z.of_nat (length out) <? Z.of_nat (length data)) then None else
      let out := out ++ data in
      if header_complete out then Some (out, true) else receive_headers capacity out events'
  | EndOfStream :: _ | RecvError :: _ => Some (out, false)
  | WouldBlock remaining_ms ready bad :: events' =>
      if remaining_ms <=? 0 then Some (out, false) else
      if (ready <=? 0) || bad then Some (out, false) else receive_headers capacity out events'
  end.

(** What [send] does, as above; [NotSent] is a return of zero or another error. *)
Inductive send_event := SentBytes (n : Z) | Interrupted | NotSent | SendWouldBlock (remaining_ms ready : Z) (bad : bool).

(** The bytes sent, whether all were, and the events left. *)
Fixpoint send_all (data : list Z) (events : list send_event) : option (list Z * bool * list send_event) :=
  match data with
  | [] => Some ([], true, events)
  | _ =>
      match events with
      | [] => None
      | SentBytes n :: events' =>
          if (n <=? 0) || (Z.of_nat (length data) <? n) then None else
          '(sent, ok, events) ← send_all (drop (Z.to_nat n) data) events';
          Some (take (Z.to_nat n) data ++ sent, ok, events)
      | Interrupted :: events' => send_all data events'
      | NotSent :: events' => Some ([], false, events')
      | SendWouldBlock remaining_ms ready bad :: events' =>
          let slice := if remaining_ms <? 10 then remaining_ms else 10 in
          if (slice <=? 0) || (ready <=? 0) || bad then Some ([], false, events') else send_all data events'
      end
  end.

Record MetricsResponse := mkResponse { rp_status : list Z; rp_content_type : list Z; rp_extra : list Z; rp_body : list Z }.

Definition response_lines (r : MetricsResponse) : list Z :=
  str "HTTP/1.1 " ++ rp_status r ++ crlf ++ str "Content-Type: " ++ rp_content_type r ++ crlf ++ rp_extra r ++
  str "Content-Length: " ++ print_unsigned (Z.of_nat (length (rp_body r))) ++ crlf ++ str "Connection: close" ++ crlf ++ crlf.

(** The bytes that reach the client. *)
Definition metrics_send_response (r : MetricsResponse) (events : list send_event) : option (list Z) :=
  let head := response_lines r in
  if 256 <=? Z.of_nat (length head) then Some [] else
  '(sent, ok, events) ← send_all head events;
  if negb ok then Some sent else
  '(body, _, _) ← send_all (rp_body r) events;
  Some (sent ++ body).

Definition plain_type : list Z := str "text/plain; charset=utf-8".
Definition realm : list Z := requote (str "WWW-Authenticate: Bearer realm='metrics'") ++ crlf.

(** The answer to a complete request. *)
Definition answer (m : MetricsHttpServer) (a : TelemArena) (request : list Z) : option (MetricsHttpServer * TelemArena * MetricsResponse) :=
  match classify_request request with
  | kHealth => Some (m, a, mkResponse (str "200 OK") plain_type [] (str "ok" ++ [10]))
  | kMetrics =>
      valid ← has_valid_bearer (ms_token m) request;
      if negb (valid : bool) then Some (m, a, mkResponse (str "401 Unauthorized") plain_type realm (str "Unauthorized" ++ [10])) else
      let '(m, a) := drain_snapshots m a in
      let queue_depth := if ms_arena m then ring_size (ta_ring a) else 0 in
      let dropped := if ms_arena m then ta_drops a else 0 in
      match render_into true kMaxRenderedBytes (ms_snapshot m) queue_depth dropped with
      | None => Some (m, a, mkResponse (str "500 Internal Server Error") plain_type [] (str "Metrics rendering failed" ++ [10]))
      | Some body => Some (m, a, mkResponse (str "200 OK") (str "text/plain; version=0.0.4") [] body)
      end
  | kInvalid => Some (m, a, mkResponse (str "404 Not Found") plain_type [] (str "Not Found" ++ [10]))
  end.

Definition service_metrics_client (m : MetricsHttpServer) (a : TelemArena) (recvs : list recv_event) (sends : list send_event) : option (MetricsHttpServer * TelemArena * list Z) :=
  '(request, complete) ← receive_headers kRequestBytes [] recvs;
  if negb complete then Some (m, a, []) else
  '(m, a, r) ← answer m a request;
  sent ← metrics_send_response r sends;
  Some (m, a, sent).

(** *** The worker *)

(** A client taken from the listener, and what its calls do. *)
Record MetricsClient := mkClient { mc_fd : Z; mc_nonblocking : bool; mc_recvs : list recv_event; mc_sends : list send_event }.

(** The clients of one inner loop, each closed after it was served: what was sent to each
    descriptor. *)
Fixpoint serve_clients (m : MetricsHttpServer) (a : TelemArena) (clients : list MetricsClient) : option (MetricsHttpServer * TelemArena * list (Z * list Z)) :=
  match clients with
  | [] => Some (m, a, [])
  | c :: clients' =>
      '(m, a, sent) ← (if mc_nonblocking c then service_metrics_client m a (mc_recvs c) (mc_sends c) else Some (m, a, []));
      '(m, a, rest) ← serve_clients m a clients';
      Some (m, a, (mc_fd c, sent) :: rest)
  end.

(** One turn of [serve]: [clients] are those accepted before [accept] fails or the server
    is stopped, none when the listener is not ready. *)
Definition metrics_turn (m : MetricsHttpServer) (a : TelemArena) (clients : list MetricsClient) : option (MetricsHttpServer * TelemArena * list (Z * list Z)) :=
  let '(m, a) := drain_snapshots m a in serve_clients m a clients.

(** ** Rendering always succeeds *)




(** ** Credentials *)




(** ** Requests line by line *)

















(** ** Draining *)


(** ** Answers *)

Definition health_line : list Z := str "GET /healthz HTTP/1.1".



(** The last of the first 1024 snapshots waiting, or the one stored when none waits. *)
Definition shown (m : MetricsHttpServer) (q : list TelemSnapshot) : TelemSnapshot := default (ms_snapshot m) (last (take (Z.to_nat kMaxSnapshotsPerLoop) q)).
Definition public_responses : list MetricsResponse :=
  [mkResponse (str "200 OK") plain_type [] (str "ok" ++ [10]); mkResponse (str "401 Unauthorized") plain_type realm (str "Unauthorized" ++ [10]); mkResponse (str "404 Not Found") plain_type [] (str "Not Found" ++ [10])].


(** While more than 1024 snapshots wait, the one shown is not the newest: behind 1024 copies of
    one snapshot, another one is not looked at. *)
Theorem a_long_queue_hides_the_newest m s s' : shown m (replicate (Z.to_nat kMaxSnapshotsPerLoop) s ++ [s']) = s.
Proof. unfold shown. rewrite take_app_length' by (by rewrite length_replicate). change (Z.to_nat kMaxSnapshotsPerLoop) with (S 1023). by rewrite replicate_S_end, last_snoc. Qed.





(** ** What reaches a client *)

Lemma send_all_prefix data events sent ok rest : send_all data events = Some (sent, ok, rest) → sent `prefix_of` data ∧ (ok = true ↔ sent = data).
Proof.
  revert data sent ok rest. induction events as [|ev events IH]; intros data sent ok rest H; destruct data as [|c data]; cbn [send_all] in H; simplify_eq; try done.
  destruct ev as [n| | |remaining ready bad].
  - destruct (Z.leb_spec n 0), (Z.ltb_spec (Z.of_nat (length (c :: data))) n); cbn [orb] in H; try done.
    destruct (send_all (drop (Z.to_nat n) (c :: data)) events) as [[[s ok'] rest']|] eqn:E; cbn [mbind option_bind] in H; [|done]. simplify_eq. apply IH in E as [[k Hk] Hok]. split.
    + exists k. rewrite <- app_assoc, <- Hk. by rewrite take_drop.
    + rewrite Hok. split; [intros ->; apply take_drop|]. intros E. rewrite <- (take_drop (Z.to_nat n) (c :: data)) in E at 2. by apply app_inv_head in E.
  - by apply IH in H.
  - simplify_eq. split; [apply prefix_nil|]. done.
  - case_match; [|by apply IH in H]. simplify_eq. split; [apply prefix_nil|]. done.
Qed.

Lemma fixed_response_head r : r ∈ public_responses → Z.of_nat (length (response_lines r)) < 256.
Proof. unfold public_responses. rewrite !elem_of_cons, elem_of_nil. intros [->|[->|[->|[]]]]; by vm_compute. Qed.

Lemma metrics_response_head body : (length body ≤ 4096)%nat → Z.of_nat (length (response_lines (mkResponse (str "200 OK") (str "text/plain; version=0.0.4") [] body))) < 256.
Proof.
  intros Hb. pose proof (print_unsigned_bound 4 (Z.of_nat (length body)) ltac:(lia) ltac:(cbn; lia)). unfold response_lines. cbn [rp_status rp_content_type rp_extra rp_body]. rewrite !length_app.
  repeat match goal with |- context [length (str ?t)] => let n := eval vm_compute in (length (str t)) in change (length (str t)) with n end. change (length crlf) with 2%nat. cbn [length]. lia.
Qed.

(** A client sees the beginning of one response, the whole of it unless a send fails, and
    the response says how long its body is. *)
Theorem response_sent_in_order r events sent :
  Z.of_nat (length (response_lines r)) < 256 → metrics_send_response r events = Some sent → sent `prefix_of` response_lines r ++ rp_body r.
Proof.
  intros Hl. unfold metrics_send_response. rewrite (proj2 (Z.leb_gt _ _)) by done. destruct (send_all (response_lines r) events) as [[[head ok] rest]|] eqn:Eh; cbn [mbind option_bind]; [|done].
  apply send_all_prefix in Eh as [Hp Hok]. destruct ok; cbn [negb]; [|intros [= <-]; by apply prefix_app_r]. destruct (send_all (rp_body r) rest) as [[[body ok'] rest']|] eqn:Eb; cbn [mbind option_bind]; [|done].
  intros [= <-]. apply send_all_prefix in Eb as [Hb _]. rewrite (proj1 Hok eq_refl). by apply prefix_app.
Qed.

(** ** The listener *)

Inductive listener_op := StartServer (initial : TelemSnapshot) (token : option (list Z)) (env : StartEnv) | StopServer.

(** The descriptors opened and closed by a call. *)
Definition listener_do (m : MetricsHttpServer) (op : listener_op) : MetricsHttpServer * list Z * list Z :=
  match op with
  | StartServer initial token env =>
      let opened := negb (negb (se_initialised env) || ms_running m || (0 <=? ms_fd m)) && (copy_token m token).2 && (0 <=? se_socket env) in
      let '(m, _, closed) := metrics_start m initial token env in (m, if opened then [se_socket env] else [], closed)
  | StopServer => let '(m, closed) := metrics_stop m in (m, [], closed)
  end.
Fixpoint listener_run (m : MetricsHttpServer) (ops : list listener_op) : MetricsHttpServer * list Z * list Z :=
  match ops with
  | [] => (m, [], [])
  | op :: ops' => let '(m, o, c) := listener_do m op in let '(m, os, cs) := listener_run m ops' in (m, o ++ os, c ++ cs)
  end.

(** It has a socket exactly while it runs. *)
Definition listener_ok (m : MetricsHttpServer) : Prop := ms_running m = bool_decide (0 ≤ ms_fd m).
Definition listening (m : MetricsHttpServer) : list Z := if 0 <=? ms_fd m then [ms_fd m] else [].

Lemma copy_token_keeps m token : ms_fd (copy_token m token).1 = ms_fd m ∧ ms_running (copy_token m token).1 = ms_running m.
Proof. unfold copy_token. destruct token; [|done]. cbv zeta. by case_cond. Qed.

Lemma listener_step m op : listener_ok m → let '(m', o, c) := listener_do m op in listener_ok m' ∧ listening m ++ o = c ++ listening m'.
Proof.
  unfold listener_ok, listening. intros Hok. destruct op as [initial token env|]; cbn [listener_do].
  - unfold metrics_start. destruct (copy_token_keeps m token) as [Hfd Hrun]. destruct (copy_token m token) as [m1 copied]. cbn [fst snd] in *.
    destruct (se_initialised env); cbn [negb orb]; [|by rewrite app_nil_r]. destruct (ms_running m) eqn:Er; cbn [orb]; [by rewrite app_nil_r, Er|]. symmetry in Hok. apply bool_decide_eq_false in Hok.
    rewrite (proj2 (Z.leb_gt 0 _)) by lia. cbn [negb andb]. destruct copied; cbn [negb andb]; [|rewrite Hfd, Hrun, (proj2 (Z.leb_gt 0 _)), bool_decide_eq_false_2 by lia; done].
    cbn [with_fd ms_fd]. destruct (Z.ltb_spec (se_socket env) 0). { rewrite (proj2 (Z.leb_gt 0 _)) by lia. cbn [ms_running ms_fd with_fd]. by rewrite Hrun, bool_decide_eq_false_2, (proj2 (Z.leb_gt 0 _)) by (cbn; lia). }
    rewrite (proj2 (Z.leb_le 0 _)) by lia.
    destruct (se_nonblocking env), (se_bind env), (se_listen env), (se_getsockname env) as [[port address]|], (se_thread env); cbn [negb orb]; unfold close_listener; cbn [with_fd ms_fd ms_running];
      rewrite ?(proj2 (Z.leb_le 0 (se_socket env))) by lia; cbn [with_fd ms_fd ms_running]; rewrite ?Hrun, ?(proj2 (Z.leb_le 0 (se_socket env))) by lia; rewrite ?bool_decide_eq_true_2 by lia; done.
  - unfold metrics_stop. rewrite Hok. case_bool_decide; cbn [negb]; [|rewrite Hok; rewrite bool_decide_eq_false_2 by done; by rewrite app_nil_r]. unfold close_listener. cbn [ms_fd]. rewrite (proj2 (Z.leb_le 0 _)) by lia. done.
Qed.

(** Over any sequence of starts and stops, whatever fails inside them, every socket the
    server opened is closed exactly once, in order, except the one it listens on. *)
Theorem metrics_listener_closed_once port ops :
  let '(m, opened, closed) := listener_run (MetricsHttpServer_new port) ops in listener_ok m ∧ opened = closed ++ listening m.
Proof.
  assert (H : ∀ m, listener_ok m → let '(m', o, c) := listener_run m ops in listener_ok m' ∧ listening m ++ o = c ++ listening m').
  2: { specialize (H (MetricsHttpServer_new port) eq_refl). destruct (listener_run _ ops) as [[m o] c]. done. }
  induction ops as [|op ops IH]; intros m Hm; cbn [listener_run]; [by rewrite app_nil_r|]. pose proof (listener_step m op Hm) as Hs. destruct (listener_do m op) as [[m1 o] c]. destruct Hs as [Hm1 E].
  specialize (IH m1 Hm1). destruct (listener_run m1 ops) as [[m2 os] cs]. destruct IH as [Hm2 E2]. split; [done|]. by rewrite app_assoc, E, <- !app_assoc, E2.
Qed.


