(* ===== verification/SessionSecurity.v ===== *)
(** * SessionSecurity: the guard of an order-entry session
    (src/luv_session_security.hpp)

    Address check, token bucket, anti-replay window and message authentication, in the
    order the code applies them.  HMAC-SHA256 is a parameter.  [None] is a read past the
    end of a signature. *)

From S2P Require Import Prelude Printf.
From Stdlib Require Import ZArith Lia.
From stdpp Require Import base tactics gmap numbers option list.
Open Scope Z_scope.

Inductive AuthResult := Success | InvalidSignature | ReplayDetected | RateLimitExceeded | IPUnauthorized | SessionTerminated.
#[global] Instance auth_result_eq_dec : EqDecision AuthResult.
Proof. solve_decision. Defined.

Record SessionSecurityConfig := mkSecConfig {
  sc_session_id : Z;
  sc_mpid : Z;
  sc_authorized_ipv4 : Z;
  sc_max_messages_per_sec : Z;
  sc_max_burst_allowance : Z;
  sc_secret_key : list Z
}.

Record SessionSecurityGuard := mkGuard {
  sg_config : SessionSecurityConfig;
  sg_max_seq_seen : Z;
  sg_replay_bitmap : Z;
  sg_token_bucket : double;
  sg_last_token_update_ns : Z;
  sg_is_active : bool
}.
Definition SessionSecurityGuard_new (config : SessionSecurityConfig) : SessionSecurityGuard := mkGuard config 0 0 (double_of (sc_max_burst_allowance config)) 0 true.

Definition kReplayWindowBits : Z := 64.

(** Every byte is compared, whatever the first difference. *)
Definition constant_time_memcmp (a b : list Z) (len : nat) : option bool :=
  if (length a <? len)%nat || (length b <? len)%nat then None
  else Some (foldl (λ diff i, Z.lor diff (Z.lxor (default 0 (a !! i)) (default 0 (b !! i)))) 0 (seq 0 len) =? 0).

Definition with_tokens (s : SessionSecurityGuard) (bucket : double) (last : Z) : SessionSecurityGuard :=
  mkGuard (sg_config s) (sg_max_seq_seen s) (sg_replay_bitmap s) bucket last (sg_is_active s).
Definition with_window (s : SessionSecurityGuard) (max bitmap : Z) : SessionSecurityGuard :=
  mkGuard (sg_config s) max bitmap (sg_token_bucket s) (sg_last_token_update_ns s) (sg_is_active s).

(** [std::min]. *)
Definition double_min (a b : double) : double := if double_lt b a then b else a.

Definition consume_rate_limit_token (s : SessionSecurityGuard) (now_ns : Z) : SessionSecurityGuard * bool :=
  let s :=
    if sg_last_token_update_ns s =? 0 then with_tokens s (sg_token_bucket s) now_ns
    else if sg_last_token_update_ns s <? now_ns then
      let elapsed_sec := double_div (double_of (now_ns - sg_last_token_update_ns s)) (double_of 1000000000) in
      with_tokens s (double_min (double_of (sc_max_burst_allowance (sg_config s)))
        (double_add (sg_token_bucket s) (double_mul elapsed_sec (double_of (sc_max_messages_per_sec (sg_config s)))))) now_ns
    else s in
  if double_le (double_of 1) (sg_token_bucket s) then (with_tokens s (double_sub (sg_token_bucket s) (double_of 1)) (sg_last_token_update_ns s), true)
  else (s, false).

(** The anti-replay window; [false] is a replay. *)
Definition check_replay (s : SessionSecurityGuard) (seq_num : Z) : SessionSecurityGuard * bool :=
  if seq_num =? 0 then (s, false) else
  if sg_max_seq_seen s <? seq_num then
    let diff := seq_num - sg_max_seq_seen s in
    (with_window s seq_num (if diff <? kReplayWindowBits then Z.lor (u64 (Z.shiftl (sg_replay_bitmap s) diff)) 1 else 1), true)
  else
    let diff := sg_max_seq_seen s - seq_num in
    if kReplayWindowBits <=? diff then (s, false) else
    let bit_mask := Z.shiftl 1 diff in
    if negb (Z.land (sg_replay_bitmap s) bit_mask =? 0) then (s, false)
    else (with_window s (sg_max_seq_seen s) (Z.lor (sg_replay_bitmap s) bit_mask), true).

Definition terminate_session (s : SessionSecurityGuard) : SessionSecurityGuard :=
  mkGuard (sg_config s) (sg_max_seq_seen s) (sg_replay_bitmap s) (sg_token_bucket s) (sg_last_token_update_ns s) false.

Section hmac.
(** HMAC(EVP_sha256(), key, payload). *)
Context (hmac : list Z → list Z → list Z).

Definition validate_inbound_message (s : SessionSecurityGuard) (peer_ipv4 seq_num : Z) (payload : list Z) (hmac_signature : option (list Z)) (now_ns : Z) :
    option (SessionSecurityGuard * AuthResult) :=
  if negb (sg_is_active s) then Some (s, SessionTerminated) else
  if negb (sc_authorized_ipv4 (sg_config s) =? 0) && negb (peer_ipv4 =? sc_authorized_ipv4 (sg_config s)) then Some (s, IPUnauthorized) else
  let '(s, token) := consume_rate_limit_token s now_ns in
  if negb token then Some (s, RateLimitExceeded) else
  let '(s, fresh) := check_replay s seq_num in
  if negb fresh then Some (s, ReplayDetected) else
  match hmac_signature with
  | None => Some (s, Success)
  | Some signature =>
      same ← constant_time_memcmp signature (hmac (sc_secret_key (sg_config s)) payload) 32;
      Some (s, if (same : bool) then Success else InvalidSignature)
  end.
End hmac.

(** ** The replay window *)

(** [seen] are the numbers that passed the window so far. *)
Record window_ok (s : SessionSecurityGuard) (seen : gset Z) : Prop := mkWindowOk {
  wo_max : 0 ≤ sg_max_seq_seen s < 2 ^ 64;
  wo_bits : ∀ d, 0 ≤ d < 64 → Z.testbit (sg_replay_bitmap s) d = bool_decide (sg_max_seq_seen s - d ∈ seen);
  wo_seen : ∀ n, n ∈ seen → 0 < n ≤ sg_max_seq_seen s
}.

Lemma new_window config : window_ok (SessionSecurityGuard_new config) ∅.
Proof. split; cbn; [lia| |set_solver]. intros d Hd. rewrite Z.bits_0. by rewrite bool_decide_eq_false_2 by set_solver. Qed.

Lemma land_bit x d : 0 ≤ d → (Z.land x (Z.shiftl 1 d) =? 0) = negb (Z.testbit x d).
Proof.
  intros Hd. rewrite Z.shiftl_1_l. destruct (Z.testbit x d) eqn:E; cbn [negb].
  - apply Z.eqb_neq. intros H. assert (Ht : Z.testbit (Z.land x (2 ^ d)) d = true) by (rewrite Z.land_spec, E, Z.pow2_bits_true by done; done). by rewrite H, Z.bits_0 in Ht.
  - apply Z.eqb_eq. apply Z.bits_inj'. intros n Hn. rewrite Z.land_spec, Z.bits_0, Z.pow2_bits_eqb by done. destruct (Z.eqb_spec d n) as [->|]; [by rewrite E|]. by rewrite andb_false_r.
Qed.

(** What the window accepts: a number larger than all before, or one of the last 64 that
    has not passed yet. *)
Definition acceptable (s : SessionSecurityGuard) (seen : gset Z) (n : Z) : Prop := 0 < n ∧ sg_max_seq_seen s - 64 < n ∧ n ∉ seen.

Lemma u64_testbit x d : 0 ≤ d < 64 → Z.testbit (u64 x) d = Z.testbit x d.
Proof. intros Hd. unfold u64. apply Z.mod_pow2_bits_low. lia. Qed.

Lemma check_replay_spec s seen n : window_ok s seen → 0 ≤ n < 2 ^ 64 →
  let '(s', fresh) := check_replay s n in
  (fresh = true ↔ acceptable s seen n) ∧ window_ok s' (if fresh then {[n]} ∪ seen else seen).
Proof.
  intros [Hm Hb Hs] Hn. unfold check_replay, acceptable. destruct (Z.eqb_spec n 0) as [->|Hn0]; [split; [split; [done|lia]|done]|].
  destruct (Z.ltb_spec (sg_max_seq_seen s) n) as [Hgt|Hle].
  - split; [split; [intros _|done]|].
    { split_and!; [lia|lia|]. intros Hin%Hs. lia. }
    split; cbn [sg_max_seq_seen sg_replay_bitmap with_window]; [lia| |].
    + intros d Hd. unfold kReplayWindowBits. destruct (Z.ltb_spec (n - sg_max_seq_seen s) 64) as [Hw|Hw].
      * rewrite Z.lor_spec, u64_testbit by done. rewrite Z.shiftl_spec by lia. destruct (Z.eq_dec d 0) as [->|Hd0].
        { rewrite Z.sub_0_r. rewrite bool_decide_eq_true_2 by set_solver. by rewrite orb_true_r. }
        replace (Z.testbit 1 d) with false by (symmetry; apply Z.bits_above_log2; cbn; lia). rewrite orb_false_r. destruct (Z.le_gt_cases (n - sg_max_seq_seen s) d).
        { rewrite Hb by lia. apply bool_decide_ext. replace (sg_max_seq_seen s - (d - (n - sg_max_seq_seen s))) with (n - d) by lia. split; [set_solver|]. intros [?%elem_of_singleton|?]%elem_of_union; [lia|done]. }
        { rewrite Z.testbit_neg_r by lia. symmetry. apply bool_decide_eq_false. intros [?%elem_of_singleton|Hin%Hs]%elem_of_union; lia. }
      * destruct (Z.eq_dec d 0) as [->|Hd0]; [rewrite Z.sub_0_r; rewrite bool_decide_eq_true_2 by set_solver; done|].
        replace (Z.testbit 1 d) with false by (symmetry; apply Z.bits_above_log2; cbn; lia). symmetry. apply bool_decide_eq_false. intros [?%elem_of_singleton|Hin%Hs]%elem_of_union; lia.
    + intros x [->%elem_of_singleton|Hin%Hs]%elem_of_union; lia.
  - unfold kReplayWindowBits. destruct (Z.leb_spec 64 (sg_max_seq_seen s - n)); [split; [split; [done|lia]|done]|].
    rewrite land_bit, negb_involutive, Hb by lia. replace (sg_max_seq_seen s - (sg_max_seq_seen s - n)) with n by lia. case_bool_decide as Hin; [split; [split; [done|naive_solver]|done]|].
    split; [split; [intros _; split_and!; [lia|lia|done]|done]|]. split; cbn [sg_max_seq_seen sg_replay_bitmap with_window]; [lia| |].
    + intros d Hd. rewrite Z.lor_spec, Hb, Z.shiftl_1_l, Z.pow2_bits_eqb by lia. destruct (Z.eqb_spec (sg_max_seq_seen s - n) d) as [E|E].
      * rewrite orb_true_r. symmetry. apply bool_decide_eq_true. replace (sg_max_seq_seen s - d) with n by lia. set_solver.
      * rewrite orb_false_r. apply bool_decide_ext. split; [set_solver|]. intros [?%elem_of_singleton|?]%elem_of_union; [lia|done].
    + intros x [->%elem_of_singleton|Hx%Hs]%elem_of_union; lia.
Qed.

(** ** Runs *)

Section runs.
Context (hmac : list Z → list Z → list Z) (Hhmac : ∀ key payload, (32 ≤ length (hmac key payload))%nat).

Record Message := mkMessage { mg_peer : Z; mg_seq : Z; mg_payload : list Z; mg_signature : option (list Z); mg_now : Z }.
Definition message_ok (g : Message) : Prop := 0 ≤ mg_seq g < 2 ^ 64 ∧ match mg_signature g with Some sig => (32 ≤ length sig)%nat | None => True end.

Definition receive_message (s : SessionSecurityGuard) (g : Message) : option (SessionSecurityGuard * AuthResult) :=
  validate_inbound_message hmac s (mg_peer g) (mg_seq g) (mg_payload g) (mg_signature g) (mg_now g).

Fixpoint receive_messages (s : SessionSecurityGuard) (gs : list Message) : option (SessionSecurityGuard * list (Message * AuthResult)) :=
  match gs with
  | [] => Some (s, [])
  | g :: gs' => '(s, r) ← receive_message s g; '(s, rs) ← receive_messages s gs'; Some (s, (g, r) :: rs)
  end.

Lemma tokens_window s now seen : window_ok s seen → window_ok (consume_rate_limit_token s now).1 seen.
Proof using Type. intros [H1 H2 H3]. unfold consume_rate_limit_token. cbv zeta. repeat case_cond; by split. Qed.

Lemma tokens_max s now : sg_max_seq_seen (consume_rate_limit_token s now).1 = sg_max_seq_seen s.
Proof using Type. unfold consume_rate_limit_token. cbv zeta. by repeat case_cond. Qed.

Lemma tokens_config s now : sg_config (consume_rate_limit_token s now).1 = sg_config s ∧ sg_is_active (consume_rate_limit_token s now).1 = sg_is_active s.
Proof using Type. unfold consume_rate_limit_token. cbv zeta. by repeat case_cond. Qed.

(** Whether a result means the message went through the window. *)
Definition passed (r : AuthResult) : bool := match r with Success | InvalidSignature => true | _ => false end.

Lemma memcmp_total a b : (32 ≤ length a)%nat → (32 ≤ length b)%nat → ∃ same, constant_time_memcmp a b 32 = Some same ∧ (same = true ↔ take 32 a = take 32 b).
Proof using Type.
  intros Ha Hb. unfold constant_time_memcmp. rewrite !(proj2 (Nat.ltb_ge _ _)) by done. cbn [orb]. eexists. split; [done|]. rewrite Z.eqb_eq, (lor_fold_zero (λ i, Z.lxor (default 0 (a !! i)) (default 0 (b !! i)))), Forall_forall. split.
  - intros [_ H]. apply list_eq. intros i. destruct (decide (i < 32)%nat) as [Hi|]; [|rewrite !lookup_take_ge by lia; done]. rewrite !lookup_take_lt by done. specialize (H i ltac:(apply elem_of_seq; lia)). apply Z.lxor_eq in H.
    destruct (lookup_lt_is_Some_2 a i ltac:(lia)) as [x Hx], (lookup_lt_is_Some_2 b i ltac:(lia)) as [y Hy]. rewrite Hx, Hy in *. cbn in H. congruence.
  - intros E. split; [done|]. intros i Hi%elem_of_seq. assert (a !! i = b !! i) as -> by (rewrite <- (lookup_take_lt a 32), E, lookup_take_lt by lia; done). apply Z.lxor_nilpotent.
Qed.

Lemma guard_receive_ok s seen g : window_ok s seen → message_ok g →
  ∃ s' r, receive_message s g = Some (s', r) ∧ window_ok s' (if passed r then {[mg_seq g]} ∪ seen else seen) ∧ (passed r = true → acceptable s seen (mg_seq g)) ∧
    (r = ReplayDetected → ¬ acceptable s seen (mg_seq g)) ∧ sg_config s' = sg_config s ∧
    (r = Success → ∀ sig, mg_signature g = Some sig → take 32 sig = take 32 (hmac (sc_secret_key (sg_config s)) (mg_payload g))).
Proof using Hhmac.
  intros Hw [Hn Hsig]. unfold receive_message, validate_inbound_message. destruct (sg_is_active s); cbn [negb]; [|by eexists _, _]. case_cond; [by eexists _, _|].
  pose proof (tokens_window s (mg_now g) seen Hw) as Hw1. pose proof (tokens_max s (mg_now g)) as Hm. destruct (tokens_config s (mg_now g)) as [Hc _]. destruct (consume_rate_limit_token s (mg_now g)) as [s1 token]. cbn [fst] in *.
  destruct token; cbn [negb]; [|eexists _, _; by split_and!]. pose proof (check_replay_spec s1 seen (mg_seq g) Hw1 Hn) as Hr. assert (Hcfg : sg_config (check_replay s1 (mg_seq g)).1 = sg_config s1) by (unfold check_replay; cbv zeta; by repeat case_cond).
  unfold acceptable in *. rewrite Hm in Hr. destruct (check_replay s1 (mg_seq g)) as [s2 fresh]. cbn [fst] in Hcfg. destruct Hr as [Hf Hw2]. destruct fresh; cbn [negb].
  2: { eexists _, _. split; [done|]. split_and!; try done; [|congruence]. intros _ Ha. by apply Hf in Ha. }
  destruct (mg_signature g) as [sig|] eqn:Es; [|eexists _, _; split; [done|]; split_and!; try done; [by intros _; apply Hf|congruence]].
  destruct (memcmp_total sig (hmac (sc_secret_key (sg_config s2)) (mg_payload g)) Hsig (Hhmac _ _)) as (same & -> & Hsame). cbn [mbind option_bind]. eexists _, _. split; [done|].
  destruct same; split_and!; try done; try (by intros _; apply Hf); try congruence. intros _ sig' [= <-]. rewrite <- Hc, <- Hcfg. by apply Hsame.
Qed.

(** The numbers that went through, newest first. *)
Definition through (rs : list (Message * AuthResult)) : list Z := (mg_seq ∘ fst) <$> filter (λ gr, passed gr.2 = true) rs.

Lemma receive_messages_ok s seen gs : window_ok s seen → Forall message_ok gs →
  ∃ s' rs, receive_messages s gs = Some (s', rs) ∧ sg_config s' = sg_config s ∧ NoDup (through rs) ∧ (∀ n, n ∈ through rs → n ∉ seen) ∧
    Forall (λ gr, gr.2 = Success → ∀ sig, mg_signature gr.1 = Some sig → take 32 sig = take 32 (hmac (sc_secret_key (sg_config s)) (mg_payload gr.1))) rs.
Proof using Hhmac.
  intros Hw Hgs. revert s seen Hw. induction Hgs as [|g gs Hg _ IH]; intros s seen Hw; cbn [receive_messages].
  { eexists _, _. split; [done|]. split_and!; [done|apply NoDup_nil_2|set_solver|apply Forall_nil_2]. }
  destruct (guard_receive_ok s seen g Hw Hg) as (s1 & r & -> & Hw1 & Hp & _ & Hc & Hauth). cbn [mbind option_bind]. destruct (IH s1 _ Hw1) as (s2 & rs & -> & Hc2 & Hnd & Hnew & Hall). cbn [mbind option_bind].
  eexists _, _. split; [done|]. unfold through in *. rewrite filter_cons. cbn [snd]. split_and!; [congruence| | |apply Forall_cons; split; [done|by rewrite Hc in Hall]].
  - destruct (passed r); [|case_decide; [done|apply Hnd]]. case_decide; [|done]. cbn. apply NoDup_cons. split; [|done]. intros Hin. apply (Hnew _ Hin). set_solver.
  - destruct (passed r); case_decide; try done. intros n. cbn. intros [->|Hin]%elem_of_cons; [by apply Hp|]. specialize (Hnew n Hin). set_solver.
Qed.

(** C34 (safety): no message goes through twice: over any sequence of messages to a new guard, no two
    that pass the window carry the same sequence number, and every signed message that
    is accepted carries the HMAC of its payload under the session's key. *)
Theorem session_never_replays config gs :
  Forall message_ok gs →
  ∃ s rs, receive_messages (SessionSecurityGuard_new config) gs = Some (s, rs) ∧ NoDup (through rs) ∧
    Forall (λ gr, gr.2 = Success → ∀ sig, mg_signature gr.1 = Some sig → take 32 sig = take 32 (hmac (sc_secret_key config) (mg_payload gr.1))) rs.
Proof using Hhmac.
  intros Hgs. destruct (receive_messages_ok _ ∅ gs (new_window config) Hgs) as (s & rs & Hr & _ & Hnd & _ & Hall). by exists s, rs.
Qed.

(** The window is updated before the signature is checked: a forged message uses up its
    sequence number, and the genuine message with that number is then refused. *)
Theorem forged_message_burns_its_number s seen g s1 later :
  window_ok s seen → message_ok g → message_ok later → mg_seq later = mg_seq g → receive_message s g = Some (s1, InvalidSignature) →
  ∃ s2 r, receive_message s1 later = Some (s2, r) ∧ r ≠ Success.
Proof using Hhmac.
  intros Hw Hg Hl E Hr. destruct (guard_receive_ok s seen g Hw Hg) as (s1' & r & Hr' & Hw1 & _). rewrite Hr in Hr'. simplify_eq. cbn [passed] in Hw1.
  destruct (guard_receive_ok s1' _ later Hw1 Hl) as (s2 & r & -> & _ & Hp & _). exists s2, r. split; [done|]. intros ->. destruct (Hp eq_refl) as (_ & _ & Hn). set_solver.
Qed.
End runs.

Definition demo_config : SessionSecurityConfig := mkSecConfig 1 2 0 1000 100 (replicate 32 7).
Definition demo_message (seq : Z) (signature : option (list Z)) : Message := mkMessage 9 seq [1; 2; 3] signature 1000.
Definition demo_messages : list Message := [demo_message 5 (Some (replicate 32 0)); demo_message 5 (Some (replicate 32 0)); demo_message 3 (Some (replicate 32 1))].

Lemma session_never_replays_witness :
  ∃ s rs, receive_messages (λ _ _, replicate 32 0) (SessionSecurityGuard_new demo_config) demo_messages = Some (s, rs) ∧ NoDup (through rs) ∧ rs.*2 = [Success; ReplayDetected; InvalidSignature].
Proof.
  destruct (session_never_replays (λ _ _, replicate 32 0) (λ _ _, le_n _) demo_config demo_messages) as (s & rs & Hr & Hn & _).
  - unfold demo_messages. repeat apply Forall_cons_2; try apply Forall_nil_2; (split; [cbn; lia|apply le_n]).
  - exists s, rs. split; [exact Hr|]. split; [exact Hn|]. assert (E : (snd <$> receive_messages (λ _ _, replicate 32 0) (SessionSecurityGuard_new demo_config) demo_messages) ≫= (λ rs, Some rs.*2) = Some [Success; ReplayDetected; InvalidSignature]) by (vm_compute; reflexivity).
    rewrite Hr in E. cbn in E. congruence.
Defined.
