(* ===== verification/Raft.v ===== *)
(** * Raft: the hot standby (src/luv_raft_sync.hpp) and the five-region cluster
    (src/luv_multiregion_raft_cluster.hpp)

    A leader writes a log of order events into a ring of 4096 slots and a follower
    applies the entries it receives.  [None] is never returned: the operations are
    total.  Behind it stands the cluster of regions with its commit index and clock. *)

From S2P Require Import Prelude Telemetry.
From Stdlib Require Import ZArith Lia.
From stdpp Require Import base tactics numbers option list sorting.
Open Scope Z_scope.

Inductive NodeRole := kFollower | kCandidate | kLeader.
Inductive SyncEventType := SyncHeartbeat | kOrderInserted | kOrderCanceled | kTradeExecuted.
#[global] Instance node_role_eq_dec : EqDecision NodeRole.
Proof. solve_decision. Defined.
#[global] Instance sync_event_eq_dec : EqDecision SyncEventType.
Proof. solve_decision. Defined.

Record RaftLogEntry := mkEntry {
  re_term : Z;
  re_log_index : Z;
  re_event_type : SyncEventType;
  re_symbol_idx : Z;
  re_side : Z;
  re_order_id : Z;
  re_price : Z;
  re_qty : Z;
  re_event_timestamp_ns : Z
}.
Definition RaftLogEntry_init : RaftLogEntry := mkEntry 1 0 SyncHeartbeat 0 0 0 0 0 0.

Definition kMaxLogCapacity : Z := 4096.
Definition kHeartbeatTimeoutNs : Z := 20000000.

Record HotStandbyReplica := mkReplica {
  hr_role : NodeRole;
  hr_current_term : Z;
  hr_commit_index : Z;
  hr_last_heartbeat_ts_ns : Z;
  hr_applied_count : Z;
  hr_log : list RaftLogEntry
}.
Definition HotStandbyReplica_new (role : NodeRole) : HotStandbyReplica := mkReplica role 1 0 0 0 (replicate (Z.to_nat kMaxLogCapacity) RaftLogEntry_init).

Definition log_slot (index : Z) : nat := Z.to_nat (Z.land index (kMaxLogCapacity - 1)).

Definition leader_append (r : HotStandbyReplica) (type : SyncEventType) (symbol_idx side order_id price qty ts_ns : Z) : HotStandbyReplica * option RaftLogEntry :=
  if negb (bool_decide (hr_role r = kLeader)) then (r, None) else
  let next_idx := u64 (hr_commit_index r + 1) in
  let entry := mkEntry (hr_current_term r) next_idx type symbol_idx side order_id price qty ts_ns in
  (mkReplica (hr_role r) (hr_current_term r) next_idx ts_ns (hr_applied_count r) (<[log_slot next_idx := entry]> (hr_log r)), Some entry).

Definition follower_apply (r : HotStandbyReplica) (entry : RaftLogEntry) (now_ns : Z) : HotStandbyReplica * bool :=
  if re_term entry <? hr_current_term r then (r, false) else
  let '(term, role) := if hr_current_term r <? re_term entry then (re_term entry, kFollower) else (hr_current_term r, hr_role r) in
  let r := mkReplica role term (hr_commit_index r) now_ns (hr_applied_count r) (hr_log r) in
  if bool_decide (re_event_type entry = SyncHeartbeat) then (r, true) else
  if re_log_index entry =? u64 (hr_commit_index r + 1)
  then (mkReplica role term (re_log_index entry) now_ns (u64 (hr_applied_count r + 1)) (<[log_slot (re_log_index entry) := entry]> (hr_log r)), true)
  else (r, false).

Definition check_failover (r : HotStandbyReplica) (now_ns : Z) : HotStandbyReplica * bool :=
  if bool_decide (hr_role r = kLeader) then (r, false) else
  if u64 (hr_last_heartbeat_ts_ns r + kHeartbeatTimeoutNs) <? now_ns
  then (mkReplica kLeader (u64 (hr_current_term r + 1)) (hr_commit_index r) (hr_last_heartbeat_ts_ns r) (hr_applied_count r) (hr_log r), true)
  else (r, false).

(** ** The log *)

(** The replica has committed [hist], the entry at index 1 first; its ring holds the last
    4096 of them. *)
Record committed (r : HotStandbyReplica) (hist : list RaftLogEntry) : Prop := mkCommitted {
  cm_index : hr_commit_index r = Z.of_nat (length hist);
  cm_small : Z.of_nat (length hist) + 1 < 2 ^ 64;
  cm_ring : length (hr_log r) = Z.to_nat kMaxLogCapacity;
  cm_slots : ∀ i e, hist !! i = Some e → Z.of_nat (length hist) - kMaxLogCapacity ≤ Z.of_nat i → hr_log r !! log_slot (Z.of_nat i + 1) = Some e;
  cm_numbers : ∀ i e, hist !! i = Some e → re_log_index e = Z.of_nat i + 1
}.

Lemma log_slot_mod n : log_slot n = Z.to_nat (n mod kMaxLogCapacity).
Proof. unfold log_slot, kMaxLogCapacity. change (4096 - 1) with (Z.ones 12). by rewrite Z.land_ones by done. Qed.

Lemma log_slot_lt n : (log_slot n < Z.to_nat kMaxLogCapacity)%nat.
Proof. rewrite log_slot_mod. pose proof (Z.mod_pos_bound n kMaxLogCapacity ltac:(done)). unfold kMaxLogCapacity in *. lia. Qed.

Lemma log_slot_inj n m : log_slot n = log_slot m → Z.abs (n - m) < kMaxLogCapacity → n = m.
Proof.
  rewrite !log_slot_mod. intros E Hd. pose proof (Z.mod_pos_bound n kMaxLogCapacity ltac:(done)). pose proof (Z.mod_pos_bound m kMaxLogCapacity ltac:(done)). apply (mod_inj kMaxLogCapacity); [done|lia|done].
Qed.

Lemma committed_new role : committed (HotStandbyReplica_new role) [].
Proof. by split. Qed.

(** One more entry, at the next index. *)
Lemma committed_snoc r hist e role term ts applied :
  committed r hist → re_log_index e = Z.of_nat (length hist) + 1 → Z.of_nat (length hist) + 2 < 2 ^ 64 →
  committed (mkReplica role term (re_log_index e) ts applied (<[log_slot (re_log_index e) := e]> (hr_log r))) (hist ++ [e]).
Proof.
  intros [Hi Hs Hr Hsl Hn] He Hlt. split; cbn [hr_commit_index hr_log]; rewrite ?length_app, ?length_insert; cbn [length]; [lia|lia|done| |].
  - intros i x Hx Hold. apply lookup_snoc_Some in Hx as [[Hlti Hx]|[-> <-]].
    + rewrite list_lookup_insert_ne; [apply Hsl; [done|lia]|]. intros E%log_slot_inj; [lia|]. unfold kMaxLogCapacity in *. lia.
    + rewrite He. apply list_lookup_insert_eq. rewrite Hr. apply log_slot_lt.
  - intros i x Hx. apply lookup_snoc_Some in Hx as [[Hlti Hx]|[-> <-]]; [by apply Hn|done].
Qed.

Lemma leader_append_spec r hist type symbol side order_id price qty ts :
  committed r hist → Z.of_nat (length hist) + 2 < 2 ^ 64 → hr_role r = kLeader →
  ∃ r' e, leader_append r type symbol side order_id price qty ts = (r', Some e) ∧ committed r' (hist ++ [e]) ∧ re_term e = hr_current_term r ∧ re_event_type e = type ∧ re_order_id e = order_id ∧
    hr_role r' = kLeader ∧ hr_current_term r' = hr_current_term r.
Proof.
  intros Hc Hlt Hl. unfold leader_append. rewrite bool_decide_eq_true_2 by done. cbn [negb]. eexists _, _. split; [done|]. split_and!; try done.
  rewrite (cm_index _ _ Hc), u64_small by lia. by apply (committed_snoc r hist (mkEntry _ (Z.of_nat (length hist) + 1) _ _ _ _ _ _ _)).
Qed.

(** What a follower does with an entry, whatever it is. *)
Lemma follower_apply_spec r hist e now :
  committed r hist → (re_log_index e = Z.of_nat (length hist) + 1 → Z.of_nat (length hist) + 2 < 2 ^ 64) →
  let '(r', ok) := follower_apply r e now in
  committed r' (if ok && negb (bool_decide (re_event_type e = SyncHeartbeat)) then hist ++ [e] else hist) ∧
  (ok && negb (bool_decide (re_event_type e = SyncHeartbeat)) = true ↔
    hr_current_term r ≤ re_term e ∧ re_event_type e ≠ SyncHeartbeat ∧ re_log_index e = Z.of_nat (length hist) + 1) ∧
  hr_current_term r' = hr_current_term r `max` re_term e.
Proof.
  intros Hc Hlt. pose proof (cm_small _ _ Hc). unfold follower_apply. destruct (Z.ltb_spec (re_term e) (hr_current_term r)); [split; [done|]; split; [split; [done|lia]|lia]|].
  assert (Hkeep : ∀ role term ts, committed (mkReplica role term (hr_commit_index r) ts (hr_applied_count r) (hr_log r)) hist) by (intros; destruct Hc; by split).
  destruct (if hr_current_term r <? re_term e then (re_term e, kFollower) else (hr_current_term r, hr_role r)) as [term role] eqn:Et.
  assert (Hterm : term = hr_current_term r `max` re_term e) by (destruct (Z.ltb_spec (hr_current_term r) (re_term e)); simplify_eq; lia).
  case_bool_decide as Hh; cbn [andb negb hr_commit_index]; [split_and!; [apply Hkeep|split; [done|naive_solver]|done]|].
  rewrite (cm_index _ _ Hc), u64_small by lia. destruct (Z.eqb_spec (re_log_index e) (Z.of_nat (length hist) + 1)) as [E|E]; cbn [andb].
  - split_and!; [apply (committed_snoc r); [done|done|by apply Hlt]|split; [intros _; by split_and!|done]|done].
  - split_and!; [rewrite <- (cm_index _ _ Hc); apply Hkeep|split; [done|lia]|done].
Qed.

(** ** Replication *)

Fixpoint follower_run (r : HotStandbyReplica) (feed : list (RaftLogEntry * Z)) : HotStandbyReplica :=
  match feed with [] => r | (e, now) :: feed' => follower_run (follower_apply r e now).1 feed' end.

(** The log of a standby is a prefix of its leader's: whatever entries of the leader's log
    reach it, in whatever order and however often, it commits the leader's entries in
    the leader's order, and all of them once it has seen them all in order. *)
Theorem standby_log_is_a_prefix leader log r feed :
  committed leader log → committed r [] → hr_current_term r ≤ hr_current_term leader →
  Forall (λ e, re_term e = hr_current_term leader ∧ re_event_type e ≠ SyncHeartbeat) log → Forall (λ en, en.1 ∈ log) feed →
  ∃ hist, committed (follower_run r feed) hist ∧ hist `prefix_of` log ∧ (feed.*1 = log → hist = log).
Proof.
  intros HL Hr Ht Hlog Hfeed.
  cut (∀ hist r, committed r hist → hist `prefix_of` log → hr_current_term r ≤ hr_current_term leader → ∃ hist', committed (follower_run r feed) hist' ∧ hist' `prefix_of` log ∧ (hist ++ feed.*1 = log → hist' = log)).
  { intros H. destruct (H [] r Hr (prefix_nil _) Ht) as (hist & H1 & H2 & H3). by exists hist. }
  clear r Hr Ht. induction Hfeed as [|[e now] feed Hin _ IH]; intros hist r Hr Hp Ht; cbn [follower_run].
  { exists hist. split_and!; [done|done|]. by rewrite app_nil_r. }
  cbn [fst] in Hin. apply list_elem_of_lookup in Hin as [i Hi]. pose proof (cm_numbers _ _ HL i e Hi) as Hn. pose proof (lookup_lt_Some _ _ _ Hi) as Hil. pose proof (cm_small _ _ HL).
  rewrite Forall_lookup in Hlog. destruct (Hlog i e Hi) as [Hte Hhe]. assert (Hlen : (length hist ≤ length log)%nat) by (by apply prefix_length).
  assert (Hroom : re_log_index e = Z.of_nat (length hist) + 1 → Z.of_nat (length hist) + 2 < 2 ^ 64) by lia.
  pose proof (follower_apply_spec r hist e now Hr Hroom) as Hs. destruct (follower_apply r e now) as [r' ok]. cbn [fst]. destruct Hs as (Hc & Hiff & Hterm).
  set (hist1 := if ok && negb (bool_decide (re_event_type e = SyncHeartbeat)) then hist ++ [e] else hist) in *.
  assert (Hp1 : hist1 `prefix_of` log ∧ (hist ++ (e :: feed.*1) = log → hist1 ++ feed.*1 = log)).
  { destruct Hp as [k Hk]. subst hist1. destruct (ok && negb (bool_decide (re_event_type e = SyncHeartbeat))).
    - destruct (proj1 Hiff eq_refl) as (_ & _ & E). assert (i = length hist) as -> by lia. rewrite Hk, lookup_app_r, Nat.sub_diag in Hi by lia. destruct k as [|x k]; [done|]. cbn in Hi. injection Hi as ->.
      split; [exists k; by rewrite Hk, <- app_assoc|]. intros <-. by rewrite <- app_assoc.
    - split; [by exists k|]. intros Happ. exfalso. assert (log !! length hist = Some e) as Hl by (rewrite <- Happ, lookup_app_r, Nat.sub_diag by lia; done).
      pose proof (cm_numbers _ _ HL _ _ Hl). assert (false = true); [|done]. apply Hiff. split_and!; [lia|done|lia]. }
  destruct Hp1 as [Hp1 Happ]. destruct (IH hist1 r' Hc Hp1 ltac:(lia)) as (h' & H1 & H2 & H3). exists h'. split_and!; [done|done|]. intros E. by apply H3, Happ.
Qed.

(** ** What the protocol does not give *)

(** There is no vote: two standbys that miss the leader both take over, in the same term,
    and commit different events at the same index. *)
Theorem standby_split_brain :
  let promoted := (check_failover (HotStandbyReplica_new kFollower) 25000000).1 in
  let '(a, ea) := leader_append promoted kOrderInserted 1 0 7 100 10 25000000 in
  let '(b, eb) := leader_append promoted kOrderCanceled 1 0 8 100 10 25000000 in
  let '(b', ok) := follower_apply b (default RaftLogEntry_init ea) 25000001 in
  (hr_role a, hr_current_term a, hr_commit_index a) = (kLeader, 2, 1) ∧ (hr_role b, hr_current_term b, hr_commit_index b) = (kLeader, 2, 1) ∧
  (re_order_id <$> ea) = Some 7 ∧ (re_order_id <$> eb) = Some 8 ∧ ok = false ∧ hr_role b' = kLeader.
Proof. split_and!; vm_compute; reflexivity. Qed.

(** A heartbeat that a leader logs takes an index the follower never commits: the follower
    acknowledges the heartbeat and refuses every entry after it. *)
Theorem logged_heartbeat_stops_the_standby leader r log t1 t2 type symbol side order_id price qty ts :
  committed leader log → committed r log → Z.of_nat (length log) + 3 < 2 ^ 64 → hr_role leader = kLeader → hr_current_term r ≤ hr_current_term leader → type ≠ SyncHeartbeat →
  ∃ leader1 hb leader2 e, leader_append leader SyncHeartbeat symbol side order_id price qty ts = (leader1, Some hb) ∧ leader_append leader1 type symbol side order_id price qty ts = (leader2, Some e) ∧
    (follower_apply r hb t1).2 = true ∧ (follower_apply (follower_apply r hb t1).1 e t2).2 = false.
Proof.
  intros HL Hr Hs Hrole Ht Htype. destruct (leader_append_spec leader log SyncHeartbeat symbol side order_id price qty ts HL ltac:(lia) Hrole) as (l1 & hb & E1 & HL1 & Ht1 & Hhb & _ & Hrole1 & Hterm1).
  destruct (leader_append_spec l1 (log ++ [hb]) type symbol side order_id price qty ts HL1 ltac:(rewrite length_app; cbn; lia) Hrole1) as (l2 & e & E2 & HL2 & Ht2 & Hty & _).
  exists l1, hb, l2, e. split_and!; [done|done| |].
  - unfold follower_apply. rewrite (proj2 (Z.ltb_ge _ _)) by lia. destruct (if hr_current_term r <? re_term hb then _ else _). by rewrite bool_decide_eq_true_2.
  - assert (Hidx : re_log_index e = Z.of_nat (length log) + 2). { rewrite (cm_numbers _ _ HL2 (S (length log)) e); [lia|]. by rewrite lookup_app_r, length_app, Nat.add_1_r, Nat.sub_diag by (rewrite length_app; cbn; lia). }
    pose proof (follower_apply_spec r log hb t1 Hr ltac:(lia)) as H1. destruct (follower_apply r hb t1) as [r1 ok1]. cbn [fst]. destruct H1 as (Hc1 & _ & _). rewrite (bool_decide_eq_true_2 _ Hhb), andb_false_r in Hc1.
    pose proof (follower_apply_spec r1 log e t2 Hc1 ltac:(lia)) as H2. destruct (follower_apply r1 e t2) as [r2 ok2]. destruct H2 as (_ & Hiff & _). cbn [snd]. destruct ok2; [|done].
    rewrite bool_decide_eq_false_2 in Hiff by congruence. destruct (proj1 Hiff eq_refl) as (_ & _ & E). lia.
Qed.

(** ** The five-region cluster (src/luv_multiregion_raft_cluster.hpp)

    Each region keeps a log, a hybrid logical clock and the indices the regions have
    acknowledged; the global commit index is their median. *)

Inductive DataCenterRegion := NY4 | LD4 | TY3 | FR2 | SG1.
Inductive CrossDCSyncState := FullySynchronized | DegradedLatency | PartitionedSevered.
#[global] Instance region_eq_dec : EqDecision DataCenterRegion.
Proof. solve_decision. Defined.

Definition region_index (r : DataCenterRegion) : nat := match r with NY4 => 0 | LD4 => 1 | TY3 => 2 | FR2 => 3 | SG1 => 4 end.

Record CrossDCLogEntry := mkCrossEntry {
  ce_term : Z;
  ce_log_index : Z;
  ce_origin_region : DataCenterRegion;
  ce_origin_timestamp_ns : Z;
  ce_hybrid_logical_clock : Z;
  ce_order_id : Z;
  ce_event_type : Z;
  ce_price : Z;
  ce_quantity : Z
}.
Definition CrossDCLogEntry_init : CrossDCLogEntry := mkCrossEntry 1 0 NY4 0 0 0 0 0 0.

Record RegionNodeStatus := mkNode {
  rn_region : DataCenterRegion;
  rn_last_heartbeat_ns : Z;
  rn_round_trip_latency_ns : Z;
  rn_clock_offset_ns : Z;
  rn_is_reachable : bool;
  rn_acked_log_index : Z
}.

Record ClusterQuorumResult := mkQuorum {
  cq_has_global_quorum : bool;
  cq_has_local_quorum : bool;
  cq_active_node_count : Z;
  cq_global_commit_index : Z;
  cq_current_leader_region : DataCenterRegion;
  cq_sync_state : CrossDCSyncState
}.

Definition kMaxRegions : Z := 5.
Definition kLogCapacity : Z := 512.
Definition region_timeout_ns : Z := 200000000.

Record MultiRegionRaftCluster := mkCluster {
  mr_local_region : DataCenterRegion;
  mr_leader_region : DataCenterRegion;
  mr_current_term : Z;
  mr_nodes : list RegionNodeStatus;
  mr_log : list CrossDCLogEntry;
  mr_log_count : Z;
  mr_local_commit_index : Z;
  mr_global_commit_index : Z;
  mr_hlc_counter : Z
}.
Definition init_nodes : list RegionNodeStatus := (λ r, mkNode r 0 0 0 true 0) <$> [NY4; LD4; TY3; FR2; SG1].
Definition MultiRegionRaftCluster_new (local_region : DataCenterRegion) : MultiRegionRaftCluster :=
  mkCluster local_region NY4 1 init_nodes (replicate (Z.to_nat kLogCapacity) CrossDCLogEntry_init) 0 0 0 0.

(** [std::sort] on integers, then the third of five. *)
Definition median_ack (nodes : list RegionNodeStatus) : Z := default 0 (merge_sort (≤) (rn_acked_log_index <$> nodes) !! 2%nat).

Definition update_global_commit_index (c : MultiRegionRaftCluster) : MultiRegionRaftCluster :=
  mkCluster (mr_local_region c) (mr_leader_region c) (mr_current_term c) (mr_nodes c) (mr_log c) (mr_log_count c) (mr_local_commit_index c) (median_ack (mr_nodes c)) (mr_hlc_counter c).

Definition with_nodes (c : MultiRegionRaftCluster) (nodes : list RegionNodeStatus) : MultiRegionRaftCluster :=
  mkCluster (mr_local_region c) (mr_leader_region c) (mr_current_term c) nodes (mr_log c) (mr_log_count c) (mr_local_commit_index c) (mr_global_commit_index c) (mr_hlc_counter c).
Definition with_ack (index : Z) (n : RegionNodeStatus) : RegionNodeStatus :=
  mkNode (rn_region n) (rn_last_heartbeat_ns n) (rn_round_trip_latency_ns n) (rn_clock_offset_ns n) (rn_is_reachable n) index.

(** A region is one of the five of its enum, so its index is always in the array and the
    bound check of the code always passes. *)
Definition on_peer_heartbeat (c : MultiRegionRaftCluster) (from_region : DataCenterRegion) (now_ns rtt_ns clock_offset_ns peer_acked_index : Z) : MultiRegionRaftCluster :=
  update_global_commit_index (with_nodes c (alter (λ n, mkNode (rn_region n) now_ns rtt_ns clock_offset_ns true peer_acked_index) (region_index from_region) (mr_nodes c))).

Definition on_peer_timeout (c : MultiRegionRaftCluster) (from_region : DataCenterRegion) : MultiRegionRaftCluster :=
  with_nodes c (alter (λ n, mkNode (rn_region n) (rn_last_heartbeat_ns n) (rn_round_trip_latency_ns n) (rn_clock_offset_ns n) false (rn_acked_log_index n)) (region_index from_region) (mr_nodes c)).

Definition region_slot (index : Z) : nat := Z.to_nat (Z.land index (kLogCapacity - 1)).

Definition append_order_event (c : MultiRegionRaftCluster) (order_id event_type price qty now_ns : Z) : MultiRegionRaftCluster * option CrossDCLogEntry :=
  if kLogCapacity <=? mr_log_count c then (c, None) else
  let next_idx := u64 (mr_local_commit_index c + 1) in
  let hlc := u64 (mr_hlc_counter c + 1) `max` now_ns in
  let entry := mkCrossEntry (mr_current_term c) next_idx (mr_local_region c) now_ns hlc order_id event_type price qty in
  (update_global_commit_index (mkCluster (mr_local_region c) (mr_leader_region c) (mr_current_term c) (alter (with_ack next_idx) (region_index (mr_local_region c)) (mr_nodes c))
     (<[region_slot next_idx := entry]> (mr_log c)) (u64 (mr_log_count c + 1)) next_idx (mr_global_commit_index c) hlc), Some entry).

Definition replicate_from_remote (c : MultiRegionRaftCluster) (entry : CrossDCLogEntry) (now_ns : Z) : MultiRegionRaftCluster * bool :=
  if ce_term entry <? mr_current_term c then (c, false) else
  let '(term, leader) := if mr_current_term c <? ce_term entry then (ce_term entry, ce_origin_region entry) else (mr_current_term c, mr_leader_region c) in
  let hlc := u64 ((mr_hlc_counter c `max` now_ns) `max` ce_hybrid_logical_clock entry + 1) in
  let c := mkCluster (mr_local_region c) leader term (mr_nodes c) (mr_log c) (mr_log_count c) (mr_local_commit_index c) (mr_global_commit_index c) hlc in
  if ce_log_index entry =? u64 (mr_local_commit_index c + 1) then
    let nodes := alter (with_ack (ce_log_index entry)) (region_index (mr_local_region c)) (mr_nodes c) in
    let nodes := alter (with_ack (ce_log_index entry)) (region_index (ce_origin_region entry)) nodes in
    (update_global_commit_index (mkCluster (mr_local_region c) leader term nodes (<[region_slot (ce_log_index entry) := entry]> (mr_log c)) (u64 (mr_log_count c + 1)) (ce_log_index entry)
       (mr_global_commit_index c) hlc), true)
  else (c, false).

Definition node_active (now_ns : Z) (n : RegionNodeStatus) : bool :=
  rn_is_reachable n && (rn_last_heartbeat_ns n <=? now_ns) && (now_ns - rn_last_heartbeat_ns n <=? region_timeout_ns).

Definition evaluate_cluster_health (c : MultiRegionRaftCluster) (now_ns : Z) : ClusterQuorumResult :=
  let reachable_count := count_if (node_active now_ns) (mr_nodes c) in
  mkQuorum (3 <=? reachable_count) true reachable_count (mr_global_commit_index c) (mr_leader_region c)
    (if reachable_count =? kMaxRegions then FullySynchronized else if 3 <=? reachable_count then DegradedLatency else PartitionedSevered).

(** ** Runs *)

Inductive region_op :=
  | PeerHeartbeat (from : DataCenterRegion) (now_ns rtt_ns clock_offset_ns acked : Z)
  | PeerTimeout (from : DataCenterRegion)
  | AppendEvent (order_id event_type price qty now_ns : Z)
  | RemoteEntry (entry : CrossDCLogEntry) (now_ns : Z).

Definition region_do (c : MultiRegionRaftCluster) (op : region_op) : MultiRegionRaftCluster :=
  match op with
  | PeerHeartbeat from now rtt offset acked => on_peer_heartbeat c from now rtt offset acked
  | PeerTimeout from => on_peer_timeout c from
  | AppendEvent order_id event_type price qty now => (append_order_event c order_id event_type price qty now).1
  | RemoteEntry entry now => (replicate_from_remote c entry now).1
  end.
Definition region_run (c : MultiRegionRaftCluster) (ops : list region_op) : MultiRegionRaftCluster := foldl region_do c ops.

Record region_ok (c : MultiRegionRaftCluster) : Prop := mkRegionOk {
  ro_nodes : length (mr_nodes c) = 5%nat;
  ro_median : mr_global_commit_index c = median_ack (mr_nodes c)
}.

Lemma acks_alter (f : RegionNodeStatus → RegionNodeStatus) (i : nat) (nodes : list RegionNodeStatus) : (∀ n, rn_acked_log_index (f n) = rn_acked_log_index n) → rn_acked_log_index <$> alter f i nodes = rn_acked_log_index <$> nodes.
Proof.
  intros Hf. apply list_eq. intros j. rewrite !list_lookup_fmap, list_lookup_alter. case_decide as E; [subst j|done]. destruct (nodes !! i); [cbn; by rewrite Hf|done].
Qed.

Lemma region_step c op : region_ok c → region_ok (region_do c op).
Proof.
  intros [Hn Hm]. destruct op as [from now rtt offset acked|from|order_id event_type price qty now|entry now]; cbn [region_do].
  - split; cbn; [by rewrite length_alter|done].
  - split; cbn; [by rewrite length_alter|]. rewrite Hm. unfold median_ack. by rewrite acks_alter.
  - unfold append_order_event. case_cond; [by split|]. split; cbn; [by rewrite length_alter|done].
  - unfold replicate_from_remote. case_cond; [by split|]. case_match. case_cond; [|by split]. split; cbn; [by rewrite !length_alter|done].
Qed.

Lemma region_reachable local ops : region_ok (region_run (MultiRegionRaftCluster_new local) ops).
Proof. induction ops as [|op ops IH] using rev_ind; [split; by vm_compute|]. unfold region_run in *. rewrite foldl_app. by apply region_step. Qed.

Lemma count_complement {A} (p : A → bool) l : count_if (λ x, negb (p x)) l = Z.of_nat (length l) - count_if p l.
Proof. unfold count_if. induction l as [|x l IH]; [done|]. cbn. rewrite IH. destruct (p x); cbn; lia. Qed.

Lemma count_fmap {A B} (f : A → B) (p : B → bool) l : count_if p (f <$> l) = count_if (λ x, p (f x)) l.
Proof. unfold count_if. induction l as [|x l IH]; [done|]. cbn. by rewrite IH. Qed.

Lemma count_ext {A} (p q : A → bool) l : (∀ x, p x = q x) → count_if p l = count_if q l.
Proof. intros H. unfold count_if. induction l as [|x l IH]; [done|]. cbn. by rewrite H, IH. Qed.

Lemma median_counts nodes : length nodes = 5%nat →
  3 ≤ count_if (λ n, median_ack nodes <=? rn_acked_log_index n) nodes ∧ count_if (λ n, median_ack nodes <? rn_acked_log_index n) nodes ≤ 2.
Proof.
  intros Hl. unfold median_ack. set (acks := rn_acked_log_index <$> nodes). destruct (sorted_latencies acks) as [Hs Hp]. unfold Telemetry.sort_latencies in *. set (sorted := merge_sort (≤) acks) in *.
  assert (Hlen : length sorted = 5%nat) by (rewrite Hp; subst acks; by rewrite length_fmap). destruct (lookup_lt_is_Some_2 sorted 2 ltac:(lia)) as [v Hv]. rewrite Hv. cbn [default].
  destruct (sorted_counts sorted 2 v Hs Hv) as [H1 H2]. rewrite (count_if_perm _ _ _ Hp) in H1. rewrite (count_if_perm _ _ _ Hp) in H2. unfold acks in H1, H2. rewrite count_fmap in H1. rewrite count_fmap in H2. split.
  - rewrite (count_ext _ (λ n, negb (rn_acked_log_index n <? v))) by (intros; cbn; by rewrite Z.leb_antisym). rewrite count_complement. lia.
  - rewrite (count_ext _ (λ n, negb (rn_acked_log_index n <=? v))) by (intros; cbn; by rewrite Z.ltb_antisym). rewrite count_complement. lia.
Qed.

(** C38 (invariant): the global commit index is always a majority's: after any sequence of heartbeats,
    timeouts, local events and remote entries, at least three of the five regions have
    acknowledged it, and no larger index has been acknowledged by three. *)
Theorem global_commit_is_a_majority local ops :
  let c := region_run (MultiRegionRaftCluster_new local) ops in
  3 ≤ count_if (λ n, mr_global_commit_index c <=? rn_acked_log_index n) (mr_nodes c) ∧
  ∀ index, mr_global_commit_index c < index → count_if (λ n, index <=? rn_acked_log_index n) (mr_nodes c) ≤ 2.
Proof.
  cbv zeta. destruct (region_reachable local ops) as [Hn Hm]. set (c := region_run _ ops) in *. destruct (median_counts (mr_nodes c) Hn) as [H1 H2]. rewrite Hm. split; [done|].
  intros index Hi. etransitivity; [|exact H2]. revert Hi. clear. generalize (median_ack (mr_nodes c)). intros g Hi. unfold count_if. induction (mr_nodes c) as [|n l IH]; cbn; [lia|]. destruct (Z.leb_spec index (rn_acked_log_index n)), (Z.ltb_spec g (rn_acked_log_index n)); lia.
Qed.

(** The hybrid clock respects causality: an event is stamped after everything its region
    has stamped or received, and a region that takes an entry moves past its stamp. *)
Theorem hybrid_clock_respects_causality c order_id event_type price qty now entry :
  0 ≤ mr_hlc_counter c → mr_hlc_counter c + 1 < 2 ^ 64 → 0 ≤ now < 2 ^ 64 - 1 → 0 ≤ ce_hybrid_logical_clock entry < 2 ^ 64 - 1 →
  (match append_order_event c order_id event_type price qty now with
   | (c', Some e) => mr_hlc_counter c < ce_hybrid_logical_clock e ∧ now ≤ ce_hybrid_logical_clock e ∧ mr_hlc_counter c' = ce_hybrid_logical_clock e
   | (c', None) => c' = c
   end) ∧
  (mr_current_term c ≤ ce_term entry → let c' := (replicate_from_remote c entry now).1 in ce_hybrid_logical_clock entry < mr_hlc_counter c' ∧ mr_hlc_counter c < mr_hlc_counter c').
Proof.
  intros H0 H1 Hnow He. split.
  - unfold append_order_event. case_cond; [done|]. cbn. rewrite u64_small by lia. lia.
  - intros Ht. unfold replicate_from_remote. rewrite (proj2 (Z.ltb_ge _ _)) by lia. case_match. rewrite (u64_small (_ `max` _ + 1)) by lia. cbv zeta. case_cond; cbn; lia.
Qed.

(** A late heartbeat with an older index takes the global commit index back. *)
Theorem global_commit_can_go_back :
  let beat r index := PeerHeartbeat r 1 1 0 index in
  let c := region_run (MultiRegionRaftCluster_new NY4) [beat NY4 7; beat LD4 7; beat TY3 7] in
  mr_global_commit_index c = 7 ∧ mr_global_commit_index (region_do c (beat TY3 3)) = 3.
Proof. by vm_compute. Qed.

(** Nothing frees the log: once it holds 512 events the region accepts no more of its own,
    whatever is committed afterwards. *)
Theorem full_log_stays_full c ops :
  kLogCapacity ≤ mr_log_count c → mr_log_count c + Z.of_nat (length ops) < 2 ^ 64 →
  ∀ order_id event_type price qty now, (append_order_event (region_run c ops) order_id event_type price qty now).2 = None.
Proof.
  intros Hc Hs order_id event_type price qty now. assert (Hfull : kLogCapacity ≤ mr_log_count (region_run c ops)); [|unfold append_order_event; by rewrite (proj2 (Z.leb_le _ _))].
  revert c Hc Hs. induction ops as [|op ops IH]; intros c Hc Hs; [done|]. cbn [length] in Hs. cbn [region_run foldl]. fold (region_run (region_do c op) ops).
  assert (Hstep : mr_log_count c ≤ mr_log_count (region_do c op) ≤ mr_log_count c + 1); [|apply IH; lia]. unfold kLogCapacity in *.
  destruct op as [from t rtt offset acked|from|oid et pr q t|entry t]; cbn [region_do]; [cbn; lia|cbn; lia| |].
  - unfold append_order_event. case_cond; cbn; [lia|]. rewrite u64_small by lia. lia.
  - unfold replicate_from_remote. case_cond; [cbn; lia|]. case_match. cbv zeta. case_cond; cbn; [rewrite u64_small by lia|]; lia.
Qed.
