(* ===== verification/Compliance.v ===== *)
(** * Compliance: customer limits, transaction monitoring and the compliance ledger
    (src/luv_compliance.hpp)

    The gate every order of a registered trader passes, the structuring and wash-trade
    detectors and the reports they fill in.  Unsigned arithmetic wraps. *)

From S2P Require Import Prelude HttpText Printf Telemetry.
From Stdlib Require Import ZArith Lia String.
From stdpp Require Import base tactics numbers option list.
Open Scope Z_scope.

Inductive KycTier := kUnverified | kTier1_Basic | kTier2_Verified | kTier3_Institutional.
#[global] Instance kyc_tier_eq_dec : EqDecision KycTier.
Proof. solve_decision. Defined.

Record KycLimits := mkKycLimits { max_single_notional : Z; max_daily_notional : Z }.
Definition get_kyc_limits (tier : KycTier) : KycLimits :=
  match tier with
  | kUnverified => mkKycLimits 0 0
  | kTier1_Basic => mkKycLimits (5000 * 10000) (25000 * 10000)
  | kTier2_Verified => mkKycLimits (100000 * 10000) (1000000 * 10000)
  | kTier3_Institutional => mkKycLimits (100000000 * 10000) (1000000000 * 10000)
  end.

Record CustomerProfile := mkProfile {
  cp_trader_id : Z;
  cp_tier : KycTier;
  cp_ofac_sanctioned : bool;
  cp_suspended : bool;
  cp_daily_notional_traded : Z;
  cp_last_day_reset_ns : Z
}.

Inductive SuspiciousActivityType := SarNone | kStructuring | kWashTrading | kLayeringSpoofing | kVelocityAnomaly | kSanctionsViolation | kKycLimitBreach.

Record SarRecord := mkSar {
  sar_id : Z;
  sar_timestamp_ns : Z;
  sar_suspect_trader_id : Z;
  sar_activity_type : SuspiciousActivityType;
  sar_suspicious_amount : Z;
  sar_occurrences : Z;
  sar_narrative : list Z
}.

(** ** FinCenSarExporter *)

Definition sar_type (t : SuspiciousActivityType) : list Z :=
  match t with
  | kStructuring => str "STRUCTURING_BELOW_CTR_THRESHOLD"
  | kWashTrading => str "WASH_TRADING_SELF_CROSS"
  | kLayeringSpoofing => str "LAYERING_MARKET_MANIPULATION"
  | kVelocityAnomaly => str "ABNORMAL_TRANSACTION_VELOCITY"
  | kSanctionsViolation => str "OFAC_SANCTIONS_MATCH"
  | kKycLimitBreach => str "UNAUTHORIZED_TIER_LIMIT_BREACH"
  | SarNone => str "NONE"
  end.

(** A line of the report, apostrophes for quotation marks. *)
Definition line (s : string) : list Z := requote (str s).

Definition sar_json (sar : SarRecord) : list Z :=
  line "{" ++ [10] ++ line "  'regulatory_filing': 'FinCEN_SAR_FORM_111'," ++ [10] ++ line "  'sar_id': " ++ print_unsigned (sar_id sar) ++ line "," ++ [10] ++
  line "  'filing_timestamp_ns': " ++ print_unsigned (sar_timestamp_ns sar) ++ line "," ++ [10] ++ line "  'suspect_subject': {" ++ [10] ++
  line "    'trader_id': " ++ print_unsigned (sar_suspect_trader_id sar) ++ [10] ++ line "  }," ++ [10] ++ line "  'suspicious_activity': {" ++ [10] ++
  line "    'category': '" ++ sar_type (sar_activity_type sar) ++ line "'," ++ [10] ++ line "    'amount_cents': " ++ print_unsigned (sar_suspicious_amount sar) ++ line "," ++ [10] ++
  line "    'event_occurrences': " ++ print_unsigned (sar_occurrences sar) ++ line "," ++ [10] ++ line "    'narrative': '" ++ sar_narrative sar ++ line "'" ++ [10] ++
  line "  }" ++ [10] ++ line "}" ++ [10].

(** The text left in the buffer (cut when it does not fit) and the result. *)
Definition to_json (sar : SarRecord) (buffer : bool) (buffer_size : Z) : list Z * bool :=
  if negb buffer || (buffer_size =? 0) then ([], false) else
  (take (Z.to_nat (buffer_size - 1)) (sar_json sar), Z.of_nat (length (sar_json sar)) <? buffer_size).

(** ** ComplianceRegistry *)

Definition MaxTraders : Z := 1024.

Record ComplianceRegistry := mkRegistry { cr_profiles : list CustomerProfile; cr_next_sar_id : Z }.
Definition ComplianceRegistry_new : ComplianceRegistry := mkRegistry ((λ i, mkProfile (Z.of_nat i) kUnverified false false 0 0) <$> seq 0 (Z.to_nat MaxTraders)) 1000.

Definition set_profile (r : ComplianceRegistry) (trader_id : Z) (f : CustomerProfile → CustomerProfile) : ComplianceRegistry :=
  mkRegistry (alter f (Z.to_nat trader_id) (cr_profiles r)) (cr_next_sar_id r).

Definition register_trader (r : ComplianceRegistry) (trader_id : Z) (tier : KycTier) (sanctioned : bool) : ComplianceRegistry * bool :=
  if MaxTraders <=? trader_id then (r, false)
  else (set_profile r trader_id (λ p, mkProfile (cp_trader_id p) tier sanctioned false 0 (cp_last_day_reset_ns p)), true).

Definition set_sanctioned (r : ComplianceRegistry) (trader_id : Z) (sanctioned : bool) : ComplianceRegistry :=
  if trader_id <? MaxTraders
  then set_profile r trader_id (λ p, mkProfile (cp_trader_id p) (cp_tier p) sanctioned (cp_suspended p) (cp_daily_notional_traded p) (cp_last_day_reset_ns p)) else r.

Definition set_suspended (r : ComplianceRegistry) (trader_id : Z) (suspended : bool) : ComplianceRegistry :=
  if trader_id <? MaxTraders
  then set_profile r trader_id (λ p, mkProfile (cp_trader_id p) (cp_tier p) (cp_ofac_sanctioned p) suspended (cp_daily_notional_traded p) (cp_last_day_reset_ns p)) else r.

Definition get_profile (r : ComplianceRegistry) (trader_id : Z) : option CustomerProfile :=
  if MaxTraders <=? trader_id then None else cr_profiles r !! Z.to_nat trader_id.

(** [strncpy] into 256 characters. *)
Definition populate_sar (r : ComplianceRegistry) (trader_id : Z) (type : SuspiciousActivityType) (amount now_ns : Z) (reason : list Z) : ComplianceRegistry * SarRecord :=
  (mkRegistry (cr_profiles r) (u64 (cr_next_sar_id r + 1)), mkSar (u64 (cr_next_sar_id r + 1)) now_ns trader_id type amount 1 (take 255 reason)).

(** A refusal; a report only when [out_sar] is not null. *)
Definition refuse_order (out_sar : bool) (r : ComplianceRegistry) (trader_id : Z) (type : SuspiciousActivityType) (amount now_ns : Z) (reason : string) : ComplianceRegistry * bool * option SarRecord :=
  if out_sar then let '(r, sar) := populate_sar r trader_id type amount now_ns (str reason) in (r, false, Some sar) else (r, false, None).

Definition kDayNs : Z := 86400 * 1000000000.

Definition validate_order (r : ComplianceRegistry) (trader_id notional now_ns : Z) (out_sar : bool) : ComplianceRegistry * bool * option SarRecord :=
  match get_profile r trader_id with
  | None => refuse_order out_sar r trader_id kKycLimitBreach notional now_ns "Unregistered trader ID attempted order entry"
  | Some profile =>
      if cp_ofac_sanctioned profile then refuse_order out_sar r trader_id kSanctionsViolation notional now_ns "Blocked: OFAC Sanctions list exact match" else
      if cp_suspended profile then (r, false, None) else
      if bool_decide (cp_tier profile = kUnverified) then refuse_order out_sar r trader_id kKycLimitBreach notional now_ns "Order rejected: Customer KYC unverified (Tier 0)" else
      let limits := get_kyc_limits (cp_tier profile) in
      if max_single_notional limits <? notional then refuse_order out_sar r trader_id kKycLimitBreach notional now_ns "Order exceeds maximum single-order KYC tier limit" else
      let '(daily, reset) := if u64 (cp_last_day_reset_ns profile + kDayNs) <=? now_ns then (0, now_ns) else (cp_daily_notional_traded profile, cp_last_day_reset_ns profile) in
      let store daily p := mkProfile (cp_trader_id p) (cp_tier p) (cp_ofac_sanctioned p) (cp_suspended p) daily reset in
      if max_daily_notional limits <? u64 (daily + notional)
      then refuse_order out_sar (set_profile r trader_id (store daily)) trader_id kKycLimitBreach notional now_ns "Order exceeds 24-hour aggregate KYC tier volume"
      else (set_profile r trader_id (store (u64 (daily + notional))), true, None)
  end.

(** ** TransactionMonitoringEngine *)

Definition kStructuringMin : Z := 8500 * 10000.
Definition kStructuringMax : Z := 9999 * 10000.
Definition kStructuringTriggerCount : Z := 3.

Record TraderStructuringState := mkStructuring { ts_window_start_ns : Z; ts_count : Z; ts_accumulated_amount : Z }.
Record TransactionMonitoringEngine := mkMonitor { te_structuring_states : list TraderStructuringState; te_sar_counter : Z }.
Definition TransactionMonitoringEngine_new : TransactionMonitoringEngine := mkMonitor (replicate (Z.to_nat MaxTraders) (mkStructuring 0 0 0)) 5000.

Definition check_structuring (m : TransactionMonitoringEngine) (trader_id amount now_ns : Z) (out_sar : bool) : TransactionMonitoringEngine * bool * option SarRecord :=
  if MaxTraders <=? trader_id then (m, false, None) else
  match te_structuring_states m !! Z.to_nat trader_id with
  | None => (m, false, None)
  | Some state =>
      if (kStructuringMin <=? amount) && (amount <=? kStructuringMax) then
        let state := if u64 (ts_window_start_ns state + kDayNs) <=? now_ns then mkStructuring now_ns 0 0 else state in
        let state := mkStructuring (ts_window_start_ns state) (u32 (ts_count state + 1)) (u64 (ts_accumulated_amount state + amount)) in
        let m := mkMonitor (<[Z.to_nat trader_id := state]> (te_structuring_states m)) (te_sar_counter m) in
        if kStructuringTriggerCount <=? ts_count state then
          if out_sar then
            (mkMonitor (te_structuring_states m) (u64 (te_sar_counter m + 1)), true,
             Some (mkSar (u64 (te_sar_counter m + 1)) now_ns trader_id kStructuring (ts_accumulated_amount state) (ts_count state)
               (str "Multiple structured transactions below $10,000 threshold within 24 hours")))
          else (m, true, None)
        else (m, false, None)
      else (m, false, None)
  end.

Definition check_wash_trade (m : TransactionMonitoringEngine) (buy_trader_id sell_trader_id quantity price now_ns : Z) (out_sar : bool) : TransactionMonitoringEngine * bool * option SarRecord :=
  if (buy_trader_id =? sell_trader_id) && negb (buy_trader_id =? 0) then
    if out_sar then
      (mkMonitor (te_structuring_states m) (u64 (te_sar_counter m + 1)), true,
       Some (mkSar (u64 (te_sar_counter m + 1)) now_ns buy_trader_id kWashTrading (u64 (quantity * (if 0 <? price then price else 0))) 1
         (str "Direct self-cross wash trade detected on same trader account")))
    else (m, true, None)
  else (m, false, None).

(** ** The gate *)

Record profile_ok (p : CustomerProfile) : Prop := mkProfileOk {
  po_daily : 0 ≤ cp_daily_notional_traded p ≤ max_daily_notional (get_kyc_limits (cp_tier p));
  po_reset : 0 ≤ cp_last_day_reset_ns p < 2 ^ 64
}.
Record registry_ok (r : ComplianceRegistry) : Prop := mkRegistryOk {
  rg_length : length (cr_profiles r) = Z.to_nat MaxTraders;
  rg_profiles : Forall profile_ok (cr_profiles r)
}.

(** What counts against the day, and what the customer may do. *)
Definition spent (p : CustomerProfile) (now_ns : Z) : Z := if u64 (cp_last_day_reset_ns p + kDayNs) <=? now_ns then 0 else cp_daily_notional_traded p.
Definition may_trade (p : CustomerProfile) (notional now_ns : Z) : Prop :=
  cp_ofac_sanctioned p = false ∧ cp_suspended p = false ∧ cp_tier p ≠ kUnverified ∧
  notional ≤ max_single_notional (get_kyc_limits (cp_tier p)) ∧ spent p now_ns + notional ≤ max_daily_notional (get_kyc_limits (cp_tier p)).

Lemma registry_new_ok : registry_ok ComplianceRegistry_new.
Proof.
  split; [by cbn; rewrite length_fmap, length_seq|]. cbn. apply Forall_fmap, Forall_forall. intros i _. cbn. by split.
Qed.

Lemma set_profile_ok r id f : registry_ok r → (∀ p, get_profile r id = Some p → profile_ok p → profile_ok (f p)) → id < MaxTraders → registry_ok (set_profile r id f).
Proof.
  intros [Hl Hp] Hf Hid. split; cbn [cr_profiles set_profile]; [by rewrite length_alter|]. rewrite Forall_lookup in *. intros j p Hj. rewrite list_lookup_alter in Hj. case_decide as E; [subst j|by eapply Hp].
  destruct (cr_profiles r !! Z.to_nat id) as [q|] eqn:Eq; [|done]. cbn in Hj. simplify_eq. apply Hf; [|by eapply Hp]. unfold get_profile. by rewrite (proj2 (Z.leb_gt _ _)).
Qed.

Lemma set_profile_get r id f j : 0 ≤ id < MaxTraders → 0 ≤ j → get_profile (set_profile r id f) j = if decide (j = id) then f <$> get_profile r id else get_profile r j.
Proof.
  intros Hid Hj. unfold get_profile. cbn [cr_profiles set_profile]. case_decide as E; [subst j|].
  - rewrite (proj2 (Z.leb_gt _ _)) by lia. by rewrite list_lookup_alter_eq.
  - case_cond; [done|]. rewrite list_lookup_alter_ne; [done|lia].
Qed.

Lemma refuse_keeps out_sar r id type amount now reason :
  let '(r', ok, sar) := refuse_order out_sar r id type amount now reason in
  ok = false ∧ cr_profiles r' = cr_profiles r ∧ (is_Some sar ↔ out_sar = true) ∧ (∀ s, sar = Some s → sar_activity_type s = type ∧ sar_suspect_trader_id s = id ∧ sar_suspicious_amount s = amount).
Proof. unfold refuse_order. destruct out_sar; cbn; split_and!; try done; try (by intros s [= <-]); by split; [intros []|]. Qed.

Lemma same_profiles r r' : cr_profiles r' = cr_profiles r → registry_ok r → registry_ok r' ∧ ∀ j, get_profile r' j = get_profile r j.
Proof. intros E [H1 H2]. split; [split; by rewrite E|]. intros j. unfold get_profile. by rewrite E. Qed.

Lemma limits_small tier : 0 ≤ max_single_notional (get_kyc_limits tier) ≤ 2 ^ 60 ∧ 0 ≤ max_daily_notional (get_kyc_limits tier) ≤ 2 ^ 60.
Proof. by destruct tier; vm_compute. Qed.

(** What the gate does with an order. *)
Definition gate_post (r : ComplianceRegistry) (trader_id notional now_ns : Z) (out_sar : bool) (result : ComplianceRegistry * bool * option SarRecord) : Prop :=
  let '(r', ok, sar) := result in
  registry_ok r' ∧ (ok = true ↔ ∃ p, get_profile r trader_id = Some p ∧ may_trade p notional now_ns) ∧
  (∀ j, 0 ≤ j → j ≠ trader_id → get_profile r' j = get_profile r j) ∧
  (∀ p, get_profile r trader_id = Some p → ∃ p', get_profile r' trader_id = Some p' ∧ cp_tier p' = cp_tier p ∧ spent p' now_ns = spent p now_ns + (if ok then notional else 0)) ∧
  (is_Some sar ↔ ok = false ∧ out_sar = true ∧ ∀ p, get_profile r trader_id = Some p → cp_ofac_sanctioned p = false → cp_suspended p = false).

Lemma gate_refused r r0 id notional now out_sar type reason :
  registry_ok r0 → (∀ j, 0 ≤ j → j ≠ id → get_profile r0 j = get_profile r j) →
  (∀ p, get_profile r id = Some p → ¬ may_trade p notional now ∧ (cp_ofac_sanctioned p = false → cp_suspended p = false) ∧ ∃ p', get_profile r0 id = Some p' ∧ cp_tier p' = cp_tier p ∧ spent p' now = spent p now) →
  gate_post r id notional now out_sar (refuse_order out_sar r0 id type notional now reason).
Proof.
  intros Hok Hothers Hp. pose proof (refuse_keeps out_sar r0 id type notional now reason) as Hk. destruct (refuse_order _ _ _ _ _ _ _) as [[r' ok] sar]. destruct Hk as (-> & E & Hs & _). cbn.
  destruct (same_profiles r0 r' E Hok) as [Hok' Hsame]. split_and!; [done| | | |].
  - split; [done|]. intros (p & Ep & Hm). destruct (Hp p Ep) as [Hn _]. done.
  - intros j H0 Hj. rewrite Hsame. by apply Hothers.
  - intros p Ep. destruct (Hp p Ep) as (_ & _ & p' & E' & Ht & Hsp). exists p'. rewrite Hsame. split_and!; [done|done|lia].
  - rewrite Hs. split; [|by intros (_ & ? & _)]. intros Ho. split_and!; [done|done|]. intros p Ep. by destruct (Hp p Ep) as (_ & ? & _).
Qed.

Lemma gate_total r id p notional now out_sar daily reset :
  registry_ok r → 0 ≤ id → get_profile r id = Some p → 0 ≤ notional → 0 ≤ now → now + kDayNs < 2 ^ 64 →
  cp_ofac_sanctioned p = false → cp_suspended p = false → cp_tier p ≠ kUnverified → notional ≤ max_single_notional (get_kyc_limits (cp_tier p)) →
  (daily, reset) = (if u64 (cp_last_day_reset_ns p + kDayNs) <=? now then (0, now) else (cp_daily_notional_traded p, cp_last_day_reset_ns p)) →
  let store daily q := mkProfile (cp_trader_id q) (cp_tier q) (cp_ofac_sanctioned q) (cp_suspended q) daily reset in
  gate_post r id notional now out_sar
    (if max_daily_notional (get_kyc_limits (cp_tier p)) <? u64 (daily + notional)
     then refuse_order out_sar (set_profile r id (store daily)) id kKycLimitBreach notional now "Order exceeds 24-hour aggregate KYC tier volume"
     else (set_profile r id (store (u64 (daily + notional))), true, None)).
Proof.
  intros Hr Hid Ep Hn Hnow Hclock Hs1 Hs2 Ht Hsingle Ed store. assert (Hlt : id < MaxTraders) by (unfold get_profile in Ep; destruct (Z.leb_spec MaxTraders id); [done|lia]).
  assert (Hpok : profile_ok p) by (destruct Hr as [_ Hall]; rewrite Forall_lookup in Hall; unfold get_profile in Ep; rewrite (proj2 (Z.leb_gt _ _)) in Ep by done; by eapply Hall).
  destruct Hpok as [Hdaily Hreset]. destruct (limits_small (cp_tier p)) as [L1 L2].
  assert (Hd : daily = spent p now ∧ 0 ≤ daily ≤ max_daily_notional (get_kyc_limits (cp_tier p)) ∧ 0 ≤ reset < 2 ^ 64 ∧ now < u64 (reset + kDayNs)).
  { unfold spent. destruct (Z.leb_spec (u64 (cp_last_day_reset_ns p + kDayNs)) now); simplify_eq; split_and!; try lia; unfold kDayNs in *; try lia. rewrite u64_small by lia. lia. }
  destruct Hd as (Hsp & Hrange & Hrs & Hfresh). rewrite (u64_small (daily + notional)) by lia.
  assert (Hstored : ∀ d, spent (store d p) now = d) by (intros d; unfold spent, store; cbn; by rewrite (proj2 (Z.leb_gt _ _))).
  destruct (Z.ltb_spec (max_daily_notional (get_kyc_limits (cp_tier p))) (daily + notional)) as [Hover|Hin].
  - apply gate_refused.
    + apply set_profile_ok; [done| |done]. intros q Eq _. rewrite Ep in Eq. simplify_eq. by split.
    + intros j H0 Hj. rewrite set_profile_get by lia. by rewrite decide_False.
    + intros q Eq. rewrite Ep in Eq. simplify_eq. split_and!; [|done|]; [intros (_ & _ & _ & _ & Hm); lia|]. rewrite set_profile_get, decide_True, Ep by lia. by eexists.
  - cbn. split_and!.
    + apply set_profile_ok; [done| |done]. intros q Eq _. rewrite Ep in Eq. simplify_eq. split; cbn; lia.
    + split; [intros _|done]. exists p. split; [done|]. unfold may_trade. split_and!; try done. lia.
    + intros j H0 Hj. rewrite set_profile_get by lia. by rewrite decide_False.
    + intros q Eq. rewrite Ep in Eq. simplify_eq. rewrite set_profile_get, decide_True, Ep by lia. eexists. split_and!; [done|done|]. rewrite Hstored. lia.
    + split; [by intros []|by intros (? & _)].
Qed.

Lemma gate_exact r trader_id notional now_ns out_sar :
  registry_ok r → 0 ≤ trader_id → 0 ≤ notional < 2 ^ 64 → 0 ≤ now_ns → now_ns + kDayNs < 2 ^ 64 →
  gate_post r trader_id notional now_ns out_sar (validate_order r trader_id notional now_ns out_sar).
Proof.
  intros Hr Hid Hn Hnow Hclock. unfold validate_order. destruct (get_profile r trader_id) as [p|] eqn:Ep; [|apply gate_refused; [done|done|congruence]].
  destruct (cp_ofac_sanctioned p) eqn:E1. { apply gate_refused; [done|done|]. intros q Eq. rewrite Ep in Eq. simplify_eq. split_and!; [intros (? & _); congruence|congruence|by exists q]. }
  destruct (cp_suspended p) eqn:E2.
  { cbn. split_and!; [done|split; [done|]| | |].
    - intros (q & Eq & _ & Hq & _). congruence.
    - done.
    - intros q Eq. exists q. split_and!; [done|done|lia].
    - split; [by intros []|]. intros (_ & _ & H). specialize (H p Ep E1). congruence. }
  case_bool_decide as E3. { apply gate_refused; [done|done|]. intros q Eq. rewrite Ep in Eq. simplify_eq. split_and!; [by intros (_ & _ & ? & _)|done|by exists q]. }
  destruct (Z.ltb_spec (max_single_notional (get_kyc_limits (cp_tier p))) notional) as [E4|E4].
  { apply gate_refused; [done|done|]. intros q Eq. rewrite Ep in Eq. simplify_eq. split_and!; [intros (_ & _ & _ & ? & _); lia|done|by exists q]. }
  destruct (if u64 (cp_last_day_reset_ns p + kDayNs) <=? now_ns then _ else _) as [daily reset] eqn:Ed. apply gate_total; (done || lia).
Qed.

(** C36 (functional): the compliance gate is exact: an order is accepted when and only when its trader is
    registered, neither sanctioned nor suspended, verified, and within both the
    single-order and the daily limit of its tier, however large the order; an accepted
    order is added to the day's total, which so never passes the limit; a refusal
    changes nobody's total and, when the caller asks for a report, is reported unless the
    trader is suspended without being sanctioned; no other trader is touched.  The clock is
    assumed to be more than a day below the end of its 64-bit range. *)
Theorem kyc_gate_exact r trader_id notional now_ns out_sar :
  registry_ok r → 0 ≤ trader_id → 0 ≤ notional < 2 ^ 64 → 0 ≤ now_ns → now_ns + kDayNs < 2 ^ 64 →
  let '(r', ok, sar) := validate_order r trader_id notional now_ns out_sar in
  registry_ok r' ∧ (ok = true ↔ ∃ p, get_profile r trader_id = Some p ∧ may_trade p notional now_ns) ∧
  (∀ j, 0 ≤ j → j ≠ trader_id → get_profile r' j = get_profile r j) ∧
  (∀ p, get_profile r trader_id = Some p → ∃ p', get_profile r' trader_id = Some p' ∧ cp_tier p' = cp_tier p ∧ spent p' now_ns = spent p now_ns + (if ok then notional else 0)) ∧
  (is_Some sar ↔ ok = false ∧ out_sar = true ∧ ∀ p, get_profile r trader_id = Some p → cp_ofac_sanctioned p = false → cp_suspended p = false).
Proof.
  intros Hr Hid Hn Hnow Hclock. pose proof (gate_exact r trader_id notional now_ns out_sar Hr Hid Hn Hnow Hclock) as Hg. by destruct (validate_order r trader_id notional now_ns out_sar) as [[r' ok] sar].
Qed.

(** A whole registry: every slot holds its own trader's profile, a verified tier is the only
    way to a daily total, the total stays within the tier's limit, times fit their type. *)
Record registry_typed (r : ComplianceRegistry) : Prop := mkTyped {
  ty_ok : registry_ok r;
  ty_ids : ∀ i p, cr_profiles r !! i = Some p → cp_trader_id p = Z.of_nat i;
  ty_sar : 0 ≤ cr_next_sar_id r < 2 ^ 64
}.

Inductive kyc_op := Register (trader_id : Z) (tier : KycTier) (sanctioned : bool) | Sanction (trader_id : Z) (b : bool) | Suspend (trader_id : Z) (b : bool) | Order (trader_id notional now_ns : Z) (out_sar : bool).
Definition kyc_do (r : ComplianceRegistry) (op : kyc_op) : ComplianceRegistry :=
  match op with
  | Register id tier sanctioned => (register_trader r id tier sanctioned).1
  | Sanction id b => set_sanctioned r id b
  | Suspend id b => set_suspended r id b
  | Order id notional now out_sar => (validate_order r id notional now out_sar).1.1
  end.
Definition kyc_op_ok (op : kyc_op) : Prop :=
  match op with
  | Register id _ _ | Sanction id _ | Suspend id _ => 0 ≤ id
  | Order id notional now _ => 0 ≤ id ∧ 0 ≤ notional < 2 ^ 64 ∧ 0 ≤ now ∧ now + kDayNs < 2 ^ 64
  end.

Definition same_ids (r r' : ComplianceRegistry) : Prop :=
  cp_trader_id <$> cr_profiles r' = cp_trader_id <$> cr_profiles r ∧ (0 ≤ cr_next_sar_id r < 2 ^ 64 → 0 ≤ cr_next_sar_id r' < 2 ^ 64).

Lemma set_profile_ids r id f : (∀ p, cp_trader_id (f p) = cp_trader_id p) → same_ids r (set_profile r id f).
Proof.
  intros Hf. split; [|done]. cbn. apply list_eq. intros i. rewrite !list_lookup_fmap, list_lookup_alter. case_decide as E; [subst i|done]. destruct (cr_profiles r !! Z.to_nat id) as [p|]; [|done]. cbn. by rewrite Hf.
Qed.

Lemma refuse_ids r r0 out_sar id type amount now reason : same_ids r r0 → same_ids r (refuse_order out_sar r0 id type amount now reason).1.1.
Proof. intros [E1 E2]. unfold refuse_order. destruct out_sar; [|done]. split; [done|]. intros _. apply u64_range. Qed.

Lemma validate_ids r id notional now out_sar : same_ids r (validate_order r id notional now out_sar).1.1.
Proof.
  unfold validate_order. assert (Hr : same_ids r r) by done. destruct (get_profile r id) as [p|]; [|by apply refuse_ids]. repeat (case_cond; [by (apply refuse_ids || done)|]).
  case_match. case_cond; [apply refuse_ids|]; by apply set_profile_ids.
Qed.

Lemma kyc_step r op : registry_ok r → kyc_op_ok op → registry_ok (kyc_do r op) ∧ same_ids r (kyc_do r op).
Proof.
  intros Hr Hop. destruct op as [id tier b|id b|id b|id notional now out_sar]; cbn [kyc_do kyc_op_ok] in *.
  - unfold register_trader. destruct (Z.leb_spec MaxTraders id); [done|]. split; [|by apply set_profile_ids]. apply set_profile_ok; [done| |lia]. intros p _ [_ Hq]. split; [|done]. cbn. pose proof (limits_small tier). lia.
  - unfold set_sanctioned. destruct (Z.ltb_spec id MaxTraders); [|done]. split; [|by apply set_profile_ids]. apply set_profile_ok; [done| |lia]. intros p _ [H1 H2]. by split.
  - unfold set_suspended. destruct (Z.ltb_spec id MaxTraders); [|done]. split; [|by apply set_profile_ids]. apply set_profile_ok; [done| |lia]. intros p _ [H1 H2]. by split.
  - split; [|apply validate_ids]. destruct Hop as (H1 & H2 & H3 & H4). pose proof (gate_exact r id notional now out_sar Hr H1 H2 H3 H4) as Hg. destruct (validate_order _ _ _ _ _) as [[r' ok] sar]. apply Hg.
Qed.

(** C37 (type): the registry stays well formed.  Whatever is registered, sanctioned,
    suspended and ordered, in any order and with any 64-bit amounts, at times more than a day
    below the end of the 64-bit clock, slot [i] holds the
    profile of trader [i], its day's total lies between zero and the daily limit of its
    tier (so an unverified customer has traded nothing), and every stored time and
    report number fits its 64-bit type. *)
Theorem kyc_registry_well_formed ops :
  Forall kyc_op_ok ops → registry_typed (foldl kyc_do ComplianceRegistry_new ops).
Proof.
  intros Hops. assert (H : ∀ r, registry_ok r → registry_ok (foldl kyc_do r ops) ∧ same_ids r (foldl kyc_do r ops)).
  { induction Hops as [|op ops Hop _ IH]; intros r Hr; cbn [foldl]; [done|]. destruct (kyc_step r op Hr Hop) as [Hr1 [E1 E2]]. destruct (IH _ Hr1) as [Hr2 [E3 E4]]. split; [done|]. split; [congruence|auto]. }
  destruct (H _ registry_new_ok) as [Hok [Hids Hsar]]. split; [done| |apply Hsar; done]. intros i p Hi. assert (E : (cp_trader_id <$> cr_profiles (foldl kyc_do ComplianceRegistry_new ops)) !! i = Some (cp_trader_id p)) by (by rewrite list_lookup_fmap, Hi).
  rewrite Hids in E. cbn [cr_profiles ComplianceRegistry_new] in E. rewrite <- list_fmap_compose, list_lookup_fmap in E. apply fmap_Some in E as (j & Hj & E). apply lookup_seq in Hj as [-> _]. by rewrite E.
Qed.

Definition demo_kyc : list kyc_op := [Register 7 kTier1_Basic false; Order 7 50000000 1000 true; Sanction 7 true; Order 7 1 2000 true].
Lemma kyc_registry_well_formed_witness : registry_typed (foldl kyc_do ComplianceRegistry_new demo_kyc).
Proof. apply kyc_registry_well_formed. unfold demo_kyc. repeat apply Forall_cons_2; try apply Forall_nil_2; unfold kyc_op_ok, kDayNs; lia. Defined.

Definition demo_registry : ComplianceRegistry := kyc_do ComplianceRegistry_new (Register 7 kTier1_Basic false).
Lemma kyc_gate_exact_witness :
  (∃ p, get_profile demo_registry 7 = Some p ∧ may_trade p 50000000 1000) ∧ ¬ (∃ p, get_profile demo_registry 7 = Some p ∧ may_trade p 50000001 1000).
Proof.
  assert (Hr : registry_ok demo_registry) by (apply (kyc_step ComplianceRegistry_new (Register 7 kTier1_Basic false) registry_new_ok); cbn; lia).
  pose proof (kyc_gate_exact demo_registry 7 50000000 1000 true Hr ltac:(lia) ltac:(lia) ltac:(lia) ltac:(unfold kDayNs; lia)) as H1.
  pose proof (kyc_gate_exact demo_registry 7 50000001 1000 true Hr ltac:(lia) ltac:(lia) ltac:(lia) ltac:(unfold kDayNs; lia)) as H2.
  assert (E1 : (validate_order demo_registry 7 50000000 1000 true).1.2 = true) by reflexivity. assert (E2 : (validate_order demo_registry 7 50000001 1000 true).1.2 = false) by reflexivity.
  destruct (validate_order demo_registry 7 50000000 1000 true) as [[r1 ok1] s1], (validate_order demo_registry 7 50000001 1000 true) as [[r2 ok2] s2]. cbn in E1, E2. split; [apply H1; exact E1|]. intros Hm. apply H2 in Hm. congruence.
Defined.

(** Amounts from $9,999.0001 up to the $10,000 threshold are neither counted nor flagged. *)
Theorem structuring_misses_the_threshold m trader_id amount now_ns out_sar :
  kStructuringMax < amount → check_structuring m trader_id amount now_ns out_sar = (m, false, None).
Proof.
  intros H. unfold check_structuring. case_cond; [done|]. destruct (te_structuring_states m !! Z.to_nat trader_id); [|done]. rewrite (proj2 (Z.leb_gt amount _)) by done. by rewrite andb_false_r.
Qed.

(** ** ComplianceAuditLedger: the compliance audit ledger (src/luv_compliance.hpp,
    ComplianceAuditLedger)

    A file of 96-byte records, each holding the hash of the one before: sequence and
    timestamp (8 bytes each, little endian), trader id (2), event and activity type,
    padding (4), amount (8), the previous hash (bytes 32-63) and the record's own hash
    (64-95), the SHA-256 of the 64 bytes before it.  SHA-256 is a parameter; the file is
    a list of bytes and the results of the system calls are inputs. *)

Definition ledger_record_size : nat := 96.

Record ComplianceAuditEvent := mkComplianceEvent {
  cv_sequence : Z;
  cv_timestamp_ns : Z;
  cv_trader_id : Z;
  cv_event_type : Z;
  cv_activity_type : Z;
  cv_notional_amount : Z;
  cv_previous_hash : list Z;
  cv_hash : list Z
}.

(** The 32 bytes before the hashes, the 64 before its own, and the whole record. *)
Definition compliance_fields (e : ComplianceAuditEvent) : list Z :=
  enc_le 8 (cv_sequence e) ++ enc_le 8 (cv_timestamp_ns e) ++ enc_le 2 (cv_trader_id e) ++ enc_le 1 (cv_event_type e) ++ enc_le 1 (cv_activity_type e) ++ replicate 4 0 ++
  enc_le 8 (cv_notional_amount e).
Definition compliance_body (e : ComplianceAuditEvent) : list Z := compliance_fields e ++ cv_previous_hash e.
Definition compliance_bytes (e : ComplianceAuditEvent) : list Z := compliance_body e ++ cv_hash e.

(** Members of a record read back. *)
Definition row_sequence (r : list Z) : Z := le_val (take 8 r).
Definition row_previous (r : list Z) : list Z := take 32 (drop 32 r).
Definition row_hash (r : list Z) : list Z := drop 64 r.

(** [cg_fd] says that the file is open. *)
Record ComplianceAuditLedger := mkLedger { cg_open : bool; cg_sequence : Z; cg_tail : list Z; cg_file : list Z }.
Definition no_hash : list Z := replicate 32 0.
Definition ComplianceAuditLedger_new (file : list Z) : ComplianceAuditLedger := mkLedger false 0 no_hash file.

Section ledger.
Context (sha256 : list Z → list Z).

Definition compute_hash (e : ComplianceAuditEvent) : list Z := sha256 (compliance_body e).

(** The loops of [open] and, with [check_hash], of [verify_integrity]: the number of
    records that were in order, the hash of the last of them, and whether all [n] were.  [pread_ok] says whether
    the read of a record succeeds. *)
Fixpoint read_ledger (check_hash : bool) (pread_ok : Z → bool) (n : nat) (file : list Z) (seq : Z) (previous : list Z) : Z * list Z * bool :=
  match n with
  | O => (seq, previous, true)
  | S n' =>
      let r := take ledger_record_size file in
      if negb (pread_ok seq) || negb (length r =? ledger_record_size)%nat then (seq, previous, false) else
      if negb (row_sequence r =? seq) || negb (bool_decide (row_previous r = previous)) then (seq, previous, false) else
      if check_hash && negb (bool_decide (row_hash r = sha256 (take 64 r))) then (seq, previous, false)
      else read_ledger check_hash pread_ok n' (drop ledger_record_size file) (u64 (seq + 1)) (row_hash r)
  end.

Definition ledger_rows (file : list Z) : nat := (length file / ledger_record_size)%nat.
Definition ledger_whole (file : list Z) : bool := (length file mod ledger_record_size =? 0)%nat.

(** [close] also synchronises and unlocks the file. *)
Definition ledger_close (l : ComplianceAuditLedger) : ComplianceAuditLedger := mkLedger false (cg_sequence l) (cg_tail l) (cg_file l).

Definition ledger_open (l : ComplianceAuditLedger) (path open_ok fstat_ok : bool) (pread_ok : Z → bool) : ComplianceAuditLedger * bool :=
  if negb path || cg_open l then (l, false) else
  if negb open_ok then (l, false) else
  let l := mkLedger true (cg_sequence l) (cg_tail l) (cg_file l) in
  if negb fstat_ok || negb (ledger_whole (cg_file l)) then (ledger_close l, false) else
  let '(seq, tail, ok) := read_ledger false pread_ok (ledger_rows (cg_file l)) (cg_file l) 0 no_hash in
  (mkLedger ok seq tail (cg_file l), ok).

(** [written] is how many bytes the one call of [write] puts into the file. *)
Definition log_event (l : ComplianceAuditLedger) (timestamp_ns trader_id event_type activity_type notional : Z) (written : nat) : ComplianceAuditLedger * bool :=
  if negb (cg_open l) then (l, false) else
  let e := mkComplianceEvent (cg_sequence l) timestamp_ns trader_id event_type activity_type notional (cg_tail l) no_hash in
  let e := mkComplianceEvent (cg_sequence l) timestamp_ns trader_id event_type activity_type notional (cg_tail l) (compute_hash e) in
  (mkLedger true (u64 (cg_sequence l + 1)) (cv_hash e) (cg_file l ++ take written (compliance_bytes e)), (written =? ledger_record_size)%nat).

Definition verify_integrity (path open_ok fstat_ok : bool) (pread_ok : Z → bool) (file : list Z) : Z * option (list Z) :=
  if negb path || negb open_ok || negb fstat_ok || negb (ledger_whole file) then (0, None)
  else let '(seq, root, ok) := read_ledger true pread_ok (ledger_rows file) file 0 no_hash in (seq, if ok then Some root else None).

(** ** Chained records *)

(** [rows] are sound records from [seq] on, behind a record with hash [previous]. *)
Fixpoint sound_rows (rows : list (list Z)) (seq : Z) (previous : list Z) : Prop :=
  match rows with
  | [] => True
  | r :: rows' => length r = ledger_record_size ∧ row_sequence r = seq ∧ row_previous r = previous ∧ row_hash r = sha256 (take 64 r) ∧ sound_rows rows' (u64 (seq + 1)) (row_hash r)
  end.
Definition tail_hash (rows : list (list Z)) (previous : list Z) : list Z := default previous (row_hash <$> last rows).

Lemma tail_hash_cons r rows p : tail_hash (r :: rows) p = tail_hash rows (row_hash r).
Proof using Type. unfold tail_hash. destruct rows as [|r' rows]; [done|]. rewrite last_cons_cons. by destruct (last (r' :: rows)) eqn:E; [|apply last_None in E]. Qed.

Lemma read_ledger_accepts check rows rest seq previous :
  sound_rows rows seq previous → 0 ≤ seq → seq + Z.of_nat (length rows) < 2 ^ 64 →
  read_ledger check (λ _, true) (length rows) (concat rows ++ rest) seq previous = (seq + Z.of_nat (length rows), tail_hash rows previous, true).
Proof using Type.
  revert seq previous. induction rows as [|r rows IH]; intros seq previous Hs H0 Hn; cbn [read_ledger length concat] in *; [by rewrite Z.add_0_r|].
  destruct Hs as (Hl & Hq & Hp & Hh & Hs). rewrite <- app_assoc, <- Hl, take_app_length, drop_app_length. rewrite Hl. cbn [negb orb Nat.eqb ledger_record_size].
  rewrite Hq, Z.eqb_refl, bool_decide_eq_true_2, bool_decide_eq_true_2 by done. cbn [negb orb]. rewrite andb_false_r. rewrite tail_hash_cons.
  rewrite u64_small in Hs |- * by lia. rewrite IH by (done || lia). do 2 f_equal. lia.
Qed.

Lemma rows_whole rows : Forall (λ r, length r = ledger_record_size) rows → ledger_whole (concat rows) = true ∧ ledger_rows (concat rows) = length rows.
Proof using Type.
  intros H. assert (Hl : length (concat rows) = (length rows * ledger_record_size)%nat) by (induction H as [|r rows Hr _ IH]; [done|]; cbn [concat length]; rewrite length_app, Hr, IH; lia).
  unfold ledger_whole, ledger_rows. rewrite Hl. split; [rewrite Nat.Div0.mod_mul; done|apply Nat.div_mul; done].
Qed.

Lemma sound_lengths rows seq p : sound_rows rows seq p → Forall (λ r, length r = ledger_record_size) rows.
Proof using Type. revert seq p. induction rows as [|r rows IH]; intros seq p H; constructor; [apply H|]. destruct H as (_ & _ & _ & _ & H). by eapply IH. Qed.

Lemma sound_snoc rows r seq p :
  sound_rows rows seq p → length r = ledger_record_size → row_sequence r = seq + Z.of_nat (length rows) → row_previous r = tail_hash rows p → row_hash r = sha256 (take 64 r) →
  0 ≤ seq → seq + Z.of_nat (length rows) < 2 ^ 64 → sound_rows (rows ++ [r]) seq p.
Proof using Type.
  revert seq p. induction rows as [|r0 rows IH]; intros seq p Hs Hl Hq Hp Hh H0 Hn; cbn [app sound_rows length] in *; [rewrite Z.add_0_r in Hq; done|].
  destruct Hs as (A & B & C & D & E). split_and!; try done. rewrite u64_small in * by lia. rewrite tail_hash_cons in Hp. apply IH; (done || lia).
Qed.

(** A ledger in step with its file. *)
Record ledger_ok (l : ComplianceAuditLedger) (rows : list (list Z)) : Prop := mkLedgerOk {
  lo_open : cg_open l = true;
  lo_file : cg_file l = concat rows;
  lo_rows : sound_rows rows 0 no_hash;
  lo_sequence : cg_sequence l = Z.of_nat (length rows);
  lo_tail : cg_tail l = tail_hash rows no_hash;
  lo_hash : length (cg_tail l) = 32%nat
}.

Context (Hsha : ∀ x, length (sha256 x) = 32%nat).

Lemma fields_length e : length (compliance_fields e) = 32%nat.
Proof using Type. unfold compliance_fields. by rewrite !length_app, !enc_le_length, length_replicate. Qed.

Lemma body_length e : length (cv_previous_hash e) = 32%nat → length (compliance_body e) = 64%nat.
Proof using Type. intros H. unfold compliance_body. by rewrite length_app, fields_length, H. Qed.

Lemma log_event_spec l rows ts trader event activity amount :
  ledger_ok l rows → Z.of_nat (length rows) + 1 < 2 ^ 64 →
  ∃ r l', log_event l ts trader event activity amount ledger_record_size = (l', true) ∧ ledger_ok l' (rows ++ [r]).
Proof using Hsha.
  intros [H1 H2 H3 H4 H5 H6] Hn. unfold log_event. rewrite H1. cbn [negb]. cbv zeta. set (e0 := mkComplianceEvent (cg_sequence l) ts trader event activity amount (cg_tail l) no_hash).
  set (e := mkComplianceEvent _ _ _ _ _ _ _ (compute_hash e0)). assert (Hb : compliance_body e = compliance_body e0) by done. assert (Hlb : length (compliance_body e) = 64%nat) by (by apply body_length).
  assert (Hl : length (compliance_bytes e) = ledger_record_size) by (unfold compliance_bytes; rewrite length_app, Hlb; change (cv_hash e) with (sha256 (compliance_body e0)); by rewrite Hsha).
  assert (Ht64 : take 64 (compliance_bytes e) = compliance_body e) by (unfold compliance_bytes; rewrite <- Hlb; apply take_app_length).
  assert (Hh : row_hash (compliance_bytes e) = sha256 (take 64 (compliance_bytes e))) by (rewrite Ht64, Hb; unfold row_hash, compliance_bytes; rewrite <- Hlb; apply drop_app_length).
  assert (Hp : row_previous (compliance_bytes e) = cg_tail l).
  { unfold row_previous, compliance_bytes, compliance_body. rewrite <- app_assoc, drop_app_length' by (by rewrite fields_length). by rewrite take_app_length'. }
  assert (Hq : row_sequence (compliance_bytes e) = Z.of_nat (length rows)).
  { unfold row_sequence, compliance_bytes, compliance_body, compliance_fields. rewrite <- !app_assoc, take_app_length' by (by rewrite enc_le_length). rewrite le_val_enc. cbn [cv_sequence e]. rewrite H4. apply Z.mod_small. change (256 ^ Z.of_nat 8) with (2 ^ 64). lia. }
  exists (compliance_bytes e). eexists. split; [reflexivity|]. rewrite take_ge by lia. split; cbn [cg_open cg_file cg_sequence cg_tail].
  - done.
  - rewrite H2, concat_app. cbn. by rewrite app_nil_r.
  - apply sound_snoc; [done|done|by rewrite Hq|by rewrite Hp, H5|done|lia|lia].
  - rewrite H4, length_app, u64_small by lia. cbn. lia.
  - unfold tail_hash. rewrite last_snoc. change (compute_hash e0 = row_hash (compliance_bytes e)). by rewrite Hh, Ht64, Hb.
  - cbn. apply Hsha.
Qed.

(** What the ledger logged verifies and is found again: after an event is written, the
    file passes [verify_integrity] with one more record and the ledger's tail, and a
    process that opens it continues from the same sequence number and hash. *)
Theorem ledger_reopens l rows ts trader event activity amount :
  ledger_ok l rows → Z.of_nat (length rows) + 1 < 2 ^ 64 →
  ∃ l', log_event l ts trader event activity amount ledger_record_size = (l', true) ∧
    verify_integrity true true true (λ _, true) (cg_file l') = (Z.of_nat (length rows) + 1, Some (cg_tail l')) ∧
    ledger_open (ComplianceAuditLedger_new (cg_file l')) true true true (λ _, true) = (l', true).
Proof using Hsha.
  intros Hl Hn. destruct (log_event_spec l rows ts trader event activity amount Hl Hn) as (r & l' & E & Hl'). exists l'. split; [done|].
  destruct (rows_whole (rows ++ [r]) (sound_lengths _ _ _ (lo_rows _ _ Hl'))) as [Hw Hc]. rewrite (lo_file _ _ Hl'). unfold verify_integrity, ledger_open. cbn [negb orb cg_open ComplianceAuditLedger_new cg_file]. rewrite Hw, Hc. cbn [negb orb].
  rewrite <- (app_nil_r (concat (rows ++ [r]))) at 1 2. rewrite !read_ledger_accepts by (try apply (lo_rows _ _ Hl'); rewrite ?length_app; cbn; lia). rewrite length_app. cbn [length]. rewrite (lo_tail _ _ Hl'). split; [f_equal; lia|].
  f_equal. pose proof (lo_sequence _ _ Hl') as Hs. rewrite length_app in Hs. cbn in Hs. destruct l' as [o sq t f]. destruct Hl' as [Ho Hf _ _ Ht _]. cbn in *. subst. f_equal; lia.
Qed.

(** A record with the wrong number stops the reader. *)
Lemma read_ledger_gap check rows r seq previous :
  sound_rows rows seq previous → 0 ≤ seq → seq + Z.of_nat (length rows) < 2 ^ 64 → length r = ledger_record_size → row_sequence r ≠ seq + Z.of_nat (length rows) →
  (read_ledger check (λ _, true) (length rows + 1) (concat rows ++ r) seq previous).2 = false.
Proof using Type.
  revert seq previous. induction rows as [|r0 rows IH]; intros seq previous Hs H0 Hn Hl Hq; cbn [read_ledger length concat app Nat.add] in *.
  - rewrite take_ge by lia. rewrite Hl. cbn [negb orb Nat.eqb ledger_record_size]. by rewrite (proj2 (Z.eqb_neq _ _)) by lia.
  - destruct Hs as (Hl0 & Hq0 & Hp0 & Hh0 & Hs). rewrite <- app_assoc, <- Hl0, take_app_length, drop_app_length. rewrite Hl0. cbn [negb orb Nat.eqb ledger_record_size].
    rewrite Hq0, Z.eqb_refl, bool_decide_eq_true_2, bool_decide_eq_true_2 by done. cbn [negb orb]. rewrite andb_false_r. rewrite u64_small in Hs |- * by lia. apply IH; (done || lia).
Qed.

(** A write that fails before its first byte is not undone: the sequence number and the
    tail have moved on, so the next event that is written makes the file unreadable. *)
Theorem failed_write_breaks_the_ledger l rows ts trader event activity amount ts' trader' event' activity' amount' :
  ledger_ok l rows → Z.of_nat (length rows) + 2 < 2 ^ 64 →
  let l1 := (log_event l ts trader event activity amount 0).1 in
  ∃ l2, log_event l1 ts' trader' event' activity' amount' ledger_record_size = (l2, true) ∧
    (verify_integrity true true true (λ _, true) (cg_file l2)).2 = None ∧ (ledger_open (ComplianceAuditLedger_new (cg_file l2)) true true true (λ _, true)).2 = false.
Proof using Hsha.
  intros [H1 H2 H3 H4 H5 H6] Hn. cbv zeta. unfold log_event at 2. rewrite H1. cbn [negb fst take]. rewrite app_nil_r. unfold log_event. cbn [cg_open negb cg_sequence cg_tail cg_file]. eexists. split; [reflexivity|]. cbn [cg_file].
  rewrite H4, u64_small by lia. set (e := mkComplianceEvent (Z.of_nat (length rows) + 1) ts' _ _ _ _ _ (compute_hash _)). set (r := compliance_bytes e).
  assert (Hl : length r = ledger_record_size). { unfold r, compliance_bytes. rewrite length_app, body_length; [|apply Hsha]. change (cv_hash e) with (sha256 (compliance_body (mkComplianceEvent (Z.of_nat (length rows) + 1) ts' trader' event' activity' amount' (cv_previous_hash e) no_hash))). by rewrite Hsha. }
  assert (Hq : row_sequence r = Z.of_nat (length rows) + 1).
  { unfold r, row_sequence, compliance_bytes, compliance_body, compliance_fields. rewrite <- !app_assoc, take_app_length' by (by rewrite enc_le_length). rewrite le_val_enc. cbn [cv_sequence e]. apply Z.mod_small. change (256 ^ Z.of_nat 8) with (2 ^ 64). lia. }
  rewrite (take_ge r) by lia. rewrite H2. assert (Hrows : Forall (λ r, length r = ledger_record_size) (rows ++ [r])) by (apply Forall_app; split; [by eapply sound_lengths|by apply Forall_singleton]).
  destruct (rows_whole _ Hrows) as [Hw Hc]. assert (Ecat : concat (rows ++ [r]) = concat rows ++ r) by (rewrite concat_app; cbn [concat]; by rewrite app_nil_r).
  rewrite Ecat in Hw. rewrite Ecat, length_app in Hc. cbn [length] in Hc. clearbody r.
  assert (Hread : ∀ check, (read_ledger check (λ _, true) (length rows + 1) (concat rows ++ r) 0 no_hash).2 = false) by (intros check; apply read_ledger_gap; [done|lia|lia|done|lia]).
  unfold verify_integrity, ledger_open. cbn [negb orb cg_open ComplianceAuditLedger_new cg_file]. rewrite Hw, Hc. cbn [negb orb]. pose proof (Hread true) as Ht. pose proof (Hread false) as Hf.
  destruct (read_ledger true _ _ _ _ _) as [[? ?] ok1]. destruct (read_ledger false _ _ _ _ _) as [[? ?] ok2]. cbn in *. by subst.
Qed.
End ledger.
