(* ===== verification/Sharding.v ===== *)
(** * Sharding: symbol-sharded dispatch of orders (src/luv_sharding.hpp)

    A bounded ring per shard between the dispatching thread and the shard's worker, and
    the dispatcher that picks the ring by symbol.  Calls are taken one at a time; the
    ring's two-thread behaviour is that of the arena's ring. *)

From S2P Require Import Prelude Ring Risk Gateway.
From Stdlib Require Import ZArith Lia.
From stdpp Require Import base tactics gmap numbers option list.
Open Scope Z_scope.

(** ** SpscRingBuffer<OrderIntent, 1024> *)

Definition shard_bits : Z := 10.
Definition OrderIntent_init : OrderIntent := mkIntent 0 0 0 0 0 0 0 0.
Definition ShardRing_new : SPSCRing OrderIntent := mkRing 0 0 (Some ∅).

Definition ring_push (r : SPSCRing OrderIntent) (item : OrderIntent) : SPSCRing OrderIntent * bool :=
  let head := ring_head r in
  let tail := ring_tail r in
  if 2 ^ shard_bits <=? u64 (head - tail) then (r, false) else
  let r := write_slot r (Z.land head (2 ^ shard_bits - 1)) item in
  (mkRing (u64 (head + 1)) tail (slots r), true).

Definition ring_pop (r : SPSCRing OrderIntent) : SPSCRing OrderIntent * option OrderIntent :=
  let tail := ring_tail r in
  let head := ring_head r in
  if tail =? head then (r, None) else
  (mkRing head (u64 (tail + 1)) (slots r), Some (read_slot OrderIntent_init r (Z.land tail (2 ^ shard_bits - 1)))).

Definition shard_size (r : SPSCRing OrderIntent) : Z := if ring_tail r <=? ring_head r then ring_head r - ring_tail r else 0.
Definition shard_empty (r : SPSCRing OrderIntent) : bool := ring_head r =? ring_tail r.

(** ** SymbolShardedDispatcher<4> *)

Definition NumShards : Z := 4.
Definition Dispatcher_new : list (SPSCRing OrderIntent) := replicate (Z.to_nat NumShards) ShardRing_new.

Definition get_shard_index (symbol_idx : Z) : Z := Z.land symbol_idx (NumShards - 1).

Definition dispatch (d : list (SPSCRing OrderIntent)) (order : OrderIntent) : option (list (SPSCRing OrderIntent) * bool) :=
  let shard := Z.to_nat (get_shard_index (oi_symbol_idx order)) in
  ring ← d !! shard;
  let '(ring, ok) := ring_push ring order in
  Some (<[shard := ring]> d, ok).

Definition poll_shard (d : list (SPSCRing OrderIntent)) (shard_idx : Z) : option (list (SPSCRing OrderIntent) * option OrderIntent) :=
  if NumShards <=? shard_idx then Some (d, None) else
  ring ← d !! Z.to_nat shard_idx;
  let '(ring, out) := ring_pop ring in
  Some (<[Z.to_nat shard_idx := ring]> d, out).

(** ** Order per symbol *)

Notation shard_queue := (holds_queue OrderIntent_init shard_bits).

Lemma shard_bits_ok : 0 ≤ shard_bits ≤ 32.
Proof. done. Qed.

Lemma ring_push_spec r q item : shard_queue r q →
  let '(r', ok) := ring_push r item in (ok = true ↔ Z.of_nat (length q) < 1024) ∧ shard_queue r' (if ok then q ++ [item] else q).
Proof. intros Hq. apply (push_spec _ _ shard_bits_ok r q item Hq). Qed.

Lemma ring_pop_spec r q : shard_queue r q → let '(r', out) := ring_pop r in out = q !! 0%nat ∧ shard_queue r' (drop 1 q).
Proof.
  intros Hq. pose proof (pop_spec _ _ shard_bits_ok r q Hq) as Hp. unfold try_pop in Hp. unfold ring_pop. rewrite (Z.eqb_sym (ring_tail r)). destruct (ring_head r =? ring_tail r); done.
Qed.

Lemma shard_of_symbol s : 0 ≤ get_shard_index s < NumShards.
Proof. unfold get_shard_index. change (NumShards - 1) with (Z.ones 2). rewrite Z.land_ones by done. apply Z.mod_pos_bound. done. Qed.

(** The dispatching thread and the workers, a call at a time: what was accepted and what
    each shard handed out. *)
Inductive shard_op := DispatchOrder (order : OrderIntent) | PollShard (shard_idx : Z).
Record ShardRun := mkShardRun { sh_rings : list (SPSCRing OrderIntent); sh_accepted : list OrderIntent; sh_polled : list (Z * OrderIntent) }.

Definition shard_do (r : ShardRun) (op : shard_op) : option ShardRun :=
  match op with
  | DispatchOrder order => '(d, ok) ← dispatch (sh_rings r) order; Some (mkShardRun d (if (ok : bool) then sh_accepted r ++ [order] else sh_accepted r) (sh_polled r))
  | PollShard shard =>
      '(d, out) ← poll_shard (sh_rings r) shard;
      Some (mkShardRun d (sh_accepted r) (match out with Some o => sh_polled r ++ [(shard, o)] | None => sh_polled r end))
  end.
Fixpoint shard_run (r : ShardRun) (ops : list shard_op) : option ShardRun :=
  match ops with [] => Some r | op :: ops' => r ← shard_do r op; shard_run r ops' end.

Definition on_shard (shard : Z) (orders : list OrderIntent) : list OrderIntent := filter (λ o, get_shard_index (oi_symbol_idx o) = shard) orders.
Definition from_shard (shard : Z) (polled : list (Z * OrderIntent)) : list OrderIntent := snd <$> filter (λ p, p.1 = shard) polled.

(** Each shard holds what was accepted for it and not handed out yet. *)
Definition shard_inv (r : ShardRun) : Prop :=
  length (sh_rings r) = Z.to_nat NumShards ∧
  ∀ shard, 0 ≤ shard < NumShards → ∃ ring q, sh_rings r !! Z.to_nat shard = Some ring ∧ shard_queue ring q ∧ on_shard shard (sh_accepted r) = from_shard shard (sh_polled r) ++ q.

Lemma on_shard_snoc shard orders o : on_shard shard (orders ++ [o]) = on_shard shard orders ++ (if decide (get_shard_index (oi_symbol_idx o) = shard) then [o] else []).
Proof. unfold on_shard. rewrite filter_app, filter_cons, filter_nil. done. Qed.
Lemma from_shard_snoc shard polled s o : from_shard shard (polled ++ [(s, o)]) = from_shard shard polled ++ (if decide (s = shard) then [o] else []).
Proof. unfold from_shard. rewrite filter_app, filter_cons, filter_nil, fmap_app. cbn. by case_decide. Qed.

Lemma shard_step r op : shard_inv r → (match op with PollShard s => 0 ≤ s | _ => True end) → ∃ r', shard_do r op = Some r' ∧ shard_inv r'.
Proof.
  intros [Hl Hs] Hop. destruct op as [o|s]; cbn [shard_do].
  - unfold dispatch. set (k := get_shard_index (oi_symbol_idx o)). destruct (Hs k (shard_of_symbol _)) as (ring & q & Hr & Hq & E). rewrite Hr. cbn [mbind option_bind]. pose proof (ring_push_spec ring q o Hq) as Hp.
    destruct (ring_push ring o) as [ring' ok]. destruct Hp as [_ Hq']. eexists. split; [reflexivity|]. split; cbn [sh_rings sh_accepted sh_polled]; [by rewrite length_insert|]. intros t Ht.
    destruct (decide (t = k)) as [->|Hne].
    + exists ring', (if ok then q ++ [o] else q). rewrite list_lookup_insert_eq by (apply lookup_lt_is_Some; by eexists). split_and!; [done|done|]. destruct ok; [|done]. rewrite on_shard_snoc, decide_True by done. by rewrite E, <- app_assoc.
    + destruct (Hs t Ht) as (ring2 & q2 & Hr2 & Hq2 & E2). exists ring2, q2. pose proof (shard_of_symbol (oi_symbol_idx o)) as Hk. fold k in Hk. rewrite list_lookup_insert_ne by (unfold NumShards in *; lia).
      split_and!; [done|done|]. destruct ok; [|done]. rewrite on_shard_snoc, decide_False by (intros Hx; apply Hne; by rewrite <- Hx). by rewrite app_nil_r.
  - unfold poll_shard. destruct (Z.leb_spec NumShards s). { eexists. split; [reflexivity|]. by split. }
    destruct (Hs s ltac:(lia)) as (ring & q & Hr & Hq & E). rewrite Hr. cbn [mbind option_bind]. pose proof (ring_pop_spec ring q Hq) as Hp. destruct (ring_pop ring) as [ring' out]. destruct Hp as [-> Hq'].
    eexists. split; [reflexivity|]. split; cbn [sh_rings sh_accepted sh_polled]; [by rewrite length_insert|]. intros t Ht. destruct (decide (t = s)) as [->|Hne].
    + exists ring', (drop 1 q). rewrite list_lookup_insert_eq by (apply lookup_lt_is_Some; by eexists). split_and!; [done|done|]. destruct q as [|o q]; [done|]. change ((o :: q) !! 0%nat) with (Some o). cbv iota. rewrite from_shard_snoc, decide_True by done. by rewrite E, <- app_assoc.
    + destruct (Hs t Ht) as (ring2 & q2 & Hr2 & Hq2 & E2). exists ring2, q2. rewrite list_lookup_insert_ne by (unfold NumShards in *; lia). split_and!; [done|done|].
      destruct (q !! 0%nat); [|done]. rewrite from_shard_snoc, decide_False by done. by rewrite app_nil_r.
Qed.

(** Sharding keeps the order of each symbol: however dispatching and polling interleave,
    the orders for a symbol that were accepted are exactly those its one shard handed
    out, in the order they were dispatched, followed by those still queued there. *)
Theorem shards_keep_symbol_order ops :
  Forall (λ op, match op with PollShard s => 0 ≤ s | _ => True end) ops →
  ∃ r, shard_run (mkShardRun Dispatcher_new [] []) ops = Some r ∧
    ∀ symbol, ∃ waiting, shard_queue (default ShardRing_new (sh_rings r !! Z.to_nat (get_shard_index symbol))) waiting ∧
      filter (λ o, oi_symbol_idx o = symbol) (sh_accepted r) = filter (λ o, oi_symbol_idx o = symbol) (from_shard (get_shard_index symbol) (sh_polled r) ++ waiting).
Proof.
  intros Hops. assert (H0 : shard_inv (mkShardRun Dispatcher_new [] [])).
  { split; [done|]. intros shard Hs. exists ShardRing_new, []. split_and!; [|exists 0%nat; split; try done; by eexists|done]. cbn. apply lookup_replicate_2. unfold NumShards in *. lia. }
  assert (Hrun : ∀ r, shard_inv r → ∃ r', shard_run r ops = Some r' ∧ shard_inv r').
  { clear H0. induction Hops as [|op ops Hop _ IH]; intros r Hr; cbn [shard_run]; [by exists r|]. destruct (shard_step r op Hr Hop) as (r1 & -> & Hr1). by apply IH. }
  destruct (Hrun _ H0) as (r & Hr & [_ Hs]). exists r. split; [done|]. intros symbol. destruct (Hs _ (shard_of_symbol symbol)) as (ring & q & Hl & Hq & E). exists q. rewrite Hl. cbn [default]. split; [done|]. rewrite <- E.
  unfold on_shard. rewrite list_filter_filter. apply list_filter_iff. intros o. split; [by intros ->|by intros [? _]].
Qed.
