(* ===== verification/Routing.v ===== *)
(** * Routing: splitting an order over venues and over time (src/luv_sor.hpp,
    src/luv_sor_smart_router.hpp, src/luv_strategy.hpp)

    Two smart order routers sweep the venues from the best to the worst, three
    strategies split an order into slices, and a sandbox runs a strategy within a
    budget.  [None] is undefined behaviour: an array index out of range or a signed
    overflow. *)

From S2P Require Import Prelude Risk.
From Stdlib Require Import ZArith Lia String.
From stdpp Require Import base tactics gmap numbers option list sorting.
Open Scope Z_scope.

(** ** Greedy sweeps *)

Fixpoint sum_z (l : list Z) : Z := match l with [] => 0 | x :: l' => x + sum_z l' end.

Lemma sum_z_app a b : sum_z (a ++ b) = sum_z a + sum_z b.
Proof. induction a as [|x a IH]; cbn; [done|]. rewrite IH. lia. Qed.

(** Take what is wanted from the first entry, the rest from the next ones. *)
Section greedy.
Context {A : Type} (avail : A → Z).

Fixpoint greedy (l : list A) (rem : Z) : list (A * Z) :=
  match l with
  | [] => []
  | x :: l' => if rem <=? 0 then [] else (x, rem `min` avail x) :: greedy l' (rem - rem `min` avail x)
  end.

Lemma greedy_prefix l rem : ∃ k, (greedy l rem).*1 = take k l.
Proof.
  revert rem. induction l as [|x l IH]; intros rem; cbn; [by exists 0%nat|]. case_cond; [by exists 0%nat|]. destruct (IH (rem - rem `min` avail x)) as [k Hk]. exists (S k). cbn. by rewrite Hk.
Qed.

Lemma greedy_in l rem p : p ∈ greedy l rem → p.1 ∈ l.
Proof. intros Hp. destruct (greedy_prefix l rem) as [k Hk]. apply (list_elem_of_fmap_2 fst) in Hp. rewrite Hk in Hp. apply elem_of_take in Hp as (i & Hi & _). by eapply list_elem_of_lookup_2. Qed.

Lemma greedy_zero l : greedy l 0 = [].
Proof. by destruct l. Qed.

Lemma greedy_app l k rem : 0 ≤ rem → greedy (l ++ k) rem = greedy l rem ++ greedy k (rem - sum_z (greedy l rem).*2).
Proof.
  revert rem. induction l as [|x l IH]; intros rem Hr; cbn; [by rewrite Z.sub_0_r|]. destruct (Z.leb_spec rem 0).
  - cbn. destruct k as [|y k]; [done|]. cbn. by rewrite Z.sub_0_r, (proj2 (Z.leb_le rem 0)).
  - cbn. rewrite IH by lia. cbn. do 3 f_equal. lia.
Qed.

Lemma greedy_sum l rem : Forall (λ x, 0 < avail x) l → 0 ≤ rem →
  sum_z (greedy l rem).*2 = rem `min` sum_z (avail <$> l) ∧ Forall (λ p, 0 < p.2 ≤ avail p.1) (greedy l rem).
Proof.
  intros Hl. revert rem. induction Hl as [|x l Hx Hl IH]; intros rem Hr; cbn; [split; [lia|done]|].
  assert (0 ≤ sum_z (avail <$> l)) by (clear -Hl; induction Hl; cbn; lia). destruct (Z.leb_spec rem 0); cbn; [split; [lia|done]|].
  destruct (IH (rem - rem `min` avail x)) as [E F]; [lia|]. rewrite E. split; [lia|]. apply Forall_cons. split; [cbn; lia|done].
Qed.

(** Everything before an entry that is used is used up, and everything is when the
    wanted amount is not reached. *)
Lemma greedy_full l1 x l2 rem y q : Forall (λ x, 0 < avail x) (l1 ++ x :: l2) → 0 ≤ rem →
  (y, q) ∈ greedy l2 (rem - sum_z (greedy (l1 ++ [x]) rem).*2) → (x, avail x) ∈ greedy (l1 ++ [x]) rem.
Proof.
  intros Hl Hr Hy. apply Forall_app in Hl as [H1 H2]. apply Forall_cons in H2 as [Hx H2]. rewrite greedy_app in * by done. destruct (greedy_sum l1 rem H1 Hr) as [E _]. set (r := rem - sum_z (greedy l1 rem).*2) in *.
  assert (Hpos : 0 < rem - sum_z (greedy l1 rem ++ greedy [x] r).*2). { destruct l2 as [|z l2]; [by apply elem_of_nil in Hy|]. cbn in Hy. case_match eqn:Eb; [by apply elem_of_nil in Hy|]. by apply Z.leb_gt in Eb. }
  rewrite fmap_app in Hpos. rewrite sum_z_app in Hpos.
  apply elem_of_app. right. cbn in Hpos |- *. destruct (Z.leb_spec r 0); cbn in Hpos; [lia|]. rewrite Z.min_r by lia. apply list_elem_of_singleton. done.
Qed.
Lemma greedy_priority (lt : A → A → bool) l rem x y q :
  StronglySorted (λ a b, lt b a = false) l → NoDup l → Forall (λ x, 0 < avail x) l → 0 ≤ rem →
  x ∈ l → (y, q) ∈ greedy l rem → x ≠ y → lt x y = true → (x, avail x) ∈ greedy l rem.
Proof.
  intros Hs Hn Hl Hr Hx Hy Hne Hlt. pose proof (greedy_in _ _ _ Hy) as Hyl. cbn in Hyl.
  destruct (sorted_before lt l x y Hs Hx Hyl Hne Hlt) as (l1 & l2 & -> & Hy2). change (x :: l2) with ([x] ++ l2) in *. rewrite app_assoc in *. rewrite greedy_app in * by done.
  apply elem_of_app in Hy as [Hy|Hy].
  - exfalso. apply greedy_in in Hy. apply NoDup_app in Hn as (_ & Hd & _). by apply (Hd y).
  - apply elem_of_app. left. rewrite <- app_assoc in Hl. by eapply greedy_full.
Qed.

Lemma greedy_all l rem : Forall (λ x, 0 < avail x) l → 0 ≤ rem → sum_z (greedy l rem).*2 < rem → greedy l rem = (λ x, (x, avail x)) <$> l.
Proof.
  intros Hl. revert rem. induction Hl as [|x l Hx Hl IH]; intros rem Hr; cbn; [done|]. destruct (Z.leb_spec rem 0); cbn; [lia|]. intros Hs. destruct (greedy_sum l (rem - rem `min` avail x) Hl ltac:(lia)) as [E _].
  assert (0 ≤ sum_z (avail <$> l)) by (clear -Hl; induction Hl; cbn; lia). assert (Em : rem `min` avail x = avail x) by lia. rewrite Em in *. f_equal. apply IH; lia.
Qed.
End greedy.

(** ** Sorted lists *)

Lemma StronglySorted_sublist {A} (R : A → A → Prop) l k : l `sublist_of` k → StronglySorted R k → StronglySorted R l.
Proof.
  induction 1 as [|x l k Hs IH|x l k Hs IH]; intros Hk; [constructor| |]; apply StronglySorted_inv in Hk as [Hk Hx]; [|by apply IH]. constructor; [by apply IH|]. rewrite Forall_forall in *. intros y Hy. by apply Hx, (elem_of_sublist _ _ _ Hy).
Qed.

Lemma StronglySorted_reverse {A} (R : A → A → Prop) l : StronglySorted (flip R) l → StronglySorted R (reverse l).
Proof.
  induction 1 as [|x l Hs IH Hx]; [constructor|]. rewrite reverse_cons. apply StronglySorted_app. split_and!; [|done|by repeat constructor]. intros a b Ha ->%list_elem_of_singleton. apply elem_of_reverse in Ha. rewrite ?reverse_involutive in Ha. rewrite Forall_forall in Hx. exact (Hx a Ha).
Qed.

Lemma insertion_foldl {A} (lt : A → A → bool) l : foldl (λ sorted key, insert_sorted lt key sorted) [] l = insertion_sort lt (reverse l).
Proof. induction l as [|x l IH] using rev_ind; [done|]. rewrite foldl_app, reverse_snoc. cbn. by rewrite IH. Qed.

(** ** SmartOrderRouter of src/luv_sor.hpp *)

Inductive VenueId := kNasdaq | kNyse | kBats | kIex | kCme | kMaxVenues.
#[global] Instance venue_eq_dec : EqDecision VenueId.
Proof. solve_decision. Defined.
Definition venue_index (v : VenueId) : nat := match v with kNasdaq => 0 | kNyse => 1 | kBats => 2 | kIex => 3 | kCme => 4 | kMaxVenues => 5 end.

Record VenueQuote := mkQuote {
  vq_venue : VenueId;
  vq_bid_price : Z;
  vq_bid_qty : Z;
  vq_ask_price : Z;
  vq_ask_qty : Z;
  vq_fee_bps : Z;
  vq_latency_ns : Z
}.
Record VenueRouteSlice := mkSlice { sl_venue : VenueId; sl_price : Z; sl_qty : Z; sl_client_order_id : Z }.

Definition all_venues : list VenueId := [kNasdaq; kNyse; kBats; kIex; kCme].
Definition SmartOrderRouter_new : list VenueQuote := (λ v, mkQuote v 0 0 0 0 10 500) <$> all_venues.

Definition update_venue_quote (quotes : list VenueQuote) (venue : VenueId) (bid_price bid_qty ask_price ask_qty fee_bps latency_ns : Z) : list VenueQuote :=
  if (venue_index venue <? venue_index kMaxVenues)%nat
  then alter (λ q, mkQuote (vq_venue q) bid_price bid_qty ask_price ask_qty fee_bps latency_ns) (venue_index venue) quotes else quotes.

Record RankedVenue := mkRanked { rk_venue : VenueId; rk_available_price : Z; rk_available_qty : Z; rk_fee_bps : Z }.

Definition candidate (side limit_price : Z) (q : VenueQuote) : option RankedVenue :=
  if side =? kBuy then
    if (0 <? vq_ask_price q) && (vq_ask_price q <=? limit_price) && (0 <? vq_ask_qty q) then Some (mkRanked (vq_venue q) (vq_ask_price q) (vq_ask_qty q) (vq_fee_bps q)) else None
  else
    if (limit_price <=? vq_bid_price q) && (0 <? vq_bid_qty q) then Some (mkRanked (vq_venue q) (vq_bid_price q) (vq_bid_qty q) (vq_fee_bps q)) else None.

(** The comparison of the sort. *)
Definition venue_less (side : Z) (a b : RankedVenue) : bool :=
  if negb (rk_available_price a =? rk_available_price b)
  then if side =? kBuy then rk_available_price a <? rk_available_price b else rk_available_price b <? rk_available_price a
  else rk_fee_bps a <? rk_fee_bps b.

Definition next_id (base_client_id : Z) (slices : list VenueRouteSlice) : Z := u32 (base_client_id + Z.of_nat (length slices)).

Fixpoint route_sweep (cs : list RankedVenue) (remaining_qty base_client_id : Z) (slices : list VenueRouteSlice) : list VenueRouteSlice * Z :=
  match cs with
  | [] => (slices, remaining_qty)
  | c :: cs' =>
      if remaining_qty <=? 0 then (slices, remaining_qty) else
      let slice_qty := remaining_qty `min` rk_available_qty c in
      if 0 <? slice_qty
      then route_sweep cs' (remaining_qty - slice_qty) base_client_id (slices ++ [mkSlice (rk_venue c) (rk_available_price c) slice_qty (next_id base_client_id slices)])
      else route_sweep cs' remaining_qty base_client_id slices
  end.

Section sor.
Context `{Sorter}.

Definition route_order (quotes : list VenueQuote) (side target_qty limit_price base_client_id : Z) : list VenueRouteSlice :=
  if (target_qty <=? 0) || (limit_price <=? 0) then [] else
  match omap (candidate side limit_price) quotes with
  | [] => []
  | candidates =>
      let '(slices, remaining) := route_sweep (std_sort (venue_less side) candidates) target_qty base_client_id [] in
      if 0 <? remaining then slices ++ [mkSlice kNasdaq limit_price remaining (next_id base_client_id slices)] else slices
  end.

Lemma venue_less_weak side l : strict_weak_on (venue_less side) l.
Proof.
  intros a b c _ _ _. unfold venue_less. destruct (side =? kBuy); repeat match goal with |- context [?x =? ?y] => destruct (Z.eqb_spec x y) end; cbn [negb]; rewrite <- ?not_true_iff_false, ?Z.ltb_lt; lia.
Qed.

(** The slice that takes [q] from [c]. *)
Definition slice_of (base : Z) (i : nat) (p : RankedVenue * Z) : VenueRouteSlice := mkSlice (rk_venue p.1) (rk_available_price p.1) p.2 (u32 (base + Z.of_nat i)).

Lemma route_sweep_greedy cs rem base slices : Forall (λ c, 0 < rk_available_qty c) cs → 0 ≤ rem →
  route_sweep cs rem base slices =
    (slices ++ imap (λ i, slice_of base (length slices + i)) (greedy rk_available_qty cs rem), rem - sum_z (greedy rk_available_qty cs rem).*2).
Proof.
  intros Hc. revert rem slices. induction Hc as [|c cs Hc _ IH]; intros rem slices Hr; cbn [route_sweep greedy]; [cbn; by rewrite app_nil_r, Z.sub_0_r|].
  destruct (Z.leb_spec rem 0); [cbn; by rewrite app_nil_r, Z.sub_0_r|]. rewrite (proj2 (Z.ltb_lt _ _)) by lia. rewrite IH by lia. cbn. f_equal; [|lia]. rewrite <- app_assoc. f_equal. cbn. rewrite Nat.add_0_r. f_equal.
  apply imap_ext. intros i p _. cbn. unfold slice_of. rewrite length_app. cbn. do 3 f_equal. lia.
Qed.
Lemma candidate_ok side limit q c : candidate side limit q = Some c → rk_venue c = vq_venue q ∧ 0 < rk_available_qty c.
Proof. unfold candidate. intros Hc. repeat case_match; simplify_eq; cbn; split; try done; match goal with E : _ = true |- _ => rewrite !andb_true_iff, Z.ltb_lt in E; tauto || (rewrite ?Z.ltb_lt in E; tauto) end. Qed.

Lemma candidates_distinct side limit quotes : NoDup (vq_venue <$> quotes) → NoDup (omap (candidate side limit) quotes).
Proof.
  intros Hn. apply (NoDup_fmap_1 rk_venue). eapply sublist_NoDup; [exact Hn|]. clear Hn. induction quotes as [|q quotes IH]; [done|]. cbn. destruct (candidate side limit q) as [c|] eqn:E; [|by apply sublist_cons].
  destruct (candidate_ok _ _ _ _ E) as [Ev _]. cbn. rewrite Ev. by apply sublist_skip.
Qed.

Lemma sl_qty_slices base taken : sl_qty <$> imap (slice_of base) taken = taken.*2.
Proof. revert base. assert (Hgen : ∀ n base, sl_qty <$> imap (λ i, slice_of base (n + i)) taken = taken.*2); [|intros base; exact (Hgen 0%nat base)]. induction taken as [|p taken IH]; intros n base; [done|]. cbn. f_equal. rewrite <- (IH (S n) base). f_equal. apply imap_ext. intros i x _. cbn. f_equal. lia. Qed.
End sor.

(** The router sweeps the venues from the best to the worst, whatever order the sort gives
    to ties: each slice takes a positive quantity a venue displays within the limit, at
    its price; no venue is asked twice; a venue is used only when every strictly better
    one (by price, then fee) is used up; the slices add up to the order, and what the
    displayed quantities cannot fill goes to the primary venue at the limit price,
    provided any venue qualified at all. *)
Theorem sor_sweeps_best_first `{Sorter} quotes side target limit base :
  vq_venue <$> quotes = all_venues → 0 < target → 0 < limit →
  let cs := omap (candidate side limit) quotes in
  let slices := route_order quotes side target limit base in
  (cs = [] → slices = []) ∧
  (cs ≠ [] → ∃ taken : list (RankedVenue * Z),
    (slices = imap (slice_of base) taken ∨
     ∃ rest, 0 < rest ∧ slices = imap (slice_of base) taken ++ [mkSlice kNasdaq limit rest (u32 (base + Z.of_nat (length taken)))] ∧ ∀ c, c ∈ cs → (c, rk_available_qty c) ∈ taken) ∧
    sum_z (sl_qty <$> slices) = target ∧ NoDup taken.*1 ∧ Forall (λ p, p.1 ∈ cs ∧ 0 < p.2 ≤ rk_available_qty p.1) taken ∧
    ∀ c d q, c ∈ cs → (d, q) ∈ taken → venue_less side c d = true → (c, rk_available_qty c) ∈ taken).
Proof.
  intros Hv Ht Hl. cbv zeta. unfold route_order. rewrite !(proj2 (Z.leb_gt _ _)) by done. cbn [orb]. set (cs := omap (candidate side limit) quotes). split; [by intros ->|]. intros Hne.
  assert (Hcs : NoDup cs) by (apply candidates_distinct; rewrite Hv; by_decide). assert (Hpos : Forall (λ c, 0 < rk_available_qty c) cs) by (apply Forall_forall; intros c (q & _ & Hq)%list_elem_of_omap; by eapply candidate_ok).
  destruct cs as [|c0 cs0] eqn:Ecs; [done|]. rewrite <- Ecs in *. clear Hne. pose proof (sort_perm (venue_less side) cs) as Hp. pose proof (sort_sorted (venue_less side) cs (venue_less_weak side cs)) as Hs. set (sorted := std_sort (venue_less side) cs) in *.
  rewrite <- Hp in Hcs, Hpos. rewrite (route_sweep_greedy sorted target base []) by (done || lia). cbn [length Nat.add app]. set (taken := greedy rk_available_qty sorted target). destruct (greedy_sum rk_available_qty sorted target Hpos ltac:(lia)) as [Hsum Hq]. fold taken in Hsum, Hq.
  exists taken. destruct (greedy_prefix rk_available_qty sorted target) as [k Hk]. fold taken in Hk. split_and!.
  - destruct (Z.ltb_spec 0 (target - sum_z taken.*2)); [right|by left]. eexists. split; [done|]. unfold next_id. rewrite length_imap. split; [done|]. intros c Hc. unfold taken. rewrite greedy_all by (done || (fold taken; lia)). apply list_elem_of_fmap. exists c. split; [done|]. by rewrite Hp.
  - destruct (Z.ltb_spec 0 (target - sum_z taken.*2)); rewrite ?fmap_app, sl_qty_slices, ?sum_z_app; cbn; lia.
  - rewrite Hk. eapply sublist_NoDup; [done|apply sublist_take].
  - apply Forall_forall. intros p Hin. rewrite Forall_forall in Hq. split; [|by apply Hq]. rewrite <- Hp. by eapply greedy_in.
  - intros c d q Hc Hd Hlt. apply (greedy_priority rk_available_qty (venue_less side)) with d q; try done; [lia|by rewrite Hp|]. intros ->. destruct (venue_less_weak side [d] d d d) as [Hirr _]; [set_solver..|]. congruence.
Qed.

(** ** SmartOrderRouter of src/luv_sor_smart_router.hpp *)

Record SmartQuote := mkSmartQuote {
  sq_venue_id : Z;
  sq_is_dark : bool;
  sq_bid_price : Z;
  sq_bid_size : Z;
  sq_ask_price : Z;
  sq_ask_size : Z;
  sq_fee_or_rebate_bps : Z;
  sq_fill_probability_pct : Z
}.
Definition SmartQuote_init : SmartQuote := mkSmartQuote 0 false 0 0 0 0 0 100.

Record RoutingSlice := mkRoutingSlice { rt_venue_id : Z; rt_route_quantity : Z; rt_target_price : Z; rt_is_dark : bool }.

(** [pl_slices] are the slices in use, [slice_count] their number. *)
Record RoutingPlan := mkPlan { pl_slices : list RoutingSlice; pl_total_routed_qty : Z; pl_remaining_unfilled_qty : Z }.

Definition smart_max_venues : nat := 8.

Section smart.
Context (is_buy : bool) (order_price : Z) (venues : list SmartQuote).

Definition quote (i : nat) : SmartQuote := default SmartQuote_init (venues !! i).
Definition side_price (v : SmartQuote) : Z := if is_buy then sq_ask_price v else sq_bid_price v.
Definition side_size (v : SmartQuote) : Z := if is_buy then sq_ask_size v else sq_bid_size v.

Definition price_acceptable (v : SmartQuote) : bool :=
  (0 <? side_size v) && (0 <? side_price v) && (if is_buy then side_price v <=? order_price else order_price <=? side_price v).

(** The next of the eight slices. *)
Definition add_slice (plan : RoutingPlan) (v : SmartQuote) (dark : bool) (fill_qty : Z) : option RoutingPlan :=
  if (length (pl_slices plan) <? 8)%nat
  then Some (mkPlan (pl_slices plan ++ [mkRoutingSlice (sq_venue_id v) fill_qty (side_price v) dark]) (u64 (pl_total_routed_qty plan + fill_qty)) (pl_remaining_unfilled_qty plan))
  else None.

Fixpoint sweep_venues (dark : bool) (indices : list nat) (rem_qty : Z) (plan : RoutingPlan) : option (RoutingPlan * Z) :=
  match indices with
  | [] => Some (plan, rem_qty)
  | i :: indices' =>
      if rem_qty =? 0 then Some (plan, rem_qty) else
      if price_acceptable (quote i) then
        let fill_qty := rem_qty `min` side_size (quote i) in
        plan ← add_slice plan (quote i) dark fill_qty;
        sweep_venues dark indices' (rem_qty - fill_qty) plan
      else sweep_venues dark indices' rem_qty plan
  end.

(** Whether [vb] is a better venue than [va]. *)
Definition b_better (va vb : SmartQuote) : bool :=
  let pa := side_price va in
  let pb := side_price vb in
  (if is_buy then pb <? pa else pa <? pb) ||
  ((pb =? pa) && (sq_fee_or_rebate_bps va <? sq_fee_or_rebate_bps vb)) ||
  ((pb =? pa) && (sq_fee_or_rebate_bps vb =? sq_fee_or_rebate_bps va) && (sq_fill_probability_pct va <? sq_fill_probability_pct vb)).

(** The insertion sort of the lit venues; the part that is sorted is kept from its end to
    its front, as the inner loop walks it. *)
Definition rank_lit (lit : list nat) : list nat :=
  reverse (foldl (λ sorted key, insert_sorted (λ j k, b_better (quote j) (quote k)) key sorted) [] lit).

Definition smart_route_order (order_quantity : Z) : option RoutingPlan :=
  if (order_quantity =? 0) || (length venues =? 0)%nat then Some (mkPlan [] 0 0) else
  '(plan, rem_qty) ← sweep_venues true (filter (λ i, sq_is_dark (quote i) = true) (seq 0 (length venues))) order_quantity (mkPlan [] 0 0);
  let lit := filter (λ i, sq_is_dark (quote i) = false) (seq 0 (length venues)) in
  if (smart_max_venues <? length lit)%nat then None else
  '(plan, rem_qty) ← sweep_venues false (rank_lit lit) rem_qty plan;
  Some (mkPlan (pl_slices plan) (pl_total_routed_qty plan) rem_qty).

Definition smart_slice (dark : bool) (p : nat * Z) : RoutingSlice := mkRoutingSlice (sq_venue_id (quote p.1)) p.2 (side_price (quote p.1)) dark.
Notation usable l := (filter (λ i, price_acceptable (quote i) = true) l).
Notation avail := (λ i, side_size (quote i)).

Lemma usable_positive l : Forall (λ i, 0 < avail i) (usable l).
Proof using Type. apply Forall_forall. intros i [Hi _]%list_elem_of_filter. unfold price_acceptable in Hi. rewrite !andb_true_iff, Z.ltb_lt in Hi. tauto. Qed.

Lemma sweep_greedy dark l rem plan :
  0 ≤ rem → 0 ≤ pl_total_routed_qty plan → pl_total_routed_qty plan + rem < 2 ^ 64 → (length (pl_slices plan) + length (usable l) ≤ 8)%nat →
  let taken := greedy avail (usable l) rem in
  sweep_venues dark l rem plan = Some (mkPlan (pl_slices plan ++ (smart_slice dark <$> taken)) (pl_total_routed_qty plan + sum_z taken.*2) (pl_remaining_unfilled_qty plan), rem - sum_z taken.*2).
Proof using Type.
  cbv zeta. revert rem plan. induction l as [|i l IH]; intros rem plan Hr Ht Hsum Hlen; cbn [sweep_venues]; [cbn; rewrite app_nil_r, Z.add_0_r, Z.sub_0_r; by destruct plan|].
  pose proof (usable_positive (i :: l)) as Hpos. rewrite filter_cons in Hlen, Hpos |- *. destruct (Z.eqb_spec rem 0) as [->|Hne].
  { rewrite greedy_zero. cbn. rewrite app_nil_r, Z.add_0_r. by destruct plan. }
  destruct (price_acceptable (quote i)); case_decide; try done; [|by apply IH]. apply Forall_cons in Hpos as [Hi _]. cbn in Hlen. unfold add_slice. rewrite (proj2 (Nat.ltb_lt _ _)) by lia. cbn [mbind option_bind].
  cbn [greedy]. rewrite (proj2 (Z.leb_gt rem 0)) by lia. rewrite IH; cbn [pl_slices pl_total_routed_qty pl_remaining_unfilled_qty]; rewrite ?length_app; cbn; try lia; [|rewrite u64_small by lia; lia..].
  rewrite u64_small by lia. rewrite <- app_assoc. cbn. f_equal. f_equal; [f_equal; lia|lia].
Qed.

Lemma b_better_weak l : strict_weak_on (λ j k, b_better (quote j) (quote k)) l.
Proof using Type.
  intros a b c _ _ _. unfold b_better, side_price. cbv zeta. rewrite <- !not_true_iff_false. destruct is_buy; rewrite ?orb_true_iff, ?andb_true_iff, ?Z.ltb_lt, ?Z.eqb_eq; lia.
Qed.

Lemma rank_lit_sorted lit : rank_lit lit ≡ₚ lit ∧ StronglySorted (λ a b, b_better (quote a) (quote b) = false) (rank_lit lit).
Proof using Type.
  unfold rank_lit. rewrite insertion_foldl. split; [by rewrite reverse_Permutation, insertion_sort_perm, reverse_Permutation|].
  apply StronglySorted_reverse, insertion_sort_sorted, b_better_weak.
Qed.

(** Whether [i] is asked before [j]: dark venues first, then lit ones by quality. *)
Definition ahead (i j : nat) : bool := negb (sq_is_dark (quote j)) && (sq_is_dark (quote i) || b_better (quote j) (quote i)).

Lemma ahead_irreflexive i : ahead i i = false.
Proof using Type. unfold ahead. destruct (sq_is_dark (quote i)); [done|]. cbn. by destruct (b_better_weak [i] i i i) as [? _]; [set_solver..|]. Qed.

(** The venues in the order they are asked. *)
Definition asked : list nat :=
  usable (filter (λ i, sq_is_dark (quote i) = true) (seq 0 (length venues))) ++ usable (rank_lit (filter (λ i, sq_is_dark (quote i) = false) (seq 0 (length venues)))).

Lemma asked_in i : i ∈ asked ↔ (i < length venues)%nat ∧ price_acceptable (quote i) = true.
Proof using Type.
  unfold asked. rewrite elem_of_app, !list_elem_of_filter, (proj1 (rank_lit_sorted _)), list_elem_of_filter, elem_of_seq. destruct (sq_is_dark (quote i)); intuition (done || lia).
Qed.

Lemma asked_length : (length asked ≤ length venues)%nat ∧ NoDup asked.
Proof using Type.
  assert (Hn : NoDup asked).
  { unfold asked. apply NoDup_app. split_and!; [apply NoDup_filter, NoDup_filter, NoDup_seq| |apply NoDup_filter; rewrite (proj1 (rank_lit_sorted _)); apply NoDup_filter, NoDup_seq].
    intros i [_ [Hd _]%list_elem_of_filter]%list_elem_of_filter [_ Hr]%list_elem_of_filter. rewrite (proj1 (rank_lit_sorted _)) in Hr. apply list_elem_of_filter in Hr as [Hd' _]. congruence. }
  split; [|done]. rewrite <- (length_seq (length venues) 0) at 1. apply submseteq_length, NoDup_submseteq; [done|]. intros i [Hi _]%asked_in. apply elem_of_seq. lia.
Qed.

Lemma asked_sorted : StronglySorted (λ a b, ahead b a = false) asked.
Proof using Type.
  unfold asked. apply StronglySorted_app. split_and!.
  - intros a b [_ [Ha _]%list_elem_of_filter]%list_elem_of_filter _. unfold ahead. by rewrite Ha.
  - set (l := usable _). assert (Hd : Forall (λ i, sq_is_dark (quote i) = true) l) by (apply Forall_forall; by intros i [_ [? _]%list_elem_of_filter]%list_elem_of_filter). clearbody l.
    induction Hd as [|i l Hi Hl IH]; [apply SSorted_nil|]. apply SSorted_cons; [done|]. eapply Forall_impl; [exact Hl|]. intros j Hj. cbn. unfold ahead. by rewrite Hi.
  - set (lit := filter _ (seq _ _)). destruct (rank_lit_sorted lit) as [Hp Hs]. eapply StronglySorted_sublist; [apply sublist_filter|]. assert (Hd : Forall (λ i, sq_is_dark (quote i) = false) (rank_lit lit)) by (rewrite Hp; apply Forall_forall; by intros i [? _]%list_elem_of_filter).
    clear Hp. induction Hs as [|a l Hs IH Ha]; [apply SSorted_nil|]. apply SSorted_cons; [apply IH; by apply Forall_cons in Hd as [_ Hd]|]. rewrite Forall_cons in Hd. destruct Hd as [Hda Hd]. rewrite Forall_forall in *. intros b Hb. unfold ahead. rewrite (Hd b Hb), Hda. cbn. by apply Ha.
Qed.
End smart.

(** The plan, in terms of the tests the code makes. *)
Lemma smart_route_plan is_buy order_price venues order_quantity :
  venues ≠ [] → (length venues ≤ 8)%nat → 0 < order_quantity < 2 ^ 64 →
  ∃ plan taken, smart_route_order is_buy order_price venues order_quantity = Some plan ∧
    pl_slices plan = (λ p, smart_slice is_buy venues (sq_is_dark (quote venues p.1)) p) <$> taken ∧
    pl_total_routed_qty plan = sum_z taken.*2 ∧ pl_total_routed_qty plan + pl_remaining_unfilled_qty plan = order_quantity ∧ 0 ≤ pl_remaining_unfilled_qty plan ∧ NoDup taken.*1 ∧
    Forall (λ p, (p.1 < length venues)%nat ∧ price_acceptable is_buy order_price (quote venues p.1) = true ∧ 0 < p.2 ≤ side_size is_buy (quote venues p.1)) taken ∧
    (∀ i j q, (i < length venues)%nat → price_acceptable is_buy order_price (quote venues i) = true → (j, q) ∈ taken → ahead is_buy venues i j = true → (i, side_size is_buy (quote venues i)) ∈ taken) ∧
    (0 < pl_remaining_unfilled_qty plan → ∀ i, (i < length venues)%nat → price_acceptable is_buy order_price (quote venues i) = true → (i, side_size is_buy (quote venues i)) ∈ taken).
Proof.
  intros Hne H8 Hq. unfold smart_route_order. rewrite (proj2 (Z.eqb_neq _ _)) by lia. destruct (Nat.eqb_spec (length venues) 0) as [E0|_]; [by apply nil_length_inv in E0|]. cbn [orb].
  destruct (asked_length is_buy order_price venues) as [Hl Hn]. pose proof (asked_sorted is_buy order_price venues) as Hs. pose proof (asked_in is_buy order_price venues) as Hin.
  set (avail := λ i, side_size is_buy (quote venues i)) in *. unfold asked in *. set (dark := filter (λ i, sq_is_dark (quote venues i) = true) _) in *. set (lit := filter (λ i, sq_is_dark (quote venues i) = false) _) in *. rewrite length_app in Hl.
  rewrite (proj2 (Nat.ltb_ge smart_max_venues _)); [|unfold lit, smart_max_venues; rewrite length_filter, length_seq; lia].
  set (D := filter (λ i, price_acceptable _ _ _ = true) dark) in *. set (L := filter (λ i, price_acceptable _ _ _ = true) (rank_lit _ _ _)) in *.
  assert (Hpos : Forall (λ i, 0 < avail i) (D ++ L)) by (apply Forall_app; split; apply usable_positive). pose proof (proj1 (Forall_app _ _ _) Hpos) as [HD HL].
  destruct (greedy_sum avail D order_quantity HD ltac:(lia)) as [HsD _]. set (tD := greedy avail D order_quantity) in *.
  assert (0 ≤ sum_z tD.*2 ≤ order_quantity). { rewrite HsD. assert (0 ≤ sum_z (avail <$> D)) by (clear -HD; induction HD; cbn; lia). lia. }
  rewrite (sweep_greedy is_buy order_price venues true dark order_quantity) by (cbn; fold D; lia). cbn zeta. fold avail D tD. cbn [mbind option_bind app pl_slices pl_total_routed_qty pl_remaining_unfilled_qty].
  assert (HlD : (length (smart_slice is_buy venues true <$> tD) ≤ length D)%nat). { rewrite length_fmap. destruct (greedy_prefix avail D order_quantity) as [k Hk]. fold tD in Hk. rewrite <- (length_fmap fst tD), Hk, length_take. lia. }
  rewrite (sweep_greedy is_buy order_price venues false (rank_lit is_buy venues lit) (order_quantity - sum_z tD.*2)) by (cbn [pl_slices pl_total_routed_qty]; fold L; lia).
  cbn zeta. fold avail L. set (tL := greedy avail L (order_quantity - sum_z tD.*2)). cbn [mbind option_bind pl_slices pl_total_routed_qty pl_remaining_unfilled_qty].
  assert (Et : greedy avail (D ++ L) order_quantity = tD ++ tL) by (apply greedy_app; lia). destruct (greedy_sum avail (D ++ L) order_quantity Hpos ltac:(lia)) as [Hsum Hall]. rewrite Et in Hsum, Hall. rewrite fmap_app, sum_z_app in Hsum.
  assert (0 ≤ sum_z (avail <$> (D ++ L))) by (clear -Hpos; induction Hpos; cbn; lia). destruct (greedy_prefix avail (D ++ L) order_quantity) as [k Hk]. rewrite Et in Hk.
  assert (Hfst : ∀ p, p ∈ tD ++ tL → p.1 ∈ D ++ L) by (intros p Hp; rewrite <- Et in Hp; by eapply greedy_in).
  eexists _, (tD ++ tL). split; [reflexivity|]. cbn [pl_slices pl_total_routed_qty pl_remaining_unfilled_qty]. split_and!.
  - rewrite fmap_app. f_equal; apply list_fmap_ext; intros i p Hp%list_elem_of_lookup_2; f_equal.
    + apply greedy_in, list_elem_of_filter in Hp as [_ Hp]. by apply list_elem_of_filter in Hp as [-> _].
    + apply greedy_in, list_elem_of_filter in Hp as [_ Hp]. rewrite (proj1 (rank_lit_sorted _ _ _)) in Hp. by apply list_elem_of_filter in Hp as [-> _].
  - rewrite fmap_app, sum_z_app. lia.
  - lia.
  - lia.
  - rewrite Hk. eapply sublist_NoDup; [exact Hn|apply sublist_take].
  - apply Forall_forall. intros p Hp. rewrite Forall_forall in Hall. destruct (proj1 (Hin p.1) (Hfst p Hp)). split_and!; try done; by apply Hall.
  - intros i j q Hi Ha Hj Hlt. rewrite <- Et in *. apply (greedy_priority avail (ahead is_buy venues)) with j q; try done; [lia|by apply Hin|]. intros ->. rewrite ahead_irreflexive in Hlt. done.
  - intros Hr i Hi Ha. rewrite <- Et. rewrite greedy_all; [|done|lia|rewrite Et, fmap_app, sum_z_app; lia]. apply list_elem_of_fmap. exists i. split; [done|]. by apply Hin.
Qed.

(** What the other side of a venue shows: its price and its size. *)
Definition offer (is_buy : bool) (v : SmartQuote) : Z * Z :=
  if is_buy then (sq_ask_price v, sq_ask_size v) else (sq_bid_price v, sq_bid_size v).

Definition tradable (is_buy : bool) (limit : Z) (v : SmartQuote) : Prop :=
  0 < (offer is_buy v).1 ∧ 0 < (offer is_buy v).2 ∧
  (if is_buy then (offer is_buy v).1 ≤ limit else limit ≤ (offer is_buy v).1).

(** [v] comes before the lit venue [w]: it is dark, or it has the better price, or the same
    price and the higher rebate, or the same of both and the higher fill rate. *)
Definition comes_first (is_buy : bool) (v w : SmartQuote) : Prop :=
  sq_is_dark w = false ∧
  (sq_is_dark v = true ∨
   (if is_buy then (offer is_buy v).1 < (offer is_buy w).1 else (offer is_buy w).1 < (offer is_buy v).1) ∨
   (offer is_buy v).1 = (offer is_buy w).1 ∧
     (sq_fee_or_rebate_bps w < sq_fee_or_rebate_bps v ∨
      sq_fee_or_rebate_bps w = sq_fee_or_rebate_bps v ∧ sq_fill_probability_pct w < sq_fill_probability_pct v)).

(** [taken] are the venues used, by position, each with the quantity it gets. *)
Record routed (is_buy : bool) (limit : Z) (venues : list SmartQuote) (quantity : Z) (plan : RoutingPlan) (taken : list (nat * Z)) : Prop := mkRouted {
  rd_slices : Forall2 (λ s p, ∃ v, venues !! p.1 = Some v ∧ tradable is_buy limit v ∧ 0 < p.2 ≤ (offer is_buy v).2 ∧
    s = mkRoutingSlice (sq_venue_id v) p.2 (offer is_buy v).1 (sq_is_dark v)) (pl_slices plan) taken;
  rd_total : pl_total_routed_qty plan = sum_z taken.*2;
  rd_rest : pl_total_routed_qty plan + pl_remaining_unfilled_qty plan = quantity ∧ 0 ≤ pl_remaining_unfilled_qty plan;
  rd_once : NoDup taken.*1;
  rd_priority : ∀ i v j w q, venues !! i = Some v → tradable is_buy limit v → venues !! j = Some w → (j, q) ∈ taken →
    comes_first is_buy v w → (i, (offer is_buy v).2) ∈ taken;
  rd_exhausted : 0 < pl_remaining_unfilled_qty plan → ∀ i v, venues !! i = Some v → tradable is_buy limit v → (i, (offer is_buy v).2) ∈ taken
}.

Lemma offer_side is_buy v : offer is_buy v = (side_price is_buy v, side_size is_buy v).
Proof. by destruct is_buy. Qed.

Lemma tradable_acceptable is_buy limit v : tradable is_buy limit v ↔ price_acceptable is_buy limit v = true.
Proof. unfold tradable, price_acceptable. rewrite offer_side. cbn [fst snd]. destruct is_buy; rewrite !andb_true_iff, !Z.ltb_lt, Z.leb_le; tauto. Qed.

Lemma quote_lookup venues i v : venues !! i = Some v → quote venues i = v.
Proof. intros H. unfold quote. by rewrite H. Qed.

Lemma comes_first_ahead is_buy venues i v j w :
  venues !! i = Some v → venues !! j = Some w → comes_first is_buy v w → ahead is_buy venues i j = true.
Proof.
  intros Hi Hj [Hw H]. unfold ahead. rewrite (quote_lookup venues i v Hi), (quote_lookup venues j w Hj), Hw. cbn [negb andb]. unfold b_better. rewrite !offer_side in H. cbn [fst] in H. cbv zeta.
  destruct is_buy; rewrite !orb_true_iff, !andb_true_iff, !Z.ltb_lt, !Z.eqb_eq; destruct H as [->|[H|(H & [H'|[H' H'']])]]; auto 10.
Qed.

(** C18 (functional): the smart router conserves the order and respects priority.  Given one to
    eight venues and a positive quantity it ends inside its arrays; what it routes and what it
    leaves add up to the order; each slice names a venue once, at the price that venue shows and
    within the limit, for a positive part of the size it shows; a lit venue is used only when
    every dark one and every lit one that is better (by price, then rebate, then fill rate) is
    used up; and something is left only when every venue within the limit is used up.  (With a
    ninth lit venue the code overruns its array: [nine_lit_venues_overrun].) *)
Theorem smart_router_conserves is_buy order_price venues order_quantity :
  venues ≠ [] → (length venues ≤ 8)%nat → 0 < order_quantity < 2 ^ 64 →
  ∃ plan taken, smart_route_order is_buy order_price venues order_quantity = Some plan ∧
    routed is_buy order_price venues order_quantity plan taken.
Proof.
  intros Hne H8 Hq. destruct (smart_route_plan is_buy order_price venues order_quantity Hne H8 Hq) as (plan & taken & Hr & Hs & Ht & Hsum & H0 & Hn & Hall & Hp & Hx).
  exists plan, taken. split; [done|]. split; [|done|done|done| |].
  - rewrite Hs. apply Forall2_fmap_l, Forall2_same_length_lookup_2; [done|]. intros n p p' E E'. rewrite E in E'. injection E' as <-. rewrite Forall_forall in Hall.
    destruct (Hall p (list_elem_of_lookup_2 _ _ _ E)) as (Hl & Ha & Hz). destruct (lookup_lt_is_Some_2 venues p.1 Hl) as [v Hv]. exists v. rewrite (quote_lookup venues p.1 v Hv) in *. rewrite offer_side.
    split_and!; [done|by apply tradable_acceptable|apply Hz|apply Hz|]. unfold smart_slice. by rewrite (quote_lookup venues p.1 v Hv).
  - intros i v j w q Hi Ht' Hj Hin Hf. rewrite offer_side. cbn [snd]. rewrite <- (quote_lookup venues i v Hi). eapply Hp; [by apply lookup_lt_is_Some_1; eexists| |done|by eapply comes_first_ahead].
    rewrite (quote_lookup venues i v Hi). by apply tradable_acceptable.
  - intros Hrem i v Hi Ht'. rewrite offer_side. cbn [snd]. rewrite <- (quote_lookup venues i v Hi). apply Hx; [done|by apply lookup_lt_is_Some_1; eexists|].
    rewrite (quote_lookup venues i v Hi). by apply tradable_acceptable.
Qed.

(** A dark venue at the limit, a lit one beyond it and two lit ones at the same price. *)
Definition demo_venues : list SmartQuote :=
  [mkSmartQuote 1 false 99 10 101 40 0 100; mkSmartQuote 2 true 99 10 102 30 0 100; mkSmartQuote 3 false 99 10 101 50 2 90; mkSmartQuote 4 false 99 10 103 50 2 90].

Lemma smart_router_conserves_witness :
  ∃ plan taken, smart_route_order true 102 demo_venues 100 = Some plan ∧ routed true 102 demo_venues 100 plan taken ∧
    pl_slices plan = [mkRoutingSlice 2 30 102 true; mkRoutingSlice 3 50 101 false; mkRoutingSlice 1 20 101 false].
Proof.
  destruct (smart_router_conserves true 102 demo_venues 100) as (plan & taken & H1 & H2); [discriminate|by vm_compute; lia|lia|].
  exists plan, taken. split; [exact H1|]. split; [exact H2|]. vm_compute in H1. by injection H1 as <-.
Defined.

(** Without a venue the plan says that nothing is left although nothing was routed. *)
Theorem smart_router_forgets_the_rest is_buy price qty : smart_route_order is_buy price [] qty = Some (mkPlan [] 0 0).
Proof. unfold smart_route_order. by rewrite orb_true_r. Qed.

(** Nine lit venues overrun the array of their indices. *)
Theorem nine_lit_venues_overrun is_buy price : smart_route_order is_buy price (replicate 9 SmartQuote_init) 1 = None.
Proof. unfold smart_route_order. destruct is_buy; reflexivity. Qed.

(** ** Strategies (src/luv_strategy.hpp) *)

Record StrategyConfig := mkStrategy {
  st_symbol_idx : Z;
  st_side : Z;
  st_total_qty : Z;
  st_limit_price : Z;
  st_base_client_order_id : Z;
  st_slices : Z;
  st_interval_ns : Z
}.

(** Slice [i] of a plan at [price]. *)
Definition strategy_slice (cfg : StrategyConfig) (now_ns i price : Z) : OrderIntent :=
  let slice_qty := Z.quot (st_total_qty cfg) (st_slices cfg) in
  let remainder := Z.rem (st_total_qty cfg) (st_slices cfg) in
  mkIntent (st_symbol_idx cfg) (st_side cfg) (slice_qty + (if i =? u32 (st_slices cfg - 1) then remainder else 0)) price now_ns
    (u64 (now_ns + u64 (st_interval_ns cfg * i))) (u32 (st_base_client_order_id cfg + i)) 0.

Definition twap_plan (cfg : StrategyConfig) (now_ns : Z) : list OrderIntent :=
  if (st_total_qty cfg <=? 0) || (st_slices cfg =? 0) || (st_limit_price cfg <=? 0) then [] else
  (λ i, strategy_slice cfg now_ns i (st_limit_price cfg)) <$> seqZ 0 (st_slices cfg).

Definition vwap_plan (cfg : StrategyConfig) (now_ns : Z) : option (list OrderIntent) :=
  if (st_total_qty cfg <=? 0) || (st_slices cfg =? 0) || (st_limit_price cfg <=? 0) then Some [] else
  mapM (λ i, price ← chk64 (st_limit_price cfg + i * 100); Some (strategy_slice cfg now_ns i price)) (seqZ 0 (st_slices cfg)).

Definition ioc_plan (cfg : StrategyConfig) (now_ns : Z) : list OrderIntent :=
  if (st_total_qty cfg <=? 0) || (st_limit_price cfg <=? 0) then [] else
  [mkIntent (st_symbol_idx cfg) (st_side cfg) (st_total_qty cfg) (st_limit_price cfg) now_ns now_ns (st_base_client_order_id cfg) 0].

Definition strategy_ok (cfg : StrategyConfig) : Prop := 0 < st_total_qty cfg ≤ INT64_MAX ∧ 0 < st_slices cfg < 2 ^ 32 ∧ 0 < st_limit_price cfg ≤ INT64_MAX.

Lemma sum_z_const c l : sum_z ((λ _ : Z, c) <$> l) = c * Z.of_nat (length l).
Proof. induction l as [|x l IH]; cbn [fmap list_fmap sum_z length]; [lia|]. rewrite IH. lia. Qed.

Lemma slices_sum cfg now prices : strategy_ok cfg → sum_z (oi_qty <$> ((λ i, strategy_slice cfg now i (prices i)) <$> seqZ 0 (st_slices cfg))) = st_total_qty cfg.
Proof.
  intros (Ht & Hs & _). rewrite <- list_fmap_compose. replace (seqZ 0 (st_slices cfg)) with (seqZ 0 (st_slices cfg - 1) ++ [st_slices cfg - 1]) by (replace (st_slices cfg) with ((st_slices cfg - 1) + 1) at 3 by lia; rewrite seqZ_app by lia; f_equal; cbn; f_equal; lia).
  rewrite fmap_app, sum_z_app. cbn.
  assert (Hu : u32 (st_slices cfg - 1) = st_slices cfg - 1) by (unfold u32; apply Z.mod_small; lia). rewrite Hu, Z.eqb_refl.
  rewrite (list_fmap_ext _ (λ _, Z.quot (st_total_qty cfg) (st_slices cfg))).
  - rewrite sum_z_const, length_seqZ. pose proof (Z.quot_rem' (st_total_qty cfg) (st_slices cfg)). rewrite Z2Nat.id by lia. nia.
  - intros k i Hi. apply list_elem_of_lookup_2, elem_of_seqZ in Hi. cbn. rewrite Hu, (proj2 (Z.eqb_neq _ _)) by lia. lia.
Qed.

(** A schedule is the whole order: the slices of a time-weighted plan add up to the order,
    none is negative, each is within a remainder of the others, all carry the limit
    price, and they are numbered and timed one interval apart. *)
Theorem twap_is_the_whole_order cfg now : strategy_ok cfg →
  let orders := twap_plan cfg now in
  sum_z (oi_qty <$> orders) = st_total_qty cfg ∧ Z.of_nat (length orders) = st_slices cfg ∧
  ∀ i o, orders !! i = Some o →
    st_total_qty cfg / st_slices cfg ≤ oi_qty o < st_total_qty cfg / st_slices cfg + st_slices cfg ∧ oi_price o = st_limit_price cfg ∧
    oi_client_order_id o = u32 (st_base_client_order_id cfg + Z.of_nat i) ∧ oi_now_ns o = u64 (now + st_interval_ns cfg * Z.of_nat i).
Proof.
  intros Hok. pose proof Hok as (Ht & Hs & Hp). cbv zeta. unfold twap_plan. rewrite (proj2 (Z.leb_gt _ _)), (proj2 (Z.eqb_neq _ _)), (proj2 (Z.leb_gt _ _)) by lia. cbn [orb].
  split_and!; [by apply (slices_sum cfg now (λ _, st_limit_price cfg))|rewrite length_fmap, length_seqZ; lia|]. intros i o Hi. apply list_lookup_fmap_Some in Hi as (j & -> & Hj). apply lookup_seqZ in Hj as [-> Hj].
  cbn. rewrite Z.quot_div_nonneg, Z.rem_mod_nonneg by lia. pose proof (Z.mod_pos_bound (st_total_qty cfg) (st_slices cfg) ltac:(lia)). split_and!; try done; [case_cond; lia|case_cond; lia|].
  rewrite Z.add_comm, u64_add. f_equal. lia.
Qed.

(** The volume-weighted plan has the same sizes, but raises its price by 100 a slice: a
    buy order goes beyond its limit from the second slice on. *)
Theorem vwap_exceeds_its_limit cfg now : strategy_ok cfg → st_limit_price cfg + st_slices cfg * 100 ≤ INT64_MAX →
  ∃ orders, vwap_plan cfg now = Some orders ∧ sum_z (oi_qty <$> orders) = st_total_qty cfg ∧ ∀ i o, orders !! i = Some o → oi_price o = st_limit_price cfg + Z.of_nat i * 100.
Proof.
  intros Hok Hmax. pose proof Hok as (Ht & Hs & Hp). unfold vwap_plan. rewrite (proj2 (Z.leb_gt _ _)), (proj2 (Z.eqb_neq _ _)), (proj2 (Z.leb_gt _ _)) by lia. cbn [orb].
  exists ((λ i, strategy_slice cfg now i (st_limit_price cfg + i * 100)) <$> seqZ 0 (st_slices cfg)). split_and!; [|by apply (slices_sum cfg now (λ i, st_limit_price cfg + i * 100))|].
  - apply mapM_Some, Forall2_fmap_r, Forall_Forall2_diag, Forall_forall. intros i Hi%elem_of_seqZ. rewrite chk64_ok by (unfold INT64_MIN, INT64_MAX in *; lia). done.
  - intros i o Hi. apply list_lookup_fmap_Some in Hi as (j & -> & Hj). apply lookup_seqZ in Hj as [-> Hj]. done.
Qed.

(** ** StrategySandboxContainer *)

Inductive StrategyState := StrategyActive | kQuarantined | kTerminated.
#[global] Instance strategy_state_eq_dec : EqDecision StrategyState.
Proof. solve_decision. Defined.

Record StrategySandboxBudget := mkBudget { sb_max_cpu_cycles_per_step : Z; sb_max_orders_per_step : Z; sb_max_total_qty : Z }.

(** A strategy is what its [generate_orders] does: [None] is an exception. *)
Definition IStrategy : Type := StrategyConfig → Z → option (list OrderIntent).

Record Sandbox := mkSandbox { sx_strategy : option IStrategy; sx_budget : StrategySandboxBudget; sx_state : StrategyState; sx_violations : Z; sx_quarantine_reason : list Z }.

Definition Sandbox_new (strategy : option IStrategy) (budget : StrategySandboxBudget) : Sandbox := mkSandbox strategy budget StrategyActive 0 [].

Definition quarantine (s : Sandbox) (reason : option (list Z)) : Sandbox :=
  mkSandbox (sx_strategy s) (sx_budget s) kQuarantined (u64 (sx_violations s + 1)) (match reason with Some r => take 127 r | None => sx_quarantine_reason s end).

Definition sandbox_reset (s : Sandbox) : Sandbox := mkSandbox (sx_strategy s) (sx_budget s) StrategyActive (sx_violations s) [].

Definition execute_safe (s : Sandbox) (cfg : StrategyConfig) (now_ns : Z) : Sandbox * list OrderIntent :=
  match sx_strategy s with
  | None => (s, [])
  | Some generate_orders =>
      if negb (bool_decide (sx_state s = StrategyActive)) then (s, []) else
      if sb_max_total_qty (sx_budget s) <? st_total_qty cfg then (quarantine s (Some (str "Order size exceeds sandbox budget max_total_qty")), []) else
      match generate_orders cfg now_ns with
      | Some orders =>
          if sb_max_orders_per_step (sx_budget s) <? Z.of_nat (length orders) then (quarantine s (Some (str "Strategy generated excessive order count in single step")), [])
          else (s, orders)
      | None => (quarantine s (Some (str "Unhandled exception caught in strategy execution")), [])
      end
  end.

Inductive sandbox_op := ExecuteSafe (cfg : StrategyConfig) (now_ns : Z) | Quarantine (reason : option (list Z)) | ResetSandbox.
Definition sandbox_do (s : Sandbox) (op : sandbox_op) : Sandbox * list OrderIntent :=
  match op with ExecuteSafe cfg now => execute_safe s cfg now | Quarantine r => (quarantine s r, []) | ResetSandbox => (sandbox_reset s, []) end.
Fixpoint sandbox_run (s : Sandbox) (ops : list sandbox_op) : Sandbox * list (sandbox_op * list OrderIntent) :=
  match ops with [] => (s, []) | op :: ops' => let '(s, orders) := sandbox_do s op in let '(s, rest) := sandbox_run s ops' in (s, (op, orders) :: rest) end.

(** A strategy that misbehaves sends nothing: over any run, every batch of orders that comes
    out of the sandbox has at most the budgeted number of orders, answers a request within
    the budgeted quantity and is what the strategy made of it, whatever it throws. *)
Theorem sandbox_contains_the_strategy strategy budget ops :
  Forall (λ '(op, orders), orders ≠ [] → ∃ cfg now generate, op = ExecuteSafe cfg now ∧ strategy = Some generate ∧ generate cfg now = Some orders ∧
    st_total_qty cfg ≤ sb_max_total_qty budget ∧ Z.of_nat (length orders) ≤ sb_max_orders_per_step budget) (sandbox_run (Sandbox_new strategy budget) ops).2.
Proof.
  assert (Hgen : ∀ s, sx_strategy s = strategy → sx_budget s = budget → Forall (λ '(op, orders), orders ≠ [] → ∃ cfg now generate, op = ExecuteSafe cfg now ∧ strategy = Some generate ∧ generate cfg now = Some orders ∧
    st_total_qty cfg ≤ sb_max_total_qty budget ∧ Z.of_nat (length orders) ≤ sb_max_orders_per_step budget) (sandbox_run s ops).2); [|by apply Hgen].
  induction ops as [|op ops IH]; intros s Hs Hb; cbn [sandbox_run]; [by apply Forall_nil_2|]. destruct (sandbox_do s op) as [s1 orders] eqn:E.
  assert (Hkeep : sx_strategy s1 = strategy ∧ sx_budget s1 = budget). { revert E. destruct op; cbn; unfold execute_safe; repeat case_match; intros; by simplify_eq. }
  specialize (IH s1 (proj1 Hkeep) (proj2 Hkeep)). destruct (sandbox_run s1 ops) as [s2 rest]. cbn in *. apply Forall_cons. split; [|done]. intros Hne. revert E. destruct op as [cfg now|r|]; cbn; [|by intros [= <- <-]..].
  unfold execute_safe. rewrite Hs. destruct strategy as [generate|]; [|by intros [= <- <-]]. case_cond; [by intros [= <- <-]|]. rewrite Hb. destruct (Z.ltb_spec (sb_max_total_qty budget) (st_total_qty cfg)); [by intros [= <- <-]|].
  destruct (generate cfg now) as [os|] eqn:Eg; [|by intros [= <- <-]]. destruct (Z.ltb_spec (sb_max_orders_per_step budget) (Z.of_nat (length os))); [by intros [= <- <-]|]. intros [= <- <-]. exists cfg, now, generate. by split_and!.
Qed.

(** After a violation nothing runs until the sandbox is reset. *)
Theorem quarantine_holds s ops : sx_state s = kQuarantined → Forall (λ op, op ≠ ResetSandbox) ops → Forall (λ r, r.2 = []) (sandbox_run s ops).2.
Proof.
  intros Hs Hops. revert s Hs. induction Hops as [|op ops Hop _ IH]; intros s Hs; cbn [sandbox_run]; [by apply Forall_nil_2|].
  assert (Hq : sx_state (sandbox_do s op).1 = kQuarantined ∧ (sandbox_do s op).2 = []). { destruct op; cbn; [|done|done]. unfold execute_safe. rewrite bool_decide_eq_false_2 by (by rewrite Hs). cbn. by case_match. }
  destruct (sandbox_do s op) as [s1 orders]. cbn in Hq. destruct Hq as [Hq ->]. specialize (IH s1 Hq). destruct (sandbox_run s1 ops). by apply Forall_cons.
Qed.
