(* ===== verification/Settlement.v ===== *)
(** * Settlement: after the trade (src/luv_clearing.hpp, src/luv_reconciliation.hpp,
    src/luv_dtc_settlement.hpp, src/luv_reg_sho_204.hpp, src/luv_market_access_15c3_5.hpp)

    Net settlement accounts, reconciliation of the front office with the back office,
    matching of delivery instructions, failures to deliver, and the credit check before
    the trade.  An array with a count is the list of its entries in use; [None] is a
    signed overflow. *)

From S2P Require Import Prelude Risk HttpText Printf Telemetry Routing.
From Stdlib Require Import ZArith Lia String.
From stdpp Require Import base tactics gmap numbers option list.
Open Scope Z_scope.

(** ** ClearingHouseEngine *)

Record TradeRecord := mkTrade {
  td_trade_id : Z;
  td_buy_broker_id : Z;
  td_sell_broker_id : Z;
  td_symbol_idx : Z;
  td_price : Z;
  td_qty : Z;
  td_timestamp_ns : Z
}.

Record BrokerNetPosition := mkNet { np_broker_id : Z; np_symbol_idx : Z; np_net_qty : Z; np_net_cash : Z; np_gross_trades : Z }.

Definition kMaxBrokers : nat := 64.

Definition is_account (broker_id symbol_idx : Z) (p : BrokerNetPosition) : bool := (np_broker_id p =? broker_id) && (np_symbol_idx p =? symbol_idx).

Definition get_broker_position (brokers : list BrokerNetPosition) (broker_id symbol_idx : Z) : option BrokerNetPosition :=
  first_index (is_account broker_id symbol_idx) brokers ≫= λ i, brokers !! i.

Definition find_or_create (brokers : list BrokerNetPosition) (broker_id symbol_idx : Z) : list BrokerNetPosition * option nat :=
  match first_index (is_account broker_id symbol_idx) brokers with
  | Some i => (brokers, Some i)
  | None => if (length brokers <? kMaxBrokers)%nat then (brokers ++ [mkNet broker_id symbol_idx 0 0 0], Some (length brokers)) else (brokers, None)
  end.

(** The account a pointer refers to. *)
Definition book_side (brokers : list BrokerNetPosition) (i : nat) (qty cash : Z) : option (list BrokerNetPosition) :=
  p ← brokers !! i;
  net_qty ← chk64 (np_net_qty p + qty);
  net_cash ← chk64 (np_net_cash p + cash);
  Some (<[i := mkNet (np_broker_id p) (np_symbol_idx p) net_qty net_cash (u64 (np_gross_trades p + 1))]> brokers).

(** One side of a trade; [false] when there is no account for it. *)
Definition book_account (brokers : list BrokerNetPosition) (broker_id symbol_idx qty cash : Z) : option (list BrokerNetPosition * bool) :=
  match find_or_create brokers broker_id symbol_idx with
  | (brokers, None) => Some (brokers, false)
  | (brokers, Some account) => brokers ← book_side brokers account qty cash; Some (brokers, true)
  end.

Definition record_and_net_trade (brokers : list BrokerNetPosition) (trade : TradeRecord) : option (list BrokerNetPosition * bool) :=
  if (td_qty trade <=? 0) || (td_price trade <=? 0) then Some (brokers, false) else
  product ← chk64 (td_qty trade * td_price trade);
  let settlement_cash := Z.quot product 10000 in
  '(brokers, ok) ← book_account brokers (td_buy_broker_id trade) (td_symbol_idx trade) (td_qty trade) (- settlement_cash);
  if negb ok then Some (brokers, false) else
  book_account brokers (td_sell_broker_id trade) (td_symbol_idx trade) (- td_qty trade) settlement_cash.

(** *** Net positions *)

Definition holding (brokers : list BrokerNetPosition) (b s : Z) : Z * Z :=
  match get_broker_position brokers b s with Some p => (np_net_qty p, np_net_cash p) | None => (0, 0) end.

Lemma first_index_app {A} (f : A → bool) l k : first_index f (l ++ k) = match first_index f l with Some i => Some i | None => (λ i, length l + i)%nat <$> first_index f k end.
Proof.
  induction l as [|x l IH]; cbn [app first_index length Nat.add]; [by destruct (first_index f k)|]. destruct (f x); [done|]. rewrite IH. destruct (first_index f l); [done|]. by destruct (first_index f k).
Qed.

Lemma first_index_keep {A} (f : A → bool) l i x y : l !! i = Some x → f y = f x → first_index f (<[i := y]> l) = first_index f l.
Proof.
  revert i. induction l as [|z l IH]; intros [|i] Hi Hf; cbn in Hi; simplify_eq; [cbn; by rewrite Hf|]. change (<[S i := y]> (z :: l)) with (z :: <[i := y]> l). cbn [first_index]. by rewrite (IH i Hi Hf).
Qed.

Lemma find_or_create_ok brokers b s brokers' r : find_or_create brokers b s = (brokers', r) →
  (∀ b' s', holding brokers' b' s' = holding brokers b' s') ∧ (∀ g : BrokerNetPosition → Z, (∀ p, np_net_qty p = 0 → np_net_cash p = 0 → g p = 0) → sum_z (g <$> brokers') = sum_z (g <$> brokers)) ∧
  (∀ P : BrokerNetPosition → Prop, P (mkNet b s 0 0 0) → Forall P brokers → Forall P brokers') ∧
  match r with Some i => first_index (is_account b s) brokers' = Some i ∧ ∃ p, brokers' !! i = Some p ∧ np_broker_id p = b ∧ np_symbol_idx p = s | None => brokers' = brokers ∧ (kMaxBrokers ≤ length brokers)%nat end.
Proof.
  unfold find_or_create. destruct (first_index (is_account b s) brokers) as [i|] eqn:E.
  - intros [= <- <-]. split_and!; try done. apply first_index_Some in E as [(p & Hp & Ha) _]. exists p. unfold is_account in Ha. rewrite andb_true_iff, !Z.eqb_eq in Ha. by destruct Ha.
  - destruct (Nat.ltb_spec (length brokers) kMaxBrokers); intros [= <- <-]; [|by split_and!]. split_and!.
    + intros b' s'. unfold holding, get_broker_position. rewrite first_index_app. destruct (first_index (is_account b' s') brokers) as [j|] eqn:Ej; cbn [mbind option_bind].
      * pose proof (proj1 (first_index_Some _ _ _) Ej) as [(p & Hp & _) _]. by rewrite lookup_app_l by (by eapply lookup_lt_Some).
      * cbn. destruct (is_account b' s' _); cbn; [|done]. by rewrite Nat.add_0_r, list_lookup_middle.
    + intros g Hg. rewrite fmap_app, sum_z_app. cbn. rewrite Hg by done. lia.
    + intros P HP Hall. apply Forall_app. by split; [|apply Forall_singleton].
    + rewrite first_index_app, E. cbn [first_index]. unfold is_account. cbn [np_broker_id np_symbol_idx]. rewrite !Z.eqb_refl. cbn. f_equal. lia.
    + eexists. by rewrite list_lookup_middle.
Qed.

Lemma sum_z_insert {A} (g : A → Z) l i x y : l !! i = Some x → sum_z (g <$> <[i := y]> l) = sum_z (g <$> l) - g x + g y.
Proof.
  revert i. induction l as [|z l IH]; intros [|i] Hi; cbn in Hi; simplify_eq; [cbn; lia|]. change (<[S i := y]> (z :: l)) with (z :: <[i := y]> l). cbn. rewrite (IH i Hi). lia.
Qed.

Lemma book_side_ok brokers i p qty cash w d : brokers !! i = Some p → first_index (is_account (np_broker_id p) (np_symbol_idx p)) brokers = Some i →
  Forall (λ p, Z.abs (np_net_qty p) ≤ w ∧ Z.abs (np_net_cash p) ≤ w) brokers → Z.abs qty ≤ d → Z.abs cash ≤ d → w + d ≤ INT64_MAX →
  ∃ brokers', book_side brokers i qty cash = Some brokers' ∧ length brokers' = length brokers ∧ Forall (λ p, Z.abs (np_net_qty p) ≤ w + d ∧ Z.abs (np_net_cash p) ≤ w + d) brokers' ∧
    (∀ b s, holding brokers' b s = let '(q, c) := holding brokers b s in if is_account b s p then (q + qty, c + cash) else (q, c)) ∧
    (∀ s, sum_z ((λ e, if np_symbol_idx e =? s then np_net_qty e else 0) <$> brokers') = sum_z ((λ e, if np_symbol_idx e =? s then np_net_qty e else 0) <$> brokers) + (if np_symbol_idx p =? s then qty else 0)) ∧
    (∀ s, sum_z ((λ e, if np_symbol_idx e =? s then np_net_cash e else 0) <$> brokers') = sum_z ((λ e, if np_symbol_idx e =? s then np_net_cash e else 0) <$> brokers) + (if np_symbol_idx p =? s then cash else 0)).
Proof.
  intros Hp Hfirst Hw Hq Hc Hmax. pose proof (proj1 (Forall_lookup _ _) Hw i p Hp) as [H1 H2]. unfold book_side. rewrite Hp. cbn [mbind option_bind]. rewrite !chk64_ok by (unfold INT64_MIN, INT64_MAX in *; lia). cbn [mbind option_bind].
  eexists. split; [reflexivity|]. set (p' := mkNet _ _ _ _ _). split_and!; [by rewrite length_insert| | | |].
  - apply Forall_insert; [|cbn; lia]. eapply Forall_impl; [exact Hw|]. intros e [? ?]. cbn. lia.
  - intros b s. unfold holding, get_broker_position. rewrite (first_index_keep _ _ _ p) by done. destruct (first_index (is_account b s) brokers) as [j|] eqn:Ej; cbn [mbind option_bind].
    + pose proof (proj1 (first_index_Some _ _ _) Ej) as [(e & He & Ha) _]. destruct (decide (i = j)) as [<-|Hne].
      * rewrite list_lookup_insert_eq by (by eapply lookup_lt_Some). rewrite He in Hp. simplify_eq. by rewrite Ha, He.
      * rewrite list_lookup_insert_ne, He by done. destruct (is_account b s p) eqn:Eb; [|done]. unfold is_account in Eb. rewrite andb_true_iff, !Z.eqb_eq in Eb. destruct Eb as [<- <-]. congruence.
    + destruct (is_account b s p) eqn:Eb; [|done]. unfold is_account in Eb. rewrite andb_true_iff, !Z.eqb_eq in Eb. destruct Eb as [<- <-]. congruence.
  - intros s. rewrite (sum_z_insert _ _ _ p) by done. cbn. case_cond; lia.
  - intros s. rewrite (sum_z_insert _ _ _ p) by done. cbn. case_cond; lia.
Qed.

(** What a trade means for an account. *)
Definition trade_cash (t : TradeRecord) : Z := Z.quot (td_qty t * td_price t) 10000.
Definition trade_valid (t : TradeRecord) : bool := (0 <? td_qty t) && (0 <? td_price t).
Definition trade_weight (t : TradeRecord) : Z := if trade_valid t then td_qty t * td_price t else 0.
Definition net_of (b s : Z) (amount : TradeRecord → Z) (t : TradeRecord) : Z :=
  if trade_valid t && (td_symbol_idx t =? s) then (if td_buy_broker_id t =? b then amount t else 0) - (if td_sell_broker_id t =? b then amount t else 0) else 0.

Lemma net_of_eq b s f t : net_of b s f t = if trade_valid t && (td_symbol_idx t =? s) then (if td_buy_broker_id t =? b then f t else 0) - (if td_sell_broker_id t =? b then f t else 0) else 0.
Proof. done. Qed.

Fixpoint clear_run (brokers : list BrokerNetPosition) (trades : list TradeRecord) : option (list BrokerNetPosition * list bool) :=
  match trades with
  | [] => Some (brokers, [])
  | t :: trades' => '(brokers, ok) ← record_and_net_trade brokers t; '(brokers, oks) ← clear_run brokers trades'; Some (brokers, ok :: oks)
  end.

Record netted (brokers : list BrokerNetPosition) (trades : list TradeRecord) : Prop := mkNetted {
  nt_holding b s : holding brokers b s = (sum_z (net_of b s td_qty <$> trades), - sum_z (net_of b s trade_cash <$> trades));
  nt_qty s : sum_z ((λ e, if np_symbol_idx e =? s then np_net_qty e else 0) <$> brokers) = 0;
  nt_cash s : sum_z ((λ e, if np_symbol_idx e =? s then np_net_cash e else 0) <$> brokers) = 0
}.

Definition within (w : Z) (brokers : list BrokerNetPosition) : Prop := Forall (λ p, Z.abs (np_net_qty p) ≤ w ∧ Z.abs (np_net_cash p) ≤ w) brokers.

Lemma find_or_create_length brokers b s : (length (find_or_create brokers b s).1 ≤ S (length brokers))%nat.
Proof. unfold find_or_create. repeat case_match; cbn; rewrite ?length_app; cbn; lia. Qed.

Lemma trade_cash_bound t : trade_valid t = true → 0 ≤ trade_cash t ≤ td_qty t * td_price t ∧ 0 < td_qty t ≤ td_qty t * td_price t.
Proof.
  unfold trade_valid, trade_cash. rewrite andb_true_iff, !Z.ltb_lt. intros [Hq Hp]. rewrite Z.quot_div_nonneg by nia. split; [|nia]. split; [apply Z.div_pos; nia|]. apply Z.div_le_upper_bound; nia.
Qed.

Definition symbol_sum (f : BrokerNetPosition → Z) (s : Z) (brokers : list BrokerNetPosition) : Z := sum_z ((λ e, if np_symbol_idx e =? s then f e else 0) <$> brokers).

Lemma book_account_ok brokers b s qty cash w d : within w brokers → 0 ≤ w → Z.abs qty ≤ d → Z.abs cash ≤ d → w + d ≤ INT64_MAX →
  ∃ brokers' ok, book_account brokers b s qty cash = Some (brokers', ok) ∧ within (w + d) brokers' ∧ (length brokers' ≤ S (length brokers))%nat ∧
    if ok : bool then
      (∀ b' s', holding brokers' b' s' = let '(q, c) := holding brokers b' s' in if (b =? b') && (s =? s') then (q + qty, c + cash) else (q, c)) ∧
      (∀ s', symbol_sum np_net_qty s' brokers' = symbol_sum np_net_qty s' brokers + (if s =? s' then qty else 0)) ∧
      (∀ s', symbol_sum np_net_cash s' brokers' = symbol_sum np_net_cash s' brokers + (if s =? s' then cash else 0))
    else (64 ≤ length brokers)%nat.
Proof.
  intros Hw Hw0 Hq Hc Hmax. unfold book_account. pose proof (find_or_create_length brokers b s) as Hl. destruct (find_or_create brokers b s) as [b1 r] eqn:E. destruct (find_or_create_ok _ _ _ _ _ E) as (Hh & Hz & Hf & Hr). cbn in Hl. destruct r as [i|].
  - destruct Hr as (Hfi & p & Hp & Hb & Hs). destruct (book_side_ok b1 i p qty cash w d Hp) as (b2 & -> & Hl2 & Hw2 & Hh2 & Hq2 & Hc2); [by rewrite Hb, Hs|apply Hf; [cbn; lia|exact Hw]|done|done|done|]. cbn [mbind option_bind].
    exists b2, true. split_and!; [done|done|lia| | |].
    + intros b' s'. rewrite Hh2, Hh. unfold is_account. by rewrite Hb, Hs.
    + intros s'. unfold symbol_sum. rewrite Hq2, Hs, Hz; [done|]. intros e H1 _. by case_cond.
    + intros s'. unfold symbol_sum. rewrite Hc2, Hs, Hz; [done|]. intros e _ H1. by case_cond.
  - destruct Hr as [-> Hfull]. exists brokers, false. split_and!; [done| |lia|done]. eapply Forall_impl; [exact Hw|]. intros p [? ?]. cbn. lia.
Qed.

Lemma clear_step brokers trades t w : within (2 * w) brokers → 0 ≤ w → 2 * (w + trade_weight t) ≤ INT64_MAX →
  ∃ brokers' ok, record_and_net_trade brokers t = Some (brokers', ok) ∧ within (2 * (w + trade_weight t)) brokers' ∧ (length brokers' ≤ length brokers + 2)%nat ∧
    (trade_valid t = true → (length brokers ≤ 62)%nat → ok = true) ∧ (ok = true → trade_valid t = true) ∧ ((trade_valid t = true → ok = true) → netted brokers trades → netted brokers' (trades ++ [t])).
Proof.
  intros Hw Hw0 Hmax. unfold record_and_net_trade. destruct (trade_valid t) eqn:Ev.
  2: { assert ((td_qty t <=? 0) || (td_price t <=? 0) = true) as ->. { unfold trade_valid in Ev. rewrite orb_true_iff, !Z.leb_le. rewrite andb_false_iff, !Z.ltb_ge in Ev. done. }
    unfold trade_weight in *. rewrite Ev in *. exists brokers, false. split_and!; try done; [by rewrite Z.add_0_r|lia|]. intros _ [Hh Hq Hc]. split; [|done|done]. intros b s. rewrite !fmap_app, !sum_z_app. cbn. rewrite !(net_of_eq b s _ t), Ev, Hh. cbn. f_equal; lia. }
  destruct (trade_cash_bound t Ev) as [Hcash Hqty]. unfold trade_weight in *. rewrite Ev in *. assert (Ht : 0 < td_qty t ∧ 0 < td_price t) by (unfold trade_valid in Ev; rewrite andb_true_iff, !Z.ltb_lt in Ev; done).
  rewrite !(proj2 (Z.leb_gt _ _)) by lia. cbn [orb]. rewrite chk64_ok by (unfold INT64_MIN, INT64_MAX in *; lia). cbn [mbind option_bind]. cbv zeta. fold (trade_cash t). set (d := td_qty t * td_price t) in *.
  destruct (book_account_ok brokers (td_buy_broker_id t) (td_symbol_idx t) (td_qty t) (- trade_cash t) (2 * w) d Hw) as (b1 & ok1 & -> & Hw1 & Hl1 & H1); [lia..|]. cbn [mbind option_bind]. destruct ok1; cbn [negb].
  2: { exists b1, false. split_and!; try done; [|lia|intros _ ?; lia|by intros Hx; specialize (Hx eq_refl)]. eapply Forall_impl; [exact Hw1|]. intros p [? ?]. cbn. lia. }
  destruct (book_account_ok b1 (td_sell_broker_id t) (td_symbol_idx t) (- td_qty t) (trade_cash t) (2 * w + d) d Hw1) as (b2 & ok2 & -> & Hw2 & Hl2 & H2); [lia..|]. exists b2, ok2.
  split_and!; try done; [by replace (2 * (w + d)) with (2 * w + d + d) by lia|lia|intros _ ?; destruct ok2; [done|lia]|]. intros Hok [Hh Hq Hc]. rewrite (Hok eq_refl) in H2. destruct H1 as (Hh1 & Hq1 & Hc1), H2 as (Hh2 & Hq2 & Hc2). split.
  - intros b s. rewrite Hh2, Hh1, Hh, !fmap_app, !sum_z_app. cbn. rewrite !(net_of_eq b s _ t), Ev. destruct (td_symbol_idx t =? s), (td_buy_broker_id t =? b), (td_sell_broker_id t =? b); cbn; f_equal; lia.
  - intros s. fold (symbol_sum np_net_qty s b2). rewrite Hq2, Hq1. unfold symbol_sum. rewrite Hq. case_cond; lia.
  - intros s. fold (symbol_sum np_net_cash s b2). rewrite Hc2, Hc1. unfold symbol_sum. rewrite Hc. case_cond; lia.
Qed.

(** Settlement nets to zero: whatever the trades, as long as twice their value fits 64 bits
    the clearing house books them without overflow; unless a trade found no account, every
    account holds exactly what its broker bought less what it sold and the cash for it,
    and for every symbol the quantities and the cash of all accounts cancel out; thirty-two
    trades always find their accounts. *)
Theorem clearing_nets_to_zero trades : 2 * sum_z (trade_weight <$> trades) ≤ INT64_MAX →
  ∃ brokers oks, clear_run [] trades = Some (brokers, oks) ∧
    ((length trades ≤ 32)%nat → oks = trade_valid <$> trades) ∧
    (Forall2 (λ t ok, trade_valid t = true → ok = true) trades oks → netted brokers trades).
Proof.
  assert (Hgen : ∀ brokers past w, within (2 * w) brokers → 0 ≤ w → 2 * (w + sum_z (trade_weight <$> trades)) ≤ INT64_MAX →
    ∃ brokers' oks, clear_run brokers trades = Some (brokers', oks) ∧ ((length brokers + 2 * length trades ≤ 64)%nat → oks = trade_valid <$> trades) ∧
      (netted brokers past → Forall2 (λ t ok, trade_valid t = true → ok = true) trades oks → netted brokers' (past ++ trades))).
  { induction trades as [|t trades IH]; intros brokers past w Hw Hw0 Hmax; cbn [clear_run]; [exists brokers, []; split_and!; [done|done|]; intros ? _; by rewrite app_nil_r|]. cbn in Hmax.
    assert (Hpos : ∀ l, 0 ≤ sum_z (trade_weight <$> l)). { clear. induction l as [|t l IH]; cbn; [lia|]. unfold trade_weight at 1. destruct (trade_valid t) eqn:E; [|lia]. pose proof (trade_cash_bound t E). lia. }
    pose proof (Hpos trades). pose proof (Hpos [t]) as Ht. cbn in Ht. destruct (clear_step brokers past t w Hw Hw0 ltac:(lia)) as (b1 & ok & -> & Hw1 & Hl & Hin & Hout & Hn). cbn [mbind option_bind].
    destruct (IH b1 (past ++ [t]) (w + trade_weight t) Hw1 ltac:(lia) ltac:(lia)) as (b2 & oks & -> & Hall & Hnet). cbn [mbind option_bind]. exists b2, (ok :: oks). split_and!; [done| |].
    - cbn. intros Hlen. rewrite Hall by lia. f_equal. destruct ok; [symmetry; by apply Hout|]. destruct (trade_valid t); [|done]. apply Hin; [done|lia].
    - intros Hn0 Hok. apply Forall2_cons in Hok as [Hok Hoks]. specialize (Hnet (Hn Hok Hn0) Hoks). by rewrite <- app_assoc in Hnet. }
  intros Hmax. destruct (Hgen [] [] 0) as (brokers & oks & Hrun & Hall & Hnet); [by apply Forall_nil_2|done|lia|]. exists brokers, oks. split_and!; [done|intros; apply Hall; cbn; lia|]. apply Hnet. by split.
Qed.

(** A full table half-books a trade: the buyer is debited and nobody is credited. *)
Definition full_house : list BrokerNetPosition := (λ i, mkNet i 0 0 0 0) <$> seqZ 1 64.
Theorem full_table_half_books :
  ∃ brokers, record_and_net_trade full_house (mkTrade 1 1 99 0 10000 5 0) = Some (brokers, false) ∧ holding brokers 1 0 = (5, - 5) ∧ symbol_sum np_net_qty 0 brokers = 5.
Proof. eexists. split; [vm_compute; reflexivity|]. split; vm_compute; reflexivity. Qed.

(** *** The settlement confirmation *)

Definition xml (s : string) : list Z := requote (str s).

Definition setr016_text (trade_id : Z) (buyer_bic seller_bic isin : list Z) (price qty ts_ns : Z) : list Z :=
  xml "<Document xmlns='urn:iso:std:iso:20022:tech:xsd:setr.016.001.04'><SctiesSttlmTxConf><TxId>" ++ print_unsigned trade_id ++ xml "</TxId><TradDt>" ++ print_unsigned ts_ns ++
  xml "</TradDt><SttlmQty><Unit>" ++ print_signed qty ++ xml "</Unit></SttlmQty><DealPric><Pric><Val>" ++ print_signed price ++ xml "</Val></Pric></DealPric><FinInstrmId><ISIN>" ++ isin ++
  xml "</ISIN></FinInstrmId><Buyr><Id><BIC>" ++ buyer_bic ++ xml "</BIC></Id></Buyr><Sellr><Id><BIC>" ++ seller_bic ++ xml "</BIC></Id></Sellr></SctiesSttlmTxConf></Document>".

(** The text left in the buffer and the result. *)
Definition format_iso20022_setr016 (out_buf : bool) (max_len trade_id : Z) (buyer_bic seller_bic isin : list Z) (price qty ts_ns : Z) : list Z * Z :=
  if negb out_buf || (max_len <? 512) then ([], 0) else
  let text := setr016_text trade_id buyer_bic seller_bic isin price qty ts_ns in
  (take (Z.to_nat (max_len - 1)) text, if (0 <? Z.of_nat (length text)) && (Z.of_nat (length text) <? max_len) then Z.of_nat (length text) else 0).

(** Identifiers of 96 characters in all always fit (two BICs and an ISIN take 34). *)
Theorem confirmation_fits max_len trade_id buyer seller isin price qty ts :
  512 ≤ max_len → (length buyer + length seller + length isin ≤ 96)%nat →
  let text := setr016_text trade_id buyer seller isin price qty ts in
  format_iso20022_setr016 true max_len trade_id buyer seller isin price qty ts = (text, Z.of_nat (length text)).
Proof.
  intros Hm Hl. cbv zeta. assert (Hlen : (0 < length (setr016_text trade_id buyer seller isin price qty ts) < 512)%nat).
  { assert (Hu : ∀ v, (length (print_unsigned v) ≤ 20)%nat) by (intros v; pose proof (print_digits_length 20 v []) as H; cbn in H; exact H). assert (Hs : ∀ v, (length (print_signed v) ≤ 21)%nat) by (intros v; unfold print_signed; case_cond; cbn [length]; [pose proof (Hu (- v))|pose proof (Hu v)]; lia).
    unfold setr016_text. rewrite !length_app. pose proof (Hu trade_id). pose proof (Hu ts). pose proof (Hs price). pose proof (Hs qty). 
    repeat match goal with |- context [length (xml ?s)] => let n := eval vm_compute in (length (xml s)) in change (length (xml s)) with n end. lia. }
  unfold format_iso20022_setr016. rewrite (proj2 (Z.ltb_ge _ _)) by done. cbn [negb orb]. cbv zeta. rewrite take_ge by lia. by rewrite !(proj2 (Z.ltb_lt _ _)) by lia.
Qed.

(** ** TradeReconciliationEngine *)

Inductive BreakType := RecMatched | kQuantityBreak | kPriceBreak | kSideBreak | kUnmatchedFrontOffice | kUnmatchedBackOffice.

Record ExecutionEntry := mkExecution { xe_order_id : Z; xe_symbol_idx : Z; xe_side : Z; xe_price : Z; xe_qty : Z; xe_matched : bool }.
Record ReconBreakReport := mkBreak { rb_order_id : Z; rb_break_type : BreakType; rb_fo_qty : Z; rb_bo_qty : Z; rb_fo_price : Z; rb_bo_price : Z }.

Definition recon_max_records : nat := 512.
Record TradeReconciliationEngine := mkRecon { rc_fo_trades : list ExecutionEntry; rc_bo_trades : list ExecutionEntry }.

Definition record_front_office (e : TradeReconciliationEngine) (order_id sym side price qty : Z) : TradeReconciliationEngine * bool :=
  if (recon_max_records <=? length (rc_fo_trades e))%nat then (e, false) else (mkRecon (rc_fo_trades e ++ [mkExecution order_id sym side price qty false]) (rc_bo_trades e), true).
Definition record_back_office (e : TradeReconciliationEngine) (order_id sym side price qty : Z) : TradeReconciliationEngine * bool :=
  if (recon_max_records <=? length (rc_bo_trades e))%nat then (e, false) else (mkRecon (rc_fo_trades e) (rc_bo_trades e ++ [mkExecution order_id sym side price qty false]), true).

Definition set_matched (x : ExecutionEntry) : ExecutionEntry := mkExecution (xe_order_id x) (xe_symbol_idx x) (xe_side x) (xe_price x) (xe_qty x) true.

(** A report, if there is room for it. *)
Definition report_break (max_breaks : nat) (breaks : list ReconBreakReport) (b : ReconBreakReport) : list ReconBreakReport := if (length breaks <? max_breaks)%nat then breaks ++ [b] else breaks.

(** The first loop, over the front-office records. *)
Fixpoint check_front_office (max_breaks : nat) (todo : list ExecutionEntry) (bo : list ExecutionEntry) (breaks : list ReconBreakReport) : list ExecutionEntry * list ExecutionEntry * list ReconBreakReport :=
  match todo with
  | [] => ([], bo, breaks)
  | fo :: todo' =>
      match first_index (λ x, xe_order_id x =? xe_order_id fo) bo ≫= (λ j, x ← bo !! j; Some (j, x)) with
      | None =>
          let '(fos, bo, breaks) := check_front_office max_breaks todo' bo (report_break max_breaks breaks (mkBreak (xe_order_id fo) kUnmatchedFrontOffice (xe_qty fo) 0 (xe_price fo) 0)) in
          (fo :: fos, bo, breaks)
      | Some (j, bo_match) =>
          let breaks :=
            if negb (xe_qty fo =? xe_qty bo_match) then report_break max_breaks breaks (mkBreak (xe_order_id fo) kQuantityBreak (xe_qty fo) (xe_qty bo_match) (xe_price fo) (xe_price bo_match))
            else if negb (xe_price fo =? xe_price bo_match) then report_break max_breaks breaks (mkBreak (xe_order_id fo) kPriceBreak (xe_qty fo) (xe_qty bo_match) (xe_price fo) (xe_price bo_match))
            else breaks in
          let '(fos, bo, breaks) := check_front_office max_breaks todo' (<[j := set_matched bo_match]> bo) breaks in
          (set_matched fo :: fos, bo, breaks)
      end
  end.

Definition check_back_office (max_breaks : nat) (bo : list ExecutionEntry) (breaks : list ReconBreakReport) : list ReconBreakReport :=
  foldl (λ breaks x, if negb (xe_matched x) then report_break max_breaks breaks (mkBreak (xe_order_id x) kUnmatchedBackOffice 0 (xe_qty x) 0 (xe_price x)) else breaks) breaks bo.

Definition reconcile_trades (e : TradeReconciliationEngine) (out_breaks : bool) (max_breaks : nat) : TradeReconciliationEngine * list ReconBreakReport :=
  if negb out_breaks || (max_breaks =? 0)%nat then (e, []) else
  let '(fo, bo, breaks) := check_front_office max_breaks (rc_fo_trades e) (rc_bo_trades e) [] in
  (mkRecon fo bo, check_back_office max_breaks bo breaks).

(** *** What a reconciliation reports *)

(** The back-office record that answers for an order. *)
Definition partner (bo : list ExecutionEntry) (order_id : Z) : option nat := first_index (λ x, xe_order_id x =? order_id) bo.

Definition front_break (bo : list ExecutionEntry) (fo : ExecutionEntry) : option ReconBreakReport :=
  match partner bo (xe_order_id fo) ≫= (λ j, bo !! j) with
  | None => Some (mkBreak (xe_order_id fo) kUnmatchedFrontOffice (xe_qty fo) 0 (xe_price fo) 0)
  | Some x =>
      if negb (xe_qty fo =? xe_qty x) then Some (mkBreak (xe_order_id fo) kQuantityBreak (xe_qty fo) (xe_qty x) (xe_price fo) (xe_price x))
      else if negb (xe_price fo =? xe_price x) then Some (mkBreak (xe_order_id fo) kPriceBreak (xe_qty fo) (xe_qty x) (xe_price fo) (xe_price x)) else None
  end.

(** Whether a back-office record was matched before or answers for some front-office one. *)
Definition answered (fos bo : list ExecutionEntry) (j : nat) (x : ExecutionEntry) : bool := xe_matched x || existsb (λ fo, bool_decide (partner bo (xe_order_id fo) = Some j)) fos.
Definition back_break (fos bo : list ExecutionEntry) (j : nat) (x : ExecutionEntry) : option ReconBreakReport :=
  if answered fos bo j x then None else Some (mkBreak (xe_order_id x) kUnmatchedBackOffice 0 (xe_qty x) 0 (xe_price x)).
Definition all_breaks (fos bo : list ExecutionEntry) : list ReconBreakReport := omap (front_break bo) fos ++ omap id (imap (back_break fos bo) bo).

Lemma report_take max l b : report_break max (take max l) b = take max (l ++ [b]).
Proof.
  unfold report_break. rewrite length_take. destruct (Nat.ltb_spec (max `min` length l) max).
  - rewrite (take_ge l), take_ge; [done|rewrite length_app; cbn; lia|lia].
  - by rewrite take_app_le by lia.
Qed.

Lemma first_index_imap {A} (p : A → bool) (f : nat → A → A) l : (∀ i x, p (f i x) = p x) → first_index p (imap f l) = first_index p l.
Proof. revert f. induction l as [|x l IH]; intros f Hf; [done|]. cbn. rewrite Hf. destruct (p x); [done|]. by rewrite (IH (f ∘ S)) by (intros i y; apply (Hf (S i))). Qed.

(** The back office after some front-office records were checked. *)
Definition mark_entry (fos bo : list ExecutionEntry) (j : nat) (x : ExecutionEntry) : ExecutionEntry :=
  if existsb (λ fo, bool_decide (partner bo (xe_order_id fo) = Some j)) fos then set_matched x else x.
Definition marked (fos bo : list ExecutionEntry) : list ExecutionEntry := imap (mark_entry fos bo) bo.

Lemma marked_snoc fos bo fo :
  marked (fos ++ [fo]) bo = match partner bo (xe_order_id fo) ≫= (λ j, x ← marked fos bo !! j; Some (j, x)) with Some (j, x) => <[j := set_matched x]> (marked fos bo) | None => marked fos bo end.
Proof.
  destruct (partner bo (xe_order_id fo)) as [j|] eqn:Ep; cbn [mbind option_bind].
  - pose proof (proj1 (first_index_Some _ _ _) Ep) as [(x & Hx & _) _]. assert (Hm : marked fos bo !! j = Some (mark_entry fos bo j x)) by (unfold marked; by rewrite list_lookup_imap, Hx). rewrite Hm. cbn [mbind option_bind].
    apply list_eq. intros i. destruct (decide (i = j)) as [->|Hne].
    + rewrite list_lookup_insert_eq by (by eapply lookup_lt_Some). unfold marked. rewrite list_lookup_imap, Hx. cbn. unfold mark_entry at 1. rewrite existsb_app. cbn [existsb]. rewrite Ep, bool_decide_eq_true_2, !orb_true_r by done. unfold mark_entry. by case_cond.
    + rewrite list_lookup_insert_ne by done. unfold marked. rewrite !list_lookup_imap. destruct (bo !! i); [|done]. cbn. unfold mark_entry. rewrite existsb_app. cbn [existsb]. rewrite Ep, (bool_decide_eq_false_2 (Some j = Some i)) by congruence. by rewrite !orb_false_r.
  - unfold marked. apply imap_ext. intros i x _. unfold mark_entry. rewrite existsb_app. cbn [existsb]. rewrite Ep, bool_decide_eq_false_2 by done. by rewrite !orb_false_r.
Qed.

Lemma check_front_spec max bo todo : ∀ past l,
  ∃ fos, check_front_office max todo (marked past bo) (take max l) = (fos, marked (past ++ todo) bo, take max (l ++ omap (front_break bo) todo)).
Proof.
  induction todo as [|fo todo IH]; intros past l; cbn [check_front_office]; [rewrite !app_nil_r; by eexists|]. change (omap (front_break bo) (fo :: todo)) with (omap (front_break bo) ([fo] ++ todo)). rewrite (omap_app (front_break bo) [fo] todo).
  assert (Hfi : first_index (λ x, xe_order_id x =? xe_order_id fo) (marked past bo) = partner bo (xe_order_id fo)) by (apply first_index_imap; intros i x; unfold mark_entry; by case_cond). rewrite Hfi.
  replace (past ++ fo :: todo) with ((past ++ [fo]) ++ todo) by (by rewrite <- app_assoc). rewrite app_assoc. pose proof (marked_snoc past bo fo) as Hm. unfold front_break at 1. cbn.
  destruct (partner bo (xe_order_id fo)) as [j|] eqn:Ep; cbn [mbind option_bind] in *.
  - pose proof (proj1 (first_index_Some _ _ _) Ep) as [(x & Hx & _) _]. assert (Hl : marked past bo !! j = Some (mark_entry past bo j x)) by (unfold marked; by rewrite list_lookup_imap, Hx). rewrite Hl, Hx in *. cbn [mbind option_bind] in *. rewrite <- Hm.
    assert (xe_qty (mark_entry past bo j x) = xe_qty x) as -> by (unfold mark_entry; by case_cond). assert (xe_price (mark_entry past bo j x) = xe_price x) as -> by (unfold mark_entry; by case_cond).
    destruct (negb (xe_qty fo =? xe_qty x)); [|destruct (negb (xe_price fo =? xe_price x))]; cbn; rewrite ?report_take, ?app_nil_r;
      match goal with |- context [check_front_office _ _ _ (take _ ?l')] => destruct (IH (past ++ [fo]) l') as [fos ->] end; by eexists.
  - rewrite <- Hm, report_take. destruct (IH (past ++ [fo]) (l ++ [mkBreak (xe_order_id fo) kUnmatchedFrontOffice (xe_qty fo) 0 (xe_price fo) 0])) as [fos ->]. by eexists.
Qed.

Lemma check_back_spec max bo l :
  check_back_office max bo (take max l) = take max (l ++ omap (λ x, if xe_matched x then None else Some (mkBreak (xe_order_id x) kUnmatchedBackOffice 0 (xe_qty x) 0 (xe_price x))) bo).
Proof.
  unfold check_back_office. revert l. induction bo as [|x bo IH]; intros l; cbn; [by rewrite app_nil_r|]. destruct (xe_matched x); cbn; [by rewrite IH|]. rewrite report_take, IH, <- app_assoc. done.
Qed.

(** A reconciliation reports every break and nothing else: the reports are, in order and up
    to the size of the buffer, one for each front-office record that has no back-office
    record or differs from it in quantity or price, and one for each back-office record
    that answers for none. *)
Theorem reconciliation_reports_every_break e max : (0 < max)%nat →
  (reconcile_trades e true max).2 = take max (all_breaks (rc_fo_trades e) (rc_bo_trades e)).
Proof.
  intros Hmax. unfold reconcile_trades. destruct (Nat.eqb_spec max 0); [lia|]. cbn [negb orb]. set (bo := rc_bo_trades e). destruct (check_front_spec max bo (rc_fo_trades e) [] []) as [fos Hf]. rewrite take_nil in Hf. assert (Hm : marked [] bo = bo) by (apply list_eq; intros i; unfold marked; rewrite list_lookup_imap; by destruct (bo !! i)).
  rewrite Hm in Hf. rewrite Hf. cbn [snd app]. rewrite check_back_spec. f_equal. unfold all_breaks. f_equal. unfold marked. generalize (rc_fo_trades e). intros fs.
  assert (Hgen : ∀ (f : nat → ExecutionEntry → ExecutionEntry) (h : nat → ExecutionEntry → option ReconBreakReport) (g : ExecutionEntry → option ReconBreakReport) l, (∀ i x, g (f i x) = h i x) → omap g (imap f l) = omap id (imap h l)).
  { intros f h g l. revert f h. induction l as [|x l IH]; intros f h Hx; [done|]. cbn. rewrite Hx. unfold id at 1. rewrite (IH (f ∘ S) (h ∘ S)) by (intros; apply Hx). done. }
  apply Hgen. intros i x. unfold back_break, answered, mark_entry. destruct (existsb _ fs); cbn; [by rewrite orb_true_r|]. by rewrite orb_false_r.
Qed.

(** Side and symbol are never compared: a buy that the back office booked as a sale of
    another symbol reconciles. *)
Theorem wrong_side_reconciles id fo_sym bo_sym price qty :
  (reconcile_trades (mkRecon [mkExecution id fo_sym kBuy price qty false] [mkExecution id bo_sym kSell price qty false]) true 8).2 = [].
Proof. cbn. rewrite Z.eqb_refl. cbn. by rewrite !Z.eqb_refl. Qed.

(** ** DtcSettlementEngine *)

Inductive DtcMatchStatus := kAffirmedMatched | kQuantityMismatch | kSettlementPriceMismatch | kUnmatchedCounterparty | kFailedToDeliver.

Record DtcDeliveryInstruction := mkDtc {
  dt_instruction_id : Z;
  dt_delivering_participant_id : Z;
  dt_receiving_participant_id : Z;
  dt_cusip_symbol_idx : Z;
  dt_share_qty : Z;
  dt_settlement_amount_cents : Z;
  dt_settlement_date_ns : Z;
  dt_affirmed : bool
}.
Record DtcSettlementMatchResult := mkDtcResult { dr_instruction_id : Z; dr_status : DtcMatchStatus; dr_buy_in_notice_required : bool }.

Definition kMaxInstructions : nat := 256.
Record DtcSettlementEngine := mkDtcEngine { de_deliveries : list DtcDeliveryInstruction; de_receives : list DtcDeliveryInstruction }.

Definition record_deliver_instruction (e : DtcSettlementEngine) (inst : DtcDeliveryInstruction) : DtcSettlementEngine * bool :=
  if (kMaxInstructions <=? length (de_deliveries e))%nat then (e, false) else (mkDtcEngine (de_deliveries e ++ [inst]) (de_receives e), true).
Definition record_receive_instruction (e : DtcSettlementEngine) (inst : DtcDeliveryInstruction) : DtcSettlementEngine * bool :=
  if (kMaxInstructions <=? length (de_receives e))%nat then (e, false) else (mkDtcEngine (de_deliveries e) (de_receives e ++ [inst]), true).

Definition same_delivery (del rec : DtcDeliveryInstruction) : bool :=
  (dt_delivering_participant_id rec =? dt_delivering_participant_id del) && (dt_receiving_participant_id rec =? dt_receiving_participant_id del) && (dt_cusip_symbol_idx rec =? dt_cusip_symbol_idx del).

(** The result for one delivery. *)
Definition match_delivery (receives : list DtcDeliveryInstruction) (current_time_ns : Z) (del : DtcDeliveryInstruction) : DtcSettlementMatchResult :=
  match first_index (same_delivery del) receives ≫= (λ j, receives !! j) with
  | None =>
      let late := dt_settlement_date_ns del <? current_time_ns in
      mkDtcResult (dt_instruction_id del) (if late then kFailedToDeliver else kUnmatchedCounterparty) late
  | Some rec_match =>
      mkDtcResult (dt_instruction_id del)
        (if negb (dt_share_qty del =? dt_share_qty rec_match) then kQuantityMismatch
         else if negb (dt_settlement_amount_cents del =? dt_settlement_amount_cents rec_match) then kSettlementPriceMismatch else kAffirmedMatched) false
  end.

Fixpoint match_settlements_from (deliveries receives : list DtcDeliveryInstruction) (current_time_ns : Z) (max_out : nat) (out : list DtcSettlementMatchResult) : list DtcSettlementMatchResult :=
  match deliveries with
  | [] => out
  | del :: deliveries' => if (max_out <=? length out)%nat then out else match_settlements_from deliveries' receives current_time_ns max_out (out ++ [match_delivery receives current_time_ns del])
  end.
Definition match_settlements (e : DtcSettlementEngine) (current_time_ns : Z) (out_results : bool) (max_out : nat) : list DtcSettlementMatchResult :=
  if negb out_results || (max_out =? 0)%nat then [] else match_settlements_from (de_deliveries e) (de_receives e) current_time_ns max_out [].

Lemma match_settlements_all deliveries receives now max out : (length out ≤ max)%nat →
  match_settlements_from deliveries receives now max out = take max (out ++ (match_delivery receives now <$> deliveries)).
Proof.
  revert out. induction deliveries as [|d ds IH]; intros out Hl; cbn; [by rewrite app_nil_r, take_ge|]. destruct (Nat.leb_spec max (length out)); [by rewrite take_app_le, take_ge by lia|]. rewrite IH by (rewrite length_app; cbn; lia). by rewrite <- app_assoc.
Qed.

(** A delivery is affirmed exactly when the first receive instruction for the same parties
    and security asks for the same quantity and amount; a buy-in is due exactly when there
    is none and the date has passed; and the deliveries are answered in their order. *)
Theorem settlement_matching_exact e now max : (0 < max)%nat →
  match_settlements e now true max = take max (match_delivery (de_receives e) now <$> de_deliveries e) ∧
  ∀ del, let r := match_delivery (de_receives e) now del in
    (dr_status r = kAffirmedMatched ↔ ∃ j rec, first_index (same_delivery del) (de_receives e) = Some j ∧ de_receives e !! j = Some rec ∧ dt_share_qty del = dt_share_qty rec ∧ dt_settlement_amount_cents del = dt_settlement_amount_cents rec) ∧
    (dr_buy_in_notice_required r = true ↔ Forall (λ rec, same_delivery del rec = false) (de_receives e) ∧ dt_settlement_date_ns del < now).
Proof.
  intros Hmax. unfold match_settlements. destruct (Nat.eqb_spec max 0); [lia|]. cbn [negb orb]. split; [by rewrite match_settlements_all by (cbn; lia)|]. intros del. cbv zeta. unfold match_delivery. rewrite <- first_index_None.
  destruct (first_index (same_delivery del) (de_receives e)) as [j|] eqn:E; cbn [mbind option_bind].
  - pose proof (proj1 (first_index_Some _ _ _) E) as [(rec & Hrec & _) _]. rewrite Hrec. cbn. split; [|by split; [|intros [? _]]].
    destruct (Z.eqb_spec (dt_share_qty del) (dt_share_qty rec)), (Z.eqb_spec (dt_settlement_amount_cents del) (dt_settlement_amount_cents rec)); cbn; split; try done; try (by intros _; exists j, rec); intros (j' & rec' & ? & ? & ? & ?); simplify_eq; congruence.
  - cbn. split; [split; [by case_cond|by intros (? & ? & ? & _)]|]. rewrite Z.ltb_lt. tauto.
Qed.

(** A receive instruction is not used up: two deliveries of the same shares are both
    affirmed against one. *)
Theorem one_receive_affirms_two d : let again := mkDtc 2 (dt_delivering_participant_id d) (dt_receiving_participant_id d) (dt_cusip_symbol_idx d) (dt_share_qty d) (dt_settlement_amount_cents d) (dt_settlement_date_ns d) false in
  dr_status <$> match_settlements (mkDtcEngine [d; again] [d]) 0 true 8 = [kAffirmedMatched; kAffirmedMatched].
Proof. cbn. unfold match_delivery, same_delivery. cbn. rewrite !Z.eqb_refl. cbn. by rewrite !Z.eqb_refl. Qed.

(** ** MarketAccessRule15c35Validator *)

Inductive MarketAccessRejectReason := AccessGranted | kSingleOrderNotionalExceeded | kSingleOrderQuantityExceeded | kGrossCreditLimitExceeded | kAccountBlocked | kPriceBandViolation.
#[global] Instance access_eq_dec : EqDecision MarketAccessRejectReason.
Proof. solve_decision. Defined.

Record AccountCreditProfile := mkCredit {
  ac_account_id : Z;
  ac_max_single_order_notional : Z;
  ac_max_single_order_qty : Z;
  ac_gross_credit_limit : Z;
  ac_accumulated_gross_notional : Z;
  ac_is_blocked : bool
}.

Definition kMaxAccounts : nat := 64.

Definition register_account (accounts : list AccountCreditProfile) (profile : AccountCreditProfile) : list AccountCreditProfile * bool :=
  if (kMaxAccounts <=? length accounts)%nat then (accounts, false) else (accounts ++ [profile], true).

Definition find_account (accounts : list AccountCreditProfile) (account_id : Z) : option nat := first_index (λ a, ac_account_id a =? account_id) accounts.

Definition validate_and_reserve (accounts : list AccountCreditProfile) (account_id price qty : Z) : option (list AccountCreditProfile * MarketAccessRejectReason) :=
  match find_account accounts account_id ≫= (λ i, a ← accounts !! i; Some (i, a)) with
  | None => Some (accounts, kAccountBlocked)
  | Some (i, acc) =>
      if ac_is_blocked acc then Some (accounts, kAccountBlocked) else
      if ac_max_single_order_qty acc <? qty then Some (accounts, kSingleOrderQuantityExceeded) else
      order_notional ← chk64 (price * qty);
      if ac_max_single_order_notional acc <? order_notional then Some (accounts, kSingleOrderNotionalExceeded) else
      total ← chk64 (ac_accumulated_gross_notional acc + order_notional);
      if ac_gross_credit_limit acc <? total then Some (accounts, kGrossCreditLimitExceeded) else
      Some (<[i := mkCredit (ac_account_id acc) (ac_max_single_order_notional acc) (ac_max_single_order_qty acc) (ac_gross_credit_limit acc) total (ac_is_blocked acc)]> accounts, AccessGranted)
  end.

Definition credit_ok (a : AccountCreditProfile) : Prop := 0 ≤ ac_accumulated_gross_notional a ≤ ac_gross_credit_limit a ∧ ac_gross_credit_limit a < 2 ^ 62.

(** The credit check is exact: with credit limits below 2^62, an order of positive price and
    quantity worth at most 2^62 is granted exactly when its account is registered,
    not blocked, and within the three limits; a grant adds its value to the account and
    touches nothing else, so no account ever passes its credit limit. *)
Theorem market_access_exact accounts id price qty : Forall credit_ok accounts → 0 < price → 0 < qty → price * qty ≤ 2 ^ 62 →
  ∃ accounts' reason, validate_and_reserve accounts id price qty = Some (accounts', reason) ∧ Forall credit_ok accounts' ∧
    (reason = AccessGranted ↔ ∃ i a, find_account accounts id = Some i ∧ accounts !! i = Some a ∧ ac_is_blocked a = false ∧ qty ≤ ac_max_single_order_qty a ∧
      price * qty ≤ ac_max_single_order_notional a ∧ ac_accumulated_gross_notional a + price * qty ≤ ac_gross_credit_limit a) ∧
    (∀ j a, accounts !! j = Some a → ∃ a', accounts' !! j = Some a' ∧ ac_accumulated_gross_notional a' = ac_accumulated_gross_notional a + (if bool_decide (reason = AccessGranted ∧ find_account accounts id = Some j) then price * qty else 0)).
Proof.
  intros Hall Hp Hq Hv. assert (0 < price * qty) by nia. assert (Hsame : ∀ reason, reason ≠ AccessGranted → ∀ j a, accounts !! j = Some a → ∃ a', accounts !! j = Some a' ∧
    ac_accumulated_gross_notional a' = ac_accumulated_gross_notional a + (if bool_decide (reason = AccessGranted ∧ find_account accounts id = Some j) then price * qty else 0)).
  { intros reason Hr j a Hj. exists a. split; [done|]. rewrite bool_decide_eq_false_2 by tauto. lia. }
  unfold validate_and_reserve. destruct (find_account accounts id) as [i|] eqn:Ei; cbn [mbind option_bind].
  2: { eexists _, _. split; [done|]. split_and!; [done| |by apply Hsame]. split; [done|]. by intros (? & ? & ? & _). }
  pose proof (proj1 (first_index_Some _ _ _) Ei) as [(a & Ha & _) _]. rewrite Ha. cbn [mbind option_bind]. pose proof (proj1 (Forall_lookup _ _) Hall i a Ha) as [H1 H2].
  destruct (ac_is_blocked a) eqn:Eb. { eexists _, _. split; [done|]. split_and!; [done| |by apply Hsame]. split; [done|]. intros (? & ? & ? & ? & ? & _). simplify_eq. congruence. }
  destruct (Z.ltb_spec (ac_max_single_order_qty a) qty). { eexists _, _. split; [done|]. split_and!; [done| |by apply Hsame]. split; [done|]. intros (? & ? & ? & ? & _ & ? & _). simplify_eq. lia. }
  rewrite chk64_ok by (unfold INT64_MIN, INT64_MAX; lia). cbn [mbind option_bind].
  destruct (Z.ltb_spec (ac_max_single_order_notional a) (price * qty)). { eexists _, _. split; [done|]. split_and!; [done| |by apply Hsame]. split; [done|]. intros (? & ? & ? & ? & _ & _ & ? & _). simplify_eq. lia. }
  rewrite chk64_ok by (unfold INT64_MIN, INT64_MAX; lia). cbn [mbind option_bind].
  destruct (Z.ltb_spec (ac_gross_credit_limit a) (ac_accumulated_gross_notional a + price * qty)). { eexists _, _. split; [done|]. split_and!; [done| |by apply Hsame]. split; [done|]. intros (? & ? & ? & ? & _ & _ & _ & ?). simplify_eq. lia. }
  eexists _, _. split; [done|]. split_and!.
  - apply Forall_insert; [done|]. unfold credit_ok. cbn. lia.
  - split; [intros _; by exists i, a|done].
  - intros j b Hj. destruct (decide (i = j)) as [<-|Hne].
    + rewrite list_lookup_insert_eq by (by eapply lookup_lt_Some). eexists. split; [done|]. rewrite Ha in Hj. simplify_eq. cbn. by rewrite bool_decide_eq_true_2.
    + rewrite list_lookup_insert_ne by done. exists b. split; [done|]. rewrite bool_decide_eq_false_2 by naive_solver. lia.
Qed.

(** Nothing asks for a positive quantity: a negative order is granted and gives credit
    back. *)
Theorem negative_order_restores_credit id :
  validate_and_reserve [mkCredit id 10000000000 50000 100000000000 100000000000 false] id 10000 (- 1000000) =
    Some ([mkCredit id 10000000000 50000 100000000000 90000000000 false], AccessGranted).
Proof. unfold validate_and_reserve, find_account. cbn. rewrite Z.eqb_refl. reflexivity. Qed.

(** ** RegSho204Engine *)

Inductive FtdType := ShortSale | LongSale | Rule144Restricted.
Inductive CloseOutStatus := FtdOpen | Cured | MandatoryBuyInTriggered | PenaltyBoxRestriction.
#[global] Instance close_out_eq_dec : EqDecision CloseOutStatus.
Proof. solve_decision. Defined.

Record FtdRecord := mkFtd {
  fd_ftd_id : Z;
  fd_participant_id : Z;
  fd_symbol_id : Z;
  fd_fail_quantity : Z;
  fd_cured_quantity : Z;
  fd_settlement_day : Z;
  fd_current_day : Z;
  fd_type : FtdType;
  fd_status : CloseOutStatus
}.

Definition ftd_max_records : nat := 256.
Definition kMaxPenaltySymbols : nat := 64.
Record RegSho204Engine := mkSho { sho_records : list FtdRecord; sho_penalty_symbols : list Z }.

Definition register_ftd (e : RegSho204Engine) (ftd_id participant_id symbol_id fail_qty settlement_day : Z) (type : FtdType) : RegSho204Engine * bool :=
  if (ftd_max_records <=? length (sho_records e))%nat then (e, false)
  else (mkSho (sho_records e ++ [mkFtd ftd_id participant_id symbol_id fail_qty 0 settlement_day settlement_day type FtdOpen]) (sho_penalty_symbols e), true).

Definition cure_ftd (e : RegSho204Engine) (ftd_id delivered_qty : Z) : RegSho204Engine * bool :=
  match first_index (λ r, (fd_ftd_id r =? ftd_id) && bool_decide (fd_status r = FtdOpen)) (sho_records e) with
  | None => (e, false)
  | Some i =>
      (mkSho (alter (λ r,
         let cured := u64 (fd_cured_quantity r + delivered_qty) in
         mkFtd (fd_ftd_id r) (fd_participant_id r) (fd_symbol_id r) (fd_fail_quantity r) cured (fd_settlement_day r) (fd_current_day r) (fd_type r)
           (if fd_fail_quantity r <=? cured then Cured else fd_status r)) i (sho_records e)) (sho_penalty_symbols e), true)
  end.

Definition is_pre_borrow_required (e : RegSho204Engine) (symbol_id : Z) : bool := existsb (λ s, s =? symbol_id) (sho_penalty_symbols e).

Definition add_to_penalty_box (box : list Z) (symbol_id : Z) : list Z :=
  if existsb (λ s, s =? symbol_id) box then box else if (length box <? kMaxPenaltySymbols)%nat then box ++ [symbol_id] else box.

Definition max_days (type : FtdType) : Z := match type with ShortSale => 1 | LongSale => 3 | Rule144Restricted => 5 end.
Definition days_elapsed (new_day : Z) (r : FtdRecord) : Z := if fd_settlement_day r <=? new_day then new_day - fd_settlement_day r else 0.

Definition advance_record (new_day : Z) (r : FtdRecord) : FtdRecord :=
  mkFtd (fd_ftd_id r) (fd_participant_id r) (fd_symbol_id r) (fd_fail_quantity r) (fd_cured_quantity r) (fd_settlement_day r) new_day (fd_type r)
    (if max_days (fd_type r) <=? days_elapsed new_day r then MandatoryBuyInTriggered else fd_status r).

Fixpoint advance_records (new_day : Z) (records : list FtdRecord) (box : list Z) : list FtdRecord * list Z :=
  match records with
  | [] => ([], box)
  | r :: records' =>
      if negb (bool_decide (fd_status r = FtdOpen)) then let '(rs, box) := advance_records new_day records' box in (r :: rs, box)
      else
        let box := if max_days (fd_type r) <=? days_elapsed new_day r then add_to_penalty_box box (fd_symbol_id r) else box in
        let '(rs, box) := advance_records new_day records' box in (advance_record new_day r :: rs, box)
  end.
Definition advance_business_day (e : RegSho204Engine) (new_day : Z) : RegSho204Engine :=
  let '(rs, box) := advance_records new_day (sho_records e) (sho_penalty_symbols e) in mkSho rs box.

Definition get_record (e : RegSho204Engine) (ftd_id : Z) : option FtdRecord := first_index (λ r, fd_ftd_id r =? ftd_id) (sho_records e) ≫= λ i, sho_records e !! i.
Definition get_open_ftd_count (e : RegSho204Engine) : Z := count_if (λ r, bool_decide (fd_status r = FtdOpen)) (sho_records e).

Lemma add_to_box box s t : t ∈ box ∨ (t = s ∧ (length box < kMaxPenaltySymbols)%nat) → t ∈ add_to_penalty_box box s.
Proof.
  intros Ht. unfold add_to_penalty_box. destruct (existsb (λ x, x =? s) box) eqn:E.
  - destruct Ht as [|[-> _]]; [done|]. apply existsb_exists in E as (x & Hx & ->%Z.eqb_eq). by apply list_elem_of_In.
  - destruct (Nat.ltb_spec (length box) kMaxPenaltySymbols); [|destruct Ht as [|[_ ?]]; [done|lia]]. apply elem_of_app. rewrite list_elem_of_singleton. tauto.
Qed.

Lemma add_to_box_length box s : (length (add_to_penalty_box box s) ≤ S (length box))%nat.
Proof. unfold add_to_penalty_box. repeat case_cond; rewrite ?length_app; cbn; lia. Qed.

Definition expired (new_day : Z) (r : FtdRecord) : bool := bool_decide (fd_status r = FtdOpen) && (max_days (fd_type r) <=? days_elapsed new_day r).

Lemma advance_records_spec new_day records : ∀ box, (length box + length records ≤ kMaxPenaltySymbols)%nat →
  let '(rs, box') := advance_records new_day records box in
  rs = (λ r, if bool_decide (fd_status r = FtdOpen) then advance_record new_day r else r) <$> records ∧ (∀ s, s ∈ box → s ∈ box') ∧ (∀ r, r ∈ records → expired new_day r = true → fd_symbol_id r ∈ box').
Proof.
  induction records as [|r records IH]; intros box Hl; cbn [advance_records]; [split_and!; [done|done|]; intros r Hr; by apply elem_of_nil in Hr|]. cbn in Hl. destruct (bool_decide (fd_status r = FtdOpen)) eqn:Eo; cbn [negb].
  - set (box1 := if max_days (fd_type r) <=? days_elapsed new_day r then add_to_penalty_box box (fd_symbol_id r) else box). assert (Hl1 : (length box1 ≤ S (length box))%nat) by (unfold box1; case_cond; [apply add_to_box_length|lia]).
    specialize (IH box1 ltac:(lia)). destruct (advance_records new_day records box1) as [rs box']. destruct IH as (-> & Hb & He). split_and!; [cbn; by rewrite Eo| |].
    + intros s Hs. apply Hb. unfold box1. case_cond; [apply add_to_box; by left|done].
    + intros x [->|Hx]%elem_of_cons Hexp; [|by apply He]. unfold expired in Hexp. rewrite Eo in Hexp. cbn in Hexp. apply Hb. unfold box1. rewrite Hexp. apply add_to_box. right. split; [done|lia].
  - specialize (IH box ltac:(lia)). destruct (advance_records new_day records box) as [rs box']. destruct IH as (-> & Hb & He). split_and!; [cbn; by rewrite Eo|done|]. intros x [->|Hx]%elem_of_cons Hexp; [|by apply He]. unfold expired in Hexp. by rewrite Eo in Hexp.
Qed.

(** A failure to deliver is closed out on time: after a day is over no record that reached
    its deadline is still open, every symbol bought in needs a borrow before the next
    short sale (as long as the penalty box has room for the records), and the others keep
    their state. *)
Theorem close_out_on_time e day : (length (sho_penalty_symbols e) + length (sho_records e) ≤ kMaxPenaltySymbols)%nat →
  let e' := advance_business_day e day in
  Forall (λ r, fd_status r = FtdOpen → days_elapsed day r < max_days (fd_type r)) (sho_records e') ∧
  Forall (λ r, expired day r = true → is_pre_borrow_required e' (fd_symbol_id r) = true) (sho_records e) ∧
  Forall2 (λ r r', fd_status r' = if expired day r then MandatoryBuyInTriggered else fd_status r) (sho_records e) (sho_records e').
Proof.
  intros Hl. unfold advance_business_day. pose proof (advance_records_spec day (sho_records e) (sho_penalty_symbols e) Hl) as H. destruct (advance_records _ _ _) as [rs box]. destruct H as (-> & _ & He). cbn. split_and!.
  - apply Forall_fmap, Forall_forall. intros r _. cbn. destruct (bool_decide (fd_status r = FtdOpen)) eqn:Eo; [|by rewrite bool_decide_eq_false in Eo]. unfold advance_record. cbn. destruct (Z.leb_spec (max_days (fd_type r)) (days_elapsed day r)); [done|]. done.
  - apply Forall_forall. intros r Hr Hexp. unfold is_pre_borrow_required. cbn. apply existsb_exists. exists (fd_symbol_id r). split; [|apply Z.eqb_refl]. apply list_elem_of_In. by apply He.
  - apply Forall2_fmap_r, Forall_Forall2_diag, Forall_forall. intros r _. cbn. unfold expired. destruct (bool_decide (fd_status r = FtdOpen)); [|done]. cbn. by case_cond.
Qed.

(** The box holds 64 symbols and drops the next one: its buy-in restricts nothing. *)
Theorem full_penalty_box_restricts_nothing :
  let e := mkSho [mkFtd 1 1 999 100 0 10 10 ShortSale FtdOpen] (seqZ 0 64) in
  fd_status <$> sho_records (advance_business_day e 11) = [MandatoryBuyInTriggered] ∧ is_pre_borrow_required (advance_business_day e 11) 999 = false.
Proof. split; vm_compute; reflexivity. Qed.
