(* ===== verification/Journals.v ===== *)
(** * Journals: records kept for audits and replays (src/luv_worm_audit.hpp,
    src/luv_sec_rule_17a4_records.hpp, src/luv_drop_copy.hpp,
    src/luv_nanosecond_replay.hpp)

    A hash-chained write-once log, the retention ledger, the drop-copy session with its
    replay buffer and the scheduler of a market replay.  An array with a count is the list
    of its entries in use. *)

From S2P Require Import Prelude Recovery Routing.
From Stdlib Require Import ZArith Lia.
From stdpp Require Import base tactics gmap numbers option list sorting.
Open Scope Z_scope.

(** ** WormAuditLogValidator *)

Record WormAuditRecord := mkWorm { wr_sequence_id : Z; wr_timestamp_ns : Z; wr_record_type : Z; wr_previous_hash : Z; wr_current_hash : Z; wr_payload_summary : list Z }.

Definition worm_max_records : nat := 512.
Definition worm_basis : Z := 14695981039346656037.

(** [wl_last_hash] is the hash of the newest record. *)
Record WormAuditLogValidator := mkWormLog { wl_records : list WormAuditRecord; wl_last_hash : Z }.
Definition WormAuditLogValidator_new : WormAuditLogValidator := mkWormLog [] worm_basis.

(** [hash ^= word; hash *= prime]. *)
Definition fnv64 (hash word : Z) : Z := u64 (Z.lxor hash word * 1099511628211).

(** The characters before the null byte. *)
Fixpoint until_nul (s : list Z) : list Z := match s with [] => [] | c :: s' => if c =? 0 then [] else c :: until_nul s' end.

Definition worm_words (sequence_id timestamp_ns record_type : Z) (payload_summary : list Z) : list Z := sequence_id :: timestamp_ns :: record_type :: until_nul payload_summary.
Definition worm_hash (previous_hash : Z) (words : list Z) : Z := foldl fnv64 previous_hash words.

(** [std::strncpy] of 63 characters into 64 zero bytes. *)
Definition summary_bytes (summary : option (list Z)) : list Z :=
  match summary with Some s => let t := take 63 (until_nul s) in t ++ replicate (64 - length t) 0 | None => replicate 64 0 end.

Definition append_record (v : WormAuditLogValidator) (seq timestamp_ns rec_type : Z) (summary : option (list Z)) : WormAuditLogValidator * bool :=
  if (worm_max_records <=? length (wl_records v))%nat then (v, false) else
  if from_option (λ r, seq <=? wr_sequence_id r) false (last (wl_records v)) then (v, false) else
  let payload := summary_bytes summary in
  let hash := worm_hash (wl_last_hash v) (worm_words seq timestamp_ns rec_type payload) in
  (mkWormLog (wl_records v ++ [mkWorm seq timestamp_ns rec_type (wl_last_hash v) hash payload]) hash, true).

Definition record_words (r : WormAuditRecord) : list Z := worm_words (wr_sequence_id r) (wr_timestamp_ns r) (wr_record_type r) (wr_payload_summary r).

Fixpoint verify_worm (records : list WormAuditRecord) (expected_prev : Z) : bool :=
  match records with
  | [] => true
  | r :: records' =>
      if negb (wr_previous_hash r =? expected_prev) then false else
      let hash := worm_hash (wr_previous_hash r) (record_words r) in
      if negb (wr_current_hash r =? hash) then false else verify_worm records' hash
  end.
Definition verify_chain_integrity (v : WormAuditLogValidator) : bool := verify_worm (wl_records v) worm_basis.

(** *** Tampering *)

Lemma fnv64_range h w : 0 ≤ fnv64 h w < 2 ^ 64.
Proof. apply u64_range. Qed.

Lemma lxor_u64 a b : 0 ≤ a < 2 ^ 64 → 0 ≤ b < 2 ^ 64 → 0 ≤ Z.lxor a b < 2 ^ 64.
Proof.
  intros Ha Hb. split; [apply Z.lxor_nonneg; lia|]. destruct (decide (Z.lxor a b = 0)) as [->|Hne]; [lia|]. assert (Hpos : 0 < Z.lxor a b) by (pose proof (proj2 (Z.lxor_nonneg a b)); lia).
  apply Z.log2_lt_pow2; [done|]. eapply Z.le_lt_trans; [apply Z.log2_lxor; lia|]. apply Z.max_lub_lt; (destruct (decide (a = 0)) as [->|]; [|idtac]); (destruct (decide (b = 0)) as [->|]; [|idtac]); try (cbn; lia); apply Z.log2_lt_pow2; lia.
Qed.

Lemma fnv64_inj h h' w w' : 0 ≤ h < 2 ^ 64 → 0 ≤ h' < 2 ^ 64 → 0 ≤ w < 2 ^ 64 → 0 ≤ w' < 2 ^ 64 → fnv64 h w = fnv64 h' w' → Z.lxor h w = Z.lxor h' w'.
Proof.
  intros Hh Hh' Hw Hw' E. assert (Hinv : ∀ z, 0 ≤ z < 2 ^ 64 → u64 (u64 (z * 1099511628211) * 14886173955864302971) = z).
  { intros z Hz. unfold u64. rewrite Z.mul_mod_idemp_l by lia. replace (z * 1099511628211 * 14886173955864302971) with (z + (z * 887285111055) * 2 ^ 64) by lia. rewrite Z_mod_plus_full. apply Z.mod_small. lia. }
  rewrite <- (Hinv (Z.lxor h w)), <- (Hinv (Z.lxor h' w')) by (by apply lxor_u64). unfold fnv64 in E. by rewrite E.
Qed.

Definition words64 (ws : list Z) : Prop := Forall (λ w, 0 ≤ w < 2 ^ 64) ws.

Lemma worm_hash_inj ws h h' : words64 ws → 0 ≤ h < 2 ^ 64 → 0 ≤ h' < 2 ^ 64 → worm_hash h ws = worm_hash h' ws → h = h'.
Proof.
  unfold worm_hash. intros Hws. revert h h'. induction Hws as [|w ws Hw _ IH]; intros h h' Hh Hh' E; [done|]. cbn [foldl] in E. apply IH in E; [|apply fnv64_range..]. apply fnv64_inj in E; [|done..]. by eapply lxor_cancel_r.
Qed.

Lemma worm_hash_detects ws i w w' h : words64 ws → 0 ≤ h < 2 ^ 64 → ws !! i = Some w → 0 ≤ w' < 2 ^ 64 → w' ≠ w → worm_hash h (<[i := w']> ws) ≠ worm_hash h ws.
Proof.
  unfold worm_hash. intros Hws. revert i h. induction Hws as [|x ws Hx Hws IH]; intros [|i] h Hh Hi Hw' Hne; cbn in Hi; simplify_eq.
  - cbn. intros E. apply (worm_hash_inj ws) in E; [|done|apply fnv64_range..]. apply fnv64_inj in E; [|done..]. rewrite !(Z.lxor_comm h) in E. by apply lxor_cancel_r in E.
  - change (<[S i := w']> (x :: ws)) with (x :: <[i := w']> ws). cbn. apply IH; try done. apply fnv64_range.
Qed.

Lemma verify_worm_app l k p : verify_worm l p = true → verify_worm (l ++ k) p = verify_worm k (from_option wr_current_hash p (last l)).
Proof.
  revert p. induction l as [|r l IH]; intros p; [done|]. cbn [app verify_worm]. destruct (negb (wr_previous_hash r =? p)); [done|]. destruct (Z.eqb_spec (wr_current_hash r) (worm_hash (wr_previous_hash r) (record_words r))) as [E|]; [|done]. cbn [negb]. intros Hl. rewrite (IH _ Hl).
  rewrite last_cons. destruct (last l); [done|]. cbn. by rewrite E.
Qed.

(** The log verifies after any sequence of appends, whatever was refused, and its sequence
    numbers increase strictly. *)
Theorem worm_log_verifies (appends : list (Z * Z * Z * option (list Z))) :
  let v := foldl (λ v '(seq, ts, type, summary), (append_record v seq ts type summary).1) WormAuditLogValidator_new appends in
  verify_chain_integrity v = true ∧ StronglySorted Z.lt (wr_sequence_id <$> wl_records v) ∧ (length (wl_records v) ≤ worm_max_records)%nat.
Proof.
  cbv zeta. assert (H : ∀ v, verify_chain_integrity v = true ∧ wl_last_hash v = from_option wr_current_hash worm_basis (last (wl_records v)) ∧ StronglySorted Z.lt (wr_sequence_id <$> wl_records v) ∧ (length (wl_records v) ≤ worm_max_records)%nat →
    let v' := foldl (λ v '(seq, ts, type, summary), (append_record v seq ts type summary).1) v appends in
    verify_chain_integrity v' = true ∧ StronglySorted Z.lt (wr_sequence_id <$> wl_records v') ∧ (length (wl_records v') ≤ worm_max_records)%nat).
  2: { apply H. split_and!; [done|done|apply SSorted_nil|cbn; unfold worm_max_records; lia]. }
  cbv zeta. induction appends as [|[[[seq ts] type] summary] appends IH]; intros v Hv; cbn [foldl]; [tauto|]. apply IH. destruct Hv as (H1 & H2 & H3 & H4). unfold append_record. destruct (Nat.leb_spec worm_max_records (length (wl_records v))); [done|].
  destruct (from_option _ false (last (wl_records v))) eqn:El; [done|]. cbn. split_and!.
  - unfold verify_chain_integrity in *. cbn. rewrite verify_worm_app, <- H2 by done. cbn. by rewrite !Z.eqb_refl.
  - by rewrite last_snoc.
  - rewrite fmap_app. apply StronglySorted_app. split_and!; [|done|by repeat constructor]. intros a b (r & -> & Hr)%list_elem_of_fmap ->%list_elem_of_singleton. cbn.
    destruct (last (wl_records v)) as [r0|] eqn:E; [|apply last_None in E; rewrite E in Hr; by apply elem_of_nil in Hr]. cbn in El. apply Z.leb_gt in El. apply last_Some in E as [l' E]. rewrite E in Hr, H3. rewrite fmap_app in H3. apply StronglySorted_app in H3 as (H3 & _).
    apply elem_of_app in Hr as [Hr| ->%list_elem_of_singleton]; [|done]. etransitivity; [|exact El]. apply H3; [by apply list_elem_of_fmap_2|]. cbn. by left.
  - rewrite length_app. cbn. lia.
Qed.

(** Changing one field of a record, or one character of its summary to another character,
    is detected wherever the record stands. *)
Theorem worm_chain_detects l1 r l2 r' i w w' :
  verify_worm (l1 ++ r :: l2) worm_basis = true → words64 (record_words r) → 0 ≤ wr_previous_hash r < 2 ^ 64 → record_words r !! i = Some w →
  record_words r' = <[i := w']> (record_words r) → 0 ≤ w' < 2 ^ 64 → w' ≠ w → wr_previous_hash r' = wr_previous_hash r → wr_current_hash r' = wr_current_hash r →
  verify_worm (l1 ++ r' :: l2) worm_basis = false.
Proof.
  intros Hv Hw Hp Hi Ew Hw' Hne Eprev Ecur. destruct (verify_worm l1 worm_basis) eqn:H1.
  - rewrite verify_worm_app in * by done. cbn [verify_worm] in *. rewrite Eprev, Ecur. destruct (negb (wr_previous_hash r =? _)); [done|]. destruct (Z.eqb_spec (wr_current_hash r) (worm_hash (wr_previous_hash r) (record_words r))) as [E|]; [|done]. cbn [negb] in *.
    destruct (Z.eqb_spec (wr_current_hash r) (worm_hash (wr_previous_hash r) (record_words r'))) as [E'|]; [|done]. exfalso. rewrite Ew in E'. apply (worm_hash_detects (record_words r) i w w' (wr_previous_hash r)); congruence.
  - exfalso. clear -Hv H1. revert Hv H1. generalize worm_basis. induction l1 as [|x l1 IH]; intros p; cbn [app verify_worm]; [done|]. repeat case_cond; try done. apply IH.
Qed.

(** ** SecRule17a4RecordEngine *)

Inductive RecordRetentionCategory := PermanentLifetime | SixYearRetention | ThreeYearRetention | TwoYearImmediateAccess.

Record RecordMetadata := mkMetadata {
  rm_record_id : Z;
  rm_category : RecordRetentionCategory;
  rm_creation_timestamp_ns : Z;
  rm_payload_hash : Z;
  rm_previous_record_hash : Z;
  rm_payload_size_bytes : Z;
  rm_is_litigation_hold : bool;
  rm_is_worm_sealed : bool
}.
Definition RecordMetadata_init : RecordMetadata := mkMetadata 0 ThreeYearRetention 0 0 0 0 false false.

Record Rule17a4VerificationResult := mkRule17 {
  rv_total_records_checked : Z;
  rv_compliant_records_count : Z;
  rv_litigation_hold_count : Z;
  rv_expired_records_eligible_for_purge : Z;
  rv_hash_chain_integrity_valid : bool;
  rv_third_party_undertaking_active : bool;
  rv_is_fully_compliant : bool
}.

Definition kLedgerCapacity : nat := 256.
Definition kOneYearNs : Z := 365 * 24 * 3600 * 1000000000.
Record SecRule17a4RecordEngine := mkRetention { se_ledger : list RecordMetadata; se_head : nat; se_count : nat; se_undertaking : bool }.
Definition SecRule17a4RecordEngine_new : SecRule17a4RecordEngine := mkRetention (replicate kLedgerCapacity RecordMetadata_init) 0 0 true.

Definition set_third_party_undertaking (e : SecRule17a4RecordEngine) (on_file : bool) : SecRule17a4RecordEngine := mkRetention (se_ledger e) (se_head e) (se_count e) on_file.

Definition retention_append (e : SecRule17a4RecordEngine) (record_id : Z) (cat : RecordRetentionCategory) (creation_ns payload_hash payload_size : Z) (litigation_hold : bool) : SecRule17a4RecordEngine * bool :=
  if (kLedgerCapacity <=? se_count e)%nat then (e, false) else
  let prev_hash :=
    if (0 <? se_count e)%nat then
      let last_idx := if (se_head e =? 0)%nat then (kLedgerCapacity - 1)%nat else (se_head e - 1)%nat in
      rm_payload_hash (default RecordMetadata_init (se_ledger e !! last_idx))
    else 0 in
  (mkRetention (<[se_head e := mkMetadata record_id cat creation_ns payload_hash prev_hash payload_size litigation_hold true]> (se_ledger e))
     ((se_head e + 1) mod kLedgerCapacity) (se_count e + 1) (se_undertaking e), true).

Definition set_litigation_hold (e : SecRule17a4RecordEngine) (record_id : Z) (hold_active : bool) : SecRule17a4RecordEngine * bool :=
  match first_index (λ r, rm_record_id r =? record_id) (take (se_count e) (se_ledger e)) with
  | None => (e, false)
  | Some i =>
      (mkRetention (alter (λ r, mkMetadata (rm_record_id r) (rm_category r) (rm_creation_timestamp_ns r) (rm_payload_hash r) (rm_previous_record_hash r) (rm_payload_size_bytes r) hold_active (rm_is_worm_sealed r)) i (se_ledger e))
         (se_head e) (se_count e) (se_undertaking e), true)
  end.

Definition retention_ns (c : RecordRetentionCategory) : option Z :=
  match c with ThreeYearRetention => Some (3 * kOneYearNs) | SixYearRetention => Some (6 * kOneYearNs) | TwoYearImmediateAccess => Some (2 * kOneYearNs) | PermanentLifetime => None end.

Definition purgeable (now : Z) (r : RecordMetadata) : bool :=
  let age_ns := if rm_creation_timestamp_ns r <=? now then now - rm_creation_timestamp_ns r else 0 in
  match retention_ns (rm_category r) with Some limit => (limit <=? age_ns) && negb (rm_is_litigation_hold r) | None => false end.

(** One turn of the audit loop: result, expected hash, index. *)
Definition audit_record (now : Z) (s : Rule17a4VerificationResult * Z * nat) (r : RecordMetadata) : Rule17a4VerificationResult * Z * nat :=
  let '(v, expected, i) := s in
  (mkRule17 (rv_total_records_checked v) (rv_compliant_records_count v + (if rm_is_worm_sealed r then 1 else 0)) (rv_litigation_hold_count v + (if rm_is_litigation_hold r then 1 else 0))
     (rv_expired_records_eligible_for_purge v + (if purgeable now r then 1 else 0))
     (rv_hash_chain_integrity_valid v && rm_is_worm_sealed r && negb ((0 <? i)%nat && negb (rm_previous_record_hash r =? expected)))
     (rv_third_party_undertaking_active v) (rv_is_fully_compliant v), rm_payload_hash r, S i).

Definition audit_records (e : SecRule17a4RecordEngine) (now : Z) : Rule17a4VerificationResult :=
  let result := mkRule17 (Z.of_nat (se_count e)) 0 0 0 true (se_undertaking e) true in
  if (se_count e =? 0)%nat then mkRule17 (rv_total_records_checked result) 0 0 0 true (se_undertaking e) (se_undertaking e) else
  let '(v, _, _) := foldl (audit_record now) (result, 0, 0%nat) (take (se_count e) (se_ledger e)) in
  mkRule17 (rv_total_records_checked v) (rv_compliant_records_count v) (rv_litigation_hold_count v) (rv_expired_records_eligible_for_purge v) (rv_hash_chain_integrity_valid v) (rv_third_party_undertaking_active v)
    ((rv_compliant_records_count v =? rv_total_records_checked v) && rv_hash_chain_integrity_valid v && rv_third_party_undertaking_active v).

(** *** What an audit finds *)

Fixpoint linked (i : nat) (expected : Z) (rows : list RecordMetadata) : Prop :=
  match rows with [] => True | r :: rows' => rm_is_worm_sealed r = true ∧ ((0 < i)%nat → rm_previous_record_hash r = expected) ∧ linked (S i) (rm_payload_hash r) rows' end.

Lemma linked_snoc i p l r : linked i p (l ++ [r]) ↔ linked i p l ∧ rm_is_worm_sealed r = true ∧ ((0 < i + length l)%nat → rm_previous_record_hash r = from_option rm_payload_hash p (last l)).
Proof.
  revert i p. induction l as [|x l IH]; intros i p; cbn [app linked length]; [rewrite Nat.add_0_r; cbn; tauto|]. rewrite IH, last_cons. replace (S i + length l)%nat with (i + S (length l))%nat by lia. destruct (last l); cbn; tauto.
Qed.

Lemma linked_same i p l k : Forall2 (λ a b, rm_payload_hash a = rm_payload_hash b ∧ rm_previous_record_hash a = rm_previous_record_hash b ∧ rm_is_worm_sealed a = rm_is_worm_sealed b) l k → linked i p l → linked i p k.
Proof.
  intros H. revert i p. induction H as [|a b l k (Hh & Hp & Hs) _ IH]; intros i p; cbn; [done|]. rewrite <- Hh, <- Hp, <- Hs. intros (H1 & H2 & H3). split_and!; [done|done|]. by apply IH.
Qed.

Lemma audit_fold now rows : ∀ v p i, linked i p rows →
  let '(v', _, _) := foldl (audit_record now) (v, p, i) rows in
  v' = mkRule17 (rv_total_records_checked v) (rv_compliant_records_count v + Z.of_nat (length rows)) (rv_litigation_hold_count v + count_if rm_is_litigation_hold rows)
         (rv_expired_records_eligible_for_purge v + count_if (purgeable now) rows) (rv_hash_chain_integrity_valid v) (rv_third_party_undertaking_active v) (rv_is_fully_compliant v).
Proof.
  induction rows as [|r rows IH]; intros v p i; cbn [foldl linked]; [destruct v; cbn; intros _; f_equal; lia|]. intros (Hs & Hp & Hl). unfold audit_record at 2. specialize (IH (mkRule17 (rv_total_records_checked v) (rv_compliant_records_count v + (if rm_is_worm_sealed r then 1 else 0)) (rv_litigation_hold_count v + (if rm_is_litigation_hold r then 1 else 0))
     (rv_expired_records_eligible_for_purge v + (if purgeable now r then 1 else 0)) (rv_hash_chain_integrity_valid v && rm_is_worm_sealed r && negb ((0 <? i)%nat && negb (rm_previous_record_hash r =? p))) (rv_third_party_undertaking_active v) (rv_is_fully_compliant v)) (rm_payload_hash r) (S i) Hl).
  destruct (foldl (audit_record now) _ rows) as [[v' p'] i']. rewrite IH. cbn [rv_total_records_checked rv_compliant_records_count rv_litigation_hold_count rv_expired_records_eligible_for_purge rv_hash_chain_integrity_valid rv_third_party_undertaking_active rv_is_fully_compliant].
  rewrite Hs, andb_true_r. assert ((0 <? i)%nat && negb (rm_previous_record_hash r =? p) = false) as ->. { destruct (Nat.ltb_spec 0 i) as [Hi|]; [|done]. by rewrite (Hp Hi), Z.eqb_refl. }
  rewrite andb_true_r. unfold count_if. cbn [foldr length]. f_equal; lia.
Qed.

Inductive retention_op := AppendRow (record_id : Z) (cat : RecordRetentionCategory) (creation_ns payload_hash payload_size : Z) (hold : bool) | Hold (record_id : Z) (hold : bool) | Undertaking (on_file : bool).
Definition retention_do (e : SecRule17a4RecordEngine) (op : retention_op) : SecRule17a4RecordEngine :=
  match op with
  | AppendRow id cat ns hash size hold => (retention_append e id cat ns hash size hold).1
  | Hold id hold => (set_litigation_hold e id hold).1
  | Undertaking b => set_third_party_undertaking e b
  end.

Definition rows_of (e : SecRule17a4RecordEngine) : list RecordMetadata := take (se_count e) (se_ledger e).
Record retention_ok (e : SecRule17a4RecordEngine) : Prop := mkRetentionOk {
  re_length : length (se_ledger e) = kLedgerCapacity;
  re_count : (se_count e ≤ kLedgerCapacity)%nat;
  re_head : se_head e = (se_count e mod kLedgerCapacity)%nat;
  re_linked : linked 0 0 (rows_of e)
}.

Lemma retention_append_ok e id cat ns hash size hold : retention_ok e → retention_ok (retention_append e id cat ns hash size hold).1.
Proof.
  intros [Hl Hc Hh Hk]. unfold retention_append. destruct (Nat.leb_spec kLedgerCapacity (se_count e)); [done|]. rewrite (Nat.mod_small (se_count e)) in Hh by done. cbn [fst]. split; cbn [se_ledger se_head se_count]; [by rewrite length_insert|lia|by rewrite Hh|].
  unfold rows_of in *. cbn [se_ledger se_count]. rewrite Nat.add_1_r, Hh. set (x := mkMetadata _ _ _ _ _ _ _ _). rewrite (take_S_r _ _ x) by (apply list_lookup_insert_eq; lia). rewrite take_insert_ge by lia. apply linked_snoc. split_and!; [done|done|]. rewrite length_take. intros Hpos. subst x. cbn [rm_previous_record_hash].
  rewrite (proj2 (Nat.ltb_lt 0 _)) by lia. destruct (Nat.eqb_spec (se_count e) 0); [lia|]. rewrite last_lookup, length_take, lookup_take_lt by lia. replace (Nat.pred (se_count e `min` length (se_ledger e))) with (se_count e - 1)%nat by lia.
  destruct (lookup_lt_is_Some_2 (se_ledger e) (se_count e - 1) ltac:(lia)) as [r Hr]. by rewrite Hr.
Qed.

Lemma retention_step e op : retention_ok e → retention_ok (retention_do e op).
Proof.
  intros He. destruct op as [id cat ns hash size hold|id hold|b]; cbn [retention_do]; [by apply retention_append_ok| |by destruct He].
  destruct He as [Hl Hc Hh Hk]. unfold set_litigation_hold. destruct (first_index _ _) as [i|]; [|done]. split; cbn [fst se_ledger se_head se_count]; [by rewrite length_alter|done|done|]. unfold rows_of in *. cbn [se_ledger se_count].
  eapply linked_same; [|exact Hk]. apply Forall2_take. apply Forall2_same_length_lookup. split; [by rewrite length_alter|]. intros j a b Ha Hb. rewrite list_lookup_alter in Hb. case_decide as E; [subst j|]; rewrite Ha in Hb; cbn in Hb; by simplify_eq.
Qed.

(** An audit is exact: after any sequence of appends, holds and undertakings the audit finds
    the chain intact, counts the records on hold, and offers for purging exactly those
    whose retention is over and that nobody holds; it certifies the ledger exactly when
    the undertaking is on file. *)
Theorem retention_audit_exact ops now :
  let e := foldl retention_do SecRule17a4RecordEngine_new ops in
  audit_records e now = mkRule17 (Z.of_nat (se_count e)) (Z.of_nat (se_count e)) (count_if rm_is_litigation_hold (rows_of e)) (count_if (purgeable now) (rows_of e)) true (se_undertaking e) (se_undertaking e).
Proof.
  cbv zeta. assert (He : retention_ok (foldl retention_do SecRule17a4RecordEngine_new ops)). { assert (H0 : retention_ok SecRule17a4RecordEngine_new) by (split; [apply length_replicate|cbn; lia|done|done]). revert H0. generalize SecRule17a4RecordEngine_new. induction ops as [|op ops IH]; intros e He; [done|]. cbn. by apply IH, retention_step. }
  set (e := foldl _ _ _) in *. clearbody e. destruct He as [Hl Hc _ Hk]. unfold audit_records. cbv zeta. cbn [rv_total_records_checked]. destruct (Nat.eqb_spec (se_count e) 0) as [E|E]; [unfold rows_of; rewrite E; done|].
  pose proof (audit_fold now (rows_of e) (mkRule17 (Z.of_nat (se_count e)) 0 0 0 true (se_undertaking e) true) 0 0 Hk) as Hf. unfold rows_of in Hf at 1. destruct (foldl _ _ _) as [[v p] i]. rewrite Hf. cbn. unfold rows_of. rewrite length_take, Nat.min_l by lia. by rewrite Z.eqb_refl.
Qed.

(** ** DropCopySession *)

Record DropCopyMessage := mkDrop {
  dm_seq_num : Z;
  dm_firm_id : Z;
  dm_symbol_idx : Z;
  dm_msg_type : Z;
  dm_exec_type : Z;
  dm_price : Z;
  dm_qty : Z;
  dm_order_id : Z;
  dm_exec_id : Z;
  dm_ts_ns : Z
}.
Definition DropCopyMessage_init : DropCopyMessage := mkDrop 0 0 0 56 48 0 0 0 0 0.

Definition kReplayBufferSize : Z := 1024.
Record DropCopySession := mkDropSession { ds_subscriber_id : list Z; ds_target_id : list Z; ds_seq_num : Z; ds_count : Z; ds_buffer : list DropCopyMessage }.
Definition DropCopySession_new (subscriber_id target_id : list Z) : DropCopySession := mkDropSession subscriber_id target_id 1 0 (replicate (Z.to_nat kReplayBufferSize) DropCopyMessage_init).

Definition drop_slot (count : Z) : nat := Z.to_nat (Z.land count (kReplayBufferSize - 1)).

Definition publish_execution (s : DropCopySession) (firm_id symbol_idx exec_type price qty order_id exec_id ts_ns : Z) : DropCopySession * DropCopyMessage :=
  let m := mkDrop (ds_seq_num s) firm_id symbol_idx 56 exec_type price qty order_id exec_id ts_ns in
  (mkDropSession (ds_subscriber_id s) (ds_target_id s) (u64 (ds_seq_num s + 1)) (u64 (ds_count s + 1)) (<[drop_slot (ds_count s) := m]> (ds_buffer s)), m).

Definition in_range (begin_seq end_seq : Z) (m : DropCopyMessage) : bool := (begin_seq <=? dm_seq_num m) && (dm_seq_num m <=? end_seq).

Fixpoint replay_loop (s : DropCopySession) (begin_seq end_seq : Z) (max_replay_count : nat) (total_avail : Z) (todo : list Z) (out : list DropCopyMessage) : list DropCopyMessage :=
  match todo with
  | [] => out
  | i :: todo' =>
      if (max_replay_count <=? length out)%nat then out else
      let m := default DropCopyMessage_init (ds_buffer s !! drop_slot (u64 (ds_count s - total_avail + i))) in
      replay_loop s begin_seq end_seq max_replay_count total_avail todo' (if in_range begin_seq end_seq m then out ++ [m] else out)
  end.

Definition replay_range (s : DropCopySession) (begin_seq end_seq : Z) (out_replay_buf : bool) (max_replay_count : nat) : list DropCopyMessage :=
  if negb out_replay_buf || (max_replay_count =? 0)%nat || (end_seq <? begin_seq) then [] else
  let total_avail := ds_count s `min` kReplayBufferSize in
  replay_loop s begin_seq end_seq max_replay_count total_avail (seqZ 0 total_avail) [].

(** *** The replay *)

Record copied_to (s : DropCopySession) (msgs : list DropCopyMessage) : Prop := mkCopied {
  cd_count : ds_count s = Z.of_nat (length msgs);
  cd_seq : ds_seq_num s = Z.of_nat (length msgs) + 1;
  cd_length : length (ds_buffer s) = Z.to_nat kReplayBufferSize;
  cd_buffer k m : msgs !! k = Some m → Z.of_nat (length msgs) - kReplayBufferSize ≤ Z.of_nat k → ds_buffer s !! drop_slot (Z.of_nat k) = Some m
}.

Lemma drop_slot_mod k : 0 ≤ k → drop_slot k = Z.to_nat (k mod 1024) ∧ (drop_slot k < 1024)%nat.
Proof. intros Hk. unfold drop_slot. change (kReplayBufferSize - 1) with (Z.ones 10). rewrite Z.land_ones by lia. change (2 ^ 10) with 1024. pose proof (Z.mod_pos_bound k 1024 ltac:(lia)). split; [done|lia]. Qed.

Lemma drop_publish_ok s msgs firm sym et price qty oid eid ts : copied_to s msgs → Z.of_nat (length msgs) + 2 < 2 ^ 64 →
  let '(s', m) := publish_execution s firm sym et price qty oid eid ts in copied_to s' (msgs ++ [m]) ∧ dm_seq_num m = Z.of_nat (length msgs) + 1.
Proof.
  intros [Hc Hs Hl Hb] Hn. unfold publish_execution. split; [|done]. split; cbn [ds_count ds_seq_num ds_buffer].
  - rewrite length_app, Hc, u64_small by lia. cbn. lia.
  - rewrite length_app, Hs, u64_small by lia. cbn. lia.
  - by rewrite length_insert.
  - intros k m Hk. rewrite length_app. cbn [length]. rewrite Hc. intros Hwin. unfold kReplayBufferSize in *. destruct (drop_slot_mod (Z.of_nat k) ltac:(lia)) as [E1 B1], (drop_slot_mod (Z.of_nat (length msgs)) ltac:(lia)) as [E2 B2]. destruct (decide (k = length msgs)) as [->|Hne].
    + rewrite list_lookup_middle in Hk by done. simplify_eq. rewrite list_lookup_insert_eq by lia. by rewrite Hs.
    + pose proof (lookup_lt_Some _ _ _ Hk) as Hlt. rewrite length_app in Hlt. cbn in Hlt. rewrite lookup_app_l in Hk by lia. rewrite list_lookup_insert_ne; [apply Hb; [done|lia]|]. rewrite E1, E2. intros E. apply Z2Nat.inj in E; [|apply Z.mod_pos_bound; lia..]. apply Hne.
      apply Nat2Z.inj, (mod_inj 1024); [lia|done|lia].
Qed.

Lemma replay_loop_spec s b e max total todo msgs out : Forall2 (λ i m, ds_buffer s !! drop_slot (u64 (ds_count s - total + i)) = Some m) todo msgs → (length out ≤ max)%nat →
  replay_loop s b e max total todo out = take max (out ++ filter (λ m, in_range b e m = true) msgs).
Proof.
  intros H. revert out. induction H as [|i m todo msgs Hm _ IH]; intros out Hl; cbn [replay_loop]; [by rewrite filter_nil, app_nil_r, take_ge|]. destruct (Nat.leb_spec max (length out)); [by rewrite take_app_le, take_ge by lia|]. rewrite Hm. cbn [from_option id]. rewrite filter_cons.
  destruct (in_range b e m); case_decide; try done; [|by apply IH]. rewrite (IH (out ++ [m])); [by rewrite <- app_assoc|]. rewrite length_app. cbn. lia.
Qed.

(** A resend request gets exactly what it asked for: after any executions, the replay of a
    range is, in order and up to the size of the caller's buffer, the messages of the range
    among the last 1024. *)
Theorem drop_copy_replays s msgs b e max : copied_to s msgs → Z.of_nat (length msgs) < 2 ^ 64 → (0 < max)%nat → b ≤ e →
  replay_range s b e true max = take max (filter (λ m, in_range b e m = true) (drop (length msgs - 1024) msgs)).
Proof.
  intros [Hc Hs Hl Hb] Hn Hmax Hbe. unfold replay_range. destruct (Nat.eqb_spec max 0); [lia|]. rewrite (proj2 (Z.ltb_ge _ _)) by done. cbn [negb orb]. cbv zeta. set (total := ds_count s `min` kReplayBufferSize). unfold kReplayBufferSize in *.
  rewrite (replay_loop_spec _ _ _ _ _ _ (drop (length msgs - 1024) msgs)); [done| |cbn; lia]. apply Forall2_same_length_lookup_2; [rewrite length_seqZ, length_drop; lia|]. intros j i m Hi Hm. apply lookup_seqZ in Hi as [-> Hj]. rewrite lookup_drop in Hm.
  rewrite u64_small by lia. replace (ds_count s - total + (0 + Z.of_nat j)) with (Z.of_nat (length msgs - 1024 + j)) by lia. apply Hb; [done|lia].
Qed.

Lemma seqZ_one m : seqZ m 1 = [m].
Proof. cbn. f_equal. Qed.

(** Every session keeps that account of its messages. *)
Theorem drop_copy_keeps_the_last sub target (execs : list (Z * Z * Z * Z * Z * Z * Z * Z)) : Z.of_nat (length execs) + 1 < 2 ^ 64 →
  let '(s, msgs) := foldl (λ '(s, msgs) '(firm, sym, et, price, qty, oid, eid, ts), let '(s, m) := publish_execution s firm sym et price qty oid eid ts in (s, msgs ++ [m])) (DropCopySession_new sub target, []) execs in
  copied_to s msgs ∧ dm_seq_num <$> msgs = seqZ 1 (Z.of_nat (length execs)).
Proof.
  induction execs as [|[[[[[[[firm sym] et] price] qty] oid] eid] ts] execs IH] using rev_ind; [intros _; cbn; split; [split; try done; by rewrite length_replicate|done]|]. rewrite length_app. cbn [length]. intros Hn. rewrite foldl_app. specialize (IH ltac:(lia)). destruct (foldl _ _ execs) as [s msgs]. cbn [foldl].
  destruct IH as [Hc Hq]. assert (Hlen : length msgs = length execs) by (rewrite <- (length_fmap dm_seq_num msgs), Hq, length_seqZ; lia). pose proof (drop_publish_ok s msgs firm sym et price qty oid eid ts Hc ltac:(lia)) as Hp. destruct (publish_execution s firm sym et price qty oid eid ts) as [s' m]. destruct Hp as [Hc' Hm]. split; [done|].
  rewrite fmap_app, Hq. cbn. rewrite Hm, Hlen. rewrite Nat2Z.inj_add, seqZ_app by lia. f_equal. change (Z.of_nat 1) with 1. rewrite seqZ_one. f_equal. lia.
Qed.

(** ** NanosecondReplayScheduler *)

Inductive ReplayEventType := ReplayAdd | ReplayModify | ReplayCancel | ReplayTrade | ReplaySnapshot.
Record ReplayEvent := mkReplay { ev_timestamp_ns : Z; ev_sequence_no : Z; ev_order_id : Z; ev_symbol_id : Z; ev_price : Z; ev_quantity : Z; ev_is_buy : bool; ev_type : ReplayEventType }.

Definition kMaxEvents : nat := 512.
Record NanosecondReplayScheduler := mkScheduler { ns_events : list ReplayEvent; ns_processed_count : nat; ns_current_sim_time_ns : Z }.
Definition NanosecondReplayScheduler_new : NanosecondReplayScheduler := mkScheduler [] 0 0.

(** The new event is swapped towards the front; the loop walks the events from the end. *)
Definition schedule_event (s : NanosecondReplayScheduler) (evt : ReplayEvent) : NanosecondReplayScheduler * bool :=
  if (kMaxEvents <=? length (ns_events s))%nat then (s, false)
  else (mkScheduler (reverse (insert_sorted (λ x y, ev_timestamp_ns y <? ev_timestamp_ns x) evt (reverse (ns_events s)))) (ns_processed_count s) (ns_current_sim_time_ns s), true).

(** The events the loop hands to the handler. *)
Fixpoint due_events (events : list ReplayEvent) (target_time_ns : Z) : list ReplayEvent :=
  match events with [] => [] | e :: events' => if target_time_ns <? ev_timestamp_ns e then [] else e :: due_events events' target_time_ns end.

Definition step_until (s : NanosecondReplayScheduler) (target_time_ns : Z) : NanosecondReplayScheduler * list ReplayEvent :=
  let due := due_events (drop (ns_processed_count s) (ns_events s)) target_time_ns in
  let time := from_option ev_timestamp_ns (ns_current_sim_time_ns s) (last due) in
  (mkScheduler (ns_events s) (ns_processed_count s + length due) (if time <? target_time_ns then target_time_ns else time), due).

Definition is_finished (s : NanosecondReplayScheduler) : bool := (ns_processed_count s =? length (ns_events s))%nat.
Definition scheduler_reset (s : NanosecondReplayScheduler) : NanosecondReplayScheduler := mkScheduler (ns_events s) 0 0.

Definition chronological (l : list ReplayEvent) : Prop := StronglySorted (λ a b, ev_timestamp_ns a ≤ ev_timestamp_ns b) l.

Lemma schedule_ok s e : chronological (ns_events s) → let '(s', ok) := schedule_event s e in
  chronological (ns_events s') ∧ if ok then ns_events s' ≡ₚ e :: ns_events s else s' = s.
Proof.
  intros Hs. unfold schedule_event. case_cond; [done|]. cbn [ns_events]. split; [|by rewrite reverse_Permutation, insert_sorted_perm, reverse_Permutation].
  apply (StronglySorted_reverse (λ a b, ev_timestamp_ns a ≤ ev_timestamp_ns b)). assert (Hr : StronglySorted (λ a b, ev_timestamp_ns b ≤ ev_timestamp_ns a) (reverse (ns_events s))) by (by apply StronglySorted_reverse). clear Hs. induction Hr as [|x l Hl IH Hx]; cbn; [by repeat constructor|].
  destruct (Z.ltb_spec (ev_timestamp_ns e) (ev_timestamp_ns x)).
  - apply SSorted_cons; [done|]. rewrite insert_sorted_perm. apply Forall_cons. split; [cbn; lia|done].
  - apply SSorted_cons; [by apply SSorted_cons|]. apply Forall_cons. split; [done|]. eapply Forall_impl; [exact Hx|]. intros y Hy. cbn in *. lia.
Qed.

Lemma filter_none {A} (P : A → Prop) `{∀ x, Decision (P x)} l : Forall (λ x, ¬ P x) l → filter P l = [].
Proof. induction 1 as [|x l Hx _ IH]; [done|]. by rewrite filter_cons, decide_False. Qed.

Lemma filter_full {A} (P : A → Prop) `{∀ x, Decision (P x)} l : Forall P l → filter P l = l.
Proof. induction 1 as [|x l Hx _ IH]; [done|]. by rewrite filter_cons, decide_True, IH. Qed.

(** The events up to a time and those after it. *)
Notation upto t l := (filter (λ e, ev_timestamp_ns e ≤ t) l).
Notation beyond t l := (filter (λ e, t < ev_timestamp_ns e) l).

Lemma due_split l t : chronological l → due_events l t = upto t l ∧ upto t l ++ beyond t l = l.
Proof.
  induction 1 as [|e l Hl [IH1 IH2] He]; [done|]. cbn [due_events]. rewrite !filter_cons. destruct (Z.ltb_spec t (ev_timestamp_ns e)).
  - rewrite decide_False, decide_True by lia. assert (Forall (λ x, t < ev_timestamp_ns x) l) by (eapply Forall_impl; [exact He|]; intros x Hx; cbn in Hx; lia).
    rewrite filter_none by (eapply Forall_impl; [done|]; intros x Hx; cbn in *; lia). by rewrite filter_full.
  - rewrite decide_True, decide_False by lia. cbn. by rewrite IH1, IH2.
Qed.

Lemma upto_max l m t : chronological l → upto (m `max` t) l = upto m l ++ due_events (beyond m l) t.
Proof.
  intros Hl. destruct (due_split l m Hl) as [_ E]. assert (Hb : chronological (beyond m l)) by (eapply StronglySorted_sublist; [apply sublist_filter|exact Hl]). rewrite (proj1 (due_split _ t Hb)). rewrite <- E at 1. rewrite filter_app. f_equal.
  - apply filter_full, Forall_forall. intros x [Hx _]%list_elem_of_filter. lia.
  - assert (Hsame : Forall (λ x, m < ev_timestamp_ns x) (beyond m l)) by (apply Forall_forall; by intros x [Hx _]%list_elem_of_filter). clear -Hsame. induction Hsame as [|x k Hx _ IH]; [done|]. rewrite !filter_cons, IH. destruct (decide (ev_timestamp_ns x ≤ t)); [rewrite decide_True by lia|rewrite decide_False by lia]; done.
Qed.

Definition step_all (s : NanosecondReplayScheduler) (targets : list Z) : NanosecondReplayScheduler * list ReplayEvent :=
  foldl (λ '(s, out) t, let '(s, due) := step_until s t in (s, out ++ due)) (s, []) targets.

(** A replay hands out every event once and in the order of time: whatever targets it is
    stepped to, the events handed out so far are those up to the latest target, in
    chronological order, as long as all of them were scheduled first. *)
Theorem replay_dispatches_once s targets : chronological (ns_events s) → Forall (λ e, 0 ≤ ev_timestamp_ns e) (ns_events s) → ns_processed_count s = 0%nat →
  (step_all s targets).2 = upto (foldl Z.max (- 1) targets) (ns_events s) ∧ ns_events (step_all s targets).1 = ns_events s ∧ ns_processed_count (step_all s targets).1 = length (step_all s targets).2.
Proof.
  intros Hc Hpos H0. induction targets as [|t targets (IH1 & IH2 & IH3)] using rev_ind; [cbn; split_and!; try done; symmetry; apply filter_none; eapply Forall_impl; [exact Hpos|]; intros e He; cbn in *; lia|].
  unfold step_all in *. rewrite !foldl_app. destruct (foldl _ (s, []) targets) as [s1 out]. cbn in *. set (m := foldl Z.max (- 1) targets) in *. assert (Hd : drop (ns_processed_count s1) (ns_events s1) = beyond m (ns_events s)).
  { rewrite IH2, IH3, IH1. pose proof (drop_app_length (upto m (ns_events s)) (beyond m (ns_events s))) as D. by rewrite (proj2 (due_split _ m Hc)) in D. }
  rewrite Hd. split_and!; [by rewrite upto_max, IH1|done|]. by rewrite length_app, IH3.
Qed.

(** Scheduling keeps the events in order and loses none. *)
Theorem schedule_keeps_order events : (length events ≤ kMaxEvents)%nat →
  let s := foldl (λ s e, (schedule_event s e).1) NanosecondReplayScheduler_new events in chronological (ns_events s) ∧ ns_events s ≡ₚ events ∧ ns_processed_count s = 0%nat.
Proof.
  cbv zeta. induction events as [|e events IH] using rev_ind; [intros _; split_and!; [apply SSorted_nil|done|done]|]. rewrite length_app. cbn [length]. intros Hl. destruct (IH ltac:(lia)) as (H1 & H2 & H3). rewrite foldl_app. cbn [foldl]. set (s := foldl _ _ events) in *. pose proof (schedule_ok s e H1) as Hs.
  assert (Hlen : length (ns_events s) = length events) by (by rewrite H2). unfold schedule_event in *. rewrite (proj2 (Nat.leb_gt _ _)) in * by lia. cbn in *. destruct Hs as [Hs Hp]. split_and!; [done| |done]. by rewrite Hp, H2, Permutation_cons_append.
Qed.

(** An event scheduled before one that was handed out already is never handed out itself;
    the other one is, again. *)
Theorem late_event_replays_another :
  let ev t := mkReplay t 0 0 0 0 0 true ReplayAdd in
  let s := (schedule_event (schedule_event NanosecondReplayScheduler_new (ev 10)).1 (ev 20)).1 in
  let '(s, first) := step_until s 10 in
  let '(s, second) := step_until (schedule_event s (ev 5)).1 30 in
  ev_timestamp_ns <$> first = [10] ∧ ev_timestamp_ns <$> second = [10; 20] ∧ is_finished s = true.
Proof. cbn. by vm_compute. Qed.
