(* ===== verification/Fast.v ===== *)
(** * Fast: the FAST stop-bit decoder (src/luv_fast_decoder.hpp)

    Numbers, presence maps and strings in groups of seven bits, the last byte marked by its
    top bit.  A decoder takes the bytes in front of it and returns those it left, what it
    wrote and its result; [None] is undefined behaviour. *)

From S2P Require Import Prelude Risk.
From Stdlib Require Import ZArith Lia.
From stdpp Require Import base tactics gmap numbers option list.
Open Scope Z_scope.

(** ** Decoders *)

(** The loop of [decode_uint] and [decode_int]: [wrap] is the type of [out_val]. *)
Fixpoint stop_loop (wrap : Z → Z) (buf : list Z) (out_val : Z) : list Z * Z * bool :=
  match buf with
  | [] => ([], out_val, false)
  | b :: buf' =>
      let out_val := Z.lor (wrap (Z.shiftl out_val 7)) (Z.land b 127) in
      if negb (Z.land b 128 =? 0) then (buf', out_val, true) else stop_loop wrap buf' out_val
  end.

Definition decode_uint (buf : list Z) : list Z * Z * bool :=
  match buf with [] => ([], 0, false) | _ => stop_loop u64 buf 0 end.

Definition decode_int (buf : list Z) : list Z * Z * bool :=
  match buf with
  | [] => ([], 0, false)
  | b :: _ => stop_loop i64 buf (if negb (Z.land b 64 =? 0) then - 1 else 0)
  end.

Record FastPmap := mkPmap { pm_bits : Z; pm_bit_count : Z; pm_current_bit : Z }.

Fixpoint pmap_loop (buf : list Z) (bits bit_count : Z) : list Z * FastPmap * bool :=
  match buf with
  | [] => ([], mkPmap bits bit_count 0, false)
  | b :: buf' =>
      let bits := Z.lor (u32 (Z.shiftl bits 7)) (Z.land b 127) in
      let bit_count := u8 (bit_count + 7) in
      if negb (Z.land b 128 =? 0) then (buf', mkPmap bits bit_count 0, true) else pmap_loop buf' bits bit_count
  end.
Definition decode_pmap (buf : list Z) : list Z * FastPmap * bool := pmap_loop buf 0 0.

(** A shift by 32 or more is undefined. *)
Definition next_bit (p : FastPmap) : option (FastPmap * bool) :=
  if pm_bit_count p <=? pm_current_bit p then Some (p, false) else
  let shift := pm_bit_count p - 1 - pm_current_bit p in
  if 32 <=? shift then None else
  Some (mkPmap (pm_bits p) (pm_bit_count p) (u8 (pm_current_bit p + 1)), negb (Z.land (pm_bits p) (Z.shiftl 1 shift) =? 0)).

(** [room] is what is left of [max_out - 1]; the text is what stands before the null
    byte. *)
Fixpoint ascii_loop (buf : list Z) (room : nat) (written : list Z) : list Z * list Z * bool :=
  match buf, room with
  | b :: buf', S room' =>
      let written := written ++ [Z.land b 127] in
      if negb (Z.land b 128 =? 0) then (buf', written, true) else ascii_loop buf' room' written
  | _, _ => (buf, written, false)
  end.
Definition decode_ascii (buf : list Z) (out_str : bool) (max_out : nat) : list Z * option (list Z) * bool :=
  if negb out_str || (max_out =? 0)%nat || (length buf =? 0)%nat then (buf, None, false) else
  let '(buf, text, ok) := ascii_loop buf (max_out - 1) [] in (buf, Some text, ok).

(** ** What an encoder writes *)

(** [n] groups of seven bits, the most significant first; the last carries the mark. *)
Fixpoint groups (n : nat) (v : Z) : list Z := match n with O => [] | S n' => (v / 128 ^ Z.of_nat n') mod 128 :: groups n' v end.
Fixpoint mark_last (l : list Z) : list Z := match l with [] => [] | [b] => [b + 128] | b :: l' => b :: mark_last l' end.
Definition fast_encode (n : nat) (v : Z) : list Z := mark_last (groups n v).

Lemma seven_bits b : 0 ≤ b < 128 → Z.land b 127 = b ∧ Z.land b 128 = 0 ∧ Z.land (b + 128) 127 = b ∧ Z.land (b + 128) 128 = 128.
Proof.
  intros Hb. assert (H : (λ b, (Z.land b 127 =? b) && (Z.land b 128 =? 0) && (Z.land (b + 128) 127 =? b) && (Z.land (b + 128) 128 =? 128)) b = true).
  { assert (Hall : forallb (λ b, (Z.land b 127 =? b) && (Z.land b 128 =? 0) && (Z.land (b + 128) 127 =? b) && (Z.land (b + 128) 128 =? 128)) (seqZ 0 128) = true) by reflexivity. rewrite forallb_forall in Hall. apply Hall, list_elem_of_In, elem_of_seqZ. lia. }
  cbn beta in H. rewrite !andb_true_iff, !Z.eqb_eq in H. tauto.
Qed.

Lemma groups_range n v : Forall (λ b, 0 ≤ b < 128) (groups n v).
Proof. induction n as [|n IH]; cbn; constructor; [|done]. apply Z.mod_pos_bound. lia. Qed.

(** The value of groups behind a value. *)
Fixpoint shift_in (acc : Z) (l : list Z) : Z := match l with [] => acc | b :: l' => shift_in (acc * 128 + b) l' end.

Lemma shift_in_groups n v acc : shift_in acc (groups n v) = acc * 128 ^ Z.of_nat n + v mod 128 ^ Z.of_nat n.
Proof.
  revert acc. induction n as [|n IH]; intros acc; cbn [groups shift_in]; [rewrite Z.mod_1_r; lia|]. rewrite IH. replace (Z.of_nat (S n)) with (Z.of_nat n + 1) by lia. rewrite Z.pow_add_r by lia. change (128 ^ 1) with 128. rewrite (Z.rem_mul_r v (128 ^ Z.of_nat n) 128) by lia. lia.
Qed.

Lemma lor_seven a b : 0 ≤ b < 128 → Z.lor (Z.shiftl a 7) b = a * 128 + b.
Proof. intros Hb. rewrite lor_add by (cbn; lia). done. Qed.

(** The loop reads groups as long as the value stays in its type. *)
Lemma stop_loop_spec wrap l rest acc (lo hi : Z) : l ≠ [] → Forall (λ b, 0 ≤ b < 128) l → (∀ z, lo ≤ z < hi → wrap z = z) → (∃ k, lo = 128 * k) → (∃ k, hi = 128 * k) → lo ≤ 0 → 0 < hi →
  (∀ j, (j ≤ length l)%nat → lo ≤ shift_in acc (take j l) < hi) → stop_loop wrap (mark_last l ++ rest) acc = (rest, shift_in acc l, true).
Proof.
  intros Hne Hl Hwrap [kl Hkl] [kh Hkh] H0 H1. revert acc. induction Hl as [|b l Hb Hl IH]; intros acc Hr; [done|]. destruct (seven_bits b Hb) as (E1 & E2 & E3 & E4).
  pose proof (Hr 1%nat ltac:(cbn; lia)) as Hone. cbn [take shift_in] in Hone. rewrite take_0 in Hone. cbn [shift_in] in Hone. assert (Hw : wrap (Z.shiftl acc 7) = Z.shiftl acc 7) by (apply Hwrap; rewrite Z.shiftl_mul_pow2 by lia; change (2 ^ 7) with 128; lia).
  destruct l as [|c l]; cbn [mark_last app stop_loop].
  - rewrite E3, E4. cbn [Z.eqb negb]. rewrite Hw, lor_seven by done. done.
  - rewrite E1, E2, Hw, lor_seven by done. cbn [Z.eqb negb]. change (c :: l) with (c :: l) in *. rewrite IH; [done|done|]. intros j Hj. apply (Hr (S j)). cbn in *. lia.
Qed.

Lemma take_groups j n v : (j ≤ n)%nat → take j (groups n v) = groups j (v / 128 ^ Z.of_nat (n - j)).
Proof.
  revert j. induction n as [|n IH]; intros [|j] Hj; try done; [lia|]. cbn [groups take Nat.sub]. rewrite IH by lia. f_equal. rewrite Z.div_div by (try apply Z.pow_nonzero; try apply Z.pow_pos_nonneg; lia). rewrite <- Z.pow_add_r by lia. do 3 f_equal. lia.
Qed.

Lemma length_groups n v : length (groups n v) = n.
Proof. induction n; cbn; congruence. Qed.

(** An unsigned number reads back, whatever follows it. *)
Theorem fast_uint_roundtrip n v rest : (0 < n)%nat → 0 ≤ v < 2 ^ 64 → v < 128 ^ Z.of_nat n → decode_uint (fast_encode n v ++ rest) = (rest, v, true).
Proof.
  intros Hn Hv Hvn. unfold decode_uint, fast_encode. assert (Hne : groups n v ≠ []) by (destruct n; [lia|done]).
  assert (Hs : stop_loop u64 (mark_last (groups n v) ++ rest) 0 = (rest, v, true)).
  { rewrite (stop_loop_spec u64 (groups n v) rest 0 0 (2 ^ 64)); [rewrite shift_in_groups, Z.mul_0_l, Z.mod_small by lia; done|done|apply groups_range|apply u64_small|by exists 0|by exists (2 ^ 57)|lia|lia|].
    intros j Hj. rewrite length_groups in Hj. rewrite take_groups, shift_in_groups by done. assert (0 < 128 ^ Z.of_nat (n - j)) by (apply Z.pow_pos_nonneg; lia). assert (0 < 128 ^ Z.of_nat j) by (apply Z.pow_pos_nonneg; lia).
    pose proof (Z.div_pos v (128 ^ Z.of_nat (n - j)) ltac:(lia) ltac:(lia)). pose proof (Z.mod_le (v / 128 ^ Z.of_nat (n - j)) (128 ^ Z.of_nat j) ltac:(lia) ltac:(lia)). pose proof (Z.mod_pos_bound (v / 128 ^ Z.of_nat (n - j)) (128 ^ Z.of_nat j) ltac:(lia)).
    assert (v / 128 ^ Z.of_nat (n - j) ≤ v) by (apply Z.div_le_upper_bound; nia). lia. }
  rewrite Hs. destruct (mark_last (groups n v) ++ rest) eqn:E; [|done]. exfalso. destruct (groups n v) as [|b [|c l]]; done.
Qed.

Lemma sign_bit b : 0 ≤ b < 128 → (Z.land b 64 =? 0) = (b <? 64) ∧ (Z.land (b + 128) 64 =? 0) = (b <? 64).
Proof.
  intros Hb. assert (Hall : forallb (λ b, Bool.eqb (Z.land b 64 =? 0) (b <? 64) && Bool.eqb (Z.land (b + 128) 64 =? 0) (b <? 64)) (seqZ 0 128) = true) by reflexivity. rewrite forallb_forall in Hall. specialize (Hall b). rewrite andb_true_iff, !Bool.eqb_true_iff in Hall. apply Hall, list_elem_of_In, elem_of_seqZ. lia.
Qed.

(** A prefix of the groups behind the sign is the number without its last groups. *)
Lemma signed_prefix j n v : (j ≤ n)%nat → (0 < n)%nat → - (64 * 128 ^ Z.of_nat (n - 1)) ≤ v < 64 * 128 ^ Z.of_nat (n - 1) → shift_in (if v <? 0 then - 1 else 0) (take j (groups n v)) = if (j =? 0)%nat then (if v <? 0 then - 1 else 0) else v / 128 ^ Z.of_nat (n - j).
Proof.
  intros Hj Hn Hv. rewrite take_groups, shift_in_groups by done. destruct j as [|j]; cbn [Nat.eqb]; [rewrite Z.mod_1_r; lia|]. set (w := v / 128 ^ Z.of_nat (n - S j)). assert (Hp : 0 < 128 ^ Z.of_nat (n - S j)) by (apply Z.pow_pos_nonneg; lia).
  assert (Hpow : 128 ^ Z.of_nat (n - 1) = 128 ^ Z.of_nat (n - S j) * 128 ^ Z.of_nat j) by (rewrite <- Z.pow_add_r by lia; f_equal; lia). assert (Hq : 128 ^ Z.of_nat (S j) = 128 * 128 ^ Z.of_nat j) by (replace (Z.of_nat (S j)) with (1 + Z.of_nat j) by lia; rewrite Z.pow_add_r by lia; done).
  assert (0 < 128 ^ Z.of_nat j) by (apply Z.pow_pos_nonneg; lia). assert (Hw : - (64 * 128 ^ Z.of_nat j) ≤ w < 64 * 128 ^ Z.of_nat j). { unfold w. split; [apply Z.div_le_lower_bound; [lia|nia]|apply Z.div_lt_upper_bound; [lia|nia]]. }
  destruct (Z.ltb_spec v 0).
  - assert (w < 0) by (apply Z.div_lt_upper_bound; lia). replace w with (w + 128 ^ Z.of_nat (S j) + (- 1) * 128 ^ Z.of_nat (S j)) at 1 by lia. rewrite Z_mod_plus_full, Z.mod_small by lia. lia.
  - assert (0 ≤ w) by (apply Z.div_pos; lia). rewrite Z.mod_small by lia. lia.
Qed.

(** A signed number reads back. *)
Theorem fast_int_roundtrip n v rest : (0 < n)%nat → - 2 ^ 63 ≤ v < 2 ^ 63 → - (64 * 128 ^ Z.of_nat (n - 1)) ≤ v < 64 * 128 ^ Z.of_nat (n - 1) → decode_int (fast_encode n v ++ rest) = (rest, v, true).
Proof.
  intros Hn Hv Hvn. unfold decode_int, fast_encode. assert (Hne : groups n v ≠ []) by (destruct n; [lia|done]).
  assert (Hs : stop_loop i64 (mark_last (groups n v) ++ rest) (if v <? 0 then - 1 else 0) = (rest, v, true)).
  { rewrite (stop_loop_spec i64 (groups n v) rest _ (- 2 ^ 63) (2 ^ 63)); [|done|apply groups_range|apply i64_id|by exists (- 2 ^ 56)|by exists (2 ^ 56)|lia|lia|].
    - do 2 f_equal. rewrite <- (firstn_all (groups n v)), length_groups. rewrite signed_prefix by (done || lia). rewrite Nat.sub_diag. destruct (Nat.eqb_spec n 0); [lia|]. apply Z.div_1_r.
    - intros j Hj. rewrite length_groups in Hj. rewrite signed_prefix by done. destruct (Nat.eqb_spec j 0); [case_cond; lia|]. assert (1 ≤ 128 ^ Z.of_nat (n - j)) by (pose proof (Z.pow_pos_nonneg 128 (Z.of_nat (n - j)) ltac:(lia) ltac:(lia)); lia).
      split; [apply Z.div_le_lower_bound; nia|]. destruct (Z.le_gt_cases 0 v); [eapply Z.le_lt_trans; [apply Z.div_le_upper_bound; [lia|]|apply Hv]; nia|]. eapply Z.lt_le_trans; [apply (Z.div_lt_upper_bound v _ 0); lia|lia]. }
  assert (Hfirst : ∃ b l, mark_last (groups n v) ++ rest = b :: l ∧ negb (Z.land b 64 =? 0) = (v <? 0)).
  { destruct n as [|n]; [lia|]. cbn [groups]. replace (S n - 1)%nat with n in Hvn by lia. set (b := (v / 128 ^ Z.of_nat n) mod 128). assert (Hb : 0 ≤ b < 128) by (apply Z.mod_pos_bound; lia). assert (Hp : 0 < 128 ^ Z.of_nat n) by (apply Z.pow_pos_nonneg; lia).
    assert (Hsign : negb (b <? 64) = (v <? 0)). { destruct (Z.ltb_spec v 0).
      - assert (Hq : - 64 ≤ v / 128 ^ Z.of_nat n < 0) by (split; [apply Z.div_le_lower_bound; lia|apply Z.div_lt_upper_bound; lia]). unfold b. replace (v / 128 ^ Z.of_nat n) with (v / 128 ^ Z.of_nat n + 128 + (- 1) * 128) by lia. rewrite Z_mod_plus_full, Z.mod_small by lia. by rewrite (proj2 (Z.ltb_ge _ _)) by lia.
      - assert (Hq : 0 ≤ v / 128 ^ Z.of_nat n < 64) by (split; [apply Z.div_pos; lia|apply Z.div_lt_upper_bound; lia]). unfold b. rewrite Z.mod_small by lia. by rewrite (proj2 (Z.ltb_lt _ _)) by lia. }
    destruct (sign_bit b Hb) as [E1 E2]. destruct (groups n v) as [|c l]; cbn [mark_last app]; eexists _, _; (split; [reflexivity|]); rewrite ?E1, ?E2; done. }
  destruct Hfirst as (b & l & E & Hb). rewrite E in *. by rewrite Hb.
Qed.

(** A string reads back when it fits. *)
Theorem fast_ascii_roundtrip text rest max : text ≠ [] → Forall (λ c, 0 ≤ c < 128) text → (length text < max)%nat → decode_ascii (mark_last text ++ rest) true max = (rest, Some text, true).
Proof.
  intros Hne Ht Hl. unfold decode_ascii. assert (Hlen : length (mark_last text ++ rest) ≠ 0%nat) by (destruct text as [|b [|c l]]; [done|cbn; lia|cbn; lia]). destruct (Nat.eqb_spec max 0); [lia|]. rewrite (proj2 (Nat.eqb_neq _ _)) by done. cbn [negb orb].
  assert (Hgen : ∀ out room, (length text ≤ room)%nat → ascii_loop (mark_last text ++ rest) room out = (rest, out ++ text, true)); [|by rewrite (Hgen [] (max - 1)%nat) by lia]. clear Hl Hlen. induction Ht as [|b l Hb Ht IH]; intros out room Hroom; [done|]. destruct room as [|room]; [cbn in Hroom; lia|].
  destruct (seven_bits b Hb) as (E1 & E2 & E3 & E4). destruct l as [|c l]; cbn [mark_last app ascii_loop].
  - rewrite E3, E4. done.
  - rewrite E1, E2. cbn [Z.eqb negb]. etransitivity; [apply (IH ltac:(done) (out ++ [b]) room); cbn in *; lia|]. by rewrite <- app_assoc.
Qed.

(** A presence map of up to four bytes gives its bits in order. *)
Lemma pmap_loop_spec l rest bits count : l ≠ [] → Forall (λ b, 0 ≤ b < 128) l → 0 ≤ bits → (∀ j, (j ≤ length l)%nat → 0 ≤ shift_in bits (take j l) < 2 ^ 32) → 0 ≤ count → count + 7 * Z.of_nat (length l) < 256 →
  pmap_loop (mark_last l ++ rest) bits count = (rest, mkPmap (shift_in bits l) (count + 7 * Z.of_nat (length l)) 0, true).
Proof.
  intros Hne Hl. revert bits count. induction Hl as [|b l Hb Hl IH]; intros bits count Hb0 Hr Hc Hmax; [done|]. destruct (seven_bits b Hb) as (E1 & E2 & E3 & E4). pose proof (Hr 1%nat ltac:(cbn; lia)) as Hone. cbn [take shift_in] in Hone. rewrite take_0 in Hone. cbn [shift_in] in Hone.
  assert (Hw : u32 (Z.shiftl bits 7) = Z.shiftl bits 7) by (apply Z.mod_small; rewrite Z.shiftl_mul_pow2 by lia; change (2 ^ 7) with 128; lia). assert (Hc8 : u8 (count + 7) = count + 7) by (apply Z.mod_small; cbn in Hmax; lia).
  destruct l as [|c l]; cbn [mark_last app pmap_loop].
  - rewrite E3, E4, Hc8. cbn [Z.eqb negb]. rewrite Hw, lor_seven by done. done.
  - rewrite E1, E2, Hw, Hc8, lor_seven by done. cbn [Z.eqb negb]. cbn [length] in *. rewrite IH; [|done|lia| |lia|lia]; [|intros j Hj; apply (Hr (S j)); cbn in *; lia]. do 3 f_equal. cbn [length]. lia.
Qed.

Theorem pmap_bits_in_order n v rest k : (0 < n ≤ 4)%nat → 0 ≤ v < 128 ^ Z.of_nat n → 0 ≤ k < 7 * Z.of_nat n →
  decode_pmap (fast_encode n v ++ rest) = (rest, mkPmap v (7 * Z.of_nat n) 0, true) ∧
  next_bit (mkPmap v (7 * Z.of_nat n) k) = Some (mkPmap v (7 * Z.of_nat n) (k + 1), Z.testbit v (7 * Z.of_nat n - 1 - k)).
Proof.
  intros Hn Hv Hk. split.
  - unfold decode_pmap, fast_encode. rewrite pmap_loop_spec; [|by destruct n; [lia|]|apply groups_range|lia| |lia|rewrite length_groups; lia].
    + rewrite length_groups, shift_in_groups, Z.mod_small by lia. do 3 f_equal; lia.
    + intros j Hj. rewrite length_groups in Hj. rewrite take_groups, shift_in_groups by done. assert (0 < 128 ^ Z.of_nat (n - j)) by (apply Z.pow_pos_nonneg; lia). pose proof (Z.mod_pos_bound (v / 128 ^ Z.of_nat (n - j)) (128 ^ Z.of_nat j) ltac:(apply Z.pow_pos_nonneg; lia)).
      assert (128 ^ Z.of_nat j ≤ 128 ^ 4) by (apply Z.pow_le_mono_r; lia). change (128 ^ 4) with (2 ^ 28) in *. lia.
  - unfold next_bit. cbn [pm_bits pm_bit_count pm_current_bit]. rewrite (proj2 (Z.leb_gt _ _)) by lia. cbv zeta. rewrite (proj2 (Z.leb_gt _ _)) by lia. do 2 f_equal; [f_equal; unfold u8; apply Z.mod_small; lia|]. set (d := 7 * Z.of_nat n - 1 - k). assert (0 ≤ d) by lia.
    rewrite Z.shiftl_1_l. destruct (Z.testbit v d) eqn:E.
    + apply negb_true_iff, Z.eqb_neq. intros H0. assert (Ht : Z.testbit (Z.land v (2 ^ d)) d = true) by (by rewrite Z.land_spec, E, Z.pow2_bits_true). by rewrite H0, Z.bits_0 in Ht.
    + apply negb_false_iff, Z.eqb_eq, Z.bits_inj'. intros i Hi. rewrite Z.land_spec, Z.bits_0, Z.pow2_bits_eqb by done. destruct (Z.eqb_spec d i) as [<-|]; [by rewrite E|]. by rewrite andb_false_r.
Qed.

(** Five bytes are accepted, but the first bit asked of the map shifts by 34. *)
Theorem long_pmap_undefined v : let '(_, p, ok) := decode_pmap (fast_encode 5 v) in ok = true ∧ next_bit p = None.
Proof.
  unfold fast_encode, decode_pmap. pose proof (groups_range 5 v) as Hr. cbn [groups] in *. repeat match goal with H : Forall _ (_ :: _) |- _ => apply Forall_cons in H as [? H] end. cbn [mark_last pmap_loop].
  repeat match goal with H : 0 ≤ ?b < 128 |- _ => destruct (seven_bits b H) as (?E1 & ?E2 & ?E3 & ?E4); clear H end. repeat match goal with H : Z.land _ 128 = _ |- _ => rewrite H; clear H end. done.
Qed.

(** Numbers of more than ten bytes are accepted and lose their first bits. *)
Theorem long_uint_wraps : decode_uint (fast_encode 11 (2 ^ 70 + 5)) = ([], 5, true).
Proof. by vm_compute. Qed.
