(* ===== verification/Desk.v ===== *)
(** * Desk: pegged orders, spreads, short-sale locates and the latency watchdog
    (src/luv_order_peg.hpp, src/luv_multileg.hpp, src/luv_locate.hpp,
    src/luv_hw_watchdog.hpp)

    An array with a count is the list of its entries in use; [None] is a signed overflow. *)

From S2P Require Import Prelude Risk FeedSim Printf Telemetry Routing.
From Stdlib Require Import ZArith Lia String.
From stdpp Require Import base tactics gmap numbers option list sorting.
Open Scope Z_scope.

(** ** PeggingEngine *)

Inductive PegType := PegMidpoint | PegPrimary | PegMarket.
Record PeggedOrder := mkPegged { pg_order_id : Z; pg_is_buy : bool; pg_peg_type : PegType; pg_offset_ticks : Z; pg_limit_cap : Z; pg_quantity : Z; pg_current_effective_price : Z }.

Definition peg_base (order : PeggedOrder) (best_bid best_ask : Z) : Z :=
  i64 (match pg_peg_type order with
       | PegMidpoint => u64 (best_bid + best_ask) / 2
       | PegPrimary => if pg_is_buy order then best_bid else best_ask
       | PegMarket => if pg_is_buy order then best_ask else best_bid
       end).

Definition compute_pegged_price (order : PeggedOrder) (best_bid best_ask : Z) : option Z :=
  if (best_bid =? 0) || (best_ask =? 0) || (best_ask <? best_bid) then Some 0 else
  calculated ← chk64 (peg_base order best_bid best_ask + pg_offset_ticks order);
  if calculated <=? 0 then Some 0 else
  Some (if 0 <? pg_limit_cap order then if pg_is_buy order then calculated `min` pg_limit_cap order else calculated `max` pg_limit_cap order else calculated).

Definition update_order_price (order : PeggedOrder) (best_bid best_ask : Z) : option (PeggedOrder * bool) :=
  new_price ← compute_pegged_price order best_bid best_ask;
  Some (if negb (new_price =? pg_current_effective_price order)
        then (mkPegged (pg_order_id order) (pg_is_buy order) (pg_peg_type order) (pg_offset_ticks order) (pg_limit_cap order) (pg_quantity order) new_price, true)
        else (order, false)).

(** A peg follows the market and never passes its cap: for prices and offsets below 2^61 and
    a market that is not crossed, the price is defined; a midpoint order without an offset
    stands between bid and ask; a buy order never above its cap, a sale that has a price
    never below it; and the order is marked as changed exactly when its price is. *)
Theorem peg_follows_the_market order bid ask :
  0 < bid → bid ≤ ask → ask < 2 ^ 61 → - 2 ^ 61 < pg_offset_ticks order < 2 ^ 61 →
  ∃ price order' changed, compute_pegged_price order bid ask = Some price ∧ update_order_price order bid ask = Some (order', changed) ∧ pg_current_effective_price order' = price ∧ (changed = true ↔ price ≠ pg_current_effective_price order) ∧
    (pg_peg_type order = PegMidpoint → pg_offset_ticks order = 0 → pg_limit_cap order = 0 → bid ≤ price ≤ ask) ∧
    (0 < pg_limit_cap order → price = 0 ∨ if pg_is_buy order then price ≤ pg_limit_cap order else pg_limit_cap order ≤ price) ∧
    (pg_limit_cap order = 0 → price = 0 `max` (peg_base order bid ask + pg_offset_ticks order)).
Proof.
  intros Hb Hba Ha Ho. assert (Hbase : bid ≤ peg_base order bid ask ≤ ask).
  { assert (Hmid : bid ≤ (bid + ask) / 2 ≤ ask) by (split; [apply Z.div_le_lower_bound|apply Z.div_le_upper_bound]; lia). unfold peg_base. rewrite u64_small by lia. destruct (pg_peg_type order), (pg_is_buy order); rewrite i64_id by lia; lia. }
  assert (Hp : ∃ price, compute_pegged_price order bid ask = Some price ∧ (pg_peg_type order = PegMidpoint → pg_offset_ticks order = 0 → pg_limit_cap order = 0 → bid ≤ price ≤ ask) ∧
    (0 < pg_limit_cap order → price = 0 ∨ if pg_is_buy order then price ≤ pg_limit_cap order else pg_limit_cap order ≤ price) ∧ (pg_limit_cap order = 0 → price = 0 `max` (peg_base order bid ask + pg_offset_ticks order))).
  { unfold compute_pegged_price. rewrite !(proj2 (Z.eqb_neq _ _)), (proj2 (Z.ltb_ge _ _)) by lia. cbn [orb]. rewrite chk64_ok by (unfold INT64_MIN, INT64_MAX; lia). cbn [mbind option_bind]. destruct (Z.leb_spec (peg_base order bid ask + pg_offset_ticks order) 0).
    - exists 0. split_and!; [done|lia|by left|lia].
    - eexists. split; [reflexivity|]. destruct (Z.ltb_spec 0 (pg_limit_cap order)); split_and!; intros; try lia. right. destruct (pg_is_buy order); lia. }
  destruct Hp as (price & Hp & H1 & H2 & H3). exists price. unfold update_order_price. rewrite Hp. cbn [mbind option_bind]. destruct (Z.eqb_spec price (pg_current_effective_price order)) as [->|Hne]; cbn [negb]; eexists _, _; (split; [done|]); (split; [reflexivity|]); split_and!; done.
Qed.

(** ** MultiLegSpreadEngine *)

Inductive SpreadLegState := SpreadPending | kLeg1Filled | kFullyHedeged | kLeggingUnwind.
#[global] Instance spread_state_eq_dec : EqDecision SpreadLegState.
Proof. solve_decision. Defined.

Record SpreadOrder := mkSpread {
  so_spread_id : Z;
  so_leg1_symbol : Z;
  so_leg1_side : Z;
  so_leg1_qty : Z;
  so_leg1_limit_price : Z;
  so_leg2_symbol : Z;
  so_leg2_side : Z;
  so_leg2_ratio : Z;
  so_leg2_limit_price : Z;
  so_legging_timeout_ns : Z;
  so_state : SpreadLegState;
  so_leg1_filled_timestamp_ns : Z
}.
Definition with_spread_state (s : SpreadOrder) (state : SpreadLegState) (filled_ts : Z) : SpreadOrder :=
  mkSpread (so_spread_id s) (so_leg1_symbol s) (so_leg1_side s) (so_leg1_qty s) (so_leg1_limit_price s) (so_leg2_symbol s) (so_leg2_side s) (so_leg2_ratio s) (so_leg2_limit_price s) (so_legging_timeout_ns s) state filled_ts.

Definition generate_leg1_intent (s : SpreadOrder) (now_ns : Z) : OrderIntent :=
  mkIntent (so_leg1_symbol s) (so_leg1_side s) (so_leg1_qty s) (so_leg1_limit_price s) now_ns now_ns (u32 (so_spread_id s * 10 + 1)) 0.

Definition on_leg1_fill (s : SpreadOrder) (filled_qty now_ns : Z) : option (SpreadOrder * OrderIntent) :=
  qty ← chk64 (filled_qty * so_leg2_ratio s);
  Some (with_spread_state s kLeg1Filled now_ns, mkIntent (so_leg2_symbol s) (so_leg2_side s) qty (so_leg2_limit_price s) now_ns now_ns (u32 (so_spread_id s * 10 + 2)) 0).

Definition check_legging_timeout (s : SpreadOrder) (now_ns : Z) : bool :=
  if bool_decide (so_state s = kLeg1Filled) then (so_leg1_filled_timestamp_ns s <? now_ns) && (so_legging_timeout_ns s <? now_ns - so_leg1_filled_timestamp_ns s) else false.

Definition generate_emergency_unwind (s : SpreadOrder) (now_ns : Z) : SpreadOrder * OrderIntent :=
  let side := if so_leg1_side s =? kBuy then kSell else kBuy in
  (with_spread_state s kLeggingUnwind (so_leg1_filled_timestamp_ns s),
   mkIntent (so_leg1_symbol s) side (so_leg1_qty s) (if side =? kSell then 1 else 10000000 * 10000) 0 now_ns (u32 (so_spread_id s * 10 + 9)) 0).

(** The hedge is in proportion to the fill, and the timeout fires exactly when the hedge is
    late. *)
Theorem spread_hedges_the_fill s filled now later : INT64_MIN ≤ filled * so_leg2_ratio s ≤ INT64_MAX → 0 ≤ so_legging_timeout_ns s →
  ∃ s' leg2, on_leg1_fill s filled now = Some (s', leg2) ∧ oi_qty leg2 = filled * so_leg2_ratio s ∧ oi_symbol_idx leg2 = so_leg2_symbol s ∧ oi_side leg2 = so_leg2_side s ∧
    (check_legging_timeout s' later = true ↔ now + so_legging_timeout_ns s < later) ∧ (∀ n, so_state s ≠ kLeg1Filled → check_legging_timeout s n = false).
Proof.
  intros Hq Ht. unfold on_leg1_fill. rewrite chk64_ok by done. cbn [mbind option_bind]. eexists _, _. split; [reflexivity|]. split_and!; try done.
  - unfold check_legging_timeout. cbn [so_state so_leg1_filled_timestamp_ns so_legging_timeout_ns with_spread_state]. rewrite bool_decide_eq_true_2 by done. rewrite andb_true_iff, !Z.ltb_lt. lia.
  - intros n Hn. unfold check_legging_timeout. by rewrite bool_decide_eq_false_2.
Qed.

(** The unwinding order carries no time of its signal: the risk gate refuses it as soon as
    the clock is past the allowed age. *)
Theorem unwind_fails_the_risk_gate s now limits risk : max_alpha_age_ns limits < now → 0 ≤ now → rd_pass (evaluate_limits limits risk (generate_emergency_unwind s now).2) = false.
Proof.
  intros Hold Hnow. unfold evaluate_limits. destruct (builtin_overflow _) as [o1 p1]. destruct (builtin_overflow _) as [o2 p2]. destruct (builtin_overflow _) as [o3 p3]. cbv zeta. cbn [rd_pass oi_alpha_timestamp_ns oi_now_ns generate_emergency_unwind snd].
  rewrite (proj2 (Z.leb_le 0 now)), Z.sub_0_r, (proj2 (Z.leb_gt now _)) by lia. by rewrite !andb_false_r.
Qed.

(** It unwinds the whole first leg, whatever part of it was filled. *)
Theorem unwind_ignores_the_fill s now filled s' leg2 : on_leg1_fill s filled now = Some (s', leg2) → oi_qty (generate_emergency_unwind s' now).2 = so_leg1_qty s.
Proof. unfold on_leg1_fill. destruct (chk64 _); [|done]. by intros [= <- <-]. Qed.

(** ** ShortSaleLocateEngine *)

Record LocatePool := mkPool { lp_symbol_idx : Z; lp_available_shares : Z; lp_allocated_shares : Z; lp_borrow_fee_bps : double; lp_is_hard_to_borrow : bool; lp_active_locates : Z }.
Record LocateAllocation := mkAllocation { la_locate_id : Z; la_client_id : Z; la_symbol_idx : Z; la_shares : Z; la_borrow_fee_bps : double; la_expiry_ts_ns : Z; la_active : bool }.
Definition locate_max_symbols : Z := 128.
Definition kMaxAllocations : Z := 1024.
Definition kDefaultLocateDurationNs : Z := 86400000000000.

Record ShortSaleLocateEngine := mkLocates { sl_pools : list LocatePool; sl_allocations : list LocateAllocation }.
Definition ShortSaleLocateEngine_new : ShortSaleLocateEngine := mkLocates [] [].

Definition pool_of (e : ShortSaleLocateEngine) (symbol : Z) : option (nat * LocatePool) := list_find (λ p, lp_symbol_idx p = symbol) (sl_pools e).

Definition set_borrow_inventory (e : ShortSaleLocateEngine) (symbol_idx total_shares : Z) (base_fee_bps : double) (htb : bool) : option (ShortSaleLocateEngine * bool) :=
  match pool_of e symbol_idx with
  | Some (i, p) =>
      available ← chk64 (total_shares - lp_allocated_shares p);
      Some (mkLocates (<[i := mkPool (lp_symbol_idx p) available (lp_allocated_shares p) base_fee_bps htb (lp_active_locates p)]> (sl_pools e)) (sl_allocations e), true)
  | None =>
      if Z.of_nat (length (sl_pools e)) <? locate_max_symbols
      then Some (mkLocates (sl_pools e ++ [mkPool symbol_idx total_shares 0 base_fee_bps htb 0]) (sl_allocations e), true)
      else Some (e, false)
  end.

Definition request_locate (e : ShortSaleLocateEngine) (locate_id client_id symbol_idx requested_shares now_ns : Z) : option (ShortSaleLocateEngine * (string + LocateAllocation)) :=
  if requested_shares <=? 0 then Some (e, inl "Requested locate shares must be > 0"%string) else
  match pool_of e symbol_idx with
  | None => Some (e, inl "No borrow inventory registered for symbol (Locate Failed)"%string)
  | Some (i, p) =>
      if lp_available_shares p <? requested_shares then Some (e, inl "Insufficient borrow shares available (Locate Denied)"%string) else
      if kMaxAllocations <=? Z.of_nat (length (sl_allocations e)) then Some (e, inl "Locate table capacity reached"%string) else
      available ← chk64 (lp_available_shares p - requested_shares);
      allocated ← chk64 (lp_allocated_shares p + requested_shares);
      let allocation := mkAllocation locate_id client_id symbol_idx requested_shares (lp_borrow_fee_bps p) (u64 (now_ns + kDefaultLocateDurationNs)) true in
      Some (mkLocates (<[i := mkPool (lp_symbol_idx p) available allocated (lp_borrow_fee_bps p) (lp_is_hard_to_borrow p) (u32 (lp_active_locates p + 1))]> (sl_pools e)) (sl_allocations e ++ [allocation]), inr allocation)
  end.

Definition locate_valid (client_id symbol_idx now_ns : Z) (a : LocateAllocation) : bool :=
  la_active a && (la_client_id a =? client_id) && (la_symbol_idx a =? symbol_idx) && (now_ns <? la_expiry_ts_ns a).

Definition validate_short_order (e : ShortSaleLocateEngine) (client_id symbol_idx order_qty now_ns : Z) : option bool :=
  valid_locate_shares ← foldl (λ s a, s ← s; if locate_valid client_id symbol_idx now_ns a then chk64 (s + la_shares a) else Some s) (Some 0) (sl_allocations e);
  Some (order_qty <=? valid_locate_shares).

(** *** Its states *)

Inductive locates_step : ShortSaleLocateEngine → ShortSaleLocateEngine → Prop :=
  | locates_set e symbol total fee htb e' ok : set_borrow_inventory e symbol total fee htb = Some (e', ok) → locates_step e e'
  | locates_request e id client symbol shares now e' r : request_locate e id client symbol shares now = Some (e', r) → locates_step e e'.
Definition locates_reachable : ShortSaleLocateEngine → Prop := rtc locates_step ShortSaleLocateEngine_new.

Definition shares_where (p : LocateAllocation → bool) (l : list LocateAllocation) : Z := foldr (λ a s, (if p a then la_shares a else 0) + s) 0 l.

Lemma shares_where_app p l k : shares_where p (l ++ k) = shares_where p l + shares_where p k.
Proof. unfold shares_where. induction l as [|a l IH]; cbn; [done|]. rewrite IH. lia. Qed.

Lemma shares_where_mono (p q : LocateAllocation → bool) l : Forall (λ a, 0 < la_shares a) l → (∀ a, p a = true → q a = true) → 0 ≤ shares_where p l ≤ shares_where q l.
Proof.
  intros Hl Hpq. unfold shares_where. induction Hl as [|a l Ha _ IH]; cbn; [done|]. specialize (Hpq a). destruct (p a), (q a); lia || by specialize (Hpq eq_refl).
Qed.

(** Every pool has lent what its allocations carry; a symbol without a pool has none. *)
Record locates_ok (e : ShortSaleLocateEngine) : Prop := mkLocatesOk {
  lo_pools : Z.of_nat (length (sl_pools e)) ≤ locate_max_symbols;
  lo_allocations : Z.of_nat (length (sl_allocations e)) ≤ kMaxAllocations;
  lo_nodup : NoDup (lp_symbol_idx <$> sl_pools e);
  lo_shares : Forall (λ a, 0 < la_shares a) (sl_allocations e);
  lo_known : ∀ symbol, symbol ∉ (lp_symbol_idx <$> sl_pools e) → shares_where (λ a, la_symbol_idx a =? symbol) (sl_allocations e) = 0;
  lo_lent : ∀ i p, sl_pools e !! i = Some p → lp_allocated_shares p = shares_where (λ a, la_symbol_idx a =? lp_symbol_idx p) (sl_allocations e);
  lo_bound : ∀ symbol, shares_where (λ a, la_symbol_idx a =? symbol) (sl_allocations e) ≤ INT64_MAX
}.

Lemma chk64_Some z x : chk64 z = Some x → x = z ∧ INT64_MIN ≤ z ≤ INT64_MAX.
Proof. unfold chk64. destruct (_ && _) eqn:E; [|done]. intros [= <-]. apply andb_true_iff in E as [?%Z.leb_le ?%Z.leb_le]. done. Qed.

Lemma pool_of_Some e symbol i p : pool_of e symbol = Some (i, p) → sl_pools e !! i = Some p ∧ lp_symbol_idx p = symbol.
Proof. unfold pool_of. rewrite list_find_Some. naive_solver. Qed.

Lemma pool_of_None e symbol : pool_of e symbol = None → symbol ∉ (lp_symbol_idx <$> sl_pools e).
Proof. unfold pool_of. rewrite list_find_None, Forall_forall. intros H (p & -> & Hp)%list_elem_of_fmap. by apply (H p Hp). Qed.

Lemma symbols_insert (pools : list LocatePool) i p q : pools !! i = Some p → lp_symbol_idx q = lp_symbol_idx p → lp_symbol_idx <$> <[i := q]> pools = lp_symbol_idx <$> pools.
Proof. intros Hi Hq. rewrite list_fmap_insert, Hq. apply list_insert_id. by rewrite list_lookup_fmap, Hi. Qed.

Lemma locates_new_ok : locates_ok ShortSaleLocateEngine_new.
Proof. split; cbn; try done; constructor. Qed.

Lemma set_borrow_inventory_ok e symbol total fee htb e' ok : locates_ok e → set_borrow_inventory e symbol total fee htb = Some (e', ok) → locates_ok e'.
Proof.
  intros [H1 H2 H3 H4 H5 H6 H7]. unfold set_borrow_inventory. destruct (pool_of e symbol) as [[i p]|] eqn:Hp.
  - apply pool_of_Some in Hp as [Hi Hs]. destruct (chk64 _) as [available|]; cbn [mbind option_bind]; [|done]. intros [= <- <-].
    split; cbn [sl_pools sl_allocations]; rewrite ?(symbols_insert _ _ _ _ Hi), ?length_insert by done; try done.
    intros j q. rewrite list_lookup_insert_Some. intros [(-> & <- & _)|[_ Hq]]; [apply (H6 _ _ Hi)|by eapply H6].
  - apply pool_of_None in Hp. destruct (Z.ltb_spec (Z.of_nat (length (sl_pools e))) locate_max_symbols); intros [= <- <-]; [|by split].
    split; cbn [sl_pools sl_allocations]; rewrite ?fmap_app, ?length_app; try done.
    + cbn. lia.
    + apply NoDup_app. cbn. split_and!; [done| |apply NoDup_singleton]. intros x Hx ->%list_elem_of_singleton. done.
    + intros s Hn. apply H5. set_solver.
    + intros j q Hj%lookup_app_Some. destruct Hj as [Hj|[_ Hj%list_lookup_singleton_Some]]; [by eapply H6|]. destruct Hj as [_ <-]. cbn. by rewrite H5.
Qed.

(** A locate is granted exactly when shares are asked for, the symbol has a pool with that
    many left and the table has room; a refusal changes nothing, and a grant moves the
    shares from the available to the allocated. *)
Lemma request_locate_cases e id client symbol shares now e' r : locates_ok e → request_locate e id client symbol shares now = Some (e', r) →
  (e' = e ∧ ∃ reason, r = inl reason) ∨
  ∃ i p q a, sl_pools e !! i = Some p ∧ lp_symbol_idx p = symbol ∧ 0 < shares ≤ lp_available_shares p ∧ Z.of_nat (length (sl_allocations e)) < kMaxAllocations ∧
    e' = mkLocates (<[i := q]> (sl_pools e)) (sl_allocations e ++ [a]) ∧ r = inr a ∧ la_symbol_idx a = symbol ∧ la_shares a = shares ∧ la_client_id a = client ∧
    lp_symbol_idx q = symbol ∧ lp_available_shares q = lp_available_shares p - shares ∧ lp_allocated_shares q = lp_allocated_shares p + shares ∧ lp_allocated_shares q ≤ INT64_MAX.
Proof.
  intros Hok. unfold request_locate. destruct (Z.leb_spec shares 0). { intros [= <- <-]. left. eauto. }
  destruct (pool_of e symbol) as [[i p]|] eqn:Hp; [|intros [= <- <-]; left; eauto]. apply pool_of_Some in Hp as [Hi Hs].
  destruct (Z.ltb_spec (lp_available_shares p) shares). { intros [= <- <-]. left. eauto. }
  destruct (Z.leb_spec kMaxAllocations (Z.of_nat (length (sl_allocations e)))). { intros [= <- <-]. left. eauto. }
  destruct (chk64 (lp_available_shares p - shares)) as [v|] eqn:Hv; cbn [mbind option_bind]; [|done]. destruct (chk64 (lp_allocated_shares p + shares)) as [w|] eqn:Hw; cbn [mbind option_bind]; [|done].
  apply chk64_Some in Hv as [-> _]. apply chk64_Some in Hw as [-> Hw]. intros [= <- <-]. right. eexists i, p, _, _. split_and!; try done; cbn; lia.
Qed.

Lemma request_locate_ok e id client symbol shares now e' r : locates_ok e → request_locate e id client symbol shares now = Some (e', r) → locates_ok e'.
Proof.
  intros Hok Hr. destruct (request_locate_cases _ _ _ _ _ _ _ _ Hok Hr) as [[-> _]|(i & p & q & a & Hi & Hs & Hsh & Hlen & -> & _ & Ha & Hsa & _ & Hq & _ & Hal & Hmax)]; [done|].
  destruct Hok as [H1 H2 H3 H4 H5 H6 H7]. assert (Hq' : lp_symbol_idx q = lp_symbol_idx p) by congruence. assert (Hone : ∀ s, shares_where (λ a, la_symbol_idx a =? s) [a] = if symbol =? s then shares else 0) by (intros s; cbn; rewrite Ha, Hsa; lia).
  split; cbn [sl_pools sl_allocations]; rewrite ?(symbols_insert _ _ _ _ Hi), ?length_insert, ?length_app by done; try done.
  - cbn. lia.
  - apply Forall_app. split; [done|]. apply Forall_singleton. lia.
  - intros s Hn. rewrite shares_where_app, Hone, (H5 s Hn). destruct (Z.eqb_spec symbol s) as [<-|]; [|done]. exfalso. apply Hn, list_elem_of_fmap. exists p. split; [done|]. by eapply list_elem_of_lookup_2.
  - intros j u. rewrite shares_where_app, Hone, list_lookup_insert_Some. intros [(-> & <- & _)|[Hne Hu]].
    + rewrite Hq, Z.eqb_refl, Hal, (H6 _ _ Hi), Hs. done.
    + destruct (Z.eqb_spec symbol (lp_symbol_idx u)) as [E|]; [|rewrite (H6 _ _ Hu); lia]. exfalso. apply Hne. eapply (NoDup_lookup _ i j (lp_symbol_idx p) H3); rewrite list_lookup_fmap; [by rewrite Hi|rewrite Hu; cbn; congruence].
  - intros s. rewrite shares_where_app, Hone. destruct (Z.eqb_spec symbol s) as [<-|]; [|rewrite Z.add_0_r; done]. rewrite <- Hs, <- (H6 _ _ Hi). lia.
Qed.

Lemma locates_reachable_ok e : locates_reachable e → locates_ok e.
Proof.
  intros H. unfold locates_reachable in H. apply (rtc_ind_r locates_ok ShortSaleLocateEngine_new) in H; [done|apply locates_new_ok|]. intros x y _ Hs IH. destruct Hs; [by eapply set_borrow_inventory_ok|by eapply request_locate_ok].
Qed.

Lemma located_shares l client symbol now acc : Forall (λ a, 0 < la_shares a) l → 0 ≤ acc → acc + shares_where (locate_valid client symbol now) l ≤ INT64_MAX →
  foldl (λ s a, s ← s; if locate_valid client symbol now a then chk64 (s + la_shares a) else Some s) (Some acc) l = Some (acc + shares_where (locate_valid client symbol now) l).
Proof.
  intros Hl. revert acc. induction Hl as [|a l Ha Hl IH]; intros acc Hacc Hmax; cbn [foldl]; [f_equal; cbn; lia|]. cbn [mbind option_bind].
  pose proof (shares_where_mono (locate_valid client symbol now) (λ _, true) l Hl ltac:(done)) as Hpos. change (shares_where (locate_valid client symbol now) (a :: l)) with ((if locate_valid client symbol now a then la_shares a else 0) + shares_where (locate_valid client symbol now) l) in *.
  destruct (locate_valid client symbol now a); [rewrite chk64_ok by (unfold INT64_MIN; lia)|]; rewrite IH by lia; f_equal; lia.
Qed.

(** No short sale without a locate: in every reachable state the check is defined, whatever
    was granted before, and it passes exactly when the unexpired locates of that client in
    that symbol cover the order. *)
Theorem short_sale_needs_a_locate e client symbol qty now : locates_reachable e →
  ∃ ok, validate_short_order e client symbol qty now = Some ok ∧ (ok = true ↔ qty ≤ shares_where (locate_valid client symbol now) (sl_allocations e)) ∧
    (ok = true → 0 < qty → ∃ a, a ∈ sl_allocations e ∧ la_client_id a = client ∧ la_symbol_idx a = symbol ∧ now < la_expiry_ts_ns a).
Proof.
  intros [_ _ _ Hsh _ _ Hmax]%locates_reachable_ok. assert (Hle : 0 ≤ shares_where (locate_valid client symbol now) (sl_allocations e) ≤ INT64_MAX).
  { specialize (Hmax symbol). pose proof (shares_where_mono (locate_valid client symbol now) (λ a, la_symbol_idx a =? symbol) (sl_allocations e) Hsh) as H. unfold locate_valid in *. destruct H; [intros a (((? & ?)%andb_true_iff & ?)%andb_true_iff & ?)%andb_true_iff; done|lia]. }
  unfold validate_short_order. rewrite located_shares by (done || lia). cbn [mbind option_bind]. eexists. split; [reflexivity|]. rewrite Z.add_0_l, Z.leb_le. split; [done|]. intros Hq Hpos.
  assert (Hex : ¬ Forall (λ a, locate_valid client symbol now a = false) (sl_allocations e)).
  { intros Hf. assert (E : shares_where (locate_valid client symbol now) (sl_allocations e) = 0); [|lia]. clear -Hf. unfold shares_where. induction Hf as [|a l Ha _ IH]; cbn; [done|]. by rewrite Ha, IH. }
  apply not_Forall_Exists in Hex; [|intros a; unfold decide; solve_decision]. apply Exists_exists in Hex as (a & Ha & Hv%not_false_is_true). exists a. unfold locate_valid in Hv. apply andb_true_iff in Hv as [((_ & ?%Z.eqb_eq)%andb_true_iff & ?%Z.eqb_eq)%andb_true_iff ?%Z.ltb_lt]. done.
Qed.

(** And no pool lends more than it has: in every reachable state a pool's allocated shares
    are those of its locates, and a request moves shares between its two counters. *)
Theorem locates_conserve_inventory e id client symbol shares now e' r : locates_reachable e → request_locate e id client symbol shares now = Some (e', r) →
  (∀ i p, sl_pools e !! i = Some p → lp_allocated_shares p = shares_where (λ a, la_symbol_idx a =? lp_symbol_idx p) (sl_allocations e)) ∧
  (∀ i p, sl_pools e !! i = Some p → ∃ p', sl_pools e' !! i = Some p' ∧ lp_symbol_idx p' = lp_symbol_idx p ∧ lp_available_shares p' + lp_allocated_shares p' = lp_available_shares p + lp_allocated_shares p ∧ (0 ≤ lp_available_shares p → 0 ≤ lp_available_shares p')).
Proof.
  intros Hok%locates_reachable_ok Hr. split; [apply (lo_lent _ Hok)|]. intros j u Hu. destruct (request_locate_cases _ _ _ _ _ _ _ _ Hok Hr) as [[-> _]|(i & p & q & a & Hi & Hs & Hsh & Hlen & -> & _ & Ha & Hsa & _ & Hq & Hav & Hal & _)]; [eauto|].
  cbn [sl_pools]. destruct (decide (i = j)) as [<-|Hne]; [|rewrite list_lookup_insert_ne by done; eauto]. simplify_eq. exists q. rewrite list_lookup_insert_eq by (by eapply lookup_lt_Some). split_and!; try done; lia.
Qed.

(** ** HardwareLatencyWatchdog *)

Record LatencyJitterSample := mkSample { ls_timestamp_ns : Z; ls_measured_latency_ns : Z; ls_cpu_core_id : Z; ls_is_jitter_anomaly : bool }.
Record HardwareAnomalyReport := mkAnomalies { ha_total_samples : Z; ha_anomaly_count : Z; ha_p50_latency_ns : Z; ha_p99_latency_ns : Z; ha_max_latency_ns : Z; ha_core_isolation_violated : bool }.
Definition watchdog_max_samples : Z := 1024.
Definition kJitterThresholdNs : Z := 2000.
Record HardwareLatencyWatchdog := mkWatchdog { hw_threshold_ns : Z; hw_samples : list LatencyJitterSample; hw_anomaly_count : Z }.
Definition HardwareLatencyWatchdog_new (jitter_threshold_ns : Z) : HardwareLatencyWatchdog := mkWatchdog jitter_threshold_ns [] 0.

Definition watchdog_record_sample (w : HardwareLatencyWatchdog) (timestamp_ns latency_ns cpu_core_id : Z) : HardwareLatencyWatchdog :=
  if watchdog_max_samples <=? Z.of_nat (length (hw_samples w)) then w else
  let anomaly := hw_threshold_ns w <? latency_ns in
  mkWatchdog (hw_threshold_ns w) (hw_samples w ++ [mkSample timestamp_ns latency_ns cpu_core_id anomaly]) (if anomaly then u64 (hw_anomaly_count w + 1) else hw_anomaly_count w).

Definition watchdog_report (w : HardwareLatencyWatchdog) : HardwareAnomalyReport :=
  let num_samples := Z.of_nat (length (hw_samples w)) in
  if num_samples =? 0 then mkAnomalies num_samples (hw_anomaly_count w) 0 0 0 false else
  let sorted_latencies := sort_latencies (ls_measured_latency_ns <$> hw_samples w) in
  let p99_idx := num_samples * 99 / 100 in
  let p99_idx := if num_samples <=? p99_idx then num_samples - 1 else p99_idx in
  mkAnomalies num_samples (hw_anomaly_count w) (default 0 (sorted_latencies !! Z.to_nat (num_samples / 2))) (default 0 (sorted_latencies !! Z.to_nat p99_idx)) (default 0 (sorted_latencies !! Z.to_nat (num_samples - 1))) (0 <? hw_anomaly_count w).

Definition watchdog_reset (w : HardwareLatencyWatchdog) : HardwareLatencyWatchdog := mkWatchdog (hw_threshold_ns w) [] 0.

Definition watchdog_run (threshold : Z) (samples : list (Z * Z * Z)) : HardwareLatencyWatchdog :=
  foldl (λ w s, watchdog_record_sample w s.1.1 s.1.2 s.2) (HardwareLatencyWatchdog_new threshold) samples.

Lemma count_if_all {A} (p : A → bool) l : Z.of_nat (length l) ≤ count_if p l → Forall (λ x, p x = true) l.
Proof.
  unfold count_if. induction l as [|x l IH]; cbn [foldr length]; intros H; [done|]. pose proof (count_if_bounds p l). unfold count_if in *.
  destruct (p x) eqn:E; [|lia]. constructor; [done|]. apply IH. lia.
Qed.

Lemma watchdog_holds threshold samples :
  hw_threshold_ns (watchdog_run threshold samples) = threshold ∧
  ls_measured_latency_ns <$> hw_samples (watchdog_run threshold samples) = take 1024 (samples.*1.*2) ∧
  hw_anomaly_count (watchdog_run threshold samples) = count_if (λ l, threshold <? l) (take 1024 (samples.*1.*2)).
Proof.
  unfold watchdog_run. induction samples as [|s samples IH] using rev_ind; [done|]. rewrite foldl_snoc, !fmap_app. cbn [fmap list_fmap]. set (w := foldl _ _ _) in *. destruct IH as (Ht & Hl & Hc). set (k := samples.*1.*2) in *.
  assert (Hlen : length (hw_samples w) = Nat.min 1024 (length k)) by (by rewrite <- (length_fmap ls_measured_latency_ns), Hl, length_take).
  unfold watchdog_record_sample, watchdog_max_samples. destruct (Z.leb_spec 1024 (Z.of_nat (length (hw_samples w)))).
  - rewrite take_app_le by lia. done.
  - rewrite take_app_ge, (firstn_all2 (n := 1024) k) in * by lia. destruct (1024 - length k)%nat as [|n] eqn:En; [lia|]. cbn [hw_threshold_ns hw_samples hw_anomaly_count take]. rewrite fmap_app, Hl, Ht, Hc. split_and!; [done|by destruct n|].
    rewrite count_if_app. pose proof (count_if_bounds (λ l, threshold <? l) k). destruct n; cbn; destruct (threshold <? s.1.2); rewrite ?u64_small by lia; lia.
Qed.

(** The watchdog reports what it saw: of the first 1024 samples since the reset it counts
    those above the threshold, flags the core exactly when there is one, and its maximum,
    median and 99th percentile are samples that at least the stated share of the others do
    not exceed. *)
Theorem watchdog_reports_the_samples threshold samples :
  samples ≠ [] →
  let seen := take 1024 (samples.*1.*2) in let report := watchdog_report (watchdog_run threshold samples) in
  ha_total_samples report = Z.of_nat (length seen) ∧ ha_anomaly_count report = count_if (λ l, threshold <? l) seen ∧
  (ha_core_isolation_violated report = true ↔ Exists (λ l, threshold < l) seen) ∧
  ha_max_latency_ns report ∈ seen ∧ Forall (λ l, l ≤ ha_max_latency_ns report) seen ∧
  ha_p50_latency_ns report ∈ seen ∧ Z.of_nat (length seen) < 2 * count_if (λ l, l <=? ha_p50_latency_ns report) seen ∧
  ha_p99_latency_ns report ∈ seen ∧ 99 * Z.of_nat (length seen) < 100 * count_if (λ l, l <=? ha_p99_latency_ns report) seen.
Proof.
  intros Hne. cbv zeta. destruct (watchdog_holds threshold samples) as (_ & Hl & Hc). set (w := watchdog_run threshold samples) in *. set (seen := take 1024 _) in *. unfold watchdog_report.
  assert (Hlen : length (hw_samples w) = length seen) by (by rewrite <- (length_fmap ls_measured_latency_ns), Hl).
  assert (Hpos : 0 < Z.of_nat (length seen)) by (unfold seen; rewrite length_take, !length_fmap; destruct samples; [done|cbn [length]; lia]).
  rewrite Hlen, Hl, Hc, (proj2 (Z.eqb_neq _ _)) by lia. cbn [ha_total_samples ha_anomaly_count ha_p50_latency_ns ha_p99_latency_ns ha_max_latency_ns ha_core_isolation_violated].
  destruct (sorted_latencies seen) as [Hs Hp]. set (n := Z.of_nat (length seen)) in *. assert (Hn : length (sort_latencies seen) = length seen) by (by rewrite Hp).
  assert (Hat : ∀ i, 0 ≤ i < n → default 0 (sort_latencies seen !! Z.to_nat i) ∈ seen ∧ i + 1 ≤ count_if (λ l, l <=? default 0 (sort_latencies seen !! Z.to_nat i)) seen).
  { intros i Hi. destruct (lookup_lt_is_Some_2 (sort_latencies seen) (Z.to_nat i)) as [v Hv]; [lia|]. rewrite Hv. cbn [from_option id]. destruct (sorted_counts _ _ _ Hs Hv) as [H1 _]. rewrite (count_if_perm _ _ _ Hp) in H1. split; [rewrite <- Hp; by eapply list_elem_of_lookup_2|lia]. }
  assert (H99 : 0 ≤ n * 99 / 100 < n) by (split; [apply Z.div_pos; lia|apply Z.div_lt_upper_bound; lia]). rewrite (proj2 (Z.leb_gt n _)) by lia.
  destruct (Hat (n - 1)) as [Hmax Hall]; [lia|]. destruct (Hat (n / 2)) as [Hin2 H2]; [split; [apply Z.div_pos; lia|apply Z.div_lt_upper_bound; lia]|]. destruct (Hat (n * 99 / 100)) as [Hin99 H9]; [done|].
  pose proof (Z.div_mod n 2 ltac:(lia)). pose proof (Z.mod_pos_bound n 2 ltac:(lia)). pose proof (Z.div_mod (n * 99) 100 ltac:(lia)). pose proof (Z.mod_pos_bound (n * 99) 100 ltac:(lia)).
  split_and!; try done; try lia.
  - rewrite Z.ltb_lt, Exists_exists. split.
    + intros Hc0. destruct (decide (Exists (λ l, threshold < l) seen)) as [He%Exists_exists|Hno%not_Exists_Forall]; [done| |apply _]. rewrite count_if_none in Hc0; [lia|]. eapply Forall_impl; [exact Hno|]. intros x Hx. cbn in Hx. apply Z.ltb_ge. lia.
    + intros (x & (i & Hi)%list_elem_of_lookup & Hx). by apply (count_if_pos _ _ i x Hi), Z.ltb_lt.
  - eapply Forall_impl; [apply (count_if_all (λ l, l <=? default 0 (sort_latencies seen !! Z.to_nat (n - 1)))); fold n; lia|]. intros x. cbn. apply Z.leb_le.
Qed.
